(* ===== verification/_CoqProject ===== *)
-Q . S2P
Prelude.v
Bytes.v
Crc.v
StorageTypes.v
FileIO.v
Record.v
Journal.v
SegmentFile.v
Pebble.v
Index.v
Allocator.v
Overlay.v
Checkpoint.v
Cache.v
Recover.v
SegmentLog.v
LogParse.v
Framing.v
FramingProofs.v
Store.v
StoreProofs.v
Durability.v
Restart.v
StoreSpec.v
Scenario.v
StoreTheorems.v
Behaviours.v
FormatTheorems.v
MetaKeys.v
MetaScan.v
MetaTypes.v
RaftLog.v
MetaFSM.v
Namespace.v
Extents.v
ChunkRules.v
ChunkGC.v
Backups.v
MetaFSMProofs.v
NamespaceSpec.v
NamespaceProofs.v
NamespaceProgress.v
ExtentProofs.v
ChunkProofs.v
BackupProofs.v
MetaScenario.v
ExtentTheorems.v
ChunkTheorems.v
BackupTheorems.v
MetaTheorems.v
ChangeJournal.v
AdvisoryLocks.v
Resilience.v
SupportTheorems.v
Maintenance.v
CompactionProofs.v
MaintenanceTheorems.v
WorkQueue.v
WorkIndex.v
WorkQueueProofs.v
WriteGC.v
WriteGCProofs.v
WorkTheorems.v
WorkScenario.v
StoreInterface.v
SegmentRefinement.v
DataNode.v
DataNodeProofs.v
DataNodeMoves.v
DataNodeTheorems.v
DataNodeScenario.v
ErasureCode.v
StripeIO.v
StripeProofs.v
StripeTheorems.v
GaloisCode.v
DataNodeShards.v
DataNodeStripes.v
DataNodeStripeTheorems.v
StripeScenario.v
