(* ===== verification/Prelude.v ===== *)
(** * NUFS: a verification development

    NUFS is a distributed file and object store. Data nodes keep immutable
    extents in append-only segment files with a local Pebble index
    ([src/nufs-core/datanode/storage]); a Raft-replicated metadata service
    keeps the namespace as rows of another Pebble database
    ([src/nufs-core/metadata]); gateways and a chunk-store client sit in front
    of both. The development models the two services that hold state: the
    segment store, from the bytes on disk up to Write, Read and crash
    recovery, and the namespace with the conditional batches and log entries
    it commits through, the extents of files and the garbage collection of
    chunks; between them the data node's chunk store, which places chunks on
    the segment stores of its disks, and the erasure-coded reads and writes of
    chunks; the work queues kept in the metadata and the gateway's collection
    of abandoned writes that runs from them; and the change journal, locks
    and resilience primitives beside these.

    ** Conventions

    A Go function that returns an error is a function into [result]; [let!]
    is the early return on error, [refuse c with e in k] the guard
    [if c { return e }]. Unsigned integers are [Z] with their wrap-around
    written out ([u8] to [u64], [i64]); byte slices are [list Z] with
    [bytes_wf]; files are their contents ([FileIO]). The segment store is a
    state monad over [Store] with the outcomes of its system calls in an
    environment, the namespace one over [NS] with commit failures, clock and
    cache evictions in [ns_env], so theorems quantify over faults. Code
    outside the repository is a class with its documented laws: [PebbleKV] and
    [PebbleLaws] (ordered key-value store, both services), [FrameLib] and
    [FrameLaws] (zstd, AES-GCM), [Codec], [CodecLaws] and [InodeAlias]
    (MessagePack and JSON), [RSLib] and [RSLaws] (Reed-Solomon coding). Each
    has an instance ([gmap_kv], those of [Scenario] and [MetaScenario], the
    code of [GaloisCode]), on which the theorems are applied. Between the
    components of the repository, [StorageStore] with [StorageLaws] is what a
    local store promises a data node, [Indexed] what a log with an index
    promises a queue.

    ** The segment store

    - [Bytes], [Crc], [StorageTypes], [FileIO]: slices and big-endian codecs,
      CRC-32C with its burst detection, constants, errors and binary64, files.
    - [Record] ([segment/record.go]), [Journal] ([journal/record.go],
      [commit.go]), [SegmentFile] ([segment/segment.go], [writer.go]),
      [Checkpoint] ([index/recovery_checkpoint.go]): the on-disk formats.
    - [Pebble], [Index] ([index/keys.go], [index.go]), [Allocator], [Overlay],
      [Cache] (files of the same name in [segment/]): the parts of a store.
    - [Recover] ([segment/recover.go]): the replay of a segment log;
      [SegmentLog], [LogParse] prove it against the log as a list of entries.
    - [Framing] ([segment/compress.go], [reader.go],
      [encryption/record_crypto.go]) and [FramingProofs]: frames and reads.
    - [Store] ([segment/store.go], [flush.go], [commit_coordinator.go]): group
      commit, Write, Delete, Read, flush, apply queue, New.
    - [StoreProofs], [Durability], [Restart], [StoreSpec]: invariants, the tie
      between overlay and log,
      one lemma per step; [Scenario] a concrete store.

    [StoreTheorems]: histories of commits into the active segment, flushes,
    index applications in order and crash-restarts (the steps of [run], with
    their conditions) refine a map of extents, which lookups and reads
    answer from; a restart with room for its batches loses nothing
    acknowledged; an acknowledged write is read back, or its segment file
    cannot be opened; a deleted extent is not found; a flush changes no
    lookup; a failed commit publishes nothing.
    [FormatTheorems]: codecs, sealed-segment integrity, exactness and
    termination of the replay, index iteration, allocation preflight, atomic
    checkpoint publication, cache bounds. [Behaviours]: what happens outside
    the hypotheses of these.

    - [Maintenance] ([segment/scan.go], [maintenance/compactor.go],
      [scheduler.go], [compaction_worker.go]): compaction on that store;
      [CompactionProofs] proves the scan, the copy and the removal of the
      source.

    [MaintenanceTheorems]: the scan is exact up to the first INDEX_SAFE
    marker; compaction keeps every extent it can reach and its store's
    invariant; the scheduler selects the best candidates; and what the worker
    loses behind a marker or garbles when records are compressed.

    ** The data node

    - [StoreInterface] ([storage/interface.go]): the operations of a local
      store as a class, its laws in terms of a map of cells (live or
      tombstoned); the segment store as an instance of the operations, the
      map itself as an instance of the laws.
    - [SegmentRefinement]: a segment store in service represents a map of
      cells, and each call of the interface answers from it and moves it as
      the laws say when nothing fails and the active segment has room. The
      laws also speak of calls that fail; there they are hypotheses of the
      node's theorems.
    - [DataNode] ([datanode/server_v2.go], [server_v2_capacity.go],
      [maintenance/capacity.go]): the [V2Store] over any such stores, a state
      monad [N] over disks, location map and counters: placement, the capacity
      guard, writes with generations, the small-file stream, reads, deletes,
      moves (copy and compare-and-swap as two steps), rebalance, drain, disk
      removal, probes and start-up. [DataNodeProofs] and
      [DataNodeMoves] the lemmas, from the laws alone.
    - [DataNodeShards] (the shard part of [server_v2.go]): shards as extents,
      their routing, and 6+3 stripes with degraded reads, repair and reheat.
      [DataNodeStripes] the lemmas, with the class [ReliableStore] of stores
      that answer, and what succeeds on them.

    [DataNodeTheorems]: whatever store calls fail, a node whose writes carry
    newer generations, whose moves start clean and whose restarts find no
    second copies (the steps of [node_step]) refines a map of
    chunks, and a restart of a node without moved chunks finds them all; a
    delayed write of an older generation takes over.
    [DataNodeStripeTheorems]: a repair never harms a stripe and completes it
    when it can; a written stripe is read back while six shards are left.
    [DataNodeScenario] and [StripeScenario] apply them and show runs
    outside their hypotheses, in which deletes, drains and restarts lose,
    revive or hide data.

    ** Erasure coding

    - [ErasureCode] ([chunkstore/ec_encoder.go], [ec_reconstruct.go],
      [datanode/ec63.go]): the library's class and laws, and the two coders.
    - [StripeIO] ([chunkstore/ec.go]): the gateway's direct write of shards
      and its reads, through windows of the owning shards, windows rebuilt
      from others, or the whole stripe. [StripeProofs] the
      lemmas, against any network whose replies are honest.
    - [GaloisCode]: a 6+3 code over the field of 256 elements that meets the
      laws, checked on unit vectors and extended by linearity.

    [StripeTheorems]: reads are exact under any losses a stripe survives, an
    acknowledged write is read back, the two coders are interchangeable, and
    how a chunk row with the allocation cap for its size makes reads return
    the wrong bytes. [StripeScenario] applies them.

    ** The namespace

    - [MetaKeys] ([metadata/keys.go] and the key functions of
      [pebble_store.go], [chunk_tombstone.go]), [MetaScan] (prefix scans and
      paging), [MetaTypes] ([types.go], [errors.go], [codec.go]).
    - [RaftLog] ([pebble_raft.go]): log entries and
      conditional batches, their validation, canonical form and wire format.
      The row-level checks of batch versions 2 to 4 are a record of functions,
      [version_rules], over which the theorems quantify; [ChunkRules] and
      [Backups] below have them.
    - [MetaFSM], [MetaFSMProofs] ([pebble_raft.go], [pebble_store.go]): the
      reference-aware batch, the conditional batch and [PebbleFSM.Apply].
    - [Namespace] ([pebble_store.go]): inode ids, CreateFile, CreateNode,
      Symlink, MkDir, Link, Unlink, RmDir, Rename, Lookup, GetInode, ReadDir,
      UpdateInode, extended attributes, with the inode cache. The store runs
      without a Raft node; [MetaFSM] relates both paths.
    - [NamespaceSpec], [NamespaceProofs], [NamespaceProgress]: the
      abstract file system, the simulation, success of creates, listings;
      [MetaScenario] concrete codecs and a fresh store.

    [MetaTheorems]: histories of namespace operations, with directories made
    and removed only under directories, refine the abstract
    file system, whose entries name inodes of their type and whose link
    counts are entry counts; creates succeed with fresh ids; conditional
    batches, replacements of whole prefixes included, are atomic and
    exclusive; the log path is the direct path behind the term fence; round
    trip and
    canonical form of the log; listings and scans; and operations whose
    effect is not what their comments or POSIX say.

    ** Extents, chunks and backups

    - [Extents] ([extent_page.go], [inode_store.go], [inode_v2_serving.go]):
      the inline and paged layouts of a file, with the calls over them, each
      row write allowed to fail; [ExtentProofs] the lemmas.
    - [ChunkRules] ([chunk_tombstone.go], [backup_catalog.go]): tombstone and
      catalogue rows and the checks of chunk batches.
    - [ChunkGC] ([chunk_tombstone.go], [ChunkGC.Scan] of [production.go],
      allocation and chunk updates of [pebble_store.go]): reference scan,
      tombstoning, purging, collection, allocation. A call's reads and its
      commit see databases given separately, so that other clients may commit
      between them; [ChunkProofs] the lemmas, and the shapes of the batches
      the rules accept.

    - [Backups], [BackupProofs] ([backup_catalog.go]): backup tasks and their
      workflow, the committed catalogue, the cluster's identity, the restore
      marker, and the checks of term-fenced batches.

    [ExtentTheorems]: layout changes refine a map from files to extent lists
    whatever writes fail; appends keep order; a commit is resolved to its
    chunks, except for the offset of a single inline one; and four ways in which a call loses or revives extents.
    [ChunkTheorems]: a collection keeps what files refer to and purges only
    what quarantine and catalogue allow, a purge also under interference
    (with what a catalogue row that returns to an earlier value leaves of
    that); accepted batches keep tombstones and chunks in step; what an
    allocation commits, and drops on a V2 inode; and where references and tombstones part. [BackupTheorems]: the
    life of a task under any interleaving, also for batches built elsewhere;
    the catalogue is read back and stays consistent; the bounded heap lists
    what a full sort would; one cluster identity.

    ** Work queues and abandoned writes

    - [WorkQueue] ([background_task.go], [write_attempt.go],
      [ec_conversion_scheduler.go]): background tasks with their leases and
      retries, the log of write attempts, the scheduler of erasure-coding
      conversions. Both logs keep a row per record and an index row whose key
      carries state and time.
    - [WorkIndex]: the class [Indexed] of such logs, its laws and the
      refinement of a log to a map, proved once; [WorkQueueProofs] makes both
      logs instances and proves leases and the scheduler's scan.
    - [WriteGC], [WriteGCProofs] ([gateway/s3/write_gc.go],
      [background_workers.go]): the sweep over failed and abandoned attempts
      and the periodic task that carries it; the metadata calls it makes are
      the definitions of [WorkQueue] and [ChunkGC].

    [WorkTheorems]: both logs refine maps and are listed exactly, as long as
    no live record is put again under its own index key; on such a log a
    lease hands out a due task and no other; a sweep tombstones no chunk a file
    refers to and touches no fresh attempt; a scheduler pass queues what
    qualifies; and where a task is lost, by a rewrite under its own index key
    or by the death of the worker that leased it. [WorkScenario] applies them
    to a concrete database and shows two workers with one lease.

    ** Journal, locks and resilience

    - [ChangeJournal] ([journal/change_journal.go],
      [datanode/heartbeat.go], [ReconcileChangeEvents] of
      [pebble_store.go]): the durable feed of extent changes, and its delivery
      by heartbeats that can fail at any step.
    - [AdvisoryLocks] ([metadata/lock.go]): the sharded lock table.
    - [Resilience] ([internal/resilience/breaker],
      [retry], [lock]): circuit breaker, retry loop, keyed mutex; the breaker
      and the mutex are step relations over interleaved calls.

    [SupportTheorems]: a torn append to a clean journal loses nothing written
    before it; heartbeats lose no event
    and deliver all; locks exclude, also across threads; a retry returns; and
    where re-entry, late time-outs and half-open breakers give less than
    documented.

    ** Fuel

    Loops that are not structural take fuel: the replay and the sealed-CRC
    loop a step per byte of the file ([recovery_scan_terminates] proves that
    enough), eviction a step per entry, publication a step per pending
    sequence, [all_pages] a page per row and one more, decimal digits 20, the
    journal decoder a round per byte, the retry loop one per attempt, page
    resolution a root at a time down to 0, a rebalance a move per listed
    extent (or 64), as in the source; the attempts of snapshots, catalogue
    captures and allocations are the source's constants.

    ** Not modelled

    Failures of the Pebble writes of a segment store's index and of the
    truncation and sync of its recovery; the reconciliation of an unknown
    Raft outcome in an allocation (the allocation runs without a Raft node);
    overflow of Go's [int] counters (reference counts, retries), which are
    [Z] here. Goroutine scheduling below the steps named here (a commit, an apply, a
    flush are atomic, as their mutexes make them), cancelled contexts,
    metrics, logging and events; of the data node, adding a disk at run time,
    the drain barrier, the manifest, self-healing and replication between
    nodes; of the chunk-store client, pools, buffers and replica writes; in
    [metadata/]: buckets, placement, the erasure-coding lifecycle, sharding,
    backup repositories and their coordinator, authentication, Raft itself
    and its snapshots; the gRPC and HTTP servers, the gateways, the command-line programs and
    the admin console, which are I/O around these operations. *)

From stdpp Require Import base list numbers strings.
From Stdlib Require Import ZArith Lia.

Local Open Scope Z_scope.

(** ** Results of fallible Go functions

    A Go function returning [(T, error)] is a function into [result E T]:
    [Ok] is the [nil]-error return, [Err e] the early return with [e]. *)

Inductive result (E A : Type) : Type :=
| Ok (a : A)
| Err (e : E).

Arguments Ok {E A} a.
Arguments Err {E A} e.

#[export] Instance result_ret {E} : MRet (result E) := fun A a => Ok a.
#[export] Instance result_bind {E} : MBind (result E) :=
  fun A B f r => match r with Ok a => f a | Err e => Err e end.

#[export] Instance result_eq_dec {E A} `{EqDecision E, EqDecision A} :
  EqDecision (result E A).
Proof. solve_decision. Defined.

Declare Scope go_scope.
Delimit Scope go_scope with go.

(** [let! x := c in k] is [x, err := c; if err != nil { return err }; k]. *)
Notation "'let!' x ':=' c 'in' k" := (mbind (fun x => k) c)
  (at level 10, x pattern, c at level 100, k at level 200,
   format "'[v' 'let!'  x  ':='  c  'in' '/' k ']'") : go_scope.

(** [refuse c with e in k] is [if c { return e }; k]. *)
Notation "'refuse' c 'with' e 'in' k" := (if c then Err e else k)
  (at level 10, c at level 100, e at level 100, k at level 200,
   format "'[v' 'refuse'  c  'with'  e  'in' '/' k ']'") : go_scope.

Definition is_ok {E A} (r : result E A) : bool :=
  match r with Ok _ => true | Err _ => false end.

Lemma bind_Ok_inv {E A B} (c : result E A) (k : A -> result E B) b :
  mbind k c = Ok b -> exists a, c = Ok a /\ k a = Ok b.
Proof. destruct c; simpl; [eauto|discriminate]. Qed.

Lemma bind_Ok {E A B} (a : A) (k : A -> result E B) : mbind k (Ok a) = k a.
Proof. done. Qed.

Lemma refuse_pass {E A} (c : bool) (e : E) (k : result E A) :
  c = false -> (if c then Err e else k) = k.
Proof. by intros ->. Qed.

Lemma Ok_inj {E A} (a b : A) : @Ok E A a = Ok b -> a = b.
Proof. congruence. Qed.

(** ** Go's fixed-width integers

    A [w]-bit unsigned value is a [Z] in [[0, 2^w)]; the conversions
    [uintW(x)] and [intW(x)] wrap. *)

Definition wrap (w : Z) (x : Z) : Z := x mod 2 ^ w.
Abbreviation u8 := (wrap 8).
Abbreviation u16 := (wrap 16).
Abbreviation u32 := (wrap 32).
Abbreviation u64 := (wrap 64).

(** [int64(x)] of an unsigned 64-bit [x]: two's complement. *)
Definition i64 (x : Z) : Z :=
  let y := u64 x in if y <? 2 ^ 63 then y else y - 2 ^ 64.

Definition uintw (w x : Z) : Prop := 0 <= x < 2 ^ w.
Abbreviation is_u8 := (uintw 8).
Abbreviation is_u16 := (uintw 16).
Abbreviation is_u32 := (uintw 32).
Abbreviation is_u64 := (uintw 64).
Definition is_i64 (x : Z) : Prop := - 2 ^ 63 <= x < 2 ^ 63.

Lemma wrap_small w x : uintw w x -> wrap w x = x.
Proof. apply Z.mod_small. Qed.

Lemma wrap_bound w x : 0 <= w -> uintw w (wrap w x).
Proof. intros. apply Z.mod_pos_bound, Z.pow_pos_nonneg; lia. Qed.

Lemma i64_small x : is_i64 x -> i64 (u64 x) = x.
Proof.
  unfold i64, is_i64, wrap. intros H.
  rewrite Z.mod_mod by lia.
  destruct (Z.ltb_spec (x mod 2 ^ 64) (2 ^ 63)) as [Hl|Hl].
  - destruct (Z.le_gt_cases 0 x).
    + apply Z.mod_small. lia.
    + rewrite <- (Z.mod_add _ 1) in Hl by lia. rewrite Z.mod_small in Hl; lia.
  - destruct (Z.le_gt_cases 0 x).
    + rewrite Z.mod_small in Hl; lia.
    + rewrite <- (Z.mod_add x 1) by lia. rewrite Z.mod_small; lia.
Qed.

(** ** Hint database and tactics of the development *)

Create HintDb nufs.
#[export] Hint Resolve wrap_small wrap_bound i64_small : nufs.

(** Case analysis on the boolean comparisons a Go condition compiles to. *)
Ltac bool_case :=
  match goal with
  | |- context [Z.ltb ?a ?b] => destruct (Z.ltb_spec a b)
  | |- context [Z.leb ?a ?b] => destruct (Z.leb_spec a b)
  | |- context [Z.eqb ?a ?b] => destruct (Z.eqb_spec a b)
  | H : context [Z.ltb ?a ?b] |- _ => destruct (Z.ltb_spec a b)
  | H : context [Z.leb ?a ?b] |- _ => destruct (Z.leb_spec a b)
  | H : context [Z.eqb ?a ?b] |- _ => destruct (Z.eqb_spec a b)
  end.

Ltac bool_cases := repeat (bool_case; simpl in *; try lia; try discriminate).

(** Invert the successful run of a monadic definition, one bind at a time. *)
Ltac ok_inv :=
  repeat match goal with
  | H : mbind _ ?c = Ok _ |- _ =>
      let a := fresh "r" in let E := fresh "E" in
      apply bind_Ok_inv in H; destruct H as (a & E & H)
  | H : (if ?c then Err _ else _) = Ok _ |- _ =>
      let E := fresh "G" in destruct c eqn:E; [discriminate H|]
  | H : Ok _ = Ok _ |- _ => apply Ok_inj in H
  | H : Err _ = Ok _ |- _ => discriminate H
  end.

(** A run with the given outcome. *)
Lemma result_of {A B} (p : A * B) b : p.2 = b -> p = (p.1, b).
Proof. by destruct p as [a b'] ; cbn; intros ->. Qed.
