(* ===== verification/Bytes.v ===== *)
(** * Byte buffers and big-endian codecs

    What the storage formats use of Go's slices and of [encoding/binary]:
    a [[]byte] is a [list Z] whose elements are in [[0,256)];
    [binary.BigEndian.PutUintN(dst[a:b], x)] is a [put] of [be_enc n x] at
    offset [a]; [binary.BigEndian.UintN(src[a:b])] is [get_be a n src].

    An encoder is a table of puts ([puts]); [puts_contiguous] turns a table
    that fills a buffer from left to right into a concatenation, which is the
    form every decode-after-encode proof works on. *)

From stdpp Require Import base list numbers.
From Stdlib Require Import ZArith Lia.
From S2P Require Import Prelude.

Local Open Scope Z_scope.

Definition bytes_wf (l : list Z) : Prop := Forall is_u8 l.

(** ** Big-endian integers *)

Definition be_byte (x : Z) (i : nat) : Z := Z.land (Z.shiftr x (8 * Z.of_nat i)) 255.

Fixpoint be_enc (n : nat) (x : Z) : list Z :=
  match n with
  | O => []
  | S m => be_byte x m :: be_enc m x
  end.

Fixpoint be_dec_from (acc : Z) (l : list Z) : Z :=
  match l with
  | [] => acc
  | b :: l => be_dec_from (acc * 256 + b) l
  end.

Definition be_dec (l : list Z) : Z := be_dec_from 0 l.

(** ** Slices *)

(** [src[off : off+n]] *)
Definition field (off n : nat) (src : list Z) : list Z := take n (drop off src).

(** [binary.BigEndian.UintN(src[off : off+n])] *)
Definition get_be (off n : nat) (src : list Z) : Z := be_dec (field off n src).

(** [src[off]], for an offset the caller has bounds-checked. *)
Definition get_byte (off : nat) (src : list Z) : Z := be_dec (field off 1 src).

(** [copy(dst[off:], bs)], for a [dst] the caller has bounds-checked. *)
Definition put (dst : list Z) (p : nat * list Z) : list Z :=
  take p.1 dst ++ p.2 ++ drop (p.1 + length p.2) dst.

Definition puts (tbl : list (nat * list Z)) (dst : list Z) : list Z :=
  fold_left put tbl dst.

(** The table fills the buffer left to right from [off] without gaps. *)
Fixpoint contiguous (off : nat) (tbl : list (nat * list Z)) : bool :=
  match tbl with
  | [] => true
  | (o, bs) :: tbl => Nat.eqb o off && contiguous (off + length bs) tbl
  end.

Definition table_bytes (tbl : list (nat * list Z)) : list Z := concat (map snd tbl).

(** ** Lemmas *)

Lemma be_byte_bound x i : is_u8 (be_byte x i).
Proof.
  unfold be_byte, uintw. change 255 with (Z.ones 8).
  rewrite Z.land_ones by lia. apply Z.mod_pos_bound. lia.
Qed.

Lemma be_byte_div x i : be_byte x i = x / 256 ^ Z.of_nat i mod 256.
Proof.
  unfold be_byte. change 255 with (Z.ones 8).
  rewrite Z.land_ones, Z.shiftr_div_pow2 by lia.
  rewrite Z.pow_mul_r by lia. done.
Qed.

Lemma length_be_enc n x : length (be_enc n x) = n.
Proof. induction n; simpl; congruence. Qed.

Lemma be_enc_wf n x : bytes_wf (be_enc n x).
Proof. induction n; constructor; [apply be_byte_bound|done]. Qed.

Lemma be_dec_from_spec l acc :
  be_dec_from acc l = acc * 256 ^ Z.of_nat (length l) + be_dec l.
Proof.
  unfold be_dec. revert acc. induction l as [|b l IH]; intros acc; simpl; [lia|].
  rewrite (IH (acc * 256 + b)), (IH (0 * 256 + b)).
  rewrite Nat2Z.inj_succ, Z.pow_succ_r by lia. ring.
Qed.

Lemma be_dec_cons b l :
  be_dec (b :: l) = b * 256 ^ Z.of_nat (length l) + be_dec l.
Proof. unfold be_dec at 1. simpl. rewrite be_dec_from_spec. f_equal. Qed.

Lemma be_dec_bound l : bytes_wf l -> 0 <= be_dec l < 256 ^ Z.of_nat (length l).
Proof.
  induction 1 as [|b l Hb Hl IH]; [unfold be_dec; simpl; lia|].
  rewrite be_dec_cons. simpl length. rewrite Nat2Z.inj_succ, Z.pow_succ_r by lia.
  unfold uintw in Hb. nia.
Qed.

Lemma be_dec_enc n x : be_dec (be_enc n x) = x mod 256 ^ Z.of_nat n.
Proof.
  induction n as [|n IH]; [unfold be_dec; simpl; by rewrite Z.mod_1_r|].
  simpl be_enc. rewrite be_dec_cons, length_be_enc, IH, be_byte_div.
  rewrite Nat2Z.inj_succ, Z.pow_succ_r, (Z.mul_comm 256) by lia.
  rewrite Z.rem_mul_r by lia. ring.
Qed.

Lemma be_dec_inj l k :
  bytes_wf l -> bytes_wf k -> length l = length k -> be_dec l = be_dec k -> l = k.
Proof.
  intros Hl. revert k. induction Hl as [|b l Hb Hl IH]; intros k Hk Hlen E.
  { by destruct k. }
  destruct Hk as [|c k Hc Hk]; [done|]. simpl in Hlen.
  rewrite !be_dec_cons in E. injection Hlen as Hlen. rewrite Hlen in E.
  pose proof (be_dec_bound l Hl) as B1. pose proof (be_dec_bound k Hk) as B2.
  rewrite Hlen in B1. assert (b = c) as -> by nia.
  f_equal. apply IH; [done|done|lia].
Qed.

Lemma be_enc_dec l : bytes_wf l -> be_enc (length l) (be_dec l) = l.
Proof.
  intros H. apply be_dec_inj; [apply be_enc_wf|done|apply length_be_enc|].
  rewrite be_dec_enc. apply Z.mod_small, be_dec_bound, H.
Qed.

Lemma be_enc_inj n x y :
  0 <= x < 256 ^ Z.of_nat n -> 0 <= y < 256 ^ Z.of_nat n ->
  be_enc n x = be_enc n y -> x = y.
Proof.
  intros Hx Hy E. apply (f_equal be_dec) in E.
  rewrite !be_dec_enc, !Z.mod_small in E; lia.
Qed.

Lemma bytes_wf_app l k : bytes_wf (l ++ k) <-> bytes_wf l /\ bytes_wf k.
Proof. apply Forall_app. Qed.

Lemma bytes_wf_take n l : bytes_wf l -> bytes_wf (take n l).
Proof. apply Forall_take. Qed.

Lemma bytes_wf_drop n l : bytes_wf l -> bytes_wf (drop n l).
Proof. apply Forall_drop. Qed.

#[export] Hint Resolve be_byte_bound be_enc_wf bytes_wf_take bytes_wf_drop : nufs.

(** *** Slices of concatenations *)

Lemma field_app_l off n l k :
  (off + n <= length l)%nat -> field off n (l ++ k) = field off n l.
Proof.
  intros. unfold field. rewrite drop_app_le, take_app_le by (rewrite ?length_drop; lia).
  done.
Qed.

Lemma field_app_r l k off n :
  field (length l + off) n (l ++ k) = field off n k.
Proof. unfold field. by rewrite drop_app_add. Qed.

Lemma field_all l : field 0 (length l) l = l.
Proof. unfold field. by rewrite drop_0, firstn_all. Qed.

Lemma length_field off n l : (off + n <= length l)%nat -> length (field off n l) = n.
Proof. intros. unfold field. rewrite length_take, length_drop. lia. Qed.

Lemma field_wf off n l : bytes_wf l -> bytes_wf (field off n l).
Proof. intros. unfold field. auto with nufs. Qed.

Lemma field_field a n b m l :
  (b + m <= n)%nat -> field b m (field a n l) = field (a + b) m l.
Proof.
  intros. unfold field. rewrite skipn_firstn_comm, take_take, drop_drop.
  f_equal. lia.
Qed.

Lemma field_take off n m l : (off + n <= m)%nat -> field off n (take m l) = field off n l.
Proof.
  intros. unfold field. rewrite skipn_firstn_comm, take_take. f_equal. lia.
Qed.

Lemma field_prefix_irrelevant pre u v rest off n :
  length u = length v -> (length pre + length u <= off)%nat ->
  field off n (pre ++ u ++ rest) = field off n (pre ++ v ++ rest).
Proof.
  intros Hl Ho. rewrite !app_assoc.
  replace off with (length (pre ++ u) + (off - length (pre ++ u)))%nat at 1
    by (rewrite length_app; lia).
  replace off with (length (pre ++ v) + (off - length (pre ++ u)))%nat at 2
    by (rewrite !length_app; lia).
  by rewrite !field_app_r.
Qed.

Lemma field_0_app_window n pre u rest :
  (length pre + length u <= n)%nat ->
  field 0 n (pre ++ u ++ rest) = pre ++ u ++ take (n - length pre - length u) rest.
Proof.
  intros. unfold field. rewrite drop_0, take_app_ge by lia. f_equal.
  rewrite take_app_ge by lia. do 2 f_equal. 
Qed.

Lemma be_enc_get off n src :
  bytes_wf src -> (off + n <= length src)%nat -> be_enc n (get_be off n src) = field off n src.
Proof.
  intros Hw Hl. unfold get_be. rewrite <- (length_field off n src Hl) at 1.
  apply be_enc_dec, field_wf, Hw.
Qed.

Lemma field_glue off n m src : field off n src ++ field (off + n) m src = field off (n + m) src.
Proof. unfold field. rewrite <- drop_drop. apply take_take_drop. Qed.

Lemma get_be_bound off n src :
  bytes_wf src -> (off + n <= length src)%nat ->
  0 <= get_be off n src < 256 ^ Z.of_nat n.
Proof.
  intros Hw Hl. pose proof (be_dec_bound _ (field_wf off n src Hw)) as B.
  by rewrite length_field in B.
Qed.

Lemma get_u8 off src : bytes_wf src -> (off + 1 <= length src)%nat -> is_u8 (get_byte off src).
Proof. apply (get_be_bound off 1 src). Qed.
Lemma get_u16 off src : bytes_wf src -> (off + 2 <= length src)%nat -> is_u16 (get_be off 2 src).
Proof. apply (get_be_bound off 2 src). Qed.
Lemma get_u32 off src : bytes_wf src -> (off + 4 <= length src)%nat -> is_u32 (get_be off 4 src).
Proof. apply (get_be_bound off 4 src). Qed.
Lemma get_u64 off src : bytes_wf src -> (off + 8 <= length src)%nat -> is_u64 (get_be off 8 src).
Proof. apply (get_be_bound off 8 src). Qed.

Lemma put_app pre rest bs :
  (length bs <= length rest)%nat ->
  put (pre ++ rest) (length pre, bs) = (pre ++ bs) ++ drop (length bs) rest.
Proof.
  intros. unfold put. simpl.
  rewrite take_app_length, drop_app_add. by rewrite app_assoc.
Qed.

Lemma length_put dst p :
  (p.1 + length p.2 <= length dst)%nat -> length (put dst p) = length dst.
Proof.
  intros. unfold put. rewrite !length_app, length_take, length_drop. lia.
Qed.

Lemma puts_contiguous_from pre tbl rest :
  contiguous (length pre) tbl = true ->
  (length (table_bytes tbl) <= length rest)%nat ->
  puts tbl (pre ++ rest) =
  pre ++ table_bytes tbl ++ drop (length (table_bytes tbl)) rest.
Proof.
  revert pre rest. induction tbl as [|[o bs] tbl IH]; intros pre rest Hc Hl; [done|].
  simpl in Hc. apply andb_true_iff in Hc as [Ho Hc]. apply Nat.eqb_eq in Ho as ->.
  unfold table_bytes in Hl |- *. simpl in Hl |- *. rewrite length_app in Hl.
  rewrite put_app by lia.
  rewrite IH; [|by rewrite length_app|rewrite length_drop; unfold table_bytes; lia].
  unfold table_bytes. rewrite <- !app_assoc, length_app, drop_drop. done.
Qed.

Lemma puts_contiguous tbl dst :
  contiguous 0 tbl = true -> (length (table_bytes tbl) <= length dst)%nat ->
  puts tbl dst = table_bytes tbl ++ drop (length (table_bytes tbl)) dst.
Proof. intros Hc Hl. by apply (puts_contiguous_from []). Qed.

(** *** Decoding explicit bytes *)

Lemma be_dec_1 x : be_dec [be_byte x 0] = u8 x.
Proof. apply (be_dec_enc 1). Qed.
Lemma be_dec_2 x : be_dec [be_byte x 1; be_byte x 0] = u16 x.
Proof. apply (be_dec_enc 2). Qed.
Lemma be_dec_4 x :
  be_dec [be_byte x 3; be_byte x 2; be_byte x 1; be_byte x 0] = u32 x.
Proof. apply (be_dec_enc 4). Qed.
Lemma be_dec_8 x :
  be_dec [be_byte x 7; be_byte x 6; be_byte x 5; be_byte x 4;
          be_byte x 3; be_byte x 2; be_byte x 1; be_byte x 0] = u64 x.
Proof. apply (be_dec_enc 8). Qed.

#[export] Hint Rewrite be_dec_1 be_dec_2 be_dec_4 be_dec_8 : be_dec.

(** Compute every fixed-offset slice of a buffer given as explicit bytes
    followed by a remainder, then collapse the big-endian groups. *)
Ltac be_slices :=
  unfold get_be, get_byte, field, table_bytes in *;
  cbn [be_enc map snd concat app take drop length firstn skipn Nat.add] in *;
  autorewrite with be_dec in *.

(** Width of a decoded field, from the buffer's length. *)
Ltac get_width := first [apply get_u8 | apply get_u16 | apply get_u32 | apply get_u64]; [done|lia].
