(* ===== verification/Crc.v ===== *)
(** * CRC-32 as the storage formats use it

    Models [nufs-core/datanode/storage/crc32c.go] and what it uses of Go's
    [hash/crc32]: [CRC32C] is the reflected Castagnoli CRC of a byte slice,
    [NewCRC32C] a streaming digest over the same state, and
    [crc32.ChecksumIEEE] the reflected IEEE CRC of the change journal and of
    legacy V2 record headers.

    The theorems are what the on-disk formats rely on: the streaming digest
    equals the one-shot checksum, a checksum fits in 32 bits, and two buffers
    that differ only inside one window of at most four bytes never have the
    same checksum. *)

From stdpp Require Import base list numbers.
From Stdlib Require Import ZArith Lia.
From S2P Require Import Prelude Bytes.

Local Open Scope Z_scope.

(** ** Definitions *)

Definition castagnoli : Z := 0x82F63B78.
Definition ieee : Z := 0xEDB88320.

(** One bit of the reflected CRC register. *)
Definition crc_bit (poly s : Z) : Z :=
  let t := Z.shiftr s 1 in if Z.odd s then Z.lxor t poly else t.

(** [tab[byte(crc) ^ v] ^ (crc >> 8)], the table entry unfolded to its
    eight bit steps. *)
Definition crc_byte (poly s b : Z) : Z := Nat.iter 8 (crc_bit poly) (Z.lxor s b).

Definition crc_update (poly s : Z) (data : list Z) : Z :=
  fold_left (crc_byte poly) data s.

(** [crc32.Update(crc, tab, p)]: the register is complemented on the way in
    and out. *)
Definition crc_Update (poly crc : Z) (p : list Z) : Z :=
  Z.lxor (crc_update poly (Z.lxor crc 0xFFFFFFFF) p) 0xFFFFFFFF.

Definition Checksum (poly : Z) (data : list Z) : Z := crc_Update poly 0 data.

Definition CRC32C (data : list Z) : Z := Checksum castagnoli data.
Definition ChecksumIEEE (data : list Z) : Z := Checksum ieee data.

(** The [hash.Hash32] digest: its state is the checksum so far. *)
Definition NewCRC32C : Z := 0.
Definition digest_Write (h : Z) (p : list Z) : Z := crc_Update castagnoli h p.
Definition digest_Sum32 (h : Z) : Z := h.

(** ** Bounds *)

Lemma lxor_bound n x y : 0 <= n -> uintw n x -> uintw n y -> uintw n (Z.lxor x y).
Proof.
  unfold uintw. intros Hn Hx Hy.
  assert (0 <= Z.lxor x y) by (apply Z.lxor_nonneg; lia). split; [done|].
  destruct (Z.eq_dec (Z.lxor x y) 0) as [->|Hnz]; [lia|].
  apply Z.log2_lt_pow2; [lia|].
  pose proof (Z.log2_lxor x y ltac:(lia) ltac:(lia)).
  destruct (Z.eq_dec x 0) as [->|]; [rewrite Z.lxor_0_l in *|].
  { apply Z.log2_lt_pow2; lia. }
  destruct (Z.eq_dec y 0) as [->|]; [rewrite Z.lxor_0_r in *|].
  { apply Z.log2_lt_pow2; lia. }
  assert (Z.log2 x < n) by (apply Z.log2_lt_pow2; lia).
  assert (Z.log2 y < n) by (apply Z.log2_lt_pow2; lia). lia.
Qed.

Lemma lxor_cancel_r x y z : Z.lxor x z = Z.lxor y z -> x = y.
Proof.
  intros E. apply (f_equal (fun t => Z.lxor t z)) in E.
  by rewrite !Z.lxor_assoc, Z.lxor_nilpotent, !Z.lxor_0_r in E.
Qed.

Lemma lxor_ones_invol x : Z.lxor (Z.lxor x 0xFFFFFFFF) 0xFFFFFFFF = x.
Proof. by rewrite Z.lxor_assoc, Z.lxor_nilpotent, Z.lxor_0_r. Qed.

Lemma shiftr1_bound s : is_u32 s -> 0 <= Z.shiftr s 1 < 2 ^ 31.
Proof.
  unfold uintw. intros. rewrite Z.shiftr_div_pow2 by lia. change (2 ^ 1) with 2.
  Z.to_euclidean_division_equations. lia.
Qed.

Lemma crc_bit_bound poly s : is_u32 poly -> is_u32 s -> is_u32 (crc_bit poly s).
Proof.
  intros Hp Hs. unfold crc_bit. pose proof (shiftr1_bound s Hs).
  assert (is_u32 (Z.shiftr s 1)) by (unfold uintw; lia).
  destruct (Z.odd s); [apply lxor_bound; (lia || done)|done].
Qed.

Lemma crc_iter_bound poly n s :
  is_u32 poly -> is_u32 s -> is_u32 (Nat.iter n (crc_bit poly) s).
Proof. intros. induction n; simpl; [done|by apply crc_bit_bound]. Qed.

Lemma u8_u32 b : is_u8 b -> is_u32 b.
Proof. unfold uintw. lia. Qed.

Lemma crc_update_bound poly data s :
  is_u32 poly -> is_u32 s -> bytes_wf data -> is_u32 (crc_update poly s data).
Proof.
  intros Hp Hs Hd. revert s Hs. induction Hd as [|b l Hb Hl IH]; intros s Hs; [done|].
  apply IH, crc_iter_bound; [done|]. apply lxor_bound; [lia|done|by apply u8_u32].
Qed.

Lemma Checksum_bound poly data :
  is_u32 poly -> bytes_wf data -> is_u32 (Checksum poly data).
Proof.
  intros. apply lxor_bound; [lia| |unfold uintw; lia].
  apply crc_update_bound; [done|rewrite Z.lxor_0_l; unfold uintw; lia|done].
Qed.

Lemma CRC32C_bound data : bytes_wf data -> is_u32 (CRC32C data).
Proof. apply Checksum_bound. unfold uintw, castagnoli. lia. Qed.

#[export] Hint Resolve CRC32C_bound : nufs.

(** ** Checksummed tables

    Every checksummed format fills a body, computes the CRC of the body read
    back from the buffer, and then writes the CRC and what follows it. *)
Lemma puts_crc (crc : list Z -> Z) tbl tbl2 n m dst :
  contiguous 0 tbl = true -> length (table_bytes tbl) = n ->
  (forall c, contiguous n (tbl2 c) = true) ->
  (forall c, n + length (table_bytes (tbl2 c)) = m)%nat ->
  (m <= length dst)%nat ->
  puts (tbl2 (crc (field 0 n (puts tbl dst)))) (puts tbl dst) =
  table_bytes tbl ++ table_bytes (tbl2 (crc (table_bytes tbl))) ++ drop m dst.
Proof.
  intros Hc <- Hc2 Hm Hl. pose proof (Hm 0).
  rewrite (puts_contiguous tbl dst) by (done || lia).
  rewrite field_app_l, field_all by lia.
  rewrite puts_contiguous_from by (auto; rewrite length_drop; specialize (Hm (crc (table_bytes tbl))); lia).
  by rewrite drop_drop, Hm.
Qed.

Lemma field_puts tbl n dst :
  contiguous 0 tbl = true -> length (table_bytes tbl) = n -> (n <= length dst)%nat ->
  field 0 n (puts tbl dst) = table_bytes tbl.
Proof.
  intros Hc <- Hl. rewrite puts_contiguous by done. by rewrite field_app_l, field_all by lia.
Qed.

(** ** Streaming *)

Lemma crc_Update_app poly c p q :
  crc_Update poly c (p ++ q) = crc_Update poly (crc_Update poly c p) q.
Proof.
  unfold crc_Update. rewrite lxor_ones_invol. unfold crc_update.
  by rewrite fold_left_app.
Qed.

(** Writing a buffer in pieces into the digest gives the checksum of the
    whole buffer. *)
Lemma digest_chunks chunks :
  digest_Sum32 (fold_left digest_Write chunks NewCRC32C) = CRC32C (concat chunks).
Proof.
  unfold digest_Sum32, CRC32C, Checksum, NewCRC32C, digest_Write.
  generalize 0. induction chunks as [|p ps IH]; intros c; simpl.
  - unfold crc_Update. simpl. by rewrite lxor_ones_invol.
  - rewrite IH. by rewrite crc_Update_app.
Qed.

(** ** Burst detection *)

Section Burst.
Context (poly : Z) (Hp : is_u32 poly) (Htop : Z.testbit poly 31 = true).

Lemma crc_bit_top s : is_u32 s -> Z.testbit (crc_bit poly s) 31 = Z.odd s.
Proof.
  intros Hs. pose proof (shiftr1_bound s Hs) as B.
  assert (Z.testbit (Z.shiftr s 1) 31 = false) as Hz.
  { rewrite <- (Z.mod_small (Z.shiftr s 1) (2 ^ 31)) by lia.
    by apply Z.mod_pow2_bits_high. }
  unfold crc_bit. destruct (Z.odd s); [|done]. by rewrite Z.lxor_spec, Hz, Htop.
Qed.

Lemma crc_bit_inj s t :
  is_u32 s -> is_u32 t -> crc_bit poly s = crc_bit poly t -> s = t.
Proof.
  intros Hs Ht E.
  assert (Z.odd s = Z.odd t) as Ho.
  { rewrite <- (crc_bit_top s), <- (crc_bit_top t) by done. by rewrite E. }
  assert (Z.shiftr s 1 = Z.shiftr t 1) as Es.
  { unfold crc_bit in E. rewrite Ho in E. destruct (Z.odd t); [|done].
    by apply lxor_cancel_r in E. }
  rewrite (Z.div2_odd s), (Z.div2_odd t), Ho, !Z.div2_spec, Es. done.
Qed.

Lemma crc_iter_inj n s t :
  is_u32 s -> is_u32 t ->
  Nat.iter n (crc_bit poly) s = Nat.iter n (crc_bit poly) t -> s = t.
Proof.
  intros Hs Ht. induction n; simpl; [done|]. intros E.
  apply IHn, crc_bit_inj; auto using crc_iter_bound.
Qed.

Lemma crc_bit_lxor_double x y :
  crc_bit poly (Z.lxor x (2 * y)) = Z.lxor (crc_bit poly x) y.
Proof.
  assert (Z.odd (Z.lxor x (2 * y)) = Z.odd x) as Ho.
  { rewrite <- !Z.bit0_odd, Z.lxor_spec, Z.testbit_even_0. apply xorb_false_r. }
  assert (Z.shiftr (Z.lxor x (2 * y)) 1 = Z.lxor (Z.shiftr x 1) y) as Es.
  { rewrite Z.shiftr_lxor. f_equal. rewrite Z.shiftr_div_pow2 by lia.
    rewrite Z.mul_comm. by apply Z.div_mul. }
  unfold crc_bit. rewrite Ho, Es. destruct (Z.odd x); [|done].
  rewrite !Z.lxor_assoc. f_equal. apply Z.lxor_comm.
Qed.

Lemma crc_iter_lxor n x y :
  Nat.iter n (crc_bit poly) (Z.lxor x (2 ^ Z.of_nat n * y)) =
  Z.lxor (Nat.iter n (crc_bit poly) x) y.
Proof.
  revert y. induction n as [|n IH]; intros y; [simpl; by rewrite Z.mul_1_l|].
  simpl. rewrite Nat2Z.inj_succ, Z.pow_succ_r by lia.
  replace (2 * 2 ^ Z.of_nat n * y) with (2 ^ Z.of_nat n * (2 * y)) by ring.
  rewrite IH. apply crc_bit_lxor_double.
Qed.

(** The window read as a little-endian word, by xor. *)
Fixpoint window (u : list Z) : Z :=
  match u with
  | [] => 0
  | b :: u => Z.lxor b (2 ^ 8 * window u)
  end.

Lemma crc_update_window u s :
  crc_update poly s u =
  Nat.iter (8 * length u) (crc_bit poly) (Z.lxor s (window u)).
Proof.
  revert s. induction u as [|b u IH]; intros s; [simpl; by rewrite Z.lxor_0_r|].
  simpl crc_update. rewrite IH. simpl window. simpl length.
  replace (8 * S (length u))%nat with (8 * length u + 8)%nat by lia.
  rewrite Nat.iter_add. f_equal. unfold crc_byte.
  rewrite <- crc_iter_lxor, Z.lxor_assoc. done.
Qed.

Lemma window_cons_mod b u : is_u8 b -> window (b :: u) mod 2 ^ 8 = b.
Proof.
  intros Hb. simpl. apply Z.bits_inj'. intros i Hi.
  destruct (Z.lt_ge_cases i 8).
  - rewrite Z.mod_pow2_bits_low, Z.lxor_spec, (Z.mul_comm (2 ^ 8)) by lia.
    rewrite Z.mul_pow2_bits_low by lia. apply xorb_false_r.
  - rewrite Z.mod_pow2_bits_high by lia.
    rewrite <- (Z.mod_small b (2 ^ 8)) by apply Hb.
    by rewrite Z.mod_pow2_bits_high by lia.
Qed.

Lemma window_bound u :
  bytes_wf u -> uintw (8 * Z.of_nat (length u)) (window u).
Proof.
  induction 1 as [|b u Hb Hu IH]; [unfold uintw; simpl; lia|].
  simpl length. simpl window. apply lxor_bound; [lia| |].
  - unfold uintw in *. split; [lia|].
    apply Z.lt_le_trans with (2 ^ 8); [lia|]. apply Z.pow_le_mono_r; lia.
  - unfold uintw in *. rewrite Nat2Z.inj_succ.
    replace (8 * Z.succ (Z.of_nat (length u))) with (8 + 8 * Z.of_nat (length u)) by lia.
    rewrite Z.pow_add_r by lia. nia.
Qed.

Lemma window_inj u v :
  bytes_wf u -> bytes_wf v -> length u = length v -> window u = window v -> u = v.
Proof.
  intros Hu. revert v. induction Hu as [|b u Hb Hu IH]; intros v Hv Hl E.
  { by destruct v. }
  destruct Hv as [|c v Hc Hv]; [done|].
  assert (b = c) as ->.
  { rewrite <- (window_cons_mod b u), <- (window_cons_mod c v) by done. by rewrite E. }
  f_equal. apply IH; [done|by injection Hl|].
  simpl in E. rewrite !(Z.lxor_comm c) in E. apply lxor_cancel_r in E. lia.
Qed.

Lemma crc_update_inj_state u s t :
  is_u32 s -> is_u32 t -> bytes_wf u ->
  crc_update poly s u = crc_update poly t u -> s = t.
Proof.
  intros Hs Ht Hu. revert s t Hs Ht.
  induction Hu as [|b u Hb Hu IH]; intros s t Hs Ht E; [done|].
  apply u8_u32 in Hb.
  assert (forall z, is_u32 z -> is_u32 (Z.lxor z b)) by (intros; by apply lxor_bound).
  simpl in E. apply IH in E; [|by apply crc_iter_bound; auto..].
  apply crc_iter_inj in E; [|by auto..]. by apply lxor_cancel_r in E.
Qed.

Lemma crc_update_window_inj s u v :
  is_u32 s -> bytes_wf u -> bytes_wf v ->
  length u = length v -> (length u <= 4)%nat ->
  crc_update poly s u = crc_update poly s v -> u = v.
Proof.
  intros Hs Hu Hv Hl H4 E.
  assert (forall w, bytes_wf w -> length w = length u -> is_u32 (window w)) as Hw.
  { intros w Hwf Hlen. pose proof (window_bound w Hwf) as B. unfold uintw in *.
    split; [lia|]. eapply Z.lt_le_trans; [apply B|]. apply Z.pow_le_mono_r; lia. }
  rewrite !crc_update_window, Hl in E.
  apply crc_iter_inj in E; [|by apply lxor_bound; auto..].
  apply window_inj; [done..|]. rewrite !(Z.lxor_comm s) in E. by apply lxor_cancel_r in E.
Qed.

Lemma Checksum_burst pre u v post :
  bytes_wf pre -> bytes_wf u -> bytes_wf v -> bytes_wf post ->
  length u = length v -> (length u <= 4)%nat ->
  Checksum poly (pre ++ u ++ post) = Checksum poly (pre ++ v ++ post) -> u = v.
Proof.
  intros Hpre Hu Hv Hpost Hl H4 E. unfold Checksum, crc_Update in E.
  apply lxor_cancel_r in E. unfold crc_update in E. rewrite !fold_left_app in E.
  change (fold_left (crc_byte poly)) with (fun a b => crc_update poly b a) in E.
  cbv beta in E.
  set (s0 := crc_update poly _ pre) in E.
  assert (is_u32 s0).
  { apply crc_update_bound; [done|rewrite Z.lxor_0_l; unfold uintw; lia|done]. }
  apply crc_update_inj_state in E; [|by apply crc_update_bound..|done].
  by eapply crc_update_window_inj.
Qed.
End Burst.

Lemma CRC32C_burst pre u v post :
  bytes_wf pre -> bytes_wf u -> bytes_wf v -> bytes_wf post ->
  length u = length v -> (length u <= 4)%nat -> u <> v ->
  CRC32C (pre ++ u ++ post) <> CRC32C (pre ++ v ++ post).
Proof.
  intros Hpre Hu Hv Hpost Hl H4 Hne E. apply Hne.
  eapply Checksum_burst; [| |exact Hpre|exact Hu|exact Hv|exact Hpost|done|done|exact E];
    [unfold uintw, castagnoli; lia|done].
Qed.

(** The check value of the Castagnoli CRC on "123456789", as published with
    the polynomial, pins the bit order and the complements. *)
Example CRC32C_check : CRC32C [49; 50; 51; 52; 53; 54; 55; 56; 57] = 0xE3069283.
Proof. reflexivity. Qed.

Example ChecksumIEEE_check :
  ChecksumIEEE [49; 50; 51; 52; 53; 54; 55; 56; 57] = 0xCBF43926.
Proof. reflexivity. Qed.

(** Conversion unfolds a checksum last: proofs about encoded buffers compare
    checksums of syntactically equal bytes. *)
#[global] Strategy 1000 [CRC32C ChecksumIEEE Checksum digest_Write crc_Update].
