(* ===== verification/StorageTypes.v ===== *)
(** * Shared types of the V2 storage engine

    Models [nufs-core/datanode/storage/types.go]: identifiers, format
    constants, the uint8 enumerations (kept as their byte values, because
    decoders produce any byte and the code has a default branch for the rest)
    and the sentinel errors. *)

From stdpp Require Import base list numbers strings.
From Stdlib Require Import ZArith Lia SpecFloat.
From S2P Require Import Prelude.

Local Open Scope Z_scope.

(** ** Errors

    Sentinels are constructors; [fmt.Errorf] with a plain message is [Errorf];
    [fmt.Errorf("%w: ...", e)] is [Wrapf], which [errors.Is] sees through.
    [GoPanic] is a run-time panic, which no caller turns into an error. *)
Inductive err : Type :=
| ErrExtentNotFound
| ErrStaleGeneration
| ErrUnsupportedRecordOperation
| ErrChecksumMismatch
| ErrSegmentUnavailable
| ErrIndexCorrupt
| ErrDecryptFailed
| ErrQuarantined
| ErrCapacity
| ErrSegmentFull
| ErrRecoveryBudgetExceeded
| ErrStoreClosed
| ErrInvalidRange
| ErrUnexpectedEOF
| ErrUnsupportedRecoveryFormat
| ErrIO (msg : string)
| GoPanic (msg : string)
| Errorf (msg : string)
| Wrapf (msg : string) (e : err).

#[export] Instance err_eq_dec : EqDecision err.
Proof. solve_decision. Defined.

(** [errors.Is(e, target)] *)
Fixpoint errors_Is (e target : err) : bool :=
  bool_decide (e = target) ||
  match e with Wrapf _ e' => errors_Is e' target | _ => false end.

Abbreviation go := (result err).

(** ** Identifiers *)

(** [ExtentID.OwnerShard]: [uint16(id >> 48)]. *)
Definition OwnerShard (id : Z) : Z := u16 (Z.shiftr id 48).

(** ** Format constants *)

Definition FormatVersion : Z := 3.
Definition RecordMagic : Z := 0x4E554653.
Definition SegmentMagic : Z := 0x53454744.

Definition SegmentHeaderSize : nat := 22.
Definition SegmentFooterSize : nat := 65.

Definition SmallFileThreshold : Z := 64 * 1024.
Definition DefaultSmallSegmentSize : Z := 2 ^ 30.
Definition DefaultDataSegmentSize : Z := 4 * 2 ^ 30.
Definition MaxRecordsPerSegment : Z := 1000000.

Definition MaxRecoveryRecords : Z := 100000.
Definition MaxRecoveryReplayBytes : Z := 256 * 2 ^ 20.
Definition MaxRecoveryTrailingBytes : Z := 128 * 2 ^ 20.
(** [30 * time.Second] in nanoseconds. *)
Definition RecoveryBudget : Z := 30 * 1000000000.

Definition CompressionNoCompressionThreshold : Z := 4 * 1024.

(** ** Enumerations (uint8) *)

Definition CompressionNone : Z := 0.
Definition CompressionZstd : Z := 1.

Definition SegmentData : Z := 0.
Definition SegmentSmall : Z := 1.

Definition ExtentDurable : Z := 0.
Definition ExtentTombstoned : Z := 1.
Definition ExtentCorrupt : Z := 2.
Definition ExtentRelocating : Z := 3.

(** ** Receipts and relocations *)

Record DurableReceipt := mkReceipt {
  rc_ExtentID : Z; rc_Generation : Z; rc_SegmentID : Z; rc_Offset : Z;
  rc_StoredLen : Z; rc_LogicalLen : Z; rc_Seq : Z
}.

Record Reloc := mkReloc {
  rl_ExtentID : Z; rl_Generation : Z; rl_SegmentID : Z; rl_Offset : Z;
  rl_StoredLen : Z; rl_LogicalLen : Z; rl_Checksum : Z
}.

(** * Go's float64

    The few places where the code computes with [float64] use IEEE 754
    binary64 through the Standard Library's [SpecFloat]: 53 bits of
    precision, exponents up to 1024, rounding to nearest even. *)

Definition float64 : Set := spec_float.

(** [float64(n)] of an integer. *)
Definition f64 (n : Z) : float64 := binary_normalize 53 1024 n 0 false.

Definition f64_add (x y : float64) : float64 := SFadd 53 1024 x y.
Definition f64_sub (x y : float64) : float64 := SFsub 53 1024 x y.
Definition f64_mul (x y : float64) : float64 := SFmul 53 1024 x y.
Definition f64_div (x y : float64) : float64 := SFdiv 53 1024 x y.
Definition f64_leb (x y : float64) : bool := SFleb x y.
Definition f64_ltb (x y : float64) : bool := SFltb x y.

(** A decimal literal [n/d] with [n] and [d] exactly representable: the
    nearest float64, which is what the compiler emits. *)
Definition f64_lit (n d : Z) : float64 := f64_div (f64 n) (f64 d).
