(* ===== verification/FileIO.v ===== *)
(** * Files

    What the storage engine uses of [os.File]: a file is its contents, a
    [list Z] of bytes. [ReadAt] of a whole buffer either returns the bytes or
    fails at end of file; [WriteAt] past the end leaves a hole of zero bytes;
    [Truncate] cuts (or zero-extends) the contents. *)

From stdpp Require Import base list numbers strings.
From Stdlib Require Import ZArith Lia.
From S2P Require Import Prelude Bytes StorageTypes.

Local Open Scope Z_scope.
Local Open Scope go_scope.

Definition file_size (f : list Z) : Z := Z.of_nat (length f).

(** [readFullAt(f, buf, off)] of [recover.go] with [len(buf) = n]: an empty
    read succeeds anywhere, a short read is [io.ErrUnexpectedEOF]. *)
Definition readFullAt (f : list Z) (off : Z) (n : nat) : go (list Z) :=
  refuse off <? 0 with ErrIO "negative offset" in
  refuse negb (Nat.eqb n 0) && (file_size f <? off + Z.of_nat n)
    with ErrUnexpectedEOF in
  Ok (field (Z.to_nat off) n f).

(** [f.WriteAt(buf, off)] *)
Definition writeAt (f : list Z) (off : nat) (buf : list Z) : list Z :=
  take off (f ++ replicate (off - length f) 0) ++ buf ++ drop (off + length buf) f.

(** [f.Truncate(n)] to at most the current size. *)
Definition truncate (f : list Z) (n : Z) : list Z := take (Z.to_nat n) f.

Lemma readFullAt_ok f off n :
  0 <= off -> off + Z.of_nat n <= file_size f ->
  readFullAt f off n = Ok (field (Z.to_nat off) n f).
Proof.
  intros H1 H2. unfold readFullAt.
  rewrite (proj2 (Z.ltb_ge _ _) H1), (proj2 (Z.ltb_ge _ _) H2).
  by rewrite andb_false_r.
Qed.

Lemma readFullAt_inv f off n bs :
  readFullAt f off n = Ok bs ->
  0 <= off /\ (n = 0%nat \/ off + Z.of_nat n <= file_size f)
  /\ bs = field (Z.to_nat off) n f.
Proof.
  unfold readFullAt. intros H. ok_inv. apply Z.ltb_ge in G.
  destruct (Nat.eqb_spec n 0); simpl in G0; [|apply Z.ltb_ge in G0]; subst; auto.
Qed.

Lemma readFullAt_eof f off n :
  0 <= off -> n <> 0%nat -> file_size f < off + Z.of_nat n ->
  readFullAt f off n = Err ErrUnexpectedEOF.
Proof.
  intros H1 H2 H3. unfold readFullAt. rewrite (proj2 (Z.ltb_ge _ _) H1).
  rewrite (proj2 (Nat.eqb_neq _ _) H2), (proj2 (Z.ltb_lt _ _) H3). done.
Qed.

(** Reading behind a known prefix. *)
Lemma readFullAt_app pre f n :
  (n <= length f)%nat -> readFullAt (pre ++ f) (Z.of_nat (length pre)) n = Ok (take n f).
Proof.
  intros. rewrite readFullAt_ok; [|lia|unfold file_size; rewrite length_app; lia].
  rewrite Nat2Z.id. unfold field. by rewrite drop_app_length.
Qed.

Lemma length_readFullAt f off n bs :
  readFullAt f off n = Ok bs -> length bs = n.
Proof.
  intros H. apply readFullAt_inv in H as (H0 & [->|H] & ->); [by unfold field|].
  apply length_field. unfold file_size in H. lia.
Qed.

Lemma writeAt_end f buf : writeAt f (length f) buf = f ++ buf.
Proof.
  unfold writeAt. rewrite Nat.sub_diag. simpl. rewrite app_nil_r, firstn_all.
  rewrite drop_ge by lia. by rewrite app_nil_r.
Qed.

Lemma truncate_app f k : truncate (f ++ k) (file_size f) = f.
Proof. unfold truncate, file_size. rewrite Nat2Z.id. apply take_app_length. Qed.

Lemma file_size_app f k : file_size (f ++ k) = file_size f + file_size k.
Proof. unfold file_size. rewrite length_app. lia. Qed.

#[export] Hint Rewrite file_size_app : nufs.

(** Reading exactly the middle of a file. *)
Lemma readFullAt_window a b c off n :
  off = Z.of_nat (length a) -> n = length b -> readFullAt (a ++ b ++ c) off n = Ok b.
Proof.
  intros -> ->. rewrite readFullAt_app by (rewrite length_app; lia). by rewrite take_app_length.
Qed.
