(* ===== verification/Record.v ===== *)
(** * On-disk record format

    Models [nufs-core/datanode/storage/segment/record.go]: record headers,
    frame indexes and record trailers, with their encoders and decoders on
    byte buffers, and the frame splitter [BuildFrames]. *)

From stdpp Require Import base list numbers strings.
From Stdlib Require Import ZArith Lia.
From S2P Require Import Prelude Bytes Crc StorageTypes.

Local Open Scope Z_scope.
Local Open Scope go_scope.

Definition DefaultFrameSize : Z := 64 * 1024.
Definition RecordHeaderSize : nat := 4 + 1 + 1 + 8 + 8 + 4 + 4 + 1 + 8 + 2 + 2 + 4 + 4 + 4.
Definition RecordTrailerSize : nat := 8 + 4.
Definition FrameIndexEntrySize : nat := 4 + 4 + 1 + 4.

(** ** Record header *)

Record RecordHeader := mkRecordHeader {
  h_Magic : Z; h_Version : Z; h_Op : Z; h_ExtentID : Z; h_Generation : Z;
  h_LogicalLen : Z; h_StoredLen : Z; h_Codec : Z; h_KeyID : Z;
  h_FrameSize : Z; h_FrameCount : Z; h_PayloadChecksum : Z;
  h_HeaderCRC : Z; h_FrameIndexCRC : Z
}.

Definition RecordPut : Z := 1.
Definition RecordDelete : Z := 2.
Definition RecordRelocate : Z := 3.

Definition op_valid (op : Z) : bool :=
  (op =? RecordPut) || (op =? RecordDelete) || (op =? RecordRelocate).

(** [RecordHeader.Encode]: the HeaderCRC field of the receiver is not read,
    the checksum written is computed over bytes [0,47). *)
Definition RecordHeader_Encode (h : RecordHeader) (dst : list Z) : go (list Z) :=
  refuse (length dst <? RecordHeaderSize)%nat
    with Errorf "storage: record header buffer too small" in
  refuse negb (op_valid (h_Op h))
    with Errorf "storage: unsupported record operation" in
  let dst := puts
    [(0, be_enc 4 (h_Magic h)); (4, be_enc 1 (h_Version h)); (5, be_enc 1 (h_Op h));
     (6, be_enc 8 (h_ExtentID h)); (14, be_enc 8 (h_Generation h));
     (22, be_enc 4 (h_LogicalLen h)); (26, be_enc 4 (h_StoredLen h));
     (30, be_enc 1 (h_Codec h)); (31, be_enc 8 (h_KeyID h));
     (39, be_enc 2 (h_FrameSize h)); (41, be_enc 2 (h_FrameCount h));
     (43, be_enc 4 (h_PayloadChecksum h))]%nat dst in
  let hdrCRC := CRC32C (field 0 47 dst) in
  Ok (puts [(47, be_enc 4 hdrCRC); (51, be_enc 4 (h_FrameIndexCRC h))]%nat dst).

(** [RecordHeader.Decode]. The HeaderCRC field of the receiver is not
    assigned by the code; it keeps its previous value, here [old]. *)
Definition RecordHeader_Decode_into (old : Z) (src : list Z) : go RecordHeader :=
  refuse (length src <? RecordHeaderSize)%nat
    with Errorf "storage: record header too short" in
  let h := mkRecordHeader
    (get_be 0 4 src) (get_byte 4 src) (get_byte 5 src) (get_be 6 8 src)
    (get_be 14 8 src) (get_be 22 4 src) (get_be 26 4 src) (get_byte 30 src)
    (get_be 31 8 src) (get_be 39 2 src) (get_be 41 2 src) (get_be 43 4 src)
    old (get_be 51 4 src) in
  let wantCRC := get_be 47 4 src in
  refuse negb (h_Magic h =? RecordMagic) with Errorf "storage: bad record magic" in
  refuse negb (h_Version h =? FormatVersion)
    with Errorf "storage: unsupported record version" in
  let gotCRC := CRC32C (field 0 47 src) in
  refuse negb (gotCRC =? wantCRC)
    with Errorf "storage: record header crc mismatch" in
  refuse negb (op_valid (h_Op h))
    with Errorf "storage: unsupported record operation" in
  Ok h.

(** [var h RecordHeader; h.Decode(src)] *)
Definition RecordHeader_Decode (src : list Z) : go RecordHeader :=
  RecordHeader_Decode_into 0 src.

Definition EffectiveFrameSize (h : RecordHeader) : Z :=
  if h_FrameSize h =? 0 then DefaultFrameSize else h_FrameSize h.

(** ** Frame index *)

Record FrameIndexEntry := mkFrameIndexEntry {
  fe_Offset : Z; fe_StoredLen : Z; fe_Codec : Z; fe_CRC : Z
}.

(** The four puts of one entry at [base]. *)
Definition frame_entry_puts (base : nat) (e : FrameIndexEntry) : list (nat * list Z) :=
  [(base, be_enc 4 (fe_Offset e)); (base + 4, be_enc 4 (fe_StoredLen e));
   (base + 8, be_enc 1 (fe_Codec e)); (base + 9, be_enc 4 (fe_CRC e))]%nat.

Fixpoint frame_index_puts (i : nat) (es : list FrameIndexEntry) : list (nat * list Z) :=
  match es with
  | [] => []
  | e :: es => frame_entry_puts (i * FrameIndexEntrySize) e ++ frame_index_puts (S i) es
  end.

(** [FrameIndex.Encode]: the buffer and the CRC stored in the receiver. *)
Definition FrameIndex_Encode (es : list FrameIndexEntry) (dst : list Z) :
    go (list Z * Z) :=
  let need := (length es * FrameIndexEntrySize)%nat in
  refuse (length dst <? need)%nat with Errorf "storage: frame index buffer too small" in
  let dst := puts (frame_index_puts 0 es) dst in
  Ok (dst, CRC32C (field 0 need dst)).

Definition frame_entry_at (base : nat) (src : list Z) : FrameIndexEntry :=
  mkFrameIndexEntry (get_be base 4 src) (get_be (base + 4) 4 src)
    (get_byte (base + 8) src) (get_be (base + 9) 4 src).

(** [FrameIndex.Decode] *)
Definition FrameIndex_Decode (src : list Z) (expectedCRC : Z) :
    go (list FrameIndexEntry) :=
  refuse negb (length src mod FrameIndexEntrySize =? 0)%nat
    with Errorf "storage: frame index length not multiple of entry size" in
  let entries := map (fun i => frame_entry_at (i * FrameIndexEntrySize) src)
                     (seq 0 (length src / FrameIndexEntrySize)) in
  refuse negb (CRC32C src =? expectedCRC)
    with Errorf "storage: frame index crc mismatch" in
  Ok entries.

(** ** Frames *)

(** The [i]-th frame of a payload: [payload[start:end]] with the clamp. *)
Definition frame_at (payload : list Z) (frameSize : Z) (i : nat) : list Z :=
  let start := (i * Z.to_nat frameSize)%nat in
  let end_ := (start + Z.to_nat frameSize)%nat in
  let end_ := if (length payload <? end_)%nat then length payload else end_ in
  field start (end_ - start) payload.

Definition frame_count (payload : list Z) (frameSize : Z) : nat :=
  Z.to_nat ((Z.of_nat (length payload) + frameSize - 1) / frameSize).

(** [BuildFrames] *)
Definition BuildFrames (payload : list Z) (frameSize : Z) : list Z :=
  let frameSize := if frameSize <=? 0 then DefaultFrameSize else frameSize in
  map (fun i => CRC32C (frame_at payload frameSize i))
      (seq 0 (frame_count payload frameSize)).

(** [VerifyFrameCRC] *)
Definition VerifyFrameCRC (payload : list Z) (want : Z) : go unit :=
  refuse negb (CRC32C payload =? want)
    with Wrapf "stored/computed" ErrChecksumMismatch in
  Ok tt.

(** ** Record trailer *)

Record RecordTrailer := mkRecordTrailer {
  t_FramingLen : Z; t_TrailerCRC : Z; t_Reserved : Z
}.

(** [RecordTrailer.Encode]: the buffer and the updated receiver. *)
Definition RecordTrailer_Encode (t : RecordTrailer) (dst : list Z) :
    go (list Z * RecordTrailer) :=
  refuse (length dst <? RecordTrailerSize)%nat
    with Errorf "storage: record trailer buffer too small" in
  let dst := puts [(0, be_enc 4 (t_FramingLen t))]%nat dst in
  let crc := CRC32C (field 0 4 dst) in
  Ok (puts [(4, be_enc 4 crc); (8, be_enc 4 0)]%nat dst,
      mkRecordTrailer (t_FramingLen t) crc 0).

(** [RecordTrailer.Decode] *)
Definition RecordTrailer_Decode (src : list Z) : go RecordTrailer :=
  refuse (length src <? RecordTrailerSize)%nat
    with Errorf "storage: record trailer too short" in
  let t := mkRecordTrailer (get_be 0 4 src) (get_be 4 4 src) (get_be 8 4 src) in
  refuse negb (CRC32C (field 0 4 src) =? t_TrailerCRC t)
    with Errorf "storage: record trailer crc mismatch" in
  refuse negb (t_Reserved t =? 0)
    with Errorf "storage: record trailer reserved bytes are non-zero" in
  Ok t.

(** [RecordFraming]: uint32 arithmetic, [frameSize] unused by the code. *)
Definition RecordFraming (storedLen frameSize frameCount : Z) : Z :=
  let indexBytes := frameCount * Z.of_nat FrameIndexEntrySize in
  u32 (Z.of_nat RecordHeaderSize + u32 indexBytes + storedLen
       + Z.of_nat RecordTrailerSize).

(** ** Well-formed values: every field fits its Go type *)

Record RecordHeader_wf (h : RecordHeader) : Prop := mkRecordHeader_wf {
  hw_Magic : is_u32 (h_Magic h); hw_Version : is_u8 (h_Version h);
  hw_Op : is_u8 (h_Op h); hw_ExtentID : is_u64 (h_ExtentID h);
  hw_Generation : is_u64 (h_Generation h); hw_LogicalLen : is_u32 (h_LogicalLen h);
  hw_StoredLen : is_u32 (h_StoredLen h); hw_Codec : is_u8 (h_Codec h);
  hw_KeyID : is_u64 (h_KeyID h); hw_FrameSize : is_u16 (h_FrameSize h);
  hw_FrameCount : is_u16 (h_FrameCount h);
  hw_PayloadChecksum : is_u32 (h_PayloadChecksum h);
  hw_FrameIndexCRC : is_u32 (h_FrameIndexCRC h)
}.

Definition FrameIndexEntry_wf (e : FrameIndexEntry) : Prop :=
  is_u32 (fe_Offset e) /\ is_u32 (fe_StoredLen e) /\ is_u8 (fe_Codec e)
  /\ is_u32 (fe_CRC e).

(** A header this format version writes: current magic and version, a known
    operation. *)
Definition header_current (h : RecordHeader) : Prop :=
  h_Magic h = RecordMagic /\ h_Version h = FormatVersion /\ op_valid (h_Op h) = true.

(** ** Bytes of an encoded header *)

Definition header_body (h : RecordHeader) : list Z :=
  table_bytes
    [(0, be_enc 4 (h_Magic h)); (4, be_enc 1 (h_Version h)); (5, be_enc 1 (h_Op h));
     (6, be_enc 8 (h_ExtentID h)); (14, be_enc 8 (h_Generation h));
     (22, be_enc 4 (h_LogicalLen h)); (26, be_enc 4 (h_StoredLen h));
     (30, be_enc 1 (h_Codec h)); (31, be_enc 8 (h_KeyID h));
     (39, be_enc 2 (h_FrameSize h)); (41, be_enc 2 (h_FrameCount h));
     (43, be_enc 4 (h_PayloadChecksum h))]%nat.

Definition header_bytes (h : RecordHeader) : list Z :=
  header_body h ++ be_enc 4 (CRC32C (header_body h)) ++ be_enc 4 (h_FrameIndexCRC h).

Lemma length_header_body h : length (header_body h) = 47%nat.
Proof. reflexivity. Qed.

Lemma length_header_bytes h : length (header_bytes h) = RecordHeaderSize.
Proof. reflexivity. Qed.

Lemma header_body_wf h : bytes_wf (header_body h).
Proof.
  unfold header_body, table_bytes. simpl.
  repeat (constructor; [apply be_byte_bound|]). constructor.
Qed.

Lemma header_bytes_wf h : bytes_wf (header_bytes h).
Proof.
  unfold header_bytes. rewrite !bytes_wf_app. auto using header_body_wf, be_enc_wf.
Qed.

Lemma RecordHeader_Encode_bytes h dst :
  (RecordHeaderSize <= length dst)%nat -> op_valid (h_Op h) = true ->
  RecordHeader_Encode h dst = Ok (header_bytes h ++ drop RecordHeaderSize dst).
Proof.
  intros Hl Hop. unfold RecordHeader_Encode.
  rewrite (proj2 (Nat.ltb_ge _ _) Hl), Hop. simpl negb. cbv iota zeta.
  rewrite (puts_crc CRC32C _
    (fun c => [(47, be_enc 4 c); (51, be_enc 4 (h_FrameIndexCRC h))]%nat) 47 55)
    by (reflexivity || exact Hl).
  unfold header_bytes. rewrite <- app_assoc. reflexivity.
Qed.

(** ** Decoding *)

(** The decoded fields of a buffer, and the checks they pass. *)
Lemma header_bytes_fields h rest :
  RecordHeader_wf h ->
  let src := header_bytes h ++ rest in
  field 0 47 src = header_body h /\
  get_be 47 4 src = CRC32C (header_body h) /\
  mkRecordHeader
    (get_be 0 4 src) (get_byte 4 src) (get_byte 5 src) (get_be 6 8 src)
    (get_be 14 8 src) (get_be 22 4 src) (get_be 26 4 src) (get_byte 30 src)
    (get_be 31 8 src) (get_be 39 2 src) (get_be 41 2 src) (get_be 43 4 src)
    (h_HeaderCRC h) (get_be 51 4 src) = h.
Proof.
  intros W src. subst src. unfold header_bytes. rewrite <- app_assoc.
  set (c := CRC32C (header_body h)).
  assert (is_u32 c) by (apply CRC32C_bound, header_body_wf). clearbody c.
  split; [reflexivity|]. unfold header_body.
  be_slices. destruct W. split; [by rewrite wrap_small|].
  destruct h; simpl in *. by rewrite !wrap_small.
Qed.

Lemma RecordHeader_Decode_bytes h rest :
  RecordHeader_wf h -> header_current h ->
  RecordHeader_Decode_into (h_HeaderCRC h) (header_bytes h ++ rest) = Ok h.
Proof.
  intros W (Hm & Hv & Ho). pose proof (header_bytes_fields h rest W) as (Hb & Hc & Hf).
  unfold RecordHeader_Decode_into.
  rewrite length_app, length_header_bytes.
  rewrite (proj2 (Nat.ltb_ge _ _)) by lia.
  cbv zeta. rewrite Hf, Hb, Hc, Hm, Hv, Ho, !Z.eqb_refl. done.
Qed.

(** What a successful decode says about the bytes. *)
Lemma RecordHeader_Decode_inv old src h :
  RecordHeader_Decode_into old src = Ok h ->
  (RecordHeaderSize <= length src)%nat /\ header_current h /\
  CRC32C (field 0 47 src) = get_be 47 4 src /\
  h = mkRecordHeader
    (get_be 0 4 src) (get_byte 4 src) (get_byte 5 src) (get_be 6 8 src)
    (get_be 14 8 src) (get_be 22 4 src) (get_be 26 4 src) (get_byte 30 src)
    (get_be 31 8 src) (get_be 39 2 src) (get_be 41 2 src) (get_be 43 4 src)
    old (get_be 51 4 src).
Proof.
  unfold RecordHeader_Decode_into. intros H. ok_inv.
  apply negb_false_iff in G0, G1, G2, G3. apply Z.eqb_eq in G0, G1, G2.
  apply Nat.ltb_ge in G. subst h. done.
Qed.

Lemma RecordHeader_Decode_wf old src h :
  bytes_wf src -> RecordHeader_Decode_into old src = Ok h -> RecordHeader_wf h.
Proof.
  intros Hw H. apply RecordHeader_Decode_inv in H as (Hl & _ & _ & ->).
  change RecordHeaderSize with 55%nat in Hl.
  constructor; simpl; get_width.
Qed.

(** ** Round trips and corruption *)

(** Replacing a window of at most four header bytes below the checksum by
    different bytes always makes the header undecodable. *)
Lemma RecordHeader_Decode_burst old old' pre u v rest h :
  bytes_wf (pre ++ u ++ rest) -> bytes_wf v ->
  length u = length v -> (length u <= 4)%nat -> u <> v ->
  (length pre + length u <= 47)%nat ->
  RecordHeader_Decode_into old (pre ++ u ++ rest) = Ok h ->
  is_ok (RecordHeader_Decode_into old' (pre ++ v ++ rest)) = false.
Proof.
  intros Hw Hv Hl H4 Hne H47 H.
  destruct (RecordHeader_Decode_into old' _) as [h'|] eqn:H'; [exfalso|done].
  apply RecordHeader_Decode_inv in H as (_ & _ & C & _).
  apply RecordHeader_Decode_inv in H' as (_ & _ & C' & _).
  rewrite !bytes_wf_app in Hw. destruct Hw as (Wp & Wu & Wr).
  rewrite field_0_app_window in C, C' by lia.
  rewrite <- Hl in C'. unfold get_be in C, C'.
  rewrite (field_prefix_irrelevant pre u v rest) in C by lia. rewrite <- C' in C.
  revert C. apply CRC32C_burst; auto with nufs.
Qed.

(** Decoding is injective on the header bytes: re-encoding what was decoded
    gives the same bytes. *)
Lemma header_canonical old src h :
  bytes_wf src -> RecordHeader_Decode_into old src = Ok h ->
  header_bytes h = take RecordHeaderSize src.
Proof.
  intros Hw H. apply RecordHeader_Decode_inv in H as (Hl & _ & C & ->).
  change RecordHeaderSize with 55%nat in *.
  assert (header_body (mkRecordHeader
    (get_be 0 4 src) (get_byte 4 src) (get_byte 5 src) (get_be 6 8 src)
    (get_be 14 8 src) (get_be 22 4 src) (get_be 26 4 src) (get_byte 30 src)
    (get_be 31 8 src) (get_be 39 2 src) (get_be 41 2 src) (get_be 43 4 src)
    old (get_be 51 4 src)) = field 0 47 src) as B.
  { unfold header_body, table_bytes. cbn [map snd concat h_Magic h_Version h_Op
      h_ExtentID h_Generation h_LogicalLen h_StoredLen h_Codec h_KeyID h_FrameSize
      h_FrameCount h_PayloadChecksum]. unfold get_byte.
    fold (get_be 4 1 src) (get_be 5 1 src) (get_be 30 1 src).
    rewrite !be_enc_get, app_nil_r by (done || lia).
    by rewrite !field_glue. }
  unfold header_bytes. rewrite B, C. simpl h_FrameIndexCRC.
  rewrite !be_enc_get by (done || lia). by rewrite !field_glue.
Qed.

(** ** Frame index *)

Lemma frame_index_contiguous es i :
  contiguous (i * FrameIndexEntrySize) (frame_index_puts i es) = true.
Proof.
  revert i. induction es as [|e es IH]; intros i; [done|].
  simpl. rewrite Nat.eqb_refl. simpl.
  replace (i * FrameIndexEntrySize + 4 + 4)%nat with (i * FrameIndexEntrySize + 8)%nat by lia.
  replace (i * FrameIndexEntrySize + 8 + 1)%nat with (i * FrameIndexEntrySize + 9)%nat by lia.
  rewrite !Nat.eqb_refl. simpl.
  replace (i * FrameIndexEntrySize + 9 + 4)%nat with (S i * FrameIndexEntrySize)%nat
    by (unfold FrameIndexEntrySize; lia).
  apply IH.
Qed.

Definition frame_entry_bytes (e : FrameIndexEntry) : list Z :=
  be_enc 4 (fe_Offset e) ++ be_enc 4 (fe_StoredLen e) ++ be_enc 1 (fe_Codec e)
  ++ be_enc 4 (fe_CRC e).

Definition frame_index_bytes (es : list FrameIndexEntry) : list Z :=
  concat (map frame_entry_bytes es).

Lemma frame_index_table es i : table_bytes (frame_index_puts i es) = frame_index_bytes es.
Proof.
  revert i. induction es as [|e es IH]; intros i; [done|].
  unfold table_bytes in *. simpl frame_index_puts. simpl map. simpl concat.
  rewrite IH. done.
Qed.

Lemma length_frame_index_bytes es :
  length (frame_index_bytes es) = (length es * FrameIndexEntrySize)%nat.
Proof.
  unfold frame_index_bytes. induction es as [|e es IH]; [done|].
  cbn [map concat]. rewrite length_app, IH. done.
Qed.

Lemma frame_index_bytes_wf es : bytes_wf (frame_index_bytes es).
Proof.
  unfold frame_index_bytes. induction es as [|e es IH]; [constructor|].
  cbn [map concat]. unfold frame_entry_bytes. rewrite !bytes_wf_app. auto 6 with nufs.
Qed.

Lemma FrameIndex_Encode_bytes es dst :
  (length es * FrameIndexEntrySize <= length dst)%nat ->
  FrameIndex_Encode es dst =
  Ok (frame_index_bytes es ++ drop (length es * FrameIndexEntrySize) dst,
      CRC32C (frame_index_bytes es)).
Proof.
  intros Hl. unfold FrameIndex_Encode. rewrite (proj2 (Nat.ltb_ge _ _) Hl).
  rewrite (puts_contiguous _ dst); [|apply (frame_index_contiguous es 0)|].
  - rewrite frame_index_table, length_frame_index_bytes.
    rewrite <- (length_frame_index_bytes es), field_app_l, field_all by lia. done.
  - by rewrite frame_index_table, length_frame_index_bytes.
Qed.

Lemma frame_entry_at_bytes e rest :
  FrameIndexEntry_wf e -> frame_entry_at 0 (frame_entry_bytes e ++ rest) = e.
Proof.
  intros (H1 & H2 & H3 & H4). unfold frame_entry_at, frame_entry_bytes.
  rewrite <- !app_assoc. be_slices. rewrite !wrap_small by done. by destruct e.
Qed.

Lemma frame_entry_at_shift pre base rest :
  frame_entry_at (length pre + base) (pre ++ rest) = frame_entry_at base rest.
Proof.
  unfold frame_entry_at, get_byte, get_be. rewrite <- !Nat.add_assoc, !field_app_r. done.
Qed.

Lemma frame_entries_at es rest :
  Forall FrameIndexEntry_wf es ->
  map (fun i => frame_entry_at (i * FrameIndexEntrySize) (frame_index_bytes es ++ rest))
      (seq 0 (length es)) = es.
Proof.
  induction 1 as [|e es He Hes IH]; [done|].
  simpl length. cbn [seq map]. unfold frame_index_bytes. cbn [map concat].
  fold (frame_index_bytes es). rewrite <- app_assoc, Nat.mul_0_l.
  f_equal; [by apply frame_entry_at_bytes|].
  rewrite <- seq_shift, map_map. rewrite <- IH at 2. apply map_ext. intros i.
  replace (S i * FrameIndexEntrySize)%nat
    with (length (frame_entry_bytes e) + i * FrameIndexEntrySize)%nat by done.
  apply frame_entry_at_shift.
Qed.

Lemma FrameIndex_Decode_bytes es :
  Forall FrameIndexEntry_wf es ->
  FrameIndex_Decode (frame_index_bytes es) (CRC32C (frame_index_bytes es)) = Ok es.
Proof.
  intros Hw. unfold FrameIndex_Decode. rewrite length_frame_index_bytes.
  rewrite Nat.Div0.mod_mul, Nat.div_mul by done. rewrite Z.eqb_refl. simpl negb.
  cbv iota zeta. rewrite <- (app_nil_r (frame_index_bytes es)).
  by rewrite frame_entries_at.
Qed.

(** ** Trailer *)

Definition trailer_bytes (framing : Z) : list Z :=
  be_enc 4 framing ++ be_enc 4 (CRC32C (be_enc 4 framing)) ++ be_enc 4 0.

Lemma length_trailer_bytes n : length (trailer_bytes n) = RecordTrailerSize.
Proof. reflexivity. Qed.

Lemma RecordTrailer_Encode_bytes t dst :
  (RecordTrailerSize <= length dst)%nat ->
  RecordTrailer_Encode t dst =
  Ok (trailer_bytes (t_FramingLen t) ++ drop RecordTrailerSize dst,
      mkRecordTrailer (t_FramingLen t) (CRC32C (be_enc 4 (t_FramingLen t))) 0).
Proof.
  intros Hl. unfold RecordTrailer_Encode. rewrite (proj2 (Nat.ltb_ge _ _) Hl). cbv zeta.
  rewrite (puts_crc CRC32C _ (fun c => [(4, be_enc 4 c); (8, be_enc 4 0)]%nat) 4 12)
    by (reflexivity || exact Hl).
  rewrite (puts_contiguous _ dst) by (reflexivity || (change RecordTrailerSize with 12%nat in Hl;
    change (4 <= length dst)%nat; lia)).
  rewrite field_app_l by reflexivity. unfold trailer_bytes. reflexivity.
Qed.

Lemma trailer_fields n c rest :
  is_u32 n -> is_u32 c ->
  let src := be_enc 4 n ++ be_enc 4 c ++ be_enc 4 0 ++ rest in
  field 0 4 src = be_enc 4 n /\ get_be 0 4 src = n /\ get_be 4 4 src = c
  /\ get_be 8 4 src = 0.
Proof. intros Hn Hc src. subst src. split; [done|]. be_slices. by rewrite !wrap_small. Qed.

Lemma RecordTrailer_Decode_bytes n rest :
  is_u32 n ->
  RecordTrailer_Decode (trailer_bytes n ++ rest) =
  Ok (mkRecordTrailer n (CRC32C (be_enc 4 n)) 0).
Proof.
  intros Hn. unfold RecordTrailer_Decode. rewrite length_app, length_trailer_bytes.
  rewrite (proj2 (Nat.ltb_ge _ _)) by lia. cbv zeta.
  unfold trailer_bytes. rewrite <- !app_assoc.
  destruct (trailer_fields n (CRC32C (be_enc 4 n)) rest) as (-> & -> & -> & ->);
    [done|apply CRC32C_bound, be_enc_wf|].
  cbn [t_TrailerCRC t_Reserved]. by rewrite Z.eqb_refl.
Qed.

(** ** Frames partition the payload *)

Lemma frame_at_take payload fs i :
  frame_at payload fs i = take (Z.to_nat fs) (drop (i * Z.to_nat fs) payload).
Proof.
  unfold frame_at, field. set (k := Z.to_nat fs). set (s := (i * k)%nat).
  destruct (Nat.ltb_spec (length payload) (s + k)).
  - rewrite !take_ge by (rewrite length_drop; lia). done.
  - f_equal. lia.
Qed.

Lemma concat_chunks (k n : nat) (l : list Z) :
  concat (map (fun i => take k (drop (i * k) l)) (seq 0 n)) = take (n * k) l.
Proof.
  revert l. induction n as [|n IH]; intros l; [done|].
  cbn [seq map concat]. rewrite <- seq_shift, map_map. rewrite drop_0.
  rewrite (map_ext _ (fun i => take k (drop (i * k) (drop k l)))).
  - rewrite IH. simpl. by rewrite take_take_drop.
  - intros i. by rewrite drop_drop.
Qed.

Lemma frame_count_covers payload fs :
  0 < fs -> (length payload <= frame_count payload fs * Z.to_nat fs)%nat.
Proof.
  intros Hf. unfold frame_count.
  pose proof (Z.mul_div_le (Z.of_nat (length payload) + fs - 1) fs Hf).
  pose proof (Z.mod_pos_bound (Z.of_nat (length payload) + fs - 1) fs Hf).
  pose proof (Z.div_mod (Z.of_nat (length payload) + fs - 1) fs ltac:(lia)).
  assert (0 <= (Z.of_nat (length payload) + fs - 1) / fs) by (apply Z.div_pos; lia).
  nia.
Qed.

Lemma frames_partition payload fs :
  0 < fs ->
  concat (map (frame_at payload fs) (seq 0 (frame_count payload fs))) = payload.
Proof.
  intros Hf. rewrite (map_ext _ _ (frame_at_take payload fs)), concat_chunks.
  apply take_ge, frame_count_covers, Hf.
Qed.

(** Every frame but the last is full and the last is not empty. *)
Lemma frame_at_nonempty payload fs i :
  0 < fs -> (i < frame_count payload fs)%nat ->
  (0 < length (frame_at payload fs i) <= Z.to_nat fs)%nat.
Proof.
  intros Hf Hi. rewrite frame_at_take, length_take, length_drop.
  unfold frame_count in Hi.
  pose proof (Z.mul_div_le (Z.of_nat (length payload) + fs - 1) fs Hf).
  assert (i * Z.to_nat fs < length payload)%nat by nia. lia.
Qed.

Lemma RecordFraming_exact storedLen frameSize frameCount :
  is_u32 storedLen -> is_u16 frameCount ->
  67 + 13 * frameCount + storedLen < 2 ^ 32 ->
  RecordFraming storedLen frameSize frameCount = 67 + 13 * frameCount + storedLen.
Proof.
  intros Hs Hc Hb. unfold RecordFraming, uintw in *.
  change (Z.of_nat FrameIndexEntrySize) with 13.
  change (Z.of_nat RecordHeaderSize) with 55. change (Z.of_nat RecordTrailerSize) with 12.
  rewrite (wrap_small 32 (frameCount * 13)) by (unfold uintw; lia).
  rewrite wrap_small by (unfold uintw; lia). lia.
Qed.

(** ** A whole record, as [WriteRecordFramed] lays it out *)

Definition record_bytes (h : RecordHeader) (idx stored : list Z) (framing : Z) : list Z :=
  header_bytes h ++ idx ++ stored ++ trailer_bytes framing.

Lemma length_record_bytes h idx stored framing :
  length (record_bytes h idx stored framing) = (67 + length idx + length stored)%nat.
Proof.
  unfold record_bytes. rewrite !length_app, length_header_bytes, length_trailer_bytes.
  change RecordHeaderSize with 55%nat. change RecordTrailerSize with 12%nat. lia.
Qed.
