(* ===== verification/Journal.v ===== *)
(** * Commit-log formats

    Models [nufs-core/datanode/storage/journal/record.go] (the fixed-size
    commit-log record, used for INDEX_SAFE markers) and
    [nufs-core/datanode/storage/journal/commit.go] (BatchCommit, the foreground
    durability point, and the batch descriptors its checksum binds). *)

From stdpp Require Import base list numbers strings.
From Stdlib Require Import ZArith Lia.
From S2P Require Import Prelude Bytes Crc StorageTypes.

Local Open Scope Z_scope.
Local Open Scope go_scope.

(** ** Commit record *)

Definition OpPut : Z := 0.
Definition OpTombstone : Z := 1.
Definition OpRelocate : Z := 2.
Definition OpSealSegment : Z := 3.
Definition OpIndexSafe : Z := 4.

Record CommitRecord := mkCommitRecord {
  cr_Seq : Z; cr_Op : Z; cr_ExtentID : Z; cr_Generation : Z; cr_SegmentID : Z;
  cr_Offset : Z; cr_StoredLen : Z; cr_LogicalLen : Z; cr_Checksum : Z;
  cr_SourceSegment : Z; cr_SourceOffset : Z; cr_CRC : Z
}.

Definition CommitRecordSize : nat := 8 + 1 + 8 + 8 + 8 + 8 + 4 + 4 + 4 + 8 + 8 + 4.

Definition commit_record_puts (r : CommitRecord) : list (nat * list Z) :=
  [(0, be_enc 8 (cr_Seq r)); (8, be_enc 1 (cr_Op r)); (9, be_enc 8 (cr_ExtentID r));
   (17, be_enc 8 (cr_Generation r)); (25, be_enc 8 (cr_SegmentID r));
   (33, be_enc 8 (u64 (cr_Offset r))); (41, be_enc 4 (cr_StoredLen r));
   (45, be_enc 4 (cr_LogicalLen r)); (49, be_enc 4 (cr_Checksum r));
   (53, be_enc 8 (cr_SourceSegment r)); (61, be_enc 8 (u64 (cr_SourceOffset r)))]%nat.

(** [CommitRecord.Encode]: the buffer and the CRC stored in the receiver. *)
Definition CommitRecord_Encode (r : CommitRecord) (dst : list Z) : go (list Z * Z) :=
  refuse (length dst <? CommitRecordSize)%nat
    with Errorf "storage: commit record body too small" in
  let dst := puts (commit_record_puts r) dst in
  let crc := CRC32C (field 0 69 dst) in
  Ok (puts [(69, be_enc 4 crc)]%nat dst, crc).

(** [CommitRecord.Decode]; the CRC field of the receiver is not assigned and
    is the zero value here. *)
Definition CommitRecord_Decode (src : list Z) : go CommitRecord :=
  refuse (length src <? CommitRecordSize)%nat
    with Errorf "storage: commit record body too short" in
  let r := mkCommitRecord (get_be 0 8 src) (get_byte 8 src) (get_be 9 8 src)
    (get_be 17 8 src) (get_be 25 8 src) (i64 (get_be 33 8 src)) (get_be 41 4 src)
    (get_be 45 4 src) (get_be 49 4 src) (get_be 53 8 src) (i64 (get_be 61 8 src)) 0 in
  let want := get_be 69 4 src in
  let got := CRC32C (field 0 69 src) in
  refuse negb (got =? want) with Errorf "storage: commit record crc mismatch" in
  Ok r.

(** ** BatchCommit *)

Record BatchCommit := mkBatchCommit {
  bc_Magic : Z; bc_Version : Z; bc_StreamID : Z; bc_Seq : Z; bc_RecordCount : Z;
  bc_FirstOffset : Z; bc_LastOffset : Z; bc_DescriptorsCRC : Z; bc_CRC : Z
}.

Definition BatchCommitMagic : Z := 0x42434F4D.
Definition BatchCommitSize : nat := 4 + 1 + 1 + 8 + 4 + 8 + 8 + 4 + 4.

Definition batch_commit_puts (b : BatchCommit) : list (nat * list Z) :=
  [(0, be_enc 4 (bc_Magic b)); (4, be_enc 1 (bc_Version b)); (5, be_enc 1 (bc_StreamID b));
   (6, be_enc 8 (bc_Seq b)); (14, be_enc 4 (bc_RecordCount b));
   (18, be_enc 8 (u64 (bc_FirstOffset b))); (26, be_enc 8 (u64 (bc_LastOffset b)));
   (34, be_enc 4 (bc_DescriptorsCRC b))]%nat.

(** [BatchCommit.Encode] *)
Definition BatchCommit_Encode (b : BatchCommit) (dst : list Z) : go (list Z) :=
  refuse (length dst <? BatchCommitSize)%nat
    with Errorf "storage: batchcommit buffer too small" in
  let dst := puts (batch_commit_puts b) dst in
  let crc := CRC32C (field 0 38 dst) in
  Ok (puts [(38, be_enc 4 crc)]%nat dst).

(** [BatchCommit.Decode]; the CRC field of the receiver is not assigned. *)
Definition BatchCommit_Decode (src : list Z) : go BatchCommit :=
  refuse (length src <? BatchCommitSize)%nat
    with Errorf "storage: batchcommit too short" in
  let b := mkBatchCommit (get_be 0 4 src) (get_byte 4 src) (get_byte 5 src)
    (get_be 6 8 src) (get_be 14 4 src) (i64 (get_be 18 8 src)) (i64 (get_be 26 8 src))
    (get_be 34 4 src) 0 in
  let want := get_be 38 4 src in
  let got := CRC32C (field 0 38 src) in
  refuse negb (bc_Magic b =? BatchCommitMagic)
    with Errorf "storage: bad batchcommit magic" in
  refuse negb (got =? want) with Errorf "storage: batchcommit crc mismatch" in
  Ok b.

(** ** Batch descriptors *)

Record BatchDescriptor := mkBatchDescriptor {
  bd_ExtentID : Z; bd_Generation : Z; bd_SegmentID : Z; bd_Offset : Z;
  bd_StoredLen : Z; bd_LogicalLen : Z; bd_Checksum : Z; bd_Op : Z
}.

Definition BatchDescriptorSize : nat := 8 + 8 + 8 + 8 + 4 + 4 + 4 + 1.

Definition descriptor_puts (base : nat) (d : BatchDescriptor) : list (nat * list Z) :=
  [(base, be_enc 8 (bd_ExtentID d)); (base + 8, be_enc 8 (bd_Generation d));
   (base + 16, be_enc 8 (bd_SegmentID d)); (base + 24, be_enc 8 (u64 (bd_Offset d)));
   (base + 32, be_enc 4 (bd_StoredLen d)); (base + 36, be_enc 4 (bd_LogicalLen d));
   (base + 40, be_enc 4 (bd_Checksum d)); (base + 44, be_enc 1 (bd_Op d))]%nat.

(** The loop of [EncodeDescriptors]: each descriptor is bounds-checked
    against the buffer before it is written. *)
Fixpoint encode_descriptors_from (i : nat) (descs : list BatchDescriptor)
    (dst : list Z) : go (list Z) :=
  match descs with
  | [] => Ok dst
  | d :: descs =>
      let base := (i * BatchDescriptorSize)%nat in
      refuse (length dst <? base + BatchDescriptorSize)%nat
        with Errorf "storage: descriptor buffer too small" in
      encode_descriptors_from (S i) descs (puts (descriptor_puts base d) dst)
  end.

(** [EncodeDescriptors]: the buffer and the CRC of the used part. *)
Definition EncodeDescriptors (dst : list Z) (descs : list BatchDescriptor) :
    go (list Z * Z) :=
  let! dst := encode_descriptors_from 0 descs dst in
  let used := (length descs * BatchDescriptorSize)%nat in
  Ok (dst, CRC32C (field 0 used dst)).

Definition descriptor_at (base : nat) (src : list Z) : BatchDescriptor :=
  mkBatchDescriptor (get_be base 8 src) (get_be (base + 8) 8 src)
    (get_be (base + 16) 8 src) (i64 (get_be (base + 24) 8 src))
    (get_be (base + 32) 4 src) (get_be (base + 36) 4 src) (get_be (base + 40) 4 src)
    (get_byte (base + 44) src).

(** [DecodeDescriptors] *)
Definition DecodeDescriptors (src : list Z) : go (list BatchDescriptor) :=
  refuse negb (length src mod BatchDescriptorSize =? 0)%nat
    with Errorf "storage: descriptor buffer length not a multiple of entry size" in
  Ok (map (fun i => descriptor_at (i * BatchDescriptorSize) src)
          (seq 0 (length src / BatchDescriptorSize))).

(** ** Well-formed values *)

Record CommitRecord_wf (r : CommitRecord) : Prop := mkCommitRecord_wf {
  crw_Seq : is_u64 (cr_Seq r); crw_Op : is_u8 (cr_Op r);
  crw_ExtentID : is_u64 (cr_ExtentID r); crw_Generation : is_u64 (cr_Generation r);
  crw_SegmentID : is_u64 (cr_SegmentID r); crw_Offset : is_i64 (cr_Offset r);
  crw_StoredLen : is_u32 (cr_StoredLen r); crw_LogicalLen : is_u32 (cr_LogicalLen r);
  crw_Checksum : is_u32 (cr_Checksum r); crw_SourceSegment : is_u64 (cr_SourceSegment r);
  crw_SourceOffset : is_i64 (cr_SourceOffset r)
}.

Record BatchCommit_wf (b : BatchCommit) : Prop := mkBatchCommit_wf {
  bcw_Magic : bc_Magic b = BatchCommitMagic; bcw_Version : is_u8 (bc_Version b);
  bcw_StreamID : is_u8 (bc_StreamID b); bcw_Seq : is_u64 (bc_Seq b);
  bcw_RecordCount : is_u32 (bc_RecordCount b); bcw_FirstOffset : is_i64 (bc_FirstOffset b);
  bcw_LastOffset : is_i64 (bc_LastOffset b); bcw_DescriptorsCRC : is_u32 (bc_DescriptorsCRC b)
}.

Record BatchDescriptor_wf (d : BatchDescriptor) : Prop := mkBatchDescriptor_wf {
  bdw_ExtentID : is_u64 (bd_ExtentID d); bdw_Generation : is_u64 (bd_Generation d);
  bdw_SegmentID : is_u64 (bd_SegmentID d); bdw_Offset : is_i64 (bd_Offset d);
  bdw_StoredLen : is_u32 (bd_StoredLen d); bdw_LogicalLen : is_u32 (bd_LogicalLen d);
  bdw_Checksum : is_u32 (bd_Checksum d); bdw_Op : is_u8 (bd_Op d)
}.

(** ** Commit record: bytes *)

Definition commit_record_body (r : CommitRecord) : list Z := table_bytes (commit_record_puts r).
Definition commit_record_bytes (r : CommitRecord) : list Z :=
  commit_record_body r ++ be_enc 4 (CRC32C (commit_record_body r)).

Lemma length_commit_record_bytes r : length (commit_record_bytes r) = CommitRecordSize.
Proof. reflexivity. Qed.

Lemma commit_record_body_wf r : bytes_wf (commit_record_body r).
Proof.
  unfold commit_record_body, table_bytes. simpl.
  repeat (constructor; [apply be_byte_bound|]). constructor.
Qed.

Lemma commit_record_bytes_wf r : bytes_wf (commit_record_bytes r).
Proof.
  unfold commit_record_bytes. rewrite bytes_wf_app. auto using commit_record_body_wf, be_enc_wf.
Qed.

Lemma CommitRecord_Encode_bytes r dst :
  (CommitRecordSize <= length dst)%nat ->
  CommitRecord_Encode r dst =
  Ok (commit_record_bytes r ++ drop CommitRecordSize dst, CRC32C (commit_record_body r)).
Proof.
  intros Hl. unfold CommitRecord_Encode. rewrite (proj2 (Nat.ltb_ge _ _) Hl). cbv zeta.
  rewrite (puts_crc CRC32C _ (fun c => [(69, be_enc 4 c)]%nat) 69 73)
    by (reflexivity || exact Hl).
  rewrite (field_puts (commit_record_puts r) 69 dst) by
    (reflexivity || exact (Nat.le_trans 69 73 _ ltac:(lia) Hl)).
  fold (commit_record_body r). unfold commit_record_bytes.
  rewrite <- app_assoc. reflexivity.
Qed.

Lemma commit_record_fields r c rest :
  CommitRecord_wf r -> is_u32 c ->
  let src := commit_record_body r ++ be_enc 4 c ++ rest in
  field 0 69 src = commit_record_body r /\ get_be 69 4 src = c /\
  mkCommitRecord (get_be 0 8 src) (get_byte 8 src) (get_be 9 8 src)
    (get_be 17 8 src) (get_be 25 8 src) (i64 (get_be 33 8 src)) (get_be 41 4 src)
    (get_be 45 4 src) (get_be 49 4 src) (get_be 53 8 src) (i64 (get_be 61 8 src))
    (cr_CRC r) = r.
Proof.
  intros W Hc src. subst src. split; [reflexivity|].
  unfold commit_record_body, commit_record_puts. be_slices. destruct W.
  split; [by rewrite wrap_small|]. rewrite !(wrap_small 64 (u64 _)) by (by apply wrap_bound).
  rewrite !i64_small by done. destruct r; simpl in *. by rewrite !wrap_small.
Qed.

Lemma CommitRecord_Decode_bytes r rest :
  CommitRecord_wf r -> cr_CRC r = 0 ->
  CommitRecord_Decode (commit_record_bytes r ++ rest) = Ok r.
Proof.
  intros W H0. unfold CommitRecord_Decode.
  rewrite length_app, length_commit_record_bytes, (proj2 (Nat.ltb_ge _ _)) by lia.
  cbv zeta. unfold commit_record_bytes. rewrite <- app_assoc.
  destruct (commit_record_fields r (CRC32C (commit_record_body r)) rest) as (-> & -> & Hf);
    [done|apply CRC32C_bound, commit_record_body_wf|].
  rewrite H0 in Hf. rewrite Hf. by rewrite Z.eqb_refl.
Qed.

(** A commit record whose sequence is [seq] and whose operation is
    INDEX_SAFE, as [writeIndexSafeLocked] builds it. *)
Definition index_safe_record (seq : Z) : CommitRecord :=
  mkCommitRecord seq OpIndexSafe 0 0 0 0 0 0 0 0 0 0.

Lemma index_safe_record_wf seq : is_u64 seq -> CommitRecord_wf (index_safe_record seq).
Proof. intros. constructor; simpl; try done; unfold is_i64; lia. Qed.

(** ** BatchCommit: bytes *)

Definition batch_commit_body (b : BatchCommit) : list Z := table_bytes (batch_commit_puts b).
Definition batch_commit_bytes (b : BatchCommit) : list Z :=
  batch_commit_body b ++ be_enc 4 (CRC32C (batch_commit_body b)).

Lemma length_batch_commit_bytes b : length (batch_commit_bytes b) = BatchCommitSize.
Proof. reflexivity. Qed.

Lemma batch_commit_body_wf b : bytes_wf (batch_commit_body b).
Proof.
  unfold batch_commit_body, table_bytes. simpl.
  repeat (constructor; [apply be_byte_bound|]). constructor.
Qed.

Lemma batch_commit_bytes_wf b : bytes_wf (batch_commit_bytes b).
Proof.
  unfold batch_commit_bytes. rewrite bytes_wf_app. auto using batch_commit_body_wf, be_enc_wf.
Qed.

Lemma BatchCommit_Encode_bytes b dst :
  (BatchCommitSize <= length dst)%nat ->
  BatchCommit_Encode b dst = Ok (batch_commit_bytes b ++ drop BatchCommitSize dst).
Proof.
  intros Hl. unfold BatchCommit_Encode. rewrite (proj2 (Nat.ltb_ge _ _) Hl). cbv zeta.
  rewrite (puts_crc CRC32C _ (fun c => [(38, be_enc 4 c)]%nat) 38 42)
    by (reflexivity || exact Hl).
  fold (batch_commit_body b). unfold batch_commit_bytes.
  rewrite <- app_assoc. reflexivity.
Qed.

Lemma batch_commit_fields b c rest :
  BatchCommit_wf b -> is_u32 c ->
  let src := batch_commit_body b ++ be_enc 4 c ++ rest in
  field 0 38 src = batch_commit_body b /\ get_be 38 4 src = c /\
  mkBatchCommit (get_be 0 4 src) (get_byte 4 src) (get_byte 5 src)
    (get_be 6 8 src) (get_be 14 4 src) (i64 (get_be 18 8 src)) (i64 (get_be 26 8 src))
    (get_be 34 4 src) (bc_CRC b) = b.
Proof.
  intros W Hc src. subst src. split; [reflexivity|].
  unfold batch_commit_body, batch_commit_puts. be_slices. destruct W as [Hm].
  split; [by rewrite wrap_small|]. rewrite !(wrap_small 64 (u64 _)) by (by apply wrap_bound).
  rewrite !i64_small by done. destruct b; simpl in *. subst. by rewrite !wrap_small.
Qed.

Lemma BatchCommit_Decode_bytes b rest :
  BatchCommit_wf b -> bc_CRC b = 0 ->
  BatchCommit_Decode (batch_commit_bytes b ++ rest) = Ok b.
Proof.
  intros W H0. unfold BatchCommit_Decode.
  rewrite length_app, length_batch_commit_bytes, (proj2 (Nat.ltb_ge _ _)) by lia.
  cbv zeta. unfold batch_commit_bytes. rewrite <- app_assoc.
  destruct (batch_commit_fields b (CRC32C (batch_commit_body b)) rest) as (-> & -> & Hf);
    [done|apply CRC32C_bound, batch_commit_body_wf|].
  rewrite H0 in Hf. rewrite Hf. rewrite (bcw_Magic b W). by rewrite !Z.eqb_refl.
Qed.

Lemma BatchCommit_Decode_inv src b :
  BatchCommit_Decode src = Ok b ->
  (BatchCommitSize <= length src)%nat /\ bc_Magic b = BatchCommitMagic /\
  CRC32C (field 0 38 src) = get_be 38 4 src.
Proof.
  unfold BatchCommit_Decode. intros H. ok_inv.
  apply negb_false_iff in G0, G1. apply Z.eqb_eq in G0, G1. apply Nat.ltb_ge in G.
  subst b. done.
Qed.

(** ** Descriptors: bytes *)

Definition descriptor_bytes (d : BatchDescriptor) : list Z :=
  table_bytes (descriptor_puts 0 d).

Definition descriptors_bytes (ds : list BatchDescriptor) : list Z :=
  concat (map descriptor_bytes ds).

Lemma length_descriptor_bytes d : length (descriptor_bytes d) = BatchDescriptorSize.
Proof. reflexivity. Qed.

Lemma length_descriptors_bytes ds :
  length (descriptors_bytes ds) = (length ds * BatchDescriptorSize)%nat.
Proof.
  unfold descriptors_bytes. induction ds as [|d ds IH]; [done|].
  cbn [map concat]. by rewrite length_app, IH.
Qed.

Lemma descriptors_bytes_wf ds : bytes_wf (descriptors_bytes ds).
Proof.
  unfold descriptors_bytes. induction ds as [|d ds IH]; [constructor|].
  cbn [map concat]. rewrite bytes_wf_app. split; [|done].
  unfold descriptor_bytes, table_bytes. simpl.
  repeat (constructor; [apply be_byte_bound|]). constructor.
Qed.

Lemma descriptor_puts_contiguous base d : contiguous base (descriptor_puts base d) = true.
Proof.
  simpl. rewrite Nat.eqb_refl. simpl.
  rewrite <- !Nat.add_assoc. simpl. by rewrite !Nat.eqb_refl.
Qed.

Lemma encode_descriptors_from_bytes ds pre rest i :
  length pre = (i * BatchDescriptorSize)%nat ->
  (length ds * BatchDescriptorSize <= length rest)%nat ->
  encode_descriptors_from i ds (pre ++ rest) =
  Ok (pre ++ descriptors_bytes ds ++ drop (length ds * BatchDescriptorSize) rest).
Proof.
  revert pre rest i. induction ds as [|d ds IH]; intros pre rest i Hp Hl; [done|].
  simpl length in Hl. cbn [encode_descriptors_from].
  rewrite (proj2 (Nat.ltb_ge _ _)) by (rewrite length_app; lia).
  rewrite <- Hp, puts_contiguous_from; [|apply descriptor_puts_contiguous|].
  - change (length (table_bytes (descriptor_puts (length pre) d))) with BatchDescriptorSize.
    change (table_bytes (descriptor_puts (length pre) d)) with (descriptor_bytes d).
    rewrite app_assoc, IH.
    + f_equal. unfold descriptors_bytes. cbn [map concat].
      rewrite <- !app_assoc, drop_drop. do 3 f_equal.
    + rewrite length_app, length_descriptor_bytes. lia.
    + rewrite length_drop. lia.
  - change (BatchDescriptorSize <= length rest)%nat. lia.
Qed.

Lemma EncodeDescriptors_bytes ds dst :
  (length ds * BatchDescriptorSize <= length dst)%nat ->
  EncodeDescriptors dst ds =
  Ok (descriptors_bytes ds ++ drop (length ds * BatchDescriptorSize) dst,
      CRC32C (descriptors_bytes ds)).
Proof.
  intros Hl. unfold EncodeDescriptors.
  pose proof (encode_descriptors_from_bytes ds [] dst 0 eq_refl Hl) as E.
  simpl app in E. rewrite E. simpl.
  rewrite <- (length_descriptors_bytes ds), field_app_l, field_all by lia. done.
Qed.

Lemma descriptor_at_bytes d rest :
  BatchDescriptor_wf d -> descriptor_at 0 (descriptor_bytes d ++ rest) = d.
Proof.
  intros W. unfold descriptor_at, descriptor_bytes, descriptor_puts. be_slices. destruct W.
  rewrite !(wrap_small 64 (u64 _)) by (by apply wrap_bound).
  rewrite !i64_small by done. rewrite !wrap_small by done. by destruct d.
Qed.

Lemma descriptor_at_shift pre base rest :
  descriptor_at (length pre + base) (pre ++ rest) = descriptor_at base rest.
Proof.
  unfold descriptor_at, get_byte, get_be. rewrite <- !Nat.add_assoc, !field_app_r. done.
Qed.

Lemma DecodeDescriptors_bytes ds :
  Forall BatchDescriptor_wf ds -> DecodeDescriptors (descriptors_bytes ds) = Ok ds.
Proof.
  intros Hw. unfold DecodeDescriptors.
  rewrite length_descriptors_bytes, Nat.Div0.mod_mul, Nat.div_mul by done. simpl negb.
  cbv iota. f_equal. induction Hw as [|d ds Hd Hds IH]; [done|].
  simpl length. cbn [seq map]. unfold descriptors_bytes. cbn [map concat].
  fold (descriptors_bytes ds). f_equal; [by apply descriptor_at_bytes|].
  rewrite <- seq_shift, map_map. rewrite <- IH at 2. apply map_ext. intros i.
  apply (descriptor_at_shift (descriptor_bytes d) (i * BatchDescriptorSize)).
Qed.
