(* ===== verification/SegmentFile.v ===== *)
(** * Segment headers, footers and sealed-segment validation

    Models [nufs-core/datanode/storage/segment/segment.go] and
    [Writer.WriteFooter] of [segment/writer.go]: the fixed header, the footer
    whose SegmentCRC covers the whole file, the chunked checksum
    [sealedSegmentCRC] shared by sealer and validator, and
    [ValidateSealedSegment]. *)

From stdpp Require Import base list numbers strings.
From Stdlib Require Import ZArith Lia.
From S2P Require Import Prelude Bytes Crc StorageTypes FileIO Record.

Local Open Scope Z_scope.
Local Open Scope go_scope.

Definition segmentFooterCRCOffset : nat := SegmentFooterSize - 4.
Definition segmentCRCBufferSize : Z := 64 * 1024.

(** ** Header *)

Record SegmentHeader := mkSegmentHeader {
  sh_Magic : Z; sh_Version : Z; sh_ID : Z; sh_SegmentClass : Z; sh_Reserved : Z;
  sh_HeaderCRC : Z
}.

Definition segment_header_puts (h : SegmentHeader) : list (nat * list Z) :=
  [(0, be_enc 4 (sh_Magic h)); (4, be_enc 1 (sh_Version h)); (5, be_enc 8 (sh_ID h));
   (13, be_enc 1 (sh_SegmentClass h)); (14, be_enc 4 (sh_Reserved h))]%nat.

(** [SegmentHeader.Encode] *)
Definition SegmentHeader_Encode (h : SegmentHeader) (dst : list Z) : go (list Z) :=
  refuse (length dst <? SegmentHeaderSize)%nat
    with Errorf "storage: segment header buffer too small" in
  let dst := puts (segment_header_puts h) dst in
  let crc := CRC32C (field 0 18 dst) in
  Ok (puts [(18, be_enc 4 crc)]%nat dst).

(** [SegmentHeader.Decode]; the HeaderCRC field is not assigned. *)
Definition SegmentHeader_Decode (src : list Z) : go SegmentHeader :=
  refuse (length src <? SegmentHeaderSize)%nat
    with Errorf "storage: segment header too short" in
  let h := mkSegmentHeader (get_be 0 4 src) (get_byte 4 src) (get_be 5 8 src)
    (get_byte 13 src) (get_be 14 4 src) 0 in
  let wantCRC := get_be 18 4 src in
  refuse negb (sh_Magic h =? SegmentMagic) with Errorf "storage: bad segment magic" in
  refuse negb (sh_Version h =? FormatVersion)
    with Errorf "storage: unsupported segment version" in
  refuse negb (CRC32C (field 0 18 src) =? wantCRC)
    with Errorf "storage: segment header crc mismatch" in
  Ok h.

(** ** Footer *)

Record SegmentFooter := mkSegmentFooter {
  sf_Magic : Z; sf_Version : Z; sf_RecordCount : Z; sf_TotalPayload : Z;
  sf_MinExtentID : Z; sf_MaxExtentID : Z; sf_LastCommittedSeq : Z;
  sf_CreatedAtUnix : Z; sf_SealedAtUnix : Z; sf_SegmentCRC : Z
}.

Definition segment_footer_puts (f : SegmentFooter) : list (nat * list Z) :=
  [(0, be_enc 4 (sf_Magic f)); (4, be_enc 1 (sf_Version f));
   (5, be_enc 8 (sf_RecordCount f)); (13, be_enc 8 (sf_TotalPayload f));
   (21, be_enc 8 (sf_MinExtentID f)); (29, be_enc 8 (sf_MaxExtentID f));
   (37, be_enc 8 (sf_LastCommittedSeq f)); (45, be_enc 8 (u64 (sf_CreatedAtUnix f)));
   (53, be_enc 8 (u64 (sf_SealedAtUnix f))); (61, be_enc 4 (sf_SegmentCRC f))]%nat.

(** [SegmentFooter.Encode] *)
Definition SegmentFooter_Encode (f : SegmentFooter) (dst : list Z) : go (list Z) :=
  refuse (length dst <? SegmentFooterSize)%nat
    with Errorf "storage: segment footer buffer too small" in
  Ok (puts (segment_footer_puts f) dst).

(** [SegmentFooter.Decode]: fixed fields only, no checksum. *)
Definition SegmentFooter_Decode (src : list Z) : go SegmentFooter :=
  refuse (length src <? SegmentFooterSize)%nat
    with Errorf "storage: segment footer too short" in
  let f := mkSegmentFooter (get_be 0 4 src) (get_byte 4 src) (get_be 5 8 src)
    (get_be 13 8 src) (get_be 21 8 src) (get_be 29 8 src) (get_be 37 8 src)
    (i64 (get_be 45 8 src)) (i64 (get_be 53 8 src)) (get_be 61 4 src) in
  refuse negb (sf_Magic f =? SegmentMagic)
    with Errorf "storage: bad segment footer magic" in
  refuse negb (sf_Version f =? FormatVersion)
    with Errorf "storage: unsupported segment footer version" in
  Ok f.

(** ** Whole-segment checksum *)

(** The read loop of [sealedSegmentCRC]: at most 64 KiB per iteration. *)
Fixpoint sealed_crc_loop (fuel : nat) (f : list Z) (footerOffset off h : Z) : go Z :=
  match fuel with
  | O => Err (Errorf "out of fuel")
  | S fuel =>
      if off <? footerOffset then
        let n := if footerOffset - off <? segmentCRCBufferSize
                 then footerOffset - off else segmentCRCBufferSize in
        let! buf := readFullAt f off (Z.to_nat n) in
        sealed_crc_loop fuel f footerOffset (off + n) (digest_Write h buf)
      else Ok h
  end.

(** [sealedSegmentCRC]; one iteration per byte is more than the loop needs. *)
Definition sealedSegmentCRC (f : list Z) (footerOffset : Z) (footerPrefix : list Z) : go Z :=
  refuse (footerOffset <? Z.of_nat SegmentHeaderSize)
         || negb (Nat.eqb (length footerPrefix) segmentFooterCRCOffset)
    with Errorf "storage: invalid sealed segment crc range" in
  let! h := sealed_crc_loop (S (Z.to_nat footerOffset)) f footerOffset 0 NewCRC32C in
  Ok (digest_Sum32 (digest_Write h footerPrefix)).

(** [ValidateSealedSegment] *)
Definition ValidateSealedSegment (f : list Z) : go SegmentFooter :=
  refuse file_size f <? Z.of_nat (SegmentHeaderSize + SegmentFooterSize)
    with Errorf "storage: sealed segment shorter than header and footer" in
  let footerOffset := file_size f - Z.of_nat SegmentFooterSize in
  let! headerBuf := readFullAt f 0 SegmentHeaderSize in
  let! _ := SegmentHeader_Decode headerBuf in
  let! footerBuf := readFullAt f footerOffset SegmentFooterSize in
  let! footer := SegmentFooter_Decode footerBuf in
  refuse sf_SegmentCRC footer =? 0
    with Wrapf "sealed segment crc is unset" ErrChecksumMismatch in
  let! got := sealedSegmentCRC f footerOffset (take segmentFooterCRCOffset footerBuf) in
  refuse negb (got =? sf_SegmentCRC footer)
    with Wrapf "sealed segment crc" ErrChecksumMismatch in
  Ok footer.

(** [hasEncodedSegmentFooter] *)
Definition hasEncodedSegmentFooter (f : list Z) : go bool :=
  if file_size f <? Z.of_nat (SegmentHeaderSize + SegmentFooterSize) then Ok false else
  let! prefix := readFullAt f (file_size f - Z.of_nat SegmentFooterSize) 5 in
  Ok ((get_be 0 4 prefix =? SegmentMagic) && (get_byte 4 prefix =? FormatVersion)).

Definition with_segment_crc (f : SegmentFooter) (crc : Z) : SegmentFooter :=
  mkSegmentFooter (sf_Magic f) (sf_Version f) (sf_RecordCount f) (sf_TotalPayload f)
    (sf_MinExtentID f) (sf_MaxExtentID f) (sf_LastCommittedSeq f) (sf_CreatedAtUnix f)
    (sf_SealedAtUnix f) crc.

(** [Writer.WriteFooter]: the sealed file and the footer as updated. *)
Definition WriteFooter (f : list Z) (offset : Z) (footer : SegmentFooter) :
    go (list Z * SegmentFooter) :=
  refuse negb (file_size f =? offset)
    with Errorf "storage: seal offset does not match segment size" in
  let footer := with_segment_crc footer 0 in
  let! buf := SegmentFooter_Encode footer (replicate SegmentFooterSize 0) in
  let! crc := sealedSegmentCRC f offset (take segmentFooterCRCOffset buf) in
  refuse crc =? 0 with Errorf "storage: refusing to seal segment with unset crc" in
  let footer := with_segment_crc footer crc in
  let! buf := SegmentFooter_Encode footer buf in
  Ok (writeAt f (Z.to_nat offset) buf, footer).

(** ** Well-formed values *)

Record SegmentHeader_wf (h : SegmentHeader) : Prop := mkSegmentHeader_wf {
  shw_Magic : sh_Magic h = SegmentMagic; shw_Version : sh_Version h = FormatVersion;
  shw_ID : is_u64 (sh_ID h); shw_Class : is_u8 (sh_SegmentClass h);
  shw_Reserved : is_u32 (sh_Reserved h)
}.

Record SegmentFooter_wf (f : SegmentFooter) : Prop := mkSegmentFooter_wf {
  sfw_Magic : sf_Magic f = SegmentMagic; sfw_Version : sf_Version f = FormatVersion;
  sfw_RecordCount : is_u64 (sf_RecordCount f); sfw_TotalPayload : is_u64 (sf_TotalPayload f);
  sfw_Min : is_u64 (sf_MinExtentID f); sfw_Max : is_u64 (sf_MaxExtentID f);
  sfw_Last : is_u64 (sf_LastCommittedSeq f); sfw_Created : is_i64 (sf_CreatedAtUnix f);
  sfw_Sealed : is_i64 (sf_SealedAtUnix f); sfw_CRC : is_u32 (sf_SegmentCRC f)
}.

(** ** Header bytes *)

Definition segment_header_body (h : SegmentHeader) : list Z := table_bytes (segment_header_puts h).
Definition segment_header_bytes (h : SegmentHeader) : list Z :=
  segment_header_body h ++ be_enc 4 (CRC32C (segment_header_body h)).

Lemma length_segment_header_bytes h : length (segment_header_bytes h) = SegmentHeaderSize.
Proof. reflexivity. Qed.

Lemma segment_header_body_wf h : bytes_wf (segment_header_body h).
Proof.
  unfold segment_header_body, table_bytes. simpl.
  repeat (constructor; [apply be_byte_bound|]). constructor.
Qed.

Lemma segment_header_bytes_wf h : bytes_wf (segment_header_bytes h).
Proof.
  unfold segment_header_bytes. rewrite bytes_wf_app.
  auto using segment_header_body_wf, be_enc_wf.
Qed.

Lemma SegmentHeader_Encode_bytes h dst :
  (SegmentHeaderSize <= length dst)%nat ->
  SegmentHeader_Encode h dst = Ok (segment_header_bytes h ++ drop SegmentHeaderSize dst).
Proof.
  intros Hl. unfold SegmentHeader_Encode. rewrite (proj2 (Nat.ltb_ge _ _) Hl). cbv zeta.
  rewrite (puts_crc CRC32C _ (fun c => [(18, be_enc 4 c)]%nat) 18 22)
    by (reflexivity || exact Hl).
  fold (segment_header_body h). unfold segment_header_bytes.
  rewrite <- app_assoc. reflexivity.
Qed.

Lemma segment_header_fields h c rest :
  SegmentHeader_wf h -> is_u32 c ->
  let src := segment_header_body h ++ be_enc 4 c ++ rest in
  field 0 18 src = segment_header_body h /\ get_be 18 4 src = c /\
  mkSegmentHeader (get_be 0 4 src) (get_byte 4 src) (get_be 5 8 src)
    (get_byte 13 src) (get_be 14 4 src) (sh_HeaderCRC h) = h.
Proof.
  intros W Hc src. subst src. split; [reflexivity|].
  unfold segment_header_body, segment_header_puts. be_slices. destruct W as [Hm Hv].
  split; [by rewrite wrap_small|]. destruct h; simpl in *. subst.
  by rewrite !wrap_small.
Qed.

Lemma SegmentHeader_Decode_bytes h rest :
  SegmentHeader_wf h -> sh_HeaderCRC h = 0 ->
  SegmentHeader_Decode (segment_header_bytes h ++ rest) = Ok h.
Proof.
  intros W H0. unfold SegmentHeader_Decode.
  rewrite length_app, length_segment_header_bytes, (proj2 (Nat.ltb_ge _ _)) by lia.
  cbv zeta. unfold segment_header_bytes. rewrite <- app_assoc.
  destruct (segment_header_fields h (CRC32C (segment_header_body h)) rest)
    as (-> & -> & Hf); [done|apply CRC32C_bound, segment_header_body_wf|].
  rewrite H0 in Hf. rewrite Hf, (shw_Magic h W), (shw_Version h W). by rewrite !Z.eqb_refl.
Qed.

(** ** Footer bytes *)

Definition segment_footer_bytes (f : SegmentFooter) : list Z := table_bytes (segment_footer_puts f).

Lemma length_segment_footer_bytes f : length (segment_footer_bytes f) = SegmentFooterSize.
Proof. reflexivity. Qed.

Lemma segment_footer_bytes_wf f : bytes_wf (segment_footer_bytes f).
Proof.
  unfold segment_footer_bytes, table_bytes. simpl.
  repeat (constructor; [apply be_byte_bound|]). constructor.
Qed.

Lemma SegmentFooter_Encode_bytes f dst :
  length dst = SegmentFooterSize -> SegmentFooter_Encode f dst = Ok (segment_footer_bytes f).
Proof.
  intros Hl. unfold SegmentFooter_Encode. rewrite Hl, Nat.ltb_irrefl. f_equal.
  rewrite puts_contiguous by (reflexivity || (rewrite Hl; reflexivity)).
  rewrite drop_ge by (rewrite Hl; reflexivity). apply app_nil_r.
Qed.

Lemma SegmentFooter_Decode_bytes f :
  SegmentFooter_wf f -> SegmentFooter_Decode (segment_footer_bytes f) = Ok f.
Proof.
  intros W. unfold SegmentFooter_Decode. rewrite length_segment_footer_bytes, Nat.ltb_irrefl.
  cbv zeta. unfold segment_footer_bytes, segment_footer_puts. be_slices. destruct W as [Hm Hv].
  cbn [sf_Magic sf_Version].
  rewrite !(wrap_small 64 (u64 _)) by (by apply wrap_bound).
  rewrite !i64_small by done. destruct f; simpl in *. subst.
  by rewrite !wrap_small.
Qed.

Lemma segment_footer_prefix f c :
  take segmentFooterCRCOffset (segment_footer_bytes (with_segment_crc f c)) =
  take segmentFooterCRCOffset (segment_footer_bytes f).
Proof. reflexivity. Qed.

(** ** The chunked checksum is the checksum of the bytes it covers *)

Lemma sealed_crc_loop_spec fuel f footerOffset off :
  0 <= off <= footerOffset -> footerOffset <= file_size f ->
  (Z.to_nat (footerOffset - off) < fuel)%nat ->
  sealed_crc_loop fuel f footerOffset off (CRC32C (take (Z.to_nat off) f)) =
  Ok (CRC32C (take (Z.to_nat footerOffset) f)).
Proof.
  unfold file_size. revert off. induction fuel as [|fuel IH]; intros off Ho Hs Hf; [lia|].
  cbn [sealed_crc_loop]. destruct (Z.ltb_spec off footerOffset) as [Hlt|Hge].
  2:{ replace footerOffset with off by lia. done. }
  unfold segmentCRCBufferSize. cbv zeta.
  set (n := if footerOffset - off <? 64 * 1024 then footerOffset - off else 64 * 1024).
  assert (0 < n /\ off + n <= footerOffset) as [Hn1 Hn2]
    by (subst n; destruct (Z.ltb_spec (footerOffset - off) (64 * 1024)); lia).
  clearbody n. rewrite readFullAt_ok by (unfold file_size; lia).
  cbn [mbind result_bind]. rewrite <- (IH (off + n)) by lia. f_equal.
  unfold digest_Write, CRC32C, Checksum. rewrite <- crc_Update_app. f_equal.
  unfold field. rewrite Z2Nat.inj_add by lia. apply take_take_drop.
Qed.

Lemma sealedSegmentCRC_spec f footerOffset p :
  Z.of_nat SegmentHeaderSize <= footerOffset <= file_size f ->
  length p = segmentFooterCRCOffset ->
  sealedSegmentCRC f footerOffset p = Ok (CRC32C (take (Z.to_nat footerOffset) f ++ p)).
Proof.
  intros Ho Hp. unfold sealedSegmentCRC. rewrite Hp, Nat.eqb_refl.
  rewrite (proj2 (Z.ltb_ge _ _)) by lia. simpl orb. cbv iota.
  change NewCRC32C with (CRC32C (take (Z.to_nat 0) f)).
  rewrite sealed_crc_loop_spec by lia. simpl. unfold digest_Sum32, digest_Write, CRC32C, Checksum.
  by rewrite crc_Update_app.
Qed.

(** What a successful validation establishes about the file's bytes. *)
Lemma ValidateSealedSegment_inv f footer :
  ValidateSealedSegment f = Ok footer ->
  87 <= file_size f /\
  CRC32C (take (length f - 4) f) = get_be (length f - 4) 4 f.
Proof.
  unfold ValidateSealedSegment. intros H. ok_inv.
  apply Z.ltb_ge in G. change (Z.of_nat (SegmentHeaderSize + SegmentFooterSize)) with 87 in G.
  split; [done|]. apply negb_false_iff, Z.eqb_eq in G1.
  change (Z.of_nat SegmentFooterSize) with 65 in *.
  pose proof (length_readFullAt _ _ _ _ E1) as L2.
  change SegmentFooterSize with 65%nat in *.
  rewrite sealedSegmentCRC_spec in E3; [|change (Z.of_nat SegmentHeaderSize) with 22; lia|
    rewrite length_take, L2; reflexivity].
  injection E3 as E3. rewrite G1 in E3.
  apply readFullAt_inv in E1 as (_ & _ & ->). unfold file_size in *.
  unfold SegmentFooter_Decode in E2. ok_inv. subst r2. simpl sf_SegmentCRC in E3.
  assert (Z.to_nat (Z.of_nat (length f) - 65) = length f - 65)%nat as Hn by lia.
  rewrite Hn in E3. unfold get_be in E3. rewrite field_field in E3 by lia.
  replace (length f - 65 + 61)%nat with (length f - 4)%nat in E3 by lia.
  unfold get_be. rewrite <- E3. f_equal. unfold field.
  change (take segmentFooterCRCOffset) with (take (A:=Z) 61).
  rewrite take_take, take_take_drop. f_equal. simpl Nat.min. lia.
Qed.

(** Replacing at most four consecutive bytes anywhere before the SegmentCRC
    field of a valid sealed segment makes validation fail. *)
Lemma ValidateSealedSegment_burst pre u v post footer :
  bytes_wf (pre ++ u ++ post) -> bytes_wf v ->
  length u = length v -> (length u <= 4)%nat -> u <> v -> (4 <= length post)%nat ->
  ValidateSealedSegment (pre ++ u ++ post) = Ok footer ->
  is_ok (ValidateSealedSegment (pre ++ v ++ post)) = false.
Proof.
  intros Hw Hv Hl H4 Hne Hp H.
  destruct (ValidateSealedSegment (pre ++ v ++ post)) as [ft'|] eqn:H'; [exfalso|done].
  apply ValidateSealedSegment_inv in H as [_ C].
  apply ValidateSealedSegment_inv in H' as [_ C'].
  rewrite !bytes_wf_app in Hw. destruct Hw as (Wp & Wu & Wr).
  assert (length (pre ++ v ++ post) = length (pre ++ u ++ post)) as Hlen
    by (rewrite !length_app; lia).
  rewrite Hlen in C'. set (n := (length (pre ++ u ++ post) - 4)%nat) in *.
  assert (length pre + length u <= n)%nat by (subst n; rewrite !length_app; lia).
  pose proof (field_0_app_window n pre u post ltac:(lia)) as T.
  pose proof (field_0_app_window n pre v post ltac:(lia)) as T'.
  unfold field in T, T'. rewrite drop_0 in T, T'. rewrite T in C. rewrite T' in C'.
  unfold get_be in C, C'. rewrite (field_prefix_irrelevant pre u v post) in C by lia.
  rewrite <- C', <- Hl in C. revert C. apply CRC32C_burst; auto with nufs.
Qed.

(** A file made of a valid header, any body and a footer carrying the
    checksum of everything before it is accepted. *)
Lemma ValidateSealedSegment_bytes h body ft :
  SegmentHeader_wf h -> sh_HeaderCRC h = 0 -> SegmentFooter_wf ft ->
  let f := segment_header_bytes h ++ body in
  sf_SegmentCRC ft = CRC32C (f ++ take segmentFooterCRCOffset (segment_footer_bytes ft)) ->
  sf_SegmentCRC ft <> 0 ->
  ValidateSealedSegment (f ++ segment_footer_bytes ft) = Ok ft.
Proof.
  intros Wh H0 Wf f Hc Hnz. unfold ValidateSealedSegment.
  assert (22 <= file_size f).
  { unfold f. rewrite file_size_app. change (file_size (segment_header_bytes h)) with 22.
    unfold file_size. lia. }
  assert (field 0 SegmentHeaderSize (f ++ segment_footer_bytes ft) = segment_header_bytes h ++ [])
    as Hh.
  { unfold f. rewrite <- (length_segment_header_bytes h), <- app_assoc.
    by rewrite field_app_l, field_all, app_nil_r by lia. }
  clearbody f.
  assert (file_size (f ++ segment_footer_bytes ft) = file_size f + 65) as Hs'
    by (rewrite file_size_app; reflexivity).
  rewrite Hs'. change (Z.of_nat (SegmentHeaderSize + SegmentFooterSize)) with 87.
  change (Z.of_nat SegmentFooterSize) with 65.
  rewrite (proj2 (Z.ltb_ge _ _)) by lia.
  replace (file_size f + 65 - 65) with (file_size f) by lia.
  assert (readFullAt (f ++ segment_footer_bytes ft) 0 SegmentHeaderSize
          = Ok (segment_header_bytes h ++ [])) as ->.
  { rewrite <- Hh. apply readFullAt_ok; [lia|]. rewrite Hs'.
    change (Z.of_nat SegmentHeaderSize) with 22. lia. }
  cbn [mbind result_bind].
  rewrite SegmentHeader_Decode_bytes by done. cbn [mbind result_bind].
  unfold file_size at 1. rewrite readFullAt_app by (rewrite length_segment_footer_bytes; lia).
  rewrite (firstn_all2 (segment_footer_bytes _)) by (rewrite length_segment_footer_bytes; lia).
  cbn [mbind result_bind]. rewrite SegmentFooter_Decode_bytes by done. cbn [mbind result_bind].
  rewrite (proj2 (Z.eqb_neq _ _) Hnz).
  rewrite sealedSegmentCRC_spec;
    [|rewrite Hs'; change (Z.of_nat SegmentHeaderSize) with 22; unfold file_size in *; lia|done].
  cbn [mbind result_bind]. unfold file_size. rewrite Nat2Z.id, take_app_length.
  by rewrite <- Hc, Z.eqb_refl.
Qed.

(** Sealing writes a footer that the validator accepts, and returns it. *)
(** Sealing only appends. *)
Lemma WriteFooter_extends f off footer f' footer' :
  WriteFooter f off footer = Ok (f', footer') -> exists t, f' = f ++ t.
Proof.
  unfold WriteFooter. destruct (Z.eqb_spec (file_size f) off) as [<-|]; [|done]. cbn [negb]. cbv iota zeta.
  destruct (SegmentFooter_Encode _ (replicate _ _)) as [buf|]; [|done]. rewrite bind_Ok.
  destruct (sealedSegmentCRC _ _ _) as [crc|]; [|done]. rewrite bind_Ok. destruct (crc =? 0); [done|].
  destruct (SegmentFooter_Encode _ buf) as [buf2|]; [|done]. rewrite bind_Ok. intros [= <- _].
  unfold file_size. rewrite Nat2Z.id, writeAt_end. by eexists.
Qed.

Lemma WriteFooter_validates h body footer f' footer' :
  SegmentHeader_wf h -> sh_HeaderCRC h = 0 -> bytes_wf body ->
  SegmentFooter_wf footer ->
  let f := segment_header_bytes h ++ body in
  WriteFooter f (file_size f) footer = Ok (f', footer') ->
  ValidateSealedSegment f' = Ok footer' /\ f' = f ++ segment_footer_bytes footer'.
Proof.
  intros Wh H0 Wb Wf f H. unfold WriteFooter in H. rewrite Z.eqb_refl in H. simpl negb in H.
  cbv iota zeta in H. rewrite SegmentFooter_Encode_bytes in H by done. cbn [mbind result_bind] in H.
  assert (22 <= file_size f).
  { unfold f. rewrite file_size_app. change (file_size (segment_header_bytes h)) with 22.
    unfold file_size. lia. }
  rewrite sealedSegmentCRC_spec in H
    by (reflexivity || (change (Z.of_nat SegmentHeaderSize) with 22; lia)).
  cbn [mbind result_bind] in H. unfold file_size in H. rewrite Nat2Z.id, firstn_all in H.
  rewrite segment_footer_prefix in H.
  set (c := CRC32C _) in H. destruct (Z.eqb_spec c 0) as [|Hc]; [discriminate|].
  rewrite SegmentFooter_Encode_bytes in H by done. cbn [mbind result_bind] in H.
  rewrite writeAt_end in H. injection H as <- <-. split; [|done].
  apply ValidateSealedSegment_bytes; try done.
  destruct Wf; constructor; simpl; try done.
  subst c. apply CRC32C_bound. rewrite bytes_wf_app. unfold f. rewrite bytes_wf_app.
  auto using segment_header_bytes_wf, segment_footer_bytes_wf with nufs.
Qed.
