(* ===== verification/Pebble.v ===== *)
(** * Ordered byte-string stores

    The data nodes' extent index and the metadata service both keep their
    rows in Pebble, which is not part of the repository: it is the class
    [PebbleKV], an ordered map of byte strings, with its documented laws in
    [PebbleLaws]. [gmap_kv] instantiates both, so theorems over them are not
    vacuous. The order is that of [bytes.Compare]. *)

From stdpp Require Import base list sorting numbers strings gmap.
From Stdlib Require Import ZArith Lia.
From S2P Require Import Prelude Bytes.

Local Open Scope Z_scope.

(** ** Lexicographic byte order ([bytes.Compare]) *)

Fixpoint bytes_ltb (a b : list Z) : bool :=
  match a, b with
  | _, [] => false
  | [], _ :: _ => true
  | x :: a, y :: b => (x <? y) || ((x =? y) && bytes_ltb a b)
  end.

Definition bytes_lt (a b : list Z) : Prop := bytes_ltb a b = true.
Definition bytes_le (a b : list Z) : Prop := bytes_ltb b a = false.

#[export] Instance bytes_le_dec a b : Decision (bytes_le a b).
Proof. unfold bytes_le. apply _. Defined.

Lemma bytes_ltb_irrefl a : bytes_ltb a a = false.
Proof. induction a; simpl; [done|]. by rewrite Z.ltb_irrefl, Z.eqb_refl, IHa. Qed.

Lemma bytes_ltb_trans a b c : bytes_lt a b -> bytes_lt b c -> bytes_lt a c.
Proof.
  unfold bytes_lt. revert b c. induction a as [|x a IH]; intros [|y b] [|z c]; simpl; try done.
  intros H1 H2.
  destruct (Z.ltb_spec x z), (Z.eqb_spec x z); simpl; try done;
  destruct (Z.ltb_spec x y), (Z.eqb_spec x y), (Z.ltb_spec y z), (Z.eqb_spec y z);
    simpl in *; try lia; try done. by apply (IH b).
Qed.

Lemma bytes_ltb_total a b : bytes_lt a b \/ a = b \/ bytes_lt b a.
Proof.
  unfold bytes_lt. revert b. induction a as [|x a IH]; intros [|y b]; simpl; auto.
  destruct (Z.ltb_spec x y), (Z.eqb_spec x y); simpl; try lia; auto.
  subst. rewrite Z.ltb_irrefl, Z.eqb_refl. simpl. destruct (IH b) as [|[->|]]; auto.
Qed.

#[export] Instance bytes_le_total : Total bytes_le.
Proof.
  intros a b. unfold bytes_le. destruct (bytes_ltb a b) eqn:E; [|auto].
  left. destruct (bytes_ltb b a) eqn:E'; [|done].
  pose proof (bytes_ltb_trans _ _ _ E E') as H. unfold bytes_lt in H.
  by rewrite bytes_ltb_irrefl in H.
Qed.

#[export] Instance bytes_le_trans : Transitive bytes_le.
Proof.
  intros a b c. unfold bytes_le. intros H1 H2. destruct (bytes_ltb c a) eqn:E; [|done].
  destruct (bytes_ltb_total a b) as [H|[->|H]]; unfold bytes_lt in *; try congruence.
  rewrite (bytes_ltb_trans c a b) in H2; done.
Qed.

(** Big-endian encoding is monotone: byte order is numeric order. *)
Lemma bytes_ltb_be_dec a b :
  bytes_wf a -> bytes_wf b -> length a = length b ->
  bytes_ltb a b = (be_dec a <? be_dec b).
Proof.
  intros Ha. revert b. induction Ha as [|x a Hx Ha IH]; intros b Hb Hl.
  { by destruct b. }
  destruct Hb as [|y b Hy Hb]; [done|]. injection Hl as Hl. simpl.
  rewrite !be_dec_cons, IH, Hl by done.
  pose proof (be_dec_bound a Ha) as B1. pose proof (be_dec_bound b Hb) as B2.
  rewrite Hl in B1. set (m := 256 ^ Z.of_nat (length b)) in *. clearbody m.
  destruct (Z.ltb_spec x y), (Z.eqb_spec x y); simpl; try lia.
  - symmetry. apply Z.ltb_lt. nia.
  - symmetry. apply Z.ltb_ge. nia.
Qed.

Lemma bytes_ltb_app a a' b b' :
  length a = length b ->
  bytes_ltb (a ++ a') (b ++ b') = bytes_ltb a b || (bool_decide (a = b) && bytes_ltb a' b').
Proof.
  revert b. induction a as [|x a IH]; intros [|y b] Hl; try done; simpl.
  - injection Hl as Hl. rewrite IH by done.
    destruct (Z.eqb_spec x y) as [->|Hne].
    + rewrite Z.ltb_irrefl. simpl. f_equal. f_equal. apply bool_decide_ext. naive_solver.
    + rewrite (bool_decide_eq_false_2 (x :: a = y :: b)) by congruence. simpl.
      by rewrite !orb_false_r.
Qed.

(** ** The Pebble interface *)

Class PebbleKV (DB : Type) := {
  kv_get : DB -> list Z -> option (list Z);
  kv_set : DB -> list Z -> list Z -> DB;
  kv_delete : DB -> list Z -> DB;
  (** all pairs in ascending key order, as a full forward iteration yields *)
  kv_scan : DB -> list (list Z * list Z)
}.

Class PebbleLaws (DB : Type) `{PebbleKV DB} : Prop := {
  kv_get_set db k v k' :
    kv_get (kv_set db k v) k' = if bool_decide (k = k') then Some v else kv_get db k';
  kv_get_delete db k k' :
    kv_get (kv_delete db k) k' = if bool_decide (k = k') then None else kv_get db k';
  kv_scan_spec db k v : (k, v) ∈ kv_scan db <-> kv_get db k = Some v;
  kv_scan_sorted db : StronglySorted (fun p q => bytes_lt p.1 q.1) (kv_scan db)
}.

(** ** A concrete ordered store *)

Definition kv_le (p q : list Z * list Z) : Prop := bytes_le p.1 q.1.

#[export] Instance kv_le_dec p q : Decision (kv_le p q).
Proof. unfold kv_le. apply _. Defined.
#[export] Instance kv_le_total : Total kv_le.
Proof. intros p q. apply bytes_le_total. Qed.
#[export] Instance kv_le_trans : Transitive kv_le.
Proof. intros p q r. apply bytes_le_trans. Qed.

#[export] Instance gmap_kv : PebbleKV (gmap (list Z) (list Z)) := {
  kv_get db k := db !! k;
  kv_set db k v := <[k := v]> db;
  kv_delete db k := delete k db;
  kv_scan db := merge_sort kv_le (map_to_list db)
}.

#[export] Instance gmap_kv_laws : PebbleLaws (gmap (list Z) (list Z)).
Proof.
  split; simpl.
  - intros db k v k'. rewrite lookup_insert. by repeat case_decide; case_bool_decide.
  - intros db k k'. rewrite lookup_delete. by repeat case_decide; case_bool_decide.
  - intros db k v. rewrite merge_sort_Permutation. apply elem_of_map_to_list.
  - intros db. pose proof (NoDup_fst_map_to_list db) as Hnd.
    rewrite <- (merge_sort_Permutation kv_le) in Hnd.
    pose proof (StronglySorted_merge_sort kv_le (map_to_list db)) as Hs.
    revert Hnd Hs. generalize (merge_sort kv_le (map_to_list db)). intros l Hnd Hs.
    induction Hs as [|p l Hs IH Hp]; [constructor|]. apply NoDup_cons in Hnd as [Hn Hnd].
    constructor; [auto|]. rewrite Forall_forall in *. intros q Hq.
    specialize (Hp q Hq). unfold kv_le, bytes_le in Hp.
    destruct (bytes_ltb_total p.1 q.1) as [|[E|E]]; [done| |unfold bytes_lt in E; congruence].
    exfalso. apply Hn. rewrite E. by apply list_elem_of_fmap_2.
Qed.
