(* ===== verification/Index.v ===== *)
(** * The local extent index

    Models [nufs-core/datanode/storage/index/keys.go] and
    [index/index.go]: the 16-byte (extent, generation) key, the 30-byte value,
    and the index operations over a Pebble database.

    Pebble is not part of the repository: it is the class [PebbleKV] of
    [Pebble.v]. *)

From stdpp Require Import base list sorting numbers strings gmap.
From Stdlib Require Import ZArith Lia.
From S2P Require Import Prelude Bytes StorageTypes Pebble.

Local Open Scope Z_scope.
Local Open Scope go_scope.

Definition KeyLen : nat := 16.
Definition ValueLen : nat := 30.

(** ** Keys *)

(** [Key] *)
Definition Key (extentID generation : Z) : list Z :=
  puts [(0, be_enc 8 extentID); (8, be_enc 8 generation)]%nat (replicate KeyLen 0).

Definition ExtentFromKey (k : list Z) : Z := get_be 0 8 k.
Definition GenerationFromKey (k : list Z) : Z := get_be 8 8 k.

(** ** Values *)

Record Value := mkValue {
  v_SegmentID : Z; v_Offset : Z; v_StoredLen : Z; v_LogicalLen : Z; v_State : Z;
  v_Checksum : Z
}.

#[export] Instance Value_eq_dec : EqDecision Value.
Proof. solve_decision. Defined.

Definition value_puts (v : Value) : list (nat * list Z) :=
  [(0, be_enc 8 (v_SegmentID v)); (8, be_enc 8 (u64 (v_Offset v)));
   (16, be_enc 4 (v_StoredLen v)); (20, be_enc 4 (v_LogicalLen v));
   (24, be_enc 1 (v_State v)); (25, be_enc 4 (v_Checksum v)); (29, [0%Z])]%nat.

(** [Value.Encode] *)
Definition Value_Encode (v : Value) (dst : list Z) : go (list Z) :=
  refuse (length dst <? ValueLen)%nat
    with Errorf "storage: index value buffer too small" in
  Ok (puts (value_puts v) dst).

(** [Value.Decode] *)
Definition Value_Decode (src : list Z) : go Value :=
  refuse (length src <? ValueLen)%nat with Errorf "storage: index value too short" in
  Ok (mkValue (get_be 0 8 src) (i64 (get_be 8 8 src)) (get_be 16 4 src)
        (get_be 20 4 src) (get_byte 24 src) (get_be 25 4 src)).

Record Value_wf (v : Value) : Prop := mkValue_wf {
  vw_SegmentID : is_u64 (v_SegmentID v); vw_Offset : is_i64 (v_Offset v);
  vw_StoredLen : is_u32 (v_StoredLen v); vw_LogicalLen : is_u32 (v_LogicalLen v);
  vw_State : is_u8 (v_State v); vw_Checksum : is_u32 (v_Checksum v)
}.

(** ** Keys: bytes, round trip and order *)

Lemma Key_bytes e g : Key e g = be_enc 8 e ++ be_enc 8 g.
Proof.
  unfold Key. rewrite puts_contiguous by (reflexivity || (cbv; lia)).
  unfold table_bytes. simpl. done.
Qed.

Lemma length_Key e g : length (Key e g) = KeyLen.
Proof. by rewrite Key_bytes, length_app, !length_be_enc. Qed.

Lemma ExtentFromKey_Key e g : is_u64 e -> ExtentFromKey (Key e g) = e.
Proof.
  intros. rewrite Key_bytes. unfold ExtentFromKey. be_slices. by rewrite wrap_small.
Qed.

Lemma GenerationFromKey_Key e g : is_u64 g -> GenerationFromKey (Key e g) = g.
Proof.
  intros. rewrite Key_bytes. unfold GenerationFromKey. be_slices. by rewrite wrap_small.
Qed.

Lemma Key_inj e g e' g' :
  is_u64 e -> is_u64 g -> is_u64 e' -> is_u64 g' -> Key e g = Key e' g' -> e = e' /\ g = g'.
Proof.
  intros. split.
  - rewrite <- (ExtentFromKey_Key e g), <- (ExtentFromKey_Key e' g') by done. congruence.
  - rewrite <- (GenerationFromKey_Key e g), <- (GenerationFromKey_Key e' g') by done. congruence.
Qed.

(** Keys sort by extent, then by generation. *)
Lemma Key_order e g e' g' :
  is_u64 e -> is_u64 g -> is_u64 e' -> is_u64 g' ->
  bytes_ltb (Key e g) (Key e' g') = (e <? e') || ((e =? e') && (g <? g')).
Proof.
  intros He Hg He' Hg'. rewrite !Key_bytes, bytes_ltb_app by (by rewrite !length_be_enc).
  rewrite !bytes_ltb_be_dec by (auto with nufs; by rewrite !length_be_enc).
  rewrite !be_dec_enc. change (256 ^ Z.of_nat 8) with (2 ^ 64).
  rewrite !Z.mod_small by done. do 2 f_equal.
  destruct (Z.eqb_spec e e') as [->|Hne]; [by rewrite bool_decide_eq_true_2|].
  apply bool_decide_eq_false_2. intros E. apply Hne. by apply be_enc_inj in E.
Qed.

#[global] Arguments Key : simpl never.

(** ** Values: round trip *)

Definition value_bytes (v : Value) : list Z := table_bytes (value_puts v).

#[global] Arguments value_bytes : simpl never.

Lemma Value_Encode_bytes v dst :
  length dst = ValueLen -> Value_Encode v dst = Ok (value_bytes v).
Proof.
  intros Hl. unfold Value_Encode. rewrite Hl, Nat.ltb_irrefl. f_equal.
  rewrite puts_contiguous by (reflexivity || (rewrite Hl; reflexivity)).
  rewrite drop_ge by (rewrite Hl; reflexivity). apply app_nil_r.
Qed.

Lemma Value_Decode_bytes v : Value_wf v -> Value_Decode (value_bytes v) = Ok v.
Proof.
  intros W. unfold Value_Decode. change (length (value_bytes v)) with ValueLen.
  rewrite Nat.ltb_irrefl. unfold value_bytes, value_puts. be_slices. destruct W.
  rewrite (wrap_small 64 (u64 _)) by (by apply wrap_bound). rewrite i64_small by done.
  rewrite !wrap_small by done. by destruct v.
Qed.

Section Index.
Context {DB : Type} `{PebbleKV DB}.

(** [Index.Get] *)
Definition Index_Get (ix : DB) (extentID generation : Z) : go Value :=
  match kv_get ix (Key extentID generation) with
  | None => Err ErrExtentNotFound
  | Some raw =>
      match Value_Decode raw with
      | Ok v => Ok v
      | Err e => Err (Wrapf "index value" ErrIndexCorrupt)
      end
  end.

Record Mutation := mkMutation { m_ExtentID : Z; m_Generation : Z; m_Value : Value }.

(** [Index.PutBatch] followed by the batch's application to the database;
    [Index.Put] without a batch is the same single [Set]. *)
Definition Index_Put (ix : DB) (m : Mutation) : go DB :=
  let! buf := Value_Encode (m_Value m) (replicate ValueLen 0) in
  Ok (kv_set ix (Key (m_ExtentID m) (m_Generation m)) buf).

(** [Index.Delete] *)
Definition Index_Delete (ix : DB) (extentID generation : Z) : DB :=
  kv_delete ix (Key extentID generation).

(** [Store.applyNow]: one batch with every mutation in order, committed at
    once; an encoding error commits nothing. *)
Fixpoint put_all (ix : DB) (muts : list Mutation) : go DB :=
  match muts with
  | [] => Ok ix
  | m :: muts => let! ix := Index_Put ix m in put_all ix muts
  end.

(** [Index.LatestGeneration]: the last key in
    [[Key(id,0), Key(id+1,0))], with uint64 wrap-around of [id+1]. *)
Definition LatestGeneration (ix : DB) (extentID : Z) : option Z :=
  let lower := Key extentID 0 in
  let upper := Key (u64 (extentID + 1)) 0 in
  let in_range := fun p : list Z * list Z => negb (bytes_ltb p.1 lower) && bytes_ltb p.1 upper in
  match last (List.filter in_range (kv_scan ix)) with
  | None => None
  | Some p => Some (GenerationFromKey p.1)
  end.

(** [Index.Iterate], with [fn] threading a state of type [S]. [cur] is the
    pending [(curID, curGen, curVal)], [None] while [curSet] is false. *)
Section Iterate.
Context {S : Type} (fn : S -> Z -> Z -> Value -> go S).

Definition iterate_finish (st : S) (cur : option (Z * Z * Value)) : go S :=
  match cur with
  | None => Ok st
  | Some (id, gen, v) => fn st id gen v
  end.

Fixpoint iterate_loop (st : S) (cur : option (Z * Z * Value))
    (kvs : list (list Z * list Z)) : go S :=
  match kvs with
  | [] => iterate_finish st cur
  | (k, raw) :: kvs =>
      if (length k <? KeyLen)%nat then iterate_loop st cur kvs else
      let id := ExtentFromKey k in
      let same := match cur with Some (cid, _, _) => id =? cid | None => false end in
      let! st := (if same then Ok st else iterate_finish st cur) in
      match Value_Decode raw with
      | Err e => Err (Wrapf "index value" ErrIndexCorrupt)
      | Ok v => iterate_loop st (Some (id, GenerationFromKey k, v)) kvs
      end
  end.

Definition Iterate (ix : DB) (st : S) : go S := iterate_loop st None (kv_scan ix).
End Iterate.
End Index.

(** ** Iterate yields the latest generation of each extent, once, in order *)

Definition entry : Type := Z * Z * Value.
Definition e_id (t : entry) : Z := t.1.1.
Definition e_gen (t : entry) : Z := t.1.2.

Definition entry_lt (s t : entry) : Prop :=
  e_id s < e_id t \/ (e_id s = e_id t /\ e_gen s < e_gen t).

Definition entry_wf (t : entry) : Prop := is_u64 (e_id t) /\ is_u64 (e_gen t) /\ Value_wf t.2.

Definition entry_kv (t : entry) : list Z * list Z := (Key (e_id t) (e_gen t), value_bytes t.2).

(** The generations of one extent collapse to the last one of the run. *)
Fixpoint coalesce (cur : option entry) (es : list entry) : list entry :=
  match es with
  | [] => option_list cur
  | t :: es =>
      match cur with
      | Some c => if e_id t =? e_id c then coalesce (Some t) es else c :: coalesce (Some t) es
      | None => coalesce (Some t) es
      end
  end.

Definition latest_in (es : list entry) (t : entry) : Prop :=
  t ∈ es /\ forall t', t' ∈ es -> e_id t' = e_id t -> e_gen t' <= e_gen t.

Fixpoint go_fold {S} (fn : S -> Z -> Z -> Value -> go S) (st : S) (es : list entry) : go S :=
  match es with
  | [] => Ok st
  | t :: es => let! st := fn st (e_id t) (e_gen t) t.2 in go_fold fn st es
  end.

Lemma coalesce_spec c es :
  StronglySorted entry_lt (c :: es) ->
  (forall t, t ∈ coalesce (Some c) es <-> latest_in (c :: es) t) /\
  StronglySorted (fun s t => e_id s < e_id t) (coalesce (Some c) es) /\
  Forall (fun t => e_id c <= e_id t) (coalesce (Some c) es).
Proof.
  revert c. induction es as [|d es IH]; intros c Hs; cbn [coalesce option_list].
  { split; [|split; repeat constructor; lia]. intros t. unfold latest_in.
    change (option_list (Some c)) with [c]. rewrite !list_elem_of_singleton. split; [intros ->|naive_solver].
    split; [done|]. intros t'. rewrite list_elem_of_singleton. intros ->. lia. }
  apply StronglySorted_inv in Hs as [Hs Hc].
  destruct (IH d Hs) as (Hmem & Hsort & Hge).
  apply StronglySorted_inv in Hs as [_ Hd]. apply Forall_cons in Hc as [Hcd Hces].
  rewrite Forall_forall in Hd, Hces, Hge.
  unfold entry_lt in Hcd. destruct (Z.eqb_spec (e_id d) (e_id c)) as [Heq|Hne].
  - assert (e_gen c < e_gen d) by lia. split; [|split; [done|]].
    + intros t. rewrite Hmem. unfold latest_in. split; intros [Ht Hmax].
      * split; [set_solver|]. intros t' Ht' Hid. apply elem_of_cons in Ht' as [->|Ht'];
          [|auto]. transitivity (e_gen d); [lia|]. apply Hmax; [set_solver|congruence].
      * apply elem_of_cons in Ht as [->|Ht].
        { specialize (Hmax d ltac:(set_solver) Heq). lia. }
        split; [done|]. intros t' Ht'. apply Hmax. set_solver.
    + rewrite Forall_forall. intros t Ht. specialize (Hge t Ht). lia.
  - assert (forall t, t ∈ d :: es -> e_id c < e_id t) as Hgt.
    { intros t Ht. apply elem_of_cons in Ht as [->|Ht]; [lia|].
      specialize (Hd t Ht). unfold entry_lt in Hd. lia. }
    split; [|split].
    + intros t. rewrite elem_of_cons, Hmem. unfold latest_in. split.
      * intros [->|[Ht Hmax]].
        { split; [set_solver|]. intros t' Ht' Hid. apply elem_of_cons in Ht' as [->|Ht'];
            [lia|]. specialize (Hgt t' Ht'). lia. }
        split; [set_solver|]. intros t' Ht' Hid. apply elem_of_cons in Ht' as [->|Ht'];
          [|auto]. specialize (Hgt t Ht). lia.
      * intros [Ht Hmax]. apply elem_of_cons in Ht as [->|Ht]; [auto|]. right.
        split; [done|]. intros t' Ht'. apply Hmax. set_solver.
    + constructor; [done|]. rewrite Forall_forall. intros t Ht. specialize (Hge t Ht). lia.
    + constructor; [lia|]. rewrite Forall_forall. intros t Ht. specialize (Hge t Ht). lia.
Qed.

Lemma coalesce_None_spec es :
  StronglySorted entry_lt es ->
  (forall t, t ∈ coalesce None es <-> latest_in es t) /\
  StronglySorted (fun s t => e_id s < e_id t) (coalesce None es).
Proof.
  destruct es as [|c es]; intros Hs; cbn [coalesce].
  - split; [|constructor]. intros t. unfold latest_in. set_solver.
  - by destruct (coalesce_spec c es Hs) as (? & ? & _).
Qed.

Lemma iterate_loop_coalesce {S} (fn : S -> Z -> Z -> Value -> go S) es st cur :
  Forall entry_wf es ->
  iterate_loop fn st cur (map entry_kv es) = go_fold fn st (coalesce cur es).
Proof.
  intros Hw. revert st cur. induction Hw as [|t es (H1 & H2 & H3) Hes IH]; intros st cur.
  { destruct cur as [[[id g] v]|]; [|done]. cbn. unfold e_id, e_gen. simpl.
    destruct (fn st id g v); done. }
  cbn [map iterate_loop entry_kv]. rewrite length_Key, Nat.ltb_irrefl.
  rewrite ExtentFromKey_Key, GenerationFromKey_Key, Value_Decode_bytes by done.
  assert (forall st, iterate_loop fn st (Some (e_id t, e_gen t, t.2)) (map entry_kv es)
                     = go_fold fn st (coalesce (Some t) es)) as IH'.
  { intros st'. rewrite IH. by destruct t as [[??]?]. }
  destruct cur as [[[id g] v]|]; cbn [coalesce].
  - change (e_id (id, g, v)) with id. destruct (Z.eqb_spec (e_id t) id); [apply IH'|].
    cbn [go_fold iterate_finish fst snd]. change (e_id (id, g, v)) with id.
    change (e_gen (id, g, v)) with g. destruct (fn st id g v); [|done]. apply IH'.
  - apply IH'.
Qed.

Section IndexLaws.
Context {DB : Type} `{PebbleLaws DB}.

(** Every stored pair is an encoded entry. *)
Definition Index_wf (ix : DB) : Prop :=
  forall k raw, kv_get ix k = Some raw -> exists t, entry_wf t /\ (k, raw) = entry_kv t.

Lemma Index_Put_ok ix m :
  Index_Put ix m = Ok (kv_set ix (Key (m_ExtentID m) (m_Generation m)) (value_bytes (m_Value m))).
Proof. unfold Index_Put. by rewrite Value_Encode_bytes. Qed.

Definition Mutation_wf (m : Mutation) : Prop :=
  entry_wf (m_ExtentID m, m_Generation m, m_Value m).

Lemma Index_Put_wf ix m ix' :
  Index_wf ix -> Mutation_wf m -> Index_Put ix m = Ok ix' -> Index_wf ix'.
Proof.
  intros Hw Hm E. rewrite Index_Put_ok in E. injection E as <-. intros k raw Hk.
  rewrite kv_get_set in Hk. case_bool_decide as Hd; [|eauto]. simplify_eq.
  by exists (m_ExtentID m, m_Generation m, m_Value m).
Qed.

Lemma Index_Delete_wf ix e g : Index_wf ix -> Index_wf (Index_Delete ix e g).
Proof.
  intros Hw k raw Hk. unfold Index_Delete in Hk. rewrite kv_get_delete in Hk.
  case_bool_decide; [done|eauto].
Qed.

Lemma Index_Get_Put ix m ix' e g :
  Mutation_wf m -> is_u64 e -> is_u64 g -> Index_Put ix m = Ok ix' ->
  Index_Get ix' e g =
  if bool_decide (e = m_ExtentID m /\ g = m_Generation m) then Ok (m_Value m) else Index_Get ix e g.
Proof.
  intros (H1 & H2 & H3) He Hg E. rewrite Index_Put_ok in E. injection E as <-.
  unfold Index_Get. rewrite kv_get_set. case_bool_decide as Hd.
  - apply Key_inj in Hd as [-> ->]; [|done..]. rewrite bool_decide_eq_true_2 by done.
    by rewrite Value_Decode_bytes.
  - rewrite bool_decide_eq_false_2; [done|]. intros [-> ->]. done.
Qed.

(** The entries of a well-formed index, in key order. *)
Lemma Index_entries ix :
  Index_wf ix ->
  exists es, kv_scan ix = map entry_kv es /\ Forall entry_wf es /\
    StronglySorted entry_lt es /\
    (forall t, entry_wf t -> t ∈ es <-> Index_Get ix (e_id t) (e_gen t) = Ok t.2).
Proof.
  intros Hw.
  assert (exists es, kv_scan ix = map entry_kv es /\ Forall entry_wf es) as (es & Hes & Hf).
  { assert (forall k raw, (k, raw) ∈ kv_scan ix -> exists t, entry_wf t /\ (k, raw) = entry_kv t)
      as Hall by (intros k raw Hin; by apply Hw, kv_scan_spec).
    revert Hall. generalize (kv_scan ix). intros l. induction l as [|[k raw] l IH]; intros Hall.
    - exists []. done.
    - destruct (Hall k raw ltac:(set_solver)) as (t & Ht & Et).
      destruct IH as (es & -> & Hf); [intros; apply Hall; set_solver|].
      exists (t :: es). rewrite Et. split; [done|by constructor]. }
  exists es. split; [done|]. split; [done|]. split.
  - pose proof (kv_scan_sorted ix) as Hs. rewrite Hes in Hs. clear Hes Hw.
    induction Hf as [|t es (He & Hg & _) Hf IH]; [constructor|].
    apply StronglySorted_inv in Hs as [Hs Hh]. constructor; [auto|].
    rewrite !Forall_forall in *. intros t' Ht'.
    specialize (Hh _ (list_elem_of_fmap_2 entry_kv _ _ Ht')). specialize (Hf t' Ht') as (He' & Hg' & _).
    unfold bytes_lt, entry_kv in Hh. cbn [fst] in Hh. rewrite Key_order in Hh by done.
    unfold entry_lt. lia.
  - intros t (He & Hg & Hv). unfold Index_Get. split.
    + intros Hin. assert (kv_get ix (Key (e_id t) (e_gen t)) = Some (value_bytes t.2)) as ->.
      { apply kv_scan_spec. rewrite Hes. apply (list_elem_of_fmap_2 entry_kv), Hin. }
      by rewrite Value_Decode_bytes.
    + intros E. destruct (kv_get ix (Key (e_id t) (e_gen t))) as [raw|] eqn:Ek; [|done].
      apply kv_scan_spec in Ek. rewrite Hes in Ek.
      apply (list_elem_of_fmap entry_kv) in Ek as (t' & Et & Hin).
      rewrite Forall_forall in Hf. destruct (Hf t' Hin) as (He' & Hg' & Hv').
      pose proof (f_equal fst Et) as Ek. pose proof (f_equal snd Et) as Er.
      unfold entry_kv in Ek, Er. cbn [fst snd] in Ek, Er. subst raw.
      rewrite Value_Decode_bytes in E by done. injection E as E.
      apply Key_inj in Ek as [? ?]; [|done..].
      destruct t as [[??]?], t' as [[??]?]. unfold e_id, e_gen in *. simpl in *. by subst.
Qed.

Definition latest_at (ix : DB) (t : entry) : Prop :=
  Index_Get ix (e_id t) (e_gen t) = Ok t.2 /\
  forall g v, is_u64 g -> Value_wf v -> Index_Get ix (e_id t) g = Ok v -> g <= e_gen t.

Lemma latest_in_at ix es t :
  (forall t, entry_wf t -> t ∈ es <-> Index_Get ix (e_id t) (e_gen t) = Ok t.2) ->
  Forall entry_wf es -> entry_wf t -> latest_in es t <-> latest_at ix t.
Proof.
  intros Hes Hf Ht. unfold latest_in, latest_at. rewrite (Hes t Ht).
  rewrite Forall_forall in Hf. split; intros [H1 H2]; (split; [done|]).
  - intros g v Hg Hv E. apply (H2 (e_id t, g, v)); [|done].
    apply Hes; [|done]. split; [apply Ht|done].
  - intros t' Hin Hid. pose proof (Hf t' Hin) as (Hi & Hg & Hv).
    apply (H2 (e_gen t') t'.2); [done|done|]. rewrite <- Hid. by apply Hes.
Qed.

Lemma Iterate_spec {S} (fn : S -> Z -> Z -> Value -> go S) ix st :
  Index_wf ix ->
  exists ls, Iterate fn ix st = go_fold fn st ls /\
    StronglySorted (fun s t => e_id s < e_id t) ls /\
    (forall t, entry_wf t -> t ∈ ls <-> latest_at ix t).
Proof.
  intros Hw. destruct (Index_entries ix Hw) as (es & Hk & Hf & Hs & Hes).
  exists (coalesce None es). destruct (coalesce_None_spec es Hs) as [Hmem Hsort].
  split; [|split; [done|]].
  - unfold Iterate. rewrite Hk. by apply iterate_loop_coalesce.
  - intros t Ht. rewrite Hmem. by apply latest_in_at.
Qed.

Lemma filter_range es id :
  is_u64 id -> id + 1 < 2 ^ 64 -> Forall entry_wf es ->
  List.filter (fun p : list Z * list Z =>
    negb (bytes_ltb p.1 (Key id 0)) && bytes_ltb p.1 (Key (u64 (id + 1)) 0)) (map entry_kv es) =
  map entry_kv (List.filter (fun t => e_id t =? id) es).
Proof.
  intros Hid Hb Hf. assert (is_u64 (id + 1)) by (unfold uintw in *; lia).
  assert (is_u64 0) by (unfold uintw; lia). rewrite wrap_small by done.
  induction Hf as [|t es (He & Hg & _) Hf IH]; [done|].
  cbn [map List.filter]. unfold entry_kv at 1 2. cbn [fst].
  rewrite !Key_order by done. rewrite IH.
  assert (negb ((e_id t <? id) || (e_id t =? id) && (e_gen t <? 0)) &&
    ((e_id t <? id + 1) || (e_id t =? id + 1) && (e_gen t <? 0)) = (e_id t =? id)) as ->.
  { unfold uintw in *.
    destruct (Z.ltb_spec (e_id t) id), (Z.eqb_spec (e_id t) id), (Z.ltb_spec (e_gen t) 0),
      (Z.ltb_spec (e_id t) (id + 1)), (Z.eqb_spec (e_id t) (id + 1)); simpl; lia. }
  by destruct (e_id t =? id).
Qed.

Lemma last_sorted_max es t :
  StronglySorted entry_lt es -> last es = Some t ->
  t ∈ es /\ forall t', t' ∈ es -> e_id t' = e_id t -> e_gen t' <= e_gen t.
Proof.
  intros Hs Hl. apply last_Some in Hl as (l & ->). split; [set_solver|].
  intros t' Hin Hid. apply elem_of_app in Hin as [Hin|Hin].
  - apply StronglySorted_app in Hs as (Hlt & _ & _).
    specialize (Hlt t' t Hin ltac:(set_solver)). unfold entry_lt in Hlt. lia.
  - apply list_elem_of_singleton in Hin as ->. lia.
Qed.

Lemma StronglySorted_filter_b {A} (R : A -> A -> Prop) (f : A -> bool) l :
  StronglySorted R l -> StronglySorted R (List.filter f l).
Proof.
  induction 1 as [|a l Hl IH Ha]; simpl; [constructor|].
  destruct (f a); [|done]. constructor; [done|].
  rewrite Forall_forall in *. intros x Hx. apply Ha.
  apply list_elem_of_In. apply list_elem_of_In in Hx. apply filter_In in Hx. tauto.
Qed.

Lemma LatestGeneration_spec ix id :
  Index_wf ix -> is_u64 id -> id + 1 < 2 ^ 64 ->
  match LatestGeneration ix id with
  | Some g => exists v, entry_wf (id, g, v) /\ latest_at ix (id, g, v)
  | None => forall g v, is_u64 g -> Value_wf v -> Index_Get ix id g <> Ok v
  end.
Proof.
  intros Hw Hid Hb. destruct (Index_entries ix Hw) as (es & Hk & Hf & Hs & Hes).
  unfold LatestGeneration. rewrite Hk, filter_range by done.
  set (fs := List.filter (fun t => e_id t =? id) es).
  assert (forall t, t ∈ fs <-> t ∈ es /\ e_id t = id) as Hfs.
  { intros t. unfold fs. rewrite !list_elem_of_In, filter_In. by rewrite Z.eqb_eq. }
  assert (StronglySorted entry_lt fs) as Hss by (by apply StronglySorted_filter_b).
  rewrite fmap_last. destruct (last fs) as [t|] eqn:El; cbn [fmap option_fmap option_map].
  - destruct (last_sorted_max fs t Hss El) as [Hin Hmax].
    apply Hfs in Hin as [Hin Heq].
    pose proof (proj1 (Forall_forall _ _) Hf t Hin) as Ht. pose proof Ht as (He & Hg & Hv).
    exists t.2. unfold entry_kv. cbn [fst]. rewrite GenerationFromKey_Key by done.
    rewrite <- Heq. replace (e_id t, e_gen t, t.2) with t by (by destruct t as [[??]?]).
    split; [done|]. apply (latest_in_at ix es); [done..|].
    split; [done|]. intros t' Hin' Hid'. apply Hmax; [|done]. apply Hfs. split; congruence.
  - intros g v Hg Hv E. apply last_None in El.
    assert ((id, g, v) ∈ fs) as Hin; [|rewrite El in Hin; set_solver].
    apply Hfs. split; [|done]. by apply Hes.
Qed.
End IndexLaws.
