(* ===== verification/Allocator.v ===== *)
(** * Offset allocation in the active segment

    Models [nufs-core/datanode/storage/segment/allocator.go]. The allocator
    is the single writer of offsets of one active segment; its invariant is
    that reserved ranges are disjoint, consecutive and below the segment
    size. Offsets are int64 in the code; [alloc_wf] keeps them below
    [maxSegmentBytes] plus the unchecked [Consume] of flush, so no addition
    wraps while the segment size is below 2^62. *)

From stdpp Require Import base list numbers strings.
From Stdlib Require Import ZArith Lia.
From S2P Require Import Prelude StorageTypes Journal.

Local Open Scope Z_scope.
Local Open Scope go_scope.

Record Allocator := mkAllocator {
  a_segmentID : Z; a_offset : Z; a_payloadBytes : Z; a_recordCount : Z;
  a_minExtent : Z; a_maxExtent : Z; a_hasRecord : bool;
  a_maxSegmentBytes : Z; a_maxRecords : Z; a_createdAt : Z; a_class : Z;
  a_lastCommitSeq : Z
}.

(** [NewAllocator] *)
Definition NewAllocator (segmentID class maxSegmentBytes createdAt : Z) : Allocator :=
  let maxSegmentBytes :=
    if maxSegmentBytes <=? 0 then DefaultDataSegmentSize else maxSegmentBytes in
  mkAllocator segmentID (Z.of_nat SegmentHeaderSize) 0 0 0 0 false maxSegmentBytes
    MaxRecordsPerSegment createdAt class 0.

(** [Reserve] *)
Definition Reserve (a : Allocator) (framingLen extent storedLen : Z) : go (Z * Allocator) :=
  refuse a_maxRecords a <=? a_recordCount a with ErrSegmentFull in
  refuse a_maxSegmentBytes a <? a_offset a + framingLen with ErrSegmentFull in
  let off := a_offset a in
  let minExtent := if negb (a_hasRecord a) || (extent <? a_minExtent a)
                   then extent else a_minExtent a in
  let maxExtent := if negb (a_hasRecord a) || (a_maxExtent a <? extent)
                   then extent else a_maxExtent a in
  Ok (off, mkAllocator (a_segmentID a) (a_offset a + framingLen)
             (a_payloadBytes a + storedLen) (a_recordCount a + 1) minExtent maxExtent true
             (a_maxSegmentBytes a) (a_maxRecords a) (a_createdAt a) (a_class a)
             (a_lastCommitSeq a)).

(** [CanReserveBatch] *)
Definition CanReserveBatch (a : Allocator) (required : Z) : bool :=
  if (required <? 0) || (a_maxSegmentBytes a <? a_offset a) then false
  else required <=? a_maxSegmentBytes a - a_offset a.

(** [CanReserveRecords] *)
Definition CanReserveRecords (a : Allocator) (count : Z) : bool :=
  if (count <? 0) || (a_maxRecords a <? a_recordCount a) then false
  else count <=? a_maxRecords a - a_recordCount a.

Definition set_offset (a : Allocator) (off : Z) : Allocator :=
  mkAllocator (a_segmentID a) off (a_payloadBytes a) (a_recordCount a) (a_minExtent a)
    (a_maxExtent a) (a_hasRecord a) (a_maxSegmentBytes a) (a_maxRecords a) (a_createdAt a)
    (a_class a) (a_lastCommitSeq a).

(** [ReserveCommit] *)
Definition ReserveCommit (a : Allocator) (commitLen : Z) : go (Z * Allocator) :=
  refuse a_maxSegmentBytes a <? a_offset a + commitLen with ErrSegmentFull in
  Ok (a_offset a, set_offset a (a_offset a + commitLen)).

(** [CurrentTail] *)
Definition CurrentTail (a : Allocator) : go Z :=
  refuse a_maxSegmentBytes a <? a_offset a + Z.of_nat BatchCommitSize with ErrSegmentFull in
  Ok (a_offset a).

(** [Consume] *)
Definition Consume (a : Allocator) (n : Z) : Allocator := set_offset a (a_offset a + n).

(** [RecordCommit] *)
Definition RecordCommit (a : Allocator) (seq : Z) : Allocator :=
  mkAllocator (a_segmentID a) (a_offset a) (a_payloadBytes a) (a_recordCount a)
    (a_minExtent a) (a_maxExtent a) (a_hasRecord a) (a_maxSegmentBytes a) (a_maxRecords a)
    (a_createdAt a) (a_class a) seq.

(** ** A batch of reservations *)

(** One [Reserve] per (framing, extent, stored) request, stopping at the
    first refusal, as the first pass of [commitBatch] does. *)
Fixpoint reserve_all (a : Allocator) (reqs : list (Z * Z * Z)) : go (list Z * Allocator) :=
  match reqs with
  | [] => Ok ([], a)
  | (framing, extent, stored) :: reqs =>
      let! (off, a) := Reserve a framing extent stored in
      let! (offs, a) := reserve_all a reqs in
      Ok (off :: offs, a)
  end.

Definition framing_sum (reqs : list (Z * Z * Z)) : Z := foldr Z.add 0 (map (fun r => r.1.1) reqs).

(** The offsets consecutive requests get, starting at [off]. *)
Fixpoint consecutive (off : Z) (reqs : list (Z * Z * Z)) : list Z :=
  match reqs with
  | [] => []
  | r :: reqs => off :: consecutive (off + r.1.1) reqs
  end.

(** The invariant: the tail is past the header, counters are non-negative and
    the extent range covers a recorded extent. *)
Record alloc_wf (a : Allocator) : Prop := mkAlloc_wf {
  aw_offset : Z.of_nat SegmentHeaderSize <= a_offset a;
  aw_count : 0 <= a_recordCount a <= a_maxRecords a;
  aw_range : a_hasRecord a = true -> a_minExtent a <= a_maxExtent a
}.

Lemma NewAllocator_wf id class size at_ : alloc_wf (NewAllocator id class size at_).
Proof. constructor; simpl; [lia|unfold MaxRecordsPerSegment; lia|done]. Qed.

Lemma Reserve_wf a framing extent stored off a' :
  alloc_wf a -> 0 <= framing -> Reserve a framing extent stored = Ok (off, a') ->
  alloc_wf a' /\ off = a_offset a /\ a_offset a' = a_offset a + framing /\
  a_offset a' <= a_maxSegmentBytes a' /\ a_recordCount a' = a_recordCount a + 1 /\
  a_minExtent a' <= extent <= a_maxExtent a'.
Proof.
  intros [Ho Hc Hr] Hf H. unfold Reserve in H. ok_inv.
  apply Z.leb_gt in G. apply Z.ltb_ge in G0. injection H as <- <-. simpl.
  destruct (a_hasRecord a); simpl.
  - specialize (Hr eq_refl).
    destruct (Z.ltb_spec extent (a_minExtent a)), (Z.ltb_spec (a_maxExtent a) extent);
      (split; [constructor; simpl; lia|lia]).
  - split; [constructor; simpl; lia|lia].
Qed.

Lemma consecutive_length off reqs : length (consecutive off reqs) = length reqs.
Proof. revert off. induction reqs; intros; simpl; [done|]. by rewrite IHreqs. Qed.

(** The preflight of [commitBatch] is exact: when the two [CanReserve] checks
    pass for the whole batch and its BatchCommit, every reservation succeeds,
    the records get consecutive offsets from the tail, and the commit lands
    right after them. *)
Lemma preflight_reserves a reqs :
  alloc_wf a -> Forall (fun r => 0 <= r.1.1) reqs ->
  CanReserveBatch a (framing_sum reqs + Z.of_nat BatchCommitSize) = true ->
  CanReserveRecords a (Z.of_nat (length reqs)) = true ->
  exists a', reserve_all a reqs = Ok (consecutive (a_offset a) reqs, a') /\
    alloc_wf a' /\
    a_offset a' = a_offset a + framing_sum reqs /\
    a_recordCount a' = a_recordCount a + Z.of_nat (length reqs) /\
    a_maxSegmentBytes a' = a_maxSegmentBytes a /\ a_segmentID a' = a_segmentID a /\
    a_class a' = a_class a /\
    exists a'', ReserveCommit a' (Z.of_nat BatchCommitSize) = Ok (a_offset a', a'') /\
      a_offset a'' = a_offset a' + Z.of_nat BatchCommitSize /\
      a_offset a'' <= a_maxSegmentBytes a''.
Proof.
  intros Hwf Hpos. revert a Hwf. change (Z.of_nat BatchCommitSize) with 42.
  induction Hpos as [|[[fr ex] st] reqs Hf Hpos IH]; intros a Hwf HB HR; cbn [reserve_all].
  - exists a. unfold framing_sum in *. simpl in *. unfold CanReserveBatch in HB.
    destruct ((_ <? 0) || _) eqn:G in HB; [done|]. apply orb_false_iff in G as [G1 G2].
    apply Z.ltb_ge in G2. apply Z.leb_le in HB.
    repeat (split; [done || lia|]). eexists. unfold ReserveCommit.
    rewrite (proj2 (Z.ltb_ge _ _)) by lia. split; [done|]. simpl. lia.
  - simpl in Hf. unfold CanReserveBatch in HB. unfold CanReserveRecords in HR.
    destruct ((_ <? 0) || _) eqn:G in HB; [done|]. apply orb_false_iff in G as [G1 G2].
    destruct ((_ <? 0) || _) eqn:G in HR; [done|]. apply orb_false_iff in G as [G3 G4].
    rewrite Z.ltb_ge in G2, G4. apply Z.leb_le in HB, HR.
    assert (framing_sum ((fr, ex, st) :: reqs) = fr + framing_sum reqs) as Hsum by done.
    rewrite Hsum in *. simpl length in HR. rewrite Nat2Z.inj_succ in HR.
    assert (0 <= framing_sum reqs) as Hnn.
    { clear -Hpos. unfold framing_sum. induction Hpos; simpl; lia. }
    assert (exists a1, Reserve a fr ex st = Ok (a_offset a, a1)
      /\ a_maxSegmentBytes a1 = a_maxSegmentBytes a /\ a_maxRecords a1 = a_maxRecords a
      /\ a_segmentID a1 = a_segmentID a /\ a_class a1 = a_class a) as (a1 & E1 & Hm & Hmr & Hs & Hcl).
    { unfold Reserve. rewrite (proj2 (Z.leb_gt (a_maxRecords a) (a_recordCount a))),
        (proj2 (Z.ltb_ge (a_maxSegmentBytes a) (a_offset a + fr))) by lia.
      eexists. split; [done|]. done. }
    destruct (Reserve_wf _ _ _ _ _ _ Hwf Hf E1) as (Hwf1 & _ & Ho1 & _ & Hc1 & _).
    destruct (IH a1 Hwf1) as (a2 & E2 & Hwf2 & Ho2 & Hc2 & Hm2 & Hs2 & Hcl2 & Hcom).
    { unfold CanReserveBatch. rewrite Hm, Ho1.
      rewrite (proj2 (Z.ltb_ge _ 0)), (proj2 (Z.ltb_ge (a_maxSegmentBytes a) _)) by lia.
      apply Z.leb_le. lia. }
    { unfold CanReserveRecords. rewrite Hmr, Hc1.
      rewrite (proj2 (Z.ltb_ge _ 0)), (proj2 (Z.ltb_ge (a_maxRecords a) _)) by lia.
      apply Z.leb_le. lia. }
    exists a2. rewrite E1. cbn [mbind result_bind]. rewrite E2. cbn [mbind result_bind].
    rewrite Ho1. split; [done|]. simpl length. rewrite Nat2Z.inj_succ.
    repeat (split; [done || congruence || lia|]). done.
Qed.
