(* ===== verification/Overlay.v ===== *)
(** * The committed-delta overlay

    Models [nufs-core/datanode/storage/segment/overlay.go]: the read
    authority for committed extents that the Pebble index does not hold yet.
    Keys are the 16-byte index keys. [draining] is the set handed to an
    in-progress flush; a nil Go map is the empty map. *)

From stdpp Require Import base list numbers gmap.
From Stdlib Require Import ZArith Lia.
From S2P Require Import Prelude Bytes StorageTypes Pebble Index.

Local Open Scope Z_scope.

Record Overlay := mkOverlay {
  o_entries : gmap (list Z) Value;
  o_draining : gmap (list Z) Value
}.

Definition NewOverlay : Overlay := mkOverlay ∅ ∅.

(** [Put] *)
Definition Overlay_Put (o : Overlay) (k : list Z) (v : Value) : Overlay :=
  mkOverlay (<[k := v]> (o_entries o)) (o_draining o).

(** [Get] *)
Definition Overlay_Get (o : Overlay) (k : list Z) : option Value :=
  match o_entries o !! k with
  | Some v => Some v
  | None => o_draining o !! k
  end.

(** [Delete] *)
Definition Overlay_Delete (o : Overlay) (k : list Z) : Overlay :=
  mkOverlay (delete k (o_entries o)) (delete k (o_draining o)).

(** [Drain]: the mutations (in Go's map iteration order, here the map's) and
    the overlay with every entry staged. *)
Definition Overlay_Drain (o : Overlay) : list Mutation * Overlay :=
  (map (fun kv => mkMutation (ExtentFromKey kv.1) (GenerationFromKey kv.1) kv.2)
       (map_to_list (o_entries o)),
   mkOverlay ∅ (o_entries o ∪ o_draining o)).

(** [DiscardDrained] *)
Definition Overlay_DiscardDrained (o : Overlay) : Overlay := mkOverlay (o_entries o) ∅.

(** [RestoreDrained] *)
Definition Overlay_RestoreDrained (o : Overlay) : Overlay :=
  mkOverlay (o_entries o ∪ o_draining o) ∅.

(** [Len] *)
Definition Overlay_Len (o : Overlay) : nat := size (o_entries o).

(** [Snapshot] *)
Definition Overlay_Snapshot (o : Overlay) : gmap (list Z) Value := o_entries o ∪ o_draining o.

(** ** Read authority *)

Lemma Overlay_Get_Put o k v k' :
  Overlay_Get (Overlay_Put o k v) k' = if bool_decide (k = k') then Some v else Overlay_Get o k'.
Proof.
  unfold Overlay_Get, Overlay_Put. simpl. rewrite lookup_insert.
  by case_decide; case_bool_decide.
Qed.

Lemma Overlay_Get_Delete o k k' :
  Overlay_Get (Overlay_Delete o k) k' = if bool_decide (k = k') then None else Overlay_Get o k'.
Proof.
  unfold Overlay_Get, Overlay_Delete. simpl. rewrite !lookup_delete.
  by case_decide; case_bool_decide.
Qed.

Lemma Overlay_Get_Snapshot o k : Overlay_Get o k = Overlay_Snapshot o !! k.
Proof.
  unfold Overlay_Get, Overlay_Snapshot. rewrite lookup_union.
  by destruct (o_entries o !! k), (o_draining o !! k).
Qed.

(** Draining and rolling a failed flush back never change what a read sees. *)
Lemma Overlay_Get_Drain o k : Overlay_Get (Overlay_Drain o).2 k = Overlay_Get o k.
Proof.
  rewrite !Overlay_Get_Snapshot. unfold Overlay_Snapshot. simpl.
  by rewrite map_empty_union.
Qed.

Lemma Overlay_Get_Restore o k : Overlay_Get (Overlay_RestoreDrained o) k = Overlay_Get o k.
Proof.
  rewrite !Overlay_Get_Snapshot. unfold Overlay_Snapshot. simpl.
  by rewrite map_union_empty.
Qed.

Lemma Overlay_Drain_empty o : (Overlay_Drain o).1 = [] <-> o_entries o = ∅.
Proof.
  unfold Overlay_Drain. simpl. split.
  - intros E. apply map_eq_nil in E. by apply map_to_list_empty_iff.
  - intros ->. by rewrite map_to_list_empty.
Qed.

(** Keys produced by the store are 16-byte encodings of uint64 pairs, values
    fit their fields. *)
Definition ov_map_wf (m : gmap (list Z) Value) : Prop :=
  map_Forall (fun k v => exists e g, is_u64 e /\ is_u64 g /\ Value_wf v /\ k = Key e g) m.

Definition Overlay_wf (o : Overlay) : Prop := ov_map_wf (o_entries o) /\ ov_map_wf (o_draining o).

Lemma Overlay_Put_wf o e g v :
  Overlay_wf o -> is_u64 e -> is_u64 g -> Value_wf v -> Overlay_wf (Overlay_Put o (Key e g) v).
Proof.
  intros [H1 H2] He Hg Hv. split; [|done]. apply map_Forall_insert_2; [|done].
  by exists e, g.
Qed.

Lemma Overlay_Drain_wf o : Overlay_wf o -> Overlay_wf (Overlay_Drain o).2.
Proof.
  intros [H1 H2]. split; simpl; [apply map_Forall_empty|].
  intros k v Hk. apply lookup_union_Some_raw in Hk as [Hk|[_ Hk]]; eauto.
Qed.

Lemma Overlay_Restore_wf o : Overlay_wf o -> Overlay_wf (Overlay_RestoreDrained o).
Proof.
  intros [H1 H2]. split; simpl; [|apply map_Forall_empty].
  intros k v Hk. apply lookup_union_Some_raw in Hk as [Hk|[_ Hk]]; eauto.
Qed.

Lemma Overlay_Discard_wf o : Overlay_wf o -> Overlay_wf (Overlay_DiscardDrained o).
Proof. intros [H1 H2]. split; simpl; [done|apply map_Forall_empty]. Qed.

(** The drained mutations are the entries, each with its own key. *)
Lemma Overlay_Drain_muts o m :
  Overlay_wf o ->
  m ∈ (Overlay_Drain o).1 <->
  Mutation_wf m /\ o_entries o !! Key (m_ExtentID m) (m_Generation m) = Some (m_Value m).
Proof.
  intros [Hw _]. unfold Overlay_Drain. simpl. split.
  - intros Hin. apply list_elem_of_fmap in Hin as ((k & v) & -> & Hin).
    apply elem_of_map_to_list in Hin. destruct (Hw k v Hin) as (e & g & He & Hg & Hv & ->).
    simpl. rewrite ExtentFromKey_Key, GenerationFromKey_Key by done. done.
  - intros ((He & Hg & Hv) & Hk). destruct m as [e g v]. simpl in *.
    apply list_elem_of_fmap. exists (Key e g, v). simpl.
    rewrite ExtentFromKey_Key, GenerationFromKey_Key by done. split; [done|].
    by apply elem_of_map_to_list.
Qed.
