(* ===== verification/Checkpoint.v ===== *)
(** * The recovery checkpoint sidecar

    Models [nufs-core/datanode/storage/index/recovery_checkpoint.go]: the
    34-byte sidecar that names the INDEX_SAFE marker replay may start from,
    its encoding, and its atomic publication through a temporary file. File
    operations can fail at any point ([ckpt_io]); the function returns every
    directory state it passes through, so that a crash can be placed between
    any two operations. *)

From stdpp Require Import base list numbers strings gmap.
From Stdlib Require Import ZArith Lia.
From S2P Require Import Prelude Bytes Crc StorageTypes.

Local Open Scope Z_scope.
Local Open Scope go_scope.

Record RecoveryCheckpoint := mkRecoveryCheckpoint {
  rcp_FormatVersion : Z; rcp_StreamID : Z; rcp_SegmentID : Z; rcp_SafeOffset : Z;
  rcp_SafeSeq : Z
}.

#[export] Instance RecoveryCheckpoint_eq_dec : EqDecision RecoveryCheckpoint.
Proof. solve_decision. Defined.

Definition recoveryCheckpointMagic : Z := 0x52435054.
Definition recoveryCheckpointVersion : Z := 1.
Definition recoveryCheckpointSize : nat := 4 + 1 + 1 + 8 + 8 + 8 + 4.

Definition checkpoint_puts (c : RecoveryCheckpoint) : list (nat * list Z) :=
  [(0, be_enc 4 recoveryCheckpointMagic); (4, be_enc 1 (rcp_FormatVersion c));
   (5, be_enc 1 (rcp_StreamID c)); (6, be_enc 8 (rcp_SegmentID c));
   (14, be_enc 8 (u64 (rcp_SafeOffset c))); (22, be_enc 8 (rcp_SafeSeq c))]%nat.

(** [encodeRecoveryCheckpoint] *)
Definition encodeRecoveryCheckpoint (c : RecoveryCheckpoint) : list Z :=
  let buf := puts (checkpoint_puts c) (replicate recoveryCheckpointSize 0) in
  puts [(30, be_enc 4 (CRC32C (field 0 30 buf)))]%nat buf.

(** [decodeRecoveryCheckpoint] *)
Definition decodeRecoveryCheckpoint (data : list Z) : go RecoveryCheckpoint :=
  refuse negb (length data =? recoveryCheckpointSize)%nat
    with Errorf "storage: invalid recovery checkpoint size" in
  refuse negb (get_be 0 4 data =? recoveryCheckpointMagic)
    with Errorf "storage: invalid recovery checkpoint magic" in
  refuse negb (get_byte 4 data =? recoveryCheckpointVersion)
    with Errorf "storage: unsupported recovery checkpoint version" in
  refuse negb (get_be 30 4 data =? CRC32C (field 0 30 data))
    with Errorf "storage: recovery checkpoint crc mismatch" in
  let c := mkRecoveryCheckpoint (get_byte 4 data) (get_byte 5 data) (get_be 6 8 data)
             (i64 (get_be 14 8 data)) (get_be 22 8 data) in
  refuse (rcp_SegmentID c =? 0) || (rcp_SafeOffset c <? Z.of_nat SegmentHeaderSize)
         || (rcp_SafeSeq c =? 0)
    with Errorf "storage: invalid recovery checkpoint fields" in
  Ok c.

(** ** The index directory: sidecars and temporary files by stream *)

Record ckpt_dir := mkCkptDir {
  cd_persistent : bool; cd_main : gmap Z (list Z); cd_tmp : gmap Z (list Z)
}.

(** How each file operation of one publication goes; [None] is success, a
    write reports how many bytes it took. *)
Record ckpt_io := mkCkptIO {
  io_open : option err; io_write : nat * option err; io_sync : option err;
  io_close : option err; io_rename : option err; io_syncdir : option err
}.

Definition set_tmp (d : ckpt_dir) (s : Z) (b : list Z) : ckpt_dir :=
  mkCkptDir (cd_persistent d) (cd_main d) (<[s := b]> (cd_tmp d)).
Definition remove_tmp (d : ckpt_dir) (s : Z) : ckpt_dir :=
  mkCkptDir (cd_persistent d) (cd_main d) (delete s (cd_tmp d)).
Definition rename_tmp (d : ckpt_dir) (s : Z) : ckpt_dir :=
  match cd_tmp d !! s with
  | Some b => mkCkptDir (cd_persistent d) (<[s := b]> (cd_main d)) (delete s (cd_tmp d))
  | None => d
  end.

(** [StoreRecoveryCheckpoint]: the states after each operation, latest last,
    and the result. *)
Definition StoreRecoveryCheckpoint (d : ckpt_dir) (io : ckpt_io) (c : RecoveryCheckpoint) :
    list ckpt_dir * go unit :=
  if negb (cd_persistent d) then ([d], Ok tt) else
  let c := if rcp_FormatVersion c =? 0
           then mkRecoveryCheckpoint recoveryCheckpointVersion (rcp_StreamID c)
                  (rcp_SegmentID c) (rcp_SafeOffset c) (rcp_SafeSeq c)
           else c in
  if negb (rcp_FormatVersion c =? recoveryCheckpointVersion) || (rcp_SegmentID c =? 0)
     || (rcp_SafeOffset c <? Z.of_nat SegmentHeaderSize) || (rcp_SafeSeq c =? 0)
  then ([d], Err (Errorf "storage: invalid recovery checkpoint")) else
  let buf := encodeRecoveryCheckpoint c in
  let s := rcp_StreamID c in
  match io_open io with
  | Some e => ([d], Err e)
  | None =>
      let d1 := set_tmp d s [] in
      let '(n, werr) := io_write io in
      let d2 := set_tmp d1 s (take n buf) in
      let abandon e := ([d; d1; d2; remove_tmp d2 s], Err e) in
      match werr with
      | Some e => abandon e
      | None =>
          if negb (Nat.min n (length buf) =? length buf)%nat then abandon (ErrIO "short write") else
          match io_sync io, io_close io, io_rename io with
          | Some e, _, _ => abandon e
          | None, Some e, _ => abandon e
          | None, None, Some e => abandon e
          | None, None, None =>
              let d3 := rename_tmp d2 s in
              ([d; d1; d2; d3], match io_syncdir io with Some e => Err e | None => Ok tt end)
          end
      end
  end.

(** [LoadRecoveryCheckpoint]; an absent sidecar is [Ok None]. *)
Definition LoadRecoveryCheckpoint (d : ckpt_dir) (streamID : Z) :
    go (option RecoveryCheckpoint) :=
  if negb (cd_persistent d) then Ok None else
  match cd_main d !! streamID with
  | None => Ok None
  | Some data =>
      let! c := decodeRecoveryCheckpoint data in
      refuse negb (rcp_StreamID c =? streamID)
        with Errorf "storage: recovery checkpoint stream mismatch" in
      Ok (Some c)
  end.

(** ** Encoding *)

Definition checkpoint_wf (c : RecoveryCheckpoint) : Prop :=
  rcp_FormatVersion c = recoveryCheckpointVersion /\ is_u8 (rcp_StreamID c) /\
  is_u64 (rcp_SegmentID c) /\ rcp_SegmentID c <> 0 /\
  is_i64 (rcp_SafeOffset c) /\ Z.of_nat SegmentHeaderSize <= rcp_SafeOffset c /\
  is_u64 (rcp_SafeSeq c) /\ rcp_SafeSeq c <> 0.

Definition checkpoint_body (c : RecoveryCheckpoint) : list Z := table_bytes (checkpoint_puts c).

Lemma encodeRecoveryCheckpoint_bytes c :
  encodeRecoveryCheckpoint c = checkpoint_body c ++ be_enc 4 (CRC32C (checkpoint_body c)).
Proof.
  unfold encodeRecoveryCheckpoint. cbv zeta.
  rewrite (puts_crc CRC32C _ (fun c => [(30, be_enc 4 c)]%nat) 30 34)
    by (reflexivity || (rewrite length_replicate; apply Nat.leb_le; reflexivity)).
  fold (checkpoint_body c). reflexivity.
Qed.

Lemma checkpoint_body_wf c : bytes_wf (checkpoint_body c).
Proof.
  unfold checkpoint_body, table_bytes. simpl.
  repeat (constructor; [apply be_byte_bound|]). constructor.
Qed.

Lemma length_encodeRecoveryCheckpoint c :
  length (encodeRecoveryCheckpoint c) = recoveryCheckpointSize.
Proof. by rewrite encodeRecoveryCheckpoint_bytes. Qed.

Lemma checkpoint_fields c crc :
  checkpoint_wf c -> is_u32 crc ->
  let src := checkpoint_body c ++ be_enc 4 crc in
  field 0 30 src = checkpoint_body c /\ get_be 30 4 src = crc /\
  get_be 0 4 src = recoveryCheckpointMagic /\
  mkRecoveryCheckpoint (get_byte 4 src) (get_byte 5 src) (get_be 6 8 src)
    (i64 (get_be 14 8 src)) (get_be 22 8 src) = c.
Proof.
  intros (Hv & Hs & Hi & _ & Ho & _ & Hq & _) Hc src. subst src.
  split; [reflexivity|]. unfold checkpoint_body, checkpoint_puts. be_slices.
  rewrite (wrap_small 64 (u64 _)) by (by apply wrap_bound). rewrite i64_small by done.
  rewrite !(wrap_small 64) by done. rewrite !(wrap_small 32) by done.
  rewrite !(wrap_small 8) by (done || (rewrite Hv; done)). by destruct c.
Qed.

Lemma decode_encode_checkpoint c :
  checkpoint_wf c -> decodeRecoveryCheckpoint (encodeRecoveryCheckpoint c) = Ok c.
Proof.
  intros W. pose proof W as (Hv & _ & _ & Hi & _ & Ho & _ & Hq).
  unfold decodeRecoveryCheckpoint. rewrite length_encodeRecoveryCheckpoint.
  rewrite encodeRecoveryCheckpoint_bytes.
  destruct (checkpoint_fields c _ W (CRC32C_bound _ (checkpoint_body_wf c))) as (F1 & F2 & F3 & F4).
  rewrite refuse_pass by (by rewrite Nat.eqb_refl).
  rewrite F3, refuse_pass by (by rewrite Z.eqb_refl).
  rewrite refuse_pass.
  2:{ apply (f_equal rcp_FormatVersion) in F4. cbn [rcp_FormatVersion] in F4. by rewrite F4, Hv. }
  rewrite F1, F2, refuse_pass by (by rewrite Z.eqb_refl).
  rewrite F4. cbv zeta. rewrite refuse_pass; [done|].
  rewrite (proj2 (Z.eqb_neq _ _) Hi), (proj2 (Z.eqb_neq _ _) Hq). cbn [orb].
  rewrite orb_false_r. by apply Z.ltb_ge.
Qed.

(** ** Publication is atomic *)

Ltac all_old := repeat (apply List.Forall_cons; [split; cbn; auto|]); apply List.Forall_nil.

(** Whatever fails, and wherever a crash falls, the sidecars in place are the
    old ones or the old ones with the new checkpoint; success means the new
    one is there. *)
Lemma Store_atomic d io c states r :
  cd_persistent d = true -> StoreRecoveryCheckpoint d io c = (states, r) ->
  let c' := mkRecoveryCheckpoint recoveryCheckpointVersion (rcp_StreamID c) (rcp_SegmentID c)
              (rcp_SafeOffset c) (rcp_SafeSeq c) in
  Forall (fun d' => cd_persistent d' = true /\
            (cd_main d' = cd_main d \/
             cd_main d' = <[rcp_StreamID c := encodeRecoveryCheckpoint c']> (cd_main d))) states
  /\ (r = Ok tt -> exists d', last states = Some d' /\
        cd_main d' = <[rcp_StreamID c := encodeRecoveryCheckpoint c']> (cd_main d)).
Proof.
  intros Hp H c'. unfold StoreRecoveryCheckpoint in H. rewrite Hp in H. cbn [negb] in H.
  set (c1 := if rcp_FormatVersion c =? 0 then _ else _) in H.
  destruct (negb (rcp_FormatVersion c1 =? recoveryCheckpointVersion) || _ || _ || _) eqn:G in H.
  { simplify_eq. split; [all_old|done]. }
  assert (c1 = c') as ->.
  { rewrite !orb_false_iff in G. destruct G as [[[G _] _] _]. apply negb_false_iff, Z.eqb_eq in G.
    subst c1 c'. destruct (rcp_FormatVersion c =? 0); [done|]. destruct c. cbn in *. by rewrite G. }
  change (rcp_StreamID c') with (rcp_StreamID c) in H.
  destruct (io_open io); [simplify_eq; split; [all_old|done]|].
  destruct (io_write io) as [n werr].
  destruct werr; [simplify_eq; split; [all_old|done]|].
  destruct (Nat.eqb_spec (Nat.min n (length (encodeRecoveryCheckpoint c')))
              (length (encodeRecoveryCheckpoint c'))) as [Hn|]; cbn [negb] in H;
    [|simplify_eq; split; [all_old|done]].
  assert (take n (encodeRecoveryCheckpoint c') = encodeRecoveryCheckpoint c') as Ht
    by (apply take_ge; lia).
  destruct (io_sync io); [simplify_eq; split; [all_old|done]|].
  destruct (io_close io); [simplify_eq; split; [all_old|done]|].
  destruct (io_rename io); [simplify_eq; split; [all_old|done]|].
  apply pair_equal_spec in H as [<- <-].
  unfold rename_tmp, set_tmp. cbn [cd_tmp cd_main cd_persistent].
  rewrite lookup_insert_eq, Ht. split.
  - all_old.
  - intros _. eexists. split; [reflexivity|]. done.
Qed.
