(* ===== verification/Cache.v ===== *)
(** * Location and descriptor caches

    Models [nufs-core/datanode/storage/segment/cache.go]. Both caches are a
    map into a doubly linked list with the most recently used element in
    front; here the list is the whole state and the map is looking a key up
    in it. [LocationCache] holds index values, [SegmentDescriptorCache] open
    readers, whose opening is a callback that can fail. *)

From stdpp Require Import base list numbers sets.
From Stdlib Require Import ZArith Lia.
From S2P Require Import Prelude StorageTypes.

Local Open Scope Z_scope.

Section LRU.
Context {K V : Type} `{EqDecision K}.

(** [entries[key]] *)
Fixpoint lru_find (k : K) (l : list (K * V)) : option V :=
  match l with
  | [] => None
  | (k', v) :: l => if decide (k = k') then Some v else lru_find k l
  end.

(** [lru.Remove(el)] and [delete(entries, key)] *)
Fixpoint lru_remove (k : K) (l : list (K * V)) : list (K * V) :=
  match l with
  | [] => []
  | (k', v) :: l => if decide (k = k') then l else (k', v) :: lru_remove k l
  end.

Definition keys (l : list (K * V)) : list K := map fst l.

Lemma lru_find_None k l : lru_find k l = None <-> k ∉ keys l.
Proof.
  induction l as [|[k' v] l IH]; cbn; [split; [intros _; apply not_elem_of_nil|done]|].
  rewrite not_elem_of_cons. destruct (decide (k = k')); naive_solver.
Qed.

Lemma keys_remove k l : keys (lru_remove k l) ⊆ keys l.
Proof.
  induction l as [|[k' v] l IH]; cbn; [done|]. destruct (decide (k = k')); cbn; set_solver.
Qed.

Lemma remove_not_in k l : NoDup (keys l) -> k ∉ keys (lru_remove k l).
Proof.
  induction l as [|[k' v] l IH]; cbn; [intros _; apply not_elem_of_nil|].
  intros [Hn Hd]%NoDup_cons. destruct (decide (k = k')); [by subst|]. cbn. set_solver.
Qed.

Lemma NoDup_remove k l : NoDup (keys l) -> NoDup (keys (lru_remove k l)).
Proof.
  induction l as [|[k' v] l IH]; cbn; [done|]. intros [Hn Hd]%NoDup_cons.
  destruct (decide (k = k')); [done|]. cbn. apply NoDup_cons. split; [|auto].
  intros Hin. apply Hn. by apply keys_remove in Hin.
Qed.

Lemma find_remove k k' l :
  NoDup (keys l) ->
  lru_find k' (lru_remove k l) = if decide (k = k') then None else lru_find k' l.
Proof.
  induction l as [|[k1 v] l IH]; cbn; [by destruct (decide (k = k'))|].
  intros [Hn Hd]%NoDup_cons. destruct (decide (k = k1)) as [->|]; cbn.
  - destruct (decide (k1 = k')) as [->|]; [|by rewrite decide_False by congruence].
    by apply lru_find_None.
  - rewrite IH by done. destruct (decide (k' = k1)), (decide (k = k')); congruence.
Qed.

Lemma length_remove k l :
  length (lru_remove k l) = (length l - if decide (k ∈ keys l) then 1 else 0)%nat.
Proof.
  induction l as [|[k' v] l IH]; cbn; [by case_decide|].
  destruct (decide (k = k')) as [->|].
  - rewrite decide_True by set_solver. lia.
  - cbn. rewrite IH. destruct (decide (k ∈ keys l)) as [Hin|Hin].
    + rewrite decide_True by set_solver.
      destruct l; [by apply not_elem_of_nil in Hin|cbn; lia].
    + rewrite decide_False by set_solver. lia.
Qed.
End LRU.

(** ** [LocationCache] *)

Section Location.
Context {K V : Type} `{EqDecision K}.

Record LocationCache := mkLocationCache { lc_maxSize : nat; lc_lru : list (K * V) }.

Definition NewLocationCache (maxSize : Z) : LocationCache :=
  mkLocationCache (if maxSize <=? 0 then Z.to_nat 1000000 else Z.to_nat maxSize) [].

(** [Get]: a hit moves the element to the front. *)
Definition LocationCache_Get (c : LocationCache) (k : K) : option V * LocationCache :=
  match lru_find k (lc_lru c) with
  | Some v => (Some v, mkLocationCache (lc_maxSize c) ((k, v) :: lru_remove k (lc_lru c)))
  | None => (None, c)
  end.

(** [for lru.Len() >= maxSize { remove the back }] leaves the first
    [maxSize - 1] elements. *)
Definition evict (maxSize : nat) (l : list (K * V)) : list (K * V) := take (maxSize - 1) l.

(** [Put] *)
Definition LocationCache_Put (c : LocationCache) (k : K) (v : V) : LocationCache :=
  match lru_find k (lc_lru c) with
  | Some _ => mkLocationCache (lc_maxSize c) ((k, v) :: lru_remove k (lc_lru c))
  | None => mkLocationCache (lc_maxSize c) ((k, v) :: evict (lc_maxSize c) (lc_lru c))
  end.

(** [Delete] *)
Definition LocationCache_Delete (c : LocationCache) (k : K) : LocationCache :=
  mkLocationCache (lc_maxSize c) (lru_remove k (lc_lru c)).

(** [Clear] *)
Definition LocationCache_Clear (c : LocationCache) : LocationCache :=
  mkLocationCache (lc_maxSize c) [].

Definition lc_find (c : LocationCache) (k : K) : option V := lru_find k (lc_lru c).

Definition lc_wf (c : LocationCache) : Prop :=
  (0 < lc_maxSize c)%nat /\ NoDup (keys (lc_lru c)) /\ (length (lc_lru c) <= lc_maxSize c)%nat.

Lemma NewLocationCache_wf n : lc_wf (NewLocationCache n).
Proof.
  unfold lc_wf, NewLocationCache. cbn. destruct (Z.leb_spec n 0);
    (split; [lia|split; [apply NoDup_nil_2|lia]]).
Qed.

Lemma LocationCache_Get_wf c k : lc_wf c -> lc_wf (LocationCache_Get c k).2.
Proof.
  intros (H0 & H1 & H2). unfold LocationCache_Get.
  destruct (lru_find k (lc_lru c)) eqn:E; [|done]. split; [done|]. cbn.
  assert (k ∈ keys (lc_lru c)) as Hin
    by (apply dec_stable; intros Hn; apply lru_find_None in Hn; congruence).
  split.
  - apply NoDup_cons. split; [by apply remove_not_in|by apply NoDup_remove].
  - rewrite length_remove, decide_True by done.
    destruct (lc_lru c); [by apply not_elem_of_nil in Hin|cbn in *; lia].
Qed.

Lemma LocationCache_Put_wf c k v : lc_wf c -> lc_wf (LocationCache_Put c k v).
Proof.
  intros W. pose proof W as (H0 & H1 & H2). unfold LocationCache_Put.
  destruct (lru_find k (lc_lru c)) eqn:E.
  - pose proof (LocationCache_Get_wf c k W) as (G0 & G1 & G2).
    unfold LocationCache_Get in *. rewrite E in *. done.
  - split; [done|]. cbn. unfold evict. split.
    + apply NoDup_cons. rewrite <- firstn_map. apply lru_find_None in E. split.
      * intros Hin. apply E. eapply elem_of_take in Hin as (i & Hi & _).
        by eapply list_elem_of_lookup_2.
      * eapply sublist_NoDup; [exact H1|apply sublist_take].
    + rewrite length_take. lia.
Qed.

Lemma LocationCache_Delete_wf c k : lc_wf c -> lc_wf (LocationCache_Delete c k).
Proof.
  intros (H0 & H1 & H2). split; [done|]. cbn. split; [by apply NoDup_remove|].
  rewrite length_remove. lia.
Qed.

(** What each operation does to lookups. *)
Lemma LocationCache_Get_find c k :
  lc_wf c -> (LocationCache_Get c k).1 = lc_find c k
  /\ forall k', lc_find (LocationCache_Get c k).2 k' = lc_find c k'.
Proof.
  intros (_ & H1 & _). unfold LocationCache_Get, lc_find.
  destruct (lru_find k (lc_lru c)) eqn:E; [|by split]. cbn. split; [done|].
  intros k'. rewrite find_remove by done.
  destruct (decide (k' = k)) as [->|]; [done|]. by rewrite decide_False by congruence.
Qed.

(** A put binds its key; every other hit is one the cache had before. *)
Lemma LocationCache_Put_find c k v k' :
  lc_wf c ->
  lc_find (LocationCache_Put c k v) k = Some v /\
  (k' <> k -> lc_find (LocationCache_Put c k v) k' = lc_find c k'
              \/ lc_find (LocationCache_Put c k v) k' = None).
Proof.
  intros (_ & H1 & _). unfold LocationCache_Put, lc_find.
  destruct (lru_find k (lc_lru c)) eqn:E; cbn; rewrite decide_True by done; (split; [done|]);
    intros Hk; rewrite decide_False by done.
  - left. rewrite find_remove by done. by rewrite decide_False by done.
  - unfold evict. generalize (lc_maxSize c - 1)%nat as n. clear -Hk.
    induction (lc_lru c) as [|[k1 v1] l IH]; intros [|n]; cbn; auto.
    destruct (decide (k' = k1)); auto.
Qed.

Lemma LocationCache_Delete_find c k k' :
  lc_wf c ->
  lc_find (LocationCache_Delete c k) k' = if decide (k = k') then None else lc_find c k'.
Proof. intros (_ & H1 & _). by apply find_remove. Qed.
End Location.

Arguments LocationCache : clear implicits.

(** ** [SegmentDescriptorCache] *)

Section Descriptors.
Context {K R : Type} `{EqDecision K} (open : K -> go R).

Record cacheEntry := mkCacheEntry { ce_rd : R; ce_pinned : bool }.

Record SegmentDescriptorCache := mkSegCache {
  sc_maxSize : nat; sc_lru : list (K * cacheEntry)
}.

Definition NewSegmentDescriptorCache (maxSize : Z) : SegmentDescriptorCache :=
  mkSegCache (if maxSize <=? 0 then Z.to_nat 4096 else Z.to_nat maxSize) [].

(** The eviction loop: the back is dropped until the cache is below its
    size, but a pinned back moves to the front and ends the loop. *)
Fixpoint seg_evict (fuel maxSize : nat) (l : list (K * cacheEntry)) : list (K * cacheEntry) :=
  match fuel with
  | O => l
  | S fuel =>
      if (length l <? maxSize)%nat then l else
      match last l with
      | None => l
      | Some (k, e) =>
          if ce_pinned e then (k, e) :: take (length l - 1) l
          else seg_evict fuel maxSize (take (length l - 1) l)
      end
  end.

(** [Get]; the second look under the lock finds what the first one did,
    there being no other goroutine here. *)
Definition SegCache_Get (c : SegmentDescriptorCache) (path : K) :
    go R * SegmentDescriptorCache :=
  match lru_find path (sc_lru c) with
  | Some e => (Ok (ce_rd e), mkSegCache (sc_maxSize c) ((path, e) :: lru_remove path (sc_lru c)))
  | None =>
      match open path with
      | Err e => (Err e, c)
      | Ok rd =>
          (Ok rd, mkSegCache (sc_maxSize c)
                    ((path, mkCacheEntry rd false)
                     :: seg_evict (S (length (sc_lru c))) (sc_maxSize c) (sc_lru c)))
      end
  end.

Fixpoint set_pinned (path : K) (l : list (K * cacheEntry)) : list (K * cacheEntry) :=
  match l with
  | [] => []
  | (k, e) :: l => if decide (path = k) then (k, mkCacheEntry (ce_rd e) true) :: l
                   else (k, e) :: set_pinned path l
  end.

(** [Pin] *)
Definition SegCache_Pin (c : SegmentDescriptorCache) (path : K) : SegmentDescriptorCache :=
  mkSegCache (sc_maxSize c) (set_pinned path (sc_lru c)).

(** [Close] *)
Definition SegCache_Close (c : SegmentDescriptorCache) : SegmentDescriptorCache :=
  mkSegCache (sc_maxSize c) [].

Definition pinned_in (path : K) (c : SegmentDescriptorCache) : Prop :=
  exists e, lru_find path (sc_lru c) = Some e /\ ce_pinned e = true.

Lemma set_pinned_absent path l : lru_find path l = None -> set_pinned path l = l.
Proof.
  induction l as [|[k e] l IH]; cbn; [done|]. destruct (decide (path = k)); [done|].
  intros H. by rewrite IH.
Qed.

Lemma pinned_after_open c path c' rd :
  lru_find path (sc_lru c) = None ->
  SegCache_Get (SegCache_Pin c path) path = (Ok rd, c') -> ~ pinned_in path c'.
Proof.
  intros Hn H (e & He & Hp). unfold SegCache_Get, SegCache_Pin in H. cbn in H.
  rewrite set_pinned_absent, Hn in H by done. destruct (open path); [|done].
  simplify_eq. cbn in He. rewrite decide_True in He by done. by simplify_eq.
Qed.

Lemma take_last (l : list (K * cacheEntry)) x :
  last l = Some x -> l = take (length l - 1) l ++ [x].
Proof.
  intros H. apply last_Some in H as [l' ->]. rewrite length_app. cbn.
  replace (length l' + 1 - 1)%nat with (length l') by lia. by rewrite take_app_length.
Qed.

Lemma lru_find_app_None path (l : list (K * cacheEntry)) k e :
  lru_find path l = None -> path <> k -> lru_find path (l ++ [(k, e)]) = None.
Proof.
  intros Hl Hk. induction l as [|[k' v] l IH]; cbn in *; [by rewrite decide_False|].
  destruct (decide (path = k')); auto.
Qed.

Lemma seg_evict_keeps_pinned fuel maxSize l path e :
  NoDup (keys l) -> lru_find path l = Some e -> ce_pinned e = true ->
  lru_find path (seg_evict fuel maxSize l) = Some e.
Proof.
  revert l. induction fuel as [|fuel IH]; intros l Hd Hf Hp; cbn [seg_evict]; [done|].
  destruct (length l <? maxSize)%nat; [done|].
  destruct (last l) as [[k e']|] eqn:E; [|done].
  pose proof (take_last _ _ E) as Hl. set (l' := take (length l - 1) l) in *.
  rewrite Hl in Hd, Hf. unfold keys in Hd. rewrite map_app in Hd.
  apply NoDup_app in Hd as (Hd & Hn & _).
  assert (forall v, lru_find path l' = Some v -> path ∈ map fst l') as Hin.
  { intros v Hv. apply dec_stable. intros H. apply lru_find_None in H. congruence. }
  assert (lru_find path l' = Some e \/ (path = k /\ e' = e)) as [H|[-> ->]].
  { clear -Hf. induction l' as [|[k1 e1] l' IH]; cbn in *.
    - destruct (decide (path = k)); naive_solver.
    - destruct (decide (path = k1)); auto. }
  - assert (path <> k) by (intros ->; apply (Hn k (Hin _ H)); cbn; set_solver).
    destruct (ce_pinned e'); [cbn; by rewrite decide_False|by apply IH].
  - rewrite Hp. cbn. by rewrite decide_True.
Qed.
End Descriptors.
