(* ===== verification/Recover.v ===== *)
(** * Active-segment recovery

    Models [nufs-core/datanode/storage/segment/recover.go]: the streaming
    parser that replays committed batches of an active segment and truncates
    the uncommitted tail.

    The wall clock is an oracle [clock n] giving the [n]-th reading, the
    callback [apply] threads a state of type [A]. Go mutates [recoveryState]
    in place, so every parsing step returns the state it left behind together
    with its outcome, also when it fails. *)

From stdpp Require Import base list numbers strings.
From Stdlib Require Import ZArith Lia.
From S2P Require Import Prelude Bytes Crc StorageTypes FileIO Record Journal SegmentFile.

Local Open Scope Z_scope.
Local Open Scope go_scope.

(** [CommitDescriptor] has the fields of [journal.BatchDescriptor]; its
    [RecordOp] is the descriptor's op byte. *)
Abbreviation CommitDescriptor := BatchDescriptor.

Record RecoverOptions := mkRecoverOptions {
  ro_StreamID : Z; ro_SafeOffset : Z; ro_SafeSeq : Z; ro_RequireSafeMarker : bool;
  ro_MaxRecords : Z; ro_MaxReplayBytes : Z; ro_MaxTrailingBytes : Z;
  ro_clock : nat -> Z; ro_deadline : option Z; ro_startedAt : option Z
}.

Record RecoverResult := mkRecoverResult {
  rr_Commits : Z; rr_Applied : Z; rr_LastSeq : Z; rr_SafeOffset : Z;
  rr_LastCommittedOffset : Z; rr_TrailingBytes : Z; rr_SafeSeq : Z;
  rr_ReplayBytes : Z; rr_Duration : Z; rr_DataReady : bool
}.

(** [recoveryRecordLimit] *)
Definition recoveryRecordLimit (opts : RecoverOptions) : Z :=
  if (ro_MaxRecords opts =? 0) || (MaxRecoveryRecords <? ro_MaxRecords opts)
  then MaxRecoveryRecords else ro_MaxRecords opts.

(** [recoveryByteLimits] *)
Definition recoveryByteLimits (opts : RecoverOptions) : Z * Z :=
  let replay := ro_MaxReplayBytes opts in
  let replay := if (replay <=? 0) || (MaxRecoveryReplayBytes <? replay)
                then MaxRecoveryReplayBytes else replay in
  let trailing := ro_MaxTrailingBytes opts in
  let trailing := if (trailing <=? 0) || (MaxRecoveryTrailingBytes <? trailing)
                  then MaxRecoveryTrailingBytes else trailing in
  (replay, trailing).

(** The clock reading recovery starts from, how many readings that took, and
    the deadline, unless the caller fixed them. *)
Definition recovery_startedAt (opts : RecoverOptions) : Z :=
  match ro_startedAt opts with Some t => t | None => ro_clock opts 0 end.

Definition recovery_ticks (opts : RecoverOptions) : nat :=
  match ro_startedAt opts with Some _ => 0 | None => 1 end.

Definition recovery_deadline (opts : RecoverOptions) : Z :=
  match ro_deadline opts with
  | Some d => d
  | None => recovery_startedAt opts + RecoveryBudget
  end.

(** [pendingDescriptorsCRC]: a streaming digest over one reused 45-byte
    buffer, overwritten for each descriptor. *)
Definition pending_step (s : Z * list Z) (d : CommitDescriptor) : Z * list Z :=
  let buf := puts (descriptor_puts 0 d) s.2 in (digest_Write s.1 buf, buf).

Definition pendingDescriptorsCRC (pending : list CommitDescriptor) : Z :=
  digest_Sum32 (fold_left pending_step pending
                  (NewCRC32C, replicate BatchDescriptorSize 0)).1.

(** [validateV2RecordHeader] *)
Definition validateV2RecordHeader (f : list Z) (off : Z) : go unit :=
  let! buf := readFullAt f off 50 in
  refuse negb (get_be 0 4 buf =? RecordMagic) || negb (get_byte 4 buf =? 2)
    with Errorf "storage: invalid V2 record header" in
  refuse negb (ChecksumIEEE (field 0 42 buf) =? get_be 42 4 buf)
    with Errorf "storage: invalid V2 record header crc" in
  Ok tt.

(** [validateSafeRecoveryStart]: the sequence of the commit structure right
    before [off], and whether it is an INDEX_SAFE marker. A BatchCommit that
    decodes but has bad fields is an error; anything else falls through to the
    marker. *)
Definition validateSafeRecoveryStart (f : list Z) (off streamID : Z) : go (Z * bool) :=
  let hdr := Z.of_nat SegmentHeaderSize in
  let marker :=
    let markerOff := off - Z.of_nat CommitRecordSize in
    let none := Err (Errorf "storage: safe offset is not after a committed boundary") in
    if hdr <=? markerOff then
      match readFullAt f markerOff CommitRecordSize with
      | Err _ => none
      | Ok buf =>
          match CommitRecord_Decode buf with
          | Err _ => none
          | Ok m => if (cr_Op m =? OpIndexSafe) && negb (cr_Seq m =? 0)
                    then Ok (cr_Seq m, true) else none
          end
      end
    else none in
  let commitOff := off - Z.of_nat BatchCommitSize in
  if hdr <=? commitOff then
    match readFullAt f commitOff BatchCommitSize with
    | Err _ => marker
    | Ok buf =>
        match BatchCommit_Decode buf with
        | Err _ => marker
        | Ok c =>
            refuse negb (bc_Version c =? FormatVersion)
              with Errorf "storage: unsupported checkpoint batchcommit version" in
            refuse negb (bc_StreamID c =? streamID) || (bc_Seq c =? 0)
                   || (bc_RecordCount c =? 0) || (bc_FirstOffset c <? hdr)
                   || (commitOff <=? bc_FirstOffset c)
                   || negb (bc_LastOffset c =? commitOff)
              with Errorf "storage: invalid checkpoint batchcommit" in
            Ok (bc_Seq c, false)
        end
    end
  else marker.

(** The frame-index walk of [parseRecord]: offsets must be consecutive from
    zero and the lengths must add up to the header's stored length. *)
Fixpoint check_frames (n : nat) (i : nat) (index : list Z) (storedLen stored expected : Z) :
    go Z :=
  match n with
  | O => Ok stored
  | S n =>
      let base := (i * FrameIndexEntrySize)%nat in
      let entryOffset := get_be base 4 index in
      let entryLen := get_be (base + 4) 4 index in
      refuse negb (entryOffset =? expected) || (u64 (storedLen - stored) <? entryLen)
        with Errorf "storage: invalid frame index bounds" in
      check_frames n (S i) index storedLen (u64 (stored + entryLen)) (u64 (expected + entryLen))
  end.

Section Recover.
Context {A : Type} (apply : option (A -> CommitDescriptor -> go A)).

Record recoveryState := mkRecoveryState {
  rs_pending : list CommitDescriptor; rs_pendingBytes : Z; rs_lastValid : Z;
  rs_lastCommittedSeq : Z; rs_safeSeq : Z; rs_commits : Z; rs_applied : Z;
  rs_records : Z; rs_replayBytes : Z; rs_ticks : nat; rs_acc : A
}.

(** Fields of [recoveryState] that never change during the scan. *)
Record recoveryEnv := mkRecoveryEnv {
  re_opts : RecoverOptions; re_segID : Z; re_size : Z; re_recordLimit : Z;
  re_safeOffset : Z; re_startedAt : Z; re_deadline : Z
}.

Inductive outcome :=
| Next (off : Z) (commit indexSafe : bool)
| Fail (e : err)
| FailApply (e : err) (committedEnd seq : Z).

(** [deadlineExceeded]: one clock reading. *)
Definition deadlineExceeded (env : recoveryEnv) (s : recoveryState) : bool * recoveryState :=
  (re_deadline env <? ro_clock (re_opts env) (rs_ticks s),
   mkRecoveryState (rs_pending s) (rs_pendingBytes s) (rs_lastValid s)
     (rs_lastCommittedSeq s) (rs_safeSeq s) (rs_commits s) (rs_applied s)
     (rs_records s) (rs_replayBytes s) (S (rs_ticks s)) (rs_acc s)).

(** [addReplayBytes] *)
Definition addReplayBytes (env : recoveryEnv) (s : recoveryState) (n : Z) :
    go recoveryState :=
  refuse (n <? 0) || ((0 <? ro_MaxReplayBytes (re_opts env))
                      && (ro_MaxReplayBytes (re_opts env) - rs_replayBytes s <? n))
    with ErrRecoveryBudgetExceeded in
  Ok (mkRecoveryState (rs_pending s) (rs_pendingBytes s) (rs_lastValid s)
        (rs_lastCommittedSeq s) (rs_safeSeq s) (rs_commits s) (rs_applied s)
        (rs_records s) (rs_replayBytes s + n) (rs_ticks s) (rs_acc s)).

(** [state.result(dataReady)]; the duration is one more clock reading. *)
Definition state_result (env : recoveryEnv) (s : recoveryState) (dataReady : bool) :
    RecoverResult :=
  mkRecoverResult (rs_commits s) (rs_applied s) (rs_lastCommittedSeq s)
    (re_safeOffset env) (rs_lastValid s) (re_size env - rs_lastValid s) (rs_safeSeq s)
    (rs_replayBytes s) (ro_clock (re_opts env) (rs_ticks s) - re_startedAt env) dataReady.

(** [parseRecord] *)
Definition parseRecord_checks (env : recoveryEnv) (f : list Z) (off : Z) :
    go (RecordHeader * Z) :=
  let! prefix := readFullAt f off 5 in
  refuse negb (get_be 0 4 prefix =? RecordMagic) with Errorf "storage: bad record magic" in
  if get_byte 4 prefix =? 2 then
    let! _ := validateV2RecordHeader f off in
    Err (Wrapf "record version 2" ErrUnsupportedRecoveryFormat)
  else
  let! headerBuf := readFullAt f off RecordHeaderSize in
  let! header := RecordHeader_Decode headerBuf in
  let indexBytes := h_FrameCount header * Z.of_nat FrameIndexEntrySize in
  refuse (2 ^ 20 <? indexBytes) || (indexBytes <? 0)
    with Errorf "storage: frame index too large" in
  refuse (h_FrameCount header =? 0) && negb (h_StoredLen header =? 0)
    with Errorf "storage: zero-frame record has stored bytes" in
  refuse (h_Op header =? RecordDelete)
         && (negb (h_StoredLen header =? 0) || negb (h_LogicalLen header =? 0)
             || negb (h_FrameCount header =? 0))
    with Errorf "storage: delete record carries payload" in
  let framing := Z.of_nat RecordHeaderSize + indexBytes + h_StoredLen header
                 + Z.of_nat RecordTrailerSize in
  refuse (framing <? Z.of_nat RecordHeaderSize) || (re_size env - framing <? off)
    with ErrUnexpectedEOF in
  let! index := readFullAt f (off + Z.of_nat RecordHeaderSize) (Z.to_nat indexBytes) in
  refuse negb (CRC32C index =? h_FrameIndexCRC header)
    with Errorf "storage: frame index crc mismatch" in
  let! stored := check_frames (Z.to_nat (h_FrameCount header)) 0 index
                   (h_StoredLen header) 0 0 in
  refuse negb (stored =? h_StoredLen header)
    with Errorf "storage: frame index stored length mismatch" in
  let trailerOff := off + Z.of_nat RecordHeaderSize + indexBytes + h_StoredLen header in
  let! trailerBuf := readFullAt f trailerOff RecordTrailerSize in
  let! trailer := RecordTrailer_Decode trailerBuf in
  refuse negb (t_FramingLen trailer =? u32 framing)
    with Errorf "storage: record trailer framing mismatch" in
  Ok (header, framing).

Definition descriptor_of (env : recoveryEnv) (h : RecordHeader) (off : Z) : CommitDescriptor :=
  mkBatchDescriptor (h_ExtentID h) (h_Generation h) (re_segID env) off (h_StoredLen h)
    (h_LogicalLen h) (h_PayloadChecksum h) (h_Op h).

Definition parseRecord (env : recoveryEnv) (f : list Z) (off : Z) (s : recoveryState) :
    recoveryState * outcome :=
  match parseRecord_checks env f off with
  | Err e => (s, Fail e)
  | Ok (header, framing) =>
      if rs_records s =? re_recordLimit env then (s, Fail ErrRecoveryBudgetExceeded) else
      (mkRecoveryState (rs_pending s ++ [descriptor_of env header off])
         (rs_pendingBytes s + framing) (rs_lastValid s) (rs_lastCommittedSeq s)
         (rs_safeSeq s) (rs_commits s) (rs_applied s) (rs_records s + 1)
         (rs_replayBytes s) (rs_ticks s) (rs_acc s),
       Next (off + framing) false false)
  end.

(** [for range s.pending { if s.deadlineExceeded() ... }] *)
Fixpoint poll_deadline (env : recoveryEnv) (n : nat) (s : recoveryState) :
    bool * recoveryState :=
  match n with
  | O => (false, s)
  | S n => let (ex, s) := deadlineExceeded env s in
           if ex then (true, s) else poll_deadline env n s
  end.

Definition apply_one (s : recoveryState) (acc : A) : recoveryState :=
  mkRecoveryState (rs_pending s) (rs_pendingBytes s) (rs_lastValid s)
    (rs_lastCommittedSeq s) (rs_safeSeq s) (rs_commits s) (rs_applied s + 1)
    (rs_records s) (rs_replayBytes s) (rs_ticks s) acc.

(** The replay loop of [parseCommit] over the pending descriptors. *)
Fixpoint apply_pending (env : recoveryEnv) (app : A -> CommitDescriptor -> go A)
    (committedEnd seq : Z) (ds : list CommitDescriptor) (s : recoveryState) :
    recoveryState * option outcome :=
  match ds with
  | [] => (s, None)
  | d :: ds =>
      let (ex, s) := deadlineExceeded env s in
      if ex then (s, Some (Fail ErrRecoveryBudgetExceeded)) else
      match app (rs_acc s) d with
      | Err e => (s, Some (FailApply e committedEnd seq))
      | Ok acc => apply_pending env app committedEnd seq ds (apply_one s acc)
      end
  end.

Definition commit_done (s : recoveryState) (seq : Z) : recoveryState :=
  mkRecoveryState [] 0 (rs_lastValid s) seq (rs_safeSeq s) (rs_commits s + 1)
    (rs_applied s) (rs_records s) (rs_replayBytes s) (rs_ticks s) (rs_acc s).

(** The structural checks of [parseCommit], before the clock is polled. *)
Definition parseCommit_checks (env : recoveryEnv) (f : list Z) (off : Z)
    (s : recoveryState) : go BatchCommit :=
  let! buf := readFullAt f off BatchCommitSize in
  let! commit := BatchCommit_Decode buf in
  refuse bc_Version commit =? 2
    with Wrapf "batchcommit version" ErrUnsupportedRecoveryFormat in
  refuse negb (bc_Version commit =? FormatVersion)
    with Errorf "storage: unsupported batchcommit version" in
  refuse negb (bc_StreamID commit =? ro_StreamID (re_opts env))
         || (bc_Seq commit <=? rs_lastCommittedSeq s)
         || negb (bc_RecordCount commit =? u32 (Z.of_nat (length (rs_pending s))))
    with Errorf "storage: invalid batchcommit fields" in
  match rs_pending s with
  | [] => Err (Errorf "storage: invalid batchcommit offsets")
  | first :: _ =>
      refuse negb (bc_FirstOffset commit =? bd_Offset first)
             || negb (bc_LastOffset commit =? off)
        with Errorf "storage: invalid batchcommit offsets" in
      Ok commit
  end.

(** [parseCommit] *)
Definition parseCommit (env : recoveryEnv) (f : list Z) (off : Z) (s : recoveryState) :
    recoveryState * outcome :=
  match parseCommit_checks env f off s with
  | Err e => (s, Fail e)
  | Ok commit =>
      let (ex, s) := poll_deadline env (length (rs_pending s)) s in
      if ex then (s, Fail ErrRecoveryBudgetExceeded) else
      let batchBytes := rs_pendingBytes s + Z.of_nat BatchCommitSize in
      if negb (bc_DescriptorsCRC commit =? pendingDescriptorsCRC (rs_pending s))
      then (s, Fail (Errorf "storage: batch descriptor crc mismatch")) else
      let next := off + Z.of_nat BatchCommitSize in
      if ro_SafeSeq (re_opts env) <? bc_Seq commit then
        match addReplayBytes env s batchBytes with
        | Err _ => (s, Fail ErrRecoveryBudgetExceeded)
        | Ok s =>
            match apply with
            | None => (commit_done s (bc_Seq commit), Next next true false)
            | Some app =>
                match apply_pending env app next (bc_Seq commit) (rs_pending s) s with
                | (s, Some o) => (s, o)
                | (s, None) => (commit_done s (bc_Seq commit), Next next true false)
                end
            end
        end
      else (commit_done s (bc_Seq commit), Next next true false)
  end.

Definition set_safeSeq (s : recoveryState) (seq : Z) : recoveryState :=
  mkRecoveryState (rs_pending s) (rs_pendingBytes s) (rs_lastValid s)
    (rs_lastCommittedSeq s) seq (rs_commits s) (rs_applied s) (rs_records s)
    (rs_replayBytes s) (rs_ticks s) (rs_acc s).

(** The INDEX_SAFE marker at [off], if there is a decodable one. *)
Definition index_safe_at (f : list Z) (off : Z) : option CommitRecord :=
  match readFullAt f off CommitRecordSize with
  | Err _ => None
  | Ok buf =>
      match CommitRecord_Decode buf with
      | Err _ => None
      | Ok r => if cr_Op r =? OpIndexSafe then Some r else None
      end
  end.

(** [parseEntry] *)
Definition parseEntry (env : recoveryEnv) (f : list Z) (off : Z) (s : recoveryState) :
    recoveryState * outcome :=
  match readFullAt f off 4 with
  | Err e => (s, Fail e)
  | Ok magicBuf =>
      let magic := get_be 0 4 magicBuf in
      if magic =? BatchCommitMagic then parseCommit env f off s else
      let safe :=
        if negb (magic =? RecordMagic)
           && (off + Z.of_nat CommitRecordSize <=? re_size env)
        then index_safe_at f off else None in
      match safe with
      | Some record =>
          match rs_pending s with
          | _ :: _ => (s, Fail (Errorf "storage: index safe follows uncommitted records"))
          | [] =>
              let s := if rs_safeSeq s <? cr_Seq record then set_safeSeq s (cr_Seq record)
                       else s in
              match addReplayBytes env s (Z.of_nat CommitRecordSize) with
              | Err e => (s, Fail e)
              | Ok s => (s, Next (off + Z.of_nat CommitRecordSize) false true)
              end
          end
      | None => parseRecord env f off s
      end
  end.

Definition set_lastValid (s : recoveryState) (off : Z) : recoveryState :=
  mkRecoveryState (rs_pending s) (rs_pendingBytes s) off (rs_lastCommittedSeq s)
    (rs_safeSeq s) (rs_commits s) (rs_applied s) (rs_records s) (rs_replayBytes s)
    (rs_ticks s) (rs_acc s).

(** How the scan loop of [RecoverFromSegmentLog] ends. *)
Inductive scan_end :=
| ScanDone (s : recoveryState)                     (** reached EOF or broke off a bad tail *)
| ScanPartial (s : recoveryState) (e : err)        (** [return state.result(false), e] *)
| ScanAbort (s : recoveryState) (e : err).         (** [return nil, e] *)

Fixpoint scan (fuel : nat) (env : recoveryEnv) (f : list Z) (off : Z) (s : recoveryState) :
    option scan_end :=
  match fuel with
  | O => None
  | S fuel =>
      if negb (off <? re_size env) then Some (ScanDone s) else
      let (ex, s) := deadlineExceeded env s in
      if ex then Some (ScanPartial s ErrRecoveryBudgetExceeded) else
      match parseEntry env f off s with
      | (s, Fail e) =>
          if errors_Is e ErrRecoveryBudgetExceeded then Some (ScanPartial s e)
          else if errors_Is e ErrUnsupportedRecoveryFormat then Some (ScanAbort s e)
          else Some (ScanDone s)
      | (s, FailApply e committedEnd seq) =>
          if errors_Is e ErrRecoveryBudgetExceeded then Some (ScanPartial s e) else
          Some (ScanPartial
            (mkRecoveryState (rs_pending s) (rs_pendingBytes s) committedEnd seq
               (rs_safeSeq s) (rs_commits s + 1) (rs_applied s) (rs_records s)
               (rs_replayBytes s) (rs_ticks s) (rs_acc s)) e)
      | (s, Next next commit indexSafe) =>
          scan fuel env f next (if commit || indexSafe then set_lastValid s next else s)
      end
  end.

(** What [RecoverFromSegmentLog] leaves behind: the file, the callback's
    state, the result if one is returned, and the error. *)
Record recover_out := mkRecoverOut {
  out_file : list Z; out_acc : A; out_result : option RecoverResult; out_err : option err
}.

(** The end of [RecoverFromSegmentLog], after the scan. *)
Definition recover_finish (env : recoveryEnv) (f : list Z) (start : Z) (s : recoveryState) :
    recover_out :=
  let trailing := re_size env - rs_lastValid s in
  if (0 <? ro_MaxTrailingBytes (re_opts env))
     && (ro_MaxTrailingBytes (re_opts env) <? trailing)
  then mkRecoverOut f (rs_acc s) (Some (state_result env s false))
         (Some ErrRecoveryBudgetExceeded) else
  if (0 <? trailing) && (rs_lastValid s <? start)
  then mkRecoverOut f (rs_acc s) None
         (Some (Errorf "storage: refusing to truncate below safe offset")) else
  let f := if 0 <? trailing then truncate f (rs_lastValid s) else f in
  let (ex, s) := deadlineExceeded env s in
  if ex then mkRecoverOut f (rs_acc s) (Some (state_result env s false))
               (Some ErrRecoveryBudgetExceeded) else
  mkRecoverOut f (rs_acc s) (Some (state_result env s true)) None.

(** The sequence recovery resumes after: the one of the commit structure at
    the checkpointed offset, zero for a scan of the whole segment. *)
Definition checkpoint_seq (f : list Z) (opts : RecoverOptions) (start : Z) : go Z :=
  if Z.of_nat SegmentHeaderSize <? start then
    match validateSafeRecoveryStart f start (ro_StreamID opts) with
    | Err e => Err (Wrapf "storage: safe offset is not an encoded boundary" e)
    | Ok (seq, isIndexSafe) =>
        refuse ro_RequireSafeMarker opts
               && (negb isIndexSafe || negb (seq =? ro_SafeSeq opts))
          with Errorf "storage: safe offset does not match index-safe checkpoint" in
        Ok seq
    end
  else Ok 0.

(** The scan loop and everything after it. One iteration consumes at least
    one byte, so [S size] iterations are enough ([scan_fuel]). *)
Definition recover_scan (env : recoveryEnv) (f : list Z) (start : Z) (s0 : recoveryState) :
    recover_out :=
  match scan (S (Z.to_nat (re_size env))) env f start s0 with
  | None => mkRecoverOut f (rs_acc s0) None (Some (Errorf "out of fuel"))
  | Some (ScanPartial s e) =>
      mkRecoverOut f (rs_acc s) (Some (state_result env s false)) (Some e)
  | Some (ScanAbort s e) => mkRecoverOut f (rs_acc s) None (Some e)
  | Some (ScanDone s) => recover_finish env f start s
  end.

(** [RecoverFromSegmentLog] on the contents [f] of [segID.seg]. *)
Definition RecoverFromSegmentLog (segID : Z) (f : list Z) (opts : RecoverOptions) (acc : A) :
    recover_out :=
  let startedAt := recovery_startedAt opts in
  let deadline := recovery_deadline opts in
  let ticks := recovery_ticks opts in
  let limits := recoveryByteLimits opts in
  let opts := mkRecoverOptions (ro_StreamID opts) (ro_SafeOffset opts) (ro_SafeSeq opts)
    (ro_RequireSafeMarker opts) (ro_MaxRecords opts) limits.1 limits.2 (ro_clock opts)
    (Some deadline) (Some startedAt) in
  let size := file_size f in
  let hdr := Z.of_nat SegmentHeaderSize in
  let fail e := mkRecoverOut f acc None (Some e) in
  if size <? hdr then fail (Errorf "storage: segment shorter than header") else
  match (let! headerBuf := readFullAt f 0 SegmentHeaderSize in
         SegmentHeader_Decode headerBuf) with
  | Err e => fail e
  | Ok _ =>
      if ro_SafeOffset opts <? 0 then fail (Errorf "storage: safe offset outside segment") else
      let start := if ro_SafeOffset opts <? hdr then hdr else ro_SafeOffset opts in
      if size <? start then fail (Errorf "storage: safe offset outside segment size") else
      match checkpoint_seq f opts start with
      | Err e => fail e
      | Ok checkpointSeq =>
          recover_scan
            (mkRecoveryEnv opts segID size (recoveryRecordLimit opts) start startedAt deadline)
            f start
            (mkRecoveryState [] 0 start checkpointSeq (ro_SafeSeq opts) 0 0 0 0
               ticks acc)
      end
  end.
End Recover.

Arguments recoveryState A : clear implicits.
Arguments recover_out A : clear implicits.
Arguments scan_end A : clear implicits.
