(* ===== verification/SegmentLog.v ===== *)
(** * The segment log, abstractly

    A segment's contents after its header are a sequence of entries: batches
    of framed records closed by a BatchCommit, and INDEX_SAFE markers. This
    file gives their bytes, what it means for them to be well formed, and how
    [parseEntry] of [recover.go] reacts to a complete entry and to every
    proper prefix of one. *)

From stdpp Require Import base list numbers strings.
From Stdlib Require Import ZArith Lia.
From S2P Require Import Prelude Bytes Crc StorageTypes FileIO Record Journal SegmentFile.
From S2P Require Import Recover.

Local Open Scope Z_scope.
Local Open Scope go_scope.

(** ** Records *)

Record log_record := mkLogRecord {
  lr_header : RecordHeader; lr_index : list FrameIndexEntry; lr_stored : list Z
}.

Definition lr_framing (r : log_record) : Z :=
  67 + 13 * Z.of_nat (length (lr_index r)) + Z.of_nat (length (lr_stored r)).

Definition lr_bytes (r : log_record) : list Z :=
  record_bytes (lr_header r) (frame_index_bytes (lr_index r)) (lr_stored r) (lr_framing r).

(** Frame offsets are consecutive from [expected]; the result is their end. *)
Fixpoint frames_end (expected : Z) (es : list FrameIndexEntry) : option Z :=
  match es with
  | [] => Some expected
  | e :: es => if fe_Offset e =? expected then frames_end (expected + fe_StoredLen e) es else None
  end.

Record lr_wf (r : log_record) : Prop := mkLr_wf {
  lrw_header : RecordHeader_wf (lr_header r);
  lrw_current : header_current (lr_header r);
  lrw_crc0 : h_HeaderCRC (lr_header r) = 0;
  lrw_count : h_FrameCount (lr_header r) = Z.of_nat (length (lr_index r));
  lrw_stored : h_StoredLen (lr_header r) = Z.of_nat (length (lr_stored r));
  lrw_index_crc : h_FrameIndexCRC (lr_header r) = CRC32C (frame_index_bytes (lr_index r));
  lrw_index : Forall FrameIndexEntry_wf (lr_index r);
  lrw_frames : frames_end 0 (lr_index r) = Some (Z.of_nat (length (lr_stored r)));
  lrw_bound : lr_framing r < 2 ^ 32;
  lrw_delete : h_Op (lr_header r) = RecordDelete ->
               lr_index r = [] /\ h_LogicalLen (lr_header r) = 0
}.

Lemma length_lr_bytes r : Z.of_nat (length (lr_bytes r)) = lr_framing r.
Proof.
  unfold lr_bytes, lr_framing. rewrite length_record_bytes, length_frame_index_bytes.
  change FrameIndexEntrySize with 13%nat. lia.
Qed.

Lemma check_frames_spec es i pre rest storedLen stored :
  Forall FrameIndexEntry_wf es -> length pre = (i * FrameIndexEntrySize)%nat ->
  0 <= stored -> storedLen < 2 ^ 32 -> frames_end stored es = Some storedLen ->
  check_frames (length es) i (pre ++ frame_index_bytes es ++ rest) storedLen stored stored
  = Ok storedLen.
Proof.
  intros Hw. revert i pre stored. induction Hw as [|e es He Hes IH]; intros i pre stored Hp H0 Hb Hf.
  { simpl in *. by simplify_eq. }
  simpl length. cbn [check_frames]. simpl in Hf.
  destruct (Z.eqb_spec (fe_Offset e) stored) as [Ho|]; [|done].
  pose proof He as (W1 & W2 & W3 & W4). unfold uintw in *.
  assert (forall es x y, Forall FrameIndexEntry_wf es -> frames_end x es = Some y -> x <= y) as Hmono.
  { clear. intros es. induction es as [|e es IH]; intros x y Hw Hf; simpl in Hf; [simplify_eq; lia|].
    apply Forall_cons in Hw as [(_ & W & _) Hw]. destruct (fe_Offset e =? x); [|done].
    apply IH in Hf; [|done]. unfold uintw in W. lia. }
  pose proof (Hmono _ _ _ Hes Hf).
  unfold frame_index_bytes. cbn [map concat]. fold (frame_index_bytes es).
  assert (frame_entry_at (i * FrameIndexEntrySize)
            (pre ++ (frame_entry_bytes e ++ frame_index_bytes es) ++ rest) = e) as Hat.
  { rewrite <- Hp, <- (Nat.add_0_r (length pre)), frame_entry_at_shift, <- app_assoc.
    by apply frame_entry_at_bytes. }
  unfold frame_entry_at in Hat. apply (f_equal fe_Offset) in Hat as Ho'.
  apply (f_equal fe_StoredLen) in Hat as Hl'. cbn [fe_Offset fe_StoredLen] in Ho', Hl'.
  rewrite Ho', Hl', Ho, Z.eqb_refl. simpl negb. simpl orb.
  rewrite !wrap_small by (unfold uintw; lia).
  rewrite (proj2 (Z.ltb_ge _ _)) by lia.
  rewrite <- app_assoc, app_assoc. apply IH; [|lia|done|done].
  rewrite length_app, Hp. change (length (frame_entry_bytes e)) with FrameIndexEntrySize. lia.
Qed.

(** ** Batches *)

Definition batch_framing (recs : list log_record) : Z := foldr Z.add 0 (map lr_framing recs).
Definition batch_bytes (recs : list log_record) : list Z := concat (map lr_bytes recs).

(** Descriptor of a record at an offset, as [parseRecord] and [commitBatch]
    both build it. *)
Definition lr_descriptor (segID off : Z) (r : log_record) : CommitDescriptor :=
  mkBatchDescriptor (h_ExtentID (lr_header r)) (h_Generation (lr_header r)) segID off
    (h_StoredLen (lr_header r)) (h_LogicalLen (lr_header r))
    (h_PayloadChecksum (lr_header r)) (h_Op (lr_header r)).

Fixpoint batch_descriptors (segID off : Z) (recs : list log_record) : list CommitDescriptor :=
  match recs with
  | [] => []
  | r :: recs => lr_descriptor segID off r :: batch_descriptors segID (off + lr_framing r) recs
  end.

Definition batch_commit (stream segID off : Z) (recs : list log_record) (seq : Z) : BatchCommit :=
  mkBatchCommit BatchCommitMagic FormatVersion stream seq (Z.of_nat (length recs)) off
    (off + batch_framing recs)
    (CRC32C (descriptors_bytes (batch_descriptors segID off recs))) 0.

(** ** Entries *)

Inductive log_entry :=
| LBatch (recs : list log_record) (seq : Z)
| LSafe (seq : Z).

Definition entry_bytes (stream segID off : Z) (e : log_entry) : list Z :=
  match e with
  | LBatch recs seq => batch_bytes recs ++ batch_commit_bytes (batch_commit stream segID off recs seq)
  | LSafe seq => commit_record_bytes (index_safe_record seq)
  end.

Definition entry_size (e : log_entry) : Z :=
  match e with
  | LBatch recs _ => batch_framing recs + 42
  | LSafe _ => 73
  end.

Fixpoint log_bytes (stream segID off : Z) (es : list log_entry) : list Z :=
  match es with
  | [] => []
  | e :: es => entry_bytes stream segID off e ++ log_bytes stream segID (off + entry_size e) es
  end.

(** Sequences below 2^62 keep an INDEX_SAFE marker, which starts with its
    sequence, from looking like a record or a commit. *)
Definition entry_ok (stream off lastSeq : Z) (e : log_entry) : Prop :=
  0 <= off /\ off + entry_size e < 2 ^ 62 /\
  match e with
  | LBatch recs seq =>
      is_u8 stream /\ recs <> [] /\ Forall lr_wf recs /\ lastSeq < seq < 2 ^ 62
      /\ 0 <= lastSeq /\ Z.of_nat (length recs) < 2 ^ 32
  | LSafe seq => 0 <= seq < 2 ^ 62
  end.

Definition entry_seq (lastSeq : Z) (e : log_entry) : Z :=
  match e with LBatch _ seq => seq | LSafe _ => lastSeq end.

Fixpoint log_ok (stream off lastSeq : Z) (es : list log_entry) : Prop :=
  match es with
  | [] => True
  | e :: es => entry_ok stream off lastSeq e
               /\ log_ok stream (off + entry_size e) (entry_seq lastSeq e) es
  end.

Lemma length_batch_bytes recs : Z.of_nat (length (batch_bytes recs)) = batch_framing recs.
Proof.
  unfold batch_bytes, batch_framing. induction recs as [|r recs IH]; [done|].
  cbn [map concat foldr]. rewrite length_app, Nat2Z.inj_add, IH, length_lr_bytes. done.
Qed.

Lemma length_entry_bytes stream segID off e :
  Z.of_nat (length (entry_bytes stream segID off e)) = entry_size e.
Proof.
  destruct e as [recs seq|seq]; cbn [entry_bytes entry_size].
  - by rewrite length_app, Nat2Z.inj_add, length_batch_bytes, length_batch_commit_bytes.
  - by rewrite length_commit_record_bytes.
Qed.

Lemma log_size_app stream segID off es : file_size (log_bytes stream segID off es) =
  foldr Z.add 0 (map entry_size es).
Proof.
  unfold file_size. revert off. induction es as [|e es IH]; intros off; [done|].
  cbn [log_bytes map foldr]. rewrite length_app, Nat2Z.inj_add, IH, length_entry_bytes. done.
Qed.

Lemma descriptor_puts_bytes d buf :
  length buf = BatchDescriptorSize -> puts (descriptor_puts 0 d) buf = descriptor_bytes d.
Proof.
  intros Hl.
  assert (length (table_bytes (descriptor_puts 0 d)) = BatchDescriptorSize) as Ht by reflexivity.
  rewrite puts_contiguous; [|apply descriptor_puts_contiguous|lia].
  rewrite drop_ge by lia. apply app_nil_r.
Qed.

Lemma pending_step_bytes d h buf :
  length buf = BatchDescriptorSize ->
  pending_step (h, buf) d = (digest_Write h (descriptor_bytes d), descriptor_bytes d).
Proof. 
  intros Hl. unfold pending_step. cbn [fst snd]. by rewrite (descriptor_puts_bytes d _ Hl).
Qed.

Lemma fold_left_simulates {X Y B C} (f : X -> B -> X) (g : Y -> C -> Y) (m : B -> C)
    (p : X -> Y) (I : X -> Prop) :
  (forall x b, I x -> I (f x b) /\ p (f x b) = g (p x) (m b)) ->
  forall l x, I x -> p (fold_left f l x) = fold_left g (map m l) (p x).
Proof.
  intros H l. induction l as [|b l IH]; intros x Hx; [done|]. simpl.
  destruct (H x b Hx) as [Hi <-]. by apply IH.
Qed.

Lemma pending_fold ds h buf :
  length buf = BatchDescriptorSize ->
  (fold_left pending_step ds (h, buf)).1 = fold_left digest_Write (map descriptor_bytes ds) h.
Proof.
  intros Hl.
  apply (fold_left_simulates pending_step digest_Write descriptor_bytes fst
           (fun s => length s.2 = BatchDescriptorSize)); [|exact Hl].
  intros [h' buf'] d Hb. rewrite (pending_step_bytes d h' buf' Hb).
  split; [apply length_descriptor_bytes|exact eq_refl].
Qed.

(** Streaming and one-shot descriptor checksums agree. *)
Lemma pendingDescriptorsCRC_spec ds :
  pendingDescriptorsCRC ds = CRC32C (descriptors_bytes ds).
Proof.
  unfold pendingDescriptorsCRC, descriptors_bytes.
  rewrite pending_fold by apply length_replicate. apply digest_chunks.
Qed.
