(* ===== verification/LogParse.v ===== *)
(** * Parsing the segment log

    How the parser of [recover.go] reacts to the bytes of [SegmentLog.v]: a
    complete record, commit or marker is accepted as what it is, and every
    proper prefix of one, the shape a torn write leaves behind, is rejected
    with an error that makes the scan stop and truncate. *)

From stdpp Require Import base list numbers strings.
From Stdlib Require Import ZArith Lia.
From S2P Require Import Prelude Bytes Crc StorageTypes FileIO Record Journal SegmentFile Recover SegmentLog.

Local Open Scope Z_scope.
Local Open Scope go_scope.

(** Errors after which the scan loop breaks off the tail. *)
Definition tail_err (e : err) : Prop :=
  errors_Is e ErrRecoveryBudgetExceeded = false
  /\ errors_Is e ErrUnsupportedRecoveryFormat = false.

Lemma tail_err_Errorf m : tail_err (Errorf m).
Proof. done. Qed.
Lemma tail_err_EOF : tail_err ErrUnexpectedEOF.
Proof. done. Qed.

#[export] Hint Resolve tail_err_Errorf tail_err_EOF : nufs.

(** ** Leading bytes *)

Lemma get_be_take off n m src :
  (off + n <= m)%nat -> get_be off n (take m src) = get_be off n src.
Proof. intros. unfold get_be. by rewrite field_take. Qed.

Lemma get_byte_take off m src :
  (off + 1 <= m)%nat -> get_byte off (take m src) = get_byte off src.
Proof. apply get_be_take. Qed.

Lemma header_magic h rest :
  RecordHeader_wf h -> header_current h -> get_be 0 4 (header_bytes h ++ rest) = RecordMagic.
Proof.
  intros W (Hm & _). destruct (header_bytes_fields h rest W) as (_ & _ & Hf).
  apply (f_equal h_Magic) in Hf. cbn [h_Magic] in Hf. congruence.
Qed.

Lemma header_version h rest :
  RecordHeader_wf h -> header_current h -> get_byte 4 (header_bytes h ++ rest) = FormatVersion.
Proof.
  intros W (_ & Hv & _). destruct (header_bytes_fields h rest W) as (_ & _ & Hf).
  apply (f_equal h_Version) in Hf. cbn [h_Version] in Hf. congruence.
Qed.

Lemma commit_magic b rest :
  BatchCommit_wf b -> get_be 0 4 (batch_commit_bytes b ++ rest) = BatchCommitMagic.
Proof.
  intros W. unfold batch_commit_bytes. rewrite <- app_assoc.
  destruct (batch_commit_fields b _ rest W (CRC32C_bound _ (batch_commit_body_wf b)))
    as (_ & _ & Hf).
  apply (f_equal bc_Magic) in Hf. cbn [bc_Magic] in Hf. rewrite Hf. by destruct W.
Qed.

(** The first four bytes of a marker are the high half of its sequence. *)
Lemma marker_magic r rest :
  CommitRecord_wf r -> get_be 0 4 (commit_record_bytes r ++ rest) = cr_Seq r / 2 ^ 32.
Proof.
  intros W. unfold commit_record_bytes. set (c := CRC32C (commit_record_body r)). clearbody c.
  unfold commit_record_body, commit_record_puts, table_bytes. cbn [map concat snd].
  change (be_enc 8 (cr_Seq r)) with
    ([be_byte (cr_Seq r) 7; be_byte (cr_Seq r) 6; be_byte (cr_Seq r) 5; be_byte (cr_Seq r) 4]
     ++ be_enc 4 (cr_Seq r)).
  rewrite <- !app_assoc. unfold get_be. rewrite field_app_l by (simpl; lia).
  rewrite (field_all [_; _; _; _]).
  destruct W as [[H0 H1] _]. unfold be_dec. cbn [be_dec_from]. rewrite !be_byte_div.
  change (256 ^ Z.of_nat 7) with (2 ^ 24 * 2 ^ 32). change (256 ^ Z.of_nat 6) with (2 ^ 16 * 2 ^ 32).
  change (256 ^ Z.of_nat 5) with (2 ^ 8 * 2 ^ 32). change (256 ^ Z.of_nat 4) with (2 ^ 32).
  rewrite !(Z.mul_comm _ (2 ^ 32)), <- !Z.div_div by lia.
  set (y := cr_Seq r / 2 ^ 32).
  assert (0 <= y < 2 ^ 32) by (subst y; split; [apply Z.div_pos; lia|apply Z.div_lt_upper_bound; lia]).
  clearbody y. Z.div_mod_to_equations. lia.
Qed.

(** ** Complete records *)

Section Parse.
Context {A : Type} (apply : option (A -> CommitDescriptor -> go A)).
Context (env : recoveryEnv).

Lemma index_bytes_bound r : lr_wf r -> 13 * Z.of_nat (length (lr_index r)) < 2 ^ 20.
Proof.
  intros W. destruct (lrw_header r W). rewrite (lrw_count r W) in *. unfold uintw in *. lia.
Qed.

Lemma lr_header_Decode r :
  lr_wf r -> RecordHeader_Decode (header_bytes (lr_header r)) = Ok (lr_header r).
Proof.
  intros W. unfold RecordHeader_Decode.
  rewrite <- (lrw_crc0 r W), <- (app_nil_r (header_bytes _)).
  apply RecordHeader_Decode_bytes; apply W.
Qed.

Lemma lr_zero_frames r :
  lr_wf r -> length (lr_index r) = 0%nat -> length (lr_stored r) = 0%nat.
Proof.
  intros W H0. pose proof (lrw_frames r W) as Hf. destruct (lr_index r); [|done].
  simpl in Hf. apply (inj Some) in Hf. lia.
Qed.

Lemma lr_delete_empty r :
  lr_wf r -> h_Op (lr_header r) = RecordDelete ->
  length (lr_index r) = 0%nat /\ h_LogicalLen (lr_header r) = 0.
Proof. intros W H0. destruct (lrw_delete r W H0) as [-> H]. done. Qed.

Lemma parseRecord_checks_complete pre r rest :
  lr_wf r -> re_size env = file_size (pre ++ lr_bytes r ++ rest) ->
  parseRecord_checks env (pre ++ lr_bytes r ++ rest) (Z.of_nat (length pre))
  = Ok (lr_header r, lr_framing r).
Proof.
  intros W Hsz.
  pose proof (lrw_header r W) as Wh. pose proof (lrw_current r W) as Wc.
  pose proof (index_bytes_bound r W) as Hib. pose proof (length_lr_bytes r) as Hlen.
  pose proof (lrw_bound r W) as Hb.
  rewrite !file_size_app in Hsz. unfold file_size in Hsz. rewrite Hlen in Hsz.
  unfold parseRecord_checks.
  rewrite (readFullAt_app pre _ 5) by (rewrite length_app; unfold lr_framing in Hlen; lia).
  rewrite bind_Ok, get_be_take, get_byte_take by lia.
  unfold lr_bytes, record_bytes. rewrite <- !app_assoc.
  rewrite header_magic, header_version by done. rewrite refuse_pass by (by rewrite Z.eqb_refl).
  rewrite (proj2 (Z.eqb_neq FormatVersion 2)) by done.
  rewrite readFullAt_window by done. rewrite bind_Ok.
  rewrite lr_header_Decode, bind_Ok by done.
  rewrite (lrw_count r W), (lrw_stored r W).
  change (Z.of_nat FrameIndexEntrySize) with 13. change (Z.of_nat RecordHeaderSize) with 55.
  change (Z.of_nat RecordTrailerSize) with 12.
  replace (55 + Z.of_nat (length (lr_index r)) * 13 + Z.of_nat (length (lr_stored r)) + 12)
    with (lr_framing r) by (unfold lr_framing; lia).
  rewrite refuse_pass by lia.
  rewrite refuse_pass by (pose proof (lr_zero_frames r W); lia).
  rewrite refuse_pass by (destruct (Z.eqb_spec (h_Op (lr_header r)) RecordDelete) as [Hd|]; [|done];
    destruct (lr_delete_empty r W Hd) as [Hd1 Hd2];
    pose proof (lr_zero_frames r W Hd1); simpl; lia).
  rewrite refuse_pass by (unfold lr_framing in *; lia).
  rewrite (app_assoc pre), 
    (readFullAt_window (pre ++ _) (frame_index_bytes _) _ (Z.of_nat (length pre) + 55));
    [|rewrite length_app, length_header_bytes; change RecordHeaderSize with 55%nat; lia
     |rewrite length_frame_index_bytes; change FrameIndexEntrySize with 13%nat; lia].
  rewrite bind_Ok, (lrw_index_crc r W), refuse_pass by (by rewrite Z.eqb_refl).
  rewrite Nat2Z.id, <- (app_nil_r (frame_index_bytes (lr_index r))) at 1.
  rewrite <- (app_nil_l (frame_index_bytes (lr_index r) ++ [])) at 1.
  rewrite check_frames_spec;
    [|apply (lrw_index r W)|done|lia|unfold lr_framing in *; lia|apply (lrw_frames r W)].
  rewrite bind_Ok, Z.eqb_refl. simpl negb. cbv iota.
  rewrite (app_assoc (pre ++ _)), (app_assoc ((pre ++ _) ++ _)), (readFullAt_window _ (trailer_bytes _));
    [|rewrite !length_app, length_header_bytes, length_frame_index_bytes;
      change RecordHeaderSize with 55%nat; change FrameIndexEntrySize with 13%nat; lia|done].
  rewrite bind_Ok, <- (app_nil_r (trailer_bytes _)).
  rewrite RecordTrailer_Decode_bytes by (unfold uintw, lr_framing in *; lia).
  rewrite bind_Ok. cbn [t_FramingLen].
  rewrite wrap_small by (unfold uintw, lr_framing in *; lia). by rewrite Z.eqb_refl.
Qed.

(** ** Torn records *)

Lemma take_short (k n : nat) (l r : list Z) :
  (n <= k)%nat -> (n <= length l)%nat -> take n (take k (l ++ r)) = take n l.
Proof. intros. rewrite take_take, Nat.min_l, take_app_le by lia. done. Qed.

Lemma length_torn (k : nat) (l : list Z) :
  (k < length l)%nat -> length (take k l) = k.
Proof. intros. rewrite length_take. lia. Qed.

Lemma refuse_tail {X} (c : bool) m (k : go X) :
  (exists e, k = Err e /\ tail_err e) ->
  exists e, (if c then Err (Errorf m) else k) = Err e /\ tail_err e.
Proof. destruct c; [intros _; by exists (Errorf m)|done]. Qed.

Lemma parseRecord_checks_torn pre r k :
  lr_wf r -> (k < length (lr_bytes r))%nat ->
  re_size env = file_size (pre ++ take k (lr_bytes r)) ->
  exists e, parseRecord_checks env (pre ++ take k (lr_bytes r)) (Z.of_nat (length pre)) = Err e
            /\ tail_err e.
Proof.
  intros W Hk Hsz.
  pose proof (lrw_header r W) as Wh. pose proof (lrw_current r W) as Wc.
  pose proof (length_lr_bytes r) as Hlen.
  rewrite file_size_app in Hsz. unfold file_size in Hsz. rewrite length_torn in Hsz by done.
  assert (forall n, (n <= k)%nat -> (n <= 55)%nat ->
            take n (take k (lr_bytes r)) = take n (header_bytes (lr_header r))) as Hpre
    by (intros; unfold lr_bytes, record_bytes; by apply take_short).
  unfold parseRecord_checks.
  destruct (Nat.lt_ge_cases k 5).
  { rewrite (readFullAt_eof _ _ 5) by (rewrite ?file_size_app; unfold file_size;
      rewrite ?length_torn; lia). eexists. split; [reflexivity|apply tail_err_EOF]. }
  rewrite (readFullAt_app pre _ 5) by (rewrite length_torn; lia).
  rewrite Hpre by lia. rewrite bind_Ok, get_be_take, get_byte_take by lia.
  rewrite <- (app_nil_r (header_bytes (lr_header r))).
  rewrite header_magic, header_version by done.
  rewrite refuse_pass by (by rewrite Z.eqb_refl).
  rewrite (proj2 (Z.eqb_neq FormatVersion 2)) by done.
  destruct (Nat.lt_ge_cases k 55).
  { rewrite (readFullAt_eof _ _ RecordHeaderSize)
      by (rewrite ?file_size_app; unfold file_size; rewrite ?length_torn;
          change RecordHeaderSize with 55%nat; lia).
    eexists. split; [reflexivity|apply tail_err_EOF]. }
  rewrite (readFullAt_app pre _ RecordHeaderSize)
    by (rewrite length_torn; change RecordHeaderSize with 55%nat; lia).
  rewrite Hpre by (change RecordHeaderSize with 55%nat; lia).
  rewrite (take_ge (header_bytes _)) by (by rewrite length_header_bytes).
  rewrite bind_Ok.
  rewrite lr_header_Decode, bind_Ok by done. cbv zeta.
  do 3 apply refuse_tail.
  rewrite (lrw_count r W), (lrw_stored r W).
  change (Z.of_nat FrameIndexEntrySize) with 13. change (Z.of_nat RecordHeaderSize) with 55.
  change (Z.of_nat RecordTrailerSize) with 12.
  replace (55 + Z.of_nat (length (lr_index r)) * 13 + Z.of_nat (length (lr_stored r)) + 12)
    with (lr_framing r) by (unfold lr_framing; lia).
  rewrite (proj2 (Z.ltb_lt (re_size env - lr_framing r) _)) by lia. rewrite orb_true_r.
  eexists. split; [reflexivity|apply tail_err_EOF].
Qed.

(** ** Entries *)

Lemma record_leading pre r rest n :
  lr_wf r -> (4 <= n)%nat -> re_size env = file_size (pre ++ take n (lr_bytes r ++ rest)) ->
  forall s : recoveryState A,
  parseEntry apply env (pre ++ take n (lr_bytes r ++ rest)) (Z.of_nat (length pre)) s
  = parseRecord env (pre ++ take n (lr_bytes r ++ rest)) (Z.of_nat (length pre)) s.
Proof.
  intros W Hn Hsz s. pose proof (length_lr_bytes r) as Hlen.
  assert (67 <= lr_framing r) by (unfold lr_framing; lia).
  unfold parseEntry.
  rewrite readFullAt_app by (rewrite length_take, length_app; lia).
  rewrite get_be_take, get_be_take by lia.
  assert (get_be 0 4 (lr_bytes r ++ rest) = RecordMagic) as ->
    by (unfold lr_bytes, record_bytes; rewrite <- !app_assoc; apply header_magic; apply W).
  cbv zeta.
  rewrite (proj2 (Z.eqb_neq RecordMagic BatchCommitMagic)), Z.eqb_refl by done. done.
Qed.

Lemma parseEntry_record pre r rest (s : recoveryState A) :
  lr_wf r -> re_size env = file_size (pre ++ lr_bytes r ++ rest) ->
  rs_records s <> re_recordLimit env ->
  parseEntry apply env (pre ++ lr_bytes r ++ rest) (Z.of_nat (length pre)) s
  = (mkRecoveryState (rs_pending s ++ [lr_descriptor (re_segID env) (Z.of_nat (length pre)) r])
       (rs_pendingBytes s + lr_framing r) (rs_lastValid s) (rs_lastCommittedSeq s)
       (rs_safeSeq s) (rs_commits s) (rs_applied s) (rs_records s + 1)
       (rs_replayBytes s) (rs_ticks s) (rs_acc s),
     Next (Z.of_nat (length pre) + lr_framing r) false false).
Proof.
  intros W Hsz Hr. pose proof (length_lr_bytes r) as Hlen.
  assert (67 <= lr_framing r) by (unfold lr_framing; lia).
  pose proof (record_leading pre r rest (length (lr_bytes r ++ rest)) W) as Hl.
  rewrite firstn_all in Hl. rewrite Hl by (rewrite ?length_app; lia || done).
  unfold parseRecord. rewrite parseRecord_checks_complete by done.
  by rewrite (proj2 (Z.eqb_neq _ _) Hr).
Qed.

Definition stops (f : list Z) (off : Z) (s : recoveryState A) : Prop :=
  exists e, parseEntry apply env f off s = (s, Fail e) /\ tail_err e.

Lemma stops_short pre tail s :
  (length tail < 4)%nat -> stops (pre ++ tail) (Z.of_nat (length pre)) s.
Proof.
  intros Ht. eexists. split; [|apply tail_err_EOF]. unfold parseEntry.
  by rewrite readFullAt_eof by (rewrite ?file_size_app; unfold file_size; lia).
Qed.

Lemma stops_record_torn pre r k s :
  lr_wf r -> (k < length (lr_bytes r))%nat ->
  re_size env = file_size (pre ++ take k (lr_bytes r)) ->
  stops (pre ++ take k (lr_bytes r)) (Z.of_nat (length pre)) s.
Proof.
  intros W Hk Hsz. destruct (Nat.lt_ge_cases k 4) as [|H4].
  { apply stops_short. rewrite length_take. lia. }
  destruct (parseRecord_checks_torn pre r k W Hk Hsz) as (e & He & Ht).
  exists e. split; [|done].
  pose proof (record_leading pre r [] k W H4) as Hl. rewrite app_nil_r in Hl.
  rewrite Hl by done. unfold parseRecord. by rewrite He.
Qed.

Lemma stops_commit_torn pre b k s :
  BatchCommit_wf b -> (k < BatchCommitSize)%nat ->
  stops (pre ++ take k (batch_commit_bytes b)) (Z.of_nat (length pre)) s.
Proof.
  intros W Hk. pose proof (length_batch_commit_bytes b) as Hlen.
  destruct (Nat.lt_ge_cases k 4) as [|H4].
  { apply stops_short. rewrite length_take. lia. }
  exists ErrUnexpectedEOF. split; [|apply tail_err_EOF]. unfold parseEntry.
  rewrite readFullAt_app by (rewrite length_take; lia).
  rewrite get_be_take, get_be_take by lia. cbv zeta.
  assert (get_be 0 4 (batch_commit_bytes b) = BatchCommitMagic) as ->
    by (rewrite <- (app_nil_r (batch_commit_bytes b)); by apply commit_magic).
  rewrite Z.eqb_refl.
  unfold parseCommit, parseCommit_checks.
  rewrite readFullAt_eof; [done|lia|done|].
  rewrite file_size_app. unfold file_size. rewrite length_take. lia.
Qed.

(** *** Markers *)

Definition safe_seq_ok (seq : Z) : Prop := 0 <= seq < 2 ^ 62.

Lemma marker_wf seq : safe_seq_ok seq -> CommitRecord_wf (index_safe_record seq).
Proof. intros [H0 H1]. apply index_safe_record_wf. unfold uintw. lia. Qed.

Lemma marker_high seq : safe_seq_ok seq -> 0 <= seq / 2 ^ 32 < 2 ^ 30.
Proof.
  intros [H0 H1]. split; [apply Z.div_pos; lia|]. apply Z.div_lt_upper_bound; lia.
Qed.

Lemma marker_leading seq k :
  safe_seq_ok seq -> (4 <= k)%nat ->
  get_be 0 4 (take 4 (take k (commit_record_bytes (index_safe_record seq)))) = seq / 2 ^ 32.
Proof.
  intros W Hk. rewrite !get_be_take by lia. rewrite <- (app_nil_r (commit_record_bytes _)).
  apply marker_magic, marker_wf, W.
Qed.

Lemma addReplayBytes_ok (s : recoveryState A) n :
  0 <= n -> rs_replayBytes s + n <= ro_MaxReplayBytes (re_opts env) ->
  addReplayBytes env s n =
  Ok (mkRecoveryState (rs_pending s) (rs_pendingBytes s) (rs_lastValid s)
        (rs_lastCommittedSeq s) (rs_safeSeq s) (rs_commits s) (rs_applied s)
        (rs_records s) (rs_replayBytes s + n) (rs_ticks s) (rs_acc s)).
Proof. intros H0 H1. unfold addReplayBytes. rewrite refuse_pass; [done|]. lia. Qed.

Lemma stops_safe_torn pre seq k s :
  safe_seq_ok seq -> (k < CommitRecordSize)%nat ->
  re_size env = file_size (pre ++ take k (commit_record_bytes (index_safe_record seq))) ->
  stops (pre ++ take k (commit_record_bytes (index_safe_record seq))) (Z.of_nat (length pre)) s.
Proof.
  intros W Hk Hsz. pose proof (length_commit_record_bytes (index_safe_record seq)) as Hlen.
  destruct (Nat.lt_ge_cases k 4) as [|H4].
  { apply stops_short. rewrite length_take. lia. }
  pose proof (marker_high seq W) as Hh. pose proof (marker_leading seq k W H4) as Hm.
  rewrite file_size_app in Hsz. unfold file_size in Hsz. rewrite length_take in Hsz.
  unfold stops, parseEntry. rewrite readFullAt_app by (rewrite length_take; lia).
  rewrite Hm. cbv zeta. unfold BatchCommitMagic.
  rewrite (proj2 (Z.eqb_neq (seq / 2 ^ 32) _)) by lia.
  rewrite (proj2 (Z.leb_gt _ (re_size env))) by lia. rewrite andb_false_r.
  unfold parseRecord, parseRecord_checks.
  destruct (Nat.lt_ge_cases k 5).
  { exists ErrUnexpectedEOF. split; [|apply tail_err_EOF].
    by rewrite (readFullAt_eof _ _ 5) by (rewrite ?file_size_app; unfold file_size;
      rewrite ?length_take; lia). }
  exists (Errorf "storage: bad record magic"). split; [|apply tail_err_Errorf].
  rewrite (readFullAt_app pre _ 5) by (rewrite length_take; lia). rewrite bind_Ok.
  rewrite <- (get_be_take 0 4 4) by lia. rewrite (take_take _ 4 5), Nat.min_l, Hm by lia.
  by rewrite (proj2 (Z.eqb_neq (seq / 2 ^ 32) RecordMagic)) by (unfold RecordMagic; lia).
Qed.

Lemma parseEntry_safe pre seq rest (s : recoveryState A) :
  safe_seq_ok seq ->
  re_size env = file_size (pre ++ commit_record_bytes (index_safe_record seq) ++ rest) ->
  rs_pending s = [] -> rs_replayBytes s + 73 <= ro_MaxReplayBytes (re_opts env) ->
  parseEntry apply env (pre ++ commit_record_bytes (index_safe_record seq) ++ rest)
    (Z.of_nat (length pre)) s
  = (mkRecoveryState [] (rs_pendingBytes s) (rs_lastValid s) (rs_lastCommittedSeq s)
       (if rs_safeSeq s <? seq then seq else rs_safeSeq s)
       (rs_commits s) (rs_applied s) (rs_records s) (rs_replayBytes s + 73)
       (rs_ticks s) (rs_acc s),
     Next (Z.of_nat (length pre) + 73) false true).
Proof.
  intros W Hsz Hp Hb. set (m := commit_record_bytes (index_safe_record seq)) in *.
  pose proof (length_commit_record_bytes (index_safe_record seq)) as Hlen. fold m in Hlen.
  change CommitRecordSize with 73%nat in Hlen.
  pose proof (marker_high seq W) as Hh.
  unfold parseEntry. rewrite readFullAt_app by (rewrite length_app; lia).
  assert (get_be 0 4 (take 4 (m ++ rest)) = seq / 2 ^ 32) as ->.
  { rewrite get_be_take by lia. apply marker_magic, marker_wf, W. }
  cbv zeta. unfold BatchCommitMagic. rewrite (proj2 (Z.eqb_neq (seq / 2 ^ 32) _)) by lia.
  rewrite (proj2 (Z.eqb_neq (seq / 2 ^ 32) RecordMagic)) by (unfold RecordMagic; lia).
  rewrite !file_size_app in Hsz. unfold file_size in Hsz.
  change (Z.of_nat CommitRecordSize) with 73.
  rewrite (proj2 (Z.leb_le _ (re_size env))) by lia. simpl andb.
  unfold index_safe_at. rewrite readFullAt_window by done.
  rewrite <- (app_nil_r m). subst m. rewrite CommitRecord_Decode_bytes by (done || by apply marker_wf).
  cbv iota beta. change (cr_Op (index_safe_record seq)) with OpIndexSafe.
  rewrite Z.eqb_refl, Hp. cbv iota beta. change (cr_Seq (index_safe_record seq)) with seq.
  rewrite addReplayBytes_ok; [|lia|destruct (rs_safeSeq s <? seq); exact Hb].
  destruct (rs_safeSeq s <? seq); cbn; by rewrite Hp.
Qed.

(** *** Commits *)

(** Replaying descriptors through the callback; a nil callback skips. *)
Fixpoint replay (app : A -> CommitDescriptor -> go A) (acc : A) (ds : list CommitDescriptor) :
    go A :=
  match ds with
  | [] => Ok acc
  | d :: ds => let! acc := app acc d in replay app acc ds
  end.

Definition replay_opt (acc : A) (ds : list CommitDescriptor) : go A :=
  match apply with None => Ok acc | Some app => replay app acc ds end.

Definition applied_opt (ds : list CommitDescriptor) : Z :=
  match apply with None => 0 | Some _ => Z.of_nat (length ds) end.

Hypothesis clock_ok : forall n, ro_clock (re_opts env) n <= re_deadline env.

Lemma deadline_ok (s : recoveryState A) : exists t,
  deadlineExceeded env s = (false, mkRecoveryState (rs_pending s) (rs_pendingBytes s)
     (rs_lastValid s) (rs_lastCommittedSeq s) (rs_safeSeq s) (rs_commits s) (rs_applied s)
     (rs_records s) (rs_replayBytes s) t (rs_acc s)).
Proof.
  exists (S (rs_ticks s)). unfold deadlineExceeded. f_equal. apply Z.ltb_ge, clock_ok.
Qed.

Lemma poll_deadline_ok n (s : recoveryState A) : exists t,
  poll_deadline env n s = (false, mkRecoveryState (rs_pending s) (rs_pendingBytes s)
     (rs_lastValid s) (rs_lastCommittedSeq s) (rs_safeSeq s) (rs_commits s) (rs_applied s)
     (rs_records s) (rs_replayBytes s) t (rs_acc s)).
Proof.
  revert s. induction n as [|n IH]; intros s; cbn [poll_deadline].
  { exists (rs_ticks s). by destruct s. }
  destruct (deadline_ok s) as [t ->]. destruct (IH (mkRecoveryState (rs_pending s)
    (rs_pendingBytes s) (rs_lastValid s) (rs_lastCommittedSeq s) (rs_safeSeq s)
    (rs_commits s) (rs_applied s) (rs_records s) (rs_replayBytes s) t (rs_acc s))) as [t' ->].
  by exists t'.
Qed.

Lemma apply_pending_ok app ce seq ds (s : recoveryState A) acc :
  replay app (rs_acc s) ds = Ok acc -> exists t,
  apply_pending env app ce seq ds s =
    (mkRecoveryState (rs_pending s) (rs_pendingBytes s) (rs_lastValid s)
       (rs_lastCommittedSeq s) (rs_safeSeq s) (rs_commits s)
       (rs_applied s + Z.of_nat (length ds)) (rs_records s) (rs_replayBytes s) t acc, None).
Proof.
  revert s. induction ds as [|d ds IH]; intros s H; cbn [apply_pending replay] in *.
  { apply Ok_inj in H. exists (rs_ticks s). cbn [length Z.of_nat]. rewrite Z.add_0_r.
    subst acc. by destruct s. }
  destruct (deadline_ok s) as [t ->]. cbn [rs_acc] in *.
  apply bind_Ok_inv in H as (acc' & -> & H).
  edestruct IH as [t' ->]; [exact H|]. exists t'. cbn. do 2 f_equal. lia.
Qed.

Lemma commit_wf stream segID off last recs seq :
  entry_ok stream off last (LBatch recs seq) -> BatchCommit_wf (batch_commit stream segID off recs seq).
Proof.
  intros (H0 & H1 & Hs & _ & _ & Hq & Hl & Hn). cbn [entry_size] in H1.
  assert (0 <= batch_framing recs) by (rewrite <- length_batch_bytes; lia).
  constructor; cbn; unfold uintw, is_i64 in *; try lia; try done.
  apply CRC32C_bound, descriptors_bytes_wf.
Qed.

Lemma batch_descriptors_cons segID off r recs :
  exists d ds, batch_descriptors segID off (r :: recs) = d :: ds /\ bd_Offset d = off.
Proof. eexists _, _. by split. Qed.

Lemma length_batch_descriptors segID off recs :
  length (batch_descriptors segID off recs) = length recs.
Proof. revert off. induction recs as [|r recs IH]; intros off; simpl; [done|]. by rewrite IH. Qed.

Lemma parseCommit_checks_ok pre rest stream last off recs seq (s : recoveryState A) :
  entry_ok stream off last (LBatch recs seq) ->
  Z.of_nat (length pre) = off + batch_framing recs ->
  stream = ro_StreamID (re_opts env) -> rs_lastCommittedSeq s = last ->
  rs_pending s = batch_descriptors (re_segID env) off recs ->
  parseCommit_checks env
    (pre ++ batch_commit_bytes (batch_commit stream (re_segID env) off recs seq) ++ rest)
    (Z.of_nat (length pre)) s = Ok (batch_commit stream (re_segID env) off recs seq).
Proof.
  intros Hok Hpre Hst Hlast Hp.
  pose proof (commit_wf stream (re_segID env) off last recs seq Hok) as W.
  destruct Hok as (_ & _ & _ & Hne & _ & [Hq _] & _ & Hn).
  unfold parseCommit_checks. set (c := batch_commit _ _ _ _ _) in *.
  rewrite readFullAt_window, bind_Ok by done.
  rewrite <- (app_nil_r (batch_commit_bytes c)), BatchCommit_Decode_bytes, bind_Ok by done.
  rewrite !refuse_pass by done. rewrite Hp, length_batch_descriptors, Hlast.
  rewrite wrap_small by (unfold uintw; lia).
  rewrite refuse_pass by (subst c stream; cbn; rewrite !Z.eqb_refl; simpl;
    rewrite orb_false_r; by apply Z.leb_gt).
  destruct recs as [|r recs]; [done|].
  destruct (batch_descriptors_cons (re_segID env) off r recs) as (d & ds & -> & Hd).
  rewrite Hd, Hpre, refuse_pass; [done|]. subst c. cbn [batch_commit bc_FirstOffset bc_LastOffset].
  by rewrite !Z.eqb_refl.
Qed.

Lemma parseEntry_commit pre rest stream last off recs seq (s : recoveryState A) acc :
  let ds := batch_descriptors (re_segID env) off recs in
  let replayed := ro_SafeSeq (re_opts env) <? seq in
  entry_ok stream off last (LBatch recs seq) ->
  Z.of_nat (length pre) = off + batch_framing recs ->
  stream = ro_StreamID (re_opts env) -> rs_lastCommittedSeq s = last -> rs_pending s = ds ->
  rs_pendingBytes s = batch_framing recs ->
  (if replayed
   then rs_replayBytes s + (batch_framing recs + 42) <= ro_MaxReplayBytes (re_opts env)
        /\ replay_opt (rs_acc s) ds = Ok acc
   else acc = rs_acc s) ->
  exists t, parseEntry apply env
    (pre ++ batch_commit_bytes (batch_commit stream (re_segID env) off recs seq) ++ rest)
    (Z.of_nat (length pre)) s =
  (mkRecoveryState [] 0 (rs_lastValid s) seq (rs_safeSeq s) (rs_commits s + 1)
     (rs_applied s + if replayed then applied_opt ds else 0) (rs_records s)
     (rs_replayBytes s + if replayed then batch_framing recs + 42 else 0) t acc,
   Next (Z.of_nat (length pre) + 42) true false).
Proof.
  intros ds replayed Hok Hpre Hst Hlast Hp Hpb Hr.
  pose proof (parseCommit_checks_ok pre rest stream last off recs seq s Hok Hpre Hst Hlast Hp) as Hc.
  pose proof (commit_wf stream (re_segID env) off last recs seq Hok) as W.
  set (c := batch_commit _ _ _ _ _) in *.
  pose proof (length_batch_commit_bytes c) as Hlen. change BatchCommitSize with 42%nat in Hlen.
  unfold parseEntry. rewrite readFullAt_app by (rewrite length_app; lia).
  rewrite get_be_take, commit_magic by (done || lia). cbv zeta. rewrite Z.eqb_refl.
  unfold parseCommit. rewrite Hc.
  destruct (poll_deadline_ok (length (rs_pending s)) s) as [t ->]. cbv iota beta zeta.
  cbn [rs_pending rs_pendingBytes]. rewrite Hp, pendingDescriptorsCRC_spec.
  change (bc_DescriptorsCRC c) with (CRC32C (descriptors_bytes ds)).
  rewrite Z.eqb_refl. cbn [negb]. change (bc_Seq c) with seq.
  change (Z.of_nat BatchCommitSize) with 42. fold replayed.
  assert (0 <= batch_framing recs) by (rewrite <- length_batch_bytes; lia).
  destruct replayed; cbv iota.
  - destruct Hr as [Hb Hr]. rewrite Hpb, addReplayBytes_ok by (cbn; lia).
    cbn [rs_pending rs_acc]. unfold replay_opt, applied_opt in *. destruct apply as [app|].
    + edestruct (apply_pending_ok app) as [t' ->]; [cbn; exact Hr|]. exists t'. done.
    + exists t. apply Ok_inj in Hr. subst acc. by rewrite Z.add_0_r.
  - exists t. subst acc. by rewrite !Z.add_0_r.
Qed.
End Parse.

(** * Recovery replays exactly the committed log

    The scan loop of [RecoverFromSegmentLog] against an abstract reading of
    the log: [entry_effect] says what one complete entry does to the view a
    reader has of the log ([log_view]), and the scan of a file that holds a
    log followed by any torn entry ends with that view and the torn entry cut
    off. Termination of the scan is proved separately, for every file. *)

(** ** Termination *)

Section Termination.
Context {A : Type} (apply : option (A -> CommitDescriptor -> go A)) (env : recoveryEnv).

Lemma parseRecord_progress f off (s s' : recoveryState A) next c i :
  parseRecord env f off s = (s', Next next c i) -> off < next.
Proof.
  unfold parseRecord. destruct (parseRecord_checks env f off) as [[h fr]|e] eqn:E; [|done].
  destruct (rs_records s =? re_recordLimit env); [done|]. intros H.
  apply (f_equal snd) in H. cbn [snd] in H. injection H as <- _ _.
  unfold parseRecord_checks in E. ok_inv.
  destruct (get_byte 4 r =? 2); ok_inv. cbv zeta in E. ok_inv.
  apply (f_equal snd) in E. cbn [snd] in E. subst fr.
  apply orb_false_iff in G3 as [G3 _]. apply Z.ltb_ge in G3.
  change (Z.of_nat RecordHeaderSize) with 55 in *. lia.
Qed.

Lemma apply_pending_no_next app ce seq ds (s s' : recoveryState A) next c i :
  apply_pending env app ce seq ds s <> (s', Some (Next next c i)).
Proof.
  revert s. induction ds as [|d ds IH]; intros s; cbn [apply_pending]; [congruence|].
  destruct (deadlineExceeded env s) as [[] s1]; [congruence|].
  destruct (app (rs_acc s1) d); [apply IH|congruence].
Qed.

Lemma parseCommit_progress f off (s s' : recoveryState A) next c i :
  parseCommit apply env f off s = (s', Next next c i) -> off < next.
Proof.
  unfold parseCommit. destruct (parseCommit_checks env f off s) as [b|e]; [|congruence].
  destruct (poll_deadline env (length (rs_pending s)) s) as [[] s1]; [congruence|].
  destruct (negb _); [congruence|]. change (Z.of_nat BatchCommitSize) with 42.
  destruct (_ <? _).
  - destruct (addReplayBytes env s1 _) as [s2|e]; [|congruence].
    destruct apply as [app|].
    + destruct (apply_pending env app _ _ _ _) as [s3 [o|]] eqn:E.
      * intros [= -> ->]. by apply apply_pending_no_next in E.
      * intros [= _ <- _ _]. lia.
    + intros [= _ <- _ _]. lia.
  - intros [= _ <- _ _]. lia.
Qed.

(** Every accepted entry moves the scan forward. *)
Lemma parseEntry_progress f off (s s' : recoveryState A) next c i :
  parseEntry apply env f off s = (s', Next next c i) -> off < next.
Proof.
  unfold parseEntry. destruct (readFullAt f off 4) as [m|e]; [|congruence]. cbv zeta.
  destruct (get_be 0 4 m =? BatchCommitMagic); [apply parseCommit_progress|].
  destruct (negb (get_be 0 4 m =? RecordMagic) && _); [|apply parseRecord_progress].
  destruct (index_safe_at f off) as [rcd|]; [|apply parseRecord_progress].
  destruct (rs_pending s); [|congruence].
  destruct (addReplayBytes env _ _); [|congruence].
  intros [= _ <- _ _]. change (Z.of_nat CommitRecordSize) with 73. lia.
Qed.

Lemma scan_fuel fuel f off (s : recoveryState A) :
  Z.of_nat fuel > re_size env - off -> (0 < fuel)%nat ->
  exists r, scan apply fuel env f off s = Some r.
Proof.
  revert off s. induction fuel as [|fuel IH]; intros off s Hf Hp; [lia|].
  cbn [scan]. destruct (Z.ltb_spec off (re_size env)); cbn [negb]; [|by eauto].
  destruct (deadlineExceeded env s) as [[] s1]; [by eauto|].
  destruct (parseEntry apply env f off s1) as [s2 [next c i|e|e ce sq]] eqn:E.
  - apply parseEntry_progress in E. apply IH; lia.
  - destruct (errors_Is e ErrRecoveryBudgetExceeded); [by eauto|].
    destruct (errors_Is e ErrUnsupportedRecoveryFormat); by eauto.
  - destruct (errors_Is e ErrRecoveryBudgetExceeded); by eauto.
Qed.

Lemma scan_mono fuel k f off (s : recoveryState A) r :
  scan apply fuel env f off s = Some r -> scan apply (fuel + k) env f off s = Some r.
Proof.
  revert off s. induction fuel as [|fuel IH]; intros off s H; [done|].
  cbn [scan Nat.add] in *. destruct (negb (off <? re_size env)); [done|].
  destruct (deadlineExceeded env s) as [[] s1]; [done|].
  destruct (parseEntry apply env f off s1) as [s2 [next c i|e|e ce sq]]; auto.
Qed.

Lemma scan_agree n m f off (s : recoveryState A) r r' :
  scan apply n env f off s = Some r -> scan apply m env f off s = Some r' -> r = r'.
Proof.
  intros H1 H2. apply (scan_mono _ m) in H1. apply (scan_mono _ n) in H2.
  rewrite Nat.add_comm in H2. congruence.
Qed.
End Termination.

(** ** What an entry means *)

Record log_view (A : Type) := mkLogView {
  v_seq : Z; v_safe : Z; v_commits : Z; v_applied : Z; v_records : Z; v_bytes : Z; v_acc : A
}.
Arguments mkLogView {A}. Arguments v_seq {A}. Arguments v_safe {A}. Arguments v_commits {A}.
Arguments v_applied {A}. Arguments v_records {A}. Arguments v_bytes {A}. Arguments v_acc {A}.

Section Effect.
Context {A : Type} (apply : option (A -> CommitDescriptor -> go A)) (segID safeSeq : Z).

(** A batch newer than the checkpoint sequence is replayed through the
    callback, an older one only advances the sequence; a marker can only
    raise the safe sequence. *)
Definition entry_effect (off : Z) (v : log_view A) (e : log_entry) : go (log_view A) :=
  match e with
  | LBatch recs seq =>
      let ds := batch_descriptors segID off recs in
      let n := Z.of_nat (length recs) in
      if safeSeq <? seq then
        let! acc := replay_opt apply (v_acc v) ds in
        Ok (mkLogView seq (v_safe v) (v_commits v + 1) (v_applied v + applied_opt apply ds)
              (v_records v + n) (v_bytes v + entry_size e) acc)
      else Ok (mkLogView seq (v_safe v) (v_commits v + 1) (v_applied v) (v_records v + n)
                 (v_bytes v) (v_acc v))
  | LSafe seq =>
      Ok (mkLogView (v_seq v) (if v_safe v <? seq then seq else v_safe v) (v_commits v)
            (v_applied v) (v_records v) (v_bytes v + 73) (v_acc v))
  end.

Fixpoint log_effect (off : Z) (v : log_view A) (es : list log_entry) : go (log_view A) :=
  match es with
  | [] => Ok v
  | e :: es => let! v := entry_effect off v e in log_effect (off + entry_size e) v es
  end.

Lemma entry_size_nonneg e : 0 <= entry_size e.
Proof. rewrite <- (length_entry_bytes 0 0 0). lia. Qed.

Lemma batch_framing_nonneg recs : 0 <= batch_framing recs.
Proof. rewrite <- length_batch_bytes. lia. Qed.

Lemma entry_effect_grows off v e v' :
  entry_effect off v e = Ok v' ->
  v_records v <= v_records v' /\ v_bytes v <= v_bytes v' /\ v_seq v' = entry_seq (v_seq v) e.
Proof.
  destruct e as [recs seq|seq]; cbn [entry_effect].
  - destruct (safeSeq <? seq); intros H; ok_inv; subst v'; cbn [v_records v_bytes v_seq entry_seq];
      pose proof (entry_size_nonneg (LBatch recs seq)); lia.
  - intros H. ok_inv. subst v'. cbn. lia.
Qed.

Lemma log_effect_grows off v es v' :
  log_effect off v es = Ok v' -> v_records v <= v_records v' /\ v_bytes v <= v_bytes v'.
Proof.
  revert off v. induction es as [|e es IH]; intros off v H; cbn [log_effect] in H; ok_inv.
  { subst. lia. }
  apply entry_effect_grows in E. apply IH in H. lia.
Qed.
End Effect.

(** ** Scanning entries *)

Ltac rs_fields :=
  cbn [rs_pending rs_pendingBytes rs_lastValid rs_lastCommittedSeq rs_safeSeq rs_commits
       rs_applied rs_records rs_replayBytes rs_acc orb
       v_seq v_safe v_commits v_applied v_records v_bytes v_acc] in *.

Section Scan.
Context {A : Type} (apply : option (A -> CommitDescriptor -> go A)) (env : recoveryEnv).
Context (clock_ok : forall n, ro_clock (re_opts env) n <= re_deadline env).
Let stream := ro_StreamID (re_opts env).
Let segID := re_segID env.
Let safeSeq := ro_SafeSeq (re_opts env).

Definition view_state (off : Z) (v : log_view A) (t : nat) : recoveryState A :=
  mkRecoveryState [] 0 off (v_seq v) (v_safe v) (v_commits v) (v_applied v) (v_records v)
    (v_bytes v) t (v_acc v).

(** One iteration of the loop on an entry that parses. *)
Lemma scan_step f off (s : recoveryState A) s' next c i :
  off < re_size env ->
  (forall t, exists t', parseEntry apply env f off
     (mkRecoveryState (rs_pending s) (rs_pendingBytes s) (rs_lastValid s)
        (rs_lastCommittedSeq s) (rs_safeSeq s) (rs_commits s) (rs_applied s) (rs_records s)
        (rs_replayBytes s) t (rs_acc s)) =
     (mkRecoveryState (rs_pending s') (rs_pendingBytes s') (rs_lastValid s')
        (rs_lastCommittedSeq s') (rs_safeSeq s') (rs_commits s') (rs_applied s') (rs_records s')
        (rs_replayBytes s') t' (rs_acc s'), Next next c i)) ->
  exists t', forall fuel, scan apply (S fuel) env f off s =
    scan apply fuel env f next
      (mkRecoveryState (rs_pending s') (rs_pendingBytes s')
         (if c || i then next else rs_lastValid s')
         (rs_lastCommittedSeq s') (rs_safeSeq s') (rs_commits s') (rs_applied s')
         (rs_records s') (rs_replayBytes s') t' (rs_acc s')).
Proof.
  intros Ho Hp. destruct (deadline_ok env clock_ok s) as [t Ht]. destruct (Hp t) as [t' Ht'].
  exists t'. intros fuel. cbn [scan]. rewrite (proj2 (Z.ltb_lt _ _) Ho), Ht, Ht'. cbn [negb].
  by destruct (c || i).
Qed.

Lemma scan_records recs pre rest (s : recoveryState A) :
  Forall lr_wf recs -> re_size env = file_size (pre ++ batch_bytes recs ++ rest) ->
  rs_records s + Z.of_nat (length recs) <= re_recordLimit env -> exists t', forall fuel,
  scan apply (length recs + fuel) env (pre ++ batch_bytes recs ++ rest)
    (Z.of_nat (length pre)) s =
  scan apply fuel env (pre ++ batch_bytes recs ++ rest)
    (Z.of_nat (length pre) + batch_framing recs)
    (mkRecoveryState (rs_pending s ++ batch_descriptors segID (Z.of_nat (length pre)) recs)
       (rs_pendingBytes s + batch_framing recs) (rs_lastValid s)
       (rs_lastCommittedSeq s) (rs_safeSeq s) (rs_commits s) (rs_applied s)
       (rs_records s + Z.of_nat (length recs)) (rs_replayBytes s) t' (rs_acc s)).
Proof.
  intros Hw. revert pre s. induction Hw as [|r recs Hr Hw IH]; intros pre s Hsz Hl.
  { exists (rs_ticks s). intros fuel. cbn. rewrite app_nil_r, !Z.add_0_r. by destruct s. }
  change (batch_bytes (r :: recs)) with (lr_bytes r ++ batch_bytes recs) in *.
  change (batch_framing (r :: recs)) with (lr_framing r + batch_framing recs).
  rewrite <- app_assoc in *. cbn [length Nat.add].
  pose proof (length_lr_bytes r) as Hlen. pose proof (batch_framing_nonneg recs).
  assert (67 <= lr_framing r) by (unfold lr_framing; lia).
  edestruct (scan_step (pre ++ lr_bytes r ++ batch_bytes recs ++ rest)
    (Z.of_nat (length pre)) s (mkRecoveryState
      (rs_pending s ++ [lr_descriptor segID (Z.of_nat (length pre)) r])
       (rs_pendingBytes s + lr_framing r) (rs_lastValid s) (rs_lastCommittedSeq s)
       (rs_safeSeq s) (rs_commits s) (rs_applied s) (rs_records s + 1)
       (rs_replayBytes s) (rs_ticks s) (rs_acc s))) as [t Ht].
  { rewrite Hsz, !file_size_app. unfold file_size. lia. }
  { intros t. eexists. rewrite parseEntry_record by (done || (rs_fields; cbn [length] in Hl; lia)).
    reflexivity. }
  rs_fields. rewrite app_assoc in Hsz.
  replace (Z.of_nat (length pre) + lr_framing r) with (Z.of_nat (length (pre ++ lr_bytes r)))
    in Ht by (rewrite length_app; lia).
  match goal with H : forall fuel, _ = scan apply fuel _ _ _ ?s1 |- _ =>
    destruct (IH (pre ++ lr_bytes r) s1) as [t' Ht'] end;
    [exact Hsz|rs_fields; cbn [length] in Hl; lia|].
  exists t'. intros fuel. rewrite Ht, app_assoc, Ht'. rs_fields. cbn [batch_descriptors].
   rewrite <- !app_assoc. rewrite length_app, Nat2Z.inj_add, Hlen, Nat2Z.inj_succ.
  f_equal; [lia|]. f_equal; first [lia|done].
Qed.

Lemma scan_batch recs seq pre rest v v' t :
  let off := Z.of_nat (length pre) in
  let e := LBatch recs seq in
  entry_ok stream off (v_seq v) e ->
  re_size env = file_size (pre ++ entry_bytes stream segID off e ++ rest) ->
  entry_effect apply segID safeSeq off v e = Ok v' ->
  v_records v' <= re_recordLimit env -> v_bytes v' <= ro_MaxReplayBytes (re_opts env) ->
  exists n t', forall fuel,
  scan apply (n + fuel) env (pre ++ entry_bytes stream segID off e ++ rest) off
    (view_state off v t) =
  scan apply fuel env (pre ++ entry_bytes stream segID off e ++ rest) (off + entry_size e)
    (view_state (off + entry_size e) v' t').
Proof.
  intros off e. subst e. intros Hok Hsz He Hr Hb.
  pose proof Hok as (_ & _ & _ & _ & Hw & _). cbn [entry_bytes] in *. rewrite <- app_assoc in *.
  pose proof (batch_framing_nonneg recs) as Hbf. pose proof (length_batch_bytes recs) as Hlb.
  set (ds := batch_descriptors segID off recs).
  assert (exists acc, v' = mkLogView seq (v_safe v) (v_commits v + 1)
      (v_applied v + if safeSeq <? seq then applied_opt apply ds else 0)
      (v_records v + Z.of_nat (length recs))
      (v_bytes v + if safeSeq <? seq then batch_framing recs + 42 else 0) acc
    /\ if safeSeq <? seq then replay_opt apply (v_acc v) ds = Ok acc else acc = v_acc v)
    as (acc & -> & Hacc).
  { cbn [entry_effect] in He. destruct (safeSeq <? seq); ok_inv.
    - exists r. by subst.
    - exists (v_acc v). rewrite !Z.add_0_r. by subst. }
  rs_fields.
  destruct (scan_records recs pre (batch_commit_bytes (batch_commit stream segID off recs seq)
    ++ rest) (view_state off v t) Hw Hsz Hr) as [t1 H1].
  rewrite app_assoc in Hsz.
  match type of H1 with forall _, _ = scan _ _ _ _ _ ?s => set (s1 := s) in H1 end.
  set (v' := mkLogView _ _ _ _ _ _ acc).
  destruct (scan_step ((pre ++ batch_bytes recs) ++ batch_commit_bytes
      (batch_commit stream segID off recs seq) ++ rest) (off + batch_framing recs)
      s1 (view_state off v' t) (off + batch_framing recs + 42) true false) as [t2 H2].
  - rewrite Hsz, !file_size_app. unfold file_size. rewrite length_batch_commit_bytes.
    change BatchCommitSize with 42%nat. lia.
  - intros t0. rewrite <- Hlb. subst off. rewrite <- Nat2Z.inj_add, <- length_app.
    edestruct (parseEntry_commit apply env clock_ok (pre ++ batch_bytes recs) rest stream
      (v_seq v) (Z.of_nat (length pre)) recs seq) as [t3 H3]; [..|exists t3; exact H3]; try done.
    + rewrite length_app. lia.
    + rs_fields. fold safeSeq segID ds. destruct (safeSeq <? seq); [split|]; first [done|lia].
  - exists (S (length recs)), t2. intros fuel.
    replace (S (length recs) + fuel)%nat with (length recs + S fuel)%nat by lia.
    rewrite H1, app_assoc, H2. cbn [entry_size]. rewrite Z.add_assoc. done.
Qed.

Lemma scan_entry e pre rest v v' t :
  let off := Z.of_nat (length pre) in
  entry_ok stream off (v_seq v) e ->
  re_size env = file_size (pre ++ entry_bytes stream segID off e ++ rest) ->
  entry_effect apply segID safeSeq off v e = Ok v' ->
  v_records v' <= re_recordLimit env -> v_bytes v' <= ro_MaxReplayBytes (re_opts env) ->
  exists n t', forall fuel,
  scan apply (n + fuel) env (pre ++ entry_bytes stream segID off e ++ rest) off
    (view_state off v t) =
  scan apply fuel env (pre ++ entry_bytes stream segID off e ++ rest) (off + entry_size e)
    (view_state (off + entry_size e) v' t').
Proof.
  destruct e as [recs seq|seq]; [apply scan_batch|].
  intros off (_ & _ & Hok) Hsz He Hr Hb. cbn [entry_effect] in He. apply Ok_inj in He. subst v'.
  cbn [entry_bytes entry_size] in *. rs_fields.
  match goal with |- context [view_state (off + 73) ?v' _] =>
    destruct (scan_step (pre ++ commit_record_bytes (index_safe_record seq) ++ rest) off
      (view_state off v t) (view_state off v' t) (off + 73) false true) as [t' H] end.
  - rewrite Hsz, !file_size_app. unfold file_size. rewrite length_commit_record_bytes.
    change CommitRecordSize with 73%nat. lia.
  - intros t0. exists t0. subst off. rewrite parseEntry_safe by done. done.
  - exists 1%nat, t'. intros fuel. apply (H fuel).
Qed.

Lemma scan_log es pre rest v v' t :
  let off := Z.of_nat (length pre) in
  log_ok stream off (v_seq v) es ->
  re_size env = file_size (pre ++ log_bytes stream segID off es ++ rest) ->
  log_effect apply segID safeSeq off v es = Ok v' ->
  v_records v' <= re_recordLimit env -> v_bytes v' <= ro_MaxReplayBytes (re_opts env) ->
  exists n t', forall fuel,
  let off' := off + file_size (log_bytes stream segID off es) in
  scan apply (n + fuel) env (pre ++ log_bytes stream segID off es ++ rest) off
    (view_state off v t) =
  scan apply fuel env (pre ++ log_bytes stream segID off es ++ rest) off'
    (view_state off' v' t').
Proof.
  revert pre v t. induction es as [|e es IH]; intros pre v t off Hok Hsz He Hr Hb.
  { cbn [log_effect log_bytes] in *. apply Ok_inj in He. subst v'.
    exists 0%nat, t. intros fuel. cbv zeta. change (file_size []) with 0. by rewrite Z.add_0_r. }
  cbn [log_effect log_bytes log_ok] in *. destruct Hok as [Hok1 Hok2].
  apply bind_Ok_inv in He as (v1 & He1 & He2).
  destruct (entry_effect_grows _ _ _ _ _ _ _ He1) as (_ & _ & Hs).
  destruct (log_effect_grows _ _ _ _ _ _ _ He2) as [Hr1 Hb1].
  rewrite <- app_assoc in *. rewrite <- Hs in Hok2.
  pose proof (length_entry_bytes stream segID off e) as Hlen.
  destruct (scan_entry e pre (log_bytes stream segID (off + entry_size e) es ++ rest) v v1 t
    Hok1 Hsz He1 ltac:(lia) ltac:(lia)) as (n1 & t1 & H1).
  assert (off + entry_size e = Z.of_nat (length (pre ++ entry_bytes stream segID off e))) as Ho
    by (rewrite length_app; lia).
  rewrite Ho in *. rewrite app_assoc in Hsz.
  destruct (IH (pre ++ entry_bytes stream segID off e) v1 t1 Hok2 Hsz He2 Hr Hb) as (n2 & t2 & H2).
  exists (n1 + n2)%nat, t2. intros fuel. cbv zeta in *.
  rewrite <- Nat.add_assoc, H1, (app_assoc pre (entry_bytes _ _ _ _)). fold off. rewrite Ho, H2.
  rewrite <- Ho, file_size_app.
  assert (file_size (entry_bytes stream segID off e) = entry_size e) as -> by exact Hlen.
  by rewrite Z.add_assoc, <- app_assoc.
Qed.

(** *** Torn tails *)

Definition same_committed (s s' : recoveryState A) : Prop :=
  rs_lastValid s = rs_lastValid s' /\ rs_lastCommittedSeq s = rs_lastCommittedSeq s' /\
  rs_safeSeq s = rs_safeSeq s' /\ rs_commits s = rs_commits s' /\
  rs_applied s = rs_applied s' /\ rs_replayBytes s = rs_replayBytes s' /\
  rs_acc s = rs_acc s'.

Lemma scan_stops f off s :
  (forall s, stops apply env f off s) ->
  exists s', same_committed s s' /\ scan apply 1 env f off s = Some (ScanDone s').
Proof.
  intros Hs. cbn [scan]. destruct (off <? re_size env); cbn [negb];
    [|by exists s; repeat split].
  destruct (deadline_ok env clock_ok s) as [t ->].
  match goal with |- context [parseEntry _ _ _ _ ?s1] => destruct (Hs s1) as (e & -> & H1 & H2);
    exists s1 end.
  rewrite H1, H2. done.
Qed.

Lemma scan_torn_batch recs b k pre s :
  Forall lr_wf recs -> BatchCommit_wf b ->
  (k < length (batch_bytes recs ++ batch_commit_bytes b))%nat ->
  re_size env = file_size (pre ++ take k (batch_bytes recs ++ batch_commit_bytes b)) ->
  rs_records s + Z.of_nat (length recs) <= re_recordLimit env ->
  exists n s', same_committed s s' /\
    scan apply n env (pre ++ take k (batch_bytes recs ++ batch_commit_bytes b))
      (Z.of_nat (length pre)) s = Some (ScanDone s').
Proof.
  intros Hw Wb. revert pre k s. induction Hw as [|r recs Hr Hw IH]; intros pre k s Hk Hsz Hl.
  { cbn [batch_bytes map concat app] in *. exists 1%nat. apply scan_stops.
    intros s'. by apply stops_commit_torn. }
  change (batch_bytes (r :: recs)) with (lr_bytes r ++ batch_bytes recs) in *.
  rewrite <- app_assoc in *.
  destruct (Nat.lt_ge_cases k (length (lr_bytes r))) as [Hlt|Hge].
  { exists 1%nat. apply scan_stops. intros s'. rewrite take_app_le in * by lia.
    by apply stops_record_torn. }
  rewrite take_app_ge in * by lia. set (k' := (k - length (lr_bytes r))%nat) in *.
  set (rest := take k' (batch_bytes recs ++ batch_commit_bytes b)) in *.
  pose proof (length_lr_bytes r) as Hlen. rewrite length_app in Hk.
  destruct (scan_records [r] pre rest s) as [t Ht]; [by constructor| |cbn in *; lia|].
  { unfold batch_bytes. cbn [map concat]. by rewrite app_nil_r. }
  unfold batch_bytes in Ht at 1 2. cbn [map concat] in Ht. rewrite app_nil_r in Ht.
  replace (Z.of_nat (length pre) + batch_framing [r]) with
    (Z.of_nat (length (pre ++ lr_bytes r))) in Ht
    by (rewrite length_app; unfold batch_framing; cbn [map foldr]; lia).
  rewrite app_assoc in Hsz.
  match type of Ht with forall _, _ = scan _ _ _ _ _ ?s1 =>
    destruct (IH (pre ++ lr_bytes r) k' s1) as (n & s' & Hs & H) end; try done.
  { lia. }
  { rs_fields. cbn [length] in *. lia. }
  exists (1 + n)%nat, s'. split; [exact Hs|]. rewrite Ht, app_assoc. exact H.
Qed.
End Scan.

(** ** The whole of recovery *)

Definition entry_records (e : log_entry) : Z :=
  match e with LBatch recs _ => Z.of_nat (length recs) | LSafe _ => 0 end.

(** A write of [e] that was cut short: any proper prefix of its bytes. *)
Definition torn (stream segID off last : Z) (e : log_entry) (tail : list Z) : Prop :=
  entry_ok stream off last e /\
  exists k, (k < length (entry_bytes stream segID off e))%nat
            /\ tail = take k (entry_bytes stream segID off e).

Section Whole.
Context {A : Type} (apply : option (A -> CommitDescriptor -> go A)).

Lemma scan_torn env (clock_ok : forall n, ro_clock (re_opts env) n <= re_deadline env)
    e pre tail (s : recoveryState A) :
  torn (ro_StreamID (re_opts env)) (re_segID env) (Z.of_nat (length pre))
    (rs_lastCommittedSeq s) e tail ->
  re_size env = file_size (pre ++ tail) ->
  rs_records s + entry_records e <= re_recordLimit env ->
  exists n s', same_committed s s' /\
    scan apply n env (pre ++ tail) (Z.of_nat (length pre)) s = Some (ScanDone s').
Proof.
  intros (Hok & k & Hk & ->) Hsz Hr. destruct e as [recs seq|seq]; cbn [entry_bytes] in *.
  - apply scan_torn_batch; try done; [apply Hok|]. by eapply commit_wf.
  - exists 1%nat. apply scan_stops; [done|]. intros s'. apply stops_safe_torn; try done.
    apply Hok.
Qed.

Lemma recover_finish_ok env pre tail start (s : recoveryState A) :
  (forall n, ro_clock (re_opts env) n <= re_deadline env) ->
  re_size env = file_size (pre ++ tail) -> rs_lastValid s = file_size pre ->
  start <= file_size pre -> file_size tail <= ro_MaxTrailingBytes (re_opts env) ->
  exists d, recover_finish env (pre ++ tail) start s =
    mkRecoverOut pre (rs_acc s)
      (Some (mkRecoverResult (rs_commits s) (rs_applied s) (rs_lastCommittedSeq s)
               (re_safeOffset env) (file_size pre) (file_size tail) (rs_safeSeq s)
               (rs_replayBytes s) d true)) None.
Proof.
  intros Hc Hsz Hlv Hst Ht. rewrite file_size_app in Hsz.
  unfold recover_finish. rewrite Hlv, Hsz.
  replace (file_size pre + file_size tail - file_size pre) with (file_size tail) by lia.
  rewrite (proj2 (Z.ltb_ge (ro_MaxTrailingBytes (re_opts env)) _)), andb_false_r by lia.
  rewrite (proj2 (Z.ltb_ge (file_size pre) start)), andb_false_r by lia.
  destruct (deadline_ok env Hc s) as [t ->].
  assert ((if 0 <? file_size tail then truncate (pre ++ tail) (file_size pre) else pre ++ tail)
          = pre) as ->.
  { destruct (Z.ltb_spec 0 (file_size tail)) as [|H0]; [apply truncate_app|].
    destruct tail; [apply app_nil_r|]. unfold file_size in H0. cbn [length] in H0. lia. }
  eexists. unfold state_result. rs_fields. rewrite Hlv, Hsz.
  by replace (file_size pre + file_size tail - file_size pre) with (file_size tail) by lia.
Qed.

Lemma recover_scan_ok env pre log tail e es v v' t :
  let start := Z.of_nat (length pre) in
  (forall n, ro_clock (re_opts env) n <= re_deadline env) ->
  log = log_bytes (ro_StreamID (re_opts env)) (re_segID env) start es ->
  re_size env = file_size (pre ++ log ++ tail) ->
  log_ok (ro_StreamID (re_opts env)) start (v_seq v) es ->
  log_effect apply (re_segID env) (ro_SafeSeq (re_opts env)) start v es = Ok v' ->
  torn (ro_StreamID (re_opts env)) (re_segID env) (start + file_size log) (v_seq v') e tail ->
  v_records v' + entry_records e <= re_recordLimit env ->
  v_bytes v' <= ro_MaxReplayBytes (re_opts env) ->
  file_size tail <= ro_MaxTrailingBytes (re_opts env) ->
  exists d, recover_scan apply env (pre ++ log ++ tail) start (view_state start v t) =
    mkRecoverOut (pre ++ log) (v_acc v')
      (Some (mkRecoverResult (v_commits v') (v_applied v') (v_seq v') (re_safeOffset env)
               (start + file_size log) (file_size tail) (v_safe v') (v_bytes v') d true)) None.
Proof.
  intros start Hclock -> Hsz Hok Heff Htorn Hrec Hbytes Htail.
  set (log := log_bytes _ _ _ _) in *.
  assert (0 <= entry_records e) by (destruct e; cbn; lia).
  destruct (scan_log apply env Hclock es pre tail v v' t Hok Hsz Heff ltac:(lia) Hbytes)
    as (n1 & t1 & H1). fold start log in H1.
  set (off' := start + file_size log) in *.
  assert (off' = Z.of_nat (length (pre ++ log))) as Ho
    by (unfold off', file_size; rewrite length_app; lia).
  rewrite Ho in Htorn.
  destruct (scan_torn env Hclock e (pre ++ log) tail (view_state off' v' t1))
    as (n2 & s' & Hs & H2); [exact Htorn|by rewrite <- app_assoc|exact Hrec|].
  assert (exists r, scan apply (S (Z.to_nat (re_size env))) env (pre ++ log ++ tail) start
    (view_state start v t) = Some r) as [r Hr] by (apply scan_fuel; lia).
  unfold recover_scan. rewrite Hr.
  assert (r = ScanDone s') as ->.
  { eapply scan_agree; [exact Hr|]. rewrite H1, app_assoc. rewrite <- Ho in H2. exact H2. }
  destruct Hs as (L1 & L2 & L3 & L4 & L5 & L6 & L7). unfold view_state in *. rs_fields.
  rewrite L2, L3, L4, L5, L6, L7, app_assoc.
  replace off' with (file_size (pre ++ log)) by (by rewrite Ho).
  apply recover_finish_ok; try done; [by rewrite <- app_assoc|by rewrite <- L1|].
  unfold file_size. rewrite length_app. lia.
Qed.

Lemma recover_from_boundary segID opts pre es e tail acc seq0 v' :
  let stream := ro_StreamID opts in
  let start := Z.of_nat (length pre) in
  let log := log_bytes stream segID start es in
  let f := pre ++ log ++ tail in
  Z.of_nat SegmentHeaderSize <= start -> 0 <= ro_SafeOffset opts ->
  Z.max (Z.of_nat SegmentHeaderSize) (ro_SafeOffset opts) = start ->
  is_ok (SegmentHeader_Decode (take SegmentHeaderSize pre)) = true ->
  checkpoint_seq f opts start = Ok seq0 ->
  log_ok stream start seq0 es ->
  log_effect apply segID (ro_SafeSeq opts) start
    (mkLogView seq0 (ro_SafeSeq opts) 0 0 0 0 acc) es = Ok v' ->
  torn stream segID (start + file_size log) (v_seq v') e tail ->
  v_records v' + entry_records e <= recoveryRecordLimit opts ->
  v_bytes v' <= (recoveryByteLimits opts).1 -> file_size tail <= (recoveryByteLimits opts).2 ->
  (forall n, ro_clock opts n <= recovery_deadline opts) ->
  exists d, RecoverFromSegmentLog apply segID f opts acc =
    mkRecoverOut (pre ++ log) (v_acc v')
      (Some (mkRecoverResult (v_commits v') (v_applied v') (v_seq v') start
               (start + file_size log) (file_size tail) (v_safe v') (v_bytes v') d true)) None.
Proof.
  intros stream start log f Hh Hs0 Hst Hdec Hck Hok Heff Htorn Hrec Hbytes Htail Hclock.
  assert (file_size f = start + file_size log + file_size tail) as Hf
    by (subst f start; rewrite !file_size_app; unfold file_size; lia).
  assert (0 <= file_size log /\ 0 <= file_size tail) as [Hl0 Ht0] by (unfold file_size; lia).
  assert ((let! headerBuf := readFullAt f 0 SegmentHeaderSize in SegmentHeader_Decode headerBuf)
          = SegmentHeader_Decode (take SegmentHeaderSize pre)) as Hhdr.
  { rewrite (readFullAt_app [] f), bind_Ok by (unfold file_size in *; lia).
    subst f. rewrite take_app_le by (unfold start, file_size in *; lia). done. }
  unfold RecoverFromSegmentLog. cbv zeta. cbn [ro_SafeOffset].
  rewrite Hhdr. destruct (SegmentHeader_Decode _) as [h|]; [|done]. clear Hdec Hhdr.
  rewrite (proj2 (Z.ltb_ge (file_size f) _)) by lia.
  rewrite (proj2 (Z.ltb_ge (ro_SafeOffset opts) 0)) by lia.
  assert ((if ro_SafeOffset opts <? Z.of_nat SegmentHeaderSize then Z.of_nat SegmentHeaderSize
           else ro_SafeOffset opts) = start) as ->
    by (destruct (Z.ltb_spec (ro_SafeOffset opts) (Z.of_nat SegmentHeaderSize)); lia).
  rewrite (proj2 (Z.ltb_ge (file_size f) start)) by lia.
  match goal with |- context [checkpoint_seq f ?o start] =>
    change (checkpoint_seq f o start) with (checkpoint_seq f opts start) end.
  rewrite Hck.
  match goal with |- context [recover_scan apply ?env _ _ _] =>
    exact (recover_scan_ok env pre log tail e es
      (mkLogView seq0 (ro_SafeSeq opts) 0 0 0 0 acc) v' (recovery_ticks opts)
      Hclock eq_refl eq_refl Hok Heff Htorn Hrec Hbytes Htail) end.
Qed.
End Whole.
