(* ===== verification/Framing.v ===== *)
(** * Framing: compression, encryption and verified reads

    Models [segment/compress.go] (frame building), the frame sealing of
    [encryption/record_crypto.go] and [segment/reader.go] (layout, whole and
    range reads) of [nufs-core/datanode/storage]. The zstd library and
    AES-GCM are parameters, class [FrameLib]; what the code relies on of
    them, decode after encode and open after seal, is class [FrameLaws]. *)

From stdpp Require Import base list numbers strings.
From Stdlib Require Import ZArith Lia.
From S2P Require Import Prelude Bytes Crc StorageTypes FileIO Record SegmentLog.

Local Open Scope Z_scope.
Local Open Scope go_scope.

Class FrameLib := {
  zstd_EncodeAll : list Z -> list Z;
  zstd_DecodeAll : list Z -> go (list Z);
  gcm_Seal : list Z -> list Z -> list Z -> list Z;          (** key, nonce, plaintext *)
  gcm_Open : list Z -> list Z -> list Z -> go (list Z)      (** key, nonce, ciphertext *)
}.

Definition NonceSize : nat := 12.
Definition AEADOverhead : nat := 16.

Class FrameLaws `(FL : FrameLib) : Prop := {
  zstd_roundtrip p : zstd_DecodeAll (zstd_EncodeAll p) = Ok p;
  gcm_roundtrip k n p : gcm_Open k n (gcm_Seal k n p) = Ok p;
  gcm_length k n p : length (gcm_Seal k n p) = (length p + AEADOverhead)%nat;
  zstd_bytes p : bytes_wf p -> bytes_wf (zstd_EncodeAll p);
  gcm_bytes k n p : bytes_wf p -> bytes_wf (gcm_Seal k n p)
}.

Section Frames.
Context `{FL : FrameLib}.

(** ** Compression *)

(** [CompressFrame] *)
Definition CompressFrame (payload : list Z) : list Z * bool :=
  let out := zstd_EncodeAll payload in
  if (length payload <=? length out)%nat then (payload, false) else (out, true).

(** [DecompressFrame] *)
Definition DecompressFrame (payload : list Z) : go (list Z) := zstd_DecodeAll payload.

(** [CompressionMinSavingsRatio = 0.10] *)
Definition CompressionMinSavingsRatio : float64 := f64_lit 1 10.

(** [ShouldCompress] *)
Definition ShouldCompress (logicalLen : Z) (sample : list Z) : bool :=
  if logicalLen <? CompressionNoCompressionThreshold then false else
  if SmallFileThreshold <? logicalLen then true else
  let compressed := zstd_EncodeAll sample in
  if (length sample <=? length compressed)%nat then false else
  let savings := f64_sub (f64 1) (f64_div (f64 (Z.of_nat (length compressed)))
                                          (f64 (Z.of_nat (length sample)))) in
  f64_leb CompressionMinSavingsRatio savings.

(** [SampledBytes] *)
Definition SampledBytes (payload : list Z) (max : nat) : list Z :=
  if (length payload <=? max)%nat then payload else take max payload.

(** [frameCompress] *)
Definition frameCompress (frame : list Z) (forceZstd : bool) : list Z * Z :=
  if forceZstd then
    match CompressFrame frame with
    | (out, true) => (out, CompressionZstd)
    | (_, false) => (frame, CompressionNone)
    end
  else (frame, CompressionNone).

(** ** Encryption of one frame *)

(** [aes.NewCipher] accepts 16, 24 and 32 byte keys. *)
Definition aes_key_ok (key : list Z) : bool :=
  (length key =? 16)%nat || (length key =? 24)%nat || (length key =? 32)%nat.

(** [EncryptFrame], with the nonce [rand.Reader] delivered. *)
Definition EncryptFrame (key nonce plaintext : list Z) : go (list Z) :=
  refuse negb (aes_key_ok key) with Errorf "encryption: aes new" in
  Ok (nonce ++ gcm_Seal key nonce plaintext).

(** [DecryptFrame] *)
Definition DecryptFrame (key blob : list Z) : go (list Z) :=
  refuse negb (aes_key_ok key) with Errorf "encryption: aes new" in
  refuse (length blob <? NonceSize + AEADOverhead)%nat
    with Wrapf "frame too short for AEAD" ErrDecryptFailed in
  gcm_Open key (take NonceSize blob) (drop NonceSize blob).

(** ** Building a framed record *)

(** The body of the frame loop: compress if it helps, then seal. *)
Definition store_frame (compressed : bool) (encKey : option (list Z)) (nonce frame : list Z) :
    go (list Z * Z) :=
  let '(stored, codec) :=
    if compressed then
      match CompressFrame frame with
      | (cf, true) => (cf, CompressionZstd)
      | (_, false) => (frame, CompressionNone)
      end
    else (frame, CompressionNone) in
  match encKey with
  | None => Ok (stored, codec)
  | Some key => let! sealed := EncryptFrame key nonce stored in Ok (sealed, codec)
  end.

(** The loop of [BuildFramedRecord] over frames [i, i+1, ...]. *)
Fixpoint build_loop (compressed : bool) (encKey : option (list Z)) (nonces : nat -> list Z)
    (i : nat) (frames : list (list Z)) (offset : Z) (stored : list Z)
    (entries : list FrameIndexEntry) : go (list Z * list FrameIndexEntry) :=
  match frames with
  | [] => Ok (stored, entries)
  | frame :: frames =>
      let! (sf, codec) := store_frame compressed encKey (nonces i) frame in
      let len := u32 (Z.of_nat (length sf)) in
      build_loop compressed encKey nonces (S i) frames (u32 (offset + len)) (stored ++ sf)
        (entries ++ [mkFrameIndexEntry offset len codec (CRC32C sf)])
  end.

(** The frames of a payload; an empty payload is one empty frame. *)
Definition payload_frames (payload : list Z) (frameSize : Z) : list (list Z) :=
  let n := frame_count payload frameSize in
  map (frame_at payload frameSize) (seq 0 (if (n =? 0)%nat then 1%nat else n)).

(** [BuildFramedRecord]: stored bytes, frame index and record codec. *)
Definition BuildFramedRecord (payload : list Z) (frameSize : Z) (compressed : bool)
    (encKey : option (list Z)) (nonces : nat -> list Z) :
    go (list Z * list FrameIndexEntry * Z) :=
  let frameSize := if frameSize <=? 0 then DefaultFrameSize else frameSize in
  let codec := if compressed then CompressionZstd else CompressionNone in
  let! (stored, entries) :=
    build_loop compressed encKey nonces 0 (payload_frames payload frameSize) 0 [] [] in
  Ok (stored, entries, codec).

(** ** Reading *)

(** [f.ReadAt(buf, off)] with [len(buf) = n], a short read being an error. *)
Definition readAt (f : list Z) (off : Z) (n : nat) : go (list Z) :=
  match readFullAt f off n with Ok b => Ok b | Err _ => Err (ErrIO "EOF") end.

(** A [Reader]: the file, the size it cached when it was opened or last
    refreshed, and the key registry's [ResolveNumeric] if there is one. *)
Record Reader := mkReader {
  rd_f : list Z; rd_sizeBytes : Z; rd_enc : option (Z -> go (option (list Z)))
}.

Record recordLayout := mkRecordLayout {
  rl_header : RecordHeader; rl_frameIndex : list FrameIndexEntry; rl_firstFrameAt : Z;
  rl_totalStored : Z; rl_decKey : option (list Z)
}.

(** [readRecordLayout] *)
Definition readRecordLayout (r : Reader) (offset storedLen logicalLen : Z) : go recordLayout :=
  refuse offset <? Z.of_nat SegmentHeaderSize with ErrIndexCorrupt in
  let! hb := readAt (rd_f r) offset RecordHeaderSize in
  let! header := RecordHeader_Decode hb in
  refuse negb (h_LogicalLen header =? logicalLen) with ErrIndexCorrupt in
  let indexBytes := h_FrameCount header * Z.of_nat FrameIndexEntrySize in
  let! idxBuf := readAt (rd_f r) (offset + Z.of_nat RecordHeaderSize) (Z.to_nat indexBytes) in
  let! fi := FrameIndex_Decode idxBuf (h_FrameIndexCRC header) in
  let firstFrameOff := offset + Z.of_nat RecordHeaderSize + indexBytes in
  let totalStored := foldr Z.add 0 (map fe_StoredLen fi) in
  refuse negb (totalStored =? storedLen) with ErrIndexCorrupt in
  let recordEnd := firstFrameOff + totalStored + Z.of_nat RecordTrailerSize in
  (* a stale cached size is refreshed before the record is refused *)
  refuse (rd_sizeBytes r <? recordEnd) && (file_size (rd_f r) <? recordEnd)
    with ErrIndexCorrupt in
  let! decKey :=
    if h_KeyID header =? 0 then Ok None else
    match rd_enc r with
    | None => Err ErrDecryptFailed
    | Some resolve => resolve (h_KeyID header)
    end in
  let! tr := readAt (rd_f r) (firstFrameOff + totalStored) RecordTrailerSize in
  let! trailer := RecordTrailer_Decode tr in
  let framing := Z.of_nat RecordHeaderSize + indexBytes + totalStored
                 + Z.of_nat RecordTrailerSize in
  refuse negb (t_FramingLen trailer =? u32 framing) with ErrIndexCorrupt in
  Ok (mkRecordLayout header fi firstFrameOff totalStored decKey).

(** Read the stored bytes of one frame and verify its checksum. *)
Definition read_stored_frame (r : Reader) (layout : recordLayout) (e : FrameIndexEntry) :
    go (list Z) :=
  let! frame := readAt (rd_f r) (rl_firstFrameAt layout + fe_Offset e)
                  (Z.to_nat (fe_StoredLen e)) in
  let! _ := VerifyFrameCRC frame (fe_CRC e) in
  Ok frame.

(** [readLogicalFrame] *)
Definition readLogicalFrame (r : Reader) (layout : recordLayout) (e : FrameIndexEntry) :
    go (list Z) :=
  refuse rl_totalStored layout <? fe_Offset e + fe_StoredLen e with ErrIndexCorrupt in
  let! frame := read_stored_frame r layout e in
  let! frame := match rl_decKey layout with
                | Some key => DecryptFrame key frame
                | None => Ok frame
                end in
  if fe_Codec e =? CompressionZstd then DecompressFrame frame else Ok frame.

(** [recordIsPlain] *)
Definition recordIsPlain (layout : recordLayout) : bool :=
  forallb (fun e => fe_Codec e =? CompressionNone) (rl_frameIndex layout).

(** The fast path of [ReadPayloadFrames]: frames are read in place. A frame
    longer than what is left of the payload buffer is a slice panic. *)
Fixpoint read_plain (r : Reader) (layout : recordLayout) (logicalLen : Z)
    (es : list FrameIndexEntry) (payload : list Z) : go (list Z) :=
  match es with
  | [] => Ok payload
  | e :: es =>
      refuse rl_totalStored layout <? fe_Offset e + fe_StoredLen e with ErrIndexCorrupt in
      refuse logicalLen <? Z.of_nat (length payload) + fe_StoredLen e
        with GoPanic "slice bounds out of range" in
      let! frame := read_stored_frame r layout e in
      read_plain r layout logicalLen es (payload ++ frame)
  end.

(** The buffered path: [copy] stops at the end of the payload buffer. *)
Fixpoint read_buffered (r : Reader) (layout : recordLayout) (logicalLen : Z)
    (es : list FrameIndexEntry) (payload : list Z) : go (list Z) :=
  match es with
  | [] => Ok payload
  | e :: es =>
      let! logical := readLogicalFrame r layout e in
      read_buffered r layout logicalLen es
        (payload ++ take (Z.to_nat logicalLen - length payload) logical)
  end.

(** [ReadPayloadFrames] *)
Definition ReadPayloadFrames (r : Reader) (offset storedLen logicalLen : Z) : go (list Z) :=
  let! layout := readRecordLayout r offset storedLen logicalLen in
  let! payload :=
    match rl_decKey layout with
    | None =>
        if recordIsPlain layout
        then read_plain r layout logicalLen (rl_frameIndex layout) []
        else read_buffered r layout logicalLen (rl_frameIndex layout) []
    | Some _ => read_buffered r layout logicalLen (rl_frameIndex layout) []
    end in
  refuse negb (Z.of_nat (length payload) =? logicalLen) with ErrIndexCorrupt in
  Ok payload.

(** One iteration of the loop of [ReadRangeFrames]: the bytes frame [i]
    contributes to [out], which already holds [out]. *)
Definition range_frame (r : Reader) (layout : recordLayout) (frameSize logicalOffset len : Z)
    (i : nat) (e : FrameIndexEntry) (out : list Z) : go (list Z) :=
  refuse rl_totalStored layout <? fe_Offset e + fe_StoredLen e with ErrIndexCorrupt in
  let frameStart := Z.of_nat i * frameSize in
  let lo := logicalOffset - frameStart in
  let lo := if lo <? 0 then 0 else lo in
  let hi := logicalOffset + len - frameStart in
  if bool_decide (rl_decKey layout = None) && (fe_Codec e =? CompressionNone)
     && (lo =? 0) && (fe_StoredLen e <=? hi)
  then
    refuse len <? Z.of_nat (length out) + fe_StoredLen e
      with GoPanic "slice bounds out of range" in
    let! frame := read_stored_frame r layout e in
    Ok (out ++ frame)
  else
    let! logical := readLogicalFrame r layout e in
    let hi := if Z.of_nat (length logical) <? hi then Z.of_nat (length logical) else hi in
    refuse hi <=? lo with ErrIndexCorrupt in
    Ok (out ++ take (Z.to_nat len - length out)
                 (field (Z.to_nat lo) (Z.to_nat (hi - lo)) logical)).

Fixpoint range_loop (r : Reader) (layout : recordLayout) (frameSize logicalOffset len : Z)
    (i : nat) (es : list FrameIndexEntry) (out : list Z) : go (list Z) :=
  match es with
  | [] => Ok out
  | e :: es =>
      let! out := range_frame r layout frameSize logicalOffset len i e out in
      range_loop r layout frameSize logicalOffset len (S i) es out
  end.

(** [ReadRangeFrames] *)
Definition ReadRangeFrames (r : Reader) (offset storedLen logicalLen logicalOffset len : Z) :
    go (list Z) :=
  refuse (len <=? 0) || (logicalOffset <? 0) || (logicalLen <=? logicalOffset)
    with ErrInvalidRange in
  let len := if logicalLen <? logicalOffset + len then logicalLen - logicalOffset else len in
  let! layout := readRecordLayout r offset storedLen logicalLen in
  let frameSize := EffectiveFrameSize (rl_header layout) in
  let first := logicalOffset / frameSize in
  let last := (logicalOffset + len - 1) / frameSize in
  refuse (first <? 0) || (Z.of_nat (length (rl_frameIndex layout)) <=? last)
    with ErrIndexCorrupt in
  let! out := range_loop r layout frameSize logicalOffset len (Z.to_nat first)
                (take (Z.to_nat (last - first + 1)) (drop (Z.to_nat first) (rl_frameIndex layout)))
                [] in
  refuse negb (Z.of_nat (length out) =? len) with ErrIndexCorrupt in
  Ok out.
End Frames.

(** ** An instance of the library classes

    A compressor that folds a payload made of two equal halves, and a sealing
    that appends a zero tag: enough to satisfy the laws and to evaluate the
    model on concrete inputs. *)

Definition fold_halves (p : list Z) : list Z :=
  let h := take (Nat.div2 (length p)) p in
  if bool_decide (p = h ++ h) then 1 :: h else 0 :: p.

Definition unfold_halves (p : list Z) : go (list Z) :=
  match p with
  | 0 :: p => Ok p
  | 1 :: h => Ok (h ++ h)
  | _ => Err (Errorf "zstd: invalid input")
  end.

Definition toy_lib : FrameLib := {|
  zstd_EncodeAll := fold_halves;
  zstd_DecodeAll := unfold_halves;
  gcm_Seal _ _ p := p ++ replicate AEADOverhead 0;
  gcm_Open _ _ c := Ok (take (length c - AEADOverhead) c)
|}.

Lemma toy_laws : FrameLaws toy_lib.
Proof.
  split; cbn [zstd_DecodeAll zstd_EncodeAll gcm_Open gcm_Seal toy_lib].
  - intros p. unfold fold_halves. case_bool_decide as E; cbn; congruence.
  - intros _ _ p. rewrite length_app, length_replicate. f_equal.
    replace (length p + AEADOverhead - AEADOverhead)%nat with (length p) by lia.
    apply take_app_length.
  - intros _ _ p. by rewrite length_app, length_replicate.
  - intros p Hp. unfold fold_halves. case_bool_decide; constructor; try done.
    by apply bytes_wf_take.
  - intros _ _ p Hp. apply bytes_wf_app. split; [done|]. by apply Forall_replicate.
Qed.
