(* ===== verification/FramingProofs.v ===== *)
(** * Reads return what was framed

    For a record built by [BuildFramedRecord] and laid out on disk, a whole
    read returns the payload and a range read returns exactly the requested
    window, whether or not frames were compressed or sealed. *)

From stdpp Require Import base list numbers strings.
From Stdlib Require Import ZArith Lia.
From S2P Require Import Prelude Bytes Crc StorageTypes FileIO Record SegmentLog.
From S2P Require Import LogParse Framing.

Local Open Scope Z_scope.
Local Open Scope go_scope.

(** ** One frame *)

Section OneFrame.
Context `{FLaws : FrameLaws}.

(** [sf] with codec [c] is what the frame loop stores for [frame]. *)
Definition stored_as (compressed : bool) (encKey : option (list Z)) (frame : list Z)
    (p : list Z * Z) : Prop :=
  exists nonce, length nonce = NonceSize /\ store_frame compressed encKey nonce frame = Ok p.

(** Decryption and decompression, as [readLogicalFrame] composes them. *)
Definition unstore (encKey : option (list Z)) (codec : Z) (sf : list Z) : go (list Z) :=
  let! frame := match encKey with Some key => DecryptFrame key sf | None => Ok sf end in
  if codec =? CompressionZstd then DecompressFrame frame else Ok frame.

Lemma Decrypt_Encrypt key nonce p sf :
  length nonce = NonceSize -> EncryptFrame key nonce p = Ok sf -> DecryptFrame key sf = Ok p.
Proof.
  unfold EncryptFrame, DecryptFrame. intros Hn H. ok_inv. subst sf.
  rewrite length_app, gcm_length, (proj2 (Nat.ltb_ge _ _)) by lia.
  rewrite <- Hn, take_app_length, drop_app_length. apply gcm_roundtrip.
Qed.

Lemma unstore_stored compressed encKey frame sf c :
  stored_as compressed encKey frame (sf, c) -> unstore encKey c sf = Ok frame.
Proof.
  intros (nonce & Hn & H). unfold store_frame in H.
  assert (exists sf0, (let! frame := Ok sf0 in
            if c =? CompressionZstd then DecompressFrame frame else Ok frame) = Ok frame
          /\ match encKey with None => sf = sf0 | Some k => EncryptFrame k nonce sf0 = Ok sf end)
    as (sf0 & Hd & He).
  { unfold CompressFrame in H. destruct compressed.
    - destruct (length frame <=? length (zstd_EncodeAll frame))%nat;
        destruct encKey; ok_inv; simplify_eq; eexists; split; try done.
      + by rewrite bind_Ok; apply zstd_roundtrip.
      + by rewrite bind_Ok; apply zstd_roundtrip.
    - destruct encKey; ok_inv; simplify_eq; eexists; by split. }
  unfold unstore. destruct encKey as [k|]; [|by subst].
  by rewrite (Decrypt_Encrypt _ _ _ _ Hn He).
Qed.

Lemma stored_plain compressed frame sf :
  stored_as compressed None frame (sf, CompressionNone) -> sf = frame.
Proof.
  intros H%unstore_stored. unfold unstore in H. rewrite bind_Ok in H. by apply Ok_inj in H.
Qed.
End OneFrame.

(** ** The frame index of stored frames *)

Fixpoint entries_of (off : Z) (ps : list (list Z * Z)) : list FrameIndexEntry :=
  match ps with
  | [] => []
  | (sf, c) :: ps =>
      mkFrameIndexEntry off (Z.of_nat (length sf)) c (CRC32C sf)
      :: entries_of (off + Z.of_nat (length sf)) ps
  end.

Definition stored_bytes (ps : list (list Z * Z)) : list Z := concat (map fst ps).

Lemma length_entries_of off ps : length (entries_of off ps) = length ps.
Proof. revert off. induction ps as [|[sf c] ps IH]; intros off; simpl; [done|]. by rewrite IH. Qed.

Lemma entries_of_app off ps qs :
  entries_of off (ps ++ qs) =
  entries_of off ps ++ entries_of (off + Z.of_nat (length (stored_bytes ps))) qs.
Proof.
  revert off. induction ps as [|[sf c] ps IH]; intros off.
  { simpl. by rewrite Z.add_0_r. }
  cbn [app entries_of]. rewrite IH. unfold stored_bytes. cbn [map concat fst].
  rewrite length_app, Nat2Z.inj_add, Z.add_assoc. done.
Qed.

Lemma stored_bytes_app ps qs : stored_bytes (ps ++ qs) = stored_bytes ps ++ stored_bytes qs.
Proof. unfold stored_bytes. by rewrite map_app, concat_app. Qed.

Lemma entries_total off ps :
  foldr Z.add 0 (map fe_StoredLen (entries_of off ps)) = Z.of_nat (length (stored_bytes ps)).
Proof.
  revert off. induction ps as [|[sf c] ps IH]; intros off; [done|].
  cbn [entries_of map foldr fe_StoredLen]. rewrite IH. unfold stored_bytes. cbn [map concat fst].
  rewrite length_app. lia.
Qed.

Lemma entries_frames_end off ps :
  frames_end off (entries_of off ps) = Some (off + Z.of_nat (length (stored_bytes ps))).
Proof.
  revert off. induction ps as [|[sf c] ps IH]; intros off; [simpl; f_equal; lia|].
  cbn [entries_of frames_end fe_Offset fe_StoredLen]. rewrite Z.eqb_refl, IH.
  unfold stored_bytes. cbn [map concat fst]. rewrite length_app. f_equal. lia.
Qed.

Section Build.
Context `{FLaws : FrameLaws}.

Lemma store_frame_codec compressed encKey nonce frame sf c :
  store_frame compressed encKey nonce frame = Ok (sf, c) ->
  c = CompressionNone \/ c = CompressionZstd.
Proof.
  unfold store_frame. destruct compressed; [destruct (CompressFrame frame) as [cf []]|];
    destruct encKey; intros H; ok_inv; simplify_eq; auto.
Qed.

Lemma build_loop_spec compressed encKey nonces i frames ps0 stored entries :
  (forall i, length (nonces i) = NonceSize) ->
  build_loop compressed encKey nonces i frames (Z.of_nat (length (stored_bytes ps0)))
    (stored_bytes ps0) (entries_of 0 ps0) = Ok (stored, entries) ->
  Z.of_nat (length stored) < 2 ^ 32 ->
  exists ps, Forall2 (stored_as compressed encKey) frames ps
    /\ stored = stored_bytes (ps0 ++ ps) /\ entries = entries_of 0 (ps0 ++ ps).
Proof.
  intros Hn. revert i ps0. induction frames as [|frame frames IH]; intros i ps0 H Hb;
    cbn [build_loop] in H.
  { apply Ok_inj in H. simplify_eq. exists []. by rewrite app_nil_r. }
  apply bind_Ok_inv in H as ([sf c] & Hs & H).
  assert (exists k, stored = (stored_bytes ps0 ++ sf) ++ k) as [k Hk].
  { clear -H. revert H. generalize (stored_bytes ps0 ++ sf) as s.
    generalize (entries_of 0 ps0 ++ [mkFrameIndexEntry (Z.of_nat (length (stored_bytes ps0)))
      (u32 (Z.of_nat (length sf))) c (CRC32C sf)]) as es.
    generalize (u32 (Z.of_nat (length (stored_bytes ps0)) + u32 (Z.of_nat (length sf)))) as o.
    generalize (S i) as j. induction frames as [|fr frames IH]; intros j o es s H; cbn [build_loop] in H.
    { apply Ok_inj in H. simplify_eq. exists []. by rewrite app_nil_r. }
    apply bind_Ok_inv in H as ([sf' c'] & _ & H). apply IH in H as [k ->].
    exists (sf' ++ k). by rewrite <- !app_assoc. }
  assert (Z.of_nat (length (stored_bytes ps0)) + Z.of_nat (length sf) < 2 ^ 32) as Hsum
    by (subst stored; rewrite !length_app in Hb; lia).
  cbv zeta in H. rewrite !wrap_small in H by (unfold uintw; rewrite ?wrap_small; unfold uintw; lia).
  assert (stored_bytes ps0 ++ sf = stored_bytes (ps0 ++ [(sf, c)])) as E1
    by (rewrite stored_bytes_app; unfold stored_bytes; cbn [map concat fst]; by rewrite app_nil_r).
  assert (entries_of 0 ps0 ++ [mkFrameIndexEntry (Z.of_nat (length (stored_bytes ps0)))
            (Z.of_nat (length sf)) c (CRC32C sf)] = entries_of 0 (ps0 ++ [(sf, c)])) as E2
    by (by rewrite entries_of_app).
  rewrite E1, E2, <- Nat2Z.inj_add, <- length_app, E1 in H.
  destruct (IH _ _ H Hb) as (ps & Hf & -> & ->).
  exists ((sf, c) :: ps). rewrite <- !app_assoc. split; [|done].
  constructor; [|done]. by exists (nonces i).
Qed.
End Build.

(** ** Reading frames back *)

Lemma VerifyFrameCRC_ok frame : VerifyFrameCRC frame (CRC32C frame) = Ok tt.
Proof. unfold VerifyFrameCRC. by rewrite refuse_pass by (by rewrite Z.eqb_refl). Qed.

Section Read.
Context `{FLaws : FrameLaws} (compressed : bool) (encKey : option (list Z)).
Context (r : Reader) (layout : recordLayout) (a b : list Z) (frames : list (list Z))
  (ps : list (list Z * Z)).
Hypothesis stored_frames : Forall2 (stored_as compressed encKey) frames ps.
Hypothesis file_ok : rd_f r = a ++ stored_bytes ps ++ b.
Hypothesis first_ok : rl_firstFrameAt layout = Z.of_nat (length a).
Hypothesis index_ok : rl_frameIndex layout = entries_of 0 ps.
Hypothesis total_ok : rl_totalStored layout = Z.of_nat (length (stored_bytes ps)).
Hypothesis key_ok : rl_decKey layout = encKey.

Definition entry_at (ps1 : list (list Z * Z)) (sf : list Z) (c : Z) : FrameIndexEntry :=
  mkFrameIndexEntry (Z.of_nat (length (stored_bytes ps1))) (Z.of_nat (length sf)) c (CRC32C sf).

Lemma read_stored_frame_ok ps1 sf c ps2 :
  ps = ps1 ++ (sf, c) :: ps2 -> read_stored_frame r layout (entry_at ps1 sf c) = Ok sf.
Proof.
  intros Hps. unfold read_stored_frame, readAt. cbn [entry_at fe_Offset fe_StoredLen fe_CRC].
  rewrite file_ok, first_ok, Hps, stored_bytes_app.
  change (stored_bytes ((sf, c) :: ps2)) with (sf ++ stored_bytes ps2).
  rewrite <- !app_assoc, (app_assoc a), readFullAt_window
    by (rewrite ?length_app, ?Nat2Z.id; lia).
  by rewrite bind_Ok, VerifyFrameCRC_ok.
Qed.

Lemma entry_in_bounds ps1 sf c ps2 :
  ps = ps1 ++ (sf, c) :: ps2 ->
  (rl_totalStored layout <? fe_Offset (entry_at ps1 sf c) + fe_StoredLen (entry_at ps1 sf c))
  = false.
Proof.
  intros Hps. rewrite total_ok, Hps, stored_bytes_app, length_app.
  change (stored_bytes ((sf, c) :: ps2)) with (sf ++ stored_bytes ps2). rewrite length_app.
  cbn [entry_at fe_Offset fe_StoredLen]. apply Z.ltb_ge. lia.
Qed.

Lemma readLogicalFrame_ok ps1 sf c ps2 frame :
  ps = ps1 ++ (sf, c) :: ps2 -> stored_as compressed encKey frame (sf, c) ->
  readLogicalFrame r layout (entry_at ps1 sf c) = Ok frame.
Proof.
  intros Hps Hs. unfold readLogicalFrame.
  rewrite refuse_pass by (by eapply entry_in_bounds).
  rewrite (read_stored_frame_ok _ _ _ _ Hps), bind_Ok, key_ok.
  cbn [entry_at fe_Codec]. apply (unstore_stored _ _ _ _ _ Hs).
Qed.

Lemma entries_split ps1 sf c ps2 :
  entries_of (Z.of_nat (length (stored_bytes ps1))) ((sf, c) :: ps2) =
  entry_at ps1 sf c :: entries_of (Z.of_nat (length (stored_bytes (ps1 ++ [(sf, c)])))) ps2.
Proof.
  cbn [entries_of]. rewrite stored_bytes_app, length_app, Nat2Z.inj_add.
  change (stored_bytes [(sf, c)]) with (sf ++ []). by rewrite app_nil_r.
Qed.

Lemma read_buffered_ok ps1 ps2 frames2 acc (logicalLen : Z) :
  ps = ps1 ++ ps2 -> Forall2 (stored_as compressed encKey) frames2 ps2 ->
  Z.of_nat (length (acc ++ concat frames2)) <= logicalLen ->
  read_buffered r layout logicalLen
    (entries_of (Z.of_nat (length (stored_bytes ps1))) ps2) acc = Ok (acc ++ concat frames2).
Proof.
  intros Hps Hf. revert ps1 acc Hps.
  induction Hf as [|frame [sf c] frames2 ps2 Hs Hf IH]; intros ps1 acc Hps Hl.
  { cbn. by rewrite app_nil_r. }
  rewrite entries_split. cbn [read_buffered].
  rewrite (readLogicalFrame_ok _ _ _ _ _ Hps Hs), bind_Ok.
  cbn [concat] in *. rewrite !length_app in Hl. rewrite take_ge by lia.
  rewrite (IH (ps1 ++ [(sf, c)])); [by rewrite <- app_assoc|by rewrite <- app_assoc|].
  rewrite !length_app. lia.
Qed.

Lemma read_plain_ok ps1 ps2 frames2 acc (logicalLen : Z) :
  encKey = None -> Forall (fun p => p.2 = CompressionNone) ps2 ->
  ps = ps1 ++ ps2 -> Forall2 (stored_as compressed encKey) frames2 ps2 ->
  Z.of_nat (length (acc ++ concat frames2)) <= logicalLen ->
  read_plain r layout logicalLen
    (entries_of (Z.of_nat (length (stored_bytes ps1))) ps2) acc = Ok (acc ++ concat frames2).
Proof.
  intros Hk Hc Hps Hf. revert ps1 acc Hps.
  induction Hf as [|frame [sf c] frames2 ps2 Hs Hf IH]; intros ps1 acc Hps Hl.
  { cbn. by rewrite app_nil_r. }
  apply Forall_cons in Hc as [Hc Hcs]. cbn [snd] in Hc. rewrite Hk, Hc in Hs.
  apply stored_plain in Hs. subst sf.
  rewrite entries_split. cbn [read_plain].
  rewrite refuse_pass by (by eapply entry_in_bounds).
  cbn [concat] in *. rewrite !length_app in Hl. cbn [entry_at fe_StoredLen].
  rewrite refuse_pass by lia.
  rewrite (read_stored_frame_ok _ _ _ _ Hps), bind_Ok.
  rewrite (IH Hcs (ps1 ++ [(frame, c)])); [by rewrite <- app_assoc|by rewrite <- app_assoc|].
  rewrite !length_app. lia.
Qed.

Lemma recordIsPlain_codecs :
  recordIsPlain layout = true -> Forall (fun p => p.2 = CompressionNone) ps.
Proof.
  unfold recordIsPlain. rewrite index_ok. generalize 0. clear.
  induction ps as [|[sf c] ps' IH]; intros off H; [constructor|].
  cbn [entries_of forallb] in H. apply andb_true_iff in H as [H1 H2].
  constructor; [cbn in *; lia|eauto].
Qed.

(** Both paths of [ReadPayloadFrames] produce the concatenated frames. *)
Lemma read_frames_ok (logicalLen : Z) :
  Z.of_nat (length (concat frames)) = logicalLen ->
  (match rl_decKey layout with
   | None =>
       if recordIsPlain layout
       then read_plain r layout logicalLen (rl_frameIndex layout) []
       else read_buffered r layout logicalLen (rl_frameIndex layout) []
   | Some _ => read_buffered r layout logicalLen (rl_frameIndex layout) []
   end) = Ok (concat frames).
Proof.
  intros Hl. rewrite key_ok, index_ok.
  pose proof (read_buffered_ok [] ps frames [] logicalLen eq_refl stored_frames) as Hb.
  pose proof (fun Hk Hc =>
    read_plain_ok [] ps frames [] logicalLen Hk Hc eq_refl stored_frames) as Hp.
  cbn [app stored_bytes map concat length Z.of_nat] in Hb, Hp.
  destruct encKey; [apply Hb; lia|].
  destruct (recordIsPlain layout) eqn:E; [|apply Hb; lia].
  apply Hp; [done|by apply recordIsPlain_codecs|lia].
Qed.
End Read.

(** ** Range reads *)

(** What frame [i] adds to a window [off, off+len) of the payload. *)
Lemma window_step (P : list Z) (fs off len i : nat) :
  (0 < fs)%nat -> (0 < len)%nat -> (off + len <= length P)%nat -> (i * fs < off + len)%nat ->
  let fr := take fs (drop (i * fs) P) in
  let lo := (off - i * fs)%nat in
  let hi := Nat.min (off + len - i * fs) (length fr) in
  (off < S i * fs)%nat ->
  (lo < hi)%nat /\
  field off (Nat.min (off + len) (i * fs) - off) P ++ field lo (hi - lo) fr =
  field off (Nat.min (off + len) (S i * fs) - off) P.
Proof.
  intros Hfs Hlen HL Hi fr lo hi Hlt.
  assert (length fr = Nat.min fs (length P - i * fs)) as Hfr
    by (unfold fr; rewrite length_take, length_drop; lia).
  unfold hi, lo. rewrite Hfr.
  assert (off - i * fs < Nat.min (off + len - i * fs) (Nat.min fs (length P - i * fs)))%nat by lia.
  split; [done|].
  unfold fr. rewrite field_take by lia.
  destruct (Nat.le_gt_cases (i * fs) off).
  - replace (Nat.min (off + len) (i * fs) - off)%nat with 0%nat by lia.
    unfold field at 1. cbn [app take]. unfold field. rewrite drop_drop.
    replace (i * fs + (off - i * fs))%nat with off by lia. rewrite take_0. cbn [app]. f_equal. lia.
  - replace (off - i * fs)%nat with 0%nat by lia. unfold field at 2. rewrite drop_0, Nat.sub_0_r.
    replace (Nat.min (off + len) (S i * fs) - off)%nat with
      ((i * fs - off) + (Nat.min (off + len - i * fs) (Nat.min fs (length P - i * fs))))%nat by lia.
    rewrite <- field_glue. replace (Nat.min (off + len) (i * fs) - off)%nat with (i * fs - off)%nat by lia.
    f_equal. unfold field. by replace (off + (i * fs - off))%nat with (i * fs)%nat by lia.
Qed.

Section Range.
Context `{FLaws : FrameLaws} (compressed : bool) (encKey : option (list Z)).
Context (r : Reader) (layout : recordLayout) (a b : list Z) (ps : list (list Z * Z)).
Context (P : list Z) (fs off len : nat).
Let frames (i n : nat) : list (list Z) := map (fun i => take fs (drop (i * fs) P)) (seq i n).
Hypothesis file_ok : rd_f r = a ++ stored_bytes ps ++ b.
Hypothesis first_ok : rl_firstFrameAt layout = Z.of_nat (length a).
Hypothesis total_ok : rl_totalStored layout = Z.of_nat (length (stored_bytes ps)).
Hypothesis key_ok : rl_decKey layout = encKey.
Hypothesis fs_pos : (0 < fs)%nat.
Hypothesis len_pos : (0 < len)%nat.
Hypothesis window_ok : (off + len <= length P)%nat.

Definition window_upto (i : nat) : list Z := field off (Nat.min (off + len) (i * fs) - off) P.

Lemma length_window_upto i :
  length (window_upto i) = (Nat.min (off + len) (i * fs) - off)%nat.
Proof. unfold window_upto. apply length_field. lia. Qed.

Lemma range_frame_ok i ps1 sf c ps2 :
  ps = ps1 ++ (sf, c) :: ps2 ->
  stored_as compressed encKey (take fs (drop (i * fs) P)) (sf, c) ->
  (i * fs < off + len)%nat -> (off < S i * fs)%nat ->
  range_frame r layout (Z.of_nat fs) (Z.of_nat off) (Z.of_nat len) i (entry_at ps1 sf c)
    (window_upto i) = Ok (window_upto (S i)).
Proof.
  intros Hps Hs Hi Ho. set (fr := take fs (drop (i * fs) P)) in *.
  destruct (window_step P fs off len i fs_pos len_pos window_ok Hi Ho) as [Hlh Hw].
  fold fr in Hlh, Hw. fold (window_upto i) (window_upto (S i)) in Hw.
  pose proof (length_window_upto i) as L1. pose proof (length_window_upto (S i)) as L2.
  pose proof (f_equal length Hw) as L3. rewrite length_app in L3.
  unfold range_frame. rewrite refuse_pass by (eapply entry_in_bounds; eassumption).
  set (lo := if _ <? 0 then 0 else _).
  assert (lo = Z.of_nat (off - i * fs)) as -> by (subst lo; destruct (Z.ltb_spec (Z.of_nat off - Z.of_nat i * Z.of_nat fs) 0); lia).
  set (hi := Z.of_nat off + Z.of_nat len - _).
  assert (hi = Z.of_nat (off + len - i * fs)) as -> by (subst hi; lia).
  cbn [entry_at fe_StoredLen fe_Codec].
  destruct (bool_decide (rl_decKey layout = None)) eqn:Ek; cbn [andb].
  1: destruct (Z.eqb_spec c CompressionNone) as [Hc|]; cbn [andb].
  1: destruct (Z.eqb_spec (Z.of_nat (off - i * fs)) 0) as [H0|]; cbn [andb].
  1: destruct (Z.leb_spec (Z.of_nat (length sf)) (Z.of_nat (off + len - i * fs))) as [Hh|];
       cbv iota.
  { apply bool_decide_eq_true in Ek. rewrite Ek in key_ok. rewrite <- key_ok, Hc in Hs.
    apply stored_plain in Hs. subst sf.
    replace (off - i * fs)%nat with 0%nat in * by lia.
    rewrite Nat.min_r, Nat.sub_0_r, field_all in * by lia.
    rewrite refuse_pass by lia.
    assert (read_stored_frame r layout (entry_at ps1 fr c) = Ok fr) as ->
      by (eapply read_stored_frame_ok; eassumption).
    by rewrite bind_Ok, Hw. }
  all: assert (readLogicalFrame r layout (entry_at ps1 sf c) = Ok fr) as Hr
    by (eapply readLogicalFrame_ok; eassumption).
  all: rewrite Hr, bind_Ok; cbv zeta.
  all: match goal with |- context [if ?x <? ?y then ?x else ?y] =>
    replace (if x <? y then x else y) with
      (Z.of_nat (Nat.min (off + len - i * fs) (length fr)))
      by (destruct (Z.ltb_spec x y); lia) end.
  all: rewrite refuse_pass by (apply Z.leb_gt; lia).
  all: rewrite Nat2Z.id, <- Nat2Z.inj_sub, Nat2Z.id by lia.
  all: rewrite ?Nat2Z.id, take_ge by lia; by rewrite Hw.
Qed.

Lemma range_loop_ok n i ps1 ps2 ps3 :
  ps = ps1 ++ ps2 ++ ps3 ->
  Forall2 (stored_as compressed encKey) (frames i n) ps2 ->
  ((i + n - 1) * fs < off + len)%nat -> (off < S i * fs)%nat ->
  range_loop r layout (Z.of_nat fs) (Z.of_nat off) (Z.of_nat len) i
    (entries_of (Z.of_nat (length (stored_bytes ps1))) ps2) (window_upto i)
  = Ok (window_upto (i + n)).
Proof.
  revert i ps1 ps2. induction n as [|n IH]; intros i ps1 ps2 Hps Hf Hl Ho.
  { unfold frames in Hf. cbn [seq map] in Hf. inversion Hf; subst ps2.
    cbn [entries_of range_loop]. by rewrite Nat.add_0_r. }
  unfold frames in Hf. cbn [seq map] in Hf.
  apply Forall2_cons_inv_l in Hf as ([sf c] & ps2' & Hs & Hf & ->).
  rewrite entries_split. cbn [range_loop].
  rewrite (range_frame_ok i ps1 sf c (ps2' ++ ps3)) by (try done; nia).
  rewrite bind_Ok, (IH (S i) (ps1 ++ [(sf, c)]) ps2').
  - do 2 f_equal. lia.
  - by rewrite <- app_assoc.
  - done.
  - nia.
  - nia.
Qed.
End Range.

(** ** Whole records *)

Section Records.
Context `{FLaws : FrameLaws}.

(** The registry of a reader gives [key] for the record's key id. *)
Definition resolves (enc : option (Z -> go (option (list Z)))) (keyID : Z)
    (key : option (list Z)) : Prop :=
  if keyID =? 0 then key = None
  else match enc with Some resolve => resolve keyID = Ok key | None => False end.

Lemma entries_total_stored off es n :
  frames_end off es = Some n -> foldr Z.add 0 (map fe_StoredLen es) = n - off.
Proof.
  revert off. induction es as [|e es IH]; intros off H; cbn in *; [simplify_eq; lia|].
  destruct (fe_Offset e =? off); [|done]. rewrite (IH _ H). lia.
Qed.

Lemma readAt_window a b c off n :
  off = Z.of_nat (length a) -> n = length b -> readAt (a ++ b ++ c) off n = Ok b.
Proof. intros Ho Hn. unfold readAt. by rewrite readFullAt_window. Qed.

Lemma readRecordLayout_ok pre r rest size enc key :
  lr_wf r -> Z.of_nat SegmentHeaderSize <= Z.of_nat (length pre) ->
  resolves enc (h_KeyID (lr_header r)) key ->
  readRecordLayout (mkReader (pre ++ lr_bytes r ++ rest) size enc) (Z.of_nat (length pre))
    (h_StoredLen (lr_header r)) (h_LogicalLen (lr_header r)) =
  Ok (mkRecordLayout (lr_header r) (lr_index r)
        (Z.of_nat (length (pre ++ header_bytes (lr_header r) ++ frame_index_bytes (lr_index r))))
        (Z.of_nat (length (lr_stored r))) key).
Proof.
  intros W Hpre Hkey. pose proof (length_lr_bytes r) as Hlen.
  pose proof (lrw_bound r W) as Hb. pose proof (length_frame_index_bytes (lr_index r)) as Hli.
  pose proof (length_header_bytes (lr_header r)) as Hlh.
  change FrameIndexEntrySize with 13%nat in *. change RecordHeaderSize with 55%nat in *.
  pose proof (entries_total_stored _ _ _ (lrw_frames r W)) as Htot. rewrite Z.sub_0_r in Htot.
  assert (file_size (pre ++ lr_bytes r ++ rest) =
          Z.of_nat (length pre) + lr_framing r + Z.of_nat (length rest)) as Hsz
    by (rewrite !file_size_app; unfold file_size; lia).
  unfold readRecordLayout. cbn [rd_f rd_sizeBytes rd_enc].
  rewrite refuse_pass by (apply Z.ltb_ge; lia).
  rewrite Hsz. unfold lr_bytes, record_bytes. rewrite <- !app_assoc.
  rewrite (readAt_window pre (header_bytes (lr_header r))), bind_Ok by done.
  rewrite lr_header_Decode, bind_Ok by done.
  rewrite refuse_pass by (by rewrite Z.eqb_refl). cbv zeta.
  change (Z.of_nat FrameIndexEntrySize) with 13. change (Z.of_nat RecordHeaderSize) with 55.
  change (Z.of_nat RecordTrailerSize) with 12.
  rewrite (lrw_count r W), (app_assoc pre (header_bytes (lr_header r))).
  rewrite (readAt_window (pre ++ _) (frame_index_bytes _) _ (Z.of_nat (length pre) + 55)), bind_Ok;
    [|rewrite length_app; lia|lia].
  rewrite (lrw_index_crc r W), FrameIndex_Decode_bytes, bind_Ok by apply (lrw_index r W).
  rewrite Htot, (lrw_stored r W).
  rewrite refuse_pass by (by rewrite Z.eqb_refl).
  replace (Z.of_nat (length pre) + 55 + Z.of_nat (length (lr_index r)) * 13
           + Z.of_nat (length (lr_stored r)) + 12)
    with (Z.of_nat (length pre) + lr_framing r) by (unfold lr_framing; lia).
  rewrite refuse_pass
    by (apply andb_false_iff; right; apply Z.ltb_ge; lia).
  assert ((if h_KeyID (lr_header r) =? 0 then Ok None else
    match enc with None => Err ErrDecryptFailed | Some resolve => resolve (h_KeyID (lr_header r)) end)
    = Ok key) as ->.
  { unfold resolves in Hkey. destruct (h_KeyID (lr_header r) =? 0); [by subst|].
    by destruct enc. }
  rewrite bind_Ok, (app_assoc (pre ++ _)), (app_assoc ((pre ++ _) ++ _)).
  rewrite (readAt_window _ (trailer_bytes _)), bind_Ok by (rewrite ?length_app; lia || done).
  rewrite <- (app_nil_r (trailer_bytes _)).
  rewrite RecordTrailer_Decode_bytes, bind_Ok by (unfold uintw, lr_framing in *; lia).
  cbn [t_FramingLen].
  replace (55 + Z.of_nat (length (lr_index r)) * 13 + Z.of_nat (length (lr_stored r)) + 12)
    with (lr_framing r) by (unfold lr_framing; lia).
  rewrite wrap_small by (unfold uintw, lr_framing in *; lia).
  rewrite refuse_pass by (by rewrite Z.eqb_refl).
  do 2 f_equal. rewrite !length_app. lia.
Qed.

(** The record holds [payload] in frames of the default size. *)
Definition framed (compressed : bool) (encKey : option (list Z)) (payload : list Z)
    (r : log_record) : Prop :=
  h_FrameSize (lr_header r) = 0 /\
  h_LogicalLen (lr_header r) = Z.of_nat (length payload) /\
  exists ps, Forall2 (stored_as compressed encKey) (payload_frames payload DefaultFrameSize) ps
    /\ lr_stored r = stored_bytes ps /\ lr_index r = entries_of 0 ps.

Lemma payload_frames_take payload :
  payload_frames payload DefaultFrameSize =
  map (fun i => take (Z.to_nat DefaultFrameSize) (drop (i * Z.to_nat DefaultFrameSize) payload))
    (seq 0 (if (frame_count payload DefaultFrameSize =? 0)%nat then 1%nat
            else frame_count payload DefaultFrameSize)).
Proof. unfold payload_frames. apply map_ext. intros i. apply frame_at_take. Qed.

Lemma frames_cover payload :
  (length payload <= (if (frame_count payload DefaultFrameSize =? 0)%nat then 1%nat
            else frame_count payload DefaultFrameSize) * Z.to_nat DefaultFrameSize)%nat.
Proof.
  pose proof (frame_count_covers payload DefaultFrameSize ltac:(done)).
  destruct (Nat.eqb_spec (frame_count payload DefaultFrameSize) 0); lia.
Qed.

Lemma concat_payload_frames payload :
  concat (payload_frames payload DefaultFrameSize) = payload.
Proof. rewrite payload_frames_take, concat_chunks. apply take_ge, frames_cover. Qed.

Lemma framed_read compressed encKey payload r pre rest size enc :
  lr_wf r -> Z.of_nat SegmentHeaderSize <= Z.of_nat (length pre) ->
  framed compressed encKey payload r -> resolves enc (h_KeyID (lr_header r)) encKey ->
  ReadPayloadFrames (mkReader (pre ++ lr_bytes r ++ rest) size enc) (Z.of_nat (length pre))
    (h_StoredLen (lr_header r)) (h_LogicalLen (lr_header r)) = Ok payload.
Proof.
  intros W Hpre (_ & Hl & ps & Hps & Hst & Hix) Hkey. unfold ReadPayloadFrames.
  rewrite (readRecordLayout_ok _ _ _ _ _ encKey), bind_Ok by done.
  rewrite (read_frames_ok compressed encKey _ _
    (pre ++ header_bytes (lr_header r) ++ frame_index_bytes (lr_index r))
    (trailer_bytes (lr_framing r) ++ rest) _ _ Hps).
  - rewrite bind_Ok, concat_payload_frames, Hl, refuse_pass by (by rewrite Z.eqb_refl). done.
  - cbn [rd_f]. unfold lr_bytes, record_bytes. rewrite Hst, <- !app_assoc. done.
  - done.
  - done.
  - cbn [rl_totalStored]. by rewrite Hst.
  - done.
  - by rewrite concat_payload_frames.
Qed.

Lemma entries_window ps i n :
  take n (drop i (entries_of 0 ps)) =
  entries_of (Z.of_nat (length (stored_bytes (take i ps)))) (take n (drop i ps)).
Proof.
  destruct (Nat.le_gt_cases (length ps) i).
  { rewrite !drop_ge, !take_nil by (rewrite ?length_entries_of; done). done. }
  rewrite <- (take_drop i ps) at 1. rewrite entries_of_app.
  rewrite drop_app_length' by (rewrite length_entries_of, length_take; lia).
  rewrite Z.add_0_l. rewrite <- (take_drop n (drop i ps)) at 1. rewrite entries_of_app.
  destruct (Nat.le_gt_cases n (length (drop i ps))).
  - rewrite take_app_length' by (rewrite length_entries_of, length_take; lia). done.
  - rewrite (drop_ge (drop i ps)), (take_ge (drop i ps)) by lia. cbn [entries_of].
    rewrite app_nil_r. apply take_ge. rewrite length_entries_of. lia.
Qed.

(** A window of the payload, by the frames it intersects. *)
Lemma framed_range compressed encKey payload r pre rest size enc (off len : nat) :
  lr_wf r -> Z.of_nat SegmentHeaderSize <= Z.of_nat (length pre) ->
  framed compressed encKey payload r -> resolves enc (h_KeyID (lr_header r)) encKey ->
  (off < length payload)%nat -> (0 < len)%nat ->
  ReadRangeFrames (mkReader (pre ++ lr_bytes r ++ rest) size enc) (Z.of_nat (length pre))
    (h_StoredLen (lr_header r)) (h_LogicalLen (lr_header r)) (Z.of_nat off) (Z.of_nat len)
  = Ok (field off (Nat.min len (length payload - off)) payload).
Proof.
  intros W Hpre (Hfs & Hl & ps & Hps & Hst & Hix) Hkey Hoff Hlen. unfold ReadRangeFrames.
  rewrite refuse_pass by (rewrite Hl; lia).
  set (n := Nat.min len (length payload - off)).
  assert ((if h_LogicalLen (lr_header r) <? Z.of_nat off + Z.of_nat len
           then h_LogicalLen (lr_header r) - Z.of_nat off else Z.of_nat len) = Z.of_nat n) as ->
    by (rewrite Hl; destruct (Z.ltb_spec (Z.of_nat (length payload)) (Z.of_nat off + Z.of_nat len)); lia).
  rewrite (readRecordLayout_ok _ _ _ _ _ encKey), bind_Ok by done.
  assert (0 < n)%nat as Hn by lia. assert (off + n <= length payload)%nat as Hw by lia. clearbody n.
  set (layout := mkRecordLayout _ _ _ _ _). cbv zeta.
  cbn [rl_header layout]. unfold EffectiveFrameSize. rewrite Hfs. cbn [Z.eqb].
  set (fs := Z.to_nat DefaultFrameSize).
  assert (0 < fs)%nat as Hfs0 by (unfold fs, DefaultFrameSize; lia).
  change DefaultFrameSize with (Z.of_nat fs).
  rewrite payload_frames_take in Hps. fold fs in Hps.
  pose proof (frames_cover payload) as Hcov. fold fs in Hcov.
  set (N := if (frame_count payload DefaultFrameSize =? 0)%nat then 1%nat else _) in *.
  pose proof (Forall2_length _ _ _ Hps) as HN. rewrite length_map, length_seq in HN.
  clearbody N.
  set (first := (off / fs)%nat). set (last := ((off + n - 1) / fs)%nat).
  assert (Z.of_nat off / Z.of_nat fs = Z.of_nat first) as ->
    by (unfold first; by rewrite Nat2Z.inj_div).
  assert ((Z.of_nat off + Z.of_nat n - 1) / Z.of_nat fs = Z.of_nat last) as ->
    by (unfold last; rewrite Nat2Z.inj_div; f_equal; lia).
  assert (first * fs <= off < S first * fs)%nat as Hfirst.
  { pose proof (Nat.div_mod off fs ltac:(lia)). pose proof (Nat.mod_upper_bound off fs ltac:(lia)).
    unfold first. nia. }
  assert (last * fs <= off + n - 1 < S last * fs)%nat as Hlast.
  { pose proof (Nat.div_mod (off + n - 1) fs ltac:(lia)).
    pose proof (Nat.mod_upper_bound (off + n - 1) fs ltac:(lia)). unfold last. nia. }
  clearbody first last. clearbody fs.
  assert (first <= last)%nat by nia. assert (last < N)%nat by nia.
  cbn [rl_frameIndex layout]. rewrite Hix, length_entries_of.
  rewrite refuse_pass by lia.
  replace (Z.to_nat (Z.of_nat last - Z.of_nat first + 1)) with (last - first + 1)%nat by lia.
  rewrite Nat2Z.id, entries_window.
  assert (window_upto payload fs off n first = []) as Hw0.
  { apply length_zero_iff_nil. unfold window_upto. rewrite length_field by lia. lia. }
  rewrite <- Hw0.
  rewrite (range_loop_ok compressed encKey _ layout
    (pre ++ header_bytes (lr_header r) ++ frame_index_bytes (lr_index r))
    (trailer_bytes (lr_framing r) ++ rest) ps payload fs off n) with
    (n := (last - first + 1)%nat) (ps3 := drop (last - first + 1) (drop first ps)).
  - rewrite bind_Ok. unfold window_upto.
    replace (Nat.min (off + n) ((first + (last - first + 1)) * fs) - off)%nat with n by nia.
    rewrite length_field by lia. by rewrite refuse_pass by (by rewrite Z.eqb_refl).
  - cbn [rd_f]. unfold lr_bytes, record_bytes. rewrite Hst, <- !app_assoc. done.
  - done.
  - cbn [rl_totalStored layout]. by rewrite Hst.
  - done.
  - done.
  - done.
  - done.
  - by rewrite take_drop, take_drop.
  - apply (Forall2_drop _ _ _ first), (Forall2_take _ _ _ (last - first + 1)) in Hps.
    rewrite !skipn_map, !firstn_map, drop_seq, take_seq in Hps.
    rewrite Nat.min_l in Hps by lia. exact Hps.
  - nia.
  - lia.
Qed.
End Records.
