(* ===== verification/Store.v ===== *)
(** * The segment store

    Models [nufs-core/datanode/storage/segment/store.go] and [flush.go]: one
    commit stream with its active segment, group commit, the committed-delta
    overlay over the Pebble index, the flush that publishes INDEX_SAFE and the
    recovery checkpoint, and startup recovery.

    Operations run in the monad [M]: they take the store, and return the store
    they leave behind together with a value or an error, because Go keeps
    every mutation made before an early return. The fault hook, failing writes
    and syncs and the clock are the environment [ev] of a call. [s.mu] makes
    [commitBatch], [AppendRecord] and [flush] atomic, so a history of the
    store is a sequence of these calls. *)

From stdpp Require Import base list numbers strings gmap.
From Stdlib Require Import ZArith Lia.
From S2P Require Import Prelude Bytes Crc StorageTypes FileIO Record Journal.
From S2P Require Import SegmentFile Pebble Index Allocator Overlay Checkpoint Cache Recover.
From S2P Require Import SegmentLog Framing.

Local Open Scope Z_scope.
Local Open Scope go_scope.

Inductive CrashPoint :=
| CrashBeforeBatchAppend | CrashAfterRecordAppend | CrashAfterFrameIndex
| CrashAfterBatchCommitWrite | CrashAfterBatchSync | CrashBeforeOverlayApply
| CrashAfterOverlayApply | CrashAfterAck | CrashBeforeIndexApply | CrashAfterIndexApply
| CrashBeforeIndexSafe | CrashAfterIndexSafe.

(** The environment of one call: injected faults by stage, what the [n]-th
    write of the call does (fail after some bytes), what the write of a
    footer does, whether the syncs and the index flush fail, the checkpoint's
    file operations, the time, and the nonces of sealed frames. *)
Record env := mkEnv {
  ev_fault : CrashPoint -> option err; ev_write : nat -> option (nat * err);
  ev_footer : option (nat * err); ev_sync : option err; ev_index_flush : option err; ev_ckpt : ckpt_io; ev_now : Z;
  ev_nonce : nat -> list Z
}.

(** Nothing fails. *)
Definition io_fine : ckpt_io := mkCkptIO None (recoveryCheckpointSize, None) None None None None.
Definition fine (now : Z) (nonce : nat -> list Z) : env :=
  mkEnv (fun _ => None) (fun _ => None) None None None io_fine now nonce.

(** ** Data *)

(** [pendingWrite]; the done channel is the call structure. *)
Record pendingWrite := mkPendingWrite {
  pw_extentID : Z; pw_generation : Z; pw_header : RecordHeader; pw_idxBuf : list Z;
  pw_stored : list Z; pw_frameSize : Z; pw_storedLen : Z; pw_logicalLen : Z; pw_payloadCRC : Z;
  pw_publishedValue : option Value; pw_segID : Z; pw_offset : Z; pw_streamSeq : Z
}.

Definition pw_place (pw : pendingWrite) (segID offset streamSeq : Z) : pendingWrite :=
  mkPendingWrite (pw_extentID pw) (pw_generation pw) (pw_header pw) (pw_idxBuf pw)
    (pw_stored pw) (pw_frameSize pw) (pw_storedLen pw) (pw_logicalLen pw) (pw_payloadCRC pw)
    (pw_publishedValue pw) segID offset streamSeq.

(** [recoveryPublishBatch] *)
Record recoveryPublishBatch := mkPublishBatch {
  pb_previousSeq : Z; pb_seq : Z; pb_remaining : Z; pb_mutations : Z
}.

(** The fields guarded by [publicationMu] and the flush counters. *)
Record publication := mkPublication {
  p_publishedSeq : Z; p_readyBatches : gmap Z recoveryPublishBatch; p_flushSeq : Z;
  p_flushMutations : Z
}.

(** Kinds of change events the store emits. *)
Inductive change_event :=
| EventRelocated (extent gen seg : Z)
| EventCorrupt (extent gen seg : Z).

Record Config := mkConfig {
  c_StreamID : Z; c_SegmentSize : Z; c_disableAsyncApply : bool;
  (** [s.enc.ActiveKey()] when encryption is enabled *)
  c_activeKey : option (go (Z * list Z));
  (** [s.enc.ResolveNumeric] of the reader *)
  c_resolve : option (Z -> go (option (list Z)))
}.

Record Store (DB : Type) := mkStore {
  s_alloc : Allocator;
  s_dir : gmap Z (list Z);           (** segment files by id *)
  s_index : DB;
  s_ckpt : ckpt_dir;                 (** the index directory's sidecars *)
  s_overlay : Overlay;
  s_streamSeq : Z;
  s_nextSeg : Z;
  s_pub : publication;
  s_safeSeq : Z;
  s_applyCh : list (list Mutation);
  s_locCache : LocationCache (list Z) Value;
  s_segCache : @SegmentDescriptorCache Z Z;
  s_events : list change_event;
  s_syncCalls : Z;
  s_closing : bool
}.
Arguments mkStore {DB}. Arguments s_alloc {DB}. Arguments s_dir {DB}. Arguments s_index {DB}.
Arguments s_ckpt {DB}. Arguments s_overlay {DB}. Arguments s_streamSeq {DB}.
Arguments s_nextSeg {DB}. Arguments s_pub {DB}. Arguments s_safeSeq {DB}.
Arguments s_applyCh {DB}. Arguments s_locCache {DB}. Arguments s_segCache {DB}.
Arguments s_events {DB}. Arguments s_syncCalls {DB}. Arguments s_closing {DB}.

Section Store.
Context {DB : Type} `{KV : PebbleKV DB} `{FL : FrameLib} (cfg : Config).

Abbreviation St := (Store DB).

(** *** Field updates *)

Definition set_alloc (a : Allocator) (s : St) : St :=
  mkStore a (s_dir s) (s_index s) (s_ckpt s) (s_overlay s) (s_streamSeq s) (s_nextSeg s)
    (s_pub s) (s_safeSeq s) (s_applyCh s) (s_locCache s) (s_segCache s) (s_events s)
    (s_syncCalls s) (s_closing s).
Definition set_dir (d : gmap Z (list Z)) (s : St) : St :=
  mkStore (s_alloc s) d (s_index s) (s_ckpt s) (s_overlay s) (s_streamSeq s) (s_nextSeg s)
    (s_pub s) (s_safeSeq s) (s_applyCh s) (s_locCache s) (s_segCache s) (s_events s)
    (s_syncCalls s) (s_closing s).
Definition set_index (ix : DB) (s : St) : St :=
  mkStore (s_alloc s) (s_dir s) ix (s_ckpt s) (s_overlay s) (s_streamSeq s) (s_nextSeg s)
    (s_pub s) (s_safeSeq s) (s_applyCh s) (s_locCache s) (s_segCache s) (s_events s)
    (s_syncCalls s) (s_closing s).
Definition set_ckpt (c : ckpt_dir) (s : St) : St :=
  mkStore (s_alloc s) (s_dir s) (s_index s) c (s_overlay s) (s_streamSeq s) (s_nextSeg s)
    (s_pub s) (s_safeSeq s) (s_applyCh s) (s_locCache s) (s_segCache s) (s_events s)
    (s_syncCalls s) (s_closing s).
Definition set_overlay (o : Overlay) (s : St) : St :=
  mkStore (s_alloc s) (s_dir s) (s_index s) (s_ckpt s) o (s_streamSeq s) (s_nextSeg s)
    (s_pub s) (s_safeSeq s) (s_applyCh s) (s_locCache s) (s_segCache s) (s_events s)
    (s_syncCalls s) (s_closing s).
Definition set_streamSeq (n : Z) (s : St) : St :=
  mkStore (s_alloc s) (s_dir s) (s_index s) (s_ckpt s) (s_overlay s) n (s_nextSeg s)
    (s_pub s) (s_safeSeq s) (s_applyCh s) (s_locCache s) (s_segCache s) (s_events s)
    (s_syncCalls s) (s_closing s).
Definition set_nextSeg (n : Z) (s : St) : St :=
  mkStore (s_alloc s) (s_dir s) (s_index s) (s_ckpt s) (s_overlay s) (s_streamSeq s) n
    (s_pub s) (s_safeSeq s) (s_applyCh s) (s_locCache s) (s_segCache s) (s_events s)
    (s_syncCalls s) (s_closing s).
Definition set_pub (p : publication) (s : St) : St :=
  mkStore (s_alloc s) (s_dir s) (s_index s) (s_ckpt s) (s_overlay s) (s_streamSeq s)
    (s_nextSeg s) p (s_safeSeq s) (s_applyCh s) (s_locCache s) (s_segCache s) (s_events s)
    (s_syncCalls s) (s_closing s).
Definition set_safeSeq_ (n : Z) (s : St) : St :=
  mkStore (s_alloc s) (s_dir s) (s_index s) (s_ckpt s) (s_overlay s) (s_streamSeq s)
    (s_nextSeg s) (s_pub s) n (s_applyCh s) (s_locCache s) (s_segCache s) (s_events s)
    (s_syncCalls s) (s_closing s).
Definition set_applyCh (q : list (list Mutation)) (s : St) : St :=
  mkStore (s_alloc s) (s_dir s) (s_index s) (s_ckpt s) (s_overlay s) (s_streamSeq s)
    (s_nextSeg s) (s_pub s) (s_safeSeq s) q (s_locCache s) (s_segCache s) (s_events s)
    (s_syncCalls s) (s_closing s).
Definition set_locCache (c : LocationCache (list Z) Value) (s : St) : St :=
  mkStore (s_alloc s) (s_dir s) (s_index s) (s_ckpt s) (s_overlay s) (s_streamSeq s)
    (s_nextSeg s) (s_pub s) (s_safeSeq s) (s_applyCh s) c (s_segCache s) (s_events s)
    (s_syncCalls s) (s_closing s).
Definition set_segCache (c : @SegmentDescriptorCache Z Z) (s : St) : St :=
  mkStore (s_alloc s) (s_dir s) (s_index s) (s_ckpt s) (s_overlay s) (s_streamSeq s)
    (s_nextSeg s) (s_pub s) (s_safeSeq s) (s_applyCh s) (s_locCache s) c (s_events s)
    (s_syncCalls s) (s_closing s).
Definition add_event (e : change_event) (s : St) : St :=
  mkStore (s_alloc s) (s_dir s) (s_index s) (s_ckpt s) (s_overlay s) (s_streamSeq s)
    (s_nextSeg s) (s_pub s) (s_safeSeq s) (s_applyCh s) (s_locCache s) (s_segCache s)
    (s_events s ++ [e]) (s_syncCalls s) (s_closing s).
Definition count_sync (s : St) : St :=
  mkStore (s_alloc s) (s_dir s) (s_index s) (s_ckpt s) (s_overlay s) (s_streamSeq s)
    (s_nextSeg s) (s_pub s) (s_safeSeq s) (s_applyCh s) (s_locCache s) (s_segCache s)
    (s_events s) (s_syncCalls s + 1) (s_closing s).

(** *** The effect monad *)

Definition M (A : Type) : Type := St -> St * go A.
Definition ret {A} (a : A) : M A := fun s => (s, Ok a).
Definition raise {A} (e : err) : M A := fun s => (s, Err e).
Definition bindM {A B} (c : M A) (k : A -> M B) : M B :=
  fun s => match c s with
           | (s, Ok a) => k a s
           | (s, Err e) => (s, Err e)
           end.
Definition get : M St := fun s => (s, Ok s).
Definition modify (f : St -> St) : M unit := fun s => (f s, Ok tt).
Definition lift {A} (r : go A) : M A := fun s => (s, r).
Definition check (o : option err) : M unit :=
  match o with None => ret tt | Some e => raise e end.
End Store.

Notation "'do!' x ':=' c 'in' k" := (bindM c (fun x => k))
  (at level 10, x pattern, c at level 100, k at level 200,
   format "'[v' 'do!'  x  ':='  c  'in' '/' k ']'") : go_scope.

(** ** Publication *)

(** The advance loop of [publishRecoveryBatch]; every round deletes one ready
    batch, so the size of the map bounds it. *)
Fixpoint publish_advance (fuel : nat) (p : publication) : publication :=
  match fuel with
  | O => p
  | S fuel =>
      match p_readyBatches p !! p_publishedSeq p with
      | None => p
      | Some next =>
          publish_advance fuel
            (mkPublication (pb_seq next) (delete (p_publishedSeq p) (p_readyBatches p))
               (pb_seq next) (p_flushMutations p + pb_mutations next))
      end
  end.

(** [publishRecoveryBatch]: the batch is shared by its members, each call
    counts one of them off. *)
Definition publishRecoveryBatch (b : recoveryPublishBatch) (p : publication) :
    recoveryPublishBatch * publication :=
  let b := mkPublishBatch (pb_previousSeq b) (pb_seq b) (pb_remaining b - 1) (pb_mutations b) in
  if negb (pb_remaining b =? 0) then (b, p) else
  let ready := <[pb_previousSeq b := b]> (p_readyBatches p) in
  (b, publish_advance (S (size ready))
        (mkPublication (p_publishedSeq p) ready (p_flushSeq p) (p_flushMutations p))).

(** [for range batch { s.publishRecoveryBatch(publication) }] *)
Fixpoint publish_members (n : nat) (b : recoveryPublishBatch) (p : publication) : publication :=
  match n with
  | O => p
  | S n => let (b, p) := publishRecoveryBatch b p in publish_members n b p
  end.

(** ** Descriptors of a batch *)

Definition pw_descriptor (pw : pendingWrite) : BatchDescriptor :=
  mkBatchDescriptor (pw_extentID pw) (pw_generation pw) (pw_segID pw) (pw_offset pw)
    (pw_storedLen pw) (pw_logicalLen pw) (pw_payloadCRC pw) (h_Op (pw_header pw)).

(** [descriptorCRC]; the buffer has exactly the size the encoder needs, so
    the panic of the code is [Err]. *)
Definition descriptorCRC (descs : list BatchDescriptor) : go Z :=
  let! (_, crc) := EncodeDescriptors (replicate (length descs * BatchDescriptorSize) 0) descs in
  Ok crc.

(** [batchDescriptorsCRC] *)
Definition batchDescriptorsCRC (batch : list pendingWrite) : go Z :=
  descriptorCRC (map pw_descriptor batch).

Definition pw_framing (pw : pendingWrite) : Z :=
  RecordFraming (pw_storedLen pw) (pw_frameSize pw) (h_FrameCount (pw_header pw)).

(** The value commitBatch publishes for a member. *)
Definition pw_value (pw : pendingWrite) : Value :=
  match pw_publishedValue pw with
  | Some v => v
  | None => mkValue (pw_segID pw) (pw_offset pw) (pw_storedLen pw) (pw_logicalLen pw)
              ExtentDurable (pw_payloadCRC pw)
  end.

(** [Writer.WriteRecordFramed]: the bytes it writes. *)
Definition record_buffer (header : RecordHeader) (frameIndex payload : list Z) (frameSize : Z) :
    go (list Z) :=
  let framing := RecordFraming (h_StoredLen header) frameSize (h_FrameCount header) in
  let! hb := RecordHeader_Encode header (replicate RecordHeaderSize 0) in
  let! (tb, _) := RecordTrailer_Encode (mkRecordTrailer framing 0 0)
                    (replicate RecordTrailerSize 0) in
  Ok (hb ++ frameIndex ++ payload ++ tb).

(** [classForStream] *)
Definition classForStream (streamID : Z) : Z := if streamID =? 0 then SegmentSmall else SegmentData.

Section Commit.
Context {DB : Type} `{KV : PebbleKV DB} (cfg : Config).

Abbreviation St := (Store DB).

(** [s.writer.WriteAt(buf, off)] on the active segment: the [n]-th write of
    the call may fail after some of its bytes. *)
Definition write_active (ev : env) (n : nat) (off : Z) (buf : list Z) : M unit :=
  do! s := @get DB in
  let segID := a_segmentID (s_alloc s) in
  let f := default [] (s_dir s !! segID) in
  match ev_write ev n with
  | None => modify (set_dir (<[segID := writeAt f (Z.to_nat off) buf]> (s_dir s)))
  | Some (k, e) =>
      do! _ := modify (set_dir (<[segID := writeAt f (Z.to_nat off) (take k buf)]> (s_dir s))) in
      raise e
  end.

(** [newActiveSegment] *)
Definition newActiveSegment (ev : env) (n : nat) (class segSize : Z) : M unit :=
  do! s := @get DB in
  let segID := u64 (s_nextSeg s + 1) in
  do! _ := modify (set_nextSeg segID) in
  let hdr := mkSegmentHeader SegmentMagic FormatVersion segID class 0 0 in
  do! hb := lift (SegmentHeader_Encode hdr (replicate SegmentHeaderSize 0)) in
  (* OpenWriter creates the file without truncating an existing one *)
  let f := default [] (s_dir s !! segID) in
  do! _ := modify (set_dir (<[segID := f]> (s_dir s))) in
  do! _ := match ev_write ev n with
           | None => modify (set_dir (<[segID := writeAt f 0 hb]> (s_dir s)))
           | Some (k, e) =>
               do! _ := modify (set_dir (<[segID := writeAt f 0 (take k hb)]> (s_dir s))) in
               raise e
           end in
  do! _ := modify (set_alloc (NewAllocator segID class segSize (ev_now ev))) in
  modify (fun s => set_segCache (SegCache_Pin (s_segCache s) segID) s).

(** [sealActiveLocked]; [WriteFooter] appends, syncs, and is followed by
    another sync, which [ev_sync] decides alike. *)
Definition sealActiveLocked (ev : env) : M unit :=
  do! s := @get DB in
  let a := s_alloc s in
  let footer := mkSegmentFooter SegmentMagic FormatVersion (a_recordCount a)
    (u64 (a_payloadBytes a)) (a_minExtent a) (a_maxExtent a) (a_lastCommitSeq a)
    (a_createdAt a) (ev_now ev) 0 in
  let f := default [] (s_dir s !! a_segmentID a) in
  do! (f', _) := lift (WriteFooter f (a_offset a) footer) in
  do! _ := match ev_footer ev with
           | None => modify (set_dir (<[a_segmentID a := f']> (s_dir s)))
           | Some (k, e) =>
               do! _ := modify (set_dir (<[a_segmentID a := take (length f + k) f']> (s_dir s))) in
               raise e
           end in
  do! _ := check (ev_sync ev) in
  newActiveSegment ev 0 (a_class a) (c_SegmentSize cfg).

(** The reservation pass of [commitBatch]; what it assigned so far stays
    when a reservation is refused. *)
Fixpoint reserve_batch (segID : Z) (batch placed : list pendingWrite) : M (list pendingWrite) :=
  match batch with
  | [] => ret placed
  | pw :: batch =>
      do! s := @get DB in
      do! (off, a) := lift (Reserve (s_alloc s) (pw_framing pw) (pw_extentID pw)
                              (pw_storedLen pw)) in
      do! _ := modify (set_alloc a) in
      do! _ := modify (set_streamSeq (u64 (s_streamSeq s + 1))) in
      reserve_batch segID batch (placed ++ [pw_place pw segID off (s_streamSeq s)])
  end.

(** The append pass: one write per record. *)
Fixpoint write_batch (ev : env) (n : nat) (batch : list pendingWrite) : M unit :=
  match batch with
  | [] => ret tt
  | pw :: batch =>
      do! buf := lift (record_buffer (pw_header pw) (pw_idxBuf pw) (pw_stored pw)
                         (pw_frameSize pw)) in
      do! _ := write_active ev n (pw_offset pw) buf in
      write_batch ev (S n) batch
  end.

(** [for _, pw := range batch { s.overlay.Put(...) }] *)
Definition publish_overlay (batch : list pendingWrite) (o : Overlay) : Overlay :=
  fold_left (fun o pw => Overlay_Put o (Key (pw_extentID pw) (pw_generation pw)) (pw_value pw))
    batch o.

Definition batch_required (batch : list pendingWrite) : Z :=
  Z.of_nat BatchCommitSize + foldr Z.add 0 (map pw_framing batch).

Definition batch_fits (a : Allocator) (batch : list pendingWrite) : bool :=
  CanReserveBatch a (batch_required batch)
  && CanReserveRecords a (Z.of_nat (length batch)).

(** Rotation at the head of [commitBatch]. *)
Definition make_room (ev : env) (batch : list pendingWrite) : M unit :=
  do! s := @get DB in
  if batch_fits (s_alloc s) batch then ret tt else
  do! _ := sealActiveLocked ev in
  do! s := @get DB in
  if batch_fits (s_alloc s) batch then ret tt else raise ErrSegmentFull.

(** [commitBatch] once the records are written: the BatchCommit, the one
    sync, and publication. *)
Definition seal_batch (ev : env) (placed : list pendingWrite) (commitOffset : Z) :
    M (list pendingWrite) :=
  match placed with
  | [] => raise (GoPanic "index out of range")
  | first :: _ =>
      do! s := @get DB in
      do! crc := lift (batchDescriptorsCRC placed) in
      let seq := s_streamSeq s in
      let bc := mkBatchCommit BatchCommitMagic FormatVersion (c_StreamID cfg) seq
                  (u32 (Z.of_nat (length placed))) (pw_offset first) commitOffset crc 0 in
      do! buf := lift (BatchCommit_Encode bc (replicate BatchCommitSize 0)) in
      do! _ := write_active ev (length placed) commitOffset buf in
      do! _ := check (ev_fault ev CrashAfterBatchCommitWrite) in
      do! _ := check (ev_sync ev) in
      do! _ := modify count_sync in
      do! _ := check (ev_fault ev CrashAfterBatchSync) in
      do! _ := modify (fun s => set_alloc (RecordCommit (s_alloc s) seq) s) in
      let n := Z.of_nat (length placed) in
      let publication := mkPublishBatch (u64 (seq - n)) seq n n in
      do! _ := check (ev_fault ev CrashBeforeOverlayApply) in
      do! _ := modify (fun s => set_overlay (publish_overlay placed (s_overlay s)) s) in
      do! _ := check (ev_fault ev CrashAfterOverlayApply) in
      do! _ := modify (fun s => set_pub (publish_members (length placed) publication (s_pub s)) s) in
      ret placed
  end.

(** [commitBatch]: the members with their place and sequence filled in. *)
Definition commitBatch (ev : env) (batch : list pendingWrite) : M (list pendingWrite) :=
  do! _ := make_room ev batch in
  do! s := @get DB in
  let segID := a_segmentID (s_alloc s) in
  do! placed := reserve_batch segID batch [] in
  do! s := @get DB in
  do! (commitOffset, a) := lift (ReserveCommit (s_alloc s) (Z.of_nat BatchCommitSize)) in
  do! _ := modify (set_alloc a) in
  do! _ := write_batch ev 0 placed in
  do! _ := check (ev_fault ev CrashAfterRecordAppend) in
  seal_batch ev placed commitOffset.
End Commit.

(** ** Requests *)

Record WriteRequest := mkWriteRequest { wr_ExtentID : Z; wr_Generation : Z; wr_Data : list Z }.
Record ReadRequest := mkReadRequest {
  rr_ExtentID : Z; rr_Generation : Z; rr_LogicalOffset : Z; rr_Length : Z
}.
Record ReadResult := mkReadResult { rres_Data : list Z; rres_Checksum : Z }.

(** [checksumOf] *)
Definition checksumOf (data : list Z) : Z := CRC32C data.

Section Requests.
Context {DB : Type} `{KV : PebbleKV DB} `{FL : FrameLib} (cfg : Config).

Abbreviation St := (Store DB).

(** [enter] *)
Definition enter : M unit :=
  do! s := @get DB in if s_closing s then raise ErrStoreClosed else ret tt.

(** [lookup]: overlay first, then the index. *)
Definition lookup_value (s : St) (extentID generation : Z) : go Value :=
  match Overlay_Get (s_overlay s) (Key extentID generation) with
  | Some v => Ok v
  | None => Index_Get (s_index s) extentID generation
  end.

(** [cachedLookup] *)
Definition cachedLookup (extentID generation : Z) : M Value :=
  let key := Key extentID generation in
  do! s := @get DB in
  let (hit, c) := LocationCache_Get (s_locCache s) key in
  do! _ := modify (set_locCache c) in
  match hit with
  | Some v => ret v
  | None =>
      do! v := lift (lookup_value s extentID generation) in
      do! _ := modify (fun s => set_locCache (LocationCache_Put (s_locCache s) key v) s) in
      ret v
  end.

(** [applyNow] *)
Definition applyNow (muts : list Mutation) : M unit :=
  do! s := @get DB in
  do! ix := lift (put_all (s_index s) muts) in
  modify (set_index ix).

(** [enqueueApply]; the channel holds 256 entries, a full one makes the
    caller apply. *)
Definition applyChCap : nat := 256.

Definition enqueueApply (ev : env) (muts : list Mutation) : M unit :=
  if c_disableAsyncApply cfg then ret tt else
  do! _ := check (ev_fault ev CrashAfterAck) in
  do! s := @get DB in
  if (length (s_applyCh s) <? applyChCap)%nat
  then modify (set_applyCh (s_applyCh s ++ [muts]))
  else applyNow muts.

(** One receive of [applyLoop]; its error is dropped. *)
Definition apply_one_queued (s : St) : St :=
  match s_applyCh s with
  | [] => s
  | muts :: q => (applyNow muts (set_applyCh q s)).1
  end.

(** The active encryption key, [None] when encryption is off. *)
Definition active_key : go (option (list Z) * Z) :=
  match c_activeKey cfg with
  | None => Ok (None, 0)
  | Some r => let! (kid, key) := r in Ok (Some key, kid)
  end.

(** [receiptFor] *)
Definition receiptFor (s : St) (req : WriteRequest) (v : Value) : DurableReceipt :=
  mkReceipt (wr_ExtentID req) (wr_Generation req) (v_SegmentID v) (v_Offset v)
    (v_StoredLen v) (v_LogicalLen v) (s_streamSeq s).

(** Phase 1 of [Write]: the pending record of a PUT. *)
Definition build_put (ev : env) (req : WriteRequest) : go pendingWrite :=
  let data := wr_Data req in
  let compressed := ShouldCompress (Z.of_nat (length data)) (SampledBytes data 4096) in
  let! (encKey, keyID) := active_key in
  let! (stored, entries, codec) :=
    BuildFramedRecord data DefaultFrameSize compressed encKey (ev_nonce ev) in
  let! (idxBuf, fiCRC) :=
    FrameIndex_Encode entries (replicate (length entries * FrameIndexEntrySize) 0) in
  match ev_fault ev CrashAfterFrameIndex with
  | Some e => Err e
  | None =>
      let storedLen := u32 (Z.of_nat (length stored)) in
      let logicalLen := u32 (Z.of_nat (length data)) in
      let header := mkRecordHeader RecordMagic FormatVersion RecordPut (wr_ExtentID req)
        (wr_Generation req) logicalLen storedLen codec keyID (u16 DefaultFrameSize)
        (u16 (Z.of_nat (length entries))) (checksumOf data) 0 fiCRC in
      Ok (mkPendingWrite (wr_ExtentID req) (wr_Generation req) header idxBuf stored
            DefaultFrameSize storedLen logicalLen (checksumOf data) None 0 0 0)
  end.

(** [Write] up to [Submit]: either the receipt of an idempotent retry or a
    pending record for the coordinator. *)
Definition Write_prepare (ev : env) (req : WriteRequest) : M (DurableReceipt + pendingWrite) :=
  do! _ := enter in
  do! s := @get DB in
  match lookup_value s (wr_ExtentID req) (wr_Generation req) with
  | Ok v =>
      if v_Checksum v =? checksumOf (wr_Data req) then ret (inl (receiptFor s req v))
      else raise ErrStaleGeneration
  | Err e =>
      if bool_decide (e = ErrExtentNotFound) then
        do! _ := check (ev_fault ev CrashBeforeBatchAppend) in
        do! pw := lift (build_put ev req) in
        ret (inr pw)
      else raise e
  end.

Definition mutation_of (pw : pendingWrite) (v : Value) : Mutation :=
  mkMutation (pw_extentID pw) (pw_generation pw) v.

(** [Write] after its batch committed; the enqueue's error is dropped. *)
Definition Write_finish (ev : env) (pw : pendingWrite) : M DurableReceipt :=
  do! _ := (fun s => ((enqueueApply ev [mutation_of pw
             (mkValue (pw_segID pw) (pw_offset pw) (pw_storedLen pw) (pw_logicalLen pw)
                ExtentDurable (pw_payloadCRC pw))] s).1, Ok tt)) in
  ret (mkReceipt (pw_extentID pw) (pw_generation pw) (pw_segID pw) (pw_offset pw)
         (pw_storedLen pw) (pw_logicalLen pw) (pw_streamSeq pw)).

(** [Write] as the only member of its batch. *)
Definition Write (ev : env) (req : WriteRequest) : M DurableReceipt :=
  do! p := Write_prepare ev req in
  match p with
  | inl receipt => ret receipt
  | inr pw =>
      do! placed := commitBatch cfg ev [pw] in
      match placed with
      | [pw] => Write_finish ev pw
      | _ => raise (GoPanic "batch")
      end
  end.

Definition tombstone_of (v : Value) : Value :=
  mkValue (v_SegmentID v) (v_Offset v) (v_StoredLen v) (v_LogicalLen v) ExtentTombstoned
    (v_Checksum v).

(** The zero-frame delete record of [Delete]. *)
Definition delete_pending (extentID generation : Z) (v : Value) : pendingWrite :=
  mkPendingWrite extentID generation
    (mkRecordHeader RecordMagic FormatVersion RecordDelete extentID generation
       0 0 0 0 0 0 0 0 (CRC32C []))
    [] [] DefaultFrameSize 0 0 0 (Some (tombstone_of v)) 0 0 0.

(** [Delete] up to [Submit]; deleting what is not there is done already. *)
Definition Delete_prepare (extentID generation : Z) : M (option pendingWrite) :=
  do! _ := enter in
  do! s := @get DB in
  match lookup_value s extentID generation with
  | Err e => if bool_decide (e = ErrExtentNotFound) then ret None else raise e
  | Ok v => ret (Some (delete_pending extentID generation v))
  end.

(** [Delete] after its batch committed. *)
Definition Delete_finish (ev : env) (pw : pendingWrite) : M unit :=
  let tombstone := pw_value pw in
  let key := Key (pw_extentID pw) (pw_generation pw) in
  do! _ := modify (fun s => set_locCache (LocationCache_Put (s_locCache s) key tombstone) s) in
  enqueueApply ev [mutation_of pw tombstone].

(** [Delete] as the only member of its batch. *)
Definition Delete (ev : env) (extentID generation : Z) : M unit :=
  do! p := Delete_prepare extentID generation in
  match p with
  | None => ret tt
  | Some pw =>
      do! placed := commitBatch cfg ev [pw] in
      match placed with
      | [pw] => Delete_finish ev pw
      | _ => raise (GoPanic "batch")
      end
  end.

(** [Stat] *)
Definition Stat (extentID generation : Z) : M Value :=
  do! _ := enter in
  do! s := @get DB in
  lift (lookup_value s extentID generation).

(** [OpenReaderWithEnc]: a file with an encoded footer must validate; the
    reader remembers the size. *)
Definition open_segment (dir : gmap Z (list Z)) (id : Z) : go Z :=
  match dir !! id with
  | None => Err (ErrIO "no such file")
  | Some f =>
      let! sealed := hasEncodedSegmentFooter f in
      let! _ := (match sealed with
                 | true => let! _ := ValidateSealedSegment f in Ok tt
                 | false => Ok tt
                 end) in
      Ok (file_size f)
  end.

(** [Read] *)
Definition Read (req : ReadRequest) : M ReadResult :=
  do! _ := enter in
  do! v := cachedLookup (rr_ExtentID req) (rr_Generation req) in
  if v_State v =? ExtentTombstoned then raise ErrExtentNotFound else
  if v_State v =? ExtentCorrupt then raise ErrQuarantined else
  do! s := @get DB in
  let (r, c) := SegCache_Get (open_segment (s_dir s)) (s_segCache s) (v_SegmentID v) in
  do! _ := modify (set_segCache c) in
  match r with
  | Err _ => raise ErrSegmentUnavailable
  | Ok size =>
      let rd := mkReader (default [] (s_dir s !! v_SegmentID v)) size (c_resolve cfg) in
      let r :=
        if 0 <? rr_Length req
        then ReadRangeFrames rd (v_Offset v) (v_StoredLen v) (v_LogicalLen v)
               (rr_LogicalOffset req) (rr_Length req)
        else ReadPayloadFrames rd (v_Offset v) (v_StoredLen v) (v_LogicalLen v) in
      match r with
      | Ok payload => ret (mkReadResult payload (v_Checksum v))
      | Err e =>
          do! _ := (if errors_Is e ErrChecksumMismatch || errors_Is e ErrDecryptFailed
                    then modify (add_event (EventCorrupt (rr_ExtentID req) (rr_Generation req)
                                              (v_SegmentID v)))
                    else ret tt) in
          raise e
      end
  end.
End Requests.

(** ** Compaction interface *)

Section Compaction.
Context {DB : Type} `{KV : PebbleKV DB} `{FL : FrameLib} (cfg : Config).

Abbreviation St := (Store DB).

(** The reservation of [AppendRecord], with one rotation when it is full. *)
Definition reserve_append (ev : env) (framing extentID storedLen : Z) : M Z :=
  do! s := @get DB in
  match Reserve (s_alloc s) framing extentID storedLen with
  | Ok (off, a) => do! _ := modify (set_alloc a) in ret off
  | Err e =>
      if bool_decide (e = ErrSegmentFull) then
        do! _ := sealActiveLocked cfg ev in
        do! s := @get DB in
        do! (off, a) := lift (Reserve (s_alloc s) framing extentID storedLen) in
        do! _ := modify (set_alloc a) in
        ret off
      else raise e
  end.

(** [AppendRecord] *)
Definition AppendRecord (ev : env) (extentID gen : Z) (data : list Z) (codec : Z) : M Reloc :=
  do! _ := enter in
  do! (encKey, keyID) := lift (active_key cfg) in
  do! (stored, entries, _) :=
    lift (BuildFramedRecord data DefaultFrameSize (codec =? CompressionZstd) encKey
            (ev_nonce ev)) in
  let storedLen := u32 (Z.of_nat (length stored)) in
  let frameCount := Z.of_nat (length entries) in
  let framing := u32 (Z.of_nat RecordHeaderSize
                      + u32 (frameCount * Z.of_nat FrameIndexEntrySize) + storedLen
                      + Z.of_nat RecordTrailerSize) in
  do! off := reserve_append ev framing extentID storedLen in
  do! s := @get DB in
  do! (_, a) := lift (ReserveCommit (s_alloc s) (Z.of_nat BatchCommitSize)) in
  do! _ := modify (set_alloc a) in
  let segID := a_segmentID a in
  let streamSeq := s_streamSeq s in
  do! _ := modify (set_streamSeq (u64 (streamSeq + 1))) in
  let logicalLen := u32 (Z.of_nat (length data)) in
  do! (idxBuf, fiCRC) :=
    lift (FrameIndex_Encode entries (replicate (length entries * FrameIndexEntrySize) 0)) in
  let header := mkRecordHeader RecordMagic FormatVersion RecordPut extentID gen logicalLen
    storedLen codec keyID (u16 DefaultFrameSize) (u16 frameCount) (checksumOf data) 0 fiCRC in
  do! buf := lift (record_buffer header idxBuf stored DefaultFrameSize) in
  do! _ := write_active ev 0 off buf in
  let commitOffset := off + framing in
  do! crc := lift (descriptorCRC [mkBatchDescriptor extentID gen segID off storedLen logicalLen
                                    (checksumOf data) RecordPut]) in
  let bc := mkBatchCommit BatchCommitMagic FormatVersion (c_StreamID cfg) (u64 (streamSeq + 1))
              1 off commitOffset crc 0 in
  do! buf := lift (BatchCommit_Encode bc (replicate BatchCommitSize 0)) in
  do! _ := write_active ev 1 commitOffset buf in
  do! _ := check (ev_sync ev) in
  let v := mkValue segID off storedLen logicalLen ExtentDurable (checksumOf data) in
  do! _ := modify (fun s => set_overlay (Overlay_Put (s_overlay s) (Key extentID gen) v) s) in
  do! _ := modify (fun s => set_pub (publishRecoveryBatch
             (mkPublishBatch streamSeq (u64 (streamSeq + 1)) 1 1) (s_pub s)).2 s) in
  do! _ := (fun s => ((enqueueApply cfg ev [mkMutation extentID gen v] s).1, Ok tt)) in
  do! _ := modify (fun s => set_alloc (RecordCommit (s_alloc s) (u64 (streamSeq + 1))) s) in
  ret (mkReloc extentID gen segID off storedLen logicalLen (checksumOf data)).

(** The body of [Relocate] for one record. *)
Definition relocate_one (r : Reloc) (s : St) : St :=
  let key := Key (rl_ExtentID r) (rl_Generation r) in
  let dead := match Overlay_Get (s_overlay s) key with
              | Some v => v_State v =? ExtentTombstoned
              | None => false
              end in
  if dead then s else
  let v := mkValue (rl_SegmentID r) (rl_Offset r) (rl_StoredLen r) (rl_LogicalLen r)
             ExtentDurable (rl_Checksum r) in
  add_event (EventRelocated (rl_ExtentID r) (rl_Generation r) (rl_SegmentID r))
    (set_locCache (LocationCache_Delete (s_locCache s) key)
       (set_overlay (Overlay_Put (s_overlay s) key v) s)).

(** [Relocate] *)
Definition Relocate (relocs : list Reloc) : M unit :=
  do! _ := enter in
  modify (fun s => fold_left (fun s r => relocate_one r s) relocs s).
End Compaction.

(** ** Flush *)

Section Flush.
Context {DB : Type} `{KV : PebbleKV DB} (cfg : Config).

(** [writeIndexSafeLocked] *)
Definition writeIndexSafeLocked (ev : env) (safeSeq : Z) : M RecoveryCheckpoint :=
  do! (body, _) := lift (CommitRecord_Encode (index_safe_record safeSeq)
                           (replicate CommitRecordSize 0)) in
  do! s := @get DB in
  do! tail := lift (CurrentTail (s_alloc s)) in
  do! _ := write_active ev 0 tail body in
  do! _ := check (ev_sync ev) in
  do! _ := modify (fun s => set_alloc (Consume (s_alloc s) (Z.of_nat CommitRecordSize)) s) in
  ret (mkRecoveryCheckpoint 0 (c_StreamID cfg) (a_segmentID (s_alloc s))
         (tail + Z.of_nat CommitRecordSize) safeSeq).

(** Everything of [flush] between [Drain] and [DiscardDrained]; an error
    here makes [flush] restore the overlay. *)
Definition flush_checkpoint (ev : env) (safe : Z) (muts : list Mutation) : M unit :=
  do! _ := applyNow muts in
  do! _ := check (ev_index_flush ev) in
  do! cp := writeIndexSafeLocked ev safe in
  do! s := @get DB in
  let (states, r) := StoreRecoveryCheckpoint (s_ckpt s) (ev_ckpt ev) cp in
  do! _ := modify (set_ckpt (default (s_ckpt s) (last states))) in
  lift r.

(** [flush] *)
Definition flush (ev : env) : M unit :=
  do! s := @get DB in
  let safe := p_flushSeq (s_pub s) in
  let pending := p_flushMutations (s_pub s) in
  let (muts, o) := Overlay_Drain (s_overlay s) in
  do! _ := modify (set_overlay o) in
  match muts with
  | [] => ret tt
  | _ =>
      fun s =>
        match flush_checkpoint ev safe muts s with
        | (s, Err e) => (set_overlay (Overlay_RestoreDrained (s_overlay s)) s, Err e)
        | (s, Ok _) =>
            let p := s_pub s in
            (set_pub (mkPublication (p_publishedSeq p) (p_readyBatches p) (p_flushSeq p)
                        (p_flushMutations p - pending))
               (set_safeSeq_ safe
                  (set_overlay (Overlay_DiscardDrained (s_overlay s)) s)), Ok tt)
        end
  end.
End Flush.

(** ** Enumeration *)

Record LiveExtent := mkLiveExtent { le_ExtentID : Z; le_Generation : Z; le_Value : Value }.

(** [update] of [ListExtents] *)
Definition merge_extent (merged : gmap Z LiveExtent) (e : LiveExtent) : gmap Z LiveExtent :=
  match merged !! le_ExtentID e with
  | None => <[le_ExtentID e := e]> merged
  | Some cur => if le_Generation cur <? le_Generation e then <[le_ExtentID e := e]> merged
                else merged
  end.

(** [ListExtents]; a Go map has no order, so the result is the merged map
    without its tombstones. *)
Definition ListExtents {DB} `{PebbleKV DB} : M (DB := DB) (gmap Z LiveExtent) :=
  do! _ := enter in
  do! s := get in
  let from_overlay :=
    fold_left (fun merged kv =>
        if (length kv.1 <? KeyLen)%nat then merged else
        merge_extent merged (mkLiveExtent (ExtentFromKey kv.1) (GenerationFromKey kv.1) kv.2))
      (map_to_list (Overlay_Snapshot (s_overlay s))) ∅ in
  do! merged := lift (Iterate (fun merged id gen v => Ok (merge_extent merged (mkLiveExtent id gen v)))
                        (s_index s) from_overlay) in
  ret (filter (fun kv => v_State (le_Value kv.2) <> ExtentTombstoned) merged).

(** ** Startup *)

(** What survives a crash: the segment files, the index and its sidecars. *)
Record Disk (DB : Type) := mkDisk {
  d_dir : gmap Z (list Z); d_index : DB; d_ckpt : ckpt_dir
}.
Arguments mkDisk {DB}. Arguments d_dir {DB}. Arguments d_index {DB}. Arguments d_ckpt {DB}.

Definition disk_of {DB} (s : Store DB) : Disk DB := mkDisk (s_dir s) (s_index s) (s_ckpt s).

(** The recovery policy and clock of a startup; [su_late n] says whether the
    [n]-th deadline check after the replay is past the deadline. *)
Record startup := mkStartup {
  su_maxRecords : Z; su_maxReplayBytes : Z; su_maxTrailingBytes : Z; su_clock : nat -> Z;
  su_startedAt : Z; su_deadline : Z; su_late : nat -> bool
}.

(** [maxSegmentID] *)
Definition maxSegmentID (dir : gmap Z (list Z)) : Z := foldr Z.max 0 (map fst (map_to_list dir)).

(** The callback of [recoverActiveSegment]. *)
Definition recover_apply (o : Overlay) (d : CommitDescriptor) : go Overlay :=
  let put state :=
    Ok (Overlay_Put o (Key (bd_ExtentID d) (bd_Generation d))
          (mkValue (bd_SegmentID d) (bd_Offset d) (bd_StoredLen d) (bd_LogicalLen d) state
             (bd_Checksum d))) in
  if bd_Op d =? RecordPut then put ExtentDurable
  else if bd_Op d =? RecordDelete then put ExtentTombstoned
  else if bd_Op d =? RecordRelocate then Ok o
  else Err (Wrapf "op" ErrUnsupportedRecordOperation).

Section Startup.
Context {DB : Type} `{KV : PebbleKV DB} (cfg : Config) (su : startup).

Abbreviation St := (Store DB).

(** A store over a disk, before recovery. *)
Definition open_store (d : Disk DB) : St :=
  mkStore (NewAllocator 0 (classForStream (c_StreamID cfg)) (c_SegmentSize cfg) 0) (d_dir d)
    (d_index d) (d_ckpt d) NewOverlay 0 0 (mkPublication 0 ∅ 0 0) 0 [] (NewLocationCache 0)
    (NewSegmentDescriptorCache 0) [] 0 false.

Definition check_deadline (n : nat) : M (DB := DB) unit :=
  if su_late su n then raise ErrRecoveryBudgetExceeded else ret tt.

(** The options [recoverActiveSegment] passes for a checkpoint. *)
Definition recover_options (checkpoint : option RecoveryCheckpoint) (segID : Z) :
    RecoverOptions :=
  let '(safeOffset, safeSeq) :=
    match checkpoint with
    | Some c => if rcp_SegmentID c =? segID then (rcp_SafeOffset c, rcp_SafeSeq c)
                else (Z.of_nat SegmentHeaderSize, 0)
    | None => (Z.of_nat SegmentHeaderSize, 0)
    end in
  mkRecoverOptions (c_StreamID cfg) safeOffset safeSeq
    (Z.of_nat SegmentHeaderSize <? safeOffset) (su_maxRecords su) (su_maxReplayBytes su)
    (su_maxTrailingBytes su) (su_clock su) (Some (su_deadline su)) (Some (su_startedAt su)).

(** [recoverActiveSegment] on segment [segID]; a missing file is a no-op. *)
Definition recoverActiveSegment (checkpoint : option RecoveryCheckpoint) (segID : Z) : M unit :=
  do! s := @get DB in
  match s_dir s !! segID with
  | None => check_deadline 0
  | Some f =>
      let out := RecoverFromSegmentLog (Some recover_apply) segID f
                   (recover_options checkpoint segID) (s_overlay s) in
      do! _ := modify (set_dir (<[segID := out_file out]> (s_dir s))) in
      do! _ := modify (set_overlay (out_acc out)) in
      do! _ := check (out_err out) in
      match out_result out with
      | None => ret tt
      | Some res =>
          do! _ := (if 0 <? rr_SafeSeq res then modify (set_safeSeq_ (rr_SafeSeq res))
                    else ret tt) in
          do! _ := (if s_streamSeq s <? rr_LastSeq res
                    then modify (set_streamSeq (rr_LastSeq res)) else ret tt) in
          if 0 <? rr_LastSeq res then
            modify (fun s => set_pub (mkPublication (rr_LastSeq res) (p_readyBatches (s_pub s))
                                        (rr_LastSeq res) (p_flushMutations (s_pub s))) s)
          else ret tt
      end
  end.

(** [persistRecoveredOverlay] *)
Definition persistRecoveredOverlay (ev : env) (segID : Z) : M unit :=
  do! s := @get DB in
  do! _ := check_deadline 1 in
  if (Overlay_Len (s_overlay s) =? 0)%nat then ret tt else
  match s_dir s !! segID with
  | None => raise (ErrIO "no such file")
  | Some f =>
      if file_size f <? Z.of_nat SegmentHeaderSize
      then raise (Errorf "storage: recovered segment shorter than header") else
      let a := NewAllocator segID (classForStream (c_StreamID cfg)) (c_SegmentSize cfg)
                 (ev_now ev) in
      let a := Consume a (file_size f - Z.of_nat SegmentHeaderSize) in
      do! _ := modify (set_alloc (RecordCommit a (s_streamSeq s))) in
      do! _ := flush cfg ev in
      check_deadline 2
  end.

(** [New] *)
Definition New_run (ev : env) : M unit :=
  do! s := @get DB in
  do! checkpoint := lift (LoadRecoveryCheckpoint (s_ckpt s) (c_StreamID cfg)) in
  let active := maxSegmentID (s_dir s) in
  do! _ := recoverActiveSegment checkpoint active in
  do! _ := persistRecoveredOverlay ev active in
  do! s := @get DB in
  do! _ := modify (set_nextSeg (maxSegmentID (s_dir s))) in
  do! _ := newActiveSegment ev 1 (classForStream (c_StreamID cfg)) (c_SegmentSize cfg) in
  check_deadline 3.

Definition New (ev : env) (d : Disk DB) : St * go unit := New_run ev (open_store d).

(** [closeInternal] once the coordinator and the flush loop stopped: the
    final flush, the queued applies, and the last drain. *)
Fixpoint drain_queue (n : nat) (s : St) : St :=
  match n with O => s | S n => drain_queue n (apply_one_queued s) end.

Definition closeInternal (ev : env) (s : St) : St * go unit :=
  let s := mkStore (s_alloc s) (s_dir s) (s_index s) (s_ckpt s) (s_overlay s) (s_streamSeq s)
             (s_nextSeg s) (s_pub s) (s_safeSeq s) (s_applyCh s) (s_locCache s) (s_segCache s)
             (s_events s) (s_syncCalls s) true in
  let s := (flush cfg ev s).1 in
  let s := drain_queue (length (s_applyCh s)) s in
  let (muts, o) := Overlay_Drain (s_overlay s) in
  let s := set_overlay o s in
  match muts with
  | [] => (s, Ok tt)
  | _ => match applyNow muts s with
         | (s, Err e) => (s, Err e)
         | (s, Ok _) => (set_overlay (Overlay_DiscardDrained (s_overlay s)) s, Ok tt)
         end
  end.
End Startup.
