(* ===== verification/StoreProofs.v ===== *)
(** * Group commit extends the log

    What [commitBatch] and [flush] do to the active segment, in terms of the
    abstract log of [SegmentLog.v]: a successful batch appends one [LBatch]
    entry, a successful flush one [LSafe] entry. *)

From stdpp Require Import base list numbers strings gmap.
From Stdlib Require Import ZArith Lia.
From S2P Require Import Prelude Bytes Crc StorageTypes FileIO Record Journal SegmentFile Pebble Index Allocator Overlay Checkpoint Cache Recover SegmentLog LogParse Framing Store.

Local Open Scope Z_scope.
Local Open Scope go_scope.

(** ** Logs grow at the end *)

Definition log_end (off : Z) (es : list log_entry) : Z := off + foldr Z.add 0 (map entry_size es).
Definition log_last (last : Z) (es : list log_entry) : Z := fold_left entry_seq es last.

Lemma log_end_app off es fs : log_end off (es ++ fs) = log_end (log_end off es) fs.
Proof.
  unfold log_end. rewrite map_app, foldr_app.
  assert (forall l a, foldr Z.add a l = foldr Z.add 0 l + a) as H
    by (induction l; intros; simpl; [lia|rewrite IHl; lia]).
  rewrite H. lia.
Qed.

Lemma log_bytes_app stream segID off es fs :
  log_bytes stream segID off (es ++ fs) =
  log_bytes stream segID off es ++ log_bytes stream segID (log_end off es) fs.
Proof.
  revert off. induction es as [|e es IH]; intros off; cbn [app log_bytes].
  { unfold log_end. cbn. by rewrite Z.add_0_r. }
  rewrite IH, <- app_assoc. do 2 f_equal. unfold log_end. cbn [map foldr].
  by rewrite Z.add_assoc.
Qed.

Lemma file_size_log stream segID off es :
  off + file_size (log_bytes stream segID off es) = log_end off es.
Proof. unfold log_end. by rewrite log_size_app. Qed.

Lemma log_ok_app stream off last es fs :
  log_ok stream off last (es ++ fs) <->
  log_ok stream off last es /\ log_ok stream (log_end off es) (log_last last es) fs.
Proof.
  revert off last. induction es as [|e es IH]; intros off last; cbn [app log_ok].
  { unfold log_end, log_last. cbn. rewrite Z.add_0_r. tauto. }
  rewrite IH. unfold log_end, log_last. cbn [map foldr fold_left]. rewrite Z.add_assoc. tauto.
Qed.

Lemma log_last_app last es fs : log_last last (es ++ fs) = log_last (log_last last es) fs.
Proof. unfold log_last. apply fold_left_app. Qed.

(** ** Monad laws used by the proofs *)

Section MonadLemmas.
Context {DB : Type}.

Lemma bindM_ok {A B} (c : M (DB := DB) A) (k : A -> M B) s s' a :
  c s = (s', Ok a) -> bindM c k s = k a s'.
Proof. unfold bindM. by intros ->. Qed.

Lemma bindM_get {B} (k : Store DB -> M B) s : bindM get k s = k s s.
Proof. done. Qed.

Lemma bindM_modify {B} f (k : unit -> M (DB := DB) B) s : bindM (modify f) k s = k tt (f s).
Proof. done. Qed.

Lemma bindM_lift {A B} (a : A) (k : A -> M (DB := DB) B) s : bindM (lift (Ok a)) k s = k a s.
Proof. done. Qed.

Lemma bindM_check {B} (k : unit -> M (DB := DB) B) s : bindM (check None) k s = k tt s.
Proof. done. Qed.
End MonadLemmas.

(** Run the leading effect of a goal [bindM c k s = _]. *)
Ltac stepM :=
  first [rewrite bindM_get | rewrite bindM_modify | rewrite bindM_lift | rewrite bindM_check].

(** ** Pending writes are records *)

Record pw_ok (pw : pendingWrite) (r : log_record) : Prop := mkPw_ok {
  po_header : pw_header pw = lr_header r;
  po_idx : pw_idxBuf pw = frame_index_bytes (lr_index r);
  po_stored : pw_stored pw = lr_stored r;
  po_storedLen : pw_storedLen pw = h_StoredLen (lr_header r);
  po_logicalLen : pw_logicalLen pw = h_LogicalLen (lr_header r);
  po_crc : pw_payloadCRC pw = h_PayloadChecksum (lr_header r);
  po_extent : pw_extentID pw = h_ExtentID (lr_header r);
  po_gen : pw_generation pw = h_Generation (lr_header r);
  po_wf : lr_wf r
}.

Lemma pw_ok_framing pw r : pw_ok pw r -> pw_framing pw = lr_framing r.
Proof.
  intros P. unfold pw_framing. destruct P as [Hh _ _ Hs _ _ _ _ W].
  destruct (lrw_header r W). pose proof (lrw_bound r W) as Hb. unfold lr_framing in *.
  rewrite Hs, Hh, (lrw_count r W), (lrw_stored r W) in *.
  rewrite RecordFraming_exact by (unfold uintw in *; lia). lia.
Qed.

Lemma pw_ok_buffer pw r :
  pw_ok pw r ->
  record_buffer (pw_header pw) (pw_idxBuf pw) (pw_stored pw) (pw_frameSize pw) = Ok (lr_bytes r).
Proof.
  intros P. pose proof (pw_ok_framing pw r P) as Hf. unfold pw_framing in Hf.
  destruct P as [Hh Hi Hs Hl _ _ _ _ W]. unfold record_buffer.
  rewrite Hl in Hf. rewrite Hh in *. rewrite Hf, Hi, Hs.
  destruct (lrw_current r W) as (_ & _ & Hop).
  rewrite RecordHeader_Encode_bytes by (rewrite ?length_replicate; done). rewrite bind_Ok.
  rewrite RecordTrailer_Encode_bytes by (rewrite length_replicate; done). rewrite bind_Ok.
  rewrite !drop_ge by (rewrite length_replicate; done). by rewrite !app_nil_r.
Qed.

(** Members of a batch at consecutive places. *)
Fixpoint place_all (segID off seq : Z) (batch : list pendingWrite) : list pendingWrite :=
  match batch with
  | [] => []
  | pw :: batch =>
      pw_place pw segID off seq :: place_all segID (off + pw_framing pw) (seq + 1) batch
  end.

Definition pw_request (pw : pendingWrite) : Z * Z * Z :=
  (pw_framing pw, pw_extentID pw, pw_storedLen pw).

Lemma pw_place_ok pw r segID off seq : pw_ok pw r -> pw_ok (pw_place pw segID off seq) r.
Proof. intros []. by constructor. Qed.

Lemma place_all_ok segID off seq batch recs :
  Forall2 pw_ok batch recs -> Forall2 pw_ok (place_all segID off seq batch) recs.
Proof.
  intros H. revert off seq. induction H; intros off seq; cbn; constructor; auto using pw_place_ok.
Qed.

Lemma length_place_all segID off seq batch : length (place_all segID off seq batch) = length batch.
Proof. revert off seq. induction batch; intros; cbn; [done|]. by rewrite IHbatch. Qed.

Lemma place_all_descriptors segID off seq batch recs :
  Forall2 pw_ok batch recs ->
  map pw_descriptor (place_all segID off seq batch) = batch_descriptors segID off recs.
Proof.
  intros H. revert off seq. induction H as [|pw r batch recs P H IH]; intros off seq; [done|].
  cbn [place_all map batch_descriptors]. rewrite IH, (pw_ok_framing pw r P).
  f_equal. destruct P as [Hh _ _ Hs Hl Hc He Hg _]. unfold pw_descriptor, lr_descriptor.
  cbn. by rewrite Hh, Hs, Hl, Hc, He, Hg.
Qed.

Lemma batch_framing_sum batch recs :
  Forall2 pw_ok batch recs -> framing_sum (map pw_request batch) = batch_framing recs.
Proof.
  unfold framing_sum, batch_framing. induction 1 as [|pw r batch recs P H IH]; [done|].
  cbn [map foldr]. rewrite IH. cbn. by rewrite (pw_ok_framing pw r P).
Qed.

Lemma batch_required_sum batch recs :
  Forall2 pw_ok batch recs -> batch_required batch = batch_framing recs + 42.
Proof.
  intros H. unfold batch_required. change (Z.of_nat BatchCommitSize) with 42.
  rewrite <- (batch_framing_sum batch recs H). unfold framing_sum. rewrite map_map.
  change (map (fun x => (pw_request x).1.1) batch) with (map pw_framing batch). lia.
Qed.

Lemma batchDescriptorsCRC_ok placed :
  batchDescriptorsCRC placed = Ok (CRC32C (descriptors_bytes (map pw_descriptor placed))).
Proof.
  unfold batchDescriptorsCRC, descriptorCRC.
  rewrite EncodeDescriptors_bytes by (by rewrite length_replicate). by rewrite bind_Ok.
Qed.

(** ** The stages of [commitBatch] *)

(** Nothing of the call fails. *)
Definition quiet (ev : env) : Prop :=
  (forall p, ev_fault ev p = None) /\ (forall n, ev_write ev n = None) /\ ev_sync ev = None
  /\ ev_index_flush ev = None /\ ev_ckpt ev = io_fine /\ ev_footer ev = None.

Lemma fine_quiet now nonce : quiet (fine now nonce).
Proof. done. Qed.

Section Stages.
Context {DB : Type} `{KV : PebbleKV DB} (cfg : Config) (ev : env) (Hq : quiet ev).

Lemma reserve_batch_ok segID batch placed (s : Store DB) a' :
  reserve_all (s_alloc s) (map pw_request batch)
    = Ok (consecutive (a_offset (s_alloc s)) (map pw_request batch), a') ->
  0 <= s_streamSeq s -> s_streamSeq s + Z.of_nat (length batch) < 2 ^ 62 ->
  reserve_batch segID batch placed s =
  (set_streamSeq (s_streamSeq s + Z.of_nat (length batch)) (set_alloc a' s),
   Ok (placed ++ place_all segID (a_offset (s_alloc s)) (s_streamSeq s) batch)).
Proof.
  revert placed s. induction batch as [|pw batch IH]; intros placed s Hr H0 Hb.
  { cbn in Hr. apply Ok_inj in Hr. simplify_eq. cbn [reserve_batch place_all length].
    unfold ret. rewrite app_nil_r, Z.add_0_r. by destruct s. }
  cbn [map reserve_all] in Hr. unfold pw_request at 1 in Hr.
  apply bind_Ok_inv in Hr as ([off a] & Hr1 & Hr).
  apply bind_Ok_inv in Hr as ([offs a2] & Hr2 & Hr). apply Ok_inj in Hr.
  cbn [consecutive] in Hr. injection Hr as Hoff Hoffs <-.
  assert (a_offset a = a_offset (s_alloc s) + pw_framing pw) as Ha.
  { unfold Reserve in Hr1. ok_inv. injection Hr1 as _ <-. done. }
  cbn [reserve_batch]. stepM. rewrite Hr1. stepM. stepM. stepM.
  cbn [length] in Hb. rewrite wrap_small by (unfold uintw; lia).
  cbn [pw_request fst] in Hoffs. rewrite <- Ha in Hoffs. subst offs off.
  rewrite IH; cbn [set_streamSeq set_alloc s_alloc s_streamSeq length].
  - rewrite <- app_assoc. cbn [place_all app]. rewrite Ha.
    rewrite Nat2Z.inj_succ.
    by replace (s_streamSeq s + 1 + Z.of_nat (length batch)) with
      (s_streamSeq s + Z.succ (Z.of_nat (length batch))) by lia.
  - exact Hr2.
  - lia.
  - lia.
Qed.

Lemma write_active_ok n off buf (s : Store DB) f :
  s_dir s !! a_segmentID (s_alloc s) = Some f -> off = file_size f ->
  write_active ev n off buf s =
  (set_dir (<[a_segmentID (s_alloc s) := f ++ buf]> (s_dir s)) s, Ok tt).
Proof.
  intros Hf ->. destruct Hq as (_ & Hw & _). unfold write_active. stepM. rewrite Hf, Hw.
  unfold modify, file_size. cbn [default]. by rewrite Nat2Z.id, writeAt_end.
Qed.

Lemma write_batch_ok batch recs n segID seq (s : Store DB) f :
  Forall2 pw_ok batch recs -> s_dir s !! a_segmentID (s_alloc s) = Some f ->
  write_batch ev n (place_all segID (file_size f) seq batch) s =
  (set_dir (<[a_segmentID (s_alloc s) := f ++ batch_bytes recs]> (s_dir s)) s, Ok tt).
Proof.
  intros H. revert n seq s f. induction H as [|pw r batch recs P H IH]; intros n seq s f Hf.
  { cbn [place_all write_batch]. unfold ret, batch_bytes. cbn [map concat].
    rewrite app_nil_r, insert_id by done. by destruct s. }
  cbn [place_all write_batch]. cbn [pw_place pw_header pw_idxBuf pw_stored pw_frameSize].
  rewrite (pw_ok_buffer pw r P). stepM.
  rewrite (bindM_ok _ _ _ _ _ (write_active_ok n _ (lr_bytes r) s f Hf eq_refl)).
  set (s1 := set_dir _ s).
  assert (file_size f + pw_framing pw = file_size (f ++ lr_bytes r)) as ->.
  { rewrite file_size_app, (pw_ok_framing pw r P). unfold file_size at 3.
    by rewrite length_lr_bytes. }
  rewrite (IH _ _ s1 (f ++ lr_bytes r)) by (cbn; by rewrite lookup_insert_eq).
  unfold s1, set_dir. cbn. rewrite insert_insert_eq, <- app_assoc. done.
Qed.
End Stages.

(** ** Publication *)

Lemma publish_advance_done fuel p :
  (size (p_readyBatches p) < fuel)%nat ->
  p_readyBatches (publish_advance fuel p) !! p_publishedSeq (publish_advance fuel p) = None.
Proof.
  revert p. induction fuel as [|fuel IH]; intros p Hs; [lia|]. cbn [publish_advance].
  destruct (p_readyBatches p !! p_publishedSeq p) eqn:E; [|done].
  apply IH. cbn. pose proof (map_size_ne_0_lookup_2 (p_readyBatches p) (p_publishedSeq p) ltac:(eauto)).
  rewrite map_size_delete_Some by eauto. lia.
Qed.

Lemma publish_advance_watermark fuel p :
  p_flushSeq p = p_publishedSeq p ->
  p_flushSeq (publish_advance fuel p) = p_publishedSeq (publish_advance fuel p).
Proof.
  revert p. induction fuel as [|fuel IH]; intros p H; [done|]. cbn [publish_advance].
  destruct (_ !! _); [|done]. by apply IH.
Qed.

(** Every member but the last leaves the publication alone. *)
Lemma publish_members_last n b p :
  pb_remaining b = Z.of_nat (S n) ->
  publish_members (S n) b p =
  (publishRecoveryBatch (mkPublishBatch (pb_previousSeq b) (pb_seq b) 1 (pb_mutations b)) p).2.
Proof.
  revert b. induction n as [|n IH]; intros b Hb.
  { destruct b; cbn in *; subst. cbn [publish_members]. by destruct (publishRecoveryBatch _ p). }
  cbn [publish_members].
  assert (publishRecoveryBatch b p =
    (mkPublishBatch (pb_previousSeq b) (pb_seq b) (Z.of_nat (S n)) (pb_mutations b), p)) as ->.
  { unfold publishRecoveryBatch. cbn [pb_remaining]. rewrite Hb.
    replace (Z.of_nat (S (S n)) - 1) with (Z.of_nat (S n)) by lia.
    by rewrite (proj2 (Z.eqb_neq _ 0)) by lia. }
  change (publish_members (S n) (mkPublishBatch (pb_previousSeq b) (pb_seq b) (Z.of_nat (S n))
    (pb_mutations b)) p = (publishRecoveryBatch (mkPublishBatch (pb_previousSeq b) (pb_seq b) 1
    (pb_mutations b)) p).2). by rewrite IH.
Qed.

(** With nothing outstanding, a batch that follows the watermark moves it. *)
Lemma publish_in_order n b p :
  pb_remaining b = Z.of_nat (S n) -> p_readyBatches p = ∅ -> p_publishedSeq p = pb_previousSeq b ->
  pb_seq b <> pb_previousSeq b ->
  publish_members (S n) b p =
  mkPublication (pb_seq b) ∅ (pb_seq b) (p_flushMutations p + pb_mutations b).
Proof.
  intros Hb Hr Hp Hne. rewrite publish_members_last by done. unfold publishRecoveryBatch.
  cbn [pb_remaining pb_previousSeq pb_seq pb_mutations snd]. cbn [Z.sub Z.add Z.opp Z.pos_sub Z.eqb negb].
  rewrite Hr, insert_empty, Hp. cbn [publish_advance p_readyBatches p_publishedSeq].
  rewrite lookup_singleton_eq.
  rewrite map_size_singleton. cbn [publish_advance p_readyBatches p_publishedSeq pb_seq pb_mutations].
  rewrite delete_singleton_eq, lookup_empty. done.
Qed.

(** ** The committed state of a store *)

Section Commit.
Context {DB : Type} `{KV : PebbleKV DB} (cfg : Config).
Let stream := c_StreamID cfg.

(** The active segment holds exactly the log [es] behind its header, the
    allocator's tail is its end, and every committed batch is published. *)
Record store_ok (s : Store DB) (hdr : list Z) (es : list log_entry) : Prop := mkStore_ok {
  so_alloc : alloc_wf (s_alloc s);
  so_hdr : length hdr = SegmentHeaderSize;
  so_hdr_ok : is_ok (SegmentHeader_Decode hdr) = true;
  so_file : s_dir s !! a_segmentID (s_alloc s) =
            Some (hdr ++ log_bytes stream (a_segmentID (s_alloc s)) 22 es);
  so_tail : a_offset (s_alloc s) = log_end 22 es;
  so_log : log_ok stream 22 0 es;
  so_seq : 0 <= log_last 0 es <= s_streamSeq s;
  so_published : p_publishedSeq (s_pub s) = s_streamSeq s;
  so_flushSeq : p_flushSeq (s_pub s) = s_streamSeq s;
  so_ready : p_readyBatches (s_pub s) = ∅
}.

(** What the batch leaves behind. *)
Definition committed (s : Store DB) (batch : list pendingWrite) (recs : list log_record)
    (a : Allocator) (f : list Z) : Store DB :=
  let n := Z.of_nat (length batch) in
  let id := a_segmentID (s_alloc s) in
  let seq := s_streamSeq s + n in
  let placed := place_all id (a_offset (s_alloc s)) (s_streamSeq s) batch in
  mkStore (RecordCommit a seq) (<[id := f]> (s_dir s)) (s_index s) (s_ckpt s)
    (publish_overlay placed (s_overlay s)) seq (s_nextSeg s)
    (mkPublication seq ∅ seq (p_flushMutations (s_pub s) + n)) (s_safeSeq s) (s_applyCh s)
    (s_locCache s) (s_segCache s) (s_events s) (s_syncCalls s + 1) (s_closing s).

Lemma seal_batch_ok ev (s : Store DB) batch recs off seq0 f :
  quiet ev -> Forall2 pw_ok batch recs -> batch <> [] ->
  let id := a_segmentID (s_alloc s) in
  let n := Z.of_nat (length batch) in
  s_dir s !! id = Some f -> file_size f = off + batch_framing recs ->
  0 <= seq0 -> s_streamSeq s = seq0 + n -> seq0 + n < 2 ^ 62 -> n < 2 ^ 32 ->
  p_readyBatches (s_pub s) = ∅ -> p_publishedSeq (s_pub s) = seq0 ->
  let placed := place_all id off seq0 batch in
  seal_batch cfg ev placed (file_size f) s =
  (mkStore (RecordCommit (s_alloc s) (seq0 + n))
     (<[id := f ++ batch_commit_bytes (batch_commit stream id off recs (seq0 + n))]> (s_dir s))
     (s_index s) (s_ckpt s) (publish_overlay placed (s_overlay s)) (s_streamSeq s) (s_nextSeg s)
     (mkPublication (seq0 + n) ∅ (seq0 + n) (p_flushMutations (s_pub s) + n)) (s_safeSeq s)
     (s_applyCh s) (s_locCache s) (s_segCache s) (s_events s) (s_syncCalls s + 1) (s_closing s),
   Ok placed).
Proof.
  intros Hq Hpw Hne id n Hf Hsz H0 Hseq Hb Hn Hr Hp placed.
  pose proof Hq as (Qf & _ & Qs & _).
  assert (length placed = length batch) as Hlp by apply length_place_all.
  assert (exists first placed', placed = first :: placed' /\ pw_offset first = off)
    as (first & placed' & Ep & Hfo)
    by (subst placed; destruct batch; [done|]; cbn [place_all]; eauto).
  unfold seal_batch. rewrite Ep. rewrite <- Ep, Hfo. stepM.
  assert (map pw_descriptor placed = batch_descriptors id off recs) as Hd
    by (by apply place_all_descriptors).
  rewrite batchDescriptorsCRC_ok, Hd. stepM.
  rewrite Hlp, Hseq. fold n. rewrite !wrap_small by (unfold uintw; lia).
  assert (length batch = length recs) as Hlr by (by eapply Forall2_length).
  assert (mkBatchCommit BatchCommitMagic FormatVersion (c_StreamID cfg) (seq0 + n) n off
    (file_size f) (CRC32C (descriptors_bytes (batch_descriptors id off recs))) 0 =
    batch_commit stream id off recs (seq0 + n)) as ->
    by (unfold batch_commit; by rewrite Hsz, <- Hlr).
  rewrite BatchCommit_Encode_bytes, drop_ge, app_nil_r by (rewrite length_replicate; done).
  stepM. rewrite (bindM_ok _ _ s _ _ (write_active_ok ev Hq _ _ _ s f Hf eq_refl)).
  rewrite !Qf, Qs. repeat stepM. unfold ret.
  destruct batch as [|pw batch]; [done|]. cbn [length].
  unfold set_pub, set_overlay, set_alloc, count_sync, set_dir. cbn [s_pub s_alloc s_dir s_index s_ckpt
    s_overlay s_streamSeq s_nextSeg s_safeSeq s_applyCh s_locCache s_segCache s_events
    s_syncCalls s_closing].
  rewrite publish_in_order; cbn [pb_remaining pb_previousSeq pb_seq pb_mutations];
    [by rewrite Hseq|unfold n; cbn [length]; lia|done|lia|unfold n; cbn [length]; lia].
Qed.

Lemma commitBatch_run ev s hdr es batch recs :
  quiet ev -> store_ok s hdr es -> Forall2 pw_ok batch recs -> batch <> [] ->
  batch_fits (s_alloc s) batch = true ->
  s_streamSeq s + Z.of_nat (length batch) < 2 ^ 62 -> Z.of_nat (length batch) < 2 ^ 32 ->
  let seq := s_streamSeq s + Z.of_nat (length batch) in
  let id := a_segmentID (s_alloc s) in
  exists a, a_offset a = log_end 22 (es ++ [LBatch recs seq]) /\ alloc_wf a /\
    a_segmentID a = id /\
    (exists offs a1 off, reserve_all (s_alloc s) (map pw_request batch) = Ok (offs, a1) /\
       ReserveCommit a1 (Z.of_nat BatchCommitSize) = Ok (off, a)) /\
    commitBatch cfg ev batch s =
    (committed s batch recs a (hdr ++ log_bytes stream id 22 (es ++ [LBatch recs seq])),
     Ok (place_all id (a_offset (s_alloc s)) (s_streamSeq s) batch)).
Proof.
  intros Hq [Wa Hl _ Hf Ht Hlog Hseq Hp Hfl Hr] Hpw Hne Hfit Hs62 Hn32 seq id.
  pose proof Hq as (Qf & _).
  assert (0 <= s_streamSeq s) by lia.
  pose proof Hfit as Hfit0. unfold batch_fits in Hfit0.
  apply andb_true_iff in Hfit0 as [F1 F2].
  rewrite (batch_required_sum batch recs Hpw), <- (batch_framing_sum batch recs Hpw) in F1.
  destruct (preflight_reserves (s_alloc s) (map pw_request batch)) as
    (a1 & E1 & W1 & O1 & _ & _ & I1 & _ & a2 & E2 & O2 & _); [done| |exact F1| |].
  { apply Forall_map. clear -Hpw. induction Hpw as [|pw r batch recs P]; constructor; [|done].
    cbn. rewrite (pw_ok_framing _ _ P). unfold lr_framing. lia. }
  { by rewrite length_map. }
  rewrite (batch_framing_sum batch recs Hpw) in O1.
  change (Z.of_nat BatchCommitSize) with 42 in E2, O2.
  set (placed := place_all id (a_offset (s_alloc s)) (s_streamSeq s) batch).
  set (f := hdr ++ log_bytes stream id 22 es) in *.
  assert (file_size f = a_offset (s_alloc s)) as Hsz.
  { unfold f. rewrite file_size_app, Ht, <- (file_size_log stream id).
    unfold file_size at 1. by rewrite Hl. }
  assert (Z.of_nat (length placed) = Z.of_nat (length batch)) as Hlp
    by (unfold placed; by rewrite length_place_all).
  assert (placed <> []) as Hne' by (intros E; rewrite E in Hlp; by destruct batch).
  assert (log_bytes stream id 22 (es ++ [LBatch recs seq]) = log_bytes stream id 22 es
    ++ batch_bytes recs ++ batch_commit_bytes (batch_commit stream id (log_end 22 es) recs seq))
    as Hbytes by (rewrite log_bytes_app; cbn [log_bytes entry_bytes]; by rewrite app_nil_r).
  exists a2. split; [|split; [|split; [|split; [by eexists _, _, _|]]]].
  { rewrite O2, O1, Ht, log_end_app. unfold log_end at 2. cbn. lia. }
  { unfold ReserveCommit in E2. ok_inv. injection E2 as <-. destruct W1. constructor; cbn; try done; lia. }
  { unfold ReserveCommit in E2. ok_inv. injection E2 as <-. done. }
  unfold commitBatch, make_room.
  rewrite (bindM_ok _ _ s s tt) by (rewrite bindM_get, Hfit; done).
  stepM. fold id.
  rewrite (bindM_ok _ _ s _ _ (reserve_batch_ok id batch [] s a1 E1 ltac:(lia) ltac:(lia))).
  cbn [app]. fold placed seq. stepM. cbn [s_alloc set_streamSeq set_alloc].
  change (Z.of_nat BatchCommitSize) with 42. rewrite E2. stepM. stepM.
  set (s2 := set_alloc a2 _).
  assert (a_segmentID a2 = id) as Hid
    by (unfold ReserveCommit in E2; ok_inv; injection E2 as <-; done).
  unfold placed at 1. rewrite <- Hsz.
  rewrite (bindM_ok _ _ s2 _ _ (write_batch_ok ev Hq batch recs 0 id (s_streamSeq s) s2 f Hpw
    ltac:(cbn; rewrite Hid; exact Hf))).
  rewrite Qf. stepM.
  fold placed.
  assert (file_size (f ++ batch_bytes recs) = a_offset a1) as Hsz1.
  { rewrite file_size_app, Hsz, O1. unfold file_size. by rewrite length_batch_bytes. }
  rewrite <- Hsz1. set (s3 := set_dir _ s2).
  pose proof (seal_batch_ok ev s3 batch recs (a_offset (s_alloc s)) (s_streamSeq s)
    (f ++ batch_bytes recs) Hq Hpw Hne) as Hseal. cbn zeta in Hseal.
  assert (a_segmentID (s_alloc s3) = id) as Hid3 by done. rewrite Hid3 in Hseal.
  fold placed in Hseal. rewrite Hseal; clear Hseal.
  - unfold committed. fold id seq placed. rewrite Hbytes. unfold f. rewrite <- Ht.
    unfold s3, s2, set_dir, set_alloc, set_streamSeq. cbn [s_pub s_alloc s_dir s_index s_ckpt
      s_overlay s_streamSeq s_nextSeg s_safeSeq s_applyCh s_locCache s_segCache s_events
      s_syncCalls s_closing].
    rewrite Hid, insert_insert_eq, <- !app_assoc. done.
  - unfold s3. cbn [set_dir s_dir s2 set_alloc s_alloc]. rewrite Hid. apply lookup_insert_eq.
  - by rewrite Hsz1, O1.
  - lia.
  - done.
  - done.
  - done.
  - exact Hr.
  - exact Hp.
Qed.
End Commit.

(** * Failed calls publish nothing

    An error out of [commitBatch] leaves the overlay, the index, the
    checkpoint, the publication watermark and the caches as they were: a
    caller that got an error finds no trace of the batch in any lookup. The
    rules below follow the call structure; they hold for every environment. *)

Section Failures.
Context {DB : Type} `{KV : PebbleKV DB} (cfg : Config).

(** Nothing a lookup, a flush or a restart's index depends on moved. (The
    descriptor cache is not in the list: a rotation pins the new segment.) *)
Record unpublished (s s' : Store DB) : Prop := mkUnpublished {
  up_overlay : s_overlay s' = s_overlay s; up_index : s_index s' = s_index s;
  up_ckpt : s_ckpt s' = s_ckpt s; up_pub : s_pub s' = s_pub s;
  up_safeSeq : s_safeSeq s' = s_safeSeq s; up_queue : s_applyCh s' = s_applyCh s;
  up_cache : s_locCache s' = s_locCache s
}.

#[export] Instance unpublished_preorder : PreOrder unpublished.
Proof.
  split; [by constructor|]. intros s1 s2 s3 [] []. constructor; congruence.
Qed.

(** A computation that publishes nothing, whatever its result. *)
Definition keeps {A} (c : M (DB := DB) A) : Prop := forall s s' r, c s = (s', r) -> unpublished s s'.

(** One that publishes nothing when it fails. *)
Definition clean {A} (c : M (DB := DB) A) : Prop :=
  forall s s' e, c s = (s', Err e) -> unpublished s s'.

Lemma keeps_clean {A} (c : M (DB := DB) A) : keeps c -> clean c.
Proof. intros Hc s s' e E. by eapply Hc. Qed.

Lemma keeps_ret {A} (a : A) : keeps (ret (DB := DB) a).
Proof. intros s s' r [= <- <-]. done. Qed.

Lemma keeps_raise {A} e : keeps (raise (DB := DB) (A := A) e).
Proof. intros s s' r [= <- <-]. done. Qed.

Lemma keeps_lift {A} (x : go A) : keeps (lift (DB := DB) x).
Proof. intros s s' r [= <- <-]. done. Qed.

Lemma keeps_get : keeps (@get DB).
Proof. intros s s' r [= <- <-]. done. Qed.

Lemma keeps_check o : keeps (check (DB := DB) o).
Proof. destruct o; [apply keeps_raise|apply keeps_ret]. Qed.

Lemma keeps_modify f : (forall s, unpublished s (f s)) -> keeps (modify (DB := DB) f).
Proof. intros Hf s s' r [= <- <-]. apply Hf. Qed.

Lemma keeps_bind {A B} (c : M (DB := DB) A) (k : A -> M B) :
  keeps c -> (forall a, keeps (k a)) -> keeps (bindM c k).
Proof.
  intros Hc Hk s s' r E. unfold bindM in E. destruct (c s) as [s1 [a|e]] eqn:E1.
  - transitivity s1; [by eapply Hc|by eapply Hk].
  - simplify_eq. by eapply Hc.
Qed.

Lemma clean_bind {A B} (c : M (DB := DB) A) (k : A -> M B) :
  keeps c -> (forall a, clean (k a)) -> clean (bindM c k).
Proof.
  intros Hc Hk s s' e E. unfold bindM in E. destruct (c s) as [s1 [a|e1]] eqn:E1.
  - transitivity s1; [by eapply Hc|by eapply Hk].
  - simplify_eq. by eapply Hc.
Qed.
End Failures.

#[export] Hint Resolve keeps_ret keeps_raise keeps_lift keeps_get keeps_check : nufs.

(** Walk down a computation of the store monad. *)
Ltac keep :=
  repeat first
    [ solve [auto with nufs]
    | apply keeps_modify; intros; constructor; reflexivity
    | apply keeps_bind; [|intros]
    | progress cbv zeta
    | match goal with
      | |- keeps (match ?x with _ => _ end) => destruct x
      | |- keeps (if ?x then _ else _) => destruct x
      end ].

Section Calls.
Context {DB : Type} `{KV : PebbleKV DB} (cfg : Config).

Lemma write_active_keeps ev n off buf : keeps (DB := DB) (write_active ev n off buf).
Proof. unfold write_active. keep. Qed.

Lemma make_room_keeps ev batch : keeps (DB := DB) (make_room cfg ev batch).
Proof. unfold make_room. keep. Qed.

Lemma reserve_batch_keeps segID batch placed : keeps (DB := DB) (reserve_batch segID batch placed).
Proof.
  revert placed. induction batch as [|pw batch IH]; intros placed; cbn [reserve_batch]; keep.
Qed.

Lemma write_batch_keeps ev n batch : keeps (DB := DB) (write_batch ev n batch).
Proof.
  revert n. induction batch as [|pw batch IH]; intros n; cbn [write_batch]; keep.
Qed.

Lemma seal_batch_clean ev placed off :
  ev_fault ev CrashAfterOverlayApply = None -> clean (DB := DB) (seal_batch cfg ev placed off).
Proof.
  intros Hf. unfold seal_batch. destruct placed as [|first placed]; [apply keeps_clean; keep|].
  rewrite Hf. repeat (apply clean_bind; [first [apply write_active_keeps|solve [keep]]|intros]; cbv zeta).
  intros s s' e E. unfold bindM, modify, ret, check in E. discriminate.
Qed.

Lemma commitBatch_clean ev batch :
  ev_fault ev CrashAfterOverlayApply = None -> clean (DB := DB) (commitBatch cfg ev batch).
Proof.
  intros Hf. unfold commitBatch.
  repeat (apply clean_bind; [first [apply make_room_keeps|apply reserve_batch_keeps
    |apply write_batch_keeps|solve [keep]]|intros; cbv zeta]).
  destruct a3 as [commitOffset a3].
  repeat (apply clean_bind; [first [apply write_batch_keeps|solve [keep]]|intros; cbv zeta]).
  by apply seal_batch_clean.
Qed.
End Calls.
