(* ===== verification/Durability.v ===== *)
(** * Acknowledged writes survive a crash

    The invariant [durable] ties the volatile overlay of a store to the log
    suffix behind its recovery checkpoint; commits and flushes keep it, and
    startup recovery of a store that satisfies it, with any torn entry at the
    end of the segment, rebuilds an overlay under which every lookup answers
    as before the crash. *)

From stdpp Require Import base list numbers strings gmap.
From Stdlib Require Import ZArith Lia.
From S2P Require Import Prelude Bytes Crc StorageTypes FileIO Record Journal SegmentFile Pebble Index Allocator Overlay Checkpoint Cache Recover SegmentLog LogParse Framing Store StoreProofs.

Local Open Scope Z_scope.
Local Open Scope go_scope.

(** ** Values up to the location of tombstones

    A live delete publishes a tombstone that keeps the old location, a
    replayed one carries the place of the delete record; no reader can tell. *)

Definition value_eq (v w : Value) : Prop :=
  v = w \/ (v_State v = ExtentTombstoned /\ v_State w = ExtentTombstoned).

#[export] Instance value_eq_equiv : Equivalence value_eq.
Proof.
  split.
  - intros v. by left.
  - intros v w [->|[? ?]]; [by left|by right].
  - intros u v w [->|[? ?]] [->|[? ?]]; [by left|by right..].
Qed.

Definition overlay_eq (o o' : Overlay) : Prop :=
  forall k, option_Forall2 value_eq (Overlay_Get o k) (Overlay_Get o' k).

#[export] Instance overlay_eq_equiv : Equivalence overlay_eq.
Proof.
  split.
  - intros o k. reflexivity.
  - intros o o' H k. by symmetry.
  - intros o1 o2 o3 H1 H2 k. by transitivity (Overlay_Get o2 k).
Qed.

#[export] Instance Overlay_Put_proper k :
  Proper (overlay_eq ==> value_eq ==> overlay_eq) (fun o v => Overlay_Put o k v).
Proof.
  intros o o' Ho v w Hv k'. rewrite !Overlay_Get_Put. case_bool_decide; [by constructor|apply Ho].
Qed.

(** Lookups that agree: the same error, or values equal up to tombstones. *)
Definition lookup_eq (r r' : go Value) : Prop :=
  match r, r' with
  | Ok v, Ok w => value_eq v w
  | Err e, Err e' => e = e'
  | _, _ => False
  end.

(** ** Replaying a log into an overlay *)

Definition replay_descriptor (o : Overlay) (d : CommitDescriptor) : Overlay :=
  match recover_apply o d with Ok o' => o' | Err _ => o end.

Definition entry_overlay (segID off : Z) (o : Overlay) (e : log_entry) : Overlay :=
  match e with
  | LBatch recs _ => fold_left replay_descriptor (batch_descriptors segID off recs) o
  | LSafe _ => o
  end.

Fixpoint log_overlay (segID off : Z) (o : Overlay) (es : list log_entry) : Overlay :=
  match es with
  | [] => o
  | e :: es => log_overlay segID (off + entry_size e) (entry_overlay segID off o e) es
  end.

Lemma log_overlay_app segID off o es fs :
  log_overlay segID off o (es ++ fs) = log_overlay segID (log_end off es) (log_overlay segID off o es) fs.
Proof.
  revert off o. induction es as [|e es IH]; intros off o; cbn [app log_overlay].
  { unfold log_end. cbn. by rewrite Z.add_0_r. }
  rewrite IH. unfold log_end. cbn [map foldr]. by rewrite Z.add_assoc.
Qed.

Lemma replay_recover_apply segID off recs o :
  Forall lr_wf recs ->
  replay recover_apply o (batch_descriptors segID off recs)
  = Ok (fold_left replay_descriptor (batch_descriptors segID off recs) o).
Proof.
  intros H. revert off o. induction H as [|r recs W H IH]; intros off o; [done|].
  cbn [batch_descriptors replay fold_left].
  destruct (lrw_current r W) as (_ & _ & Hop).
  assert (exists o', recover_apply o (lr_descriptor segID off r) = Ok o') as [o' Ho].
  { unfold recover_apply. cbn [lr_descriptor bd_Op]. unfold op_valid in Hop.
    destruct (h_Op (lr_header r) =? RecordPut); [by eauto|].
    destruct (h_Op (lr_header r) =? RecordDelete); [by eauto|].
    destruct (h_Op (lr_header r) =? RecordRelocate); [by eauto|done]. }
  unfold replay_descriptor at 2. rewrite Ho, bind_Ok. apply IH.
Qed.

Definition log_records (es : list log_entry) : Z := foldr Z.add 0 (map entry_records es).

Lemma log_effect_overlay segID safeSeq start v es stream :
  log_ok stream start (v_seq v) es -> safeSeq <= v_seq v ->
  exists v', log_effect (Some recover_apply) segID safeSeq start v es = Ok v' /\
    v_acc v' = log_overlay segID start (v_acc v) es /\
    v_seq v' = log_last (v_seq v) es /\
    v_records v' = v_records v + log_records es /\
    v_bytes v' = v_bytes v + foldr Z.add 0 (map entry_size es).
Proof.
  revert start v. induction es as [|e es IH]; intros start v Hok Hs; cbn [log_effect].
  { exists v. unfold log_records. cbn. rewrite !Z.add_0_r. done. }
  cbn [log_ok] in Hok. destruct Hok as [Hok1 Hok2].
  assert (exists v1, entry_effect (Some recover_apply) segID safeSeq start v e = Ok v1 /\
    v_acc v1 = entry_overlay segID start (v_acc v) e /\ v_seq v1 = entry_seq (v_seq v) e /\
    v_records v1 = v_records v + entry_records e /\ v_bytes v1 = v_bytes v + entry_size e /\
    safeSeq <= v_seq v1) as (v1 & E1 & A1 & S1 & R1 & B1 & L1).
  { destruct e as [recs seq|seq]; cbn [entry_effect].
    - destruct Hok1 as (_ & _ & _ & _ & Hw & Hq & _).
      rewrite (proj2 (Z.ltb_lt safeSeq seq)) by lia. unfold replay_opt.
      rewrite replay_recover_apply, bind_Ok by done. eexists. split; [reflexivity|].
      cbn [v_acc v_seq v_records v_bytes entry_overlay entry_seq entry_records]. repeat split; lia.
    - eexists. split; [reflexivity|]. cbn. repeat split; lia. }
  rewrite E1, bind_Ok. rewrite <- S1 in Hok2.
  destruct (IH _ _ Hok2 L1) as (v2 & E2 & A2 & S2 & R2 & B2).
  exists v2. rewrite E2, A2, A1, S2, S1, R2, R1, B2, B1. unfold log_records, log_last.
  cbn [map foldr fold_left log_overlay]. repeat split; lia.
Qed.

(** ** Live publication and replay agree *)

(** A pending write as [Write] and [Delete] build it. *)
Definition pw_live (pw : pendingWrite) (r : log_record) : Prop :=
  pw_ok pw r /\
  ((h_Op (lr_header r) = RecordPut /\ pw_publishedValue pw = None) \/
   (h_Op (lr_header r) = RecordDelete /\
    exists v, pw_publishedValue pw = Some v /\ v_State v = ExtentTombstoned /\ Value_wf v)).

Lemma pw_live_ok batch recs : Forall2 pw_live batch recs -> Forall2 pw_ok batch recs.
Proof. intros H. eapply Forall2_impl; [exact H|]. by intros ? ? []. Qed.

Lemma publish_replay_one pw r segID off seq o o' :
  pw_live pw r -> overlay_eq o o' ->
  overlay_eq
    (Overlay_Put o (Key (pw_extentID pw) (pw_generation pw)) (pw_value (pw_place pw segID off seq)))
    (replay_descriptor o' (lr_descriptor segID off r)).
Proof.
  intros [P Hop] Ho. destruct P as [Hh _ _ Hs Hl Hc He Hg W].
  unfold replay_descriptor, recover_apply, pw_value.
  cbn [lr_descriptor bd_Op bd_ExtentID bd_Generation bd_SegmentID bd_Offset bd_StoredLen
       bd_LogicalLen bd_Checksum pw_place pw_publishedValue pw_segID pw_offset pw_storedLen
       pw_logicalLen pw_payloadCRC].
  rewrite He, Hg, Hs, Hl, Hc.
  destruct Hop as [[-> ->]|(-> & v & -> & Hv & _)]; cbn.
  - by apply Overlay_Put_proper.
  - apply Overlay_Put_proper; [done|]. right. by split.
Qed.

Lemma publish_replay segID off seq batch recs o o' :
  Forall2 pw_live batch recs -> overlay_eq o o' ->
  overlay_eq (publish_overlay (place_all segID off seq batch) o)
    (fold_left replay_descriptor (batch_descriptors segID off recs) o').
Proof.
  intros H. revert off seq o o'. induction H as [|pw r batch recs P H IH]; intros off seq o o' Ho;
    [done|].
  cbn [place_all batch_descriptors]. unfold publish_overlay. cbn [fold_left].
  rewrite (pw_ok_framing pw r (proj1 P)). apply IH. cbn [pw_place pw_extentID pw_generation].
  by apply publish_replay_one.
Qed.

(** ** Resuming at an INDEX_SAFE marker *)

(** The 42 bytes before the end of a marker do not decode as a BatchCommit:
    its magic would be zero bytes of the marker. *)
Lemma marker_tail_magic seq c :
  get_be 0 4 (field 31 42 (commit_record_body (index_safe_record seq) ++ be_enc 4 c)) = 0.
Proof.
  unfold get_be. rewrite field_field by lia. unfold commit_record_body, commit_record_puts.
  reflexivity.
Qed.

Lemma checkpoint_seq_marker pre seq rest opts :
  safe_seq_ok seq -> seq <> 0 -> Z.of_nat SegmentHeaderSize <= Z.of_nat (length pre) ->
  ro_SafeSeq opts = seq ->
  checkpoint_seq (pre ++ commit_record_bytes (index_safe_record seq) ++ rest) opts
    (Z.of_nat (length pre) + 73) = Ok seq.
Proof.
  intros W Hne Hpre Hs. unfold checkpoint_seq.
  rewrite (proj2 (Z.ltb_lt _ _)) by lia.
  assert (validateSafeRecoveryStart (pre ++ commit_record_bytes (index_safe_record seq) ++ rest)
    (Z.of_nat (length pre) + 73) (ro_StreamID opts) = Ok (seq, true)) as ->.
  { pose proof (length_commit_record_bytes (index_safe_record seq)) as Hm.
    change CommitRecordSize with 73%nat in Hm.
    set (m := commit_record_bytes (index_safe_record seq)) in *.
    unfold validateSafeRecoveryStart. cbv zeta.
    change (Z.of_nat CommitRecordSize) with 73. change (Z.of_nat BatchCommitSize) with 42.
    replace (Z.of_nat (length pre) + 73 - 73) with (Z.of_nat (length pre)) by lia.
    rewrite (proj2 (Z.leb_le (Z.of_nat SegmentHeaderSize) (Z.of_nat (length pre)))) by done.
    rewrite (readFullAt_window pre m rest (Z.of_nat (length pre)) CommitRecordSize) by done.
    assert (CommitRecord_Decode m = Ok (index_safe_record seq)) as ->.
    { rewrite <- (app_nil_r m). apply CommitRecord_Decode_bytes; [by apply marker_wf|done]. }
    change (cr_Op (index_safe_record seq)) with OpIndexSafe.
    change (cr_Seq (index_safe_record seq)) with seq.
    rewrite (proj2 (Z.eqb_neq seq 0) Hne), Z.eqb_refl. cbn [negb andb].
    rewrite (proj2 (Z.leb_le (Z.of_nat SegmentHeaderSize) (Z.of_nat (length pre) + 73 - 42))) by lia.
    rewrite readFullAt_ok; [|lia|rewrite !file_size_app; unfold file_size;
      change (Z.of_nat BatchCommitSize) with 42; lia].
    replace (Z.to_nat (Z.of_nat (length pre) + 73 - 42)) with (length pre + 31)%nat by lia.
    rewrite field_app_r, field_app_l by (rewrite Hm; change BatchCommitSize with 42%nat; lia).
    unfold BatchCommit_Decode.
    rewrite length_field by (rewrite Hm; change BatchCommitSize with 42%nat; lia).
    rewrite Nat.ltb_irrefl. cbv zeta. cbn [bc_Magic].
    assert (get_be 0 4 (field 31 BatchCommitSize m) = 0) as ->
      by (unfold m, commit_record_bytes; apply marker_tail_magic).
    done. }
  rewrite Hs, refuse_pass; [done|]. rewrite Z.eqb_refl. by rewrite andb_false_r.
Qed.

(** ** The invariant *)

Section Durable.
Context {DB : Type} `{KV : PebbleKV DB} (cfg : Config).
Let stream := c_StreamID cfg.

(** The checkpoint on disk, if it names the active segment, is the end of
    the marker that closes [es1]; [seq0] is the sequence it certifies. *)
Definition checkpoint_at (s : Store DB) (es1 : list log_entry) (seq0 : Z) : Prop :=
  exists cp, LoadRecoveryCheckpoint (s_ckpt s) stream = Ok cp /\
    match cp with
    | Some c =>
        rcp_SegmentID c <= a_segmentID (s_alloc s) /\
        if bool_decide (rcp_SegmentID c = a_segmentID (s_alloc s)) then
          rcp_SafeOffset c = log_end 22 es1 /\ rcp_SafeSeq c = seq0 /\ seq0 <> 0
          /\ exists es0, es1 = es0 ++ [LSafe seq0]
        else es1 = [] /\ seq0 = 0
    | None => es1 = [] /\ seq0 = 0
    end.

Record durable (s : Store DB) (hdr : list Z) (es1 es2 : list log_entry) (seq0 : Z) : Prop :=
  mkDurable {
  du_ok : store_ok cfg s hdr (es1 ++ es2);
  du_ckpt : checkpoint_at s es1 seq0;
  du_seq0 : safe_seq_ok seq0;
  du_log2 : log_ok stream (log_end 22 es1) seq0 es2;
  du_last : log_last seq0 es2 <= s_streamSeq s;
  du_overlay : overlay_eq (s_overlay s)
    (log_overlay (a_segmentID (s_alloc s)) (log_end 22 es1) NewOverlay es2);
  du_stream : is_u8 stream;
  du_persistent : cd_persistent (s_ckpt s) = true;
  du_id : 0 < a_segmentID (s_alloc s) < 2 ^ 64;
  du_max : maxSegmentID (s_dir s) = a_segmentID (s_alloc s);
  du_next : s_nextSeg s = a_segmentID (s_alloc s);
  du_wf : Overlay_wf (s_overlay s);
  du_drained : o_draining (s_overlay s) = ∅
}.

(** The replay fits the startup limits and ends before the deadline. *)
Definition within_budget (su : startup) (es2 : list log_entry) (e : log_entry) (tail : list Z) :
    Prop :=
  let opts := recover_options cfg su None 0 in
  log_records es2 + entry_records e <= recoveryRecordLimit opts /\
  foldr Z.add 0 (map entry_size es2) <= (recoveryByteLimits opts).1 /\
  file_size tail <= (recoveryByteLimits opts).2 /\
  (forall n, su_clock su n <= su_deadline su).

Lemma recover_options_fields su cp id :
  let o := recover_options cfg su cp id in
  ro_StreamID o = stream /\ ro_clock o = su_clock su /\ recovery_deadline o = su_deadline su /\
  recoveryRecordLimit o = recoveryRecordLimit (recover_options cfg su None 0) /\
  recoveryByteLimits o = recoveryByteLimits (recover_options cfg su None 0).
Proof.
  cbv zeta. unfold recover_options. destruct cp as [c|]; [|done].
  by destruct (rcp_SegmentID c =? id).
Qed.

Lemma recover_durable su s hdr es1 es2 seq0 e tail cp o0 :
  durable s hdr es1 es2 seq0 ->
  LoadRecoveryCheckpoint (s_ckpt s) stream = Ok cp ->
  let id := a_segmentID (s_alloc s) in
  torn stream id (log_end 22 (es1 ++ es2)) (log_last seq0 es2) e tail ->
  within_budget su es2 e tail ->
  let log := log_bytes stream id 22 (es1 ++ es2) in
  exists res, rr_LastSeq res = log_last seq0 es2 /\
    RecoverFromSegmentLog (Some recover_apply) id ((hdr ++ log) ++ tail)
      (recover_options cfg su cp id) o0 =
    mkRecoverOut (hdr ++ log) (log_overlay id (log_end 22 es1) o0 es2) (Some res) None.
Proof.
  intros [[_ Hh Hdec _ _ _ _ _ _ _] (cp' & Hload & Hcp) Hs0 Hlog2 _ _ _ _ _ _ _ _ _] Hload' id Htorn
    (B1 & B2 & B3 & B4) log.
  rewrite Hload' in Hload. apply Ok_inj in Hload. subst cp'.
  set (opts := recover_options cfg su cp id).
  destruct (recover_options_fields su cp id) as (F1 & F2 & F3 & F4 & F5). fold opts in F1,F2,F3,F4,F5.
  set (pre := hdr ++ log_bytes stream id 22 es1).
  assert (Z.of_nat (length pre) = log_end 22 es1) as Hpre.
  { unfold pre. rewrite length_app, Hh, Nat2Z.inj_add, <- (file_size_log stream id). done. }
  set (log2 := log_bytes stream id (log_end 22 es1) es2).
  assert ((hdr ++ log) ++ tail = pre ++ log2 ++ tail) as ->.
  { unfold log, pre, log2. by rewrite log_bytes_app, <- !app_assoc. }
  assert (hdr ++ log = pre ++ log2) as ->.
  { unfold log, pre, log2. by rewrite log_bytes_app, <- !app_assoc. }
  assert (Z.of_nat SegmentHeaderSize <= log_end 22 es1) as Hmin.
  { rewrite <- Hpre. unfold pre. rewrite length_app. lia. }
  destruct (log_effect_overlay id (ro_SafeSeq opts) (log_end 22 es1)
    (mkLogView seq0 (ro_SafeSeq opts) 0 0 0 0 o0) es2 stream Hlog2) as (v' & E & A1 & S1 & R1 & Bt1).
  { unfold opts, recover_options. destruct Hs0. destruct cp as [c|]; cbn; [|lia].
    destruct (Z.eqb_spec (rcp_SegmentID c) id) as [Hi|]; cbn; [|lia].
    destruct Hcp as [_ Hcp]. rewrite bool_decide_true in Hcp by done. cbn. lia. }
  cbn [v_acc v_seq v_records v_bytes] in *.
  assert (0 <= ro_SafeOffset opts /\
          Z.max (Z.of_nat SegmentHeaderSize) (ro_SafeOffset opts) = log_end 22 es1 /\
          checkpoint_seq (pre ++ log2 ++ tail) opts (log_end 22 es1) = Ok seq0) as (O1 & O2 & O3).
  { assert (es1 = [] -> seq0 = 0 -> ro_SafeOffset opts = 22 ->
      0 <= ro_SafeOffset opts /\
          Z.max (Z.of_nat SegmentHeaderSize) (ro_SafeOffset opts) = log_end 22 es1 /\
          checkpoint_seq (pre ++ log2 ++ tail) opts (log_end 22 es1) = Ok seq0) as Hnone.
    { intros -> -> ->. change (log_end 22 []) with 22. repeat split; lia || done. }
    destruct cp as [c|]; [|by apply Hnone; tauto].
    destruct (Z.eqb_spec (rcp_SegmentID c) id) as [Hi|Hi]; cycle 1.
    { destruct Hcp as [_ Hcp]. rewrite bool_decide_false in Hcp by done. apply Hnone; [tauto|tauto|].
      unfold opts, recover_options. by rewrite (proj2 (Z.eqb_neq _ _) Hi). }
    destruct Hcp as [_ Hcp]. rewrite bool_decide_true in Hcp by done. destruct Hcp as (C1 & C2 & C3 & es0 & C4).
    assert (ro_SafeOffset opts = rcp_SafeOffset c /\ ro_SafeSeq opts = rcp_SafeSeq c) as [P1 P2]
      by (unfold opts, recover_options; by rewrite (proj2 (Z.eqb_eq _ _) Hi)).
    rewrite P1, C1. split; [lia|]. split; [lia|].
    set (pre0 := hdr ++ log_bytes stream id 22 es0).
    set (m := commit_record_bytes (index_safe_record seq0)).
    assert (pre = pre0 ++ m) as Hp0.
    { unfold pre, pre0, m. rewrite C4, log_bytes_app. cbn [log_bytes entry_bytes].
      by rewrite app_nil_r, <- app_assoc. }
    rewrite <- Hpre, Hp0, length_app, Nat2Z.inj_add. unfold m at 2.
    rewrite length_commit_record_bytes, <- app_assoc. apply checkpoint_seq_marker; try done.
    { unfold pre0. rewrite length_app, Hh. lia. }
    by rewrite P2. }
  pose proof (recover_from_boundary (Some recover_apply) id opts pre es2 e tail o0 seq0 v') as Hrec.
  cbv zeta in Hrec. rewrite Hpre, F1 in Hrec. fold stream in Hrec. fold log2 in Hrec.
  assert (log_end 22 es1 + file_size log2 = log_end 22 (es1 ++ es2)) as Hend
    by (unfold log2; rewrite file_size_log, log_end_app; reflexivity).
  rewrite Hend, S1, R1, Bt1, F4, F5 in Hrec. specialize (Hrec Hmin O1 O2).
  destruct Hrec as [d Hd]; [|exact O3|exact Hlog2|exact E|exact Htorn|lia|lia|exact B3| |].
  - unfold pre. rewrite take_app_le by lia. by rewrite take_ge by lia.
  - intros n. rewrite F2, F3. apply B4.
  - rewrite Hd, A1. eexists. split; [|reflexivity]. reflexivity.
Qed.
End Durable.

(** ** Crash and recovery *)

Lemma log_last_mono stream off seq es :
  log_ok stream off seq es -> 0 <= seq -> seq <= log_last seq es.
Proof.
  revert off seq. induction es as [|e es IH]; intros off seq Hok H0; cbn; [lia|].
  cbn [log_ok] in Hok. destruct Hok as [(_ & _ & He) Hok]. fold (log_last (entry_seq seq e) es).
  destruct e as [recs q|q]; cbn [entry_seq] in *.
  - specialize (IH _ _ Hok ltac:(lia)). lia.
  - by eapply IH.
Qed.

Section Crash.
Context {DB : Type} `{KV : PebbleKV DB} (cfg : Config).
Let stream := c_StreamID cfg.

(** A disk that a crash can leave: everything the store acknowledged, any
    bytes [tail] of one more entry in the active segment, an index that may
    already hold part of what a flush was moving into it, and a checkpoint
    publication that did not reach its rename. *)
Record crash_disk (s : Store DB) (tail : list Z) (d : Disk DB) : Prop := mkCrashDisk {
  crd_dir : let id := a_segmentID (s_alloc s) in
    d_dir d = <[id := default [] (s_dir s !! id) ++ tail]> (s_dir s);
  crd_index : forall e g, Overlay_Get (s_overlay s) (Key e g) = None ->
    Index_Get (d_index d) e g = Index_Get (s_index s) e g;
  crd_main : cd_main (d_ckpt d) = cd_main (s_ckpt s);
  crd_persistent : cd_persistent (d_ckpt d) = cd_persistent (s_ckpt s)
}.

Lemma crash_checkpoint s tail d :
  crash_disk s tail d ->
  LoadRecoveryCheckpoint (d_ckpt d) stream = LoadRecoveryCheckpoint (s_ckpt s) stream.
Proof. intros [_ _ Hm Hp]. unfold LoadRecoveryCheckpoint. by rewrite Hm, Hp. Qed.

Lemma lookup_overlay_eq (s s' : Store DB) e g :
  overlay_eq (s_overlay s) (s_overlay s') ->
  (Overlay_Get (s_overlay s) (Key e g) = None ->
   Index_Get (s_index s') e g = Index_Get (s_index s) e g) ->
  lookup_eq (lookup_value s' e g) (lookup_value s e g).
Proof.
  intros Ho Hi. unfold lookup_value. specialize (Ho (Key e g)).
  destruct Ho as [v w Hv|]; cbn; [by symmetry|]. rewrite Hi by done.
  destruct (Index_Get (s_index s) e g); [by left|done].
Qed.

Lemma recoverActiveSegment_ok su s hdr es1 es2 seq0 e tail cp d :
  durable cfg s hdr es1 es2 seq0 -> LoadRecoveryCheckpoint (s_ckpt s) stream = Ok cp ->
  crash_disk s tail d ->
  torn stream (a_segmentID (s_alloc s)) (log_end 22 (es1 ++ es2)) (log_last seq0 es2) e tail ->
  within_budget cfg su es2 e tail ->
  exists s', recoverActiveSegment cfg su cp (a_segmentID (s_alloc s)) (open_store cfg d)
               = (s', Ok tt) /\
    s_dir s' = s_dir s /\ s_index s' = d_index d /\ s_ckpt s' = d_ckpt d /\
    s_overlay s' = log_overlay (a_segmentID (s_alloc s)) (log_end 22 es1) NewOverlay es2 /\
    s_streamSeq s' = log_last seq0 es2 /\
    s_pub s' = mkPublication (log_last seq0 es2) ∅ (log_last seq0 es2) 0 /\
    s_closing s' = false /\ s_locCache s' = NewLocationCache 0 /\ s_applyCh s' = [].
Proof.
  intros D Hload [Hdir _ _ _] Htorn Hbud.
  destruct (recover_durable cfg su s hdr es1 es2 seq0 e tail cp NewOverlay D Hload Htorn Hbud)
    as (res & Hres & Hrec).
  destruct D as [[_ _ _ Hf _ _ _ _ _ _] _ Hs0 Hlog2 _ _ _ _ _ _ _ _ _].
  pose proof (log_last_mono _ _ _ _ Hlog2 (proj1 Hs0)) as Hmono. destruct Hs0 as [Hs0 _].
  set (id := a_segmentID (s_alloc s)) in *. fold stream in Hf, Hrec.
  set (file := hdr ++ log_bytes stream id 22 (es1 ++ es2)) in *.
  cbv zeta in Hdir. fold id in Hdir. rewrite Hf in Hdir. change (default [] (Some file)) with file in Hdir.
  unfold recoverActiveSegment. stepM. 
  cbn [open_store s_dir s_overlay]. rewrite Hdir.
  rewrite lookup_insert_eq, Hrec. cbn [out_file out_acc out_err out_result].
  do 3 stepM. rewrite insert_insert_eq, (insert_id _ _ _ Hf), Hres.
  assert (forall d : Disk DB, s_streamSeq (open_store cfg d) = 0) as Hz by done. rewrite Hz.
  assert (forall (b : bool) (g h : M (DB := DB) unit) s, (if b then g else h) s = if b then g s else h s) as Hif
    by (by intros []).
  unfold bindM. rewrite !Hif. unfold modify, ret.
  destruct (Z.ltb_spec 0 (rr_SafeSeq res)); destruct (Z.ltb_spec 0 (log_last seq0 es2));
    (eexists; split; [reflexivity|]; cbn; repeat split; try done; try f_equal; lia).
Qed.
End Crash.

(** * The steps of a store keep its committed state

    Group commit, flush and the index applier preserve [durable]; a commit
    changes exactly the lookups of its members, the other two change none. *)

(** ** Well-formed overlays *)

Lemma replay_descriptor_wf o segID off r :
  Overlay_wf o -> lr_wf r -> is_u64 segID -> is_i64 off ->
  Overlay_wf (replay_descriptor o (lr_descriptor segID off r)).
Proof.
  intros Ho W Hs Hoff. destruct (lrw_header r W).
  assert (forall st, is_u8 st -> Overlay_wf (Overlay_Put o
    (Key (h_ExtentID (lr_header r)) (h_Generation (lr_header r)))
    (mkValue segID off (h_StoredLen (lr_header r)) (h_LogicalLen (lr_header r)) st
       (h_PayloadChecksum (lr_header r))))) as Hput
    by (intros st Hst; apply Overlay_Put_wf; [done..|]; by constructor).
  unfold replay_descriptor, recover_apply. cbn [lr_descriptor bd_Op bd_ExtentID bd_Generation
    bd_SegmentID bd_Offset bd_StoredLen bd_LogicalLen bd_Checksum].
  destruct (_ =? RecordPut); [by apply Hput|]. destruct (_ =? RecordDelete); [by apply Hput|].
  by destruct (_ =? RecordRelocate).
Qed.

Lemma lr_framing_pos r : 0 < lr_framing r.
Proof. unfold lr_framing. lia. Qed.

Lemma batch_overlay_wf segID off recs o :
  Overlay_wf o -> Forall lr_wf recs -> is_u64 segID -> 0 <= off ->
  off + batch_framing recs < 2 ^ 62 ->
  Overlay_wf (fold_left replay_descriptor (batch_descriptors segID off recs) o).
Proof.
  intros Ho H Hs. revert off o Ho. induction H as [|r recs W H IH]; intros off o Ho H0 Hb; [done|].
  unfold batch_framing in Hb. cbn [batch_descriptors fold_left map foldr] in *.
  fold (batch_framing recs) in Hb. pose proof (batch_framing_nonneg recs).
  pose proof (lr_framing_pos r).
  apply IH; [apply replay_descriptor_wf; try done; unfold is_i64; lia|lia|lia].
Qed.

Lemma log_overlay_wf stream segID off seq es o :
  Overlay_wf o -> log_ok stream off seq es -> is_u64 segID ->
  Overlay_wf (log_overlay segID off o es).
Proof.
  intros Ho Hok Hs. revert off seq o Ho Hok. induction es as [|e es IH]; intros off seq o Ho Hok; [done|].
  cbn [log_ok log_overlay] in *. destruct Hok as [He Hok]. eapply IH; [|exact Hok].
  destruct He as (H0 & Hb & He). destruct e as [recs q|q]; [|done]. cbn [entry_overlay entry_size] in *.
  destruct He as (_ & _ & Hw & _). apply batch_overlay_wf; [done..|lia].
Qed.

Lemma replay_draining o d : o_draining (replay_descriptor o d) = o_draining o.
Proof.
  unfold replay_descriptor, recover_apply.
  destruct (_ =? RecordPut); [done|]. destruct (_ =? RecordDelete); [done|].
  by destruct (_ =? RecordRelocate).
Qed.

Lemma log_overlay_draining segID off o es : o_draining (log_overlay segID off o es) = o_draining o.
Proof.
  revert off o. induction es as [|e es IH]; intros off o; [done|]. cbn [log_overlay]. rewrite IH.
  destruct e as [recs q|q]; [|done]. cbn [entry_overlay].
  generalize (batch_descriptors segID off recs) as ds. intros ds. revert o.
  induction ds as [|d ds IHd]; intros o; [done|]. cbn [fold_left]. by rewrite IHd, replay_draining.
Qed.

(** An overlay that is not empty was written by a batch. *)
Lemma log_overlay_seq stream segID off seq es o :
  log_ok stream off seq es -> 0 <= seq ->
  log_overlay segID off o es = o \/ 0 < log_last seq es.
Proof.
  revert off seq o. induction es as [|e es IH]; intros off seq o Hok H0; [by left|].
  cbn [log_ok] in Hok. destruct Hok as [(_ & _ & He) Hok]. unfold log_last. cbn [fold_left log_overlay].
  fold (log_last (entry_seq seq e) es). destruct e as [recs q|q]; cbn [entry_seq entry_overlay] in *.
  - right. pose proof (log_last_mono _ _ _ _ Hok ltac:(lia)). lia.
  - by eapply IH.
Qed.

(** ** Group commit *)

Lemma maxSegmentID_insert (dir : gmap Z (list Z)) id f :
  0 <= id -> maxSegmentID (<[id := f]> dir) = Z.max id (maxSegmentID (delete id dir)).
Proof.
  intros H0. unfold maxSegmentID. rewrite <- insert_delete_eq.
  assert (forall l l' : list Z, l ≡ₚ l' -> foldr Z.max 0 l = foldr Z.max 0 l') as Hp.
  { induction 1; cbn; lia. }
  erewrite Hp; [|apply fmap_Permutation, map_to_list_insert, lookup_delete_eq].
  done.
Qed.

Lemma maxSegmentID_overwrite (dir : gmap Z (list Z)) id f g :
  0 <= id -> dir !! id = Some f -> maxSegmentID (<[id := g]> dir) = maxSegmentID dir.
Proof.
  intros H0 Hf. rewrite maxSegmentID_insert by done.
  rewrite <- (insert_id dir id f Hf) at 2. by rewrite maxSegmentID_insert.
Qed.

Lemma maxSegmentID_bound (dir : gmap Z (list Z)) id f :
  dir !! id = Some f -> id <= maxSegmentID dir.
Proof.
  intros Hf. unfold maxSegmentID.
  assert (id ∈ map fst (map_to_list dir)) as Hin.
  { apply list_elem_of_fmap. exists (id, f). split; [done|]. by apply elem_of_map_to_list. }
  induction (map fst (map_to_list dir)) as [|x l IH]; [by apply not_elem_of_nil in Hin|].
  cbn. apply elem_of_cons in Hin as [->|Hin]; [lia|]. specialize (IH Hin). lia.
Qed.

Lemma pw_value_wf pw r segID off seq :
  pw_live pw r -> is_u64 segID -> is_i64 off -> Value_wf (pw_value (pw_place pw segID off seq)).
Proof.
  intros [P Hop] Hs Ho. destruct P as [Hh _ _ Hsl Hll Hc _ _ W]. destruct (lrw_header r W).
  unfold pw_value. cbn [pw_place pw_publishedValue pw_segID pw_offset pw_storedLen pw_logicalLen
    pw_payloadCRC]. destruct Hop as [[_ ->]|(_ & v & -> & _ & Hv)]; [|done].
  constructor; cbn; try done; rewrite ?Hsl, ?Hll, ?Hc; done.
Qed.

Lemma publish_overlay_wf segID off seq batch recs o :
  Forall2 pw_live batch recs -> Overlay_wf o -> is_u64 segID -> 0 <= off ->
  off + batch_framing recs < 2 ^ 62 ->
  Overlay_wf (publish_overlay (place_all segID off seq batch) o).
Proof.
  intros H Ho Hs. revert off seq o Ho. induction H as [|pw r batch recs P H IH];
    intros off seq o Ho H0 Hb; [done|].
  unfold batch_framing in Hb. cbn [map foldr] in Hb. fold (batch_framing recs) in Hb.
  pose proof (batch_framing_nonneg recs). pose proof (lr_framing_pos r).
  cbn [place_all]. unfold publish_overlay. cbn [fold_left]. rewrite (pw_ok_framing pw r (proj1 P)).
  apply IH; [|lia|lia]. pose proof (proj1 P) as [_ _ _ _ _ _ He Hg W].
  destruct (lrw_header r W). cbn [pw_place pw_extentID pw_generation].
  apply Overlay_Put_wf; [done|by rewrite He|by rewrite Hg|].
  eapply pw_value_wf; [done|done|unfold is_i64; lia].
Qed.

Lemma publish_overlay_draining batch o :
  o_draining (publish_overlay batch o) = o_draining o.
Proof.
  revert o. induction batch as [|pw batch IH]; intros o; [done|].
  unfold publish_overlay. cbn [fold_left]. exact (IH _).
Qed.

Section Commit.
Context {DB : Type} `{KV : PebbleKV DB} (cfg : Config).
Let stream := c_StreamID cfg.

Lemma commit_durable ev (s : Store DB) hdr es1 es2 seq0 batch recs :
  quiet ev -> durable cfg s hdr es1 es2 seq0 -> Forall2 pw_live batch recs -> batch <> [] ->
  batch_fits (s_alloc s) batch = true ->
  a_offset (s_alloc s) + batch_framing recs + 42 < 2 ^ 62 ->
  s_streamSeq s + Z.of_nat (length batch) < 2 ^ 62 -> Z.of_nat (length batch) < 2 ^ 32 ->
  let seq := s_streamSeq s + Z.of_nat (length batch) in
  let placed := place_all (a_segmentID (s_alloc s)) (a_offset (s_alloc s)) (s_streamSeq s) batch in
  exists s' : Store DB, commitBatch cfg ev batch s = (s', Ok placed) /\
    durable cfg s' hdr es1 (es2 ++ [LBatch recs seq]) seq0 /\
    s_overlay s' = publish_overlay placed (s_overlay s) /\ s_index s' = s_index s /\
    s_locCache s' = s_locCache s /\ s_closing s' = s_closing s /\ s_applyCh s' = s_applyCh s /\
    s_segCache s' = s_segCache s /\
    s_dir s' = <[a_segmentID (s_alloc s) :=
                   hdr ++ log_bytes stream (a_segmentID (s_alloc s)) 22
                            ((es1 ++ es2) ++ [LBatch recs seq])]> (s_dir s).
Proof.
  intros Hq D Hpw Hne Hfit Hoff Hs62 Hn32 seq placed.
  pose proof D as [O C S0 L2 La Ov St Pe Id Mx Nx Wf Dr].
  destruct (commitBatch_run cfg ev s hdr (es1 ++ es2) batch recs Hq O (pw_live_ok _ _ Hpw) Hne
    Hfit Hs62 Hn32) as (a & Ha & Wa & Ia & _ & E). fold seq placed in E, Ha.
  pose proof O as [_ Hh Hdec Hf Ht Hlog [Hl0 Hl1] _ _ _].
  rewrite Ht in Hoff. pose proof (batch_framing_nonneg recs).
  assert (recs <> []) as Hrne by (intros ->; by inversion Hpw; subst).
  assert (Forall lr_wf recs) as Hw.
  { clear -Hpw. induction Hpw as [|pw r batch recs P H IH]; constructor; [|done].
    apply P. }
  assert (0 < Z.of_nat (length batch)) by (destruct batch; cbn [length]; [done|lia]).
  assert (length batch = length recs) as Hlr by (by eapply Forall2_length).
  assert (0 <= log_end 22 (es1 ++ es2)) as Hend0 by (rewrite <- Ht; destruct O as [[] ]; lia).
  assert (forall last, 0 <= last <= s_streamSeq s ->
    entry_ok stream (log_end 22 (es1 ++ es2)) last (LBatch recs seq)) as Hent.
  { intros last Hlast. unfold entry_ok. cbn [entry_size]. unfold seq.
    split; [lia|]. split; [lia|]. split; [exact St|]. repeat (split; [done || lia|]). lia. }
  assert (0 <= log_last seq0 es2) as Hl20.
  { pose proof (log_last_mono _ _ _ _ L2 (proj1 S0)). destruct S0. lia. }
  eexists. split; [exact E|]. split; [|done].
  unfold committed. fold seq placed. constructor;
    cbn [s_alloc s_dir s_index s_ckpt s_overlay s_streamSeq s_nextSeg s_pub RecordCommit a_segmentID];
    rewrite ?Ia; try done.
  - constructor; cbn [s_alloc s_dir s_streamSeq s_pub p_publishedSeq p_flushSeq p_readyBatches
      RecordCommit a_segmentID a_offset]; try done; rewrite ?Ia, ?app_assoc.
    + destruct Wa. by constructor.
    + by rewrite lookup_insert_eq.
    + exact Ha.
    + apply log_ok_app. split; [done|]. cbn [log_ok]. split; [|done]. by apply Hent.
    + rewrite log_last_app. cbn. unfold seq. lia.
  - unfold checkpoint_at. cbn [s_ckpt s_alloc RecordCommit a_segmentID]. by rewrite Ia.
  - apply log_ok_app. split; [done|]. cbn [log_ok]. split; [|done].
    rewrite <- log_end_app. apply Hent. lia.
  - rewrite log_last_app. cbn. unfold seq. lia.
  - rewrite log_overlay_app. cbn [log_overlay entry_overlay]. rewrite <- log_end_app, <- Ht.
    unfold placed. apply publish_replay; [done|exact Ov].
  - etransitivity; [eapply maxSegmentID_overwrite; [lia|exact Hf]|done].
  - unfold placed. eapply publish_overlay_wf; [done|done|split; lia|lia|rewrite Ht; lia].
  - by rewrite publish_overlay_draining.
Qed.
End Commit.

(** ** Flush *)

Section Flush.
Context {DB : Type} `{KL : PebbleLaws DB} (cfg : Config).
Let stream := c_StreamID cfg.

Definition kv_mutation (kv : list Z * Value) : Mutation :=
  mkMutation (ExtentFromKey kv.1) (GenerationFromKey kv.1) kv.2.

Lemma Drain_muts o : (Overlay_Drain o).1 = map kv_mutation (map_to_list (o_entries o)).
Proof. done. Qed.

(** Applying a drained overlay writes exactly its entries. *)
Lemma put_all_entries (l : list (list Z * Value)) (ix : DB) :
  NoDup l.*1 -> Forall (fun kv => exists e g, is_u64 e /\ is_u64 g /\ kv.1 = Key e g) l ->
  exists ix', put_all ix (map kv_mutation l) = Ok ix' /\
    forall k, kv_get ix' k = match (list_to_map l : gmap (list Z) Value) !! k with
                             | Some v => Some (value_bytes v)
                             | None => kv_get ix k
                             end.
Proof.
  intros Hnd Hw. revert ix Hnd. induction Hw as [|[k v] l (e & g & He & Hg & Hk) Hw IH];
    intros ix Hnd; cbn [map put_all].
  { exists ix. split; [done|]. intros k. cbn. by rewrite lookup_empty. }
  cbn in Hnd. apply NoDup_cons in Hnd as [Hni Hnd].
  rewrite Index_Put_ok, bind_Ok. destruct (IH (kv_set ix k (value_bytes v)) Hnd) as (ix' & E & G).
  cbn in Hk. subst k. exists ix'. cbn [kv_mutation m_ExtentID m_Generation m_Value fst snd].
  rewrite ExtentFromKey_Key, GenerationFromKey_Key by done. split; [exact E|].
  intros k. rewrite G, kv_get_set. cbn. rewrite lookup_insert. case_decide as Hd.
  - subst k. rewrite not_elem_of_list_to_map_1 by done. by rewrite bool_decide_true.
  - by rewrite bool_decide_false.
Qed.

(** The index after a flush answers for every drained key. *)
Lemma put_all_overlay (ix : DB) o :
  Overlay_wf o -> o_draining o = ∅ ->
  exists ix', put_all ix (Overlay_Drain o).1 = Ok ix' /\
    forall e g, Index_Get ix' e g = match Overlay_Get o (Key e g) with
                                    | Some v => Ok v
                                    | None => Index_Get ix e g
                                    end.
Proof.
  intros [Hw _] Hd. rewrite Drain_muts.
  destruct (put_all_entries (map_to_list (o_entries o)) ix) as (ix' & E & G).
  { apply NoDup_fst_map_to_list. }
  { apply Forall_forall. intros [k v] Hin.
    apply elem_of_map_to_list in Hin. destruct (Hw _ _ Hin) as (e & g & ? & ? & _ & ?). eauto. }
  exists ix'. split; [exact E|]. intros e g. unfold Index_Get, Overlay_Get.
  rewrite G, list_to_map_to_list, Hd, lookup_empty.
  destruct (o_entries o !! Key e g) as [v|] eqn:Hv; [|done].
  destruct (Hw _ _ Hv) as (_ & _ & _ & _ & Hvw & _). by rewrite Value_Decode_bytes.
Qed.

Lemma store_checkpoint_ok (d : ckpt_dir) c :
  cd_persistent d = true -> checkpoint_wf c ->
  exists d' states, StoreRecoveryCheckpoint d io_fine
      (mkRecoveryCheckpoint 0 (rcp_StreamID c) (rcp_SegmentID c) (rcp_SafeOffset c) (rcp_SafeSeq c))
      = (states, Ok tt) /\ default d (last states) = d' /\ cd_persistent d' = true /\
    LoadRecoveryCheckpoint d' (rcp_StreamID c) = Ok (Some c).
Proof.
  intros Hp W. pose proof W as (Hv & _ & _ & Hi & _ & Ho & _ & Hs).
  destruct (StoreRecoveryCheckpoint d io_fine (mkRecoveryCheckpoint 0 (rcp_StreamID c)
    (rcp_SegmentID c) (rcp_SafeOffset c) (rcp_SafeSeq c))) as [states r] eqn:E.
  pose proof (Store_atomic _ _ _ _ _ Hp E) as [Hall Hok].
  assert (r = Ok tt) as ->.
  { unfold StoreRecoveryCheckpoint in E. rewrite Hp in E. cbn [negb rcp_FormatVersion rcp_SegmentID
      rcp_SafeOffset rcp_SafeSeq rcp_StreamID Z.eqb] in E. rewrite Z.eqb_refl in E.
    rewrite (proj2 (Z.eqb_neq _ _) Hi), (proj2 (Z.eqb_neq _ _) Hs), (proj2 (Z.ltb_ge _ _) Ho) in E.
    cbn [negb orb io_fine io_open io_write io_sync io_close io_rename io_syncdir] in E.
    rewrite length_encodeRecoveryCheckpoint, Nat.min_id, Nat.eqb_refl in E. cbn [negb] in E.
    by apply pair_equal_spec in E as [_ <-]. }
  destruct (Hok eq_refl) as (d' & Hl & Hm). exists d', states. split; [done|]. split; [by rewrite Hl|].
  cbn [rcp_StreamID rcp_SegmentID rcp_SafeOffset rcp_SafeSeq] in Hm.
  rewrite <- Hv in Hm. assert (cd_persistent d' = true) as Hp'.
  { apply last_Some_elem_of in Hl. rewrite Forall_forall in Hall. by apply Hall in Hl as [? _]. }
  split; [done|]. unfold LoadRecoveryCheckpoint. rewrite Hp', Hm, lookup_insert_eq. cbn [negb].
  assert (mkRecoveryCheckpoint (rcp_FormatVersion c) (rcp_StreamID c) (rcp_SegmentID c)
    (rcp_SafeOffset c) (rcp_SafeSeq c) = c) as -> by (by destruct c).
  rewrite decode_encode_checkpoint, bind_Ok by done. by rewrite Z.eqb_refl.
Qed.

Definition flushed (s : Store DB) (a : Allocator) (f : list Z) (ix : DB) (d : ckpt_dir) : Store DB :=
  mkStore a (<[a_segmentID (s_alloc s) := f]> (s_dir s)) ix d NewOverlay (s_streamSeq s)
    (s_nextSeg s)
    (mkPublication (p_publishedSeq (s_pub s)) (p_readyBatches (s_pub s)) (p_flushSeq (s_pub s))
       (p_flushMutations (s_pub s) - p_flushMutations (s_pub s)))
    (p_flushSeq (s_pub s)) (s_applyCh s) (s_locCache s) (s_segCache s) (s_events s)
    (s_syncCalls s) (s_closing s).

(** A flush with something to drain writes the overlay to the index, one
    INDEX_SAFE marker to the segment and the checkpoint that names its end. *)
Lemma flush_run ev (s : Store DB) f :
  quiet ev -> Overlay_wf (s_overlay s) -> o_draining (s_overlay s) = ∅ ->
  o_entries (s_overlay s) <> ∅ ->
  let id := a_segmentID (s_alloc s) in
  let safe := p_flushSeq (s_pub s) in
  s_dir s !! id = Some f -> a_offset (s_alloc s) = file_size f ->
  file_size f + 42 <= a_maxSegmentBytes (s_alloc s) ->
  22 <= file_size f -> file_size f + 73 < 2 ^ 63 -> is_u8 stream -> is_u64 id -> id <> 0 ->
  0 < safe < 2 ^ 62 -> cd_persistent (s_ckpt s) = true ->
  exists ix d, flush cfg ev s =
    (flushed s (Consume (s_alloc s) 73) (f ++ commit_record_bytes (index_safe_record safe)) ix d,
     Ok tt) /\
    (forall e g, Index_Get ix e g = lookup_value s e g) /\
    cd_persistent d = true /\
    LoadRecoveryCheckpoint d stream =
      Ok (Some (mkRecoveryCheckpoint recoveryCheckpointVersion stream id (file_size f + 73) safe)).
Proof.
  intros Hq Wf Dr Hne id safe Hf Ht Hmax H22 H63 Hst Hid Hid0 Hsafe Hp.
  pose proof Hq as (_ & _ & Qs & Qi & Qc & _).
  destruct (put_all_overlay (s_index s) (s_overlay s) Wf Dr) as (ix & Eix & Gix).
  set (c := mkRecoveryCheckpoint recoveryCheckpointVersion stream id (file_size f + 73) safe).
  assert (checkpoint_wf c) as Wc.
  { repeat split; cbn [c rcp_StreamID rcp_SegmentID rcp_SafeOffset rcp_SafeSeq]; try apply Hst;
      try apply Hid; done || (change (Z.of_nat SegmentHeaderSize) with 22; lia). }
  destruct (store_checkpoint_ok (s_ckpt s) c Hp Wc) as (d & states & Est & Hd & Hpd & Hload).
  exists ix, d. split; [|split; [exact Gix|split; [exact Hpd|exact Hload]]].
  unfold flush. stepM. destruct (Overlay_Drain (s_overlay s)) as [muts o] eqn:Edr.
  cbn [fst] in Eix. stepM.
  assert (muts <> []) as Hmne.
  { intros ->. apply Hne, Overlay_Drain_empty. by rewrite Edr. }
  destruct muts as [|m muts]; [done|]. fold safe.
  assert (flush_checkpoint cfg ev safe (m :: muts) (set_overlay o s) =
    (mkStore (Consume (s_alloc s) 73) (<[id := f ++ commit_record_bytes (index_safe_record safe)]> (s_dir s))
       ix d o (s_streamSeq s) (s_nextSeg s) (s_pub s) (s_safeSeq s) (s_applyCh s) (s_locCache s)
       (s_segCache s) (s_events s) (s_syncCalls s) (s_closing s), Ok tt)) as Hck.
  { unfold flush_checkpoint.
    erewrite (bindM_ok _ _ _ (set_index ix (set_overlay o s)) tt).
    2:{ unfold applyNow. stepM. cbn [set_overlay s_index]. rewrite Eix. by stepM. }
    rewrite Qi. stepM.
    erewrite (bindM_ok (writeIndexSafeLocked cfg ev safe) _ _
      (set_alloc (Consume (s_alloc s) 73)
        (set_dir (<[id := f ++ commit_record_bytes (index_safe_record safe)]> (s_dir s))
          (set_index ix (set_overlay o s))))
      (mkRecoveryCheckpoint 0 stream id (file_size f + 73) safe)).
    2:{ unfold writeIndexSafeLocked.
        rewrite CommitRecord_Encode_bytes by (by rewrite length_replicate).
        rewrite drop_ge, app_nil_r by (by rewrite length_replicate).
        stepM. stepM. cbn [set_index set_overlay s_alloc]. unfold CurrentTail.
        change (Z.of_nat BatchCommitSize) with 42. rewrite refuse_pass by (apply Z.ltb_ge; lia).
        stepM. erewrite bindM_ok by (eapply (write_active_ok ev Hq); [exact Hf|exact Ht]).
        rewrite Qs. stepM. stepM. unfold ret. rewrite Ht. done. }
    stepM. cbn [set_alloc set_dir set_index set_overlay s_ckpt s_alloc s_dir s_index s_overlay
      s_streamSeq s_nextSeg s_pub s_safeSeq s_applyCh s_locCache s_segCache s_events s_syncCalls
      s_closing]. rewrite Qc.
    change (mkRecoveryCheckpoint 0 stream id (file_size f + 73) safe) with
      (mkRecoveryCheckpoint 0 (rcp_StreamID c) (rcp_SegmentID c) (rcp_SafeOffset c) (rcp_SafeSeq c)).
    rewrite Est. stepM. rewrite Hd. done. }
  rewrite Hck. unfold flushed. fold id. cbn [set_overlay s_pub s_overlay s_alloc].
  assert (Overlay_DiscardDrained o = NewOverlay) as Ho.
  { unfold Overlay_Drain in Edr. injection Edr as _ <-. done. }
  unfold set_pub, set_safeSeq_, set_overlay. cbn. by rewrite Ho.
Qed.
End Flush.
