(* ===== verification/Restart.v ===== *)
(** * Flush and restart

    A flush moves the overlay to the index without changing any lookup. After
    a crash at any point of a commit or a flush, [New] opens the store, and
    every lookup answers as before the crash. *)

From stdpp Require Import base list numbers strings gmap.
From Stdlib Require Import ZArith Lia.
From S2P Require Import Prelude Bytes Crc StorageTypes FileIO Record Journal SegmentFile Pebble Index Allocator Overlay Checkpoint Cache Recover SegmentLog LogParse Framing FramingProofs Store StoreProofs Durability.

Local Open Scope Z_scope.
Local Open Scope go_scope.

Lemma file_size_hdr_log stream id hdr es :
  length hdr = SegmentHeaderSize -> file_size (hdr ++ log_bytes stream id 22 es) = log_end 22 es.
Proof.
  intros Hl. rewrite file_size_app, <- (file_size_log stream id). unfold file_size at 1. by rewrite Hl.
Qed.

Lemma overlay_eq_nil o : o_entries o = ∅ -> o_draining o = ∅ -> o = NewOverlay.
Proof. destruct o. cbn. by intros -> ->. Qed.

Lemma overlay_eq_entries o o' :
  overlay_eq o o' -> o_draining o = ∅ -> o_draining o' = ∅ -> o_entries o <> ∅ -> o_entries o' <> ∅.
Proof.
  intros He Hd Hd' Hne E. apply Hne. apply map_eq. intros k. specialize (He k).
  unfold Overlay_Get in He. rewrite Hd, Hd', E, !lookup_empty in He. rewrite lookup_empty.
  destruct (o_entries o !! k); [inversion He|done].
Qed.

Section Restart.
Context {DB : Type} `{KL : PebbleLaws DB} (cfg : Config).
Let stream := c_StreamID cfg.

(** Room for one INDEX_SAFE marker. *)
Definition marker_room (s : Store DB) : Prop :=
  a_offset (s_alloc s) + 42 <= a_maxSegmentBytes (s_alloc s) /\ a_offset (s_alloc s) + 73 < 2 ^ 62
  /\ s_streamSeq s < 2 ^ 62.

(** The store after one INDEX_SAFE marker was appended. *)
Definition marked (s : Store DB) : Store DB :=
  let id := a_segmentID (s_alloc s) in
  set_alloc (Consume (s_alloc s) 73)
    (set_dir (<[id := default [] (s_dir s !! id)
                      ++ commit_record_bytes (index_safe_record (s_streamSeq s))]> (s_dir s)) s).

Lemma log_ok_marker s hdr es1 es2 seq0 :
  durable cfg s hdr es1 es2 seq0 -> marker_room s ->
  log_ok stream 22 0 ((es1 ++ es2) ++ [LSafe (s_streamSeq s)]).
Proof.
  intros D (_ & R2 & R3). pose proof D as [[Wa _ _ _ Ht Hlog [Hl0 Hl1] _ _ _] _ _ _ _ _ _ _ _ _ _ _ _].
  apply log_ok_app. split; [done|]. cbn [log_ok]. split; [|done]. unfold entry_ok.
  cbn [entry_size]. rewrite <- Ht. destruct Wa. lia.
Qed.

Lemma marked_durable s hdr es1 es2 seq0 :
  durable cfg s hdr es1 es2 seq0 -> marker_room s ->
  durable cfg (marked s) hdr es1 (es2 ++ [LSafe (s_streamSeq s)]) seq0.
Proof.
  intros D R. pose proof (log_ok_marker _ _ _ _ _ D R) as Hok.
  destruct D as [[Wa Hh Hdec Hf Ht Hlog Hseq Hp Hfl Hr] C S0 L2 La Ov St Pe Id Mx Nx Wf Dr].
  unfold marked. rewrite Hf. change (default [] (Some ?x)) with x.
  constructor; cbn [s_alloc s_dir s_ckpt s_overlay s_streamSeq s_nextSeg set_alloc set_dir Consume
    set_offset a_segmentID]; try done.
  - constructor; cbn [s_alloc s_dir s_streamSeq s_pub set_alloc set_dir Consume set_offset
      a_segmentID a_offset]; try done; rewrite ?app_assoc.
    + destruct Wa. constructor; cbn; try done. lia.
    + rewrite lookup_insert_eq, (log_bytes_app _ _ _ (es1 ++ es2)). cbn [log_bytes entry_bytes].
      by rewrite app_nil_r, app_assoc.
    + rewrite Ht, (log_end_app 22 (es1 ++ es2)). unfold log_end at 2. cbn. lia.
    + exact Hok.
    + rewrite log_last_app. exact Hseq.
  - apply log_ok_app. split; [exact L2|]. rewrite <- app_assoc in Hok.
    apply log_ok_app in Hok as [_ Hok]. apply log_ok_app in Hok as [_ Hok].
    cbn [log_ok] in *. split; [|done]. apply Hok.
  - by rewrite log_last_app.
  - rewrite log_overlay_app. exact Ov.
  - etransitivity; [eapply maxSegmentID_overwrite; [lia|exact Hf]|done].
Qed.

Lemma flush_durable ev (s : Store DB) hdr es1 es2 seq0 :
  quiet ev -> durable cfg s hdr es1 es2 seq0 -> marker_room s ->
  exists s', flush cfg ev s = (s', Ok tt) /\
    (exists es1' es2' seq0', durable cfg s' hdr es1' es2' seq0') /\
    (forall e g, lookup_value s' e g = lookup_value s e g) /\
    s_overlay s' = NewOverlay /\ a_maxSegmentBytes (s_alloc s') = a_maxSegmentBytes (s_alloc s) /\
    s_locCache s' = s_locCache s /\ s_closing s' = s_closing s /\ s_applyCh s' = s_applyCh s /\
    s_segCache s' = s_segCache s /\
    exists f t, s_dir s !! a_segmentID (s_alloc s) = Some f /\
      s_dir s' = <[a_segmentID (s_alloc s) := f ++ t]> (s_dir s).
Proof.
  intros Hq D R. pose proof (log_ok_marker _ _ _ _ _ D R) as Hok.
  pose proof D as [O C S0 L2 La Ov St Pe Id Mx Nx Wf Dr].
  destruct (decide (o_entries (s_overlay s) = ∅)) as [He|He].
  { pose proof (overlay_eq_nil _ He Dr) as Ho. exists s. unfold flush. stepM.
    rewrite Ho. cbn. unfold modify, bindM. cbn.
    assert (set_overlay (mkOverlay ∅ ∅) s = s) as E by (destruct s; cbn in *; by subst).
    assert (mkOverlay ∅ (∅ ∪ ∅) = mkOverlay ∅ ∅) as -> by (by rewrite map_empty_union).
    rewrite E. unfold ret. repeat (split; [done || by eauto|]).
    destruct O as [_ _ _ Hf _ _ _ _ _ _]. eexists _, []. split; [exact Hf|].
    rewrite app_nil_r. by rewrite insert_id. }
  pose proof O as [Wa Hh Hdec Hf Ht Hlog Hseq Hp Hfl Hr]. destruct R as (R1 & R2 & R3).
  assert (0 < s_streamSeq s) as Hpos.
  { assert (0 <= seq0) as Hs0 by (by destruct S0).
    destruct (log_overlay_seq stream (a_segmentID (s_alloc s)) _ _ es2 NewOverlay L2 Hs0) as [E|E];
      [|lia].
    exfalso. rewrite E in Ov. by apply (overlay_eq_entries _ _ Ov Dr eq_refl He). }
  pose proof (file_size_hdr_log stream (a_segmentID (s_alloc s)) hdr (es1 ++ es2) Hh) as Hsz.
  fold stream in Hf. destruct (flush_run cfg ev s _ Hq Wf Dr He Hf) as (ix & d & E & Hix & Hpd & Hload).
  { rewrite Hsz. exact Ht. }
  { rewrite Hsz, <- Ht. lia. }
  { rewrite Hsz, <- Ht. by destruct Wa. }
  { rewrite Hsz, <- Ht. lia. }
  { exact St. }
  { unfold uintw. lia. }
  { lia. }
  { rewrite Hfl. lia. }
  { exact Pe. }
  eexists. split; [exact E|].
  split; [|split; [intros e g; apply Hix|repeat (split; [done|]); eauto]].
  exists ((es1 ++ es2) ++ [LSafe (s_streamSeq s)]), [], (s_streamSeq s).
  rewrite Hsz, Hfl in Hload. unfold flushed. rewrite Hfl.
  constructor; cbn [s_alloc s_dir s_ckpt s_overlay s_streamSeq s_nextSeg Consume set_offset
    a_segmentID]; try done; rewrite ?app_nil_r.
  - constructor; cbn [s_alloc s_dir s_streamSeq s_pub set_alloc set_dir Consume set_offset
      a_segmentID a_offset p_publishedSeq p_flushSeq p_readyBatches]; try done.
    + destruct Wa. constructor; cbn; try done. lia.
    + rewrite lookup_insert_eq, (log_bytes_app _ _ _ (es1 ++ es2)). cbn [log_bytes entry_bytes].
      by rewrite app_nil_r, app_assoc.
    + rewrite Ht, (log_end_app 22 (es1 ++ es2)). unfold log_end at 2. cbn. lia.
    + rewrite log_last_app. exact Hseq.
  - eexists. split; [exact Hload|]. cbn [rcp_SegmentID rcp_SafeOffset rcp_SafeSeq s_alloc Consume
      set_offset a_segmentID].
    split; [done|]. rewrite bool_decide_true by done.
    split; [rewrite (log_end_app 22 (es1 ++ es2)); unfold log_end at 2; cbn; lia|].
    split; [done|]. split; [lia|]. by eauto.
  - split; lia.
  - etransitivity; [eapply maxSegmentID_overwrite; [lia|exact Hf]|done].
Qed.

Definition new_header (id : Z) : SegmentHeader :=
  mkSegmentHeader SegmentMagic FormatVersion id (classForStream stream) 0 0.

(** The store once [newActiveSegment] rotated to the segment after [id]. *)
Definition rotated (ev : env) (id : Z) (s : Store DB) : Store DB :=
  mkStore (NewAllocator (id + 1) (classForStream stream) (c_SegmentSize cfg) (ev_now ev))
    (<[id + 1 := segment_header_bytes (new_header (id + 1))]> (s_dir s)) (s_index s) (s_ckpt s)
    (s_overlay s) (s_streamSeq s) (id + 1) (s_pub s) (s_safeSeq s) (s_applyCh s) (s_locCache s)
    (SegCache_Pin (s_segCache s) (id + 1)) (s_events s) (s_syncCalls s) (s_closing s).

Lemma newActiveSegment_ok ev n (s : Store DB) id :
  quiet ev -> s_nextSeg s = id -> s_dir s !! (id + 1) = None -> 0 <= id -> id + 1 < 2 ^ 64 ->
  newActiveSegment ev n (classForStream stream) (c_SegmentSize cfg) s = (rotated ev id s, Ok tt).
Proof.
  intros (_ & Qw & _) Hn Hdir H0 Hb. unfold newActiveSegment. stepM. rewrite Hn.
  rewrite wrap_small by (unfold uintw; lia). stepM.
  change (mkSegmentHeader SegmentMagic FormatVersion (id + 1) (classForStream stream) 0 0)
    with (new_header (id + 1)).
  rewrite SegmentHeader_Encode_bytes by (by rewrite length_replicate).
  rewrite drop_ge, app_nil_r by (by rewrite length_replicate). stepM.
  rewrite Hdir. change (default [] None) with (@nil Z). stepM. rewrite Qw. stepM. stepM.
  unfold modify, rotated. do 2 f_equal.
Qed.

Lemma rotated_durable ev (s : Store DB) id cp :
  s_nextSeg s = id -> maxSegmentID (s_dir s) = id -> 0 <= id -> id + 1 < 2 ^ 64 ->
  s_overlay s = NewOverlay -> is_u8 stream -> cd_persistent (s_ckpt s) = true ->
  LoadRecoveryCheckpoint (s_ckpt s) stream = Ok cp ->
  (match cp with Some c => rcp_SegmentID c <= id | None => True end) -> 0 <= s_streamSeq s ->
  s_pub s = mkPublication (s_streamSeq s) ∅ (s_streamSeq s) (p_flushMutations (s_pub s)) ->
  durable cfg (rotated ev id s) (segment_header_bytes (new_header (id + 1))) [] [] 0.
Proof.
  intros Hn Hm H0 Hb Ho Hst Hp Hload Hcp Hs Hpub.
  assert (s_dir s !! (id + 1) = None) as Hdir.
  { destruct (s_dir s !! (id + 1)) as [f|] eqn:E; [|done]. apply maxSegmentID_bound in E. lia. }
  constructor; unfold rotated;
    cbn [s_alloc s_dir s_ckpt s_overlay s_streamSeq s_nextSeg NewAllocator a_segmentID app];
    try done; try (rewrite Ho; done).
  - constructor; cbn [s_alloc s_dir s_streamSeq s_pub NewAllocator a_segmentID a_offset];
      try rewrite Hpub; cbn [p_publishedSeq p_flushSeq p_readyBatches].
    + apply NewAllocator_wf.
    + apply length_segment_header_bytes.
    + rewrite <- (app_nil_r (segment_header_bytes _)), SegmentHeader_Decode_bytes; [done| |done].
      constructor; cbn; try done; unfold uintw, classForStream; try lia. by destruct (stream =? 0).
    + by rewrite lookup_insert_eq, app_nil_r.
    + done.
    + done.
    + change (log_last 0 []) with 0. lia.
    + done.
    + done.
    + done.
  - eexists. split; [exact Hload|]. destruct cp as [c|]; [|done]. cbn [s_alloc NewAllocator a_segmentID].
    split; [lia|]. by rewrite bool_decide_false by lia.
  - lia.
  - rewrite maxSegmentID_insert, delete_id by (done || lia). lia.
Qed.

(** Room for the marker of startup's flush, below the configured size. *)
Definition restart_room (s : Store DB) (es2 : list log_entry) (seq0 : Z) : Prop :=
  a_offset (s_alloc s) + 42 <= a_maxSegmentBytes (NewAllocator 0 0 (c_SegmentSize cfg) 0) /\
  a_offset (s_alloc s) + 73 < 2 ^ 62 /\ log_last seq0 es2 < 2 ^ 62 /\
  a_segmentID (s_alloc s) + 1 < 2 ^ 64.

(** The state [persistRecoveredOverlay] leaves: the recovered overlay is in
    the index, and what is volatile is as after a flush. *)
Definition persisted (s0 s : Store DB) (id L : Z) : Prop :=
  s_overlay s = NewOverlay /\ (forall e g, lookup_value s e g = lookup_value s0 e g) /\
  s_closing s = s_closing s0 /\ s_locCache s = s_locCache s0 /\ s_applyCh s = s_applyCh s0 /\
  maxSegmentID (s_dir s) = id /\ cd_persistent (s_ckpt s) = true /\ s_streamSeq s = L /\
  s_pub s = mkPublication L ∅ L (p_flushMutations (s_pub s)) /\
  (exists f t, s_dir s0 !! id = Some f /\ s_dir s = <[id := f ++ t]> (s_dir s0)) /\
  exists cp, LoadRecoveryCheckpoint (s_ckpt s) stream = Ok cp /\
    match cp with Some c => rcp_SegmentID c <= id | None => True end.

Lemma persist_ok su ev (s0 : Store DB) id f L cp :
  quiet ev -> (forall n, su_late su n = false) ->
  s_dir s0 !! id = Some f -> maxSegmentID (s_dir s0) = id -> 0 < id < 2 ^ 64 ->
  Overlay_wf (s_overlay s0) -> o_draining (s_overlay s0) = ∅ ->
  (s_overlay s0 = NewOverlay \/ 0 < L) -> 0 <= L < 2 ^ 62 ->
  s_streamSeq s0 = L -> s_pub s0 = mkPublication L ∅ L 0 ->
  22 <= file_size f -> file_size f + 73 < 2 ^ 62 ->
  file_size f + 42 <= a_maxSegmentBytes (NewAllocator 0 0 (c_SegmentSize cfg) 0) ->
  is_u8 stream -> cd_persistent (s_ckpt s0) = true ->
  LoadRecoveryCheckpoint (s_ckpt s0) stream = Ok cp ->
  (match cp with Some c => rcp_SegmentID c <= id | None => True end) ->
  exists s, persistRecoveredOverlay cfg su ev id s0 = (s, Ok tt) /\ persisted s0 s id L.
Proof.
  intros Hq Hlate Hf Hmax Hid Wf Dr Hov HL Hs Hpub H22 H62 Hroom Hst Hp Hload Hcp.
  assert (forall n (s : Store DB), check_deadline su n s = (s, Ok tt)) as Hck
    by (intros; unfold check_deadline; by rewrite Hlate).
  unfold persistRecoveredOverlay. stepM. rewrite (bindM_ok _ _ _ _ _ (Hck 1%nat s0)).
  unfold Overlay_Len. destruct (Nat.eqb_spec (size (o_entries (s_overlay s0))) 0) as [Hz|Hz].
  { apply map_size_empty_inv in Hz. exists s0. unfold ret. split; [done|].
    split; [by apply overlay_eq_nil|]. rewrite Hpub. repeat (split; [done|]).
    split; [|by eauto]. exists f, []. by rewrite app_nil_r, insert_id. }
  assert (o_entries (s_overlay s0) <> ∅) as Hne by (intros E; apply Hz; by rewrite E).
  rewrite Hf. change (Z.of_nat SegmentHeaderSize) with 22.
  rewrite (proj2 (Z.ltb_ge _ _) H22). stepM.
  set (a := Consume _ _). set (s1 := set_alloc _ s0).
  assert (a_offset a = file_size f) as Ha by (unfold a, Consume, set_offset; cbn [a_offset NewAllocator];
    change (Z.of_nat SegmentHeaderSize) with 22; lia).
  assert (0 < L) as HLpos by (destruct Hov as [E|]; [by rewrite E in Hne|done]).
  destruct (flush_run cfg ev s1 f Hq Wf Dr Hne Hf) as (ix & d & E & Hix & Hpd & Hld); try done.
  { cbn. lia. }
  { unfold uintw; cbn; lia. }
  { cbn. lia. }
  { cbn. rewrite Hpub. cbn. lia. }
  rewrite (bindM_ok _ _ _ _ _ E). rewrite Hck. eexists. split; [reflexivity|].
  unfold flushed, persisted. cbn [s_overlay s_dir s_ckpt s_streamSeq s_pub s_index s1 set_alloc].
  rewrite Hpub. cbn [p_publishedSeq p_readyBatches p_flushSeq p_flushMutations].
  split; [done|]. split; [intros e g; apply Hix|]. do 3 (split; [done|]). split.
  { etransitivity; [eapply maxSegmentID_overwrite; [|exact Hf]|done]. cbn. lia. }
  split; [done|]. split; [done|]. split; [done|]. split; [by eauto|].
  eexists. split; [exact Hld|]. cbn. lia.
Qed.

Lemma restart_ok su ev (s : Store DB) hdr es1 es2 seq0 e tail d :
  quiet ev -> (forall n, su_late su n = false) ->
  durable cfg s hdr es1 es2 seq0 -> crash_disk s tail d ->
  torn stream (a_segmentID (s_alloc s)) (log_end 22 (es1 ++ es2)) (log_last seq0 es2) e tail ->
  within_budget cfg su es2 e tail -> restart_room s es2 seq0 ->
  exists s' hdr', New cfg su ev d = (s', Ok tt) /\ durable cfg s' hdr' [] [] 0 /\
    (forall e g, lookup_eq (lookup_value s' e g) (lookup_value s e g)) /\
    s_overlay s' = NewOverlay /\ s_closing s' = false /\ s_locCache s' = NewLocationCache 0 /\
    s_applyCh s' = [] /\
    exists f t h, s_dir s !! a_segmentID (s_alloc s) = Some f /\
      s_dir s' = <[a_segmentID (s_alloc s) + 1 := h]> (<[a_segmentID (s_alloc s) := f ++ t]> (s_dir s)).
Proof.
  intros Hq Hlate D Hcr Htorn Hbud (R1 & R2 & R3 & R4).
  pose proof D as [[Wa Hh Hdec Hf Ht Hlog Hseq Hp Hfl Hr] (cp & Hload & Hcp) S0 L2 La Ov St Pe Id Mx
    Nx Wf Dr].
  set (id := a_segmentID (s_alloc s)) in *. set (L := log_last seq0 es2) in *.
  pose proof (log_last_mono _ _ _ _ L2 (proj1 S0)) as Hmono. destruct S0 as [S0 _].
  destruct (recoverActiveSegment_ok cfg su s hdr es1 es2 seq0 e tail cp d D Hload Hcr Htorn Hbud)
    as (s1 & E1 & F1 & F2 & F3 & F4 & F5 & F6 & F7 & F8 & F9). fold id in E1, F4. fold L in F5, F6.
  assert (match cp with Some c => rcp_SegmentID c <= id | None => True end) as Hcpb
    by (destruct cp; [apply Hcp|done]).
  pose proof (crash_checkpoint cfg _ _ _ Hcr) as Hldd. pose proof Hcr as [Cdir Cix Cm Cp].
  cbv zeta in Cdir. fold id in Cdir.
  assert (maxSegmentID (d_dir d) = id) as Hmd.
  { rewrite Cdir. etransitivity; [eapply maxSegmentID_overwrite; [lia|exact Hf]|done]. }
  pose proof (file_size_hdr_log stream id hdr (es1 ++ es2) Hh) as Hsz.
  destruct (persist_ok su ev s1 id (hdr ++ log_bytes stream id 22 (es1 ++ es2)) L cp) as (s2 & E2 & P);
    rewrite ?F1, ?F3, ?F4, ?F5, ?F6, ?Hsz; try done; try (rewrite <- Ht; lia || (destruct Wa; lia)).
  { eapply log_overlay_wf; [by split; apply map_Forall_empty|exact L2|unfold uintw; lia]. }
  { by rewrite log_overlay_draining. }
  { by eapply log_overlay_seq. }
  { lia. }
  { rewrite <- Ht. by destruct Wa. }
  { by rewrite Cp. }
  { exact (eq_trans Hldd Hload). }
  destruct P as (P1 & P2 & Pc & Pl & Pa & P3 & P4 & P5 & P6 & Pd & cp2 & P7 & P8).
  exists (rotated ev id (set_nextSeg id s2)), (segment_header_bytes (new_header (id + 1))).
  split; [|split; [|split; [|split]]].
  - unfold New, New_run. stepM. change (s_ckpt (open_store cfg d)) with (d_ckpt d).
    rewrite Hldd, Hload. stepM. change (s_dir (open_store cfg d)) with (d_dir d).
    rewrite Hmd, (bindM_ok _ _ _ _ _ E1), (bindM_ok _ _ _ _ _ E2). do 2 stepM. rewrite P3.
    erewrite bindM_ok; [|eapply (newActiveSegment_ok ev 1 (set_nextSeg id s2) id Hq); try done].
    + unfold check_deadline. by rewrite Hlate.
    + destruct (s_dir (set_nextSeg id s2) !! (id + 1)) as [f|] eqn:E; [|done].
      apply maxSegmentID_bound in E. cbn in E. lia.
    + lia.
  - eapply rotated_durable; try done; try (cbn; lia). cbn. by rewrite P5.
  - intros e' g'. change (lookup_value (rotated ev id (set_nextSeg id s2)) e' g')
      with (lookup_value s2 e' g'). rewrite P2.
    apply lookup_overlay_eq; [by rewrite F4|]. rewrite F2. apply Cix.
  - done.
  - cbn. rewrite Pc, Pl, Pa, F7, F8, F9. repeat (split; [done|]).
    rewrite F1 in Pd. destruct Pd as (f & t & Hf0 & Hd0). exists f, t. eexists. by rewrite Hd0.
Qed.

(** ** Rotation *)

(** A rotation that returns has only appended to the sealed segment; with an
    empty overlay the new active segment starts an empty log. *)
Lemma seal_durable ev (s s' : Store DB) hdr es1 es2 seq0 :
  quiet ev -> durable cfg s hdr es1 es2 seq0 -> s_overlay s = NewOverlay ->
  a_class (s_alloc s) = classForStream stream -> a_segmentID (s_alloc s) + 1 < 2 ^ 64 ->
  sealActiveLocked cfg ev s = (s', Ok tt) ->
  let id := a_segmentID (s_alloc s) in
  durable cfg s' (segment_header_bytes (new_header (id + 1))) [] [] 0 /\
  (exists f t, s_dir s !! id = Some f /\
     s_dir s' = <[id + 1 := segment_header_bytes (new_header (id + 1))]> (<[id := f ++ t]> (s_dir s))) /\
  s_overlay s' = NewOverlay /\ s_index s' = s_index s /\ s_closing s' = s_closing s /\
  s_alloc s' = NewAllocator (id + 1) (classForStream stream) (c_SegmentSize cfg) (ev_now ev) /\
  s_streamSeq s' = s_streamSeq s.
Proof.
  intros Hq [[Wa Hh Hdec Hf Ht Hlog Hseq Hp Hfl Hr] C S0 L2 La Ov St Pe Id Mx Nx Wf Dr] Ho Hcl Hb E id.
  fold id in Hf, Id, Mx, Nx, Hb. unfold sealActiveLocked in E. rewrite bindM_get in E. fold id in E.
  rewrite Hf in E. change (default [] (Some ?x)) with x in E.
  destruct (WriteFooter _ (a_offset (s_alloc s)) _) as [[f' footer']|] eqn:EF; [|done].
  pose proof Hq as (_ & _ & Qs & _ & _ & Qt).
  apply WriteFooter_extends in EF as [t ->]. rewrite bindM_lift, Qt, bindM_modify in E. rewrite Qs, bindM_check, Hcl in E.
  set (f := hdr ++ _) in *. set (s1 := set_dir (<[id := f ++ t]> (s_dir s)) s) in *.
  assert (maxSegmentID (s_dir s1) = id) as Hm1
    by (etransitivity; [eapply maxSegmentID_overwrite; [lia|exact Hf]|done]).
  assert (s_dir s1 !! (id + 1) = None) as Hnone.
  { destruct (s_dir s1 !! (id + 1)) as [x|] eqn:Ex; [|done]. apply maxSegmentID_bound in Ex. lia. }
  rewrite (newActiveSegment_ok ev 0 s1 id Hq Nx Hnone ltac:(lia) Hb) in E. injection E as <-.
  destruct C as (cp & Hload & Hcp). split; [|split; [by exists f, t|by rewrite <- Ho]].
  apply (rotated_durable ev s1 id cp); try done; try lia.
  - destruct cp as [c|]; [|done]. apply Hcp.
  - cbn. lia.
  - cbn. destruct (s_pub s). cbn in *. by subst.
Qed.
End Restart.

(** * Requests: what is written is read

    A PUT request becomes a well-formed record that holds its payload; a
    successful [Write] makes [Read] return it, whole or by range, and leaves
    every other extent alone; a successful [Delete] makes it unreadable. *)

(** ** Framing a payload never fails *)

Section Build.
Context `{FLaws : FrameLaws}.

Definition key_usable (encKey : option (list Z)) : Prop :=
  match encKey with Some k => aes_key_ok k = true | None => True end.

Definition nonces_ok (nonces : nat -> list Z) : Prop :=
  forall i, length (nonces i) = NonceSize /\ bytes_wf (nonces i).

Definition stored_fine (p : list Z * Z) : Prop :=
  bytes_wf p.1 /\ (p.2 = CompressionNone \/ p.2 = CompressionZstd).

Lemma store_frame_ok compressed encKey nonce frame :
  key_usable encKey -> length nonce = NonceSize -> bytes_wf nonce -> bytes_wf frame ->
  exists p, store_frame compressed encKey nonce frame = Ok p /\ stored_fine p /\
    (length p.1 <= length frame + 28)%nat.
Proof.
  intros Hk Hn Hnw Hf. unfold store_frame.
  assert (exists sf c, (if compressed then match CompressFrame frame with
      | (cf, true) => (cf, CompressionZstd) | (_, false) => (frame, CompressionNone) end
      else (frame, CompressionNone)) = (sf, c) /\ bytes_wf sf /\
      (c = CompressionNone \/ c = CompressionZstd) /\ (length sf <= length frame)%nat)
    as (sf & c & -> & Hw & Hc & Hl).
  { unfold CompressFrame. destruct compressed; [|by eauto 10].
    destruct (Nat.leb_spec (length frame) (length (zstd_EncodeAll frame))); [by eauto 10|].
    exists (zstd_EncodeAll frame), CompressionZstd. split; [done|]. split; [by apply zstd_bytes|].
    split; [auto|lia]. }
  destruct encKey as [k|]; cbn in Hk.
  - unfold EncryptFrame. rewrite Hk. cbn [negb]. rewrite bind_Ok. eexists. split; [done|].
    cbn [fst snd]. split; [split; [|done]|].
    + apply bytes_wf_app. split; [done|]. by apply gcm_bytes.
    + cbn [fst]. rewrite length_app, gcm_length, Hn. change NonceSize with 12%nat.
      change AEADOverhead with 16%nat. lia.
  - eexists. split; [done|]. split; [done|]. cbn [fst]. lia.
Qed.

Lemma build_loop_total compressed encKey nonces i frames ps0 :
  key_usable encKey -> nonces_ok nonces -> Forall bytes_wf frames ->
  Z.of_nat (length (stored_bytes ps0) + length (concat frames) + 28 * length frames) < 2 ^ 32 ->
  exists ps, build_loop compressed encKey nonces i frames (Z.of_nat (length (stored_bytes ps0)))
      (stored_bytes ps0) (entries_of 0 ps0)
    = Ok (stored_bytes (ps0 ++ ps), entries_of 0 (ps0 ++ ps)) /\
    Forall2 (stored_as compressed encKey) frames ps /\ Forall stored_fine ps /\
    (length (stored_bytes ps) <= length (concat frames) + 28 * length frames)%nat.
Proof.
  intros Hk Hn Hf. revert i ps0. induction Hf as [|frame frames Hw Hf IH]; intros i ps0 Hb.
  { exists []. cbn. by rewrite app_nil_r. }
  cbn [concat length] in Hb. rewrite length_app in Hb.
  destruct (store_frame_ok compressed encKey (nonces i) frame Hk) as ([sf c] & E & Hfine & Hl);
    [apply Hn|apply Hn|done|]. cbn [fst] in Hl.
  cbn [build_loop]. rewrite E, bind_Ok. cbv zeta.
  rewrite !wrap_small by (unfold uintw; rewrite ?wrap_small; unfold uintw; lia).
  assert (stored_bytes ps0 ++ sf = stored_bytes (ps0 ++ [(sf, c)])) as E1
    by (rewrite stored_bytes_app; unfold stored_bytes; cbn [map concat fst]; by rewrite app_nil_r).
  assert (entries_of 0 ps0 ++ [mkFrameIndexEntry (Z.of_nat (length (stored_bytes ps0)))
            (Z.of_nat (length sf)) c (CRC32C sf)] = entries_of 0 (ps0 ++ [(sf, c)])) as E2
    by (by rewrite entries_of_app).
  assert (length (stored_bytes (ps0 ++ [(sf, c)])) = (length (stored_bytes ps0) + length sf)%nat) as E3
    by (by rewrite <- E1, length_app).
  rewrite E1, E2, <- Nat2Z.inj_add, <- E3.
  destruct (IH (S i) (ps0 ++ [(sf, c)])) as (ps & -> & Hps & Hfs & Hlen); [rewrite E3; lia|].
  exists ((sf, c) :: ps). rewrite <- !app_assoc. split; [done|]. split; [|split].
  - constructor; [|done]. exists (nonces i). split; [apply Hn|done].
  - by constructor.
  - change (stored_bytes ((sf, c) :: ps)) with (sf ++ stored_bytes ps).
    cbn [concat length]. rewrite !length_app. lia.
Qed.

Lemma entries_of_wf off ps :
  Forall stored_fine ps -> 0 <= off -> off + Z.of_nat (length (stored_bytes ps)) < 2 ^ 32 ->
  Forall FrameIndexEntry_wf (entries_of off ps).
Proof.
  intros H. revert off. induction H as [|[sf c] ps [Hw Hc] H IH]; intros off H0 Hb; [constructor|].
  change (stored_bytes ((sf, c) :: ps)) with (sf ++ stored_bytes ps) in Hb.
  rewrite length_app in Hb. cbn [fst snd] in *. cbn [entries_of]. constructor; [|apply IH; lia].
  unfold FrameIndexEntry_wf, uintw. cbn. split; [lia|]. split; [lia|].
  split; [destruct Hc as [->| ->]; unfold CompressionNone, CompressionZstd; lia|].
  by apply CRC32C_bound.
Qed.
End Build.

(** ** The record of a PUT *)

(** The active key, as the encryption manager hands it out. *)
Record key_config (cfg : Config) (encKey : option (list Z)) (keyID : Z) : Prop := mkKeyConfig {
  kc_active : active_key cfg = Ok (encKey, keyID);
  kc_usable : key_usable encKey;
  kc_id : is_u64 keyID;
  kc_resolves : resolves (c_resolve cfg) keyID encKey
}.

Record put_request (req : WriteRequest) : Prop := mkPutRequest {
  pr_extent : is_u64 (wr_ExtentID req);
  pr_generation : is_u64 (wr_Generation req);
  pr_bytes : bytes_wf (wr_Data req);
  pr_size : Z.of_nat (length (wr_Data req)) <= 2 ^ 31
}.

Section Put.
Context `{FLaws : FrameLaws} (cfg : Config) (encKey : option (list Z)) (keyID : Z).

(** A pending write that carries the request's payload. *)
Definition carries (req : WriteRequest) (pw : pendingWrite) (r : log_record) : Prop :=
  pw_live pw r /\ h_Op (lr_header r) = RecordPut /\ h_KeyID (lr_header r) = keyID /\
  h_ExtentID (lr_header r) = wr_ExtentID req /\ h_Generation (lr_header r) = wr_Generation req /\
  h_PayloadChecksum (lr_header r) = CRC32C (wr_Data req) /\
  h_LogicalLen (lr_header r) = Z.of_nat (length (wr_Data req)) /\
  exists compressed, framed compressed encKey (wr_Data req) r.

Lemma length_payload_frames payload :
  Z.of_nat (length (payload_frames payload DefaultFrameSize)) <= Z.of_nat (length payload) / 65536 + 1.
Proof.
  unfold payload_frames. rewrite length_map, length_seq. unfold frame_count. set (n := Z.to_nat _).
  pose proof (Z.div_pos (Z.of_nat (length payload)) 65536 ltac:(lia) ltac:(lia)).
  assert (Z.of_nat n <= Z.of_nat (length payload) / 65536 + 1); [|destruct (Nat.eqb_spec n 0); lia].
  unfold n. change DefaultFrameSize with 65536.
  rewrite Z2Nat.id by (apply Z.div_pos; lia).
  rewrite <- (Z.div_add (Z.of_nat (length payload)) 1 65536) by lia. apply Z.div_le_mono; lia.
Qed.

Lemma payload_frames_wf payload :
  bytes_wf payload -> Forall bytes_wf (payload_frames payload DefaultFrameSize).
Proof.
  intros Hw. rewrite payload_frames_take. apply Forall_map, Forall_forall. intros i _.
  by apply bytes_wf_take, bytes_wf_drop.
Qed.

(** The header of a PUT record around what [BuildFramedRecord] returned. *)
Definition put_header (e g codec : Z) (data stored : list Z) (entries : list FrameIndexEntry) : RecordHeader :=
  mkRecordHeader RecordMagic FormatVersion RecordPut e g (u32 (Z.of_nat (length data)))
    (u32 (Z.of_nat (length stored))) codec keyID (u16 DefaultFrameSize)
    (u16 (Z.of_nat (length entries))) (checksumOf data) 0 (CRC32C (frame_index_bytes entries)).

(** The framing of a payload always fits a record. *)
Lemma framed_put_ok nonces compressed codec e g data :
  key_usable encKey -> is_u64 keyID -> nonces_ok nonces -> is_u64 e -> is_u64 g -> bytes_wf data ->
  Z.of_nat (length data) <= 2 ^ 31 -> is_u8 codec ->
  exists stored entries,
    BuildFramedRecord data DefaultFrameSize compressed encKey nonces
      = Ok (stored, entries, if compressed then CompressionZstd else CompressionNone) /\
    FrameIndex_Encode entries (replicate (length entries * FrameIndexEntrySize) 0)
      = Ok (frame_index_bytes entries, CRC32C (frame_index_bytes entries)) /\
    let r := mkLogRecord (put_header e g codec data stored entries) entries stored in
    lr_wf r /\ framed compressed encKey data r /\
    Z.of_nat (length entries) <= Z.of_nat (length data) / 65536 + 1 /\
    Z.of_nat (length stored) <= Z.of_nat (length data) + 28 * (Z.of_nat (length data) / 65536 + 1).
Proof.
  intros Ku Ki Hn He Hg Hw Hl Hc.
  pose proof (length_payload_frames data) as Hnf. pose proof (concat_payload_frames data) as Hcat.
  assert (Z.of_nat (length data) / 65536 <= 32768) as Hd by (apply Z.div_le_upper_bound; lia).
  destruct (build_loop_total compressed encKey nonces 0
    (payload_frames data DefaultFrameSize) [] Ku Hn (payload_frames_wf data Hw))
    as (ps & Eb & Hps & Hfine & Hlen).
  { rewrite Hcat. change (length (stored_bytes [])) with 0%nat. lia. }
  change (Z.of_nat (length (stored_bytes []))) with 0 in Eb.
  change (stored_bytes []) with (@nil Z) in Eb. cbn [app entries_of] in Eb.
  rewrite Hcat in Hlen. rewrite (Forall2_length _ _ _ Hps) in Hnf, Hlen.
  exists (stored_bytes ps), (entries_of 0 ps). split; [|split].
  { unfold BuildFramedRecord. change (DefaultFrameSize <=? 0) with false. cbv iota. by rewrite Eb, bind_Ok. }
  { rewrite FrameIndex_Encode_bytes by (rewrite length_replicate, length_entries_of; lia).
    by rewrite drop_ge, app_nil_r by (rewrite length_replicate, length_entries_of; lia). }
  assert (Forall FrameIndexEntry_wf (entries_of 0 ps)) as Hew by (apply entries_of_wf; [done|lia|lia]).
  cbv zeta. unfold put_header. rewrite length_entries_of.
  rewrite !(wrap_small 32) by (unfold uintw; lia). change (u16 DefaultFrameSize) with 0.
  rewrite (wrap_small 16) by (unfold uintw; lia).
  set (header := mkRecordHeader _ _ _ _ _ _ _ _ _ _ _ _ _ _).
  split; [|split; [|split; [lia|lia]]].
  - constructor; cbn [lr_header lr_index lr_stored header h_HeaderCRC h_FrameCount h_StoredLen
      h_FrameIndexCRC h_Op h_LogicalLen]; try done.
    + constructor; cbn [header h_Magic h_Version h_Op h_ExtentID h_Generation h_LogicalLen h_StoredLen
        h_Codec h_KeyID h_FrameSize h_FrameCount h_PayloadChecksum h_FrameIndexCRC]; try done;
        try (unfold uintw; lia).
      * by apply CRC32C_bound.
      * apply CRC32C_bound, frame_index_bytes_wf.
    + by rewrite length_entries_of.
    + by rewrite entries_frames_end.
    + unfold lr_framing. cbn [lr_index lr_stored]. rewrite length_entries_of. lia.
  - split; [done|]. split; [done|]. by exists ps.
Qed.

(** The pending write of a PUT record with that header. *)
Definition put_pending (e g codec : Z) (data stored : list Z) (entries : list FrameIndexEntry) : pendingWrite :=
  mkPendingWrite e g (put_header e g codec data stored entries) (frame_index_bytes entries) stored
    DefaultFrameSize (u32 (Z.of_nat (length stored))) (u32 (Z.of_nat (length data))) (checksumOf data)
    None 0 0 0.

Lemma put_pending_carries req codec stored entries compressed :
  let r := mkLogRecord (put_header (wr_ExtentID req) (wr_Generation req) codec (wr_Data req) stored entries)
             entries stored in
  lr_wf r -> framed compressed encKey (wr_Data req) r ->
  carries req (put_pending (wr_ExtentID req) (wr_Generation req) codec (wr_Data req) stored entries) r.
Proof.
  intros r W F. split; [split; [by constructor|by left]|]. repeat (split; [done|]).
  split; [apply F|]. by exists compressed.
Qed.

Lemma build_put_ok ev req :
  key_config cfg encKey keyID -> quiet ev -> nonces_ok (ev_nonce ev) -> put_request req ->
  exists pw r, build_put cfg ev req = Ok pw /\ carries req pw r /\
    Z.of_nat (length (lr_stored r)) <= Z.of_nat (length (wr_Data req)) + 28 * 32769.
Proof.
  intros [Ka Ku Ki Kr] (Qf & _) Hn [He Hg Hw Hl].
  unfold build_put. rewrite Ka, bind_Ok. cbv zeta. set (compressed := ShouldCompress _ _).
  destruct (framed_put_ok (ev_nonce ev) compressed (if compressed then CompressionZstd else CompressionNone)
    (wr_ExtentID req) (wr_Generation req) (wr_Data req) Ku Ki Hn He Hg Hw Hl ltac:(by destruct compressed))
    as (stored & entries & E1 & E2 & W & F & _ & Hs).
  rewrite E1, bind_Ok, E2, bind_Ok, Qf. eexists _, _. split; [reflexivity|].
  split; [by eapply put_pending_carries|]. cbn [lr_stored].
  assert (Z.of_nat (length (wr_Data req)) / 65536 <= 32768) as Hd by (apply Z.div_le_upper_bound; lia). lia.
Qed.
End Put.
