(* ===== verification/StoreSpec.v ===== *)
(** * The store against its specification

    The abstract store is a map from (extent, generation) to a payload or a
    tombstone. A history of the real store (group commits, flushes, index
    applications, cache traffic, crashes with restarts) refines the sequence
    of the committed operations: in every reachable state each lookup and
    each read answer what the map says. *)

From stdpp Require Import base list numbers strings gmap.
From Stdlib Require Import ZArith Lia.
From S2P Require Import Prelude Bytes Crc StorageTypes FileIO Record Journal.
From S2P Require Import SegmentFile Pebble Index Allocator Overlay Checkpoint Cache Recover.
From S2P Require Import SegmentLog LogParse Framing FramingProofs Store StoreProofs.
From S2P Require Import Durability Restart.

Local Open Scope Z_scope.
Local Open Scope go_scope.

(** ** The abstract store *)

Inductive op :=
| OPut (req : WriteRequest)
| ODelete (e g : Z) (v : Value).   (** [v] is what [Delete] looked up *)

Abbreviation contents := (gmap (Z * Z) (option (list Z))).

Definition spec_op (A : contents) (o : op) : contents :=
  match o with
  | OPut req => <[(wr_ExtentID req, wr_Generation req) := Some (wr_Data req)]> A
  | ODelete e g _ => <[(e, g) := None]> A
  end.

Definition spec_ops (A : contents) (os : list op) : contents := fold_left spec_op os A.

Definition op_key (o : op) : Z * Z :=
  match o with
  | OPut req => (wr_ExtentID req, wr_Generation req)
  | ODelete e g _ => (e, g)
  end.

Definition op_wf (o : op) : Prop :=
  match o with
  | OPut req => put_request req
  | ODelete e g v => is_u64 e /\ is_u64 g /\ Value_wf v
  end.

Section Spec.
Context {DB : Type} `{KL : PebbleLaws DB} `{FLaws : FrameLaws} (cfg : Config).
Context (encKey : option (list Z)) (keyID : Z).
Let stream := c_StreamID cfg.

(** The pending record the coordinator gets for an operation. *)
Definition prepare (ev : env) (o : op) : go pendingWrite :=
  match o with
  | OPut req => build_put cfg ev req
  | ODelete e g v => Ok (delete_pending e g v)
  end.

Inductive prepared : list op -> list pendingWrite -> Prop :=
| prepared_nil : prepared [] []
| prepared_cons o os pw pws ev :
    quiet ev -> nonces_ok (ev_nonce ev) -> op_wf o -> prepare ev o = Ok pw -> prepared os pws ->
    prepared (o :: os) (pw :: pws).

(** The segment file holds a record with payload [data] where [v] says. *)
Definition stored_at (dir : gmap Z (list Z)) (v : Value) (data : list Z) : Prop :=
  exists pre r rest compressed,
    dir !! v_SegmentID v = Some (pre ++ lr_bytes r ++ rest) /\
    v_Offset v = Z.of_nat (length pre) /\ 22 <= Z.of_nat (length pre) /\ lr_wf r /\
    framed compressed encKey data r /\ h_KeyID (lr_header r) = keyID /\
    v_StoredLen v = h_StoredLen (lr_header r) /\ v_LogicalLen v = h_LogicalLen (lr_header r) /\
    v_Checksum v = CRC32C data.

(** A lookup result means an abstract cell. *)
Definition means (dir : gmap Z (list Z)) (r : go Value) (c : option (option (list Z))) : Prop :=
  match c with
  | None => r = Err ErrExtentNotFound
  | Some None => exists v, r = Ok v /\ v_State v = ExtentTombstoned
  | Some (Some data) => exists v, r = Ok v /\ v_State v = ExtentDurable /\ stored_at dir v data
  end.

Definition represents (s : Store DB) (A : contents) : Prop :=
  forall e g, is_u64 e -> is_u64 g -> means (s_dir s) (lookup_value s e g) (A !! (e, g)).

(** *** Files only grow *)

Definition dir_extends (d d' : gmap Z (list Z)) : Prop :=
  forall id f, d !! id = Some f -> exists t, d' !! id = Some (f ++ t).

Lemma stored_at_extends d d' v data :
  dir_extends d d' -> stored_at d v data -> stored_at d' v data.
Proof.
  intros Hd (pre & r & rest & c & Hf & Hv). destruct (Hd _ _ Hf) as [t Ht].
  exists pre, r, (rest ++ t), c. split; [|exact Hv]. by rewrite Ht, <- !app_assoc.
Qed.

Lemma means_extends d d' r c : dir_extends d d' -> means d r c -> means d' r c.
Proof.
  intros Hd. destruct c as [[data|]|]; cbn; [|done|done].
  intros (v & Hr & Hs & Ha). exists v. split; [done|]. split; [done|]. by eapply stored_at_extends.
Qed.

Lemma means_lookup_eq d r r' c : lookup_eq r' r -> means d r c -> means d r' c.
Proof.
  intros Heq. destruct c as [[data|]|]; cbn.
  - intros (v & -> & Hs & Ha). destruct r' as [w|]; [|done]. exists w. cbn in Heq.
    destruct Heq as [->|[_ Ht]]; [done|]. rewrite Hs in Ht. discriminate.
  - intros (v & -> & Hs). destruct r' as [w|]; [|done]. exists w. split; [done|].
    destruct Heq as [->|[? _]]; done.
  - intros ->. destruct r' as [w|e]; cbn in Heq; [done|]. by subst.
Qed.

Lemma represents_step s s' A :
  represents s A -> dir_extends (s_dir s) (s_dir s') ->
  (forall e g, is_u64 e -> is_u64 g -> lookup_eq (lookup_value s' e g) (lookup_value s e g)) ->
  represents s' A.
Proof.
  intros R Hd Hl e g He Hg. eapply means_lookup_eq; [by apply Hl|].
  eapply means_extends; [done|]. by apply R.
Qed.

Lemma dir_extends_append (d : gmap Z (list Z)) id f t :
  d !! id = Some f -> dir_extends d (<[id := f ++ t]> d).
Proof.
  intros Hf id' f' H'. rewrite lookup_insert. case_decide as Hd.
  - subst. rewrite Hf in H'. simplify_eq. by exists t.
  - exists []. by rewrite app_nil_r.
Qed.

Lemma dir_extends_new (d : gmap Z (list Z)) id f : d !! id = None -> dir_extends d (<[id := f]> d).
Proof.
  intros Hf id' f' H'. rewrite lookup_insert. case_decide as Hd; [congruence|].
  exists []. by rewrite app_nil_r.
Qed.

Lemma dir_extends_trans d1 d2 d3 : dir_extends d1 d2 -> dir_extends d2 d3 -> dir_extends d1 d3.
Proof.
  intros H1 H2 id f Hf. destruct (H1 _ _ Hf) as [t Ht]. destruct (H2 _ _ Ht) as [t' Ht'].
  exists (t ++ t'). by rewrite Ht', app_assoc.
Qed.

(** *** Members of a batch *)

Definition member (o : op) (pw : pendingWrite) (r : log_record) : Prop :=
  pw_live pw r /\ op_key o = (pw_extentID pw, pw_generation pw) /\
  is_u64 (pw_extentID pw) /\ is_u64 (pw_generation pw) /\
  match o with
  | OPut req => carries encKey keyID req pw r
  | ODelete _ _ _ => h_Op (lr_header r) = RecordDelete
  end.

Inductive members : list op -> list pendingWrite -> list log_record -> Prop :=
| members_nil : members [] [] []
| members_cons o os pw pws r rs :
    member o pw r -> members os pws rs -> members (o :: os) (pw :: pws) (r :: rs).

Lemma delete_pending_member e g v :
  is_u64 e -> is_u64 g -> Value_wf v -> exists r, member (ODelete e g v) (delete_pending e g v) r.
Proof.
  intros He Hg Wv.
  exists (mkLogRecord (pw_header (delete_pending e g v)) [] []).
  assert (lr_wf (mkLogRecord (pw_header (delete_pending e g v)) [] [])) as W.
  { constructor; done. }
  split; [|done]. split; [by constructor|]. right. split; [done|].
  exists (tombstone_of v). split; [done|]. split; [done|]. by destruct Wv; constructor.
Qed.

Lemma prepared_members os pws :
  key_config cfg encKey keyID -> prepared os pws -> exists rs, members os pws rs.
Proof.
  intros Hk. induction 1 as [|o os pw pws ev Hq Hn Hw Hp Hps [rs IH]]; [by eexists; constructor|].
  assert (exists r, member o pw r) as [r Hr]; [|exists (r :: rs); by constructor].
  destruct o as [req|e g v]; cbn [prepare] in Hp.
  - destruct (build_put_ok cfg encKey keyID ev req Hk Hq Hn Hw) as (pw' & r & E & Hc & _).
    rewrite Hp in E. apply Ok_inj in E. subst pw'. exists r.
    pose proof Hc as (Hl & _ & _ & He & Hg & _). pose proof (proj1 Hl) as [_ _ _ _ _ _ He' Hg' _].
    destruct Hw. rewrite <- He' in He. rewrite <- Hg' in Hg.
    split; [done|]. cbn [op_key]. rewrite He, Hg. split; [done|]. by split.
  - apply Ok_inj in Hp. subst pw. by apply delete_pending_member; apply Hw.
Qed.

Lemma members_live os pws rs : members os pws rs -> Forall2 pw_live pws rs.
Proof. induction 1 as [|o os pw pws r rs M _ IH]; constructor; [apply M|done]. Qed.

Lemma members_length os pws rs : members os pws rs -> length os = length pws.
Proof. induction 1; cbn; congruence. Qed.

(** What a lookup through an overlay and an index finds. *)
Definition look (o : Overlay) (ix : DB) (e g : Z) : go Value :=
  match Overlay_Get o (Key e g) with Some v => Ok v | None => Index_Get ix e g end.

Lemma member_means dir o pw r segID pre rest seq :
  member o pw r -> dir !! segID = Some (pre ++ lr_bytes r ++ rest) ->
  22 <= Z.of_nat (length pre) -> forall A,
  means dir (Ok (pw_value (pw_place pw segID (Z.of_nat (length pre)) seq)))
    (spec_op A o !! op_key o).
Proof.
  intros (Hl & _ & _ & _ & Ho) Hd Hpre A. pose proof Hl as [P Hop].
  pose proof P as [Hh _ _ Hs Hll Hc _ _ W].
  destruct o as [req|e g v]; cbn [spec_op op_key]; rewrite lookup_insert_eq; cbn [means].
  - destruct Ho as (_ & Hput & Hkid & _ & _ & Hcrc & Hlen & c & Hfr).
    destruct Hop as [[_ Hnone]|[Hdel _]]; [|by rewrite Hput in Hdel].
    unfold pw_value. cbn [pw_place pw_publishedValue pw_segID pw_offset pw_storedLen pw_logicalLen
      pw_payloadCRC]. rewrite Hnone.
    eexists. split; [reflexivity|]. split; [done|].
    exists pre, r, rest, c. cbn [v_SegmentID v_Offset v_StoredLen v_LogicalLen v_Checksum].
    by rewrite Hc, Hcrc.
  - destruct Hop as [[Hput _]|(_ & w & Hw & Hst & _)]; [by rewrite Ho in Hput|].
    unfold pw_value. cbn [pw_place pw_publishedValue]. rewrite Hw. by eexists.
Qed.

Lemma spec_op_other A o k : k <> op_key o -> spec_op A o !! k = A !! k.
Proof. intros Hne. destruct o; cbn in *; by rewrite lookup_insert_ne. Qed.

Lemma publish_means dir ix segID os pws rs :
  members os pws rs -> forall pre rest seq o A,
  dir !! segID = Some (pre ++ batch_bytes rs ++ rest) -> 22 <= Z.of_nat (length pre) ->
  (forall e g, is_u64 e -> is_u64 g -> means dir (look o ix e g) (A !! (e, g))) ->
  forall e g, is_u64 e -> is_u64 g ->
  means dir (look (publish_overlay (place_all segID (Z.of_nat (length pre)) seq pws) o) ix e g)
    (spec_ops A os !! (e, g)).
Proof.
  induction 1 as [|op os pw pws r rs M Ms IH]; intros pre rest seq o A Hd Hpre Hm e g He Hg;
    [by apply Hm|].
  pose proof M as (Hl & Hk & Hpe & Hpg & _).
  unfold batch_bytes in Hd. cbn [map concat] in Hd. fold (batch_bytes rs) in Hd.
  rewrite <- app_assoc in Hd. cbn [place_all]. unfold publish_overlay, spec_ops. cbn [fold_left].
  fold (spec_ops (spec_op A op) os).
  rewrite (pw_ok_framing pw r (proj1 Hl)), <- length_lr_bytes, <- Nat2Z.inj_add, <- length_app.
  apply IH with (rest := rest); [by rewrite Hd, <- app_assoc|rewrite length_app; lia| |done|done].
  intros e' g' He' Hg'. cbn [pw_place pw_extentID pw_generation].
  unfold look. rewrite Overlay_Get_Put. case_bool_decide as E.
  - apply Key_inj in E as [<- <-]; [|done..]. rewrite <- Hk.
    by eapply member_means.
  - rewrite spec_op_other; [by apply Hm|]. rewrite Hk. intros [= -> ->]. done.
Qed.

(** ** Histories *)

Definition inv (s : Store DB) : Prop := exists hdr es1 es2 seq0, durable cfg s hdr es1 es2 seq0.

(** Everything that decides durability and lookups. *)
Definition same_core (s s' : Store DB) : Prop :=
  s_alloc s' = s_alloc s /\ s_dir s' = s_dir s /\ s_ckpt s' = s_ckpt s /\
  s_overlay s' = s_overlay s /\ s_streamSeq s' = s_streamSeq s /\ s_nextSeg s' = s_nextSeg s /\
  s_pub s' = s_pub s.

Inductive step : Store DB -> list op -> Store DB -> Prop :=
| step_commit ev os pws s s' placed :
    quiet ev -> os <> [] -> prepared os pws -> batch_fits (s_alloc s) pws = true ->
    a_maxSegmentBytes (s_alloc s) < 2 ^ 62 ->
    s_streamSeq s + Z.of_nat (length os) < 2 ^ 62 -> Z.of_nat (length os) < 2 ^ 32 ->
    commitBatch cfg ev pws s = (s', Ok placed) ->
    step s os s'
| step_flush ev s s' r :
    quiet ev -> marker_room s -> flush cfg ev s = (s', r) -> step s [] s'
| step_apply muts s s' r :
    (** the applier writes what the store would answer anyway *)
    Forall (fun m => Mutation_wf m /\
      lookup_value s (m_ExtentID m) (m_Generation m) = Ok (m_Value m)) muts ->
    applyNow muts s = (s', r) -> step s [] s'
| step_rotate ev s s' :
    quiet ev -> s_overlay s = NewOverlay -> a_class (s_alloc s) = classForStream stream ->
    a_segmentID (s_alloc s) + 1 < 2 ^ 64 -> sealActiveLocked cfg ev s = (s', Ok tt) -> step s [] s'
| step_volatile s s' :
    (** caches, the apply queue, events, counters *)
    same_core s s' -> s_index s' = s_index s -> step s [] s'
| step_restart su ev s s' hdr es1 es2 seq0 e tail d r :
    quiet ev -> (forall n, su_late su n = false) ->
    durable cfg s hdr es1 es2 seq0 -> crash_disk s tail d ->
    torn stream (a_segmentID (s_alloc s)) (log_end 22 (es1 ++ es2)) (log_last seq0 es2) e tail ->
    within_budget cfg su es2 e tail -> restart_room cfg s es2 seq0 ->
    New cfg su ev d = (s', r) -> step s [] s'.

Inductive run : Store DB -> list op -> Store DB -> Prop :=
| run_nil s : run s [] s
| run_step s os s' os' s'' : run s os s' -> step s' os' s'' -> run s (os ++ os') s''.

Lemma same_core_durable s s' hdr es1 es2 seq0 :
  same_core s s' -> durable cfg s hdr es1 es2 seq0 -> durable cfg s' hdr es1 es2 seq0.
Proof.
  intros (E1 & E2 & E3 & E4 & E5 & E6 & E7) [O C S0 L2 La Ov St Pe Id Mx Nx Wf Dr].
  constructor; rewrite ?E1, ?E2, ?E3, ?E4, ?E5, ?E6; try done.
  - destruct O. constructor; rewrite ?E1, ?E2, ?E5, ?E7; done.
  - unfold checkpoint_at. by rewrite E1, E3.
Qed.

(** Applying mutations that are already visible changes no lookup. *)
Lemma apply_look o ix0 muts :
  Forall (fun m => Mutation_wf m /\ look o ix0 (m_ExtentID m) (m_Generation m) = Ok (m_Value m)) muts ->
  forall ix ix', put_all ix muts = Ok ix' ->
  (forall e g, is_u64 e -> is_u64 g -> look o ix e g = look o ix0 e g) ->
  forall e g, is_u64 e -> is_u64 g -> look o ix' e g = look o ix0 e g.
Proof.
  induction 1 as [|m muts [Wm Hm] _ IH]; intros ix ix' Hp Hix; cbn [put_all] in Hp;
    [by apply Ok_inj in Hp as <-|].
  apply bind_Ok_inv in Hp as (ix1 & E & Hp). apply (IH ix1); [done|].
  intros e g He Hg. specialize (Hix e g He Hg). unfold look in *.
  destruct (Overlay_Get o (Key e g)) eqn:Ho; [done|].
  rewrite (Index_Get_Put ix m ix1 e g Wm He Hg E). case_bool_decide as Hd; [|done].
  destruct Hd as [-> ->]. rewrite Ho in Hm. by rewrite Hm.
Qed.

Lemma put_all_total muts (ix : DB) : exists ix', put_all ix muts = Ok ix'.
Proof.
  revert ix. induction muts as [|m muts IH]; intros ix; cbn [put_all]; [by eauto|].
  rewrite Index_Put_ok, bind_Ok. apply IH.
Qed.

Lemma step_apply_sound muts s s' r A :
  Forall (fun m => Mutation_wf m /\
    lookup_value s (m_ExtentID m) (m_Generation m) = Ok (m_Value m)) muts ->
  applyNow muts s = (s', r) -> inv s -> represents s A -> inv s' /\ represents s' A.
Proof.
  intros Hm Ha (hdr & es1 & es2 & seq0 & D) R. unfold applyNow in Ha. rewrite bindM_get in Ha.
  destruct (put_all_total muts (s_index s)) as [ix Hix]. rewrite Hix, bindM_lift in Ha.
  unfold modify in Ha. injection Ha as <- <-.
  split; [exists hdr, es1, es2, seq0; eapply same_core_durable; [|exact D]; by repeat split|].
  intros e g He Hg. change (lookup_value (set_index ix s) e g) with (look (s_overlay s) ix e g).
  rewrite (apply_look _ (s_index s) muts Hm _ _ Hix); [by apply R|done..].
Qed.

Lemma members_commit_sound ev os pws rs s s' placed A :
  quiet ev -> os <> [] -> members os pws rs -> batch_fits (s_alloc s) pws = true ->
  a_maxSegmentBytes (s_alloc s) < 2 ^ 62 ->
  s_streamSeq s + Z.of_nat (length os) < 2 ^ 62 -> Z.of_nat (length os) < 2 ^ 32 ->
  commitBatch cfg ev pws s = (s', Ok placed) ->
  inv s -> represents s A -> inv s' /\ represents s' (spec_ops A os).
Proof.
  intros Hq Hne M Hfit Hmax Hs Hn Hc (hdr & es1 & es2 & seq0 & D) R.
  pose proof (members_live _ _ _ M) as Hl. pose proof (members_length _ _ _ M) as Hlen.
  rewrite Hlen in Hs, Hn.
  assert (pws <> []) as Hne' by (intros ->; by destruct os).
  assert (a_offset (s_alloc s) + batch_framing rs + 42 < 2 ^ 62) as Hoff.
  { unfold batch_fits, CanReserveBatch in Hfit. apply andb_true_iff in Hfit as [Hfit _].
    destruct (_ || _) eqn:G in Hfit; [done|].
    rewrite (batch_required_sum pws rs (pw_live_ok _ _ Hl)) in Hfit. lia. }
  destruct (commit_durable cfg ev s hdr es1 es2 seq0 pws rs Hq D Hl Hne' Hfit Hoff Hs Hn)
    as (s1 & E & D1 & Ho & Hi & _ & _ & _ & _ & Hd).
  rewrite Hc in E. injection E as <- _.
  split; [by eexists _, _, _, _|].
  pose proof (du_ok _ _ _ _ _ _ D) as [_ Hh _ Hf Ht _ _ _ _ _].
  set (id := a_segmentID (s_alloc s)) in *.
  assert (log_bytes stream id 22 ((es1 ++ es2) ++ [LBatch rs (s_streamSeq s + Z.of_nat (length pws))])
    = log_bytes stream id 22 (es1 ++ es2) ++ batch_bytes rs ++ batch_commit_bytes (batch_commit stream id
        (log_end 22 (es1 ++ es2)) rs (s_streamSeq s + Z.of_nat (length pws)))) as Hb
    by (rewrite (log_bytes_app _ _ _ (es1 ++ es2)); cbn [log_bytes entry_bytes]; by rewrite app_nil_r).
  fold stream in Hd. rewrite Hb, app_assoc in Hd.
  pose proof (file_size_hdr_log stream id hdr (es1 ++ es2) Hh) as Hsz. unfold file_size in Hsz.
  set (pre := hdr ++ log_bytes stream id 22 (es1 ++ es2)) in *.
  assert (22 <= Z.of_nat (length pre)) as Hpre 
    by (unfold pre; rewrite length_app, Hh; change SegmentHeaderSize with 22%nat; lia).
  intros e g He Hg. change (lookup_value s' e g) with (look (s_overlay s') (s_index s') e g).
  rewrite Ho, Hi, Ht, <- Hsz.
  eapply (publish_means (s_dir s') (s_index s) id os pws rs M); [| |  |done|done].
  - rewrite Hd. apply lookup_insert_eq.
  - exact Hpre.
  - intros e' g' He' Hg'. eapply means_extends; [|by apply R].
    rewrite Hd. by apply dir_extends_append.
Qed.

Lemma step_commit_sound ev os pws s s' placed A :
  key_config cfg encKey keyID ->
  quiet ev -> os <> [] -> prepared os pws -> batch_fits (s_alloc s) pws = true ->
  a_maxSegmentBytes (s_alloc s) < 2 ^ 62 ->
  s_streamSeq s + Z.of_nat (length os) < 2 ^ 62 -> Z.of_nat (length os) < 2 ^ 32 ->
  commitBatch cfg ev pws s = (s', Ok placed) ->
  inv s -> represents s A -> inv s' /\ represents s' (spec_ops A os).
Proof.
  intros Hk Hq Hne Hp. destruct (prepared_members os pws Hk Hp) as [rs M].
  by eapply members_commit_sound.
Qed.

Lemma step_flush_sound ev s s' r A :
  quiet ev -> marker_room s -> flush cfg ev s = (s', r) -> inv s -> represents s A ->
  inv s' /\ represents s' A.
Proof.
  intros Hq Hm Hf (hdr & es1 & es2 & seq0 & D) R.
  destruct (flush_durable cfg ev s hdr es1 es2 seq0 Hq D Hm)
    as (s1 & E & (es1' & es2' & q & D') & Hl & _ & _ & _ & _ & _ & _ & f & t & Hf0 & Hd0).
  rewrite Hf in E. injection E as <- _. split; [by eexists _, _, _, _|].
  eapply represents_step; [done|rewrite Hd0; by apply dir_extends_append|].
  intros e g _ _. rewrite Hl. destruct (lookup_value s e g); [by left|done].
Qed.

Lemma step_restart_sound su ev s s' hdr es1 es2 seq0 e tail d r A :
  quiet ev -> (forall n, su_late su n = false) ->
  durable cfg s hdr es1 es2 seq0 -> crash_disk s tail d ->
  torn stream (a_segmentID (s_alloc s)) (log_end 22 (es1 ++ es2)) (log_last seq0 es2) e tail ->
  within_budget cfg su es2 e tail -> restart_room cfg s es2 seq0 ->
  New cfg su ev d = (s', r) -> represents s A -> r = Ok tt /\ inv s' /\ represents s' A.
Proof.
  intros Hq Hl D Hc Ht Hb Hr HN R.
  destruct (restart_ok cfg su ev s hdr es1 es2 seq0 e tail d Hq Hl D Hc Ht Hb Hr)
    as (s1 & h1 & E & D1 & Hlk & _ & _ & _ & _ & f & t & h & Hf & Hd).
  rewrite HN in E. injection E as <- ->. split; [done|]. split; [by eexists _, _, _, _|].
  eapply represents_step; [done| |by intros; apply Hlk].
  rewrite Hd. eapply dir_extends_trans; [by apply dir_extends_append|].
  apply dir_extends_new. rewrite lookup_insert_ne by lia.
  destruct (s_dir s !! (a_segmentID (s_alloc s) + 1)) as [x|] eqn:Ex; [|done].
  apply maxSegmentID_bound in Ex. destruct D. lia.
Qed.

Lemma step_rotate_sound ev s s' A :
  quiet ev -> s_overlay s = NewOverlay -> a_class (s_alloc s) = classForStream stream ->
  a_segmentID (s_alloc s) + 1 < 2 ^ 64 -> sealActiveLocked cfg ev s = (s', Ok tt) ->
  inv s -> represents s A -> inv s' /\ represents s' A.
Proof.
  intros Hq Ho Hcl Hb E (hdr & es1 & es2 & seq0 & D) R.
  destruct (seal_durable cfg ev s s' hdr es1 es2 seq0 Hq D Ho Hcl Hb E)
    as (D' & (f & t & Hf & Hd) & Ho' & Hi & _). split; [by eexists _, _, _, _|].
  eapply represents_step; [done| |].
  - rewrite Hd. eapply dir_extends_trans; [by apply dir_extends_append|].
    apply dir_extends_new. rewrite lookup_insert_ne by lia.
    destruct (s_dir s !! (a_segmentID (s_alloc s) + 1)) as [x|] eqn:Ex; [|done].
    apply maxSegmentID_bound in Ex. destruct D. lia.
  - intros e g _ _. unfold lookup_value. rewrite Ho', Ho, Hi.
    destruct (Overlay_Get _ _); [by left|]. destruct (Index_Get _ _ _); [by left|done].
Qed.

(** Rule induction over a history. *)
Lemma run_sound s os s' A :
  key_config cfg encKey keyID -> run s os s' -> inv s -> represents s A ->
  inv s' /\ represents s' (spec_ops A os).
Proof.
  intros Hk Hrun. revert A. induction Hrun as [s|s os s' os' s'' _ IH Hs]; intros A I R; [done|].
  destruct (IH A I R) as [I' R']. unfold spec_ops. rewrite fold_left_app. fold (spec_ops A os).
  destruct Hs.
  - by eapply step_commit_sound.
  - by eapply step_flush_sound.
  - by eapply step_apply_sound.
  - by eapply step_rotate_sound.
  - destruct I' as (hdr & es1 & es2 & seq0 & D). split.
    + exists hdr, es1, es2, seq0. by eapply same_core_durable.
    + destruct H0 as (_ & Hd & _ & Ho & _). intros e g He Hg. unfold lookup_value.
      rewrite Ho, Hd, H1. by apply R'.
  - eapply step_restart_sound in H6; [|done..]. apply H6.
Qed.
End Spec.

(** ** The first start *)

Section Fresh.
Context {DB : Type} `{KL : PebbleLaws DB} `{FLaws : FrameLaws} (cfg : Config).
Context (encKey : option (list Z)) (keyID : Z).

Definition empty_disk (ix : DB) : Disk DB := mkDisk ∅ ix (mkCkptDir true ∅ ∅).

Lemma fresh_sound su ev ix :
  quiet ev -> (forall n, su_late su n = false) -> (forall k, kv_get ix k = None) ->
  is_u8 (c_StreamID cfg) ->
  exists s, New cfg su ev (empty_disk ix) = (s, Ok tt) /\
    (exists hdr, durable cfg s hdr [] [] 0) /\
    represents encKey keyID s ∅ /\ s_closing s = false /\ s_locCache s = NewLocationCache 0.
Proof.
  intros Hq Hl Hix Hst.
  assert (forall n (s : Store DB), check_deadline su n s = (s, Ok tt)) as Hck
    by (intros; unfold check_deadline; by rewrite Hl).
  set (s0 := open_store cfg (empty_disk ix)).
  exists (rotated cfg ev 0 (set_nextSeg 0 s0)). split; [|split; [|split]].
  - unfold New, New_run. fold s0. stepM. change (LoadRecoveryCheckpoint (s_ckpt s0) (c_StreamID cfg))
      with (@Ok err (option RecoveryCheckpoint) None). stepM.
    change (maxSegmentID (s_dir s0)) with 0.
    rewrite (bindM_ok _ _ s0 s0 tt).
    2:{ unfold recoverActiveSegment. stepM. change (s_dir s0) with (∅ : gmap Z (list Z)).
        rewrite lookup_empty. apply Hck. }
    rewrite (bindM_ok _ _ s0 s0 tt).
    2:{ unfold persistRecoveredOverlay. stepM. by rewrite (bindM_ok _ _ _ _ _ (Hck 1%nat s0)). }
    do 2 stepM. change (maxSegmentID (s_dir s0)) with 0.
    rewrite (bindM_ok _ _ _ _ _ (newActiveSegment_ok cfg ev 1 (set_nextSeg 0 s0) 0 Hq eq_refl
      (lookup_empty _) ltac:(lia) ltac:(lia))).
    apply Hck.
  - eexists. eapply rotated_durable; try done; lia.
  - intros e g He Hg. rewrite lookup_empty. cbn. unfold lookup_value, Index_Get. cbn. by rewrite Hix.
  - done.
Qed.
End Fresh.

(** ** Reads *)

Section Reads.
Context {DB : Type} `{KL : PebbleLaws DB} `{FLaws : FrameLaws} (cfg : Config).
Context (encKey : option (list Z)) (keyID : Z).

(** The location cache agrees with the overlay and the index. *)
Definition cache_coherent (s : Store DB) : Prop :=
  forall e g v, is_u64 e -> is_u64 g ->
  lc_find (s_locCache s) (Key e g) = Some v -> lookup_value s e g = Ok v.

(** Every segment file can be opened, or is open already. *)
Definition segments_open (s : Store DB) : Prop :=
  forall id f, s_dir s !! id = Some f ->
  exists n, (SegCache_Get (open_segment (s_dir s)) (s_segCache s) id).1 = Ok n.

Lemma cachedLookup_ok s e g :
  is_u64 e -> is_u64 g -> lc_wf (s_locCache s) -> cache_coherent s ->
  exists c, cachedLookup e g s = (set_locCache c s, lookup_value s e g) /\
    lc_wf c /\ cache_coherent (set_locCache c s).
Proof.
  intros He Hg Wc Hc. unfold cachedLookup. stepM.
  pose proof (LocationCache_Get_find _ (Key e g) Wc) as [Hhit Hother].
  pose proof (LocationCache_Get_wf _ (Key e g) Wc) as Wc'.
  destruct (LocationCache_Get (s_locCache s) (Key e g)) as [hit c] eqn:E. cbn [fst snd] in *.
  stepM. assert (cache_coherent (set_locCache c s)) as Hc'.
  { intros e' g' v He' Hg' Hv. cbn in Hv. rewrite Hother in Hv. by apply Hc. }
  destruct hit as [v|].
  { exists c. unfold ret. by rewrite (Hc e g v) by done. }
  destruct (lookup_value s e g) as [v|x] eqn:L; [|by exists c].
  stepM. stepM. exists (LocationCache_Put c (Key e g) v). unfold ret. cbn.
  split; [done|]. split; [by apply LocationCache_Put_wf|].
  intros e' g' v' He' Hg' Hv. cbn in Hv.
  destruct (LocationCache_Put_find c (Key e g) v (Key e' g') Wc') as [P1 P2].
  destruct (decide (Key e' g' = Key e g)) as [Hk|Hk].
  - rewrite Hk, P1 in Hv. apply Key_inj in Hk as [-> ->]; [|done..]. simplify_eq. done.
  - destruct (P2 Hk) as [P|P]; rewrite P in Hv; [|done]. by apply Hc'.
Qed.

Definition whole (e g : Z) : ReadRequest := mkReadRequest e g 0 0.

Definition range (e g : Z) (off len : nat) : ReadRequest :=
  mkReadRequest e g (Z.of_nat off) (Z.of_nat len).

(** The answer to a request for a live payload. *)
Definition window (req : ReadRequest) (data : list Z) : list Z :=
  if rr_Length req <=? 0 then data
  else field (Z.to_nat (rr_LogicalOffset req))
         (Nat.min (Z.to_nat (rr_Length req)) (length data - Z.to_nat (rr_LogicalOffset req))) data.

(** The frames a lookup points at give the requested part of the payload,
    whatever size the open reader remembers. *)
Definition read_frames_at (dir : gmap Z (list Z)) (n : Z) (v : Value) (req : ReadRequest) : go (list Z) :=
  let rd := mkReader (default [] (dir !! v_SegmentID v)) n (c_resolve cfg) in
  if 0 <? rr_Length req
  then ReadRangeFrames rd (v_Offset v) (v_StoredLen v) (v_LogicalLen v) (rr_LogicalOffset req)
         (rr_Length req)
  else ReadPayloadFrames rd (v_Offset v) (v_StoredLen v) (v_LogicalLen v).

Lemma stored_frames dir n v data req :
  key_config cfg encKey keyID -> stored_at encKey keyID dir v data ->
  (rr_Length req <= 0 \/ 0 <= rr_LogicalOffset req < Z.of_nat (length data)) ->
  read_frames_at dir n v req = Ok (window req data).
Proof.
  intros Hk (pre & r & rest & c & Hf & Ho & Hpre & W & Hfr & Hkid & Hsl & Hll & Hcrc) Hrange.
  unfold read_frames_at. rewrite Hf. change (default [] (Some ?x)) with x. rewrite Ho, Hsl, Hll.
  assert (resolves (c_resolve cfg) (h_KeyID (lr_header r)) encKey) as Hres
    by (rewrite Hkid; apply Hk).
  unfold window. destruct (Z.ltb_spec 0 (rr_Length req)) as [Hpos|Hneg].
  - rewrite (proj2 (Z.leb_gt _ _) Hpos). destruct Hrange as [|Hrange]; [lia|].
    rewrite <- (framed_range c encKey data r pre rest n (c_resolve cfg)) by (done || lia).
    by rewrite !Z2Nat.id by lia.
  - rewrite (proj2 (Z.leb_le _ _) Hneg). by eapply framed_read.
Qed.

(** A read of a live extent gives the bytes, unless its segment file cannot be
    opened. *)
Lemma Read_found s req v data :
  key_config cfg encKey keyID -> s_closing s = false ->
  is_u64 (rr_ExtentID req) -> is_u64 (rr_Generation req) ->
  lc_wf (s_locCache s) -> cache_coherent s ->
  lookup_value s (rr_ExtentID req) (rr_Generation req) = Ok v -> v_State v = ExtentDurable ->
  stored_at encKey keyID (s_dir s) v data ->
  (rr_Length req <= 0 \/ 0 <= rr_LogicalOffset req < Z.of_nat (length data)) ->
  (Read cfg req s).2 =
    match (SegCache_Get (open_segment (s_dir s)) (s_segCache s) (v_SegmentID v)).1 with
    | Ok _ => Ok (mkReadResult (window req data) (CRC32C data))
    | Err _ => Err ErrSegmentUnavailable
    end.
Proof.
  intros Hk Hcl He Hg Wc Hc Hl Hs Hat Hrange.
  destruct (cachedLookup_ok s _ _ He Hg Wc Hc) as (ca & E & _).
  unfold Read, enter. rewrite (bindM_ok _ _ s s tt) by (stepM; by rewrite Hcl).
  rewrite Hl in E. rewrite (bindM_ok _ _ _ _ _ E), Hs. cbn [Z.eqb].
  change (ExtentDurable =? ExtentTombstoned) with false. change (ExtentDurable =? ExtentCorrupt) with false.
  cbv iota. stepM. cbn [set_locCache s_dir s_segCache].
  pose proof Hat as (pre & r & rest & c & Hf & _ & _ & _ & _ & _ & _ & _ & Hcrc).
  destruct (SegCache_Get (open_segment (s_dir s)) (s_segCache s) (v_SegmentID v)) as [[n|x] cc]; stepM; [|done].
  pose proof (stored_frames (s_dir s) n v data req Hk Hat Hrange) as Hr.
  unfold read_frames_at in Hr. by rewrite Hr, Hcrc.
Qed.

Lemma Read_live s req v data :
  key_config cfg encKey keyID -> s_closing s = false ->
  is_u64 (rr_ExtentID req) -> is_u64 (rr_Generation req) ->
  lc_wf (s_locCache s) -> cache_coherent s -> segments_open s ->
  lookup_value s (rr_ExtentID req) (rr_Generation req) = Ok v -> v_State v = ExtentDurable ->
  stored_at encKey keyID (s_dir s) v data ->
  (rr_Length req <= 0 \/ 0 <= rr_LogicalOffset req < Z.of_nat (length data)) ->
  (Read cfg req s).2 = Ok (mkReadResult (window req data) (CRC32C data)).
Proof.
  intros Hk Hcl He Hg Wc Hc Hso Hl Hs Hat Hrange. rewrite (Read_found s req v data) by done.
  destruct Hat as (pre & r & rest & c & Hf & _). by destruct (Hso _ _ Hf) as [n ->].
Qed.

Lemma Read_absent s req :
  s_closing s = false -> is_u64 (rr_ExtentID req) -> is_u64 (rr_Generation req) ->
  lc_wf (s_locCache s) -> cache_coherent s ->
  (lookup_value s (rr_ExtentID req) (rr_Generation req) = Err ErrExtentNotFound \/
   exists v, lookup_value s (rr_ExtentID req) (rr_Generation req) = Ok v /\
     v_State v = ExtentTombstoned) ->
  (Read cfg req s).2 = Err ErrExtentNotFound.
Proof.
  intros Hcl He Hg Wc Hc Hl.
  destruct (cachedLookup_ok s _ _ He Hg Wc Hc) as (ca & E & _).
  unfold Read, enter. rewrite (bindM_ok _ _ s s tt) by (stepM; by rewrite Hcl).
  destruct Hl as [Hl|(v & Hl & Hs)]; rewrite Hl in E.
  - unfold bindM at 1. by rewrite E.
  - rewrite (bindM_ok _ _ _ _ _ E), Hs. done.
Qed.

(** What a read answers when the store represents [A]. *)
Definition read_answers (s : Store DB) (A : contents) (req : ReadRequest) : Prop :=
  match A !! (rr_ExtentID req, rr_Generation req) with
  | Some (Some data) =>
      rr_Length req <= 0 \/ 0 <= rr_LogicalOffset req < Z.of_nat (length data) ->
      (Read cfg req s).2 = Ok (mkReadResult (window req data) (CRC32C data)) \/
      (Read cfg req s).2 = Err ErrSegmentUnavailable /\ ~ segments_open s
  | _ => (Read cfg req s).2 = Err ErrExtentNotFound
  end.

Lemma Read_represents s A req :
  key_config cfg encKey keyID -> represents encKey keyID s A -> s_closing s = false ->
  lc_wf (s_locCache s) -> cache_coherent s ->
  is_u64 (rr_ExtentID req) -> is_u64 (rr_Generation req) -> read_answers s A req.
Proof.
  intros Hk R Hcl Wc Hc He Hg. unfold read_answers. pose proof (R _ _ He Hg) as Hm.
  destruct (A !! _) as [[data|]|]; cbn [means] in Hm; [|by apply Read_absent; auto..].
  destruct Hm as (v & Hv & Hs & Ha). intros Hr. rewrite (Read_found s req v data) by done.
  destruct (SegCache_Get _ _ _).1 as [n|x] eqn:E; [by left|right]. split; [done|]. intros Hso.
  destruct Ha as (pre & r & rest & c & Hf & _). destruct (Hso _ _ Hf) as [n Hn]. congruence.
Qed.
End Reads.

(** ** Single requests *)

Section Calls.
Context {DB : Type} `{KL : PebbleLaws DB} `{FLaws : FrameLaws} (cfg : Config).
Context (encKey : option (list Z)) (keyID : Z).

(** Room for a batch in the active segment. *)
Definition room_for (s : Store DB) (pw : pendingWrite) : Prop :=
  batch_fits (s_alloc s) [pw] = true /\ a_maxSegmentBytes (s_alloc s) < 2 ^ 62 /\
  s_streamSeq s + 1 < 2 ^ 62.

(** Committing one prepared operation. *)
Lemma commit_one ev o pw s A :
  key_config cfg encKey keyID -> quiet ev -> nonces_ok (ev_nonce ev) -> op_wf o ->
  prepare cfg ev o = Ok pw -> room_for s pw -> inv cfg s -> represents encKey keyID s A ->
  exists s', let pw' := pw_place pw (a_segmentID (s_alloc s)) (a_offset (s_alloc s)) (s_streamSeq s) in
    commitBatch cfg ev [pw] s = (s', Ok [pw']) /\ inv cfg s' /\
    represents encKey keyID s' (spec_op A o) /\
    op_key o = (pw_extentID pw, pw_generation pw) /\ is_u64 (pw_extentID pw) /\
    is_u64 (pw_generation pw) /\ Value_wf (pw_value pw') /\
    lookup_value s' (pw_extentID pw) (pw_generation pw) = Ok (pw_value pw') /\
    (forall e g, is_u64 e -> is_u64 g -> (e, g) <> op_key o -> lookup_value s' e g = lookup_value s e g) /\
    s_index s' = s_index s /\ s_locCache s' = s_locCache s /\ s_closing s' = s_closing s.
Proof.
  intros Hk Hq Hn Hw Hp (R1 & R2 & R3) I R.
  assert (prepared cfg [o] [pw]) as Hpr by (eapply prepared_cons; eauto using prepared_nil).
  destruct (prepared_members cfg encKey keyID _ _ Hk Hpr) as [rs M]. inversion M as [|? ? ? ? r ? Mr M']; subst.
  inversion M'; subst. pose proof I as (hdr & es1 & es2 & seq0 & D).
  pose proof (members_live _ _ _ _ _ M) as Hl.
  pose proof Mr as (Hlr & Hkey & He & Hg & _).
  assert (a_offset (s_alloc s) + batch_framing [r] + 42 < 2 ^ 62) as Hoff.
  { pose proof R1 as Hfit. unfold batch_fits, CanReserveBatch in Hfit.
    apply andb_true_iff in Hfit as [Hfit _]. destruct (_ || _) eqn:G in Hfit; [done|].
    rewrite (batch_required_sum [pw] [r] (pw_live_ok _ _ Hl)) in Hfit. lia. }
  destruct (commit_durable cfg ev s hdr es1 es2 seq0 [pw] [r] Hq D Hl ltac:(done) R1 Hoff
    ltac:(cbn; lia) ltac:(cbn; lia)) as (s1 & E & D1 & Ho & Hi & Hlc & Hcl & _).
  cbn [place_all] in E, Ho. exists s1. cbv zeta.
  destruct (step_commit_sound cfg encKey keyID ev [o] [pw] s s1 _ A Hk Hq ltac:(done) Hpr R1 R2
    ltac:(cbn; lia) ltac:(cbn; lia) E I R) as [I1 R1'].
  split; [exact E|]. split; [exact I1|]. split; [exact R1'|]. split; [done|]. split; [done|].
  split; [done|].
  assert (0 <= a_offset (s_alloc s)) as H0
    by (destruct (du_ok _ _ _ _ _ _ D) as [[] ]; lia).
  split.
  { eapply pw_value_wf; [done| |].
    - destruct (du_id _ _ _ _ _ _ D). unfold uintw. lia.
    - unfold is_i64. pose proof (batch_framing_nonneg [r]). lia. }
  unfold publish_overlay in Ho. cbn [fold_left pw_place pw_extentID pw_generation] in Ho.
  split; [|split; [|done]].
  - unfold lookup_value. rewrite Ho, Overlay_Get_Put. by rewrite bool_decide_true.
  - intros e g He' Hg' Hne. unfold lookup_value. rewrite Ho, Hi, Overlay_Get_Put.
    rewrite bool_decide_false; [done|]. intros Hk'. apply Key_inj in Hk' as [<- <-]; [|done..].
    by rewrite Hkey in Hne.
Qed.

(** Handing the mutation to the applier changes nothing visible. *)
Lemma enqueue_sound ev m s A :
  Mutation_wf m -> lookup_value s (m_ExtentID m) (m_Generation m) = Ok (m_Value m) ->
  quiet ev -> inv cfg s -> represents encKey keyID s A ->
  exists s', enqueueApply cfg ev [m] s = (s', Ok tt) /\ inv cfg s' /\ represents encKey keyID s' A /\
    (Index_wf (s_index s) -> Index_wf (s_index s')) /\ s_locCache s' = s_locCache s /\ s_closing s' = s_closing s /\
    (forall e g, is_u64 e -> is_u64 g -> lookup_value s' e g = lookup_value s e g).
Proof.
  intros Wm Hm (Qf & _) I R. unfold enqueueApply.
  destruct (c_disableAsyncApply cfg); [by exists s|]. rewrite Qf. do 2 stepM.
  destruct (_ <? _)%nat.
  { eexists. split; [reflexivity|]. split.
    - destruct I as (h & e1 & e2 & q & D). exists h, e1, e2, q. eapply same_core_durable; [|exact D].
      by repeat split.
    - by split. }
  assert (Forall (fun m => Mutation_wf m /\
      lookup_value s (m_ExtentID m) (m_Generation m) = Ok (m_Value m)) [m]) as HF by (constructor; [by split|constructor]).
  destruct (applyNow [m] s) as [s' r] eqn:E.
  destruct (step_apply_sound cfg encKey keyID [m] s s' r A HF E I R) as [I' R'].
  unfold applyNow in E. rewrite bindM_get in E.
  destruct (put_all_total [m] (s_index s)) as [ix Hix]. rewrite Hix, bindM_lift in E.
  unfold modify in E. injection E as <- <-. eexists. split; [reflexivity|].
  split; [done|]. split; [done|]. split.
  { intros Wx. cbn [put_all] in Hix. apply bind_Ok_inv in Hix as (ix1 & Hp & [= <-]).
    by eapply Index_Put_wf. }
  split; [done|]. split; [done|].
  intros e g He Hg. exact (apply_look (s_overlay s) (s_index s) [m] HF _ _ Hix (fun _ _ _ _ => eq_refl) e g He Hg).
Qed.

Lemma Write_sound ev req s A :
  key_config cfg encKey keyID -> quiet ev -> nonces_ok (ev_nonce ev) -> put_request req ->
  s_closing s = false -> inv cfg s -> represents encKey keyID s A ->
  A !! (wr_ExtentID req, wr_Generation req) = None ->
  (forall pw, build_put cfg ev req = Ok pw -> room_for s pw) ->
  exists s' rc, Write cfg ev req s = (s', Ok rc) /\ inv cfg s' /\
    represents encKey keyID s' (spec_op A (OPut req)) /\
    lookup_value s' (wr_ExtentID req) (wr_Generation req) =
      Ok (mkValue (rc_SegmentID rc) (rc_Offset rc) (rc_StoredLen rc) (rc_LogicalLen rc)
            ExtentDurable (CRC32C (wr_Data req))) /\
    (forall e g, is_u64 e -> is_u64 g -> (e, g) <> (wr_ExtentID req, wr_Generation req) ->
       lookup_value s' e g = lookup_value s e g) /\
    (Index_wf (s_index s) -> Index_wf (s_index s')) /\
    s_locCache s' = s_locCache s /\ s_closing s' = false.
Proof.
  intros Hk Hq Hn Hw Hcl I R HA Hroom.
  destruct (build_put_ok cfg encKey keyID ev req Hk Hq Hn Hw) as (pw & r & Eb & Hc & _).
  pose proof Hc as (Hl & Hput & _ & _ & _ & Hcrc & _).
  assert (pw_publishedValue pw = None) as Hpub.
  { destruct (proj2 Hl) as [[_ ?]|[Hd _]]; [done|]. by rewrite Hput in Hd. }
  pose proof (proj1 Hl) as [_ _ _ _ _ Hpc _ _ _]. rewrite Hcrc in Hpc.
  destruct (commit_one ev (OPut req) pw s A Hk Hq Hn Hw Eb (Hroom pw Eb) I R)
    as (s1 & E1 & I1 & R1 & Hkey & He & Hg & Wv & Hlk & Hoth & Hix & Hlc & Hcl1).
  cbn [op_key] in Hkey. injection Hkey as Hke Hkg.
  set (pw' := pw_place pw _ _ _) in *.
  assert (pw_value pw' = mkValue (pw_segID pw') (pw_offset pw') (pw_storedLen pw') (pw_logicalLen pw')
    ExtentDurable (CRC32C (wr_Data req))) as Hv
    by (unfold pw_value; cbn [pw' pw_place pw_publishedValue]; rewrite Hpub, <- Hpc; done).
  destruct (enqueue_sound ev (mkMutation (pw_extentID pw) (pw_generation pw) (pw_value pw')) s1
    (spec_op A (OPut req)) ltac:(done) Hlk Hq I1 R1) as (s2 & E2 & I2 & R2 & Wx2 & Hlc2 & Hcl2 & Hlk2).
  pose proof (R _ _ (pr_extent _ Hw) (pr_generation _ Hw)) as Hnone. rewrite HA in Hnone. cbn in Hnone.
  exists s2, (mkReceipt (pw_extentID pw) (pw_generation pw) (pw_segID pw') (pw_offset pw')
         (pw_storedLen pw') (pw_logicalLen pw') (pw_streamSeq pw')).
  split; [|split; [done|split; [done|split; [|split; [|split]]]]].
  - unfold Write. rewrite (bindM_ok _ _ s s (inr pw)).
    2:{ unfold Write_prepare, enter. rewrite (bindM_ok _ _ s s tt) by (stepM; by rewrite Hcl).
        stepM. rewrite Hnone. rewrite bool_decide_true by done. destruct Hq as (Qf & _).
        rewrite Qf. stepM. rewrite Eb. by stepM. }
    rewrite (bindM_ok _ _ _ _ _ E1). unfold Write_finish, mutation_of.
    assert (pw_payloadCRC pw' = CRC32C (wr_Data req)) as -> by exact Hpc. rewrite <- Hv.
    change (pw_extentID pw') with (pw_extentID pw). change (pw_generation pw') with (pw_generation pw).
    rewrite (bindM_ok _ _ s1 s2 tt) by (by rewrite E2). done.
  - rewrite Hke, Hkg, Hlk2, Hlk, Hv by done. done.
  - intros e g He' Hg' Hne. rewrite Hlk2 by done. by apply Hoth.
  - by rewrite <- Hix.
  - by rewrite Hlc2, Hlc, Hcl2, Hcl1.
Qed.

Lemma Delete_sound ev e g s A c :
  key_config cfg encKey keyID -> quiet ev -> nonces_ok (ev_nonce ev) -> is_u64 e -> is_u64 g ->
  s_closing s = false -> inv cfg s -> represents encKey keyID s A -> A !! (e, g) = Some c ->
  (forall v, lookup_value s e g = Ok v -> Value_wf v /\ room_for s (delete_pending e g v)) ->
  lc_wf (s_locCache s) -> cache_coherent s ->
  exists s', Delete cfg ev e g s = (s', Ok tt) /\ inv cfg s' /\
    represents encKey keyID s' (<[(e, g) := None]> A) /\
    (forall v, lookup_value s e g = Ok v -> lookup_value s' e g = Ok (tombstone_of v)) /\
    (forall e' g', is_u64 e' -> is_u64 g' -> (e', g') <> (e, g) ->
       lookup_value s' e' g' = lookup_value s e' g') /\
    (Index_wf (s_index s) -> Index_wf (s_index s')) /\
    lc_wf (s_locCache s') /\ cache_coherent s' /\ s_closing s' = false.
Proof.
  intros Hk Hq Hn He Hg Hcl I R HA Hv Wc Hc.
  assert (exists v, lookup_value s e g = Ok v) as [v Hlv].
  { pose proof (R e g He Hg) as Hm. rewrite HA in Hm.
    destruct c as [data|]; cbn in Hm; destruct Hm as (v & Hm & _); by exists v. }
  destruct (Hv v Hlv) as [Wv Hroom].
  destruct (commit_one ev (ODelete e g v) (delete_pending e g v) s A Hk Hq Hn ltac:(done) eq_refl
    Hroom I R) as (s1 & E1 & I1 & R1 & _ & _ & _ & Wt & Hlk & Hoth & Hix & Hlc & Hcl1).
  set (pw' := pw_place _ _ _ _) in *. cbn [delete_pending pw_extentID pw_generation op_key] in Hlk, Hoth.
  set (s2 := set_locCache (LocationCache_Put (s_locCache s1) (Key e g) (pw_value pw')) s1).
  assert (inv cfg s2) as I2.
  { destruct I1 as (h & e1 & e2 & q & D). exists h, e1, e2, q. eapply same_core_durable; [|exact D].
    by repeat split. }
  assert (cache_coherent s2 /\ lc_wf (s_locCache s2)) as [C2 W2].
  { cbn [s2 set_locCache s_locCache]. rewrite Hlc. split; [|by apply LocationCache_Put_wf].
    intros e' g' w He' Hg' Hw. cbn [s2 set_locCache s_locCache] in Hw. rewrite Hlc in Hw.
    change (lookup_value s2 e' g') with (lookup_value s1 e' g').
    destruct (LocationCache_Put_find (s_locCache s) (Key e g) (pw_value pw') (Key e' g') Wc) as [P1 P2].
    destruct (decide ((e', g') = (e, g))) as [[= -> ->]|Hne]; [by rewrite P1 in Hw; simplify_eq|].
    rewrite Hoth by done. destruct P2 as [P|P]; [|rewrite P in Hw; by apply Hc|by rewrite P in Hw].
    intros Hk'. apply Key_inj in Hk' as [-> ->]; done. }
  destruct (enqueue_sound ev (mkMutation e g (pw_value pw')) s2 (<[(e, g) := None]> A) ltac:(done)
    Hlk Hq I2 R1) as (s3 & E3 & I3 & R3 & Wx3 & Hlc3 & Hcl3 & Hlk3).
  exists s3. split; [|split; [done|split; [done|split; [|split; [|split; [|split; [|split]]]]]]].
  - unfold Delete. rewrite (bindM_ok _ _ s s (Some (delete_pending e g v))).
    2:{ unfold Delete_prepare, enter. rewrite (bindM_ok _ _ s s tt) by (stepM; by rewrite Hcl).
        stepM. by rewrite Hlv. }
    rewrite (bindM_ok _ _ _ _ _ E1). unfold Delete_finish. stepM.
    change (Key (pw_extentID pw') (pw_generation pw')) with (Key e g). fold s2.
    exact E3.
  - intros w Hw. rewrite Hlv in Hw. apply Ok_inj in Hw as <-. rewrite Hlk3 by done. exact Hlk.
  - intros e' g' He' Hg' Hne. rewrite Hlk3 by done. by apply Hoth.
  - intros Wx. apply Wx3. cbn. by rewrite Hix.
  - by rewrite Hlc3.
  - intros e' g' w He' Hg' Hw. rewrite Hlc3 in Hw. rewrite Hlk3 by done. by apply C2.
  - rewrite Hcl3. cbn. by rewrite Hcl1.
Qed.
End Calls.
