(* ===== verification/Scenario.v ===== *)
(** * A concrete store

    An instance of every parameter (an in-memory ordered map for Pebble, a
    small compressor and sealing for the frame library) and a store opened on
    an empty disk, with one acknowledged write, on which the general theorems
    are applied and the model is evaluated. *)

From stdpp Require Import base list numbers strings gmap.
From Stdlib Require Import ZArith Lia.
From S2P Require Import Prelude Bytes Crc StorageTypes FileIO Record Journal.
From S2P Require Import SegmentFile Pebble Index Allocator Overlay Checkpoint Cache Recover.
From S2P Require Import SegmentLog LogParse Framing FramingProofs Store StoreProofs.
From S2P Require Import Durability Restart StoreSpec.

Local Open Scope Z_scope.
Local Open Scope go_scope.

Abbreviation mem := (gmap (list Z) (list Z)).
#[export] Existing Instance toy_laws.
#[export] Existing Instance toy_lib.

Definition cfg0 : Config := mkConfig 1 (2 ^ 20) false None None.
Definition ev0 : env := fine 7 (fun _ => replicate NonceSize 0).
Definition su0 : startup := mkStartup 0 0 0 (fun _ => 0) 0 100 (fun _ => false).
Definition disk0 : Disk mem := empty_disk ∅.
Definition req0 : WriteRequest := mkWriteRequest 5 1 [1; 2; 3].

Definition store0 : Store mem := (New cfg0 su0 ev0 disk0).1.
Definition store1 : Store mem := (Write cfg0 ev0 req0 store0).1.

Lemma quiet0 : quiet ev0.
Proof. apply fine_quiet. Qed.

Lemma nonces0 : nonces_ok (ev_nonce ev0).
Proof. intros i. split; [done|]. by apply Forall_replicate. Qed.

Lemma key0 : key_config cfg0 None 0.
Proof. constructor; done. Qed.

Lemma put0 : put_request req0.
Proof.
  constructor; try (unfold uintw; cbn; lia). unfold bytes_wf. cbn.
  repeat constructor; unfold uintw; lia.
Qed.

Lemma store0_ok :
  New cfg0 su0 ev0 disk0 = (store0, Ok tt) /\ (exists hdr, durable cfg0 store0 hdr [] [] 0) /\
  represents None 0 store0 ∅ /\
  s_closing store0 = false /\ s_locCache store0 = NewLocationCache 0.
Proof.
  destruct (fresh_sound cfg0 None 0 su0 ev0 (∅ : mem) quiet0 ltac:(done) ltac:(intros; apply lookup_empty)
    ltac:(unfold uintw; cbn; lia)) as (s & E & Hs).
  unfold store0, disk0. rewrite E. done.
Qed.

Lemma inv0 : inv cfg0 store0.
Proof. destruct store0_ok as (_ & (hdr & D) & _). by exists hdr, [], [], 0. Qed.

Lemma room0 pw : build_put cfg0 ev0 req0 = Ok pw -> room_for store0 pw.
Proof.
  intros Hp. vm_compute in Hp. apply Ok_inj in Hp. subst pw.
  split; [vm_compute; reflexivity|]. split; vm_compute; reflexivity.
Qed.

Lemma store1_ok :
  exists rc, Write cfg0 ev0 req0 store0 = (store1, Ok rc) /\ inv cfg0 store1 /\
    represents None 0 store1 {[(5, 1) := Some [1; 2; 3]]} /\ s_closing store1 = false /\
    s_locCache store1 = NewLocationCache 0.
Proof.
  destruct store0_ok as (_ & _ & R & Hc & Hl).
  destruct (Write_sound cfg0 None 0 ev0 req0 store0 ∅ key0 quiet0 nonces0 put0 Hc inv0 R
    (lookup_empty _) room0) as (s & rc & E & I1 & R1 & _ & _ & _ & Hl1 & Hc1).
  exists rc. unfold store1. rewrite E. split; [done|]. split; [done|].
  split; [exact R1|]. cbn [fst]. split; [exact Hc1|]. rewrite Hl1. exact Hl.
Qed.

(** ** The same write as a bare group commit *)

Definition pw0 : pendingWrite :=
  match build_put cfg0 ev0 req0 with Ok pw => pw | Err _ => delete_pending 0 0 (mkValue 0 0 0 0 0 0) end.

Definition store1c : Store mem := (commitBatch cfg0 ev0 [pw0] store0).1.

Lemma pw0_built : build_put cfg0 ev0 req0 = Ok pw0.
Proof. vm_compute. reflexivity. Qed.

Lemma prepared0 : prepared cfg0 [OPut req0] [pw0].
Proof. exact (prepared_cons cfg0 (OPut req0) [] pw0 [] ev0 quiet0 nonces0 put0 pw0_built (prepared_nil cfg0)). Qed.

Lemma store1c_ok :
  exists hdr r placed, commitBatch cfg0 ev0 [pw0] store0 = (store1c, Ok placed) /\
    durable cfg0 store1c hdr [] [LBatch [r] 1] 0 /\ pw_live pw0 r.
Proof.
  destruct store0_ok as (_ & (hdr & D) & _).
  destruct (prepared_members cfg0 None 0 _ _ key0 prepared0) as [rs M].
  inversion M as [|? ? ? ? r ? Mr M']; subst. inversion M'; subst.
  pose proof (members_live _ _ _ _ _ M) as Hl.
  assert (batch_framing [r] = pw_framing pw0) as Hfr.
  { unfold batch_framing. cbn [map foldr]. rewrite (pw_ok_framing _ _ (proj1 (proj1 Mr))). lia. }
  destruct (commit_durable cfg0 ev0 store0 hdr [] [] 0 [pw0] [r] quiet0 D Hl ltac:(done)
    ltac:(vm_compute; reflexivity) ltac:(rewrite Hfr; vm_compute; reflexivity)
    ltac:(vm_compute; reflexivity) ltac:(vm_compute; reflexivity)) as (s1 & E & D1 & _).
  unfold store1c. rewrite E. cbn [fst]. exists hdr, r. eexists. split; [reflexivity|].
  split; [|apply Mr]. exact D1.
Qed.
