(* ===== verification/StoreTheorems.v ===== *)
(** * Theorems about the segment store

    The contract of [store.go] and [flush.go], proved from the component
    lemmas: refinement of the abstract map over whole histories, lossless
    crash recovery, read-your-writes, deletes, flushes, and the error path of
    group commit. *)

From stdpp Require Import base list numbers strings gmap.
From Stdlib Require Import ZArith Lia.
From S2P Require Import Prelude Bytes Crc StorageTypes FileIO Record Journal.
From S2P Require Import SegmentFile Pebble Index Allocator Overlay Checkpoint Cache Recover.
From S2P Require Import SegmentLog LogParse Framing FramingProofs Store StoreProofs.
From S2P Require Import StoreProofs Durability Restart StoreSpec Scenario.

Local Open Scope Z_scope.
Local Open Scope go_scope.

Section Theorems.
Context {DB : Type} `{KL : PebbleLaws DB} `{FLaws : FrameLaws} (cfg : Config).
Context (encKey : option (list Z)) (keyID : Z).

(** C1: the store refines an abstract map. Open a store on an empty disk and
    let it live through any sequence of the steps of [run]: successful group
    commits of Writes and Deletes that fit the active segment, flushes with
    room for their marker, index applications of values the store would answer
    anyway, rotations of a flushed segment, cache and queue traffic, and
    crashes (anywhere in a commit or a flush) followed by restarts within the
    recovery budget and with room for a marker, sequences and segment sizes
    staying below 2^62. In the final state every
    lookup answers what the map built from the committed operations says, and
    so does every Read of an open store whose location cache agrees with its
    lookups: the requested bytes of a live extent with their checksum, or
    [ErrSegmentUnavailable] when a segment file cannot be opened, and
    [ErrExtentNotFound] of anything else. What happens outside these steps is
    evaluated in [Behaviours]: after a failed append, a commit that rotates
    over unflushed entries, or a stale index application an acknowledged
    operation can be lost. *)
Theorem store_refines_map su ev ix s0 r os s :
  key_config cfg encKey keyID -> quiet ev -> (forall n, su_late su n = false) ->
  (forall k, kv_get ix k = None) -> is_u8 (c_StreamID cfg) ->
  New cfg su ev (empty_disk ix) = (s0, r) -> run cfg s0 os s ->
  r = Ok tt /\ inv cfg s /\ represents encKey keyID s (spec_ops ∅ os) /\
  forall req, s_closing s = false -> lc_wf (s_locCache s) -> cache_coherent s ->
    is_u64 (rr_ExtentID req) -> is_u64 (rr_Generation req) -> read_answers cfg s (spec_ops ∅ os) req.
Proof.
  intros Hk Hq Hl Hix Hst HN Hrun.
  destruct (fresh_sound cfg encKey keyID su ev ix Hq Hl Hix Hst) as (s1 & E & (hdr & D) & R & _).
  rewrite HN in E. injection E as -> ->. split; [done|].
  destruct (run_sound cfg encKey keyID s1 os s ∅ Hk Hrun ltac:(by exists hdr, [], [], 0) R) as [I' R'].
  do 2 (split; [done|]). intros req Hcl Wc Hc He Hg. by eapply Read_represents.
Qed.

(** C2: crash recovery loses nothing that was acknowledged. Take a store
    in the durable state that successful commits, flushes and restarts keep
    (its active segment is the newest and holds the log of everything since
    the last flush), crash it with any proper prefix of one more entry in the
    file, the index possibly ahead for keys the overlay covers and the
    checkpoint publication unfinished. If the replay fits the limits and the
    deadline of the startup and the active segment has room for one more
    marker, [New] succeeds and every lookup answers as before the crash (a
    tombstone possibly with another location). Without that room it refuses to
    start ([full_segment_blocks_startup]). *)
Theorem crash_recovery_lossless su ev s hdr es1 es2 seq0 e tail d :
  quiet ev -> (forall n, su_late su n = false) ->
  durable cfg s hdr es1 es2 seq0 -> crash_disk s tail d ->
  torn (c_StreamID cfg) (a_segmentID (s_alloc s)) (log_end 22 (es1 ++ es2)) (log_last seq0 es2) e tail ->
  within_budget cfg su es2 e tail -> restart_room cfg s es2 seq0 ->
  exists s', New cfg su ev d = (s', Ok tt) /\ inv cfg s' /\
    forall e g, lookup_eq (lookup_value s' e g) (lookup_value s e g).
Proof.
  intros Hq Hl D Hc Ht Hb Hr.
  destruct (restart_ok cfg su ev s hdr es1 es2 seq0 e tail d Hq Hl D Hc Ht Hb Hr)
    as (s1 & h1 & E & D1 & Hlk & _).
  exists s1. split; [done|]. split; [by exists h1, [], [], 0|done].
Qed.

(** C11: read your writes. On an open store with a coherent location cache a
    Write of an extent the store does not know succeeds when nothing fails
    and the active segment has room, and a following Read of the whole extent
    or of any range that starts inside it returns exactly those payload bytes
    and the payload's checksum, compressed or encrypted or neither, or answers
    [ErrSegmentUnavailable]; that only when a segment file cannot be opened,
    as when payload bytes look like a footer ([payload_taken_for_footer]). *)
Theorem write_then_read ev req s A rreq s' res :
  key_config cfg encKey keyID -> quiet ev -> nonces_ok (ev_nonce ev) -> put_request req ->
  s_closing s = false -> inv cfg s -> represents encKey keyID s A ->
  lc_wf (s_locCache s) -> cache_coherent s ->
  A !! (wr_ExtentID req, wr_Generation req) = None ->
  (forall pw, build_put cfg ev req = Ok pw -> room_for s pw) ->
  Write cfg ev req s = (s', res) ->
  rr_ExtentID rreq = wr_ExtentID req -> rr_Generation rreq = wr_Generation req ->
  (rr_Length rreq <= 0 \/ 0 <= rr_LogicalOffset rreq < Z.of_nat (length (wr_Data req))) ->
  is_ok res = true /\
  ((Read cfg rreq s').2 = Ok (mkReadResult (window rreq (wr_Data req)) (CRC32C (wr_Data req))) \/
   (Read cfg rreq s').2 = Err ErrSegmentUnavailable /\ ~ segments_open s').
Proof.
  intros Hk Hq Hn Hw Hcl I R Wc Hc HA Hroom HW He Hg Hrange.
  destruct (Write_sound cfg encKey keyID ev req s A Hk Hq Hn Hw Hcl I R HA Hroom)
    as (s1 & rc & E & I1 & R1 & Hlk & Hoth & _ & Hlc & Hcl1).
  rewrite HW in E. injection E as -> ->. split; [done|].
  assert (read_answers cfg s1 (spec_op A (OPut req)) rreq) as Ha.
  2:{ unfold read_answers in Ha. cbn [spec_op] in Ha. rewrite He, Hg, lookup_insert_eq in Ha. by apply Ha. }
  eapply Read_represents; rewrite ?He, ?Hg, ?Hlc; try done; try apply Hw.
  (* the cache held nothing for the new key, the rest did not move *)
  intros e g w He' Hg' Hfind. rewrite Hlc in Hfind.
  destruct (decide ((e, g) = (wr_ExtentID req, wr_Generation req))) as [[= -> ->]|Hne].
  - apply Hc in Hfind; [|done..]. specialize (R _ _ He' Hg'). rewrite HA in R. cbn in R. congruence.
  - rewrite Hoth by done. by apply Hc.
Qed.

(** Deletes take effect. After a Delete of a known extent, Read and
    range reads of it answer ErrExtentNotFound, the other extents keep their
    lookups, and the deletion is in the abstract map. *)
Theorem delete_then_read ev e g s A c rreq s' res :
  key_config cfg encKey keyID -> quiet ev -> nonces_ok (ev_nonce ev) -> is_u64 e -> is_u64 g ->
  s_closing s = false -> inv cfg s -> represents encKey keyID s A -> A !! (e, g) = Some c ->
  (forall v, lookup_value s e g = Ok v -> Value_wf v /\ room_for s (delete_pending e g v)) ->
  lc_wf (s_locCache s) -> cache_coherent s ->
  Delete cfg ev e g s = (s', res) -> rr_ExtentID rreq = e -> rr_Generation rreq = g ->
  res = Ok tt /\ (Read cfg rreq s').2 = Err ErrExtentNotFound /\
  represents encKey keyID s' (<[(e, g) := None]> A) /\
  (forall e' g', is_u64 e' -> is_u64 g' -> (e', g') <> (e, g) ->
     lookup_value s' e' g' = lookup_value s e' g').
Proof.
  intros Hk Hq Hn He Hg Hcl I R HA Hv Wc Hc HD Hre Hrg.
  destruct (Delete_sound cfg encKey keyID ev e g s A c Hk Hq Hn He Hg Hcl I R HA Hv Wc Hc)
    as (s1 & E & I1 & R1 & _ & Hoth & _ & Wc1 & Hc1 & Hcl1).
  rewrite HD in E. injection E as -> ->. split; [done|]. split; [|done].
  pose proof (R1 e g He Hg) as Hm. rewrite lookup_insert_eq in Hm. cbn in Hm.
  apply Read_absent; rewrite ?Hre, ?Hrg; auto.
Qed.

(** A flush moves the overlay to the index, writes INDEX_SAFE and the
    checkpoint, and changes no lookup; afterwards the overlay is empty. *)
Theorem flush_changes_no_lookup ev s s' r :
  quiet ev -> inv cfg s -> marker_room s -> flush cfg ev s = (s', r) ->
  r = Ok tt /\ inv cfg s' /\ s_overlay s' = NewOverlay /\
  forall e g, lookup_value s' e g = lookup_value s e g.
Proof.
  intros Hq (hdr & es1 & es2 & seq0 & D) Hm HF.
  destruct (flush_durable cfg ev s hdr es1 es2 seq0 Hq D Hm)
    as (s1 & E & (es1' & es2' & q & D') & Hl & Ho & _).
  rewrite HF in E. injection E as -> ->. split; [done|].
  split; [by exists hdr, es1', es2', q|]. by split.
Qed.

(** C18: a failed group commit publishes nothing. Whatever write, sync,
    encoding or allocation fails (a fault injected after the overlay is
    applied excepted), the overlay, the index, the checkpoint, the watermark
    and the caches are untouched, so every lookup answers as before. *)
Theorem failed_commit_publishes_nothing ev batch s s' e :
  ev_fault ev CrashAfterOverlayApply = None ->
  commitBatch cfg ev batch s = (s', Err e) ->
  unpublished s s' /\ forall e g, lookup_value s' e g = lookup_value s e g.
Proof.
  intros Hf HC. pose proof (commitBatch_clean cfg ev batch Hf s s' e HC) as U.
  split; [done|]. intros e' g'. unfold lookup_value. by destruct U as [-> -> _ _ _ _ _].
Qed.
End Theorems.

(** ** Witnesses *)

Lemma store_refines_map_witness :
  exists s, run cfg0 store0 [OPut req0] s /\ represents None 0 s (spec_ops ∅ [OPut req0]).
Proof.
  destruct store1c_ok as (hdr & r & placed & E & _ & _). exists store1c.
  assert (run cfg0 store0 ([] ++ [OPut req0]) store1c) as Hrun.
  { eapply run_step; [apply run_nil|].
    eapply (step_commit cfg0 ev0 [OPut req0] [pw0]); [apply quiet0|done|apply prepared0| | | | |exact E];
      vm_compute; reflexivity. }
  split; [exact Hrun|].
  destruct (store_refines_map cfg0 None 0 su0 ev0 (∅ : mem) store0 (Ok tt) [OPut req0] store1c key0 quiet0
    ltac:(done) ltac:(intros; apply lookup_empty) ltac:(unfold uintw; cbn; lia)
    (proj1 store0_ok) Hrun) as (_ & _ & R & _). exact R.
Defined.

(** The torn tail: the first ten bytes of a second copy of the batch. *)
Lemma crash_recovery_lossless_witness :
  exists tail d s', length tail = 10%nat /\ crash_disk store1c tail d /\
    New cfg0 su0 ev0 d = (s', Ok tt) /\
    lookup_eq (lookup_value s' 5 1) (lookup_value store1c 5 1).
Proof.
  destruct store1c_ok as (hdr & r & placed & _ & D & L).
  pose proof (po_wf _ _ (proj1 L)) as W.
  pose proof (du_ok _ _ _ _ _ _ D) as O. pose proof (so_tail _ _ _ _ O) as Ht. cbn [app] in Ht.
  assert (lr_framing r = 83) as Hfr
    by (rewrite <- (pw_ok_framing _ _ (proj1 L)); vm_compute; reflexivity).
  assert (log_end 22 [LBatch [r] 1] = 147) as Hend by (rewrite <- Ht; vm_compute; reflexivity).
  set (eb := entry_bytes (c_StreamID cfg0) 1 147 (LBatch [r] 2)). set (tail := take 10 eb).
  assert (Z.of_nat (length eb) = 125) as Hlen.
  { unfold eb. rewrite length_entry_bytes. cbn. unfold batch_framing. cbn [map foldr]. lia. }
  assert (length tail = 10%nat) as Htl by (unfold tail; rewrite length_take; lia).
  set (d := mkDisk (<[1 := default [] (s_dir store1c !! 1) ++ tail]> (s_dir store1c)) (s_index store1c)
    (s_ckpt store1c)).
  assert (a_segmentID (s_alloc store1c) = 1) as Hid by (vm_compute; reflexivity).
  assert (crash_disk store1c tail d) as Hc by (constructor; [by rewrite Hid|done..]).
  destruct (crash_recovery_lossless cfg0 su0 ev0 store1c hdr [] [LBatch [r] 1] 0 (LBatch [r] 2) tail d
    quiet0 ltac:(done) D Hc) as (s' & E & _ & Hl).
  - rewrite Hid. cbn [app]. rewrite Hend. split.
    + unfold entry_ok. cbn [entry_size]. unfold batch_framing. cbn [map foldr log_last fold_left entry_seq].
      rewrite Hfr. split; [lia|]. split; [lia|]. split; [unfold uintw; cbn; lia|].
      repeat split; try done; try lia. by constructor.
    + exists 10%nat. fold eb. split; [lia|done].
  - unfold within_budget, log_records. cbn [map foldr entry_records length entry_size].
    unfold batch_framing. cbn [map foldr]. rewrite Hfr.
    assert (file_size tail = 10) as -> by (unfold file_size; lia).
    repeat split; vm_compute; done.
  - repeat split; vm_compute; reflexivity || done.
  - exists tail, d, s'. split; [exact Htl|]. split; [exact Hc|]. split; [exact E|apply Hl].
Defined.

Lemma caches0 : lc_wf (s_locCache store0) /\ cache_coherent store0.
Proof.
  destruct store0_ok as (_ & _ & _ & _ & Hl). split.
  - rewrite Hl. apply NewLocationCache_wf.
  - intros e g v _ _. rewrite Hl. done.
Qed.

Lemma open1 : segments_open store1.
Proof.
  intros id f Hf.
  assert (s_dir store1 = {[1 := default [] (s_dir store1 !! 1)]}) as Hd by (vm_compute; reflexivity).
  rewrite Hd, lookup_singleton_Some in Hf. destruct Hf as [<- _].
  eexists. vm_compute. reflexivity.
Qed.

Lemma write_then_read_witness :
  (Read cfg0 (range 5 1 1 10) store1).2 = Ok (mkReadResult [2; 3] (CRC32C [1; 2; 3])).
Proof.
  destruct store0_ok as (_ & _ & R & Hc & _). destruct caches0 as [Wc Hco].
  destruct store1_ok as (rc & E & _).
  destruct (proj2 (write_then_read cfg0 None 0 ev0 req0 store0 ∅ (range 5 1 1 10) store1 (Ok rc) key0 quiet0
    nonces0 put0 Hc inv0 R Wc Hco (lookup_empty _) room0 E eq_refl eq_refl
    ltac:(right; cbn; lia))) as [H|[_ H]]; [exact H|destruct (H open1)].
Defined.

Lemma delete_then_read_witness :
  exists s, Delete cfg0 ev0 5 1 store1 = (s, Ok tt) /\
    (Read cfg0 (whole 5 1) s).2 = Err ErrExtentNotFound.
Proof.
  destruct store1_ok as (rc & _ & I & R & Hc & Hl).
  destruct (Delete cfg0 ev0 5 1 store1) as [s res] eqn:E.
  assert (forall v, lookup_value store1 5 1 = Ok v ->
    Value_wf v /\ room_for store1 (delete_pending 5 1 v)) as Hv.
  { intros v Hv. vm_compute in Hv. apply Ok_inj in Hv. subst v. split.
    - constructor; unfold uintw, is_i64; cbn; lia.
    - split; [vm_compute; reflexivity|]. split; vm_compute; reflexivity. }
  assert (lc_wf (s_locCache store1)) as Wc by (rewrite Hl; apply NewLocationCache_wf).
  assert (cache_coherent store1) as Hco by (intros e g v _ _; rewrite Hl; discriminate).
  destruct (delete_then_read cfg0 None 0 ev0 5 1 store1 _ (Some [1; 2; 3]) (whole 5 1) s res key0 quiet0
    nonces0 ltac:(unfold uintw; lia) ltac:(unfold uintw; lia) Hc I R (lookup_singleton_eq _ _) Hv Wc Hco
    E eq_refl eq_refl) as (-> & Hr & _).
  exists s. split; [reflexivity|exact Hr].
Defined.

Lemma flush_changes_no_lookup_witness :
  lookup_value (flush cfg0 ev0 store1).1 5 1 = lookup_value store1 5 1.
Proof.
  destruct store1_ok as (rc & _ & I & _).
  apply (flush_changes_no_lookup cfg0 ev0 store1 _ (flush cfg0 ev0 store1).2 quiet0 I).
  - repeat split; vm_compute; reflexivity || done.
  - apply surjective_pairing.
Defined.

(** The device fails the batch's sync. *)
Definition ev_sync_fails : env :=
  mkEnv (fun _ => None) (fun _ => None) None (Some (ErrIO "sync")) None io_fine 7 (fun _ => []).

Lemma failed_commit_publishes_nothing_witness :
  (commitBatch cfg0 ev_sync_fails [pw0] store0).2 = Err (ErrIO "sync") /\
  lookup_value (commitBatch cfg0 ev_sync_fails [pw0] store0).1 5 1 = lookup_value store0 5 1.
Proof.
  assert ((commitBatch cfg0 ev_sync_fails [pw0] store0).2 = Err (ErrIO "sync")) as H
    by (vm_compute; reflexivity).
  split; [exact H|].
  apply (failed_commit_publishes_nothing cfg0 ev_sync_fails [pw0] store0 _ (ErrIO "sync") eq_refl).
  by apply result_of.
Defined.
