(* ===== verification/Behaviours.v ===== *)
(** * Limits of the store's guarantees

    The refinement theorem of [StoreTheorems.v] names what it needs: no
    failed commit in the active segment, no rotation over an unflushed
    overlay, an applier that only writes visible values, room for a marker.
    Each scenario here evaluates the model outside one of these and shows
    what the code then does. *)

From stdpp Require Import base list numbers strings gmap.
From Stdlib Require Import ZArith Lia.
From S2P Require Import Prelude Bytes Crc StorageTypes FileIO Record Journal.
From S2P Require Import SegmentFile Pebble Index Allocator Overlay Checkpoint Cache Recover.
From S2P Require Import SegmentLog Framing Store StoreProofs StoreSpec Scenario.

Local Open Scope Z_scope.
Local Open Scope go_scope.

(** What a Read of a whole extent answers. *)
Definition answer (cfg : Config) (s : Store mem) (e g : Z) : go (list Z) :=
  match (Read cfg (whole e g) s).2 with Ok r => Ok (rres_Data r) | Err x => Err x end.

Definition acked {A} (r : go A) : bool := is_ok r.

(** ** A failed commit leaves a hole *)

(** The first write of the call fails before any byte reaches the file. *)
Definition ev_write_fails : env :=
  mkEnv (fun _ => None) (fun n => if (n =? 0)%nat then Some (0%nat, ErrIO "write") else None)
    None None None io_fine 7 (fun _ => replicate NonceSize 0).

Definition hole1 : Store mem := (Write cfg0 ev_write_fails req0 store0).1.
Definition hole2 : Store mem := (Write cfg0 ev0 (mkWriteRequest 6 1 [9]) hole1).1.

(** [commitBatch] does not give its reservation back when an append
    fails, so the next batch lands behind a hole. It is acknowledged and
    readable, but recovery stops at the hole: after a crash the acknowledged
    extent is gone. *)
Theorem failed_append_loses_next_ack :
  acked (Write cfg0 ev_write_fails req0 store0).2 = false /\
  acked (Write cfg0 ev0 (mkWriteRequest 6 1 [9]) hole1).2 = true /\
  answer cfg0 hole2 6 1 = Ok [9] /\
  (New cfg0 su0 ev0 (disk_of hole2)).2 = Ok tt /\
  answer cfg0 (New cfg0 su0 ev0 (disk_of hole2)).1 6 1 = Err ErrExtentNotFound.
Proof. vm_compute. repeat split. Qed.

(** ** Rotation before a flush *)

(** Segments of 200 bytes hold one small batch. *)
Definition cfg200 : Config := mkConfig 1 200 false None None.
Definition rot0 : Store mem := (New cfg200 su0 ev0 disk0).1.
Definition rot1 : Store mem := (Write cfg200 ev0 req0 rot0).1.
Definition rot2 : Store mem := (Write cfg200 ev0 (mkWriteRequest 6 1 [9]) rot1).1.
Definition rot3 : Store mem := (New cfg200 su0 ev0 (disk_of rot2)).1.

(** Recovery replays only the segment with the highest id. A batch
    acknowledged in a segment that was sealed since the last flush, and whose
    index mutation is still queued, is not found after a crash; the batch in
    the newest segment is. *)
Theorem rotation_before_flush_loses_ack :
  acked (Write cfg200 ev0 req0 rot0).2 = true /\
  acked (Write cfg200 ev0 (mkWriteRequest 6 1 [9]) rot1).2 = true /\
  answer cfg200 rot2 5 1 = Ok [1; 2; 3] /\
  answer cfg200 rot3 5 1 = Err ErrExtentNotFound /\ answer cfg200 rot3 6 1 = Ok [9].
Proof. vm_compute. repeat split. Qed.

(** ** A stale index mutation *)

Definition stale1 : Store mem := (Delete cfg0 ev0 5 1 store1).1.
Definition stale2 : Store mem := (flush cfg0 ev0 stale1).1.
(** The applier takes the queued mutation of the Write. *)
Definition stale3 : Store mem := apply_one_queued stale2.
Definition stale4 : Store mem := (New cfg0 su0 ev0 (disk_of stale3)).1.

(** The apply queue is not ordered against a flush. Write, Delete, flush
    (the index holds the tombstone, the checkpoint covers it); then the
    applier writes the Write's queued mutation over the tombstone. After a
    restart the deleted extent is readable again. *)
Theorem stale_apply_resurrects :
  answer cfg0 stale2 5 1 = Err ErrExtentNotFound /\
  (New cfg0 su0 ev0 (disk_of stale3)).2 = Ok tt /\
  answer cfg0 stale4 5 1 = Ok [1; 2; 3].
Proof. vm_compute. repeat split. Qed.

(** ** Startup in a full segment *)

Definition cfg160 : Config := mkConfig 1 160 false None None.
Definition full1 : Store mem := (Write cfg160 ev0 req0 (New cfg160 su0 ev0 disk0).1).1.

(** A batch may fill its segment to within 42 bytes of the end; the
    flush that startup recovery needs then gets ErrSegmentFull, and [New]
    refuses to open the store over its own data. *)
Theorem full_segment_blocks_startup :
  answer cfg160 full1 5 1 = Ok [1; 2; 3] /\
  (flush cfg160 ev0 full1).2 = Err ErrSegmentFull /\
  (New cfg160 su0 ev0 (disk_of full1)).2 = Err ErrSegmentFull.
Proof. vm_compute. repeat split. Qed.

(** ** Payload bytes taken for a footer *)

Definition footer_like : list Z := be_enc 4 SegmentMagic ++ [FormatVersion] ++ [0; 0; 0; 0; 0; 0].
Definition looks1 : Store mem := (Write cfg0 ev0 (mkWriteRequest 5 1 footer_like) store0).1.
Definition looks2 : Store mem := (Write cfg0 ev0 (mkWriteRequest 6 1 [1]) looks1).1.

(** An active segment is taken for a sealed one when the bytes 65 before
    its end are the footer's magic and version, which a payload can supply.
    The acknowledged extent then answers ErrSegmentUnavailable until another
    batch moves the end of the file. *)
Theorem payload_taken_for_footer :
  acked (Write cfg0 ev0 (mkWriteRequest 5 1 footer_like) store0).2 = true /\
  answer cfg0 looks1 5 1 = Err ErrSegmentUnavailable /\ answer cfg0 looks2 5 1 = Ok footer_like.
Proof. vm_compute. repeat split. Qed.

(** ** Sequences across restarts *)

Definition restart1 : Store mem := (New cfg0 su0 ev0 (disk_of store1)).1.
Definition restart2 : Store mem := (New cfg0 su0 ev0 (disk_of restart1)).1.

(** The stream sequence is recovered from the newest segment alone, so a
    second restart with nothing written in between starts the stream again at
    zero, below sequences it has already committed. *)
Theorem sequence_restarts :
  s_streamSeq store1 = 1 /\ s_streamSeq restart1 = 1 /\ s_streamSeq restart2 = 0.
Proof. vm_compute. repeat split. Qed.

(** ** Retries *)

Section Retry.
Context {DB : Type} `{KV : PebbleKV DB} `{FL : FrameLib} (cfg : Config).

(** A Write of a key the store knows changes nothing. It returns the
    receipt of the stored record when the checksums agree and
    ErrStaleGeneration otherwise; the state of the record is not consulted,
    so a deleted extent is acknowledged again without becoming readable. *)
Theorem write_known_key ev req s v :
  s_closing s = false -> lookup_value s (wr_ExtentID req) (wr_Generation req) = Ok v ->
  Write (DB := DB) cfg ev req s =
    (s, if v_Checksum v =? CRC32C (wr_Data req) then Ok (receiptFor s req v)
        else Err ErrStaleGeneration).
Proof.
  intros Hc Hl. unfold Write, Write_prepare, enter.
  destruct (v_Checksum v =? CRC32C (wr_Data req)) eqn:E.
  - rewrite (bindM_ok _ _ s s (inl (receiptFor s req v))); [done|].
    rewrite (bindM_ok _ _ s s tt) by (stepM; by rewrite Hc). stepM. rewrite Hl.
    unfold checksumOf. by rewrite E.
  - unfold bindM at 1. rewrite (bindM_ok _ _ s s tt) by (stepM; by rewrite Hc). stepM. rewrite Hl.
    unfold checksumOf. by rewrite E.
Qed.
End Retry.

(** The deleted extent: acknowledged again, still not found. *)
Lemma write_known_key_witness :
  acked (Write cfg0 ev0 req0 stale1).2 = true /\ answer cfg0 stale1 5 1 = Err ErrExtentNotFound.
Proof.
  assert (exists v, lookup_value stale1 5 1 = Ok v /\ v_Checksum v = CRC32C [1; 2; 3]) as (v & Hv & Hc).
  { eexists. split; vm_compute; reflexivity. }
  rewrite (write_known_key cfg0 ev0 req0 stale1 v ltac:(vm_compute; reflexivity) Hv).
  cbn [snd wr_Data req0]. rewrite Hc, Z.eqb_refl. split; [reflexivity|vm_compute; reflexivity].
Defined.
