(* ===== verification/FormatTheorems.v ===== *)
(** * Theorems about the on-disk formats and their readers

    Record headers, sealed segments, the segment log and its recovery, the
    index, offset allocation, the recovery checkpoint, the overlay and the
    caches. *)

From stdpp Require Import base list numbers strings gmap sorting.
From Stdlib Require Import ZArith Lia.
From S2P Require Import Prelude Bytes Crc StorageTypes FileIO Record Journal.
From S2P Require Import SegmentFile Pebble Index Allocator Overlay Checkpoint Cache Recover.
From S2P Require Import SegmentLog LogParse Framing FramingProofs Store StoreProofs.
From S2P Require Import Durability Restart StoreSpec Scenario.

Local Open Scope Z_scope.
Local Open Scope go_scope.

(** ** Recovery *)


(** C26: the replay loop terminates. One step per remaining byte, plus one,
    is enough fuel for any file, any apply callback and any parser state. *)
Theorem recovery_scan_terminates {A} (apply : option (A -> CommitDescriptor -> go A)) env f off s :
  0 <= off -> exists r, scan apply (S (Z.to_nat (re_size env))) env f off s = Some r.
Proof. intros H. apply scan_fuel; lia. Qed.

(** The streaming checksum of the replay and the one-shot checksum of the
    writer are the same function of a batch's descriptors. *)
Theorem descriptor_checksums_agree ds :
  Ok (pendingDescriptorsCRC ds) = descriptorCRC ds.
Proof.
  rewrite pendingDescriptorsCRC_spec. unfold descriptorCRC.
  rewrite EncodeDescriptors_bytes by (by rewrite length_replicate). by rewrite bind_Ok.
Qed.

(** ** Records and segments *)

(** The header codec is canonical. Whatever bytes decode, re-encoding
    the decoded header gives those bytes back; and every in-range header that
    is current decodes to itself after encoding. *)
Theorem record_header_codec :
  (forall src h, bytes_wf src -> RecordHeader_Decode src = Ok h ->
     RecordHeader_Encode h (replicate RecordHeaderSize 0) = Ok (take RecordHeaderSize src)) /\
  (forall h rest, RecordHeader_wf h -> header_current h -> h_HeaderCRC h = 0 ->
     exists b, RecordHeader_Encode h (replicate RecordHeaderSize 0) = Ok b /\
       RecordHeader_Decode (b ++ rest) = Ok h).
Proof.
  split.
  - intros src h Hw H. unfold RecordHeader_Decode in H.
    pose proof (header_canonical _ _ _ Hw H) as Hb.
    apply RecordHeader_Decode_inv in H as (_ & (_ & _ & Hop) & _).
    rewrite RecordHeader_Encode_bytes by (rewrite ?length_replicate; done).
    rewrite drop_ge, app_nil_r by (by rewrite length_replicate). by rewrite Hb.
  - intros h rest W (Hm & Hv & Hop) H0.
    rewrite RecordHeader_Encode_bytes by (rewrite ?length_replicate; done).
    rewrite drop_ge, app_nil_r by (by rewrite length_replicate).
    eexists. split; [reflexivity|]. unfold RecordHeader_Decode. rewrite <- H0 at 1.
    by apply RecordHeader_Decode_bytes.
Qed.

(** C27: sealing and validation agree, and validation detects damage. The
    file [WriteFooter] produces is accepted with the footer it returned, and
    replacing up to four consecutive bytes before its checksum field makes
    [ValidateSealedSegment] fail. *)
Theorem sealed_segment_integrity h body footer f' footer' :
  SegmentHeader_wf h -> sh_HeaderCRC h = 0 -> bytes_wf body -> SegmentFooter_wf footer ->
  WriteFooter (segment_header_bytes h ++ body) (file_size (segment_header_bytes h ++ body)) footer
    = Ok (f', footer') ->
  ValidateSealedSegment f' = Ok footer' /\
  forall pre u v post, f' = pre ++ u ++ post -> bytes_wf v -> length u = length v ->
    (length u <= 4)%nat -> u <> v -> (4 <= length post)%nat ->
    is_ok (ValidateSealedSegment (pre ++ v ++ post)) = false.
Proof.
  intros Wh H0 Wb Wf H.
  destruct (WriteFooter_validates h body footer f' footer' Wh H0 Wb Wf H) as [Hv Hf].
  split; [done|]. intros pre u v post E Wv Hl H4 Hne Hp.
  eapply (ValidateSealedSegment_burst pre u v post footer'); try done; [|by rewrite <- E].
  rewrite <- E, Hf. rewrite !bytes_wf_app.
  auto using segment_header_bytes_wf, segment_footer_bytes_wf.
Qed.

(** ** Index *)

Section Index.
Context {DB : Type} `{KL : PebbleLaws DB}.

(** [Iterate] visits every extent once, in increasing order of its id,
    with its highest generation, and stops at the callback's first error. *)
Theorem iterate_visits_latest {S} (fn : S -> Z -> Z -> Value -> go S) (ix : DB) st :
  Index_wf ix ->
  exists ls, Iterate fn ix st = go_fold fn st ls /\
    StronglySorted (fun s t => e_id s < e_id t) ls /\
    (forall t, entry_wf t -> t ∈ ls <-> latest_at ix t).
Proof. apply Iterate_spec. Qed.

(** [LatestGeneration] is the greatest generation stored for an extent,
    and nothing is stored when it reports none; for the extent 2^64-1 its
    upper bound wraps to the smallest key and it always reports none. *)
Theorem latest_generation_exact (ix : DB) id :
  Index_wf ix -> is_u64 id ->
  (id + 1 < 2 ^ 64 ->
   match LatestGeneration ix id with
   | Some g => exists v, entry_wf (id, g, v) /\ latest_at ix (id, g, v)
   | None => forall g v, is_u64 g -> Value_wf v -> Index_Get ix id g <> Ok v
   end) /\
  (id = 2 ^ 64 - 1 -> LatestGeneration ix id = None).
Proof.
  intros Hw Hid. split; [intros Hlt; by apply LatestGeneration_spec|].
  intros ->. unfold LatestGeneration. cbv zeta.
  replace (List.filter _ (kv_scan ix)) with (@nil (list Z * list Z)); [done|].
  symmetry. destruct (Index_entries ix Hw) as (es & -> & Hf & _).
  induction Hf as [|t es Ht Hf IH]; [done|]. cbn [map List.filter].
  destruct Ht as (Hi & Hg & _). unfold entry_kv at 1 2. cbn [fst].
  rewrite !Key_order by (done || (unfold uintw; lia) || by apply wrap_bound).
  change (u64 (2 ^ 64 - 1 + 1)) with 0. unfold uintw in *.
  destruct (Z.ltb_spec (e_id t) 0), (Z.eqb_spec (e_id t) 0), (Z.ltb_spec (e_gen t) 0); try lia;
    cbn [orb andb]; rewrite ?andb_false_r; exact IH.
Qed.
End Index.

(** ** Allocation *)

(** C28: the preflight of group commit is exact. When the two CanReserve
    checks pass for a batch and its BatchCommit, every reservation succeeds,
    records get consecutive offsets from the tail, the commit follows them,
    and the tail stays within the segment. *)
Theorem preflight_is_exact a reqs :
  alloc_wf a -> Forall (fun r => 0 <= r.1.1) reqs ->
  CanReserveBatch a (framing_sum reqs + Z.of_nat BatchCommitSize) = true ->
  CanReserveRecords a (Z.of_nat (length reqs)) = true ->
  exists a' a'', reserve_all a reqs = Ok (consecutive (a_offset a) reqs, a') /\
    alloc_wf a' /\ a_offset a' = a_offset a + framing_sum reqs /\
    ReserveCommit a' (Z.of_nat BatchCommitSize) = Ok (a_offset a', a'') /\
    a_offset a'' <= a_maxSegmentBytes a''.
Proof.
  intros W Hp HB HR. destruct (preflight_reserves a reqs W Hp HB HR)
    as (a' & E & W' & O & _ & _ & _ & _ & a'' & E' & _ & L). eauto 10.
Qed.

(** ** Checkpoints *)

(** C29: publishing a recovery checkpoint is atomic. Whatever file operation
    fails or is cut short, after every step the sidecar a later startup loads
    is the old one or, complete, the new one; success means the new one. *)
Theorem checkpoint_publication_atomic d io c states r :
  cd_persistent d = true -> is_u8 (rcp_StreamID c) -> is_u64 (rcp_SegmentID c) ->
  is_i64 (rcp_SafeOffset c) -> is_u64 (rcp_SafeSeq c) ->
  rcp_SegmentID c <> 0 -> Z.of_nat SegmentHeaderSize <= rcp_SafeOffset c -> rcp_SafeSeq c <> 0 ->
  StoreRecoveryCheckpoint d io c = (states, r) ->
  let c' := mkRecoveryCheckpoint recoveryCheckpointVersion (rcp_StreamID c) (rcp_SegmentID c)
              (rcp_SafeOffset c) (rcp_SafeSeq c) in
  Forall (fun d' =>
    LoadRecoveryCheckpoint d' (rcp_StreamID c) = LoadRecoveryCheckpoint d (rcp_StreamID c) \/
    LoadRecoveryCheckpoint d' (rcp_StreamID c) = Ok (Some c')) states /\
  (r = Ok tt -> exists d', last states = Some d' /\
     LoadRecoveryCheckpoint d' (rcp_StreamID c) = Ok (Some c')).
Proof.
  intros Hp Hst Hsg Ho Hsq Hn1 Hn2 Hn3 H c'.
  destruct (Store_atomic d io c states r Hp H) as [Hall Hok]. fold c' in Hall, Hok.
  assert (forall d', cd_persistent d' = true ->
    cd_main d' = <[rcp_StreamID c := encodeRecoveryCheckpoint c']> (cd_main d) ->
    LoadRecoveryCheckpoint d' (rcp_StreamID c) = Ok (Some c')) as Hload.
  { intros d' Hp' Hm. unfold LoadRecoveryCheckpoint. rewrite Hp', Hm, lookup_insert_eq. cbn [negb].
    rewrite decode_encode_checkpoint by (by repeat split; try apply Hst; try apply Hsg; try apply Ho;
      try apply Hsq). rewrite bind_Ok. cbn [c' rcp_StreamID]. by rewrite Z.eqb_refl. }
  split.
  - eapply Forall_impl; [exact Hall|]. intros d' [Hp' [Hm|Hm]]; [left|right; by apply Hload].
    unfold LoadRecoveryCheckpoint. by rewrite Hp, Hp', Hm.
  - intros Hr. destruct (Hok Hr) as (d' & Hl & Hm). exists d'. split; [done|]. apply Hload; [|done].
    rewrite Forall_forall in Hall. apply last_Some_elem_of in Hl. by apply Hall.
Qed.

(** ** Caches *)

(** The location cache is a bounded LRU map: [Put] and [Get] keep it
    within its size without duplicate keys, a put is found at once, and any
    other hit is a binding the cache had before. *)
Theorem location_cache_bounded {K V} `{EqDecision K} (c : LocationCache K V) k v :
  lc_wf c ->
  let c' := LocationCache_Put c k v in
  lc_wf c' /\ (length (lc_lru c') <= lc_maxSize c)%nat /\ (LocationCache_Get c' k).1 = Some v /\
  forall k' w, k' <> k -> (LocationCache_Get c' k').1 = Some w -> lc_find c k' = Some w.
Proof.
  intros W c'. pose proof (LocationCache_Put_wf c k v W) as W'. fold c' in W'.
  assert (lc_maxSize c' = lc_maxSize c) as Hm
    by (unfold c', LocationCache_Put; by destruct (lru_find k (lc_lru c))).
  split; [done|]. split; [rewrite <- Hm; apply W'|]. split.
  - rewrite (proj1 (LocationCache_Get_find c' k W')). exact (proj1 (LocationCache_Put_find c k v k W)).
  - intros k' w Hne Hg. rewrite (proj1 (LocationCache_Get_find c' k' W')) in Hg.
    destruct (LocationCache_Put_find c k v k' W) as [_ P]. destruct (P Hne) as [P'|P'];
      unfold c' in Hg; congruence.
Qed.

(** Eviction never drops a pinned descriptor, but pinning a segment
    before it is opened does not pin it: the reader [Get] opens afterwards is
    evictable. *)
Theorem descriptor_pinning {K R} `{EqDecision K} (open : K -> go R)
    (c : @SegmentDescriptorCache K R) path :
  (forall fuel maxSize e, NoDup (keys (sc_lru c)) -> lru_find path (sc_lru c) = Some e ->
     ce_pinned e = true -> lru_find path (seg_evict fuel maxSize (sc_lru c)) = Some e) /\
  (forall c' rd, lru_find path (sc_lru c) = None ->
     SegCache_Get open (SegCache_Pin c path) path = (Ok rd, c') -> ~ pinned_in path c').
Proof.
  split.
  - intros fuel maxSize e Hd Hf Hp. by apply seg_evict_keeps_pinned.
  - intros c' rd Hn HG. by eapply pinned_after_open.
Qed.

(** ** Witnesses *)

Definition hdr0 : SegmentHeader := mkSegmentHeader SegmentMagic FormatVersion 1 SegmentData 0 0.

Lemma hdr0_wf : SegmentHeader_wf hdr0.
Proof. constructor; cbn; unfold uintw; try lia; done. Qed.

Definition opts0 : RecoverOptions :=
  recover_options cfg0 su0 None 1.


Lemma recovery_scan_terminates_witness :
  exists r, scan (A := Overlay) (Some recover_apply) (S (Z.to_nat 3))
    (mkRecoveryEnv opts0 1 3 10 0 0 10) [1; 2; 3] 0
    (mkRecoveryState [] 0 0 0 0 0 0 0 0 0 NewOverlay) = Some r.
Proof.
  apply (recovery_scan_terminates (Some recover_apply) (mkRecoveryEnv opts0 1 3 10 0 0 10)). lia.
Defined.

Definition footer0 : SegmentFooter := mkSegmentFooter SegmentMagic FormatVersion 1 3 5 5 1 7 9 0.

Lemma sealed_segment_integrity_witness :
  exists f' footer', WriteFooter (segment_header_bytes hdr0 ++ [1; 2; 3]) 25 footer0 = Ok (f', footer') /\
    ValidateSealedSegment f' = Ok footer'.
Proof.
  destruct (WriteFooter (segment_header_bytes hdr0 ++ [1; 2; 3]) 25 footer0) as [[f' ft]|] eqn:E;
    [|vm_compute in E; discriminate].
  exists f', ft. split; [reflexivity|].
  refine (proj1 (sealed_segment_integrity hdr0 [1; 2; 3] footer0 f' ft hdr0_wf eq_refl _ _ E)).
  - repeat constructor; unfold uintw; lia.
  - constructor; cbn; unfold uintw, is_i64; try lia; done.
Defined.

Definition value0 : Value := mkValue 1 22 3 3 ExtentDurable 7.

Definition index0 : mem := <[Key 5 2 := value_bytes value0]> (<[Key 5 1 := value_bytes value0]> ∅).

Lemma value0_wf : Value_wf value0.
Proof. by constructor. Qed.

Lemma index0_wf : Index_wf index0.
Proof.
  intros k raw Hk. unfold index0 in Hk. cbn [kv_get gmap_kv] in Hk.
  rewrite !lookup_insert in Hk. repeat case_decide; simplify_eq.
  - exists (5, 2, value0). split; [|done]. split; [|split]; [unfold uintw; cbn; lia..|apply value0_wf].
  - exists (5, 1, value0). split; [|done]. split; [|split]; [unfold uintw; cbn; lia..|apply value0_wf].
Qed.

Lemma iterate_visits_latest_witness :
  exists ls, Iterate (fun l id g v => Ok (l ++ [(id, g)])) index0 [] =
    go_fold (fun l id g v => Ok (l ++ [(id, g)])) [] ls /\ (5, 2, value0) ∈ ls.
Proof.
  destruct (iterate_visits_latest (fun l id g v => Ok (l ++ [(id, g)])) index0 [] index0_wf)
    as (ls & E & _ & Hl).
  exists ls. split; [exact E|]. apply Hl.
  - split; [|split]; [unfold uintw; cbn; lia..|apply value0_wf].
  - split; [vm_compute; reflexivity|]. intros g v Hg Hv Hget. unfold e_gen. cbn.
    destruct (decide (g = 2)) as [->|]; [lia|]. destruct (decide (g = 1)) as [->|]; [lia|]. exfalso.
    unfold Index_Get, index0 in Hget. cbn [kv_get gmap_kv] in Hget.
    rewrite !lookup_insert_ne, lookup_empty in Hget; [done|intros Hk..];
      apply Key_inj in Hk as [_ Hk]; try (unfold uintw in *; lia); change (is_u64 5); unfold uintw; lia.
Defined.

Lemma latest_generation_exact_witness : LatestGeneration index0 (2 ^ 64 - 1) = None.
Proof.
  apply (latest_generation_exact index0 (2 ^ 64 - 1) index0_wf); [unfold uintw; lia|reflexivity].
Defined.

Lemma preflight_is_exact_witness :
  exists a' a'', reserve_all (NewAllocator 1 0 1000 0) [(100, 5, 3); (90, 6, 1)]
    = Ok ([22; 122], a') /\ ReserveCommit a' 42 = Ok (212, a'').
Proof.
  destruct (preflight_is_exact (NewAllocator 1 0 1000 0) [(100, 5, 3); (90, 6, 1)] (NewAllocator_wf _ _ _ _)
    ltac:(repeat constructor; cbn; lia) ltac:(vm_compute; reflexivity) ltac:(vm_compute; reflexivity))
    as (a' & a'' & E & _ & O & E' & _).
  exists a', a''. split; [exact E|]. rewrite O in E'. exact E'.
Defined.

(** The rename fails: the old sidecar stays. *)
Lemma checkpoint_publication_atomic_witness :
  let d := mkCkptDir true ∅ ∅ in
  let io := mkCkptIO None (recoveryCheckpointSize, None) None None (Some (ErrIO "rename")) None in
  Forall (fun d' => LoadRecoveryCheckpoint d' 1 = LoadRecoveryCheckpoint d 1 \/
      LoadRecoveryCheckpoint d' 1 = Ok (Some (mkRecoveryCheckpoint 1 1 1 95 1)))
    (StoreRecoveryCheckpoint d io (mkRecoveryCheckpoint 0 1 1 95 1)).1.
Proof.
  intros d io.
  refine (proj1 (checkpoint_publication_atomic d io (mkRecoveryCheckpoint 0 1 1 95 1) _ _ eq_refl
    _ _ _ _ _ _ _ (surjective_pairing _))); done.
Defined.

Lemma location_cache_bounded_witness :
  let c := mkLocationCache 1 [(5, 7)] in
  (LocationCache_Get (LocationCache_Put c 6 8) 6).1 = Some 8 /\
  (LocationCache_Get (LocationCache_Put c 6 8) 5).1 = None.
Proof.
  intros c. assert (lc_wf c) as W by (split; [cbn; lia|split; [by apply NoDup_singleton|done]]).
  destruct (location_cache_bounded c 6 8 W) as (_ & _ & H & _). split; [exact H|reflexivity].
Defined.
