(* ===== verification/MetaKeys.v ===== *)
(** * Key layout and prefix scans of the metadata store

    Models [nufs-core/metadata/keys.go] and the key builders, parsers and
    iterators of [pebble_store.go]: rows live in one ordered key space, an
    inode at [/inode/<id>], a directory entry at [/ns/<parent>/<name>], with
    ids in decimal. What this uses of Go: [strconv.FormatUint] and
    [ParseUint] in base 10, [strings.HasPrefix] and [TrimPrefix]. *)

From stdpp Require Import base list sorting numbers strings gmap.
From Stdlib Require Import ZArith Lia.
From S2P Require Import Prelude Bytes Pebble.

Local Open Scope Z_scope.

(** ** Strings *)

(** The bytes of a string literal. *)
Fixpoint str (s : string) : list Z :=
  match s with
  | EmptyString => []
  | String c s => Z.of_N (Ascii.N_of_ascii c) :: str s
  end.

Lemma str_wf s : bytes_wf (str s).
Proof.
  induction s as [|c s IH]; constructor; [|done]. pose proof (Ascii.N_ascii_bounded c).
  change (0 <= Z.of_N (Ascii.N_of_ascii c) < 256). lia.
Qed.

Fixpoint HasPrefix (s p : list Z) {struct p} : bool :=
  match p, s with
  | [], _ => true
  | x :: p, y :: s => (x =? y) && HasPrefix s p
  | _ :: _, [] => false
  end.

Definition TrimPrefix (s p : list Z) : list Z :=
  if HasPrefix s p then drop (length p) s else s.

Lemma HasPrefix_spec s p : HasPrefix s p = true <-> exists rest, s = p ++ rest.
Proof.
  revert s. induction p as [|x p IH]; intros s; cbn [HasPrefix].
  - split; [by exists s|done].
  - destruct s as [|y s]; [split; [done|]; by intros [rest ?]|].
    rewrite andb_true_iff, Z.eqb_eq, IH. split.
    + intros [-> [rest ->]]. by exists rest.
    + intros [rest E]. injection E as -> ->. eauto.
Qed.

Lemma HasPrefix_app p rest : HasPrefix (p ++ rest) p = true.
Proof. apply HasPrefix_spec. eauto. Qed.

Lemma TrimPrefix_app p rest : TrimPrefix (p ++ rest) p = rest.
Proof. unfold TrimPrefix. by rewrite HasPrefix_app, drop_app_length. Qed.

(** ** Decimal numbers *)

Fixpoint dec_digits (fuel : nat) (n : Z) (acc : list Z) : list Z :=
  match fuel with
  | O => acc
  | S fuel =>
      let acc := (48 + n mod 10) :: acc in
      if n <? 10 then acc else dec_digits fuel (n / 10) acc
  end.

(** [strconv.FormatUint(n, 10)] and [%d]; a uint64 has at most 20 digits. *)
Definition FormatUint (n : Z) : list Z := dec_digits 20 n [].

Fixpoint parse_digits (n : Z) (s : list Z) : option Z :=
  match s with
  | [] => Some n
  | c :: s =>
      if (c <? 48) || (57 <? c) then None else
      let n' := n * 10 + (c - 48) in
      if 2 ^ 64 <=? n' then None else parse_digits n' s
  end.

(** [strconv.ParseUint(s, 10, 64)] *)
Definition ParseUint (s : list Z) : option Z :=
  match s with [] => None | _ => parse_digits 0 s end.

Definition digit (c : Z) : Prop := 48 <= c <= 57.

Lemma dec_digits_all fuel n acc :
  Forall digit acc -> Forall digit (dec_digits fuel n acc).
Proof.
  revert n acc. induction fuel as [|fuel IH]; intros n acc H; cbn [dec_digits]; [done|].
  pose proof (Z.mod_pos_bound n 10 ltac:(lia)).
  destruct (n <? 10); [|apply IH]; constructor; unfold digit; lia || done.
Qed.

Lemma FormatUint_digits n : Forall digit (FormatUint n).
Proof. by apply dec_digits_all. Qed.

Lemma parse_digit m c s :
  0 <= c < 10 -> m * 10 + c < 2 ^ 64 ->
  parse_digits m ((48 + c) :: s) = parse_digits (m * 10 + c) s.
Proof.
  intros Hc Hb. cbn [parse_digits].
  destruct (Z.ltb_spec (48 + c) 48); [lia|]. destruct (Z.ltb_spec 57 (48 + c)); [lia|]. cbn [orb].
  replace (48 + c - 48) with c by lia. destruct (Z.leb_spec (2 ^ 64) (m * 10 + c)); [lia|done].
Qed.

Lemma dec_digits_parse fuel n s r :
  0 <= n < 10 ^ Z.of_nat fuel -> n < 2 ^ 64 -> (0 < fuel)%nat ->
  parse_digits n s = Some r -> parse_digits 0 (dec_digits fuel n s) = Some r.
Proof.
  revert n s. induction fuel as [|fuel IH]; intros n s Hn H64 Hf Hr; [lia|].
  cbn [dec_digits]. pose proof (Z.mod_pos_bound n 10 ltac:(lia)) as Hmod.
  pose proof (Z.div_mod n 10 ltac:(lia)) as Hdiv.
  destruct (Z.ltb_spec n 10) as [Hlt|Hge].
  - rewrite Z.mod_small by lia. rewrite parse_digit by lia. done.
  - rewrite Nat2Z.inj_succ, Z.pow_succ_r in Hn by lia.
    apply IH.
    + split; [apply Z.div_pos; lia|]. apply Z.div_lt_upper_bound; lia.
    + apply Z.div_lt_upper_bound; lia.
    + destruct fuel as [|fuel]; [|lia]. change (10 ^ Z.of_nat 0) with 1 in Hn. lia.
    + rewrite parse_digit by lia. replace (n / 10 * 10 + n mod 10) with n by lia. done.
Qed.

Lemma dec_digits_length fuel n acc : (length acc <= length (dec_digits fuel n acc))%nat.
Proof.
  revert n acc. induction fuel as [|fuel IH]; intros n acc; cbn [dec_digits]; [done|].
  destruct (n <? 10); cbn [length]; [lia|]. etrans; [|apply IH]. cbn. lia.
Qed.

Lemma FormatUint_nonempty n : FormatUint n <> [].
Proof.
  unfold FormatUint. cbn [dec_digits]. destruct (n <? 10); [done|].
  intros E. pose proof (dec_digits_length 19 (n / 10) [48 + n mod 10]) as L.
  change (dec_digits 19 (n / 10) [48 + n mod 10] = []) in E. rewrite E in L. cbn in L. lia.
Qed.

Lemma ParseUint_FormatUint n : is_u64 n -> ParseUint (FormatUint n) = Some n.
Proof.
  intros Hn. unfold uintw in Hn. unfold ParseUint.
  pose proof (FormatUint_nonempty n) as Hne.
  destruct (FormatUint n) as [|c s] eqn:F; [done|]. rewrite <- F.
  apply (dec_digits_parse 20 n []); try lia; done.
Qed.

Lemma FormatUint_inj n m : is_u64 n -> is_u64 m -> FormatUint n = FormatUint m -> n = m.
Proof.
  intros Hn Hm E. apply (f_equal ParseUint) in E.
  rewrite !ParseUint_FormatUint in E by done. congruence.
Qed.

(** ** Keys ([keys.go]) *)

Definition prefixBucket := str "/bucket/".
Definition prefixBucketByRoot := str "/bucket-by-root/".
Definition prefixBucketStats := str "/bucket-stats/".
Definition prefixNS := str "/ns/".
Definition prefixInode := str "/inode/".
Definition prefixChunk := str "/chunk/".
Definition prefixExtentPage := str "/extent-page/".
Definition prefixExtentMeta := str "/extent-meta/".
Definition prefixPolicy := str "/policy/".
Definition prefixQuota := str "/quota/".
Definition prefixQuotaUsage := str "/quota-usage/".
Definition prefixFreeList := str "/freelist/".
Definition prefixChunkTombstone := str "chunk-tombstone/".
Definition prefixBackupCatalog := str "backup/catalog/".
Definition keyBackupCatalog := str "backup/catalog-state".
Definition prefixBackupTask := str "backup/task/".
Definition keyClusterID := str "system/cluster-id".
Definition keyRestorePending := str "system/restore-pending".
Definition keyInodeReferenceEpoch := str "system/inode-reference-epoch".

(** [fmt.Sprintf("%s%d", prefixInode, id)] and its relatives *)
Definition inodeKey (id : Z) : list Z := prefixInode ++ FormatUint id.
Definition nsPrefix (parent : Z) : list Z := prefixNS ++ FormatUint parent ++ str "/".
Definition nsKey (parent : Z) (name : list Z) : list Z := nsPrefix parent ++ name.
Definition freeListKey (id : Z) : list Z := prefixFreeList ++ FormatUint id.
Definition bucketStatsKey (root : Z) : list Z := prefixBucketStats ++ FormatUint root.
Definition bucketByRootKey (root : Z) : list Z := prefixBucketByRoot ++ FormatUint root.
Definition chunkMetadataKey (id : Z) : list Z := prefixChunk ++ FormatUint id.
Definition chunkTombstoneKey (id : Z) : list Z := prefixChunkTombstone ++ FormatUint id.

(** [parseInodeKeyID]; the error is a [None]. *)
Definition parseInodeKeyID (key : list Z) : option Z :=
  match ParseUint (TrimPrefix key prefixInode) with
  | Some id =>
      if (id =? 0) || negb (bool_decide (inodeKey id = key)) then None else Some id
  | None => None
  end.

(** [validInodeMetadataKey] *)
Definition validInodeMetadataKey (key : list Z) : bool :=
  let value := TrimPrefix key prefixInode in
  match value with
  | [] => false
  | _ => match ParseUint value with
         | Some id => bool_decide (inodeKey id = key)
         | None => false
         end
  end.

(** [isInodeMetadataKey] *)
Definition isInodeMetadataKey (key : list Z) : bool :=
  HasPrefix key prefixInode && validInodeMetadataKey key.

(** [parseChunkTombstoneKey] *)
Definition parseChunkTombstoneKey (key prefix : list Z) : option Z :=
  match ParseUint (TrimPrefix key prefix) with
  | Some id =>
      if (id =? 0) || negb (bool_decide (prefix ++ FormatUint id = key)) then None else Some id
  | None => None
  end.

(** [isChunkMetadataKey] *)
Definition isChunkMetadataKey (key : list Z) : bool :=
  HasPrefix key prefixChunk
  && match parseChunkTombstoneKey key prefixChunk with Some _ => true | None => false end.

(** ** Keys of different rows differ *)

(** A decimal number, a slash and a name determine number and name. *)
Lemma split_at_slash a b s t :
  Forall digit a -> Forall digit b -> a ++ str "/" ++ s = b ++ str "/" ++ t -> a = b /\ s = t.
Proof.
  intros Ha. revert b. induction Ha as [|x a Hx Ha IH]; intros b Hb E.
  - destruct Hb as [|y b Hy Hb]; cbn in E; [by injection E|].
    injection E as <- E. unfold digit in Hy. lia.
  - destruct Hb as [|y b Hy Hb]; cbn in E.
    + injection E as -> E. unfold digit in Hx. lia.
    + injection E as -> E. destruct (IH b Hb E) as [-> ->]. done.
Qed.

Lemma nsKey_inj p n p' n' :
  is_u64 p -> is_u64 p' -> nsKey p n = nsKey p' n' -> p = p' /\ n = n'.
Proof.
  intros Hp Hp' E. unfold nsKey, nsPrefix in E. rewrite <- !app_assoc in E.
  apply app_inv_head in E.
  apply split_at_slash in E as [E ->]; [|apply FormatUint_digits..].
  split; [by apply FormatUint_inj|done].
Qed.

Lemma inodeKey_inj i j : is_u64 i -> is_u64 j -> inodeKey i = inodeKey j -> i = j.
Proof. intros Hi Hj E. apply app_inv_head in E. by apply FormatUint_inj. Qed.

(** Two prefixes that differ at some position make all keys differ. *)
Fixpoint apart (p q : list Z) : bool :=
  match p, q with
  | x :: p, y :: q => negb (x =? y) || apart p q
  | _, _ => false
  end.

Lemma apart_app p q s t : apart p q = true -> p ++ s <> q ++ t.
Proof.
  revert q. induction p as [|x p IH]; intros [|y q] H E; try done.
  cbn in H, E. injection E as -> E. rewrite Z.eqb_refl in H. by apply (IH q).
Qed.

Lemma nsKey_inodeKey p n i : nsKey p n <> inodeKey i.
Proof. unfold nsKey, nsPrefix, inodeKey. rewrite <- app_assoc. by apply apart_app. Qed.

Lemma bucketStatsKey_inodeKey r i : bucketStatsKey r <> inodeKey i.
Proof. by apply apart_app. Qed.

Lemma bucketStatsKey_nsKey r p n : bucketStatsKey r <> nsKey p n.
Proof. unfold nsKey, nsPrefix, bucketStatsKey. rewrite <- app_assoc. by apply apart_app. Qed.

Lemma freeListKey_inodeKey r i : freeListKey r <> inodeKey i.
Proof. by apply apart_app. Qed.

Lemma freeListKey_nsKey r p n : freeListKey r <> nsKey p n.
Proof. unfold nsKey, nsPrefix, freeListKey. rewrite <- app_assoc. by apply apart_app. Qed.

Lemma chunk_prefixes_inode i :
  HasPrefix (inodeKey i) prefixChunk = false /\ inodeKey i <> keyInodeReferenceEpoch.
Proof. split; [reflexivity|done]. Qed.

Lemma ns_not_inode p n : isInodeMetadataKey (nsKey p n) = false.
Proof. reflexivity. Qed.

Lemma isInodeMetadataKey_inodeKey i : is_u64 i -> isInodeMetadataKey (inodeKey i) = true.
Proof.
  intros Hi. unfold isInodeMetadataKey, validInodeMetadataKey.
  assert (TrimPrefix (inodeKey i) prefixInode = FormatUint i) as -> by apply TrimPrefix_app.
  assert (HasPrefix (inodeKey i) prefixInode = true) as -> by apply HasPrefix_app.
  rewrite (ParseUint_FormatUint i Hi), bool_decide_eq_true_2 by done.
  pose proof (FormatUint_nonempty i). by destruct (FormatUint i).
Qed.

Lemma parseInodeKeyID_inodeKey i : is_u64 i -> i <> 0 -> parseInodeKeyID (inodeKey i) = Some i.
Proof.
  intros Hi Hn. unfold parseInodeKeyID. unfold inodeKey at 1.
  rewrite TrimPrefix_app, ParseUint_FormatUint by done.
  rewrite bool_decide_eq_true_2 by done. by destruct (Z.eqb_spec i 0).
Qed.
