(* ===== verification/MetaScan.v ===== *)
(** * Prefix scans and pagination

    Models the iterators of [nufs-core/metadata/pebble_store.go]:
    [prefixUpperBound], [scanPrefix], [scanPrefixWithLimit] and the cursor
    pagination of [scanPrefixPaged], whose clients call it until [HasMore] is
    false. A Pebble iterator with bounds [[lower, upper)] yields the rows of
    that range in key order ([kv_range]). *)

From stdpp Require Import base list sorting numbers strings gmap.
From Stdlib Require Import ZArith Lia.
From S2P Require Import Prelude Bytes Pebble MetaKeys.

Local Open Scope Z_scope.

(** ** Bounds *)

Fixpoint bump (rev_prefix : list Z) : option (list Z) :=
  match rev_prefix with
  | [] => None
  | x :: r => if x <? 255 then Some (rev ((x + 1) :: r)) else bump r
  end.

(** [prefixUpperBound]; [nil] means no bound. *)
Definition prefixUpperBound (prefix : list Z) : option (list Z) := bump (rev prefix).

Definition below (k : list Z) (upper : option (list Z)) : bool :=
  match upper with None => true | Some u => bytes_ltb k u end.

Definition in_range (lower : list Z) (upper : option (list Z)) (k : list Z) : bool :=
  negb (bytes_ltb k lower) && below k upper.

Lemma bytes_ltb_prefix p k : bytes_ltb (p ++ k) p = false.
Proof. induction p as [|x p IH]; cbn; [by destruct k|]. by rewrite Z.ltb_irrefl, Z.eqb_refl, IH. Qed.

Lemma bump_255 r : Forall (fun x => x = 255) r -> forall s, bump (r ++ s) = bump s.
Proof. induction 1 as [|x r -> _ IH]; intros s; [done|apply IH]. Qed.

(** Split a prefix into the part up to its last byte below 255 and the rest. *)
Lemma bump_split p :
  bytes_wf p ->
  (Forall (fun x => x = 255) p /\ prefixUpperBound p = None) \/
  exists q x r, p = q ++ x :: r /\ 0 <= x < 255 /\ Forall (fun x => x = 255) r /\
    prefixUpperBound p = Some (q ++ [x + 1]).
Proof.
  intros Hp. unfold prefixUpperBound. induction p as [|x p IH] using rev_ind.
  { left. by split. }
  apply bytes_wf_app in Hp as [Hp Hx]. assert (0 <= x < 256) by (by apply Forall_inv in Hx).
  rewrite rev_app_distr. cbn [rev app bump].
  destruct (Z.ltb_spec x 255) as [Hlt|Hge].
  - right. exists p, x, []. split; [done|]. split; [lia|]. split; [constructor|].
    cbn [rev]. by rewrite rev_involutive.
  - assert (x = 255) as -> by lia. destruct (IH Hp) as [[Ha E]|(q & y & r & -> & Hy & Hr & E)].
    + left. split; [|done]. apply Forall_app. split; [done|by constructor].
    + right. exists q, y, (r ++ [255]). rewrite <- app_assoc. split; [done|]. split; [done|].
      split; [|done]. apply Forall_app. split; [done|by constructor].
Qed.

(** A byte string at or above a run of 255s starts with it. *)
Lemma above_255 r k :
  Forall (fun x => x = 255) r -> bytes_wf k -> bytes_ltb k r = false -> HasPrefix k r = true.
Proof.
  intros Hr. revert k. induction Hr as [|x r -> Hr IH]; intros k Hk Hlt; [done|].
  destruct Hk as [|y k Hy Hk]; [done|]. cbn [bytes_ltb HasPrefix] in *. change (0 <= y < 256) in Hy.
  apply orb_false_iff in Hlt as [H1 H2]. apply Z.ltb_ge in H1. assert (y = 255) as -> by lia.
  rewrite Z.eqb_refl in *. cbn [andb] in *. auto.
Qed.

Lemma bytes_ltb_app_same q a b : bytes_ltb (q ++ a) (q ++ b) = bytes_ltb a b.
Proof. induction q as [|x q IH]; cbn; [done|]. by rewrite Z.ltb_irrefl, Z.eqb_refl, IH. Qed.

Lemma HasPrefix_app_same q a b : HasPrefix (q ++ a) (q ++ b) = HasPrefix a b.
Proof. induction q as [|x q IH]; cbn; [done|]. by rewrite Z.eqb_refl, IH. Qed.

(** Between [q ++ r] and [q ++ r'] every string starts with [q], when the two
    differ in the first byte only by one. *)
Lemma between_common q a b k :
  bytes_ltb k (q ++ a) = false -> bytes_ltb k (q ++ b) = true ->
  exists s, k = q ++ s /\ bytes_ltb s a = false /\ bytes_ltb s b = true.
Proof.
  revert k. induction q as [|x q IH]; intros k H1 H2; [by exists k|].
  destruct k as [|y k]; [done|]. cbn [app bytes_ltb] in H1, H2.
  apply orb_false_iff in H1 as [Hyx H1]. apply Z.ltb_ge in Hyx.
  apply orb_true_iff in H2 as [H2|H2]; [apply Z.ltb_lt in H2; lia|].
  apply andb_true_iff in H2 as [E H2]. apply Z.eqb_eq in E as ->. rewrite Z.eqb_refl in H1.
  destruct (IH k H1 H2) as (s & -> & Hs). by exists s.
Qed.

(** The range of a prefix scan is exactly the keys with that prefix. *)
Lemma in_range_prefix p k :
  bytes_wf p -> bytes_wf k -> in_range p (prefixUpperBound p) k = HasPrefix k p.
Proof.
  intros Hp Hk. apply eq_true_iff_eq. unfold in_range. rewrite andb_true_iff, negb_true_iff.
  destruct (bump_split p Hp) as [[Ha E]|(q & x & r & -> & Hx & Hr & E)]; rewrite E; cbn [below].
  - split; [intros [H _]; by apply above_255|]. intros H. split; [|done].
    apply HasPrefix_spec in H as [s ->]. apply bytes_ltb_prefix.
  - split.
    + intros [H1 H2]. destruct (between_common q (x :: r) [x + 1] k H1 H2) as (s & -> & G1 & G2).
      rewrite HasPrefix_app_same. destruct s as [|y s]; [done|].
      apply bytes_wf_app in Hk as [_ Hk]. apply Forall_cons in Hk as [_ Hk].
      cbn [bytes_ltb HasPrefix] in *. destruct s; cbn in G2; rewrite ?andb_false_r in G2;
        apply orb_false_iff in G1 as [G1 G3]; apply Z.ltb_ge in G1;
        rewrite orb_false_r in G2; apply Z.ltb_lt in G2; assert (y = x) as -> by lia;
        rewrite Z.eqb_refl in *; cbn [andb] in *; by apply above_255.
    + intros H. apply HasPrefix_spec in H as [s ->]. split; [apply bytes_ltb_prefix|].
      rewrite <- app_assoc, bytes_ltb_app_same. cbn. by rewrite (proj2 (Z.ltb_lt x (x + 1))) by lia.
Qed.

(** ** Iterators *)

Section Scan.
Context {DB : Type} `{PebbleKV DB}.

Definition row : Type := list Z * list Z.

(** The rows an iterator with these bounds yields. *)
Definition kv_range (db : DB) (lower : list Z) (upper : option (list Z)) : list row :=
  List.filter (fun kv => in_range lower upper kv.1) (kv_scan db).

(** [scanPrefix]; the callback threads a state and stops the scan with [None]. *)
Fixpoint scan_fold {S} (fn : S -> list Z -> list Z -> option S) (st : S) (rows : list row) : S :=
  match rows with
  | [] => st
  | (k, v) :: rows => match fn st k v with Some st => scan_fold fn st rows | None => st end
  end.

Definition scanPrefix {S} (db : DB) (prefix : list Z) (fn : S -> list Z -> list Z -> option S)
    (st : S) : S :=
  scan_fold fn st (kv_range db prefix (prefixUpperBound prefix)).

(** [scanPrefixWithLimit]: keys and values of at most [limit] rows. *)
Definition scanPrefixWithLimit (db : DB) (prefix : list Z) (limit : Z) : list row :=
  take (Z.to_nat limit) (kv_range db prefix (prefixUpperBound prefix)).

Record ScanPageResult := mkScanPageResult {
  sp_Rows : list row; sp_NextKey : list Z; sp_HasMore : bool
}.

(** [SeekGE(cursor)], then [Next] when it lands on the cursor itself. *)
Definition skip_past (cursor : list Z) (rows : list row) : list row :=
  match rows with
  | (k, _) :: rest => if bool_decide (k = cursor) then rest else rows
  | [] => []
  end.

(** [scanPrefixPaged] *)
Definition scanPrefixPaged (db : DB) (prefix cursor : list Z) (pageSize : Z) : ScanPageResult :=
  let pageSize := if pageSize <=? 0 then 1000 else pageSize in
  let upper := prefixUpperBound prefix in
  let rows :=
    match cursor with
    | [] => kv_range db prefix upper
    | _ => skip_past cursor (kv_range db cursor upper)
    end in
  let fetched := take (Z.to_nat (pageSize + 1)) rows in
  if pageSize <? Z.of_nat (length fetched) then
    let page := take (Z.to_nat pageSize) fetched in
    mkScanPageResult page (default [] (fst <$> last page)) true
  else mkScanPageResult fetched [] false.

(** The client loop of the doc comment of [scanPrefixPaged]. *)
Fixpoint all_pages (fuel : nat) (db : DB) (prefix cursor : list Z) (pageSize : Z) : list row :=
  match fuel with
  | O => []
  | S fuel =>
      let page := scanPrefixPaged db prefix cursor pageSize in
      if sp_HasMore page
      then sp_Rows page ++ all_pages fuel db prefix (sp_NextKey page) pageSize
      else sp_Rows page
  end.

End Scan.

Section ScanProofs.
Context {DB : Type} `{KL : PebbleLaws DB}.

Lemma kv_range_sorted (db : DB) lower upper :
  StronglySorted (fun p q => bytes_lt p.1 q.1) (kv_range db lower upper).
Proof.
  unfold kv_range. pose proof (kv_scan_sorted db) as S.
  induction S as [|p l S IH F]; cbn [List.filter]; [constructor|].
  destruct (in_range lower upper p.1); [|done]. constructor; [done|].
  rewrite Forall_forall in *. intros q Hq. apply F. apply list_elem_of_In in Hq.
  apply filter_In in Hq as [Hq _]. by apply list_elem_of_In.
Qed.

Lemma elem_of_kv_range (db : DB) lower upper k v :
  (k, v) ∈ kv_range db lower upper <-> kv_get db k = Some v /\ in_range lower upper k = true.
Proof.
  unfold kv_range. rewrite list_elem_of_In, filter_In, <- list_elem_of_In. cbn.
  by rewrite kv_scan_spec.
Qed.

(** Rows a prefix scan of a store with byte keys yields. *)
Lemma elem_of_scan_prefix (db : DB) p k v :
  bytes_wf p -> bytes_wf k ->
  (k, v) ∈ kv_range db p (prefixUpperBound p) <-> kv_get db k = Some v /\ HasPrefix k p = true.
Proof. intros Hp Hk. by rewrite elem_of_kv_range, in_range_prefix. Qed.

Lemma bytes_ltb_asym a b : bytes_ltb a b = true -> bytes_ltb b a = false.
Proof.
  intros E. destruct (bytes_ltb b a) eqn:E'; [|done]. pose proof (bytes_ltb_trans a b a E E') as T.
  unfold bytes_lt in T. by rewrite bytes_ltb_irrefl in T.
Qed.

(** Raising the lower bound of a range. *)
Lemma kv_range_narrow (db : DB) lower upper cursor :
  bytes_le lower cursor ->
  List.filter (fun kv : row => negb (bytes_ltb kv.1 cursor)) (kv_range db lower upper) =
  kv_range db cursor upper.
Proof.
  intros Hl. unfold bytes_le in Hl. unfold kv_range.
  induction (kv_scan db) as [|p l IH]; [done|]. cbn [List.filter].
  destruct (in_range lower upper p.1) eqn:E1; cbn [List.filter]; rewrite IH; unfold in_range in *.
  - apply andb_true_iff in E1 as [_ ->]. by rewrite andb_true_r.
  - destruct (bytes_ltb p.1 cursor) eqn:E2; cbn [negb andb]; [done|].
    apply andb_false_iff in E1 as [E1| ->]; [|done]. apply negb_false_iff in E1.
    exfalso. destruct (bytes_ltb_total cursor p.1) as [G|[G|G]]; unfold bytes_lt in G; try congruence.
    pose proof (bytes_ltb_trans cursor p.1 lower G E1) as T. unfold bytes_lt in T. congruence.
Qed.

(** Restarting a range at one of its own rows gives the rest of the range. *)
Lemma kv_range_restart (db : DB) lower upper (l1 : list row) (x : row) (l2 : list row) :
  kv_range db lower upper = l1 ++ x :: l2 -> kv_range db x.1 upper = x :: l2.
Proof.
  intros E.
  assert (bytes_le lower x.1) as Hx.
  { destruct x as [k v]. assert ((k, v) ∈ kv_range db lower upper) as Hin by (rewrite E; set_solver).
    apply elem_of_kv_range in Hin as [_ Hin]. apply andb_true_iff in Hin as [Hl _].
    by apply negb_true_iff. }
  rewrite <- (kv_range_narrow db lower upper x.1 Hx).
  pose proof (kv_range_sorted db lower upper) as S. rewrite E in S |- *.
  rewrite List.filter_app. clear E.
  assert (List.filter (fun kv : row => negb (bytes_ltb kv.1 x.1)) l1 = []) as ->.
  { induction l1 as [|p l1 IH]; [done|]. cbn [app] in S. inversion S as [|? ? S' F]; subst.
    cbn [List.filter]. rewrite Forall_forall in F.
    assert (bytes_ltb p.1 x.1 = true) as -> by (apply F; set_solver). by apply IH. }
  cbn [app List.filter]. rewrite bytes_ltb_irrefl. cbn [negb]. f_equal.
  assert (StronglySorted (fun p q : row => bytes_lt p.1 q.1) (x :: l2)) as S2.
  { induction l1; [done|]. cbn in S. inversion S; subst. auto. }
  inversion S2 as [|? ? _ F]; subst. clear -F. induction F as [|p l2 Hp F IH]; [done|].
  cbn [List.filter]. destruct (bytes_ltb p.1 x.1) eqn:E; [|by cbn; rewrite IH].
  exfalso. unfold bytes_lt in Hp. pose proof (bytes_ltb_trans x.1 p.1 x.1 Hp E) as T.
  unfold bytes_lt in T. by rewrite bytes_ltb_irrefl in T.
Qed.

Lemma kv_range_key_nonempty (db : DB) lower upper k v :
  lower <> [] -> (k, v) ∈ kv_range db lower upper -> k <> [].
Proof.
  intros Hl Hin ->. apply elem_of_kv_range in Hin as [_ Hin]. by destruct lower.
Qed.

(** The rows the page at [cursor] starts from, when [cursor] is the key of the
    last row already returned. *)
Lemma page_start (db : DB) prefix l1 (x : row) l2 :
  kv_range db prefix (prefixUpperBound prefix) = l1 ++ x :: l2 ->
  skip_past x.1 (kv_range db x.1 (prefixUpperBound prefix)) = l2.
Proof.
  intros E. rewrite (kv_range_restart db prefix _ l1 x l2 E). destruct x as [k v]. cbn.
  by rewrite bool_decide_eq_true_2.
Qed.

Definition page_rows (db : DB) (prefix cursor : list Z) : list row :=
  match cursor with
  | [] => kv_range db prefix (prefixUpperBound prefix)
  | _ => skip_past cursor (kv_range db cursor (prefixUpperBound prefix))
  end.

(** One page returns the next [pageSize] rows and says whether more follow. *)
Lemma scanPrefixPaged_spec (db : DB) prefix cursor pageSize :
  0 < pageSize ->
  let rows := page_rows db prefix cursor in
  let page := scanPrefixPaged db prefix cursor pageSize in
  sp_Rows page = take (Z.to_nat pageSize) rows /\
  sp_HasMore page = (pageSize <? Z.of_nat (length rows)) /\
  (sp_HasMore page = true ->
   exists x, last (take (Z.to_nat pageSize) rows) = Some x /\ sp_NextKey page = x.1).
Proof.
  intros Hp rows page. unfold page, scanPrefixPaged. destruct (Z.leb_spec pageSize 0); [lia|].
  fold (page_rows db prefix cursor). fold rows. cbv zeta. rewrite length_take.
  destruct (Z.ltb_spec pageSize (Z.of_nat (Nat.min (Z.to_nat (pageSize + 1)) (length rows)))) as [Hl|Hl].
  - cbn [sp_Rows sp_HasMore sp_NextKey]. rewrite take_take, Nat.min_l by lia.
    destruct (Z.ltb_spec pageSize (Z.of_nat (length rows))); [|lia]. split; [done|]. split; [done|].
    intros _. destruct (last (take (Z.to_nat pageSize) rows)) as [x|] eqn:E; [by exists x|].
    apply last_None in E. apply (f_equal length) in E. rewrite length_take in E. cbn in E. lia.
  - cbn [sp_Rows sp_HasMore]. destruct (Z.ltb_spec pageSize (Z.of_nat (length rows))); [lia|].
    rewrite !take_ge by lia. done.
Qed.

(** Following the cursor to the end visits every row of the prefix once, in
    order; a step per row, plus one, is enough. *)
Lemma all_pages_rest fuel (db : DB) prefix cursor pageSize l1 l2 :
  0 < pageSize -> prefix <> [] ->
  kv_range db prefix (prefixUpperBound prefix) = l1 ++ l2 ->
  page_rows db prefix cursor = l2 -> (length l2 < fuel)%nat ->
  all_pages fuel db prefix cursor pageSize = l2.
Proof.
  intros Hp Hpre. revert cursor l1 l2. induction fuel as [|fuel IH]; intros cursor l1 l2 E Hc Hf; [lia|].
  cbn [all_pages]. destruct (scanPrefixPaged_spec db prefix cursor pageSize Hp) as (R & M & N).
  rewrite Hc in R, M, N. rewrite R. destruct (sp_HasMore (scanPrefixPaged db prefix cursor pageSize)).
  - destruct (N eq_refl) as (x & L & ->). symmetry in M. apply Z.ltb_lt in M.
    apply last_Some in L as [l L].
    rewrite <- (take_drop (Z.to_nat pageSize) l2) at 2. f_equal.
    assert (kv_range db prefix (prefixUpperBound prefix) =
            ((l1 ++ l) ++ [x]) ++ drop (Z.to_nat pageSize) l2) as E2.
    { rewrite E, <- (take_drop (Z.to_nat pageSize) l2) at 1. rewrite L, <- !app_assoc. done. }
    apply (IH _ ((l1 ++ l) ++ [x])); [done| |rewrite length_drop; lia].
    rewrite <- app_assoc in E2. cbn [app] in E2. unfold page_rows.
    pose proof (page_start db prefix _ x _ E2) as P. destruct x as [k v]. cbn [fst] in *.
    destruct k; [|done]. exfalso. eapply (kv_range_key_nonempty db prefix _ [] v); [done| |done].
    rewrite E2. set_solver.
  - symmetry in M. apply Z.ltb_ge in M. apply take_ge. lia.
Qed.

Lemma all_pages_complete (db : DB) prefix pageSize :
  0 < pageSize -> prefix <> [] ->
  let rows := kv_range db prefix (prefixUpperBound prefix) in
  all_pages (S (length rows)) db prefix [] pageSize = rows.
Proof. intros Hp Hpre rows. apply (all_pages_rest _ db prefix [] pageSize []); try done. lia. Qed.
End ScanProofs.
