(* ===== verification/MetaTypes.v ===== *)
(** * Types, errors and value codecs of the metadata service

    Models [nufs-core/metadata/types.go] (the inode, directory-entry and
    chunk-reference rows), [errors.go] and [codec.go]. Rows are stored as
    MessagePack, or as JSON when an older release wrote them; both libraries
    are parameters: class [Codec] gives what the code calls, class
    [CodecLaws] what it relies on. *)

From stdpp Require Import base list numbers strings gmap.
From Stdlib Require Import ZArith Lia.
From S2P Require Import Prelude Bytes.

Local Open Scope Z_scope.
Local Open Scope go_scope.

(** ** Errors ([errors.go]) *)

Inductive merr : Type :=
| ErrBucketExists
| ErrBucketNotFound
| ErrBucketNotEmpty
| ErrEntryExists
| ErrEntryNotFound
| ErrInodeNotFound
| ErrDirNotEmpty
| ErrNotDirectory
| ErrNotFile
| ErrNotSymlink
| ErrNameTooLong
| ErrCrossBucketRename
| ErrXAttrNotFound
| ErrInodeModelMismatch
| ErrServiceClosed
| ErrInvalidArgument
| ErrVersionConflict
| ErrRaftConditionalConflict
| ErrExtentNotFound
| ErrChunkNotFound
| ErrChunkNotSealed
| ErrChunkAlreadySealed
| ErrBackupMetadataConflict
| ErrChunkPurgeIneligible  (* errChunkPurgeIneligible *)
| MErrNotFound          (* pebble.ErrNotFound *)
| MUnexpectedEOF        (* io.ErrUnexpectedEOF, io.EOF *)
| MErrorf (msg : string).

#[export] Instance merr_eq_dec : EqDecision merr.
Proof. solve_decision. Defined.

Abbreviation mgo := (result merr).

(** ** Rows ([types.go]) *)

Definition FileRegular : Z := 0.
Definition FileDirectory : Z := 1.
Definition FileSymlink : Z := 2.
Definition FileFIFO : Z := 3.
Definition FileCharDevice : Z := 4.
Definition FileBlockDevice : Z := 5.
Definition FileSocket : Z := 6.

Definition LayoutEmpty : Z := 0.
Definition LayoutInlineExtent : Z := 1.
Definition LayoutExtentPages : Z := 2.

Definition RootInodeID : Z := 1.
Definition MaxNameLength : Z := 255.

Record ChunkRef := mkChunkRef { cr_ID : Z; cr_Offset : Z; cr_Length : Z; cr_Version : Z }.

#[export] Instance ChunkRef_eq_dec : EqDecision ChunkRef.
Proof. solve_decision. Defined.

(** A nil slice or map is the empty one. *)
Record InodeMeta := mkInodeMeta {
  im_ID : Z; im_Type : Z; im_Size : Z; im_NLink : Z; im_BucketRoot : Z;
  im_UID : Z; im_GID : Z; im_Mode : Z; im_CTime : Z; im_MTime : Z; im_ATime : Z;
  im_Rdev : Z; im_ChunkMap : list ChunkRef; im_Symlink : list Z;
  im_XAttrs : gmap (list Z) (list Z)
}.

#[export] Instance InodeMeta_eq_dec : EqDecision InodeMeta.
Proof. solve_decision. Defined.

Record ExtentMetaV2 := mkExtentMetaV2 {
  ex_ID : Z; ex_Generation : Z; ex_LogicalLen : Z; ex_Checksum : Z; ex_PGID : Z;
  ex_PlacementEpoch : Z; ex_Lifecycle : Z; ex_StorageClass : Z; ex_ECStripeID : list Z;
  ex_CreatedAt : Z
}.

#[export] Instance ExtentMetaV2_eq_dec : EqDecision ExtentMetaV2.
Proof. solve_decision. Defined.

Record InodeMetaV2 := mkInodeMetaV2 {
  i2_ID : Z; i2_Type : Z; i2_Size : Z; i2_NLink : Z; i2_BucketRoot : Z;
  i2_UID : Z; i2_GID : Z; i2_Mode : Z; i2_CTime : Z; i2_MTime : Z; i2_ATime : Z;
  i2_Layout : Z; i2_InlineExtent : option ExtentMetaV2; i2_ExtentRoot : Z;
  i2_ExtentPageCount : Z; i2_ExtentRootVersion : Z; i2_Symlink : list Z;
  i2_XAttrs : gmap (list Z) (list Z)
}.

#[export] Instance InodeMetaV2_eq_dec : EqDecision InodeMetaV2.
Proof. solve_decision. Defined.

Record DirEntry := mkDirEntry { de_InodeID : Z; de_Type : Z; de_Name : list Z }.

#[export] Instance DirEntry_eq_dec : EqDecision DirEntry.
Proof. solve_decision. Defined.

Record BucketUsage := mkBucketUsage { bu_Name : list Z; bu_UsedBytes : Z; bu_Objects : Z }.

#[export] Instance BucketUsage_eq_dec : EqDecision BucketUsage.
Proof. solve_decision. Defined.

(** ** Value codecs ([codec.go]) *)

(** [msgpack.Marshal], [msgpack.Unmarshal] and [json.Unmarshal] at a type.
    Encoding the plain structs of this package does not fail. *)
Class Codec (A : Type) := {
  msgpack_Marshal : A -> list Z;
  msgpack_Unmarshal : list Z -> option A;
  json_Unmarshal : list Z -> option A
}.

Arguments msgpack_Marshal {A _} a.

Definition json_start (b : Z) : bool := (b =? 123) || (b =? 91).

(** [marshalValue]; both format branches call [msgpack.Marshal]. *)
Definition marshalValue {A} `{Codec A} (v : A) : list Z := msgpack_Marshal v.

(** [unmarshalValue] *)
Definition unmarshalValue {A} `{Codec A} (data : list Z) : mgo A :=
  match data with
  | [] => Err (MErrorf "pebble store: unmarshal: empty data")
  | b :: _ =>
      if json_start b then
        match json_Unmarshal data with
        | Some v => Ok v
        | None => Err (MErrorf "json unmarshal")
        end
      else
        match msgpack_Unmarshal data with
        | Some v => Ok v
        | None =>
            match json_Unmarshal data with
            | Some v => Ok v
            | None => Err (MErrorf "msgpack unmarshal")
            end
        end
  end.

(** What a MessagePack document of a struct, map, string or uint64 is: never
    empty, and its first byte is none of JSON's. *)
Definition msgpack_document (data : list Z) : Prop :=
  exists b rest, data = b :: rest /\ json_start b = false.

Class CodecLaws (A : Type) `{Codec A} : Prop := {
  marshal_document (v : A) : msgpack_document (marshalValue v);
  marshal_wf (v : A) : bytes_wf (marshalValue v);
  unmarshal_marshal (v : A) : msgpack_Unmarshal (marshalValue v) = Some v
}.

Lemma unmarshal_document {A} `{Codec A} data v :
  msgpack_document data -> msgpack_Unmarshal data = Some v -> unmarshalValue data = Ok v.
Proof. intros (b & rest & -> & E) H1. unfold unmarshalValue. by rewrite E, H1. Qed.

Lemma unmarshalValue_marshalValue {A} `{CodecLaws A} (v : A) :
  unmarshalValue (marshalValue v) = Ok v.
Proof. apply unmarshal_document; [apply marshal_document|apply unmarshal_marshal]. Qed.

Lemma marshalValue_inj {A} `{CodecLaws A} (v w : A) : marshalValue v = marshalValue w -> v = w.
Proof.
  intros E. apply (f_equal unmarshalValue) in E. rewrite !unmarshalValue_marshalValue in E. congruence.
Qed.

(** ** Two models in one row

    V1 and V2 inodes share the key [/inode/<id>]. MessagePack names the
    fields and skips those the target lacks, so a row decodes as either
    model, the fields it does not carry being zero. *)

Definition v2_of_v1 (m : InodeMeta) : InodeMetaV2 :=
  mkInodeMetaV2 (im_ID m) (im_Type m) (im_Size m) (im_NLink m) (im_BucketRoot m) (im_UID m)
    (im_GID m) (im_Mode m) (im_CTime m) (im_MTime m) (im_ATime m) LayoutEmpty None 0 0 0
    (im_Symlink m) (im_XAttrs m).

Definition v1_of_v2 (m : InodeMetaV2) : InodeMeta :=
  mkInodeMeta (i2_ID m) (i2_Type m) (i2_Size m) (i2_NLink m) (i2_BucketRoot m) (i2_UID m)
    (i2_GID m) (i2_Mode m) (i2_CTime m) (i2_MTime m) (i2_ATime m) 0 [] (i2_Symlink m) (i2_XAttrs m).

Class InodeAlias `{Codec InodeMeta, Codec InodeMetaV2} : Prop := {
  v1_as_v2 (m : InodeMeta) : msgpack_Unmarshal (marshalValue m) = Some (v2_of_v1 m);
  v2_as_v1 (m : InodeMetaV2) : msgpack_Unmarshal (marshalValue m) = Some (v1_of_v2 m)
}.

(** [InodeWithVersion] of [production.go] *)
Record InodeWithVersion := mkInodeWithVersion { iv_Inode : InodeMeta; iv_Version : Z }.
