(* ===== verification/RaftLog.v ===== *)
(** * Replicated log entries

    Models the log format of [nufs-core/metadata/pebble_raft.go]:
    [RaftLogEntry] with its encoder and decoder, and the canonical form and
    validation of conditional batches, the compare-and-mutate operation every
    namespace change uses.

    [bytes.Reader] is the list of bytes that remain. [sort.Slice] is not
    stable, but a batch with two equal keys is refused afterwards, so every
    sort of an accepted batch gives the same list; the model uses stdpp's
    merge sort. The row-level checks that batches of versions 2 to 4 undergo
    ([backup_catalog.go], [chunk_tombstone.go]) decode catalogue and chunk
    rows; they are the fields of [version_rules], and the theorems hold for
    every choice of them. [Backups.v] has the rules of the source. *)

From stdpp Require Import base list sorting numbers strings gmap.
From Stdlib Require Import ZArith Lia.
From S2P Require Import Prelude Bytes Pebble MetaKeys MetaTypes.

Local Open Scope Z_scope.
Local Open Scope go_scope.

(** ** Data *)

Definition OpSet : Z := 1.
Definition OpDelete : Z := 2.
Definition OpBatch : Z := 3.
Definition OpCAS : Z := 4.
Definition OpConditionalBatch : Z := 5.

Definition conditionalBatchVersion : Z := 1.
Definition conditionalBatchTermFencedVersion : Z := 2.
Definition chunkTombstoneConditionalBatchVersion : Z := 3.
Definition chunkTombstoneFencedBatchVersion : Z := 4.
Definition maxConditionalPreconditions : Z := 1024.
Definition maxConditionalMutations : Z := 4096.
Definition maxConditionalPrefixReplacements : Z := 64.
Definition maxConditionalReplacementSets : Z := 4096.
Definition maxConditionalKeyBytes : Z := 4096.
Definition maxConditionalValueBytes : Z := 4194304.
Definition maxRaftLogEntryBytes : Z := 8388608.
Definition MaxChunkAllocationBatch : Z := 1024.

(** Decide the tests [op =? OpX] on constants. *)
Ltac op_tests_in H :=
  repeat match type of H with
  | context [Z.eqb ?a ?b] =>
      let r := eval vm_compute in (Z.eqb a b) in
      match r with true => idtac | false => idtac end; change (Z.eqb a b) with r in H
  end; cbn [orb andb] in H; cbv iota in H.
Ltac op_tests :=
  repeat match goal with
  | |- context [Z.eqb ?a ?b] =>
      let r := eval vm_compute in (Z.eqb a b) in
      match r with true => idtac | false => idtac end; change (Z.eqb a b) with r
  end; cbn [orb andb]; cbv iota.

Record BatchOp := mkBatchOp { bo_Delete : bool; bo_Key : list Z; bo_Value : list Z }.

Record ConditionalPrecondition := mkPrecondition {
  cp_Key : list Z; cp_ExpectedValue : list Z; cp_ExpectAbsent : bool
}.

Record ConditionalPrefixReplacement := mkReplacement {
  pr_Prefix : list Z; pr_Sets : list BatchOp
}.

Record ConditionalBatch := mkConditionalBatch {
  cb_Version : Z; cb_ExpectedRaftTerm : Z;
  cb_Preconditions : list ConditionalPrecondition; cb_Mutations : list BatchOp;
  cb_PrefixReplacements : list ConditionalPrefixReplacement
}.

Record RaftLogEntry := mkRaftLogEntry {
  re_Op : Z; re_Key : list Z; re_Value : list Z; re_Batch : list BatchOp;
  re_Conditional : option ConditionalBatch
}.

Abbreviation len l := (Z.of_nat (length l)).

(** A reader: the value read and what remains. *)
Abbreviation reads A := (list Z -> mgo (A * list Z)).

(** ** Validation *)

(** [validateConditionalKey] *)
Definition validateConditionalKey (key : list Z) : mgo unit :=
  refuse len key =? 0 with MErrorf "key is empty" in
  refuse maxConditionalKeyBytes <? len key with MErrorf "key exceeds limit" in
  Ok tt.

(** [i > 0 && bytes.Equal(previous.Key, key)] *)
Definition repeats (previous : option (list Z)) (key : list Z) : bool := bool_decide (previous = Some key).

Fixpoint validate_preconditions (previous : option (list Z)) (ps : list ConditionalPrecondition) :
    mgo unit :=
  match ps with
  | [] => Ok tt
  | p :: ps =>
      let! _ := validateConditionalKey (cp_Key p) in
      refuse cp_ExpectAbsent p && negb (len (cp_ExpectedValue p) =? 0)
        with MErrorf "absence precondition carries an expected value" in
      refuse negb (cp_ExpectAbsent p) && (maxConditionalValueBytes <? len (cp_ExpectedValue p))
        with MErrorf "conditional expected value exceeds limit" in
      refuse repeats previous (cp_Key p) with MErrorf "duplicate conditional precondition" in
      validate_preconditions (Some (cp_Key p)) ps
  end.

Fixpoint validate_mutations (previous : option (list Z)) (ms : list BatchOp) : mgo unit :=
  match ms with
  | [] => Ok tt
  | m :: ms =>
      let! _ := validateConditionalKey (bo_Key m) in
      refuse bo_Delete m && negb (len (bo_Value m) =? 0) with MErrorf "delete mutation carries a value" in
      refuse negb (bo_Delete m) && (maxConditionalValueBytes <? len (bo_Value m))
        with MErrorf "conditional mutation value exceeds limit" in
      refuse repeats previous (bo_Key m) with MErrorf "duplicate conditional mutation" in
      validate_mutations (Some (bo_Key m)) ms
  end.

Fixpoint validate_sets (prefix : list Z) (previous : option (list Z)) (sets : list BatchOp) : mgo unit :=
  match sets with
  | [] => Ok tt
  | m :: sets =>
      refuse bo_Delete m with MErrorf "prefix replacement contains delete set" in
      let! _ := validateConditionalKey (bo_Key m) in
      refuse negb (HasPrefix (bo_Key m) prefix) || (length (bo_Key m) =? length prefix)%nat
        with MErrorf "replacement key is not under prefix" in
      refuse maxConditionalValueBytes <? len (bo_Value m)
        with MErrorf "conditional replacement value exceeds limit" in
      refuse repeats previous (bo_Key m) with MErrorf "duplicate replacement key" in
      validate_sets prefix (Some (bo_Key m)) sets
  end.

(** [validateConditionalReplacementPrefix] *)
Definition validateConditionalReplacementPrefix (prefix : list Z) : mgo unit :=
  refuse negb (bool_decide (prefix = prefixBackupCatalog))
    with MErrorf "conditional prefix replacement is not an allowed durable namespace" in
  Ok tt.

Fixpoint validate_replacements (mutations : list BatchOp) (previous : option (list Z))
    (rs : list ConditionalPrefixReplacement) : mgo unit :=
  match rs with
  | [] => Ok tt
  | r :: rs =>
      let! _ := validateConditionalReplacementPrefix (pr_Prefix r) in
      refuse maxConditionalReplacementSets <? len (pr_Sets r)
        with MErrorf "conditional replacement set count exceeds limit" in
      refuse match previous with Some p => HasPrefix (pr_Prefix r) p | None => false end
        with MErrorf "overlapping conditional prefix replacements" in
      let! _ := validate_sets (pr_Prefix r) None (pr_Sets r) in
      refuse existsb (fun m => HasPrefix (bo_Key m) (pr_Prefix r)) mutations
        with MErrorf "mutation key conflicts with prefix replacement" in
      validate_replacements mutations (Some (pr_Prefix r)) rs
  end.

Definition zsum (l : list Z) : Z := foldr Z.add 0 l.

Definition precondition_size (p : ConditionalPrecondition) : Z :=
  1 + 4 + len (cp_Key p) + (if cp_ExpectAbsent p then 0 else 4 + len (cp_ExpectedValue p)).

Definition mutation_size (m : BatchOp) : Z :=
  1 + 4 + len (bo_Key m) + (if bo_Delete m then 0 else 4 + len (bo_Value m)).

Definition set_size (m : BatchOp) : Z := 4 + len (bo_Key m) + 4 + len (bo_Value m).

Definition replacement_size (r : ConditionalPrefixReplacement) : Z :=
  4 + len (pr_Prefix r) + 4 + zsum (map set_size (pr_Sets r)).

(** [conditionalBatchEncodedSize] *)
Definition conditionalBatchEncodedSize (b : ConditionalBatch) : Z :=
  2 + 3 * 4 + (if cb_Version b =? conditionalBatchTermFencedVersion then 8 else 0)
  + zsum (map precondition_size (cb_Preconditions b)) + zsum (map mutation_size (cb_Mutations b))
  + zsum (map replacement_size (cb_PrefixReplacements b)).

(** [hasInodeAllocationPrecondition] *)
Definition hasInodeAllocationPrecondition (ps : list ConditionalPrecondition) : bool :=
  existsb (fun p => validInodeMetadataKey (cp_Key p)) ps.

(** Row-level checks by kind of batch. *)
Record version_rules := mkVersionRules {
  rule_backup_task : ConditionalBatch -> mgo unit;
  rule_backup_catalog : ConditionalBatch -> mgo unit;
  rule_legacy_create : ConditionalBatch -> mgo unit;
  rule_legacy_purge : ConditionalBatch -> mgo unit;
  rule_allocation : ConditionalBatch -> mgo unit;
  rule_chunk_update : ConditionalBatch -> mgo unit;
  rule_fenced_create : ConditionalBatch -> mgo unit;
  rule_fenced_purge : ConditionalBatch -> mgo unit
}.

Section Rules.
Context (rules : version_rules).

(** [validateTermFencedBackupConditionalBatch] *)
Definition validateTermFencedBackupConditionalBatch (b : ConditionalBatch) : mgo unit :=
  match cb_PrefixReplacements b with
  | [] => rule_backup_task rules b
  | [_] => rule_backup_catalog rules b
  | _ => Err (MErrorf "term-fenced conditional batch has an unsupported shape")
  end.

(** [validateChunkTombstoneConditionalBatch] *)
Definition validateChunkTombstoneConditionalBatch (b : ConditionalBatch) : mgo unit :=
  refuse negb (cb_ExpectedRaftTerm b =? 0) || negb (len (cb_PrefixReplacements b) =? 0)
    with MErrorf "chunk tombstone conditional batch has an invalid envelope" in
  refuse negb (len (cb_Preconditions b) =? 2) || (len (cb_Mutations b) =? 0)
    with MErrorf "chunk tombstone conditional batch has an invalid shape" in
  if len (cb_Mutations b) =? 1 then rule_legacy_create rules b
  else if len (cb_Mutations b) =? 2 then rule_legacy_purge rules b
  else Err (MErrorf "chunk tombstone conditional batch has too many mutations").

(** [validateChunkTombstoneFencedBatch] *)
Definition validateChunkTombstoneFencedBatch (b : ConditionalBatch) : mgo unit :=
  refuse negb (cb_ExpectedRaftTerm b =? 0) || negb (len (cb_PrefixReplacements b) =? 0)
    with MErrorf "chunk tombstone conditional batch has an invalid envelope" in
  refuse len (cb_Mutations b) =? 0 with MErrorf "chunk tombstone conditional batch has an invalid shape" in
  if hasInodeAllocationPrecondition (cb_Preconditions b) then rule_allocation rules b
  else if len (cb_Mutations b) =? 1 then
    if len (cb_Preconditions b) =? 2 then rule_chunk_update rules b
    else if len (cb_Preconditions b) =? 3 then rule_fenced_create rules b
    else Err (MErrorf "chunk tombstone fenced create/update has an invalid precondition shape")
  else if len (cb_Mutations b) =? 2 then
    refuse negb (len (cb_Preconditions b) =? 4)
      with MErrorf "chunk tombstone purge has an invalid precondition shape" in
    rule_fenced_purge rules b
  else Err (MErrorf "chunk tombstone conditional batch has too many mutations").

Definition known_version (v : Z) : bool :=
  (v =? conditionalBatchVersion) || (v =? conditionalBatchTermFencedVersion)
  || (v =? chunkTombstoneConditionalBatchVersion) || (v =? chunkTombstoneFencedBatchVersion).

(** [validateConditionalBatch] *)
Definition validateConditionalBatch (b : ConditionalBatch) : mgo unit :=
  refuse negb (known_version (cb_Version b)) with MErrorf "unsupported conditional batch" in
  refuse (cb_Version b =? conditionalBatchVersion) && negb (cb_ExpectedRaftTerm b =? 0)
    with MErrorf "conditional batch v1 cannot carry an expected Raft term" in
  refuse (cb_Version b =? conditionalBatchTermFencedVersion) && (cb_ExpectedRaftTerm b =? 0)
    with MErrorf "term-fenced conditional batch requires an expected Raft term" in
  let! _ := validate_preconditions None (cb_Preconditions b) in
  let! _ := validate_mutations None (cb_Mutations b) in
  let! _ := validate_replacements (cb_Mutations b) None (cb_PrefixReplacements b) in
  refuse maxRaftLogEntryBytes <? conditionalBatchEncodedSize b
    with MErrorf "raft log entry exceeds limit" in
  if cb_Version b =? conditionalBatchTermFencedVersion
  then validateTermFencedBackupConditionalBatch b
  else if cb_Version b =? chunkTombstoneConditionalBatchVersion
  then validateChunkTombstoneConditionalBatch b
  else if cb_Version b =? chunkTombstoneFencedBatchVersion
  then validateChunkTombstoneFencedBatch b
  else Ok tt.

(** ** Canonical form *)

Definition pre_le (p q : ConditionalPrecondition) : Prop := bytes_le (cp_Key p) (cp_Key q).
Definition op_le (p q : BatchOp) : Prop := bytes_le (bo_Key p) (bo_Key q).
Definition rep_le (p q : ConditionalPrefixReplacement) : Prop := bytes_le (pr_Prefix p) (pr_Prefix q).

#[global] Instance pre_le_dec p q : Decision (pre_le p q).
Proof. unfold pre_le. apply _. Defined.
#[global] Instance op_le_dec p q : Decision (op_le p q).
Proof. unfold op_le. apply _. Defined.
#[global] Instance rep_le_dec p q : Decision (rep_le p q).
Proof. unfold rep_le. apply _. Defined.

(** The sorted copy [canonicalConditionalBatch] makes. *)
Definition sorted_batch (b : ConditionalBatch) : ConditionalBatch :=
  mkConditionalBatch (cb_Version b) (cb_ExpectedRaftTerm b)
    (merge_sort pre_le (cb_Preconditions b)) (merge_sort op_le (cb_Mutations b))
    (map (fun r => mkReplacement (pr_Prefix r) (merge_sort op_le (pr_Sets r)))
       (merge_sort rep_le (cb_PrefixReplacements b))).

(** The shape with the larger limits. *)
Definition allocation_batch (b : ConditionalBatch) : bool :=
  (cb_Version b =? chunkTombstoneFencedBatchVersion)
  && hasInodeAllocationPrecondition (cb_Preconditions b).

(** [canonicalConditionalBatch]; [nil] is [None]. *)
Definition canonicalConditionalBatch (input : option ConditionalBatch) : mgo ConditionalBatch :=
  match input with
  | None => Err (MErrorf "conditional batch is required")
  | Some b =>
      refuse negb (known_version (cb_Version b)) with MErrorf "unsupported conditional batch version" in
      let alloc := allocation_batch b in
      let preconditionLimit :=
        if alloc then 2 + 2 * MaxChunkAllocationBatch else maxConditionalPreconditions in
      let mutationLimit := if alloc then 2 + MaxChunkAllocationBatch else maxConditionalMutations in
      refuse preconditionLimit <? len (cb_Preconditions b)
        with MErrorf "conditional precondition count exceeds limit" in
      refuse mutationLimit <? len (cb_Mutations b)
        with MErrorf "conditional mutation count exceeds limit" in
      refuse maxConditionalPrefixReplacements <? len (cb_PrefixReplacements b)
        with MErrorf "conditional prefix replacement count exceeds limit" in
      let out := sorted_batch b in
      let! _ := validateConditionalBatch out in
      Ok out
  end.

(** ** Encoding *)

(** [writeBytes] *)
Definition writeBytes (data : list Z) : list Z := be_enc 4 (len data) ++ data.

(** [writeUint32] *)
Definition writeUint32 (x : Z) : list Z := be_enc 4 x.

(** [writeBatchOp], and the same loop body for [OpBatch] *)
Definition writeBatchOp (op : BatchOp) : list Z :=
  if bo_Delete op then 1 :: writeBytes (bo_Key op)
  else 0 :: writeBytes (bo_Key op) ++ writeBytes (bo_Value op).

Definition write_precondition (p : ConditionalPrecondition) : list Z :=
  if cp_ExpectAbsent p then 1 :: writeBytes (cp_Key p)
  else 0 :: writeBytes (cp_Key p) ++ writeBytes (cp_ExpectedValue p).

Definition write_set (op : BatchOp) : list Z := writeBytes (bo_Key op) ++ writeBytes (bo_Value op).

Definition write_replacement (r : ConditionalPrefixReplacement) : list Z :=
  writeBytes (pr_Prefix r) ++ writeUint32 (len (pr_Sets r)) ++ concat (map write_set (pr_Sets r)).

(** The [OpConditionalBatch] case, for a canonical batch. *)
Definition write_conditional (b : ConditionalBatch) : list Z :=
  [cb_Version b]
  ++ (if cb_Version b =? conditionalBatchTermFencedVersion then be_enc 8 (cb_ExpectedRaftTerm b) else [])
  ++ writeUint32 (len (cb_Preconditions b)) ++ concat (map write_precondition (cb_Preconditions b))
  ++ writeUint32 (len (cb_Mutations b)) ++ concat (map writeBatchOp (cb_Mutations b))
  ++ writeUint32 (len (cb_PrefixReplacements b)) ++ concat (map write_replacement (cb_PrefixReplacements b)).

(** [EncodeChecked] *)
Definition EncodeChecked (e : RaftLogEntry) : mgo (list Z) :=
  if re_Op e =? OpSet then Ok (re_Op e :: writeBytes (re_Key e) ++ writeBytes (re_Value e))
  else if re_Op e =? OpDelete then Ok (re_Op e :: writeBytes (re_Key e))
  else if re_Op e =? OpBatch
  then Ok (re_Op e :: writeUint32 (len (re_Batch e)) ++ concat (map writeBatchOp (re_Batch e)))
  else if re_Op e =? OpCAS then Ok (re_Op e :: writeBytes (re_Key e) ++ writeBytes (re_Value e))
  else if re_Op e =? OpConditionalBatch then
    let! c := canonicalConditionalBatch (re_Conditional e) in
    let data := re_Op e :: write_conditional c in
    refuse maxRaftLogEntryBytes <? len data with MErrorf "raft log entry exceeds limit" in
    Ok data
  else Err (MErrorf "unknown op type").

(** ** Decoding *)

Definition ReadByte : reads Z :=
  fun r => match r with [] => Err MUnexpectedEOF | b :: r => Ok (b, r) end.

(** [io.ReadFull] of [n] bytes *)
Definition ReadFull (n : nat) : reads (list Z) :=
  fun r => if (length r <? n)%nat then Err MUnexpectedEOF else Ok (take n r, drop n r).

Definition read_uint (n : nat) : reads Z :=
  fun r => let! (b, r) := ReadFull n r in Ok (be_dec b, r).

(** [readBytes] *)
Definition readBytes : reads (list Z) :=
  fun r => let! (n, r) := read_uint 4 r in ReadFull (Z.to_nat n) r.

(** [readBoundedBytes] *)
Definition readBoundedBytes (maximum : Z) : reads (list Z) :=
  fun r =>
    let! (length, r) := read_uint 4 r in
    refuse maximum <? length with MErrorf "encoded byte string length exceeds limit" in
    refuse len r <? length with MUnexpectedEOF in
    ReadFull (Z.to_nat length) r.

(** [readBoundedCount] *)
Definition readBoundedCount (maximum : Z) : reads Z :=
  fun r =>
    let! (count, r) := read_uint 4 r in
    refuse maximum <? count with MErrorf "count exceeds limit" in
    Ok (count, r).

Fixpoint read_many {A} (read : reads A) (n : nat) : reads (list A) :=
  fun r =>
    match n with
    | O => Ok ([], r)
    | S n =>
        let! (a, r) := read r in
        let! (l, r) := read_many read n r in
        Ok (a :: l, r)
    end.

Definition read_counted {A} (read : reads A) (maximum : Z) : reads (list A) :=
  fun r => let! (n, r) := readBoundedCount maximum r in read_many read (Z.to_nat n) r.

(** One operation of [OpBatch]. *)
Definition read_batch_item : reads BatchOp :=
  fun r =>
    let! (del, r) := ReadByte r in
    refuse 1 <? del with MErrorf "invalid batch operation kind" in
    let! (key, r) := readBytes r in
    if del =? 1 then Ok (mkBatchOp true key [], r)
    else let! (value, r) := readBytes r in Ok (mkBatchOp false key value, r).

(** [readBatchOp] *)
Definition readBatchOp : reads BatchOp :=
  fun r =>
    let! (kind, r) := ReadByte r in
    refuse 1 <? kind with MErrorf "invalid conditional mutation kind" in
    let! (key, r) := readBoundedBytes maxConditionalKeyBytes r in
    if kind =? 1 then Ok (mkBatchOp true key [], r)
    else let! (value, r) := readBoundedBytes maxConditionalValueBytes r in
         Ok (mkBatchOp false key value, r).

Definition read_precondition : reads ConditionalPrecondition :=
  fun r =>
    let! (kind, r) := ReadByte r in
    refuse 1 <? kind with MErrorf "invalid conditional precondition kind" in
    let! (key, r) := readBoundedBytes maxConditionalKeyBytes r in
    if kind =? 1 then Ok (mkPrecondition key [] true, r)
    else let! (value, r) := readBoundedBytes maxConditionalValueBytes r in
         Ok (mkPrecondition key value false, r).

Definition read_set : reads BatchOp :=
  fun r =>
    let! (key, r) := readBoundedBytes maxConditionalKeyBytes r in
    let! (value, r) := readBoundedBytes maxConditionalValueBytes r in
    Ok (mkBatchOp false key value, r).

Definition read_replacement : reads ConditionalPrefixReplacement :=
  fun r =>
    let! (prefix, r) := readBoundedBytes maxConditionalKeyBytes r in
    let! (sets, r) := read_counted read_set maxConditionalReplacementSets r in
    Ok (mkReplacement prefix sets, r).

(** [decodeConditionalBatch] *)
Definition decodeConditionalBatch : reads ConditionalBatch :=
  fun r =>
    let! (version, r) := ReadByte r in
    refuse negb (known_version version) with MErrorf "unsupported conditional batch version" in
    let! (term, r) :=
      (if version =? conditionalBatchTermFencedVersion then read_uint 8 r else Ok (0, r)) in
    let fenced := version =? chunkTombstoneFencedBatchVersion in
    let preconditionLimit :=
      if fenced then 2 + 2 * MaxChunkAllocationBatch else maxConditionalPreconditions in
    let mutationLimit := if fenced then 2 + MaxChunkAllocationBatch else maxConditionalMutations in
    let! (ps, r) := read_counted read_precondition preconditionLimit r in
    let! (ms, r) := read_counted readBatchOp mutationLimit r in
    let! (rs, r) := read_counted read_replacement maxConditionalPrefixReplacements r in
    let! b := canonicalConditionalBatch (Some (mkConditionalBatch version term ps ms rs)) in
    Ok (b, r).

(** [DecodeRaftLogEntry] *)
Definition DecodeRaftLogEntry (data : list Z) : mgo RaftLogEntry :=
  match data with
  | [] => Err (MErrorf "empty raft log entry")
  | op :: r =>
      refuse (op =? OpConditionalBatch) && (maxRaftLogEntryBytes <? len data)
        with MErrorf "raft log entry exceeds limit" in
      let! (e, r) :=
        (if (op =? OpSet) || (op =? OpCAS) then
           let! (key, r) := readBytes r in
           let! (value, r) := readBytes r in
           Ok (mkRaftLogEntry op key value [] None, r)
         else if op =? OpDelete then
           let! (key, r) := readBytes r in Ok (mkRaftLogEntry op key [] [] None, r)
         else if op =? OpBatch then
           let! (count, r) := read_uint 4 r in
           refuse len r / 5 <? count with MErrorf "batch operation count exceeds encoded payload" in
           let! (batch, r) := read_many read_batch_item (Z.to_nat count) r in
           Ok (mkRaftLogEntry op [] [] batch None, r)
         else if op =? OpConditionalBatch then
           let! (c, r) := decodeConditionalBatch r in
           Ok (mkRaftLogEntry op [] [] [] (Some c), r)
         else Err (MErrorf "unknown op type")) in
      refuse negb (len r =? 0) with MErrorf "raft log entry has trailing bytes" in
      Ok e
  end.
End Rules.
