(* ===== verification/MetaFSM.v ===== *)
(** * The replicated state machine

    Models how committed log entries reach the rows, [pebble_raft.go] and
    [pebble_store.go] of [nufs-core/metadata]: the reference-aware batch, the
    conditional batch and the compare-and-swap, and [PebbleFSM.Apply] around
    them. A Pebble batch commits entirely or, with an I/O error, not at all
    ([fail]). *)

From stdpp Require Import base list sorting numbers strings gmap.
From Stdlib Require Import ZArith Lia.
From S2P Require Import Prelude Bytes Pebble MetaKeys MetaScan MetaTypes RaftLog.

Local Open Scope Z_scope.
Local Open Scope go_scope.

Section FSM.
Context {DB : Type} `{KV : PebbleKV DB}.
Context `{CI : Codec InodeMeta} `{CV : Codec InodeWithVersion} (rules : version_rules).

(** ** Batches *)

Definition apply_op (db : DB) (op : BatchOp) : DB :=
  if bo_Delete op then kv_delete db (bo_Key op) else kv_set db (bo_Key op) (bo_Value op).

(** [batch.Commit] *)
Definition commit_batch (fail : option merr) (db : DB) (ops : list BatchOp) : mgo DB :=
  match fail with Some e => Err e | None => Ok (fold_left apply_op ops db) end.

(** ** References *)

(** [validateInodeKeyIdentity] *)
Definition validateInodeKeyIdentity (key : list Z) (inodeID : Z) : mgo unit :=
  refuse negb (validInodeMetadataKey key) with MErrorf "invalid inode key" in
  refuse negb (bool_decide (ParseUint (TrimPrefix key prefixInode) = Some inodeID))
    with MErrorf "inode key and value identities differ" in
  Ok tt.

(** [decodeReferencedInode] *)
Definition decodeReferencedInode (key : list Z) (raw : option (list Z)) : mgo (option InodeMeta) :=
  match raw with
  | None => Ok None
  | Some v =>
      match unmarshalValue v with
      | Err _ => Err (MErrorf "decode stored inode")
      | Ok meta => let! _ := validateInodeKeyIdentity key (im_ID meta) in Ok (Some meta)
      end
  end.

(** [chunkMapsDiffer] *)
Definition chunkMapsDiffer (old next : option InodeMeta) : bool :=
  match old, next with
  | None, None => false
  | Some o, Some n =>
      if negb (length (im_ChunkMap o) =? length (im_ChunkMap n))%nat then true
      else negb (bool_decide (im_ChunkMap o = im_ChunkMap n))
  | _, _ => true
  end.

(** [addedChunkReferences]; a Go map of ids is a list here, visited in some order. *)
Definition addedChunkReferences (old next : option InodeMeta) : list Z :=
  match next with
  | None => []
  | Some n =>
      let previous := match old with Some o => map cr_ID (im_ChunkMap o) | None => [] end in
      List.filter (fun id => negb (bool_decide (id ∈ previous))) (map cr_ID (im_ChunkMap n))
  end.

(** [readRaw]: the batch's own writes first, then the database. *)
Definition readRaw (db : DB) (overlay : gmap (list Z) (option (list Z))) (key : list Z) :
    option (list Z) :=
  match overlay !! key with Some v => v | None => kv_get db key end.

Definition op_value (op : BatchOp) : option (list Z) :=
  if bo_Delete op then None else Some (bo_Value op).

(** One operation of [prepareReferenceAwareBatchWithEpoch]. *)
Definition prepare_op (db : DB) (overlay : gmap (list Z) (option (list Z))) (op : BatchOp) :
    mgo (gmap (list Z) (option (list Z))) :=
  let key := bo_Key op in
  refuse bool_decide (key = keyInodeReferenceEpoch) with MErrorf "inode reference epoch is internal" in
  if isInodeMetadataKey key then
    let! old := decodeReferencedInode key (readRaw db overlay key) in
    let! next :=
      (if bo_Delete op then Ok None else
       match unmarshalValue (bo_Value op) with
       | Err _ => Err (MErrorf "decode new inode")
       | Ok m => let! _ := validateInodeKeyIdentity key (im_ID m) in Ok (Some m)
       end) in
    refuse chunkMapsDiffer old next
           && existsb (fun id => match readRaw db overlay (chunkMetadataKey id),
                                       readRaw db overlay (chunkTombstoneKey id) with
                                 | Some _, None => false
                                 | _, _ => true
                                 end) (addedChunkReferences old next)
      with MErrorf "chunk is unavailable for attachment" in
    Ok (<[key := op_value op]> overlay)
  else
    refuse isChunkMetadataKey key && negb (bo_Delete op)
           && match parseChunkTombstoneKey key prefixChunk with
              | Some id => match readRaw db overlay (chunkTombstoneKey id) with
                           | Some _ => true | None => false end
              | None => true
              end
      with MErrorf "chunk is tombstoned" in
    Ok (<[key := op_value op]> overlay).

Fixpoint prepare_ops (db : DB) (overlay : gmap (list Z) (option (list Z))) (ops : list BatchOp) :
    mgo unit :=
  match ops with
  | [] => Ok tt
  | op :: ops => let! overlay := prepare_op db overlay op in prepare_ops db overlay ops
  end.

(** [prepareReferenceAwareBatch]: the epoch handling is gone from the code, so
    an accepted batch is returned as it is. *)
Definition prepareReferenceAwareBatch (db : DB) (ops : list BatchOp) : mgo (list BatchOp) :=
  let! _ := prepare_ops db ∅ ops in Ok ops.

(** [applyReferenceAwareBatch] *)
Definition applyReferenceAwareBatch (fail : option merr) (db : DB) (ops : list BatchOp) : mgo DB :=
  let! prepared := prepareReferenceAwareBatch db ops in
  commit_batch fail db prepared.

(** ** Conditional batches *)

Fixpoint check_preconditions (db : DB) (ps : list ConditionalPrecondition) : mgo unit :=
  match ps with
  | [] => Ok tt
  | p :: ps =>
      match kv_get db (cp_Key p) with
      | Some current =>
          if cp_ExpectAbsent p then Err ErrRaftConditionalConflict
          else if bool_decide (current = cp_ExpectedValue p) then check_preconditions db ps
          else Err ErrRaftConditionalConflict
      | None =>
          if cp_ExpectAbsent p then check_preconditions db ps else Err ErrRaftConditionalConflict
      end
  end.

(** Deletes of every key under the prefix, then the sets. *)
Definition replacement_ops (db : DB) (r : ConditionalPrefixReplacement) : list BatchOp :=
  map (fun kv => mkBatchOp true kv.1 []) (kv_range db (pr_Prefix r) (prefixUpperBound (pr_Prefix r)))
  ++ map (fun op => mkBatchOp false (bo_Key op) (bo_Value op)) (pr_Sets r).

(** [applyConditionalBatchWithHook]; [hook] is the outcome of [beforeCommit]. *)
Definition applyConditionalBatchWithHook (hook fail : option merr) (db : DB)
    (conditional : option ConditionalBatch) : mgo DB :=
  let! c := canonicalConditionalBatch rules conditional in
  let! _ := check_preconditions db (cb_Preconditions c) in
  let ops := cb_Mutations c ++ concat (map (replacement_ops db) (cb_PrefixReplacements c)) in
  match hook with
  | Some e => Err e
  | None => commit_batch fail db ops
  end.

(** ** The state machine *)

Record Replica := mkReplica {
  r_db : DB; r_inCache : gmap Z InodeMeta;
  r_lastAppliedIndex : Z; r_lastAppliedTerm : Z; r_lastConsumedIndex : Z
}.

(** [OpCAS] of [Apply]: the value is an eight-byte version and the new row. *)
Definition apply_cas (fail : option merr) (db : DB) (key value : list Z) : mgo DB :=
  refuse len value <? 8 with MErrorf "fsm: opcas: value too short" in
  let expectedVer := get_be 0 8 value in
  match kv_get db key with
  | None => Err MErrNotFound
  | Some raw =>
      let! current := @unmarshalValue _ CV raw in
      refuse negb (iv_Version current =? expectedVer) with ErrVersionConflict in
      applyReferenceAwareBatch fail db [mkBatchOp false key (drop 8 value)]
  end.

(** [invalidateInodeCache] *)
Definition invalidate_key (cache : gmap Z InodeMeta) (key : list Z) : gmap Z InodeMeta :=
  if validInodeMetadataKey key then
    match ParseUint (TrimPrefix key prefixInode) with
    | Some id => delete id cache
    | None => delete 0 cache
    end
  else cache.

Definition invalidateInodeCache (e : RaftLogEntry) (cache : gmap Z InodeMeta) : gmap Z InodeMeta :=
  if (re_Op e =? OpSet) || (re_Op e =? OpDelete) || (re_Op e =? OpCAS)
  then invalidate_key cache (re_Key e)
  else if re_Op e =? OpBatch
  then fold_left (fun c op => invalidate_key c (bo_Key op)) (re_Batch e) cache
  else cache.

(** The switch of [Apply]. *)
Definition apply_entry (hook fail : option merr) (term : Z) (db : DB) (e : RaftLogEntry) : mgo DB :=
  if re_Op e =? OpSet
  then applyReferenceAwareBatch fail db [mkBatchOp false (re_Key e) (re_Value e)]
  else if re_Op e =? OpDelete
  then applyReferenceAwareBatch fail db [mkBatchOp true (re_Key e) []]
  else if re_Op e =? OpBatch then applyReferenceAwareBatch fail db (re_Batch e)
  else if re_Op e =? OpConditionalBatch then
    match re_Conditional e with
    | Some c =>
        refuse negb (cb_ExpectedRaftTerm c =? 0) && negb (cb_ExpectedRaftTerm c =? term)
          with ErrRaftConditionalConflict in
        applyConditionalBatchWithHook hook fail db (Some c)
    | None => Err (MErrorf "nil pointer")
    end
  else if re_Op e =? OpCAS then apply_cas fail db (re_Key e) (re_Value e)
  else Ok db.

(** [PebbleFSM.Apply] of the log [(index, term, data)] *)
Definition Apply (hook fail : option merr) (index term : Z) (data : list Z) (r : Replica) :
    Replica * option merr :=
  let consumed :=
    mkReplica (r_db r) (r_inCache r) (r_lastAppliedIndex r) (r_lastAppliedTerm r) index in
  match data with
  | [] => (mkReplica (r_db r) (r_inCache r) index term index, None)
  | _ =>
      match DecodeRaftLogEntry rules data with
      | Err e => (consumed, Some e)
      | Ok entry =>
          match apply_entry hook fail term (r_db r) entry with
          | Err e => (consumed, Some e)
          | Ok db =>
              (mkReplica db (invalidateInodeCache entry (r_inCache r)) index term index, None)
          end
      end
  end.
End FSM.

Arguments mkReplica {DB} _ _ _ _ _.
Arguments r_db {DB} _.
Arguments r_inCache {DB} _.
