(* ===== verification/Namespace.v ===== *)
(** * The namespace service

    Models the NamespaceService of [nufs-core/metadata/pebble_store.go]:
    inode ids and their free list, directories, files, special nodes,
    symbolic and hard links, rename, extended attributes and the inode cache,
    each operation on the rows of [MetaKeys.v] through the conditional and
    reference-aware batches of [MetaFSM.v].

    The model is the store without a Raft node ([s.raft == nil]); with one,
    the same batch travels through the log and [PebbleFSM.Apply], see
    [MetaFSM.v]. The mutex around a commit makes it one step. The inode cache
    is an LRU of a library: a finite map from which [en_evict] drops some
    entries. Free-list ids are kept with the slice's last element first.
    Events and metrics are left out: nothing reads them back. *)

From stdpp Require Import base list sorting numbers strings gmap.
From Stdlib Require Import ZArith Lia.
From S2P Require Import Prelude Bytes Pebble MetaKeys MetaScan MetaTypes RaftLog MetaFSM.

Local Open Scope Z_scope.
Local Open Scope go_scope.

(** ** State and effects *)

Record NS (DB : Type) := mkNS {
  ns_db : DB; ns_inodeSeq : Z; ns_idMaxInit : bool; ns_freeList : list Z;
  ns_inCache : gmap Z InodeMeta; ns_closed : bool; ns_readOnly : bool
}.
Arguments mkNS {DB} _ _ _ _ _ _ _.
Arguments ns_db {DB} _.
Arguments ns_inodeSeq {DB} _.
Arguments ns_idMaxInit {DB} _.
Arguments ns_freeList {DB} _.
Arguments ns_inCache {DB} _.
Arguments ns_closed {DB} _.
Arguments ns_readOnly {DB} _.

(** The clock readings of a call, the fate of its commits by number (0 for the
    free list, 1 and 2 for the attempts of a conditional change, 3 for a plain
    batch), the cache's evictions. *)
Record ns_env := mkNsEnv {
  en_clock : nat -> Z; en_hook : option merr; en_fail : nat -> option merr;
  en_evict : gmap Z InodeMeta -> gmap Z InodeMeta
}.

Definition N (DB A : Type) : Type := NS DB -> NS DB * mgo A.

Definition nret {DB A} (a : A) : N DB A := fun s => (s, Ok a).
Definition nerr {DB A} (e : merr) : N DB A := fun s => (s, Err e).
Definition nbind {DB A B} (m : N DB A) (k : A -> N DB B) : N DB B :=
  fun s => match m s with (s, Ok a) => k a s | (s, Err e) => (s, Err e) end.
Definition nget {DB} : N DB (NS DB) := fun s => (s, Ok s).
Definition nlift {DB A} (r : mgo A) : N DB A := fun s => (s, r).
Definition nmodify {DB} (f : NS DB -> NS DB) : N DB unit := fun s => (f s, Ok tt).

Declare Scope ns_scope.
Delimit Scope ns_scope with ns.
Notation "'do*' x ':=' c 'in' k" := (nbind c (fun x => k))
  (at level 10, x pattern, c at level 100, k at level 200,
   format "'[v' 'do*'  x  ':='  c  'in' '/' k ']'") : ns_scope.
Local Open Scope ns_scope.

Definition set_db {DB} (db : DB) (s : NS DB) : NS DB :=
  mkNS db (ns_inodeSeq s) (ns_idMaxInit s) (ns_freeList s) (ns_inCache s) (ns_closed s) (ns_readOnly s).
Definition set_seq {DB} (seq : Z) (init : bool) (s : NS DB) : NS DB :=
  mkNS (ns_db s) seq init (ns_freeList s) (ns_inCache s) (ns_closed s) (ns_readOnly s).
Definition set_free {DB} (l : list Z) (s : NS DB) : NS DB :=
  mkNS (ns_db s) (ns_inodeSeq s) (ns_idMaxInit s) l (ns_inCache s) (ns_closed s) (ns_readOnly s).
Definition set_cache {DB} (c : gmap Z InodeMeta) (s : NS DB) : NS DB :=
  mkNS (ns_db s) (ns_inodeSeq s) (ns_idMaxInit s) (ns_freeList s) c (ns_closed s) (ns_readOnly s).

Section Namespace.
Context {DB : Type} `{KV : PebbleKV DB}.
Context `{CI : Codec InodeMeta} `{C2 : Codec InodeMetaV2} `{CE : Codec DirEntry}.
Context `{CU : Codec BucketUsage} `{CN : Codec Z}.
Context (rules : version_rules) (useBucketStats : bool).

(** [if s.closed.Load() { return ErrServiceClosed }] *)
Definition enter_ns : N DB unit :=
  fun s => if ns_closed s then (s, Err ErrServiceClosed) else (s, Ok tt).

(** [getValue]; [None] is a missing row. *)
Definition getValue {A} `{Codec A} (db : DB) (key : list Z) : mgo (option A) :=
  match kv_get db key with
  | None => Ok None
  | Some raw => match unmarshalValue raw with Ok v => Ok (Some v) | Err e => Err e end
  end.

(** [exists, _ := s.getValue(...)]: a decoding error reads as absent. *)
Definition getValue_quiet {A} `{Codec A} (db : DB) (key : list Z) : option A :=
  match getValue db key with Ok v => v | Err _ => None end.

Definition set_op {A} `{Codec A} (key : list Z) (v : A) : BatchOp := mkBatchOp false key (marshalValue v).
Definition del_op (key : list Z) : BatchOp := mkBatchOp true key [].

(** [applyViaRaft] and [applyBatchViaRaft] without a Raft node *)
Definition applyBatchViaRaft (fail : option merr) (ops : list BatchOp) : N DB unit :=
  fun s =>
    match ops with
    | [] => (s, Ok tt)
    | _ =>
        if ns_readOnly s then (s, Err ErrServiceClosed) else
        match applyReferenceAwareBatch fail (ns_db s) ops with
        | Ok db => (set_db db s, Ok tt)
        | Err e => (s, Err e)
        end
    end.

(** A call whose error is ignored: [_ = ...]. *)
Definition ignoring {A} (m : N DB A) : N DB unit := fun s => ((m s).1, Ok tt).

(** ** Inode ids *)

(** The scan of [ensureInodeIDMax]. *)
Definition scan_max_inode (db : DB) : Z :=
  scanPrefix db prefixInode
    (fun max key _ =>
       match parseInodeKeyID key with
       | Some id => Some (if max <? id then id else max)
       | None => Some max
       end) 0.

(** [ensureInodeIDMax] *)
Definition ensureInodeIDMax (s : NS DB) : NS DB :=
  if ns_idMaxInit s then s else
  let max := scan_max_inode (ns_db s) in
  set_seq (if ns_inodeSeq s <? max then max else ns_inodeSeq s) true s.

(** [reseedInodeIDMax] *)
Definition reseedInodeIDMax (s : NS DB) : NS DB :=
  ensureInodeIDMax (set_seq (ns_inodeSeq s) false s).

(** [nextInodeID] *)
Definition nextInodeID (en : ns_env) : N DB Z :=
  do* s := nget in
  match ns_freeList s with
  | id :: rest =>
      do* _ := nmodify (set_free rest) in
      do* _ := ignoring (applyBatchViaRaft (en_fail en 0) [del_op (freeListKey id)]) in
      nret id
  | [] =>
      do* _ := nmodify ensureInodeIDMax in
      do* s := nget in
      let id := u64 (ns_inodeSeq s + 1) in
      do* _ := nmodify (set_seq id (ns_idMaxInit s)) in
      nret id
  end.

(** [releaseInodeID] *)
Definition releaseInodeID (en : ns_env) (id : Z) : N DB unit :=
  if id <=? RootInodeID then nret tt else
  do* s := nget in
  if (length (ns_freeList s) <? 65536)%nat then
    do* _ := nmodify (set_free (id :: ns_freeList s)) in
    ignoring (applyBatchViaRaft (en_fail en 0) [set_op (freeListKey id) id])
  else nret tt.

(** [restoreFreeList]; rows that do not decode are skipped. *)
Definition restoreFreeList (s : NS DB) : NS DB :=
  set_free
    (scanPrefix (ns_db s) prefixFreeList
       (fun l _ val => match @unmarshalValue Z CN val with
                       | Ok id => Some (id :: l) | Err _ => Some l end)
       (ns_freeList s)) s.

(** [initRootInode] *)
Definition initRootInode (en : ns_env) : N DB unit :=
  do* s := nget in
  match kv_get (ns_db s) (inodeKey RootInodeID) with
  | Some _ => nret tt
  | None =>
      let now := en_clock en 0 in
      applyBatchViaRaft (en_fail en 3)
        [set_op (inodeKey RootInodeID)
           (mkInodeMeta RootInodeID FileDirectory 0 2 0 0 0 493 now now now 0 [] [] ∅)]
  end.

(** [NewPebbleStore] on an opened database; the bucket counters of
    [ensureBucketStats] are not part of the model. *)
Definition NewPebbleStore (en : ns_env) (db : DB) : NS DB * mgo unit :=
  (do* _ := initRootInode en in nmodify restoreFreeList)
    (mkNS db RootInodeID false [] ∅ false false).

(** ** Conditional namespace changes *)

(** [applyNamespaceConditional] *)
Definition applyNamespaceConditional (en : ns_env) (n : nat) (b : ConditionalBatch) (conflictErr : merr) :
    N DB unit :=
  fun s =>
    if ns_readOnly s then (s, Err ErrServiceClosed) else
    match applyConditionalBatchWithHook rules (en_hook en) (en_fail en n) (ns_db s) (Some b) with
    | Ok db => (set_db db s, Ok tt)
    | Err e => (s, Err (if bool_decide (e = ErrRaftConditionalConflict) then conflictErr else e))
    end.

(** [applyNamespaceCreate]; [mk n] is the closure of the [n]-th attempt. *)
Definition applyNamespaceCreate {A} (en : ns_env) (conflictErr : merr)
    (mk : nat -> N DB (ConditionalBatch * A)) : N DB A :=
  do* (b, created) := mk 0%nat in
  fun s =>
    match applyNamespaceConditional en 1 b conflictErr s with
    | (s, Ok _) => (s, Ok created)
    | (s, Err e) =>
        if bool_decide (e = conflictErr) then
          (do* _ := nmodify reseedInodeIDMax in
           do* (b, created) := mk 1%nat in
           do* _ := applyNamespaceConditional en 2 b conflictErr in
           nret created) s
        else (s, Err e)
    end.

Definition absent (key : list Z) : ConditionalPrecondition := mkPrecondition key [] true.

(** [buildNamespaceConditionalWithInodeGuard] *)
Definition buildNamespaceConditionalWithInodeGuard (nsKey inodeKey : list Z) (ops : list BatchOp) :
    ConditionalBatch :=
  mkConditionalBatch conditionalBatchVersion 0 [absent nsKey; absent inodeKey] ops [].

(** [buildNamespaceConditionalOps] with a precondition *)
Definition buildNamespaceConditionalOps (ops : list BatchOp) (deletes : list (list Z))
    (pre : ConditionalPrecondition) : ConditionalBatch :=
  mkConditionalBatch conditionalBatchVersion 0 [pre] (ops ++ map del_op deletes) [].

(** [buildNamespaceConditional] *)
Definition buildNamespaceConditional (nsKey : list Z) (ops : list BatchOp) : ConditionalBatch :=
  buildNamespaceConditionalOps ops [] (absent nsKey).

(** ** Bucket counters *)

(** [addBucketStatsOp], with [readBucketStats] *)
Definition addBucketStatsOp (db : DB) (rootInode deltaBytes deltaObjects : Z) : list BatchOp :=
  if negb useBucketStats || (rootInode =? 0) then [] else
  let stats := default (mkBucketUsage [] 0 0) (getValue_quiet db (bucketStatsKey rootInode)) in
  [set_op (bucketStatsKey rootInode)
     (mkBucketUsage (bu_Name stats) (i64 (bu_UsedBytes stats + deltaBytes))
        (i64 (bu_Objects stats + deltaObjects)))].

(** [getBucketRoot] *)
Definition getBucketRoot (db : DB) (parent : Z) : Z :=
  match @getValue_quiet _ CI db (inodeKey parent) with Some m => im_BucketRoot m | None => 0 end.

(** ** Creating entries *)

Definition name_too_long (name : list Z) : bool := MaxNameLength <? len name.

(** The closure of [CreateFile], [CreateNode] and [Symlink]: mint an id, build
    the inode and entry rows and the counter update. *)
Definition create_leaf (en : ns_env) (parent : Z) (name : list Z) (bucketRoot size : Z)
    (inode : Z -> Z -> InodeMeta) (n : nat) : N DB (ConditionalBatch * InodeMeta) :=
  do* inodeID := nextInodeID en in
  let meta := inode inodeID (en_clock en n) in
  let entry := mkDirEntry inodeID (im_Type meta) name in
  do* s := nget in
  let ops := [set_op (inodeKey inodeID) meta; set_op (nsKey parent name) entry]
             ++ addBucketStatsOp (ns_db s) bucketRoot size 1 in
  nret (buildNamespaceConditionalWithInodeGuard (nsKey parent name) (inodeKey inodeID) ops, meta).

(** [CreateFile] *)
Definition CreateFile (en : ns_env) (parent : Z) (name : list Z) (mode : Z) : N DB InodeMeta :=
  do* _ := enter_ns in
  if name_too_long name then nerr ErrNameTooLong else
  do* s := nget in
  let bucketRoot := getBucketRoot (ns_db s) parent in
  applyNamespaceCreate en ErrEntryExists
    (create_leaf en parent name bucketRoot 0
       (fun id now => mkInodeMeta id FileRegular 0 1 bucketRoot 0 0 mode now now now 0 [] [] ∅)).

(** [CreateNode] *)
Definition CreateNode (en : ns_env) (parent : Z) (name : list Z) (ftype mode rdev : Z) :
    N DB InodeMeta :=
  do* _ := enter_ns in
  if name_too_long name then nerr ErrNameTooLong else
  if negb ((ftype =? FileFIFO) || (ftype =? FileCharDevice) || (ftype =? FileBlockDevice)
           || (ftype =? FileSocket))
  then nerr (MErrorf "CreateNode called with non-special type") else
  do* s := nget in
  let bucketRoot := getBucketRoot (ns_db s) parent in
  applyNamespaceCreate en ErrEntryExists
    (create_leaf en parent name bucketRoot 0
       (fun id now => mkInodeMeta id ftype 0 1 bucketRoot 0 0 mode now now now rdev [] [] ∅)).

(** [Symlink] *)
Definition Symlink (en : ns_env) (parent : Z) (name target : list Z) : N DB InodeMeta :=
  do* _ := enter_ns in
  do* s := nget in
  let bucketRoot := getBucketRoot (ns_db s) parent in
  applyNamespaceCreate en ErrEntryExists
    (create_leaf en parent name bucketRoot (len target)
       (fun id now => mkInodeMeta id FileSymlink 0 1 bucketRoot 0 0 511 now now now 0 [] target ∅)).

(** Updates of single fields *)
Definition with_dir_change (nlink mtime : Z) (m : InodeMeta) : InodeMeta :=
  mkInodeMeta (im_ID m) (im_Type m) (im_Size m) nlink (im_BucketRoot m) (im_UID m) (im_GID m)
    (im_Mode m) (im_CTime m) mtime (im_ATime m) (im_Rdev m) (im_ChunkMap m) (im_Symlink m) (im_XAttrs m).

Definition with_links (nlink ctime mtime : Z) (m : InodeMeta) : InodeMeta :=
  mkInodeMeta (im_ID m) (im_Type m) (im_Size m) nlink (im_BucketRoot m) (im_UID m) (im_GID m)
    (im_Mode m) ctime mtime (im_ATime m) (im_Rdev m) (im_ChunkMap m) (im_Symlink m) (im_XAttrs m).

Definition with_links2 (nlink ctime mtime : Z) (m : InodeMetaV2) : InodeMetaV2 :=
  mkInodeMetaV2 (i2_ID m) (i2_Type m) (i2_Size m) nlink (i2_BucketRoot m) (i2_UID m) (i2_GID m)
    (i2_Mode m) ctime mtime (i2_ATime m) (i2_Layout m) (i2_InlineExtent m) (i2_ExtentRoot m)
    (i2_ExtentPageCount m) (i2_ExtentRootVersion m) (i2_Symlink m) (i2_XAttrs m).

(** The closure of [MkDir]. *)
Definition mkdir_batch (en : ns_env) (parent : Z) (name : list Z) (mode : Z) (n : nat) :
    N DB (ConditionalBatch * InodeMeta) :=
  do* inodeID := nextInodeID en in
  let now := en_clock en n in
  do* s := nget in
  let parentMeta := @getValue_quiet _ CI (ns_db s) (inodeKey parent) in
  let root := match parentMeta with Some p => im_BucketRoot p | None => 0 end in
  let meta := mkInodeMeta inodeID FileDirectory 0 2 root 0 0 mode now now now 0 [] [] ∅ in
  let ops := [set_op (inodeKey inodeID) meta;
              set_op (nsKey parent name) (mkDirEntry inodeID FileDirectory name)]
             ++ match parentMeta with
                | Some p => [set_op (inodeKey parent) (with_dir_change (u32 (im_NLink p + 1)) now p)]
                | None => []
                end in
  nret (buildNamespaceConditionalWithInodeGuard (nsKey parent name) (inodeKey inodeID) ops, meta).

(** [MkDir] *)
Definition MkDir (en : ns_env) (parent : Z) (name : list Z) (mode : Z) : N DB InodeMeta :=
  do* _ := enter_ns in
  if name_too_long name then nerr ErrNameTooLong else
  applyNamespaceCreate en ErrEntryExists (mkdir_batch en parent name mode).

(** [Link] *)
Definition Link (en : ns_env) (parent : Z) (name : list Z) (target : Z) : N DB InodeMeta :=
  do* _ := enter_ns in
  do* s := nget in
  match kv_get (ns_db s) (inodeKey target) with
  | None => nerr ErrInodeNotFound
  | Some raw =>
      do* v2 := nlift (@unmarshalValue _ C2 raw) in
      if i2_Type v2 =? FileDirectory then nerr ErrInvalidArgument else
      let nlink := u32 (i2_NLink v2 + 1) in
      let ctime := en_clock en 0 in
      do* row :=
        (if negb (i2_Layout v2 =? LayoutEmpty)
         then nret (set_op (inodeKey target) (with_links2 nlink ctime (i2_MTime v2) v2))
         else
           do* meta := nlift (@unmarshalValue _ CI raw) in
           nret (set_op (inodeKey target) (with_links nlink ctime (im_MTime meta) meta))) in
      let entry := mkDirEntry target (i2_Type v2) name in
      do* _ := applyNamespaceConditional en 1
                 (buildNamespaceConditional (nsKey parent name) [row; set_op (nsKey parent name) entry])
                 ErrEntryExists in
      do* meta := nlift (@unmarshalValue _ CI raw) in
      nret (with_links nlink ctime (im_MTime meta) meta)
  end.

(** ** Removing entries *)

Definition expect (key value : list Z) : ConditionalPrecondition := mkPrecondition key value false.

(** [RmDir] *)
Definition RmDir (en : ns_env) (parent : Z) (name : list Z) : N DB unit :=
  do* _ := enter_ns in
  do* s := nget in
  let db := ns_db s in
  do* found := nlift (@getValue _ CE db (nsKey parent name)) in
  match found with
  | None => nerr ErrEntryNotFound
  | Some entry =>
      if negb (de_Type entry =? FileDirectory) then nerr ErrNotDirectory else
      match scanPrefixWithLimit db (nsPrefix (de_InodeID entry)) 1 with
      | _ :: _ => nerr ErrDirNotEmpty
      | [] =>
          let ops :=
            match @getValue_quiet _ CI db (inodeKey parent) with
            | Some p =>
                [set_op (inodeKey parent)
                   (with_dir_change (if 0 <? im_NLink p then im_NLink p - 1 else im_NLink p)
                      (en_clock en 0) p)]
            | None => []
            end in
          let nsRaw := default [] (kv_get db (nsKey parent name)) in
          do* _ := applyNamespaceConditional en 1
                     (buildNamespaceConditionalOps ops
                        [inodeKey (de_InodeID entry); nsKey parent name]
                        (expect (nsKey parent name) nsRaw))
                     ErrEntryNotFound in
          releaseInodeID en (de_InodeID entry)
      end
  end.

(** The inode part of [Unlink]: the row updates and deletions, and whether the
    inode goes away. *)
Definition unlink_inode (en : ns_env) (db : DB) (id : Z) :
    mgo (list BatchOp * list (list Z) * option Z) :=
  match kv_get db (inodeKey id) with
  | None => Ok ([], [], None)
  | Some raw =>
      let! v2 := @unmarshalValue _ C2 raw in
      let nlink := u32 (i2_NLink v2 - 1) in
      let mtime := en_clock en 0 in
      if nlink <=? 0 then
        Ok (addBucketStatsOp db (i2_BucketRoot v2) (i64 (- i2_Size v2)) (-1), [inodeKey id], Some (i2_ID v2))
      else if negb (i2_Layout v2 =? LayoutEmpty) then
        Ok ([set_op (inodeKey id) (with_links2 nlink (i2_CTime v2) mtime v2)], [], None)
      else
        let! meta := @unmarshalValue _ CI raw in
        Ok ([set_op (inodeKey id) (with_links nlink (im_CTime meta) mtime meta)], [], None)
  end.

(** [Unlink] *)
Definition Unlink (en : ns_env) (parent : Z) (name : list Z) : N DB unit :=
  do* _ := enter_ns in
  do* s := nget in
  let db := ns_db s in
  do* found := nlift (@getValue _ CE db (nsKey parent name)) in
  match found with
  | None => nerr ErrEntryNotFound
  | Some entry =>
      if de_Type entry =? FileDirectory then nerr ErrNotFile else
      do* (ops, deletes, gone) := nlift (unlink_inode en db (de_InodeID entry)) in
      let nsRaw := default [] (kv_get db (nsKey parent name)) in
      do* _ := applyNamespaceConditional en 1
                 (buildNamespaceConditionalOps ops (nsKey parent name :: deletes)
                    (expect (nsKey parent name) nsRaw))
                 ErrEntryNotFound in
      do* _ := match gone with Some id => releaseInodeID en id | None => nret tt end in
      nmodify (fun s => set_cache (delete (de_InodeID entry) (ns_inCache s)) s)
  end.

(** [Rename] *)
Definition Rename (en : ns_env) (oldParent : Z) (oldName : list Z) (newParent : Z) (newName : list Z) :
    N DB unit :=
  do* _ := enter_ns in
  do* s := nget in
  do* found := nlift (@getValue _ CE (ns_db s) (nsKey oldParent oldName)) in
  match found with
  | None => nerr ErrEntryNotFound
  | Some entry =>
      do* _ :=
        match @getValue_quiet _ CE (ns_db s) (nsKey newParent newName) with
        | Some dest =>
            if de_Type dest =? FileDirectory then nerr ErrEntryExists
            else Unlink en newParent newName
        | None => nret tt
        end in
      do* s := nget in
      if useBucketStats
         && negb (getBucketRoot (ns_db s) oldParent =? getBucketRoot (ns_db s) newParent)
      then nerr ErrCrossBucketRename else
      applyBatchViaRaft (en_fail en 3)
        [set_op (nsKey newParent newName) (mkDirEntry (de_InodeID entry) (de_Type entry) newName);
         del_op (nsKey oldParent oldName)]
  end.

(** ** Reading *)

(** [Lookup] *)
Definition Lookup (parent : Z) (name : list Z) : N DB InodeMeta :=
  do* _ := enter_ns in
  do* s := nget in
  do* found := nlift (@getValue _ CE (ns_db s) (nsKey parent name)) in
  match found with
  | None => nerr ErrEntryNotFound
  | Some entry =>
      do* meta := nlift (@getValue _ CI (ns_db s) (inodeKey (de_InodeID entry))) in
      match meta with None => nerr ErrInodeNotFound | Some meta => nret meta end
  end.

(** The copy [GetInode] caches: every field but [Rdev]. *)
Definition cached_copy (m : InodeMeta) : InodeMeta :=
  mkInodeMeta (im_ID m) (im_Type m) (im_Size m) (im_NLink m) (im_BucketRoot m) (im_UID m) (im_GID m)
    (im_Mode m) (im_CTime m) (im_MTime m) (im_ATime m) 0 (im_ChunkMap m) (im_Symlink m) (im_XAttrs m).

(** [GetInode] *)
Definition GetInode (en : ns_env) (id : Z) : N DB InodeMeta :=
  do* _ := enter_ns in
  do* s := nget in
  match ns_inCache s !! id with
  | Some cached => nret cached
  | None =>
      do* found := nlift (@getValue _ CI (ns_db s) (inodeKey id)) in
      match found with
      | None => nerr ErrInodeNotFound
      | Some meta =>
          do* _ := nmodify (fun s => set_cache (en_evict en (<[id := cached_copy meta]> (ns_inCache s))) s) in
          nret meta
      end
  end.

(** [Readlink] *)
Definition Readlink (id : Z) : N DB (list Z) :=
  do* _ := enter_ns in
  do* s := nget in
  do* found := nlift (@getValue _ CI (ns_db s) (inodeKey id)) in
  match found with
  | None => nerr ErrInodeNotFound
  | Some meta => if negb (im_Type meta =? FileSymlink) then nerr ErrNotSymlink else nret (im_Symlink meta)
  end.

Definition read_dir_limit (limit : Z) : Z :=
  if (limit <=? 0) || (10000 <? limit) then 10000 else limit.

(** The callback of [ReadDir]: entries collected and names skipped so far. *)
Definition readdir_step (prefix : list Z) (offset limit : Z) (st : list DirEntry * Z) (key val : list Z) :
    option (list DirEntry * Z) :=
  let (entries, skipped) := st in
  if limit <=? len entries then None else
  let name := TrimPrefix key prefix in
  match name with
  | [] => Some (entries, skipped)
  | _ =>
      if skipped <? offset then Some (entries, skipped + 1) else
      match @unmarshalValue _ CE val with
      | Err _ => Some (entries, skipped)
      | Ok e => Some (entries ++ [mkDirEntry (de_InodeID e) (de_Type e) name], skipped)
      end
  end.

(** [ReadDir] *)
Definition ReadDir (parent offset limit : Z) : N DB (list DirEntry) :=
  do* _ := enter_ns in
  do* s := nget in
  let prefix := nsPrefix parent in
  nret (scanPrefix (ns_db s) prefix (readdir_step prefix offset (read_dir_limit limit)) ([], 0)).1.

(** The loop of [ReadDirFrom]. *)
Fixpoint readdir_loop (prefix : list Z) (limit : Z) (entries : list DirEntry) (rows : list row) :
    list DirEntry :=
  match rows with
  | [] => entries
  | (key, val) :: rows =>
      if limit <=? len entries then entries else
      match TrimPrefix key prefix with
      | [] => readdir_loop prefix limit entries rows
      | name =>
          match @unmarshalValue _ CE val with
          | Err _ => readdir_loop prefix limit entries rows
          | Ok e => readdir_loop prefix limit (entries ++ [mkDirEntry (de_InodeID e) (de_Type e) name]) rows
          end
      end
  end.

(** [ReadDirFrom] *)
Definition ReadDirFrom (parent : Z) (afterName : list Z) (limit : Z) : N DB (list DirEntry) :=
  do* _ := enter_ns in
  do* s := nget in
  let prefix := nsPrefix parent in
  let upper := prefixUpperBound prefix in
  let rows :=
    match afterName with
    | [] => kv_range (ns_db s) prefix upper
    | _ => skip_past (prefix ++ afterName) (kv_range (ns_db s) (prefix ++ afterName) upper)
    end in
  nret (readdir_loop prefix (read_dir_limit limit) [] rows).

(** ** Updating inodes *)

Definition with_ctime (ctime : Z) (m : InodeMeta) : InodeMeta :=
  mkInodeMeta (im_ID m) (im_Type m) (im_Size m) (im_NLink m) (im_BucketRoot m) (im_UID m) (im_GID m)
    (im_Mode m) ctime (im_MTime m) (im_ATime m) (im_Rdev m) (im_ChunkMap m) (im_Symlink m) (im_XAttrs m).

(** A V1 view laid over a V2 row. *)
Definition overlay_v2 (v2 : InodeMetaV2) (m : InodeMeta) : InodeMetaV2 :=
  mkInodeMetaV2 (i2_ID v2) (i2_Type v2) (im_Size m) (im_NLink m) (im_BucketRoot m) (im_UID m) (im_GID m)
    (im_Mode m) (im_CTime m) (im_MTime m) (im_ATime m) (i2_Layout v2) (i2_InlineExtent v2)
    (i2_ExtentRoot v2) (i2_ExtentPageCount v2) (i2_ExtentRootVersion v2) (im_Symlink m) (im_XAttrs m).

(** [UpdateInode] *)
Definition UpdateInode (en : ns_env) (meta : InodeMeta) : N DB unit :=
  do* _ := enter_ns in
  let meta := with_ctime (en_clock en 0) meta in
  let key := inodeKey (im_ID meta) in
  do* s := nget in
  let db := ns_db s in
  do* ops :=
    match kv_get db key with
    | Some raw =>
        do* v2 := nlift (@unmarshalValue _ C2 raw) in
        if negb (i2_Layout v2 =? LayoutEmpty) then
          if 0 <? len (im_ChunkMap meta) then nerr ErrInodeModelMismatch else
          nret (addBucketStatsOp db (im_BucketRoot meta) (i64 (im_Size meta - i2_Size v2)) 0
                ++ [set_op key (overlay_v2 v2 meta)])
        else
          nret (addBucketStatsOp db (i2_BucketRoot v2) (i64 (im_Size meta - i2_Size v2)) 0 ++ [set_op key meta])
    | None => nret [set_op key meta]
    end in
  do* _ := applyBatchViaRaft (en_fail en 3) ops in
  nmodify (fun s => set_cache (delete (im_ID meta) (ns_inCache s)) s).

Definition with_xattrs (x : gmap (list Z) (list Z)) (m : InodeMeta) : InodeMeta :=
  mkInodeMeta (im_ID m) (im_Type m) (im_Size m) (im_NLink m) (im_BucketRoot m) (im_UID m) (im_GID m)
    (im_Mode m) (im_CTime m) (im_MTime m) (im_ATime m) (im_Rdev m) (im_ChunkMap m) (im_Symlink m) x.

(** [GetXAttr] *)
Definition GetXAttr (en : ns_env) (id : Z) (name : list Z) : N DB (list Z) :=
  do* meta := GetInode en id in
  match im_XAttrs meta !! name with Some v => nret v | None => nerr ErrXAttrNotFound end.

(** [SetXAttr] *)
Definition SetXAttr (en : ns_env) (id : Z) (name value : list Z) : N DB unit :=
  do* meta := GetInode en id in
  UpdateInode en (with_xattrs (<[name := value]> (im_XAttrs meta)) meta).

(** [ListXAttr] *)
Definition ListXAttr (en : ns_env) (id : Z) : N DB (gmap (list Z) (list Z)) :=
  do* meta := GetInode en id in nret (im_XAttrs meta).

(** [RemoveXAttr]; the model does not tell a nil map from an empty one, on
    which the code would still bump the change time. *)
Definition RemoveXAttr (en : ns_env) (id : Z) (name : list Z) : N DB unit :=
  do* meta := GetInode en id in
  if bool_decide (im_XAttrs meta = ∅) then nret tt else
  UpdateInode en (with_xattrs (delete name (im_XAttrs meta)) meta).
End Namespace.
