(* ===== verification/Extents.v ===== *)
(** * Extent layouts of a file

    Models [extent_page.go], [inode_store.go] and [inode_v2_serving.go] of
    [nufs-core/metadata]: a V2 inode holds its data as one inline extent or as
    copy-on-write pages of extent references under a versioned root, and the
    commit of a write lands its chunks in whichever layout fits.

    Every row write is a commit of its own, which may fail; the fate of the
    writes of one call is in [x_env], by kind of row and number within the
    call. A call is not interleaved with another call on the same inode. The
    row a call has just written is read back from the same store, as with the
    store without a Raft node. *)

From stdpp Require Import base list sorting numbers strings gmap.
From Stdlib Require Import ZArith Lia.
From S2P Require Import Prelude Bytes Pebble MetaKeys MetaScan MetaTypes RaftLog MetaFSM Namespace.

Local Open Scope Z_scope.
Local Open Scope go_scope.
Local Open Scope ns_scope.

(** ** Rows ([types.go]) *)

Definition LifecycleReady : Z := 0.
Definition LifecycleReadyDegraded : Z := 1.
Definition StorageClassHotReplica : Z := 0.
Definition StorageClassColdEC : Z := 1.
Definition MaxExtentsPerPage : Z := 256.
Definition MaxInlineExtentSize : Z := 16 * 1024 * 1024.

Record ExtentRef := mkExtentRef { xr_ExtentID : Z; xr_LogicalOffset : Z }.

#[export] Instance ExtentRef_eq_dec : EqDecision ExtentRef.
Proof. solve_decision. Defined.

Record ExtentPage := mkExtentPage { xp_InodeID : Z; xp_PageNo : Z; xp_Extents : list ExtentRef }.

#[export] Instance ExtentPage_eq_dec : EqDecision ExtentPage.
Proof. solve_decision. Defined.

(** [Extent] is a pointer. *)
Record ExtentWrite := mkExtentWrite { xw_Extent : option ExtentMetaV2; xw_Offset : Z }.

Record ReplicaInfo := mkReplicaInfo {
  ri_NodeID : Z; ri_Addr : list Z; ri_State : Z; ri_DiskPath : list Z; ri_ShardIndex : Z
}.

#[export] Instance ReplicaInfo_eq_dec : EqDecision ReplicaInfo.
Proof. solve_decision. Defined.

Record ECGroupInfo := mkECGroupInfo {
  eg_GroupID : list Z; eg_ProfileID : list Z; eg_DataShards : Z; eg_ParityShards : Z; eg_ShardIndex : Z
}.

#[export] Instance ECGroupInfo_eq_dec : EqDecision ECGroupInfo.
Proof. solve_decision. Defined.

Record ChunkMeta := mkChunkMeta {
  ck_ID : Z; ck_Size : Z; ck_State : Z; ck_Replicas : list ReplicaInfo; ck_ECGroup : option ECGroupInfo;
  ck_Tier : Z; ck_CreateTime : Z; ck_Checksum : Z; ck_PGID : Z; ck_Epoch : Z; ck_Generation : Z;
  ck_ECStripeID : list Z
}.

#[export] Instance ChunkMeta_eq_dec : EqDecision ChunkMeta.
Proof. solve_decision. Defined.

(** [int32(x)] *)
Definition i32 (x : Z) : Z := let y := u32 x in if y <? 2 ^ 31 then y else y - 2 ^ 32.

(** ** Keys *)

(** [binary.PutUvarint]: seven bits a byte, the top bit set on all but the
    last; a uint64 takes at most ten bytes. *)
Fixpoint uvarint (fuel : nat) (x : Z) : list Z :=
  match fuel with
  | O => []
  | S fuel => if x <? 128 then [x] else Z.lor (u8 x) 128 :: uvarint fuel (Z.shiftr x 7)
  end.

Definition PutUvarint (x : Z) : list Z := uvarint 10 x.

(** [extentPageKey]; the 64-byte buffer is never filled. *)
Definition extentPageKey (inodeID root pageNo : Z) : list Z :=
  prefixExtentPage ++ PutUvarint inodeID ++ str "/" ++ PutUvarint root ++ str "/" ++ PutUvarint pageNo.

(** [extentMetaKey] *)
Definition extentMetaKey (id : Z) : list Z := prefixExtentMeta ++ FormatUint id.

(** ** Effects of a call *)

Record x_env := mkXEnv {
  xe_clock : nat -> Z;              (* [nowUnixNano] *)
  xe_meta : nat -> option merr;     (* writes of extent-meta rows *)
  xe_page : nat -> option merr;     (* writes of page rows *)
  xe_inode : nat -> option merr;    (* writes of the inode row *)
  xe_delete : nat -> option merr    (* deletions of page rows *)
}.

Section Extents.
Context {DB : Type} `{KV : PebbleKV DB}.
Context `{CI : Codec InodeMeta} `{C2 : Codec InodeMetaV2} `{CU : Codec BucketUsage}.
Context `{CP : Codec ExtentPage} `{CX : Codec ExtentMetaV2} `{CK : Codec ChunkMeta}.
Context (useBucketStats : bool).

(** ** Pages ([extent_page.go]) *)

(** [GetPage]; the page's identity is set after decoding. *)
Definition GetPage (db : DB) (inodeID root pageNo : Z) : mgo (option ExtentPage) :=
  let! found := @getValue _ _ _ CP db (extentPageKey inodeID root pageNo) in
  match found with
  | None => Ok None
  | Some page => Ok (Some (mkExtentPage inodeID pageNo (xp_Extents page)))
  end.

(** The loop of [ResolvePage] from root [n] down. *)
Fixpoint resolve_from (db : DB) (inodeID pageNo : Z) (n : nat) : mgo (option ExtentPage) :=
  match n with
  | O => Ok None
  | S m =>
      let! page := GetPage db inodeID (Z.of_nat n) pageNo in
      match page with
      | Some page => Ok (Some page)
      | None => resolve_from db inodeID pageNo m
      end
  end.

(** [ResolvePage] *)
Definition ResolvePage (db : DB) (inodeID currentRoot pageNo : Z) : mgo (option ExtentPage) :=
  resolve_from db inodeID pageNo (Z.to_nat currentRoot).

(** [writePage], the call's [k]-th *)
Definition writePage (e : x_env) (k : nat) (page : ExtentPage) (root : Z) : N DB unit :=
  applyBatchViaRaft (xe_page e k) [set_op (extentPageKey (xp_InodeID page) root (xp_PageNo page)) page].

(** [UpdatePage] *)
Definition UpdatePage (e : x_env) (k : nat) (inodeID oldRoot newRoot pageNo : Z)
    (fn : ExtentPage -> mgo ExtentPage) : N DB ExtentPage :=
  do* s := nget in
  do* found := nlift (GetPage (ns_db s) inodeID oldRoot pageNo) in
  let page := default (mkExtentPage inodeID pageNo []) found in
  do* copied := nlift (fn page) in
  do* _ := writePage e k copied newRoot in
  nret copied.

Definition add_extent (ref : ExtentRef) (p : ExtentPage) : ExtentPage :=
  mkExtentPage (xp_InodeID p) (xp_PageNo p) (xp_Extents p ++ [ref]).

(** [ExtentPageStore.AppendExtent]: the page written and whether it is new. *)
Definition page_AppendExtent (e : x_env) (k : nat) (inodeID root pageNo : Z) (ref : ExtentRef) :
    N DB (Z * bool) :=
  let newRoot := u64 (root + 1) in
  do* s := nget in
  do* page := nlift (ResolvePage (ns_db s) inodeID root pageNo) in
  if match page with Some p => MaxExtentsPerPage <=? len (xp_Extents p) | None => false end then
    do* _ := writePage e k (mkExtentPage inodeID (u32 (pageNo + 1)) [ref]) newRoot in
    nret (u32 (pageNo + 1), true)
  else
    do* updated := UpdatePage e k inodeID root newRoot pageNo (fun p => Ok (add_extent ref p)) in
    nret (xp_PageNo updated, false).

(** The loop of [ExtentPageStore.ResolveExtents] over the pages from [p] on. *)
Fixpoint resolve_pages (db : DB) (inodeID root p : Z) (n : nat) : mgo (list ExtentRef) :=
  match n with
  | O => Ok []
  | S n =>
      let! page := ResolvePage db inodeID root p in
      let! rest := resolve_pages db inodeID root (p + 1) n in
      Ok (match page with Some page => xp_Extents page | None => [] end ++ rest)
  end.

(** [ExtentPageStore.ResolveExtents] *)
Definition page_ResolveExtents (db : DB) (inode : InodeMetaV2) : mgo (list ExtentRef) :=
  resolve_pages db (i2_ID inode) (i2_ExtentRoot inode) 0 (Z.to_nat (i2_ExtentPageCount inode)).

Fixpoint delete_pages (e : x_env) (inodeID root p : Z) (n : nat) : N DB unit :=
  match n with
  | O => nret tt
  | S n => fun s =>
      match xe_delete e (Z.to_nat p) with
      | Some err => (s, Err err)
      | None => delete_pages e inodeID root (p + 1) n
                  (set_db (kv_delete (ns_db s) (extentPageKey inodeID root p)) s)
      end
  end.

(** [DeleteRoot]: plain deletions of the local database *)
Definition DeleteRoot (e : x_env) (inodeID root pageCount : Z) : N DB unit :=
  delete_pages e inodeID root 0 (Z.to_nat pageCount).

(** ** V2 inodes ([inode_store.go]) *)

(** [InodeStoreV2.Get] *)
Definition inode2_Get (db : DB) (id : Z) : mgo (option InodeMetaV2) := @getValue _ _ _ C2 db (inodeKey id).

(** [InodeStoreV2.Put], the call's [k]-th write of the inode row *)
Definition inode2_Put (e : x_env) (k : nat) (inode : InodeMetaV2) : N DB unit :=
  applyBatchViaRaft (xe_inode e k) [set_op (inodeKey (i2_ID inode)) inode].

(** [putWithBucketStats] *)
Definition putWithBucketStats (e : x_env) (k : nat) (inode : InodeMetaV2) (oldSize : Z) : N DB unit :=
  if negb useBucketStats then inode2_Put e k inode else
  do* s := nget in
  applyBatchViaRaft (xe_inode e k)
    (addBucketStatsOp useBucketStats (ns_db s) (i2_BucketRoot inode) (i64 (i2_Size inode - oldSize)) 0
     ++ [set_op (inodeKey (i2_ID inode)) inode]).

(** The row with another layout, size and times. *)
Definition with_layout (layout : Z) (inline : option ExtentMetaV2) (root count version size ctime mtime : Z)
    (m : InodeMetaV2) : InodeMetaV2 :=
  mkInodeMetaV2 (i2_ID m) (i2_Type m) size (i2_NLink m) (i2_BucketRoot m) (i2_UID m) (i2_GID m)
    (i2_Mode m) ctime mtime (i2_ATime m) layout inline root count version (i2_Symlink m) (i2_XAttrs m).

(** [CreateEmpty] *)
Definition CreateEmpty (e : x_env) (id typ bucketRoot uid gid mode : Z) : N DB InodeMetaV2 :=
  let now := xe_clock e 0 in
  let inode := mkInodeMetaV2 id typ 0 0 bucketRoot uid gid mode now now now LayoutEmpty None 0 0 0 [] ∅ in
  do* _ := inode2_Put e 0 inode in
  nret inode.

(** [_ = s.pages.DeleteRoot(id, oldRoot, oldCount)] unless there was no root *)
Definition drop_root (e : x_env) (id oldRoot oldCount : Z) : N DB unit :=
  if oldRoot =? 0 then nret tt else ignoring (DeleteRoot e id oldRoot oldCount).

Definition get_inode2 (id : Z) : N DB InodeMetaV2 :=
  do* s := nget in
  do* found := nlift (inode2_Get (ns_db s) id) in
  match found with None => nerr ErrInodeNotFound | Some inode => nret inode end.

(** [InodeStoreV2.SetInlineExtent]; the root and page count are kept. *)
Definition inode2_SetInlineExtent (e : x_env) (id : Z) (extent : ExtentMetaV2) (size : Z) : N DB unit :=
  do* inode := get_inode2 id in
  let next := with_layout LayoutInlineExtent (Some extent) (i2_ExtentRoot inode) (i2_ExtentPageCount inode)
                (i2_ExtentRootVersion inode) size (xe_clock e 1) (xe_clock e 0) inode in
  do* _ := putWithBucketStats e 0 next (i2_Size inode) in
  drop_root e id (i2_ExtentRoot inode) (i2_ExtentPageCount inode).

(** [InodeStoreV2.PromoteToPages], with the numbers of its writes *)
Definition inode2_PromoteToPages (e : x_env) (id : Z) : N DB unit :=
  do* inode := get_inode2 id in
  let newRoot := u64 (i2_ExtentRoot inode + 1) in
  let page := mkExtentPage id 0 (match i2_InlineExtent inode with
                                 | Some x => [mkExtentRef (ex_ID x) 0] | None => [] end) in
  do* _ := writePage e 0 page newRoot in
  let next := with_layout LayoutExtentPages None newRoot 1 (u64 (i2_ExtentRootVersion inode + 1))
                (i2_Size inode) (xe_clock e 2) (i2_MTime inode) inode in
  do* _ := inode2_Put e 0 next in
  drop_root e id (i2_ExtentRoot inode) (i2_ExtentPageCount inode).

(** [InodeStoreV2.AppendExtent]; the writes of a promotion come first. *)
Definition inode2_AppendExtent (e : x_env) (id : Z) (ref : ExtentRef) (extentSize : Z) : N DB Z :=
  do* inode := get_inode2 id in
  do* inode :=
    (if negb (i2_Layout inode =? LayoutExtentPages) then
       do* _ := inode2_PromoteToPages e id in
       do* s := nget in
       do* found := nlift (inode2_Get (ns_db s) id) in
       match found with None => nerr (MErrorf "nil pointer") | Some inode => nret inode end
     else nret inode) in
  let newRoot := u64 (i2_ExtentRoot inode + 1) in
  let lastPage := i2_ExtentPageCount inode in
  do* (newPage, created) :=
    page_AppendExtent e 1 id (i2_ExtentRoot inode) (if lastPage =? 0 then 0 else lastPage - 1) ref in
  let next := with_layout (i2_Layout inode) (i2_InlineExtent inode) newRoot
                (if created : bool then u32 (i2_ExtentPageCount inode + 1) else i2_ExtentPageCount inode)
                (u64 (i2_ExtentRootVersion inode + 1)) (i64 (i2_Size inode + extentSize))
                (xe_clock e 1) (xe_clock e 0) inode in
  do* _ := putWithBucketStats e 1 next (i2_Size inode) in
  nret newRoot.

(** The references of a page; a nil extent is dereferenced. *)
Fixpoint page_refs (writes : list ExtentWrite) : mgo (list ExtentRef) :=
  match writes with
  | [] => Ok []
  | w :: writes =>
      match xw_Extent w with
      | None => Err (MErrorf "nil pointer")
      | Some x => let! refs := page_refs writes in Ok (mkExtentRef (ex_ID x) (xw_Offset w) :: refs)
      end
  end.

(** The page loop of [ReplaceExtents]: [writes] is the part of the set from
    page [p] on. *)
Fixpoint write_pages (e : x_env) (id newRoot p : Z) (n : nat) (writes : list ExtentWrite) : N DB unit :=
  match n with
  | O => nret tt
  | S n =>
      do* refs := nlift (page_refs (take (Z.to_nat MaxExtentsPerPage) writes)) in
      do* _ := writePage e (Z.to_nat p) (mkExtentPage id p refs) newRoot in
      write_pages e id newRoot (p + 1) n (drop (Z.to_nat MaxExtentsPerPage) writes)
  end.

(** [InodeStoreV2.ReplaceExtents] *)
Definition inode2_ReplaceExtents (e : x_env) (id : Z) (writes : list ExtentWrite) (size : Z) : N DB unit :=
  do* inode := get_inode2 id in
  let newRoot := u64 (i2_ExtentRoot inode + 1) in
  let pageCount := u32 ((len writes + MaxExtentsPerPage - 1) / MaxExtentsPerPage) in
  do* _ := write_pages e id newRoot 0 (Z.to_nat pageCount) writes in
  let now := xe_clock e 0 in
  let next := with_layout LayoutExtentPages None newRoot pageCount (u64 (i2_ExtentRootVersion inode + 1))
                size now now inode in
  do* _ := putWithBucketStats e 0 next (i2_Size inode) in
  drop_root e id (i2_ExtentRoot inode) (i2_ExtentPageCount inode).

(** [InodeStoreV2.ResolveExtents] *)
Definition inode2_ResolveExtents (db : DB) (id : Z) : mgo (list ExtentRef) :=
  let! found := inode2_Get db id in
  match found with
  | None => Err ErrInodeNotFound
  | Some inode =>
      if i2_Layout inode =? LayoutEmpty then Ok []
      else if i2_Layout inode =? LayoutInlineExtent then
        match i2_InlineExtent inode with
        | Some x => Ok [mkExtentRef (ex_ID x) 0]
        | None => Err (MErrorf "nil pointer")
        end
      else if i2_Layout inode =? LayoutExtentPages then page_ResolveExtents db inode
      else Err (MErrorf "metadata: unknown layout")
  end.

(** ** Serving ([inode_v2_serving.go]) *)

(** [putExtentMeta], the call's [k]-th *)
Definition putExtentMeta (e : x_env) (k : nat) (ext : ExtentMetaV2) : N DB unit :=
  applyBatchViaRaft (xe_meta e k) [set_op (extentMetaKey (ex_ID ext)) ext].

(** [PebbleStore.ResolveExtents] *)
Definition ResolveExtents (id : Z) : N DB (list ExtentRef) :=
  do* _ := enter_ns in
  do* s := nget in
  nlift (inode2_ResolveExtents (ns_db s) id).

(** [GetExtentMeta] *)
Definition GetExtentMeta (extentID : Z) : N DB ExtentMetaV2 :=
  do* _ := enter_ns in
  do* s := nget in
  do* found := nlift (@getValue _ _ _ CX (ns_db s) (extentMetaKey extentID)) in
  match found with None => nerr ErrExtentNotFound | Some m => nret m end.

(** [MarkExtentDegraded] *)
Definition MarkExtentDegraded (e : x_env) (extentID : Z) : N DB unit :=
  do* _ := enter_ns in
  do* s := nget in
  do* found := nlift (@getValue _ _ _ CX (ns_db s) (extentMetaKey extentID)) in
  match found with
  | None => nret tt
  | Some m =>
      if negb (ex_Lifecycle m =? LifecycleReady) then nret tt else
      putExtentMeta e 0
        (mkExtentMetaV2 (ex_ID m) (ex_Generation m) (ex_LogicalLen m) (ex_Checksum m) (ex_PGID m)
           (ex_PlacementEpoch m) LifecycleReadyDegraded (ex_StorageClass m) (ex_ECStripeID m)
           (ex_CreatedAt m))
  end.

(** [s.inCache.del(id)] *)
Definition forget_cached (id : Z) : N DB unit :=
  nmodify (fun s => set_cache (delete id (ns_inCache s)) s).

(** [PebbleStore.SetInlineExtent]; a nil extent is [None]. *)
Definition SetInlineExtent (e : x_env) (id : Z) (extent : option ExtentMetaV2) (size : Z) : N DB unit :=
  do* _ := enter_ns in
  match extent with
  | None => nerr ErrInvalidArgument
  | Some extent =>
      do* _ := putExtentMeta e 0 extent in
      do* _ := inode2_SetInlineExtent e id extent size in
      forget_cached id
  end.

(** [PebbleStore.PromoteToPages] *)
Definition PromoteToPages (e : x_env) (id : Z) : N DB unit :=
  do* _ := enter_ns in
  do* _ := inode2_PromoteToPages e id in
  forget_cached id.

(** [PebbleStore.AppendExtent] *)
Definition AppendExtent (e : x_env) (id : Z) (extent : option ExtentMetaV2) (offset : Z) : N DB Z :=
  do* _ := enter_ns in
  match extent with
  | None => nerr ErrInvalidArgument
  | Some extent =>
      do* _ := putExtentMeta e 0 extent in
      do* root := inode2_AppendExtent e id (mkExtentRef (ex_ID extent) offset) (ex_LogicalLen extent) in
      do* _ := forget_cached id in
      nret root
  end.

Fixpoint put_metas (e : x_env) (k : nat) (writes : list ExtentWrite) : N DB unit :=
  match writes with
  | [] => nret tt
  | w :: writes =>
      match xw_Extent w with
      | None => nerr ErrInvalidArgument
      | Some x => do* _ := putExtentMeta e k x in put_metas e (S k) writes
      end
  end.

(** [PebbleStore.ReplaceExtents] *)
Definition ReplaceExtents (e : x_env) (id : Z) (writes : list ExtentWrite) (size : Z) : N DB unit :=
  do* _ := enter_ns in
  do* _ := put_metas e 0 writes in
  do* _ := inode2_ReplaceExtents e id writes size in
  forget_cached id.

(** The loop of [ResolveFileChunks] over the extents. *)
Fixpoint chunks_of_extents (refs : list ExtentRef) : N DB (list ChunkRef) :=
  match refs with
  | [] => nret []
  | ref :: refs =>
      do* meta := GetExtentMeta (xr_ExtentID ref) in
      do* rest := chunks_of_extents refs in
      nret (mkChunkRef (xr_ExtentID ref) (xr_LogicalOffset ref) (i32 (ex_LogicalLen meta)) 0 :: rest)
  end.

(** [ResolveFileChunks]; [es] says whether the service has the extent
    surface, which here is the store. *)
Definition ResolveFileChunks (es : bool) (inode : InodeMeta) : N DB (list ChunkRef) :=
  if 0 <? len (im_ChunkMap inode) then nret (im_ChunkMap inode) else
  if negb es then nret [] else
  do* refs := ResolveExtents (im_ID inode) in
  chunks_of_extents refs.

(** [extentForRef] *)
Definition extentForRef (ref : ChunkRef) (class : Z) (ecStripe : list Z) : ExtentMetaV2 :=
  mkExtentMetaV2 (cr_ID ref) 1 (cr_Length ref) 0 0 0 LifecycleReady class ecStripe 0.

(** [GetChunk] *)
Definition GetChunk (chunkID : Z) : N DB ChunkMeta :=
  do* _ := enter_ns in
  do* s := nget in
  do* found := nlift (@getValue _ _ _ CK (ns_db s) (chunkMetadataKey chunkID)) in
  match found with None => nerr ErrChunkNotFound | Some c => nret c end.

(** [ecClassForRef] *)
Definition ecClassForRef (ref : ChunkRef) : N DB (Z * list Z) :=
  fun s =>
    match GetChunk (cr_ID ref) s with
    | (s, Ok ch) =>
        match ck_ECGroup ch with
        | None => (s, Ok (StorageClassHotReplica, []))
        | Some g =>
            (s, Ok (StorageClassColdEC,
                    if len (ck_ECStripeID ch) =? 0 then eg_GroupID g else ck_ECStripeID ch))
        end
    | (s, Err _) => (s, Ok (StorageClassHotReplica, []))
    end.

(** The writes [CommitChunkRefsModelAware] passes to [ReplaceExtents]. *)
Fixpoint extent_writes (refs : list ChunkRef) : N DB (list ExtentWrite) :=
  match refs with
  | [] => nret []
  | ref :: refs =>
      do* (class, stripe) := ecClassForRef ref in
      do* rest := extent_writes refs in
      nret (mkExtentWrite (Some (extentForRef ref class stripe)) (cr_Offset ref) :: rest)
  end.

(** [CommitChunkRefsModelAware]; [es] as in [ResolveFileChunks]. *)
Definition CommitChunkRefsModelAware (en : ns_env) (e : x_env) (es : bool) (inode : InodeMeta)
    (newChunkRefs : list ChunkRef) (size : Z) : N DB unit :=
  let v1 :=
    UpdateInode useBucketStats en
      (mkInodeMeta (im_ID inode) (im_Type inode) size (im_NLink inode) (im_BucketRoot inode) (im_UID inode)
         (im_GID inode) (im_Mode inode) (im_CTime inode) (xe_clock e 0) (im_ATime inode) (im_Rdev inode)
         newChunkRefs (im_Symlink inode) (im_XAttrs inode)) in
  if negb es then v1 else
  do* isV2 :=
    (if negb (len (im_ChunkMap inode) =? 0) then nret false else
     do* refs := ResolveExtents (im_ID inode) in nret (0 <? len refs)) in
  if isV2 || (0 <? len newChunkRefs) then
    match newChunkRefs with
    | [ref] =>
        if size <=? MaxInlineExtentSize then
          do* (class, stripe) := ecClassForRef ref in
          SetInlineExtent e (im_ID inode) (Some (extentForRef ref class stripe)) size
        else
          do* writes := extent_writes newChunkRefs in
          ReplaceExtents e (im_ID inode) writes size
    | _ =>
        do* writes := extent_writes newChunkRefs in
        ReplaceExtents e (im_ID inode) writes size
    end
  else v1.
End Extents.
