(* ===== verification/ChunkRules.v ===== *)
(** * Chunk tombstones, the backup catalogue, and their batch rules

    Models the rows of [nufs-core/metadata/chunk_tombstone.go] and the
    catalogue rows of [backup_catalog.go] it reads, and the row-level checks
    a conditional batch of versions 3 and 4 must pass: creating and purging a
    tombstone, allocating chunks, updating a chunk. They are the chunk fields
    of [version_rules]; the two backup rules are in [Backups.v].

    A [time.Time] is its instant in nanoseconds since Go's zero time, so
    [IsZero] is [= 0]; locations are not part of it, and every time here has
    been normalised to UTC. A nil slice is the empty one. Error texts are
    abbreviated; wrapping ([%w]) keeps the wrapped error. *)

From stdpp Require Import base list sorting numbers strings gmap.
From Stdlib Require Import ZArith Lia.
From S2P Require Import Prelude Bytes Pebble MetaKeys MetaScan MetaTypes RaftLog MetaFSM Namespace Extents.

Local Open Scope Z_scope.
Local Open Scope go_scope.

(** ** Tombstones *)

Definition hour : Z := 3600 * 1000000000.
Definition chunkTombstoneQuarantine : Z := 25 * hour.
Definition chunkCatalogMaxAge : Z := 2 * hour.

Record ChunkTombstone := mkChunkTombstone {
  ct_ChunkID : Z; ct_Replicas : list ReplicaInfo; ct_Size : Z; ct_Reason : list Z;
  ct_DeletedAt : Z; ct_DeleteAfter : Z
}.

#[export] Instance ChunkTombstone_eq_dec : EqDecision ChunkTombstone.
Proof. solve_decision. Defined.

Definition ascii_space (c : Z) : bool := ((9 <=? c) && (c <=? 13)) || (c =? 32).

(** [strings.TrimSpace(s) == ""]: only white space, the Unicode kind in its
    UTF-8 form included. *)
Fixpoint blank (s : list Z) : bool :=
  match s with
  | [] => true
  | c :: rest =>
      if ascii_space c then blank rest else
      match c, rest with
      | 194, d :: rest => ((d =? 133) || (d =? 160)) && blank rest
      | 225, 154 :: 128 :: rest => blank rest
      | 226, 128 :: d :: rest =>
          (((128 <=? d) && (d <=? 138)) || (d =? 168) || (d =? 169) || (d =? 175)) && blank rest
      | 226, 129 :: 159 :: rest => blank rest
      | 227, 128 :: 128 :: rest => blank rest
      | _, _ => false
      end
  end.

(** [normalizeChunkTombstone] *)
Definition normalizeChunkTombstone (t : ChunkTombstone) : mgo ChunkTombstone :=
  refuse ct_ChunkID t =? 0 with MErrorf "chunk ID is required" in
  refuse ct_Size t <? 0 with MErrorf "size cannot be negative" in
  refuse blank (ct_Reason t) with MErrorf "reason is required" in
  refuse (ct_DeletedAt t =? 0) || (ct_DeleteAfter t =? 0) with MErrorf "deletion times are required" in
  refuse negb (ct_DeleteAfter t =? ct_DeletedAt t + chunkTombstoneQuarantine)
    with MErrorf "delete-after must be exactly 25h after deletion" in
  Ok t.

(** ** The backup catalogue ([backup_catalog.go]) *)

Record CommittedBackup := mkCommittedBackup {
  bk_ID : list Z; bk_SourceClusterID : list Z; bk_CreatedAt : Z; bk_RaftTerm : Z;
  bk_AppliedIndex : Z; bk_TotalBytes : Z
}.

#[export] Instance CommittedBackup_eq_dec : EqDecision CommittedBackup.
Proof. solve_decision. Defined.

Record BackupCatalogState := mkBackupCatalogState {
  bc_Backups : list CommittedBackup; bc_ReconciledAt : Z
}.

#[export] Instance BackupCatalogState_eq_dec : EqDecision BackupCatalogState.
Proof. solve_decision. Defined.

Definition letter (c : Z) : bool := ((97 <=? c) && (c <=? 122)) || ((65 <=? c) && (c <=? 90)).
Definition alphanumeric (c : Z) : bool := letter c || ((48 <=? c) && (c <=? 57)).

(** [validateOpaqueID] *)
Definition validateOpaqueID (id : list Z) : mgo unit :=
  refuse len id =? 0 with MErrorf "id is required" in
  refuse 255 <? len id with MErrorf "id exceeds 255 bytes" in
  refuse negb (forallb alphanumeric (take 1 id)) with MErrorf "id must start with an ASCII letter or digit" in
  refuse negb (forallb (fun c => alphanumeric c || (c =? 45) || (c =? 95) || (c =? 46) || (c =? 58)) id)
    with MErrorf "id contains unsafe byte" in
  Ok tt.

(** [isWindowsVolumePath] *)
Definition isWindowsVolumePath (id : list Z) : bool :=
  match id with a :: 58 :: _ => letter a | _ => false end.

(** [validateBackupID]; without a slash [filepath.Clean] changes nothing but
    the empty path, and no Unix path has a volume name. *)
Definition validateBackupID (id : list Z) : mgo unit :=
  refuse (len id =? 0) || bool_decide (id = str ".") || bool_decide (id = str "..")
         || existsb (fun c => (c =? 47) || (c =? 92) || (c =? 0)) id || isWindowsVolumePath id
    with MErrorf "backup repository: invalid backup ID" in
  Ok tt.

(** [validateCatalogBackupID] *)
Definition validateCatalogBackupID (id : list Z) : mgo unit :=
  let! _ := validateBackupID id in validateOpaqueID id.

(** [normalizeCommittedBackup] *)
Definition normalizeCommittedBackup (b : CommittedBackup) : mgo CommittedBackup :=
  let! _ := validateCatalogBackupID (bk_ID b) in
  let! _ := validateOpaqueID (bk_SourceClusterID b) in
  refuse bk_CreatedAt b =? 0 with MErrorf "committed backup: creation time is required" in
  refuse bk_RaftTerm b =? 0 with MErrorf "committed backup: Raft term must be non-zero" in
  refuse bk_AppliedIndex b =? 0 with MErrorf "committed backup: applied index must be non-zero" in
  refuse bk_TotalBytes b <? 0 with MErrorf "committed backup: total bytes cannot be negative" in
  Ok b.

(** The order of the catalogue: newest first, then by id. *)
Definition backup_le (a b : CommittedBackup) : Prop :=
  bk_CreatedAt b < bk_CreatedAt a \/ bk_CreatedAt a = bk_CreatedAt b /\ bytes_le (bk_ID a) (bk_ID b).

#[global] Instance backup_le_dec a b : Decision (backup_le a b).
Proof. unfold backup_le. apply _. Defined.

Fixpoint normalize_backups (seen : list (list Z)) (backups : list CommittedBackup) : mgo unit :=
  match backups with
  | [] => Ok tt
  | b :: backups =>
      let! entry := normalizeCommittedBackup b in
      refuse bool_decide (bk_ID entry ∈ seen) with MErrorf "backup catalog: duplicate backup ID" in
      normalize_backups (bk_ID entry :: seen) backups
  end.

(** [normalizeBackupCatalog]; the ids are distinct, so the order decides the
    sorted list. *)
Definition normalizeBackupCatalog (backups : list CommittedBackup) (reconciledAt : Z) :
    mgo BackupCatalogState :=
  refuse reconciledAt =? 0 with MErrorf "backup catalog: reconciliation time is required" in
  let! _ := normalize_backups [] backups in
  Ok (mkBackupCatalogState (merge_sort backup_le backups) reconciledAt).

(** ** Rules *)

Section Rules.
Context `{CI : Codec InodeMeta} `{CK : Codec ChunkMeta} `{CT : Codec ChunkTombstone}.
Context `{CB : Codec BackupCatalogState}.

(** [decodeChunkTombstone] *)
Definition decodeChunkTombstone (raw : list Z) : mgo ChunkTombstone :=
  let! t := @unmarshalValue _ CT raw in normalizeChunkTombstone t.

Definition zero_pre : ConditionalPrecondition := mkPrecondition [] [] false.

(** The precondition loop of the legacy and fenced checks: epoch, chunk and
    tombstone preconditions, the last of each kind. [fenced] allows the epoch
    key, [catalog] the catalogue key. *)
Fixpoint sort_preconditions (fenced catalog : bool) (ep ck ts : ConditionalPrecondition)
    (ps : list ConditionalPrecondition) :
    mgo (ConditionalPrecondition * ConditionalPrecondition * ConditionalPrecondition) :=
  match ps with
  | [] => Ok (ep, ck, ts)
  | p :: ps =>
      let key := cp_Key p in
      if fenced && bool_decide (key = keyInodeReferenceEpoch)
      then sort_preconditions fenced catalog p ck ts ps
      else if catalog && bool_decide (key = keyBackupCatalog)
      then sort_preconditions fenced catalog ep ck ts ps
      else if HasPrefix key prefixChunk then sort_preconditions fenced catalog ep p ts ps
      else if HasPrefix key prefixChunkTombstone then sort_preconditions fenced catalog ep ck p ps
      else Err (MErrorf "chunk tombstone conditional batch targets an invalid key")
  end.

(** What the two precondition checks do with the sorted preconditions. *)
Definition check_pair (create : bool) (ck ts : ConditionalPrecondition) : mgo Z :=
  match parseChunkTombstoneKey (cp_Key ck) prefixChunk with
  | None => Err (MErrorf "invalid chunk tombstone key")
  | Some chunkID =>
      refuse negb (bool_decide (parseChunkTombstoneKey (cp_Key ts) prefixChunkTombstone = Some chunkID))
        with MErrorf "chunk tombstone conditional keys do not identify one chunk" in
      refuse cp_ExpectAbsent ck || (len (cp_ExpectedValue ck) =? 0)
        with MErrorf "chunk tombstone conditional must compare the current chunk" in
      refuse (if create then negb (cp_ExpectAbsent ts)
              else cp_ExpectAbsent ts || (len (cp_ExpectedValue ts) =? 0))
        with MErrorf "chunk tombstone precondition has the wrong kind" in
      Ok chunkID
  end.

(** [validateLegacyChunkTombstonePreconditions] *)
Definition validateLegacyChunkTombstonePreconditions (ps : list ConditionalPrecondition) (create : bool) :
    mgo (ConditionalPrecondition * ConditionalPrecondition * Z) :=
  let! (_, ck, ts) := sort_preconditions false false zero_pre zero_pre zero_pre ps in
  let! chunkID := check_pair create ck ts in
  Ok (ck, ts, chunkID).

(** [validateChunkTombstonePreconditions] *)
Definition validateChunkTombstonePreconditions (ps : list ConditionalPrecondition) (create : bool) :
    mgo (ConditionalPrecondition * ConditionalPrecondition * ConditionalPrecondition * Z) :=
  let! (ep, ck, ts) := sort_preconditions true (negb create) zero_pre zero_pre zero_pre ps in
  let! chunkID := check_pair create ck ts in
  Ok (ep, ck, ts, chunkID).

(** [validateInodeReferenceEpochConditional]: the check is gone. *)
Definition validateInodeReferenceEpochConditional (ep : ConditionalPrecondition) : mgo unit := Ok tt.

(** The shared part of the create checks: the tombstone snapshots its chunk. *)
Definition check_create (ck ts : ConditionalPrecondition) (chunkID : Z) (m : BatchOp) : mgo unit :=
  refuse bo_Delete m || negb (bool_decide (bo_Key m = cp_Key ts))
    with MErrorf "chunk tombstone create must set the tombstone key" in
  match @unmarshalValue _ CK (cp_ExpectedValue ck) with
  | Err _ => Err (MErrorf "chunk tombstone create has an invalid chunk precondition")
  | Ok chunk =>
      refuse negb (ck_ID chunk =? chunkID) || (ck_Size chunk <? 0)
        with MErrorf "chunk tombstone create has an invalid chunk precondition" in
      let! t := decodeChunkTombstone (bo_Value m) in
      refuse negb (ct_ChunkID t =? chunkID) || negb (ct_Size t =? ck_Size chunk)
             || negb (bool_decide (ct_Replicas t = ck_Replicas chunk))
        with MErrorf "chunk tombstone create does not snapshot its chunk" in
      refuse negb (bool_decide (marshalValue t = bo_Value m))
        with MErrorf "chunk tombstone create value is not canonical" in
      Ok tt
  end.

(** The shared part of the purge checks: exactly the pair is deleted. *)
Definition check_purge (ck ts : ConditionalPrecondition) (chunkID : Z) (ms : list BatchOp) : mgo unit :=
  match ms with
  | [m0; m1] =>
      refuse negb (bo_Delete m0) || negb (bo_Delete m1) || negb (bool_decide (bo_Key m0 = cp_Key ck))
             || negb (bool_decide (bo_Key m1 = cp_Key ts))
        with MErrorf "chunk tombstone purge must delete the exact chunk/tombstone pair" in
      match @unmarshalValue _ CK (cp_ExpectedValue ck) with
      | Err _ => Err (MErrorf "chunk tombstone purge has an invalid chunk precondition")
      | Ok chunk =>
          refuse negb (ck_ID chunk =? chunkID)
            with MErrorf "chunk tombstone purge has an invalid chunk precondition" in
          match decodeChunkTombstone (cp_ExpectedValue ts) with
          | Err _ => Err (MErrorf "chunk tombstone purge has an invalid tombstone precondition")
          | Ok t =>
              refuse negb (ct_ChunkID t =? chunkID)
                with MErrorf "chunk tombstone purge has an invalid tombstone precondition" in
              Ok tt
          end
      end
  | _ => Err (MErrorf "index out of range")
  end.

(** [validateLegacyChunkTombstoneCreateBatch] *)
Definition validateLegacyChunkTombstoneCreateBatch (b : ConditionalBatch) : mgo unit :=
  let! (ck, ts, chunkID) := validateLegacyChunkTombstonePreconditions (cb_Preconditions b) true in
  match cb_Mutations b with
  | m :: _ => check_create ck ts chunkID m
  | [] => Err (MErrorf "index out of range")
  end.

(** [validateLegacyChunkTombstonePurgeBatch] *)
Definition validateLegacyChunkTombstonePurgeBatch (b : ConditionalBatch) : mgo unit :=
  let! (ck, ts, chunkID) := validateLegacyChunkTombstonePreconditions (cb_Preconditions b) false in
  check_purge ck ts chunkID (cb_Mutations b).

(** [validateChunkTombstoneFencedCreateBatch] *)
Definition validateChunkTombstoneFencedCreateBatch (b : ConditionalBatch) : mgo unit :=
  let! (ep, ck, ts, chunkID) := validateChunkTombstonePreconditions (cb_Preconditions b) true in
  let! _ := validateInodeReferenceEpochConditional ep in
  match cb_Mutations b with
  | m :: _ => check_create ck ts chunkID m
  | [] => Err (MErrorf "index out of range")
  end.

(** [conditionalPreconditionForKey] *)
Definition conditionalPreconditionForKey (ps : list ConditionalPrecondition) (key : list Z) :
    option ConditionalPrecondition :=
  find (fun p => bool_decide (cp_Key p = key)) ps.

(** The catalogue row must be its own canonical form. *)
Definition check_catalog (raw : list Z) : mgo BackupCatalogState :=
  let! catalog := @unmarshalValue _ CB raw in
  let! normalized := normalizeBackupCatalog (bc_Backups catalog) (bc_ReconciledAt catalog) in
  refuse negb (bool_decide (marshalValue normalized = raw)) with MErrorf "backup catalog is not canonical" in
  Ok normalized.

(** [validateChunkTombstoneFencedPurgeBatch] *)
Definition validateChunkTombstoneFencedPurgeBatch (b : ConditionalBatch) : mgo unit :=
  let! (ep, ck, ts, chunkID) := validateChunkTombstonePreconditions (cb_Preconditions b) false in
  let! _ := validateInodeReferenceEpochConditional ep in
  match conditionalPreconditionForKey (cb_Preconditions b) keyBackupCatalog with
  | None => Err (MErrorf "chunk tombstone purge must compare the canonical backup catalog")
  | Some p =>
      refuse cp_ExpectAbsent p || (len (cp_ExpectedValue p) =? 0)
        with MErrorf "chunk tombstone purge must compare the canonical backup catalog" in
      let! _ := check_catalog (cp_ExpectedValue p) in
      check_purge ck ts chunkID (cb_Mutations b)
  end.

(** The precondition loop of [validateChunkMetadataUpdateBatch]. *)
Definition update_preconditions (ps : list ConditionalPrecondition) :
    mgo (ConditionalPrecondition * ConditionalPrecondition * ConditionalPrecondition) :=
  sort_preconditions false false zero_pre zero_pre zero_pre ps.

(** [validateChunkMetadataUpdateBatch] *)
Definition validateChunkMetadataUpdateBatch (b : ConditionalBatch) : mgo unit :=
  let! (_, ck, ts) := update_preconditions (cb_Preconditions b) in
  match parseChunkTombstoneKey (cp_Key ck) prefixChunk, cb_Mutations b with
  | Some chunkID, m :: _ =>
      refuse cp_ExpectAbsent ck || (len (cp_ExpectedValue ck) =? 0)
        with MErrorf "chunk metadata update must compare the current chunk" in
      refuse negb (bool_decide (parseChunkTombstoneKey (cp_Key ts) prefixChunkTombstone = Some chunkID))
             || negb (cp_ExpectAbsent ts)
        with MErrorf "chunk metadata update must require its tombstone absence" in
      refuse bo_Delete m || negb (bool_decide (bo_Key m = cp_Key ck))
        with MErrorf "chunk metadata update must replace its exact chunk key" in
      match @unmarshalValue _ CK (cp_ExpectedValue ck), @unmarshalValue _ CK (bo_Value m) with
      | Ok expected, Ok updated =>
          refuse negb (ck_ID expected =? chunkID) || negb (ck_ID updated =? chunkID)
            with MErrorf "chunk metadata update has an invalid chunk" in
          Ok tt
      | _, _ => Err (MErrorf "chunk metadata update has an invalid chunk")
      end
  | _, _ => Err (MErrorf "chunk metadata update must compare the current chunk")
  end.

(** ** Allocation *)

(** What the precondition loop of [validateChunkAllocationBatch] collects. *)
Record alloc_scan := mkAllocScan {
  as_inode : option ConditionalPrecondition; as_epoch : bool; as_chunks : gset Z; as_tombstones : gset Z
}.

Definition validChunkMetadataKey (key : list Z) : bool :=
  match parseChunkTombstoneKey key prefixChunk with Some _ => true | None => false end.

Fixpoint scan_alloc (st : alloc_scan) (ps : list ConditionalPrecondition) : mgo alloc_scan :=
  match ps with
  | [] => Ok st
  | p :: ps =>
      let key := cp_Key p in
      if validInodeMetadataKey key then
        refuse match as_inode st with Some _ => true | None => false end || cp_ExpectAbsent p
               || (len (cp_ExpectedValue p) =? 0)
          with MErrorf "chunk allocation must compare one exact inode" in
        scan_alloc (mkAllocScan (Some p) (as_epoch st) (as_chunks st) (as_tombstones st)) ps
      else if bool_decide (key = keyInodeReferenceEpoch) then
        refuse as_epoch st with MErrorf "chunk allocation has duplicate inode reference epoch" in
        scan_alloc (mkAllocScan (as_inode st) true (as_chunks st) (as_tombstones st)) ps
      else match parseChunkTombstoneKey key prefixChunk with
      | Some id =>
          refuse negb (cp_ExpectAbsent p) with MErrorf "chunk allocation must require chunk absence" in
          refuse bool_decide (id ∈ as_chunks st) with MErrorf "chunk allocation has duplicate chunk key" in
          scan_alloc (mkAllocScan (as_inode st) (as_epoch st) ({[id]} ∪ as_chunks st) (as_tombstones st)) ps
      | None =>
          if HasPrefix key prefixChunkTombstone then
            match parseChunkTombstoneKey key prefixChunkTombstone with
            | Some id =>
                refuse negb (cp_ExpectAbsent p)
                  with MErrorf "chunk allocation must require tombstone absence" in
                refuse bool_decide (id ∈ as_tombstones st)
                  with MErrorf "chunk allocation has duplicate tombstone key" in
                scan_alloc (mkAllocScan (as_inode st) (as_epoch st) (as_chunks st)
                              ({[id]} ∪ as_tombstones st)) ps
            | None => Err (MErrorf "chunk allocation must require tombstone absence")
            end
          else Err (MErrorf "chunk allocation targets an invalid precondition key")
      end
  end.

(** The mutation loop: the chunks created, the next inode, the epoch. *)
Record alloc_muts := mkAllocMuts { am_chunks : gset Z; am_next : option InodeMeta; am_epoch : bool }.

Fixpoint scan_mutations (inode_key : list Z) (chunks : gset Z) (st : alloc_muts) (ms : list BatchOp) :
    mgo alloc_muts :=
  match ms with
  | [] => Ok st
  | m :: ms =>
      refuse bo_Delete m with MErrorf "chunk allocation cannot delete" in
      let key := bo_Key m in
      match parseChunkTombstoneKey key prefixChunk with
      | Some id =>
          refuse negb (bool_decide (id ∈ chunks)) with MErrorf "chunk allocation creates an unconditioned chunk" in
          refuse match @unmarshalValue _ CK (bo_Value m) with
                 | Ok chunk => negb (ck_ID chunk =? id) | Err _ => true end
            with MErrorf "chunk allocation has an invalid chunk mutation" in
          refuse bool_decide (id ∈ am_chunks st) with MErrorf "chunk allocation has duplicate chunk mutation" in
          scan_mutations inode_key chunks (mkAllocMuts ({[id]} ∪ am_chunks st) (am_next st) (am_epoch st)) ms
      | None =>
          if bool_decide (key = inode_key) then
            match am_next st, @unmarshalValue _ CI (bo_Value m) with
            | None, Ok next =>
                let! _ := validateInodeKeyIdentity key (im_ID next) in
                scan_mutations inode_key chunks (mkAllocMuts (am_chunks st) (Some next) (am_epoch st)) ms
            | _, _ => Err (MErrorf "chunk allocation has an invalid inode mutation")
            end
          else if bool_decide (key = keyInodeReferenceEpoch) then
            refuse am_epoch st with MErrorf "chunk allocation has duplicate inode reference epoch mutation" in
            scan_mutations inode_key chunks (mkAllocMuts (am_chunks st) (am_next st) true) ms
          else Err (MErrorf "chunk allocation has an invalid mutation key")
      end
  end.

(** [validateChunkAllocationBatch] *)
Definition validateChunkAllocationBatch (b : ConditionalBatch) : mgo unit :=
  refuse negb (len (cb_PrefixReplacements b) =? 0) || negb (cb_ExpectedRaftTerm b =? 0)
    with MErrorf "chunk allocation has an invalid envelope" in
  let! st := scan_alloc (mkAllocScan None false ∅ ∅) (cb_Preconditions b) in
  match as_inode st with
  | None => Err (MErrorf "chunk allocation has an incomplete precondition set")
  | Some ip =>
      let chunks := as_chunks st in
      refuse (size chunks =? 0)%nat || negb (size chunks =? size (as_tombstones st))%nat
        with MErrorf "chunk allocation has an incomplete precondition set" in
      refuse negb (bool_decide (chunks ⊆ as_tombstones st))
        with MErrorf "chunk allocation chunk/tombstone keys differ" in
      match @unmarshalValue _ CI (cp_ExpectedValue ip) with
      | Err _ => Err (MErrorf "chunk allocation has an invalid inode precondition")
      | Ok previous =>
          let! _ := validateInodeKeyIdentity (cp_Key ip) (im_ID previous) in
          let! ms := scan_mutations (cp_Key ip) chunks (mkAllocMuts ∅ None false) (cb_Mutations b) in
          match am_next ms with
          | None => Err (MErrorf "chunk allocation has an incomplete mutation set")
          | Some next =>
              refuse negb (size (am_chunks ms) =? size chunks)%nat
                with MErrorf "chunk allocation has an incomplete mutation set" in
              let added : gset Z := list_to_set (addedChunkReferences (Some previous) (Some next)) in
              refuse negb (size added =? size chunks)%nat
                     || (len (im_ChunkMap next) <? len (im_ChunkMap previous))
                with MErrorf "chunk allocation inode references do not match created chunks" in
              refuse negb (bool_decide (NoDup (map cr_ID (im_ChunkMap next))))
                with MErrorf "chunk allocation inode has duplicate chunk references" in
              refuse negb (bool_decide (chunks ⊆ added))
                with MErrorf "chunk allocation inode does not reference created chunk" in
              Ok tt
          end
      end
  end.

(** The rules of the source, the backup ones apart. *)
Definition chunk_rules (task catalog : ConditionalBatch -> mgo unit) : version_rules :=
  mkVersionRules task catalog validateLegacyChunkTombstoneCreateBatch validateLegacyChunkTombstonePurgeBatch
    validateChunkAllocationBatch validateChunkMetadataUpdateBatch
    validateChunkTombstoneFencedCreateBatch validateChunkTombstoneFencedPurgeBatch.
End Rules.
