(* ===== verification/ChunkGC.v ===== *)
(** * Chunk tombstones, purge and garbage collection

    Models the operations of [nufs-core/metadata/chunk_tombstone.go],
    [ChunkGC.Scan] of [production.go], the chunk-state updates and the chunk
    allocation of [pebble_store.go], and [GetBackupCatalogState].

    Other clients commit between the reads of a call and its own commit. A
    call therefore reads from a family [at : nat -> DB] of databases, its
    [n]-th read from [at n], and its conditional batch is applied to the
    database [now_db] of that moment, which it replaces. One inode scan, with
    the page reads inside it, sees one database. The clock readings are
    arguments, and a context is never cancelled. The model is the store
    without a Raft node, as in [Namespace.v]. *)

From stdpp Require Import base list sorting numbers strings gmap.
From Stdlib Require Import ZArith Lia.
From S2P Require Import Prelude Bytes Pebble MetaKeys MetaScan MetaTypes RaftLog MetaFSM Namespace Extents.
From S2P Require Import ChunkRules.

Local Open Scope Z_scope.
Local Open Scope go_scope.

(** The state of the store that the calls look at, and the fate of a commit. *)
Record gc_env := mkGcEnv {
  ge_closed : bool; ge_readOnly : bool; ge_hook : option merr; ge_fail : option merr
}.

Definition ChunkCreated : Z := 0.
Definition ChunkSealed : Z := 1.
Definition ChunkReady : Z := 2.
Definition ChunkDegraded : Z := 3.

Section GC.
Context {DB : Type} `{KV : PebbleKV DB}.
Context `{CI : Codec InodeMeta} `{C2 : Codec InodeMetaV2} `{CP : Codec ExtentPage}.
Context `{CK : Codec ChunkMeta} `{CT : Codec ChunkTombstone}.
Context `{CB : Codec BackupCatalogState} `{CC : Codec CommittedBackup}.
Context (rules : version_rules).

(** ** Reading *)

(** [checkChunkTombstoneCall] *)
Definition checkChunkTombstoneCall (g : gc_env) : mgo unit :=
  refuse ge_closed g with ErrServiceClosed in Ok tt.

(** [decodeInodeReferenceEpoch] *)
Definition decodeInodeReferenceEpoch (raw : option (list Z)) : mgo Z :=
  match raw with
  | None => Ok 0
  | Some v => refuse negb (len v =? 8) with MErrorf "inode reference epoch is malformed" in Ok (be_dec v)
  end.

(** [readInodeReferenceEpochRaw] *)
Definition readInodeReferenceEpochRaw (db : DB) : mgo (option (list Z)) :=
  let value := kv_get db keyInodeReferenceEpoch in
  let! _ := decodeInodeReferenceEpoch value in
  Ok value.

(** [inodeReferenceEpochPrecondition] *)
Definition inodeReferenceEpochPrecondition (raw : option (list Z)) : ConditionalPrecondition :=
  match raw with
  | Some v => mkPrecondition keyInodeReferenceEpoch v false
  | None => mkPrecondition keyInodeReferenceEpoch [] true
  end.

Record inodeReferenceSnapshot := mkSnapshot { sn_epoch : option (list Z); sn_references : list Z }.

(** [contains] *)
Definition contains (sn : inodeReferenceSnapshot) (chunkID : Z) : bool :=
  bool_decide (chunkID ∈ sn_references sn).

(** The chunks one inode row refers to: the callback of the inode scan. *)
Definition inode_references (db : DB) (key value : list Z) : mgo (list Z) :=
  let v1 :=
    let! meta := @decodeReferencedInode CI key (Some value) in
    Ok (match meta with Some m => map cr_ID (im_ChunkMap m) | None => [] end) in
  match @unmarshalValue _ C2 value with
  | Err _ => v1
  | Ok v2 =>
      if i2_Layout v2 =? LayoutEmpty then v1 else
      let! _ := validateInodeKeyIdentity key (i2_ID v2) in
      if i2_Layout v2 =? LayoutInlineExtent
      then Ok (match i2_InlineExtent v2 with Some x => [ex_ID x] | None => [] end)
      else if i2_Layout v2 =? LayoutExtentPages
      then let! refs := page_ResolveExtents db v2 in Ok (map xr_ExtentID refs)
      else Err (MErrorf "inode reference scan: unknown V2 layout")
  end.

Fixpoint collect_references (db : DB) (rows : list row) : mgo (list Z) :=
  match rows with
  | [] => Ok []
  | (key, value) :: rows =>
      let! refs := inode_references db key value in
      let! rest := collect_references db rows in
      Ok (refs ++ rest)
  end.

Definition scan_references (db : DB) : mgo (list Z) :=
  collect_references db (kv_range db prefixInode (prefixUpperBound prefixInode)).

(** The attempts of [stableInodeReferenceSnapshot]; each reads the epoch,
    scans, and reads the epoch again. *)
Fixpoint snapshot_attempts (at_ : nat -> DB) (n attempts : nat) : mgo inodeReferenceSnapshot :=
  match attempts with
  | O => Err ErrBackupMetadataConflict
  | S attempts =>
      let! epochBefore := readInodeReferenceEpochRaw (at_ n) in
      let! references := scan_references (at_ (n + 1)%nat) in
      let! epochAfter := readInodeReferenceEpochRaw (at_ (n + 2)%nat) in
      if bool_decide (epochBefore = epochAfter) then Ok (mkSnapshot epochAfter references)
      else snapshot_attempts at_ (n + 3)%nat attempts
  end.

(** [stableInodeReferenceSnapshot] *)
Definition stableInodeReferenceSnapshot (g : gc_env) (at_ : nat -> DB) : mgo inodeReferenceSnapshot :=
  let! _ := checkChunkTombstoneCall g in
  snapshot_attempts at_ 0 3.

(** [validateDurableChunkTombstonePair] *)
Definition validateDurableChunkTombstonePair (chunkID : Z) (chunkRaw tombstoneRaw : option (list Z)) :
    mgo ChunkTombstone :=
  match chunkRaw, tombstoneRaw with
  | Some chunkRaw, Some tombstoneRaw =>
      let! chunk := @unmarshalValue _ CK chunkRaw in
      refuse negb (ck_ID chunk =? chunkID) || (ck_Size chunk <? 0)
        with MErrorf "chunk key and value identities differ" in
      let! t := decodeChunkTombstone tombstoneRaw in
      refuse negb (bool_decide (marshalValue t = tombstoneRaw)) with MErrorf "tombstone is not canonical" in
      refuse negb (ct_ChunkID t =? chunkID) || negb (ct_Size t =? ck_Size chunk)
             || negb (bool_decide (ct_Replicas t = ck_Replicas chunk))
        with MErrorf "tombstone does not match immutable chunk snapshot" in
      Ok t
  | _, _ => Err (MErrorf "durable chunk/tombstone pair is inconsistent")
  end.

(** ** Committing *)

(** [applyChunkTombstoneConditional] on the database of that moment *)
Definition applyChunkTombstoneConditional (g : gc_env) (db : DB) (b : ConditionalBatch) : mgo DB :=
  let! _ := checkChunkTombstoneCall g in
  refuse ge_readOnly g with ErrServiceClosed in
  match applyConditionalBatchWithHook rules (ge_hook g) (ge_fail g) db (Some b) with
  | Ok db => Ok db
  | Err e => Err (if bool_decide (e = ErrRaftConditionalConflict) then ErrBackupMetadataConflict else e)
  end.

Definition fenced (ps : list ConditionalPrecondition) (ms : list BatchOp) : ConditionalBatch :=
  mkConditionalBatch chunkTombstoneFencedBatchVersion 0 ps ms [].

(** ** Tombstones *)

(** [tombstoneChunkWithReferences]: the outcome and the database after it.
    Reads: chunk 0, tombstone 1, and 2 and 3 after a conflict. *)
Definition tombstoneChunkWithReferences (g : gc_env) (at_ : nat -> DB) (now : Z) (now_db : DB)
    (chunkID : Z) (reason : list Z) (references : inodeReferenceSnapshot) : mgo bool * DB :=
  if ge_closed g then (Err ErrServiceClosed, now_db) else
  if blank reason then (Err (MErrorf "chunk tombstone: reason is required"), now_db) else
  let chunkKey := chunkMetadataKey chunkID in
  let tombstoneKey := chunkTombstoneKey chunkID in
  match kv_get (at_ 0%nat) chunkKey, kv_get (at_ 1%nat) tombstoneKey with
  | chunkRaw, Some tombstoneRaw =>
      match validateDurableChunkTombstonePair chunkID chunkRaw (Some tombstoneRaw) with
      | Err e => (Err e, now_db)
      | Ok _ => (if contains references chunkID
                 then Err (MErrorf "chunk tombstone: durable tombstone is referenced") else Ok false, now_db)
      end
  | chunkRaw, None =>
      if contains references chunkID then (Ok false, now_db) else
      match chunkRaw with
      | None => (Ok false, now_db)
      | Some chunkRaw =>
          match @unmarshalValue _ CK chunkRaw with
          | Err e => (Err e, now_db)
          | Ok chunk =>
              if negb (ck_ID chunk =? chunkID)
              then (Err (MErrorf "chunk tombstone: chunk key and value identities differ"), now_db)
              else if ck_Size chunk <? 0
              then (Err (MErrorf "chunk tombstone: negative chunk size"), now_db)
              else
                let tombstone := mkChunkTombstone chunkID (ck_Replicas chunk) (ck_Size chunk) reason now
                                   (now + chunkTombstoneQuarantine) in
                let batch :=
                  fenced [inodeReferenceEpochPrecondition (sn_epoch references);
                          expect chunkKey chunkRaw; absent tombstoneKey]
                         [mkBatchOp false tombstoneKey (marshalValue tombstone)] in
                match applyChunkTombstoneConditional g now_db batch with
                | Ok db => (Ok true, db)
                | Err e =>
                    if negb (bool_decide (e = ErrBackupMetadataConflict)) then (Err e, now_db) else
                    match kv_get (at_ 2%nat) tombstoneKey with
                    | None => (Err ErrBackupMetadataConflict, now_db)
                    | Some latest =>
                        match validateDurableChunkTombstonePair chunkID (kv_get (at_ 3%nat) chunkKey)
                                (Some latest) with
                        | Err e => (Err e, now_db)
                        | Ok _ => (Ok false, now_db)
                        end
                    end
                end
          end
      end
  end.

(** [tombstoneChunk], behind [TombstoneChunk] and [DeleteChunk]: the snapshot
    reads [sn_at], then the tombstone reads [at_]. *)
Definition tombstoneChunk (g : gc_env) (sn_at at_ : nat -> DB) (now : Z) (now_db : DB) (chunkID : Z)
    (reason : list Z) : mgo bool * DB :=
  match stableInodeReferenceSnapshot g sn_at with
  | Err e => (Err e, now_db)
  | Ok references => tombstoneChunkWithReferences g at_ now now_db chunkID reason references
  end.

(** ** The backup catalogue *)

Fixpoint scan_catalog (indexed : gmap (list Z) CommittedBackup) (rows : list row) :
    mgo (gmap (list Z) CommittedBackup) :=
  match rows with
  | [] => Ok indexed
  | (key, value) :: rows =>
      let! entry := @unmarshalValue _ CC value in
      let! canonical := normalizeCommittedBackup entry in
      refuse negb (bool_decide (key = prefixBackupCatalog ++ bk_ID canonical))
        with MErrorf "entry has mismatched ID" in
      refuse bool_decide (is_Some (indexed !! bk_ID canonical)) with MErrorf "duplicate durable entry" in
      scan_catalog (<[bk_ID canonical := canonical]> indexed) rows
  end.

(** [GetBackupCatalogState]; no state is [None]. *)
Definition GetBackupCatalogState (g : gc_env) (db : DB) : mgo (option BackupCatalogState) :=
  refuse ge_closed g with ErrServiceClosed in
  let! state := @getValue _ _ _ CB db keyBackupCatalog in
  match state with
  | None => Ok None
  | Some state =>
      let! normalized := normalizeBackupCatalog (bc_Backups state) (bc_ReconciledAt state) in
      refuse negb (bool_decide (bc_Backups state = bc_Backups normalized))
             || negb (bc_ReconciledAt state =? bc_ReconciledAt normalized)
        with MErrorf "backup catalog: durable state is not canonical" in
      let! indexed := scan_catalog ∅ (kv_range db prefixBackupCatalog (prefixUpperBound prefixBackupCatalog)) in
      refuse negb (size indexed =? length (bc_Backups normalized))%nat
        with MErrorf "backup catalog: state/index entry count mismatch" in
      refuse negb (forallb (fun b => bool_decide (indexed !! bk_ID b = Some b)) (bc_Backups normalized))
        with MErrorf "backup catalog: state/index mismatch" in
      Ok (Some normalized)
  end.

(** ** Purging *)

(** [canPurgeWithCatalog] *)
Definition canPurgeWithCatalog (t : ChunkTombstone) (now : Z) (catalog : option BackupCatalogState) : mgo bool :=
  match catalog with
  | None => Err (MErrorf "chunk purge: retained backup catalog is unavailable or empty")
  | Some c =>
      refuse len (bc_Backups c) =? 0
        with MErrorf "chunk purge: retained backup catalog is unavailable or empty" in
      refuse bc_ReconciledAt c =? 0 with MErrorf "chunk purge: catalog reconciliation time is invalid" in
      refuse (now <? bc_ReconciledAt c) || (chunkCatalogMaxAge <? now - bc_ReconciledAt c)
        with MErrorf "chunk purge: catalog reconciliation is not fresh" in
      Ok (forallb (fun b => ct_DeletedAt t <? bk_CreatedAt b) (bc_Backups c))
  end.

(** [CanPurgeChunk] *)
Definition CanPurgeChunk (g : gc_env) (db : DB) (t : ChunkTombstone) (now : Z) : mgo bool :=
  let! _ := checkChunkTombstoneCall g in
  let! _ := normalizeChunkTombstone t in
  refuse now =? 0 with MErrorf "chunk purge: now must be a non-zero UTC time" in
  if now <? ct_DeleteAfter t then Ok false else
  let! catalog := GetBackupCatalogState g db in
  canPurgeWithCatalog t now catalog.

(** The attempts of [capturePurgeCatalog], each reading the row, the state and
    the row again. *)
Fixpoint capture_attempts (g : gc_env) (at_ : nat -> DB) (n attempts : nat) (t : ChunkTombstone) (now : Z) :
    mgo (list Z) :=
  match attempts with
  | O => Err ErrBackupMetadataConflict
  | S attempts =>
      match kv_get (at_ n) keyBackupCatalog with
      | None => Err (MErrorf "chunk purge: retained backup catalog is unavailable or empty")
      | Some raw =>
          let! _ := @check_catalog CB raw in
          let! catalog := GetBackupCatalogState g (at_ (n + 1)%nat) in
          let! eligible := canPurgeWithCatalog t now catalog in
          refuse negb eligible with ErrChunkPurgeIneligible in
          if bool_decide (kv_get (at_ (n + 2)%nat) keyBackupCatalog = Some raw) then Ok raw
          else capture_attempts g at_ (n + 3)%nat attempts t now
      end
  end.

(** [capturePurgeCatalog] *)
Definition capturePurgeCatalog (g : gc_env) (at_ : nat -> DB) (n : nat) (t : ChunkTombstone) (now : Z) :
    mgo (list Z) :=
  let! _ := normalizeChunkTombstone t in
  refuse now =? 0 with MErrorf "chunk purge: now must be a non-zero UTC time" in
  refuse now <? ct_DeleteAfter t with ErrChunkPurgeIneligible in
  capture_attempts g at_ n 3 t now.

(** [purgeChunkIfEligible]. Reads: chunk 0, tombstone 1, after a conflict 2
    and 3, the catalogue from 4 on. *)
Definition purgeChunkIfEligible (g : gc_env) (at_ : nat -> DB) (now_db : DB) (chunkID now : Z)
    (references : inodeReferenceSnapshot) : mgo unit * DB :=
  if contains references chunkID then (Err (MErrorf "chunk purge: chunk is referenced"), now_db) else
  let chunkKey := chunkMetadataKey chunkID in
  let tombstoneKey := chunkTombstoneKey chunkID in
  match kv_get (at_ 0%nat) chunkKey, kv_get (at_ 1%nat) tombstoneKey with
  | None, None => (Ok tt, now_db)
  | Some chunkRaw, Some tombstoneRaw =>
      match validateDurableChunkTombstonePair chunkID (Some chunkRaw) (Some tombstoneRaw) with
      | Err e => (Err e, now_db)
      | Ok t =>
          match capturePurgeCatalog g at_ 4 t now with
          | Err e => (Err e, now_db)
          | Ok catalogRaw =>
              let batch :=
                fenced [inodeReferenceEpochPrecondition (sn_epoch references);
                        expect keyBackupCatalog catalogRaw; expect chunkKey chunkRaw;
                        expect tombstoneKey tombstoneRaw]
                       [del_op chunkKey; del_op tombstoneKey] in
              match applyChunkTombstoneConditional g now_db batch with
              | Ok db => (Ok tt, db)
              | Err e =>
                  if negb (bool_decide (e = ErrBackupMetadataConflict)) then (Err e, now_db) else
                  match kv_get (at_ 2%nat) chunkKey, kv_get (at_ 3%nat) tombstoneKey with
                  | None, None => (Ok tt, now_db)
                  | latestChunk, latestTombstone =>
                      match validateDurableChunkTombstonePair chunkID latestChunk latestTombstone with
                      | Err e => (Err e, now_db)
                      | Ok _ => (Err ErrBackupMetadataConflict, now_db)
                      end
                  end
              end
          end
      end
  | _, _ => (Err (MErrorf "chunk purge: durable chunk/tombstone pair is inconsistent"), now_db)
  end.

(** [PurgeChunk] *)
Definition PurgeChunk (g : gc_env) (sn_at at_ : nat -> DB) (now_db : DB) (chunkID now : Z) : mgo unit * DB :=
  if ge_closed g then (Err ErrServiceClosed, now_db) else
  match stableInodeReferenceSnapshot g sn_at with
  | Err e => (Err e, now_db)
  | Ok references => purgeChunkIfEligible g at_ now_db chunkID now references
  end.

(** ** Scanning tombstones *)

(** One row of [scanChunkTombstones]; the retained chunk is read from [db]. *)
Definition scan_tombstone (db : DB) (key value : list Z) : mgo ChunkTombstone :=
  let! t := decodeChunkTombstone value in
  refuse negb (bool_decide (key = chunkTombstoneKey (ct_ChunkID t)))
    with MErrorf "chunk tombstone has mismatched chunk ID" in
  let! _ := validateDurableChunkTombstonePair (ct_ChunkID t) (kv_get db (chunkMetadataKey (ct_ChunkID t)))
              (Some value) in
  Ok t.

Fixpoint list_tombstones (db : DB) (limit : Z) (rows : list row) (acc : list ChunkTombstone) :
    mgo (list ChunkTombstone) :=
  match rows with
  | [] => Ok acc
  | (key, value) :: rows =>
      let! t := scan_tombstone db key value in
      if (0 <? limit) && (limit <=? len acc) then Ok acc
      else list_tombstones db limit rows (acc ++ [t])
  end.

(** [ListChunkTombstones] on one database *)
Definition ListChunkTombstones (g : gc_env) (db : DB) (limit : Z) : mgo (list ChunkTombstone) :=
  let! _ := checkChunkTombstoneCall g in
  list_tombstones db limit (kv_range db prefixChunkTombstone (prefixUpperBound prefixChunkTombstone)) [].

(** ** Updating a live chunk *)

(** [updateLiveChunkMetadata] *)
Definition updateLiveChunkMetadata (g : gc_env) (now_db : DB) (expectedRaw : list Z) (chunk : ChunkMeta) :
    mgo DB :=
  refuse ck_ID chunk =? 0 with ErrInvalidArgument in
  applyChunkTombstoneConditional g now_db
    (fenced [expect (chunkMetadataKey (ck_ID chunk)) expectedRaw; absent (chunkTombstoneKey (ck_ID chunk))]
            [mkBatchOp false (chunkMetadataKey (ck_ID chunk)) (marshalValue chunk)]).

Definition with_state (state checksum : Z) (c : ChunkMeta) : ChunkMeta :=
  mkChunkMeta (ck_ID c) (ck_Size c) state (ck_Replicas c) (ck_ECGroup c) (ck_Tier c) (ck_CreateTime c)
    checksum (ck_PGID c) (ck_Epoch c) (ck_Generation c) (ck_ECStripeID c).

(** A read of the chunk's row, then its update. *)
Definition update_chunk (g : gc_env) (read_db now_db : DB) (chunkID : Z)
    (f : ChunkMeta -> mgo (option ChunkMeta)) : mgo DB :=
  refuse ge_closed g with ErrServiceClosed in
  match kv_get read_db (chunkMetadataKey chunkID) with
  | None => Err ErrChunkNotFound
  | Some raw =>
      let! chunk := @unmarshalValue _ CK raw in
      let! next := f chunk in
      match next with
      | None => Ok now_db
      | Some chunk => updateLiveChunkMetadata g now_db raw chunk
      end
  end.

(** [CommitChunk] *)
Definition CommitChunk (g : gc_env) (read_db now_db : DB) (chunkID checksum : Z) : mgo DB :=
  update_chunk g read_db now_db chunkID (fun c =>
    refuse negb (ck_State c =? ChunkCreated) with ErrChunkAlreadySealed in
    Ok (Some (with_state ChunkSealed checksum c))).

(** [SealChunk] *)
Definition SealChunk (g : gc_env) (read_db now_db : DB) (chunkID : Z) : mgo DB :=
  update_chunk g read_db now_db chunkID (fun c =>
    if ck_State c =? ChunkReady then Ok None else
    refuse negb (ck_State c =? ChunkSealed) with ErrChunkNotSealed in
    Ok (Some (with_state ChunkReady (ck_Checksum c) c))).

(** [UpdateChunk]; the row is not decoded, and nil is [None]. *)
Definition UpdateChunk (g : gc_env) (read_db now_db : DB) (chunk : option ChunkMeta) : mgo DB :=
  refuse ge_closed g with ErrServiceClosed in
  match chunk with
  | None => Err ErrInvalidArgument
  | Some chunk =>
      match kv_get read_db (chunkMetadataKey (ck_ID chunk)) with
      | None => Err ErrChunkNotFound
      | Some raw => updateLiveChunkMetadata g now_db raw chunk
      end
  end.

(** ** Allocation *)

(** [buildChunkAllocationConditional] *)
Definition buildChunkAllocationConditional (db : DB) (inode_key inodeRaw : list Z) (next : InodeMeta)
    (chunks : list ChunkMeta) : mgo ConditionalBatch :=
  let ops := map (fun c => mkBatchOp false (chunkMetadataKey (ck_ID c)) (marshalValue c)) chunks
             ++ [mkBatchOp false inode_key (marshalValue next)] in
  let! prepared := prepareReferenceAwareBatch db ops in
  Ok (fenced
        (expect inode_key inodeRaw
         :: concat (map (fun c => [absent (chunkMetadataKey (ck_ID c)); absent (chunkTombstoneKey (ck_ID c))]) chunks))
        prepared).

(** The inode row with references to the new chunks appended. *)
Definition with_chunks (now : Z) (offsets : list Z) (chunks : list ChunkMeta) (m : InodeMeta) : InodeMeta :=
  mkInodeMeta (im_ID m) (im_Type m) (im_Size m) (im_NLink m) (im_BucketRoot m) (im_UID m) (im_GID m)
    (im_Mode m) (im_CTime m) now (im_ATime m) (im_Rdev m)
    (im_ChunkMap m ++ zip_with (fun c offset => mkChunkRef (ck_ID c) offset 0 now) chunks offsets)
    (im_Symlink m) (im_XAttrs m).

(** The attempts of [allocateChunksConditionally]. Attempt [n] reads [at_ n],
    gets the chunks [build n] (ids and placement, from [buildAllocatedChunks])
    and applies its batch to [commit_db n]. This is the path of a store without
    Raft, where the outcome of a commit is known; the reconciliation after
    [ErrRaftConditionalOutcomeUnknown] is left out. *)
Fixpoint allocate_attempts (g : gc_env) (at_ commit_db : nat -> DB) (clock : nat -> Z)
    (build : nat -> mgo (list ChunkMeta)) (inodeID : Z) (offsets : list Z) (n attempts : nat) :
    mgo (list ChunkMeta * DB) :=
  match attempts with
  | O => Err ErrBackupMetadataConflict
  | S attempts =>
      let again := allocate_attempts g at_ commit_db clock build inodeID offsets (n + 1)%nat attempts in
      let key := inodeKey inodeID in
      match kv_get (at_ n) key with
      | None => Err ErrInodeNotFound
      | Some inodeRaw =>
          let! inode := @unmarshalValue _ CI inodeRaw in
          let! _ := validateInodeKeyIdentity key (im_ID inode) in
          match build n with
          | Err e => if bool_decide (e = ErrBackupMetadataConflict) then again else Err e
          | Ok chunks =>
              let! batch := buildChunkAllocationConditional (at_ n) key inodeRaw
                              (with_chunks (clock n) offsets chunks inode) chunks in
              match applyChunkTombstoneConditional g (commit_db n) batch with
              | Ok db => Ok (chunks, db)
              | Err e => if bool_decide (e = ErrBackupMetadataConflict) then again else Err e
              end
          end
      end
  end.

Definition allocationConditionalAttempts : nat := 8.

(** [AllocateChunksBatch], with [allocateChunksConditionally]; no offsets
    returns no chunk and changes nothing ([None]). *)
Definition AllocateChunksBatch (g : gc_env) (at_ commit_db : nat -> DB) (clock : nat -> Z)
    (build : nat -> mgo (list ChunkMeta)) (inodeID : Z) (offsets : list Z) :
    mgo (option (list ChunkMeta * DB)) :=
  refuse ge_closed g with ErrServiceClosed in
  if len offsets =? 0 then Ok None else
  refuse MaxChunkAllocationBatch <? len offsets with MErrorf "max chunk allocation batch exceeded" in
  let! r := allocate_attempts g at_ commit_db clock build inodeID offsets 0 allocationConditionalAttempts in
  Ok (Some r).

(** ** Garbage collection ([production.go]) *)

(** [DeletedChunks] always equals [ChunksPurged]; it and [ScanDuration] are
    left out. *)
Record GCScanResult := mkGCScanResult {
  gr_TotalChunks : Z; gr_OrphanChunks : Z; gr_TombstonesCreated : Z; gr_TombstonesRetained : Z;
  gr_RetainedBytes : Z; gr_ChunksPurged : Z; gr_FreedBytes : Z; gr_EligibleTombstones : Z; gr_EligibleBytes : Z
}.

Definition add_orphan (created : Z) (r : GCScanResult) : GCScanResult :=
  mkGCScanResult (gr_TotalChunks r) (gr_OrphanChunks r + 1) (gr_TombstonesCreated r + created)
    (gr_TombstonesRetained r) (gr_RetainedBytes r) (gr_ChunksPurged r) (gr_FreedBytes r)
    (gr_EligibleTombstones r) (gr_EligibleBytes r).
Definition add_retained (size : Z) (r : GCScanResult) : GCScanResult :=
  mkGCScanResult (gr_TotalChunks r) (gr_OrphanChunks r) (gr_TombstonesCreated r)
    (gr_TombstonesRetained r + 1) (gr_RetainedBytes r + size) (gr_ChunksPurged r) (gr_FreedBytes r)
    (gr_EligibleTombstones r) (gr_EligibleBytes r).
Definition add_purged (size : Z) (r : GCScanResult) : GCScanResult :=
  mkGCScanResult (gr_TotalChunks r) (gr_OrphanChunks r) (gr_TombstonesCreated r) (gr_TombstonesRetained r)
    (gr_RetainedBytes r) (gr_ChunksPurged r + 1) (gr_FreedBytes r + size)
    (gr_EligibleTombstones r) (gr_EligibleBytes r).
Definition add_eligible (size : Z) (r : GCScanResult) : GCScanResult :=
  mkGCScanResult (gr_TotalChunks r) (gr_OrphanChunks r) (gr_TombstonesCreated r) (gr_TombstonesRetained r)
    (gr_RetainedBytes r) (gr_ChunksPurged r) (gr_FreedBytes r)
    (gr_EligibleTombstones r + 1) (gr_EligibleBytes r + size).

(** Phase 1: the ids of all chunk rows that decode. *)
Definition all_chunk_ids (db : DB) : list Z :=
  omap (fun kv : row => match @unmarshalValue _ CK kv.2 with Ok c => Some (ck_ID c) | Err _ => None end)
    (kv_range db prefixChunk (prefixUpperBound prefixChunk)).

(** Phase 3: tombstone the chunks the snapshot does not contain. *)
Fixpoint tombstone_orphans (g : gc_env) (clock : Z -> Z) (dryRun : bool) (reason : list Z)
    (sn : inodeReferenceSnapshot) (ids : list Z) (db : DB) (r : GCScanResult) : mgo GCScanResult * DB :=
  match ids with
  | [] => (Ok r, db)
  | id :: ids =>
      if contains sn id then tombstone_orphans g clock dryRun reason sn ids db r
      else if dryRun then tombstone_orphans g clock dryRun reason sn ids db (add_orphan 0 r)
      else
        match tombstoneChunkWithReferences g (fun _ => db) (clock id) db id reason sn with
        | (Ok created, db) =>
            tombstone_orphans g clock dryRun reason sn ids db (add_orphan (if created : bool then 1 else 0) r)
        | (Err e, db) =>
            if bool_decide (e = ErrBackupMetadataConflict)
            then tombstone_orphans g clock dryRun reason sn ids db (add_orphan 0 r)
            else (Err e, db)
        end
  end.

(** Phase 4: purge the tombstones that are due; the rows are those of the
    iterator, the retained chunks are read from the current database. *)
Fixpoint purge_tombstones (g : gc_env) (clock : Z -> Z) (dryRun : bool) (sn : inodeReferenceSnapshot)
    (rows : list row) (db : DB) (r : GCScanResult) : mgo GCScanResult * DB :=
  match rows with
  | [] => (Ok r, db)
  | (key, value) :: rows =>
      match scan_tombstone db key value with
      | Err e => (Err e, db)
      | Ok t =>
          let size := ct_Size t in
          if dryRun then
            let r := add_retained size r in
            let eligible := negb (contains sn (ct_ChunkID t))
                            && match CanPurgeChunk g db t (clock (ct_ChunkID t)) with
                               | Ok b => b | Err _ => false end in
            purge_tombstones g clock dryRun sn rows db (if eligible then add_eligible size r else r)
          else if contains sn (ct_ChunkID t)
          then purge_tombstones g clock dryRun sn rows db (add_retained size r)
          else
            match purgeChunkIfEligible g (fun _ => db) db (ct_ChunkID t) (clock (ct_ChunkID t)) sn with
            | (Ok _, db) => purge_tombstones g clock dryRun sn rows db (add_purged size r)
            | (Err e, db) =>
                if bool_decide (e = ErrBackupMetadataConflict) || bool_decide (e = ErrChunkPurgeIneligible)
                then purge_tombstones g clock dryRun sn rows db (add_retained size r)
                else (Err e, db)
            end
      end
  end.

(** [ChunkGC.Scan] with no other client: the clock reading of a chunk's
    tombstone and of its purge are those of [clock3] and [clock4]. *)
Definition gc_Scan (g : gc_env) (clock3 clock4 : Z -> Z) (dryRun : bool) (db : DB) : mgo GCScanResult * DB :=
  let r := mkGCScanResult (len (kv_range db prefixChunk (prefixUpperBound prefixChunk))) 0 0 0 0 0 0 0 0 in
  match stableInodeReferenceSnapshot g (fun _ => db) with
  | Err e => (Err e, db)
  | Ok phaseA =>
      match tombstone_orphans g clock3 dryRun (str "orphaned by chunk GC") phaseA (all_chunk_ids db) db r with
      | (Err e, db) => (Err e, db)
      | (Ok r, db) =>
          match stableInodeReferenceSnapshot g (fun _ => db) with
          | Err e => (Err e, db)
          | Ok phaseB =>
              purge_tombstones g clock4 dryRun phaseB
                (kv_range db prefixChunkTombstone (prefixUpperBound prefixChunkTombstone)) db r
          end
      end
  end.
End GC.
