(* ===== verification/Backups.v ===== *)
(** * Backup tasks, catalogue, cluster identity and restore marker

    Models [nufs-core/metadata/backup_catalog.go]: the durable record of a
    backup run and its state machine, the replacement of the committed
    catalogue, the cluster's identity, the marker of a pending restore, and
    the row checks of term-fenced batches (version 2), which complete the
    rules of [RaftLog.v].

    Times, reads and commits are as in [ChunkRules.v] and [ChunkGC.v]: a call
    reads [at_ 0], [at_ 1] and commits to [now_db]. With Raft a batch is
    applied as a log entry of the leader's term; that an entry's outcome may
    stay unknown is not modelled. *)

From stdpp Require Import base list sorting numbers strings gmap.
From Stdlib Require Import ZArith Lia.
From S2P Require Import Prelude Bytes Pebble MetaKeys MetaScan MetaTypes RaftLog MetaFSM Namespace Extents.
From S2P Require Import ChunkRules ChunkGC.

Local Open Scope Z_scope.
Local Open Scope go_scope.

Definition maxBackupTaskListLimit : Z := 1000.
Definition maxBackupTaskErrorBytes : Z := 4096.

Definition BackupTaskCreating := str "creating".
Definition BackupTaskUploading := str "uploading".
Definition BackupTaskVerifying := str "verifying".
Definition BackupTaskCommitted := str "committed".
Definition BackupTaskFailed := str "failed".

Record BackupTask := mkBackupTask {
  bt_ID : list Z; bt_SourceClusterID : list Z; bt_OwnerNodeID : list Z; bt_LeadershipTerm : Z;
  bt_AppliedIndex : Z; bt_State : list Z; bt_StartedAt : Z; bt_CompletedAt : Z; bt_BytesUploaded : Z;
  bt_FilesUploaded : Z; bt_LastError : list Z; bt_UpdatedAt : Z
}.

#[export] Instance BackupTask_eq_dec : EqDecision BackupTask.
Proof. solve_decision. Defined.

Record RestorePendingMarker := mkRestorePendingMarker {
  rm_BackupID : list Z; rm_SourceClusterID : list Z; rm_AppliedIndex : Z; rm_RestoredAt : Z
}.

#[export] Instance RestorePendingMarker_eq_dec : EqDecision RestorePendingMarker.
Proof. solve_decision. Defined.

Definition same (a b : list Z) : bool := bool_decide (a = b).

(** ** Checks of a task *)

(** [isTerminalBackupTaskState] *)
Definition isTerminalBackupTaskState (state : list Z) : bool :=
  same state BackupTaskCommitted || same state BackupTaskFailed.

(** The switch of [validateBackupTaskFields] on the state. *)
Definition check_state (t : BackupTask) : mgo unit :=
  let st := bt_State t in
  if same st BackupTaskCreating || same st BackupTaskUploading || same st BackupTaskVerifying then
    refuse negb (bt_CompletedAt t =? 0) with MErrorf "backup task: active task cannot have a completion time" in
    refuse negb (len (bt_LastError t) =? 0) with MErrorf "backup task: active task cannot have a last error" in
    Ok tt
  else if same st BackupTaskCommitted then
    refuse bt_CompletedAt t =? 0 with MErrorf "backup task: committed task requires a completion time" in
    refuse negb (len (bt_LastError t) =? 0) with MErrorf "backup task: committed task cannot have a last error" in
    Ok tt
  else if same st BackupTaskFailed then
    refuse bt_CompletedAt t =? 0 with MErrorf "backup task: failed task requires a completion time" in
    refuse blank (bt_LastError t) with MErrorf "backup task: failed task requires a last error" in
    Ok tt
  else Err (MErrorf "backup task: unknown state").

(** [validateBackupTaskFields] *)
Definition validateBackupTaskFields (t : BackupTask) : mgo unit :=
  refuse bt_LeadershipTerm t =? 0 with MErrorf "backup task: leadership term must be non-zero" in
  refuse bt_AppliedIndex t =? 0 with MErrorf "backup task: applied index must be non-zero" in
  refuse bt_StartedAt t =? 0 with MErrorf "backup task: start time is required" in
  refuse (bt_BytesUploaded t <? 0) || (bt_FilesUploaded t <? 0)
    with MErrorf "backup task: progress counters cannot be negative" in
  refuse maxBackupTaskErrorBytes <? len (bt_LastError t) with MErrorf "backup task: last error is too long" in
  refuse bt_UpdatedAt t <? bt_StartedAt t with MErrorf "backup task: updated time precedes start time" in
  let! _ := check_state t in
  if bt_CompletedAt t =? 0 then Ok tt else
  refuse bt_CompletedAt t <? bt_StartedAt t with MErrorf "backup task: completion time precedes start time" in
  refuse bt_UpdatedAt t <? bt_CompletedAt t with MErrorf "backup task: updated time precedes completion time" in
  Ok tt.

Definition with_updated (updated : Z) (t : BackupTask) : BackupTask :=
  mkBackupTask (bt_ID t) (bt_SourceClusterID t) (bt_OwnerNodeID t) (bt_LeadershipTerm t) (bt_AppliedIndex t)
    (bt_State t) (bt_StartedAt t) (bt_CompletedAt t) (bt_BytesUploaded t) (bt_FilesUploaded t)
    (bt_LastError t) updated.

(** [normalizeBackupTask]; nil is [None]. *)
Definition normalizeBackupTask (task : option BackupTask) : mgo BackupTask :=
  match task with
  | None => Err (MErrorf "backup task: record is required")
  | Some t =>
      let! _ := validateCatalogBackupID (bt_ID t) in
      let! _ := validateOpaqueID (bt_SourceClusterID t) in
      let! _ := validateOpaqueID (bt_OwnerNodeID t) in
      let out :=
        if bt_UpdatedAt t =? 0 then
          with_updated (if bt_StartedAt t <? bt_CompletedAt t then bt_CompletedAt t else bt_StartedAt t) t
        else t in
      let! _ := validateBackupTaskFields out in
      Ok out
  end.

(** [validateStoredBackupTask]: the normalised record *)
Definition validateStoredBackupTask (t : BackupTask) : mgo BackupTask :=
  refuse bt_UpdatedAt t =? 0 with MErrorf "updated time is required" in
  normalizeBackupTask (Some t).

(** The [next] map of [validateBackupTaskUpdate]; a missing key is empty. *)
Definition next_state (state : list Z) : list Z :=
  if same state BackupTaskCreating then BackupTaskUploading
  else if same state BackupTaskUploading then BackupTaskVerifying
  else if same state BackupTaskVerifying then BackupTaskCommitted
  else [].

(** [validateBackupTaskUpdate] *)
Definition validateBackupTaskUpdate (existing candidate : BackupTask) : mgo unit :=
  refuse negb (same (bt_SourceClusterID existing) (bt_SourceClusterID candidate))
         || negb (same (bt_OwnerNodeID existing) (bt_OwnerNodeID candidate))
         || negb (bt_LeadershipTerm existing =? bt_LeadershipTerm candidate)
         || negb (bt_AppliedIndex existing =? bt_AppliedIndex candidate)
         || negb (bt_StartedAt existing =? bt_StartedAt candidate)
    with MErrorf "immutable identity fields changed" in
  refuse (bt_BytesUploaded candidate <? bt_BytesUploaded existing)
         || (bt_FilesUploaded candidate <? bt_FilesUploaded existing)
    with MErrorf "progress counters cannot decrease" in
  refuse bt_UpdatedAt candidate <? bt_UpdatedAt existing with MErrorf "updated time cannot move backward" in
  if same (bt_State candidate) (bt_State existing) then Ok tt
  else if same (bt_State candidate) BackupTaskFailed then Ok tt
  else refuse negb (same (next_state (bt_State existing)) (bt_State candidate))
         with MErrorf "invalid state transition" in Ok tt.

(** [terminalBackupTasksEqual]: all but the update time *)
Definition terminalBackupTasksEqual (a b : BackupTask) : bool :=
  same (bt_ID a) (bt_ID b) && same (bt_SourceClusterID a) (bt_SourceClusterID b)
  && same (bt_OwnerNodeID a) (bt_OwnerNodeID b) && (bt_LeadershipTerm a =? bt_LeadershipTerm b)
  && (bt_AppliedIndex a =? bt_AppliedIndex b) && same (bt_State a) (bt_State b)
  && (bt_StartedAt a =? bt_StartedAt b) && (bt_CompletedAt a =? bt_CompletedAt b)
  && (bt_BytesUploaded a =? bt_BytesUploaded b) && (bt_FilesUploaded a =? bt_FilesUploaded b)
  && same (bt_LastError a) (bt_LastError b).

(** [normalizeRestorePendingMarker] *)
Definition normalizeRestorePendingMarker (marker : option RestorePendingMarker) : mgo RestorePendingMarker :=
  match marker with
  | None => Err (MErrorf "restore pending marker: record is required")
  | Some m =>
      let! _ := validateCatalogBackupID (rm_BackupID m) in
      let! _ := validateOpaqueID (rm_SourceClusterID m) in
      refuse rm_AppliedIndex m =? 0 with MErrorf "restore pending marker: applied index must be non-zero" in
      refuse rm_RestoredAt m =? 0 with MErrorf "restore pending marker: restore time is required" in
      Ok m
  end.

(** ** The newest tasks *)

(** [backupTaskNewer] *)
Definition backupTaskNewer (a b : BackupTask) : bool :=
  if bt_StartedAt a =? bt_StartedAt b then bytes_ltb (bt_ID a) (bt_ID b)
  else bt_StartedAt b <? bt_StartedAt a.

(** The order of [Sorted]. *)
Definition task_le (a b : BackupTask) : Prop := backupTaskNewer b a = false.

#[export] Instance task_le_dec a b : Decision (task_le a b).
Proof. unfold task_le. apply _. Defined.

(** [heap.Push]; a heap of package container/heap is the list of its
    elements, the root first and each next one newer. *)
Fixpoint heap_Push (t : BackupTask) (h : list BackupTask) : list BackupTask :=
  match h with
  | [] => [t]
  | x :: h' => if backupTaskNewer x t then t :: h else x :: heap_Push t h'
  end.

(** [backupTaskTopK.Add]; [heap.Pop] drops the root. *)
Definition topk_Add (limit : Z) (t : BackupTask) (h : list BackupTask) : list BackupTask :=
  if limit <=? 0 then h
  else if len h <? limit then heap_Push t h
  else match h with
       | root :: rest => if backupTaskNewer t root then heap_Push t rest else h
       | [] => h
       end.

(** [backupTaskTopK.Sorted] *)
Definition topk_Sorted (h : list BackupTask) : list BackupTask := merge_sort task_le h.

(** ** Row checks of term-fenced batches *)

Section Rules.
Context `{CB : Codec BackupCatalogState} `{CC : Codec CommittedBackup} `{CA : Codec BackupTask}.

(** [validateTermFencedBackupTaskBatch] *)
Definition validateTermFencedBackupTaskBatch (b : ConditionalBatch) : mgo unit :=
  match cb_Preconditions b, cb_Mutations b, cb_PrefixReplacements b with
  | [p], [m], [] =>
      refuse bo_Delete m || negb (same (cp_Key p) (bo_Key m))
        with MErrorf "term-fenced backup task batch must set its precondition key" in
      refuse negb (HasPrefix (bo_Key m) prefixBackupTask)
        with MErrorf "term-fenced backup task key is outside the task namespace" in
      let id := TrimPrefix (bo_Key m) prefixBackupTask in
      let! _ := validateCatalogBackupID id in
      let! raw := @unmarshalValue _ CA (bo_Value m) in
      let! desired := validateStoredBackupTask raw in
      refuse negb (same (bt_ID desired) id)
        with MErrorf "term-fenced backup task key and value identities differ" in
      refuse negb (same (marshalValue desired) (bo_Value m))
        with MErrorf "term-fenced backup task value is not canonical" in
      if cp_ExpectAbsent p then
        refuse negb (same (bt_State desired) BackupTaskCreating)
          with MErrorf "term-fenced backup task initial state must be creating" in
        Ok tt
      else
        let! raw := @unmarshalValue _ CA (cp_ExpectedValue p) in
        let! existing := validateStoredBackupTask raw in
        refuse negb (same (bt_ID existing) id)
          with MErrorf "term-fenced backup task precondition identity differs from its key" in
        refuse isTerminalBackupTaskState (bt_State existing)
          with MErrorf "term-fenced backup task cannot mutate a terminal record" in
        validateBackupTaskUpdate existing desired
  | _, _, _ => Err (MErrorf "term-fenced backup task batch must contain one precondition and one mutation")
  end.

(** The key and value of an entry's row. *)
Definition entry_op (b : CommittedBackup) : BatchOp :=
  mkBatchOp false (prefixBackupCatalog ++ bk_ID b) (marshalValue b).

(** [validateTermFencedBackupCatalogBatch]; the ids are distinct, so the map
    of expected entries is the list. *)
Definition validateTermFencedBackupCatalogBatch (b : ConditionalBatch) : mgo unit :=
  match cb_Preconditions b, cb_Mutations b, cb_PrefixReplacements b with
  | [], [m], [r] =>
      refuse bo_Delete m || negb (same (bo_Key m) keyBackupCatalog) || negb (same (pr_Prefix r) prefixBackupCatalog)
        with MErrorf "term-fenced backup catalog batch targets an invalid namespace" in
      let! state := @unmarshalValue _ CB (bo_Value m) in
      let! normalized := normalizeBackupCatalog (bc_Backups state) (bc_ReconciledAt state) in
      refuse negb (same (marshalValue normalized) (bo_Value m))
        with MErrorf "term-fenced backup catalog state is not canonical" in
      refuse negb (len (pr_Sets r) =? len (bc_Backups normalized))
        with MErrorf "term-fenced backup catalog entries differ from catalog state" in
      refuse negb (forallb (fun set => negb (bo_Delete set)
                                       && existsb (fun b => same (bo_Key (entry_op b)) (bo_Key set)
                                                            && same (bo_Value (entry_op b)) (bo_Value set))
                                            (bc_Backups normalized)) (pr_Sets r))
        with MErrorf "term-fenced backup catalog contains an invalid entry" in
      Ok tt
  | _, _, _ => Err (MErrorf "term-fenced backup catalog batch has an invalid shape")
  end.

(** All row checks of the source. *)
Definition all_rules `{CI : Codec InodeMeta} `{CK : Codec ChunkMeta} `{CT : Codec ChunkTombstone} : version_rules :=
  chunk_rules validateTermFencedBackupTaskBatch validateTermFencedBackupCatalogBatch.
End Rules.

(** ** Operations *)

(** Raft as a call sees it: leader at the call's check, leader at the commit,
    and the term of the log entry. *)
Record raft_env := mkRaftEnv { rf_leader : bool; rf_still_leader : bool; rf_term : Z }.
Record backup_env := mkBackupEnv { be_gc : gc_env; be_raft : option raft_env }.

Section Ops.
Context {DB : Type} `{KV : PebbleKV DB}.
Context `{CI : Codec InodeMeta} `{CV : Codec InodeWithVersion}.
Context `{CB : Codec BackupCatalogState} `{CC : Codec CommittedBackup} `{CA : Codec BackupTask}.
Context `{CM : Codec RestorePendingMarker} `{CS : Codec (list Z)}.
Context (rules : version_rules).

(** [checkBackupMetadataCall] *)
Definition checkBackupMetadataCall (e : backup_env) : mgo unit :=
  refuse ge_closed (be_gc e) with ErrServiceClosed in Ok tt.

(** [checkBackupMetadataMutation] *)
Definition checkBackupMetadataMutation (e : backup_env) : mgo unit :=
  let! _ := checkBackupMetadataCall e in
  refuse match be_raft e with Some r => negb (rf_leader r) | None => false end
    with MErrorf "backup metadata: not leader" in
  Ok tt.

(** [applyBackupMetadataConditional] on the database of that moment *)
Definition applyBackupMetadataConditional (e : backup_env) (db : DB) (b : ConditionalBatch) : mgo DB :=
  let! _ := checkBackupMetadataCall e in
  refuse ge_readOnly (be_gc e) with ErrServiceClosed in
  let hook := ge_hook (be_gc e) in
  let fail := ge_fail (be_gc e) in
  let applied :=
    match be_raft e with
    | Some r =>
        refuse negb (rf_still_leader r) with MErrorf "backup metadata: not leader" in
        apply_entry rules hook fail (rf_term r) db (mkRaftLogEntry OpConditionalBatch [] [] [] (Some b))
    | None =>
        refuse negb (cb_ExpectedRaftTerm b =? 0)
          with MErrorf "backup metadata: term-fenced mutation requires Raft" in
        applyConditionalBatchWithHook rules hook fail db (Some b)
    end in
  match applied with
  | Ok db => Ok db
  | Err x => Err (if bool_decide (x = ErrRaftConditionalConflict) then ErrBackupMetadataConflict else x)
  end.

(** [backupConditionalBatchVersion] *)
Definition backupConditionalBatchVersion (expectedRaftTerm : Z) : Z :=
  if negb (expectedRaftTerm =? 0) then conditionalBatchTermFencedVersion else conditionalBatchVersion.

Definition taskKey (id : list Z) : list Z := prefixBackupTask ++ id.

(** What [putBackupTask] decides from the row it read: the task is stored
    already, or may be written. *)
Definition admit_task (candidate : BackupTask) (raw : option (list Z)) : mgo bool :=
  match raw with
  | None =>
      refuse negb (same (bt_State candidate) BackupTaskCreating)
        with MErrorf "backup task: initial state must be creating" in
      Ok true
  | Some raw =>
      let! stored := @unmarshalValue _ CA raw in
      let! existing := validateStoredBackupTask stored in
      refuse negb (same (bt_ID existing) (bt_ID candidate))
        with MErrorf "backup task: durable key identity mismatch" in
      if isTerminalBackupTaskState (bt_State existing) then
        refuse negb (terminalBackupTasksEqual existing candidate)
          with MErrorf "backup task: terminal record is immutable" in
        Ok false
      else
        let! _ := validateBackupTaskUpdate existing candidate in
        Ok true
  end.

(** The batch of [putBackupTask]. *)
Definition task_batch (candidate : BackupTask) (raw : option (list Z)) (term : Z) : ConditionalBatch :=
  let key := taskKey (bt_ID candidate) in
  mkConditionalBatch (backupConditionalBatchVersion term) term
    [match raw with Some v => expect key v | None => absent key end]
    [mkBatchOp false key (marshalValue candidate)] [].

(** [putBackupTask] *)
Definition putBackupTask (e : backup_env) (at_ : nat -> DB) (now_db : DB) (task : option BackupTask)
    (expectedRaftTerm : Z) : mgo unit * DB :=
  let keep {A} (r : mgo A) : mgo unit * DB := (let! _ := r in Ok tt, now_db) in
  match (let! _ := checkBackupMetadataMutation e in normalizeBackupTask task) with
  | Err x => (Err x, now_db)
  | Ok candidate =>
      let key := taskKey (bt_ID candidate) in
      let raw := kv_get (at_ 0%nat) key in
      match admit_task candidate raw with
      | Err x => (Err x, now_db)
      | Ok false => (Ok tt, now_db)
      | Ok true =>
          match applyBackupMetadataConditional e now_db (task_batch candidate raw expectedRaftTerm) with
          | Ok db => (Ok tt, db)
          | Err x =>
              if negb (bool_decide (x = ErrBackupMetadataConflict)) then (Err x, now_db) else
              keep
                (match kv_get (at_ 1%nat) key with
                 | None => Err ErrBackupMetadataConflict
                 | Some latestRaw =>
                     let! stored := @unmarshalValue _ CA latestRaw in
                     let! latest := validateStoredBackupTask stored in
                     refuse negb (isTerminalBackupTaskState (bt_State latest)
                                  && terminalBackupTasksEqual latest candidate)
                       with ErrBackupMetadataConflict in
                     Ok tt
                 end)
          end
      end
  end.

(** [PutBackupTask] *)
Definition PutBackupTask e at_ now_db task : mgo unit * DB := putBackupTask e at_ now_db task 0.

(** [putBackupTaskAtTerm] *)
Definition putBackupTaskAtTerm (e : backup_env) (at_ : nat -> DB) (now_db : DB) (task : option BackupTask)
    (expectedRaftTerm : Z) : mgo unit * DB :=
  if expectedRaftTerm =? 0 then (Err (MErrorf "backup task: expected Raft term is required"), now_db)
  else putBackupTask e at_ now_db task expectedRaftTerm.

(** [GetBackupTask] *)
Definition GetBackupTask (e : backup_env) (db : DB) (id : list Z) : mgo (option BackupTask) :=
  let! _ := checkBackupMetadataCall e in
  let! _ := validateCatalogBackupID id in
  match kv_get db (taskKey id) with
  | None => Ok None
  | Some raw =>
      let! stored := @unmarshalValue _ CA raw in
      let! task := validateStoredBackupTask stored in
      refuse negb (same (bt_ID task) id) with MErrorf "backup task: durable identity mismatch" in
      Ok (Some task)
  end.

(** One row of the two task scans. *)
Definition scan_task (key value : list Z) : mgo BackupTask :=
  let! stored := @unmarshalValue _ CA value in
  let! task := validateStoredBackupTask stored in
  refuse negb (same key (taskKey (bt_ID task))) with MErrorf "durable task has mismatched ID" in
  Ok task.

Fixpoint collect_newest (limit : Z) (rows : list row) (top : list BackupTask) : mgo (list BackupTask) :=
  match rows with
  | [] => Ok top
  | (key, value) :: rows =>
      let! task := scan_task key value in
      collect_newest limit rows (topk_Add limit task top)
  end.

Definition task_rows (db : DB) : list row := kv_range db prefixBackupTask (prefixUpperBound prefixBackupTask).

(** [ListBackupTasks] *)
Definition ListBackupTasks (e : backup_env) (db : DB) (limit : Z) : mgo (list BackupTask) :=
  let! _ := checkBackupMetadataCall e in
  refuse (limit <=? 0) || (maxBackupTaskListLimit <? limit)
    with MErrorf "backup tasks: limit must be between 1 and 1000" in
  let! top := collect_newest limit (task_rows db) [] in
  Ok (topk_Sorted top).

Fixpoint visit_active {S} (visit : BackupTask -> S -> mgo S) (rows : list row) (s : S) : mgo S :=
  match rows with
  | [] => Ok s
  | (key, value) :: rows =>
      let! task := scan_task key value in
      if isTerminalBackupTaskState (bt_State task) then visit_active visit rows s
      else let! s := visit task s in visit_active visit rows s
  end.

(** [ScanActiveBackupTasks]; the visitor's state is passed along. *)
Definition ScanActiveBackupTasks {S} (e : backup_env) (db : DB) (visit : option (BackupTask -> S -> mgo S)) (s : S) :
    mgo S :=
  let! _ := checkBackupMetadataCall e in
  match visit with
  | None => Err (MErrorf "backup tasks: active-task visitor is required")
  | Some visit => visit_active visit (task_rows db) s
  end.

(** ** The catalogue *)

(** The batch of [replaceCommittedBackupCatalog]. *)
Definition catalog_batch (state : BackupCatalogState) (term : Z) : ConditionalBatch :=
  mkConditionalBatch (backupConditionalBatchVersion term) term []
    [mkBatchOp false keyBackupCatalog (marshalValue state)]
    [mkReplacement prefixBackupCatalog (map entry_op (bc_Backups state))].

(** [replaceCommittedBackupCatalog] *)
Definition replaceCommittedBackupCatalog (e : backup_env) (now_db : DB) (backups : list CommittedBackup)
    (reconciledAt expectedRaftTerm : Z) : mgo DB :=
  let! _ := checkBackupMetadataMutation e in
  let! state := normalizeBackupCatalog backups reconciledAt in
  applyBackupMetadataConditional e now_db (catalog_batch state expectedRaftTerm).

(** [ReplaceCommittedBackupCatalog] *)
Definition ReplaceCommittedBackupCatalog e now_db backups reconciledAt : mgo DB :=
  replaceCommittedBackupCatalog e now_db backups reconciledAt 0.

(** [replaceCommittedBackupCatalogAtTerm] *)
Definition replaceCommittedBackupCatalogAtTerm e now_db backups reconciledAt expectedRaftTerm : mgo DB :=
  refuse expectedRaftTerm =? 0 with MErrorf "backup catalog: expected Raft term is required" in
  replaceCommittedBackupCatalog e now_db backups reconciledAt expectedRaftTerm.

(** ** The cluster's identity *)

Definition hex_digit (x : Z) : Z := if x <? 10 then 48 + x else 87 + x.
Definition hex (b : list Z) : list Z := concat (map (fun x => [hex_digit (x / 16); hex_digit (x mod 16)]) b).

(** [generateClusterID] from 16 random bytes, or the error of reading them *)
Definition generateClusterID (random : mgo (list Z)) : mgo (list Z) :=
  let! raw := random in
  let raw := take 6 raw ++ [Z.lor (Z.land (nth 6 raw 0) 15) 64] ++ take 1 (drop 7 raw)
             ++ [Z.lor (Z.land (nth 8 raw 0) 63) 128] ++ drop 9 raw in
  Ok (hex (take 4 raw) ++ str "-" ++ hex (take 2 (drop 4 raw)) ++ str "-" ++ hex (take 2 (drop 6 raw))
      ++ str "-" ++ hex (take 2 (drop 8 raw)) ++ str "-" ++ hex (drop 10 raw)).

(** [reconcileClusterID] *)
Definition reconcileClusterID (raw requested : list Z) : mgo (list Z) :=
  let! existing := @unmarshalValue _ CS raw in
  let! _ := validateOpaqueID existing in
  if (len requested =? 0) || same requested existing then Ok existing else
  let! _ := validateOpaqueID requested in
  Err ErrBackupMetadataConflict.

(** [EnsureClusterID] *)
Definition EnsureClusterID (e : backup_env) (at_ : nat -> DB) (now_db : DB) (random : mgo (list Z))
    (requested : list Z) : mgo (list Z) * DB :=
  match checkBackupMetadataMutation e with
  | Err x => (Err x, now_db)
  | Ok _ =>
      match kv_get (at_ 0%nat) keyClusterID with
      | Some raw => (reconcileClusterID raw requested, now_db)
      | None =>
          match (let! id := (if len requested =? 0 then generateClusterID random else Ok requested) in
                 let! _ := validateOpaqueID id in Ok id) with
          | Err x => (Err x, now_db)
          | Ok id =>
              let batch := mkConditionalBatch conditionalBatchVersion 0 [absent keyClusterID]
                             [mkBatchOp false keyClusterID (marshalValue id)] [] in
              match applyBackupMetadataConditional e now_db batch with
              | Ok db => (Ok id, db)
              | Err x =>
                  if negb (bool_decide (x = ErrBackupMetadataConflict)) then (Err x, now_db) else
                  match kv_get (at_ 1%nat) keyClusterID with
                  | None => (Err ErrBackupMetadataConflict, now_db)
                  | Some latest => (reconcileClusterID latest requested, now_db)
                  end
              end
          end
      end
  end.

(** ** The restore marker *)

(** Whether the durable marker is the candidate; instants are compared, as
    [restorePendingMarkersEqual] does. *)
Definition marker_stored (candidate : RestorePendingMarker) (raw : list Z) : mgo unit :=
  let! stored := @unmarshalValue _ CM raw in
  let! canonical := normalizeRestorePendingMarker (Some stored) in
  refuse negb (bool_decide (canonical = candidate)) with ErrBackupMetadataConflict in
  Ok tt.

(** [PutRestorePendingMarker] *)
Definition PutRestorePendingMarker (e : backup_env) (at_ : nat -> DB) (now_db : DB)
    (marker : option RestorePendingMarker) : mgo unit * DB :=
  match (let! _ := checkBackupMetadataMutation e in normalizeRestorePendingMarker marker) with
  | Err x => (Err x, now_db)
  | Ok candidate =>
      match kv_get (at_ 0%nat) keyRestorePending with
      | Some raw => (marker_stored candidate raw, now_db)
      | None =>
          let batch := mkConditionalBatch conditionalBatchVersion 0 [absent keyRestorePending]
                         [mkBatchOp false keyRestorePending (marshalValue candidate)] [] in
          match applyBackupMetadataConditional e now_db batch with
          | Ok db => (Ok tt, db)
          | Err x =>
              if negb (bool_decide (x = ErrBackupMetadataConflict)) then (Err x, now_db) else
              match kv_get (at_ 1%nat) keyRestorePending with
              | None => (Err ErrBackupMetadataConflict, now_db)
              | Some latest => (marker_stored candidate latest, now_db)
              end
          end
      end
  end.

(** [GetRestorePendingMarker] *)
Definition GetRestorePendingMarker (e : backup_env) (db : DB) : mgo (option RestorePendingMarker) :=
  let! _ := checkBackupMetadataCall e in
  let! found := @getValue _ _ _ CM db keyRestorePending in
  match found with
  | None => Ok None
  | Some m => let! m := normalizeRestorePendingMarker (Some m) in Ok (Some m)
  end.

(** [ClearRestorePendingMarker] *)
Definition ClearRestorePendingMarker (e : backup_env) (at_ : nat -> DB) (now_db : DB) : mgo unit * DB :=
  match checkBackupMetadataMutation e with
  | Err x => (Err x, now_db)
  | Ok _ =>
      match kv_get (at_ 0%nat) keyRestorePending with
      | None => (Ok tt, now_db)
      | Some raw =>
          match (let! stored := @unmarshalValue _ CM raw in normalizeRestorePendingMarker (Some stored)) with
          | Err x => (Err x, now_db)
          | Ok _ =>
              let batch := mkConditionalBatch conditionalBatchVersion 0 [expect keyRestorePending raw]
                             [del_op keyRestorePending] [] in
              match applyBackupMetadataConditional e now_db batch with
              | Ok db => (Ok tt, db)
              | Err x =>
                  if negb (bool_decide (x = ErrBackupMetadataConflict)) then (Err x, now_db) else
                  match kv_get (at_ 1%nat) keyRestorePending with
                  | None => (Ok tt, now_db)
                  | Some _ => (Err ErrBackupMetadataConflict, now_db)
                  end
              end
          end
      end
  end.
End Ops.
