(* ===== verification/MetaFSMProofs.v ===== *)
(** * Batches as simultaneous updates

    The keys of a canonical batch are distinct, so the order of its mutations
    does not matter: a conditional batch succeeds exactly when every
    precondition holds, and then every row it names has the value it gives
    and every other row is unchanged. Through the log the same batch has the
    same effect. *)

From stdpp Require Import base list sorting numbers strings gmap.
From Stdlib Require Import ZArith Lia.
From S2P Require Import Prelude Bytes Pebble MetaKeys MetaScan MetaTypes RaftLog MetaFSM.

(** * The log format is lossless and canonical

    A canonical batch is a fixed point of canonicalisation and does not
    depend on the order its parts were given in; its encoded size is what
    [conditionalBatchEncodedSize] computes; and decoding an encoded entry
    gives the entry back, with a conditional batch in its canonical form. *)

Local Open Scope Z_scope.
Local Open Scope go_scope.

#[global] Instance pre_le_total : Total pre_le.
Proof. intros p q. apply bytes_le_total. Qed.
#[global] Instance pre_le_trans : Transitive pre_le.
Proof. intros p q r. apply bytes_le_trans. Qed.
#[global] Instance op_le_total : Total op_le.
Proof. intros p q. apply bytes_le_total. Qed.
#[global] Instance op_le_trans : Transitive op_le.
Proof. intros p q r. apply bytes_le_trans. Qed.
#[global] Instance rep_le_total : Total rep_le.
Proof. intros p q. apply bytes_le_total. Qed.
#[global] Instance rep_le_trans : Transitive rep_le.
Proof. intros p q r. apply bytes_le_trans. Qed.

(** ** Sorting by key *)

(** No two neighbours have the same key. *)
Fixpoint adjacent (previous : option (list Z)) (ks : list (list Z)) : bool :=
  match ks with
  | [] => true
  | k :: ks => negb (repeats previous k) && adjacent (Some k) ks
  end.

Section ByKey.
Context {A : Type} (key : A -> list Z) (le : A -> A -> Prop) `{forall a b, Decision (le a b)}.
Context `{!Total le, !Transitive le} (le_key : forall a b, le a b <-> bytes_le (key a) (key b)).

Lemma sorted_strict l : forall prev,
  StronglySorted le l -> adjacent prev (map key l) = true ->
  StronglySorted (fun a b => bytes_lt (key a) (key b)) l.
Proof.
  intros prev S. revert prev. induction S as [|x l S IH F]; intros prev D; [constructor|].
  cbn [map adjacent] in D. apply andb_true_iff in D as [_ D]. constructor; [by eapply IH|].
  specialize (IH _ D). destruct l as [|y l]; [constructor|].
  cbn [map adjacent] in D. apply andb_true_iff in D as [N _]. apply negb_true_iff in N.
  unfold repeats in N. apply bool_decide_eq_false in N.
  assert (bytes_lt (key x) (key y)) as Hxy.
  { apply Forall_inv in F. apply le_key in F. unfold bytes_le in F.
    destruct (bytes_ltb_total (key x) (key y)) as [|[E|E]]; [done|congruence|].
    unfold bytes_lt in E. congruence. }
  constructor; [done|]. inversion IH as [|? ? _ F']; subst.
  eapply Forall_impl; [exact F'|]. intros z Hz. by eapply bytes_ltb_trans.
Qed.

Lemma sorted_NoDup l : StronglySorted le l -> adjacent None (map key l) = true -> NoDup (map key l).
Proof.
  intros S D. pose proof (sorted_strict _ _ S D) as L. clear S D.
  induction L as [|x l L IH F]; cbn [map]; [constructor|]. constructor; [|done].
  intros (y & Ey & Hy)%list_elem_of_fmap. rewrite Forall_forall in F. specialize (F y Hy).
  unfold bytes_lt in F. by rewrite Ey, bytes_ltb_irrefl in F.
Qed.

Lemma sorted_distinct l :
  StronglySorted le l -> adjacent None (map key l) = true ->
  forall a b, a ∈ l -> b ∈ l -> key a = key b -> a = b.
Proof.
  intros S D. pose proof (sorted_NoDup l S D) as N. clear S D. intros a b Ha Hb E.
  induction l as [|x l IH]; [by apply not_elem_of_nil in Ha|]. cbn [map] in N. apply NoDup_cons in N as [Hx N].
  apply elem_of_cons in Ha as [->|Ha], Hb as [->|Hb]; auto; destruct Hx;
    [rewrite E|rewrite <- E]; by apply list_elem_of_fmap_2.
Qed.

(** A list without neighbouring duplicates once sorted has one sorted
    permutation, whatever order it is given in. *)
Lemma merge_sort_unique l l' :
  adjacent None (map key (merge_sort le l)) = true -> l ≡ₚ l' ->
  merge_sort le l' = merge_sort le l.
Proof.
  intros D P. symmetry.
  apply (StronglySorted_unique_strong le);
    [|apply StronglySorted_merge_sort; apply _..|by rewrite !merge_sort_Permutation].
  intros a b Ha Hb H1 H2. rewrite merge_sort_Permutation in Hb. rewrite <- P in Hb.
  rewrite <- (merge_sort_Permutation le) in Hb.
  eapply sorted_distinct; try done; [apply StronglySorted_merge_sort; apply _|].
  apply le_key in H1, H2. unfold bytes_le in *.
  destruct (bytes_ltb_total (key a) (key b)) as [E|[E|E]]; unfold bytes_lt in *; congruence.
Qed.

Lemma merge_sort_fixed l :
  adjacent None (map key (merge_sort le l)) = true ->
  merge_sort le (merge_sort le l) = merge_sort le l.
Proof. intros D. apply merge_sort_unique; [done|]. by rewrite merge_sort_Permutation. Qed.
End ByKey.

(** ** What validation establishes *)

Definition key_ok (k : list Z) : Prop := 0 < len k <= maxConditionalKeyBytes.

Definition pre_ok (p : ConditionalPrecondition) : Prop :=
  key_ok (cp_Key p) /\ len (cp_ExpectedValue p) <= maxConditionalValueBytes /\
  (cp_ExpectAbsent p = true -> cp_ExpectedValue p = []).

Definition op_ok (m : BatchOp) : Prop :=
  key_ok (bo_Key m) /\ len (bo_Value m) <= maxConditionalValueBytes /\
  (bo_Delete m = true -> bo_Value m = []).

Definition rep_ok (r : ConditionalPrefixReplacement) : Prop :=
  pr_Prefix r = prefixBackupCatalog /\ len (pr_Sets r) <= maxConditionalReplacementSets /\
  Forall (fun m => op_ok m /\ bo_Delete m = false) (pr_Sets r) /\
  adjacent None (map bo_Key (pr_Sets r)) = true.

Lemma validateConditionalKey_ok k : validateConditionalKey k = Ok tt <-> key_ok k.
Proof.
  unfold validateConditionalKey, key_ok.
  destruct (Z.eqb_spec (len k) 0), (Z.ltb_spec maxConditionalKeyBytes (len k)); split; done || lia.
Qed.

Lemma length_zero {A} (l : list A) : (len l =? 0) = true -> l = [].
Proof. intros E. apply Z.eqb_eq in E. by destruct l. Qed.

Lemma validate_preconditions_ok prev ps :
  validate_preconditions prev ps = Ok tt <-> Forall pre_ok ps /\ adjacent prev (map cp_Key ps) = true.
Proof.
  revert prev. induction ps as [|p ps IH]; intros prev; [by split; [split|]; constructor|].
  cbn [validate_preconditions map adjacent]. rewrite Forall_cons, andb_true_iff. split.
  - intros V. ok_inv. destruct r. apply validateConditionalKey_ok in E. apply IH in V as [Vf Va].
    split; [split; [|done]|done].
    split; [done|]. destruct (cp_ExpectAbsent p); cbn [andb negb] in G, G0.
    + apply negb_false_iff, length_zero in G. rewrite G. done.
    + apply Z.ltb_ge in G0. done.
  - intros [[(K & V & Ab) F] [N D]]. rewrite (proj2 (validateConditionalKey_ok _) K), bind_Ok.
    rewrite !refuse_pass; [by apply IH|by apply negb_true_iff| |].
    + destruct (cp_ExpectAbsent p); cbn; [done|]. by apply Z.ltb_ge.
    + destruct (cp_ExpectAbsent p); cbn; [by rewrite Ab|done].
Qed.

Lemma validate_mutations_ok prev ms :
  validate_mutations prev ms = Ok tt <-> Forall op_ok ms /\ adjacent prev (map bo_Key ms) = true.
Proof.
  revert prev. induction ms as [|p ps IH]; intros prev; [by split; [split|]; constructor|].
  cbn [validate_mutations map adjacent]. rewrite Forall_cons, andb_true_iff. split.
  - intros V. ok_inv. destruct r. apply validateConditionalKey_ok in E. apply IH in V as [Vf Va].
    split; [split; [|done]|done].
    split; [done|]. destruct (bo_Delete p); cbn [andb negb] in G, G0.
    + apply negb_false_iff, length_zero in G. rewrite G. done.
    + apply Z.ltb_ge in G0. done.
  - intros [[(K & V & Ab) F] [N D]]. rewrite (proj2 (validateConditionalKey_ok _) K), bind_Ok.
    rewrite !refuse_pass; [by apply IH|by apply negb_true_iff| |].
    + destruct (bo_Delete p); cbn; [done|]. by apply Z.ltb_ge.
    + destruct (bo_Delete p); cbn; [by rewrite Ab|done].
Qed.

Lemma validate_sets_ok prefix prev ms :
  validate_sets prefix prev ms = Ok tt ->
  Forall (fun m => op_ok m /\ bo_Delete m = false) ms /\ adjacent prev (map bo_Key ms) = true.
Proof.
  revert prev. induction ms as [|p ps IH]; intros prev V; [by split; constructor|].
  cbn [validate_sets map adjacent] in *. ok_inv. destruct r.
  apply validateConditionalKey_ok in E. apply IH in V as [Vf Va]. rewrite Forall_cons.
  apply Z.ltb_ge in G1. split; [|done]. split; [|done]. split; [|done]. split; [done|]. split; [lia|congruence].
Qed.

Lemma validate_replacements_ok muts prev rs :
  validate_replacements muts prev rs = Ok tt -> Forall rep_ok rs /\ adjacent prev (map pr_Prefix rs) = true.
Proof.
  revert prev. induction rs as [|p ps IH]; intros prev V; [by split; constructor|].
  cbn [validate_replacements map adjacent] in *. ok_inv. destruct r, r0.
  unfold validateConditionalReplacementPrefix in E. ok_inv. apply negb_false_iff in G2.
  apply bool_decide_eq_true in G2. apply Z.ltb_ge in G.
  apply IH in V as [Vf Va]. apply validate_sets_ok in E0 as [Sf Sa]. rewrite Forall_cons.
  split; [split; [|done]; by split|]. rewrite Va, andb_true_r. apply negb_true_iff.
  unfold repeats. apply bool_decide_eq_false. intros ->.
  assert (HasPrefix (pr_Prefix p) (pr_Prefix p) = true) by (apply HasPrefix_spec; exists []; by rewrite app_nil_r).
  congruence.
Qed.

(** What [canonicalConditionalBatch] guarantees of its result. *)
Record canonical (rules : version_rules) (b : ConditionalBatch) : Prop := mkCanonical {
  ca_valid : validateConditionalBatch rules b = Ok tt;
  ca_version : known_version (cb_Version b) = true;
  ca_pre : Forall pre_ok (cb_Preconditions b);
  ca_pre_keys : adjacent None (map cp_Key (cb_Preconditions b)) = true;
  ca_mut : Forall op_ok (cb_Mutations b);
  ca_mut_keys : adjacent None (map bo_Key (cb_Mutations b)) = true;
  ca_rep : Forall rep_ok (cb_PrefixReplacements b);
  ca_rep_keys : adjacent None (map pr_Prefix (cb_PrefixReplacements b)) = true;
  ca_term : (cb_Version b =? conditionalBatchTermFencedVersion) = false -> cb_ExpectedRaftTerm b = 0;
  ca_size : conditionalBatchEncodedSize b <= maxRaftLogEntryBytes
}.

Lemma validate_canonical rules b : validateConditionalBatch rules b = Ok tt -> canonical rules b.
Proof.
  intros V0. pose proof V0 as V. unfold validateConditionalBatch in V. ok_inv. destruct r, r0, r1.
  apply validate_preconditions_ok in E as [? ?]. apply validate_mutations_ok in E0 as [? ?].
  apply validate_replacements_ok in E1 as [? ?]. apply negb_false_iff in G. apply Z.ltb_ge in G2.
  constructor; try done. intros Ht. rewrite Ht in V.
  unfold known_version in G. rewrite Ht in G. rewrite orb_false_r in G.
  destruct (cb_Version b =? conditionalBatchVersion) eqn:V1; cbn [andb] in G0.
  { apply negb_false_iff in G0. by apply Z.eqb_eq. }
  destruct (cb_Version b =? chunkTombstoneConditionalBatchVersion) eqn:V3.
  - unfold validateChunkTombstoneConditionalBatch in V. ok_inv.
    apply orb_false_iff in G3 as [G3 _]. apply negb_false_iff in G3. by apply Z.eqb_eq.
  - destruct (cb_Version b =? chunkTombstoneFencedBatchVersion) eqn:V4; [|done].
    unfold validateChunkTombstoneFencedBatch in V. ok_inv.
    apply orb_false_iff in G3 as [G3 _]. apply negb_false_iff in G3. by apply Z.eqb_eq.
Qed.

(** ** Canonical form *)

Section Canonical.
Context (rules : version_rules).

Definition counts_ok (b : ConditionalBatch) : Prop :=
  len (cb_Preconditions b) <=
    (if allocation_batch b then 2 + 2 * MaxChunkAllocationBatch else maxConditionalPreconditions) /\
  len (cb_Mutations b) <=
    (if allocation_batch b then 2 + MaxChunkAllocationBatch else maxConditionalMutations) /\
  len (cb_PrefixReplacements b) <= maxConditionalPrefixReplacements.

Lemma canonical_inv b c :
  canonicalConditionalBatch rules (Some b) = Ok c <->
  known_version (cb_Version b) = true /\ counts_ok b /\ c = sorted_batch b /\
  validateConditionalBatch rules c = Ok tt.
Proof.
  cbn [canonicalConditionalBatch]. split.
  - intros V. ok_inv. destruct r. apply negb_false_iff in G. apply Z.ltb_ge in G0, G1, G2. by subst.
  - intros (K & (P & M & R) & -> & V). rewrite !refuse_pass by (rewrite ?K; done || by apply Z.ltb_ge).
    by rewrite V.
Qed.

(** Batches that hold the same parts in another order. *)
Definition same_parts (b b' : ConditionalBatch) : Prop :=
  cb_Version b = cb_Version b' /\ cb_ExpectedRaftTerm b = cb_ExpectedRaftTerm b' /\
  cb_Preconditions b ≡ₚ cb_Preconditions b' /\ cb_Mutations b ≡ₚ cb_Mutations b' /\
  cb_PrefixReplacements b = cb_PrefixReplacements b'.

Lemma existsb_Permutation {A} (f : A -> bool) l l' : l ≡ₚ l' -> existsb f l = existsb f l'.
Proof.
  intros P. apply eq_true_iff_eq. rewrite !existsb_exists.
  split; intros (x & Hx & Hf); exists x; (split; [|done]); apply list_elem_of_In in Hx;
    apply list_elem_of_In; by rewrite P in * || rewrite <- P in *.
Qed.

Lemma allocation_batch_parts b b' : same_parts b b' -> allocation_batch b = allocation_batch b'.
Proof.
  intros (Hv & _ & P & _). unfold allocation_batch, hasInodeAllocationPrecondition.
  by rewrite Hv, (existsb_Permutation _ _ _ P).
Qed.

Lemma counts_ok_parts b b' : same_parts b b' -> counts_ok b -> counts_ok b'.
Proof.
  intros S (P & M & R). pose proof (allocation_batch_parts b b' S) as Ha.
  destruct S as (_ & _ & Hp & Hm & Hr). unfold counts_ok. rewrite <- Ha, <- Hr.
  by rewrite <- (Permutation_length Hp), <- (Permutation_length Hm).
Qed.

(** The order the parts are given in does not matter. *)
Lemma canonical_parts b b' c :
  same_parts b b' -> canonicalConditionalBatch rules (Some b) = Ok c ->
  canonicalConditionalBatch rules (Some b') = Ok c.
Proof.
  intros S V. apply canonical_inv in V as (K & N & -> & V). pose proof (validate_canonical _ _ V) as C.
  pose proof S as (Hv & Ht & Hp & Hm & Hr). apply canonical_inv.
  assert (sorted_batch b = sorted_batch b') as Es.
  { unfold sorted_batch. rewrite Hv, Ht, Hr. f_equal.
    - symmetry. apply (merge_sort_unique cp_Key pre_le); [done|apply C|done].
    - symmetry. apply (merge_sort_unique bo_Key op_le); [done|apply C|done]. }
  rewrite <- Es, <- Hv. repeat split; try done; by apply (counts_ok_parts b b').
Qed.

(** At most the backup catalogue is replaced. *)
Lemma one_replacement b : canonical rules b -> (length (cb_PrefixReplacements b) <= 1)%nat.
Proof.
  intros C. pose proof (ca_rep _ _ C) as F. pose proof (ca_rep_keys _ _ C) as D.
  destruct (cb_PrefixReplacements b) as [|r [|r' rs]]; cbn; [lia..|].
  apply Forall_cons in F as [(P & _) F]. apply Forall_cons in F as [(P' & _) _].
  cbn in D. rewrite P, P' in D. by rewrite andb_false_r in D.
Qed.

(** Canonicalisation is idempotent. *)
Lemma canonical_fixed b c :
  canonicalConditionalBatch rules (Some b) = Ok c -> canonicalConditionalBatch rules (Some c) = Ok c.
Proof.
  intros V. apply canonical_inv in V as (K & N & -> & V). pose proof (validate_canonical _ _ V) as C.
  apply canonical_inv.
  assert (sorted_batch (sorted_batch b) = sorted_batch b) as Es.
  { assert (merge_sort pre_le (cb_Preconditions (sorted_batch b)) = cb_Preconditions (sorted_batch b)) as E1
      by (apply (merge_sort_fixed cp_Key pre_le); [done|apply C]).
    assert (merge_sort op_le (cb_Mutations (sorted_batch b)) = cb_Mutations (sorted_batch b)) as E2
      by (apply (merge_sort_fixed bo_Key op_le); [done|apply C]).
    assert (map (fun r => mkReplacement (pr_Prefix r) (merge_sort op_le (pr_Sets r)))
      (merge_sort rep_le (cb_PrefixReplacements (sorted_batch b))) =
      cb_PrefixReplacements (sorted_batch b)) as E3.
    { pose proof (one_replacement _ C) as L. pose proof (ca_rep _ _ C) as F.
      assert (merge_sort rep_le (cb_PrefixReplacements (sorted_batch b)) =
              cb_PrefixReplacements (sorted_batch b)) as ->.
      { destruct (cb_PrefixReplacements (sorted_batch b)) as [|r [|r' rs]]; [done|done|cbn in L; lia]. }
      cbn [sorted_batch cb_PrefixReplacements] in F |- *.
      rewrite map_map. apply map_ext_in. intros r Hr. rewrite Forall_forall in F.
      destruct (F _ (list_elem_of_fmap_2 _ _ _ (proj2 (list_elem_of_In _ _) Hr))) as (_ & _ & _ & D).
      cbn in *. f_equal. by apply (merge_sort_fixed bo_Key op_le). }
    clear -E1 E2 E3. revert E1 E2 E3. generalize (sorted_batch b). intros s E1 E2 E3.
    unfold sorted_batch. rewrite E1, E2, E3. by destruct s. }
  assert (counts_ok (sorted_batch b)) as N'.
  { unfold counts_ok, allocation_batch, hasInodeAllocationPrecondition, sorted_batch; cbn.
    unfold counts_ok, allocation_batch, hasInodeAllocationPrecondition in N.
    rewrite (existsb_Permutation _ _ _ (merge_sort_Permutation pre_le (cb_Preconditions b))).
    rewrite length_map, !merge_sort_Permutation. done. }
  rewrite Es. done.
Qed.
End Canonical.

(** ** Reading back what was written *)

Definition reads_back {A} (read : reads A) (write : A -> list Z) (P : A -> Prop) : Prop :=
  forall a rest, P a -> read (write a ++ rest) = Ok (a, rest).

Lemma ReadFull_app l rest : ReadFull (length l) (l ++ rest) = Ok (l, rest).
Proof.
  unfold ReadFull. rewrite length_app, (proj2 (Nat.ltb_ge _ _)) by lia.
  by rewrite take_app_length, drop_app_length.
Qed.

Lemma read_uint_enc n x rest : 0 <= x < 256 ^ Z.of_nat n -> read_uint n (be_enc n x ++ rest) = Ok (x, rest).
Proof.
  intros Hx. unfold read_uint. rewrite <- (length_be_enc n x) at 1. rewrite ReadFull_app, bind_Ok.
  by rewrite be_dec_enc, Z.mod_small.
Qed.

Lemma readBytes_back : reads_back readBytes writeBytes (fun l => len l < 2 ^ 32).
Proof.
  intros l rest Hl. unfold readBytes, writeBytes. rewrite <- app_assoc, read_uint_enc by (cbn; lia).
  rewrite bind_Ok, Nat2Z.id. apply ReadFull_app.
Qed.

Lemma readBoundedBytes_back m :
  m < 2 ^ 32 -> reads_back (readBoundedBytes m) writeBytes (fun l => len l <= m).
Proof.
  intros Hm l rest Hl. unfold readBoundedBytes, writeBytes.
  rewrite <- app_assoc, read_uint_enc by (cbn; lia). rewrite bind_Ok, Nat2Z.id.
  rewrite !refuse_pass by (apply Z.ltb_ge; rewrite ?length_app; lia). apply ReadFull_app.
Qed.

Lemma read_many_back {A} read (write : A -> list Z) P :
  reads_back read write P ->
  forall l rest, Forall P l -> read_many read (length l) (concat (map write l) ++ rest) = Ok (l, rest).
Proof.
  intros R l rest F. induction F as [|a l Ha F IH]; [done|].
  cbn [length read_many map concat]. rewrite <- app_assoc, (R a _ Ha), bind_Ok, IH. done.
Qed.

Lemma read_counted_back {A} read (write : A -> list Z) P m :
  reads_back read write P -> m < 2 ^ 32 ->
  reads_back (read_counted read m)
    (fun l => writeUint32 (len l) ++ concat (map write l)) (fun l => Forall P l /\ len l <= m).
Proof.
  intros R Hm l rest [F Hl]. unfold read_counted, readBoundedCount, writeUint32.
  rewrite <- app_assoc, read_uint_enc by (cbn; lia). rewrite bind_Ok.
  rewrite refuse_pass by (apply Z.ltb_ge; lia). rewrite bind_Ok, Nat2Z.id. by apply read_many_back with P.
Qed.

Definition op_small (m : BatchOp) : Prop :=
  len (bo_Key m) < 2 ^ 32 /\ len (bo_Value m) < 2 ^ 32 /\ (bo_Delete m = true -> bo_Value m = []).

Lemma read_batch_item_back : reads_back read_batch_item writeBatchOp op_small.
Proof.
  intros [d k v] rest (Hk & Hv & Hd). unfold writeBatchOp, read_batch_item. cbn [bo_Key bo_Value bo_Delete cp_Key cp_ExpectedValue cp_ExpectAbsent pr_Prefix pr_Sets] in *.
  destruct d; cbn [app ReadByte]; rewrite bind_Ok.
  - rewrite refuse_pass by done. rewrite readBytes_back, bind_Ok by done. change (1 =? 1) with true. cbv iota. by rewrite Hd.
  - rewrite refuse_pass by done. rewrite <- app_assoc, readBytes_back, bind_Ok by done.
    change (0 =? 1) with false. cbv iota. rewrite readBytes_back, bind_Ok by done. done.
Qed.

Lemma readBatchOp_back : reads_back readBatchOp writeBatchOp op_ok.
Proof.
  intros [d k v] rest ([_ Hk] & Hv & Hd). unfold writeBatchOp, readBatchOp. cbn [bo_Key bo_Value bo_Delete cp_Key cp_ExpectedValue cp_ExpectAbsent pr_Prefix pr_Sets] in *.
  destruct d; cbn [app ReadByte]; rewrite bind_Ok.
  - rewrite refuse_pass by done.
    rewrite readBoundedBytes_back, bind_Ok by done. change (1 =? 1) with true. cbv iota. by rewrite Hd.
  - rewrite refuse_pass by done. rewrite <- app_assoc, readBoundedBytes_back, bind_Ok by done.
    change (0 =? 1) with false. cbv iota. rewrite readBoundedBytes_back, bind_Ok by done. done.
Qed.

Lemma read_precondition_back : reads_back read_precondition write_precondition pre_ok.
Proof.
  intros [k v d] rest ([_ Hk] & Hv & Hd). unfold write_precondition, read_precondition. cbn [bo_Key bo_Value bo_Delete cp_Key cp_ExpectedValue cp_ExpectAbsent pr_Prefix pr_Sets] in *.
  destruct d; cbn [app ReadByte]; rewrite bind_Ok.
  - rewrite refuse_pass by done.
    rewrite readBoundedBytes_back, bind_Ok by done. change (1 =? 1) with true. cbv iota. by rewrite Hd.
  - rewrite refuse_pass by done. rewrite <- app_assoc, readBoundedBytes_back, bind_Ok by done.
    change (0 =? 1) with false. cbv iota. rewrite readBoundedBytes_back, bind_Ok by done. done.
Qed.

Lemma read_set_back : reads_back read_set write_set (fun m => op_ok m /\ bo_Delete m = false).
Proof.
  intros [d k v] rest (([_ Hk] & Hv & _) & Hd). unfold write_set, read_set. cbn [bo_Key bo_Value bo_Delete cp_Key cp_ExpectedValue cp_ExpectAbsent pr_Prefix pr_Sets] in *. subst d.
  rewrite <- app_assoc, !readBoundedBytes_back, bind_Ok by done.
  rewrite readBoundedBytes_back, bind_Ok by done. done.
Qed.

Lemma read_replacement_back : reads_back read_replacement write_replacement rep_ok.
Proof.
  intros [p sets] rest (Hp & Hl & F & _). unfold write_replacement, read_replacement. cbn [bo_Key bo_Value bo_Delete cp_Key cp_ExpectedValue cp_ExpectAbsent pr_Prefix pr_Sets] in *. subst p.
  rewrite <- app_assoc, readBoundedBytes_back, bind_Ok by done.
  rewrite (read_counted_back read_set write_set _ _ read_set_back) by done. done.
Qed.

(** ** Sizes *)

Lemma len_writeBytes l : len (writeBytes l) = 4 + len l.
Proof. unfold writeBytes. rewrite length_app, length_be_enc. lia. Qed.

Lemma len_concat {A} (write : A -> list Z) (size : A -> Z) l :
  (forall a, len (write a) = size a) -> len (concat (map write l)) = zsum (map size l).
Proof.
  intros Hs. induction l as [|a l IH]; [done|]. cbn [map concat zsum foldr].
  rewrite length_app, Nat2Z.inj_add, IH, Hs. done.
Qed.

Lemma len_cons {A} (a : A) l : len (a :: l) = 1 + len l.
Proof. cbn [length]. lia. Qed.

Lemma len_app {A} (l k : list A) : len (l ++ k) = len l + len k.
Proof. rewrite length_app. lia. Qed.

(** [conditionalBatchEncodedSize] is the length of the encoding. *)
Lemma len_write_conditional b :
  len (OpConditionalBatch :: write_conditional b) = conditionalBatchEncodedSize b.
Proof.
  unfold write_conditional, writeUint32, conditionalBatchEncodedSize.
  rewrite len_cons, !len_app, !length_be_enc, len_cons.
  rewrite (len_concat write_precondition precondition_size), (len_concat writeBatchOp mutation_size),
    (len_concat write_replacement replacement_size).
  - destruct (cb_Version b =? conditionalBatchTermFencedVersion); rewrite ?length_be_enc; cbn; lia.
  - intros r. unfold write_replacement, writeUint32, replacement_size.
    rewrite !len_app, len_writeBytes, length_be_enc, (len_concat write_set set_size); [lia|].
    intros m. unfold write_set, set_size. rewrite len_app, !len_writeBytes. lia.
  - intros m. unfold writeBatchOp, mutation_size.
    destruct (bo_Delete m); rewrite len_cons, ?len_app, !len_writeBytes; lia.
  - intros m. unfold write_precondition, precondition_size.
    destruct (cp_ExpectAbsent m); rewrite len_cons, ?len_app, !len_writeBytes; lia.
Qed.

(** ** Entries *)

Section Entries.
Context (rules : version_rules).

(** What survives the wire: the fields the operation uses, a conditional
    batch in canonical form. *)
Definition carried (e : RaftLogEntry) : mgo RaftLogEntry :=
  let op := re_Op e in
  if (op =? OpSet) || (op =? OpCAS) then Ok (mkRaftLogEntry op (re_Key e) (re_Value e) [] None)
  else if op =? OpDelete then Ok (mkRaftLogEntry op (re_Key e) [] [] None)
  else if op =? OpBatch then Ok (mkRaftLogEntry op [] [] (re_Batch e) None)
  else if op =? OpConditionalBatch then
    let! c := canonicalConditionalBatch rules (re_Conditional e) in
    Ok (mkRaftLogEntry op [] [] [] (Some c))
  else Err (MErrorf "unknown op type").

(** Lengths the four-byte counts can express. *)
Definition entry_small (e : RaftLogEntry) : Prop :=
  len (re_Key e) < 2 ^ 32 /\ len (re_Value e) < 2 ^ 32 /\ len (re_Batch e) < 2 ^ 32 /\
  Forall op_small (re_Batch e) /\
  forall b, re_Conditional e = Some b -> is_u64 (cb_ExpectedRaftTerm b).

Lemma len_batch_items l : 5 * len l <= len (concat (map writeBatchOp l)).
Proof.
  induction l as [|m l IH]; [done|]. cbn [map concat]. rewrite len_cons, len_app.
  assert (5 <= len (writeBatchOp m)); [|lia].
  unfold writeBatchOp. destruct (bo_Delete m); rewrite len_cons, ?len_app, len_writeBytes; lia.
Qed.

(** The counts a reader accepts cover every canonical batch. *)
Lemma canonical_counts b c :
  canonicalConditionalBatch rules (Some b) = Ok c ->
  let fenced := cb_Version c =? chunkTombstoneFencedBatchVersion in
  len (cb_Preconditions c) <=
    (if fenced then 2 + 2 * MaxChunkAllocationBatch else maxConditionalPreconditions) /\
  len (cb_Mutations c) <= (if fenced then 2 + MaxChunkAllocationBatch else maxConditionalMutations) /\
  len (cb_PrefixReplacements c) <= maxConditionalPrefixReplacements.
Proof.
  intros V fenced. apply canonical_fixed in V. apply canonical_inv in V as (K & (P & M & R) & _ & V).
  unfold fenced, allocation_batch in *.
  destruct (cb_Version c =? chunkTombstoneFencedBatchVersion) eqn:V4; cbn [andb] in *; [|done].
  destruct (hasInodeAllocationPrecondition (cb_Preconditions c)) eqn:Ha; [done|].
  unfold validateConditionalBatch in V. ok_inv. apply Z.eqb_eq in V4. rewrite V4 in V.
  change (chunkTombstoneFencedBatchVersion =? conditionalBatchTermFencedVersion) with false in V.
  change (chunkTombstoneFencedBatchVersion =? chunkTombstoneConditionalBatchVersion) with false in V.
  rewrite Z.eqb_refl in V. cbv iota in V. unfold validateChunkTombstoneFencedBatch in V. ok_inv.
  rewrite Ha in V. unfold MaxChunkAllocationBatch, maxConditionalPreconditions in *.
  destruct (Z.eqb_spec (len (cb_Mutations c)) 1); [lia|].
  destruct (Z.eqb_spec (len (cb_Mutations c)) 2); [lia|discriminate].
Qed.

Lemma decodeConditionalBatch_back b c :
  is_u64 (cb_ExpectedRaftTerm b) -> canonicalConditionalBatch rules (Some b) = Ok c ->
  decodeConditionalBatch rules (write_conditional c) = Ok (c, []).
Proof.
  intros Ht V. pose proof (canonical_counts b c V) as (P & M & R). cbv zeta in P, M, R.
  pose proof (canonical_fixed _ _ _ V) as Vc.
  assert (cb_ExpectedRaftTerm c = cb_ExpectedRaftTerm b) as Hterm
    by (by apply canonical_inv in V as (_ & _ & -> & _)).
  apply canonical_inv in V as (_ & _ & _ & Hv). pose proof (validate_canonical _ _ Hv) as C.
  unfold write_conditional, decodeConditionalBatch. cbn [app ReadByte]. rewrite bind_Ok.
  rewrite refuse_pass by (by rewrite (ca_version _ _ C)).
  assert (forall tail : list Z,
    let v2 := cb_Version c =? conditionalBatchTermFencedVersion in
    let bytes := (if v2 then be_enc 8 (cb_ExpectedRaftTerm c) else []) ++ tail in
    (if v2 then read_uint 8 bytes else Ok (0, bytes)) = Ok (cb_ExpectedRaftTerm c, tail)) as Hhead.
  { intros tail. cbv zeta. destruct (cb_Version c =? conditionalBatchTermFencedVersion) eqn:V2.
    - apply read_uint_enc. rewrite Hterm. exact Ht.
    - by rewrite (ca_term _ _ C V2). }
  cbv zeta in Hhead. rewrite Hhead.
  rewrite bind_Ok. cbv zeta.
  assert (forall (f : bool) (x y : Z), x < 2 ^ 32 -> y < 2 ^ 32 -> (if f then x else y) < 2 ^ 32) as Hif
    by (by intros []).
  rewrite (app_assoc (writeUint32 (len (cb_Preconditions c)))).
  rewrite (read_counted_back read_precondition write_precondition _ _ read_precondition_back)
    by (split; [apply C|done] || by apply Hif). rewrite bind_Ok.
  rewrite (app_assoc (writeUint32 (len (cb_Mutations c)))).
  rewrite (read_counted_back readBatchOp writeBatchOp _ _ readBatchOp_back)
    by (split; [apply C|done] || by apply Hif). rewrite bind_Ok.
  rewrite <- (app_nil_r (writeUint32 (len (cb_PrefixReplacements c)) ++ _)).
  rewrite (read_counted_back read_replacement write_replacement _ _ read_replacement_back)
    by (split; [apply C|done] || done). rewrite bind_Ok.
  assert (mkConditionalBatch (cb_Version c) (cb_ExpectedRaftTerm c) (cb_Preconditions c)
    (cb_Mutations c) (cb_PrefixReplacements c) = c) as -> by (by destruct c).
  by rewrite Vc.
Qed.

Lemma decode_encode e data :
  entry_small e -> EncodeChecked rules e = Ok data -> DecodeRaftLogEntry rules data = carried e.
Proof.
  intros (Hk & Hv & Hb & Hf & Ht) E. unfold EncodeChecked in E. unfold carried.
  destruct (Z.eqb_spec (re_Op e) OpSet) as [Es|_].
  { ok_inv. subst data. rewrite Es. cbn [DecodeRaftLogEntry]. rewrite refuse_pass by done.
    op_tests. rewrite readBytes_back, bind_Ok by done.
    rewrite <- (app_nil_r (writeBytes (re_Value e))), readBytes_back, !bind_Ok by done. done. }
  destruct (Z.eqb_spec (re_Op e) OpDelete) as [Es|_].
  { ok_inv. subst data. rewrite Es. cbn [DecodeRaftLogEntry]. rewrite refuse_pass by done.
    rewrite <- (app_nil_r (writeBytes (re_Key e))).
    op_tests. rewrite readBytes_back, !bind_Ok by done. done. }
  destruct (Z.eqb_spec (re_Op e) OpBatch) as [Es|_].
  { ok_inv. subst data. rewrite Es. cbn [DecodeRaftLogEntry]. rewrite refuse_pass by done.
    op_tests. unfold writeUint32. rewrite read_uint_enc, bind_Ok by (cbn; lia).
    pose proof (len_batch_items (re_Batch e)) as L.
    rewrite refuse_pass by (apply Z.ltb_ge, Z.div_le_lower_bound; lia). rewrite Nat2Z.id.
    rewrite <- (app_nil_r (concat _)), (read_many_back _ _ _ read_batch_item_back) by done.
    rewrite !bind_Ok. done. }
  destruct (Z.eqb_spec (re_Op e) OpCAS) as [Es|_].
  { ok_inv. subst data. rewrite Es. cbn [DecodeRaftLogEntry]. rewrite refuse_pass by done.
    op_tests. rewrite readBytes_back, bind_Ok by done.
    rewrite <- (app_nil_r (writeBytes (re_Value e))), readBytes_back, !bind_Ok by done. done. }
  cbn [orb]. destruct (Z.eqb_spec (re_Op e) OpConditionalBatch) as [Es|_]; [|done].
  destruct (re_Conditional e) as [b|] eqn:Hc; [|done].
  apply bind_Ok_inv in E as (c & V & E). rewrite V, bind_Ok. ok_inv. subst data. rewrite Es in *.
  cbn [DecodeRaftLogEntry]. op_tests. rewrite refuse_pass by done. rewrite (decodeConditionalBatch_back b c) by auto. rewrite !bind_Ok. done.
Qed.

(** Encoding an acceptable batch does not fail. *)
Lemma encode_conditional b c :
  canonicalConditionalBatch rules (Some b) = Ok c ->
  EncodeChecked rules (mkRaftLogEntry OpConditionalBatch [] [] [] (Some b)) =
    Ok (OpConditionalBatch :: write_conditional c).
Proof.
  intros V. unfold EncodeChecked. cbn [re_Op re_Conditional].
  op_tests. rewrite V, bind_Ok.
  apply canonical_inv in V as (_ & _ & _ & V). apply validate_canonical in V as C.
  rewrite refuse_pass; [done|]. rewrite len_write_conditional. apply Z.ltb_ge, C.
Qed.
End Entries.

Section Batches.
Context {DB : Type} `{KL : PebbleLaws DB}.

Lemma kv_get_apply_op (db : DB) op k :
  kv_get (apply_op db op) k = if bool_decide (bo_Key op = k) then op_value op else kv_get db k.
Proof.
  unfold apply_op, op_value. destruct (bo_Delete op); [apply kv_get_delete|apply kv_get_set].
Qed.

(** Keys a batch does not name keep their rows. *)
Lemma kv_get_ops_other ops (db : DB) k :
  k ∉ map bo_Key ops -> kv_get (fold_left apply_op ops db) k = kv_get db k.
Proof.
  revert db. induction ops as [|op ops IH]; intros db Hk; [done|]. cbn [map fold_left] in *.
  apply not_elem_of_cons in Hk as [Hne Hk]. rewrite IH by done.
  rewrite kv_get_apply_op, bool_decide_eq_false_2; [done|congruence].
Qed.

(** With distinct keys each named row gets its value. *)
Lemma kv_get_ops ops (db : DB) op :
  (forall o, o ∈ ops -> bo_Key o = bo_Key op -> o = op) -> op ∈ ops ->
  kv_get (fold_left apply_op ops db) (bo_Key op) = op_value op.
Proof.
  revert db. induction ops as [|o ops IH]; intros db Hu Hin; [by apply not_elem_of_nil in Hin|].
  cbn [fold_left]. destruct (decide (bo_Key op ∈ map bo_Key ops)) as [Hk|Hk].
  - apply list_elem_of_fmap in Hk as (o' & E & Ho').
    assert (o' = op) as -> by (apply Hu; [by right|done]). apply IH; [|done].
    intros o1 H1. apply Hu. by right.
  - rewrite kv_get_ops_other by done. apply elem_of_cons in Hin as [->|Hin].
    + by rewrite kv_get_apply_op, bool_decide_eq_true_2.
    + exfalso. apply Hk. by apply list_elem_of_fmap_2.
Qed.

(** ** Preconditions *)

Definition pre_holds (db : DB) (p : ConditionalPrecondition) : Prop :=
  kv_get db (cp_Key p) = if cp_ExpectAbsent p then None else Some (cp_ExpectedValue p).

#[global] Instance pre_holds_dec (db : DB) p : Decision (pre_holds db p).
Proof. unfold pre_holds. apply _. Defined.

Lemma check_preconditions_spec (db : DB) ps :
  check_preconditions db ps =
    if bool_decide (Forall (pre_holds db) ps) then Ok tt else Err ErrRaftConditionalConflict.
Proof.
  induction ps as [|p ps IH]; [done|]. cbn [check_preconditions]. rewrite IH. unfold pre_holds at 3.
  destruct (decide (pre_holds db p)) as [Hp|Hp].
  - rewrite (bool_decide_ext (Forall (pre_holds db) (p :: ps)) (Forall (pre_holds db) ps))
      by (rewrite Forall_cons; tauto).
    unfold pre_holds in Hp. destruct (cp_ExpectAbsent p); rewrite Hp; [done|].
    by rewrite bool_decide_eq_true_2.
  - rewrite (bool_decide_eq_false_2 (Forall (pre_holds db) (p :: ps))) by (rewrite Forall_cons; tauto).
    unfold pre_holds in Hp.
    destruct (kv_get db (cp_Key p)) as [cur|], (cp_ExpectAbsent p); try done.
    rewrite bool_decide_eq_false_2 by congruence. done.
Qed.

(** ** Conditional batches without replacements *)

Context (rules : version_rules).

(** What a simultaneous update with these operations does to the rows. *)
Definition updated (db db' : DB) (ops : list BatchOp) : Prop :=
  (forall op, op ∈ ops -> kv_get db' (bo_Key op) = op_value op) /\
  (forall k, k ∉ map bo_Key ops -> kv_get db' k = kv_get db k).

Lemma canonical_distinct b c o o' :
  canonicalConditionalBatch rules (Some b) = Ok c -> o ∈ cb_Mutations c -> o' ∈ cb_Mutations c ->
  bo_Key o = bo_Key o' -> o = o'.
Proof.
  intros V. apply canonical_inv in V as (_ & _ & -> & V). pose proof (validate_canonical _ _ V) as C.
  intros Ho Ho'. eapply (sorted_distinct bo_Key op_le); try done; [|apply C|done..].
  apply StronglySorted_merge_sort; apply _.
Qed.

Lemma conditional_exact hook fail (db : DB) b c :
  canonicalConditionalBatch rules (Some b) = Ok c -> cb_PrefixReplacements b = [] ->
  match applyConditionalBatchWithHook rules hook fail db (Some b) with
  | Ok db' => hook = None /\ fail = None /\ Forall (pre_holds db) (cb_Preconditions b) /\
              updated db db' (cb_Mutations b)
  | Err e => (~ Forall (pre_holds db) (cb_Preconditions b) /\ e = ErrRaftConditionalConflict) \/
             (Forall (pre_holds db) (cb_Preconditions b) /\
              (hook = Some e \/ hook = None /\ fail = Some e))
  end.
Proof.
  intros V Hr. unfold applyConditionalBatchWithHook. rewrite V, bind_Ok, check_preconditions_spec.
  pose proof V as V'. apply canonical_inv in V' as (_ & _ & Hc & _).
  assert (Forall (pre_holds db) (cb_Preconditions c) <-> Forall (pre_holds db) (cb_Preconditions b)) as Hp.
  { subst c. cbn. by rewrite merge_sort_Permutation. }
  rewrite (bool_decide_ext _ _ Hp). case_bool_decide as Hps; cbn [mbind result_bind].
  2:{ by left. }
  assert (cb_PrefixReplacements c = []) as Hrc by (subst c; cbn; by rewrite Hr).
  rewrite Hrc. cbn [map concat]. rewrite app_nil_r.
  destruct hook as [e|]; [by right; auto|]. unfold commit_batch. destruct fail as [e|]; [by right; auto|].
  split; [done|]. split; [done|]. split; [done|].
  assert (cb_Mutations c ≡ₚ cb_Mutations b) as Hm by (subst c; apply merge_sort_Permutation).
  split.
  - intros op Hop. apply kv_get_ops; [|by rewrite Hm].
    intros o Ho E. eapply canonical_distinct; try done. by rewrite Hm.
  - intros k Hk. apply kv_get_ops_other. by rewrite Hm.
Qed.

(** The batch's effect is that of its operations one after the other, in the
    order they were given. *)
Lemma conditional_in_order hook fail (db db' : DB) b k :
  cb_PrefixReplacements b = [] ->
  applyConditionalBatchWithHook rules hook fail db (Some b) = Ok db' ->
  Forall (pre_holds db) (cb_Preconditions b) /\
  kv_get db' k = kv_get (fold_left apply_op (cb_Mutations b) db) k.
Proof.
  intros Hr E. destruct (canonicalConditionalBatch rules (Some b)) as [c|e] eqn:V.
  2:{ unfold applyConditionalBatchWithHook in E. rewrite V in E. discriminate E. }
  pose proof (conditional_exact hook fail db b c V Hr) as X. rewrite E in X.
  destruct X as (_ & _ & Hp & A & B). split; [done|].
  assert (cb_Mutations c ≡ₚ cb_Mutations b) as Hm.
  { apply canonical_inv in V as (_ & _ & -> & _). apply merge_sort_Permutation. }
  destruct (decide (k ∈ map bo_Key (cb_Mutations b))) as [Hk|Hk].
  - apply list_elem_of_fmap in Hk as (op & -> & Hop). rewrite A by done. symmetry.
    apply kv_get_ops; [|done]. intros o Ho Eo. eapply canonical_distinct; [exact V| | |done]; by rewrite Hm.
  - by rewrite B, kv_get_ops_other.
Qed.

(** ** Prefix replacements *)

Definition catalog_range (k : list Z) : bool := in_range prefixBackupCatalog (prefixUpperBound prefixBackupCatalog) k.

(** The operations a replacement is turned into, over rows of one range. *)
Lemma replacement_rows (db db1 : DB) sets k :
  (catalog_range k = true -> kv_get db1 k = kv_get db k) ->
  (forall o o', o ∈ sets -> o' ∈ sets -> bo_Key o = bo_Key o' -> o = o') ->
  Forall (fun o => bo_Delete o = false) sets ->
  let db' := fold_left apply_op (replacement_ops db (mkReplacement prefixBackupCatalog sets)) db1 in
  (forall o, o ∈ sets -> kv_get db' (bo_Key o) = Some (bo_Value o)) /\
  (k ∉ map bo_Key sets -> kv_get db' k = if catalog_range k then None else kv_get db1 k).
Proof.
  intros H1 Hd Hf db'. subst db'. unfold replacement_ops. cbn [pr_Prefix pr_Sets]. rewrite fold_left_app.
  set (dels := map (fun kv : row => mkBatchOp true kv.1 [])
    (kv_range db prefixBackupCatalog (prefixUpperBound prefixBackupCatalog))).
  set (ss := map (fun op => mkBatchOp false (bo_Key op) (bo_Value op)) sets).
  assert (map bo_Key ss = map bo_Key sets) as Ek by (unfold ss; by rewrite map_map).
  split.
  - intros o Ho. rewrite Forall_forall in Hf.
    apply (kv_get_ops ss _ (mkBatchOp false (bo_Key o) (bo_Value o))).
    + intros o' (x & -> & Hx)%list_elem_of_fmap Eo. cbn [bo_Key] in Eo. by rewrite (Hd x o Hx Ho Eo).
    + apply list_elem_of_fmap. by exists o.
  - intros Hk. rewrite kv_get_ops_other by by rewrite Ek.
    destruct (decide (k ∈ map bo_Key dels)) as [(x & -> & Hx)%list_elem_of_fmap|Hn].
    + assert (x = mkBatchOp true (bo_Key x) [] /\ catalog_range (bo_Key x) = true) as [Ex Er].
      { apply list_elem_of_fmap in Hx as ([k v] & -> & Hx). by apply elem_of_kv_range in Hx as [_ Hx]. }
      rewrite Er. rewrite (kv_get_ops dels _ x); [by rewrite Ex| |done].
      intros o (y & -> & Hy)%list_elem_of_fmap Eo. rewrite Ex. by f_equal.
    + rewrite kv_get_ops_other by done. destruct (catalog_range k) eqn:Er; [|done]. rewrite H1 by done.
      destruct (kv_get db k) as [v|] eqn:Ev; [|done]. destruct Hn. apply list_elem_of_fmap.
      exists (mkBatchOp true k []). split; [done|]. apply list_elem_of_fmap. exists (k, v). split; [done|].
      by apply elem_of_kv_range.
Qed.

(** What validation establishes of a replacement. *)
Lemma validated_sets prefix prev ms m :
  validate_sets prefix prev ms = Ok tt -> m ∈ ms -> HasPrefix (bo_Key m) prefix = true.
Proof.
  revert prev. induction ms as [|x ms IH]; intros prev V Hm; [by apply not_elem_of_nil in Hm|].
  cbn [validate_sets] in V. ok_inv. apply elem_of_cons in Hm as [->|Hm]; [|by eapply IH].
  apply orb_false_iff in G0 as [G0 _]. by apply negb_false_iff.
Qed.

Lemma validated_replacement muts prev rs r :
  validate_replacements muts prev rs = Ok tt -> r ∈ rs ->
  (forall m, m ∈ muts -> HasPrefix (bo_Key m) (pr_Prefix r) = false) /\
  (forall m, m ∈ pr_Sets r -> HasPrefix (bo_Key m) (pr_Prefix r) = true).
Proof.
  revert prev. induction rs as [|x rs IH]; intros prev V Hr; [by apply not_elem_of_nil in Hr|].
  cbn [validate_replacements] in V. ok_inv. apply elem_of_cons in Hr as [->|Hr]; [|by eapply IH].
  split.
  - intros m Hm. destruct (HasPrefix (bo_Key m) (pr_Prefix x)) eqn:Hp; [|done].
    assert (existsb (fun m => HasPrefix (bo_Key m) (pr_Prefix x)) muts = true); [|congruence].
    apply existsb_exists. exists m. by rewrite <- list_elem_of_In.
  - intros m Hm. destruct r1. by eapply validated_sets.
Qed.

(** The rows after a batch: its mutations, the sets of its replacements,
    nothing else under a replaced prefix, and the rest as before. *)
Record replaced (db db' : DB) (b : ConditionalBatch) : Prop := mkReplaced {
  rd_mutated op : op ∈ cb_Mutations b -> bytes_wf (bo_Key op) -> kv_get db' (bo_Key op) = op_value op;
  rd_set r op : r ∈ cb_PrefixReplacements b -> op ∈ pr_Sets r ->
    kv_get db' (bo_Key op) = Some (bo_Value op);
  rd_dropped r k : r ∈ cb_PrefixReplacements b -> bytes_wf k -> HasPrefix k (pr_Prefix r) = true ->
    k ∉ map bo_Key (pr_Sets r) -> kv_get db' k = None;
  rd_other k : bytes_wf k -> k ∉ map bo_Key (cb_Mutations b) ->
    (forall r, r ∈ cb_PrefixReplacements b -> HasPrefix k (pr_Prefix r) = false) ->
    kv_get db' k = kv_get db k
}.

Lemma replaced_canonical (db : DB) b c :
  canonicalConditionalBatch rules (Some b) = Ok c ->
  replaced db (fold_left apply_op (cb_Mutations c ++ concat (map (replacement_ops db) (cb_PrefixReplacements c))) db) c.
Proof.
  intros V. pose proof V as V'. apply canonical_inv in V' as (_ & _ & Hc & Vc).
  pose proof (validate_canonical _ _ Vc) as C. pose proof (one_replacement _ _ C) as L.
  pose proof (ca_rep _ _ C) as F. set (ms := cb_Mutations c) in *.
  assert (forall op, op ∈ ms -> kv_get (fold_left apply_op ms db) (bo_Key op) = op_value op) as Hm.
  { intros op Hop. apply kv_get_ops; [|done]. intros o Ho E. by eapply canonical_distinct. }
  destruct (cb_PrefixReplacements c) as [|r [|r' rs]] eqn:Er; [| |cbn in L; lia].
  { cbn [map concat]. rewrite app_nil_r. constructor; rewrite ?Er.
    - intros op Hop _. by apply Hm.
    - by intros r op ?%not_elem_of_nil.
    - by intros r k ?%not_elem_of_nil.
    - intros k _ Hk _. by apply kv_get_ops_other. }
  unfold validateConditionalBatch in Vc. ok_inv. rewrite Er in E1. destruct r2.
  destruct (validated_replacement _ _ _ r E1) as [Hdis Hset]; [by left|].
  apply Forall_cons in F as [(Hp & _ & Fs & Ad) _].
  assert (forall o o', o ∈ pr_Sets r -> o' ∈ pr_Sets r -> bo_Key o = bo_Key o' -> o = o') as Hd.
  { apply (sorted_distinct bo_Key op_le); [done| |done].
    assert (r ∈ cb_PrefixReplacements c) as Hin by (rewrite Er; by left). subst c.
    apply list_elem_of_fmap in Hin as (x & -> & _). cbn. apply StronglySorted_merge_sort; apply _. }
  assert (forall k, bytes_wf k -> catalog_range k = HasPrefix k (pr_Prefix r)) as Hr
    by (intros k Hk; rewrite Hp; apply in_range_prefix; [apply str_wf|done]).
  assert (Forall (fun o => bo_Delete o = false) (pr_Sets r)) as Fd by (eapply Forall_impl; [exact Fs|by intros ? [_ ?]]).
  cbn [map concat]. rewrite app_nil_r, fold_left_app. set (db1 := fold_left apply_op ms db) in *.
  replace r with (mkReplacement prefixBackupCatalog (pr_Sets r)) at 1 by (rewrite <- Hp; by destruct r).
  assert (forall k, bytes_wf k -> catalog_range k = true -> kv_get db1 k = kv_get db k) as H1.
  { intros k Hk Hc1. apply kv_get_ops_other. intros (m & -> & Hmm)%list_elem_of_fmap.
    rewrite Hr, Hdis in Hc1 by done. done. }
  pose proof (fun k Hk => proj2 (replacement_rows db db1 (pr_Sets r) k (H1 k Hk) Hd Fd)) as R.
  assert (forall k, HasPrefix k (pr_Prefix r) = false -> k ∉ map bo_Key (pr_Sets r)) as Hn.
  { intros k Hk (m & -> & Hmm)%list_elem_of_fmap. rewrite Hset in Hk by done. done. }
  constructor; rewrite ?Er.
  - intros op Hop Hk. pose proof (Hdis op Hop) as Hx. rewrite (R _ Hk (Hn _ Hx)), Hr, Hx by done. by apply Hm.
  - intros x op ->%list_elem_of_singleton Hop.
    exact (proj1 (replacement_rows db db1 (pr_Sets r) [] (H1 [] ltac:(constructor)) Hd Fd) op Hop).
  - intros x k ->%list_elem_of_singleton Hk Hx Hni. by rewrite (R k Hk Hni), Hr, Hx.
  - intros k Hk Hni Hx. specialize (Hx r ltac:(by left)). rewrite (R k Hk (Hn k Hx)), Hr, Hx by done.
    by apply kv_get_ops_other.
Qed.

(** A batch and its sorted copy ask for the same. *)
Lemma replaced_sorted (db db' : DB) b : replaced db db' (sorted_batch b) -> replaced db db' b.
Proof.
  assert (forall op, op ∈ cb_Mutations (sorted_batch b) <-> op ∈ cb_Mutations b) as Hm
    by (intros op; cbn; by rewrite merge_sort_Permutation).
  assert (forall r, r ∈ cb_PrefixReplacements b ->
    mkReplacement (pr_Prefix r) (merge_sort op_le (pr_Sets r)) ∈ cb_PrefixReplacements (sorted_batch b)) as Hin.
  { intros r Hr. apply list_elem_of_fmap. exists r. split; [done|]. by rewrite merge_sort_Permutation. }
  intros [H1 H2 H3 H4]. constructor.
  - intros op Hop. by apply H1, Hm.
  - intros r op Hr Hop. eapply H2; [by apply Hin|]. cbn. by rewrite merge_sort_Permutation.
  - intros r k Hr Hk Hx Hn. eapply H3; [by apply Hin|done..|]. cbn. by rewrite merge_sort_Permutation.
  - intros k Hk Hn Hx. apply H4; [done| |].
    + intros (op & -> & Hop%Hm)%list_elem_of_fmap. by apply Hn, list_elem_of_fmap_2.
    + intros r (x & -> & Hr)%list_elem_of_fmap. rewrite merge_sort_Permutation in Hr. cbn. by apply Hx.
Qed.

(** A conditional batch is refused by its checks, by a precondition, by the
    hook or by Pebble, or takes effect as a whole. *)
Lemma conditional_atomic hook fail (db : DB) b :
  match applyConditionalBatchWithHook rules hook fail db (Some b) with
  | Ok db' => is_ok (canonicalConditionalBatch rules (Some b)) = true /\ hook = None /\ fail = None /\
              Forall (pre_holds db) (cb_Preconditions b) /\ replaced db db' b
  | Err e => canonicalConditionalBatch rules (Some b) = Err e \/
             is_ok (canonicalConditionalBatch rules (Some b)) = true /\
             (~ Forall (pre_holds db) (cb_Preconditions b) /\ e = ErrRaftConditionalConflict \/
              Forall (pre_holds db) (cb_Preconditions b) /\ (hook = Some e \/ hook = None /\ fail = Some e))
  end.
Proof.
  unfold applyConditionalBatchWithHook.
  destruct (canonicalConditionalBatch rules (Some b)) as [c|e] eqn:V; cbn [mbind result_bind is_ok]; [|by left].
  rewrite check_preconditions_spec. pose proof (replaced_canonical db b c V) as R.
  apply canonical_inv in V as (_ & _ & -> & _).
  assert (Forall (pre_holds db) (cb_Preconditions (sorted_batch b)) <-> Forall (pre_holds db) (cb_Preconditions b)) as Hp
    by (cbn; by rewrite merge_sort_Permutation).
  rewrite (bool_decide_ext _ _ Hp). case_bool_decide as Hps; cbn [mbind result_bind]; [|by right; auto].
  destruct hook as [e|]; [by right; auto|]. unfold commit_batch. destruct fail as [e|]; [by right; auto 6|].
  do 4 (split; [done|]). by apply replaced_sorted.
Qed.

(** Two states with the same rows. *)
Lemma updated_unique db db1 db2 ops k :
  updated db db1 ops -> updated db db2 ops -> kv_get db1 k = kv_get db2 k.
Proof.
  intros [A1 B1] [A2 B2]. destruct (decide (k ∈ map bo_Key ops)) as [Hk|Hk].
  - apply list_elem_of_fmap in Hk as (op & -> & Hop). by rewrite A1, A2.
  - by rewrite B1, B2.
Qed.

(** ** Through the log *)

Context `{CI : Codec InodeMeta} `{CV : Codec InodeWithVersion}.

(** Replicating a batch and applying the log entry is applying the batch. *)
Lemma Apply_conditional hook fail index term b (r : Replica (DB := DB)) data :
  EncodeChecked rules (mkRaftLogEntry OpConditionalBatch [] [] [] (Some b)) = Ok data ->
  is_u64 (cb_ExpectedRaftTerm b) ->
  Apply rules hook fail index term data r =
    let consumed := mkReplica (r_db r) (r_inCache r) (r_lastAppliedIndex r) (r_lastAppliedTerm r) index in
    if bool_decide (cb_ExpectedRaftTerm b = 0 \/ cb_ExpectedRaftTerm b = term) then
      match applyConditionalBatchWithHook rules hook fail (r_db r) (Some b) with
      | Ok db => (mkReplica db (r_inCache r) index term index, None)
      | Err e => (consumed, Some e)
      end
    else (consumed, Some ErrRaftConditionalConflict).
Proof.
  intros E Hu.
  assert (entry_small (mkRaftLogEntry OpConditionalBatch [] [] [] (Some b))) as Hs.
  { split; [done|]. split; [done|]. split; [done|]. split; [done|]. intros b' [= <-]. done. }
  pose proof (decode_encode rules _ data Hs E) as D.
  unfold carried in D. cbn [re_Op re_Conditional] in D.
  op_tests_in D.
  destruct (canonicalConditionalBatch rules (Some b)) as [c|e] eqn:V.
  2:{ unfold EncodeChecked in E. cbn [re_Op re_Conditional] in E.
      op_tests_in E. rewrite V in E. discriminate E. }
  rewrite bind_Ok in D. unfold Apply. rewrite D.
  destruct data as [|x data]; [discriminate D|].
  unfold apply_entry. cbn [re_Op re_Conditional].
  op_tests.
  assert (cb_ExpectedRaftTerm c = cb_ExpectedRaftTerm b) as Hterm
    by (by apply canonical_inv in V as (_ & _ & -> & _)).
  rewrite Hterm. cbv zeta. case_bool_decide as Ht.
  - rewrite refuse_pass by (destruct Ht as [->| ->]; [done|]; by rewrite Z.eqb_refl, andb_false_r).
    unfold applyConditionalBatchWithHook. rewrite (canonical_fixed _ _ _ V), V, !bind_Ok.
    by destruct (mbind _ _) as [db|e].
  - destruct (Z.eqb_spec (cb_ExpectedRaftTerm b) 0), (Z.eqb_spec (cb_ExpectedRaftTerm b) term); tauto || done.
Qed.
End Batches.
