(* ===== verification/NamespaceSpec.v ===== *)
(** * The namespace against its specification

    The abstract file system is a map of directory entries and a map of inode
    rows. Every operation of [Namespace.v], in every environment, takes a
    store that represents a well-formed file system to one that does:
    success has the operation's effect on the two maps, an error leaves them
    alone (for [Rename], up to the removal of the destination). Well-formed
    means that entries name existing inodes of their type, that the link
    count of a file is the number of its entries, and that a directory has at
    most one. *)

From stdpp Require Import base list sorting numbers strings gmap.
From Stdlib Require Import ZArith Lia.
From S2P Require Import Prelude Bytes Pebble MetaKeys MetaScan MetaTypes RaftLog MetaFSMProofs.
From S2P Require Import MetaFSM Namespace MetaFSMProofs.

Local Open Scope Z_scope.
Local Open Scope go_scope.
Local Open Scope ns_scope.

(** ** Abstract file systems *)

(** A row at [/inode/<id>] in either model. *)
Inductive inode_row : Type :=
| R1 (m : InodeMeta)
| R2 (m : InodeMetaV2).

Definition view1 (r : inode_row) : InodeMeta := match r with R1 m => m | R2 m => v1_of_v2 m end.
Definition view2 (r : inode_row) : InodeMetaV2 := match r with R1 m => v2_of_v1 m | R2 m => m end.

Definition r_id (r : inode_row) : Z := i2_ID (view2 r).
Definition r_type (r : inode_row) : Z := i2_Type (view2 r).
Definition r_nlink (r : inode_row) : Z := i2_NLink (view2 r).

Record fs := mkFs {
  f_entries : gmap (Z * list Z) DirEntry;
  f_inodes : gmap Z inode_row
}.

(** The number of entries of an inode. *)
Definition links (f : fs) (id : Z) : nat :=
  size (filter (fun kv => de_InodeID kv.2 = id) (f_entries f)).

Record fs_wf (f : fs) : Prop := mkFsWf {
  fw_entry p n e : f_entries f !! (p, n) = Some e ->
    is_u64 p /\ bytes_wf n /\
    exists r, f_inodes f !! de_InodeID e = Some r /\ r_type r = de_Type e;
  fw_inode id r : f_inodes f !! id = Some r -> is_u64 id /\ r_id r = id /\ is_u32 (r_nlink r);
  fw_file id r : f_inodes f !! id = Some r -> r_type r <> FileDirectory ->
    r_nlink r = Z.of_nat (links f id);
  fw_dir id r : f_inodes f !! id = Some r -> r_type r = FileDirectory -> (links f id <= 1)%nat
}.

(** ** Counting entries *)

Lemma links_insert_new f p n e id :
  f_entries f !! (p, n) = None ->
  links (mkFs (<[(p, n) := e]> (f_entries f)) (f_inodes f)) id =
    ((if bool_decide (de_InodeID e = id) then 1 else 0) + links f id)%nat.
Proof.
  intros Hn. unfold links. cbn [f_entries]. case_bool_decide as E.
  - rewrite map_filter_insert_True by done. rewrite map_size_insert_None; [done|].
    rewrite map_lookup_filter_None. by left.
  - rewrite map_filter_insert_False by done. by rewrite delete_id.
Qed.

Lemma links_delete f p n e id :
  f_entries f !! (p, n) = Some e ->
  links f id = ((if bool_decide (de_InodeID e = id) then 1 else 0)
                + links (mkFs (delete (p, n) (f_entries f)) (f_inodes f)) id)%nat.
Proof.
  intros He. rewrite <- (links_insert_new (mkFs (delete (p, n) (f_entries f)) (f_inodes f)) p n e id)
    by (cbn; apply lookup_delete_eq).
  unfold links. cbn. by rewrite insert_delete_eq, insert_id.
Qed.

Lemma links_inodes es is1 is2 id : links (mkFs es is1) id = links (mkFs es is2) id.
Proof. done. Qed.

Lemma links_none f id : fs_wf f -> f_inodes f !! id = None -> links f id = 0%nat.
Proof.
  intros W Hn. unfold links. apply map_size_empty_iff, map_empty_filter.
  intros [p n] e He E. destruct (fw_entry f W p n e He) as (_ & _ & r & Hr & _). cbn in *. congruence.
Qed.

Lemma links_pos f p n e : f_entries f !! (p, n) = Some e -> (1 <= links f (de_InodeID e))%nat.
Proof. intros He. rewrite (links_delete f p n e) by done. rewrite bool_decide_eq_true_2 by done. lia. Qed.

(** ** Effects *)

(** A new inode with its first entry. *)
Definition fs_create (f : fs) (p : Z) (n : list Z) (m : InodeMeta) : fs :=
  mkFs (<[(p, n) := mkDirEntry (im_ID m) (im_Type m) n]> (f_entries f))
       (<[im_ID m := R1 m]> (f_inodes f)).

(** Another row for an inode. *)
Definition fs_put (f : fs) (id : Z) (r : inode_row) : fs :=
  mkFs (f_entries f) (<[id := r]> (f_inodes f)).

Definition fs_add (f : fs) (p : Z) (n : list Z) (e : DirEntry) : fs :=
  mkFs (<[(p, n) := e]> (f_entries f)) (f_inodes f).

Definition fs_remove (f : fs) (p : Z) (n : list Z) : fs :=
  mkFs (delete (p, n) (f_entries f)) (f_inodes f).

Definition fs_drop (f : fs) (id : Z) : fs := mkFs (f_entries f) (delete id (f_inodes f)).

Lemma wf_create f p n m :
  fs_wf f -> f_entries f !! (p, n) = None -> f_inodes f !! im_ID m = None ->
  is_u64 p -> bytes_wf n -> is_u64 (im_ID m) -> is_u32 (im_NLink m) ->
  (im_Type m <> FileDirectory -> im_NLink m = 1) -> fs_wf (fs_create f p n m).
Proof.
  intros W He Hi Hp Hn Hid Hnl H1.
  assert (forall id, links (fs_create f p n m) id =
    ((if bool_decide (im_ID m = id) then 1 else 0) + links f id)%nat) as L.
  { intros id. unfold fs_create. rewrite (links_inodes _ _ (f_inodes f)).
    by rewrite (links_insert_new f p n). }
  pose proof (links_none f (im_ID m) W Hi) as L0.
  constructor; cbn [fs_create f_entries f_inodes].
  - intros p' n' e. rewrite lookup_insert. case_decide as E.
    + intros [= <-]. injection E as <- <-. split; [done|]. split; [done|]. cbn.
      exists (R1 m). by rewrite lookup_insert_eq.
    + intros He'. destruct (fw_entry f W p' n' e He') as (? & ? & r & Hr & ?).
      split; [done|]. split; [done|]. exists r. rewrite lookup_insert_ne by congruence. done.
  - intros id r. rewrite lookup_insert. case_decide as E.
    + intros [= <-]. subst id. done.
    + apply W.
  - intros id r. rewrite lookup_insert, L. case_decide as E.
    + intros [= <-] Ht. subst id. rewrite bool_decide_eq_true_2, L0 by done.
      unfold r_nlink. cbn. by rewrite H1.
    + intros Hr Ht. rewrite bool_decide_eq_false_2 by done. by rewrite (fw_file f W id r Hr Ht).
  - intros id r. rewrite lookup_insert, L. case_decide as E.
    + intros _ _. subst id. rewrite bool_decide_eq_true_2, L0 by done. lia.
    + intros Hr Ht. rewrite bool_decide_eq_false_2 by done. by apply (fw_dir f W id r).
Qed.

(** A row of the same inode and type, with the right link count. *)
Lemma wf_put f id r r' :
  fs_wf f -> f_inodes f !! id = Some r -> r_id r' = id -> r_type r' = r_type r -> is_u32 (r_nlink r') ->
  (r_type r <> FileDirectory -> r_nlink r' = r_nlink r) -> fs_wf (fs_put f id r').
Proof.
  intros W Hr Hid Ht Hu Hl.
  assert (forall i, links (fs_put f id r') i = links f i) as L by done.
  constructor; cbn [fs_put f_entries f_inodes].
  - intros p n e He. destruct (fw_entry f W p n e He) as (? & ? & r1 & Hr1 & Ht1).
    split; [done|]. split; [done|]. rewrite lookup_insert. case_decide as E; [|by exists r1].
    exists r'. split; [done|]. rewrite <- E, Hr in Hr1. injection Hr1 as <-. congruence.
  - intros i r1. rewrite lookup_insert. case_decide as E; [|apply W].
    intros [= <-]. subst i. by destruct (fw_inode f W id r Hr) as (? & _ & _).
  - intros i r1. rewrite lookup_insert, L. case_decide as E; [|apply W].
    intros [= <-] Hnd. subst i. rewrite Ht in Hnd. rewrite Hl by done. by apply (fw_file f W).
  - intros i r1. rewrite lookup_insert, L. case_decide as E; [|apply W].
    intros [= <-] Hd. subst i. rewrite Ht in Hd. by apply (fw_dir f W id r).
Qed.

(** A hard link: one more entry, one more link. *)
Lemma wf_link f p n id r r' :
  fs_wf f -> f_entries f !! (p, n) = None -> is_u64 p -> bytes_wf n -> f_inodes f !! id = Some r ->
  r_type r <> FileDirectory -> r_id r' = id -> r_type r' = r_type r ->
  r_nlink r' = r_nlink r + 1 -> is_u32 (r_nlink r') ->
  fs_wf (fs_put (fs_add f p n (mkDirEntry id (r_type r) n)) id r').
Proof.
  intros W He Hp Hn Hr Hnd Hid Ht Hl Hu. set (f' := fs_put _ _ _).
  assert (forall i, links f' i = ((if bool_decide (id = i) then 1 else 0) + links f i)%nat) as L.
  { intros i. unfold f', fs_put. cbn [f_entries fs_add]. rewrite (links_inodes _ _ (f_inodes f)).
    by rewrite (links_insert_new f p n). }
  constructor; unfold f'; cbn [fs_put fs_add f_entries f_inodes].
  - intros p' n' e. rewrite !lookup_insert. case_decide as E.
    + intros [= <-]. injection E as <- <-. split; [done|]. split; [done|]. cbn. exists r'.
      by rewrite decide_True.
    + intros He'. destruct (fw_entry f W p' n' e He') as (? & ? & r1 & Hr1 & Ht1).
      split; [done|]. split; [done|]. case_decide as E'; [|by exists r1].
      exists r'. split; [done|]. rewrite <- E', Hr in Hr1. injection Hr1 as <-. congruence.
  - intros i r1. rewrite lookup_insert. case_decide as E; [|apply W].
    intros [= <-]. subst i. by destruct (fw_inode f W id r Hr) as (? & _ & _).
  - intros i r1. rewrite lookup_insert, L. case_decide as E.
    + intros [= <-] _. subst i. rewrite bool_decide_eq_true_2 by done.
      rewrite Hl, (fw_file f W id r Hr Hnd). lia.
    + rewrite bool_decide_eq_false_2 by done. apply W.
  - intros i r1. rewrite lookup_insert, L. case_decide as E.
    + intros [= <-] Hd. congruence.
    + rewrite bool_decide_eq_false_2 by done. apply W.
Qed.

(** Removing one of several entries of a file. *)
Lemma wf_unlink f p n e r r' :
  fs_wf f -> f_entries f !! (p, n) = Some e -> f_inodes f !! de_InodeID e = Some r ->
  r_type r <> FileDirectory -> r_id r' = de_InodeID e -> r_type r' = r_type r ->
  r_nlink r' = r_nlink r - 1 -> is_u32 (r_nlink r') ->
  fs_wf (fs_put (fs_remove f p n) (de_InodeID e) r').
Proof.
  intros W He Hr Hnd Hid Ht Hl Hu. set (f' := fs_put _ _ _).
  assert (forall i, links f i = ((if bool_decide (de_InodeID e = i) then 1 else 0) + links f' i)%nat) as L.
  { intros i. unfold f', fs_put. cbn [f_entries fs_remove]. rewrite (links_inodes _ _ (f_inodes f)).
    by rewrite (links_delete f p n e). }
  constructor; unfold f'; cbn [fs_put fs_remove f_entries f_inodes]; fold f'.
  - intros p' n' e1. rewrite lookup_delete, lookup_insert. case_decide as E; [done|].
    intros He'. destruct (fw_entry f W p' n' e1 He') as (? & ? & r1 & Hr1 & Ht1).
    split; [done|]. split; [done|]. case_decide as E'; [|by exists r1].
    exists r'. split; [done|]. rewrite <- E', Hr in Hr1. injection Hr1 as <-. congruence.
  - intros i r1. rewrite lookup_insert. case_decide as E; [|apply W].
    intros [= <-]. subst i. by destruct (fw_inode f W _ r Hr) as (? & _ & _).
  - intros i r1. specialize (L i). rewrite lookup_insert. case_decide as E.
    + intros [= <-] _. subst i. rewrite bool_decide_eq_true_2 in L by done.
      rewrite Hl, (fw_file f W _ r Hr Hnd). lia.
    + rewrite bool_decide_eq_false_2 in L by done. intros Hr1 Ht1.
      rewrite (fw_file f W i r1 Hr1 Ht1). f_equal. exact L.
  - intros i r1. specialize (L i). rewrite lookup_insert. case_decide as E.
    + intros [= <-] Hd. congruence.
    + rewrite bool_decide_eq_false_2 in L by done. intros Hr1 Ht1.
      pose proof (fw_dir f W i r1 Hr1 Ht1). lia.
Qed.

(** Removing the only entry of an inode together with the inode. *)
Lemma wf_drop f p n e :
  fs_wf f -> f_entries f !! (p, n) = Some e -> links f (de_InodeID e) = 1%nat ->
  fs_wf (fs_drop (fs_remove f p n) (de_InodeID e)).
Proof.
  intros W He H1. set (f' := fs_drop _ _).
  assert (forall i, links f i = ((if bool_decide (de_InodeID e = i) then 1 else 0) + links f' i)%nat) as L.
  { intros i. unfold f', fs_drop. cbn [f_entries fs_remove]. rewrite (links_inodes _ _ (f_inodes f)).
    by rewrite (links_delete f p n e). }
  constructor; unfold f'; cbn [fs_drop fs_remove f_entries f_inodes]; fold f'.
  - intros p' n' e1. rewrite lookup_delete. case_decide as E; [done|]. intros He'.
    destruct (fw_entry f W p' n' e1 He') as (? & ? & r1 & Hr1 & Ht1).
    split; [done|]. split; [done|]. exists r1. rewrite lookup_delete_ne; [done|].
    intros E'. pose proof (L (de_InodeID e)) as L1. rewrite bool_decide_eq_true_2 in L1 by done.
    assert (f_entries f' !! (p', n') = Some e1) as He1 by (unfold f'; cbn; by rewrite lookup_delete_ne).
    pose proof (links_pos f' p' n' e1 He1) as P. rewrite <- E' in P. lia.
  - intros i r1. rewrite lookup_delete. case_decide; [done|apply W].
  - intros i r1. specialize (L i). rewrite lookup_delete. case_decide as E; [done|].
    rewrite bool_decide_eq_false_2 in L by done. intros Hr1 Ht1.
    rewrite (fw_file f W i r1 Hr1 Ht1). f_equal. exact L.
  - intros i r1. specialize (L i). rewrite lookup_delete. case_decide as E; [done|].
    rewrite bool_decide_eq_false_2 in L by done. intros Hr1 Ht1.
    pose proof (fw_dir f W i r1 Hr1 Ht1). lia.
Qed.

(** Moving an entry to a free name. *)
Lemma wf_move f p n p' n' e :
  fs_wf f -> f_entries f !! (p, n) = Some e -> f_entries f !! (p', n') = None ->
  is_u64 p' -> bytes_wf n' ->
  fs_wf (fs_remove (fs_add f p' n' (mkDirEntry (de_InodeID e) (de_Type e) n')) p n).
Proof.
  intros W He Hn Hp' Hn'. set (e' := mkDirEntry _ _ _). set (f' := fs_remove _ _ _).
  assert ((p', n') <> (p, n)) as Hne by congruence.
  assert (forall i, links f' i = links f i) as L.
  { intros i. pose proof (links_delete (fs_add f p' n' e') p n e i) as L1.
    pose proof (links_insert_new f p' n' e' i Hn) as L2. cbn [fs_add f_entries] in L1.
    rewrite lookup_insert_ne in L1 by done. specialize (L1 He).
    unfold fs_add in L1. rewrite L2 in L1. change (de_InodeID e') with (de_InodeID e) in L1.
    unfold f', fs_remove, fs_add in *. cbn [f_entries f_inodes] in *. lia. }
  constructor; unfold f'; cbn [fs_remove fs_add f_entries f_inodes]; fold f'.
  - intros q m e1. rewrite lookup_delete. case_decide as E; [done|]. rewrite lookup_insert.
    case_decide as E'; [|apply W]. intros [= <-]. injection E' as <- <-. split; [done|]. split; [done|].
    cbn. by destruct (fw_entry f W p n e He) as (_ & _ & ?).
  - apply W.
  - intros i r1. rewrite L. apply W.
  - intros i r1. rewrite L. apply W.
Qed.

(** The row [Link] and [Unlink] write back: links and times change, a row
    without V2 layout is written in the V1 model. *)
Definition relink (nlink ctime mtime : Z) (r : inode_row) : inode_row :=
  if negb (i2_Layout (view2 r) =? LayoutEmpty) then R2 (with_links2 nlink ctime mtime (view2 r))
  else R1 (with_links nlink ctime mtime (view1 r)).

Lemma relink_fields nlink ctime mtime r :
  r_id (relink nlink ctime mtime r) = r_id r /\ r_type (relink nlink ctime mtime r) = r_type r /\
  r_nlink (relink nlink ctime mtime r) = nlink.
Proof. unfold relink, r_id, r_type, r_nlink. destruct r as [m|m]; cbn; [done|]. by destruct (_ =? _). Qed.

(** ** What success means *)

Inductive nsop : Type :=
| OCreateFile (p : Z) (n : list Z) (mode : Z)
| OCreateNode (p : Z) (n : list Z) (ftype mode rdev : Z)
| OSymlink (p : Z) (n target : list Z)
| OMkDir (p : Z) (n : list Z) (mode : Z)
| OLink (p : Z) (n : list Z) (target : Z)
| OUnlink (p : Z) (n : list Z)
| ORmDir (p : Z) (n : list Z)
| ORename (p : Z) (n : list Z) (p' : Z) (n' : list Z).

(** A new inode of the given type under a name that was free. *)
Definition created (f f' : fs) (p : Z) (n : list Z) (m : InodeMeta) : Prop :=
  f_entries f !! (p, n) = None /\ f_inodes f !! im_ID m = None /\ f' = fs_create f p n m.

(** [f'] is [f1] with the row the parent of a new or removed directory had in
    [f], if any, changed. *)
Definition parent_changed (f f1 f' : fs) (p delta : Z) : Prop :=
  match f_inodes f !! p with
  | None => f' = f1
  | Some r => exists now nlink, f' = fs_put f1 p (R1 (with_dir_change nlink now (view1 r))) /\
                nlink = (if delta =? 1 then u32 (r_nlink r + 1)
                         else if 0 <? r_nlink r then r_nlink r - 1 else r_nlink r)
  end.

(** One entry less: the inode goes with its last one. *)
Definition unlinked (f f' : fs) (p : Z) (n : list Z) : Prop :=
  exists e r, f_entries f !! (p, n) = Some e /\ f_inodes f !! de_InodeID e = Some r /\
    de_Type e <> FileDirectory /\
    if r_nlink r =? 1 then f' = fs_drop (fs_remove f p n) (de_InodeID e)
    else exists now, f' = fs_put (fs_remove f p n) (de_InodeID e)
                            (relink (r_nlink r - 1) (i2_CTime (view2 r)) now r).

Definition succeeds (f f' : fs) (op : nsop) (m : option InodeMeta) : Prop :=
  match op, m with
  | OCreateFile p n mode, Some m =>
      created f f' p n m /\ im_Type m = FileRegular /\ im_NLink m = 1 /\ im_Mode m = mode
  | OCreateNode p n ftype mode rdev, Some m =>
      created f f' p n m /\ im_Type m = ftype /\ im_NLink m = 1 /\ im_Mode m = mode /\ im_Rdev m = rdev
  | OSymlink p n target, Some m =>
      created f f' p n m /\ im_Type m = FileSymlink /\ im_NLink m = 1 /\ im_Symlink m = target
  | OMkDir p n mode, Some m =>
      im_Type m = FileDirectory /\ im_NLink m = 2 /\ im_Mode m = mode /\
      exists f1, created f f1 p n m /\ parent_changed f f1 f' p 1
  | OLink p n target, Some m =>
      exists r ctime, f_entries f !! (p, n) = None /\ f_inodes f !! target = Some r /\
        r_type r <> FileDirectory /\ im_NLink m = r_nlink r + 1 /\
        f' = fs_put (fs_add f p n (mkDirEntry target (r_type r) n)) target
               (relink (r_nlink r + 1) ctime (i2_MTime (view2 r)) r)
  | OUnlink p n, None => unlinked f f' p n
  | ORmDir p n, None =>
      exists e f1, f_entries f !! (p, n) = Some e /\ de_Type e = FileDirectory /\
        (forall c, bytes_wf c -> f_entries f !! (de_InodeID e, c) = None) /\
        parent_changed f f f1 p (-1) /\ f' = fs_drop (fs_remove f1 p n) (de_InodeID e)
  | ORename p n p' n', None =>
      exists e f1, f_entries f !! (p, n) = Some e /\
        match f_entries f !! (p', n') with
        | Some _ => unlinked f f1 p' n'
        | None => f1 = f
        end /\
        f' = fs_remove (fs_add f1 p' n' (mkDirEntry (de_InodeID e) (de_Type e) n')) p n
  | _, _ => False
  end.

(** What an error leaves behind: nothing, except that a [Rename] may already
    have removed its destination. *)
Definition fails (f f' : fs) (op : nsop) : Prop :=
  f' = f \/ match op with ORename _ _ p' n' => unlinked f f' p' n' | _ => False end.

(** The parent of a directory is no file: the code does not look. *)
Definition dir_parent (f : fs) (p : Z) : Prop :=
  forall r, f_inodes f !! p = Some r -> r_type r = FileDirectory.

Definition op_args (f : fs) (op : nsop) : Prop :=
  match op with
  | OCreateFile p n _ | OCreateNode p n _ _ _ | OSymlink p n _ | OUnlink p n => is_u64 p /\ bytes_wf n
  | OMkDir p n _ | ORmDir p n => is_u64 p /\ bytes_wf n /\ dir_parent f p
  | OLink p n t =>
      is_u64 p /\ bytes_wf n /\ is_u64 t /\
      forall r, f_inodes f !! t = Some r -> r_nlink r + 1 < 2 ^ 32
  | ORename p n p' n' => is_u64 p /\ bytes_wf n /\ is_u64 p' /\ bytes_wf n'
  end.

(** ** Representation *)

Section Refine.
Context {DB : Type} `{KL : PebbleLaws DB}.
Context `{CI : Codec InodeMeta} `{C2 : Codec InodeMetaV2} `{CE : Codec DirEntry}.
Context `{CU : Codec BucketUsage} `{CN : Codec Z}.
Context {LI : CodecLaws InodeMeta} {L2 : CodecLaws InodeMetaV2} {LE : CodecLaws DirEntry}.
Context {AL : InodeAlias}.
Context (rules : version_rules) (useBucketStats : bool).

Definition enc_row (r : inode_row) : list Z :=
  match r with R1 m => marshalValue m | R2 m => marshalValue m end.

Record rep (db : DB) (f : fs) : Prop := mkRep {
  rp_entry p n : is_u64 p -> kv_get db (nsKey p n) = marshalValue <$> f_entries f !! (p, n);
  rp_inode id : is_u64 id -> kv_get db (inodeKey id) = enc_row <$> f_inodes f !! id;
  rp_keys k v : kv_get db k = Some v -> bytes_wf k
}.

Lemma rep_ext db db' f : (forall k, kv_get db' k = kv_get db k) -> rep db f -> rep db' f.
Proof. intros E [A B C]. constructor; intros *; rewrite E; eauto. Qed.

Lemma unmarshal_row1 r : unmarshalValue (enc_row r) = Ok (view1 r).
Proof.
  destruct r as [m|m]; cbn [enc_row view1]; [apply unmarshalValue_marshalValue|].
  apply unmarshal_document; [apply marshal_document|apply v2_as_v1].
Qed.

Lemma unmarshal_row2 r : unmarshalValue (enc_row r) = Ok (view2 r).
Proof.
  destruct r as [m|m]; cbn [enc_row view2]; [|apply unmarshalValue_marshalValue].
  apply unmarshal_document; [apply marshal_document|apply v1_as_v2].
Qed.

Lemma getValue_entry db f p n :
  rep db f -> is_u64 p -> getValue db (nsKey p n) = Ok (f_entries f !! (p, n)).
Proof.
  intros R Hp. unfold getValue. rewrite (rp_entry _ _ R) by done.
  destruct (f_entries f !! (p, n)); cbn; [|done]. by rewrite unmarshalValue_marshalValue.
Qed.

Lemma getValue_inode db f id :
  rep db f -> is_u64 id -> getValue db (inodeKey id) = Ok (view1 <$> f_inodes f !! id).
Proof.
  intros R Hp. unfold getValue. rewrite (rp_inode _ _ R) by done.
  destruct (f_inodes f !! id); cbn; [|done]. by rewrite unmarshal_row1.
Qed.

(** Typed operations: what a batch writes, read as an effect on the file system. *)
Inductive typed_op : Type :=
| TEntry (p : Z) (n : list Z) (e : option DirEntry)
| TInode (id : Z) (r : option inode_row)
| TOther (op : BatchOp).

Definition op_of (t : typed_op) : BatchOp :=
  match t with
  | TEntry p n (Some e) => set_op (nsKey p n) e
  | TEntry p n None => del_op (nsKey p n)
  | TInode id (Some r) => mkBatchOp false (inodeKey id) (enc_row r)
  | TInode id None => del_op (inodeKey id)
  | TOther op => op
  end.

Definition effect (f : fs) (t : typed_op) : fs :=
  match t with
  | TEntry p n (Some e) => fs_add f p n e
  | TEntry p n None => fs_remove f p n
  | TInode id (Some r) => fs_put f id r
  | TInode id None => fs_drop f id
  | TOther _ => f
  end.

Definition typed_wf (t : typed_op) : Prop :=
  match t with
  | TEntry p n _ => is_u64 p /\ bytes_wf n
  | TInode id _ => is_u64 id
  | TOther op => bytes_wf (bo_Key op) /\ (forall p n, bo_Key op <> nsKey p n) /\
                 (forall id, bo_Key op <> inodeKey id)
  end.

Lemma FormatUint_wf n : bytes_wf (FormatUint n).
Proof.
  eapply Forall_impl; [apply FormatUint_digits|]. intros c Hc. unfold digit in Hc.
  change (0 <= c < 256). lia.
Qed.

Lemma inodeKey_wf id : bytes_wf (inodeKey id).
Proof. apply bytes_wf_app. split; [apply str_wf|apply FormatUint_wf]. Qed.

Lemma nsPrefix_wf p : bytes_wf (nsPrefix p).
Proof.
  apply bytes_wf_app. split; [apply str_wf|]. apply bytes_wf_app.
  split; [apply FormatUint_wf|apply str_wf].
Qed.

Lemma nsKey_wf p n : bytes_wf n -> bytes_wf (nsKey p n).
Proof. intros Hn. apply bytes_wf_app. split; [apply nsPrefix_wf|done]. Qed.

Lemma typed_key_wf t : typed_wf t -> bytes_wf (bo_Key (op_of t)).
Proof.
  destruct t as [p n [e|]|id [r|]|op]; cbn; try (intros [_ ?]; by apply nsKey_wf);
    try (intros _; apply inodeKey_wf). by intros [? _].
Qed.

Lemma rep_op db f t : rep db f -> typed_wf t -> rep (apply_op db (op_of t)) (effect f t).
Proof.
  intros R W. constructor.
  - intros p n Hp. rewrite kv_get_apply_op.
    destruct t as [q m e|id r|op]; cbn [typed_wf] in W.
    + destruct W as [Hq _].
      assert (bo_Key (op_of (TEntry q m e)) = nsKey q m) as -> by (by destruct e).
      case_bool_decide as E.
      * apply nsKey_inj in E as [-> ->]; [|done..].
        destruct e; cbn; by rewrite ?lookup_insert_eq, ?lookup_delete_eq.
      * assert ((q, m) <> (p, n)) by congruence. rewrite (rp_entry _ _ R) by done.
        destruct e; cbn; by rewrite ?lookup_insert_ne, ?lookup_delete_ne.
    + assert (bo_Key (op_of (TInode id r)) = inodeKey id) as -> by (by destruct r).
      rewrite bool_decide_eq_false_2 by (intros E; by apply (nsKey_inodeKey p n id)).
      rewrite (rp_entry _ _ R) by done. by destruct r.
    + destruct W as (_ & W & _). rewrite bool_decide_eq_false_2 by apply W. by apply R.
  - intros i Hi. rewrite kv_get_apply_op.
    destruct t as [q m e|id r|op]; cbn [typed_wf] in W.
    + assert (bo_Key (op_of (TEntry q m e)) = nsKey q m) as -> by (by destruct e).
      rewrite bool_decide_eq_false_2 by apply nsKey_inodeKey.
      rewrite (rp_inode _ _ R) by done. by destruct e.
    + assert (bo_Key (op_of (TInode id r)) = inodeKey id) as -> by (by destruct r).
      case_bool_decide as E.
      * apply inodeKey_inj in E as ->; [|done..].
        destruct r; cbn; by rewrite ?lookup_insert_eq, ?lookup_delete_eq.
      * assert (id <> i) by congruence. rewrite (rp_inode _ _ R) by done.
        destruct r; cbn; by rewrite ?lookup_insert_ne, ?lookup_delete_ne.
    + destruct W as (_ & _ & W). rewrite bool_decide_eq_false_2 by apply W. by apply R.
  - intros k v. rewrite kv_get_apply_op. case_bool_decide as E; [|apply R].
    intros _. subst k. by apply typed_key_wf.
Qed.

Lemma rep_ops ts db f :
  rep db f -> Forall typed_wf ts -> rep (fold_left apply_op (map op_of ts) db) (fold_left effect ts f).
Proof.
  intros R F. revert db f R. induction F as [|t ts Ht F IH]; intros db f R; [done|].
  cbn [map fold_left]. apply IH. by apply rep_op.
Qed.
End Refine.
