(* ===== verification/NamespaceProofs.v ===== *)
(** * Every namespace operation keeps the file system

    The proofs behind [NamespaceSpec.v]: commits read as effects on the
    abstract maps, inode ids, and one lemma per operation. *)

From stdpp Require Import base list sorting numbers strings gmap.
From Stdlib Require Import ZArith Lia.
From S2P Require Import Prelude Bytes Pebble MetaKeys MetaScan MetaTypes RaftLog MetaFSMProofs.
From S2P Require Import MetaFSM Namespace MetaFSMProofs NamespaceSpec.

Local Open Scope Z_scope.
Local Open Scope go_scope.
Local Open Scope ns_scope.

(** ** Running the effect monad *)

Section Monad.
Context {DB A B : Type}.

Lemma nbind_run (m : N DB A) (k : A -> N DB B) s s' r :
  nbind m k s = (s', r) ->
  (exists s1 a, m s = (s1, Ok a) /\ k a s1 = (s', r)) \/
  (exists e, m s = (s', Err e) /\ r = Err e).
Proof.
  unfold nbind. destruct (m s) as [s1 [a|e]] eqn:E; [eauto 6|].
  intros [= <- <-]. right. eauto.
Qed.
End Monad.

(** Split a run of [do* x := m in k]: success of [m], or its error. *)
Ltac nstep H s1 a E :=
  apply nbind_run in H; destruct H as [(s1 & a & E & H)|(? & E & ->)].

Section Ops.
Context {DB : Type} `{KL : PebbleLaws DB}.
Context `{CI : Codec InodeMeta} `{C2 : Codec InodeMetaV2} `{CE : Codec DirEntry}.
Context `{CU : Codec BucketUsage} `{CN : Codec Z}.
Context {LI : CodecLaws InodeMeta} {L2 : CodecLaws InodeMetaV2} {LE : CodecLaws DirEntry}.
Context {AL : InodeAlias}.
Context (rules : version_rules) (useBucketStats : bool).

(** A store that represents a well-formed file system. *)
Record ns_ok (s : NS DB) (f : fs) : Prop := mkNsOk {
  no_rep : rep (ns_db s) f;
  no_wf : fs_wf f;
  no_free : Forall (uintw 64) (ns_freeList s);
  no_seq : is_u64 (ns_inodeSeq s)
}.

Lemma enter_run (s s' : NS DB) r :
  enter_ns s = (s', r) -> (r = Ok tt /\ s' = s) \/ (s' = s /\ r = Err ErrServiceClosed).
Proof. unfold enter_ns. destruct (ns_closed s); intros [= <- <-]; auto. Qed.

(** ** Commits *)

Lemma conditional_rep en n b ce ts s f s' r :
  ns_ok s f -> cb_PrefixReplacements b = [] -> cb_Mutations b = map op_of ts -> Forall typed_wf ts ->
  applyNamespaceConditional rules en n b ce s = (s', r) ->
  (r = Ok tt /\ Forall (pre_holds (ns_db s)) (cb_Preconditions b) /\
   s' = set_db (ns_db s') s /\ rep (ns_db s') (fold_left effect ts f)) \/
  (exists e, r = Err e /\ s' = s).
Proof.
  intros O Hr Hm Ht. unfold applyNamespaceConditional.
  destruct (ns_readOnly s); [intros [= <- <-]; eauto|].
  destruct (applyConditionalBatchWithHook _ _ _ _ _) as [db|e] eqn:E; intros [= <- <-]; [left|eauto].
  split; [done|]. split; [exact (proj1 (conditional_in_order rules _ _ _ _ b [] Hr E))|].
  split; [done|]. cbn [set_db ns_db].
  eapply rep_ext; [intros k; exact (proj2 (conditional_in_order rules _ _ _ _ b k Hr E))|].
  rewrite Hm. apply rep_ops; [apply O|done].
Qed.

Lemma batch_rep fail ts s f s' r :
  ns_ok s f -> Forall typed_wf ts -> applyBatchViaRaft fail (map op_of ts) s = (s', r) ->
  (r = Ok tt /\ s' = set_db (ns_db s') s /\ rep (ns_db s') (fold_left effect ts f)) \/
  (exists e, r = Err e /\ s' = s).
Proof.
  intros O Ht. unfold applyBatchViaRaft. destruct (map op_of ts) as [|o os] eqn:Em.
  - intros [= <- <-]. left. destruct ts; [|done]. split; [done|]. split; [by destruct s|apply O].
  - destruct (ns_readOnly s); [intros [= <- <-]; eauto|].
    destruct (applyReferenceAwareBatch _ _ _) as [db|e] eqn:E; intros [= <- <-]; [left|eauto].
    split; [done|]. split; [done|]. cbn [set_db ns_db].
    unfold applyReferenceAwareBatch, prepareReferenceAwareBatch in E. ok_inv.
    subst. unfold commit_batch in E. destruct fail; [done|]. ok_inv. subst. rewrite <- Em.
    apply rep_ops; [apply O|done].
Qed.

(** Writes to the free list touch no entry and no inode. *)
Lemma freelist_typed id v :
  typed_wf (TOther (mkBatchOp false (freeListKey id) v)) /\ typed_wf (TOther (del_op (freeListKey id))).
Proof.
  assert (bytes_wf (freeListKey id)) by (apply bytes_wf_app; split; [apply str_wf|apply FormatUint_wf]).
  split; (split; [done|]; split; intros *; [apply freeListKey_nsKey|apply freeListKey_inodeKey]).
Qed.

Lemma ns_ok_db s f db : ns_ok s f -> rep db f -> ns_ok (set_db db s) f.
Proof. intros [R W F Q] R'. by constructor. Qed.

Lemma free_write_ok fail op s f :
  ns_ok s f -> typed_wf (TOther op) -> ns_ok (ignoring (applyBatchViaRaft fail [op]) s).1 f.
Proof.
  intros O Ht. unfold ignoring. cbn [fst].
  destruct (applyBatchViaRaft fail [op] s) as [s' r] eqn:E. cbn [fst].
  destruct (batch_rep fail [TOther op] s f s' r O ltac:(by constructor) E)
    as [(_ & -> & R)|(e & _ & ->)]; [|done]. by apply ns_ok_db.
Qed.

(** ** Inode ids *)

Lemma parse_digits_bound s : forall n r, is_u64 n -> parse_digits n s = Some r -> is_u64 r.
Proof.
  induction s as [|c s IH]; intros n r Hn; cbn [parse_digits]; [by intros [= <-]|].
  destruct ((c <? 48) || (57 <? c)) eqn:D; [done|]. apply orb_false_iff in D as [D1 D2].
  apply Z.ltb_ge in D1, D2.
  destruct (Z.leb_spec (2 ^ 64) (n * 10 + (c - 48))); [done|]. apply IH. unfold uintw in *. lia.
Qed.

Lemma parseInodeKeyID_bound k id : parseInodeKeyID k = Some id -> is_u64 id.
Proof.
  unfold parseInodeKeyID, ParseUint. destruct (TrimPrefix k prefixInode) as [|c s]; [done|].
  destruct (parse_digits 0 (c :: s)) as [i|] eqn:E; [|done].
  destruct ((i =? 0) || _); [done|]. intros [= <-]. apply (parse_digits_bound (c :: s) 0 i); [|done].
  unfold uintw. lia.
Qed.

Definition max_step (max : Z) (key _ : list Z) : option Z :=
  match parseInodeKeyID key with
  | Some id => Some (if max <? id then id else max)
  | None => Some max
  end.

Lemma scan_max_fold rows max :
  is_u64 max ->
  let m := scan_fold max_step max rows in
  is_u64 m /\ max <= m /\ forall k v id, (k, v) ∈ rows -> parseInodeKeyID k = Some id -> id <= m.
Proof.
  revert max. induction rows as [|[k v] rows IH]; intros max Hm; cbn [scan_fold].
  { split; [done|]. split; [lia|]. intros ? ? ? H1. by apply not_elem_of_nil in H1. }
  unfold max_step at 1 3 5. destruct (parseInodeKeyID k) as [id|] eqn:E.
  - assert (is_u64 (if max <? id then id else max)) as Hm'
      by (destruct (max <? id); [by eapply parseInodeKeyID_bound|done]).
    destruct (IH _ Hm') as (A & B & C). split; [done|].
    split; [destruct (Z.ltb_spec max id); lia|].
    intros k' v' id' Hin Hp. apply elem_of_cons in Hin as [Hin|Hin]; [|by eapply C].
    injection Hin as -> ->. rewrite E in Hp. injection Hp as <-. destruct (Z.ltb_spec max id); lia.
  - destruct (IH _ Hm) as (A & B & C). split; [done|]. split; [done|].
    intros k' v' id' Hin Hp. apply elem_of_cons in Hin as [Hin|Hin]; [|by eapply C].
    injection Hin as -> ->. congruence.
Qed.

(** The cold scan finds every inode row. *)
Lemma scan_max_inode_bound db f id :
  rep db f -> fs_wf f -> is_Some (f_inodes f !! id) -> id <= scan_max_inode db /\ is_u64 (scan_max_inode db).
Proof.
  intros R W [r Hr]. destruct (fw_inode f W id r Hr) as (Hid & _).
  destruct (scan_max_fold (kv_range db prefixInode (prefixUpperBound prefixInode)) 0
    ltac:(unfold uintw; lia)) as (A & B & C). split; [|exact A].
  destruct (decide (id = 0)) as [->|Hn]; [exact B|].
  assert (kv_get db (inodeKey id) = Some (enc_row r)) as Hk by (rewrite (rp_inode _ _ R), Hr; done).
  eapply (C (inodeKey id) (enc_row r) id); [|by apply parseInodeKeyID_inodeKey].
  apply elem_of_scan_prefix; [apply str_wf|apply inodeKey_wf|]. split; [done|apply HasPrefix_app].
Qed.

Lemma ensure_ok s f : ns_ok s f -> ns_ok (ensureInodeIDMax s) f.
Proof.
  intros O. unfold ensureInodeIDMax. destruct (ns_idMaxInit s); [done|].
  destruct O as [R W F Q]. constructor; try done. cbn [set_seq ns_inodeSeq].
  destruct (ns_inodeSeq s <? scan_max_inode (ns_db s)); [|done].
  apply (scan_max_fold (kv_range (ns_db s) prefixInode (prefixUpperBound prefixInode)) 0).
  unfold uintw. lia.
Qed.

Lemma nextInodeID_ok en s f s' r :
  ns_ok s f -> nextInodeID en s = (s', r) -> exists id, r = Ok id /\ is_u64 id /\ ns_ok s' f.
Proof.
  intros O E. unfold nextInodeID, nbind, nget in E.
  destruct (ns_freeList s) as [|id rest] eqn:Ef.
  - cbn [nmodify nret] in E. injection E as <- <-. eexists. split; [reflexivity|].
    split; [by apply wrap_bound|]. destruct (ensure_ok s f O) as [R W F Q]. constructor; try done.
    cbn. by apply wrap_bound.
  - pose proof (no_free _ _ O) as Hf. rewrite Ef in Hf. apply Forall_cons in Hf as [Hid Hrest].
    cbn [nmodify] in E.
    assert (ns_ok (set_free rest s) f) as O1 by (destruct O; by constructor).
    pose proof (free_write_ok (en_fail en 0) (del_op (freeListKey id)) _ f O1
      (proj2 (freelist_typed id []))) as O2.
    unfold ignoring in *. cbn [fst nret] in *. injection E as <- <-. exists id. split; [done|]. by split.
Qed.

Lemma releaseInodeID_ok en id s f s' r :
  ns_ok s f -> is_u64 id -> releaseInodeID en id s = (s', r) -> r = Ok tt /\ ns_ok s' f.
Proof.
  intros O Hid E. unfold releaseInodeID in E.
  destruct (id <=? RootInodeID); [by injection E as <- <-|].
  unfold nbind, nget in E. destruct (length (ns_freeList s) <? 65536)%nat; [|by injection E as <- <-].
  cbn [nmodify] in E.
  assert (ns_ok (set_free (id :: ns_freeList s) s) f) as O1
    by (destruct O; constructor; try done; by constructor).
  pose proof (free_write_ok (en_fail en 0) (set_op (freeListKey id) id) _ f O1
    (proj1 (freelist_typed id (marshalValue id)))) as O2.
  unfold ignoring in *. cbn [fst] in *. injection E as <- <-. done.
Qed.

(** ** Creating entries *)

Lemma stats_typed db root bytes objects :
  exists ts, addBucketStatsOp useBucketStats db root bytes objects = map op_of ts /\
    Forall typed_wf ts /\ forall f, fold_left effect ts f = f.
Proof.
  unfold addBucketStatsOp. destruct (negb useBucketStats || (root =? 0)); [by exists []|].
  set (op := set_op _ _). exists [TOther op]. split; [done|]. split; [|done].
  constructor; [|done]. split; [apply bytes_wf_app; split; [apply str_wf|apply FormatUint_wf]|].
  split; intros *; [apply bucketStatsKey_nsKey|apply bucketStatsKey_inodeKey].
Qed.

(** A batch whose success, in any store that represents [f], leads to a
    well-formed [f'] related to [f] by [S]. *)
Definition good_batch (f : fs) (b : ConditionalBatch) (S : fs -> Prop) : Prop :=
  cb_PrefixReplacements b = [] /\
  exists ts, cb_Mutations b = map op_of ts /\ Forall typed_wf ts /\
    forall db : DB, rep db f -> Forall (pre_holds db) (cb_Preconditions b) ->
      fs_wf (fold_left effect ts f) /\ S (fold_left effect ts f).

Lemma good_batch_commit en n b ce s f s' r (S : fs -> Prop) :
  ns_ok s f -> good_batch f b S -> applyNamespaceConditional rules en n b ce s = (s', r) ->
  (exists f', r = Ok tt /\ ns_ok s' f' /\ S f') \/ (exists e, r = Err e /\ s' = s).
Proof.
  intros O (Hr & ts & Hm & Ht & Hs) E.
  destruct (conditional_rep en n b ce ts s f s' r O Hr Hm Ht E) as [(-> & Hp & Es & R)|?]; [left|by right].
  destruct (Hs (ns_db s) (no_rep _ _ O) Hp) as [W HS].
  eexists. split; [done|]. split; [|exact HS]. rewrite Es. destruct O. by constructor.
Qed.

Lemma create_sound {A} en ce (mk : nat -> N DB (ConditionalBatch * A)) (S : fs -> fs -> A -> Prop) s f s' r :
  ns_ok s f ->
  (forall n s s1 r, ns_ok s f -> mk n s = (s1, r) ->
     exists b a, r = Ok (b, a) /\ ns_ok s1 f /\ good_batch f b (fun f' => S f f' a)) ->
  applyNamespaceCreate rules en ce mk s = (s', r) ->
  (exists a f', r = Ok a /\ ns_ok s' f' /\ S f f' a) \/ (exists e, r = Err e /\ ns_ok s' f).
Proof.
  intros O Hmk E. unfold applyNamespaceCreate in E. nstep E s1 ba E1.
  2:{ destruct (Hmk _ _ _ _ O E1) as (? & ? & [=] & _). }
  destruct (Hmk _ _ _ _ O E1) as (b & a & [= ->] & O1 & G1). clear E1.
  destruct (applyNamespaceConditional rules en 1 b ce s1) as [s2 r2] eqn:E2.
  destruct (good_batch_commit en 1 b ce s1 f s2 r2 _ O1 G1 E2) as [(f' & -> & O2 & HS)|(e & -> & ->)].
  { injection E as <- <-. left. eauto. }
  case_bool_decide; [|injection E as <- <-; right; eauto].
  nstep E s3 u E3; [|discriminate E3]. injection E3 as <- _.
  assert (ns_ok (reseedInodeIDMax s1) f) as O3.
  { unfold reseedInodeIDMax. apply ensure_ok. destruct O1. by constructor. }
  nstep E s4 ba4 E4.
  2:{ destruct (Hmk _ _ _ _ O3 E4) as (? & ? & [=] & _). }
  destruct (Hmk _ _ _ _ O3 E4) as (b4 & a4 & [= ->] & O4 & G4).
  nstep E s5 u5 E5.
  - destruct (good_batch_commit en 2 b4 ce s4 f s5 _ _ O4 G4 E5) as [(f' & _ & O5 & HS)|(? & [=] & _)].
    injection E as <- <-. left. eauto.
  - destruct (good_batch_commit en 2 b4 ce s4 f s' _ _ O4 G4 E5) as [(? & [=] & _)|(? & _ & ->)].
    right. eauto.
Qed.

(** Preconditions of a guarded create. *)
Lemma absent_name db f p n :
  rep db f -> is_u64 p -> pre_holds db (absent (nsKey p n)) -> f_entries f !! (p, n) = None.
Proof.
  intros R Hp E. change (kv_get db (nsKey p n) = None) in E. rewrite (rp_entry _ _ R) in E by done.
  by destruct (f_entries f !! (p, n)).
Qed.

Lemma absent_inode db f id :
  rep db f -> is_u64 id -> pre_holds db (absent (inodeKey id)) -> f_inodes f !! id = None.
Proof.
  intros R Hp E. change (kv_get db (inodeKey id) = None) in E. rewrite (rp_inode _ _ R) in E by done.
  by destruct (f_inodes f !! id).
Qed.

Lemma create_leaf_good en p n root size inode k s f s1 r :
  ns_ok s f -> is_u64 p -> bytes_wf n ->
  (forall id now, im_ID (inode id now) = id /\ im_NLink (inode id now) = 1) ->
  create_leaf useBucketStats en p n root size inode k s = (s1, r) ->
  exists b m, r = Ok (b, m) /\ ns_ok s1 f /\
    good_batch f b (fun f' => created f f' p n m /\ exists id now, m = inode id now).
Proof.
  intros O Hp Hn Hi E. unfold create_leaf in E. nstep E s2 i0 E1.
  2:{ destruct (nextInodeID_ok _ _ _ _ _ O E1) as (? & [=] & _). }
  destruct (nextInodeID_ok _ _ _ _ _ O E1) as (id & [= ->] & Hid & O2).
  unfold nbind, nget, nret in E. injection E as <- <-. eexists _, _. split; [reflexivity|].
  split; [done|]. set (m := inode id (en_clock en k)).
  destruct (Hi id (en_clock en k)) as [Hmid Hml]. fold m in Hmid, Hml.
  destruct (stats_typed (ns_db s2) root size 1) as (ts & Ets & Wts & Fts).
  split; [done|].
  exists (TInode id (Some (R1 m)) :: TEntry p n (Some (mkDirEntry id (im_Type m) n)) :: ts).
  split; [cbn [cb_Mutations buildNamespaceConditionalWithInodeGuard map op_of]; by rewrite <- Ets|].
  split; [constructor; [done|]; by constructor|].
  intros db R Hpre. cbn [cb_Preconditions buildNamespaceConditionalWithInodeGuard] in Hpre.
  apply Forall_cons in Hpre as [H1 H2]. apply Forall_cons in H2 as [H2 _].
  pose proof (absent_name db f p n R Hp H1) as A1. pose proof (absent_inode db f id R Hid H2) as A2.
  cbn [fold_left]. rewrite Fts.
  assert (effect (effect f (TInode id (Some (R1 m)))) (TEntry p n (Some (mkDirEntry id (im_Type m) n)))
          = fs_create f p n m) as -> by (unfold fs_create; cbn; by rewrite Hmid).
  split.
  - apply wf_create; rewrite ?Hmid, ?Hml; try done. apply O.
  - split; [|eauto]. split; [done|]. by rewrite Hmid.
Qed.

Lemma getValue_quiet_inode db f id :
  rep db f -> is_u64 id -> @getValue_quiet DB _ _ CI db (inodeKey id) = view1 <$> f_inodes f !! id.
Proof. intros R Hid. unfold getValue_quiet. by rewrite (getValue_inode db f). Qed.

Lemma mkdir_good en p n mode k s f s1 r :
  ns_ok s f -> is_u64 p -> bytes_wf n -> dir_parent f p ->
  mkdir_batch en p n mode k s = (s1, r) ->
  exists b m, r = Ok (b, m) /\ ns_ok s1 f /\
    good_batch f b (fun f' => succeeds f f' (OMkDir p n mode) (Some m)).
Proof.
  intros O Hp Hn Hd E. unfold mkdir_batch in E. nstep E s2 i0 E1.
  2:{ destruct (nextInodeID_ok _ _ _ _ _ O E1) as (? & [=] & _). }
  destruct (nextInodeID_ok _ _ _ _ _ O E1) as (id & [= ->] & Hid & O2).
  unfold nbind, nget, nret in E. rewrite (getValue_quiet_inode _ f p (no_rep _ _ O2) Hp) in E.
  injection E as <- <-. eexists _, _. split; [reflexivity|]. split; [done|].
  set (m := mkInodeMeta id FileDirectory 0 2 _ 0 0 mode _ _ _ 0 [] [] ∅).
  set (now := en_clock en k). split; [done|].
  set (parent := match f_inodes f !! p with
                 | Some r => [TInode p (Some (R1 (with_dir_change (u32 (r_nlink r + 1)) now (view1 r))))]
                 | None => [] end).
  exists (TInode id (Some (R1 m)) :: TEntry p n (Some (mkDirEntry id FileDirectory n)) :: parent).
  split; [|split].
  - cbn [cb_Mutations buildNamespaceConditionalWithInodeGuard map op_of app]. do 2 f_equal. unfold parent.
    destruct (f_inodes f !! p) as [r|]; [|done]. by destruct r.
  - constructor; [done|]. constructor; [done|]. unfold parent.
    destruct (f_inodes f !! p); [|done]. by constructor.
  - intros db R Hpre. cbn [cb_Preconditions buildNamespaceConditionalWithInodeGuard] in Hpre.
    apply Forall_cons in Hpre as [H1 H2]. apply Forall_cons in H2 as [H2 _].
    pose proof (absent_name db f p n R Hp H1) as A1. pose proof (absent_inode db f id R Hid H2) as A2.
    assert (fs_wf (fs_create f p n m)) as W1 by (apply wf_create; try done; apply O).
    cbn [fold_left]. change (effect (effect f (TInode id (Some (R1 m)))) (TEntry p n _)) with (fs_create f p n m).
    unfold parent, succeeds, parent_changed. destruct (f_inodes f !! p) as [r|] eqn:Er; cbn [fold_left effect].
    + assert (f_inodes (fs_create f p n m) !! p = Some r) as Er'
        by (cbn; rewrite lookup_insert_ne; [done|congruence]).
      destruct (fw_inode _ W1 p r Er') as (_ & Hrid & _). split.
      * apply (wf_put _ p r); try done.
        -- unfold r_id in *. destruct r; done.
        -- unfold r_type. by destruct r.
        -- by apply wrap_bound.
        -- intros Hnd. by destruct Hnd; apply Hd.
      * repeat (split; [done|]). exists (fs_create f p n m). split; [done|]. by exists now, (u32 (r_nlink r + 1)).
    + split; [done|]. repeat (split; [done|]). by exists (fs_create f p n m).
Qed.

(** ** Links *)

Lemma expect_entry db f p n raw :
  rep db f -> is_u64 p -> pre_holds db (expect (nsKey p n) raw) ->
  marshalValue <$> f_entries f !! (p, n) = Some raw.
Proof.
  intros R Hp E. change (kv_get db (nsKey p n) = Some raw) in E. by rewrite (rp_entry _ _ R) in E.
Qed.

(** The row [Link] writes. *)
Lemma relink_op id nlink ctime mtime r :
  op_of (TInode id (Some (relink nlink ctime mtime r))) =
    if negb (i2_Layout (view2 r) =? LayoutEmpty)
    then set_op (inodeKey id) (with_links2 nlink ctime mtime (view2 r))
    else set_op (inodeKey id) (with_links nlink ctime mtime (view1 r)).
Proof. unfold relink. by destruct (negb _). Qed.

Lemma views_agree r :
  im_MTime (view1 r) = i2_MTime (view2 r) /\ im_CTime (view1 r) = i2_CTime (view2 r).
Proof. by destruct r. Qed.

Lemma Link_sound en p n t s f s' r :
  ns_ok s f -> op_args f (OLink p n t) -> Link rules en p n t s = (s', r) ->
  (exists m f', r = Ok m /\ ns_ok s' f' /\ succeeds f f' (OLink p n t) (Some m)) \/
  (exists e, r = Err e /\ s' = s).
Proof.
  intros O (Hp & Hn & Ht & Hmax) E. unfold Link in E. nstep E s1 u E1.
  2:{ apply enter_run in E1 as [[[=] _]|[-> _]]. right. eauto. }
  apply enter_run in E1 as [[_ ->]|[_ [=]]].
  nstep E s2 s0 E1; [|discriminate E1]. injection E1 as <- <-.
  rewrite (rp_inode _ _ (no_rep _ _ O)) in E by done.
  destruct (f_inodes f !! t) as [row|] eqn:Er; cbn [fmap option_fmap option_map] in E.
  2:{ injection E as <- <-. right. eauto. }
  nstep E s3 v2 E3; unfold nlift in E3; rewrite unmarshal_row2 in E3; [|discriminate E3].
  injection E3 as <- <-.
  destruct (Z.eqb_spec (i2_Type (view2 row)) FileDirectory) as [Hd|Hd].
  { injection E as <- <-. right. eauto. }
  destruct (fw_inode f (no_wf _ _ O) t row Er) as (_ & Hrid & Hrl).
  assert (u32 (i2_NLink (view2 row) + 1) = r_nlink row + 1) as Hnl.
  { apply wrap_small. specialize (Hmax row eq_refl). unfold r_nlink, uintw in *. lia. }
  rewrite Hnl in E. set (row' := relink (r_nlink row + 1) (en_clock en 0) (i2_MTime (view2 row)) row).
  nstep E s4 op E4.
  2:{ exfalso. destruct (negb _); [discriminate E4|]. unfold nbind, nlift in E4.
      rewrite unmarshal_row1 in E4. discriminate E4. }
  assert (s4 = s /\ op = op_of (TInode t (Some row'))) as [-> ->].
  { unfold row'. rewrite relink_op. destruct (negb _); [by injection E4 as <- <-|].
    unfold nbind, nlift in E4. rewrite unmarshal_row1 in E4. injection E4 as <- <-.
    by rewrite (proj1 (views_agree row)). }
  clear E4. destruct (relink_fields (r_nlink row + 1) (en_clock en 0) (i2_MTime (view2 row)) row)
    as (F1 & F2 & F3). fold row' in F1, F2, F3.
  assert (good_batch f (buildNamespaceConditional (nsKey p n)
    [op_of (TInode t (Some row')); set_op (nsKey p n) (mkDirEntry t (i2_Type (view2 row)) n)])
    (fun f' => f_entries f !! (p, n) = None /\
       f' = fs_put (fs_add f p n (mkDirEntry t (r_type row) n)) t row')) as G.
  { split; [done|]. exists [TInode t (Some row'); TEntry p n (Some (mkDirEntry t (r_type row) n))].
    split; [done|]. split; [constructor; [done|]; by constructor|].
    intros db R Hpre. apply Forall_cons in Hpre as [H1 _].
    pose proof (absent_name db f p n R Hp H1) as A1. split; [|done].
    apply (wf_link f p n t row row'); try done; [apply O|congruence|].
    rewrite F3. specialize (Hmax row eq_refl). unfold r_nlink, uintw in *. lia. }
  nstep E s5 u5 E5.
  - destruct (good_batch_commit en 1 _ _ s f s5 _ _ O G E5) as [(f' & _ & O5 & A1 & ->)|(? & [=] & _)].
    nstep E s6 m E6; unfold nlift in E6; rewrite unmarshal_row1 in E6; [|discriminate E6].
    injection E6 as <- <-. injection E as <- <-. left. eexists _, _. split; [reflexivity|].
    split; [exact O5|]. exists row, (en_clock en 0). done.
  - destruct (good_batch_commit en 1 _ _ s f s' _ _ O G E5) as [(? & [=] & _)|(e & _ & ->)].
    right. eauto.
Qed.

(** ** Removing entries *)

Lemma typed_dels keys ts :
  map del_op keys = map op_of ts -> forall ops ts', ops = map op_of ts' ->
  ops ++ map del_op keys = map op_of (ts' ++ ts).
Proof. intros E ops ts' ->. by rewrite E, map_app. Qed.

Lemma r_nlink_pos f p n e r :
  fs_wf f -> f_entries f !! (p, n) = Some e -> f_inodes f !! de_InodeID e = Some r ->
  de_Type e <> FileDirectory -> r_type r = de_Type e /\ r_id r = de_InodeID e /\ is_u64 (de_InodeID e) /\
    1 <= r_nlink r < 2 ^ 32 /\ r_nlink r = Z.of_nat (links f (de_InodeID e)).
Proof.
  intros W He Hr Hd. destruct (fw_entry f W p n e He) as (_ & _ & r1 & Hr1 & Ht).
  rewrite Hr in Hr1. injection Hr1 as <-. destruct (fw_inode f W _ r Hr) as (Hid & Hri & Hu).
  assert (r_type r <> FileDirectory) as Hnd by congruence. pose proof (fw_file f W _ r Hr Hnd) as Hl.
  pose proof (links_pos f p n e He). unfold uintw in *. repeat split; try done; lia.
Qed.

(** The batch [Unlink] builds. *)
Lemma unlink_good en db f p n e ops deletes gone raw :
  rep db f -> fs_wf f -> is_u64 p -> bytes_wf n -> f_entries f !! (p, n) = Some e ->
  de_Type e <> FileDirectory ->
  unlink_inode useBucketStats en db (de_InodeID e) = Ok (ops, deletes, gone) ->
  good_batch f (buildNamespaceConditionalOps ops (nsKey p n :: deletes) (expect (nsKey p n) raw))
    (fun f' => unlinked f f' p n) /\ forall id, gone = Some id -> is_u64 id.
Proof.
  intros R W Hp Hn He Hd E. destruct (fw_entry f W p n e He) as (_ & _ & r & Hr & _).
  destruct (r_nlink_pos f p n e r W He Hr Hd) as (Ht & Hri & Hid & Hb & Hl).
  unfold unlink_inode in E. rewrite (rp_inode _ _ R), Hr in E by done.
  cbn [fmap option_fmap option_map] in E. rewrite unmarshal_row2, bind_Ok in E.
  fold (r_nlink r) in E. assert (u32 (r_nlink r - 1) = r_nlink r - 1) as Hnl
    by (apply wrap_small; unfold uintw; lia). rewrite Hnl in E.
  destruct (Z.leb_spec (r_nlink r - 1) 0) as [H1|H1].
  - injection E as <- <- <-. assert (r_nlink r = 1) as Hone by lia.
    split; [|intros id [= <-]; change (i2_ID (view2 r)) with (r_id r); by rewrite Hri].
    destruct (stats_typed db (i2_BucketRoot (view2 r)) (i64 (- i2_Size (view2 r))) (-1)) as (ts & Ets & Wts & Fts).
    split; [done|]. exists (ts ++ [TEntry p n None; TInode (de_InodeID e) None]). split; [|split].
    + cbn [cb_Mutations buildNamespaceConditionalOps]. by apply typed_dels.
    + apply Forall_app. split; [done|]. constructor; [done|]. by constructor.
    + intros db' _ _. rewrite fold_left_app, Fts. cbn [fold_left effect].
      split; [apply wf_drop; try done; lia|]. exists e, r. rewrite Hone. done.
  - assert (ops = map op_of [TInode (de_InodeID e) (Some (relink (r_nlink r - 1) (i2_CTime (view2 r))
      (en_clock en 0) r))] /\ deletes = [] /\ gone = None) as (-> & -> & ->).
    { cbn [map]. rewrite relink_op. destruct (negb _); [by injection E as <- <- <-|].
      rewrite unmarshal_row1, bind_Ok in E. injection E as <- <- <-.
      by rewrite (proj2 (views_agree r)). }
    split; [|done]. split; [done|].
    exists [TInode (de_InodeID e) (Some (relink (r_nlink r - 1) (i2_CTime (view2 r)) (en_clock en 0) r));
            TEntry p n None].
    split; [done|]. split; [constructor; [done|]; by constructor|]. intros db' _ _. cbn [fold_left effect].
    destruct (relink_fields (r_nlink r - 1) (i2_CTime (view2 r)) (en_clock en 0) r) as (F1 & F2 & F3).
    split.
    + apply (wf_unlink f p n e r); try done; [congruence..|]. rewrite F3. unfold uintw. lia.
    + exists e, r. destruct (Z.eqb_spec (r_nlink r) 1); [lia|]. by repeat (split; [done|]); eexists.
Qed.

Lemma unlink_inode_total en db f p n e :
  rep db f -> fs_wf f -> f_entries f !! (p, n) = Some e -> de_Type e <> FileDirectory ->
  is_ok (unlink_inode useBucketStats en db (de_InodeID e)) = true.
Proof.
  intros R W He Hd. destruct (fw_entry f W p n e He) as (_ & _ & r & Hr & _).
  destruct (r_nlink_pos f p n e r W He Hr Hd) as (_ & _ & Hid & _).
  unfold unlink_inode. rewrite (rp_inode _ _ R), Hr by done. cbn [fmap option_fmap option_map].
  rewrite unmarshal_row2, bind_Ok. destruct (_ <=? 0); [done|]. destruct (negb _); [done|].
  by rewrite unmarshal_row1.
Qed.

Lemma Unlink_sound en p n s f s' r :
  ns_ok s f -> is_u64 p -> bytes_wf n -> Unlink rules useBucketStats en p n s = (s', r) ->
  (exists f', r = Ok tt /\ ns_ok s' f' /\ unlinked f f' p n) \/ (exists e, r = Err e /\ s' = s).
Proof.
  intros O Hp Hn E. unfold Unlink in E. nstep E s1 u E1.
  2:{ apply enter_run in E1 as [[[=] _]|[-> _]]. right. eauto. }
  apply enter_run in E1 as [[_ ->]|[_ [=]]].
  nstep E s2 s0 E1; [|discriminate E1]. injection E1 as <- <-.
  nstep E s2 found E1; unfold nlift in E1; rewrite (getValue_entry _ _ _ _ (no_rep _ _ O) Hp) in E1;
    [|discriminate E1]. injection E1 as <- <-.
  destruct (f_entries f !! (p, n)) as [e|] eqn:He; [|injection E as <- <-; right; eauto].
  destruct (Z.eqb_spec (de_Type e) FileDirectory) as [Hd|Hd]; [injection E as <- <-; right; eauto|].
  pose proof (unlink_inode_total en _ f p n e (no_rep _ _ O) (no_wf _ _ O) He Hd) as T.
  nstep E s3 x E3; unfold nlift in E3.
  2:{ injection E3 as <- E3. rewrite E3 in T. discriminate T. }
  destruct x as [[ops deletes] gone]. injection E3 as <- E3.
  destruct (unlink_good en _ f p n e ops deletes gone (default [] (kv_get (ns_db s) (nsKey p n)))
    (no_rep _ _ O) (no_wf _ _ O) Hp Hn He Hd E3) as [G Hg].
  nstep E s4 u4 E4.
  2:{ destruct (good_batch_commit en 1 _ _ s f s' _ _ O G E4) as [(? & [=] & _)|(? & _ & ->)]. right. eauto. }
  destruct (good_batch_commit en 1 _ _ s f s4 _ _ O G E4) as [(f' & _ & O4 & U)|(? & [=] & _)].
  left. exists f'.
  assert (forall s5 : NS DB, ns_ok s5 f' ->
    ns_ok (set_cache (delete (de_InodeID e) (ns_inCache s5)) s5) f') as Hc by (intros s5 []; by constructor).
  destruct gone as [id|].
  - nstep E s5 u5 E5.
    + destruct (releaseInodeID_ok en id s4 f' s5 _ O4 (Hg id eq_refl) E5) as [_ O5].
      injection E as <- <-. auto.
    + destruct (releaseInodeID_ok en id s4 f' s' _ O4 (Hg id eq_refl) E5) as [[=] _].
  - nstep E s5 u5 E5; [|discriminate E5]. injection E5 as <- _. injection E as <- <-. auto.
Qed.

(** An empty scan means an empty directory. *)
Lemma scan_empty db f id :
  rep db f -> is_u64 id -> scanPrefixWithLimit db (nsPrefix id) 1 = [] ->
  forall c, bytes_wf c -> f_entries f !! (id, c) = None.
Proof.
  intros R Hid E c Hc. destruct (f_entries f !! (id, c)) as [e|] eqn:He; [|done]. exfalso.
  assert (kv_get db (nsKey id c) = Some (marshalValue e)) as Hk by (by rewrite (rp_entry _ _ R), He).
  assert ((nsKey id c, marshalValue e) ∈ kv_range db (nsPrefix id) (prefixUpperBound (nsPrefix id))) as Hin.
  { apply elem_of_scan_prefix; [apply nsPrefix_wf|by apply nsKey_wf|]. split; [done|apply HasPrefix_app]. }
  unfold scanPrefixWithLimit in E. change (Z.to_nat 1) with 1%nat in E.
  destruct (kv_range db (nsPrefix id) (prefixUpperBound (nsPrefix id))); [by apply not_elem_of_nil in Hin|done].
Qed.

Definition shrink_links (r : inode_row) : Z := if 0 <? r_nlink r then r_nlink r - 1 else r_nlink r.

Lemma rmdir_good en db f p n e raw :
  rep db f -> fs_wf f -> is_u64 p -> bytes_wf n -> dir_parent f p -> f_entries f !! (p, n) = Some e ->
  de_Type e = FileDirectory -> (forall c, bytes_wf c -> f_entries f !! (de_InodeID e, c) = None) ->
  good_batch f
    (buildNamespaceConditionalOps
       (match @getValue_quiet DB _ _ CI db (inodeKey p) with
        | Some q => [set_op (inodeKey p)
                      (with_dir_change (if 0 <? im_NLink q then im_NLink q - 1 else im_NLink q)
                         (en_clock en 0) q)]
        | None => []
        end) [inodeKey (de_InodeID e); nsKey p n] (expect (nsKey p n) raw))
    (fun f' => succeeds f f' (ORmDir p n) None).
Proof.
  intros R W Hp Hn Hdp He Hd Hempty. destruct (fw_entry f W p n e He) as (_ & _ & r & Hr & Ht).
  destruct (fw_inode f W _ r Hr) as (Hid & Hri & _).
  assert (links f (de_InodeID e) = 1%nat) as Hone.
  { pose proof (links_pos f p n e He). pose proof (fw_dir f W _ r Hr ltac:(congruence)). lia. }
  rewrite (getValue_quiet_inode db f p R Hp). split; [done|].
  set (now := en_clock en 0).
  exists (match f_inodes f !! p with
          | Some q => [TInode p (Some (R1 (with_dir_change (shrink_links q) now (view1 q))))]
          | None => [] end ++ [TInode (de_InodeID e) None; TEntry p n None]).
  split; [|split].
  - cbn [cb_Mutations buildNamespaceConditionalOps]. apply typed_dels; [done|].
    destruct (f_inodes f !! p) as [q|]; [|done]. by destruct q.
  - apply Forall_app. split; [|constructor; [done|]; by constructor].
    destruct (f_inodes f !! p); [|done]. by constructor.
  - intros db' _ _. rewrite fold_left_app. cbn [fold_left effect].
    unfold succeeds, parent_changed.
    destruct (f_inodes f !! p) as [q|] eqn:Eq; cbn [fold_left effect].
    + set (f1 := fs_put f p _).
      assert (fs_wf f1) as W1.
      { destruct (fw_inode f W p q Eq) as (_ & Hqi & Hqu). apply (wf_put f p q); try done.
        - unfold r_id in *. by destruct q.
        - unfold r_type. by destruct q.
        - unfold r_nlink. cbn. unfold shrink_links, uintw in *.
          destruct (Z.ltb_spec 0 (r_nlink q)); lia.
        - intros Hnd. by destruct Hnd; apply Hdp. }
      split; [exact (wf_drop f1 p n e W1 He Hone)|].
      exists e, f1. repeat (split; [done|]). split; [|done]. by exists now, (shrink_links q).
    + split; [exact (wf_drop f p n e W He Hone)|]. exists e, f. done.
Qed.

Lemma RmDir_sound en p n s f s' r :
  ns_ok s f -> op_args f (ORmDir p n) -> RmDir rules en p n s = (s', r) ->
  (exists f', r = Ok tt /\ ns_ok s' f' /\ succeeds f f' (ORmDir p n) None) \/ (exists e, r = Err e /\ s' = s).
Proof.
  intros O (Hp & Hn & Hdp) E. unfold RmDir in E. nstep E s1 u E1.
  2:{ apply enter_run in E1 as [[[=] _]|[-> _]]. right. eauto. }
  apply enter_run in E1 as [[_ ->]|[_ [=]]].
  nstep E s2 s0 E1; [|discriminate E1]. injection E1 as <- <-.
  nstep E s2 found E1; unfold nlift in E1; rewrite (getValue_entry _ _ _ _ (no_rep _ _ O) Hp) in E1;
    [|discriminate E1]. injection E1 as <- <-.
  destruct (f_entries f !! (p, n)) as [e|] eqn:He; [|injection E as <- <-; right; eauto].
  destruct (Z.eqb_spec (de_Type e) FileDirectory) as [Hd|Hd]; cbn [negb] in E;
    [|injection E as <- <-; right; eauto].
  destruct (fw_entry f (no_wf _ _ O) p n e He) as (_ & _ & row & Hrow & _).
  destruct (fw_inode f (no_wf _ _ O) _ row Hrow) as (Hid & _).
  destruct (scanPrefixWithLimit (ns_db s) (nsPrefix (de_InodeID e)) 1) eqn:Es;
    [|injection E as <- <-; right; eauto].
  pose proof (rmdir_good en _ f p n e (default [] (kv_get (ns_db s) (nsKey p n))) (no_rep _ _ O)
    (no_wf _ _ O) Hp Hn Hdp He Hd (scan_empty _ f _ (no_rep _ _ O) Hid Es)) as G.
  nstep E s4 u4 E4.
  2:{ destruct (good_batch_commit en 1 _ _ s f s' _ _ O G E4) as [(? & [=] & _)|(? & _ & ->)]. right. eauto. }
  destruct (good_batch_commit en 1 _ _ s f s4 _ _ O G E4) as [(f' & _ & O4 & U)|(? & [=] & _)].
  destruct (releaseInodeID_ok en _ s4 f' s' _ O4 Hid E) as [-> O5]. left. eauto.
Qed.

(** ** Renaming *)

Lemma unlinked_wf f f' p n : fs_wf f -> unlinked f f' p n -> fs_wf f'.
Proof.
  intros W (e & r & He & Hr & Hd & U). destruct (r_nlink_pos f p n e r W He Hr Hd) as (Ht & Hri & Hid & Hb & Hl).
  destruct (Z.eqb_spec (r_nlink r) 1) as [H1|H1].
  - subst f'. apply wf_drop; try done. lia.
  - destruct U as [now ->]. destruct (relink_fields (r_nlink r - 1) (i2_CTime (view2 r)) now r) as (F1 & F2 & F3).
    apply (wf_unlink f p n e r); try done; [congruence..|]. rewrite F3. unfold uintw. lia.
Qed.

Lemma unlinked_entries f f' p n :
  unlinked f f' p n -> f_entries f' = delete (p, n) (f_entries f).
Proof.
  intros (e & r & _ & _ & _ & U). destruct (r_nlink r =? 1); [by subst|]. by destruct U as [now ->].
Qed.

(** After the destination is gone the entry moves. *)
Lemma rename_wf f f1 p n p' n' e :
  fs_wf f1 -> f_entries f !! (p, n) = Some e -> is_u64 p' -> bytes_wf n' ->
  match f_entries f !! (p', n') with Some _ => unlinked f f1 p' n' | None => f1 = f end ->
  fs_wf (fs_remove (fs_add f1 p' n' (mkDirEntry (de_InodeID e) (de_Type e) n')) p n).
Proof.
  intros W1 He Hp' Hn' Hdest.
  destruct (decide ((p', n') = (p, n))) as [E|E].
  - injection E as -> ->. rewrite He in Hdest. pose proof (unlinked_entries _ _ _ _ Hdest) as En.
    assert (f_entries f1 !! (p, n) = None) as Hn1 by (by rewrite En, lookup_delete_eq).
    assert (fs_remove (fs_add f1 p n (mkDirEntry (de_InodeID e) (de_Type e) n)) p n = f1) as ->; [|done].
    unfold fs_remove, fs_add. cbn. rewrite delete_insert_id by done. by destruct f1.
  - destruct (f_entries f !! (p', n')) as [d|] eqn:Hd.
    + pose proof (unlinked_entries _ _ _ _ Hdest) as En.
      apply wf_move; try done; rewrite En; [by rewrite lookup_delete_ne|apply lookup_delete_eq].
    + subst f1. by apply wf_move.
Qed.

Lemma Rename_sound en p n p' n' s f s' r :
  ns_ok s f -> op_args f (ORename p n p' n') -> Rename rules useBucketStats en p n p' n' s = (s', r) ->
  exists f', ns_ok s' f' /\
    match r with
    | Ok _ => succeeds f f' (ORename p n p' n') None
    | Err _ => fails f f' (ORename p n p' n')
    end.
Proof.
  intros O (Hp & Hn & Hp' & Hn') E. unfold Rename in E. nstep E s1 u E1.
  2:{ apply enter_run in E1 as [[[=] _]|[-> _]]. exists f. split; [done|]. by left. }
  apply enter_run in E1 as [[_ ->]|[_ [=]]].
  nstep E s2 s0 E1; [|discriminate E1]. injection E1 as <- <-.
  nstep E s2 found E1; unfold nlift in E1; rewrite (getValue_entry _ _ _ _ (no_rep _ _ O) Hp) in E1;
    [|discriminate E1]. injection E1 as <- <-.
  destruct (f_entries f !! (p, n)) as [e|] eqn:He.
  2:{ injection E as <- <-. exists f. split; [done|]. by left. }
  assert (@getValue_quiet DB _ _ CE (ns_db s) (nsKey p' n') = f_entries f !! (p', n')) as Eq
    by (unfold getValue_quiet; by rewrite (getValue_entry _ _ _ _ (no_rep _ _ O) Hp')).
  rewrite Eq in E.
  assert (forall s1 r1, (match f_entries f !! (p', n') with
      | Some dest => if de_Type dest =? FileDirectory then nerr ErrEntryExists
                     else Unlink rules useBucketStats en p' n'
      | None => nret tt end) s = (s1, r1) ->
    (r1 = Ok tt /\ exists f1, ns_ok s1 f1 /\
       match f_entries f !! (p', n') with Some _ => unlinked f f1 p' n' | None => f1 = f end) \/
    (s1 = s /\ exists e, r1 = Err e)) as Hdest.
  { intros s1 r1. destruct (f_entries f !! (p', n')) as [d|] eqn:Hd.
    - destruct (de_Type d =? FileDirectory); [intros [= <- <-]; right; eauto|]. intros EU.
      destruct (Unlink_sound en p' n' s f s1 r1 O Hp' Hn' EU) as [(f1 & -> & O1 & U)|(e1 & -> & ->)];
        [left; eauto|right; eauto].
    - intros [= <- <-]. left. eauto. }
  nstep E s3 u3 E3.
  2:{ destruct (Hdest _ _ E3) as [[[=] _]|[-> _]]. exists f. split; [done|]. by left. }
  destruct (Hdest _ _ E3) as [(_ & f1 & O1 & HU)|[_ [? [=]]]].
  nstep E s4 s5 E4; [|discriminate E4]. injection E4 as <- <-.
  assert (fails f f1 (ORename p n p' n')) as Hfail.
  { destruct (f_entries f !! (p', n')); [by right|by left]. }
  destruct (useBucketStats && _); [injection E as <- <-; eauto|].
  destruct (batch_rep (en_fail en 3)
    [TEntry p' n' (Some (mkDirEntry (de_InodeID e) (de_Type e) n')); TEntry p n None] s3 f1 s' r O1)
    as [(-> & Es & R)|(e1 & -> & ->)]; [constructor; [done|]; by constructor|done| |eauto].
  eexists. split; [|exists e, f1; split; [done|]; split; [exact HU|reflexivity]].
  cbn [fold_left effect] in R. rewrite Es. destruct O1 as [R1 W1 F1 Q1]. constructor; try done.
  by eapply rename_wf.
Qed.

(** ** Histories *)

Definition some_meta (m : N DB InodeMeta) : N DB (option InodeMeta) := do* x := m in nret (Some x).
Definition no_meta (m : N DB unit) : N DB (option InodeMeta) := do* _ := m in nret None.

Definition exec (en : ns_env) (op : nsop) : N DB (option InodeMeta) :=
  match op with
  | OCreateFile p n mode => some_meta (CreateFile rules useBucketStats en p n mode)
  | OCreateNode p n t mode rdev => some_meta (CreateNode rules useBucketStats en p n t mode rdev)
  | OSymlink p n target => some_meta (Symlink rules useBucketStats en p n target)
  | OMkDir p n mode => some_meta (MkDir rules en p n mode)
  | OLink p n t => some_meta (Link rules en p n t)
  | OUnlink p n => no_meta (Unlink rules useBucketStats en p n)
  | ORmDir p n => no_meta (RmDir rules en p n)
  | ORename p n p' n' => no_meta (Rename rules useBucketStats en p n p' n')
  end.

Definition outcome_ok (f f' : fs) (op : nsop) (r : mgo (option InodeMeta)) : Prop :=
  match r with Ok m => succeeds f f' op m | Err _ => fails f f' op end.

Lemma leaf_sound en p n root size inode s f s' r (op : nsop) :
  ns_ok s f -> is_u64 p -> bytes_wf n ->
  (forall id now, im_ID (inode id now) = id /\ im_NLink (inode id now) = 1) ->
  (forall f' m id now, created f f' p n m -> m = inode id now -> succeeds f f' op (Some m)) ->
  some_meta (applyNamespaceCreate rules en ErrEntryExists
    (create_leaf useBucketStats en p n root size inode)) s = (s', r) ->
  exists f', ns_ok s' f' /\ outcome_ok f f' op r.
Proof.
  intros O Hp Hn Hi Hs E.
  assert (forall s1 r1, applyNamespaceCreate rules en ErrEntryExists
    (create_leaf useBucketStats en p n root size inode) s = (s1, r1) ->
    (exists a f', r1 = Ok a /\ ns_ok s1 f' /\ created f f' p n a /\ exists id now, a = inode id now) \/
    (exists e, r1 = Err e /\ ns_ok s1 f)) as C.
  { intros s1 r1 E1.
    apply (create_sound en ErrEntryExists (create_leaf useBucketStats en p n root size inode)
      (fun f f' m => created f f' p n m /\ exists id now, m = inode id now) s f s1 r1 O); [|done].
    intros k s2 s3 r3 O2 E2. by apply (create_leaf_good en p n root size inode k s2 f s3 r3). }
  unfold some_meta in E. nstep E s1 m E1.
  - destruct (C _ _ E1) as [(a & f' & [= ->] & O1 & Hc & id & now & ->)|(? & [=] & _)].
    injection E as <- <-. exists f'. split; [done|]. by eapply Hs.
  - destruct (C _ _ E1) as [(? & ? & [=] & _)|(? & _ & O1)]. exists f. split; [done|]. by left.
Qed.

Lemma exec_sound en op s f s' r :
  ns_ok s f -> op_args f op -> exec en op s = (s', r) -> exists f', ns_ok s' f' /\ outcome_ok f f' op r.
Proof.
  intros O A E. destruct op as [p n mode|p n t mode rdev|p n target|p n mode|p n t|p n|p n|p n p' n'];
    cbn [exec] in E.
  - destruct A as [Hp Hn]. unfold CreateFile, some_meta, nbind, enter_ns in E.
    destruct (ns_closed s); [injection E as <- <-; exists f; by split; [|left]|].
    destruct (name_too_long n); [injection E as <- <-; exists f; by split; [|left]|].
    eapply (leaf_sound en p n _ _ _ s f s' r _ O Hp Hn); [| |exact E]; [done|].
    intros f' m id now Hc ->. done.
  - destruct A as [Hp Hn]. unfold CreateNode, some_meta, nbind, enter_ns in E.
    destruct (ns_closed s); [injection E as <- <-; exists f; by split; [|left]|].
    destruct (name_too_long n); [injection E as <- <-; exists f; by split; [|left]|].
    destruct (negb _); [injection E as <- <-; exists f; by split; [|left]|].
    eapply (leaf_sound en p n _ _ _ s f s' r _ O Hp Hn); [| |exact E]; [done|].
    intros f' m id now Hc ->. done.
  - destruct A as [Hp Hn]. unfold Symlink, some_meta, nbind, enter_ns in E.
    destruct (ns_closed s); [injection E as <- <-; exists f; by split; [|left]|].
    eapply (leaf_sound en p n _ _ _ s f s' r _ O Hp Hn); [| |exact E]; [done|].
    intros f' m id now Hc ->. done.
  - destruct A as (Hp & Hn & Hd). unfold MkDir, some_meta in E. nstep E s1 m E1.
    + unfold nbind, enter_ns in E1. destruct (ns_closed s); [done|]. destruct (name_too_long n); [done|].
      destruct (create_sound en ErrEntryExists (mkdir_batch en p n mode)
        (fun f f' m => succeeds f f' (OMkDir p n mode) (Some m)) s f s1 _ O
        (fun k s2 s3 r3 O2 E2 => mkdir_good en p n mode k s2 f s3 r3 O2 Hp Hn Hd E2) E1)
        as [(a & f' & [= ->] & O1 & Hs)|(? & [=] & _)].
      injection E as <- <-. by exists f'.
    + unfold nbind, enter_ns in E1. destruct (ns_closed s);
        [injection E1 as <- <-; exists f; by split; [|left]|].
      destruct (name_too_long n); [injection E1 as <- <-; exists f; by split; [|left]|].
      destruct (create_sound en ErrEntryExists (mkdir_batch en p n mode)
        (fun f f' m => succeeds f f' (OMkDir p n mode) (Some m)) s f s' _ O
        (fun k s2 s3 r3 O2 E2 => mkdir_good en p n mode k s2 f s3 r3 O2 Hp Hn Hd E2) E1)
        as [(? & ? & [=] & _)|(? & _ & O1)].
      exists f. split; [done|]. by left.
  - unfold some_meta in E. nstep E s1 m E1.
    + destruct (Link_sound en p n t s f s1 _ O A E1) as [(m' & f' & [= ->] & O1 & Hs)|(? & [=] & _)].
      injection E as <- <-. by exists f'.
    + destruct (Link_sound en p n t s f s' _ O A E1) as [(? & ? & [=] & _)|(? & _ & ->)].
      exists f. split; [done|]. by left.
  - destruct A as [Hp Hn]. unfold no_meta in E. nstep E s1 m E1.
    + destruct (Unlink_sound en p n s f s1 _ O Hp Hn E1) as [(f' & _ & O1 & Hs)|(? & [=] & _)].
      injection E as <- <-. by exists f'.
    + destruct (Unlink_sound en p n s f s' _ O Hp Hn E1) as [(? & [=] & _)|(? & _ & ->)].
      exists f. split; [done|]. by left.
  - unfold no_meta in E. nstep E s1 m E1.
    + destruct (RmDir_sound en p n s f s1 _ O A E1) as [(f' & _ & O1 & Hs)|(? & [=] & _)].
      injection E as <- <-. by exists f'.
    + destruct (RmDir_sound en p n s f s' _ O A E1) as [(? & [=] & _)|(? & _ & ->)].
      exists f. split; [done|]. by left.
  - unfold no_meta in E. nstep E s1 m E1.
    + destruct (Rename_sound en p n p' n' s f s1 _ O A E1) as (f' & O1 & Hs).
      injection E as <- <-. by exists f'.
    + destruct (Rename_sound en p n p' n' s f s' _ O A E1) as (f' & O1 & Hs). by exists f'.
Qed.

(** ** Opening *)

(** The file system of a new store: the root directory. *)
Definition root_meta (now : Z) : InodeMeta :=
  mkInodeMeta RootInodeID FileDirectory 0 2 0 0 0 493 now now now 0 [] [] ∅.

Definition root_fs (now : Z) : fs := mkFs ∅ {[ RootInodeID := R1 (root_meta now) ]}.

Lemma root_fs_wf now : fs_wf (root_fs now).
Proof.
  constructor; cbn [root_fs f_entries f_inodes].
  - intros p n e. by rewrite lookup_empty.
  - intros id r [<- <-]%lookup_singleton_Some. unfold uintw. done.
  - intros id r [<- <-]%lookup_singleton_Some. done.
  - intros id r _ _. unfold links. cbn [root_fs f_entries]. rewrite map_filter_empty, map_size_empty. lia.
Qed.

Lemma empty_rep (db : DB) : (forall k, kv_get db k = None) -> rep db (mkFs ∅ ∅).
Proof.
  intros E. constructor; intros *; rewrite E; cbn [f_entries f_inodes]; rewrite ?lookup_empty; done.
Qed.

Lemma NewPebbleStore_empty en (db : DB) :
  (forall k, kv_get db k = None) -> en_fail en 3 = None ->
  let now := en_clock en 0 in
  exists db', NewPebbleStore en db = (mkNS db' RootInodeID false [] ∅ false false, Ok tt) /\
    ns_ok (mkNS db' RootInodeID false [] ∅ false false) (root_fs now).
Proof.
  intros E Hf now. unfold NewPebbleStore, initRootInode, nbind, nget. cbn [ns_db]. rewrite E.
  set (op := set_op _ _). set (s0 := mkNS db RootInodeID false [] ∅ false false).
  unfold applyBatchViaRaft. cbn [s0 ns_readOnly ns_db].
  assert (applyReferenceAwareBatch (en_fail en 3) db [op] = Ok (apply_op db op)) as ->.
  { unfold applyReferenceAwareBatch, prepareReferenceAwareBatch. cbn [prepare_ops].
    unfold prepare_op. rewrite refuse_pass by done. cbn [op set_op bo_Key bo_Delete bo_Value].
    change (isInodeMetadataKey (inodeKey RootInodeID)) with true. cbv iota.
    unfold readRaw. rewrite lookup_empty, E. cbn [decodeReferencedInode]. rewrite bind_Ok.
    rewrite unmarshalValue_marshalValue.
    change (validateInodeKeyIdentity (inodeKey RootInodeID) _) with (@Ok merr unit tt).
    rewrite !bind_Ok. rewrite refuse_pass by done. rewrite !bind_Ok. unfold commit_batch. by rewrite Hf. }
  assert (rep (apply_op db op) (root_fs now)) as R.
  { assert (op = op_of (TInode RootInodeID (Some (R1 (root_meta now))))) as -> by done.
    assert (root_fs now = effect (mkFs ∅ ∅) (TInode RootInodeID (Some (R1 (root_meta now))))) as -> by done.
    apply rep_op; [by apply empty_rep|]. cbn. unfold uintw. done. }
  exists (apply_op db op). unfold nmodify, restoreFreeList, s0.
  cbn [set_db set_free ns_db ns_freeList ns_inodeSeq ns_idMaxInit ns_inCache ns_closed ns_readOnly].
  assert (scanPrefix (apply_op db op) prefixFreeList
    (fun l _ val => match @unmarshalValue Z CN val with Ok id => Some (id :: l) | Err _ => Some l end)
    [] = []) as ->.
  { unfold scanPrefix. destruct (kv_range _ _ _) as [|[k v] rows] eqn:Ek; [done|]. exfalso.
    assert ((k, v) ∈ kv_range (apply_op db op) prefixFreeList (prefixUpperBound prefixFreeList)) as Hin
      by (rewrite Ek; by left).
    apply elem_of_kv_range in Hin as [Hk Hr]. rewrite kv_get_apply_op, E in Hk.
    case_bool_decide as Ek2; [|done]. subst k. by cbv in Hr. }
  split; [done|]. constructor; [exact R|apply root_fs_wf|constructor|]. cbn. unfold uintw, RootInodeID. lia.
Qed.
End Ops.
