(* ===== verification/NamespaceProgress.v ===== *)
(** * Namespace operations succeed when they should

    [NamespaceProofs.v] says what an operation did when it returned. Here: a
    version-1 batch with distinct keys of permitted sizes is accepted, so a
    create under a free name succeeds, also when the id counter lags behind
    the stored inodes (the second attempt of [applyNamespaceCreate] reseeds
    it), and what a create or a link wrote is what [Lookup] returns. *)

From stdpp Require Import base list sorting numbers strings gmap.
From Stdlib Require Import ZArith Lia.
From S2P Require Import Prelude Bytes Pebble MetaKeys MetaScan MetaTypes RaftLog MetaFSM Namespace MetaFSMProofs NamespaceSpec NamespaceProofs.

Local Open Scope Z_scope.
Local Open Scope go_scope.
Local Open Scope ns_scope.

(** ** Acceptable batches *)

Lemma NoDup_adjacent prev ks :
  NoDup ks -> (forall k, prev = Some k -> k ∉ ks) -> adjacent prev ks = true.
Proof.
  intros N. revert prev. induction N as [|k ks Hk N IH]; intros prev Hp; [done|].
  cbn [adjacent]. apply andb_true_iff. split; [|apply IH; by intros ? [= <-]].
  apply negb_true_iff, bool_decide_eq_false. intros ->. apply (Hp k eq_refl). by left.
Qed.

Lemma zsum_Permutation l l' : l ≡ₚ l' -> zsum l = zsum l'.
Proof. unfold zsum. induction 1; cbn; lia. Qed.

(** Batches whose parts are small enough. *)
Record batch_fits (b : ConditionalBatch) : Prop := mkBatchFits {
  bf_version : cb_Version b = conditionalBatchVersion;
  bf_term : cb_ExpectedRaftTerm b = 0;
  bf_rep : cb_PrefixReplacements b = [];
  bf_pre : Forall pre_ok (cb_Preconditions b);
  bf_pre_keys : NoDup (map cp_Key (cb_Preconditions b));
  bf_pre_count : len (cb_Preconditions b) <= maxConditionalPreconditions;
  bf_mut : Forall op_ok (cb_Mutations b);
  bf_mut_keys : NoDup (map bo_Key (cb_Mutations b));
  bf_mut_count : len (cb_Mutations b) <= maxConditionalMutations;
  bf_size : conditionalBatchEncodedSize b <= maxRaftLogEntryBytes
}.

Lemma fits_canonical rules b :
  batch_fits b -> canonicalConditionalBatch rules (Some b) = Ok (sorted_batch b).
Proof.
  intros F. destruct F as [Hv Ht Hr Hp Hpk Hpc Hm Hmk Hmc Hs]. apply canonical_inv.
  pose proof (merge_sort_Permutation pre_le (cb_Preconditions b)) as Pp.
  pose proof (merge_sort_Permutation op_le (cb_Mutations b)) as Pm.
  rewrite Hv. split; [done|]. split; [|split; [done|]].
  { unfold counts_ok, allocation_batch. rewrite Hv, Hr. by op_tests. }
  unfold validateConditionalBatch, sorted_batch, conditionalBatchEncodedSize.
  cbn [cb_Version cb_ExpectedRaftTerm cb_Preconditions cb_Mutations cb_PrefixReplacements].
  rewrite Hv, Ht, Hr. op_tests. rewrite !refuse_pass by done.
  rewrite (proj2 (validate_preconditions_ok None _)), bind_Ok.
  2:{ split; [by rewrite Pp|]. apply NoDup_adjacent; [|done].
      by rewrite (fmap_Permutation cp_Key _ _ Pp). }
  rewrite (proj2 (validate_mutations_ok None _)), bind_Ok.
  2:{ split; [by rewrite Pm|]. apply NoDup_adjacent; [|done].
      by rewrite (fmap_Permutation bo_Key _ _ Pm). }
  cbn [map validate_replacements merge_sort]. rewrite refuse_pass; [done|]. apply Z.ltb_ge.
  unfold conditionalBatchEncodedSize in Hs. rewrite Hv, Hr in Hs. revert Hs. op_tests.
  rewrite (zsum_Permutation _ _ (Permutation_map precondition_size Pp)),
    (zsum_Permutation _ _ (Permutation_map mutation_size Pm)). done.
Qed.

Section Progress.
Context {DB : Type} `{KL : PebbleLaws DB}.
Context `{CI : Codec InodeMeta} `{C2 : Codec InodeMetaV2} `{CE : Codec DirEntry}.
Context `{CU : Codec BucketUsage} `{CN : Codec Z}.
Context {LI : CodecLaws InodeMeta} {L2 : CodecLaws InodeMetaV2} {LE : CodecLaws DirEntry}.
Context {AL : InodeAlias}.
Context (rules : version_rules) (useBucketStats : bool).

(** A batch that fits is committed exactly when its preconditions hold. *)
Lemma fits_commit hook fail (db : DB) b :
  batch_fits b ->
  if bool_decide (Forall (pre_holds db) (cb_Preconditions b)) then
    hook = None -> fail = None ->
    exists db', applyConditionalBatchWithHook rules hook fail db (Some b) = Ok db'
  else applyConditionalBatchWithHook rules hook fail db (Some b) = Err ErrRaftConditionalConflict.
Proof.
  intros F. pose proof (conditional_exact rules hook fail db b _ (fits_canonical rules b F) (bf_rep b F)) as X.
  destruct (applyConditionalBatchWithHook rules hook fail db (Some b)) as [db'|e].
  - destruct X as (-> & -> & Hp & _). rewrite bool_decide_eq_true_2 by done. eauto.
  - destruct X as [[Hp ->]|[Hp He]]; [by rewrite bool_decide_eq_false_2|].
    rewrite bool_decide_eq_true_2 by done. intros -> ->. by destruct He as [|[_ ?]].
Qed.

(** An environment in which no commit fails, a store that takes writes. *)
Definition quiet (en : ns_env) : Prop := en_hook en = None /\ forall n, en_fail en n = None.
Definition writable (s : NS DB) : Prop := ns_closed s = false /\ ns_readOnly s = false.

(** The id the first attempt of a create takes, and the one the second takes
    when the free list is empty. *)
Definition next_id (s : NS DB) : Z :=
  match ns_freeList s with
  | id :: _ => id
  | [] => u64 (ns_inodeSeq (ensureInodeIDMax s) + 1)
  end.

Definition reseeded_id (s : NS DB) : Z :=
  u64 (Z.max (next_id s) (scan_max_inode (ns_db s)) + 1).

(** The rows a create writes under the given id, as in [create_leaf]. *)
Definition leaf_ops (en : ns_env) (p : Z) (n : list Z) (root size : Z) (inode : Z -> Z -> InodeMeta)
    (k : nat) (db : DB) (id : Z) : list BatchOp :=
  let meta := inode id (en_clock en k) in
  [set_op (inodeKey id) meta; set_op (nsKey p n) (mkDirEntry id (im_Type meta) n)]
  ++ addBucketStatsOp useBucketStats db root size 1.

(** They are far below the limit of a value. *)
Definition rows_fit (ops : list BatchOp) : Prop := Forall (fun op => len (bo_Value op) <= 2 ^ 20) ops.

Lemma FormatUint_length n : (length (FormatUint n) <= 20)%nat.
Proof.
  unfold FormatUint. enough (forall fuel m acc, (length (dec_digits fuel m acc) <= fuel + length acc)%nat) as L.
  { specialize (L 20%nat n []). cbn [length] in L. lia. }
  induction fuel as [|fuel IH]; intros m acc; cbn [dec_digits]; [lia|].
  destruct (_ <? _); cbn [length]; [lia|]. etrans; [apply IH|]. cbn [length]. lia.
Qed.

Lemma len_inodeKey id : 0 < len (inodeKey id) <= 27.
Proof.
  unfold inodeKey. pose proof (FormatUint_length id). rewrite length_app.
  change (length prefixInode) with 7%nat. lia.
Qed.

Lemma len_nsKey p n : 0 < len (nsKey p n) <= 25 + len n.
Proof.
  unfold nsKey, nsPrefix. pose proof (FormatUint_length p). rewrite !length_app.
  change (length prefixNS) with 4%nat. change (length (str "/")) with 1%nat. lia.
Qed.

Lemma len_statsKey r : 0 < len (bucketStatsKey r) <= 34.
Proof.
  unfold bucketStatsKey. pose proof (FormatUint_length r). rewrite length_app.
  change (length prefixBucketStats) with 14%nat. lia.
Qed.

Lemma leaf_fits en p n root size inode k db id :
  len n <= MaxNameLength -> rows_fit (leaf_ops en p n root size inode k db id) ->
  batch_fits (buildNamespaceConditionalWithInodeGuard (nsKey p n) (inodeKey id)
                (leaf_ops en p n root size inode k db id)).
Proof.
  intros Hn Hf. pose proof (len_inodeKey id) as K1. pose proof (len_nsKey p n) as K2.
  pose proof (len_statsKey root) as K3. unfold MaxNameLength in Hn.
  pose proof (nsKey_inodeKey p n id) as D1. pose proof (bucketStatsKey_inodeKey root id) as D2.
  pose proof (bucketStatsKey_nsKey root p n) as D3.
  unfold leaf_ops, addBucketStatsOp, rows_fit in *.
  destruct (negb useBucketStats || (root =? 0)); cbn [app] in *.
  all: repeat match goal with H : Forall _ (_ :: _) |- _ => apply Forall_cons in H as [? H] end.
  all: cbn [set_op bo_Value] in *.
  all: constructor; cbn [buildNamespaceConditionalWithInodeGuard cb_Version cb_ExpectedRaftTerm
    cb_Preconditions cb_Mutations cb_PrefixReplacements map absent cp_Key set_op bo_Key length]; try done.
  all: try (repeat constructor; cbn [absent set_op cp_Key cp_ExpectedValue bo_Key bo_Value bo_Delete length];
    unfold maxConditionalKeyBytes, maxConditionalValueBytes; try done; lia).
  all: try (rewrite !NoDup_cons, !not_elem_of_cons; repeat split; try apply not_elem_of_nil;
    try apply NoDup_nil_2; congruence).
  all: unfold conditionalBatchEncodedSize, maxRaftLogEntryBytes, zsum, precondition_size, mutation_size;
    cbn [buildNamespaceConditionalWithInodeGuard cb_Version cb_Preconditions cb_Mutations
      cb_PrefixReplacements map foldr absent set_op cp_Key cp_ExpectAbsent bo_Delete bo_Key bo_Value]; op_tests; lia.
Qed.

(** ** Creates *)

Lemma stats_same (db db' : DB) root size k :
  (forall r, kv_get db' (bucketStatsKey r) = kv_get db (bucketStatsKey r)) ->
  addBucketStatsOp useBucketStats db' root size k = addBucketStatsOp useBucketStats db root size k.
Proof. intros E. unfold addBucketStatsOp, getValue_quiet, getValue. by rewrite E. Qed.

(** What [nextInodeID] does to the store. *)
Lemma nextInodeID_run en s :
  exists s1, nextInodeID en s = (s1, Ok (next_id s)) /\ ns_closed s1 = ns_closed s /\
    ns_readOnly s1 = ns_readOnly s /\
    (forall r, kv_get (ns_db s1) (bucketStatsKey r) = kv_get (ns_db s) (bucketStatsKey r)) /\
    (ns_freeList s = [] -> s1 = set_seq (next_id s) true s).
Proof.
  unfold nextInodeID, nbind, nget, next_id. destruct (ns_freeList s) as [|id rest] eqn:Ef.
  - eexists. cbn [nmodify nret]. split; [reflexivity|].
    unfold ensureInodeIDMax. destruct (ns_idMaxInit s) eqn:Ei; (split; [done|]; split; [done|];
      split; [done|]); intros _; [by rewrite Ei|done].
  - cbn [nmodify nret ignoring]. eexists. split; [reflexivity|]. unfold applyBatchViaRaft.
    cbn [ns_readOnly set_free]. destruct (ns_readOnly s) eqn:Er; [done|].
    destruct (applyReferenceAwareBatch _ _ _) as [db|e] eqn:E; [|done].
    split; [done|]. split; [done|]. split; [|done]. intros r. cbn [fst set_db ns_db].
    unfold applyReferenceAwareBatch, prepareReferenceAwareBatch in E. ok_inv. subst.
    unfold commit_batch in E. destruct (en_fail en 0); [done|]. ok_inv. subst.
    cbn [fold_left]. rewrite kv_get_apply_op, bool_decide_eq_false_2; [done|].
    intros E. by apply (apart_app prefixFreeList prefixBucketStats (FormatUint id) (FormatUint r)).
Qed.

Lemma create_leaf_run en p n root size inode k s :
  exists s1, nextInodeID en s = (s1, Ok (next_id s)) /\
    create_leaf useBucketStats en p n root size inode k s =
      (s1, Ok (buildNamespaceConditionalWithInodeGuard (nsKey p n) (inodeKey (next_id s))
                 (leaf_ops en p n root size inode k (ns_db s) (next_id s)),
               inode (next_id s) (en_clock en k))).
Proof.
  destruct (nextInodeID_run en s) as (s1 & E & _ & _ & Hs & _). exists s1. split; [done|].
  unfold create_leaf, nbind. rewrite E. unfold nget, nret, leaf_ops. by rewrite (stats_same (ns_db s)).
Qed.

(** A guarded create commits when name and id are free, and reports the
    conflict when the id is taken. *)
Lemma guarded_commit en k p n id ops s f :
  ns_ok s f -> writable s -> quiet en -> is_u64 p -> is_u64 id -> f_entries f !! (p, n) = None ->
  let b := buildNamespaceConditionalWithInodeGuard (nsKey p n) (inodeKey id) ops in
  batch_fits b ->
  match f_inodes f !! id with
  | None => exists s', applyNamespaceConditional rules en k b ErrEntryExists s = (s', Ok tt)
  | Some _ => applyNamespaceConditional rules en k b ErrEntryExists s = (s, Err ErrEntryExists)
  end.
Proof.
  intros O [_ Hw] [Hh Hq] Hp Hid He b F. unfold applyNamespaceConditional. rewrite Hw, Hh, (Hq k).
  pose proof (fits_commit None None (ns_db s) b F) as X.
  assert (kv_get (ns_db s) (nsKey p n) = None) as K1 by (by rewrite (rp_entry _ _ (no_rep _ _ O)), He).
  pose proof (rp_inode _ _ (no_rep _ _ O) id Hid) as K2.
  destruct (f_inodes f !! id) as [r|] eqn:Hi.
  - rewrite bool_decide_eq_false_2 in X; [by rewrite X|]. intros P.
    apply Forall_cons in P as [_ P]. apply Forall_cons in P as [P _].
    change (kv_get (ns_db s) (inodeKey id) = None) in P. rewrite P in K2. discriminate K2.
  - rewrite bool_decide_eq_true_2 in X.
    + destruct (X eq_refl eq_refl) as [db ->]. eauto.
    + constructor; [exact K1|]. constructor; [exact K2|constructor].
Qed.

(** Without a free list, the id after a reseed is above every stored inode. *)
Lemma reseeded_fresh s f :
  ns_ok s f -> ns_freeList s = [] -> ns_inodeSeq s < 2 ^ 64 - 2 ->
  scan_max_inode (ns_db s) < 2 ^ 64 - 2 -> f_inodes f !! reseeded_id s = None.
Proof.
  intros O Hf0 Hseq Hscan. destruct (f_inodes f !! reseeded_id s) as [r|] eqn:Hi; [|done]. exfalso.
  destruct (scan_max_inode_bound (ns_db s) f (reseeded_id s) (no_rep _ _ O) (no_wf _ _ O)
    ltac:(by eexists)) as [Hle Hsm]. pose proof (no_seq _ _ O) as Hq. unfold uintw in Hq, Hsm.
  assert (0 <= next_id s < 2 ^ 64 - 1) as Hlt.
  { unfold next_id, ensureInodeIDMax. rewrite Hf0. unfold wrap.
    rewrite Z.mod_small; destruct (ns_idMaxInit s); cbn [set_seq ns_inodeSeq];
      try destruct (Z.ltb_spec (ns_inodeSeq s) (scan_max_inode (ns_db s))); lia. }
  revert Hle. unfold reseeded_id, wrap. rewrite Z.mod_small; lia.
Qed.

Lemma reseed_next s :
  ns_freeList s = [] -> next_id (reseedInodeIDMax (set_seq (next_id s) true s)) = reseeded_id s.
Proof.
  intros Hf0. unfold reseeded_id. generalize (next_id s). intros id.
  unfold next_id, reseedInodeIDMax, ensureInodeIDMax.
  cbn [set_seq ns_freeList ns_idMaxInit ns_inodeSeq ns_db]. rewrite Hf0. f_equal. f_equal.
  destruct (Z.ltb_spec id (scan_max_inode (ns_db s))); lia.
Qed.

Lemma leaf_progress en p n root size inode s f :
  ns_ok s f -> writable s -> quiet en -> is_u64 p -> f_entries f !! (p, n) = None ->
  len n <= MaxNameLength -> Forall (fun id => f_inodes f !! id = None) (ns_freeList s) ->
  ns_inodeSeq s < 2 ^ 64 - 2 -> scan_max_inode (ns_db s) < 2 ^ 64 - 2 ->
  (forall k id, id = next_id s \/ id = reseeded_id s ->
     rows_fit (leaf_ops en p n root size inode k (ns_db s) id)) ->
  exists s' m, applyNamespaceCreate rules en ErrEntryExists
    (create_leaf useBucketStats en p n root size inode) s = (s', Ok m).
Proof.
  intros O W Q Hp He Hn Hfree Hseq Hscan Hfit.
  destruct (create_leaf_run en p n root size inode 0 s) as (s1 & En & Ec).
  destruct (nextInodeID_run en s) as (s1' & En' & Hc1 & Hr1 & Hdb1 & Hs1).
  rewrite En in En'. injection En' as <-.
  destruct (nextInodeID_ok en s f s1 _ O En) as (id & [= <-] & Hid & O1).
  assert (writable s1) as W1 by (destruct W; split; congruence).
  unfold applyNamespaceCreate, nbind at 1. rewrite Ec.
  pose proof (guarded_commit en 1 p n (next_id s) _ s1 f O1 W1 Q Hp Hid He
    (leaf_fits en p n root size inode 0 (ns_db s) _ Hn (Hfit 0%nat _ (or_introl eq_refl)))) as C1.
  destruct (f_inodes f !! next_id s) as [r|] eqn:Hi.
  2:{ destruct C1 as [s' ->]. eauto. }
  rewrite C1, bool_decide_eq_true_2 by done.
  assert (ns_freeList s = []) as Hf0.
  { unfold next_id in Hi. destruct (ns_freeList s); [done|]. apply Forall_inv in Hfree. congruence. }
  specialize (Hs1 Hf0). set (s2 := reseedInodeIDMax s1).
  assert (ns_ok s2 f) as O2 by (apply ensure_ok; destruct O1; by constructor).
  assert (next_id s2 = reseeded_id s) as Hnext by (unfold s2; rewrite Hs1; by apply reseed_next).
  assert (ns_db s2 = ns_db s) as Hdb by (by unfold s2; rewrite Hs1).
  assert (writable s2) as W2 by (by unfold s2; rewrite Hs1).
  destruct (create_leaf_run en p n root size inode 1 s2) as (s3 & En2 & Ec2).
  destruct (nextInodeID_run en s2) as (s3' & En2' & Hc3 & Hr3 & _ & _).
  rewrite En2 in En2'. injection En2' as <-.
  destruct (nextInodeID_ok en s2 f s3 _ O2 En2) as (id2 & [= <-] & Hid2 & O3).
  assert (writable s3) as W3 by (destruct W2; split; congruence).
  unfold nbind. cbn [nmodify]. fold s2. rewrite Ec2. rewrite Hnext, Hdb in *.
  pose proof (guarded_commit en 2 p n (reseeded_id s) _ s3 f O3 W3 Q Hp Hid2 He
    (leaf_fits en p n root size inode 1 (ns_db s) _ Hn (Hfit 1%nat _ (or_intror eq_refl)))) as C2'.
  rewrite (reseeded_fresh s f) in C2' by done. destruct C2' as [s' ->]. cbn [nret]. eauto.
Qed.

(** ** Reading back *)

Lemma Lookup_run p n s f :
  ns_ok s f -> ns_closed s = false -> is_u64 p ->
  Lookup p n s =
    (s, match f_entries f !! (p, n) with
        | None => Err ErrEntryNotFound
        | Some e => match f_inodes f !! de_InodeID e with
                    | Some r => Ok (view1 r)
                    | None => Err ErrInodeNotFound
                    end
        end).
Proof.
  intros O Hc Hp. unfold Lookup, nbind, enter_ns, nget, nlift. rewrite Hc.
  rewrite (getValue_entry _ f) by (done || apply O).
  destruct (f_entries f !! (p, n)) as [e|] eqn:He; [|done].
  destruct (fw_entry f (no_wf _ _ O) p n e He) as (_ & _ & r & Hr & _).
  destruct (fw_inode f (no_wf _ _ O) _ r Hr) as (Hid & _).
  rewrite (getValue_inode _ f) by (done || apply O). by rewrite Hr.
Qed.
End Progress.

(** * Directory listings

    [ReadDir] (by offset) and [ReadDirFrom] (by name) of
    [nufs-core/metadata/pebble_store.go] page through one and the same list:
    the entries of the directory, each once, in byte order of their names. *)

(** ** Seeking *)

Lemma filter_all {A} (f : A -> bool) l : Forall (fun x => f x = true) l -> List.filter f l = l.
Proof. induction 1 as [|x l Hx F IH]; [done|]. cbn. by rewrite Hx, IH. Qed.

(** [SeekGE(cursor)] and a [Next] past the cursor itself leave the rows after it. *)
Lemma skip_past_sorted cursor (l : list row) :
  StronglySorted (fun p q : row => bytes_lt p.1 q.1) l ->
  skip_past cursor (List.filter (fun kv : row => negb (bytes_ltb kv.1 cursor)) l) =
    List.filter (fun kv : row => bytes_ltb cursor kv.1) l.
Proof.
  induction 1 as [|[k v] l S IH F]; [done|]. cbn [List.filter fst].
  destruct (bytes_ltb k cursor) eqn:E; cbn [negb].
  { by rewrite (bytes_ltb_asym _ _ E). }
  assert (k = cursor \/ bytes_ltb cursor k = true) as G.
  { destruct (bytes_ltb_total k cursor) as [G|[G|G]]; unfold bytes_lt in G; auto; congruence. }
  assert (Forall (fun q : row => bytes_ltb cursor q.1 = true) l) as Hl.
  { eapply Forall_impl; [exact F|]. intros q Hq. destruct G as [<-|G]; [done|].
    by apply (bytes_ltb_trans cursor k). }
  rewrite (filter_all _ _ Hl), (filter_all (fun kv : row => negb (bytes_ltb kv.1 cursor))).
  2:{ eapply Forall_impl; [exact Hl|]. intros q Hq. cbn in *. by rewrite (bytes_ltb_asym _ _ Hq). }
  cbn [skip_past]. destruct G as [->|G].
  - by rewrite bytes_ltb_irrefl, bool_decide_eq_true_2.
  - rewrite G, bool_decide_eq_false_2; [done|]. intros ->. by rewrite bytes_ltb_irrefl in G.
Qed.

Section Listing.
Context {DB : Type} `{KL : PebbleLaws DB}.
Context `{CI : Codec InodeMeta} `{C2 : Codec InodeMetaV2} `{CE : Codec DirEntry}.
Context `{CU : Codec BucketUsage} `{CN : Codec Z}.
Context {LI : CodecLaws InodeMeta} {L2 : CodecLaws InodeMetaV2} {LE : CodecLaws DirEntry}.
Context {AL : InodeAlias}.

Lemma skip_past_after (db : DB) lower upper cursor :
  bytes_le lower cursor ->
  skip_past cursor (kv_range db cursor upper) =
    List.filter (fun kv : row => bytes_ltb cursor kv.1) (kv_range db lower upper).
Proof. intros H1. rewrite <- (kv_range_narrow db lower) by done. apply skip_past_sorted, kv_range_sorted. Qed.

(** ** Rows as entries *)

(** What a listing makes of a row. *)
Definition listed (prefix : list Z) (kv : row) : option DirEntry :=
  match TrimPrefix kv.1 prefix with
  | [] => None
  | name =>
      match @unmarshalValue _ CE kv.2 with
      | Ok e => Some (mkDirEntry (de_InodeID e) (de_Type e) name)
      | Err _ => None
      end
  end.

Definition decodes (kv : row) : Prop := exists e, @unmarshalValue _ CE kv.2 = Ok e.

Lemma readdir_fold prefix offset limit rows entries skipped :
  Forall decodes rows -> 0 <= skipped <= offset -> (entries = [] \/ skipped = offset) ->
  (scan_fold (readdir_step prefix offset limit) (entries, skipped) rows).1 =
    entries ++ take (Z.to_nat (limit - len entries)) (drop (Z.to_nat (offset - skipped)) (omap (listed prefix) rows)).
Proof.
  intros F. revert entries skipped. induction F as [|[k v] rows [e He] F IH]; intros entries skipped Hs Hc.
  { cbn. by rewrite drop_nil, take_nil, app_nil_r. }
  cbn [scan_fold readdir_step].
  destruct (Z.leb_spec limit (len entries)) as [Hl|Hl].
  { cbn [fst]. replace (Z.to_nat (limit - len entries)) with 0%nat by lia. by rewrite take_0, app_nil_r. }
  cbn [snd] in He. cbn [omap list_omap]. unfold listed at 1. cbn [fst snd].
  destruct (TrimPrefix k prefix) as [|c name] eqn:En; [by apply IH|].
  destruct (Z.ltb_spec skipped offset) as [Hk|Hk].
  - rewrite IH by (lia || (left; destruct Hc; [done|lia])). rewrite He.
    replace (Z.to_nat (offset - skipped)) with (S (Z.to_nat (offset - (skipped + 1)))) by lia. done.
  - rewrite He, IH by (lia || (right; lia)). assert (offset - skipped = 0) as -> by lia. cbn [drop].
    rewrite length_app. cbn [length]. change (Z.to_nat 0) with 0%nat. rewrite !drop_0.
    replace (Z.to_nat (limit - len entries)) with (S (Z.to_nat (limit - Z.of_nat (length entries + 1)))) by lia.
    cbn [take]. by rewrite <- app_assoc.
Qed.

Lemma readdir_loop_rows prefix limit rows entries :
  Forall decodes rows ->
  readdir_loop prefix limit entries rows =
    entries ++ take (Z.to_nat (limit - len entries)) (omap (listed prefix) rows).
Proof.
  intros F. revert entries. induction F as [|[k v] rows [e He] F IH]; intros entries.
  { cbn. by rewrite take_nil, app_nil_r. }
  cbn [readdir_loop]. destruct (Z.leb_spec limit (len entries)) as [Hl|Hl].
  { replace (Z.to_nat (limit - len entries)) with 0%nat by lia. by rewrite take_0, app_nil_r. }
  cbn [snd] in He. cbn [omap list_omap]. unfold listed at 1. cbn [fst snd].
  destruct (TrimPrefix k prefix) as [|c name] eqn:En; [by apply IH|]. rewrite He, IH, length_app.
  cbn [length].
  replace (Z.to_nat (limit - len entries)) with (S (Z.to_nat (limit - Z.of_nat (length entries + 1)))) by lia.
  cbn [take]. by rewrite <- app_assoc.
Qed.

(** ** The directory *)

Definition dir_rows (db : DB) (p : Z) : list row :=
  kv_range db (nsPrefix p) (prefixUpperBound (nsPrefix p)).

(** The listing of a directory. *)
Definition dir_list (db : DB) (p : Z) : list DirEntry := omap (listed (nsPrefix p)) (dir_rows db p).

Lemma elem_of_dir_rows db f p k v :
  rep db f -> fs_wf f -> is_u64 p ->
  (k, v) ∈ dir_rows db p <->
  exists n e, k = nsKey p n /\ f_entries f !! (p, n) = Some e /\ v = marshalValue e.
Proof.
  intros R W Hp. unfold dir_rows. rewrite elem_of_kv_range. split.
  - intros [Hk Hr]. pose proof (rp_keys _ _ R k v Hk) as Hwf.
    rewrite in_range_prefix in Hr by (done || apply nsPrefix_wf).
    apply HasPrefix_spec in Hr as [n ->]. change (kv_get db (nsKey p n) = Some v) in Hk.
    rewrite (rp_entry _ _ R) in Hk by done. destruct (f_entries f !! (p, n)) as [e|] eqn:He; [|done].
    injection Hk as <-. exists n, e. done.
  - intros (n & e & -> & He & ->). destruct (fw_entry f W p n e He) as (_ & Hn & _).
    rewrite in_range_prefix by (apply nsPrefix_wf || by apply nsKey_wf).
    rewrite (rp_entry _ _ R), He by done. split; [done|apply HasPrefix_app].
Qed.

Lemma dir_rows_fine db f p :
  rep db f -> fs_wf f -> is_u64 p ->
  Forall (fun kv : row => decodes kv /\ exists n, kv.1 = nsPrefix p ++ n) (dir_rows db p).
Proof.
  intros R W Hp. apply Forall_forall. intros [k v] Hin.
  apply (elem_of_dir_rows db f) in Hin as (n & e & -> & _ & ->); [|done..].
  split; [|by exists n]. exists e. apply unmarshalValue_marshalValue.
Qed.

Lemma elem_of_dir_list db f p d :
  rep db f -> fs_wf f -> is_u64 p ->
  d ∈ dir_list db p <->
  de_Name d <> [] /\ exists e, f_entries f !! (p, de_Name d) = Some e /\
    d = mkDirEntry (de_InodeID e) (de_Type e) (de_Name d).
Proof.
  intros R W Hp. unfold dir_list. rewrite list_elem_of_omap. split.
  - intros ([k v] & Hin & Hl). apply (elem_of_dir_rows db f) in Hin as (n & e & -> & He & ->); [|done..].
    unfold listed in Hl. cbn [fst snd] in Hl. unfold nsKey in Hl. rewrite TrimPrefix_app in Hl.
    destruct n as [|c n]; [done|]. rewrite unmarshalValue_marshalValue in Hl. injection Hl as <-.
    split; [done|]. by exists e.
  - intros (Hn & e & He & Hd). exists (nsKey p (de_Name d), marshalValue e). split.
    { apply (elem_of_dir_rows db f); try done. by exists (de_Name d), e. }
    unfold listed. cbn [fst snd]. unfold nsKey. rewrite TrimPrefix_app, unmarshalValue_marshalValue, Hd.
    cbn [de_Name]. by destruct (de_Name d).
Qed.

Lemma listed_name prefix kv n d : kv.1 = prefix ++ n -> listed prefix kv = Some d -> de_Name d = n.
Proof.
  intros E. unfold listed. rewrite E, TrimPrefix_app. destruct n as [|c n]; [done|].
  destruct (unmarshalValue kv.2); [|done]. by intros [= <-].
Qed.

Lemma dir_list_sorted db f p :
  rep db f -> fs_wf f -> is_u64 p ->
  StronglySorted (fun a b => bytes_lt (de_Name a) (de_Name b)) (dir_list db p).
Proof.
  intros R W Hp. unfold dir_list. pose proof (dir_rows_fine db f p R W Hp) as F.
  pose proof (kv_range_sorted db (nsPrefix p) (prefixUpperBound (nsPrefix p))) as S.
  fold (dir_rows db p) in S. induction S as [|x l S IH Fl]; [constructor|].
  apply Forall_cons in F as [[_ [n Hn]] F]. cbn [omap list_omap].
  destruct (listed (nsPrefix p) x) as [d|] eqn:El; [|by apply IH]. constructor; [by apply IH|].
  apply Forall_forall. intros d' Hd'. apply list_elem_of_omap in Hd' as (y & Hy & Hl).
  rewrite Forall_forall in F, Fl. destruct (F y Hy) as [_ [n' Hn']]. specialize (Fl y Hy). cbn in Fl.
  rewrite (listed_name _ _ _ _ Hn El), (listed_name _ _ _ _ Hn' Hl).
  rewrite Hn, Hn' in Fl. unfold bytes_lt in *. by rewrite bytes_ltb_app_same in Fl.
Qed.

Lemma listed_after prefix name (l : list row) :
  Forall (fun kv : row => decodes kv /\ exists n, kv.1 = prefix ++ n) l ->
  omap (listed prefix) (List.filter (fun kv : row => bytes_ltb (prefix ++ name) kv.1) l) =
  List.filter (fun d => bytes_ltb name (de_Name d)) (omap (listed prefix) l).
Proof.
  induction 1 as [|x l [[e He] [n Hn]] F IH]; [done|]. cbn [List.filter].
  assert (bytes_ltb (prefix ++ name) x.1 = bytes_ltb name n) as ->
    by (by rewrite Hn, bytes_ltb_app_same).
  cbn [omap list_omap]. destruct (listed prefix x) as [d|] eqn:El.
  - cbn [List.filter]. rewrite (listed_name _ _ _ _ Hn El).
    destruct (bytes_ltb name n); cbn [omap list_omap]; rewrite ?El; [f_equal|]; apply IH.
  - destruct (bytes_ltb name n); cbn [omap list_omap]; rewrite ?El; apply IH.
Qed.

Lemma ReadDir_run p offset limit s f :
  ns_ok s f -> ns_closed s = false -> is_u64 p -> 0 <= offset ->
  ReadDir p offset limit s =
    (s, Ok (take (Z.to_nat (read_dir_limit limit)) (drop (Z.to_nat offset) (dir_list (ns_db s) p)))).
Proof.
  intros O Hc Hp Ho. unfold ReadDir, nbind, enter_ns, nget, nret. rewrite Hc. unfold scanPrefix.
  rewrite readdir_fold; [|eapply Forall_impl; [exact (dir_rows_fine _ f p (no_rep _ _ O) (no_wf _ _ O) Hp)|]|lia|by left].
  2:{ by intros kv [? _]. }
  cbn [app length]. by rewrite !Z.sub_0_r.
Qed.

Lemma ReadDirFrom_run p name limit s f :
  ns_ok s f -> ns_closed s = false -> is_u64 p ->
  ReadDirFrom p name limit s =
    (s, Ok (take (Z.to_nat (read_dir_limit limit))
              (List.filter (fun d => bytes_ltb name (de_Name d)) (dir_list (ns_db s) p)))).
Proof.
  intros O Hc Hp. unfold ReadDirFrom, nbind, enter_ns, nget, nret. rewrite Hc.
  pose proof (dir_rows_fine _ f p (no_rep _ _ O) (no_wf _ _ O) Hp) as F.
  assert (Forall decodes (dir_rows (ns_db s) p)) as D by (eapply Forall_impl; [exact F|]; by intros kv [? _]).
  destruct name as [|c name].
  - rewrite readdir_loop_rows by done. cbn [app length]. rewrite Z.sub_0_r.
    rewrite (filter_all (fun d => bytes_ltb [] (de_Name d))); [done|]. apply Forall_forall.
    intros d Hd. apply (elem_of_dir_list _ f) in Hd as [Hn _]; [|apply O|apply O|done].
    by destruct (de_Name d).
  - rewrite (skip_past_after _ (nsPrefix p)) by (unfold bytes_le; apply bytes_ltb_prefix).
    fold (dir_rows (ns_db s) p). rewrite readdir_loop_rows.
    + cbn [app length]. rewrite Z.sub_0_r. unfold dir_list. by rewrite <- listed_after.
    + apply Forall_forall. intros kv Hin. rewrite Forall_forall in D. apply D.
      apply list_elem_of_In in Hin. apply filter_In in Hin as [Hin _]. by apply list_elem_of_In.
Qed.
End Listing.
