(* ===== verification/ExtentProofs.v ===== *)
(** * What the extent operations do to a file

    Page keys are injective, so a page written under a new root hides no page
    of the old one. From this: the run of each operation of [Extents.v], on
    success and on a failure of any of its writes. *)

From stdpp Require Import base list sorting numbers strings gmap.
From Stdlib Require Import ZArith Lia.
From S2P Require Import Prelude Bytes Pebble MetaKeys MetaScan MetaTypes RaftLog MetaFSM Namespace Extents MetaFSMProofs NamespaceProofs NamespaceProgress.

Local Open Scope Z_scope.
Local Open Scope go_scope.
Local Open Scope ns_scope.

(** ** Keys *)

Lemma lor_top_mod x : Z.lor (u8 x) 128 mod 128 = x mod 128.
Proof.
  change 128 with (2 ^ 7) at 2 3. rewrite <- !Z.land_ones by lia. rewrite Z.land_lor_distr_l.
  change (Z.land 128 (Z.ones 7)) with 0. rewrite Z.lor_0_r. unfold wrap.
  rewrite <- Z.land_ones by lia. rewrite <- Z.land_assoc. f_equal.
Qed.

Lemma lor_top_ge x : 0 <= x -> 128 <= Z.lor (u8 x) 128.
Proof.
  intros Hx. destruct (Z.le_gt_cases 128 (Z.lor (u8 x) 128)) as [|Hlt]; [done|]. exfalso.
  pose proof (wrap_bound 8 x ltac:(lia)) as [Hb _].
  assert (0 <= Z.lor (u8 x) 128) by (apply Z.lor_nonneg; lia).
  assert (Z.testbit (Z.lor (u8 x) 128) 7 = true) as T by (rewrite Z.lor_spec; apply orb_true_r).
  apply Z.testbit_true in T; [|lia]. rewrite Z.div_small in T by lia. discriminate T.
Qed.

(** A uvarint ends where it says. *)
Lemma uvarint_split fuel x y s t :
  0 <= x < 2 ^ (7 * Z.of_nat fuel) -> 0 <= y < 2 ^ (7 * Z.of_nat fuel) ->
  uvarint fuel x ++ s = uvarint fuel y ++ t -> x = y /\ s = t.
Proof.
  revert x y. induction fuel as [|fuel IH]; intros x y Hx Hy E.
  { cbn in *. split; [lia|done]. }
  cbn [uvarint] in E.
  replace (7 * Z.of_nat (S fuel)) with (7 * Z.of_nat fuel + 7) in Hx, Hy by lia.
  rewrite Z.pow_add_r in Hx, Hy by lia.
  destruct (Z.ltb_spec x 128), (Z.ltb_spec y 128); cbn [app] in E; injection E as E1 E2.
  - done.
  - pose proof (lor_top_ge y ltac:(lia)). lia.
  - pose proof (lor_top_ge x ltac:(lia)). lia.
  - apply (f_equal (fun z => z mod 128)) in E1. rewrite !lor_top_mod in E1.
    rewrite !Z.shiftr_div_pow2 in E2 by lia.
    change (2 ^ 7) with 128 in *.
    apply IH in E2 as [E2 ->]; [|split; [apply Z.div_pos; lia|apply Z.div_lt_upper_bound; lia]..].
    split; [|done]. rewrite (Z.div_mod x 128), (Z.div_mod y 128) by lia. congruence.
Qed.

Lemma PutUvarint_split x y s t :
  is_u64 x -> is_u64 y -> PutUvarint x ++ s = PutUvarint y ++ t -> x = y /\ s = t.
Proof. unfold uintw. intros Hx Hy. apply uvarint_split; lia. Qed.

Lemma extentPageKey_inj i r p i' r' p' :
  is_u64 i -> is_u64 i' -> is_u64 r -> is_u64 r' -> is_u64 p -> is_u64 p' ->
  extentPageKey i r p = extentPageKey i' r' p' -> i = i' /\ r = r' /\ p = p'.
Proof.
  intros. unfold extentPageKey in *. match goal with H : _ = _ |- _ => rename H into E end.
  apply app_inv_head in E. apply PutUvarint_split in E as [-> E]; [|done..].
  apply app_inv_head in E. apply PutUvarint_split in E as [-> E]; [|done..].
  apply app_inv_head in E. rewrite <- (app_nil_r (PutUvarint p)), <- (app_nil_r (PutUvarint p')) in E.
  by apply PutUvarint_split in E as [-> _].
Qed.

Lemma extentPageKey_inodeKey i r p j : extentPageKey i r p <> inodeKey j.
Proof. by apply apart_app. Qed.

Lemma extentPageKey_stats i r p root : extentPageKey i r p <> bucketStatsKey root.
Proof. by apply apart_app. Qed.

Lemma extentPageKey_meta i r p x : extentPageKey i r p <> extentMetaKey x.
Proof. by apply apart_app. Qed.

Lemma extentMetaKey_inodeKey x j : extentMetaKey x <> inodeKey j.
Proof. by apply apart_app. Qed.

Lemma extentMetaKey_stats x r : extentMetaKey x <> bucketStatsKey r.
Proof. by apply apart_app. Qed.

Lemma extentMetaKey_inj x y : is_u64 x -> is_u64 y -> extentMetaKey x = extentMetaKey y -> x = y.
Proof. intros Hx Hy E. apply app_inv_head in E. by apply FormatUint_inj. Qed.

Section Proofs.
Context {DB : Type} `{KL : PebbleLaws DB}.
Context `{CI : Codec InodeMeta} `{C2 : Codec InodeMetaV2} `{CU : Codec BucketUsage}.
Context `{CP : Codec ExtentPage} `{CX : Codec ExtentMetaV2} `{CK : Codec ChunkMeta}.
Context {LI : CodecLaws InodeMeta} {L2 : CodecLaws InodeMetaV2} {LP : CodecLaws ExtentPage}.
Context {LX : CodecLaws ExtentMetaV2} {AL : InodeAlias}.
Context (useBucketStats : bool).

(** ** Commits *)

(** An accepted batch is applied or, read-only or failing, leaves the store. *)
Lemma batch_run fail ops (s s' : NS DB) r :
  ops <> [] -> prepare_ops (ns_db s) ∅ ops = Ok tt -> applyBatchViaRaft fail ops s = (s', r) ->
  (r = Ok tt /\ s' = set_db (fold_left apply_op ops (ns_db s)) s) \/
  (exists e, r = Err e /\ s' = s /\ (ns_readOnly s = true \/ is_Some fail)).
Proof.
  intros Hn Hp. unfold applyBatchViaRaft. destruct ops as [|o ops]; [done|].
  destruct (ns_readOnly s); [intros [= <- <-]; eauto 6|].
  unfold applyReferenceAwareBatch, prepareReferenceAwareBatch. rewrite Hp, !bind_Ok.
  unfold commit_batch. destruct fail as [e|]; intros [= <- <-]; eauto 6.
Qed.

(** Rows the reference checks do not look at. *)
Definition plain_key (k : list Z) : Prop :=
  k <> keyInodeReferenceEpoch /\ isInodeMetadataKey k = false /\ isChunkMetadataKey k = false.

Lemma page_plain i r p : plain_key (extentPageKey i r p).
Proof. by split. Qed.

Lemma meta_plain x : plain_key (extentMetaKey x).
Proof. by split. Qed.

Lemma stats_plain r : plain_key (bucketStatsKey r).
Proof. by split. Qed.

Lemma prepare_plain (db : DB) overlay op :
  plain_key (bo_Key op) -> prepare_op db overlay op = Ok (<[bo_Key op := op_value op]> overlay).
Proof.
  intros (H1 & H2 & H3). unfold prepare_op. rewrite bool_decide_eq_false_2 by done. by rewrite H2, H3.
Qed.

Lemma write_run fail k v (s s' : NS DB) r :
  plain_key k -> applyBatchViaRaft fail [mkBatchOp false k v] s = (s', r) ->
  (r = Ok tt /\ s' = set_db (kv_set (ns_db s) k v) s) \/
  (exists e, r = Err e /\ s' = s /\ (ns_readOnly s = true \/ is_Some fail)).
Proof. intros Hk. apply batch_run; [done|]. cbn [prepare_ops]. by rewrite prepare_plain. Qed.

(** ** Rows of a file *)

(** The row at [id] reads as this V2 inode (and as a V1 one). *)
Record v2_row (db : DB) (id : Z) (inode : InodeMetaV2) : Prop := mkV2Row {
  vr_id : is_u64 id;
  vr_raw : exists raw m, kv_get db (inodeKey id) = Some raw /\ @unmarshalValue _ C2 raw = Ok inode /\
             @unmarshalValue _ CI raw = Ok m /\ im_ID m = id;
  vr_same : i2_ID inode = id;
  vr_root : 0 <= i2_ExtentRoot inode < 2 ^ 64 - 1;
  vr_count : is_u32 (i2_ExtentPageCount inode)
}.

Lemma v2_row_get db id inode : v2_row db id inode -> inode2_Get db id = Ok (Some inode).
Proof.
  intros [_ (raw & m & Hk & Hu & _) _ _ _]. unfold inode2_Get, getValue. by rewrite Hk, Hu.
Qed.

Lemma v2_row_frame (db db' : DB) id inode :
  v2_row db id inode -> kv_get db' (inodeKey id) = kv_get db (inodeKey id) -> v2_row db' id inode.
Proof. intros [? (raw & m & Hk & ?) ? ? ?] E. constructor; try done. exists raw, m. by rewrite E. Qed.

Lemma get_inode2_run id inode (s : NS DB) :
  v2_row (ns_db s) id inode -> get_inode2 id s = (s, Ok inode).
Proof.
  intros R. unfold get_inode2, nbind, nget, nlift. by rewrite (v2_row_get _ _ _ R).
Qed.

Lemma decode_v2 m : @unmarshalValue _ C2 (marshalValue m) = Ok m.
Proof. apply unmarshalValue_marshalValue. Qed.

Lemma decode_v2_as_v1 m : @unmarshalValue _ CI (@marshalValue _ C2 m) = Ok (v1_of_v2 m).
Proof. apply unmarshal_document; [apply marshal_document|apply v2_as_v1]. Qed.

(** An inode row may be replaced by a V2 row of the same inode. *)
Lemma prepare_inode (db : DB) overlay id inode next :
  v2_row db id inode -> i2_ID next = id -> overlay !! inodeKey id = None ->
  prepare_op db overlay (set_op (inodeKey id) next) = Ok (<[inodeKey id := Some (marshalValue next)]> overlay).
Proof.
  intros [Hid (raw & m & Hk & _ & Hu & Hm) _ _ _] Hn Ho. unfold prepare_op, set_op.
  cbn [bo_Key bo_Delete bo_Value op_value].
  rewrite bool_decide_eq_false_2 by done.
  rewrite isInodeMetadataKey_inodeKey by done. unfold readRaw. rewrite Ho, Hk.
  assert (forall j, j = id -> validateInodeKeyIdentity (inodeKey id) j = Ok tt) as V.
  { intros j ->. unfold validateInodeKeyIdentity.
    pose proof (isInodeMetadataKey_inodeKey id Hid) as I. unfold isInodeMetadataKey in I.
    apply andb_true_iff in I as [_ ->]. cbn [negb].
    assert (TrimPrefix (inodeKey id) prefixInode = FormatUint id) as -> by apply TrimPrefix_app.
    by rewrite ParseUint_FormatUint, bool_decide_eq_true_2. }
  unfold decodeReferencedInode. rewrite Hu, V, !bind_Ok by done.
  rewrite decode_v2_as_v1, V, !bind_Ok by done.
  cbn [addedChunkReferences v1_of_v2 im_ChunkMap map List.filter existsb]. by rewrite andb_false_r.
Qed.

(** ** What a run touches *)

(** The run changed the database only, and of it only keys in [K]. *)
Definition touch (K : list Z -> Prop) (s s' : NS DB) : Prop :=
  s' = set_db (ns_db s') s /\ forall k, ~ K k -> kv_get (ns_db s') k = kv_get (ns_db s) k.

Lemma touch_refl K s : touch K s s.
Proof. split; [by destruct s|done]. Qed.

Lemma touch_trans (K K' L : list Z -> Prop) s1 s2 s3 :
  touch K s1 s2 -> touch K' s2 s3 -> (forall k, K k -> L k) -> (forall k, K' k -> L k) -> touch L s1 s3.
Proof.
  intros [E1 F1] [E2 F2] H1 H2. split; [rewrite E2, E1; by destruct s1|].
  intros k Hk. rewrite F2, F1; auto.
Qed.

Lemma touch_weaken (K L : list Z -> Prop) s s' : touch K s s' -> (forall k, K k -> L k) -> touch L s s'.
Proof. intros [E F] Hs. split; [done|]. auto. Qed.

Lemma touch_set k v (s : NS DB) : touch (eq k) s (set_db (kv_set (ns_db s) k v) s).
Proof.
  split; [done|]. intros k' Hk. cbn [set_db ns_db]. by rewrite kv_get_set, bool_decide_eq_false_2.
Qed.

Definition inode_keys (id : Z) (k : list Z) : Prop := k = inodeKey id \/ exists root, k = bucketStatsKey root.
Definition pages_from (id root p : Z) (k : list Z) : Prop :=
  exists q, p <= q < 2 ^ 64 /\ k = extentPageKey id root q.
Definition meta_keys (k : list Z) : Prop := exists x, k = extentMetaKey x.

(** ** Writing the inode row *)

Lemma row_written (db db' : DB) id inode next :
  v2_row db id inode -> kv_get db' (inodeKey id) = Some (@marshalValue _ C2 next) -> i2_ID next = id ->
  0 <= i2_ExtentRoot next < 2 ^ 64 - 1 -> is_u32 (i2_ExtentPageCount next) -> v2_row db' id next.
Proof.
  intros R Hk Hn Hr Hc. constructor; try done; [apply R|]. exists (marshalValue next), (v1_of_v2 next).
  split; [done|]. split; [apply decode_v2|]. split; [apply decode_v2_as_v1|done].
Qed.

(** The outcome of a write of the inode row as [next]. *)
Definition row_put (e : x_env) (k : nat) (id : Z) (next : InodeMetaV2) (s s' : NS DB) (r : mgo unit) : Prop :=
  (r = Ok tt /\ kv_get (ns_db s') (inodeKey id) = Some (@marshalValue _ C2 next) /\
   touch (inode_keys id) s s') \/
  (exists err, r = Err err /\ s' = s /\ (ns_readOnly s = true \/ is_Some (xe_inode e k))).

Lemma inode2_Put_run e k id inode next (s s' : NS DB) r :
  v2_row (ns_db s) id inode -> i2_ID next = id -> inode2_Put e k next s = (s', r) ->
  row_put e k id next s s' r.
Proof.
  intros R Hn E. unfold inode2_Put in E. rewrite Hn in E. apply batch_run in E; [|done|].
  2:{ cbn [prepare_ops]. by rewrite (prepare_inode _ ∅ id inode) by done. }
  destruct E as [[-> ->]|E]; [left|by right]. split; [done|]. cbn [fold_left set_db ns_db].
  split; [unfold apply_op, set_op; cbn; by rewrite kv_get_set, bool_decide_eq_true_2|].
  eapply touch_weaken; [apply touch_set|]. intros ? <-. by left.
Qed.

Lemma putWithBucketStats_run e k id inode next oldSize (s s' : NS DB) r :
  v2_row (ns_db s) id inode -> i2_ID next = id ->
  putWithBucketStats useBucketStats e k next oldSize s = (s', r) -> row_put e k id next s s' r.
Proof.
  intros R Hn. unfold putWithBucketStats. destruct useBucketStats eqn:Eb; cbn [negb].
  2:{ by apply inode2_Put_run with inode. }
  unfold nbind, nget, addBucketStatsOp. cbn [negb orb].
  destruct (i2_BucketRoot next =? 0); [by apply inode2_Put_run with inode|].
  set (stats := set_op (bucketStatsKey _) _). rewrite Hn. intros E. apply batch_run in E; [|done|].
  2:{ cbn [app prepare_ops]. rewrite prepare_plain, bind_Ok by apply stats_plain.
      rewrite (prepare_inode _ _ id inode); [done..|].
      rewrite lookup_insert_ne by apply bucketStatsKey_inodeKey. apply lookup_empty. }
  destruct E as [[-> ->]|E]; [left|by right]. split; [done|]. cbn [app fold_left set_db ns_db].
  split; [unfold apply_op, set_op; cbn; by rewrite kv_get_set, bool_decide_eq_true_2|].
  split; [done|]. intros key Hk. cbn [set_db ns_db]. rewrite !kv_get_apply_op.
  rewrite !bool_decide_eq_false_2; [done|..]; intros <-; apply Hk; [right; eexists; reflexivity|by left].
Qed.

(** ** Reading pages *)

(** The page row at this key holds these references. *)
Definition page_row (db : DB) (id root p : Z) (refs : list ExtentRef) : Prop :=
  GetPage db id root p = Ok (Some (mkExtentPage id p refs)).

Lemma GetPage_ext (db db' : DB) id root p :
  kv_get db' (extentPageKey id root p) = kv_get db (extentPageKey id root p) ->
  GetPage db' id root p = GetPage db id root p.
Proof. intros E. unfold GetPage, getValue. by rewrite E. Qed.

Lemma page_row_set (db : DB) id root p page :
  page_row (kv_set db (extentPageKey id root p) (marshalValue page)) id root p (xp_Extents page).
Proof.
  unfold page_row, GetPage, getValue. rewrite kv_get_set, bool_decide_eq_true_2 by done.
  by rewrite unmarshalValue_marshalValue.
Qed.

Lemma resolve_top (db : DB) id root p refs :
  0 < root -> page_row db id root p refs -> ResolvePage db id root p = Ok (Some (mkExtentPage id p refs)).
Proof.
  intros Hr Hp. unfold ResolvePage. destruct (Z.to_nat root) as [|n] eqn:E; [lia|]. cbn [resolve_from].
  rewrite <- E, Z2Nat.id by lia. unfold page_row in Hp. by rewrite Hp.
Qed.

(** A root without the page defers to the one below. *)
Lemma resolve_skip (db : DB) id root p :
  0 <= root -> kv_get db (extentPageKey id (root + 1) p) = None ->
  ResolvePage db id (root + 1) p = ResolvePage db id root p.
Proof.
  intros Hr Hn. unfold ResolvePage. replace (Z.to_nat (root + 1)) with (S (Z.to_nat root)) by lia.
  cbn [resolve_from]. unfold GetPage at 1, getValue.
  replace (Z.of_nat (S (Z.to_nat root))) with (root + 1) by lia. by rewrite Hn.
Qed.

Lemma ResolvePage_ext (db db' : DB) id root p :
  (forall r, 1 <= r <= root -> kv_get db' (extentPageKey id r p) = kv_get db (extentPageKey id r p)) ->
  ResolvePage db' id root p = ResolvePage db id root p.
Proof.
  intros Hs. unfold ResolvePage. assert (Z.of_nat (Z.to_nat root) <= Z.max root 0) as Hn by lia.
  revert Hn. generalize (Z.to_nat root) as n. induction n as [|n IH]; intros Hn; [done|].
  cbn [resolve_from]. rewrite (GetPage_ext db db') by (apply Hs; lia). rewrite IH by lia. done.
Qed.

Lemma resolve_pages_ext (db db' : DB) id root n p :
  (forall q, p <= q < p + Z.of_nat n -> ResolvePage db' id root q = ResolvePage db id root q) ->
  resolve_pages db' id root p n = resolve_pages db id root p n.
Proof.
  revert p. induction n as [|n IH]; intros p Hs; [done|]. cbn [resolve_pages].
  rewrite (Hs p) by lia. rewrite IH by (intros q Hq; apply Hs; lia). done.
Qed.

(** A file reads the same when its row and the pages of its roots do. *)
Lemma resolve_frame (db db' : DB) id inode :
  v2_row db id inode -> kv_get db' (inodeKey id) = kv_get db (inodeKey id) ->
  (forall r p, 1 <= r <= i2_ExtentRoot inode -> 0 <= p < i2_ExtentPageCount inode ->
     kv_get db' (extentPageKey id r p) = kv_get db (extentPageKey id r p)) ->
  inode2_ResolveExtents db' id = inode2_ResolveExtents db id.
Proof.
  intros R E Hs. unfold inode2_ResolveExtents.
  rewrite (v2_row_get _ _ _ R), (v2_row_get _ _ _ (v2_row_frame _ _ _ _ R E)), !bind_Ok.
  unfold page_ResolveExtents. rewrite (vr_same _ _ _ R).
  rewrite (resolve_pages_ext db db' id (i2_ExtentRoot inode)); [done|].
  intros q Hq. apply ResolvePage_ext. intros r Hr. apply Hs; lia.
Qed.

(** ** Writing pages *)

Lemma writePage_run e k id p refs root (s s' : NS DB) r :
  writePage e k (mkExtentPage id p refs) root s = (s', r) ->
  (r = Ok tt /\ page_row (ns_db s') id root p refs /\ touch (eq (extentPageKey id root p)) s s') \/
  (exists err, r = Err err /\ s' = s /\ (ns_readOnly s = true \/ is_Some (xe_page e k))).
Proof.
  intros E. apply write_run in E; [|apply page_plain]. cbn [xp_InodeID xp_PageNo] in E.
  destruct E as [[-> ->]|E]; [left|by right]. split; [done|]. split; [|apply touch_set].
  apply (page_row_set _ id root p (mkExtentPage id p refs)).
Qed.

(** The pages from [p] on hold these references, 256 a page. *)
Fixpoint pages_hold (db : DB) (id root p : Z) (n : nat) (refs : list ExtentRef) : Prop :=
  match n with
  | O => refs = []
  | S n => page_row db id root p (take (Z.to_nat MaxExtentsPerPage) refs) /\
           pages_hold db id root (p + 1) n (drop (Z.to_nat MaxExtentsPerPage) refs)
  end.

Lemma pages_hold_resolve (db : DB) id root n : forall p refs,
  0 < root -> pages_hold db id root p n refs -> resolve_pages db id root p n = Ok refs.
Proof.
  induction n as [|n IH]; intros p refs Hr; cbn [pages_hold resolve_pages]; [by intros ->|].
  intros [Hp Hn]. rewrite (resolve_top _ _ _ _ _ Hr Hp), bind_Ok, (IH _ _ Hr Hn), bind_Ok.
  cbn [xp_Extents]. by rewrite take_drop.
Qed.

Lemma pages_hold_ext (db db' : DB) id root n : forall p refs,
  (forall q, p <= q < p + Z.of_nat n ->
     kv_get db' (extentPageKey id root q) = kv_get db (extentPageKey id root q)) ->
  pages_hold db id root p n refs -> pages_hold db' id root p n refs.
Proof.
  induction n as [|n IH]; intros p refs Hs; cbn [pages_hold]; [done|]. intros [Hp Hn]. split.
  - unfold page_row in *. rewrite (GetPage_ext db db'); [done|]. apply Hs. lia.
  - apply IH; [|done]. intros q Hq. apply Hs. lia.
Qed.

Lemma page_refs_split n : forall writes,
  match page_refs (take n writes), page_refs (drop n writes) with
  | Ok a, Ok b => page_refs writes = Ok (a ++ b) /\ (drop n writes = [] \/ length a = n)
  | _, _ => exists err, page_refs writes = Err err
  end.
Proof.
  induction n as [|n IH]; intros writes.
  { rewrite drop_0, take_0. cbn [page_refs]. destruct (page_refs writes); [by auto|eauto]. }
  destruct writes as [|w writes]; [cbn; auto|]. cbn [take drop page_refs].
  destruct (xw_Extent w) as [x|]; [|eauto]. specialize (IH writes).
  destruct (page_refs (take n writes)) as [a|]; cbn [mbind result_bind].
  - destruct (page_refs (drop n writes)) as [b|]; [destruct IH as [-> IH]; cbn; split; [done|]|].
    + destruct IH; [by left|right; lia].
    + destruct IH as [err ->]. cbn. eauto.
  - destruct IH as [err ->]. cbn. eauto.
Qed.

Lemma page_refs_nil_err writes err :
  page_refs writes = Err err -> Exists (fun w => xw_Extent w = None) writes.
Proof.
  induction writes as [|w writes IH]; cbn [page_refs]; [done|]. destruct (xw_Extent w) eqn:Ew; [|by left].
  destruct (page_refs writes); [done|]. cbn. intros [= ->]. right. by apply IH.
Qed.

Definition any_fault (e : x_env) (s : NS DB) : Prop :=
  ns_readOnly s = true \/ (exists k, is_Some (xe_meta e k)) \/ (exists k, is_Some (xe_page e k)) \/
  (exists k, is_Some (xe_inode e k)).

Lemma touch_flags K s s' : touch K s s' -> ns_readOnly s' = ns_readOnly s /\ ns_closed s' = ns_closed s.
Proof. by intros [-> _]. Qed.

Lemma any_fault_touch K e s s' : touch K s s' -> any_fault e s' -> any_fault e s.
Proof. intros T. unfold any_fault. by rewrite (proj1 (touch_flags _ _ _ T)). Qed.

Lemma write_pages_run e id root n : forall p writes (s s' : NS DB) r,
  is_u64 id -> is_u64 root -> 0 <= p -> p + Z.of_nat n < 2 ^ 64 ->
  (length writes <= n * Z.to_nat MaxExtentsPerPage)%nat ->
  write_pages e id root p n writes s = (s', r) ->
  touch (pages_from id root p) s s' /\
  match r with
  | Ok _ => exists refs, page_refs writes = Ok refs /\ pages_hold (ns_db s') id root p n refs
  | Err _ => any_fault e s \/ Exists (fun w => xw_Extent w = None) writes
  end.
Proof.
  induction n as [|n IH]; intros p writes s s' r Hid Hr Hp Hb Hl; cbn [write_pages].
  { intros [= <- <-]. split; [apply touch_refl|]. destruct writes; [|cbn in Hl; lia]. by exists []. }
  intros E. pose proof (page_refs_split (Z.to_nat MaxExtentsPerPage) writes) as Sp.
  nstep E s1 a E1; unfold nlift in E1; injection E1 as <- E1.
  2:{ split; [apply touch_refl|]. right. apply page_refs_nil_err in E1.
      rewrite <- (take_drop (Z.to_nat MaxExtentsPerPage) writes). apply Exists_app. by left. }
  rewrite E1 in Sp. nstep E s2 u E2.
  - apply writePage_run in E2 as [(_ & Hrow & T)|(? & [=] & _)].
    apply IH in E; [|done..|lia|lia|rewrite length_drop; lia]. destruct E as [T' E].
    split.
    { eapply touch_trans; [exact T|exact T'|..].
      - intros ? <-. exists p. split; [lia|done].
      - intros ? (q & Hq & ->). exists q. split; [lia|done]. }
    destruct r as [[]|err].
    + destruct E as (b & Eb & Hh). rewrite Eb in Sp. destruct Sp as [Es Hfull]. exists (a ++ b).
      split; [done|]. cbn [pages_hold].
      assert (take (Z.to_nat MaxExtentsPerPage) (a ++ b) = a /\ drop (Z.to_nat MaxExtentsPerPage) (a ++ b) = b)
        as [-> ->].
      { destruct Hfull as [Hd|Hfull]; [|by rewrite <- Hfull, take_app_length, drop_app_length].
        rewrite Hd in Eb. cbn in Eb. injection Eb as <-. rewrite app_nil_r.
        assert (length a <= Z.to_nat MaxExtentsPerPage)%nat.
        { enough (forall l x, page_refs l = Ok x -> length x = length l) as Len.
          { rewrite (Len _ _ E1), length_take. lia. }
          clear. induction l as [|w l IHl]; intros x; cbn; [by intros [= <-]|].
          destruct (xw_Extent w); [|done]. destruct (page_refs l); [|done].
          intros [= <-]. cbn. by rewrite (IHl _ eq_refl). }
        by rewrite take_ge, drop_ge. }
      split; [|done]. unfold page_row in *. rewrite (GetPage_ext (ns_db s2)); [done|].
      apply T'. intros (q & Hq & Eq).
      apply extentPageKey_inj in Eq as (_ & _ & ->); [lia|unfold uintw in *; lia..].
    + destruct E as [E|E]; [left|right].
      * by apply (any_fault_touch _ _ _ _ T).
      * rewrite <- (take_drop (Z.to_nat MaxExtentsPerPage) writes). apply Exists_app. by right.
  - apply writePage_run in E2 as [([=] & _)|(? & _ & -> & F)]. split; [apply touch_refl|]. left.
    unfold any_fault. destruct F; [by left|right; right; left; eauto].
Qed.

(** ** Deleting a root *)

Lemma delete_pages_run e id root n : forall p (s s' : NS DB) r,
  0 <= p -> p + Z.of_nat n < 2 ^ 64 -> delete_pages e id root p n s = (s', r) ->
  touch (pages_from id root p) s s'.
Proof.
  induction n as [|n IH]; intros p s s' r Hp Hb; cbn [delete_pages].
  { intros [= <- <-]. apply touch_refl. }
  destruct (xe_delete e (Z.to_nat p)); [intros [= <- <-]; apply touch_refl|].
  intros E. apply IH in E; [|lia..]. eapply touch_trans; [|exact E| |].
  - instantiate (1 := eq (extentPageKey id root p)). split; [done|]. intros k Hk. cbn [set_db ns_db].
    by rewrite kv_get_delete, bool_decide_eq_false_2.
  - intros ? <-. exists p. split; [lia|done].
  - intros ? (q & Hq & ->). exists q. split; [lia|done].
Qed.

Lemma drop_root_run e id root count (s s' : NS DB) r :
  is_u32 count -> drop_root e id root count s = (s', r) ->
  r = Ok tt /\ touch (pages_from id root 0) s s'.
Proof.
  intros Hc. unfold drop_root. destruct (root =? 0); [intros [= <- <-]; split; [done|apply touch_refl]|].
  unfold ignoring, DeleteRoot. intros [= <- <-]. split; [done|].
  destruct (delete_pages _ _ _ _ _ s) as [s1 r1] eqn:E. unfold uintw in Hc.
  apply delete_pages_run in E; [done|lia..].
Qed.
End Proofs.

(** * Runs of the extent operations

    One lemma per operation of [Extents.v]: which rows it may touch, what the
    file holds after success, and that a failure at any write leaves the
    file's extents as they were. *)

Section Ops.
Context {DB : Type} `{KL : PebbleLaws DB}.
Context `{CI : Codec InodeMeta} `{C2 : Codec InodeMetaV2} `{CU : Codec BucketUsage}.
Context `{CP : Codec ExtentPage} `{CX : Codec ExtentMetaV2} `{CK : Codec ChunkMeta}.
Context {LI : CodecLaws InodeMeta} {L2 : CodecLaws InodeMetaV2} {LP : CodecLaws ExtentPage}.
Context {LX : CodecLaws ExtentMetaV2} {AL : InodeAlias}.
Context (useBucketStats : bool).

(** ** Key sets *)

(** The rows an operation of the inode store on [id] may touch, and those a
    call of the serving surface may. *)
Definition own_keys (id : Z) (k : list Z) : Prop :=
  inode_keys id k \/ exists root, is_u64 root /\ pages_from id root 0 k.
Definition serve_keys (id : Z) (k : list Z) : Prop := own_keys id k \/ meta_keys k.

Lemma page_not_inode id i r p : ~ inode_keys id (extentPageKey i r p).
Proof. intros [E|[root E]]; [by apply extentPageKey_inodeKey in E|by apply extentPageKey_stats in E]. Qed.

Lemma inode_not_page id i r p : ~ pages_from i r p (inodeKey id).
Proof. intros (q & _ & E). symmetry in E. by apply extentPageKey_inodeKey in E. Qed.

Lemma page_other_root id r r' p q :
  is_u64 id -> is_u64 r -> is_u64 r' -> is_u64 p -> 0 <= q -> r <> r' ->
  ~ pages_from id r' q (extentPageKey id r p).
Proof.
  intros Hid Hr Hr' Hp Hq Hne (z & Hz & E).
  apply extentPageKey_inj in E as (_ & E & _); [done..|unfold uintw; lia].
Qed.

Lemma meta_not_inode id x : ~ inode_keys id (extentMetaKey x).
Proof. intros [E|[root E]]; [by apply extentMetaKey_inodeKey in E|by apply extentMetaKey_stats in E]. Qed.

Lemma meta_not_page i r p x : ~ pages_from i r p (extentMetaKey x).
Proof. intros (q & _ & E). symmetry in E. by apply extentPageKey_meta in E. Qed.

Lemma not_meta_page i r p : ~ meta_keys (extentPageKey i r p).
Proof. intros [x E]. by apply extentPageKey_meta in E. Qed.

Lemma not_meta_inode i : ~ meta_keys (inodeKey i).
Proof. intros [x E]. symmetry in E. by apply extentMetaKey_inodeKey in E. Qed.

Lemma own_pages id root : is_u64 root -> forall k, pages_from id root 0 k -> own_keys id k.
Proof. intros Hr k Hk. right. by exists root. Qed.

Lemma own_touch id root (s s' : NS DB) :
  is_u64 root -> touch (pages_from id root 0) s s' -> touch (own_keys id) s s'.
Proof. intros Hr T. exact (touch_weaken _ _ _ _ T (own_pages id root Hr)). Qed.

(** ** Layouts *)

Lemma resolve_paged (db : DB) id inode :
  v2_row db id inode -> i2_Layout inode = LayoutExtentPages ->
  inode2_ResolveExtents db id =
  resolve_pages db id (i2_ExtentRoot inode) 0 (Z.to_nat (i2_ExtentPageCount inode)).
Proof.
  intros R Hl. unfold inode2_ResolveExtents. rewrite (v2_row_get _ _ _ R), bind_Ok, Hl. cbn.
  unfold page_ResolveExtents. by rewrite (vr_same _ _ _ R).
Qed.

Lemma resolve_inline (db : DB) id inode x :
  v2_row db id inode -> i2_Layout inode = LayoutInlineExtent -> i2_InlineExtent inode = Some x ->
  inode2_ResolveExtents db id = Ok [mkExtentRef (ex_ID x) 0].
Proof.
  intros R Hl Hx. unfold inode2_ResolveExtents. rewrite (v2_row_get _ _ _ R), bind_Ok, Hl. cbn. by rewrite Hx.
Qed.

(** Touching pages above the root, or extent metadata, changes no extents. *)
Lemma resolve_touch_new (s s' : NS DB) id inode root :
  v2_row (ns_db s) id inode -> is_u64 root -> i2_ExtentRoot inode < root ->
  touch (pages_from id root 0) s s' ->
  v2_row (ns_db s') id inode /\ inode2_ResolveExtents (ns_db s') id = inode2_ResolveExtents (ns_db s) id.
Proof.
  intros R Hr Hlt [_ T]. pose proof (vr_root _ _ _ R). pose proof (vr_id _ _ _ R). pose proof (vr_count _ _ _ R).
  split; [apply (v2_row_frame _ _ _ _ R), T, inode_not_page|].
  apply (resolve_frame _ _ _ _ R); [apply T, inode_not_page|]. intros r p Hp1 Hp2.
  apply T, page_other_root; unfold uintw in *; try done; lia.
Qed.

Lemma resolve_touch_meta (s s' : NS DB) id inode :
  v2_row (ns_db s) id inode -> touch meta_keys s s' ->
  v2_row (ns_db s') id inode /\ inode2_ResolveExtents (ns_db s') id = inode2_ResolveExtents (ns_db s) id.
Proof.
  intros R [_ T]. split; [apply (v2_row_frame _ _ _ _ R), T, not_meta_inode|].
  apply (resolve_frame _ _ _ _ R); [apply T, not_meta_inode|]. intros r p _ _. apply T, not_meta_page.
Qed.

(** Operations on one file leave the others. *)
Lemma resolve_other (s s' : NS DB) id id' inode' :
  is_u64 id -> id <> id' -> v2_row (ns_db s) id' inode' -> touch (serve_keys id) s s' ->
  v2_row (ns_db s') id' inode' /\
  inode2_ResolveExtents (ns_db s') id' = inode2_ResolveExtents (ns_db s) id'.
Proof.
  intros Hid Hne R [_ T]. pose proof (vr_id _ _ _ R) as Hid'. pose proof (vr_root _ _ _ R).
  pose proof (vr_count _ _ _ R).
  assert (~ serve_keys id (inodeKey id')) as Hi.
  { intros [[[E|[root E]]|(root & _ & E)]|E].
    - by apply inodeKey_inj in E.
    - symmetry in E. by apply bucketStatsKey_inodeKey in E.
    - by apply inode_not_page in E.
    - by apply not_meta_inode in E. }
  split; [by apply (v2_row_frame _ _ _ _ R), T|].
  apply (resolve_frame _ _ _ _ R); [by apply T|]. intros r p Hr Hp. apply T.
  intros [[E|(root & Hroot & q & Hq & E)]|E].
  - by apply page_not_inode in E.
  - apply extentPageKey_inj in E as (E & _); unfold uintw in *; try done; lia.
  - by apply not_meta_page in E.
Qed.

(** ** Replacing the extents *)

Definition room (inode : InodeMetaV2) : Prop := i2_ExtentRoot inode < 2 ^ 64 - 3.

Lemma new_root inode :
  0 <= i2_ExtentRoot inode < 2 ^ 64 - 1 -> u64 (i2_ExtentRoot inode + 1) = i2_ExtentRoot inode + 1.
Proof. intros Hr. apply wrap_small. unfold uintw. lia. Qed.

Definition page_count (n : Z) : Z := (n + MaxExtentsPerPage - 1) / MaxExtentsPerPage.

Lemma page_count_bound n : 0 <= n <= 2 ^ 39 -> is_u32 (page_count n) /\ n <= page_count n * MaxExtentsPerPage.
Proof.
  intros Hn. unfold page_count, MaxExtentsPerPage, uintw.
  pose proof (Z.div_mod (n + 256 - 1) 256 ltac:(lia)). pose proof (Z.mod_pos_bound (n + 256 - 1) 256 ltac:(lia)).
  split; [|lia]. split; [apply Z.div_pos; lia|]. apply Z.div_lt_upper_bound; lia.
Qed.

Lemma inode2_ReplaceExtents_run e id writes size inode (s s' : NS DB) r :
  v2_row (ns_db s) id inode -> room inode -> len writes <= 2 ^ 39 ->
  inode2_ReplaceExtents useBucketStats e id writes size s = (s', r) ->
  touch (own_keys id) s s' /\
  match r with
  | Ok _ => exists refs inode', page_refs writes = Ok refs /\
      inode2_ResolveExtents (ns_db s') id = Ok refs /\ v2_row (ns_db s') id inode' /\
      i2_Layout inode' = LayoutExtentPages /\ i2_ExtentRoot inode' = i2_ExtentRoot inode + 1 /\
      i2_ExtentPageCount inode' = page_count (len writes) /\
      kv_get (ns_db s') (inodeKey id) = Some (@marshalValue _ C2 inode')
  | Err _ => v2_row (ns_db s') id inode /\
      inode2_ResolveExtents (ns_db s') id = inode2_ResolveExtents (ns_db s) id /\
      (any_fault e s \/ Exists (fun w => xw_Extent w = None) writes)
  end.
Proof.
  intros R Hroom Hlen E. pose proof (vr_root _ _ _ R) as Hr. pose proof (vr_id _ _ _ R) as Hid. unfold room in Hroom.
  destruct (page_count_bound (len writes) ltac:(split; [apply Nat2Z.is_nonneg|done])) as [Hpc Hfit].
  unfold inode2_ReplaceExtents in E. unfold nbind at 1 in E. rewrite (get_inode2_run _ _ _ R) in E.
  rewrite new_root in E by lia. fold (page_count (len writes)) in E. rewrite (wrap_small 32) in E by done.
  set (root := i2_ExtentRoot inode + 1) in *. set (n := page_count (len writes)) in *.
  assert (is_u64 root) as Hroot by (unfold uintw, root; lia).
  assert (length writes <= Z.to_nat n * Z.to_nat MaxExtentsPerPage)%nat as Hl.
  { unfold MaxExtentsPerPage in *. unfold uintw in Hpc. lia. }
  assert (0 + Z.of_nat (Z.to_nat n) < 2 ^ 64) as Hn by (unfold uintw in Hpc; lia).
  nstep E s1 u E1; destruct (write_pages_run _ _ _ _ _ _ _ _ _ Hid Hroot (Z.le_refl 0) Hn Hl E1) as [T1 W1].
  2:{ destruct (resolve_touch_new s s' id inode root R Hroot ltac:(lia) T1) as [R1 V1].
      split; [by apply (own_touch id root)|done]. }
  destruct W1 as (refs & Hrefs & Hh).
  destruct (resolve_touch_new s s1 id inode root R Hroot ltac:(lia) T1) as [R1 V1].
  nstep E s2 v E2; (eapply putWithBucketStats_run in E2; [|exact R1|apply R]);
    destruct E2 as [(Er & Hrow & T2)|(err & Er & -> & F)]; try discriminate Er.
  2:{ injection Er as <-. split; [by apply (own_touch id root)|].
      split; [done|]. split; [done|]. left. apply (any_fault_touch _ _ _ _ T1). unfold any_fault.
      destruct F as [F|F]; [by left|by eauto 8]. }
  apply drop_root_run in E as [-> T3]; [|apply R].
  assert (kv_get (ns_db s') (inodeKey id) = kv_get (ns_db s2) (inodeKey id)) as Hsame
    by apply T3, inode_not_page.
  rewrite Hrow in Hsame. split.
  { apply (touch_trans (pages_from id root 0) (own_keys id) _ s s1); [done| |by apply own_pages|done].
    eapply touch_trans; [exact T2|exact T3|by left|]. apply own_pages. unfold uintw. lia. }
  eexists refs, _. split; [done|].
  assert (v2_row (ns_db s') id (with_layout LayoutExtentPages None root n
    (u64 (i2_ExtentRootVersion inode + 1)) size (xe_clock e 0) (xe_clock e 0) inode)) as R3.
  { apply (row_written (ns_db s1) _ _ inode); [done..|apply R| |].
    - cbn [with_layout i2_ExtentRoot]. unfold root. lia.
    - done. }
  split; [|split; [exact R3|done]].
  rewrite (resolve_paged _ _ _ R3) by done. cbn [with_layout i2_ExtentRoot i2_ExtentPageCount].
  apply pages_hold_resolve; [lia|]. apply (pages_hold_ext (ns_db s1)); [|done].
  intros q Hq. destruct T2 as [_ T2], T3 as [_ T3].
  rewrite T3 by (apply page_other_root; unfold uintw; try done; lia). apply T2, page_not_inode.
Qed.

(** ** One inline extent *)

Lemma inode2_SetInlineExtent_run e id x size inode (s s' : NS DB) r :
  v2_row (ns_db s) id inode ->
  inode2_SetInlineExtent useBucketStats e id x size s = (s', r) ->
  touch (own_keys id) s s' /\
  match r with
  | Ok _ => exists inode', inode2_ResolveExtents (ns_db s') id = Ok [mkExtentRef (ex_ID x) 0] /\
      v2_row (ns_db s') id inode' /\ i2_ExtentRoot inode' = i2_ExtentRoot inode /\
      kv_get (ns_db s') (inodeKey id) = Some (@marshalValue _ C2 inode')
  | Err _ => s' = s /\ any_fault e s
  end.
Proof.
  intros R E. pose proof (vr_root _ _ _ R) as Hr. unfold inode2_SetInlineExtent in E.
  unfold nbind at 1 in E. rewrite (get_inode2_run _ _ _ R) in E.
  nstep E s1 u E1; (eapply putWithBucketStats_run in E1; [|exact R|apply R]);
    destruct E1 as [(Er & Hrow & T1)|(err & Er & -> & F)]; try discriminate Er.
  2:{ split; [apply touch_refl|]. split; [done|]. unfold any_fault. destruct F; [by left|eauto 8]. }
  apply drop_root_run in E as [-> T2]; [|apply R].
  assert (kv_get (ns_db s') (inodeKey id) = kv_get (ns_db s1) (inodeKey id)) as Hsame
    by apply T2, inode_not_page.
  rewrite Hrow in Hsame. split.
  { eapply touch_trans; [exact T1|exact T2|by left|]. apply own_pages. unfold uintw. lia. }
  eexists. assert (v2_row (ns_db s') id _) as R2 by (apply (row_written (ns_db s) _ _ inode); [done|exact Hsame|apply R..]).
  split; [|by split; [exact R2|]]. by apply (resolve_inline _ _ _ _ R2).
Qed.

(** ** Promotion *)

(** What [PromoteToPages] puts into page 0. *)
Definition inline_refs (inode : InodeMetaV2) : list ExtentRef :=
  match i2_InlineExtent inode with Some x => [mkExtentRef (ex_ID x) 0] | None => [] end.

Lemma inode2_PromoteToPages_run e id inode (s s' : NS DB) r :
  v2_row (ns_db s) id inode -> room inode -> inode2_PromoteToPages e id s = (s', r) ->
  touch (fun k => inode_keys id k \/ k = extentPageKey id (i2_ExtentRoot inode + 1) 0 \/
                  pages_from id (i2_ExtentRoot inode) 0 k) s s' /\
  match r with
  | Ok _ => exists inode', v2_row (ns_db s') id inode' /\ i2_Layout inode' = LayoutExtentPages /\
      i2_ExtentRoot inode' = i2_ExtentRoot inode + 1 /\ i2_ExtentPageCount inode' = 1 /\
      page_row (ns_db s') id (i2_ExtentRoot inode + 1) 0 (inline_refs inode)
  | Err _ => v2_row (ns_db s') id inode /\
      inode2_ResolveExtents (ns_db s') id = inode2_ResolveExtents (ns_db s) id /\ any_fault e s
  end.
Proof.
  intros R Hroom E. pose proof (vr_root _ _ _ R) as Hr. pose proof (vr_id _ _ _ R) as Hid. unfold room in Hroom.
  unfold inode2_PromoteToPages in E. unfold nbind at 1 in E. rewrite (get_inode2_run _ _ _ R) in E.
  rewrite new_root in E by lia. set (root := i2_ExtentRoot inode + 1) in *. fold (inline_refs inode) in E.
  assert (is_u64 root) as Hroot by (unfold uintw, root; lia).
  nstep E s1 u E1; apply writePage_run in E1 as [(Er & Hp & T1)|(err & Er & -> & F)]; try discriminate Er.
  2:{ split; [apply touch_refl|]. split; [done|]. split; [done|]. unfold any_fault. destruct F; [by left|eauto 8]. }
  assert (touch (pages_from id root 0) s s1) as T1'.
  { apply (touch_weaken _ _ _ _ T1). intros ? <-. exists 0. split; [lia|done]. }
  destruct (resolve_touch_new s s1 id inode root R Hroot ltac:(lia) T1') as [R1 V1].
  nstep E s2 v E2; (eapply inode2_Put_run in E2; [|exact R1|apply R]);
    destruct E2 as [(Er' & Hrow & T2)|(err & Er' & -> & F)]; try discriminate Er'.
  2:{ split; [apply (touch_weaken _ _ _ _ T1); intros ? <-; by right; left|].
      split; [done|]. split; [done|]. apply (any_fault_touch _ _ _ _ T1). unfold any_fault.
      destruct F; [by left|eauto 8]. }
  apply drop_root_run in E as [-> T3]; [|apply R].
  assert (kv_get (ns_db s') (inodeKey id) = kv_get (ns_db s2) (inodeKey id)) as Hsame
    by apply T3, inode_not_page.
  rewrite Hrow in Hsame. split.
  { eapply (touch_trans _ (fun k => inode_keys id k \/ pages_from id (i2_ExtentRoot inode) 0 k));
      [exact T1| |intros ? <-; by right; left|naive_solver].
    eapply touch_trans; [exact T2|exact T3|by left|by right]. }
  eexists. split; [apply (row_written (ns_db s1) _ _ inode); [done|exact Hsame|apply R| |]|].
  - cbn [with_layout i2_ExtentRoot]. unfold root. lia.
  - done.
  - split; [done|]. split; [done|]. split; [done|]. unfold page_row in *.
    rewrite (GetPage_ext (ns_db s1)); [done|]. destruct T2 as [_ T2], T3 as [_ T3].
    rewrite T3 by (apply page_other_root; unfold uintw in *; try done; lia). apply T2, page_not_inode.
Qed.

(** ** Appending *)

(** A paged file whose last page is under the current root, with no page left
    above it by an abandoned attempt. *)
Record appendable (db : DB) (id : Z) (inode : InodeMetaV2) (refs : list ExtentRef) : Prop := mkAppendable {
  ap_row : v2_row db id inode;
  ap_layout : i2_Layout inode = LayoutExtentPages;
  ap_count : 0 < i2_ExtentPageCount inode;
  ap_root : 0 < i2_ExtentRoot inode;
  ap_refs : inode2_ResolveExtents db id = Ok refs;
  ap_last : exists last, page_row db id (i2_ExtentRoot inode) (i2_ExtentPageCount inode - 1) last;
  ap_clean : forall r p, i2_ExtentRoot inode < r < 2 ^ 64 -> is_u64 p -> kv_get db (extentPageKey id r p) = None
}.

Lemma resolve_pages_snoc (db : DB) id root n : forall p,
  resolve_pages db id root p (S n) =
  (let! a := resolve_pages db id root p n in
   let! page := ResolvePage db id root (p + Z.of_nat n) in
   Ok (a ++ match page with Some page => xp_Extents page | None => [] end)).
Proof.
  induction n as [|n IH]; intros p.
  { cbn [resolve_pages]. rewrite Z.add_0_r, bind_Ok. destruct (ResolvePage db id root p); [|done].
    cbn. by rewrite app_nil_r. }
  change (resolve_pages db id root p (S (S n))) with
    (let! page := ResolvePage db id root p in
     let! rest := resolve_pages db id root (p + 1) (S n) in
     Ok (match page with Some page => xp_Extents page | None => [] end ++ rest)).
  rewrite IH. cbn [resolve_pages]. destruct (ResolvePage db id root p) as [page|]; [|done]. cbn.
  destruct (resolve_pages db id root (p + 1) n) as [a|]; [|done]. cbn.
  replace (p + Z.of_nat (S n)) with (p + 1 + Z.of_nat n) by lia.
  destruct (ResolvePage db id root (p + 1 + Z.of_nat n)); [|done]. cbn. by rewrite app_assoc.
Qed.

(** The next root, with one page written under it: the pages before are found
    under the old root. *)
Lemma resolve_next_root (db db' : DB) id inode refs (n : nat) :
  appendable db id inode refs -> room inode -> (Z.of_nat n <= i2_ExtentPageCount inode) ->
  (forall r p, 1 <= r <= i2_ExtentRoot inode + 1 -> 0 <= p < Z.of_nat n ->
     kv_get db' (extentPageKey id r p) = kv_get db (extentPageKey id r p)) ->
  resolve_pages db' id (i2_ExtentRoot inode + 1) 0 n = resolve_pages db id (i2_ExtentRoot inode) 0 n.
Proof.
  intros A Hroom Hn Hs. unfold room in Hroom. pose proof (vr_root _ _ _ (ap_row _ _ _ _ A)) as Hr.
  pose proof (vr_count _ _ _ (ap_row _ _ _ _ A)) as Hc. unfold uintw in Hc.
  assert (forall q, 0 <= q < 0 + Z.of_nat n ->
    ResolvePage db' id (i2_ExtentRoot inode + 1) q = ResolvePage db id (i2_ExtentRoot inode) q) as Hp.
  { intros q Hq. rewrite (ResolvePage_ext db db') by (intros r Hr1; apply Hs; lia).
    apply resolve_skip; [lia|]. apply (ap_clean _ _ _ _ A); [lia|unfold uintw; lia]. }
  revert Hp. generalize 0 as p. clear. induction n as [|n IH]; intros p Hp; [done|].
  cbn [resolve_pages]. rewrite (Hp p) by lia. rewrite IH by (intros q Hq; apply Hp; lia). done.
Qed.

(** The references of an appendable file, split at its last page. *)
Lemma appendable_split (db : DB) id inode refs last :
  appendable db id inode refs ->
  page_row db id (i2_ExtentRoot inode) (i2_ExtentPageCount inode - 1) last ->
  exists front, refs = front ++ last /\
    resolve_pages db id (i2_ExtentRoot inode) 0 (Z.to_nat (i2_ExtentPageCount inode - 1)) = Ok front.
Proof.
  intros A Hlast. pose proof (ap_refs _ _ _ _ A) as Hv. pose proof (ap_count _ _ _ _ A) as Hc.
  rewrite (resolve_paged _ _ _ (ap_row _ _ _ _ A) (ap_layout _ _ _ _ A)) in Hv.
  set (n := Z.to_nat (i2_ExtentPageCount inode - 1)) in *.
  replace (Z.to_nat (i2_ExtentPageCount inode)) with (S n) in Hv by lia.
  rewrite resolve_pages_snoc in Hv. replace (0 + Z.of_nat n) with (i2_ExtentPageCount inode - 1) in Hv by lia.
  rewrite (resolve_top _ _ _ _ _ (ap_root _ _ _ _ A) Hlast) in Hv.
  destruct (resolve_pages db id _ 0 n) as [front|]; [|done]. injection Hv as <-. eauto.
Qed.

(** A page [q] written under the next root follows the pages before it. *)
Lemma next_page id inode refs (s s' : NS DB) q new :
  appendable (ns_db s) id inode refs -> room inode -> 0 <= q <= i2_ExtentPageCount inode ->
  page_row (ns_db s') id (i2_ExtentRoot inode + 1) q new ->
  touch (eq (extentPageKey id (i2_ExtentRoot inode + 1) q)) s s' ->
  touch (pages_from id (i2_ExtentRoot inode + 1) 0) s s' /\
  resolve_pages (ns_db s') id (i2_ExtentRoot inode + 1) 0 (S (Z.to_nat q)) =
  (let! a := resolve_pages (ns_db s) id (i2_ExtentRoot inode) 0 (Z.to_nat q) in Ok (a ++ new)).
Proof.
  intros A Hroom Hq Hrow T. pose proof (ap_row _ _ _ _ A) as R. pose proof (vr_root _ _ _ R) as Hr.
  pose proof (vr_id _ _ _ R) as Hid. pose proof (vr_count _ _ _ R) as Hc. unfold room, uintw in *. split.
  { apply (touch_weaken _ _ _ _ T). intros ? <-. exists q. split; [lia|done]. }
  rewrite resolve_pages_snoc. replace (0 + Z.of_nat (Z.to_nat q)) with q by lia.
  assert (0 < i2_ExtentRoot inode + 1) as Hpos by lia. rewrite (resolve_top _ _ _ _ _ Hpos Hrow).
  rewrite (resolve_next_root (ns_db s) _ _ _ _ _ A Hroom); [by destruct (resolve_pages _ _ _ _ _)|lia|].
  intros r p Hr1 Hp. apply T. intros Ek.
  apply extentPageKey_inj in Ek as (_ & _ & ->); unfold uintw in *; lia.
Qed.

(** Adding to a page that is under the old root. *)
Lemma UpdatePage_run e k id root newRoot p refs ref (s s' : NS DB) r :
  page_row (ns_db s) id root p refs ->
  UpdatePage e k id root newRoot p (fun page => Ok (add_extent ref page)) s = (s', r) ->
  (r = Ok (mkExtentPage id p (refs ++ [ref])) /\ page_row (ns_db s') id newRoot p (refs ++ [ref]) /\
   touch (eq (extentPageKey id newRoot p)) s s') \/
  (exists err, r = Err err /\ s' = s /\ (ns_readOnly s = true \/ is_Some (xe_page e k))).
Proof.
  intros Hp E. unfold UpdatePage in E. unfold nbind at 1, nget in E. cbv beta iota in E.
  unfold nbind at 1, nlift at 1 in E. unfold page_row in Hp. rewrite Hp in E. cbn [default] in E.
  unfold nbind at 1, nlift at 1 in E. unfold add_extent in E. cbn [xp_InodeID xp_PageNo xp_Extents] in E.
  nstep E s1 u E1; apply writePage_run in E1 as [(Er & Hrow & T)|(err & Er & -> & F)]; try discriminate Er.
  - injection E as <- <-. by left.
  - right. eauto.
Qed.

Lemma page_AppendExtent_run e k id inode refs ref (s s' : NS DB) r :
  appendable (ns_db s) id inode refs -> room inode -> i2_ExtentPageCount inode < 2 ^ 32 - 1 ->
  page_AppendExtent e k id (i2_ExtentRoot inode) (i2_ExtentPageCount inode - 1) ref s = (s', r) ->
  touch (pages_from id (i2_ExtentRoot inode + 1) 0) s s' /\
  match r with
  | Ok (_, created) =>
      let count := if created : bool then i2_ExtentPageCount inode + 1 else i2_ExtentPageCount inode in
      (exists last, page_row (ns_db s') id (i2_ExtentRoot inode + 1) (count - 1) last) /\
      resolve_pages (ns_db s') id (i2_ExtentRoot inode + 1) 0 (Z.to_nat count) = Ok (refs ++ [ref])
  | Err _ => any_fault e s
  end.
Proof.
  intros A Hroom Hc E. pose proof (ap_row _ _ _ _ A) as R. pose proof (vr_root _ _ _ R) as Hr.
  pose proof (ap_count _ _ _ _ A) as Hc0. destruct (ap_last _ _ _ _ A) as [last Hlast].
  destruct (appendable_split _ _ _ _ _ A Hlast) as (front & Hrefs & Hfront).
  assert (forall err, r = Err err -> s' = s -> ns_readOnly s = true \/ is_Some (xe_page e k) ->
    touch (pages_from id (i2_ExtentRoot inode + 1) 0) s s' /\ any_fault e s) as Fail.
  { intros err _ -> F. split; [apply touch_refl|]. unfold any_fault. destruct F; [by left|eauto 8]. }
  assert (0 <= i2_ExtentPageCount inode <= i2_ExtentPageCount inode) as B1 by lia.
  assert (0 <= i2_ExtentPageCount inode - 1 <= i2_ExtentPageCount inode) as B2 by lia.
  unfold page_AppendExtent in E. rewrite new_root in E by lia.
  unfold nbind at 1 in E. unfold nget at 1 in E. unfold nbind at 1, nlift at 1 in E.
  rewrite (resolve_top _ _ _ _ _ (ap_root _ _ _ _ A) Hlast) in E. cbn [xp_Extents] in E.
  destruct (MaxExtentsPerPage <=? len last).
  - rewrite Z.sub_add in E. rewrite wrap_small in E by (unfold uintw; lia).
    nstep E s1 u E1; apply writePage_run in E1 as [(Er & Hp & T)|(err & Er & Es & F)]; try discriminate Er.
    2:{ by eapply Fail. }
    injection E as <- <-. destruct (next_page _ _ _ _ _ _ _ A Hroom B1 Hp T) as [T' V].
    split; [done|]. split; [exists [ref]; by rewrite Z.add_simpl_r|].
    replace (Z.to_nat (i2_ExtentPageCount inode + 1)) with (S (Z.to_nat (i2_ExtentPageCount inode))) by lia.
    rewrite V, <- (resolve_paged _ _ _ R (ap_layout _ _ _ _ A)), (ap_refs _ _ _ _ A). done.
  - nstep E s1 u E1; (apply (UpdatePage_run _ _ _ _ _ _ last) in E1; [|exact Hlast]);
      destruct E1 as [(Er & Hp & T)|(err & Er & Es & F)]; try discriminate Er.
    2:{ by eapply Fail. }
    injection E as <- <-. destruct (next_page _ _ _ _ _ _ _ A Hroom B2 Hp T) as [T' V].
    split; [done|]. split; [by eexists|].
    replace (Z.to_nat (i2_ExtentPageCount inode)) with (S (Z.to_nat (i2_ExtentPageCount inode - 1))) by lia.
    rewrite V, Hfront, Hrefs. cbn. by rewrite app_assoc.
Qed.

(** Appending to an appendable file. *)
Lemma inode2_AppendExtent_run e id inode refs ref size (s s' : NS DB) r :
  appendable (ns_db s) id inode refs -> room inode -> i2_ExtentPageCount inode < 2 ^ 32 - 1 ->
  inode2_AppendExtent useBucketStats e id ref size s = (s', r) ->
  touch (own_keys id) s s' /\
  match r with
  | Ok root => root = i2_ExtentRoot inode + 1 /\ exists inode', appendable (ns_db s') id inode' (refs ++ [ref]) /\
      i2_ExtentRoot inode' = i2_ExtentRoot inode + 1 /\
      i2_ExtentPageCount inode' <= i2_ExtentPageCount inode + 1
  | Err _ => inode2_ResolveExtents (ns_db s') id = inode2_ResolveExtents (ns_db s) id /\ any_fault e s
  end.
Proof.
  intros A Hroom Hc E. pose proof (ap_row _ _ _ _ A) as R. pose proof (vr_root _ _ _ R) as Hr.
  pose proof (ap_count _ _ _ _ A) as Hc0. pose proof (vr_id _ _ _ R) as Hid. unfold room in Hroom.
  set (root := i2_ExtentRoot inode + 1) in *. assert (is_u64 root) as Hroot by (unfold uintw, root; lia).
  unfold inode2_AppendExtent in E. unfold nbind at 1 in E. rewrite (get_inode2_run _ _ _ R) in E.
  change (negb (i2_Layout inode =? LayoutExtentPages)) with (negb (i2_Layout inode =? 2)) in E.
  rewrite (ap_layout _ _ _ _ A) in E. change (negb (LayoutExtentPages =? 2)) with false in E.
  unfold nbind at 1 in E. cbn beta iota delta [nret] in E. rewrite new_root in E by lia. fold root in E.
  rewrite (proj2 (Z.eqb_neq (i2_ExtentPageCount inode) 0)) in E by lia.
  nstep E s1 v E1; (eapply (page_AppendExtent_run _ _ _ _ _ _ _ _ _ A) in E1; [|unfold room; lia|done]);
    destruct E1 as [T1 E1]; fold root in T1;
    destruct (resolve_touch_new s _ id inode root R Hroot ltac:(lia) T1) as [R1 V1].
  2:{ split; [by apply (own_touch id root)|done]. }
  destruct v as [np created]. destruct E1 as [[last Hlast] V]. fold root in Hlast, V.
  set (count := if created then i2_ExtentPageCount inode + 1 else i2_ExtentPageCount inode) in *.
  assert ((if created then u32 (i2_ExtentPageCount inode + 1) else i2_ExtentPageCount inode) = count) as Ec.
  { unfold count. destruct created; [apply wrap_small; unfold uintw; lia|done]. }
  rewrite Ec in E.
  assert (i2_ExtentPageCount inode <= count <= i2_ExtentPageCount inode + 1) as Hcount
    by (unfold count; destruct created; lia).
  nstep E s2 w E2; (eapply putWithBucketStats_run in E2; [|exact R1|apply R]);
    destruct E2 as [(Er & Hrow & T2)|(err & Er & -> & F)]; try discriminate Er.
  2:{ split; [by apply (own_touch id root)|]. split; [done|]. apply (any_fault_touch _ _ _ _ T1).
      unfold any_fault. destruct F; [by left|eauto 8]. }
  injection E as <- <-. split.
  { eapply touch_trans; [exact T1|exact T2|by apply own_pages|by left]. }
  pose proof (fun B1 B2 => row_written (ns_db s1) _ _ inode _ R1 Hrow (vr_same _ _ _ R) B1 B2) as R2.
  specialize (R2 ltac:(cbn [with_layout i2_ExtentRoot]; lia)).
  specialize (R2 ltac:(cbn [with_layout i2_ExtentPageCount]; unfold uintw; lia)).
  split; [done|]. eexists. split; [|split]; [constructor; [exact R2|..]|..];
    cbn [with_layout i2_ExtentRoot i2_ExtentPageCount i2_Layout] in *; try done; try lia; destruct T2 as [_ T2].
  - apply A.
  - rewrite (resolve_paged _ _ _ R2) by apply A.
    cbn [with_layout i2_ExtentRoot i2_ExtentPageCount]. rewrite <- V.
    apply resolve_pages_ext. intros q _. apply ResolvePage_ext. intros r0 _. apply T2, page_not_inode.
  - exists last. unfold page_row in *. rewrite (GetPage_ext (ns_db s1)); [done|]. apply T2, page_not_inode.
  - intros r0 p Hr0 Hp. rewrite T2 by apply page_not_inode. destruct T1 as [_ T1].
    rewrite T1 by (apply page_other_root; unfold uintw in *; try done; lia). apply (ap_clean _ _ _ _ A); [lia|done].
Qed.

Lemma own_not_meta id x : ~ own_keys id (extentMetaKey x).
Proof. intros [E|(root & _ & E)]; [by apply meta_not_inode in E|by apply meta_not_page in E]. Qed.

(** ** Extent metadata *)

(** The metadata row of an extent holds this. *)
Definition meta_row (db : DB) (x : ExtentMetaV2) : Prop :=
  kv_get db (extentMetaKey (ex_ID x)) = Some (marshalValue x).

Lemma putExtentMeta_run e k x (s s' : NS DB) r :
  putExtentMeta e k x s = (s', r) ->
  (r = Ok tt /\ meta_row (ns_db s') x /\ touch (eq (extentMetaKey (ex_ID x))) s s') \/
  (exists err, r = Err err /\ s' = s /\ (ns_readOnly s = true \/ is_Some (xe_meta e k))).
Proof.
  intros E. apply write_run in E; [|apply meta_plain].
  destruct E as [[-> ->]|E]; [left|by right]. split; [done|]. split; [|apply touch_set].
  unfold meta_row. cbn [set_db ns_db]. by rewrite kv_get_set, bool_decide_eq_true_2.
Qed.

Lemma meta_row_frame id x (s s' : NS DB) :
  touch (own_keys id) s s' -> meta_row (ns_db s) x -> meta_row (ns_db s') x.
Proof. unfold meta_row. intros [_ T]. by rewrite T by apply own_not_meta. Qed.

Definition extents_of (writes : list ExtentWrite) : list ExtentMetaV2 := omap xw_Extent writes.

(** Distinct extents of a set. *)
Definition distinct_extents (xs : list ExtentMetaV2) : Prop :=
  Forall (fun x => is_u64 (ex_ID x)) xs /\ NoDup (map ex_ID xs).

Lemma put_metas_run e : forall writes k (s s' : NS DB) r,
  put_metas e k writes s = (s', r) ->
  touch (fun k => exists x, x ∈ extents_of writes /\ k = extentMetaKey (ex_ID x)) s s' /\
  match r with
  | Ok _ => Forall (fun w => is_Some (xw_Extent w)) writes /\
            (distinct_extents (extents_of writes) -> Forall (meta_row (ns_db s')) (extents_of writes))
  | Err _ => any_fault e s \/ Exists (fun w => xw_Extent w = None) writes
  end.
Proof.
  induction writes as [|w writes IH]; intros k s s' r E; cbn [put_metas] in E.
  { injection E as <- <-. split; [apply touch_refl|]. split; [constructor|]. constructor. }
  unfold extents_of in *. cbn [omap list_omap] in *. destruct (xw_Extent w) as [x|] eqn:Ew.
  2:{ injection E as <- <-. split; [apply touch_refl|]. right. by left. }
  nstep E s1 u E1; apply putExtentMeta_run in E1 as [(Er & Hm & T1)|(err & Er & -> & F)]; try discriminate Er.
  2:{ split; [apply touch_refl|]. left. unfold any_fault. destruct F; [by left|eauto 8]. }
  apply IH in E as [T2 E]. split.
  { eapply touch_trans; [exact T1|exact T2|..].
    - intros ? <-. exists x. split; [by left|done].
    - intros ? (y & Hy & ->). exists y. split; [by right|done]. }
  destruct r as [[]|].
  - destruct E as [Es Em]. split; [by constructor; [rewrite Ew; eauto|]|]. intros [Hu Hd].
    apply Forall_cons in Hu as [Hx Hu]. cbn [map] in Hd. apply NoDup_cons in Hd as [Hn Hd].
    constructor; [|by apply Em]. unfold meta_row in *. destruct T2 as [_ ->]; [done|].
    intros (y & Hy & Ek). rewrite Forall_forall in Hu. apply extentMetaKey_inj in Ek; [|done|by apply Hu].
    apply Hn. rewrite Ek. by apply list_elem_of_fmap_2.
  - destruct E as [E|E]; [left; by apply (any_fault_touch _ _ _ _ T1)|right; by right].
Qed.

(** ** Calls *)

Lemma enter_cases (s s' : NS DB) r :
  enter_ns s = (s', r) ->
  (r = Ok tt /\ s' = s) \/ (exists err, r = Err err /\ s' = s /\ ns_closed s = true).
Proof. unfold enter_ns. destruct (ns_closed s); intros [= <- <-]; eauto. Qed.

(** The row of a file still reads, with this root and these extents. *)
Definition holds (s : NS DB) (id root : Z) (refs : list ExtentRef) : Prop :=
  exists inode, v2_row (ns_db s) id inode /\ i2_ExtentRoot inode = root /\
    inode2_ResolveExtents (ns_db s) id = Ok refs.

Lemma holds_cache s id root refs c : holds s id root refs -> holds (set_cache c s) id root refs.
Proof. done. Qed.

(** What a call that gives file [id] the references [refs] may do. *)
Definition call_outcome (e : x_env) (id root : Z) (old refs : list ExtentRef) (xs : list ExtentMetaV2)
    (args_ok : Prop) (s s' : NS DB) (r : mgo unit) : Prop :=
  (forall k, ~ serve_keys id k -> kv_get (ns_db s') k = kv_get (ns_db s) k) /\
  ns_readOnly s' = ns_readOnly s /\ ns_closed s' = ns_closed s /\
  match r with
  | Ok _ => args_ok /\ (exists root', root <= root' <= root + 1 /\ holds s' id root' refs) /\
            (exists row, kv_get (ns_db s') (inodeKey id) = Some (@marshalValue _ C2 row) /\ i2_ID row = id) /\
            (distinct_extents xs -> Forall (meta_row (ns_db s')) xs)
  | Err _ => holds s' id root old /\ (ns_closed s = true \/ any_fault e s \/ ~ args_ok)
  end.

Lemma SetInlineExtent_run e id x size root old (s s' : NS DB) r :
  holds s id root old -> SetInlineExtent useBucketStats e id x size s = (s', r) ->
  call_outcome e id root old (match x with Some x => [mkExtentRef (ex_ID x) 0] | None => [] end)
    (match x with Some x => [x] | None => [] end) (is_Some x) s s' r.
Proof.
  intros Hh E. unfold SetInlineExtent in E. unfold call_outcome. nstep E s1 u E1;
    apply enter_cases in E1 as [[Er ->]|(err & Er & -> & Ec)]; try discriminate Er.
  2:{ split; [done|]. split; [done|]. split; [done|]. split; [done|]. by left. }
  destruct x as [x|].
  2:{ injection E as <- <-. split; [done|]. split; [done|]. split; [done|]. split; [done|]. right. right.
      by intros [? ?]. }
  destruct Hh as (inode & R & Hr & Hv). nstep E s2 v E2;
    apply putExtentMeta_run in E2 as [(Er2 & Hm & T2)|(err & Er2 & -> & F)]; try discriminate Er2.
  2:{ split; [done|]. split; [done|]. split; [done|]. split; [by exists inode|]. right. left.
      unfold any_fault. destruct F; [by left|eauto 8]. }
  assert (touch meta_keys s s2) as T2' by (apply (touch_weaken _ _ _ _ T2); intros ? <-; by eexists).
  destruct (resolve_touch_meta _ _ _ _ R T2') as [R2 V2].
  assert (forall s3, touch (own_keys id) s2 s3 -> touch (serve_keys id) s s3) as Tall
    by (intros s3 T3; eapply touch_trans; [exact T2'|exact T3|by right|by left]).
  nstep E s3 w E3; apply (inode2_SetInlineExtent_run _ _ _ _ _ _ _ _ R2) in E3 as [T3 E3];
    destruct (Tall _ T3) as [_ T]; destruct (touch_flags _ _ _ (Tall _ T3)) as [F1 F2].
  - injection E as <- <-. destruct E3 as (inode' & V3 & R3 & Hr3 & Hrow).
    split; [exact T|]. split; [exact F1|]. split; [exact F2|]. split; [eauto|]. split.
    + exists root. split; [lia|]. exists inode'. by rewrite Hr3.
    + split; [exists inode'; split; [done|apply R3]|]. intros _. constructor; [|done]. exact (meta_row_frame _ _ _ _ T3 Hm).
  - split; [done|]. split; [done|]. split; [done|].
    destruct E3 as [-> F]. split; [exists inode; by rewrite V2|]. right. left.
    by apply (any_fault_touch _ _ _ _ T2).
Qed.

(** The references a set of extents becomes. *)
Definition refs_of (writes : list ExtentWrite) : list ExtentRef :=
  match page_refs writes with Ok refs => refs | Err _ => [] end.

Lemma nil_not_all writes :
  Exists (fun w => xw_Extent w = None) writes -> ~ Forall (fun w => is_Some (xw_Extent w)) writes.
Proof.
  intros Ex F. induction Ex as [w l Ew|w l Ex IH]; apply Forall_cons in F as [Fw F]; [|auto].
  rewrite Ew in Fw. by destruct Fw.
Qed.

Lemma page_refs_some writes : Forall (fun w => is_Some (xw_Extent w)) writes -> page_refs writes = Ok (refs_of writes).
Proof.
  unfold refs_of. destruct (page_refs writes) as [refs|err] eqn:E; [done|]. intros F. exfalso.
  by apply page_refs_nil_err, nil_not_all in E.
Qed.

Lemma ReplaceExtents_run e id writes size root old (s s' : NS DB) r :
  holds s id root old -> root < 2 ^ 64 - 3 -> len writes <= 2 ^ 39 ->
  ReplaceExtents useBucketStats e id writes size s = (s', r) ->
  call_outcome e id root old (refs_of writes) (extents_of writes)
    (Forall (fun w => is_Some (xw_Extent w)) writes) s s' r.
Proof.
  intros Hh Hroom Hl E. unfold ReplaceExtents in E. unfold call_outcome. nstep E s1 u E1;
    apply enter_cases in E1 as [[Er ->]|(err & Er & -> & Ec)]; try discriminate Er.
  2:{ split; [done|]. split; [done|]. split; [done|]. split; [done|]. by left. }
  pose proof (nil_not_all writes) as Hnil.
  destruct Hh as (inode & R & Hr & Hv).
  assert (forall s2, touch (fun k => exists x, x ∈ extents_of writes /\ k = extentMetaKey (ex_ID x)) s s2 ->
    touch meta_keys s s2) as Tm.
  { intros s2 T. apply (touch_weaken _ _ _ _ T). intros ? (x & _ & ->). by eexists. }
  nstep E s2 v E2; apply put_metas_run in E2 as [T2 E2]; pose proof (Tm _ T2) as T2';
    destruct (resolve_touch_meta _ _ _ _ R T2') as [R2 V2].
  2:{ split; [intros k Hk; apply T2'; contradict Hk; by right|].
      destruct (touch_flags _ _ _ T2'). split; [done|]. split; [done|]. split; [exists inode; by rewrite V2|]. right.
      destruct E2; [by left|right; by apply Hnil]. }
  destruct E2 as [Hsome Hmetas].
  assert (forall s3, touch (own_keys id) s2 s3 -> touch (serve_keys id) s s3) as Tall
    by (intros s3 T3; eapply touch_trans; [exact T2'|exact T3|by right|by left]).
  assert (room inode) as Hroom' by (unfold room; lia).
  nstep E s3 w E3; apply (inode2_ReplaceExtents_run _ _ _ _ _ _ _ _ R2 Hroom' Hl) in E3 as [T3 E3];
    destruct (Tall _ T3) as [_ T]; destruct (touch_flags _ _ _ (Tall _ T3)) as [F1 F2].
  - injection E as <- <-. destruct E3 as (refs & inode' & Hrefs & V3 & R3 & _ & Hr3 & _ & Hrow).
    rewrite page_refs_some in Hrefs by done. injection Hrefs as <-.
    split; [exact T|]. split; [exact F1|]. split; [exact F2|]. split; [done|]. split.
    + exists (root + 1). split; [lia|]. exists inode'. by rewrite Hr3, Hr.
    + split; [exists inode'; split; [done|apply R3]|]. intros Hd. apply (Forall_impl _ _ _ (Hmetas Hd)). intros x Hx. exact (meta_row_frame _ _ _ _ T3 Hx).
  - split; [done|]. split; [done|]. split; [done|].
    destruct E3 as (R3 & V3 & F). split; [exists inode; by rewrite V3, V2|]. right.
    destruct F as [F|F]; [left; by apply (any_fault_touch _ _ _ _ T2)|right; by apply Hnil].
Qed.
End Ops.
