(* ===== verification/ChunkProofs.v ===== *)
(** * What tombstoning, purging and collecting do to the rows

    The outcome of each call of [ChunkGC.v], whatever other clients commit
    between its reads and its own commit, and the frame of a whole collection:
    inode rows and the rows of referenced chunks stay. *)

From stdpp Require Import base list sorting numbers strings gmap.
From Stdlib Require Import ZArith Lia.
From S2P Require Import Prelude Bytes Pebble MetaKeys MetaScan MetaTypes RaftLog MetaFSM Namespace Extents ChunkRules ChunkGC MetaFSMProofs NamespaceSpec ExtentProofs.

Local Open Scope Z_scope.
Local Open Scope go_scope.

(** ** Keys *)

Lemma chunkMetadataKey_inj x y : is_u64 x -> is_u64 y -> chunkMetadataKey x = chunkMetadataKey y -> x = y.
Proof. intros Hx Hy E. apply app_inv_head in E. by apply FormatUint_inj. Qed.

Lemma chunkTombstoneKey_inj x y : is_u64 x -> is_u64 y -> chunkTombstoneKey x = chunkTombstoneKey y -> x = y.
Proof. intros Hx Hy E. apply app_inv_head in E. by apply FormatUint_inj. Qed.

Lemma chunk_tombstone_apart x y : chunkMetadataKey x <> chunkTombstoneKey y.
Proof. by apply apart_app. Qed.

(** The rows garbage collection may change. *)
Definition chunk_row (k : list Z) : Prop := exists id, k = chunkMetadataKey id \/ k = chunkTombstoneKey id.

Lemma inode_prefix_not_chunk k : HasPrefix k prefixInode = true -> ~ chunk_row k.
Proof.
  intros Hp [id [->| ->]]; apply HasPrefix_spec in Hp as [rest E]; by apply (apart_app) in E.
Qed.

Lemma page_not_chunk i r p : ~ chunk_row (extentPageKey i r p).
Proof. intros [id [E|E]]; by apply apart_app in E. Qed.

Section Proofs.
Context {DB : Type} `{KL : PebbleLaws DB}.
Context `{CI : Codec InodeMeta} `{C2 : Codec InodeMetaV2} `{CP : Codec ExtentPage}.
Context `{CK : Codec ChunkMeta} `{CT : Codec ChunkTombstone}.
Context `{CB : Codec BackupCatalogState} `{CC : Codec CommittedBackup}.
Context (rules : version_rules).

(** ** Commits *)

Lemma apply_fenced g (db db' : DB) ps ms :
  applyChunkTombstoneConditional rules g db (fenced ps ms) = Ok db' ->
  Forall (pre_holds db) ps /\ forall k, kv_get db' k = kv_get (fold_left apply_op ms db) k.
Proof.
  unfold applyChunkTombstoneConditional. intros E. ok_inv.
  destruct (applyConditionalBatchWithHook _ _ _ _ _) as [db1|e] eqn:Ec; [|discriminate E]. ok_inv. subst db1.
  assert (forall k, Forall (pre_holds db) ps /\ kv_get db' k = kv_get (fold_left apply_op ms db) k) as Hk
    by (intros k; exact (conditional_in_order rules _ _ _ _ (fenced ps ms) k eq_refl Ec)).
  split; [apply (Hk [])|apply Hk].
Qed.

Lemma expect_holds (db : DB) k v : pre_holds db (expect k v) -> kv_get db k = Some v.
Proof. done. Qed.

Lemma absent_holds (db : DB) k : pre_holds db (absent k) -> kv_get db k = None.
Proof. done. Qed.

(** ** Tombstoning *)

(** A tombstone for [id] was written into [db], giving [db']. *)
Record tombstoned (db db' : DB) (id now : Z) : Prop := mkTombstoned {
  td_chunk : exists raw chunk, kv_get db (chunkMetadataKey id) = Some raw /\
    @unmarshalValue _ CK raw = Ok chunk /\ ck_ID chunk = id /\ 0 <= ck_Size chunk /\
    exists reason, blank reason = false /\ kv_get db' (chunkTombstoneKey id) =
      Some (marshalValue (mkChunkTombstone id (ck_Replicas chunk) (ck_Size chunk) reason now
                            (now + chunkTombstoneQuarantine)));
  td_absent : kv_get db (chunkTombstoneKey id) = None;
  td_other : forall k, k <> chunkTombstoneKey id -> kv_get db' k = kv_get db k
}.

Lemma tombstone_run g at_ now (now_db db' : DB) id reason sn r :
  tombstoneChunkWithReferences rules g at_ now now_db id reason sn = (r, db') ->
  (db' = now_db /\ r <> Ok true) \/
  (r = Ok true /\ contains sn id = false /\ tombstoned now_db db' id now).
Proof.
  unfold tombstoneChunkWithReferences. intros E.
  destruct (ge_closed g); [left; by injection E as <- <-|].
  destruct (blank reason) eqn:Hb; [left; by injection E as <- <-|].
  destruct (kv_get (at_ 1%nat) (chunkTombstoneKey id)) as [traw|].
  { destruct (kv_get (at_ 0%nat) (chunkMetadataKey id)); destruct (validateDurableChunkTombstonePair _ _ _);
      injection E as <- <-; left; (split; [done|]); by destruct (contains sn id). }
  destruct (contains sn id); [left; by injection E as <- <-|].
  destruct (kv_get (at_ 0%nat) (chunkMetadataKey id)) as [raw|]; [|left; by injection E as <- <-].
  destruct (@unmarshalValue _ CK raw) as [chunk|] eqn:Eu; [|left; by injection E as <- <-].
  destruct (negb (ck_ID chunk =? id)) eqn:Ei; [left; by injection E as <- <-|].
  destruct (ck_Size chunk <? 0) eqn:Es; [left; by injection E as <- <-|].
  destruct (applyChunkTombstoneConditional rules g now_db _) as [db|e] eqn:Ea.
  2:{ left. destruct (bool_decide (e = ErrBackupMetadataConflict)); cbn [negb] in E; [|by injection E as <- <-].
      destruct (kv_get (at_ 2%nat) _); [|by injection E as <- <-].
      destruct (validateDurableChunkTombstonePair _ _ _); by injection E as <- <-. }
  injection E as <- <-. right. split; [done|]. split; [done|].
  apply apply_fenced in Ea as [Hp Hk]. apply negb_false_iff, Z.eqb_eq in Ei. apply Z.ltb_ge in Es.
  apply Forall_cons_1 in Hp as [_ Hp]. apply Forall_cons_1 in Hp as [H1 Hp]. apply Forall_cons_1 in Hp as [H2 _].
  constructor.
  - exists raw, chunk. split; [done|]. split; [done|]. split; [done|]. split; [done|].
    exists reason. split; [done|]. rewrite Hk. cbn [fold_left]. by rewrite kv_get_apply_op, bool_decide_eq_true_2.
  - done.
  - intros k Hne. rewrite Hk. cbn [fold_left]. rewrite kv_get_apply_op, bool_decide_eq_false_2; [done|].
    cbn [bo_Key]. congruence.
Qed.

(** ** Purging *)

Lemma check_catalog_inv raw c :
  @check_catalog CB raw = Ok c ->
  exists state, @unmarshalValue _ CB raw = Ok state /\
    normalizeBackupCatalog (bc_Backups state) (bc_ReconciledAt state) = Ok c.
Proof. unfold check_catalog. intros E. ok_inv. subst. eauto. Qed.

(** Whether a catalogue allows purging a chunk deleted at [deleted]. *)
Definition catalog_allows (c : BackupCatalogState) (deleted now : Z) : Prop :=
  bc_Backups c <> [] /\ bc_ReconciledAt c <= now <= bc_ReconciledAt c + chunkCatalogMaxAge /\
  Forall (fun b => deleted < bk_CreatedAt b) (bc_Backups c).

Lemma canPurge_allows t now catalog :
  canPurgeWithCatalog t now catalog = Ok true ->
  exists c, catalog = Some c /\ catalog_allows c (ct_DeletedAt t) now.
Proof.
  unfold canPurgeWithCatalog. destruct catalog as [c|]; [|done]. intros E. ok_inv. exists c. split; [done|].
  repeat match goal with G : _ = false |- _ => first [apply orb_false_iff in G as [? G]|fail 1] end.
  split; [intros En; rewrite En in *; done|]. split.
  - match goal with A : (_ <? _) = false, B : (_ <? _) = false |- _ =>
      apply Z.ltb_ge in A; apply Z.ltb_ge in B end. lia.
  - apply Forall_forall. intros b Hb. apply forallb_forall with (x := b) in E; [|by apply list_elem_of_In].
    by apply Z.ltb_lt.
Qed.

Lemma GetBackupCatalogState_inv g (db : DB) c :
  GetBackupCatalogState g db = Ok (Some c) ->
  exists raw state, kv_get db keyBackupCatalog = Some raw /\ @unmarshalValue _ CB raw = Ok state /\
    normalizeBackupCatalog (bc_Backups state) (bc_ReconciledAt state) = Ok c.
Proof.
  unfold GetBackupCatalogState, getValue. destruct (ge_closed g); [done|].
  destruct (kv_get db keyBackupCatalog) as [raw|]; [|done].
  destruct (@unmarshalValue _ CB raw) as [state|] eqn:Eu; [|done]. cbn [mbind result_bind]. intros E. ok_inv.
  injection E as <-. eauto.
Qed.

(** What a purge knows of the row [raw] it commits against: at some step of
    the call the catalogue state allowed the deletion, with the row [raw]
    read just before and just after. *)
Definition allowed_between (g : gc_env) (at_ : nat -> DB) (now : Z) (raw : list Z) (t : ChunkTombstone) : Prop :=
  exists n c, kv_get (at_ n) keyBackupCatalog = Some raw /\ kv_get (at_ (n + 2)%nat) keyBackupCatalog = Some raw /\
    GetBackupCatalogState g (at_ (n + 1)%nat) = Ok (Some c) /\ catalog_allows c (ct_DeletedAt t) now.

(** The state in the row [raw] itself allows it. *)
Definition allowed_by (now : Z) (raw : list Z) (t : ChunkTombstone) : Prop :=
  exists c, @check_catalog CB raw = Ok c /\ catalog_allows c (ct_DeletedAt t) now.

Lemma capture_allows g at_ t now attempts : forall n raw,
  capture_attempts g at_ n attempts t now = Ok raw ->
  (exists c, @check_catalog CB raw = Ok c) /\ allowed_between g at_ now raw t.
Proof.
  induction attempts as [|attempts IH]; intros n raw E; cbn [capture_attempts] in E; [done|].
  destruct (kv_get (at_ n) keyBackupCatalog) as [raw0|] eqn:E0; [|done].
  apply bind_Ok_inv in E as (c0 & Ec & E). apply bind_Ok_inv in E as (cat & Eg & E).
  apply bind_Ok_inv in E as (ok & Ep & E). destruct ok; cbn [negb] in E; [|done].
  case_bool_decide as E2; [|by apply (IH _ _ E)]. apply Ok_inj in E. subst raw.
  apply canPurge_allows in Ep as (c & -> & Hall). split; [by exists c0|]. by exists n, c.
Qed.

(** The catalogue row never returns to an earlier value while a call runs. *)
Definition no_return (at_ : nat -> DB) : Prop :=
  forall i j k, (i <= j <= k)%nat -> kv_get (at_ i) keyBackupCatalog = kv_get (at_ k) keyBackupCatalog ->
    kv_get (at_ j) keyBackupCatalog = kv_get (at_ i) keyBackupCatalog.

(** Then the state that was checked is the one in the row. *)
Lemma no_return_allowed g at_ now raw t c0 :
  no_return at_ -> @check_catalog CB raw = Ok c0 -> allowed_between g at_ now raw t -> allowed_by now raw t.
Proof.
  intros Ha Ec (n & c & E0 & E2 & Eg & Hall). exists c0. split; [done|].
  destruct (GetBackupCatalogState_inv _ _ _ Eg) as (raw1 & state & E1 & Eu & En).
  rewrite (Ha n (n + 1)%nat (n + 2)%nat), E0 in E1 by (lia || congruence). injection E1 as <-.
  apply check_catalog_inv in Ec as (state' & Eu' & En'). congruence.
Qed.

(** The rows of chunk [id] were purged from [db], giving [db']; [ok] is known
    of the catalogue row of [db] and the tombstone. *)
Record purged_if (ok : list Z -> ChunkTombstone -> Prop) (db db' : DB) (id now : Z) : Prop := mkPurged {
  pg_chunk : exists raw chunk, kv_get db (chunkMetadataKey id) = Some raw /\
    @unmarshalValue _ CK raw = Ok chunk /\ ck_ID chunk = id;
  pg_due : exists raw t craw, kv_get db (chunkTombstoneKey id) = Some raw /\
    decodeChunkTombstone raw = Ok t /\ ct_ChunkID t = id /\
    ct_DeletedAt t + chunkTombstoneQuarantine <= now /\
    kv_get db keyBackupCatalog = Some craw /\ (exists c, @check_catalog CB craw = Ok c) /\ ok craw t;
  pg_gone : kv_get db' (chunkMetadataKey id) = None /\ kv_get db' (chunkTombstoneKey id) = None;
  pg_other : forall k, k <> chunkMetadataKey id -> k <> chunkTombstoneKey id -> kv_get db' k = kv_get db k
}.

(** The catalogue of [db] allows it. *)
Definition purged (db db' : DB) (id now : Z) : Prop := purged_if (allowed_by now) db db' id now.

Lemma purged_no_return g at_ (db db' : DB) id now :
  no_return at_ -> purged_if (allowed_between g at_ now) db db' id now -> purged db db' id now.
Proof.
  intros Ha [P1 (raw & t & craw & D1 & D2 & D3 & D4 & D5 & [c D6] & D7) P3 P4]. constructor; try done.
  exists raw, t, craw. do 5 (split; [done|]). split; [by exists c|]. by eapply no_return_allowed.
Qed.

Lemma pair_inv id craw traw t :
  validateDurableChunkTombstonePair id (Some craw) (Some traw) = Ok t ->
  decodeChunkTombstone traw = Ok t /\ ct_ChunkID t = id /\
  exists chunk, @unmarshalValue _ CK craw = Ok chunk /\ ck_ID chunk = id.
Proof.
  unfold validateDurableChunkTombstonePair. intros E. ok_inv. subst.
  repeat match goal with G : _ || _ = false |- _ => apply orb_false_iff in G as [? ?] end.
  repeat match goal with G : negb (_ =? _) = false |- _ => apply negb_false_iff, Z.eqb_eq in G end.
  eauto 8.
Qed.

Lemma normalize_due t t' : normalizeChunkTombstone t = Ok t' -> ct_DeleteAfter t = ct_DeletedAt t + chunkTombstoneQuarantine.
Proof.
  unfold normalizeChunkTombstone. intros E. ok_inv.
  match goal with G : negb (ct_DeleteAfter t =? _) = false |- _ => by apply negb_false_iff, Z.eqb_eq in G end.
Qed.

Lemma purge_run g at_ (now_db db' : DB) id now sn r :
  purgeChunkIfEligible rules g at_ now_db id now sn = (r, db') ->
  db' = now_db \/ (r = Ok tt /\ contains sn id = false /\ purged_if (allowed_between g at_ now) now_db db' id now).
Proof.
  unfold purgeChunkIfEligible. intros E.
  destruct (contains sn id); [left; by injection E as <- <-|].
  destruct (kv_get (at_ 0%nat) (chunkMetadataKey id)) as [craw|],
    (kv_get (at_ 1%nat) (chunkTombstoneKey id)) as [traw|]; try (left; by injection E as <- <-).
  destruct (validateDurableChunkTombstonePair id _ _) as [t|] eqn:Ev; [|left; by injection E as <- <-].
  destruct (capturePurgeCatalog g at_ 4 t now) as [raw|] eqn:Ec; [|left; by injection E as <- <-].
  destruct (applyChunkTombstoneConditional rules g now_db _) as [db|e] eqn:Ea.
  2:{ left. clear Ev Ec Ea. destruct (bool_decide (e = ErrBackupMetadataConflict)); cbn [negb] in E;
        [|by injection E as <- <-].
      destruct (kv_get (at_ 2%nat) _), (kv_get (at_ 3%nat) _);
        try destruct (validateDurableChunkTombstonePair _ _ _); by injection E as <- <-. }
  injection E as <- <-. right. split; [done|]. split; [done|].
  apply apply_fenced in Ea as [Hp Hk]. apply Forall_cons_1 in Hp as [_ Hp].
  apply Forall_cons_1 in Hp as [H1 Hp]. apply Forall_cons_1 in Hp as [H2 Hp]. apply Forall_cons_1 in Hp as [H3 _].
  destruct (pair_inv _ _ _ _ Ev) as (Hd & Ht & chunk & Hu & Hc). unfold capturePurgeCatalog in Ec. ok_inv.
  destruct (capture_allows _ _ _ _ _ _ _ Ec) as (Hcat & Hall). apply Z.ltb_ge in G0.
  rewrite (normalize_due _ _ E) in G0. cbn [fold_left] in Hk.
  constructor.
  - exists craw, chunk. by split; [exact H2|].
  - exists traw, t, raw. split; [exact H3|]. do 2 (split; [done|]). split; [lia|].
    split; [exact H1|]. by split.
  - rewrite !Hk, !kv_get_apply_op. cbn [bo_Key del_op op_value bo_Delete].
    rewrite (bool_decide_eq_true_2 (chunkTombstoneKey id = chunkTombstoneKey id)) by done.
    rewrite (bool_decide_eq_true_2 (chunkMetadataKey id = chunkMetadataKey id)) by done. by case_bool_decide.
  - intros k Hk1 Hk2. rewrite Hk, !kv_get_apply_op. cbn [bo_Key del_op].
    by rewrite !bool_decide_eq_false_2 by congruence.
Qed.

(** ** References *)

(** Strictly sorted lists with the same elements are equal. *)
Lemma sorted_rows_eq (l l' : list row) :
  StronglySorted (fun p q : row => bytes_lt p.1 q.1) l -> StronglySorted (fun p q : row => bytes_lt p.1 q.1) l' ->
  (forall x, x ∈ l <-> x ∈ l') -> l = l'.
Proof.
  assert (forall k : list Z, ~ bytes_lt k k) as Irr by (intros k; unfold bytes_lt; by rewrite bytes_ltb_irrefl).
  intros S. revert l'. induction S as [|x l S IH F]; intros l' S' E.
  { destruct l' as [|y l']; [done|]. by destruct (not_elem_of_nil y (proj2 (E y) ltac:(by left))). }
  destruct S' as [|y l' S' F']; [by destruct (not_elem_of_nil x (proj1 (E x) ltac:(by left)))|].
  rewrite Forall_forall in F, F'.
  assert (x = y) as <-.
  { destruct (proj1 (elem_of_cons _ _ _) (proj1 (E x) ltac:(by left))) as [->|Hx]; [done|].
    destruct (proj1 (elem_of_cons _ _ _) (proj2 (E y) ltac:(by left))) as [->|Hy]; [done|].
    destruct (Irr x.1). exact (bytes_ltb_trans _ _ _ (F _ Hy) (F' _ Hx)). }
  f_equal. apply IH; [done|]. intros z. split; intros Hz.
  - destruct (proj1 (elem_of_cons _ _ _) (proj1 (E z) ltac:(by right))) as [->|]; [|done].
    destruct (Irr x.1 (F _ Hz)).
  - destruct (proj1 (elem_of_cons _ _ _) (proj2 (E z) ltac:(by right))) as [->|]; [|done].
    destruct (Irr x.1 (F' _ Hz)).
Qed.

Lemma kv_range_ext (db db' : DB) lower upper :
  (forall k, in_range lower upper k = true -> kv_get db' k = kv_get db k) ->
  kv_range db' lower upper = kv_range db lower upper.
Proof.
  intros Hk. apply sorted_rows_eq; [apply kv_range_sorted..|]. intros [k v]. rewrite !elem_of_kv_range.
  split; intros [G R]; (split; [|done]); [rewrite <- Hk|rewrite Hk]; done.
Qed.

(** [db'] differs from [db] in chunk and tombstone rows only. *)
Definition same_rows (db db' : DB) : Prop := forall k, ~ chunk_row k -> kv_get db' k = kv_get db k.

Lemma chunk_row_wf k : chunk_row k -> bytes_wf k.
Proof. intros [id [->| ->]]; apply bytes_wf_app; (split; [apply str_wf|apply FormatUint_wf]). Qed.

Lemma inode_range_not_chunk k :
  in_range prefixInode (prefixUpperBound prefixInode) k = true -> ~ chunk_row k.
Proof.
  intros Hr Hc. rewrite in_range_prefix in Hr; [|apply str_wf|by apply chunk_row_wf].
  by apply inode_prefix_not_chunk in Hr.
Qed.

(** The references depend on inode rows and extent pages only. *)
Lemma scan_references_agree (db db' : DB) :
  (forall k, in_range prefixInode (prefixUpperBound prefixInode) k = true -> kv_get db' k = kv_get db k) ->
  (forall i r p, kv_get db' (extentPageKey i r p) = kv_get db (extentPageKey i r p)) ->
  scan_references db' = scan_references db.
Proof.
  intros Hi Hp. unfold scan_references. rewrite (kv_range_ext db db') by done.
  generalize (kv_range db prefixInode (prefixUpperBound prefixInode)). intros rows.
  induction rows as [|[key value] rows IH]; [done|]. cbn [collect_references]. rewrite IH.
  assert (inode_references db' key value = inode_references db key value) as ->; [|done].
  unfold inode_references. destruct (@unmarshalValue _ C2 value) as [v2|]; [|done].
  assert (page_ResolveExtents db' v2 = page_ResolveExtents db v2) as ->; [|done].
  unfold page_ResolveExtents. apply resolve_pages_ext. intros q _. apply ResolvePage_ext. intros r _. apply Hp.
Qed.

Lemma scan_references_ext (db db' : DB) : same_rows db db' -> scan_references db' = scan_references db.
Proof.
  intros Hs. apply scan_references_agree; [intros k Hk; by apply Hs, inode_range_not_chunk|].
  intros i r p. apply Hs, page_not_chunk.
Qed.

Lemma snapshot_const g (db : DB) sn :
  stableInodeReferenceSnapshot g (fun _ => db) = Ok sn -> scan_references db = Ok (sn_references sn).
Proof.
  unfold stableInodeReferenceSnapshot. intros E. ok_inv. revert E. generalize 0%nat, 3%nat.
  intros n attempts. revert n. induction attempts as [|attempts IH]; intros n E; cbn [snapshot_attempts] in E; [done|].
  ok_inv. case_bool_decide; [by injection E as <-|]. by apply IH in E.
Qed.

(** ** Collections *)

(** Chunk ids are uint64, as the Go type decodes them. *)
Context (chunk_width : forall raw c, @unmarshalValue _ CK raw = Ok c -> is_u64 (ck_ID c)).

(** From [db] to [db']: other rows, and the rows of the chunks in [refs],
    are the same. *)
Definition keeps (refs : list Z) (db db' : DB) : Prop :=
  same_rows db db' /\
  forall id, is_u64 id -> id ∈ refs ->
    kv_get db' (chunkMetadataKey id) = kv_get db (chunkMetadataKey id) /\
    kv_get db' (chunkTombstoneKey id) = kv_get db (chunkTombstoneKey id).

Lemma keeps_refl refs db : keeps refs db db.
Proof. done. Qed.

Lemma keeps_trans refs db1 db2 db3 : keeps refs db1 db2 -> keeps refs db2 db3 -> keeps refs db1 db3.
Proof.
  intros [S1 K1] [S2 K2]. split; [intros k Hk; by rewrite S2, S1|].
  intros id Hu Hi. destruct (K1 id Hu Hi) as [<- <-]. by apply K2.
Qed.

Lemma tombstoned_keeps refs db db' id now : id ∉ refs -> tombstoned db db' id now -> keeps refs db db'.
Proof.
  intros Hn [(raw & chunk & _ & Hu & <- & _) _ Ho]. apply chunk_width in Hu. split.
  - intros k Hk. apply Ho. intros ->. apply Hk. eexists. by right.
  - intros id Hid Hin. split; apply Ho; [apply chunk_tombstone_apart|].
    intros E. apply chunkTombstoneKey_inj in E as ->; [|done..]. done.
Qed.

Lemma purged_keeps refs db db' id now : id ∉ refs -> purged db db' id now -> keeps refs db db'.
Proof.
  intros Hn [(raw & chunk & _ & Hu & <-) _ _ Ho]. apply chunk_width in Hu. split.
  - intros k Hk. apply Ho; intros ->; apply Hk; eexists; auto.
  - intros id Hid Hin. split; apply Ho.
    + intros E. by apply chunkMetadataKey_inj in E as ->.
    + apply chunk_tombstone_apart.
    + intros E. symmetry in E. by apply chunk_tombstone_apart in E.
    + intros E. by apply chunkTombstoneKey_inj in E as ->.
Qed.

(** What a tombstone phase leaves: chunk rows stay, and a new tombstone bears
    the clock reading of its chunk. *)
Definition entombs (refs : list Z) (clock : Z -> Z) (db db' : DB) : Prop :=
  keeps refs db db' /\
  (forall id, kv_get db' (chunkMetadataKey id) = kv_get db (chunkMetadataKey id)) /\
  forall k raw, kv_get db' k = Some raw -> kv_get db k = Some raw \/
    exists t, raw = marshalValue t /\ ct_DeletedAt t = clock (ct_ChunkID t).

Lemma entombs_refl refs clock db : entombs refs clock db db.
Proof. split; [apply keeps_refl|]. split; [done|]. by left. Qed.

Lemma entombs_trans refs clock db1 db2 db3 :
  entombs refs clock db1 db2 -> entombs refs clock db2 db3 -> entombs refs clock db1 db3.
Proof.
  intros (K1 & C1 & T1) (K2 & C2' & T2). split; [by apply (keeps_trans _ _ db2)|].
  split; [intros id; by rewrite C2', C1|]. intros k raw Hk. destruct (T2 _ _ Hk) as [Hm|Ht]; [|by right]. auto.
Qed.

Lemma tombstoned_entombs refs clock db db' id :
  id ∉ refs -> tombstoned db db' id (clock id) -> entombs refs clock db db'.
Proof.
  intros Hn T. split; [exact (tombstoned_keeps _ _ _ _ _ Hn T)|].
  split; [intros id'; apply (td_other _ _ _ _ T), chunk_tombstone_apart|]. intros k raw Hk.
  destruct (decide (k = chunkTombstoneKey id)) as [->|Ne]; [|left; by rewrite <- (td_other _ _ _ _ T)].
  destruct (td_chunk _ _ _ _ T) as (? & ? & _ & _ & _ & _ & reason & _ & Et).
  rewrite Et in Hk. injection Hk as <-. right. by eexists.
Qed.

Lemma tombstone_orphans_run g clock dry reason sn ids : forall db res r db',
  tombstone_orphans rules g clock dry reason sn ids db res = (r, db') ->
  entombs (sn_references sn) clock db db'.
Proof.
  induction ids as [|id ids IH]; intros db res r db' E; cbn [tombstone_orphans] in E.
  { injection E as <- <-. apply entombs_refl. }
  destruct (contains sn id) eqn:Ec; [by apply IH in E|]. destruct dry; [by apply IH in E|].
  destruct (tombstoneChunkWithReferences _ _ _ _ _ _ _ _) as [r1 db1] eqn:E1.
  assert (entombs (sn_references sn) clock db db1) as T1.
  { apply tombstone_run in E1 as [[-> _]|(_ & _ & T)]; [apply entombs_refl|].
    apply bool_decide_eq_false in Ec. exact (tombstoned_entombs _ _ _ _ _ Ec T). }
  destruct r1 as [created|e]; [apply IH in E; by apply (entombs_trans _ _ _ db1)|].
  destruct (bool_decide _); [apply IH in E; by apply (entombs_trans _ _ _ db1)|]. by injection E as <- <-.
Qed.

(** Nothing is created: the rows of [db'] are rows of [db]. *)
Definition only_removes (db db' : DB) : Prop := forall k v, kv_get db' k = Some v -> kv_get db k = Some v.

Lemma purged_removes db db' id now : purged db db' id now -> only_removes db db'.
Proof.
  intros [_ _ [G1 G2] Ho] k v Hk. destruct (decide (k = chunkMetadataKey id)) as [->|N1]; [congruence|].
  destruct (decide (k = chunkTombstoneKey id)) as [->|N2]; [congruence|]. by rewrite <- Ho.
Qed.

(** Chunk [id] may be purged from [db] at [now]: its tombstone has served its
    quarantine and the catalogue allows it. *)
Definition due (db : DB) (id now : Z) : Prop :=
  exists raw t craw c, kv_get db (chunkTombstoneKey id) = Some raw /\
    decodeChunkTombstone raw = Ok t /\ ct_ChunkID t = id /\
    ct_DeletedAt t + chunkTombstoneQuarantine <= now /\
    kv_get db keyBackupCatalog = Some craw /\ @check_catalog CB craw = Ok c /\
    catalog_allows c (ct_DeletedAt t) now.

Lemma catalog_not_chunk : ~ chunk_row keyBackupCatalog.
Proof. intros [id [E|E]]; discriminate E. Qed.

Lemma due_before db db' id now : only_removes db db' -> due db' id now -> due db id now.
Proof. intros Hr (raw & t & craw & c & H1 & H2 & H3 & H4 & H5 & H6). exists raw, t, craw, c. auto 10. Qed.

(** What a purge phase leaves: every chunk row that is gone was unreferenced
    and due. *)
Definition purges (refs : list Z) (clock : Z -> Z) (db db' : DB) : Prop :=
  keeps refs db db' /\ only_removes db db' /\
  forall id, kv_get db' (chunkMetadataKey id) <> kv_get db (chunkMetadataKey id) ->
    exists id', is_u64 id' /\ chunkMetadataKey id' = chunkMetadataKey id /\ id' ∉ refs /\ due db id' (clock id').

Lemma purges_refl refs clock db : purges refs clock db db.
Proof. split; [apply keeps_refl|]. split; [by intros k v|]. done. Qed.

Lemma purges_trans refs clock db1 db2 db3 :
  purges refs clock db1 db2 -> purges refs clock db2 db3 -> purges refs clock db1 db3.
Proof.
  intros (K1 & R1 & D1) (K2 & R2 & D2). split; [by apply (keeps_trans _ _ db2)|].
  split; [intros k v Hk; by apply R1, R2|]. intros id Hne.
  destruct (decide (kv_get db2 (chunkMetadataKey id) = kv_get db1 (chunkMetadataKey id))) as [E|E]; [|by apply D1].
  destruct (D2 id) as (id' & W & Ek & Hn & Hd); [congruence|]. exists id'. do 3 (split; [done|]).
  by apply (due_before _ db2).
Qed.

Lemma purged_purges refs clock db db' id :
  id ∉ refs -> purged db db' id (clock id) -> purges refs clock db db'.
Proof.
  intros Hn P. split; [by apply (purged_keeps _ _ _ _ _ Hn P)|]. split; [by apply (purged_removes _ _ _ _ P)|].
  intros id' Hne. exists id. destruct (pg_chunk _ _ _ _ _ P) as (raw & chunk & _ & Hu & Hi).
  apply chunk_width in Hu. rewrite Hi in Hu. split; [done|]. destruct (decide (chunkMetadataKey id' = chunkMetadataKey id)) as [E|E].
  - split; [done|]. split; [done|]. 
    destruct (pg_due _ _ _ _ _ P) as (traw & t & craw & D1 & D2 & D3 & D4 & D5 & _ & c & D6 & D7).
    exists traw, t, craw, c. auto 10.
  - destruct Hne. apply (pg_other _ _ _ _ _ P); [done|]. apply chunk_tombstone_apart.
Qed.

Lemma no_return_const (db : DB) : no_return (fun _ => db).
Proof. done. Qed.

Lemma purge_tombstones_run g clock dry sn rows : forall db res r db',
  purge_tombstones rules g clock dry sn rows db res = (r, db') -> purges (sn_references sn) clock db db'.
Proof.
  induction rows as [|[key value] rows IH]; intros db res r db' E; cbn [purge_tombstones] in E.
  { injection E as <- <-. apply purges_refl. }
  destruct (scan_tombstone db key value) as [t|]; [|injection E as <- <-; apply purges_refl].
  destruct dry; [by apply IH in E|]. destruct (contains sn (ct_ChunkID t)); [by apply IH in E|].
  destruct (purgeChunkIfEligible _ _ _ _ _ _ _) as [r1 db1] eqn:E1.
  assert (purges (sn_references sn) clock db db1) as P1.
  { apply purge_run in E1 as [->|(_ & Hc & P)]; [apply purges_refl|].
    apply (purged_no_return _ _ _ _ _ _ (no_return_const db)) in P.
    apply bool_decide_eq_false in Hc. exact (purged_purges _ _ _ _ _ Hc P). }
  destruct r1 as [[]|e]; [apply IH in E; by apply (purges_trans _ _ _ db1)|].
  destruct (_ || _); [apply IH in E; by apply (purges_trans _ _ _ db1)|]. by injection E as <- <-.
Qed.

(** One collection: phase 3 leads to [mid], phase 4 from there. *)
Lemma gc_Scan_run g clock3 clock4 dry (db db' : DB) r refs :
  scan_references db = Ok refs -> gc_Scan rules g clock3 clock4 dry db = (r, db') ->
  exists mid, entombs refs clock3 db mid /\ purges refs clock4 mid db'.
Proof.
  intros Hs E. unfold gc_Scan in E.
  destruct (stableInodeReferenceSnapshot g _) as [sn|] eqn:Es.
  2:{ injection E as <- <-. exists db. split; [apply entombs_refl|apply purges_refl]. }
  apply snapshot_const in Es. rewrite Hs in Es. injection Es as ->.
  destruct (tombstone_orphans _ _ _ _ _ _ _ _ _) as [r1 mid] eqn:Et.
  apply tombstone_orphans_run in Et. exists mid. split; [done|].
  destruct r1 as [r1|e]; [|injection E as <- <-; apply purges_refl].
  destruct (stableInodeReferenceSnapshot g (fun _ => mid)) as [sn'|] eqn:Es'; [|injection E as <- <-; apply purges_refl].
  apply snapshot_const in Es'. rewrite (scan_references_ext _ _ (proj1 (proj1 Et))), Hs in Es'. injection Es' as Er.
  apply purge_tombstones_run in E. by rewrite <- Er in E.
Qed.

(** When no clock reading of phase 4 is 25 hours after those of phase 3, a
    chunk due after phase 3 was due before it. *)
Lemma due_at_start (LT : CodecLaws ChunkTombstone) refs clock3 clock4 db mid id :
  (forall id, clock4 id < clock3 id + chunkTombstoneQuarantine) ->
  entombs refs clock3 db mid -> due mid id (clock4 id) -> due db id (clock4 id).
Proof.
  intros Hc ((Ks & _) & _ & T) (raw & t & craw & c & H1 & H2 & H3 & H4 & H5 & H6).
  exists raw, t, craw, c. rewrite <- (Ks _ catalog_not_chunk).
  destruct (T _ _ H1) as [Hd|(t' & -> & Hd)]; [auto 10|].
  unfold decodeChunkTombstone in H2. rewrite unmarshalValue_marshalValue in H2. cbn [mbind result_bind] in H2.
  assert (t = t') as -> by (unfold normalizeChunkTombstone in H2; ok_inv; congruence).
  specialize (Hc id). rewrite Hd, H3 in H4. lia.
Qed.

(** ** Dry runs *)

Lemma tombstone_orphans_dry g clock reason sn ids : forall db res,
  (tombstone_orphans rules g clock true reason sn ids db res).2 = db.
Proof.
  induction ids as [|id ids IH]; intros db res; cbn [tombstone_orphans]; [done|]. destruct (contains sn id); apply IH.
Qed.

Lemma purge_tombstones_dry g clock sn rows : forall db res,
  (purge_tombstones rules g clock true sn rows db res).2 = db.
Proof.
  induction rows as [|[key value] rows IH]; intros db res; cbn [purge_tombstones]; [done|].
  destruct (scan_tombstone db key value); [apply IH|done].
Qed.

Lemma gc_Scan_dry g clock3 clock4 (db : DB) : (gc_Scan rules g clock3 clock4 true db).2 = db.
Proof.
  unfold gc_Scan. destruct (stableInodeReferenceSnapshot g _); [|done].
  destruct (tombstone_orphans _ _ _ _ _ _ _ _ _) as [[r|e] mid] eqn:Et;
    pose proof (f_equal snd Et) as Em; rewrite tombstone_orphans_dry in Em; cbn [snd] in Em; subst mid; [|done].
  destruct (stableInodeReferenceSnapshot g _); [|done]. apply purge_tombstones_dry.
Qed.

(** ** Snapshots *)

Lemma snapshot_attempts_read (at_ : nat -> DB) attempts : forall n sn,
  snapshot_attempts at_ n attempts = Ok sn -> exists m, scan_references (at_ m) = Ok (sn_references sn).
Proof.
  induction attempts as [|attempts IH]; intros n sn E; cbn [snapshot_attempts] in E; [done|].
  ok_inv. case_bool_decide; [injection E as <-; by eexists|]. by apply IH in E.
Qed.

Lemma snapshot_read g (at_ : nat -> DB) sn :
  stableInodeReferenceSnapshot g at_ = Ok sn -> exists m, scan_references (at_ m) = Ok (sn_references sn).
Proof. unfold stableInodeReferenceSnapshot. intros E. ok_inv. by apply snapshot_attempts_read in E. Qed.

(** ** Allocation *)

(** The rows of [chunks] and the inode's new row were added to [db]. *)
Record allocated (db db' : DB) (inodeID now : Z) (offsets : list Z) (chunks : list ChunkMeta) : Prop := mkAllocated {
  al_inode : exists raw inode, kv_get db (inodeKey inodeID) = Some raw /\ @unmarshalValue _ CI raw = Ok inode /\
    im_ID inode = inodeID /\
    kv_get db' (inodeKey inodeID) = Some (marshalValue (with_chunks now offsets chunks inode));
  al_free : Forall (fun c => kv_get db (chunkMetadataKey (ck_ID c)) = None /\
                             kv_get db (chunkTombstoneKey (ck_ID c)) = None) chunks;
  al_chunks : Forall (fun c => kv_get db' (chunkMetadataKey (ck_ID c)) = Some (marshalValue c)) chunks;
  al_other : forall k, k <> inodeKey inodeID -> k ∉ map (fun c => chunkMetadataKey (ck_ID c)) chunks ->
    kv_get db' k = kv_get db k
}.

Lemma validateInodeKeyIdentity_id id n :
  is_u64 id -> validateInodeKeyIdentity (inodeKey id) n = Ok tt -> n = id.
Proof.
  intros W E. unfold validateInodeKeyIdentity in E. ok_inv. apply negb_false_iff, bool_decide_eq_true in G0.
  assert (TrimPrefix (inodeKey id) prefixInode = FormatUint id) as Et by reflexivity.
  rewrite Et, ParseUint_FormatUint in G0 by done. congruence.
Qed.

Lemma apply_updates g (db db' : DB) ps ms :
  applyChunkTombstoneConditional rules g db (fenced ps ms) = Ok db' ->
  Forall (pre_holds db) ps /\ updated db db' ms.
Proof.
  unfold applyChunkTombstoneConditional. intros E. ok_inv.
  destruct (applyConditionalBatchWithHook _ _ _ _ _) as [db1|e] eqn:Ec; [|discriminate E]. ok_inv. subst db1.
  destruct (canonicalConditionalBatch rules (Some (fenced ps ms))) as [c|e] eqn:V.
  2:{ unfold applyConditionalBatchWithHook in Ec. rewrite V in Ec. discriminate Ec. }
  pose proof (conditional_exact rules (ge_hook g) (ge_fail g) db (fenced ps ms) c V eq_refl) as X. rewrite Ec in X.
  destruct X as (_ & _ & Hp & U). exact (conj Hp U).
Qed.

Lemma build_allocates g (db db' : DB) read inodeID raw inode now offsets chunks batch :
  @unmarshalValue _ CI raw = Ok inode -> im_ID inode = inodeID ->
  buildChunkAllocationConditional read (inodeKey inodeID) raw (with_chunks now offsets chunks inode) chunks = Ok batch ->
  applyChunkTombstoneConditional rules g db batch = Ok db' ->
  allocated db db' inodeID now offsets chunks.
Proof.
  intros Hu Hi Eb Ea. unfold buildChunkAllocationConditional, prepareReferenceAwareBatch in Eb. ok_inv. subst.
  apply apply_updates in Ea as [Hp [A B]]. apply Forall_cons_1 in Hp as [H1 Hp]. rewrite Forall_forall in Hp.
  constructor.
  - exists raw, inode. split; [exact H1|]. do 2 (split; [done|]).
    apply (A (mkBatchOp false _ _)). apply elem_of_app. right. by left.
  - apply Forall_forall. intros c Hc. split; apply absent_holds, Hp, list_elem_of_In, List.in_concat;
      (eexists; split; [apply List.in_map, list_elem_of_In, Hc|]); [by left|right; by left].
  - apply Forall_forall. intros c Hc. apply (A (mkBatchOp false _ _)), elem_of_app. left.
    apply list_elem_of_fmap. by exists c.
  - intros k H2 H3. apply B. rewrite map_app, map_map. intros [Hk|Hk]%elem_of_app; [done|].
    by apply list_elem_of_singleton in Hk.
Qed.

Lemma allocate_run g at_ commit_db clock build inodeID offsets attempts : forall n chunks (db' : DB),
  is_u64 inodeID ->
  allocate_attempts rules g at_ commit_db clock build inodeID offsets n attempts = Ok (chunks, db') ->
  exists m, (n <= m < n + attempts)%nat /\ build m = Ok chunks /\
    allocated (commit_db m) db' inodeID (clock m) offsets chunks.
Proof.
  induction attempts as [|attempts IH]; intros n chunks db' W E; cbn [allocate_attempts] in E; [done|].
  assert (forall r, allocate_attempts rules g at_ commit_db clock build inodeID offsets (n + 1) attempts = Ok r ->
    r = (chunks, db') -> exists m, (n <= m < n + S attempts)%nat /\ build m = Ok chunks /\
      allocated (commit_db m) db' inodeID (clock m) offsets chunks) as Again.
  { intros r Er ->. apply IH in Er as (m & Hm & R); [|done]. exists m. split; [lia|done]. }
  destruct (kv_get (at_ n) (inodeKey inodeID)) as [raw|]; [|done].
  apply bind_Ok_inv in E as (inode & Hu & E). apply bind_Ok_inv in E as ([] & Hv & E).
  destruct (build n) as [cs|e] eqn:Eb; [|destruct (bool_decide _); [by eapply Again|done]].
  apply bind_Ok_inv in E as (batch & Ebt & E).
  destruct (applyChunkTombstoneConditional rules g (commit_db n) batch) as [db1|e] eqn:Ea.
  2:{ destruct (bool_decide _); [by eapply Again|done]. }
  injection E as -> ->. exists n. split; [lia|]. split; [done|].
  eapply build_allocates; [exact Hu| |exact Ebt|exact Ea]. by apply validateInodeKeyIdentity_id.
Qed.
End Proofs.

(** * The batches of the chunk rules keep tombstones and chunks in step

    Every batch of version 3 or 4 that the checks of [ChunkRules.v] accept is
    of one of four shapes, and each keeps every durable tombstone a snapshot
    of its chunk. *)

Lemma ParseUint_u64 s n : ParseUint s = Some n -> is_u64 n.
Proof.
  assert (forall s m, 0 <= m < 2 ^ 64 -> parse_digits m s = Some n -> is_u64 n) as P.
  { clear s. induction s as [|c s IH]; intros m Hm E; cbn [parse_digits] in E.
    - injection E as <-. exact Hm.
    - destruct (_ || _) eqn:G; [done|]. destruct (Z.leb_spec (2 ^ 64) (m * 10 + (c - 48))); [done|].
      apply orb_false_iff in G as [G _]. apply Z.ltb_ge in G. apply (IH (m * 10 + (c - 48))); [lia|done]. }
  unfold ParseUint. destruct s; [done|]. apply P. lia.
Qed.

Lemma parse_inv key prefix id :
  parseChunkTombstoneKey key prefix = Some id -> key = prefix ++ FormatUint id /\ is_u64 id.
Proof.
  unfold parseChunkTombstoneKey. destruct (ParseUint _) as [n|] eqn:Ep; [|done].
  destruct (_ || _) eqn:G; [done|]. intros [= ->]. apply orb_false_iff in G as [_ G].
  apply negb_false_iff, bool_decide_eq_true in G. apply ParseUint_u64 in Ep. done.
Qed.

Section Pairs.
Context {DB : Type} `{KL : PebbleLaws DB}.
Context `{CI : Codec InodeMeta} `{CK : Codec ChunkMeta} `{CT : Codec ChunkTombstone}.
Context `{CB : Codec BackupCatalogState}.
Context (task catalog : ConditionalBatch -> mgo unit).
Notation rules := (chunk_rules task catalog).

(** What the checks allow a batch to do, by its canonical parts. *)
Inductive shape (ps : list ConditionalPrecondition) : list BatchOp -> Prop :=
  | shape_create id craw m t :
      is_u64 id ->
      mkPrecondition (chunkMetadataKey id) craw false ∈ ps ->
      bo_Key m = chunkTombstoneKey id -> bo_Delete m = false ->
      validateDurableChunkTombstonePair id (Some craw) (Some (bo_Value m)) = Ok t -> shape ps [m]
  | shape_purge id m0 m1 :
      is_u64 id ->
      bo_Key m0 = chunkMetadataKey id -> bo_Delete m0 = true ->
      bo_Key m1 = chunkTombstoneKey id -> bo_Delete m1 = true -> shape ps [m0; m1]
  | shape_update id p m :
      is_u64 id ->
      p ∈ ps -> cp_Key p = chunkTombstoneKey id -> cp_ExpectAbsent p = true ->
      bo_Key m = chunkMetadataKey id -> shape ps [m]
  | shape_allocate ms :
      Forall (fun m => ~ chunk_row (bo_Key m) \/
        exists id p, is_u64 id /\ bo_Key m = chunkMetadataKey id /\ p ∈ ps /\ cp_Key p = chunkTombstoneKey id /\
          cp_ExpectAbsent p = true) ms -> shape ps ms.

(** ** Preconditions *)

Lemma sort_in fenced cat ps : forall ep ck ts ep' ck' ts',
  sort_preconditions fenced cat ep ck ts ps = Ok (ep', ck', ts') ->
  (ck' = ck \/ ck' ∈ ps) /\ (ts' = ts \/ ts' ∈ ps).
Proof.
  induction ps as [|p ps IH]; intros ep ck ts ep' ck' ts' E; cbn [sort_preconditions] in E.
  { injection E as -> -> ->. auto. }
  repeat match type of E with (if ?b then _ else _) = _ => destruct b end; try done;
    apply IH in E as [[H1|H1] [H2|H2]]; subst; split; (by left) || (right; by left) || (right; by right).
Qed.

Lemma parsed_in p (ps : list ConditionalPrecondition) prefix id :
  p = zero_pre \/ p ∈ ps -> prefix <> [] -> parseChunkTombstoneKey (cp_Key p) prefix = Some id ->
  p ∈ ps /\ cp_Key p = prefix ++ FormatUint id /\ is_u64 id.
Proof.
  intros [->|Hp] Hn E; apply parse_inv in E as [E W]; [|done]. by destruct prefix.
Qed.

Lemma check_pair_inv create ck ts (ps : list ConditionalPrecondition) id :
  ck = zero_pre \/ ck ∈ ps -> ts = zero_pre \/ ts ∈ ps -> check_pair create ck ts = Ok id ->
  ck = mkPrecondition (chunkMetadataKey id) (cp_ExpectedValue ck) false /\ ck ∈ ps /\
  ts ∈ ps /\ cp_Key ts = chunkTombstoneKey id /\ is_u64 id.
Proof.
  intros H1 H2 E. unfold check_pair in E.
  destruct (parseChunkTombstoneKey (cp_Key ck) prefixChunk) as [n|] eqn:Ep; [|done]. ok_inv. subst n.
  apply negb_false_iff, bool_decide_eq_true in G. apply orb_false_iff in G0 as [Ga _].
  apply (parsed_in _ ps) in Ep as (I1 & K1 & W); [|done..]. apply (parsed_in _ ps) in G as (I2 & K2 & _); [|done..].
  split; [|done]. destruct ck as [k v a]. cbn in *. by rewrite K1, Ga.
Qed.

(** ** Shapes *)

Lemma check_create_pair ck ts id m :
  @check_create CK CT ck ts id m = Ok tt ->
  bo_Delete m = false /\ bo_Key m = cp_Key ts /\
  exists t, validateDurableChunkTombstonePair id (Some (cp_ExpectedValue ck)) (Some (bo_Value m)) = Ok t.
Proof.
  unfold check_create. intros E. ok_inv. apply orb_false_iff in G as [G1 G2].
  apply negb_false_iff, bool_decide_eq_true in G2.
  destruct (@unmarshalValue _ CK (cp_ExpectedValue ck)) as [chunk|] eqn:Eu; [|done].
  destruct (negb (ck_ID chunk =? id) || _) eqn:G3; [done|].
  destruct (decodeChunkTombstone (bo_Value m)) as [t|] eqn:Ed; [|done]. cbn [mbind result_bind] in E.
  destruct (_ || negb (bool_decide (ct_Replicas t = _))) eqn:G4; [done|].
  destruct (negb (bool_decide (marshalValue t = _))) eqn:G5; [done|].
  split; [done|]. split; [done|]. exists t. unfold validateDurableChunkTombstonePair.
  rewrite Eu. cbn [mbind result_bind]. rewrite G3, Ed. cbn [mbind result_bind]. by rewrite G5, G4.
Qed.

Lemma check_purge_pair ck ts id ms :
  @check_purge CK CT ck ts id ms = Ok tt ->
  exists m0 m1, ms = [m0; m1] /\ bo_Delete m0 = true /\ bo_Delete m1 = true /\
    bo_Key m0 = cp_Key ck /\ bo_Key m1 = cp_Key ts.
Proof.
  unfold check_purge. destruct ms as [|m0 [|m1 [|]]]; [done..| |done]. intros E. exists m0, m1. split; [done|].
  destruct (_ || _) eqn:G; [done|]. clear E.
  repeat match goal with G : _ || _ = false |- _ => apply orb_false_iff in G as [? ?] end.
  repeat match goal with
    | G : negb (bool_decide _) = false |- _ => apply negb_false_iff, bool_decide_eq_true in G
    | G : negb _ = false |- _ => apply negb_false_iff in G end. done.
Qed.

Lemma create_shape ck ts id m ms ps :
  ck = mkPrecondition (chunkMetadataKey id) (cp_ExpectedValue ck) false /\ ck ∈ ps /\
  ts ∈ ps /\ cp_Key ts = chunkTombstoneKey id /\ is_u64 id ->
  ms = [m] -> @check_create CK CT ck ts id m = Ok tt -> shape ps ms.
Proof.
  intros (Ec & Ic & It & Kt & W) -> (Hd & Hk & t & Hp)%check_create_pair. rewrite Ec in Ic.
  eapply shape_create; [exact W|exact Ic|congruence|done|exact Hp].
Qed.

Lemma purge_shape ck ts id ms ps :
  ck = mkPrecondition (chunkMetadataKey id) (cp_ExpectedValue ck) false /\ ck ∈ ps /\
  ts ∈ ps /\ cp_Key ts = chunkTombstoneKey id /\ is_u64 id ->
  @check_purge CK CT ck ts id ms = Ok tt -> shape ps ms.
Proof.
  intros (Ec & Ic & It & Kt & W) (m0 & m1 & -> & D0 & D1 & K0 & K1)%check_purge_pair.
  rewrite Ec in K0. eapply (shape_purge _ id); [done..| |done]. congruence.
Qed.

Lemma one_mutation (ms : list BatchOp) : (len ms =? 1) = true -> exists m, ms = [m].
Proof. intros E%Z.eqb_eq. unfold len in E. destruct ms as [|m [|]]; [done|by exists m|cbn in E; lia]. Qed.

Lemma legacy_shape b :
  validateChunkTombstoneConditionalBatch rules b = Ok tt ->
  cb_PrefixReplacements b = [] /\ shape (cb_Preconditions b) (cb_Mutations b).
Proof.
  unfold validateChunkTombstoneConditionalBatch. intros E. ok_inv. apply orb_false_iff in G as [_ G].
  apply negb_false_iff, Z.eqb_eq in G. split; [destruct (cb_PrefixReplacements b); [done|unfold len in G; cbn in G; lia]|].
  destruct (len (cb_Mutations b) =? 1) eqn:L1.
  - apply one_mutation in L1 as [m Em]. cbn in E. unfold validateLegacyChunkTombstoneCreateBatch,
      validateLegacyChunkTombstonePreconditions in E. rewrite Em in *.
    apply bind_Ok_inv in E as ([[ck ts] id] & E1 & E). apply bind_Ok_inv in E1 as ([[ep ck'] ts'] & Es & E1).
    apply bind_Ok_inv in E1 as (id' & Ep & E1). injection E1 as -> -> ->.
    apply sort_in in Es as [? ?]. eapply check_pair_inv in Ep; [|done..]. by eapply create_shape.
  - destruct (len (cb_Mutations b) =? 2); [|done]. cbn in E. unfold validateLegacyChunkTombstonePurgeBatch,
      validateLegacyChunkTombstonePreconditions in E.
    apply bind_Ok_inv in E as ([[ck ts] id] & E1 & E). apply bind_Ok_inv in E1 as ([[ep ck'] ts'] & Es & E1).
    apply bind_Ok_inv in E1 as (id' & Ep & E1). injection E1 as -> -> ->.
    apply sort_in in Es as [? ?]. eapply check_pair_inv in Ep; [|done..]. by eapply purge_shape.
Qed.

(** ** Updates and allocations *)

Lemma update_shape b m :
  cb_Mutations b = [m] -> @validateChunkMetadataUpdateBatch CK b = Ok tt ->
  shape (cb_Preconditions b) (cb_Mutations b).
Proof.
  intros Em E. unfold validateChunkMetadataUpdateBatch, update_preconditions in E. rewrite Em in *.
  apply bind_Ok_inv in E as ([[ep ck] ts] & Es & E). apply sort_in in Es as [H1 H2].
  destruct (parseChunkTombstoneKey (cp_Key ck) prefixChunk) as [id|] eqn:Ep; [|done]. ok_inv.
  apply orb_false_iff in G0 as [G0 G2]. apply negb_false_iff, bool_decide_eq_true in G0. apply negb_false_iff in G2.
  apply orb_false_iff in G1 as [_ G1]. apply negb_false_iff, bool_decide_eq_true in G1.
  apply (parsed_in _ (cb_Preconditions b)) in Ep as (I1 & K1 & W); [|done..].
  apply (parsed_in _ (cb_Preconditions b)) in G0 as (I2 & K2 & _); [|done..].
  eapply (shape_update _ id); [done..|]. by rewrite G1.
Qed.

Lemma valid_inode_not_chunk key : validInodeMetadataKey key = true -> ~ chunk_row key.
Proof.
  unfold validInodeMetadataKey. destruct (TrimPrefix key prefixInode); [done|].
  destruct (ParseUint _) as [id|]; [|done]. intros <-%bool_decide_eq_true.
  intros [i [E|E]]; by apply apart_app in E.
Qed.

Lemma epoch_not_chunk : ~ chunk_row keyInodeReferenceEpoch.
Proof. intros [id [E|E]]; discriminate E. Qed.

(** A precondition that a tombstone is absent. *)
Definition guarded (ps : list ConditionalPrecondition) (id : Z) : Prop :=
  is_u64 id /\ exists p, p ∈ ps /\ cp_Key p = chunkTombstoneKey id /\ cp_ExpectAbsent p = true.

Lemma guarded_cons p ps id : guarded ps id -> guarded (p :: ps) id.
Proof. intros (W & q & Hq & H1). split; [done|]. exists q. split; [by right|done]. Qed.

Lemma scan_alloc_guards ps : forall st st',
  scan_alloc st ps = Ok st' ->
  (forall id, id ∈ as_tombstones st' -> id ∈ as_tombstones st \/ guarded ps id) /\
  (forall ip, as_inode st' = Some ip -> as_inode st = Some ip \/ validInodeMetadataKey (cp_Key ip) = true).
Proof.
  induction ps as [|p ps IH]; intros st st' E; cbn [scan_alloc] in E; [injection E as ->; auto|].
  destruct (validInodeMetadataKey (cp_Key p)) eqn:Ev.
  { ok_inv. apply IH in E as [A B]. cbn in A, B. split.
    - intros id Hid. destruct (A id Hid); [by left|right; by apply guarded_cons].
    - intros ip Hip. destruct (B ip Hip) as [[= <-]|]; by right. }
  destruct (bool_decide (cp_Key p = keyInodeReferenceEpoch)).
  { ok_inv. apply IH in E as [A B]. cbn in A, B. split; [|done].
    intros id Hid. destruct (A id Hid); [by left|right; by apply guarded_cons]. }
  destruct (parseChunkTombstoneKey (cp_Key p) prefixChunk).
  { ok_inv. apply IH in E as [A B]. cbn in A, B. split; [|done].
    intros id Hid. destruct (A id Hid); [by left|right; by apply guarded_cons]. }
  destruct (HasPrefix _ _); [|done].
  destruct (parseChunkTombstoneKey (cp_Key p) prefixChunkTombstone) as [n|] eqn:Ep; [|done].
  ok_inv. apply IH in E as [A B]. cbn in A, B. split; [|done]. intros id Hid.
  destruct (A id Hid) as [[->%elem_of_singleton|]%elem_of_union|]; [right|by left|right; by apply guarded_cons].
  apply parse_inv in Ep as [Ep W]. split; [done|]. exists p. split; [by left|]. split; [done|].
  by apply negb_false_iff.
Qed.

Lemma scan_mutations_keys inode_key chunks ms : forall st st',
  @scan_mutations CI CK inode_key chunks st ms = Ok st' ->
  Forall (fun m => bo_Key m = inode_key \/ bo_Key m = keyInodeReferenceEpoch \/
    exists id, id ∈ chunks /\ bo_Key m = chunkMetadataKey id) ms.
Proof.
  induction ms as [|m ms IH]; intros st st' E; [constructor|]. cbn [scan_mutations] in E. ok_inv.
  destruct (parseChunkTombstoneKey (bo_Key m) prefixChunk) as [id|] eqn:Ep.
  { ok_inv. constructor; [|by eapply IH]. right. right. exists id. apply parse_inv in Ep as [Ep _].
    split; [|done]. by apply negb_false_iff, bool_decide_eq_true in G0. }
  case_bool_decide as Ei.
  { destruct (am_next st); [done|]. destruct (unmarshalValue (bo_Value m)); [|done]. ok_inv.
    constructor; [by left|by eapply IH]. }
  case_bool_decide as Ee; [|done]. ok_inv. constructor; [auto|by eapply IH].
Qed.

Lemma allocate_shape b :
  @validateChunkAllocationBatch CI CK b = Ok tt -> shape (cb_Preconditions b) (cb_Mutations b).
Proof.
  unfold validateChunkAllocationBatch. intros E. ok_inv. apply scan_alloc_guards in E0 as [A B].
  destruct (as_inode r) as [ip|]; [|done]. ok_inv.
  destruct (B ip eq_refl) as [|Hv]; [done|].
  apply negb_false_iff, bool_decide_eq_true in G1.
  destruct (@unmarshalValue _ CI (cp_ExpectedValue ip)); [|done]. ok_inv.
  apply scan_mutations_keys in E1. apply shape_allocate. eapply Forall_impl; [exact E1|]. cbn beta.
  intros m [->|[->|(id & Hid & Hk)]].
  - left. by apply valid_inode_not_chunk.
  - left. apply epoch_not_chunk.
  - right. destruct (A id (G1 _ Hid)) as [[]%not_elem_of_empty|(W & p & Hp & H1 & H2)]. by exists id, p.
Qed.

Lemma fenced_shape b :
  validateChunkTombstoneFencedBatch rules b = Ok tt ->
  cb_PrefixReplacements b = [] /\ shape (cb_Preconditions b) (cb_Mutations b).
Proof.
  unfold validateChunkTombstoneFencedBatch. intros E. ok_inv. apply orb_false_iff in G as [_ G].
  apply negb_false_iff, Z.eqb_eq in G. split; [destruct (cb_PrefixReplacements b); [done|unfold len in G; cbn in G; lia]|].
  destruct (hasInodeAllocationPrecondition _); [by apply allocate_shape|].
  destruct (len (cb_Mutations b) =? 1) eqn:L1.
  - apply one_mutation in L1 as [m Em]. destruct (_ =? 2); [by eapply update_shape|]. destruct (_ =? 3); [|done].
    cbn in E. unfold validateChunkTombstoneFencedCreateBatch, validateChunkTombstonePreconditions in E.
    rewrite Em in *. apply bind_Ok_inv in E as ([[[ep0 ck] ts] id] & E1 & E).
    apply bind_Ok_inv in E1 as ([[ep ck'] ts'] & Es & E1). apply bind_Ok_inv in E1 as (id' & Ep & E1).
    injection E1 as -> -> -> ->. apply bind_Ok_inv in E as (_ & _ & E).
    apply sort_in in Es as [? ?]. eapply check_pair_inv in Ep; [|done..]. by eapply create_shape.
  - destruct (len (cb_Mutations b) =? 2); [|done]. ok_inv. cbn in E.
    unfold validateChunkTombstoneFencedPurgeBatch, validateChunkTombstonePreconditions in E.
    apply bind_Ok_inv in E as ([[[ep0 ck] ts] id] & E1 & E).
    apply bind_Ok_inv in E1 as ([[ep ck'] ts'] & Es & E1). apply bind_Ok_inv in E1 as (id' & Ep & E1).
    injection E1 as -> -> -> ->. apply bind_Ok_inv in E as (_ & _ & E).
    destruct (conditionalPreconditionForKey _ _); [|done]. ok_inv.
    apply sort_in in Es as [? ?]. eapply check_pair_inv in Ep; [|done..]. by eapply purge_shape.
Qed.

(** ** The invariant *)

(** Every durable tombstone is the canonical snapshot of its chunk's row. *)
Definition paired (db : DB) : Prop :=
  forall id traw, is_u64 id -> kv_get db (chunkTombstoneKey id) = Some traw ->
    exists t, validateDurableChunkTombstonePair id (kv_get db (chunkMetadataKey id)) (Some traw) = Ok t.

(** A chunk's two rows are as before, or it has no tombstone after. *)
Lemma paired_step db db' id :
  paired db -> is_u64 id ->
  kv_get db' (chunkTombstoneKey id) = None \/
  kv_get db' (chunkTombstoneKey id) = kv_get db (chunkTombstoneKey id) /\
  kv_get db' (chunkMetadataKey id) = kv_get db (chunkMetadataKey id) ->
  forall traw, kv_get db' (chunkTombstoneKey id) = Some traw ->
    exists t, validateDurableChunkTombstonePair id (kv_get db' (chunkMetadataKey id)) (Some traw) = Ok t.
Proof. intros P W [E|[E1 E2]] traw Ht; [congruence|]. rewrite E2. apply P; congruence. Qed.

Lemma updated_one db db' m k : updated db db' [m] -> k <> bo_Key m -> kv_get db' k = kv_get db k.
Proof. intros [_ B] Hk. apply B. by intros ?%list_elem_of_singleton. Qed.

Lemma pre_absent ps db p k :
  Forall (pre_holds db) ps -> p ∈ ps -> cp_Key p = k -> cp_ExpectAbsent p = true -> kv_get db k = None.
Proof. intros F Hp <- Ha. rewrite Forall_forall in F. specialize (F p Hp). unfold pre_holds in F. by rewrite Ha in F. Qed.

(** An allocation leaves the rows of a chunk alone, or the chunk has no tombstone. *)
Lemma allocate_rows ps ms db db' i :
  Forall (fun m => ~ chunk_row (bo_Key m) \/
    exists id p, is_u64 id /\ bo_Key m = chunkMetadataKey id /\ p ∈ ps /\ cp_Key p = chunkTombstoneKey id /\
      cp_ExpectAbsent p = true) ms ->
  Forall (pre_holds db) ps -> updated db db' ms -> is_u64 i ->
  kv_get db' (chunkTombstoneKey i) = None \/
  kv_get db' (chunkTombstoneKey i) = kv_get db (chunkTombstoneKey i) /\
  kv_get db' (chunkMetadataKey i) = kv_get db (chunkMetadataKey i).
Proof.
  intros Hall F [A B] Wi. rewrite Forall_forall in Hall.
  assert (kv_get db' (chunkTombstoneKey i) = kv_get db (chunkTombstoneKey i)) as Ht.
  { apply B. intros (m & E & Hm)%list_elem_of_fmap.
    destruct (Hall m Hm) as [Hn|(j & p & _ & Ek & _)]; [apply Hn; exists i; by right|].
    rewrite Ek in E. symmetry in E. by apply chunk_tombstone_apart in E. }
  destruct (decide (chunkMetadataKey i ∈ map bo_Key ms)) as [(m & E & Hm)%list_elem_of_fmap|Hn];
    [|right; split; [exact Ht|by apply B]].
  destruct (Hall m Hm) as [Hn|(j & p & Wj & Ek & Ip & Kp & Ha)]; [destruct Hn; exists i; by left|].
  rewrite Ek in E. apply chunkMetadataKey_inj in E as ->; [|done..]. left. rewrite Ht. by apply (pre_absent ps _ p).
Qed.

Lemma shape_keeps ps ms db db' :
  shape ps ms -> Forall (pre_holds db) ps -> updated db db' ms -> paired db -> paired db'.
Proof.
  intros S F U P i traw Wi. destruct S as [id craw m t W Ip Kt Hd Hv|id m0 m1 W K0 D0 K1 D1|id p m W Ip Kp Ha Km|ms Hall].
  - assert (forall j, kv_get db' (chunkMetadataKey j) = kv_get db (chunkMetadataKey j)) as Hc.
    { intros j. apply (updated_one _ _ _ _ U). rewrite Kt. apply chunk_tombstone_apart. }
    destruct (decide (i = id)) as [->|Ne].
    + intros Ht. rewrite Hc. rewrite Forall_forall in F. specialize (F _ Ip). unfold pre_holds in F.
      cbn [cp_ExpectAbsent cp_Key cp_ExpectedValue] in F.
      rewrite F. destruct U as [A _]. rewrite <- Kt, (A m) in Ht by (by left).
      unfold op_value in Ht. rewrite Hd in Ht. injection Ht as <-. by exists t.
    + apply (paired_step db); [done..|]. right. split; [|done]. apply (updated_one _ _ _ _ U). rewrite Kt.
      intros E. by apply chunkTombstoneKey_inj in E.
  - apply (paired_step db); [done..|]. destruct U as [A B]. destruct (decide (i = id)) as [->|Ne].
    + left. rewrite <- K1, (A m1) by (right; by left). unfold op_value. by rewrite D1.
    + right. split; apply B; cbn [map]; rewrite K0, K1; intros [E|[E|[]%not_elem_of_nil]%elem_of_cons]%elem_of_cons.
      * symmetry in E. by apply chunk_tombstone_apart in E.
      * by apply chunkTombstoneKey_inj in E.
      * by apply chunkMetadataKey_inj in E.
      * by apply chunk_tombstone_apart in E.
  - apply (paired_step db); [done..|].
    assert (kv_get db' (chunkTombstoneKey i) = kv_get db (chunkTombstoneKey i)) as Ht.
    { apply (updated_one _ _ _ _ U). rewrite Km. intros E. symmetry in E. by apply chunk_tombstone_apart in E. }
    destruct (decide (i = id)) as [->|Ne].
    + left. rewrite Ht. by apply (pre_absent ps _ p).
    + right. split; [done|]. apply (updated_one _ _ _ _ U). rewrite Km. intros E. by apply chunkMetadataKey_inj in E.
  - apply (paired_step db); [done..|]. exact (allocate_rows _ _ _ _ _ Hall F U Wi).
Qed.

Lemma chunk_batch_shape b c :
  cb_Version b = chunkTombstoneConditionalBatchVersion \/ cb_Version b = chunkTombstoneFencedBatchVersion ->
  canonicalConditionalBatch rules (Some b) = Ok c ->
  cb_PrefixReplacements c = [] /\ shape (cb_Preconditions c) (cb_Mutations c).
Proof.
  intros Hv V. apply canonical_inv in V as (_ & _ & Ec & V). unfold validateConditionalBatch in V. ok_inv.
  assert (cb_Version c = cb_Version b) as Hc by by rewrite Ec. rewrite Hc in V.
  destruct Hv as [Hv|Hv]; rewrite Hv in V; [by apply legacy_shape|by apply fenced_shape].
Qed.
End Pairs.
