(* ===== verification/BackupProofs.v ===== *)
(** * What the backup calls do to their rows *)

From stdpp Require Import base list sorting numbers strings gmap.
From Stdlib Require Import ZArith Lia.
From S2P Require Import Prelude Bytes Pebble MetaKeys MetaScan MetaTypes RaftLog MetaFSMProofs.
From S2P Require Import MetaFSM Namespace Extents ChunkRules ChunkGC Backups MetaFSMProofs NamespaceSpec ExtentProofs ChunkProofs.

Local Open Scope Z_scope.
Local Open Scope go_scope.

Lemma same_eq a b : same a b = true <-> a = b.
Proof. apply bool_decide_eq_true. Qed.

Lemma not_same a b : negb (same a b) = false -> a = b.
Proof. intros E%negb_false_iff. by apply same_eq. Qed.

(** ** Tasks *)

(** The position of a state in the workflow. *)
Definition rank (state : list Z) : nat :=
  if same state BackupTaskCreating then 0
  else if same state BackupTaskUploading then 1
  else if same state BackupTaskVerifying then 2
  else 3.

(** [b] may follow [a]: the same run, with progress and time not going back. *)
Record follows (a b : BackupTask) : Prop := mkFollows {
  fo_ID : bt_ID b = bt_ID a;
  fo_cluster : bt_SourceClusterID b = bt_SourceClusterID a;
  fo_owner : bt_OwnerNodeID b = bt_OwnerNodeID a;
  fo_term : bt_LeadershipTerm b = bt_LeadershipTerm a;
  fo_index : bt_AppliedIndex b = bt_AppliedIndex a;
  fo_started : bt_StartedAt b = bt_StartedAt a;
  fo_bytes : bt_BytesUploaded a <= bt_BytesUploaded b;
  fo_files : bt_FilesUploaded a <= bt_FilesUploaded b;
  fo_updated : bt_UpdatedAt a <= bt_UpdatedAt b;
  fo_state : (rank (bt_State a) <= rank (bt_State b) <= S (rank (bt_State a)))%nat \/ bt_State b = BackupTaskFailed
}.

Lemma next_rank a b : next_state a = b -> b <> [] -> (rank a <= rank b <= S (rank a))%nat.
Proof.
  unfold next_state, rank. intros <- Hne. destruct (same a BackupTaskCreating); [vm_compute; lia|].
  destruct (same a BackupTaskUploading); [vm_compute; lia|].
  destruct (same a BackupTaskVerifying); [vm_compute; lia|done].
Qed.

Lemma update_follows a b :
  bt_ID b = bt_ID a -> bt_State b <> [] -> validateBackupTaskUpdate a b = Ok tt -> follows a b.
Proof.
  intros Hid Hne E. unfold validateBackupTaskUpdate in E. ok_inv.
  repeat match goal with G : _ || _ = false |- _ => apply orb_false_iff in G as [? ?] end.
  repeat match goal with
    | G : negb (same _ _) = false |- _ => apply not_same in G
    | G : negb (_ =? _) = false |- _ => apply negb_false_iff, Z.eqb_eq in G
    | G : (_ <? _) = false |- _ => apply Z.ltb_ge in G
    end.
  constructor; try congruence; try lia.
  destruct (same (bt_State b) (bt_State a)) eqn:E1.
  { apply same_eq in E1. left. rewrite E1. lia. }
  destruct (same (bt_State b) BackupTaskFailed) eqn:E2; [right; by apply same_eq|].
  ok_inv. apply not_same in G. left. by apply next_rank.
Qed.

(** A normalised task is a fixed point when its start is not before year 1. *)
Lemma normalize_fields t c : normalizeBackupTask (Some t) = Ok c ->
  validateBackupTaskFields c = Ok tt /\ bt_ID c = bt_ID t /\
  validateCatalogBackupID (bt_ID c) = Ok tt /\ validateOpaqueID (bt_SourceClusterID c) = Ok tt /\
  validateOpaqueID (bt_OwnerNodeID c) = Ok tt.
Proof.
  intros E. cbn [normalizeBackupTask] in E. ok_inv. subst c.
  repeat match goal with u : unit |- _ => destruct u end.
  destruct (bt_UpdatedAt t =? 0); done.
Qed.

Lemma fields_state t : validateBackupTaskFields t = Ok tt -> bt_State t <> [] /\ bt_StartedAt t <= bt_UpdatedAt t.
Proof.
  unfold validateBackupTaskFields. intros E. ok_inv.
  match goal with C : check_state t = Ok _ |- _ => rename C into Hc end.
  match goal with G : (bt_UpdatedAt t <? bt_StartedAt t) = false |- _ => apply Z.ltb_ge in G end.
  split; [|done]. intros Hs. unfold check_state in Hc. by rewrite Hs in Hc.
Qed.

Lemma normalize_stored t c :
  normalizeBackupTask (Some t) = Ok c -> 0 < bt_StartedAt c -> validateStoredBackupTask c = Ok c.
Proof.
  intros E Hs. apply normalize_fields in E as (Hf & _ & H1 & H2 & H3). pose proof (fields_state _ Hf) as [_ Hu].
  unfold validateStoredBackupTask, normalizeBackupTask. destruct (Z.eqb_spec (bt_UpdatedAt c) 0) as [E0|_]; [lia|].
  rewrite H1, H2, H3. cbn [mbind result_bind]. by rewrite Hf.
Qed.

(** ** Newest first *)

Definition newest (p q : Z * list Z) : Prop := q.1 < p.1 \/ p.1 = q.1 /\ bytes_le p.2 q.2.

#[export] Instance newest_total : Total newest.
Proof.
  intros [t i] [u j]. unfold newest. cbn. destruct (Z.lt_total t u) as [|[->|]]; [by right; left| |by left; left].
  destruct (total bytes_le i j); [left|right]; by right.
Qed.

#[export] Instance newest_trans : Transitive newest.
Proof.
  intros [t i] [u j] [v k] [H1|[H1 H2]] [H3|[H3 H4]]; cbn in *; [left; cbn; lia..|right; cbn].
  split; [lia|]. by etransitivity.
Qed.

Lemma newest_anti p q : newest p q -> newest q p -> p = q.
Proof.
  destruct p as [t i], q as [u j]. intros [H1|[H1 H2]] [H3|[H3 H4]]; cbn in *; try lia. subst. f_equal.
  unfold bytes_le in *. destruct (bytes_ltb_total i j) as [H|[H|H]]; unfold bytes_lt in H; congruence.
Qed.

Definition backup_key (b : CommittedBackup) : Z * list Z := (bk_CreatedAt b, bk_ID b).
Definition task_key (t : BackupTask) : Z * list Z := (bt_StartedAt t, bt_ID t).

#[export] Instance backup_le_total : Total backup_le.
Proof. intros a b. apply (newest_total (backup_key a) (backup_key b)). Qed.
#[export] Instance backup_le_trans : Transitive backup_le.
Proof. intros a b c. apply (newest_trans (backup_key a) (backup_key b) (backup_key c)). Qed.

Lemma task_le_newest a b : task_le a b <-> newest (task_key a) (task_key b).
Proof.
  unfold task_le, backupTaskNewer, newest, bytes_le. cbn. destruct (Z.eqb_spec (bt_StartedAt b) (bt_StartedAt a)) as [->|Hne].
  - split; [by right|]. intros [?|[_ ?]]; [lia|done].
  - rewrite Z.ltb_ge. split; [left; lia|]. intros [?|[? _]]; lia.
Qed.

#[export] Instance task_le_total : Total task_le.
Proof. intros a b. rewrite !task_le_newest. apply newest_total. Qed.
#[export] Instance task_le_trans : Transitive task_le.
Proof. intros a b c. rewrite !task_le_newest. apply newest_trans. Qed.

Lemma NoDup_map_inj {A B} (f : A -> B) l x y : NoDup (map f l) -> x ∈ l -> y ∈ l -> f x = f y -> x = y.
Proof.
  induction l as [|a l IH]; cbn [map]; [by intros _ ?%not_elem_of_nil|].
  rewrite NoDup_cons. intros [Ha N] [->|Hx]%elem_of_cons [->|Hy]%elem_of_cons E; [done| | |by apply IH].
  - destruct Ha. rewrite E. by apply list_elem_of_fmap_2.
  - destruct Ha. rewrite <- E. by apply list_elem_of_fmap_2.
Qed.

(** ** The newest tasks *)

Lemma newer_le a b : backupTaskNewer a b = true -> task_le a b.
Proof.
  intros E. destruct (total task_le a b) as [|H1]; [done|]. unfold task_le in H1. congruence.
Qed.

Definition older_first (h : list BackupTask) : Prop := StronglySorted (fun a b => task_le b a) h.

Lemma heap_Push_perm t h : heap_Push t h ≡ₚ t :: h.
Proof.
  induction h as [|x h IH]; cbn [heap_Push]; [done|]. destruct (backupTaskNewer x t); [done|].
  rewrite IH. apply Permutation_swap.
Qed.

Lemma heap_Push_sorted t h : older_first h -> older_first (heap_Push t h).
Proof.
  intros S. induction S as [|x h S IH F]; cbn [heap_Push]; [repeat constructor|].
  destruct (backupTaskNewer x t) eqn:E.
  - constructor; [by constructor|]. apply newer_le in E. constructor; [done|].
    eapply Forall_impl; [exact F|]. cbn beta. intros y Hy. by transitivity x.
  - constructor; [done|]. rewrite heap_Push_perm. constructor; [exact E|done].
Qed.

(** The heap [h] holds the newest tasks of [ts], the others are in [rest]. *)
Record newest_of (limit : Z) (ts h rest : list BackupTask) : Prop := mkNewestOf {
  no_sorted : older_first h;
  no_perm : ts ≡ₚ h ++ rest;
  no_full : rest = [] /\ len h <= limit \/ len h = limit;
  no_newer : forall x d, x ∈ h -> d ∈ rest -> task_le x d
}.

Lemma topk_Add_newest limit ts h rest t :
  0 < limit -> newest_of limit ts h rest -> exists rest', newest_of limit (ts ++ [t]) (topk_Add limit t h) rest'.
Proof.
  intros Hl [S P Fu Ne]. unfold topk_Add. destruct (Z.leb_spec limit 0); [lia|].
  assert (ts ++ [t] ≡ₚ t :: h ++ rest) as Pt by (rewrite P, Permutation_app_comm; done).
  destruct (Z.ltb_spec (len h) limit) as [Hlt|Hge].
  { destruct Fu as [[-> _]|]; [|lia]. exists []. constructor; [by apply heap_Push_sorted| |left; split; [done|]|].
    - by rewrite heap_Push_perm.
    - rewrite heap_Push_perm. cbn [length]. lia.
    - by intros x d _ ?%not_elem_of_nil. }
  assert (len h = limit) as Hlen by (destruct Fu as [[_ ?]|]; lia).
  destruct h as [|root h]; [cbn in Hlen; lia|].
  pose proof (StronglySorted_inv S) as [S' F]. rewrite Forall_forall in F.
  destruct (backupTaskNewer t root) eqn:E.
  - exists (root :: rest). apply newer_le in E. constructor; [by apply heap_Push_sorted| |right|].
    + rewrite Pt, heap_Push_perm. cbn [app]. by rewrite <- Permutation_middle.
    + rewrite heap_Push_perm. cbn [length] in *. lia.
    + intros x d Hx Hd. rewrite heap_Push_perm in Hx.
      assert (task_le x root) as Hr by (apply elem_of_cons in Hx as [->|Hx]; [done|by apply F]).
      apply elem_of_cons in Hd as [->|Hd]; [done|]. transitivity root; [done|]. apply Ne; [by left|done].
  - exists (t :: rest). constructor; [done| |by right|].
    + rewrite Pt. apply Permutation_middle.
    + intros x d Hx [->|Hd]%elem_of_cons; [|by apply Ne].
      apply elem_of_cons in Hx as [->|Hx]; [exact E|]. transitivity root; [by apply F|exact E].
Qed.

(** The sorted heap is the front of the sorted list of all tasks. *)
Lemma newest_of_sorted limit ts h rest :
  0 <= limit -> NoDup (map bt_ID ts) -> newest_of limit ts h rest ->
  topk_Sorted h = take (Z.to_nat limit) (merge_sort task_le ts).
Proof.
  intros Hl N [S P Fu Ne]. unfold topk_Sorted.
  assert (merge_sort task_le ts = merge_sort task_le h ++ merge_sort task_le rest) as ->.
  { apply (StronglySorted_unique_strong task_le).
    - intros x y Hx Hy H1 H2. rewrite merge_sort_Permutation in Hx. rewrite !merge_sort_Permutation, <- P in Hy.
      apply task_le_newest in H1, H2. assert (task_key x = task_key y) as [= _ E] by by apply newest_anti.
      by apply (NoDup_map_inj bt_ID ts).
    - apply StronglySorted_merge_sort; apply _.
    - apply StronglySorted_app_2; [|apply StronglySorted_merge_sort; apply _..].
      intros x y Hx Hy. rewrite merge_sort_Permutation in Hx, Hy. by apply Ne.
    - by rewrite !merge_sort_Permutation. }
  destruct Fu as [[-> Hle]|He].
  - rewrite app_nil_r, take_ge; [done|]. rewrite (merge_sort_Permutation task_le h). lia.
  - rewrite take_app_length'; [done|]. rewrite (merge_sort_Permutation task_le h). lia.
Qed.

(** ** The normal form of a catalogue *)

(** What [normalizeBackupCatalog] accepts. *)
Definition entries_ok (l : list CommittedBackup) : Prop :=
  Forall (fun b => normalizeCommittedBackup b = Ok b) l /\ NoDup (map bk_ID l).

Lemma normalizeCommittedBackup_same b b' : normalizeCommittedBackup b = Ok b' -> b' = b.
Proof. unfold normalizeCommittedBackup. intros E. by ok_inv. Qed.

Lemma normalize_backups_spec l : forall seen,
  normalize_backups seen l = Ok tt <->
  Forall (fun b => normalizeCommittedBackup b = Ok b) l /\ NoDup (map bk_ID l) /\
  Forall (fun b => bk_ID b ∉ seen) l.
Proof.
  induction l as [|b l IH]; intros seen; cbn [normalize_backups map]; [split; [repeat constructor|done]|].
  rewrite NoDup_cons, !Forall_cons. split.
  - intros E. apply bind_Ok_inv in E as (b' & Eb & E). pose proof (normalizeCommittedBackup_same _ _ Eb) as ->.
    ok_inv. apply bool_decide_eq_false in G. apply IH in E as (F & N & S). split; [done|].
    assert (bk_ID b ∉ map bk_ID l) as Hb.
    { intros (c & Ec & Hc)%list_elem_of_fmap. rewrite Forall_forall in S. specialize (S c Hc). rewrite <- Ec in S.
      apply S. by left. }
    split; [done|]. split; [done|]. eapply Forall_impl; [exact S|]. cbn beta.
    intros c Hc Hin. apply Hc. by right.
  - intros ([Eb F] & [Hb N] & Hs & S). rewrite Eb, bind_Ok, bool_decide_eq_false_2 by done. apply IH.
    split; [done|]. split; [done|]. rewrite Forall_forall in S |- *. intros c Hc Hin.
    apply elem_of_cons in Hin as [E|Hin]; [|by apply (S c)]. apply Hb. rewrite <- E. by apply list_elem_of_fmap_2.
Qed.

Lemma entries_ok_perm l l' : l ≡ₚ l' -> entries_ok l -> entries_ok l'.
Proof. intros P [F N]. split; [by rewrite <- P|by rewrite <- P]. Qed.

Lemma normalizeBackupCatalog_inv l t c :
  normalizeBackupCatalog l t = Ok c ->
  t <> 0 /\ c = mkBackupCatalogState (merge_sort backup_le l) t /\ entries_ok (bc_Backups c).
Proof.
  unfold normalizeBackupCatalog. intros E. ok_inv. destruct r. apply normalize_backups_spec in E0 as (F & N & _).
  split; [by apply Z.eqb_neq|]. split; [done|]. subst c. cbn [bc_Backups].
  apply (entries_ok_perm l); [|done]. symmetry. apply merge_sort_Permutation.
Qed.

Lemma normalizeBackupCatalog_fixed l t c :
  normalizeBackupCatalog l t = Ok c -> normalizeBackupCatalog (bc_Backups c) (bc_ReconciledAt c) = Ok c.
Proof.
  intros (Ht & Ec & Hok)%normalizeBackupCatalog_inv. unfold normalizeBackupCatalog.
  assert (bc_ReconciledAt c = t) as -> by by rewrite Ec. destruct (Z.eqb_spec t 0) as [|_]; [done|].
  destruct Hok as [F N]. rewrite (proj2 (normalize_backups_spec _ [])), bind_Ok.
  2:{ split; [done|]. split; [done|]. apply Forall_forall. intros b _. apply not_elem_of_nil. }
  f_equal. rewrite Ec at 2. f_equal. transitivity (bc_Backups c); [|by rewrite Ec].
  apply (StronglySorted_unique_strong backup_le).
  - intros x y Hx Hy H1 H2. rewrite merge_sort_Permutation in Hx.
    assert (backup_key x = backup_key y) as [= _ E] by by apply newest_anti. by apply (NoDup_map_inj bk_ID (bc_Backups c)).
  - apply StronglySorted_merge_sort; apply _.
  - rewrite Ec. apply StronglySorted_merge_sort; apply _.
  - apply merge_sort_Permutation.
Qed.

(** ** Commits *)

Section Proofs.
Context {DB : Type} `{KL : PebbleLaws DB}.
Context `{CI : Codec InodeMeta} `{CV : Codec InodeWithVersion}.
Context `{CB : Codec BackupCatalogState} `{CC : Codec CommittedBackup} `{CA : Codec BackupTask}.
Context `{CM : Codec RestorePendingMarker} `{CS : Codec (list Z)}.
Context (rules : version_rules).

Lemma conditional_entry hook fail term (db : DB) b :
  apply_entry rules hook fail term db (mkRaftLogEntry OpConditionalBatch [] [] [] (Some b)) =
  if negb (cb_ExpectedRaftTerm b =? 0) && negb (cb_ExpectedRaftTerm b =? term) then Err ErrRaftConditionalConflict
  else applyConditionalBatchWithHook rules hook fail db (Some b).
Proof. reflexivity. Qed.

Lemma apply_backup_inv e (db db' : DB) b :
  applyBackupMetadataConditional rules e db b = Ok db' ->
  applyConditionalBatchWithHook rules (ge_hook (be_gc e)) (ge_fail (be_gc e)) db (Some b) = Ok db'.
Proof.
  unfold applyBackupMetadataConditional. intros E. ok_inv. destruct (be_raft e) as [rf|].
  - destruct (negb (rf_still_leader rf)); [done|]. rewrite conditional_entry in E.
    destruct (negb (cb_ExpectedRaftTerm b =? 0) && _); [done|].
    destruct (applyConditionalBatchWithHook _ _ _ _ _); [apply Ok_inj in E; by subst|done].
  - destruct (negb (cb_ExpectedRaftTerm b =? 0)); [done|].
    destruct (applyConditionalBatchWithHook _ _ _ _ _); [apply Ok_inj in E; by subst|done].
Qed.

Lemma apply_backup_updates e (db db' : DB) v t ps ms :
  applyBackupMetadataConditional rules e db (mkConditionalBatch v t ps ms []) = Ok db' ->
  Forall (pre_holds db) ps /\ updated db db' ms.
Proof.
  intros E%apply_backup_inv.
  destruct (canonicalConditionalBatch rules (Some (mkConditionalBatch v t ps ms []))) as [c|x] eqn:V.
  2:{ unfold applyConditionalBatchWithHook in E. rewrite V in E. discriminate E. }
  pose proof (conditional_exact rules (ge_hook (be_gc e)) (ge_fail (be_gc e)) db _ c V eq_refl) as X.
  rewrite E in X. destruct X as (_ & _ & Hp & U). exact (conj Hp U).
Qed.

(** One row was written, guarded by its old value. *)
Lemma one_row e (db db' : DB) v t p m :
  applyBackupMetadataConditional rules e db (mkConditionalBatch v t [p] [m] []) = Ok db' ->
  pre_holds db p /\ kv_get db' (bo_Key m) = op_value m /\ forall k, k <> bo_Key m -> kv_get db' k = kv_get db k.
Proof.
  intros [Hp [A B]]%apply_backup_updates. apply Forall_cons_1 in Hp as [Hp _]. split; [done|].
  split; [apply A; by left|]. intros k Hk. apply B. by intros ?%list_elem_of_singleton.
Qed.

(** ** Storing a task *)

Definition decode_task (raw : list Z) : mgo BackupTask :=
  let! t := @unmarshalValue _ CA raw in validateStoredBackupTask t.

(** Task [c] was stored in [db], giving [db']. *)
Record stored (db db' : DB) (c : BackupTask) : Prop := mkStored {
  so_valid : exists t, normalizeBackupTask (Some t) = Ok c;
  so_before : kv_get db (taskKey (bt_ID c)) = None /\ bt_State c = BackupTaskCreating \/
    exists raw t, kv_get db (taskKey (bt_ID c)) = Some raw /\ decode_task raw = Ok t /\
      isTerminalBackupTaskState (bt_State t) = false /\ follows t c;
  so_after : kv_get db' (taskKey (bt_ID c)) = Some (marshalValue c);
  so_other : forall k, k <> taskKey (bt_ID c) -> kv_get db' k = kv_get db k
}.

Lemma admit_before c raw (db : DB) :
  (exists t, normalizeBackupTask (Some t) = Ok c) -> kv_get db (taskKey (bt_ID c)) = raw ->
  admit_task c raw = Ok true ->
  kv_get db (taskKey (bt_ID c)) = None /\ bt_State c = BackupTaskCreating \/
  exists raw t, kv_get db (taskKey (bt_ID c)) = Some raw /\ decode_task raw = Ok t /\
    isTerminalBackupTaskState (bt_State t) = false /\ follows t c.
Proof.
  intros [t0 Hn] Hk E. unfold admit_task in E. destruct raw as [raw|]; [right|left; ok_inv; by apply not_same in G].
  apply bind_Ok_inv in E as (st & Eu & E). apply bind_Ok_inv in E as (t & Es & E). ok_inv. apply not_same in G.
  destruct (isTerminalBackupTaskState (bt_State t)) eqn:Ht; [ok_inv; done|].
  apply bind_Ok_inv in E as ([] & Ev & _). exists raw, t. split; [done|].
  split; [unfold decode_task; by rewrite Eu|]. split; [done|].
  apply update_follows; [done| |done]. apply normalize_fields in Hn as [Hf _]. by apply fields_state.
Qed.

Lemma putBackupTask_run e at_ (now_db db' : DB) task term r :
  putBackupTask rules e at_ now_db task term = (r, db') ->
  db' = now_db \/ (r = Ok tt /\ exists c, stored now_db db' c).
Proof.
  unfold putBackupTask. intros E.
  destruct (let! _ := checkBackupMetadataMutation e in normalizeBackupTask task) as [c|x] eqn:En; [|left; by injection E].
  destruct (admit_task c _) as [[]|x] eqn:Ea; [|left; by injection E..].
  destruct (applyBackupMetadataConditional rules e now_db _) as [db|x] eqn:Ep.
  2:{ left. clear Ea Ep En. by destruct (negb (bool_decide (x = ErrBackupMetadataConflict))); injection E. }
  right. injection E as <- <-. split; [done|]. exists c.
  assert (exists t, normalizeBackupTask (Some t) = Ok c) as Hn.
  { apply bind_Ok_inv in En as (_ & _ & En). destruct task as [t|]; [by exists t|done]. }
  apply one_row in Ep as (Hp & Hk & Ho). constructor; [done| |exact Hk|exact Ho].
  apply (admit_before _ (kv_get (at_ 0%nat) (taskKey (bt_ID c)))); [done| |exact Ea].
  by destruct (kv_get (at_ 0%nat) (taskKey (bt_ID c))).
Qed.

(** ** Replacing the catalogue *)


Lemma opaque_wf id : validateOpaqueID id = Ok tt -> bytes_wf id.
Proof.
  unfold validateOpaqueID. intros E. ok_inv. apply negb_false_iff in G2.
  apply Forall_forall. intros c Hc. apply forallb_forall with (x := c) in G2; [|by apply list_elem_of_In].
  unfold alphanumeric, letter in G2. unfold is_u8, uintw.
  repeat rewrite ?orb_true_iff, ?andb_true_iff, ?Z.leb_le, ?Z.eqb_eq in G2. lia.
Qed.

Lemma entry_wf b : normalizeCommittedBackup b = Ok b -> bytes_wf (bk_ID b).
Proof.
  unfold normalizeCommittedBackup, validateCatalogBackupID. intros E.
  apply bind_Ok_inv in E as ([] & E & _). apply bind_Ok_inv in E as (_ & _ & E). by apply opaque_wf.
Qed.

Lemma entry_in_range b : normalizeCommittedBackup b = Ok b -> catalog_range (prefixBackupCatalog ++ bk_ID b) = true.
Proof.
  intros H1. unfold catalog_range. rewrite in_range_prefix; [|apply str_wf|].
  - apply HasPrefix_spec. by exists (bk_ID b).
  - apply bytes_wf_app. split; [apply str_wf|by apply entry_wf].
Qed.

(** The catalogue of [db'] is exactly [state], the other rows are those of [db]. *)
Record cataloged (db db' : DB) (state : BackupCatalogState) : Prop := mkCataloged {
  cg_state : kv_get db' keyBackupCatalog = Some (marshalValue state);
  cg_entries : forall b, b ∈ bc_Backups state -> kv_get db' (prefixBackupCatalog ++ bk_ID b) = Some (marshalValue b);
  cg_only : forall k v, catalog_range k = true -> kv_get db' k = Some v ->
    exists b, b ∈ bc_Backups state /\ k = prefixBackupCatalog ++ bk_ID b;
  cg_other : forall k, k <> keyBackupCatalog -> catalog_range k = false -> kv_get db' k = kv_get db k
}.

Lemma merge_sort_one {A} (R : relation A) `{forall x y, Decision (R x y)} x : merge_sort R [x] = [x].
Proof. done. Qed.

Lemma entry_ops_distinct l o o' :
  NoDup (map bk_ID l) -> o ∈ map entry_op l -> o' ∈ map entry_op l -> bo_Key o = bo_Key o' -> o = o'.
Proof.
  intros N (b & -> & Hb)%list_elem_of_fmap (b' & -> & Hb')%list_elem_of_fmap E.
  apply app_inv_head in E. by rewrite (NoDup_map_inj bk_ID l b b').
Qed.

Lemma catalog_ops (db : DB) state term :
  cb_Mutations (sorted_batch (catalog_batch state term)) ++
  concat (map (replacement_ops db) (cb_PrefixReplacements (sorted_batch (catalog_batch state term)))) =
  mkBatchOp false keyBackupCatalog (marshalValue state)
  :: replacement_ops db (mkReplacement prefixBackupCatalog (merge_sort op_le (map entry_op (bc_Backups state)))).
Proof.
  unfold sorted_batch, catalog_batch. cbn [cb_Mutations cb_PrefixReplacements]. rewrite !merge_sort_one.
  cbn [map concat pr_Prefix pr_Sets]. by rewrite app_nil_r.
Qed.

Lemma replacement_cataloged (db : DB) state sets :
  entries_ok (bc_Backups state) -> sets ≡ₚ map entry_op (bc_Backups state) ->
  cataloged db (fold_left apply_op (mkBatchOp false keyBackupCatalog (marshalValue state)
                                    :: replacement_ops db (mkReplacement prefixBackupCatalog sets)) db) state.
Proof.
  intros [F N] P. cbn [fold_left]. set (m := mkBatchOp false keyBackupCatalog (marshalValue state)).
  set (db1 := apply_op db m). set (db' := fold_left _ _ db1).
  assert (forall k, kv_get db1 k = if bool_decide (keyBackupCatalog = k) then Some (marshalValue state) else kv_get db k) as H1
    by (intros k; apply kv_get_apply_op).
  assert (catalog_range keyBackupCatalog = false) as Hr by (vm_compute; reflexivity).
  assert (forall o o', o ∈ sets -> o' ∈ sets -> bo_Key o = bo_Key o' -> o = o') as Hd.
  { intros o o' Ho Ho'. rewrite P in Ho, Ho'. by apply (entry_ops_distinct (bc_Backups state)). }
  assert (Forall (fun o => bo_Delete o = false) sets) as Hf.
  { rewrite P. apply Forall_forall. by intros o (b & -> & _)%list_elem_of_fmap. }
  assert (forall k, catalog_range k = true -> kv_get db1 k = kv_get db k) as H2.
  { intros k Hk. rewrite H1, bool_decide_eq_false_2; [done|]. intros <-. congruence. }
  pose proof (fun k => replacement_rows db db1 sets k (H2 k) Hd Hf) as R. cbv zeta in R. fold db' in R.
  assert (forall k, k ∈ map bo_Key sets <-> exists b, b ∈ bc_Backups state /\ k = prefixBackupCatalog ++ bk_ID b) as Hk.
  { intros k. rewrite P, map_map. split; [intros (b & -> & Hb)%list_elem_of_fmap; by exists b|].
    intros (b & Hb & ->). apply list_elem_of_fmap. by exists b. }
  assert (forall k, catalog_range k = false -> k ∉ map bo_Key sets) as Hn.
  { intros k Hc (b & Hb & ->)%Hk. rewrite Forall_forall in F. rewrite (entry_in_range b) in Hc; [discriminate Hc|by apply F]. }
  constructor.
  - rewrite (proj2 (R _)) by by apply Hn. rewrite Hr, H1. by rewrite bool_decide_eq_true_2.
  - intros b Hb. apply (proj1 (R []) (entry_op b)). rewrite P. by apply list_elem_of_fmap_2.
  - intros k v Hc Hv. apply Hk. destruct (decide (k ∈ map bo_Key sets)) as [|Hni]; [done|].
    rewrite (proj2 (R k) Hni), Hc in Hv. done.
  - intros k Hne Hc. rewrite (proj2 (R k)) by by apply Hn. rewrite Hc, H1, bool_decide_eq_false_2; congruence.
Qed.

(** A batch that commits applies the operations of its canonical form. *)
Lemma conditional_ops hook fail (db db' : DB) b :
  applyConditionalBatchWithHook rules hook fail db (Some b) = Ok db' ->
  exists c, canonicalConditionalBatch rules (Some b) = Ok c /\
    db' = fold_left apply_op (cb_Mutations c ++ concat (map (replacement_ops db) (cb_PrefixReplacements c))) db.
Proof.
  intros E. unfold applyConditionalBatchWithHook in E. apply bind_Ok_inv in E as (c & V & E).
  apply bind_Ok_inv in E as (_ & _ & E). exists c. split; [done|]. destruct hook; [done|].
  unfold commit_batch in E. destruct fail; [done|]. by apply Ok_inj in E.
Qed.

Lemma apply_cataloged e (db db' : DB) state term :
  entries_ok (bc_Backups state) ->
  applyBackupMetadataConditional rules e db (catalog_batch state term) = Ok db' -> cataloged db db' state.
Proof.
  intros Hok (c & V & ->)%apply_backup_inv%conditional_ops. apply canonical_inv in V as (_ & _ & -> & _).
  rewrite catalog_ops. apply replacement_cataloged; [done|apply merge_sort_Permutation].
Qed.

(** ** Reading it back *)

Definition entry_row (b : CommittedBackup) : row := (prefixBackupCatalog ++ bk_ID b, marshalValue b).
Definition id_le (a b : CommittedBackup) : Prop := bytes_le (bk_ID a) (bk_ID b).

#[local] Instance id_le_dec a b : Decision (id_le a b).
Proof. unfold id_le. apply _. Defined.
#[local] Instance id_le_total : Total id_le.
Proof. intros a b. apply (bytes_le_total (bk_ID a) (bk_ID b)). Qed.
#[local] Instance id_le_trans : Transitive id_le.
Proof. intros a b c. apply (bytes_le_trans (bk_ID a) (bk_ID b) (bk_ID c)). Qed.

Lemma bytes_ltb_cancel p a b : bytes_ltb (p ++ a) (p ++ b) = bytes_ltb a b.
Proof. rewrite bytes_ltb_app, bytes_ltb_irrefl, bool_decide_eq_true_2 by done. done. Qed.

Lemma entry_rows_sorted l :
  NoDup (map bk_ID l) -> StronglySorted id_le l ->
  StronglySorted (fun p q : row => bytes_lt p.1 q.1) (map entry_row l).
Proof.
  intros N S. induction S as [|b l S IH F]; cbn [map]; [constructor|].
  cbn [map] in N. apply NoDup_cons in N as [Hb N]. constructor; [by apply IH|].
  apply Forall_forall. intros q (c & -> & Hc)%list_elem_of_fmap. rewrite Forall_forall in F. specialize (F c Hc).
  unfold bytes_lt. cbn [entry_row fst]. rewrite bytes_ltb_cancel. unfold id_le, bytes_le in F.
  destruct (bytes_ltb_total (bk_ID b) (bk_ID c)) as [H1|[H1|H1]]; [done| |unfold bytes_lt in H1; congruence].
  destruct Hb. rewrite H1. by apply list_elem_of_fmap_2.
Qed.

Lemma scan_catalog_entries `{LC : !CodecLaws CommittedBackup} l : forall m,
  Forall (fun b => normalizeCommittedBackup b = Ok b) l -> NoDup (map bk_ID l) ->
  (forall b, b ∈ l -> m !! bk_ID b = None) ->
  exists m', scan_catalog m (map entry_row l) = Ok m' /\ size m' = (size m + length l)%nat /\
    (forall b, b ∈ l -> m' !! bk_ID b = Some b) /\
    (forall id, id ∉ map bk_ID l -> m' !! id = m !! id).
Proof.
  induction l as [|b l IH]; intros m F N Hm; cbn [map scan_catalog].
  { exists m. split; [done|]. split; [cbn; lia|]. split; [by intros b ?%not_elem_of_nil|done]. }
  apply Forall_cons in F as [Hb F]. cbn [map] in N. apply NoDup_cons in N as [Hn N].
  cbn [entry_row]. rewrite unmarshalValue_marshalValue, bind_Ok, Hb, bind_Ok.
  rewrite (bool_decide_eq_true_2 (prefixBackupCatalog ++ bk_ID b = _)) by done. cbn [negb].
  rewrite bool_decide_eq_false_2 by (rewrite Hm by (by left); by intros []).
  destruct (IH (<[bk_ID b := b]> m)) as (m' & E & Es & Hin & Hout); [done..| |].
  { intros c Hc. rewrite lookup_insert_ne; [apply Hm; by right|]. intros Ec. apply Hn. rewrite Ec. by apply list_elem_of_fmap_2. }
  exists m'. split; [done|]. split; [rewrite Es, map_size_insert_None by (apply Hm; by left); cbn; lia|]. split.
  - intros c [->|Hc]%elem_of_cons; [|by apply Hin]. rewrite Hout by done. apply lookup_insert_eq.
  - intros id Hid. apply not_elem_of_cons in Hid as [H1 H2]. rewrite Hout by done. by apply lookup_insert_ne.
Qed.

Lemma catalog_rows (db db' : DB) state :
  entries_ok (bc_Backups state) -> cataloged db db' state ->
  kv_range db' prefixBackupCatalog (prefixUpperBound prefixBackupCatalog) =
  map entry_row (merge_sort id_le (bc_Backups state)).
Proof.
  intros [F N] C. pose proof (merge_sort_Permutation id_le (bc_Backups state)) as P.
  apply sorted_rows_eq; [apply kv_range_sorted| |].
  - apply entry_rows_sorted; [by rewrite P|apply StronglySorted_merge_sort; apply _].
  - intros [k v]. rewrite elem_of_kv_range. split.
    + intros [Hv Hr]. destruct (cg_only _ _ _ C k v Hr Hv) as (b & Hb & ->).
      rewrite (cg_entries _ _ _ C b Hb) in Hv. injection Hv as <-. apply list_elem_of_fmap. exists b. by rewrite P.
    + intros (b & [= -> ->] & Hb)%list_elem_of_fmap. rewrite P in Hb. split; [by apply (cg_entries _ _ _ C)|].
      rewrite Forall_forall in F. by apply entry_in_range, F.
Qed.

Lemma cataloged_read `{LC : !CodecLaws CommittedBackup} `{LB : !CodecLaws BackupCatalogState} g (db db' : DB) state l t :
  ge_closed g = false -> normalizeBackupCatalog l t = Ok state -> cataloged db db' state ->
  GetBackupCatalogState g db' = Ok (Some state).
Proof.
  intros Hg En C. pose proof (normalizeBackupCatalog_fixed _ _ _ En) as Ef.
  apply normalizeBackupCatalog_inv in En as (_ & _ & Hok). unfold GetBackupCatalogState, getValue.
  rewrite Hg, (cg_state _ _ _ C), unmarshalValue_marshalValue. cbn [mbind result_bind].
  change (@result_bind merr) with (@mbind (result merr) _). rewrite Ef. cbn [mbind result_bind].
  rewrite bool_decide_eq_true_2, Z.eqb_refl by done. cbn [negb orb].
  rewrite (catalog_rows db db' state Hok C).
  pose proof (merge_sort_Permutation id_le (bc_Backups state)) as P.
  destruct (scan_catalog_entries (merge_sort id_le (bc_Backups state)) ∅) as (m & -> & Es & Hin & _).
  { by rewrite P; destruct Hok. } { by rewrite P; destruct Hok. } { intros b _. apply lookup_empty. }
  cbn [mbind result_bind]. rewrite Es, map_size_empty, Nat.add_0_l, (Permutation_length P), Nat.eqb_refl. cbn [negb].
  destruct (forallb _ _) eqn:Ea; [done|]. apply not_true_iff_false in Ea. destruct Ea.
  apply forallb_forall. intros b Hb. apply bool_decide_eq_true, Hin. rewrite P. by apply list_elem_of_In.
Qed.

(** ** Listing tasks *)

(** The tasks of a scan, in key order. *)
Fixpoint scan_tasks (rows : list row) : mgo (list BackupTask) :=
  match rows with
  | [] => Ok []
  | (key, value) :: rows => let! t := scan_task key value in let! ts := scan_tasks rows in Ok (t :: ts)
  end.

Lemma scan_task_key key value t : scan_task key value = Ok t -> key = taskKey (bt_ID t).
Proof. unfold scan_task. intros E. ok_inv. apply not_same in G. congruence. Qed.

Lemma collect_newest_run limit rows : forall ts0 ts h rest,
  0 < limit -> scan_tasks rows = Ok ts -> newest_of limit ts0 h rest ->
  exists h' rest', collect_newest limit rows h = Ok h' /\ newest_of limit (ts0 ++ ts) h' rest'.
Proof.
  induction rows as [|[key value] rows IH]; intros ts0 ts h rest Hl E Hn; cbn [scan_tasks collect_newest] in *.
  { injection E as <-. rewrite app_nil_r. eauto. }
  apply bind_Ok_inv in E as (t & Et & E). apply bind_Ok_inv in E as (ts' & Es & E). injection E as <-.
  rewrite Et, bind_Ok. destruct (topk_Add_newest _ _ _ _ t Hl Hn) as [rest1 Hn1].
  destruct (IH _ _ _ _ Hl Es Hn1) as (h' & rest' & Eh & Hn'). exists h', rest'. split; [done|].
  by rewrite <- app_assoc in Hn'.
Qed.

Lemma collect_newest_err limit rows : forall h x, scan_tasks rows = Err x -> collect_newest limit rows h = Err x.
Proof.
  induction rows as [|[key value] rows IH]; intros h x E; cbn [scan_tasks collect_newest] in *; [done|].
  destruct (scan_task key value) as [t|y]; [|done]. cbn [mbind result_bind] in *.
  destruct (scan_tasks rows) as [ts|y]; [done|]. by apply IH.
Qed.

Lemma scan_tasks_keys rows : forall ts, scan_tasks rows = Ok ts -> map fst rows = map (fun t => taskKey (bt_ID t)) ts.
Proof.
  induction rows as [|[key value] rows IH]; intros ts E; cbn [scan_tasks] in E; [by injection E as <-|].
  apply bind_Ok_inv in E as (t & Et & E). apply bind_Ok_inv in E as (ts' & Es & E). injection E as <-.
  cbn [map fst]. by rewrite (IH _ Es), (scan_task_key _ _ _ Et).
Qed.

Lemma sorted_rows_NoDup (l : list row) : StronglySorted (fun p q : row => bytes_lt p.1 q.1) l -> NoDup (map fst l).
Proof.
  intros S. induction S as [|x l S IH F]; cbn [map]; [constructor|]. constructor; [|done].
  intros (y & Ey & Hy)%list_elem_of_fmap. rewrite Forall_forall in F. specialize (F y Hy).
  unfold bytes_lt in F. rewrite Ey, bytes_ltb_irrefl in F. done.
Qed.

Lemma scan_tasks_distinct (db : DB) ts : scan_tasks (task_rows db) = Ok ts -> NoDup (map bt_ID ts).
Proof.
  intros E%scan_tasks_keys. pose proof (sorted_rows_NoDup _ (kv_range_sorted db prefixBackupTask (prefixUpperBound prefixBackupTask))) as N.
  unfold task_rows in E. rewrite E in N. rewrite <- (map_map bt_ID taskKey) in N.
  by apply (NoDup_fmap_1 taskKey).
Qed.

(** ** Steps *)

(** One call of the service; its reads are from arbitrary databases. *)
Inductive backup_step (db : DB) : DB -> Prop :=
  | bs_task e at_ task term : backup_step db (putBackupTask rules e at_ db task term).2
  | bs_catalog e backups t term db' :
      replaceCommittedBackupCatalog rules e db backups t term = Ok db' -> backup_step db db'
  | bs_cluster e at_ random requested : backup_step db (EnsureClusterID rules e at_ db random requested).2
  | bs_marker e at_ marker : backup_step db (PutRestorePendingMarker rules e at_ db marker).2
  | bs_clear e at_ : backup_step db (ClearRestorePendingMarker rules e at_ db).2.

(** What a step does. *)
Inductive effect (db db' : DB) : Prop :=
  | ef_none : db' = db -> effect db db'
  | ef_task c : stored db db' c -> effect db db'
  | ef_catalog l t state : normalizeBackupCatalog l t = Ok state -> cataloged db db' state -> effect db db'
  | ef_cluster id :
      validateOpaqueID id = Ok tt -> kv_get db keyClusterID = None ->
      kv_get db' keyClusterID = Some (marshalValue id) ->
      (forall k, k <> keyClusterID -> kv_get db' k = kv_get db k) -> effect db db'
  | ef_marker : (forall k, k <> keyRestorePending -> kv_get db' k = kv_get db k) -> effect db db'.

Lemma EnsureClusterID_run e at_ (db db' : DB) random requested r :
  EnsureClusterID rules e at_ db random requested = (r, db') ->
  (db' = db /\ (is_ok r = true -> exists n raw, (n < 2)%nat /\ kv_get (at_ n) keyClusterID = Some raw /\
                  reconcileClusterID raw requested = r)) \/
  exists id, r = Ok id /\ validateOpaqueID id = Ok tt /\ kv_get db keyClusterID = None /\
    kv_get db' keyClusterID = Some (marshalValue id) /\
    (forall k, k <> keyClusterID -> kv_get db' k = kv_get db k) /\ (requested = [] \/ id = requested).
Proof.
  unfold EnsureClusterID. intros E. destruct (checkBackupMetadataMutation e); [|left; by injection E as <- <-].
  destruct (kv_get (at_ 0%nat) keyClusterID) as [raw|] eqn:E0.
  { injection E as <- <-. left. split; [done|]. intros _. exists 0%nat, raw. split; [lia|done]. }
  destruct (let! id := _ in _) as [id|x] eqn:Ei; [|left; by injection E as <- <-].
  apply bind_Ok_inv in Ei as (id' & Eg & Ei). apply bind_Ok_inv in Ei as ([] & Ev & Ei). injection Ei as ->.
  destruct (applyBackupMetadataConditional rules e db _) as [db1|x] eqn:Ea.
  2:{ left. destruct (negb (bool_decide (x = ErrBackupMetadataConflict))); [by injection E as <- <-|].
      destruct (kv_get (at_ 1%nat) keyClusterID) as [raw|] eqn:E1; injection E as <- <-; [|done].
      split; [done|]. intros _. exists 1%nat, raw. split; [lia|done]. }
  injection E as <- <-. right. exists id. split; [done|]. split; [done|].
  apply one_row in Ea as (Hp & Hk & Ho). split; [exact Hp|]. split; [exact Hk|]. split; [exact Ho|].
  destruct (len requested =? 0) eqn:El; [left; by apply length_zero|]. injection Eg as ->. by right.
Qed.

Lemma marker_run e at_ (db : DB) marker k :
  k <> keyRestorePending -> kv_get (PutRestorePendingMarker rules e at_ db marker).2 k = kv_get db k.
Proof.
  intros Hk. unfold PutRestorePendingMarker. destruct (let! _ := _ in _) as [c|]; [|done].
  destruct (kv_get (at_ 0%nat) keyRestorePending); [done|].
  destruct (applyBackupMetadataConditional rules e db _) as [db1|x] eqn:Ea.
  - apply one_row in Ea as (_ & _ & Ho). by apply Ho.
  - destruct (negb (bool_decide (x = ErrBackupMetadataConflict))); [done|]. by destruct (kv_get (at_ 1%nat) _).
Qed.

Lemma clear_run e at_ (db : DB) k :
  k <> keyRestorePending -> kv_get (ClearRestorePendingMarker rules e at_ db).2 k = kv_get db k.
Proof.
  intros Hk. unfold ClearRestorePendingMarker. destruct (checkBackupMetadataMutation e); [|done].
  destruct (kv_get (at_ 0%nat) keyRestorePending) as [raw|]; [|done].
  destruct (let! _ := _ in _) as [c|]; [|done].
  destruct (applyBackupMetadataConditional rules e db _) as [db1|x] eqn:Ea.
  - apply one_row in Ea as (_ & _ & Ho). by apply Ho.
  - destruct (negb (bool_decide (x = ErrBackupMetadataConflict))); [done|]. by destruct (kv_get (at_ 1%nat) _).
Qed.

Lemma step_effect (db db' : DB) : backup_step db db' -> effect db db'.
Proof.
  intros [e at_ task term|e l t term db1 E|e at_ random requested|e at_ marker|e at_].
  - destruct (putBackupTask rules e at_ db task term) as [r db1] eqn:E.
    apply putBackupTask_run in E as [->|(_ & c & S)]; [by apply ef_none|by apply (ef_task _ _ c)].
  - unfold replaceCommittedBackupCatalog in E. ok_inv. eapply ef_catalog; [done|].
    eapply apply_cataloged; [|done]. by apply normalizeBackupCatalog_inv in E1 as (_ & _ & ?).
  - destruct (EnsureClusterID rules e at_ db random requested) as [r db1] eqn:E.
    apply EnsureClusterID_run in E as [[-> _]|(id & _ & H1 & H2 & H3 & H4 & _)]; [by apply ef_none|].
    by apply (ef_cluster _ _ id).
  - apply ef_marker. intros k. apply marker_run.
  - apply ef_marker. intros k. apply clear_run.
Qed.
End Proofs.
