(* ===== verification/MetaScenario.v ===== *)
(** * Concrete codecs and a small metadata store

    Instances of the interfaces the metadata service uses: a codec with the
    laws of [MetaTypes.v] (documents of named fields, as MessagePack's) for
    every row type, and a fresh store, on which the theorems are applied and
    operations evaluated. *)

From stdpp Require Import base list sorting numbers strings gmap countable.
From Stdlib Require Import ZArith Lia.
From S2P Require Import Prelude Bytes Pebble MetaKeys MetaScan MetaTypes RaftLog.
From S2P Require Import MetaFSM Namespace NamespaceSpec NamespaceProofs.

Local Open Scope Z_scope.

(** ** Documents *)

Fixpoint pos_bits (p : positive) : list Z :=
  match p with xH => [] | xO p => 0 :: pos_bits p | xI p => 1 :: pos_bits p end.

Fixpoint bits_pos (l : list Z) : positive :=
  match l with [] => xH | b :: l => if b =? 0 then xO (bits_pos l) else xI (bits_pos l) end.

Lemma bits_pos_bits p : bits_pos (pos_bits p) = p.
Proof. induction p; cbn; congruence. Qed.

Definition doc (fields : list (list Z)) : list Z := 222 :: pos_bits (encode fields).

Definition undoc (data : list Z) : option (list (list Z)) :=
  match data with 222 :: bits => decode (bits_pos bits) | _ => None end.

Lemma undoc_doc fields : undoc (doc fields) = Some fields.
Proof. unfold undoc, doc. rewrite bits_pos_bits. apply decode_encode. Qed.

Lemma doc_wf fields : bytes_wf (doc fields).
Proof.
  constructor; [done|]. induction (encode fields); cbn; constructor; done.
Qed.

Definition doc_codec {A} (to : A -> list (list Z)) (back : list (list Z) -> option A) : Codec A :=
  {| msgpack_Marshal a := doc (to a); msgpack_Unmarshal d := undoc d ≫= back; json_Unmarshal _ := None |}.

Lemma doc_codec_laws {A} (to : A -> list (list Z)) back :
  (forall a, back (to a) = Some a) -> @CodecLaws A (doc_codec to back).
Proof.
  intros E. constructor.
  - intros v. by eexists _, _.
  - intros v. apply doc_wf.
  - intros v. change (undoc (doc (to v)) ≫= back = Some v). rewrite undoc_doc. apply E.
Qed.

(** ** Rows *)

Definition chunk_fields (l : list ChunkRef) : list Z :=
  concat (map (fun c => [cr_ID c; cr_Offset c; cr_Length c; cr_Version c]) l).

Fixpoint chunks_of (l : list Z) : list ChunkRef :=
  match l with a :: b :: c :: d :: l => mkChunkRef a b c d :: chunks_of l | _ => [] end.

Lemma chunks_of_fields l : chunks_of (chunk_fields l) = l.
Proof. unfold chunk_fields. induction l as [|[] l IH]; [done|]. cbn. by rewrite IH. Qed.

Definition extent_fields (x : option ExtentMetaV2) : list Z :=
  match x with
  | None => []
  | Some e => [ex_ID e; ex_Generation e; ex_LogicalLen e; ex_Checksum e; ex_PGID e; ex_PlacementEpoch e;
               ex_Lifecycle e; ex_StorageClass e; ex_CreatedAt e] ++ ex_ECStripeID e
  end.

Definition extent_of (l : list Z) : option ExtentMetaV2 :=
  match l with
  | a :: b :: c :: d :: e :: f :: g :: h :: i :: s => Some (mkExtentMetaV2 a b c d e f g h s i)
  | _ => None
  end.

Lemma extent_of_fields x : extent_of (extent_fields x) = x.
Proof. by destruct x as [[]|]. Qed.

Definition xattr_fields (x : gmap (list Z) (list Z)) : list (list Z) :=
  concat (map (fun kv => [kv.1; kv.2]) (map_to_list x)).

Fixpoint pairs_of (l : list (list Z)) : list (list Z * list Z) :=
  match l with a :: b :: l => (a, b) :: pairs_of l | _ => [] end.

Lemma pairs_of_fields (l : list (list Z * list Z)) :
  pairs_of (concat (map (fun kv => [kv.1; kv.2]) l)) = l.
Proof. induction l as [|[] l IH]; [done|]. cbn. by rewrite IH. Qed.

Lemma xattr_of_fields x : list_to_map (pairs_of (xattr_fields x)) = x.
Proof. unfold xattr_fields. rewrite pairs_of_fields. apply list_to_map_to_list. Qed.

(** The fields of both inode models. *)
Definition wire_fields (m : InodeMetaV2) (rdev : Z) (chunks : list ChunkRef) : list (list Z) :=
  [i2_ID m; i2_Type m; i2_Size m; i2_NLink m; i2_BucketRoot m; i2_UID m; i2_GID m; i2_Mode m; i2_CTime m;
   i2_MTime m; i2_ATime m; i2_Layout m; i2_ExtentRoot m; i2_ExtentPageCount m; i2_ExtentRootVersion m; rdev]
  :: extent_fields (i2_InlineExtent m) :: i2_Symlink m :: chunk_fields chunks
  :: xattr_fields (i2_XAttrs m).

Definition wire_of (l : list (list Z)) : option (InodeMetaV2 * Z * list ChunkRef) :=
  match l with
  | [id; ty; size; nl; root; uid; gid; mode; ct; mt; atime; layout; er; pc; rv; rdev]
    :: ext :: sym :: chunks :: xattrs =>
      Some (mkInodeMetaV2 id ty size nl root uid gid mode ct mt atime layout (extent_of ext) er pc rv sym
              (list_to_map (pairs_of xattrs)), rdev, chunks_of chunks)
  | _ => None
  end.

Lemma wire_of_fields m rdev chunks : wire_of (wire_fields m rdev chunks) = Some (m, rdev, chunks).
Proof.
  unfold wire_fields, wire_of. rewrite extent_of_fields, xattr_of_fields, chunks_of_fields. by destruct m.
Qed.

Definition v1_of_wire (w : InodeMetaV2 * Z * list ChunkRef) : InodeMeta :=
  let '(m, rdev, chunks) := w in
  mkInodeMeta (i2_ID m) (i2_Type m) (i2_Size m) (i2_NLink m) (i2_BucketRoot m) (i2_UID m)
    (i2_GID m) (i2_Mode m) (i2_CTime m) (i2_MTime m) (i2_ATime m) rdev chunks (i2_Symlink m) (i2_XAttrs m).

#[export] Instance inode_codec : Codec InodeMeta :=
  doc_codec (fun m => wire_fields (v2_of_v1 m) (im_Rdev m) (im_ChunkMap m))
            (fun l => v1_of_wire <$> wire_of l).

#[export] Instance inode2_codec : Codec InodeMetaV2 :=
  doc_codec (fun m => wire_fields m 0 []) (fun l => (fun w => w.1.1) <$> wire_of l).

#[export] Instance entry_codec : Codec DirEntry :=
  doc_codec (fun e => [[de_InodeID e; de_Type e]; de_Name e])
            (fun l => match l with [[a; b]; n] => Some (mkDirEntry a b n) | _ => None end).

#[export] Instance usage_codec : Codec BucketUsage :=
  doc_codec (fun u => [[bu_UsedBytes u; bu_Objects u]; bu_Name u])
            (fun l => match l with [[a; b]; n] => Some (mkBucketUsage n a b) | _ => None end).

#[export] Instance number_codec : Codec Z :=
  doc_codec (fun z => [[z]]) (fun l => match l with [[z]] => Some z | _ => None end).

#[export] Instance versioned_codec : Codec InodeWithVersion :=
  doc_codec (fun v => [iv_Version v] :: wire_fields (v2_of_v1 (iv_Inode v)) (im_Rdev (iv_Inode v)) (im_ChunkMap (iv_Inode v)))
    (fun l => match l with [v] :: l => (fun w => mkInodeWithVersion (v1_of_wire w) v) <$> wire_of l | _ => None end).

#[export] Instance inode_laws : CodecLaws InodeMeta.
Proof. apply doc_codec_laws. intros m. rewrite wire_of_fields. by destruct m. Qed.

#[export] Instance inode2_laws : CodecLaws InodeMetaV2.
Proof. apply doc_codec_laws. intros m. by rewrite wire_of_fields. Qed.

#[export] Instance entry_laws : CodecLaws DirEntry.
Proof. apply doc_codec_laws. by intros []. Qed.

#[export] Instance inode_alias : InodeAlias.
Proof.
  constructor; intros m; unfold marshalValue; cbn [msgpack_Marshal msgpack_Unmarshal inode_codec inode2_codec
    doc_codec]; rewrite undoc_doc; cbn [mbind option_bind]; by rewrite wire_of_fields.
Qed.

(** ** A fresh store *)

Definition any_rules : version_rules :=
  let yes := fun _ : ConditionalBatch => Ok tt in mkVersionRules yes yes yes yes yes yes yes yes.

Definition calm : ns_env := mkNsEnv (fun _ => 1000) None (fun _ => None) id.

Abbreviation Mem := (gmap (list Z) (list Z)).

Definition fresh : NS Mem := (NewPebbleStore calm ∅).1.

Lemma fresh_ok : ns_ok fresh (root_fs 1000).
Proof.
  destruct (NewPebbleStore_empty calm (∅ : Mem) (fun k => lookup_empty k) eq_refl) as (db & E & O).
  unfold fresh. rewrite E. exact O.
Qed.
