(* ===== verification/ExtentTheorems.v ===== *)
(** * The extents of a file, end to end

    Histories of layout changes refine a map from inodes to extent lists,
    whatever writes fail; appending grows the list in order across pages; the
    chunks a commit lands are the chunks a reader resolves. *)

From stdpp Require Import base list sorting numbers strings gmap countable.
From Stdlib Require Import ZArith Lia.
From S2P Require Import Prelude Bytes Pebble MetaKeys MetaScan MetaTypes RaftLog MetaFSMProofs.
From S2P Require Import MetaFSM Namespace MetaFSMProofs NamespaceProofs NamespaceProgress.
From S2P Require Import Extents ExtentProofs MetaScenario.

Local Open Scope Z_scope.
Local Open Scope go_scope.
Local Open Scope ns_scope.

Section Theorems.
Context {DB : Type} `{KL : PebbleLaws DB}.
Context `{CI : Codec InodeMeta} `{C2 : Codec InodeMetaV2} `{CU : Codec BucketUsage}.
Context `{CP : Codec ExtentPage} `{CX : Codec ExtentMetaV2} `{CK : Codec ChunkMeta}.
Context {LI : CodecLaws InodeMeta} {L2 : CodecLaws InodeMetaV2} {LP : CodecLaws ExtentPage}.
Context {LX : CodecLaws ExtentMetaV2} {AL : InodeAlias}.
Context (useBucketStats : bool).

(** ** Histories of layout changes *)

(** The two writers of the commit path. *)
Inductive xop :=
| XInline (id : Z) (x : option ExtentMetaV2) (size : Z)
| XReplace (id : Z) (writes : list ExtentWrite) (size : Z).

Definition xop_id (op : xop) : Z := match op with XInline id _ _ | XReplace id _ _ => id end.

Definition xcall (e : x_env) (op : xop) : N DB unit :=
  match op with
  | XInline id x size => SetInlineExtent useBucketStats e id x size
  | XReplace id writes size => ReplaceExtents useBucketStats e id writes size
  end.

Definition xop_refs (op : xop) : list ExtentRef :=
  match op with
  | XInline _ x _ => match x with Some x => [mkExtentRef (ex_ID x) 0] | None => [] end
  | XReplace _ writes _ => refs_of writes
  end.

(** No nil extent among the arguments. *)
Definition xop_args (op : xop) : Prop :=
  match op with
  | XInline _ x _ => is_Some x
  | XReplace _ writes _ => Forall (fun w => is_Some (xw_Extent w)) writes
  end.

Definition xop_fits (op : xop) : Prop :=
  match op with XInline _ _ _ => True | XReplace _ writes _ => len writes <= 2 ^ 39 end.

(** The specification: a call that returns without error sets the file's
    list, one that fails changes nothing. *)
Definition xeffect (op : xop) (r : mgo unit) (f : gmap Z (list ExtentRef)) : gmap Z (list ExtentRef) :=
  match r with Ok _ => <[xop_id op := xop_refs op]> f | Err _ => f end.

Fixpoint xrun (h : list (x_env * xop)) (s : NS DB) : NS DB * list (mgo unit) :=
  match h with
  | [] => (s, [])
  | (e, op) :: h => let (s, r) := xcall e op s in let (s, rs) := xrun h s in (s, r :: rs)
  end.

Fixpoint xspec (h : list (x_env * xop)) (rs : list (mgo unit)) (f : gmap Z (list ExtentRef)) :
    gmap Z (list ExtentRef) :=
  match h, rs with
  | (_, op) :: h, r :: rs => xspec h rs (xeffect op r f)
  | _, _ => f
  end.

(** Every file of [f] has these extents, and roots for [n] more changes. *)
Definition represents (n : Z) (s : NS DB) (f : gmap Z (list ExtentRef)) : Prop :=
  forall id refs, f !! id = Some refs -> exists root, root + n < 2 ^ 64 - 3 /\ holds s id root refs.

Definition calm_env (e : x_env) : Prop :=
  (forall k, xe_meta e k = None) /\ (forall k, xe_page e k = None) /\ (forall k, xe_inode e k = None).

Lemma calm_no_fault e (s : NS DB) : calm_env e -> writable s -> ~ any_fault e s.
Proof.
  intros (H1 & H2 & H3) [_ Hw] [F|[[k F]|[[k F]|[k F]]]]; [congruence|rewrite H1 in F|rewrite H2 in F|rewrite H3 in F];
    by destruct F.
Qed.

Lemma xcall_outcome e op root old (s s' : NS DB) r :
  holds s (xop_id op) root old -> root < 2 ^ 64 - 3 -> xop_fits op -> xcall e op s = (s', r) ->
  exists xs, call_outcome e (xop_id op) root old (xop_refs op) xs (xop_args op) s s' r.
Proof.
  intros Hh Hr Hf E. destruct op as [id x size|id writes size]; cbn in *.
  - eexists. by eapply SetInlineExtent_run.
  - eexists. by eapply ReplaceExtents_run.
Qed.

Lemma holds_u64 (s : NS DB) id root refs : holds s id root refs -> is_u64 id.
Proof. intros (inode & R & _). apply R. Qed.

(** One call keeps the representation. *)
Lemma xcall_represents e op n f (s s' : NS DB) r :
  0 <= n -> represents (n + 1) s f -> is_Some (f !! xop_id op) -> xop_fits op -> xcall e op s = (s', r) ->
  represents n s' (xeffect op r f) /\
  (writable s -> calm_env e -> xop_args op -> r = Ok tt /\ writable s').
Proof.
  intros Hn Hrep [old Hold] Hf E. destruct (Hrep _ _ Hold) as (root & Hroot & Hh).
  destruct (xcall_outcome _ _ _ _ _ _ _ Hh ltac:(lia) Hf E) as (xs & T & F1 & F2 & Out). split.
  - intros id refs Hid. destruct (decide (id = xop_id op)) as [->|Hne].
    + destruct r as [[]|err]; cbn [xeffect] in Hid.
      * rewrite lookup_insert in Hid. rewrite decide_True in Hid by done. injection Hid as <-.
        destruct Out as (_ & (root' & Hr' & Hh') & _). exists root'. split; [lia|done].
      * rewrite Hold in Hid. injection Hid as <-. exists root. split; [lia|by destruct Out].
    + assert (f !! id = Some refs) as Hid'.
      { destruct r; cbn [xeffect] in Hid; [by rewrite lookup_insert_ne in Hid|done]. }
      destruct (Hrep _ _ Hid') as (root2 & Hr2 & inode & R & Er & V). exists root2. split; [lia|].
      exists inode. destruct (resolve_other s (set_db (ns_db s') s) (xop_id op) id inode) as [R' V'];
        [by eapply holds_u64|done|done|by split|]. cbn [set_db ns_db] in R', V'. by rewrite V'.
  - intros [Hc Hro] Hcalm Hargs. destruct r as [[]|err].
    + split; [done|]. unfold writable. by rewrite F1, F2.
    + destruct Out as (_ & [?|[Fa|?]]); [congruence| |done]. by destruct (calm_no_fault e s Hcalm (conj Hc Hro)).
Qed.

(** C5: whatever row writes fail during a history of whole-set changes of
    extent layouts (one inline extent, or pages), every file holds exactly
    the extents of its last call that returned without error: a failed call
    leaves the extents of its file, and of every other file, as they were.
    Without faults and nil extents, in a writable store, every call
    succeeds. *)
Theorem extents_refine_map h f (s s' : NS DB) rs :
  represents (Z.of_nat (length h)) s f ->
  Forall (fun c => is_Some (f !! xop_id c.2) /\ xop_fits c.2) h ->
  xrun h s = (s', rs) ->
  represents 0 s' (xspec h rs f) /\
  (writable s -> Forall (fun c => calm_env c.1 /\ xop_args c.2) h -> Forall (eq (Ok tt)) rs).
Proof.
  revert f s rs. induction h as [|[e op] h IH]; intros f s rs Hrep Hok E; cbn [xrun xspec] in *.
  { injection E as <- <-. split; [done|]. intros. constructor. }
  apply Forall_cons_1 in Hok as [[Hin Hfit] Hok].
  destruct (xcall e op s) as [s1 r] eqn:E1. destruct (xrun h s1) as [s2 rs2] eqn:E2. injection E as <- <-.
  replace (Z.of_nat (length ((e, op) :: h))) with (Z.of_nat (length h) + 1) in Hrep by (cbn [length]; lia).
  destruct (xcall_represents _ _ _ _ _ _ _ (Nat2Z.is_nonneg _) Hrep Hin Hfit E1) as [Hrep1 Hcalm1].
  apply (IH (xeffect op r f)) in E2 as [Hrep2 Hcalm2]; [|done|].
  - split; [done|]. intros Hw Hc. apply Forall_cons_1 in Hc as [[Hc1 Ha1] Hc]. cbn in Hc1, Ha1.
    destruct (Hcalm1 Hw Hc1 Ha1) as [-> Hw1]. constructor; [done|by apply Hcalm2].
  - eapply Forall_impl; [|exact Hok]. intros [e' op'] [Hi Hf]. split; [|done]. cbn in *.
    destruct r; cbn [xeffect]; [|done]. rewrite lookup_insert. case_decide; [eauto|done].
Qed.

(** ** Appending *)

(** Append extents one after the other, stopping at the first error. *)
Fixpoint append_all (calls : list (x_env * ExtentMetaV2 * Z)) (id : Z) : N DB unit :=
  match calls with
  | [] => nret tt
  | (e, x, offset) :: calls =>
      do* _ := AppendExtent useBucketStats e id (Some x) offset in append_all calls id
  end.

Lemma appendable_frame (db db' : DB) id inode refs :
  appendable db id inode refs ->
  (forall k, ~ meta_keys k -> kv_get db' k = kv_get db k) -> appendable db' id inode refs.
Proof.
  intros A T. pose proof (ap_row _ _ _ _ A) as R.
  assert (forall r p, kv_get db' (extentPageKey id r p) = kv_get db (extentPageKey id r p)) as Tp
    by (intros; apply T, not_meta_page).
  constructor; try apply A.
  - by apply (v2_row_frame db), T, not_meta_inode.
  - rewrite (resolve_frame db db' id inode R); [apply A|apply T, not_meta_inode|]. intros; apply Tp.
  - destruct (ap_last _ _ _ _ A) as [last Hl]. exists last. unfold page_row in *. by rewrite (GetPage_ext db db').
  - intros r p Hr Hp. rewrite Tp. by apply (ap_clean _ _ _ _ A).
Qed.

Lemma AppendExtent_run e id x offset inode refs (s s' : NS DB) r :
  appendable (ns_db s) id inode refs -> room inode -> i2_ExtentPageCount inode < 2 ^ 32 - 1 ->
  AppendExtent useBucketStats e id (Some x) offset s = (s', r) ->
  ns_readOnly s' = ns_readOnly s /\ ns_closed s' = ns_closed s /\
  match r with
  | Ok root => root = i2_ExtentRoot inode + 1 /\
      exists inode', appendable (ns_db s') id inode' (refs ++ [mkExtentRef (ex_ID x) offset]) /\
        i2_ExtentRoot inode' = i2_ExtentRoot inode + 1 /\
        i2_ExtentPageCount inode' <= i2_ExtentPageCount inode + 1
  | Err _ => inode2_ResolveExtents (ns_db s') id = Ok refs /\ (ns_closed s = true \/ any_fault e s)
  end.
Proof.
  intros A Hroom Hc E. unfold AppendExtent in E. nstep E s1 u E1;
    apply enter_cases in E1 as [[Er ->]|(err & Er & -> & Ec)]; try discriminate Er.
  2:{ split; [done|]. split; [done|]. split; [apply A|by left]. }
  nstep E s2 v E2; apply putExtentMeta_run in E2 as [(Er2 & Hm & T2)|(err & Er2 & -> & F)]; try discriminate Er2.
  2:{ split; [done|]. split; [done|]. split; [apply A|]. right. unfold any_fault. destruct F; [by left|eauto 8]. }
  destruct (touch_flags _ _ _ T2) as [G1 G2].
  assert (appendable (ns_db s2) id inode refs) as A2.
  { apply (appendable_frame (ns_db s)); [done|]. intros k Hk. apply T2. intros <-. apply Hk. by eexists. }
  nstep E s3 w E3; apply (inode2_AppendExtent_run _ _ _ _ _ _ _ _ _ _ A2 Hroom Hc) in E3 as [T3 E3];
    destruct (touch_flags _ _ _ T3) as [G3 G4].
  - injection E as <- <-. split; [by rewrite <- G1, <- G3|]. split; [by rewrite <- G2, <- G4|]. done.
  - split; [congruence|]. split; [congruence|]. destruct E3 as [V F]. split; [by rewrite V, (ap_refs _ _ _ _ A2)|].
    right. by apply (any_fault_touch _ _ _ _ T2).
Qed.

(** Extents appended one after the other to a paged file (last page under
    the current root, no leftovers of abandoned attempts) are found in order
    after the ones it held, across page boundaries; without faults every
    append succeeds. *)
Theorem appends_in_order calls id inode refs (s s' : NS DB) r :
  appendable (ns_db s) id inode refs ->
  i2_ExtentRoot inode + Z.of_nat (length calls) < 2 ^ 64 - 3 ->
  i2_ExtentPageCount inode + Z.of_nat (length calls) < 2 ^ 32 ->
  append_all calls id s = (s', r) ->
  (r = Ok tt ->
   inode2_ResolveExtents (ns_db s') id =
   Ok (refs ++ map (fun c => mkExtentRef (ex_ID c.1.2) c.2) calls)) /\
  (writable s -> Forall (fun c => calm_env c.1.1) calls -> r = Ok tt).
Proof.
  revert inode refs s. induction calls as [|[[e x] offset] calls IH]; intros inode refs s A Hr Hc E;
    cbn [append_all length map] in *.
  { injection E as <- <-. split; [|done]. intros _. rewrite app_nil_r. apply A. }
  nstep E s1 root E1; apply (AppendExtent_run _ _ _ _ _ _ _ _ _ A) in E1 as (F1 & F2 & E1);
    unfold room in *; try lia.
  - destruct E1 as (_ & inode' & A' & Hr' & Hc'). apply (IH inode' _ s1 A') in E as [V L]; [|lia..].
    split.
    + intros Hok. rewrite (V Hok), <- app_assoc. done.
    + intros [Hw1 Hw2] Hcalm. apply Forall_cons_1 in Hcalm as [_ Hcalm]. apply L; [|done].
      unfold writable. by rewrite F1, F2.
  - split; [done|]. intros [Hw1 Hw2] Hcalm. apply Forall_cons_1 in Hcalm as [Hcalm _]. cbn in Hcalm.
    destruct E1 as [_ [?|Fa]]; [congruence|]. by destruct (calm_no_fault e s Hcalm (conj Hw1 Hw2)).
Qed.

(** ** Committing chunks and resolving them *)

Lemma ResolveExtents_run id refs (s : NS DB) :
  ns_closed s = false -> inode2_ResolveExtents (ns_db s) id = Ok refs -> ResolveExtents id s = (s, Ok refs).
Proof. intros Hc V. unfold ResolveExtents, nbind, enter_ns, nget, nlift. by rewrite Hc, V. Qed.

(** The write [CommitChunkRefsModelAware] makes of a chunk reference. *)
Definition write_of (ref : ChunkRef) (w : ExtentWrite) : Prop :=
  exists class stripe, w = mkExtentWrite (Some (extentForRef ref class stripe)) (cr_Offset ref).

Lemma ecClassForRef_run ref (s : NS DB) : exists class stripe, ecClassForRef ref s = (s, Ok (class, stripe)).
Proof.
  unfold ecClassForRef. destruct (GetChunk (cr_ID ref) s) as [s1 r] eqn:E.
  assert (s1 = s) as ->.
  { unfold GetChunk in E. nstep E s2 u E1; apply enter_cases in E1 as [[Er ->]|(? & Er & -> & _)]; try discriminate Er; try done.
    unfold nbind, nget, nlift in E. destruct (getValue (ns_db s) _) as [[c|]|]; injection E; congruence. }
  destruct r as [ch|]; [|by eexists _, _]. destruct (ck_ECGroup ch); by eexists _, _.
Qed.

Lemma extent_writes_run refs (s : NS DB) :
  exists writes, extent_writes refs s = (s, Ok writes) /\ Forall2 write_of refs writes.
Proof.
  induction refs as [|ref refs (writes & E & F)]; [by exists []|]. cbn [extent_writes].
  destruct (ecClassForRef_run ref s) as (class & stripe & Ec). eexists. unfold nbind. rewrite Ec, E.
  split; [reflexivity|]. constructor; [by exists class, stripe|done].
Qed.

(** What survives of a chunk reference: all but its version. *)
Definition unversioned (ref : ChunkRef) : ChunkRef := mkChunkRef (cr_ID ref) (cr_Offset ref) (cr_Length ref) 0.

Definition chunk_refs_ok (refs : list ChunkRef) : Prop :=
  Forall (fun ref => is_u64 (cr_ID ref) /\ - 2 ^ 31 <= cr_Length ref < 2 ^ 31) refs /\
  NoDup (map cr_ID refs) /\ len refs <= 2 ^ 39.

Lemma writes_view refs writes :
  Forall2 write_of refs writes ->
  refs_of writes = map (fun ref => mkExtentRef (cr_ID ref) (cr_Offset ref)) refs /\
  map ex_ID (extents_of writes) = map cr_ID refs /\
  Forall2 (fun ref x => exists class stripe, x = extentForRef ref class stripe) refs (extents_of writes) /\
  length writes = length refs.
Proof.
  induction 1 as [|ref w refs writes (class & stripe & ->) F (V & I & X & L)]; [by repeat constructor|].
  unfold refs_of, extents_of in *. cbn [page_refs omap list_omap xw_Extent xw_Offset map length].
  assert (page_refs writes = Ok (refs_of writes)) as Ep.
  { apply page_refs_some. clear -F. induction F as [|? ? ? ? (? & ? & ->)]; constructor; [by eexists|done]. }
  unfold refs_of in Ep. rewrite Ep in *. cbn [mbind result_bind]. rewrite V, I, L. split; [done|]. split; [done|].
  split; [|done]. constructor; [by eexists _, _|done].
Qed.

Lemma i32_small x : - 2 ^ 31 <= x < 2 ^ 31 -> i32 x = x.
Proof.
  intros Hx. unfold i32, wrap. destruct (Z.le_gt_cases 0 x).
  - rewrite Z.mod_small by lia. destruct (Z.ltb_spec x (2 ^ 31)); lia.
  - rewrite <- (Z.mod_add x 1) by lia. rewrite Z.mod_small by lia.
    destruct (Z.ltb_spec (x + 1 * 2 ^ 32) (2 ^ 31)); lia.
Qed.

(** Resolving extents whose metadata rows are there. *)
Lemma chunks_of_extents_run (offset : ChunkRef -> Z) refs xs (s : NS DB) :
  ns_closed s = false -> Forall (fun ref => - 2 ^ 31 <= cr_Length ref < 2 ^ 31) refs ->
  Forall2 (fun ref x => exists class stripe, x = extentForRef ref class stripe) refs xs ->
  Forall (meta_row (ns_db s)) xs ->
  chunks_of_extents (map (fun ref => mkExtentRef (cr_ID ref) (offset ref)) refs) s =
  (s, Ok (map (fun ref => mkChunkRef (cr_ID ref) (offset ref) (cr_Length ref) 0) refs)).
Proof.
  intros Hc Hl F Hm. induction F as [|ref x refs xs (class & stripe & ->) F IH]; [done|].
  apply Forall_cons_1 in Hm as [Hm1 Hm]. apply Forall_cons_1 in Hl as [Hl1 Hl]. cbn [map chunks_of_extents].
  assert (GetExtentMeta (cr_ID ref) s = (s, Ok (extentForRef ref class stripe))) as Eg.
  { unfold GetExtentMeta, nbind, enter_ns, nget, nlift, getValue. rewrite Hc. unfold meta_row in Hm1.
    change (ex_ID (extentForRef ref class stripe)) with (cr_ID ref) in Hm1.
    by rewrite Hm1, unmarshalValue_marshalValue. }
  unfold nbind. cbn [xr_ExtentID xr_LogicalOffset]. rewrite Eg, (IH Hl Hm).
  cbn [extentForRef ex_LogicalLen]. by rewrite i32_small.
Qed.

(** The call a commit of these references comes down to: the inline layout
    has no place for the offset. *)
Definition commit_outcome (e : x_env) (id root : Z) (old : list ExtentRef) (refs : list ChunkRef) (size : Z)
    (s s' : NS DB) (r : mgo unit) : Prop :=
  exists (offset : ChunkRef -> Z) xs args,
    call_outcome e id root old (map (fun ref => mkExtentRef (cr_ID ref) (offset ref)) refs) xs args s s' r /\
    Forall2 (fun ref x => exists class stripe, x = extentForRef ref class stripe) refs xs /\
    map ex_ID xs = map cr_ID refs /\
    (forall ref, ref ∈ refs ->
       offset ref = if (len refs =? 1) && (size <=? MaxInlineExtentSize) then 0 else cr_Offset ref).

Lemma commit_is_call en e id inode refs size root old (s s' : NS DB) r :
  holds s id root old -> im_ID inode = id -> ns_closed s = false -> root < 2 ^ 64 - 3 -> chunk_refs_ok refs ->
  refs <> [] \/ im_ChunkMap inode = [] /\ old <> [] ->
  CommitChunkRefsModelAware useBucketStats en e true inode refs size s = (s', r) ->
  commit_outcome e id root old refs size s s' r.
Proof.
  intros Hh Hid Hc Hroom (Hok & Hd & Hlen) Hv2 E. unfold CommitChunkRefsModelAware in E. cbn [negb] in E.
  assert (exists isV2 : bool, (if negb (len (im_ChunkMap inode) =? 0) then nret false else
     do* refs := ResolveExtents (im_ID inode) in nret (0 <? len refs)) s = (s, Ok isV2) /\
     (isV2 || (0 <? len refs)) = true) as (isV2 & Eb & Hor).
  { assert (ResolveExtents id s = (s, Ok old)) as Er.
    { destruct Hh as (row & R & _ & V). by apply ResolveExtents_run. }
    destruct (negb (len (im_ChunkMap inode) =? 0)) eqn:En; [exists false|exists (0 <? len old)].
    - split; [done|]. destruct Hv2 as [?|[Hm _]]; [by destruct refs|by rewrite Hm in En].
    - split; [unfold nbind; by rewrite Hid, Er|].
      destruct Hv2 as [Hr|[_ Ho]]; [destruct refs; [done|by rewrite orb_true_r]|by destruct old]. }
  unfold nbind at 1 in E. rewrite Eb, Hor in E.
  assert (forall ws, Forall2 write_of refs ws ->
    (match refs with [_] => false | _ => true end || negb (size <=? MaxInlineExtentSize)) = true ->
    ReplaceExtents useBucketStats e (im_ID inode) ws size s = (s', r) ->
    commit_outcome e id root old refs size s s' r) as Rep.
  { intros ws Fw Hcase Er. destruct (writes_view _ _ Fw) as (V & I & X & L). rewrite Hid in Er.
    eexists cr_Offset, _, _. split; [rewrite <- V; eapply ReplaceExtents_run; try done; by rewrite L|].
    split; [done|]. split; [done|]. intros ref Hin.
    assert ((len refs =? 1) && (size <=? MaxInlineExtentSize) = false) as ->; [|done].
    destruct (size <=? MaxInlineExtentSize); [|apply andb_false_r]. rewrite orb_false_r in Hcase.
    rewrite andb_true_r. apply Z.eqb_neq. by destruct refs as [|? [|? ?]]; cbn [length]; [lia| |lia]. }
  destruct refs as [|ref [|ref2 refs]].
  - destruct (extent_writes_run [] s) as (ws & Ew & Fw). unfold nbind at 1 in E. rewrite Ew in E.
    by apply (Rep ws).
  - destruct (Z.leb_spec size MaxInlineExtentSize) as [Hs|Hs].
    + destruct (ecClassForRef_run ref s) as (class & stripe & Ec). unfold nbind at 1 in E. rewrite Ec, Hid in E.
      eexists (fun _ => 0), [extentForRef ref class stripe], _.
      split; [exact (SetInlineExtent_run _ _ _ _ _ _ _ _ _ _ Hh E)|].
      split; [by repeat constructor; eexists _, _|]. split; [done|].
      intros ref' _. by rewrite (proj2 (Z.leb_le _ _) Hs).
    + destruct (extent_writes_run [ref] s) as (ws & Ew & Fw). unfold nbind at 1 in E. rewrite Ew in E.
      by apply (Rep ws).
  - destruct (extent_writes_run (ref :: ref2 :: refs) s) as (ws & Ew & Fw). unfold nbind at 1 in E.
    rewrite Ew in E. by apply (Rep ws).
Qed.

(** C23: committing chunks with distinct ids to a file in the extent model and
    resolving the file returns the same chunks in the same order, ids, offsets
    and lengths, provided that a single chunk small enough for the inline
    layout is at offset 0 (elsewhere it loses its offset,
    [inline_extent_loses_offset]); a commit that fails at any of its row writes
    leaves the file's extents as they were. The chunks are not empty, or the
    file has extents and no chunk list, so that the commit takes the extent
    path. *)
Theorem commit_then_resolve en e id inode refs size root old (s s' : NS DB) r :
  holds s id root old -> im_ID inode = id -> ns_closed s = false -> root < 2 ^ 64 - 3 -> chunk_refs_ok refs ->
  refs <> [] \/ im_ChunkMap inode = [] /\ old <> [] ->
  (forall ref, refs = [ref] -> size <= MaxInlineExtentSize -> cr_Offset ref = 0) ->
  CommitChunkRefsModelAware useBucketStats en e true inode refs size s = (s', r) ->
  match r with
  | Ok _ => exists inode', @getValue _ _ _ CI (ns_db s') (inodeKey id) = Ok (Some inode') /\
      ResolveFileChunks true inode' s' = (s', Ok (map unversioned refs))
  | Err _ => inode2_ResolveExtents (ns_db s') id = Ok old
  end.
Proof.
  intros Hh Hid Hc Hroom Hrefs Hv2 Hoff E.
  destruct (commit_is_call _ _ _ _ _ _ _ _ _ _ _ Hh Hid Hc Hroom Hrefs Hv2 E)
    as (offset & xs & args & (_ & _ & F2 & Out) & X & I & O).
  destruct r as [[]|err]; [|destruct Out as [(row & _ & _ & V) _]; exact V].
  destruct Out as (_ & (root' & _ & row & R & _ & V) & (next & Hrow & Hn) & Hm).
  exists (v1_of_v2 next). split; [unfold getValue; by rewrite Hrow, decode_v2_as_v1|].
  unfold ResolveFileChunks. cbn [v1_of_v2 im_ChunkMap im_ID length negb]. change (0 <? Z.of_nat 0) with false.
  cbv beta iota. unfold nbind. rewrite Hn, (ResolveExtents_run _ _ _ (eq_trans F2 Hc) V).
  rewrite (chunks_of_extents_run offset refs xs); [| | |done|].
  - f_equal. f_equal. apply map_ext_in. intros ref Hin. apply list_elem_of_In in Hin. unfold unversioned. f_equal.
    rewrite (O ref Hin). destruct ((len refs =? 1) && (size <=? MaxInlineExtentSize)) eqn:Ei; [|done].
    apply andb_true_iff in Ei as [E1 E2]. apply Z.eqb_eq in E1. apply Z.leb_le in E2. symmetry.
    destruct refs as [|x [|y refs]]; cbn [length] in E1; try lia.
    apply list_elem_of_singleton in Hin as ->. by apply Hoff.
  - by rewrite F2.
  - destruct Hrefs as (Hok & _). eapply Forall_impl; [|exact Hok]. by intros ? [].
  - apply Hm. destruct Hrefs as (Hok & Hd & _). split; [|by rewrite I].
    clear -X Hok. induction X as [|ref x refs xs (class & stripe & ->) X IH]; constructor;
      apply Forall_cons_1 in Hok as [[Hu _] Hok]; [exact Hu|by apply IH].
Qed.

(** ** Where the layouts fail *)

(** A single chunk that is not at the start of its file loses its offset in
    the inline layout: it is resolved at offset 0. *)
Theorem inline_extent_loses_offset en e id inode ref size root old (s s' : NS DB) :
  holds s id root old -> im_ID inode = id -> ns_closed s = false -> root < 2 ^ 64 - 3 -> chunk_refs_ok [ref] ->
  size <= MaxInlineExtentSize ->
  CommitChunkRefsModelAware useBucketStats en e true inode [ref] size s = (s', Ok tt) ->
  inode2_ResolveExtents (ns_db s') id = Ok [mkExtentRef (cr_ID ref) 0].
Proof.
  intros Hh Hid Hc Hroom Hrefs Hs E.
  destruct (commit_is_call _ _ _ _ _ _ _ _ _ _ _ Hh Hid Hc Hroom Hrefs ltac:(by left) E)
    as (offset & xs & args & (_ & _ & _ & Out) & _ & _ & O).
  destruct Out as (_ & (root' & _ & row & R & _ & V) & _). rewrite V. cbn [map]. rewrite (O ref) by (by left).
  by rewrite (proj2 (Z.leb_le _ _) Hs).
Qed.

(** Promoting a file that is already paged (a repeated call) gives it one
    empty page: its extents are gone. *)
Theorem promote_twice_erases e id inode (s s' : NS DB) :
  v2_row (ns_db s) id inode -> room inode -> i2_InlineExtent inode = None ->
  inode2_PromoteToPages e id s = (s', Ok tt) -> inode2_ResolveExtents (ns_db s') id = Ok [].
Proof.
  intros R Hroom Hi E. destruct (inode2_PromoteToPages_run _ _ _ _ _ _ R Hroom E) as [_ (inode' & R' & Hl & Hr & Hc & Hp)].
  rewrite (resolve_paged _ _ _ R' Hl), Hr, Hc. unfold inline_refs in Hp. rewrite Hi in Hp.
  change (Z.to_nat 1) with 1%nat. cbn [resolve_pages].
  pose proof (vr_root _ _ _ R). assert (0 < i2_ExtentRoot inode + 1) as Hpos by lia.
  by rewrite (resolve_top _ _ _ _ _ Hpos Hp).
Qed.
End Theorems.

(** ** A concrete store *)

(** Any countable type as a document of one number. *)
Definition count_codec {A} `{Countable A} : Codec A :=
  doc_codec (fun a => [[Zpos (encode a)]])
            (fun l => match l with [[Zpos p]] => decode p | _ => None end).

Lemma count_codec_laws {A} `{Countable A} : @CodecLaws A count_codec.
Proof. apply doc_codec_laws. intros a. apply countable.decode_encode. Qed.

#[export] Instance ExtentRef_countable : Countable ExtentRef.
Proof.
  refine (inj_countable' (fun r => (xr_ExtentID r, xr_LogicalOffset r)) (fun p => mkExtentRef p.1 p.2) _).
  by intros [].
Defined.

#[export] Instance ExtentPage_countable : Countable ExtentPage.
Proof.
  refine (inj_countable' (fun r => (xp_InodeID r, xp_PageNo r, xp_Extents r))
            (fun p => mkExtentPage p.1.1 p.1.2 p.2) _).
  by intros [].
Defined.

#[export] Instance ExtentMetaV2_countable : Countable ExtentMetaV2.
Proof.
  refine (inj_countable'
    (fun x => [[ex_ID x; ex_Generation x; ex_LogicalLen x; ex_Checksum x; ex_PGID x; ex_PlacementEpoch x;
                ex_Lifecycle x; ex_StorageClass x; ex_CreatedAt x]; ex_ECStripeID x])
    (fun l => match l with
              | [[a; b; c; d; e; f; g; h; i]; s] => mkExtentMetaV2 a b c d e f g h s i
              | _ => mkExtentMetaV2 0 0 0 0 0 0 0 0 [] 0
              end) _).
  by intros [].
Defined.

(** Replicas as three fields each. *)
Definition replica_fields (l : list ReplicaInfo) : list (list Z) :=
  concat (map (fun r => [[ri_NodeID r; ri_State r; ri_ShardIndex r]; ri_Addr r; ri_DiskPath r]) l).

Fixpoint replicas_of (l : list (list Z)) : list ReplicaInfo :=
  match l with [a; b; c] :: addr :: path :: l => mkReplicaInfo a addr b path c :: replicas_of l | _ => [] end.

Lemma replicas_of_fields l : replicas_of (replica_fields l) = l.
Proof. unfold replica_fields. induction l as [|[] l IH]; [done|]. cbn. by rewrite IH. Qed.

#[export] Instance page_codec : Codec ExtentPage := count_codec.
#[export] Instance extent_codec : Codec ExtentMetaV2 := count_codec.
(** A chunk id that is not a uint64 does not decode. *)
#[export] Instance chunk_codec : Codec ChunkMeta :=
  doc_codec
    (fun c => [ck_ID c; ck_Size c; ck_State c; ck_Tier c; ck_CreateTime c; ck_Checksum c; ck_PGID c; ck_Epoch c;
               ck_Generation c]
              :: match ck_ECGroup c with
                 | Some g => [eg_DataShards g; eg_ParityShards g; eg_ShardIndex g] | None => [] end
              :: match ck_ECGroup c with Some g => eg_GroupID g | None => [] end
              :: match ck_ECGroup c with Some g => eg_ProfileID g | None => [] end
              :: ck_ECStripeID c :: replica_fields (ck_Replicas c))
    (fun l => match l with
              | [a; b; c; d; e; f; g; h; i] :: shards :: group :: profile :: stripe :: l =>
                  if bool_decide (0 <= a < 2 ^ 64)
                  then Some (mkChunkMeta a b c (replicas_of l)
                               (match shards with [p; q; r] => Some (mkECGroupInfo group profile p q r) | _ => None end)
                               d e f g h i stripe)
                  else None
              | _ => None
              end).
#[export] Instance page_laws : CodecLaws ExtentPage.
Proof. exact count_codec_laws. Qed.
#[export] Instance extent_laws : CodecLaws ExtentMetaV2.
Proof. exact count_codec_laws. Qed.

(** No write fails; or the inode row's first write does. *)
Definition calm_x : x_env := mkXEnv (fun _ => 7) (fun _ => None) (fun _ => None) (fun _ => None) (fun _ => None).
Definition row_fails : x_env :=
  mkXEnv (fun _ => 7) (fun _ => None) (fun _ => None) (fun _ => Some MUnexpectedEOF) (fun _ => None).

(** A file, inode 2, without data; its extent [n] has [100 n] bytes. *)
Definition one_file : NS Mem := (CreateEmpty calm_x 2 FileRegular 0 0 0 420 fresh).1.
Definition ext (n : Z) : ExtentMetaV2 := mkExtentMetaV2 n 1 (100 * n) 0 0 0 LifecycleReady 0 [] 0.
Definition put_ext (n : Z) : ExtentWrite := mkExtentWrite (Some (ext n)) (1000 * n).

(** Run one call after another, dropping errors. *)
Definition after {A} (m : N Mem A) (s : NS Mem) : NS Mem := (m s).1.

(** A zero-byte overwrite leaves a paged file without pages; the next append
    writes page 0 but does not count it, and the extent is lost although the
    call succeeds. *)
Theorem emptied_file_loses_append :
  let s1 := after (ReplaceExtents false calm_x 2 [] 0) one_file in
  let (s2, r) := AppendExtent false calm_x 2 (Some (ext 5)) 0 s1 in
  is_ok r = true /\ inode2_ResolveExtents (ns_db s2) 2 = Ok [].
Proof. vm_compute. done. Qed.

(** A replacement whose pages were written but whose inode row was not leaves
    its pages under the root the next append switches to: the file then shows
    the first page of the abandoned replacement. *)
Theorem abandoned_replace_resurfaces :
  let full := map put_ext (seqZ 1 257) in
  let s1 := after (ReplaceExtents false calm_x 2 full 0) one_file in
  let s2 := after (ReplaceExtents false row_fails 2 [put_ext 900] 0) s1 in
  let s3 := after (AppendExtent false calm_x 2 (Some (ext 300)) 300000) s2 in
  inode2_ResolveExtents (ns_db s2) 2 = inode2_ResolveExtents (ns_db s1) 2 /\
  inode2_ResolveExtents (ns_db s3) 2 =
    Ok [mkExtentRef 900 900000; mkExtentRef 257 257000; mkExtentRef 300 300000].
Proof. vm_compute. done. Qed.

(** ** Witnesses *)

Lemma one_file_holds : holds one_file 2 0 [].
Proof.
  eexists. split; [constructor|].
  - done.
  - eexists _, _. split; [vm_compute; reflexivity|]. split; [vm_compute; reflexivity|].
    split; vm_compute; reflexivity.
  - done.
  - done.
  - done.
  - split; vm_compute; reflexivity.
Qed.

Definition sample_history : list (x_env * xop) :=
  [(calm_x, XReplace 2 [put_ext 1; put_ext 2] 0); (row_fails, XInline 2 (Some (ext 9)) 900);
   (calm_x, XInline 2 (Some (ext 3)) 300); (row_fails, XReplace 2 [put_ext 4] 400)].

(** C1 on a history of two successful and two failing calls. *)
Lemma extents_refine_map_witness :
  (xrun false sample_history one_file).2 = [Ok tt; Err MUnexpectedEOF; Ok tt; Err MUnexpectedEOF] /\
  represents 0 (xrun false sample_history one_file).1 (<[2 := [mkExtentRef 3 0]]> (<[2 := [mkExtentRef 1 1000; mkExtentRef 2 2000]]> {[2 := []]})).
Proof.
  assert ((xrun false sample_history one_file).2 = [Ok tt; Err MUnexpectedEOF; Ok tt; Err MUnexpectedEOF]) as Er
    by (vm_compute; reflexivity).
  split; [exact Er|].
  refine (proj1 (extents_refine_map false sample_history {[2 := []]} one_file _ _ _ _
    (result_of (xrun false sample_history one_file) _ Er))).
  - intros id refs Hid. apply lookup_singleton_Some in Hid as [<- <-]. exists 0. split; [done|exact one_file_holds].
  - repeat constructor; cbn; rewrite ?lookup_singleton_eq; try done; eexists; reflexivity.
Defined.

(** A paged file with one extent. *)
Definition paged : NS Mem := after (ReplaceExtents false calm_x 2 [put_ext 1] 0) one_file.

Definition paged_keys : list (list Z) := Eval vm_compute in map fst (map_to_list (ns_db paged)).

Lemma paged_pages r p : 1 < r < 2 ^ 64 -> is_u64 p -> kv_get (ns_db paged) (extentPageKey 2 r p) = None.
Proof.
  intros Hr Hp. destruct (kv_get (ns_db paged) (extentPageKey 2 r p)) as [v|] eqn:E; [|done]. exfalso.
  change (ns_db paged !! extentPageKey 2 r p = Some v) in E.
  apply elem_of_map_to_list in E. apply (list_elem_of_fmap_2 fst) in E.
  assert (fst <$> map_to_list (ns_db paged) = paged_keys) as Ek by (vm_compute; reflexivity). rewrite Ek in E.
  assert (Forall (fun k => k = extentPageKey 2 1 0 \/ HasPrefix k prefixExtentPage = false) paged_keys) as F
    by (repeat constructor; (by left) || (by right)).
  rewrite Forall_forall in F. apply list_elem_of_In in E. destruct (F _ E) as [Eq|Eq]; cbn [fst] in Eq.
  - apply extentPageKey_inj in Eq as (_ & -> & _); [lia|unfold uintw in *; lia..].
  - discriminate Eq.
Qed.

Definition paged_row : InodeMetaV2 :=
  mkInodeMetaV2 2 0 0 0 0 0 0 420 7 7 7 LayoutExtentPages None 1 1 1 [] ∅.

Lemma paged_appendable : exists inode, appendable (ns_db paged) 2 inode [mkExtentRef 1 1000] /\
  i2_ExtentRoot inode = 1 /\ i2_ExtentPageCount inode = 1.
Proof.
  exists paged_row. split; [constructor|].
  - constructor; [done| |done..].
    eexists _, _. split; [vm_compute; reflexivity|]. split; [vm_compute; reflexivity|].
    split; vm_compute; reflexivity.
  - done.
  - done.
  - done.
  - vm_compute; reflexivity.
  - exists [mkExtentRef 1 1000]. vm_compute; reflexivity.
  - exact paged_pages.
  - split; vm_compute; reflexivity.
Qed.

Lemma calm_x_calm : calm_env calm_x.
Proof. done. Qed.

Definition many_appends : list (x_env * ExtentMetaV2 * Z) :=
  map (fun n => (calm_x, ext n, 1000 * n)) (seqZ 2 300).

(** C2 on 300 appends, which fill one page and open the next. *)
Lemma appends_in_order_witness :
  inode2_ResolveExtents (ns_db (append_all false many_appends 2 paged).1) 2 =
  Ok (mkExtentRef 1 1000 :: map (fun n => mkExtentRef n (1000 * n)) (seqZ 2 300)).
Proof.
  destruct paged_appendable as (inode & A & Hr & Hc).
  destruct (appends_in_order false many_appends 2 inode [mkExtentRef 1 1000] paged _ _ A
    ltac:(rewrite Hr; done) ltac:(rewrite Hc; done) (surjective_pairing _)) as [V L].
  rewrite V; [vm_compute; reflexivity|]. apply L; [split; vm_compute; reflexivity|].
  apply Forall_forall. intros c Hin. apply in_map_iff in Hin as (n & <- & _). exact calm_x_calm.
Defined.

Definition two_chunks : list ChunkRef := [mkChunkRef 11 0 400 5; mkChunkRef 12 400 50 5].

Lemma two_chunks_ok : chunk_refs_ok two_chunks.
Proof.
  split; [repeat apply Forall_cons_2; unfold uintw; cbn; try done; lia|].
  split; [apply (bool_decide_unpack _); vm_compute; exact I|done].
Qed.

(** C3 on a commit of two chunks to the paged file. *)
Lemma commit_then_resolve_witness :
  exists inode',
    @getValue _ _ _ inode_codec (ns_db (CommitChunkRefsModelAware false calm calm_x true
      (mkInodeMeta 2 0 0 0 0 0 0 420 7 7 7 0 [] [] ∅) two_chunks 450 paged).1) (inodeKey 2) = Ok (Some inode') /\
    (ResolveFileChunks true inode' (CommitChunkRefsModelAware false calm calm_x true
      (mkInodeMeta 2 0 0 0 0 0 0 420 7 7 7 0 [] [] ∅) two_chunks 450 paged).1).2 =
    Ok [mkChunkRef 11 0 400 0; mkChunkRef 12 400 50 0].
Proof.
  set (inode := mkInodeMeta 2 0 0 0 0 0 0 420 7 7 7 0 [] [] ∅).
  assert ((CommitChunkRefsModelAware false calm calm_x true inode two_chunks 450 paged).2 = Ok tt) as Er
    by (vm_compute; reflexivity).
  destruct paged_appendable as (row & A & Hr & _).
  set (run := CommitChunkRefsModelAware false calm calm_x true inode two_chunks 450 paged) in *.
  destruct (commit_then_resolve false calm calm_x 2 inode two_chunks 450 1 [mkExtentRef 1 1000] paged run.1 (Ok tt))
    as (inode' & G & V); [| | | | | | |exact (result_of _ _ Er)|].
  - exists row. split; [apply A|]. split; [exact Hr|apply A].
  - reflexivity.
  - vm_compute; reflexivity.
  - reflexivity.
  - exact two_chunks_ok.
  - left. discriminate.
  - intros ref Ew. discriminate Ew.
  - exists inode'. split; [exact G|]. by rewrite V.
Defined.
