(* ===== verification/ChunkTheorems.v ===== *)
(** * Theorems about chunk tombstones, garbage collection and allocation *)

From stdpp Require Import base list sorting numbers strings gmap countable.
From Stdlib Require Import ZArith Lia.
From S2P Require Import Prelude Bytes Pebble MetaKeys MetaScan MetaTypes RaftLog MetaFSMProofs.
From S2P Require Import MetaFSM Namespace Extents ChunkRules ChunkGC MetaFSMProofs NamespaceSpec ExtentProofs ChunkProofs.
From S2P Require Import ChunkProofs MetaScenario ExtentTheorems.

Local Open Scope Z_scope.
Local Open Scope go_scope.

Section Theorems.
Context {DB : Type} `{KL : PebbleLaws DB}.
Context `{CI : Codec InodeMeta} `{C2 : Codec InodeMetaV2} `{CP : Codec ExtentPage}.
Context `{CK : Codec ChunkMeta} `{CT : Codec ChunkTombstone}.
Context `{CB : Codec BackupCatalogState} `{CC : Codec CommittedBackup}.

(** C6: garbage collection is safe. One scan, live or dry, over a store no
    other client changes: inode rows, extent pages and every row that is not a
    chunk's or a tombstone's stay, so do the rows of every chunk a file refers
    to, and a chunk row disappears only when no file refers to the chunk, its
    tombstone was there before the scan and has served its 25 hours, and the
    backup catalogue is fresh, not empty, and has only backups made after the
    deletion. A dry run changes nothing. Chunk ids are uint64, and the scan
    itself takes less than the quarantine. *)
Theorem gc_keeps_referenced (LT : CodecLaws ChunkTombstone) rules g clock3 clock4 dry (db db' : DB) r refs :
  (forall raw c, @unmarshalValue _ CK raw = Ok c -> is_u64 (ck_ID c)) ->
  (forall id, clock4 id < clock3 id + chunkTombstoneQuarantine) ->
  scan_references db = Ok refs ->
  gc_Scan rules g clock3 clock4 dry db = (r, db') ->
  keeps refs db db' /\ scan_references db' = Ok refs /\
  (forall id, is_u64 id -> kv_get db' (chunkMetadataKey id) <> kv_get db (chunkMetadataKey id) ->
     kv_get db' (chunkMetadataKey id) = None /\ id ∉ refs /\ due db id (clock4 id)) /\
  (dry = true -> db' = db).
Proof.
  intros Hw Hc Hs E. destruct (gc_Scan_run rules Hw g _ _ _ _ _ _ _ Hs E) as (mid & T & P).
  pose proof T as (Kt & Ct & _). pose proof P as (Kp & Rp & Dp).
  assert (keeps refs db db') as K by by apply (keeps_trans _ _ mid).
  split; [done|]. split; [by rewrite (scan_references_ext _ _ (proj1 K))|]. split.
  - intros id W Hne. rewrite <- Ct in Hne. destruct (Dp id Hne) as (id' & W' & Ek & Hn & Hd).
    apply chunkMetadataKey_inj in Ek as ->; [|done..]. split; [|split; [done|]].
    + destruct (kv_get db' (chunkMetadataKey id)) as [v|] eqn:Ev; [|done]. apply Rp in Ev. congruence.
    + exact (due_at_start LT _ _ _ _ _ _ Hc T Hd).
  - intros ->. pose proof (gc_Scan_dry rules g clock3 clock4 db) as D. by rewrite E in D.
Qed.

(** C22: a purge is safe whatever other clients do between its reads and its
    commit: it changes nothing, or it succeeded, some inode scan of the call
    did not find the chunk, in the database of the commit the tombstone has
    served its quarantine, and exactly the chunk's two rows go; the catalogue
    state that allowed the deletion was read between two reads of the very row
    the commit was made against. When that row does not return to an earlier
    value during the call, the catalogue of the commit itself allows it. *)
Theorem purge_only_when_safe rules g sn_at at_ (now_db db' : DB) id now r :
  PurgeChunk rules g sn_at at_ now_db id now = (r, db') ->
  db' = now_db \/
  (r = Ok tt /\ purged_if (allowed_between g at_ now) now_db db' id now /\
   (no_return at_ -> purged now_db db' id now) /\ exists n refs, scan_references (sn_at n) = Ok refs /\ id ∉ refs).
Proof.
  intros E. unfold PurgeChunk in E. destruct (ge_closed g); [left; by injection E as <- <-|].
  destruct (stableInodeReferenceSnapshot g sn_at) as [sn|e] eqn:Es; [|left; by injection E as <- <-].
  apply snapshot_read in Es as [n Hn]. apply (purge_run rules) in E as [->|(-> & Hc & P)]; [by left|].
  right. split; [done|]. split; [done|]. split; [intros Ha; by eapply purged_no_return|]. exists n, (sn_references sn). split; [done|].
  by apply bool_decide_eq_false in Hc.
Qed.

(** C7: tombstones stay snapshots of their chunks. Any conditional batch of
    version 3 or 4, whoever built it, that the row checks accept and that
    commits keeps this: every durable tombstone of a uint64 id is canonical
    and has its chunk's row beside it, with the same id, size and replicas. *)
Theorem chunk_batches_keep_pairs task catalog hook fail (db db' : DB) b :
  cb_Version b = chunkTombstoneConditionalBatchVersion \/ cb_Version b = chunkTombstoneFencedBatchVersion ->
  applyConditionalBatchWithHook (chunk_rules task catalog) hook fail db (Some b) = Ok db' ->
  paired db -> paired db'.
Proof.
  intros Hv E. set (rules := chunk_rules task catalog) in *.
  destruct (canonicalConditionalBatch rules (Some b)) as [c|e] eqn:V.
  2:{ unfold applyConditionalBatchWithHook in E. rewrite V in E. discriminate E. }
  destruct (chunk_batch_shape task catalog b c Hv V) as [Hr Hs]. pose proof (canonical_fixed _ _ _ V) as Vc.
  assert (applyConditionalBatchWithHook rules hook fail db (Some c) = Ok db') as Ec.
  { unfold applyConditionalBatchWithHook in *. by rewrite Vc, V in *. }
  pose proof (conditional_exact rules hook fail db c c Vc Hr) as X. rewrite Ec in X.
  destruct X as (_ & _ & Hp & U). exact (shape_keeps _ _ _ _ Hs Hp U).
Qed.

(** [m'] is [m] with references to [chunks] at [offsets], modified at [now]. *)
Record grown (now : Z) (offsets : list Z) (chunks : list ChunkMeta) (m m' : InodeMeta) : Prop := mkGrown {
  gw_refs : im_ChunkMap m' = im_ChunkMap m ++ zip_with (fun c o => mkChunkRef (ck_ID c) o 0 now) chunks offsets;
  gw_mtime : im_MTime m' = now;
  gw_same : (im_ID m', im_Type m', im_Size m', im_NLink m', im_BucketRoot m') =
            (im_ID m, im_Type m, im_Size m, im_NLink m, im_BucketRoot m) /\
            (im_UID m', im_GID m', im_Mode m', im_CTime m', im_ATime m', im_Rdev m') =
            (im_UID m, im_GID m, im_Mode m, im_CTime m, im_ATime m, im_Rdev m) /\
            (im_Symlink m', im_XAttrs m') = (im_Symlink m, im_XAttrs m)
}.

(** C24: what an allocation commits. When chunks are returned, the commit was
    made against a database with no row and no tombstone for any of their
    ids; it added exactly their rows and rewrote the inode's row, every other
    row is as it was. A V1 row keeps everything and gets one reference per
    chunk at its offset. A V2 row is replaced by the V1 row of the fields the
    two share, with those references alone: the file's extents are dropped
    from it. *)
Theorem allocation_exact {LI : CodecLaws InodeMeta} {L2 : CodecLaws InodeMetaV2} {AL : InodeAlias} rules g at_ commit_db clock build inodeID offsets chunks (db' : DB) :
  is_u64 inodeID ->
  AllocateChunksBatch rules g at_ commit_db clock build inodeID offsets = Ok (Some (chunks, db')) ->
  0 < len offsets <= MaxChunkAllocationBatch /\
  exists n, (n < allocationConditionalAttempts)%nat /\ build n = Ok chunks /\
    allocated (commit_db n) db' inodeID (clock n) offsets chunks /\
    (forall m : InodeMeta, kv_get (commit_db n) (inodeKey inodeID) = Some (marshalValue m) ->
       exists m' : InodeMeta, kv_get db' (inodeKey inodeID) = Some (marshalValue m') /\
         grown (clock n) offsets chunks m m') /\
    (forall m : InodeMetaV2, kv_get (commit_db n) (inodeKey inodeID) = Some (marshalValue m) ->
       exists m' : InodeMeta, kv_get db' (inodeKey inodeID) = Some (marshalValue m') /\
         grown (clock n) offsets chunks (v1_of_v2 m) m' /\ inode2_ResolveExtents db' inodeID = Ok []).
Proof.
  intros W E. unfold AllocateChunksBatch in E. destruct (ge_closed g); [done|].
  destruct (len offsets =? 0) eqn:E0; [done|]. apply Z.eqb_neq in E0.
  destruct (MaxChunkAllocationBatch <? len offsets) eqn:Em; [done|]. apply Z.ltb_ge in Em.
  apply bind_Ok_inv in E as (r & Er & E). injection E as ->.
  apply (allocate_run rules) in Er as (n & Hn & Hb & Ha); [|done].
  split; [split; [destruct offsets; [done|]; unfold len; cbn [length]; lia|exact Em]|]. exists n. split; [unfold allocationConditionalAttempts in *; lia|].
  do 2 (split; [done|]). destruct (al_inode _ _ _ _ _ _ Ha) as (raw & inode & H1 & H2 & _ & H3).
  split; intros m Hm; rewrite Hm in H1; injection H1 as <-.
  - rewrite unmarshalValue_marshalValue in H2. apply Ok_inj in H2 as <-. by eexists.
  - rewrite decode_v2_as_v1 in H2. apply Ok_inj in H2 as <-. eexists. split; [exact H3|]. split; [done|].
    unfold inode2_ResolveExtents, inode2_Get, getValue. rewrite H3.
    by rewrite (unmarshal_document _ _ (marshal_document _) (v1_as_v2 _)).
Qed.
End Theorems.

(** ** A concrete store *)

#[export] Instance tombstone_codec : Codec ChunkTombstone :=
  doc_codec
    (fun t => [ct_ChunkID t; ct_Size t; ct_DeletedAt t; ct_DeleteAfter t] :: ct_Reason t :: replica_fields (ct_Replicas t))
    (fun l => match l with
              | [a; b; c; d] :: reason :: l => Some (mkChunkTombstone a (replicas_of l) b reason c d)
              | _ => None
              end).

#[export] Instance tombstone_laws : CodecLaws ChunkTombstone.
Proof.
  apply doc_codec_laws. intros [a b c d e f].
  transitivity (Some (mkChunkTombstone a (replicas_of (replica_fields b)) c d e f)); [done|].
  by rewrite replicas_of_fields.
Qed.

Definition backup_fields (b : CommittedBackup) : list (list Z) :=
  [[bk_CreatedAt b; bk_RaftTerm b; bk_AppliedIndex b; bk_TotalBytes b]; bk_ID b; bk_SourceClusterID b].

Fixpoint backups_of (l : list (list Z)) : list CommittedBackup :=
  match l with
  | [a; b; c; d] :: id :: cluster :: l => mkCommittedBackup id cluster a b c d :: backups_of l
  | _ => []
  end.

#[export] Instance backup_codec : Codec CommittedBackup := doc_codec backup_fields (fun l => head (backups_of l)).
#[export] Instance catalog_codec : Codec BackupCatalogState :=
  doc_codec (fun c => [bc_ReconciledAt c] :: concat (map backup_fields (bc_Backups c)))
    (fun l => match l with [t] :: l => Some (mkBackupCatalogState (backups_of l) t) | _ => None end).

Lemma chunk_codec_width raw c : @unmarshalValue _ chunk_codec raw = Ok c -> is_u64 (ck_ID c).
Proof.
  unfold unmarshalValue. destruct raw as [|b raw]; [done|]. cbn [msgpack_Unmarshal json_Unmarshal chunk_codec doc_codec].
  destruct (json_start b); [done|]. destruct (undoc _) as [fields|]; cbn [mbind option_bind]; [|done].
  destruct fields as [|ints [|shards [|group [|profile [|stripe l]]]]];
    repeat (try done; destruct ints as [|? ints]); try done.
  case_bool_decide; [|done]. by intros [= <-].
Qed.

(** The row rules of the source; no backup task or catalogue batch occurs. *)
Definition plain_rules : version_rules := chunk_rules (fun _ => Ok tt) (fun _ => Ok tt).
Definition calm_gc : gc_env := mkGcEnv false false None None.
Definition t0 : Z := 1000 * hour.
Definition sample_chunk (n : Z) : ChunkMeta := mkChunkMeta n 100 ChunkReady [mkReplicaInfo 1 [] 0 [] 0] None 0 0 0 0 0 0 [].
Definition file_row (refs : list Z) : InodeMeta :=
  mkInodeMeta 2 FileRegular 100 1 0 0 0 420 7 7 7 0 (map (fun i => mkChunkRef i 0 100 7) refs) [] ∅.

(** A file that refers to chunk 5, and an orphan, chunk 6. *)
Definition orphan_store : Mem :=
  <[inodeKey 2 := marshalValue (file_row [5])]>
  (<[chunkMetadataKey 5 := marshalValue (sample_chunk 5)]>
   (<[chunkMetadataKey 6 := marshalValue (sample_chunk 6)]> ∅)).

Definition with_backup (db : Mem) : Mem :=
  let b := mkCommittedBackup (str "b1") (str "c1") (t0 + hour) 1 9 4096 in
  <[prefixBackupCatalog ++ str "b1" := marshalValue b]>
  (<[keyBackupCatalog := marshalValue (mkBackupCatalogState [b] (t0 + 25 * hour))]> db).

(** A first collection at [t0], a backup, and a second one 26 hours later. *)
Definition collected1 : Mem :=
  with_backup (gc_Scan plain_rules calm_gc (fun _ => t0) (fun _ => t0) false orphan_store).2.
Definition collection2 : mgo GCScanResult * Mem :=
  gc_Scan plain_rules calm_gc (fun _ => t0 + 26 * hour) (fun _ => t0 + 26 * hour) false collected1.

(** Rows of closed stores are compared by running the store. *)
Definition row_is (db : Mem) (k : list Z) (v : option (list Z)) : bool := bool_decide (kv_get db k = v).

Lemma row_is_true db k v : row_is db k v = true -> kv_get db k = v.
Proof. apply bool_decide_eq_true_1. Qed.

Ltac by_running := apply row_is_true; vm_compute; reflexivity.

Example second_collection_purges :
  kv_get collected1 (chunkMetadataKey 6) = Some (marshalValue (sample_chunk 6)) /\
  kv_get collection2.2 (chunkMetadataKey 6) = None /\
  kv_get collection2.2 (chunkMetadataKey 5) = Some (marshalValue (sample_chunk 5)).
Proof. split; [|split]; by_running. Qed.

(** ** Witnesses *)

Definition late : Z := t0 + 26 * hour.

Lemma collected1_refs : scan_references collected1 = Ok [5].
Proof. vm_compute. reflexivity. Qed.

Lemma gc_keeps_referenced_witness :
  keeps [5] collected1 collection2.2 /\ 6 ∉ [5] /\ due collected1 6 late.
Proof.
  destruct (gc_keeps_referenced tombstone_laws plain_rules calm_gc (fun _ => late) (fun _ => late) false
              collected1 collection2.2 collection2.1 [5] chunk_codec_width ltac:(intros id; reflexivity)
              collected1_refs (surjective_pairing collection2)) as (K & _ & D & _).
  split; [exact K|]. apply (D 6); [split; [discriminate|reflexivity]|].
  destruct second_collection_purges as (E1 & E2 & _). rewrite E1, E2. discriminate.
Defined.

(** One purge of chunk 6 by itself. *)
Definition purged6 : mgo unit * Mem :=
  PurgeChunk plain_rules calm_gc (fun _ => collected1) (fun _ => collected1) collected1 6 late.

Lemma purged6_gone : kv_get purged6.2 (chunkMetadataKey 6) = None.
Proof. by_running. Qed.

Lemma purge_only_when_safe_witness : purged6.1 = Ok tt /\ purged collected1 purged6.2 6 late.
Proof.
  destruct (purge_only_when_safe plain_rules calm_gc (fun _ => collected1) (fun _ => collected1) collected1 purged6.2
              6 late purged6.1 (surjective_pairing purged6)) as [E|(E & _ & P & _)].
  - pose proof purged6_gone as G. rewrite E in G. destruct second_collection_purges as (E1 & _).
    rewrite E1 in G. discriminate G.
  - exact (conj E (P (fun i j k _ _ => eq_refl))).
Defined.

(** The tombstone of the first collection, as a batch. *)
Definition entomb6 : ConditionalBatch :=
  fenced [absent keyInodeReferenceEpoch; expect (chunkMetadataKey 6) (marshalValue (sample_chunk 6));
          absent (chunkTombstoneKey 6)]
         [mkBatchOp false (chunkTombstoneKey 6)
            (marshalValue (mkChunkTombstone 6 (ck_Replicas (sample_chunk 6)) 100 (str "gc") t0 (t0 + 25 * hour)))].

Definition entombed : Mem :=
  match applyConditionalBatchWithHook plain_rules None None orphan_store (Some entomb6) with
  | Ok db => db | Err _ => ∅ end.

Lemma orphan_store_keys k v : orphan_store !! k = Some v -> k ∈ [inodeKey 2; chunkMetadataKey 5; chunkMetadataKey 6].
Proof.
  unfold orphan_store. rewrite !lookup_insert_Some, lookup_empty. intros E. set_solver.
Qed.

Lemma orphan_store_paired : paired orphan_store.
Proof.
  intros id traw _ Et. apply orphan_store_keys in Et. exfalso.
  apply elem_of_cons in Et as [E|[E|[E|[]%not_elem_of_nil]%elem_of_cons]%elem_of_cons]; discriminate E.
Qed.

Lemma entombed_run :
  applyConditionalBatchWithHook plain_rules None None orphan_store (Some entomb6) = Ok entombed.
Proof.
  unfold entombed. destruct (applyConditionalBatchWithHook _ _ _ _ _) as [db|e] eqn:E; [done|].
  apply (f_equal is_ok) in E. vm_compute in E. discriminate E.
Qed.

Lemma chunk_batches_keep_pairs_witness :
  paired entombed /\ kv_get entombed (chunkTombstoneKey 6) <> None.
Proof.
  split.
  - exact (chunk_batches_keep_pairs _ _ None None orphan_store entombed entomb6 (or_intror eq_refl) entombed_run
             orphan_store_paired).
  - vm_compute. discriminate.
Defined.

(** Two chunks for the file of [orphan_store]: the first attempt's ids clash
    with the orphan, the second's do not. *)
Definition new_chunk (n : Z) : ChunkMeta := mkChunkMeta n 0 ChunkCreated [] None 0 7 0 0 0 0 [].
Definition build_ids (n : nat) : mgo (list ChunkMeta) :=
  Ok (if (n =? 0)%nat then [new_chunk 6; new_chunk 7] else [new_chunk 8; new_chunk 9]).
Definition allocation : mgo (option (list ChunkMeta * Mem)) :=
  AllocateChunksBatch plain_rules calm_gc (fun _ => orphan_store) (fun _ => orphan_store) (fun _ => 70) build_ids 2 [100; 200].
Definition allocated_db : Mem := match allocation with Ok (Some (_, db)) => db | _ => ∅ end.

Lemma allocation_run : allocation = Ok (Some ([new_chunk 8; new_chunk 9], allocated_db)).
Proof.
  unfold allocated_db.
  destruct allocation as [[[cs db]|]|e] eqn:E; [| |];
    apply (f_equal (fun r => match r with Ok (Some (cs, _)) => cs | _ => [] end)) in E; vm_compute in E; by subst || done.
Qed.

Lemma allocation_exact_witness :
  allocated orphan_store allocated_db 2 70 [100; 200] [new_chunk 8; new_chunk 9].
Proof.
  destruct (allocation_exact plain_rules calm_gc (fun _ => orphan_store) (fun _ => orphan_store) (fun _ => 70)
              build_ids 2 [100; 200] [new_chunk 8; new_chunk 9] allocated_db ltac:(split; [discriminate|reflexivity])
              allocation_run) as (_ & n & _ & _ & A & _).
  exact A.
Defined.

(** ** Where references and chunks part *)

(** Allocating chunks for a file with extent pages rewrites its row as a
    V1 row: the call succeeds, and the file's extents are gone. *)
Theorem allocation_forgets_extents :
  let r := AllocateChunksBatch plain_rules calm_gc (fun _ => ns_db paged) (fun _ => ns_db paged) (fun _ => 70)
             (fun _ => Ok [new_chunk 8]) 2 [0] in
  inode2_ResolveExtents (ns_db paged) 2 = Ok [mkExtentRef 1 1000] /\
  match r with
  | Ok (Some (_, db)) => inode2_ResolveExtents db 2 = Ok [] /\ scan_references db = Ok [8]
  | _ => False
  end.
Proof. vm_compute. done. Qed.

(** A chunk with a due tombstone can still be attached through the extent
    layouts. The V1 path refuses it; the V2 path of the same commit does not
    look, and a purge whose inode scan ran just before deletes the chunk the
    file now refers to: the reference epoch it compares was not advanced. *)
Theorem extent_attach_misses_tombstone :
  let s := mkNS collected1 2 true [] ∅ false false in
  let ref := [mkChunkRef 6 0 100 0] in
  let commit es := CommitChunkRefsModelAware false calm calm_x es (file_row [5]) ref 100 s in
  let purge := PurgeChunk plain_rules calm_gc (fun _ => collected1) (fun _ => collected1) (ns_db (commit true).1) 6 late in
  (commit false).2 = Err (MErrorf "chunk is unavailable for attachment") /\
  is_ok (commit true).2 = true /\ is_ok purge.1 = true /\
  scan_references purge.2 = Ok [6] /\ kv_get purge.2 (chunkMetadataKey 6) = None.
Proof. vm_compute. done. Qed.
