(* ===== verification/BackupTheorems.v ===== *)
(** * Theorems about backup tasks, the catalogue and the cluster's identity *)

From stdpp Require Import base list sorting numbers strings gmap countable.
From Stdlib Require Import ZArith Lia.
From S2P Require Import Prelude Bytes Pebble MetaKeys MetaScan MetaTypes RaftLog MetaFSMProofs.
From S2P Require Import MetaFSM Namespace Extents ChunkRules ChunkGC MetaFSMProofs NamespaceSpec ExtentProofs ChunkProofs.
From S2P Require Import Backups BackupProofs MetaScenario ExtentTheorems ChunkTheorems.

Local Open Scope Z_scope.
Local Open Scope go_scope.

Section Theorems.
Context {DB : Type} `{KL : PebbleLaws DB}.
Context `{CI : Codec InodeMeta} `{CV : Codec InodeWithVersion} `{CK : Codec ChunkMeta} `{CT : Codec ChunkTombstone}.
Context `{CB : Codec BackupCatalogState} `{CC : Codec CommittedBackup} `{CA : Codec BackupTask}.
Context `{CM : Codec RestorePendingMarker} `{CS : Codec (list Z)}.

(** ** Tasks *)

(** [b] is a later record of the run of [a]. *)
Record descends (a b : BackupTask) : Prop := mkDescends {
  ds_run : (bt_ID b, bt_SourceClusterID b, bt_OwnerNodeID b, bt_LeadershipTerm b, bt_AppliedIndex b, bt_StartedAt b) =
           (bt_ID a, bt_SourceClusterID a, bt_OwnerNodeID a, bt_LeadershipTerm a, bt_AppliedIndex a, bt_StartedAt a);
  ds_progress : bt_BytesUploaded a <= bt_BytesUploaded b /\ bt_FilesUploaded a <= bt_FilesUploaded b /\
                bt_UpdatedAt a <= bt_UpdatedAt b;
  ds_state : (rank (bt_State a) <= rank (bt_State b))%nat;
  ds_final : isTerminalBackupTaskState (bt_State a) = true -> b = a
}.

Lemma descends_refl a : descends a a.
Proof. constructor; [done|lia|lia|done]. Qed.

Lemma descends_trans a b c : descends a b -> descends b c -> descends a c.
Proof.
  intros [R1 P1 S1 F1] [R2 P2 S2 F2]. constructor; [congruence|lia|lia|].
  intros Ht. pose proof (F1 Ht) as ->. by apply F2.
Qed.

Lemma rank_3 s : (rank s <= 3)%nat.
Proof. unfold rank. repeat destruct (same _ _); lia. Qed.

Lemma follows_descends a b : follows a b -> isTerminalBackupTaskState (bt_State a) = false -> descends a b.
Proof.
  intros [] Ht. constructor; [congruence|done| |congruence].
  destruct fo_state as [[]|Hf]; [done|]. rewrite Hf. apply rank_3.
Qed.

Lemma taskKey_inj a b : taskKey a = taskKey b -> a = b.
Proof. apply app_inv_head. Qed.

Lemma taskKey_apart id : taskKey id <> keyBackupCatalog /\ taskKey id <> keyClusterID /\ taskKey id <> keyRestorePending.
Proof. repeat split; discriminate. Qed.

Lemma taskKey_not_catalog id : catalog_range (taskKey id) = false.
Proof. reflexivity. Qed.

(** The row of [id] holds [t], a record of a run started after year 1. *)
Definition task_at (db : DB) (id : list Z) (t : BackupTask) : Prop :=
  exists raw, kv_get db (taskKey id) = Some raw /\ decode_task raw = Ok t /\ bt_ID t = id /\ 0 < bt_StartedAt t.

Lemma effect_task (LA : CodecLaws BackupTask) (db db' : DB) id t :
  effect db db' -> task_at db id t -> exists t', task_at db' id t' /\ descends t t'.
Proof.
  intros Ef (raw & Hr & Hd & Hi & Hs). pose proof (taskKey_apart id) as (N1 & N2 & N3).
  assert (kv_get db' (taskKey id) = kv_get db (taskKey id) -> exists t', task_at db' id t' /\ descends t t') as Same.
  { intros E. exists t. split; [|apply descends_refl]. exists raw. by rewrite E. }
  destruct Ef as [->|c S|l tm state _ C|cid _ _ _ Ho|Ho]; [by apply Same| |apply Same..].
  - destruct (decide (taskKey id = taskKey (bt_ID c))) as [Ek|Ne]; [|by apply Same, (so_other _ _ _ S)].
    apply taskKey_inj in Ek as ->.
    destruct (so_before _ _ _ S) as [[Hn _]|(raw' & t' & Hr' & Hd' & Ht & Hf)]; [congruence|].
    rewrite Hr in Hr'. injection Hr' as <-. rewrite Hd in Hd'. injection Hd' as <-.
    exists c. split; [|by apply follows_descends]. exists (marshalValue c). split; [exact (so_after _ _ _ S)|].
    destruct (so_valid _ _ _ S) as [t0 Hn]. assert (0 < bt_StartedAt c) as Hc by (rewrite (fo_started _ _ Hf); done).
    split; [|done]. unfold decode_task. rewrite unmarshalValue_marshalValue. cbn [mbind result_bind].
    by apply (normalize_stored t0).
  - apply (cg_other _ _ _ C); [done|apply taskKey_not_catalog].
  - by apply Ho.
  - by apply Ho.
Qed.

(** C19: the life of a backup task. However calls of the service interleave,
    whatever they read and whichever fail, a stored task stays stored as a
    valid record of the same run, its counters and its update time never go
    back, its state only moves forward through creating, uploading, verifying
    and committed or to failed, and a finished record never changes. *)
Theorem backup_task_lifecycle (LA : CodecLaws BackupTask) rules (db db' : DB) id t :
  rtc (backup_step rules) db db' -> task_at db id t -> exists t', task_at db' id t' /\ descends t t'.
Proof.
  intros R. revert t. induction R as [db|db db1 db2 S R IH]; intros t Ht; [exists t; split; [done|apply descends_refl]|].
  destruct (effect_task LA _ _ _ _ (step_effect rules _ _ S) Ht) as (t1 & H1 & D1).
  destruct (IH t1 H1) as (t2 & H2 & D2). exists t2. split; [done|]. by apply (descends_trans _ t1).
Qed.

(** ** The catalogue *)

Lemma catalog_ext g (db db' : DB) :
  kv_get db' keyBackupCatalog = kv_get db keyBackupCatalog ->
  (forall k, catalog_range k = true -> kv_get db' k = kv_get db k) ->
  GetBackupCatalogState g db' = GetBackupCatalogState g db.
Proof.
  intros Hs Hk. unfold GetBackupCatalogState, getValue. rewrite Hs.
  by rewrite (kv_range_ext db db') by exact Hk.
Qed.

Lemma effect_catalog `{LC : !CodecLaws CommittedBackup} `{LB : !CodecLaws BackupCatalogState} g (db db' : DB) :
  ge_closed g = false -> effect db db' ->
  GetBackupCatalogState g db' = GetBackupCatalogState g db \/
  exists state, GetBackupCatalogState g db' = Ok (Some state).
Proof.
  intros Hg S. destruct S as [->|c S|l t state En C|id _ _ _ Ho|Ho]; [by left| | | |].
  - left. apply catalog_ext; [apply (so_other _ _ _ S); discriminate|].
    intros k Hk. apply (so_other _ _ _ S). intros ->. by rewrite taskKey_not_catalog in Hk.
  - right. exists state. by apply (cataloged_read _ db db' state l t).
  - left. apply catalog_ext; [by apply Ho|]. intros k Hk. apply Ho. by intros ->.
  - left. apply catalog_ext; [by apply Ho|]. intros k Hk. apply Ho. by intros ->.
Qed.

(** C21: a replaced catalogue is read back, and the catalogue stays readable.
    After a successful replacement the state row and the entries agree and
    the call that reads them returns the given backups, newest first; whatever
    calls of the service follow, state and entries never disagree. *)
Theorem catalog_replace_then_get (LC : CodecLaws CommittedBackup) (LB : CodecLaws BackupCatalogState)
    rules g e (db db' : DB) l t term :
  ge_closed g = false -> replaceCommittedBackupCatalog rules e db l t term = Ok db' ->
  GetBackupCatalogState g db' = Ok (Some (mkBackupCatalogState (merge_sort backup_le l) t)) /\
  forall db2, rtc (backup_step rules) db' db2 -> exists state, GetBackupCatalogState g db2 = Ok (Some state).
Proof.
  intros Hg E.
  assert (GetBackupCatalogState g db' = Ok (Some (mkBackupCatalogState (merge_sort backup_le l) t))) as Hr.
  { unfold replaceCommittedBackupCatalog in E. ok_inv.
    pose proof (normalizeBackupCatalog_inv _ _ _ E1) as (_ & <- & Hok).
    by eapply cataloged_read; [done|done|eapply apply_cataloged]. }
  split; [done|]. intros db2 R.
  assert (exists state, GetBackupCatalogState g db' = Ok (Some state)) as H0' by by eexists.
  clear E Hr. induction R as [d|d d1 d2 S R IH]; [done|]. apply IH.
  apply step_effect, (effect_catalog g _ _ Hg) in S as [->|?]; done.
Qed.

(** Listing tasks. The bounded heap returns exactly the first [limit]
    tasks of all stored ones in the order newest first; a row that is not a
    valid task fails the call. *)
Theorem newest_tasks_exact e (db : DB) limit :
  ge_closed (be_gc e) = false -> 0 < limit <= maxBackupTaskListLimit ->
  ListBackupTasks e db limit =
  match scan_tasks (task_rows db) with
  | Ok ts => Ok (take (Z.to_nat limit) (merge_sort task_le ts))
  | Err x => Err x
  end.
Proof.
  intros Hc Hl. unfold ListBackupTasks, checkBackupMetadataCall. rewrite Hc. cbn [mbind result_bind].
  destruct (Z.leb_spec limit 0); [lia|]. destruct (Z.ltb_spec maxBackupTaskListLimit limit); [lia|]. cbn [orb].
  destruct (scan_tasks (task_rows db)) as [ts|x] eqn:Es; [|by rewrite (collect_newest_err _ _ _ _ Es)].
  assert (newest_of limit [] [] []) as Hz.
  { constructor; [constructor|done|left; split; [done|cbn; lia]|by intros x d ?%not_elem_of_nil]. }
  destruct (collect_newest_run limit (task_rows db) [] ts [] [] ltac:(lia) Es Hz) as (h & rest & -> & Hn).
  cbn [mbind result_bind]. f_equal. apply (newest_of_sorted _ _ _ rest); [lia| |exact Hn].
  by apply (scan_tasks_distinct db).
Qed.

(** ** The cluster's identity *)

Lemma cluster_row_stays rules (db db' : DB) raw :
  rtc (backup_step rules) db db' -> kv_get db keyClusterID = Some raw -> kv_get db' keyClusterID = Some raw.
Proof.
  intros R. induction R as [d|d d1 d2 S R IH]; [done|]. intros Hr. apply IH. apply step_effect in S.
  destruct S as [->|c S|l t state _ C|id _ Hn _ _|Ho]; [done| | |congruence|].
  - rewrite (so_other _ _ _ S); [done|discriminate].
  - rewrite (cg_other _ _ _ C); [done|discriminate|reflexivity].
  - rewrite Ho; [done|discriminate].
Qed.

Lemma reconcile_id raw requested id : reconcileClusterID raw requested = Ok id -> @unmarshalValue _ CS raw = Ok id.
Proof.
  unfold reconcileClusterID. intros E. apply bind_Ok_inv in E as (x & Eu & E). apply bind_Ok_inv in E as (_ & _ & E).
  destruct (_ || _); [by injection E as ->|]. by apply bind_Ok_inv in E as (_ & _ & E).
Qed.

(** Where the id a call returned is stored. *)
Lemma EnsureClusterID_stored (LS : CodecLaws (list Z)) rules e at_ (db db' : DB) random requested id :
  EnsureClusterID rules e at_ db random requested = (Ok id, db') ->
  exists d raw, (d = db' \/ exists n, (n < 2)%nat /\ d = at_ n) /\
    kv_get d keyClusterID = Some raw /\ @unmarshalValue _ CS raw = Ok id.
Proof.
  intros [[-> Hr]|(id' & [= <-] & _ & _ & Hk & _)]%EnsureClusterID_run.
  - destruct (Hr eq_refl) as (n & raw & Hn & Hk & Er). apply reconcile_id in Er. eauto 10.
  - exists db', (marshalValue id). split; [by left|]. split; [done|]. apply unmarshalValue_marshalValue.
Qed.

(** One identity. When a call that ensures the cluster's identity has
    succeeded, every later call that succeeds returns the same identity,
    whatever the two asked for and whatever ran in between. *)
Theorem cluster_id_agrees (LS : CodecLaws (list Z)) rules e1 e2 at1 at2 (db db1 db2 db3 : DB) random1 random2 req1 req2 id1 id2 :
  EnsureClusterID rules e1 at1 db random1 req1 = (Ok id1, db1) ->
  (forall d, d = db1 \/ (exists n, (n < 2)%nat /\ d = at1 n) ->
     rtc (backup_step rules) d db2 /\ forall n, (n < 2)%nat -> rtc (backup_step rules) d (at2 n)) ->
  EnsureClusterID rules e2 at2 db2 random2 req2 = (Ok id2, db3) ->
  id2 = id1.
Proof.
  intros E1 Later E2. destruct (EnsureClusterID_stored LS _ _ _ _ _ _ _ _ E1) as (d & raw & Hd & Hk & Hu).
  destruct (Later d Hd) as [R2 Rn]. pose proof (cluster_row_stays _ _ _ _ R2 Hk) as Hk2.
  apply EnsureClusterID_run in E2 as [[_ Hr]|(id' & _ & _ & Hn & _)]; [|congruence].
  destruct (Hr eq_refl) as (n & raw' & Hlt & Hk' & Er). apply reconcile_id in Er.
  rewrite (cluster_row_stays _ _ _ _ (Rn n Hlt) Hk) in Hk'. injection Hk' as <-. congruence.
Qed.

(** ** Replicated batches *)

Lemma task_batch_stored (db db' : DB) c :
  validateTermFencedBackupTaskBatch c = Ok tt -> Forall (pre_holds db) (cb_Preconditions c) ->
  updated db db' (cb_Mutations c) -> exists t, stored db db' t.
Proof.
  unfold validateTermFencedBackupTaskBatch. intros E Hp [A B].
  destruct (cb_Preconditions c) as [|p [|]]; [done| |done]. destruct (cb_Mutations c) as [|m [|]]; [done| |done].
  destruct (cb_PrefixReplacements c); [|done]. apply Forall_cons_1 in Hp as [Hp _]. ok_inv.
  apply orb_false_iff in G as [Gd Gk]. apply not_same in Gk. apply negb_false_iff, HasPrefix_spec in G0 as [id Gid].
  apply not_same in G1, G2. rewrite Gid in G1.
  assert (TrimPrefix (prefixBackupTask ++ id) prefixBackupTask = id) as Et by reflexivity. rewrite Et in G1.
  assert (bo_Key m = taskKey (bt_ID r1)) as Hm by (rewrite Gid, G1; reflexivity).
  assert (kv_get db' (taskKey (bt_ID r1)) = Some (marshalValue r1)) as Ha.
  { rewrite <- Hm, (A m) by (by left). unfold op_value. by rewrite Gd, G2. }
  assert (exists t, normalizeBackupTask (Some t) = Ok r1) as Hn.
  { unfold validateStoredBackupTask in E2. ok_inv. eauto. }
  exists r1. constructor; [done| |done|].
  - unfold pre_holds in Hp. rewrite Gk, Hm in Hp. destruct (cp_ExpectAbsent p); [left; ok_inv; split; [done|by apply not_same in G]|].
    right. ok_inv. apply not_same in G. rewrite Gid, Et in G. exists (cp_ExpectedValue p), r3. split; [done|].
    split; [unfold decode_task; by rewrite E3|]. split; [done|].
    apply update_follows; [congruence| |done]. destruct Hn as [t Hn]. apply normalize_fields in Hn as [Hf _].
    by apply fields_state.
  - intros k Hk. apply B. cbn [map]. rewrite Hm. by intros ?%list_elem_of_singleton.
Qed.

Lemma entry_op_spec set l :
  negb (bo_Delete set) && existsb (fun b => same (bo_Key (entry_op b)) (bo_Key set)
                                            && same (bo_Value (entry_op b)) (bo_Value set)) l = true ->
  set ∈ map entry_op l.
Proof.
  intros [Hd (b & Hb & [Hk Hv]%andb_true_iff)%existsb_exists]%andb_true_iff. apply negb_true_iff in Hd.
  apply same_eq in Hk, Hv. apply list_elem_of_In in Hb. apply list_elem_of_fmap. exists b. split; [|done].
  destruct set as [d k v]. cbn in *. by subst.
Qed.

Lemma same_entries sets l :
  NoDup (map bo_Key sets) -> NoDup (map bk_ID l) -> len sets = len l ->
  (forall set, set ∈ sets -> set ∈ map entry_op l) -> sets ≡ₚ map entry_op l.
Proof.
  intros N1 N2 Hl Hin. apply submseteq_length_Permutation; [|rewrite length_map; lia].
  apply NoDup_submseteq; [|done]. by apply (NoDup_fmap_1 bo_Key).
Qed.

Lemma catalog_batch_cataloged hook fail (db db' : DB) b c :
  canonicalConditionalBatch all_rules (Some b) = Ok c -> validateTermFencedBackupCatalogBatch c = Ok tt ->
  applyConditionalBatchWithHook all_rules hook fail db (Some b) = Ok db' ->
  exists l t state, normalizeBackupCatalog l t = Ok state /\ cataloged db db' state.
Proof.
  intros V E Ea. destruct (conditional_ops _ _ _ _ _ _ Ea) as (c' & V' & ->).
  assert (c' = c) as -> by congruence. clear Ea V'.
  pose proof V as V'. apply canonical_inv in V' as (_ & _ & Ec & Vc). pose proof (validate_canonical _ _ Vc) as Ca.
  unfold validateTermFencedBackupCatalogBatch in E.
  destruct (cb_Preconditions c); [|done]. destruct (cb_Mutations c) as [|m [|]]; [done| |done].
  destruct (cb_PrefixReplacements c) as [|r [|]] eqn:Er; [done| |done]. ok_inv.
  apply orb_false_iff in G as [G Gp]. apply orb_false_iff in G as [Gd Gk]. apply not_same in Gk, Gp, G0.
  apply negb_false_iff in G2. apply negb_false_iff, Z.eqb_eq in G1.
  pose proof (normalizeBackupCatalog_inv _ _ _ E1) as (_ & _ & Hok).
  exists (bc_Backups r0), (bc_ReconciledAt r0), r1. split; [done|].
  assert (NoDup (map bo_Key (pr_Sets r))) as N.
  { pose proof (ca_rep _ _ Ca) as F. rewrite Er in F. apply Forall_cons_1 in F as [(_ & _ & _ & D) _].
    apply (sorted_NoDup bo_Key op_le); [done| |done].
    rewrite Ec in Er. cbn [sorted_batch cb_PrefixReplacements] in Er.
    destruct (merge_sort rep_le (cb_PrefixReplacements b)) as [|r' [|]]; [done| |done]. injection Er as <-.
    apply StronglySorted_merge_sort; apply _. }
  assert (pr_Sets r ≡ₚ map entry_op (bc_Backups r1)) as P.
  { apply same_entries; [done|by destruct Hok|done|]. intros set Hs. apply entry_op_spec.
    apply forallb_forall with (x := set) in G2; [exact G2|by apply list_elem_of_In]. }
  cbn [map concat]. rewrite app_nil_r. destruct m as [d k v], r as [p sets]. cbn in Gd, Gk, Gp, G0, P |- *. subst.
  apply replacement_cataloged; done.
Qed.

(** C20: term-fenced batches obey the workflow. Any batch of version 2,
    whoever built it, that the row checks accept and that commits stores one
    task as a legal next record of its run, or replaces the catalogue by a
    canonical one with exactly its entries, and does nothing else. *)
Theorem fenced_backup_batches_legal hook fail (db db' : DB) b :
  cb_Version b = conditionalBatchTermFencedVersion ->
  applyConditionalBatchWithHook all_rules hook fail db (Some b) = Ok db' ->
  (exists t, stored db db' t) \/
  exists l t state, normalizeBackupCatalog l t = Ok state /\ cataloged db db' state.
Proof.
  intros Hv E. destruct (conditional_ops _ _ _ _ _ _ E) as (c & V & _).
  pose proof V as V'. apply canonical_inv in V' as (_ & _ & Ec & Vc).
  assert (cb_Version c = cb_Version b) as Hc by by rewrite Ec.
  unfold validateConditionalBatch in Vc. ok_inv. rewrite Hc, Hv in Vc.
  change (validateTermFencedBackupConditionalBatch all_rules c = Ok tt) in Vc.
  unfold validateTermFencedBackupConditionalBatch in Vc.
  destruct (cb_PrefixReplacements c) as [|rep [|]] eqn:Er; [left|right; by eapply catalog_batch_cataloged|done].
  pose proof (canonical_fixed _ _ _ V) as Vf.
  assert (applyConditionalBatchWithHook all_rules hook fail db (Some c) = Ok db') as E'.
  { unfold applyConditionalBatchWithHook in *. by rewrite Vf, V in *. }
  pose proof (conditional_exact all_rules hook fail db c c Vf Er) as X. rewrite E' in X.
  destruct X as (_ & _ & Hp & U). exact (task_batch_stored _ _ c Vc Hp U).
Qed.
End Theorems.

(** ** A concrete service *)

#[export] Instance task_codec : Codec BackupTask :=
  doc_codec
    (fun t => [[bt_LeadershipTerm t; bt_AppliedIndex t; bt_StartedAt t; bt_CompletedAt t; bt_BytesUploaded t;
                bt_FilesUploaded t; bt_UpdatedAt t]; bt_ID t; bt_SourceClusterID t; bt_OwnerNodeID t; bt_State t;
               bt_LastError t])
    (fun l => match l with
              | [[a; b; c; d; e; f; g]; id; cluster; owner; state; error] =>
                  Some (mkBackupTask id cluster owner a b state c d e f error g)
              | _ => None
              end).

#[export] Instance task_laws : CodecLaws BackupTask.
Proof. apply doc_codec_laws. by intros []. Qed.

#[export] Instance marker_codec : Codec RestorePendingMarker :=
  doc_codec (fun m => [[rm_AppliedIndex m; rm_RestoredAt m]; rm_BackupID m; rm_SourceClusterID m])
    (fun l => match l with [[a; b]; id; cluster] => Some (mkRestorePendingMarker id cluster a b) | _ => None end).

#[export] Instance string_codec : Codec (list Z) :=
  doc_codec (fun s => [s]) (fun l => match l with [s] => Some s | _ => None end).

#[export] Instance string_laws : CodecLaws (list Z).
Proof. by apply doc_codec_laws. Qed.

#[export] Instance backup_laws : CodecLaws CommittedBackup.
Proof. apply doc_codec_laws. by intros []. Qed.

Lemma backups_of_fields l : backups_of (concat (map backup_fields l)) = l.
Proof. induction l as [|[] l IH]; [done|]. cbn. by rewrite IH. Qed.

#[export] Instance catalog_laws : CodecLaws BackupCatalogState.
Proof.
  apply doc_codec_laws. intros [l t].
  transitivity (Some (mkBackupCatalogState (backups_of (concat (map backup_fields l))) t)); [done|].
  by rewrite backups_of_fields.
Qed.

(** The leader of term 3. *)
Definition leader : backup_env := mkBackupEnv calm_gc (Some (mkRaftEnv true true 3)).

Definition run_task (id : string) (started : Z) (state : list Z) (completed bytes updated : Z) : BackupTask :=
  mkBackupTask (str id) (str "c1") (str "n1") 3 9 state started completed bytes 1 [] updated.

Definition put (t : BackupTask) (db : Mem) : Mem := (putBackupTask all_rules leader (fun _ => db) db (Some t) 3).2.

(** A run to its end, and an attempt to reopen it. *)
Definition begun : Mem := put (run_task "b1" 100 BackupTaskCreating 0 0 100) ∅.
Definition ended : Mem :=
  put (run_task "b1" 100 BackupTaskUploading 0 70 130)
    (put (run_task "b1" 100 BackupTaskCommitted 120 50 120)
       (put (run_task "b1" 100 BackupTaskVerifying 0 50 115)
          (put (run_task "b1" 100 BackupTaskUploading 0 20 110) begun))).

Lemma begun_task : task_at begun (str "b1") (run_task "b1" 100 BackupTaskCreating 0 0 100).
Proof.
  exists (marshalValue (run_task "b1" 100 BackupTaskCreating 0 0 100)). split; [by_running|].
  split; [vm_compute; reflexivity|]. done.
Qed.

Lemma ended_row : kv_get ended (taskKey (str "b1")) = Some (marshalValue (run_task "b1" 100 BackupTaskCommitted 120 50 120)).
Proof. by_running. Qed.

Lemma run_steps : rtc (backup_step (CM := marker_codec) (CS := string_codec) all_rules) begun ended.
Proof. do 4 (eapply rtc_r; [|apply bs_task]). apply rtc_refl. Qed.

Lemma backup_task_lifecycle_witness :
  exists t', task_at ended (str "b1") t' /\ descends (run_task "b1" 100 BackupTaskCreating 0 0 100) t'.
Proof. exact (backup_task_lifecycle task_laws all_rules begun ended _ _ run_steps begun_task). Defined.

(** A catalogue of two backups, given oldest first. *)
Definition two_backups : list CommittedBackup :=
  [mkCommittedBackup (str "b1") (str "c1") 100 3 9 50; mkCommittedBackup (str "b2") (str "c1") 200 3 19 60].
Definition replaced : mgo Mem := replaceCommittedBackupCatalog all_rules leader begun two_backups 300 3.
Definition replaced_db : Mem := match replaced with Ok db => db | Err _ => ∅ end.

Lemma replaced_run : replaced = Ok replaced_db.
Proof.
  unfold replaced_db. destruct replaced as [db|x] eqn:E; [done|]. apply (f_equal is_ok) in E. vm_compute in E.
  discriminate E.
Qed.

Lemma catalog_replace_then_get_witness :
  GetBackupCatalogState calm_gc replaced_db = Ok (Some (mkBackupCatalogState (rev two_backups) 300)).
Proof.
  exact (proj1 (catalog_replace_then_get backup_laws catalog_laws all_rules calm_gc leader begun replaced_db
                  two_backups 300 3 eq_refl replaced_run)).
Defined.

(** Three tasks, two of them started at the same time. *)
Definition three_tasks : Mem :=
  put (run_task "b3" 100 BackupTaskCreating 0 0 100)
    (put (run_task "b2" 200 BackupTaskCreating 0 0 200) begun).

Lemma newest_tasks_exact_witness :
  ListBackupTasks leader three_tasks 2 =
  Ok [run_task "b2" 200 BackupTaskCreating 0 0 200; run_task "b1" 100 BackupTaskCreating 0 0 100].
Proof.
  rewrite (newest_tasks_exact leader three_tasks 2 eq_refl ltac:(done)). vm_compute. reflexivity.
Defined.

(** Two starts of the cluster; the second names no identity. *)
Definition identified : Mem := (EnsureClusterID all_rules leader (fun _ => ∅) ∅ (Ok []) (str "c1")).2.

Lemma identified_run :
  EnsureClusterID all_rules leader (fun _ => ∅) ∅ (Ok []) (str "c1") = (Ok (str "c1"), identified).
Proof. apply injective_projections; [vm_compute; reflexivity|reflexivity]. Qed.

Lemma reidentified_run :
  EnsureClusterID all_rules leader (fun _ => identified) identified (Ok []) [] = (Ok (str "c1"), identified).
Proof. vm_compute. reflexivity. Qed.

Lemma cluster_id_agrees_witness :
  EnsureClusterID all_rules leader (fun _ => identified) identified (Ok []) [] = (Ok (str "c1"), identified) /\
  str "c1" = str "c1".
Proof.
  split; [exact reidentified_run|].
  refine (cluster_id_agrees (CB := catalog_codec) (CC := backup_codec) (CA := task_codec) (CM := marker_codec)
            string_laws all_rules leader leader (fun _ => ∅) (fun _ => identified) ∅ identified identified identified
            (Ok []) (Ok []) (str "c1") [] _ _ identified_run _ reidentified_run).
  intros d [->|(n & _ & ->)]; (split; [|intros n0 _]);
    try apply rtc_refl; apply rtc_once, bs_cluster.
Defined.

(** The batch of the first record. *)
Definition first_batch : ConditionalBatch := task_batch (run_task "b1" 100 BackupTaskCreating 0 0 100) None 3.
Definition first_db : Mem :=
  match applyConditionalBatchWithHook all_rules None None ∅ (Some first_batch) with Ok db => db | Err _ => ∅ end.

Lemma first_run : applyConditionalBatchWithHook all_rules None None ∅ (Some first_batch) = Ok first_db.
Proof.
  unfold first_db. destruct (applyConditionalBatchWithHook _ _ _ _ _) as [db|x] eqn:E; [done|].
  apply (f_equal is_ok) in E. vm_compute in E. discriminate E.
Qed.

Lemma fenced_backup_batches_legal_witness :
  (exists t, stored ∅ first_db t) \/
  exists l t state, normalizeBackupCatalog l t = Ok state /\ cataloged ∅ first_db state.
Proof. exact (fenced_backup_batches_legal None None ∅ first_db first_batch eq_refl first_run). Defined.
