(* ===== verification/MetaTheorems.v ===== *)
(** * What the metadata service guarantees

    The claims about the namespace, its rows and the replicated log, each
    with an application to the concrete store of [MetaScenario.v]. *)

From stdpp Require Import base list sorting numbers strings gmap countable.
From Stdlib Require Import ZArith Lia.
From S2P Require Import Prelude Bytes Pebble MetaKeys MetaScan MetaTypes RaftLog MetaFSM Namespace MetaFSMProofs NamespaceSpec NamespaceProofs NamespaceProgress MetaScenario.

Local Open Scope Z_scope.
Local Open Scope ns_scope.

Section Guarantees.
Context {DB : Type} `{KL : PebbleLaws DB}.
Context `{CI : Codec InodeMeta} `{C2 : Codec InodeMetaV2} `{CE : Codec DirEntry}.
Context `{CU : Codec BucketUsage} `{CN : Codec Z}.
Context {LI : CodecLaws InodeMeta} {L2 : CodecLaws InodeMetaV2} {LE : CodecLaws DirEntry}.
Context {AL : InodeAlias}.
Context (rules : version_rules) (useBucketStats : bool).

(** ** Histories of the namespace *)

Definition outcome : Type := mgo (option InodeMeta).

(** Runs of the service: operations in any environment, with arguments that
    are legal in the file system the store holds at that moment. *)
Inductive reachable (s0 : NS DB) : list (nsop * outcome) -> NS DB -> Prop :=
| reach_start : reachable s0 [] s0
| reach_step tr s en op s' r :
    reachable s0 tr s -> (forall f, ns_ok s f -> op_args f op) ->
    exec rules useBucketStats en op s = (s', r) -> reachable s0 (tr ++ [(op, r)]) s'.

(** The same history on abstract file systems. *)
Inductive allowed (f0 : fs) : list (nsop * outcome) -> fs -> Prop :=
| allowed_start : allowed f0 [] f0
| allowed_step tr f op f' r :
    allowed f0 tr f -> fs_wf f' -> outcome_ok f f' op r -> allowed f0 (tr ++ [(op, r)]) f'.

(** C4: every run of namespace operations with admissible arguments
    ([op_args]: ids are uint64, names are bytes, MkDir and RmDir are not called
    with a file as the parent, and Link does not push a link count to 2^32),
    whatever commits fail on the way, is a run of the abstract file system with
    the same outcomes; the store goes on representing a well-formed file system
    (entries name inodes of their type, a file's link count is the number of
    its entries, a directory has one parent). The code checks neither the
    parent's type nor the count: [mkdir_under_file_leaks_inode] is what a MkDir
    under a file does. *)
Theorem namespace_refines s0 f0 tr s :
  ns_ok s0 f0 -> reachable s0 tr s -> exists f, ns_ok s f /\ allowed f0 tr f.
Proof.
  intros O. induction 1 as [|tr s en op s' r _ (f & Of & A) Hargs E].
  - exists f0. split; [done|constructor].
  - destruct (exec_sound rules useBucketStats en op s f s' r Of (Hargs f Of) E) as (f' & O' & Ho).
    exists f'. split; [done|]. econstructor; [exact A|apply O'|done].
Qed.

(** C17: a file can be created under every free name: when no commit fails
    and the free list holds no live id, the first attempt or, after a reseed
    of a counter that lagged behind, the second one succeeds; the new inode
    has an id no inode had. *)
Theorem create_succeeds en p n mode s f :
  let root := getBucketRoot (ns_db s) p in
  let inode := fun id now => mkInodeMeta id FileRegular 0 1 root 0 0 mode now now now 0 [] [] ∅ in
  ns_ok s f -> writable s -> quiet en -> is_u64 p -> bytes_wf n -> f_entries f !! (p, n) = None ->
  len n <= MaxNameLength -> Forall (fun id => f_inodes f !! id = None) (ns_freeList s) ->
  ns_inodeSeq s < 2 ^ 64 - 2 -> scan_max_inode (ns_db s) < 2 ^ 64 - 2 ->
  (forall k id, id = next_id s \/ id = reseeded_id s ->
     rows_fit (leaf_ops useBucketStats en p n root 0 inode k (ns_db s) id)) ->
  exists s' m f', CreateFile rules useBucketStats en p n mode s = (s', Ok m) /\
    ns_ok s' f' /\ created f f' p n m.
Proof.
  intros root inode O W Q Hp Hb He Hn Hfree Hseq Hscan Hfit.
  destruct (leaf_progress rules useBucketStats en p n root 0 inode s f O W Q Hp He Hn Hfree Hseq Hscan Hfit)
    as (s' & m & E).
  assert (CreateFile rules useBucketStats en p n mode s = (s', Ok m)) as EC.
  { unfold CreateFile, enter_ns, nbind at 1. rewrite (proj1 W).
    assert (name_too_long n = false) as -> by (by apply Z.ltb_ge). exact E. }
  assert (exec rules useBucketStats en (OCreateFile p n mode) s = (s', Ok (Some m))) as EX.
  { cbn [exec]. unfold some_meta, nbind. by rewrite EC. }
  destruct (exec_sound rules useBucketStats en (OCreateFile p n mode) s f s' _ O (conj Hp Hb) EX)
    as (f' & O' & Hc & _). eauto 6.
Qed.

(** [Lookup] returns the inode of the entry, in its V1 view, or
    [ErrEntryNotFound] when there is none; it changes nothing. *)
Theorem lookup_exact p n s f :
  ns_ok s f -> ns_closed s = false -> is_u64 p ->
  match Lookup p n s with
  | (s', Ok m) => s' = s /\ exists e r, f_entries f !! (p, n) = Some e /\
                    f_inodes f !! de_InodeID e = Some r /\ m = view1 r /\ im_Type m = de_Type e
  | (s', Err e) => s' = s /\ e = ErrEntryNotFound /\ f_entries f !! (p, n) = None
  end.
Proof.
  intros O Hc Hp. rewrite (Lookup_run p n s f) by done.
  destruct (f_entries f !! (p, n)) as [e|] eqn:He; [|done].
  destruct (fw_entry f (no_wf _ _ O) p n e He) as (_ & _ & r & Hr & Ht). rewrite Hr.
  split; [done|]. exists e, r. repeat (split; [done|]). unfold r_type in Ht. by destruct r.
Qed.

(** [ReadDir] by offset and [ReadDirFrom] by name page through one list,
    which holds every entry of the directory with a name exactly once, in
    byte order of the names. *)
Theorem listings_agree p s f :
  ns_ok s f -> ns_closed s = false -> is_u64 p ->
  exists l,
    StronglySorted (fun a b => bytes_lt (de_Name a) (de_Name b)) l /\
    (forall d, d ∈ l <-> de_Name d <> [] /\ exists e, f_entries f !! (p, de_Name d) = Some e /\
                          d = mkDirEntry (de_InodeID e) (de_Type e) (de_Name d)) /\
    (forall offset limit, 0 <= offset ->
       ReadDir p offset limit s =
         (s, Ok (take (Z.to_nat (read_dir_limit limit)) (drop (Z.to_nat offset) l)))) /\
    (forall name limit,
       ReadDirFrom p name limit s =
         (s, Ok (take (Z.to_nat (read_dir_limit limit))
                   (List.filter (fun d => bytes_ltb name (de_Name d)) l)))).
Proof.
  intros O Hc Hp. exists (dir_list (ns_db s) p). split; [by apply (dir_list_sorted _ f); try apply O|].
  split; [intros d; by apply (elem_of_dir_list _ f); try apply O|]. split.
  - intros offset limit Ho. by apply (ReadDir_run p offset limit s f).
  - intros name limit. by apply (ReadDirFrom_run p name limit s f).
Qed.

(** Renaming a file onto itself removes it: a [Rename] whose source and
    destination are the same entry unlinks the destination first, so
    its success leaves no entry, where POSIX prescribes no change. *)
Theorem rename_onto_itself_removes en p n s f s' :
  ns_ok s f -> is_u64 p -> bytes_wf n -> Rename rules useBucketStats en p n p n s = (s', Ok tt) ->
  exists f', ns_ok s' f' /\ is_Some (f_entries f !! (p, n)) /\ f_entries f' !! (p, n) = None.
Proof.
  intros O Hp Hn E.
  destruct (Rename_sound rules useBucketStats en p n p n s f s' _ O (conj Hp (conj Hn (conj Hp Hn))) E)
    as (f' & O' & e & f1 & He & _ & ->).
  eexists. split; [exact O'|]. split; [by eexists|]. cbn. apply lookup_delete_eq.
Qed.
End Guarantees.

(** ** Batches, log entries and scans *)

Section Log.
Context (rules : version_rules).

(** C31: what the encoder of log entries accepts, the decoder gives back: the
    fields the operation uses, a conditional batch in canonical form. *)
Theorem log_entry_roundtrip e data :
  entry_small e -> EncodeChecked rules e = Ok data -> DecodeRaftLogEntry rules data = carried rules e.
Proof. apply decode_encode. Qed.

(** Replicas agree on a batch whatever order its parts were built in:
    permuting preconditions and mutations gives the same canonical batch, so
    the same log bytes; a canonical batch is its own canonical form, and its
    encoding is as long as the size check assumed. *)
Theorem canonical_form_unique b b' c :
  same_parts b b' -> canonicalConditionalBatch rules (Some b) = Ok c ->
  canonicalConditionalBatch rules (Some b') = Ok c /\
  canonicalConditionalBatch rules (Some c) = Ok c /\
  EncodeChecked rules (mkRaftLogEntry OpConditionalBatch [] [] [] (Some b')) =
    Ok (OpConditionalBatch :: write_conditional c) /\
  len (OpConditionalBatch :: write_conditional c) = conditionalBatchEncodedSize c.
Proof.
  intros P V. pose proof (canonical_parts rules b b' c P V) as V'.
  split; [done|]. split; [by eapply canonical_fixed|].
  split; [by apply encode_conditional|apply len_write_conditional].
Qed.
End Log.

Section Rows.
Context {DB : Type} `{KL : PebbleLaws DB}.
Context (rules : version_rules).

(** C12: a conditional batch is all or nothing. It takes effect exactly when
    the checks of its canonical form accept it, every precondition holds, and
    neither the hook nor Pebble fails; then every mutated key has its new
    value, every row under a replaced prefix is one of the replacement's sets,
    and every other key has its old value. Otherwise it changes nothing, and
    the error is the refusal of the checks, [ErrRaftConditionalConflict] for a
    precondition, or the failure. (Keys are byte strings.) *)
Theorem conditional_batch_atomic hook fail (db : DB) b :
  match applyConditionalBatchWithHook rules hook fail db (Some b) with
  | Ok db' => is_ok (canonicalConditionalBatch rules (Some b)) = true /\ hook = None /\ fail = None /\
              Forall (pre_holds db) (cb_Preconditions b) /\ replaced db db' b
  | Err e => canonicalConditionalBatch rules (Some b) = Err e \/
             is_ok (canonicalConditionalBatch rules (Some b)) = true /\
             (~ Forall (pre_holds db) (cb_Preconditions b) /\ e = ErrRaftConditionalConflict \/
              Forall (pre_holds db) (cb_Preconditions b) /\ (hook = Some e \/ hook = None /\ fail = Some e))
  end.
Proof. apply conditional_atomic. Qed.

(** Two creators of one key never both win: once a batch that sets a key
    has committed, a batch that expects the key absent is refused with
    [ErrRaftConditionalConflict] and changes nothing. *)
Theorem second_creator_refused (db db1 : DB) h1 f1 h2 f2 b1 b2 c2 key value :
  cb_PrefixReplacements b1 = [] -> cb_PrefixReplacements b2 = [] ->
  mkBatchOp false key value ∈ cb_Mutations b1 -> absent key ∈ cb_Preconditions b2 ->
  canonicalConditionalBatch rules (Some b2) = Ok c2 ->
  applyConditionalBatchWithHook rules h1 f1 db (Some b1) = Ok db1 ->
  applyConditionalBatchWithHook rules h2 f2 db1 (Some b2) = Err ErrRaftConditionalConflict.
Proof.
  intros R1 R2 Hset Habs V2 E1.
  destruct (canonicalConditionalBatch rules (Some b1)) as [c1|e] eqn:V1.
  2:{ unfold applyConditionalBatchWithHook in E1. rewrite V1 in E1. discriminate E1. }
  pose proof (conditional_exact rules h1 f1 db b1 c1 V1 R1) as X1. rewrite E1 in X1.
  destruct X1 as (_ & _ & _ & U & _). specialize (U _ Hset). cbn in U.
  assert (~ Forall (pre_holds db1) (cb_Preconditions b2)) as N.
  { intros F. apply list_elem_of_In in Habs. rewrite List.Forall_forall in F. specialize (F _ Habs). unfold pre_holds in F. cbn in F. congruence. }
  pose proof (conditional_exact rules h2 f2 db1 b2 c2 V2 R2) as X2.
  destruct (applyConditionalBatchWithHook rules h2 f2 db1 (Some b2)) as [db2|e]; [by destruct X2 as (_ & _ & ? & _)|].
  destruct X2 as [[_ ->]|[? _]]; done.
Qed.

(** C30: applying the log entry of a conditional batch. An entry whose batch
    names no Raft term or the term of the log changes a replica's rows as the
    batch applied directly does; one that names another term is refused with
    [ErrRaftConditionalConflict]. A refused or failing entry is consumed
    without effect and without advancing the applied index. *)
Theorem log_apply_is_direct_apply `{Codec InodeMeta, Codec InodeWithVersion}
    hook fail index term b (r : Replica (DB := DB)) data :
  EncodeChecked rules (mkRaftLogEntry OpConditionalBatch [] [] [] (Some b)) = Ok data ->
  is_u64 (cb_ExpectedRaftTerm b) ->
  Apply rules hook fail index term data r =
    let consumed := mkReplica (r_db r) (r_inCache r) (r_lastAppliedIndex r) (r_lastAppliedTerm r) index in
    if bool_decide (cb_ExpectedRaftTerm b = 0 \/ cb_ExpectedRaftTerm b = term) then
      match applyConditionalBatchWithHook rules hook fail (r_db r) (Some b) with
      | Ok db => (mkReplica db (r_inCache r) index term index, None)
      | Err e => (consumed, Some e)
      end
    else (consumed, Some ErrRaftConditionalConflict).
Proof. apply Apply_conditional. Qed.

(** The iterator bounds of a prefix scan select exactly the rows whose key
    has the prefix, also for prefixes that end in 0xff bytes; and following
    the cursor of [scanPrefixPaged] page by page returns each of them once, in
    key order. *)
Theorem prefix_scans_exact (db : DB) prefix pageSize :
  0 < pageSize -> prefix <> [] -> bytes_wf prefix ->
  let rows := kv_range db prefix (prefixUpperBound prefix) in
  (forall k v, bytes_wf k -> (k, v) ∈ rows <-> kv_get db k = Some v /\ HasPrefix k prefix = true) /\
  StronglySorted (fun p q => bytes_lt p.1 q.1) rows /\
  all_pages (S (length rows)) db prefix [] pageSize = rows.
Proof.
  intros Hp Hn Hw rows. split; [intros k v Hk; by apply elem_of_scan_prefix|].
  split; [apply kv_range_sorted|by apply all_pages_complete].
Qed.
End Rows.

(** ** Applications *)

Definition file_a : list Z := str "a".

Definition a_created : NS Mem * mgo (option InodeMeta) :=
  exec any_rules false calm (OCreateFile 1 file_a 420) fresh.

Lemma small_u64 x : 0 <= x < 1000 -> is_u64 x.
Proof. unfold uintw. lia. Qed.

Lemma namespace_refines_witness :
  exists f, ns_ok a_created.1 f /\ allowed (root_fs 1000) [(OCreateFile 1 file_a 420, a_created.2)] f.
Proof.
  apply (namespace_refines any_rules false fresh (root_fs 1000) _ _ fresh_ok).
  apply (reach_step any_rules false fresh [] fresh calm _ a_created.1 a_created.2).
  - constructor.
  - intros f _. split; [by apply small_u64|apply str_wf].
  - unfold a_created. by destruct (exec any_rules false calm (OCreateFile 1 file_a 420) fresh).
Defined.

Lemma create_succeeds_witness :
  exists s' m f', CreateFile any_rules false calm 1 file_a 420 fresh = (s', Ok m) /\
    ns_ok s' f' /\ created (root_fs 1000) f' 1 file_a m.
Proof.
  apply (create_succeeds any_rules false calm 1 file_a 420 fresh (root_fs 1000) fresh_ok).
  - by split.
  - by split.
  - by apply small_u64.
  - apply str_wf.
  - apply lookup_empty.
  - done.
  - constructor.
  - done.
  - vm_compute. reflexivity.
  - intros k id Hid. assert (id = 2 \/ id = 3) as [->| ->]
      by (destruct Hid as [->| ->]; [left|right]; vm_compute; reflexivity).
    + unfold rows_fit. repeat constructor; vm_compute; discriminate.
    + unfold rows_fit. repeat constructor; vm_compute; discriminate.
Defined.

Lemma lookup_exact_witness :
  (Lookup 1 file_a fresh).2 = Err ErrEntryNotFound /\ f_entries (root_fs 1000) !! (1, file_a) = None.
Proof.
  pose proof (lookup_exact 1 file_a fresh (root_fs 1000) fresh_ok eq_refl ltac:(by apply small_u64)) as H.
  destruct (Lookup 1 file_a fresh) as [s' [m|e]].
  - destruct H as (_ & e & r & He & _). exfalso. cbn in He. by rewrite lookup_empty in He.
  - destruct H as (_ & -> & He). by split.
Defined.

Lemma listings_agree_witness : exists l, ReadDir 1 0 0 fresh = (fresh, Ok l) /\ ReadDirFrom 1 [] 0 fresh = (fresh, Ok l).
Proof.
  destruct (listings_agree 1 fresh (root_fs 1000) fresh_ok eq_refl ltac:(by apply small_u64))
    as (l & _ & Hm & H1 & H2).
  assert (l = []) as ->.
  { destruct l as [|d l]; [done|]. exfalso.
    destruct (proj1 (Hm d) ltac:(by left)) as (_ & e & He & _). cbn in He. by rewrite lookup_empty in He. }
  exists []. split; [rewrite H1 by done; done|rewrite H2; done].
Defined.

Lemma a_created_ok : exists f, ns_ok a_created.1 f.
Proof.
  destruct (exec_sound any_rules false calm (OCreateFile 1 file_a 420) fresh (root_fs 1000) a_created.1
    a_created.2 fresh_ok) as (f & O & _); [split; [by apply small_u64|apply str_wf]| |by exists f].
  unfold a_created. by destruct (exec any_rules false calm (OCreateFile 1 file_a 420) fresh).
Qed.

Lemma rename_onto_itself_removes_witness :
  let s := a_created.1 in let s' := (Rename any_rules false calm 1 file_a 1 file_a s).1 in
  (Lookup 1 file_a s).2 <> Err ErrEntryNotFound /\
  exists f f', ns_ok s f /\ ns_ok s' f' /\ is_Some (f_entries f !! (1, file_a)) /\
    f_entries f' !! (1, file_a) = None.
Proof.
  intros s s'. split; [vm_compute; discriminate|]. destruct a_created_ok as [f O].
  destruct (rename_onto_itself_removes any_rules false calm 1 file_a s f s' O) as (f' & O' & Hi & Hn).
  - by apply small_u64.
  - apply str_wf.
  - apply (result_of (Rename any_rules false calm 1 file_a 1 file_a s)). vm_compute. reflexivity.
  - exists f, f'. done.
Defined.

Definition guarded : ConditionalBatch :=
  mkConditionalBatch 1 0 [absent (str "/ns/1/b"); absent (str "/inode/7")]
    [mkBatchOp false (str "/ns/1/b") [1; 2]; mkBatchOp false (str "/inode/7") [3]; mkBatchOp true (str "/x") []] [].

Definition guarded_swapped : ConditionalBatch :=
  mkConditionalBatch 1 0 [absent (str "/inode/7"); absent (str "/ns/1/b")]
    [mkBatchOp true (str "/x") []; mkBatchOp false (str "/ns/1/b") [1; 2]; mkBatchOp false (str "/inode/7") [3]] [].

Lemma log_entry_roundtrip_witness :
  DecodeRaftLogEntry any_rules
    (OpBatch :: [0; 0; 0; 2; 0; 0; 0; 0; 1; 65; 0; 0; 0; 2; 7; 8; 1; 0; 0; 0; 1; 66]) =
  Ok (mkRaftLogEntry OpBatch [] [] [mkBatchOp false [65] [7; 8]; mkBatchOp true [66] []] None).
Proof.
  apply (log_entry_roundtrip any_rules
    (mkRaftLogEntry OpBatch [] [] [mkBatchOp false [65] [7; 8]; mkBatchOp true [66] []] None));
    [|vm_compute; reflexivity].
  split; [done|]. split; [done|]. split; [done|]. split; [|done].
  repeat constructor; done.
Defined.

Lemma canonical_form_unique_witness :
  canonicalConditionalBatch any_rules (Some guarded_swapped) = canonicalConditionalBatch any_rules (Some guarded) /\
  EncodeChecked any_rules (mkRaftLogEntry OpConditionalBatch [] [] [] (Some guarded_swapped)) =
  EncodeChecked any_rules (mkRaftLogEntry OpConditionalBatch [] [] [] (Some guarded)).
Proof.
  destruct (canonical_form_unique any_rules guarded guarded_swapped (sorted_batch guarded)) as (H1 & _ & H2 & _).
  - split; [done|]. split; [done|]. split; [apply Permutation_swap|]. split; [|done].
    cbn [guarded guarded_swapped cb_Mutations]. apply (Permutation_app_comm [_; _] [_]).
  - vm_compute. reflexivity.
  - split; [rewrite H1; vm_compute; reflexivity|rewrite H2; vm_compute; reflexivity].
Defined.

Definition commits (r : mgo Mem) : Prop := match r with Ok _ => True | Err _ => False end.

Lemma guarded_commits : commits (applyConditionalBatchWithHook any_rules None None (∅ : Mem) (Some guarded)).
Proof. vm_compute. exact I. Qed.

(** Replacing the catalogue: one old entry goes, one new comes. *)
Definition recatalog : ConditionalBatch :=
  mkConditionalBatch conditionalBatchVersion 0 [absent (str "k")] [mkBatchOp false (str "k") [1]]
    [mkReplacement prefixBackupCatalog [mkBatchOp false (str "backup/catalog/new") [2]]].
Definition old_catalog : Mem := {[ str "backup/catalog/old" := [3]; str "z" := [4] ]}.

Lemma recatalog_commits : commits (applyConditionalBatchWithHook any_rules None None old_catalog (Some recatalog)).
Proof. vm_compute. exact I. Qed.

Lemma conditional_batch_atomic_witness :
  exists db', applyConditionalBatchWithHook any_rules None None old_catalog (Some recatalog) = Ok db' /\
    kv_get db' (str "k") = Some [1] /\ kv_get db' (str "backup/catalog/new") = Some [2] /\
    kv_get db' (str "backup/catalog/old") = None /\ kv_get db' (str "z") = Some [4].
Proof.
  pose proof (conditional_batch_atomic any_rules None None old_catalog recatalog) as H.
  pose proof recatalog_commits as K.
  destruct (applyConditionalBatchWithHook any_rules None None old_catalog (Some recatalog)) as [db'|e] eqn:E; [|destruct K].
  exists db'. split; [done|]. destruct H as (_ & _ & _ & _ & [H1 H2 H3 H4]).
  split; [apply (H1 (mkBatchOp false (str "k") [1])); [by left|apply str_wf]|].
  split; [apply (H2 _ (mkBatchOp false (str "backup/catalog/new") [2]) ltac:(by left)); by left|].
  split.
  - apply (H3 _ _ ltac:(by left)); [apply str_wf|vm_compute; reflexivity|]. intros E1%list_elem_of_singleton. discriminate E1.
  - rewrite H4; [vm_compute; reflexivity|apply str_wf| |].
    + intros E1%list_elem_of_singleton. discriminate E1.
    + intros r ->%list_elem_of_singleton. vm_compute. reflexivity.
Defined.

Lemma second_creator_refused_witness :
  exists db1, applyConditionalBatchWithHook any_rules None None (∅ : Mem) (Some guarded) = Ok db1 /\
    applyConditionalBatchWithHook any_rules None None db1 (Some guarded_swapped) = Err ErrRaftConditionalConflict.
Proof.
  pose proof guarded_commits as K.
  destruct (applyConditionalBatchWithHook any_rules None None (∅ : Mem) (Some guarded)) as [db1|e] eqn:E; [|destruct K].
  exists db1. split; [done|].
  apply (second_creator_refused any_rules (∅ : Mem) db1 None None None None guarded guarded_swapped
    (sorted_batch guarded_swapped) (str "/ns/1/b") [1; 2]).
  - reflexivity.
  - reflexivity.
  - left.
  - right. left.
  - vm_compute. reflexivity.
  - exact E.
Defined.

Definition replica0 : Replica (DB := Mem) := mkReplica ∅ ∅ 4 1 4.

(** A batch fenced to term 2, in the log at term 2 and at term 3. *)
Definition fenced2 : ConditionalBatch :=
  mkConditionalBatch conditionalBatchTermFencedVersion 2 (cb_Preconditions guarded) (cb_Mutations guarded) [].

Lemma log_apply_is_direct_apply_witness :
  exists data, EncodeChecked any_rules (mkRaftLogEntry OpConditionalBatch [] [] [] (Some fenced2)) = Ok data /\
    Apply any_rules None None 5 3 data replica0 = (mkReplica ∅ ∅ 4 1 5, Some ErrRaftConditionalConflict) /\
    (Apply any_rules None None 5 2 data replica0).2 = None.
Proof.
  destruct (EncodeChecked any_rules (mkRaftLogEntry OpConditionalBatch [] [] [] (Some fenced2))) as [data|e] eqn:E.
  2:{ exfalso. vm_compute in E. discriminate E. }
  exists data. split; [done|].
  pose proof (fun term => log_apply_is_direct_apply any_rules None None 5 term fenced2 replica0 data E
    ltac:(by apply small_u64)) as H. split; rewrite H; vm_compute; reflexivity.
Defined.

Lemma prefix_scans_exact_witness :
  let db : Mem := {[ [65; 255] := [1]; [65; 255; 7] := [2]; [66] := [3]; [65; 254] := [4] ]} in
  all_pages 3 db [65; 255] [] 1 = [([65; 255], [1]); ([65; 255; 7], [2])].
Proof.
  intros db. destruct (prefix_scans_exact db [65; 255] 1) as (_ & _ & H).
  - done.
  - done.
  - repeat constructor; done.
  - assert (kv_range db [65; 255] (prefixUpperBound [65; 255]) = [([65; 255], [1]); ([65; 255; 7], [2])]) as E
      by (vm_compute; reflexivity).
    rewrite E in H. exact H.
Defined.

(** * Behaviours of the metadata service at its edges

    Evaluated histories on the store of [MetaScenario.v] that show where the
    namespace operations differ from what their comments or POSIX say:
    a rename that fails after removing its destination, the inode cache that
    forgets device numbers and outlives a directory, a directory made under a
    file. *)

Definition in_bucket (m : InodeMeta) (root : Z) : InodeMeta :=
  mkInodeMeta (im_ID m) (im_Type m) (im_Size m) (im_NLink m) root (im_UID m) (im_GID m)
    (im_Mode m) (im_CTime m) (im_MTime m) (im_ATime m) (im_Rdev m) (im_ChunkMap m) (im_Symlink m) (im_XAttrs m).

(** A call whose error the caller looks at and goes on. *)
Definition attempt {DB A} (m : N DB A) : N DB (mgo A) := fun s => let (s', r) := m s in (s', Ok r).

(** A refused rename destroys its destination: across buckets [Rename]
    returns [ErrCrossBucketRename], but the check comes after the existing
    destination was unlinked, so the file that was there is gone. *)
Theorem refused_rename_removes_destination :
  ((do* d := MkDir any_rules calm RootInodeID (str "x") 493 in
    do* _ := UpdateInode true calm (in_bucket d (im_ID d)) in
    do* e := MkDir any_rules calm RootInodeID (str "y") 493 in
    do* _ := UpdateInode true calm (in_bucket e (im_ID e)) in
    do* _ := CreateFile any_rules true calm (im_ID d) (str "f") 420 in
    do* m := CreateFile any_rules true calm (im_ID e) (str "f") 420 in
    do* before := attempt (Lookup (im_ID e) (str "f")) in
    do* renamed := attempt (Rename any_rules true calm (im_ID d) (str "f") (im_ID e) (str "f")) in
    do* after := attempt (Lookup (im_ID e) (str "f")) in
    nret (bool_decide (before = Ok m), renamed, bool_decide (after = Err ErrEntryNotFound))) fresh).2 =
  Ok (true, Err ErrCrossBucketRename, true).
Proof. vm_compute. reflexivity. Qed.

(** The second read of a device inode loses its device number: the cached
    copy omits [Rdev], so [GetInode] answers 0, and an extended
    attribute set from the cached copy writes the loss to the store. *)
Theorem cached_inode_loses_rdev :
  ((do* m := CreateNode any_rules false calm RootInodeID (str "null") FileCharDevice 438 259 in
    do* first := GetInode calm (im_ID m) in
    do* second := GetInode calm (im_ID m) in
    do* before := Lookup RootInodeID (str "null") in
    do* _ := SetXAttr false calm (im_ID m) (str "user.k") (str "v") in
    do* after := Lookup RootInodeID (str "null") in
    nret (im_Rdev first, im_Rdev second, im_Rdev before, im_Rdev after)) fresh).2 =
  Ok (259, 0, 259, 0).
Proof. vm_compute. reflexivity. Qed.

(** A removed directory is served as the file that reuses its id: [RmDir]
    releases the inode id without dropping the cached inode, so [GetInode] of
    the next file created answers with a directory. *)
Theorem removed_directory_shadows_new_file :
  ((do* d := MkDir any_rules calm RootInodeID (str "d") 493 in
    do* _ := GetInode calm (im_ID d) in
    do* _ := RmDir any_rules calm RootInodeID (str "d") in
    do* m := CreateFile any_rules false calm RootInodeID (str "f") 420 in
    do* got := GetInode calm (im_ID m) in
    nret (im_ID m =? im_ID d, im_Type m, im_Type got)) fresh).2 =
  Ok (true, FileRegular, FileDirectory).
Proof. vm_compute. reflexivity. Qed.

(** A directory made under a file leaks the file: [MkDir] does not look at
    the parent's type and adds to the file's link count, so unlinking its only
    name leaves the inode behind with one link and no name. *)
Theorem mkdir_under_file_leaks_inode :
  ((do* m := CreateFile any_rules false calm RootInodeID (str "f") 420 in
    do* _ := MkDir any_rules calm (im_ID m) (str "d") 493 in
    do* _ := Unlink any_rules false calm RootInodeID (str "f") in
    do* listing := ReadDir RootInodeID 0 0 in
    do* orphan := GetInode calm (im_ID m) in
    nret (listing, im_Type orphan, im_NLink orphan)) fresh).2 =
  Ok ([], FileRegular, 1).
Proof. vm_compute. reflexivity. Qed.
