(* ===== verification/ChangeJournal.v ===== *)
(** * The change journal

    Models [nufs-core/datanode/storage/journal/change_journal.go]: the
    durable feed of asynchronous extent changes that heartbeats carry to the
    metadata service. A directory is its listing in name order, as
    [os.ReadDir] returns it, each file with its contents; the open file is
    its name, opened for append. *)

From stdpp Require Import base list sorting numbers strings.
From Stdlib Require Import ZArith Lia.
From S2P Require Import Prelude Bytes Crc StorageTypes Pebble MetaKeys.

Local Open Scope Z_scope.
Local Open Scope go_scope.

(** ** Events *)

Record ChangeEvent := mkChangeEvent {
  ce_Seq : Z; ce_Kind : Z; ce_ExtentID : Z; ce_Generation : Z; ce_SegmentID : Z;
  ce_Reason : list Z; ce_AtUnix : Z
}.

#[export] Instance ChangeEvent_eq_dec : EqDecision ChangeEvent.
Proof. solve_decision. Defined.

Abbreviation len l := (Z.of_nat (length l)).

(** The body of [encodeEvent]: length field, fixed fields, reason. *)
Definition event_body (ev : ChangeEvent) : list Z :=
  be_enc 4 (47 + len (ce_Reason ev)) ++ be_enc 1 (ce_Kind ev) ++ be_enc 8 (ce_Seq ev)
  ++ be_enc 8 (ce_ExtentID ev) ++ be_enc 8 (ce_Generation ev) ++ be_enc 8 (ce_SegmentID ev)
  ++ be_enc 8 (u64 (ce_AtUnix ev)) ++ be_enc 2 (len (ce_Reason ev)) ++ ce_Reason ev.

(** [encodeEvent] *)
Definition encodeEvent (ev : ChangeEvent) : list Z :=
  let body := event_body ev in body ++ be_enc 4 (ChecksumIEEE body).

(** The fields [decodeFile] reads from a body of at least 47 bytes. *)
Definition event_of (body : list Z) : ChangeEvent :=
  let rl := get_be 45 2 body in
  mkChangeEvent (get_be 5 8 body) (get_byte 4 body) (get_be 13 8 body) (get_be 21 8 body) (get_be 29 8 body)
    (if 47 + rl <=? len body then field 47 (Z.to_nat rl) body else [])
    (i64 (get_be 37 8 body)).

(** The loop of [decodeFile]; [data] is what remains from the offset. A round
    consumes at least 51 bytes, so the length of the file is enough fuel. *)
Fixpoint decode_events (fuel : nat) (data : list Z) : list ChangeEvent :=
  match fuel with
  | O => []
  | S fuel =>
      if len data <? 8 then [] else
      let bodyLen := get_be 0 4 data in
      if (bodyLen <? 47) || (len data <? bodyLen + 4) then [] else
      let n := Z.to_nat bodyLen in
      let body := field 0 n data in
      if negb (ChecksumIEEE body =? get_be n 4 data) then [] else
      event_of body :: decode_events fuel (drop (n + 4) data)
  end.

(** [decodeFile] *)
Definition decodeFile (data : list Z) : list ChangeEvent := decode_events (length data) data.

(** [eventSize] *)
Definition eventSize (ev : ChangeEvent) : Z := 4 + 1 + 8 + 8 + 8 + 8 + 8 + 2 + len (ce_Reason ev) + 4.

(** ** The directory *)

Abbreviation directory := (list (list Z * list Z)).

(** [strings.HasSuffix] *)
Definition HasSuffix (s t : list Z) : bool := HasPrefix (rev s) (rev t).

(** [listChangeFiles] *)
Definition listChangeFiles (dir : directory) : directory :=
  List.filter (fun f => HasPrefix f.1 (str "change-") && HasSuffix f.1 (str ".log")) dir.

Fixpoint leading_digits (s : list Z) : list Z :=
  match s with
  | c :: s => if (48 <=? c) && (c <=? 57) then c :: leading_digits s else []
  | [] => []
  end.

(** [seqFromName]: the number [Sscanf] reads, zero when there is none. *)
Definition seqFromName (name : list Z) : Z :=
  default 0 (ParseUint (leading_digits (TrimPrefix name (str "change-")))).

(** [fmt.Sprintf("change-%016d.log", gen)] *)
Definition change_name (gen : Z) : list Z :=
  let digits := FormatUint gen in
  str "change-" ++ repeat 48 (16 - length digits) ++ digits ++ str ".log".

(** [os.OpenFile] with [O_CREATE]: a new empty file takes its place in the listing. *)
Fixpoint create_file (name : list Z) (dir : directory) : directory :=
  match dir with
  | [] => [(name, [])]
  | (n, c) :: rest =>
      if bool_decide (n = name) then dir
      else if bytes_ltb name n then (name, []) :: dir
      else (n, c) :: create_file name rest
  end.

(** A write to a file opened with [O_APPEND]. *)
Definition append_file (name bytes : list Z) (dir : directory) : directory :=
  map (fun f => if bool_decide (f.1 = name) then (f.1, f.2 ++ bytes) else f) dir.

Definition file_length (name : list Z) (dir : directory) : Z :=
  match find (fun f => bool_decide (f.1 = name)) dir with Some f => len f.2 | None => 0 end.

(** ** The journal *)

Record ChangeJournal := mkChangeJournal {
  cj_dir : directory; cj_seq : Z; cj_file : list Z; cj_fileGen : Z; cj_ack : Z; cj_bytes : Z;
  cj_MaxBytes : Z; cj_RetainMinNs : Z; cj_MaxPerHeartbeat : Z; cj_MaxHeartbeatBytes : Z
}.

Record JournalOptions := mkJournalOptions {
  jo_MaxBytes : Z; jo_RetainMinDuration : Z; jo_MaxPerHeartbeat : Z; jo_MaxHeartbeatBytes : Z
}.

Definition max_seq (files : directory) : Z :=
  fold_left (fun m f => fold_left (fun m ev => if m <? ce_Seq ev then ce_Seq ev else m) (decodeFile f.2) m)
    files 0.

(** [OpenChangeJournal]; [fail] is the outcome of its directory and file
    operations, [newFile] of the empty case included. *)
Definition OpenChangeJournal (fail : option err) (opts : JournalOptions) (dir : directory) :
    go ChangeJournal :=
  match fail with
  | Some e => Err e
  | None =>
      let dflt x d := if x =? 0 then d else x in
      let files := listChangeFiles dir in
      let gen := fold_left (fun g f => Z.max g (seqFromName f.1)) files 0 in
      let open dir file gen :=
        mkChangeJournal dir (max_seq files) file gen 0 (file_length file dir)
          (dflt (jo_MaxBytes opts) (Z.shiftl 8 30)) (dflt (jo_RetainMinDuration opts) 86400000000000)
          (dflt (jo_MaxPerHeartbeat opts) 10000) (dflt (jo_MaxHeartbeatBytes opts) (Z.shiftl 4 20)) in
      match last files with
      | Some newest => Ok (open dir newest.1 gen)
      | None => let name := change_name (u64 (gen + 1)) in Ok (open (create_file name dir) name (u64 (gen + 1)))
      end
  end.

Definition with_log (dir : directory) (seq bytes : Z) (j : ChangeJournal) : ChangeJournal :=
  mkChangeJournal dir seq (cj_file j) (cj_fileGen j) (cj_ack j) bytes (cj_MaxBytes j) (cj_RetainMinNs j)
    (cj_MaxPerHeartbeat j) (cj_MaxHeartbeatBytes j).

(** How the write and the sync of an append end: a failed write leaves some
    prefix of its bytes behind. *)
Inductive write_fate : Type :=
| Written
| WriteFails (n : nat) (e : err)
| SyncFails (e : err).

(** [ChangeJournal.Append] at time [now] *)
Definition Append (fate : write_fate) (now kind extentID gen segID : Z) (reason : list Z) (j : ChangeJournal) :
    ChangeJournal * go Z :=
  let seq := u64 (cj_seq j + 1) in
  let buf := encodeEvent (mkChangeEvent seq kind extentID gen segID reason now) in
  let written bs := with_log (append_file (cj_file j) bs (cj_dir j)) seq (cj_bytes j) j in
  if cj_MaxBytes j <? cj_bytes j + len buf then
    (with_log (cj_dir j) seq (cj_bytes j) j, Err (Errorf "journal: max bytes reached, force reconciliation"))
  else
    match fate with
    | WriteFails n e => (written (take n buf), Err e)
    | SyncFails e => (written buf, Err e)
    | Written => (with_log (append_file (cj_file j) buf (cj_dir j)) seq (cj_bytes j + len buf) j, Ok seq)
    end.

(** [ChangeJournal.Ack] *)
Definition Ack (seq : Z) (j : ChangeJournal) : ChangeJournal :=
  mkChangeJournal (cj_dir j) (cj_seq j) (cj_file j) (cj_fileGen j) (if cj_ack j <? seq then seq else cj_ack j)
    (cj_bytes j) (cj_MaxBytes j) (cj_RetainMinNs j) (cj_MaxPerHeartbeat j) (cj_MaxHeartbeatBytes j).

(** Every event on disk, file after file. *)
Definition journal_events (j : ChangeJournal) : list ChangeEvent :=
  concat (map (fun f => decodeFile f.2) (listChangeFiles (cj_dir j))).

(** The loops of [Pending]. *)
Fixpoint pending_loop (ack maxEvents maxBytes : Z) (out : list ChangeEvent) (sentBytes : Z)
    (evs : list ChangeEvent) : list ChangeEvent :=
  match evs with
  | [] => out
  | ev :: evs =>
      if ce_Seq ev <=? ack then pending_loop ack maxEvents maxBytes out sentBytes evs
      else if (maxEvents <=? len out) || (maxBytes <=? sentBytes) then out
      else pending_loop ack maxEvents maxBytes (out ++ [ev]) (sentBytes + eventSize ev) evs
  end.

(** [ChangeJournal.Pending]: the events and the next acknowledgement to send *)
Definition Pending (maxEvents maxBytes : Z) (j : ChangeJournal) : list ChangeEvent * Z :=
  let out := pending_loop (cj_ack j) maxEvents maxBytes [] 0 (journal_events j) in
  (out, u64 (cj_ack j + len out)).

(** ** Heartbeats *)

(** Where a heartbeat can fail, as far as the journal is concerned: before
    the service looks at the events (transport, liveness, chunk states), on
    one event ([reconcileOneChangeEvent]), loading or saving the node's row,
    on the way back, and in the acknowledgement query. *)
Record beat_faults := mkBeatFaults {
  bf_before : option err; bf_event : ChangeEvent -> option err;
  bf_load : option err; bf_save : option err; bf_reply : option err; bf_ack : option err
}.

(** The loop of [ReconcileChangeEvents] of [metadata/pebble_store.go], with
    the events it got through. *)
Fixpoint reconcile_loop (one : ChangeEvent -> option err) (maxSeq : Z) (events : list ChangeEvent) :
    list ChangeEvent * go Z :=
  match events with
  | [] => ([], Ok maxSeq)
  | ev :: events =>
      match one ev with
      | Some e => ([], Err e)
      | None =>
          let (through, r) := reconcile_loop one (if maxSeq <? ce_Seq ev then ce_Seq ev else maxSeq) events in
          (ev :: through, r)
      end
  end.

(** [advanceChangeAck] on the node's persisted watermark: never lowers it *)
Definition advanceChangeAck (load save : option err) (seq watermark : Z) : go Z :=
  match load with
  | Some e => Err e
  | None =>
      if seq <=? watermark then Ok watermark else
      match save with Some e => Err e | None => Ok seq end
  end.

(** [ReconcileChangeEvents]: the events processed, the watermark left in the
    node's row, and the result *)
Definition ReconcileChangeEvents (f : beat_faults) (events : list ChangeEvent) (watermark : Z) :
    list ChangeEvent * Z * go Z :=
  match events with
  | [] => ([], watermark, Ok 0)
  | _ =>
      let (through, r) := reconcile_loop (bf_event f) 0 events in
      match r with
      | Err e => (through, watermark, Err e)
      | Ok maxSeq =>
          match advanceChangeAck (bf_load f) (bf_save f) maxSeq watermark with
          | Err e => (through, watermark, Err e)
          | Ok w => (through, w, Ok maxSeq)
          end
      end
  end.

(** The change-journal part of [HeartbeatReporter.send] against the service's
    [Heartbeat] and [AckChangeEvents]: ship what is pending, and when both
    calls return, acknowledge the watermark the service reports. *)
Definition heartbeat (f : beat_faults) (st : ChangeJournal * Z) : list ChangeEvent * (ChangeJournal * Z) :=
  let (j, watermark) := st in
  match (Pending (cj_MaxPerHeartbeat j) (cj_MaxHeartbeatBytes j) j).1 with
  | [] => ([], st)
  | out =>
      match bf_before f with
      | Some _ => ([], st)
      | None =>
          let '(through, w, r) := ReconcileChangeEvents f out watermark in
          match r, bf_reply f, bf_ack f with
          | Ok _, None, None => (through, (if 0 <? w then Ack w j else j, w))
          | _, _, _ => (through, (j, w))
          end
      end
  end.

(** What a run of heartbeats gets processed, and where it leaves both sides. *)
Fixpoint heartbeats (fs : list beat_faults) (st : ChangeJournal * Z) : list ChangeEvent * (ChangeJournal * Z) :=
  match fs with
  | [] => ([], st)
  | f :: fs =>
      let (through, st) := heartbeat f st in
      let (more, st) := heartbeats fs st in (through ++ more, st)
  end.

Definition no_faults : beat_faults := mkBeatFaults None (fun _ => None) None None None None.

(** ** Decoding *)

Record event_wf (ev : ChangeEvent) : Prop := mkEventWf {
  ew_seq : is_u64 (ce_Seq ev); ew_kind : is_u8 (ce_Kind ev); ew_extent : is_u64 (ce_ExtentID ev);
  ew_gen : is_u64 (ce_Generation ev); ew_seg : is_u64 (ce_SegmentID ev);
  ew_reason : len (ce_Reason ev) < 2 ^ 16; ew_at : is_i64 (ce_AtUnix ev)
}.

Lemma length_event_body ev : len (event_body ev) = 47 + len (ce_Reason ev).
Proof. unfold event_body. rewrite !length_app, !length_be_enc. lia. Qed.

Lemma length_encodeEvent ev : len (encodeEvent ev) = eventSize ev.
Proof.
  unfold encodeEvent, eventSize. rewrite length_app, length_be_enc, Nat2Z.inj_add, length_event_body. lia.
Qed.

Lemma event_of_body ev : event_wf ev -> event_of (event_body ev) = ev.
Proof.
  intros [? ? ? ? ? Hr ?]. pose proof (length_event_body ev) as L.
  unfold event_of. rewrite L. unfold event_body. be_slices.
  assert (u16 (len (ce_Reason ev)) = len (ce_Reason ev)) as -> by (apply wrap_small; unfold uintw; lia).
  rewrite !wrap_small by (done || apply wrap_bound; lia). rewrite Z.leb_refl.
  rewrite i64_small by done. rewrite Nat2Z.id, firstn_all. by destruct ev.
Qed.

Lemma body_head ev rest : event_wf ev -> get_be 0 4 (event_body ev ++ rest) = 47 + len (ce_Reason ev).
Proof.
  intros W. pose proof (ew_reason ev W). unfold event_body. rewrite <- app_assoc. be_slices.
  apply wrap_small. unfold uintw. lia.
Qed.

Lemma decode_one fuel ev rest :
  event_wf ev -> bytes_wf (ce_Reason ev) ->
  decode_events (S fuel) (encodeEvent ev ++ rest) = ev :: decode_events fuel rest.
Proof.
  intros W Hb. cbn [decode_events]. pose proof (length_event_body ev) as L.
  unfold encodeEvent. rewrite <- app_assoc. rewrite !body_head by done.
  set (body := event_body ev) in *. set (crc := be_enc 4 (ChecksumIEEE body)).
  assert (length crc = 4%nat) as Lc by apply length_be_enc.
  rewrite !length_app. destruct (Z.ltb_spec (Z.of_nat (length body + (length crc + length rest))) 8); [lia|].
  destruct (Z.ltb_spec (47 + len (ce_Reason ev)) 47); [lia|]. cbn [orb].
  destruct (Z.ltb_spec (Z.of_nat (length body + (length crc + length rest))) (47 + len (ce_Reason ev) + 4)); [lia|].
  replace (Z.to_nat (47 + len (ce_Reason ev))) with (length body) by lia.
  rewrite field_app_l, field_all by lia. unfold get_be.
  replace (length body) with (length body + 0)%nat by lia. rewrite field_app_r.
  rewrite field_app_l by lia. rewrite <- Lc, field_all.
  assert (be_dec crc = ChecksumIEEE body) as ->.
  { unfold crc. rewrite be_dec_enc. apply Z.mod_small.
     apply (Checksum_bound ieee); [unfold uintw; done|]. unfold body, event_body.
    repeat (apply bytes_wf_app; split; [apply be_enc_wf|]). done. }
  rewrite Z.eqb_refl. cbn [negb]. unfold body at 1. rewrite event_of_body by done. f_equal.
  replace (length body + 0 + length crc)%nat with (length body + length crc)%nat by lia.
  rewrite drop_app_add, drop_app_length. done.
Qed.

(** A whole log reads back, and a torn entry at its end is ignored. *)
Definition encode_log (evs : list ChangeEvent) : list Z := concat (map encodeEvent evs).

Definition good_event (ev : ChangeEvent) : Prop := event_wf ev /\ bytes_wf (ce_Reason ev).

Lemma decode_torn fuel ev t :
  good_event ev -> t `prefix_of` encodeEvent ev -> t <> encodeEvent ev -> decode_events fuel t = [].
Proof.
  intros [W _] [k Hk] Hne. destruct fuel as [|fuel]; [done|]. cbn [decode_events].
  destruct (Z.ltb_spec (len t) 8) as [|H8]; [done|].
  assert (len t < eventSize ev) as Hlt.
  { rewrite <- length_encodeEvent, Hk, length_app. destruct k; [by rewrite app_nil_r in Hk|cbn; lia]. }
  assert (get_be 0 4 t = 47 + len (ce_Reason ev)) as ->.
  { rewrite <- (body_head ev (be_enc 4 (ChecksumIEEE (event_body ev))) W).
    change (event_body ev ++ _) with (encodeEvent ev). rewrite Hk. unfold get_be.
    by rewrite field_app_l by lia. }
  unfold eventSize in Hlt.
  destruct (Z.ltb_spec (len t) (47 + len (ce_Reason ev) + 4)); [|lia]. by rewrite orb_true_r.
Qed.

Lemma decode_log fuel evs t :
  Forall good_event evs -> (length evs <= fuel)%nat -> (forall fuel, decode_events fuel t = []) ->
  decode_events fuel (encode_log evs ++ t) = evs.
Proof.
  intros F. revert fuel. induction F as [|ev evs [W B] F IH]; intros fuel Hf Ht; [apply Ht|].
  destruct fuel as [|fuel]; [cbn in Hf; lia|]. unfold encode_log. cbn [map concat].
  rewrite <- app_assoc, decode_one by done. f_equal. apply IH; [cbn in Hf; lia|done].
Qed.

Lemma length_encode_log evs : (length evs <= length (encode_log evs))%nat.
Proof.
  induction evs as [|ev evs IH]; [done|]. unfold encode_log in *. cbn [map concat length].
  rewrite length_app. pose proof (length_encodeEvent ev). unfold eventSize in *. lia.
Qed.

Definition torn_tail (t : list Z) : Prop :=
  t = [] \/ exists ev, good_event ev /\ t `prefix_of` encodeEvent ev /\ t <> encodeEvent ev.

Lemma decodeFile_log evs t :
  Forall good_event evs -> torn_tail t -> decodeFile (encode_log evs ++ t) = evs.
Proof.
  intros F Ht. apply decode_log; [done|rewrite length_app; pose proof (length_encode_log evs); lia|].
  intros fuel. destruct Ht as [->|(ev & G & P & N)]; [by destruct fuel|by eapply decode_torn].
Qed.

(** * The change journal delivers what was appended

    Appends, a crash that tears the entry being written, and reopening keep
    the list of events; heartbeats ship every event not yet acknowledged once
    and in order. *)

(** ** The invariant *)

Definition increasing (evs : list ChangeEvent) : Prop :=
  StronglySorted (fun a b => ce_Seq a < ce_Seq b) evs /\ Forall (fun ev => 0 < ce_Seq ev) evs.

Record journal_ok (j : ChangeJournal) (evs : list ChangeEvent) : Prop := mkJournalOk {
  jk_names : NoDup (map fst (cj_dir j));
  jk_files : exists pre tail, listChangeFiles (cj_dir j) = pre ++ [(cj_file j, encode_log tail)] /\
               Forall good_event tail /\ evs = concat (map (fun f => decodeFile f.2) pre) ++ tail;
  jk_seqs : increasing evs;
  jk_below : Forall (fun ev => ce_Seq ev <= cj_seq j) evs;
  jk_seq : is_u64 (cj_seq j)
}.

Lemma names_append name bs dir : map fst (append_file name bs dir) = map fst dir.
Proof.
  induction dir as [|[n c] dir IH]; [done|]. cbn [append_file map]. fold (append_file name bs dir).
  rewrite IH. cbn [fst]. by case_bool_decide.
Qed.

Lemma list_append name bs dir : listChangeFiles (append_file name bs dir) = append_file name bs (listChangeFiles dir).
Proof.
  unfold listChangeFiles. induction dir as [|[n c] dir IH]; [done|]. cbn [append_file map List.filter].
  fold (append_file name bs dir).
  assert ((if bool_decide (n = name) then (n, c ++ bs) else (n, c)).1 = n) as Hn by (by case_bool_decide).
  cbn [fst snd] in *. rewrite Hn, IH. destruct (HasPrefix n _ && HasSuffix n _); [|done]. done.
Qed.

Lemma append_other name bs dir : name ∉ map fst dir -> append_file name bs dir = dir.
Proof.
  induction dir as [|[n c] dir IH]; intros Hn; [done|]. cbn [append_file map fst snd] in *.
  apply not_elem_of_cons in Hn as [H1 H2]. fold (append_file name bs dir). rewrite IH by done.
  by rewrite bool_decide_eq_false_2 by congruence.
Qed.

Lemma append_last name bs pre c :
  name ∉ map fst pre -> append_file name bs (pre ++ [(name, c)]) = pre ++ [(name, c ++ bs)].
Proof.
  intros Hn. unfold append_file. rewrite map_app. fold (append_file name bs pre).
  rewrite append_other by done. cbn [map fst snd]. by rewrite bool_decide_eq_true_2.
Qed.

Lemma listed_names dir : NoDup (map fst dir) -> NoDup (map fst (listChangeFiles dir)).
Proof.
  induction dir as [|f dir IH]; intros N; [done|]. cbn [map] in N. apply NoDup_cons in N as [Hf N].
  unfold listChangeFiles. cbn [List.filter]. destruct (_ && _); [|by apply IH].
  cbn [map]. apply NoDup_cons. split; [|by apply IH]. intros Hin. apply Hf.
  apply list_elem_of_In, in_map_iff in Hin as (g & <- & Hg). apply filter_In in Hg as [Hg _].
  by apply list_elem_of_In, in_map.
Qed.

(** The files after writing to the open one. *)
Lemma files_append j evs bs :
  journal_ok j evs ->
  exists pre tail, Forall good_event tail /\ evs = concat (map (fun f => decodeFile f.2) pre) ++ tail /\
    cj_file j ∉ map fst pre /\
    listChangeFiles (append_file (cj_file j) bs (cj_dir j)) = pre ++ [(cj_file j, encode_log tail ++ bs)].
Proof.
  intros O. destruct (jk_files _ _ O) as (pre & tail & E & G & He). exists pre, tail.
  pose proof (listed_names _ (jk_names _ _ O)) as N. rewrite E, map_app in N.
  apply NoDup_app in N as (_ & Hd & _).
  assert (cj_file j ∉ map fst pre) as Hn by (intros Hin; apply (Hd _ Hin); by left).
  split; [done|]. split; [done|]. split; [done|]. by rewrite list_append, E, append_last.
Qed.

Lemma events_split dir pre f :
  listChangeFiles dir = pre ++ [f] ->
  concat (map (fun f => decodeFile f.2) (listChangeFiles dir)) =
    concat (map (fun f => decodeFile f.2) pre) ++ decodeFile f.2.
Proof. intros ->. rewrite map_app, concat_app. cbn. by rewrite app_nil_r. Qed.

Lemma journal_events_ok j evs : journal_ok j evs -> journal_events j = evs.
Proof.
  intros O. destruct (jk_files _ _ O) as (pre & tail & E & G & ->). unfold journal_events.
  rewrite (events_split _ pre _ E). cbn [snd]. f_equal.
  rewrite <- (app_nil_r (encode_log tail)). apply decodeFile_log; [done|by left].
Qed.

(** ** Appending *)

Lemma encode_log_snoc evs ev : encode_log (evs ++ [ev]) = encode_log evs ++ encodeEvent ev.
Proof. unfold encode_log. rewrite map_app, concat_app. cbn. by rewrite app_nil_r. Qed.

Lemma increasing_snoc evs ev seq :
  increasing evs -> Forall (fun e => ce_Seq e <= seq) evs -> seq < ce_Seq ev -> 0 <= seq -> increasing (evs ++ [ev]).
Proof.
  intros [S P] B Hs H0. split.
  - apply StronglySorted_app_2; [|done|repeat constructor].
    intros a b Ha Hb. apply list_elem_of_singleton in Hb as ->. rewrite Forall_forall in B.
    specialize (B a Ha). cbn in B. lia.
  - apply Forall_app. split; [done|]. apply Forall_singleton. lia.
Qed.

Lemma Append_ok now kind ext gen seg reason j evs :
  journal_ok j evs -> cj_seq j + 1 < 2 ^ 64 -> is_u8 kind -> is_u64 ext -> is_u64 gen -> is_u64 seg ->
  len reason < 2 ^ 16 -> bytes_wf reason -> is_i64 now ->
  cj_bytes j + (51 + len reason) <= cj_MaxBytes j ->
  exists j', Append Written now kind ext gen seg reason j = (j', Ok (cj_seq j + 1)) /\
    journal_ok j' (evs ++ [mkChangeEvent (cj_seq j + 1) kind ext gen seg reason now]).
Proof.
  intros O Hs Hk He Hg Hseg Hr Hrb Hn Hb. pose proof (jk_seq _ _ O) as Hq. unfold uintw in Hq.
  unfold Append. rewrite (wrap_small 64 (cj_seq j + 1)) by (unfold uintw; lia).
  set (ev := mkChangeEvent _ _ _ _ _ _ _).
  rewrite length_encodeEvent. unfold eventSize at 1. cbn [ev ce_Reason].
  destruct (Z.ltb_spec (cj_MaxBytes j) (cj_bytes j + (4 + 1 + 8 + 8 + 8 + 8 + 8 + 2 + len reason + 4))); [lia|].
  eexists. split; [reflexivity|].
  destruct (files_append j evs (encodeEvent ev) O) as (pre & tail & G & Ev & Hp & E).
  constructor; cbn [with_log cj_dir cj_file cj_seq].
  - rewrite names_append. apply O.
  - exists pre, (tail ++ [ev]). rewrite E, encode_log_snoc. split; [done|]. split.
    + apply Forall_app. split; [done|]. apply Forall_singleton. split; [|done].
      constructor; cbn [ev ce_Seq ce_Kind ce_ExtentID ce_Generation ce_SegmentID ce_Reason ce_AtUnix]; try done.
      unfold uintw. lia.
    + by rewrite app_assoc, Ev.
  - apply (increasing_snoc _ _ (cj_seq j)); [apply O|apply O|cbn; lia|lia].
  - apply Forall_app. split; [|apply Forall_singleton; cbn; lia].
    eapply Forall_impl; [exact (jk_below _ _ O)|]. cbn. intros; lia.
  - unfold uintw. lia.
Qed.

(** ** Reopening *)

Definition seq_max (m : Z) (evs : list ChangeEvent) : Z :=
  fold_left (fun m ev => if m <? ce_Seq ev then ce_Seq ev else m) evs m.

Lemma seq_max_bound m evs : m <= seq_max m evs /\ Forall (fun ev => ce_Seq ev <= seq_max m evs) evs.
Proof.
  revert m. induction evs as [|ev evs IH]; intros m; [split; [done|constructor]|].
  cbn [seq_max fold_left]. fold (seq_max (if m <? ce_Seq ev then ce_Seq ev else m) evs).
  destruct (IH (if m <? ce_Seq ev then ce_Seq ev else m)) as [H1 H2].
  destruct (Z.ltb_spec m (ce_Seq ev)); split; try lia; constructor; try done; lia.
Qed.

Lemma seq_max_least m evs b : m <= b -> Forall (fun ev => ce_Seq ev <= b) evs -> seq_max m evs <= b.
Proof.
  intros Hm F. revert m Hm. induction F as [|ev evs He F IH]; intros m Hm; [done|].
  cbn [seq_max fold_left]. apply IH. destruct (m <? ce_Seq ev); done.
Qed.

Lemma max_seq_events files : max_seq files = seq_max 0 (concat (map (fun f => decodeFile f.2) files)).
Proof.
  unfold max_seq. generalize 0. induction files as [|f files IH]; intros m; [done|].
  cbn [fold_left map concat]. rewrite IH. unfold seq_max. by rewrite fold_left_app.
Qed.

Lemma reopen_ok j evs t opts :
  journal_ok j evs -> torn_tail t ->
  exists j', OpenChangeJournal None opts (append_file (cj_file j) t (cj_dir j)) = Ok j' /\
    journal_events j' = evs /\ cj_seq j' = seq_max 0 evs /\ cj_file j' = cj_file j /\ cj_ack j' = 0.
Proof.
  intros O Ht. destruct (files_append j evs t O) as (pre & tail & G & Ev & Hp & E).
  unfold OpenChangeJournal. cbv zeta. rewrite E, last_snoc. eexists. split; [reflexivity|].
  assert (concat (map (fun f => decodeFile f.2) (pre ++ [(cj_file j, encode_log tail ++ t)])) = evs) as Hev.
  { rewrite map_app, concat_app. cbn [map concat snd]. by rewrite app_nil_r, decodeFile_log. }
  cbn [fst cj_seq cj_file cj_ack]. unfold journal_events. cbn [cj_dir]. rewrite E, max_seq_events, Hev. done.
Qed.

(** ** Heartbeats *)

Definition unacked (ack : Z) (evs : list ChangeEvent) : list ChangeEvent :=
  List.filter (fun ev => ack <? ce_Seq ev) evs.

Lemma pending_prefix ack mE mB out sent evs :
  exists p q, pending_loop ack mE mB out sent evs = out ++ p /\ unacked ack evs = p ++ q /\
    (out = [] -> sent = 0 -> 1 <= mE -> 1 <= mB -> unacked ack evs <> [] -> p <> []).
Proof.
  revert out sent. induction evs as [|ev evs IH]; intros out sent.
  { exists [], []. cbn. by rewrite app_nil_r. }
  cbn [pending_loop unacked List.filter]. fold (unacked ack evs).
  destruct (Z.leb_spec (ce_Seq ev) ack) as [Hs|Hs].
  { destruct (Z.ltb_spec ack (ce_Seq ev)); [lia|]. apply IH. }
  destruct (Z.ltb_spec ack (ce_Seq ev)); [|lia].
  destruct ((mE <=? len out) || (mB <=? sent)) eqn:Lim.
  - exists [], (ev :: unacked ack evs). rewrite app_nil_r. repeat (split; [done|]).
    intros -> -> ? ?. apply orb_true_iff in Lim as [Lim|Lim]; apply Z.leb_le in Lim; cbn in Lim; lia.
  - destruct (IH (out ++ [ev]) (sent + eventSize ev)) as (p & q & E & U & _).
    exists (ev :: p), q. rewrite E, <- app_assoc. cbn [app]. split; [done|]. split; [by rewrite U|done].
Qed.

Lemma filter_none {A} (f : A -> bool) l : Forall (fun x => f x = false) l -> List.filter f l = [].
Proof. induction 1 as [|x l Hx F IH]; [done|]. cbn. by rewrite Hx. Qed.

Lemma filter_id {A} (f : A -> bool) l : Forall (fun x => f x = true) l -> List.filter f l = l.
Proof. induction 1 as [|x l Hx F IH]; [done|]. cbn. by rewrite Hx, IH. Qed.

(** Raising the acknowledgement to the last shipped event leaves the rest. *)
Lemma unacked_rest ack evs p last q :
  increasing evs -> unacked ack evs = (p ++ [last]) ++ q ->
  ack < ce_Seq last /\ unacked (ce_Seq last) evs = q /\ seq_max 0 (p ++ [last]) = ce_Seq last.
Proof.
  intros [S P] U.
  assert (StronglySorted (fun a b => ce_Seq a < ce_Seq b) (unacked ack evs)) as SU.
  { unfold unacked. clear U P. induction S as [|x l S IH F]; cbn [List.filter]; [constructor|].
    destruct (ack <? ce_Seq x); [|done]. constructor; [done|]. apply Forall_forall. intros y Hy.
    apply list_elem_of_In, filter_In in Hy as [Hy _]. rewrite Forall_forall in F. by apply F, list_elem_of_In. }
  assert (Forall (fun ev => ack < ce_Seq ev) (unacked ack evs)) as A.
  { apply Forall_forall. intros y Hy. apply list_elem_of_In, filter_In in Hy as [_ Hy]. by apply Z.ltb_lt. }
  rewrite U in SU, A. apply Forall_app in A as [A _]. apply Forall_app in A as [Ap A].
  apply Forall_inv in A. split; [done|].
  assert (Forall (fun ev => ce_Seq ev < ce_Seq last) p /\ Forall (fun ev => ce_Seq last < ce_Seq ev) q) as [Fp Fq].
  { clear A Ap U. rewrite <- app_assoc in SU. cbn [app] in SU. induction p as [|x p IH]; cbn [app] in SU.
    - inversion SU as [|? ? _ F]; subst. split; [constructor|done].
    - inversion SU as [|? ? S' F]; subst. destruct (IH S') as [H1 H2]. split; [|done]. constructor; [|done].
      rewrite Forall_forall in F. apply F. apply elem_of_app. right. by left. }
  split.
  - assert (unacked (ce_Seq last) evs = unacked (ce_Seq last) (unacked ack evs)) as ->.
    { unfold unacked. clear -A. induction evs as [|x evs IH]; [done|]. cbn [List.filter].
      destruct (Z.ltb_spec ack (ce_Seq x)); cbn [List.filter]; rewrite IH; [done|].
      destruct (Z.ltb_spec (ce_Seq last) (ce_Seq x)); [lia|done]. }
    rewrite U. unfold unacked. rewrite !List.filter_app.
    rewrite (filter_none _ p), (filter_id _ q).
    + cbn [List.filter]. by rewrite Z.ltb_irrefl.
    + eapply Forall_impl; [exact Fq|]. intros x. apply Z.ltb_lt.
    + eapply Forall_impl; [exact Fp|]. cbn. intros x Hx. apply Z.ltb_ge. lia.
  - assert (0 < ce_Seq last) as H0.
    { assert (last ∈ unacked ack evs) as Hin by (rewrite U; apply elem_of_app; left; apply elem_of_app; right; by left).
      apply list_elem_of_In, filter_In in Hin as [Hin _]. rewrite Forall_forall in P. by apply P, list_elem_of_In. }
    apply Z.le_antisymm.
    + apply seq_max_least; [lia|]. apply Forall_app. split; [|by repeat constructor].
      eapply Forall_impl; [exact Fp|]. cbn. intros; lia.
    + destruct (seq_max_bound 0 (p ++ [last])) as [_ B]. apply Forall_app in B as [_ B].
      by apply Forall_inv in B.
Qed.

Lemma in_unacked ack evs ev : ev ∈ unacked ack evs <-> ev ∈ evs /\ ack < ce_Seq ev.
Proof. unfold unacked. by rewrite !list_elem_of_In, filter_In, Z.ltb_lt. Qed.

(** A higher acknowledgement leaves fewer events. *)
Lemma unacked_mono a b evs : a <= b -> (length (unacked b evs) <= length (unacked a evs))%nat.
Proof.
  intros H. induction evs as [|x evs IH]; [done|]. cbn [unacked List.filter]. fold (unacked a evs) (unacked b evs).
  destruct (Z.ltb_spec b (ce_Seq x)), (Z.ltb_spec a (ce_Seq x)); cbn [length]; lia.
Qed.

Lemma reconcile_loop_spec one m evs through r :
  reconcile_loop one m evs = (through, r) ->
  exists q, evs = through ++ q /\ (forall v, r = Ok v -> q = [] /\ v = seq_max m evs) /\
    ((forall ev, one ev = None) -> r = Ok (seq_max m evs)).
Proof.
  revert m through r. induction evs as [|ev evs IH]; intros m through r; cbn [reconcile_loop].
  { intros [= <- <-]. exists []. split; [done|]. split; [|done]. by intros v [= <-]. }
  destruct (one ev) eqn:E.
  { intros [= <- <-]. exists (ev :: evs). split; [done|]. split; [done|]. intros H. by rewrite H in E. }
  destruct (reconcile_loop _ _ evs) as [th r'] eqn:R. intros [= <- <-].
  destruct (IH _ _ _ R) as (q & -> & H1 & H2). exists q. done.
Qed.

(** What a batch of shipped events does to the watermark. *)
Lemma Reconcile_spec f out w through w' r :
  ReconcileChangeEvents f out w = (through, w', r) ->
  (exists q, out = through ++ q) /\
  (w' = w \/ (through = out /\ w' = seq_max 0 out /\ w < w')) /\
  (f = no_faults -> out <> [] -> r = Ok (seq_max 0 out) /\ w' = Z.max w (seq_max 0 out)).
Proof.
  unfold ReconcileChangeEvents. destruct out as [|x out0].
  { intros [= <- <- <-]. split; [by exists []|]. split; [by left|done]. }
  remember (x :: out0) as out eqn:Hx. clear x out0 Hx. destruct (reconcile_loop _ 0 out) as [th r0] eqn:R.
  destruct (reconcile_loop_spec _ _ _ _ _ R) as (q & Eo & Hok & Hcl).
  destruct r0 as [v|e].
  - destruct (Hok v eq_refl) as [-> ->]. rewrite app_nil_r in Eo. unfold advanceChangeAck.
    intros E. destruct (bf_load f) as [e|] eqn:El.
    { injection E as <- <- <-. split; [exists []; by rewrite app_nil_r|]. split; [by left|]. by intros ->. }
    destruct (Z.leb_spec (seq_max 0 out) w) as [Hle|Hlt].
    { injection E as <- <- <-. split; [exists []; by rewrite app_nil_r|]. split; [by left|]. split; [done|lia]. }
    destruct (bf_save f) as [e|] eqn:Es; injection E as <- <- <-.
    { split; [exists []; by rewrite app_nil_r|]. split; [by left|]. by intros ->. }
    split; [exists []; by rewrite app_nil_r|]. split; [by right|]. split; [done|lia].
  - intros [= <- <- <-]. split; [by exists q|]. split; [by left|]. intros -> _. by specialize (Hcl (fun _ => eq_refl)).
Qed.

(** The events of [Pending]. *)
Lemma Pending_spec j evs :
  journal_events j = evs -> increasing evs ->
  let out := (Pending (cj_MaxPerHeartbeat j) (cj_MaxHeartbeatBytes j) j).1 in
  exists q, unacked (cj_ack j) evs = out ++ q /\
    (1 <= cj_MaxPerHeartbeat j -> 1 <= cj_MaxHeartbeatBytes j -> unacked (cj_ack j) evs <> [] -> out <> []) /\
    (out <> [] -> cj_ack j < seq_max 0 out /\ 0 < seq_max 0 out /\ unacked (seq_max 0 out) evs = q).
Proof.
  intros Hev Hinc out. unfold out, Pending. cbn [fst]. rewrite Hev.
  destruct (pending_prefix (cj_ack j) (cj_MaxPerHeartbeat j) (cj_MaxHeartbeatBytes j) [] 0 evs) as (p & q & E & U & Hne).
  rewrite E. cbn [app]. exists q. split; [done|]. split; [intros; by apply Hne|]. intros Hp.
  destruct (exists_last Hp) as (p0 & last & ->).
  destruct (unacked_rest _ _ _ _ _ Hinc U) as (Hlt & Hrest & Hmax). rewrite Hmax.
  split; [done|]. split; [|done]. destruct Hinc as [_ P]. rewrite Forall_forall in P. apply P.
  assert (last ∈ unacked (cj_ack j) evs) as Hin by (rewrite U; apply elem_of_app; left; apply elem_of_app; right; by left).
  by apply in_unacked in Hin as [Hin _].
Qed.

Record beat_ok (f : beat_faults) (j : ChangeJournal) (w : Z) (evs through : list ChangeEvent)
    (j' : ChangeJournal) (w' : Z) : Prop := mkBeatOk {
  bo_events : journal_events j' = evs;
  bo_caps : cj_MaxPerHeartbeat j' = cj_MaxPerHeartbeat j /\ cj_MaxHeartbeatBytes j' = cj_MaxHeartbeatBytes j;
  bo_through : exists q, unacked (cj_ack j) evs = through ++ q;
  bo_mono : cj_ack j <= cj_ack j' <= Z.max (cj_ack j) w' /\ w <= w';
  bo_covered : forall ev, ev ∈ evs -> Z.max (cj_ack j) w < ce_Seq ev -> ce_Seq ev <= w' -> ev ∈ through;
  bo_progress : f = no_faults -> 1 <= cj_MaxPerHeartbeat j -> 1 <= cj_MaxHeartbeatBytes j ->
    (unacked (cj_ack j) evs <> [] -> (length (unacked (cj_ack j') evs) < length (unacked (cj_ack j) evs))%nat) /\
    (w <= cj_ack j -> w' <= cj_ack j' /\ unacked (cj_ack j) evs = through ++ unacked (cj_ack j') evs)
}.

Lemma heartbeat_ok f j w evs through j' w' :
  journal_events j = evs -> increasing evs -> heartbeat f (j, w) = (through, (j', w')) ->
  beat_ok f j w evs through j' w'.
Proof.
  intros Hev Hinc. destruct (Pending_spec j evs Hev Hinc) as (q & U & Hne & Hout). unfold heartbeat.
  set (out := (Pending _ _ j).1) in *.
  destruct (decide (out = [])) as [Eo|Eo].
  { rewrite Eo in *. intros [= <- <- <-]. constructor; try done; [by eexists|lia|intros; lia|].
    intros _ H1 H2. destruct (decide (unacked (cj_ack j) evs = [])) as [Eu|Eu]; [by rewrite Eu|].
    by destruct (Hne H1 H2 Eu). }
  destruct (Hout Eo) as (Hlt & H0 & Hq). intros E.
  destruct (bf_before f) as [e|] eqn:Eb.
  { assert ((([] : list ChangeEvent), (j, w)) = (through, (j', w'))) as [= <- <- <-]
      by (destruct out; done).
    constructor; try done; [by eexists|lia|intros; lia|]. by intros ->. }
  destruct (ReconcileChangeEvents f out w) as [[th w1] r] eqn:R.
  destruct (Reconcile_spec _ _ _ _ _ _ R) as ((q1 & Ho) & Hw & Hcl).
  assert (through = th /\ w' = w1 /\ ((j' = j /\ f <> no_faults) \/ (j' = if 0 <? w1 then Ack w1 j else j)))
    as (-> & -> & Hj).
  { clear Hq Hout Hne U. destruct out as [|x l]; [done|]. rewrite R in E.
    destruct r as [v|e]; [destruct (bf_reply f) eqn:Er; [|destruct (bf_ack f) eqn:Ea]|]; injection E as <- <- <-;
      (split; [done|]; split; [done|]); [left; split; [done|]; by intros ->|left; split; [done|]; by intros ->|by right|].
    left. split; [done|]. intros ->. by destruct (Hcl eq_refl ltac:(done)). }
  clear E.
  assert (w <= w1) as Hmono by lia.
  assert (forall ev, ev ∈ evs -> Z.max (cj_ack j) w < ce_Seq ev -> ce_Seq ev <= w1 -> ev ∈ th) as Hcov.
  { intros ev Hin H1 H2. destruct Hw as [->|(-> & -> & _)]; [lia|].
    assert (ev ∈ unacked (cj_ack j) evs) as Hu by (apply in_unacked; split; [done|lia]).
    rewrite U in Hu. apply elem_of_app in Hu as [Hu|Hu]; [done|]. rewrite <- Hq in Hu. apply in_unacked in Hu. lia. }
  assert (exists q', unacked (cj_ack j) evs = th ++ q') as Hth by (exists (q1 ++ q); by rewrite U, Ho, app_assoc).
  destruct Hj as [[-> Hf]| ->].
  { constructor; try done; lia. }
  assert (cj_ack (if 0 <? w1 then Ack w1 j else j) = if 0 <? w1 then Z.max (cj_ack j) w1 else cj_ack j) as Hack.
  { destruct (Z.ltb_spec 0 w1); [|done]. cbn. destruct (Z.ltb_spec (cj_ack j) w1); lia. }
  constructor; try done.
  - by destruct (0 <? w1).
  - by destruct (0 <? w1).
  - rewrite Hack. destruct (0 <? w1); lia.
  - intros Hf HE HB. destruct (Hcl Hf Eo) as [_ Hw1].
    assert (cj_ack (if 0 <? w1 then Ack w1 j else j) = w1) as Ha.
    { rewrite Hack. destruct (Z.ltb_spec 0 w1); lia. }
    rewrite Ha. split.
    + intros _. pose proof (unacked_mono (seq_max 0 out) w1 evs ltac:(lia)) as L. rewrite Hq in L.
      rewrite U, length_app. destruct out; [done|]. cbn [length]. lia.
    + intros Hwa. split; [lia|]. destruct Hw as [->|(-> & -> & _)]; [lia|]. by rewrite Hq.
Qed.

(** At least [n] of the heartbeats go through undisturbed. *)
Inductive no_faults_count : nat -> list beat_faults -> Prop :=
| nf_none fs : no_faults_count 0 fs
| nf_any n f fs : no_faults_count n fs -> no_faults_count n (f :: fs)
| nf_one n fs : no_faults_count n fs -> no_faults_count (S n) (no_faults :: fs).

(** The run of a whole list of heartbeats. *)
Lemma heartbeats_ok fs j w evs through j' w' :
  journal_events j = evs -> increasing evs -> heartbeats fs (j, w) = (through, (j', w')) ->
  cj_ack j <= cj_ack j' /\ w <= w' /\ cj_ack j' <= Z.max (cj_ack j) w' /\
  (forall ev, ev ∈ evs -> Z.max (cj_ack j) w < ce_Seq ev -> ce_Seq ev <= Z.max (cj_ack j') w' -> ev ∈ through) /\
  (forall ev, ev ∈ through -> ev ∈ unacked (cj_ack j) evs) /\
  (1 <= cj_MaxPerHeartbeat j -> 1 <= cj_MaxHeartbeatBytes j -> forall n,
    no_faults_count n fs -> (length (unacked (cj_ack j') evs) <= length (unacked (cj_ack j) evs) - n)%nat) /\
  (1 <= cj_MaxPerHeartbeat j -> 1 <= cj_MaxHeartbeatBytes j -> Forall (eq no_faults) fs -> w <= cj_ack j ->
    unacked (cj_ack j) evs = through ++ unacked (cj_ack j') evs).
Proof.
  intros Hev Hinc. revert j w through Hev. induction fs as [|f fs IH]; intros j w through Hev; cbn [heartbeats].
  { intros [= <- <- <-]. do 3 (split; [lia|]). split; [intros; lia|]. split; [by intros ev ?%elem_of_nil|].
    split; [|done]. intros _ _ n Hn. inversion Hn; subst; lia. }
  destruct (heartbeat f (j, w)) as [th [j1 w1]] eqn:E1. destruct (heartbeats fs (j1, w1)) as [more [j2 w2]] eqn:E2.
  intros [= <- <- <-]. destruct (heartbeat_ok _ _ _ _ _ _ _ Hev Hinc E1) as [Hev1 [C1 C2] [q Q] M Cov Prog].
  destruct (IH _ _ _ Hev1 E2) as (A1 & A2 & A3 & A4 & A5 & A6 & A7). rewrite C1, C2 in *.
  do 3 (split; [lia|]). split.
  { intros ev Hin H1 H2. apply elem_of_app. destruct (decide (ce_Seq ev <= w1)); [left; by apply Cov|].
    right. apply A4; [done|lia|lia]. }
  split.
  { intros ev [H|H]%elem_of_app; [rewrite Q; apply elem_of_app; by left|].
    apply A5, in_unacked in H as [Hin H]. apply in_unacked. split; [done|lia]. }
  split.
  - intros HE HB n Hn. clear Hev Hev1. pose proof (unacked_mono (cj_ack j) (cj_ack j1) evs ltac:(lia)) as L1.
    pose proof (unacked_mono (cj_ack j1) (cj_ack j2) evs ltac:(lia)) as L2.
    inversion Hn as [|n' ? ? Hn'|n' fs' Hn']; subst.
    + lia.
    + pose proof (A6 HE HB _ Hn'). lia.
    + pose proof (A6 HE HB _ Hn'). destruct (Prog eq_refl HE HB) as [P _].
      destruct (decide (unacked (cj_ack j) evs = [])) as [Eu|Eu]; [rewrite Eu in *; cbn in *; lia|].
      pose proof (P Eu). lia.
  - intros HE HB Hall Hw. clear Hev Hev1. inversion Hall as [|? ? <- Hall']; subst. destruct (Prog eq_refl HE HB) as [_ P].
    destruct (P Hw) as [Hw1 ->]. rewrite <- app_assoc. f_equal. by apply A7.
Qed.
