(* ===== verification/AdvisoryLocks.v ===== *)
(** * Advisory file locks

    Models [nufs-core/metadata/lock.go] and the four calls of
    [pebble_store.go] in front of it: an in-memory table of shared and
    exclusive holders per inode, split over 32 shards by a hash of the inode.
    A shard's mutex makes every call one step. *)

From stdpp Require Import base list sorting numbers strings gmap.
From Stdlib Require Import ZArith Lia.
From S2P Require Import Prelude Bytes Pebble MetaKeys.

Local Open Scope Z_scope.

(** ** Data *)

Inductive LockMode : Type := LockModeExclusive | LockModeShared.

#[export] Instance LockMode_eq_dec : EqDecision LockMode.
Proof. solve_decision. Defined.

Inductive lock_err : Type := LockServiceClosed | ErrLockBusy | ErrInvalidOwner.

#[export] Instance lock_err_eq_dec : EqDecision lock_err.
Proof. solve_decision. Defined.

Record LockInfo := mkLockInfo { li_Inode : Z; li_Owner : list Z; li_Mode : LockMode; li_Since : Z }.

(** The count is an int in Go; it counts calls and stays far below 2^63. *)
Record lockHolder := mkLockHolder {
  lh_owner : list Z; lh_mode : LockMode; lh_sinceNs : Z; lh_refcount : Z
}.

(** The holders of one inode, and the inodes of one shard. *)
Abbreviation lockState := (gmap (list Z) lockHolder).
Abbreviation lockShard := (gmap Z lockState).

Record advisoryLockManager := mkLockManager { lm_shards : list lockShard; lm_shardCount : Z }.

Definition defaultLockShardCount : Z := 32.

(** [newLockShards] *)
Definition newLockShards (n : Z) : list lockShard := replicate (Z.to_nat n) ∅.

(** [newAdvisoryLockManager] *)
Definition newAdvisoryLockManager : advisoryLockManager :=
  mkLockManager (newLockShards defaultLockShardCount) defaultLockShardCount.

(** [shardFor] *)
Definition shardFor (m : advisoryLockManager) (inode : Z) : Z :=
  let h := Z.lxor inode (Z.shiftr inode 33) in
  let h := u64 (h * 0xff51afd7ed558ccd) in
  let h := Z.lxor h (Z.shiftr h 33) in
  Z.land h (lm_shardCount m - 1).

(** [m.shard(inode)], reading and writing *)
Definition shard (m : advisoryLockManager) (inode : Z) : lockShard :=
  default ∅ (lm_shards m !! Z.to_nat (shardFor m inode)).

Definition set_shard (m : advisoryLockManager) (inode : Z) (sh : lockShard) : advisoryLockManager :=
  mkLockManager (<[Z.to_nat (shardFor m inode) := sh]> (lm_shards m)) (lm_shardCount m).

(** [validateOwner] *)
Definition validateOwner (owner : list Z) : bool := negb (bool_decide (owner = [])).

(** ** Operations *)

(** The cross-owner check of [acquire]. *)
Definition conflicts (owner : list Z) (mode : LockMode) (st : lockState) : bool :=
  existsb (fun oh => negb (bool_decide (oh.1 = owner))
                     && (bool_decide (lh_mode oh.2 = LockModeExclusive)
                         || bool_decide (mode = LockModeExclusive)))
    (map_to_list st).

(** [acquire] at time [now] *)
Definition acquire (now inode : Z) (owner : list Z) (mode : LockMode) (m : advisoryLockManager) :
    advisoryLockManager * result lock_err unit :=
  if negb (validateOwner owner) then (m, Err ErrInvalidOwner) else
  let sh := shard m inode in
  let st := default ∅ (sh !! inode) in
  let put st := set_shard m inode (<[inode := st]> sh) in
  match st !! owner with
  | Some h =>
      (put (<[owner := mkLockHolder (lh_owner h) (lh_mode h) (lh_sinceNs h) (lh_refcount h + 1)]> st), Ok tt)
  | None =>
      if conflicts owner mode st then (put st, Err ErrLockBusy)
      else (put (<[owner := mkLockHolder owner mode now 1]> st), Ok tt)
  end.

(** [release] *)
Definition release (inode : Z) (owner : list Z) (m : advisoryLockManager) :
    advisoryLockManager * result lock_err unit :=
  if negb (validateOwner owner) then (m, Err ErrInvalidOwner) else
  let sh := shard m inode in
  match sh !! inode with
  | None => (m, Ok tt)
  | Some st =>
      match st !! owner with
      | None => (m, Ok tt)
      | Some h =>
          let n := lh_refcount h - 1 in
          let st := if n <=? 0 then delete owner st
                    else <[owner := mkLockHolder (lh_owner h) (lh_mode h) (lh_sinceNs h) n]> st in
          (set_shard m inode (if bool_decide (st = ∅) then delete inode sh else <[inode := st]> sh), Ok tt)
      end
  end.

Definition info_le (a b : LockInfo) : Prop := bytes_le (li_Owner a) (li_Owner b).

#[export] Instance info_le_dec a b : Decision (info_le a b).
Proof. unfold info_le. apply _. Defined.

(** [list] *)
Definition list_locks (inode : Z) (m : advisoryLockManager) : list LockInfo :=
  merge_sort info_le
    (map (fun oh => mkLockInfo inode (lh_owner oh.2) (lh_mode oh.2) (lh_sinceNs oh.2))
       (map_to_list (default ∅ (shard m inode !! inode)))).

(** ** Service calls *)

(** [AdvisoryLock], [AdvisoryLockShared] and [AdvisoryUnlock] of a store that
    may have been closed *)
Inductive lock_call : Type :=
| AdvisoryLock (inode : Z) (owner : list Z)
| AdvisoryLockShared (inode : Z) (owner : list Z)
| AdvisoryUnlock (inode : Z) (owner : list Z).

Definition lock_service (closed : bool) (now : Z) (c : lock_call) (m : advisoryLockManager) :
    advisoryLockManager * result lock_err unit :=
  if closed then (m, Err LockServiceClosed) else
  match c with
  | AdvisoryLock inode owner => acquire now inode owner LockModeExclusive m
  | AdvisoryLockShared inode owner => acquire now inode owner LockModeShared m
  | AdvisoryUnlock inode owner => release inode owner m
  end.

(** ** The table as a map *)

(** Who holds an inode, and how. *)
Definition holder (m : advisoryLockManager) (inode : Z) (owner : list Z) : option lockHolder :=
  default ∅ (shard m inode !! inode) !! owner.

Record locks_ok (m : advisoryLockManager) : Prop := mkLocksOk {
  lo_count : lm_shardCount m = 32;
  lo_length : length (lm_shards m) = 32%nat;
  lo_alone i o o' h h' : holder m i o = Some h -> holder m i o' = Some h' ->
    lh_mode h = LockModeExclusive -> o' = o;
  lo_refs i o h : holder m i o = Some h -> 1 <= lh_refcount h /\ lh_owner h = o
}.

Lemma shardFor_bound m inode : lm_shardCount m = 32 -> 0 <= shardFor m inode < 32.
Proof.
  intros E. unfold shardFor. rewrite E. change (32 - 1) with (Z.ones 5). rewrite Z.land_ones by lia.
  apply Z.mod_pos_bound. lia.
Qed.

Lemma shard_set m i j sh :
  locks_ok m -> shard (set_shard m i sh) j = if bool_decide (shardFor m i = shardFor m j) then sh else shard m j.
Proof.
  intros O. pose proof (shardFor_bound m i (lo_count _ O)). pose proof (shardFor_bound m j (lo_count _ O)).
  unfold shard, set_shard.
  set (l := <[_ := sh]> (lm_shards m)).
  assert (shardFor (mkLockManager l (lm_shardCount m)) j = shardFor m j) as -> by done.
  cbn [lm_shards]. subst l.
  case_bool_decide as E.
  - rewrite E, list_lookup_insert_eq; [done|]. rewrite (lo_length _ O). lia.
  - rewrite list_lookup_insert_ne by lia. done.
Qed.

(** Replacing the state of one inode changes the holders of that inode only. *)
Lemma holder_put m i st j o :
  locks_ok m -> holder (set_shard m i (<[i := st]> (shard m i))) j o =
    if bool_decide (i = j) then st !! o else holder m j o.
Proof.
  intros O. unfold holder. rewrite shard_set by done. case_bool_decide as E.
  - case_bool_decide as Ej; [by rewrite <- Ej, lookup_insert_eq|]. rewrite lookup_insert_ne by done.
    unfold shard. by rewrite E.
  - rewrite bool_decide_eq_false_2; [done|]. congruence.
Qed.

Lemma holder_drop m i j o :
  locks_ok m -> holder (set_shard m i (delete i (shard m i))) j o =
    if bool_decide (i = j) then None else holder m j o.
Proof.
  intros O. unfold holder. rewrite shard_set by done. case_bool_decide as E.
  - case_bool_decide as Ej; [rewrite <- Ej, lookup_delete_eq; cbn; apply lookup_empty|].
    rewrite lookup_delete_ne by done. unfold shard. by rewrite E.
  - rewrite bool_decide_eq_false_2; [done|]. congruence.
Qed.

Lemma set_shard_dims m i sh :
  lm_shardCount (set_shard m i sh) = lm_shardCount m /\
  length (lm_shards (set_shard m i sh)) = length (lm_shards m).
Proof. split; [done|]. apply length_insert. Qed.

Lemma conflicts_spec owner mode st :
  conflicts owner mode st = true <->
  exists o h, o <> owner /\ st !! o = Some h /\ (lh_mode h = LockModeExclusive \/ mode = LockModeExclusive).
Proof.
  unfold conflicts. rewrite existsb_exists. split.
  - intros ([o h] & Hin & H). apply list_elem_of_In, elem_of_map_to_list in Hin. cbn [fst snd] in H.
    apply andb_true_iff in H as [H1 H2]. apply negb_true_iff, bool_decide_eq_false in H1.
    apply orb_true_iff in H2. rewrite !bool_decide_eq_true in H2. eauto.
  - intros (o & h & Ho & Hl & Hm). exists (o, h). split; [by apply list_elem_of_In, elem_of_map_to_list|].
    cbn [fst snd]. apply andb_true_iff. split; [by apply negb_true_iff, bool_decide_eq_false|].
    apply orb_true_iff. by rewrite !bool_decide_eq_true.
Qed.

(** ** What the calls do *)

(** The holder after a granted acquisition. *)
Definition acquired (now : Z) (owner : list Z) (mode : LockMode) (h : option lockHolder) : lockHolder :=
  match h with
  | Some h => mkLockHolder (lh_owner h) (lh_mode h) (lh_sinceNs h) (lh_refcount h + 1)
  | None => mkLockHolder owner mode now 1
  end.

Definition released (h : option lockHolder) : option lockHolder :=
  match h with
  | Some h => if lh_refcount h - 1 <=? 0 then None
              else Some (mkLockHolder (lh_owner h) (lh_mode h) (lh_sinceNs h) (lh_refcount h - 1))
  | None => None
  end.

(** Another owner stands in the way. *)
Definition blocked (m : advisoryLockManager) (inode : Z) (owner : list Z) (mode : LockMode) : Prop :=
  exists o h, o <> owner /\ holder m inode o = Some h /\ (lh_mode h = LockModeExclusive \/ mode = LockModeExclusive).

Definition only (m m' : advisoryLockManager) (inode : Z) (owner : list Z) (h : option lockHolder) : Prop :=
  forall i o, holder m' i o = if bool_decide (i = inode /\ o = owner) then h else holder m i o.

Lemma acquire_spec now inode owner mode m m' r :
  locks_ok m -> acquire now inode owner mode m = (m', r) ->
  match r with
  | Ok _ => owner <> [] /\ only m m' inode owner (Some (acquired now owner mode (holder m inode owner))) /\
            (holder m inode owner = None -> ~ blocked m inode owner mode)
  | Err ErrInvalidOwner => owner = [] /\ m' = m
  | Err ErrLockBusy => holder m inode owner = None /\ blocked m inode owner mode /\
                       forall i o, holder m' i o = holder m i o
  | Err LockServiceClosed => False
  end /\ lm_shardCount m' = lm_shardCount m /\ length (lm_shards m') = length (lm_shards m).
Proof.
  intros O. unfold acquire, validateOwner. rewrite negb_involutive.
  case_bool_decide as Ho; [by intros [= <- <-]|].
  set (st := default ∅ (shard m inode !! inode)). cbv zeta.
  assert (forall st' i o, holder (set_shard m inode (<[inode := st']> (shard m inode))) i o =
      if bool_decide (inode = i) then st' !! o else holder m i o) as Hput.
  { intros st' i o. by apply holder_put. }
  assert (forall h', only m (set_shard m inode (<[inode := <[owner := h']> st]> (shard m inode))) inode owner (Some h')) as Honly.
  { intros h' i o. rewrite Hput. case_bool_decide as E.
    - subst i. rewrite lookup_insert. repeat case_decide; repeat case_bool_decide; naive_solver.
    - rewrite bool_decide_eq_false_2 by naive_solver. done. }
  destruct (st !! owner) as [h|] eqn:Eh.
  - intros [= <- <-]. split; [|apply set_shard_dims]. split; [done|].
    assert (holder m inode owner = Some h) as -> by exact Eh. split; [apply Honly|done].
  - destruct (conflicts owner mode st) eqn:Ec; intros [= <- <-]; (split; [|apply set_shard_dims]).
    + split; [exact Eh|]. split; [by apply conflicts_spec in Ec|].
      intros i o. rewrite Hput. case_bool_decide as E; [by subst i|done].
    + split; [done|]. assert (holder m inode owner = None) as -> by exact Eh. split; [apply Honly|]. intros _ B.
      pose proof (proj2 (conflicts_spec owner mode st) B). congruence.
Qed.

Lemma release_spec inode owner m m' r :
  locks_ok m -> release inode owner m = (m', r) ->
  match r with
  | Ok _ => owner <> [] /\ only m m' inode owner (released (holder m inode owner))
  | Err e => owner = [] /\ m' = m /\ e = ErrInvalidOwner
  end /\ lm_shardCount m' = lm_shardCount m /\ length (lm_shards m') = length (lm_shards m).
Proof.
  intros O. unfold release, validateOwner. rewrite negb_involutive.
  case_bool_decide as Ho; [by intros [= <- <-]|].
  assert (holder m inode owner = None -> only m m inode owner (released (holder m inode owner))) as Hsame.
  { intros E i o. rewrite E. case_bool_decide as C; [|done]. by destruct C as [-> ->]. }
  destruct (shard m inode !! inode) as [st|] eqn:Est.
  2:{ intros [= <- <-]. split; [|done]. split; [done|]. apply Hsame. unfold holder. rewrite Est. apply lookup_empty. }
  destruct (st !! owner) as [h|] eqn:Eh.
  2:{ intros [= <- <-]. split; [|done]. split; [done|]. apply Hsame. unfold holder. by rewrite Est. }
  assert (holder m inode owner = Some h) as -> by (unfold holder; by rewrite Est).
  cbn [released]. set (n := lh_refcount h - 1). cbv zeta.
  set (st' := if n <=? 0 then delete owner st else _).
  assert (forall o, st' !! o = if bool_decide (o = owner) then
    (if n <=? 0 then None else Some (mkLockHolder (lh_owner h) (lh_mode h) (lh_sinceNs h) n)) else st !! o) as Hst.
  { intros o. unfold st'. destruct (n <=? 0); case_bool_decide as E; subst;
      by rewrite ?lookup_delete_eq, ?lookup_insert_eq, ?lookup_delete_ne, ?lookup_insert_ne. }
  intros [= <- <-]. split; [|apply set_shard_dims]. split; [done|]. intros i o.
  assert (holder (set_shard m inode (if bool_decide (st' = ∅) then delete inode (shard m inode)
    else <[inode := st']> (shard m inode))) i o = if bool_decide (inode = i) then st' !! o else holder m i o) as ->.
  { case_bool_decide as E; [rewrite E, lookup_empty; by apply holder_drop|by apply holder_put]. }
  case_bool_decide as E.
  - subst i. rewrite Hst. unfold holder. rewrite Est. cbn [default].
    repeat case_bool_decide; naive_solver.
  - rewrite bool_decide_eq_false_2 by naive_solver. done.
Qed.

(** ** Histories *)

Lemma holder_new i o : holder newAdvisoryLockManager i o = None.
Proof.
  unfold holder, shard, newAdvisoryLockManager, newLockShards. cbn [lm_shards].
  destruct (_ !! Z.to_nat _) as [sh|] eqn:E; cbn; [|by rewrite lookup_empty].
  apply lookup_replicate in E as [-> _]. cbn. by rewrite lookup_empty.
Qed.

Lemma locks_ok_new : locks_ok newAdvisoryLockManager.
Proof. constructor; try done; intros *; rewrite holder_new; done. Qed.

Lemma locks_ok_grant now inode owner mode m m' :
  locks_ok m -> lm_shardCount m' = lm_shardCount m -> length (lm_shards m') = length (lm_shards m) ->
  only m m' inode owner (Some (acquired now owner mode (holder m inode owner))) ->
  (holder m inode owner = None -> ~ blocked m inode owner mode) -> locks_ok m'.
Proof.
  intros O H1 H2 Hon Hb.
  assert (forall o h, o <> owner -> holder m inode o = Some h ->
    lh_mode h = LockModeShared /\ lh_mode (acquired now owner mode (holder m inode owner)) = LockModeShared) as Hsh.
  { intros o h Hne Hh. destruct (holder m inode owner) as [h0|] eqn:E0; cbn [acquired lh_mode].
    - split.
      + destruct (lh_mode h) eqn:Em; [|done]. destruct Hne. symmetry. by apply (lo_alone m O inode o owner h h0).
      + destruct (lh_mode h0) eqn:Em; [|done]. destruct Hne. by apply (lo_alone m O inode owner o h0 h).
    - split; [destruct (lh_mode h) eqn:Em|destruct mode eqn:Em]; try done;
        destruct Hb; try done; exists o, h; auto. }
  constructor; [by rewrite H1, (lo_count _ O)|by rewrite H2, (lo_length _ O)|..].
  - intros i o o' h h'. rewrite !Hon. repeat case_bool_decide.
    + destruct H as [-> ->], H0 as [_ ->]. done.
    + destruct H as [-> ->]. intros [= <-] Hh' Hm. assert (o' <> owner) as Hne by naive_solver.
      destruct (Hsh o' h' Hne Hh') as [_ Hs]. congruence.
    + destruct H0 as [-> ->]. intros Hh [= <-] Hm. assert (o <> owner) as Hne by naive_solver.
      destruct (Hsh o h Hne Hh) as [Hs _]. congruence.
    + apply (lo_alone m O).
  - intros i o h. rewrite Hon. case_bool_decide as E; [|apply (lo_refs m O)].
    destruct E as [-> ->]. intros [= <-]. destruct (holder m inode owner) as [h0|] eqn:E0; cbn; [|done].
    destruct (lo_refs m O inode owner h0 E0). split; [lia|done].
Qed.

Lemma locks_ok_release inode owner m m' :
  locks_ok m -> lm_shardCount m' = lm_shardCount m -> length (lm_shards m') = length (lm_shards m) ->
  only m m' inode owner (released (holder m inode owner)) -> locks_ok m'.
Proof.
  intros O H1 H2 Hon.
  assert (forall i o h, holder m' i o = Some h -> exists h0, holder m i o = Some h0 /\ lh_mode h = lh_mode h0 /\
    1 <= lh_refcount h /\ lh_owner h = o) as Hback.
  { intros i o h. rewrite Hon. case_bool_decide as E.
    - destruct E as [-> ->]. destruct (holder m inode owner) as [h0|] eqn:E0; cbn [released]; [|done].
      destruct (lo_refs m O inode owner h0 E0) as [_ Ho].
      destruct (Z.leb_spec (lh_refcount h0 - 1) 0); [done|]. intros [= <-]. exists h0. cbn.
      repeat (split; [done|]). split; [lia|done].
    - intros Hh. destruct (lo_refs m O i o h Hh). by exists h. }
  constructor; [by rewrite H1, (lo_count _ O)|by rewrite H2, (lo_length _ O)|..].
  - intros i o o' h h' Hh Hh' Hm. destruct (Hback _ _ _ Hh) as (h0 & Hh0 & Em & _).
    destruct (Hback _ _ _ Hh') as (h1 & Hh1 & _). apply (lo_alone m O i o o' h0 h1); congruence.
  - intros i o h Hh. destruct (Hback _ _ _ Hh) as (_ & _ & _ & ?). done.
Qed.

Lemma locks_ok_same m m' :
  locks_ok m -> lm_shardCount m' = lm_shardCount m -> length (lm_shards m') = length (lm_shards m) ->
  (forall i o, holder m' i o = holder m i o) -> locks_ok m'.
Proof.
  intros O H1 H2 E. constructor; [by rewrite H1, (lo_count _ O)|by rewrite H2, (lo_length _ O)|..].
  - intros i o o' h h'. rewrite !E. apply (lo_alone m O).
  - intros i o h. rewrite E. apply (lo_refs m O).
Qed.

Lemma acquire_ok now inode owner mode m m' r :
  locks_ok m -> acquire now inode owner mode m = (m', r) -> locks_ok m'.
Proof.
  intros O E. destruct (acquire_spec now inode owner mode m m' r O E) as (S & H1 & H2).
  destruct r as [u|[| |]]; [|done|by destruct S as (_ & _ & S); eapply locks_ok_same|by destruct S as [_ ->]].
  destruct S as (_ & Hon & Hb). by eapply locks_ok_grant.
Qed.

Lemma release_ok inode owner m m' r : locks_ok m -> release inode owner m = (m', r) -> locks_ok m'.
Proof.
  intros O E. destruct (release_spec inode owner m m' r O E) as (S & H1 & H2).
  destruct r as [u|e]; [|by destruct S as (_ & -> & _)]. destruct S as [_ Hon]. by eapply locks_ok_release.
Qed.

(** Acquisitions granted less releases, never below zero. *)
Definition hold_count (inode : Z) (owner : list Z) (n : Z) (c : lock_call) (r : result lock_err unit) : Z :=
  match c, r with
  | AdvisoryLock i o, Ok _ | AdvisoryLockShared i o, Ok _ =>
      if bool_decide (i = inode /\ o = owner) then n + 1 else n
  | AdvisoryUnlock i o, Ok _ => if bool_decide (i = inode /\ o = owner) then Z.max 0 (n - 1) else n
  | _, _ => n
  end.

Definition refcount (m : advisoryLockManager) (inode : Z) (owner : list Z) : Z :=
  match holder m inode owner with Some h => lh_refcount h | None => 0 end.

Lemma service_counts closed now c m m' r i o :
  locks_ok m -> lock_service closed now c m = (m', r) ->
  locks_ok m' /\ refcount m' i o = hold_count i o (refcount m i o) c r.
Proof.
  intros O. unfold lock_service. destruct closed; [intros [= <- <-]; split; [done|]; by destruct c|].
  assert (forall inode owner mode, acquire now inode owner mode m = (m', r) ->
    locks_ok m' /\ refcount m' i o =
      match r with Ok _ => if bool_decide (inode = i /\ owner = o) then refcount m i o + 1 else refcount m i o
                 | Err _ => refcount m i o end) as Hacq.
  { intros inode owner mode E. split; [by eapply acquire_ok|].
    destruct (acquire_spec now inode owner mode m m' r O E) as (S & _). unfold refcount.
    destruct r as [u|[| |]]; [|done|by destruct S as (_ & _ & ->)|by destruct S as [_ ->]].
    destruct S as (_ & Hon & _). rewrite Hon. case_bool_decide as C.
    - destruct C as [-> ->]. rewrite bool_decide_eq_true_2 by done. by destruct (holder m inode owner).
    - by rewrite bool_decide_eq_false_2 by naive_solver. }
  destruct c as [inode owner|inode owner|inode owner]; intros E.
  - destruct (Hacq _ _ _ E) as [H1 H2]. split; [done|]. rewrite H2. by destruct r.
  - destruct (Hacq _ _ _ E) as [H1 H2]. split; [done|]. rewrite H2. by destruct r.
  - split; [by eapply release_ok|]. destruct (release_spec inode owner m m' r O E) as (S & _). unfold refcount.
    destruct r as [u|e]; cbn [hold_count]; [|by destruct S as (_ & -> & _)]. destruct S as [_ Hon].
    rewrite Hon. case_bool_decide as C.
    + destruct C as [-> ->]. rewrite bool_decide_eq_true_2 by done.
      destruct (holder m inode owner) as [h|] eqn:Eh; cbn [released]; [|done].
      destruct (lo_refs m O inode owner h Eh). destruct (Z.leb_spec (lh_refcount h - 1) 0); cbn; lia.
    + by rewrite bool_decide_eq_false_2 by naive_solver.
Qed.
