(* ===== verification/Resilience.v ===== *)
(** * Circuit breaker, retry and keyed mutex

    Models [nufs-core/internal/resilience]: [breaker/breaker.go],
    [retry/retry.go] and [lock/lock.go]. Calls overlap: a breaker call is an
    admission and, later, a result; a thread that waits for a keyed lock is
    handed it over a channel. *)

From stdpp Require Import base list numbers strings gmap relations.
From Stdlib Require Import ZArith Lia.
From S2P Require Import Prelude.

Local Open Scope Z_scope.

(** ** Circuit breaker *)

Inductive breaker_state : Type := StateClosed | StateOpen | StateHalfOpen.

#[export] Instance breaker_state_eq_dec : EqDecision breaker_state.
Proof. solve_decision. Defined.

Record Breaker := mkBreaker {
  br_threshold : Z; br_timeout : Z; br_state : breaker_state; br_failures : Z; br_lastFailTime : Z
}.

(** [New] *)
Definition breaker_New (threshold timeout : Z) : Breaker :=
  mkBreaker (if threshold <=? 0 then 5 else threshold)
    (if timeout <=? 0 then 30 * 1000000000 else timeout) StateClosed 0 0.

(** [transitionLocked], without the callback *)
Definition transitionLocked (to : breaker_state) (b : Breaker) : Breaker :=
  mkBreaker (br_threshold b) (br_timeout b) to (br_failures b) (br_lastFailTime b).

(** The part of [Execute] before [fn]: [None] is [ErrOpen]. *)
Definition breaker_admit (now : Z) (b : Breaker) : option Breaker :=
  match br_state b with
  | StateOpen =>
      if now - br_lastFailTime b <? br_timeout b then None
      else Some (transitionLocked StateHalfOpen b)
  | _ => Some b
  end.

(** [onSuccess] *)
Definition onSuccess (b : Breaker) : Breaker :=
  transitionLocked StateClosed (mkBreaker (br_threshold b) (br_timeout b) (br_state b) 0 (br_lastFailTime b)).

(** [onFailure] *)
Definition onFailure (now : Z) (b : Breaker) : Breaker :=
  let n := br_failures b + 1 in
  let b := mkBreaker (br_threshold b) (br_timeout b) (br_state b) n now in
  if br_threshold b <=? n then transitionLocked StateOpen b else b.

(** [Execute] with nothing else in flight: [ok] is the outcome of [fn] and
    [later] the time it ends; the result says whether [fn] ran. *)
Definition breaker_Execute (now later : Z) (ok : bool) (b : Breaker) : Breaker * bool :=
  match breaker_admit now b with
  | None => (b, false)
  | Some b => (if ok then onSuccess b else onFailure later b, true)
  end.

(** Overlapping calls: how many have been admitted and not finished. *)
Inductive breaker_step : Breaker * nat -> Breaker * nat -> Prop :=
| breaker_enter now b b' n : breaker_admit now b = Some b' -> breaker_step (b, n) (b', S n)
| breaker_refuse now b n : breaker_admit now b = None -> breaker_step (b, n) (b, n)
| breaker_succeed b n : breaker_step (b, S n) (onSuccess b, n)
| breaker_fail now b n : breaker_step (b, S n) (onFailure now b, n).

(** ** Retry *)

(** What [errors.As] finds in an error: [net.Error], [*net.OpError], a status. *)
Record call_err := mkCallErr { re_net : bool; re_op : bool; re_status : option Z }.

(** [IsRetryable] of a non-nil error *)
Definition IsRetryable (e : call_err) : bool :=
  if re_net e then true else
  if re_op e then true else
  match re_status e with
  | Some s => (s =? 429) || (s =? 500) || (s =? 502) || (s =? 503) || (s =? 504)
  | None => false
  end.

Record RetryConfig := mkRetryConfig {
  rc_MaxAttempts : Z; rc_BaseDelay : Z; rc_MaxDelay : Z; rc_IsRetryable : option (call_err -> bool)
}.

Definition DefaultMaxRetries : Z := 3.
Definition DefaultBaseDelay : Z := 500 * 1000000.
Definition DefaultMaxDelay : Z := 5 * 1000000000.

(** [withDefaults] *)
Definition withDefaults (c : RetryConfig) : RetryConfig :=
  mkRetryConfig
    (if rc_MaxAttempts c <=? 0 then DefaultMaxRetries + 1 else rc_MaxAttempts c)
    (if rc_BaseDelay c <=? 0 then DefaultBaseDelay else rc_BaseDelay c)
    (if rc_MaxDelay c <=? 0 then DefaultMaxDelay else rc_MaxDelay c)
    (Some (default IsRetryable (rc_IsRetryable c))).

(** The backoff after a failed attempt, before jitter: int64 arithmetic. *)
Definition backoff (c : RetryConfig) (attempt : Z) : Z :=
  let shift := if attempt - 1 <? 64 then i64 (2 ^ (attempt - 1)) else 0 in
  let delay := i64 (rc_BaseDelay c * shift) in
  if rc_MaxDelay c <? delay then rc_MaxDelay c else delay.

(** What [Do] does: the error and the attempts it returns with the sleeps in
    between, or the panic of [Int63n] on a range that is not positive. *)
Inductive retry_outcome : Type :=
| Returned (e : option call_err) (attempts : Z) (sleeps : list Z)
| Panicked (attempt : Z).

(** The loop of [Do]: [fn n] is the outcome of the [n]-th call, [rnd n] the
    [n]-th random number, reduced into its range. *)
Fixpoint do_loop (c : RetryConfig) (retryable : call_err -> bool) (fn : Z -> option call_err) (rnd : Z -> Z)
    (fuel : nat) (attempt : Z) (sleeps : list Z) : retry_outcome :=
  match fn attempt with
  | None => Returned None attempt sleeps
  | Some e =>
      if negb (retryable e) then Returned (Some e) attempt sleeps else
      match fuel with
      | O => Returned (Some e) (rc_MaxAttempts c) sleeps
      | S fuel =>
          let delay := backoff c attempt in
          let range := Z.quot delay 2 in
          if range <=? 0 then Panicked attempt else
          let jitter := rnd attempt mod range - Z.quot delay 4 in
          do_loop c retryable fn rnd fuel (attempt + 1) (sleeps ++ [delay + jitter])
      end
  end.

(** [Do]; [MaxAttempts - 1] retries are left after the first call. *)
Definition retry_Do (cfg : RetryConfig) (fn : Z -> option call_err) (rnd : Z -> Z) : retry_outcome :=
  let c := withDefaults cfg in
  do_loop c (default IsRetryable (rc_IsRetryable c)) fn rnd (Z.to_nat (rc_MaxAttempts c - 1)) 1 [].

(** ** Keyed mutex *)

Abbreviation key := (list Z).
Abbreviation thread := nat.

(** An entry of the table; [held] stays true as long as the entry exists. *)
Record lock_entry := mkLockEntry { le_held : bool; le_waiters : list thread }.

(** Where a thread stands with the key it asked for: queued, handed the lock
    (its channel is closed) but not yet running, or holding it. *)
Inductive thread_state : Type :=
| Queued (k : key)
| Handed (k : key)
| Holding (k : key).

#[export] Instance thread_state_eq_dec : EqDecision thread_state.
Proof. solve_decision. Defined.

Record mutex := mkMutex { mx_keys : gmap key lock_entry; mx_threads : gmap thread thread_state }.

Definition set_thread (t : thread) (s : option thread_state) (m : mutex) : mutex :=
  mkMutex (mx_keys m) (match s with Some s => <[t := s]> (mx_threads m) | None => delete t (mx_threads m) end).

(** [Lock] (and [LockContext] up to its [select]) by an idle thread *)
Definition keyed_Lock (t : thread) (k : key) (m : mutex) : mutex :=
  match mx_keys m !! k with
  | None => set_thread t (Some (Holding k)) (mkMutex (<[k := mkLockEntry true []]> (mx_keys m)) (mx_threads m))
  | Some e =>
      if le_held e then
        set_thread t (Some (Queued k))
          (mkMutex (<[k := mkLockEntry true (le_waiters e ++ [t])]> (mx_keys m)) (mx_threads m))
      else set_thread t (Some (Holding k))
             (mkMutex (<[k := mkLockEntry true (le_waiters e)]> (mx_keys m)) (mx_threads m))
  end.

(** [Unlock] *)
Definition keyed_Unlock (k : key) (m : mutex) : mutex :=
  match mx_keys m !! k with
  | None => m
  | Some e =>
      match le_waiters e with
      | next :: rest =>
          mkMutex (<[k := mkLockEntry (le_held e) rest]> (mx_keys m)) (<[next := Handed k]> (mx_threads m))
      | [] => mkMutex (delete k (mx_keys m)) (mx_threads m)
      end
  end.

(** The timeout and cancellation branches of [LockContext]: the waiter takes
    itself out of the queue it finds itself in, and returns an error. *)
Definition keyed_abandon (t : thread) (k : key) (m : mutex) : mutex :=
  set_thread t None
    match mx_keys m !! k with
    | Some e => mkMutex (<[k := mkLockEntry (le_held e) (List.filter (fun w => negb (w =? t)%nat) (le_waiters e))]>
                           (mx_keys m)) (mx_threads m)
    | None => m
    end.

(** Steps of threads that unlock only what they hold. [mx_timeout] fires in
    the queue; [mx_late_timeout] when the lock was handed over but the
    [select] of [LockContext] takes the timeout that is ready as well. *)
Inductive mutex_step : mutex -> mutex -> Prop :=
| mx_lock t k m : mx_threads m !! t = None -> mutex_step m (keyed_Lock t k m)
| mx_wake t k m : mx_threads m !! t = Some (Handed k) -> mutex_step m (set_thread t (Some (Holding k)) m)
| mx_unlock t k m : mx_threads m !! t = Some (Holding k) ->
    mutex_step m (keyed_Unlock k (set_thread t None m))
| mx_timeout t k m : mx_threads m !! t = Some (Queued k) -> mutex_step m (keyed_abandon t k m).

Inductive mutex_late : mutex -> mutex -> Prop :=
| mx_late_timeout t k m : mx_threads m !! t = Some (Handed k) -> mutex_late m (keyed_abandon t k m).

(** * Properties of the resilience primitives

    The breaker is closed exactly while it counts fewer failures than its
    threshold; a retry loop with sane delays returns, within its attempts and
    with sleeps near the capped exponential; the keyed mutex has one owner per
    key as long as no timeout races a hand-off. *)

(** ** Breaker *)

Record breaker_ok (b : Breaker) : Prop := mkBreakerOk {
  bk_threshold : 0 < br_threshold b;
  bk_failures : 0 <= br_failures b;
  bk_closed : br_state b = StateClosed <-> br_failures b < br_threshold b
}.

Lemma breaker_New_ok th to : breaker_ok (breaker_New th to).
Proof. unfold breaker_New. constructor; cbn; destruct (Z.leb_spec th 0); try lia; split; done || lia. Qed.

Lemma onSuccess_ok b : breaker_ok b -> breaker_ok (onSuccess b).
Proof. intros [? ? ?]. constructor; cbn; try done. Qed.

Lemma onFailure_ok now b : breaker_ok b -> breaker_ok (onFailure now b).
Proof.
  intros [Ht Hf Hc]. unfold onFailure. cbn [br_threshold].
  destruct (Z.leb_spec (br_threshold b) (br_failures b + 1)) as [Hl|Hl]; constructor;
    cbn [transitionLocked br_threshold br_failures br_state]; try lia.
  - split; [done|lia].
  - split; [lia|]. intros _. apply Hc. lia.
Qed.

Lemma breaker_admit_ok now b b' : breaker_ok b -> breaker_admit now b = Some b' -> breaker_ok b'.
Proof.
  intros O. unfold breaker_admit. destruct (br_state b) eqn:E; try (by intros [= <-]).
  destruct (now - br_lastFailTime b <? br_timeout b); [done|]. intros [= <-]. destruct O as [Ht Hf Hc].
  constructor; cbn; try done. split; [done|]. intros Hl. apply Hc in Hl. congruence.
Qed.

Lemma breaker_step_ok x y : breaker_step x y -> breaker_ok x.1 -> breaker_ok y.1.
Proof.
  destruct 1; cbn [fst]; intros O; [by eapply breaker_admit_ok|done|by apply onSuccess_ok|by apply onFailure_ok].
Qed.

Lemma breaker_steps_ok x y : rtc breaker_step x y -> breaker_ok x.1 -> breaker_ok y.1.
Proof. induction 1 as [|x y z S _ IH]; [done|]. intros O. apply IH. by eapply breaker_step_ok. Qed.

(** ** Retry *)

(** The delays a policy computes are positive and do not overflow. *)
Record retry_sane (c : RetryConfig) : Prop := mkRetrySane {
  rs_base : 4 <= rc_BaseDelay c;
  rs_max : 4 <= rc_MaxDelay c;
  rs_fit : rc_BaseDelay c * 2 ^ (rc_MaxAttempts c - 2) < 2 ^ 63
}.

Lemma backoff_exact c attempt :
  retry_sane c -> 1 <= attempt -> attempt < rc_MaxAttempts c ->
  backoff c attempt = Z.min (rc_BaseDelay c * 2 ^ (attempt - 1)) (rc_MaxDelay c).
Proof.
  intros [Hb Hm Hf] H1 H2.
  assert (0 < 2 ^ (attempt - 1) <= 2 ^ (rc_MaxAttempts c - 2)) as Hp
    by (split; [apply Z.pow_pos_nonneg|apply Z.pow_le_mono_r]; lia).
  assert (rc_BaseDelay c * 2 ^ (attempt - 1) < 2 ^ 63) as Hlt by nia.
  assert (attempt - 1 < 63) as Hs.
  { destruct (Z.lt_ge_cases (attempt - 1) 63) as [|Hge]; [done|].
    pose proof (Z.pow_le_mono_r 2 63 (attempt - 1) ltac:(lia) Hge). nia. }
  unfold backoff. destruct (Z.ltb_spec (attempt - 1) 64); [|lia].
  assert (forall x, 0 <= x < 2 ^ 63 -> i64 x = x) as Hi.
  { intros x Hx. unfold i64. rewrite wrap_small by (unfold uintw; lia).
    destruct (Z.ltb_spec x (2 ^ 63)); lia. }
  rewrite (Hi (2 ^ (attempt - 1))).
  2:{ split; [lia|]. apply Z.pow_lt_mono_r; lia. }
  rewrite Hi by lia. destruct (Z.ltb_spec (rc_MaxDelay c) (rc_BaseDelay c * 2 ^ (attempt - 1))); lia.
Qed.

(** A sleep is within a quarter of its backoff. *)
Definition sleep_near (c : RetryConfig) (attempt sleep : Z) : Prop :=
  let d := Z.min (rc_BaseDelay c * 2 ^ (attempt - 1)) (rc_MaxDelay c) in
  3 * d <= 4 * sleep <= 5 * d.

Lemma jitter_near c attempt r :
  retry_sane c -> 1 <= attempt -> attempt < rc_MaxAttempts c ->
  let d := backoff c attempt in
  0 < Z.quot d 2 /\ sleep_near c attempt (d + (r mod Z.quot d 2 - Z.quot d 4)).
Proof.
  intros S H1 H2. cbv zeta. unfold sleep_near. rewrite <- (backoff_exact c attempt) by done.
  set (d := backoff c attempt).
  assert (4 <= d) as Hd.
  { unfold d. rewrite backoff_exact by done. destruct S as [Hb Hm _].
    assert (0 < 2 ^ (attempt - 1)) by (apply Z.pow_pos_nonneg; lia). nia. }
  rewrite !Z.quot_div_nonneg by lia.
  assert (0 < d / 2) as Hq by (apply Z.div_str_pos; lia). split; [done|].
  pose proof (Z.mod_pos_bound r (d / 2) Hq). pose proof (Z.div_mod d 2 ltac:(lia)) as E2.
  pose proof (Z.div_mod d 4 ltac:(lia)) as E4. pose proof (Z.mod_pos_bound d 2 ltac:(lia)).
  pose proof (Z.mod_pos_bound d 4 ltac:(lia)). lia.
Qed.

(** [n] is the attempt the policy ends with: it succeeded, failed for good or
    was the last, and those before it failed in a way worth a retry. *)
Definition decisive (retryable : call_err -> bool) (max : Z) (fn : Z -> option call_err) (from n : Z) : Prop :=
  from <= n <= max /\
  (forall i, from <= i < n -> exists e, fn i = Some e /\ retryable e = true) /\
  (n < max -> forall e, fn n = Some e -> retryable e = false).

Lemma decisive_here retryable max fn n :
  n <= max -> (n < max -> forall e, fn n = Some e -> retryable e = false) -> decisive retryable max fn n n.
Proof. intros H1 H2. split; [lia|]. split; [lia|done]. Qed.

Lemma do_loop_total c retryable fn rnd fuel attempt sleeps :
  retry_sane c -> 1 <= attempt -> attempt + Z.of_nat fuel = rc_MaxAttempts c ->
  exists n more, do_loop c retryable fn rnd fuel attempt sleeps = Returned (fn n) n (sleeps ++ more) /\
    decisive retryable (rc_MaxAttempts c) fn attempt n /\ Z.of_nat (length more) = n - attempt /\
    forall i s, more !! i = Some s -> sleep_near c (attempt + Z.of_nat i) s.
Proof.
  intros S. revert attempt sleeps. induction fuel as [|fuel IH]; intros attempt sleeps H1 Hf; cbn [do_loop];
    destruct (fn attempt) as [e|] eqn:E.
  - exists attempt, []. rewrite app_nil_r, E. assert (rc_MaxAttempts c = attempt) as Hm by lia. rewrite Hm.
    split; [by destruct (retryable e)|]. split; [apply decisive_here; lia|]. split; [cbn; lia|done].
  - exists attempt, []. rewrite app_nil_r, E. split; [done|].
    split; [apply decisive_here; [lia|congruence]|]. split; [cbn; lia|done].
  - destruct (retryable e) eqn:R; cbn [negb].
    2:{ exists attempt, []. rewrite app_nil_r, E. split; [done|].
        split; [apply decisive_here; [lia|congruence]|]. split; [cbn; lia|done]. }
    destruct (jitter_near c attempt (rnd attempt) S H1 ltac:(lia)) as [Hq Hn]. cbv zeta in Hq, Hn.
    destruct (Z.leb_spec (Z.quot (backoff c attempt) 2) 0); [lia|].
    destruct (IH (attempt + 1) (sleeps ++ [backoff c attempt + (rnd attempt mod Z.quot (backoff c attempt) 2
      - Z.quot (backoff c attempt) 4)]) ltac:(lia) ltac:(lia)) as (n & more & Er & (Hb & Hr & Hlast) & Hl & Hs).
    exists n, (backoff c attempt + (rnd attempt mod Z.quot (backoff c attempt) 2 - Z.quot (backoff c attempt) 4) :: more).
    rewrite Er, <- app_assoc. split; [done|]. split; [|split].
    + split; [lia|]. split; [|done]. intros i Hi. destruct (decide (i = attempt)) as [->|]; [eauto|]. apply Hr. lia.
    + cbn [length]. lia.
    + intros [|i] s; cbn [lookup list_lookup].
      * intros [= <-]. by rewrite Z.add_0_r.
      * intros Hi. specialize (Hs i s Hi). replace (attempt + Z.of_nat (Datatypes.S i)) with (attempt + 1 + Z.of_nat i) by lia. done.
  - exists attempt, []. rewrite app_nil_r, E. split; [done|].
    split; [apply decisive_here; [lia|congruence]|]. split; [cbn; lia|done].
Qed.

(** ** Keyed mutex *)

(** The thread has the lock, or its channel says so. *)
Definition owns (m : mutex) (t : thread) (k : key) : Prop :=
  mx_threads m !! t = Some (Handed k) \/ mx_threads m !! t = Some (Holding k).

Definition key_of (s : thread_state) : key := match s with Queued k | Handed k | Holding k => k end.

Record mutex_ok (m : mutex) : Prop := mkMutexOk {
  mo_held k e : mx_keys m !! k = Some e -> le_held e = true;
  mo_nodup k e : mx_keys m !! k = Some e -> NoDup (le_waiters e);
  mo_queue k e t : mx_keys m !! k = Some e -> t ∈ le_waiters e <-> mx_threads m !! t = Some (Queued k);
  mo_owner k : is_Some (mx_keys m !! k) -> exists t, owns m t k;
  mo_unique k t t' : owns m t k -> owns m t' k -> t = t';
  mo_known t s : mx_threads m !! t = Some s -> is_Some (mx_keys m !! key_of s)
}.

Lemma mutex_ok_empty : mutex_ok (mkMutex ∅ ∅).
Proof.
  constructor; cbn; try done.
  - intros k [e He]. by rewrite lookup_empty in He.
  - intros k t t' [H|H]; cbn in H; by rewrite lookup_empty in H.
Qed.

Lemma owns_insert_other m keys t s t' k :
  t' <> t -> owns (mkMutex keys (<[t := s]> (mx_threads m))) t' k <-> owns m t' k.
Proof. intros H. unfold owns. cbn. by rewrite lookup_insert_ne. Qed.

(** A thread that was idle gets the lock of an unknown key. *)
Lemma mutex_ok_fresh t k m :
  mutex_ok m -> mx_threads m !! t = None -> mx_keys m !! k = None ->
  mutex_ok (mkMutex (<[k := mkLockEntry true []]> (mx_keys m)) (<[t := Holding k]> (mx_threads m))).
Proof.
  intros O Ht Hk.
  assert (forall t' s, mx_threads m !! t' = Some s -> key_of s <> k) as Hnone.
  { intros t' s Hs <-. destruct (mo_known m O t' s Hs) as [e He]. congruence. }
  constructor; cbn [mx_keys mx_threads].
  - intros k' e. rewrite lookup_insert. case_decide; [by intros [= <-]|apply (mo_held m O)].
  - intros k' e. rewrite lookup_insert. case_decide; [intros [= <-]; constructor|apply (mo_nodup m O)].
  - intros k' e t'. rewrite !lookup_insert. case_decide as E.
    + intros [= <-]. subst k'. split; [by intros ?%not_elem_of_nil|]. case_decide; [done|].
      intros Hq. by destruct (Hnone _ _ Hq).
    + intros He. rewrite (mo_queue m O k' e t' He). case_decide as Et; [subst t'|done].
      split; [congruence|]. intros [= ->].
  - intros k' Hk'. rewrite lookup_insert_is_Some in Hk'. destruct (decide (k' = k)) as [->|Hne].
    + exists t. right. cbn. apply lookup_insert_eq.
    + destruct Hk' as [->|[_ Hk']]; [done|]. destruct (mo_owner m O k' Hk') as [t' Ho]. exists t'.
      apply owns_insert_other; [|done]. intros ->. destruct Ho; congruence.
  - intros k' t1 t2. destruct (decide (t1 = t)) as [->|H1], (decide (t2 = t)) as [->|H2]; [done|..].
    + intros [Ho|Ho]; cbn in Ho; rewrite lookup_insert_eq in Ho; [done|]. injection Ho as <-.
      rewrite owns_insert_other by done. intros [Hs|Hs]; by destruct (Hnone _ _ Hs).
    + intros Ho1 [Ho|Ho]; cbn in Ho; rewrite lookup_insert_eq in Ho; [done|]. injection Ho as <-.
      rewrite owns_insert_other in Ho1 by done. destruct Ho1 as [Hs|Hs]; by destruct (Hnone _ _ Hs).
    + rewrite !owns_insert_other by done. apply (mo_unique m O).
  - intros t' s. rewrite lookup_insert. case_decide.
    + intros [= <-]. cbn. rewrite lookup_insert_eq. by eexists.
    + intros Hs. apply lookup_insert_is_Some'. right. by eapply (mo_known m O).
Qed.

(** An idle thread joins the queue of a key that is held. *)
Lemma mutex_ok_enqueue t k e m :
  mutex_ok m -> mx_threads m !! t = None -> mx_keys m !! k = Some e ->
  mutex_ok (mkMutex (<[k := mkLockEntry true (le_waiters e ++ [t])]> (mx_keys m)) (<[t := Queued k]> (mx_threads m))).
Proof.
  intros O Ht Hk.
  assert (forall t' k', owns m t' k' -> t' <> t) as Hidle by (intros t' k' [H|H] ->; congruence).
  assert (forall t' k', owns (mkMutex (<[k := mkLockEntry true (le_waiters e ++ [t])]> (mx_keys m))
    (<[t := Queued k]> (mx_threads m))) t' k' <-> owns m t' k') as Hown.
  { intros t' k'. destruct (decide (t' = t)) as [->|Hne]; [|by apply owns_insert_other].
    split; [intros [H|H]; cbn in H; by rewrite lookup_insert_eq in H|]. intros H. by destruct (Hidle _ _ H). }
  assert (t ∉ le_waiters e) as Hnot by (rewrite (mo_queue m O k e t Hk); congruence).
  constructor; cbn [mx_keys mx_threads].
  - intros k' e'. rewrite lookup_insert. case_decide; [by intros [= <-]|apply (mo_held m O)].
  - intros k' e'. rewrite lookup_insert. case_decide; [|apply (mo_nodup m O)]. intros [= <-]. cbn.
    apply NoDup_app. split; [by apply (mo_nodup m O k)|]. split; [|apply NoDup_singleton].
    intros x Hx ->%list_elem_of_singleton. done.
  - intros k' e' t'. rewrite !lookup_insert. case_decide as E.
    + intros [= <-]. subst k'. cbn. rewrite elem_of_app, list_elem_of_singleton, (mo_queue m O k e t' Hk).
      case_decide; [subst; naive_solver|]. naive_solver.
    + intros He. rewrite (mo_queue m O k' e' t' He). case_decide as Et; [subst t'|done].
      split; [congruence|]. intros [= ->]. done.
  - intros k' Hk'. apply lookup_insert_is_Some' in Hk'.
    assert (is_Some (mx_keys m !! k')) as Hs by (destruct Hk' as [<-|]; [by eexists|done]).
    destruct (mo_owner m O k' Hs) as [t' Ho]. exists t'. by apply Hown.
  - intros k' t1 t2. rewrite !Hown. apply (mo_unique m O).
  - intros t' s. rewrite lookup_insert. case_decide.
    + intros [= <-]. cbn. rewrite lookup_insert_eq. by eexists.
    + intros Hs. apply lookup_insert_is_Some'. right. by eapply (mo_known m O).
Qed.

(** The thread that was handed the lock runs. *)
Lemma mutex_ok_wake t k m :
  mutex_ok m -> mx_threads m !! t = Some (Handed k) -> mutex_ok (set_thread t (Some (Holding k)) m).
Proof.
  intros O Ht. unfold set_thread.
  assert (forall t' k', owns (mkMutex (mx_keys m) (<[t := Holding k]> (mx_threads m))) t' k' <-> owns m t' k') as Hown.
  { intros t' k'. destruct (decide (t' = t)) as [->|Hne]; [|by apply owns_insert_other].
    unfold owns. cbn. rewrite lookup_insert_eq, Ht. naive_solver. }
  constructor; cbn [mx_keys mx_threads]; [apply O|apply O|..].
  - intros k' e t' He. rewrite (mo_queue m O k' e t' He), lookup_insert. case_decide; [subst; naive_solver|done].
  - intros k' Hs. destruct (mo_owner m O k' Hs) as [t' Ho]. exists t'. by apply Hown.
  - intros k' t1 t2. rewrite !Hown. apply (mo_unique m O).
  - intros t' s. rewrite lookup_insert. case_decide; [|apply (mo_known m O)]. intros [= <-].
    apply (mo_known m O t (Handed k) Ht).
Qed.

(** The holder unlocks and nobody waits. *)
Lemma mutex_ok_free t k e m :
  mutex_ok m -> mx_threads m !! t = Some (Holding k) -> mx_keys m !! k = Some e -> le_waiters e = [] ->
  mutex_ok (mkMutex (delete k (mx_keys m)) (delete t (mx_threads m))).
Proof.
  intros O Ht He Ew. assert (owns m t k) as Hown by (by right).
  constructor; cbn [mx_keys mx_threads].
  - intros k' e'. rewrite lookup_delete. case_decide; [done|apply (mo_held m O)].
  - intros k' e'. rewrite lookup_delete. case_decide; [done|apply (mo_nodup m O)].
  - intros k' e' t'. rewrite !lookup_delete. case_decide; [done|]. intros He'.
    rewrite (mo_queue m O k' e' t' He'). case_decide; [subst; naive_solver|done].
  - intros k' [e' He']. rewrite lookup_delete in He'. case_decide as E; [done|].
    destruct (mo_owner m O k' ltac:(by eexists)) as [t' Ho]. exists t'.
    assert (t' <> t) by (intros ->; destruct Ho; congruence). unfold owns. cbn. by rewrite lookup_delete_ne.
  - intros k' t1 t2 H1 H2.
    assert (forall x, owns (mkMutex (delete k (mx_keys m)) (delete t (mx_threads m))) x k' -> owns m x k') as Hx.
    { intros x [H|H]; cbn in H; rewrite lookup_delete in H; case_decide; try done; [by left|by right]. }
    by apply (mo_unique m O k'); apply Hx.
  - intros t' s. rewrite lookup_delete. case_decide as Et; [done|]. intros Hs.
    destruct (mo_known m O t' s Hs) as [e' He']. rewrite lookup_delete. case_decide as Ek; [|by eexists].
    exfalso. destruct s as [k'|k'|k']; cbn in Ek; subst k'.
    + apply (mo_queue m O k e t' He) in Hs. rewrite Ew in Hs. by apply not_elem_of_nil in Hs.
    + apply Et. apply (mo_unique m O k); [done|by left].
    + apply Et. apply (mo_unique m O k); [done|by right].
Qed.

(** The holder unlocks and the first waiter is handed the lock. *)
Lemma mutex_ok_handoff t k e w rest m :
  mutex_ok m -> mx_threads m !! t = Some (Holding k) -> mx_keys m !! k = Some e -> le_waiters e = w :: rest ->
  mutex_ok (mkMutex (<[k := mkLockEntry (le_held e) rest]> (mx_keys m)) (<[w := Handed k]> (delete t (mx_threads m)))).
Proof.
  intros O Ht He Ew. assert (owns m t k) as Hown by (by right).
  assert (mx_threads m !! w = Some (Queued k)) as Hw by (apply (mo_queue m O k e w He); rewrite Ew; by left).
  assert (w <> t) as Hwt by congruence.
  pose proof (mo_nodup m O k e He) as Nd. rewrite Ew in Nd. apply NoDup_cons in Nd as [Hwr Nd].
  assert (forall x k', owns (mkMutex (<[k := mkLockEntry (le_held e) rest]> (mx_keys m))
    (<[w := Handed k]> (delete t (mx_threads m)))) x k' <-> (x = w /\ k' = k) \/ (x <> w /\ x <> t /\ owns m x k')) as Hx.
  { intros x k'. unfold owns. cbn. rewrite lookup_insert. case_decide as E.
    - subst x. split; [intros [[= <-]|[=]]; by left|]. intros [[_ ->]|[? _]]; [by left|done].
    - rewrite lookup_delete. case_decide as E2; [subst; naive_solver|]. naive_solver. }
  constructor; cbn [mx_keys mx_threads].
  - intros k' e'. rewrite lookup_insert. case_decide; [|apply (mo_held m O)]. intros [= <-]. cbn.
    by apply (mo_held m O k).
  - intros k' e'. rewrite lookup_insert. case_decide; [by intros [= <-]|apply (mo_nodup m O)].
  - intros k' e' t'. rewrite !lookup_insert, lookup_delete. case_decide as E.
    + intros [= <-]. subst k'. cbn. pose proof (mo_queue m O k e t' He) as Q. rewrite Ew, elem_of_cons in Q.
      repeat case_decide; naive_solver.
    + intros He'. pose proof (mo_queue m O k' e' t' He') as Q. repeat case_decide; naive_solver.
  - intros k' Hk'. destruct (decide (k' = k)) as [->|Hne]; [exists w; apply Hx; by left|].
    rewrite lookup_insert_ne in Hk' by done. destruct (mo_owner m O k' Hk') as [t' Ho]. exists t'.
    apply Hx. right. split; [|split; [|done]]; intros ->; destruct Ho; congruence.
  - intros k' t1 t2 [[-> ->]|(N1 & N1' & O1)]%Hx [[-> E2]|(N2 & N2' & O2)]%Hx; try done.
    + destruct N2'. by apply (mo_unique m O k).
    + subst k'. destruct N1'. by apply (mo_unique m O k).
    + by apply (mo_unique m O k').
  - intros t' s. rewrite lookup_insert, lookup_delete. repeat case_decide; try done.
    + intros [= <-]. cbn. rewrite lookup_insert_eq. by eexists.
    + intros Hs. apply lookup_insert_is_Some'. right. by eapply (mo_known m O).
Qed.

Lemma mutex_ok_unlock t k m :
  mutex_ok m -> mx_threads m !! t = Some (Holding k) -> mutex_ok (keyed_Unlock k (set_thread t None m)).
Proof.
  intros O Ht. unfold keyed_Unlock, set_thread. cbn [mx_keys mx_threads].
  destruct (mo_known m O t _ Ht) as [e He]. cbn [key_of] in He. rewrite He.
  destruct (le_waiters e) as [|w rest] eqn:Ew; [by eapply mutex_ok_free|by eapply mutex_ok_handoff].
Qed.

(** A queued thread gives up. *)
Lemma mutex_ok_timeout t k m :
  mutex_ok m -> mx_threads m !! t = Some (Queued k) -> mutex_ok (keyed_abandon t k m).
Proof.
  intros O Ht. unfold keyed_abandon. destruct (mo_known m O t _ Ht) as [e He]. cbn [key_of] in He. rewrite He.
  unfold set_thread. cbn [mx_keys mx_threads].
  set (ws := List.filter (fun w => negb (w =? t)%nat) (le_waiters e)).
  assert (forall x, x ∈ ws <-> x ∈ le_waiters e /\ x <> t) as Hws.
  { intros x. unfold ws. rewrite list_elem_of_In, filter_In, <- list_elem_of_In, negb_true_iff.
    by rewrite Nat.eqb_neq. }
  assert (forall x k', owns (mkMutex (<[k := mkLockEntry (le_held e) ws]> (mx_keys m)) (delete t (mx_threads m))) x k'
    <-> owns m x k') as Hx.
  { intros x k'. unfold owns. cbn. rewrite lookup_delete. case_decide; [subst; naive_solver|done]. }
  constructor; cbn [mx_keys mx_threads].
  - intros k' e'. rewrite lookup_insert. case_decide; [|apply (mo_held m O)]. intros [= <-]. cbn. by apply (mo_held m O k).
  - intros k' e'. rewrite lookup_insert. case_decide; [|apply (mo_nodup m O)]. intros [= <-]. cbn.
    pose proof (mo_nodup m O k e He) as Nd. unfold ws. apply NoDup_ListNoDup, List.NoDup_filter, NoDup_ListNoDup, Nd.
  - intros k' e' t'. rewrite lookup_insert, lookup_delete. case_decide as E.
    + intros [= <-]. subst k'. cbn. rewrite Hws, (mo_queue m O k e t' He). case_decide; naive_solver.
    + intros He'. rewrite (mo_queue m O k' e' t' He'). case_decide; [subst; naive_solver|done].
  - intros k' Hk'. apply lookup_insert_is_Some' in Hk'.
    assert (is_Some (mx_keys m !! k')) as Hs by (destruct Hk' as [<-|]; [by eexists|done]).
    destruct (mo_owner m O k' Hs) as [t' Ho]. exists t'. by apply Hx.
  - intros k' t1 t2. rewrite !Hx. apply (mo_unique m O).
  - intros t' s. rewrite lookup_delete. case_decide; [done|]. intros Hs. apply lookup_insert_is_Some'. right.
    by eapply (mo_known m O).
Qed.

Lemma mutex_step_ok m m' : mutex_step m m' -> mutex_ok m -> mutex_ok m'.
Proof.
  destruct 1 as [t k m Ht|t k m Ht|t k m Ht|t k m Ht]; intros O;
    [|by apply mutex_ok_wake|by apply mutex_ok_unlock|by apply mutex_ok_timeout].
  unfold keyed_Lock, set_thread. cbn [mx_keys mx_threads].
  destruct (mx_keys m !! k) as [e|] eqn:Hk; [|by apply mutex_ok_fresh].
  rewrite (mo_held m O k e Hk). by apply mutex_ok_enqueue.
Qed.

Lemma mutex_steps_ok m m' : rtc mutex_step m m' -> mutex_ok m -> mutex_ok m'.
Proof. induction 1 as [|m m1 m' S _ IH]; [done|]. intros O. apply IH. by eapply mutex_step_ok. Qed.

(** ** A lost hand-off *)

(** The key is taken and nobody has it. *)
Definition orphaned (k : key) (m : mutex) : Prop :=
  (exists e, mx_keys m !! k = Some e /\ le_held e = true) /\ forall t, ~ owns m t k.

Lemma orphaned_forever k m m' : orphaned k m -> mutex_step m m' -> orphaned k m'.
Proof.
  intros [(e & He & Hh) Hno]. destruct 1 as [t k' m Ht|t k' m Ht|t k' m Ht|t k' m Ht].
  - unfold keyed_Lock. destruct (mx_keys m !! k') as [e'|] eqn:He'.
    + destruct (le_held e') eqn:Hh'; unfold set_thread; cbn [mx_keys mx_threads].
      * split.
        { cbn. rewrite lookup_insert. case_decide as E; [by eexists|by exists e]. }
        intros t'. unfold owns. cbn. rewrite lookup_insert. case_decide; [naive_solver|apply Hno].
      * assert (k' <> k) as Hne by (intros ->; congruence). split.
        { cbn. rewrite lookup_insert_ne by done. by exists e. }
        intros t'. unfold owns. cbn. rewrite lookup_insert. case_decide; [naive_solver|apply Hno].
    + assert (k' <> k) as Hne by (intros ->; congruence). unfold set_thread. cbn [mx_keys mx_threads]. split.
      { cbn. rewrite lookup_insert_ne by done. by exists e. }
      intros t'. unfold owns. cbn. rewrite lookup_insert. case_decide; [naive_solver|apply Hno].
  - assert (k' <> k) as Hne by (intros ->; apply (Hno t); by left). split; [by exists e|].
    intros t'. unfold owns, set_thread. cbn. rewrite lookup_insert. case_decide; [naive_solver|apply Hno].
  - assert (k' <> k) as Hne by (intros ->; apply (Hno t); by right).
    unfold keyed_Unlock, set_thread. cbn [mx_keys mx_threads].
    destruct (mx_keys m !! k') as [e'|]; [destruct (le_waiters e')|]; (split;
      [cbn; rewrite ?lookup_delete_ne, ?lookup_insert_ne by done; by exists e|]);
      intros t'; unfold owns; cbn; rewrite ?lookup_insert, ?lookup_delete;
      repeat case_decide; try naive_solver; apply Hno.
  - unfold keyed_abandon, set_thread. destruct (mx_keys m !! k') as [e'|] eqn:He'; cbn [mx_keys mx_threads].
    + split.
      { cbn. rewrite lookup_insert. case_decide as E; [subst; eexists; split; [done|]; cbn; congruence|by exists e]. }
      intros t'. unfold owns. cbn. rewrite lookup_delete. case_decide; [naive_solver|apply Hno].
    + split; [by exists e|]. intros t'. unfold owns. cbn. rewrite lookup_delete.
      case_decide; [naive_solver|apply Hno].
Qed.
