(* ===== verification/SupportTheorems.v ===== *)
(** * What journal, locks and resilience primitives guarantee

    The claims about [ChangeJournal.v], [AdvisoryLocks.v] and
    [Resilience.v], with their applications, and the cases where the code
    gives less than its comments say. *)

From stdpp Require Import base list sorting numbers strings gmap relations.
From Stdlib Require Import ZArith Lia.
From S2P Require Import Prelude Bytes Crc StorageTypes Pebble MetaKeys ChangeJournal.
From S2P Require Import AdvisoryLocks Resilience.

Local Open Scope Z_scope.

(** ** Change journal *)

(** C32: appended events survive a crash. On a journal whose current file ends
    with a whole entry, an append whose fields fit their widths and that fits
    the byte limit puts its event,
    under the next sequence, behind all earlier ones, and leaves such a
    journal; when a crash then leaves any proper prefix of one more entry in
    the file, reopening finds exactly the appended events and goes on counting
    from the last of them. The reopened journal keeps the torn bytes, so the
    theorem does not apply to it again: an event appended there is lost
    ([append_behind_torn_entry_is_lost]). *)
Theorem journal_survives_torn_write now kind ext gen seg reason j evs t opts :
  journal_ok j evs -> cj_seq j + 1 < 2 ^ 64 -> is_u8 kind -> is_u64 ext -> is_u64 gen -> is_u64 seg ->
  len reason < 2 ^ 16 -> bytes_wf reason -> is_i64 now ->
  cj_bytes j + (51 + len reason) <= cj_MaxBytes j -> torn_tail t ->
  let evs' := evs ++ [mkChangeEvent (cj_seq j + 1) kind ext gen seg reason now] in
  exists j' j'', Append Written now kind ext gen seg reason j = (j', Ok (cj_seq j + 1)) /\
    journal_ok j' evs' /\ journal_events j' = evs' /\
    OpenChangeJournal None opts (append_file (cj_file j') t (cj_dir j')) = Ok j'' /\
    journal_events j'' = evs' /\ cj_seq j'' = cj_seq j + 1.
Proof.
  intros O Hs Hk He Hg Hseg Hr Hrb Hn Hb Ht evs'.
  destruct (Append_ok now kind ext gen seg reason j evs O Hs Hk He Hg Hseg Hr Hrb Hn Hb) as (j' & E & O').
  destruct (reopen_ok j' evs' t opts O' Ht) as (j'' & E2 & Hev & Hsq & _ & _).
  exists j', j''. split; [done|]. split; [done|]. split; [by apply journal_events_ok|].
  split; [done|]. split; [done|]. rewrite Hsq. apply Z.le_antisymm.
  - apply seq_max_least; [pose proof (jk_seq _ _ O); unfold uintw in *; lia|].
    apply Forall_app. split; [|apply Forall_singleton; cbn; lia].
    eapply Forall_impl; [exact (jk_below _ _ O)|]. cbn. intros; lia.
  - destruct (seq_max_bound 0 evs') as [_ B]. apply Forall_app in B as [_ B]. apply Forall_inv in B. exact B.
Qed.


(** ** Advisory locks *)

Inductive lock_run : advisoryLockManager -> list (lock_call * result lock_err unit) -> advisoryLockManager -> Prop :=
| lock_done m : lock_run m [] m
| lock_next m closed now c m1 r tr m' :
    lock_service closed now c m = (m1, r) -> lock_run m1 tr m' -> lock_run m ((c, r) :: tr) m'.

(** C34: locks exclude each other across every history of calls: who is
    recorded as the exclusive holder of an inode is its only holder, and a
    holder's count is the number of acquisitions granted to it less its
    releases, so it lets go after as many unlocks as it had locks. *)
Theorem advisory_locks_exclusive tr m i o :
  lock_run newAdvisoryLockManager tr m ->
  (forall h o' h', holder m i o = Some h -> lh_mode h = LockModeExclusive -> holder m i o' = Some h' -> o' = o) /\
  refcount m i o = fold_left (fun n cr => hold_count i o n cr.1 cr.2) tr 0.
Proof.
  intros R.
  assert (forall m0 tr m', lock_run m0 tr m' -> locks_ok m0 -> locks_ok m' /\
    refcount m' i o = fold_left (fun n cr => hold_count i o n cr.1 cr.2) tr (refcount m0 i o)) as H.
  { clear. induction 1 as [m|m closed now c m1 r tr m' E _ IH]; intros O; [done|].
    destruct (service_counts closed now c m m1 r i o O E) as [O1 Hc]. cbn [fold_left fst snd].
    rewrite <- Hc. by apply IH. }
  destruct (H _ _ _ R locks_ok_new) as [O Hc]. split.
  - intros h o' h' Hh Hm Hh'. by apply (lo_alone m O i o o' h h').
  - rewrite Hc. unfold refcount at 1. by rewrite holder_new.
Qed.

(** A re-entrant request ignores its mode: an owner that holds a shared
    lock is granted an exclusive one while another owner still holds the
    inode, and both stay recorded as shared. *)
Theorem reentry_grants_exclusive now i o o' m h h' :
  locks_ok m -> o <> [] -> o <> o' -> holder m i o = Some h -> holder m i o' = Some h' ->
  exists m' h2, acquire now i o LockModeExclusive m = (m', Ok tt) /\
    holder m' i o = Some h2 /\ lh_mode h2 = LockModeShared /\ holder m' i o' = Some h'.
Proof.
  intros O Hno Hne Hh Hh'.
  assert (lh_mode h = LockModeShared) as Hs.
  { destruct (lh_mode h) eqn:E; [|done]. destruct Hne. symmetry. by apply (lo_alone m O i o o' h h'). }
  destruct (acquire now i o LockModeExclusive m) as [m' r] eqn:E.
  destruct (acquire_spec now i o LockModeExclusive m m' r O E) as (S & _).
  destruct r as [[]|[| |]]; [|done|destruct S as (? & _); congruence|].
  - destruct S as (_ & Hon & _). exists m', (acquired now o LockModeExclusive (Some h)). split; [done|].
    rewrite !Hon, Hh. rewrite bool_decide_eq_true_2 by done. rewrite bool_decide_eq_false_2 by naive_solver. done.
  - by destruct S as [-> _].
Qed.

(** ** Circuit breaker, retry, keyed mutex *)

(** However calls overlap, the breaker is closed exactly while fewer
    failures than the threshold have been counted since the last success; a
    call is refused only when the breaker is open and its timeout has not
    passed, and then nothing changes. *)
Theorem breaker_tracks_failures threshold timeout b n :
  rtc breaker_step (breaker_New threshold timeout, 0%nat) (b, n) ->
  (br_state b = StateClosed <-> br_failures b < br_threshold b) /\
  (forall now, breaker_admit now b = None <->
     br_state b = StateOpen /\ now - br_lastFailTime b < br_timeout b).
Proof.
  intros R. pose proof (breaker_steps_ok _ _ R (breaker_New_ok threshold timeout)) as O. cbn in O.
  split; [apply O|]. intros now. unfold breaker_admit. destruct (br_state b).
  - split; [done|]. by intros [? _].
  - destruct (Z.ltb_spec (now - br_lastFailTime b) (br_timeout b)); split; try done. intros [_ ?]. lia.
  - split; [done|]. by intros [? _].
Qed.

(** A retry loop returns: when the delays of the policy are at least four
    nanoseconds and do not overflow, [Do] ends with the first attempt that
    succeeds, fails for good or is the last one permitted, returns what that
    attempt returned, and sleeps before each retry within a quarter of the
    capped exponential delay. *)
Theorem retry_returns cfg fn rnd :
  let c := withDefaults cfg in
  retry_sane c ->
  exists n sleeps, retry_Do cfg fn rnd = Returned (fn n) n sleeps /\
    decisive (default IsRetryable (rc_IsRetryable c)) (rc_MaxAttempts c) fn 1 n /\
    Z.of_nat (length sleeps) = n - 1 /\
    forall i s, sleeps !! i = Some s -> sleep_near c (1 + Z.of_nat i) s.
Proof.
  intros c S. assert (1 <= rc_MaxAttempts c) as H1.
  { unfold c, withDefaults. cbn. unfold DefaultMaxRetries. destruct (Z.leb_spec (rc_MaxAttempts cfg) 0); lia. }
  destruct (do_loop_total c (default IsRetryable (rc_IsRetryable c)) fn rnd (Z.to_nat (rc_MaxAttempts c - 1)) 1 []
    S ltac:(lia) ltac:(lia)) as (n & more & E & D & L & N).
  exists n, more. done.
Qed.

(** C35: the keyed mutex has one owner: in every interleaving of [Lock],
    hand-off, [Unlock] by the holder and timeouts in the queue, no two
    threads own a key, a key in the table always has an owner, and the
    threads queued for it are exactly its waiters. *)
Theorem keyed_mutex_exclusive m :
  rtc mutex_step (mkMutex ∅ ∅) m ->
  (forall k t t', owns m t k -> owns m t' k -> t = t') /\
  (forall k e, mx_keys m !! k = Some e ->
     (exists t, owns m t k) /\ NoDup (le_waiters e) /\
     forall t, t ∈ le_waiters e <-> mx_threads m !! t = Some (Queued k)).
Proof.
  intros R. pose proof (mutex_steps_ok _ _ R mutex_ok_empty) as O. split; [apply (mo_unique m O)|].
  intros k e He. split; [apply (mo_owner m O k); by eexists|]. split; [by apply (mo_nodup m O k)|].
  intros t. by apply (mo_queue m O k e).
Qed.

(** A timeout that races a hand-off loses the lock: when the waiter of
    [LockContext] was handed the key and returns its timeout instead, the
    key stays taken with no owner, in every later state, so everyone
    who asks for it afterwards waits for ever. *)
Theorem late_timeout_orphans_key t k m m1 m' :
  mutex_ok m -> mx_threads m !! t = Some (Handed k) -> keyed_abandon t k m = m1 -> rtc mutex_step m1 m' ->
  orphaned k m'.
Proof.
  intros O Ht <- R.
  assert (orphaned k (keyed_abandon t k m)) as Ho.
  { destruct (mo_known m O t _ Ht) as [e He]. cbn [key_of] in He. unfold keyed_abandon. rewrite He. split.
    - unfold set_thread. cbn. rewrite lookup_insert_eq. eexists. split; [done|]. cbn. by apply (mo_held m O k).
    - intros t' Hown. unfold owns, set_thread in Hown. cbn in Hown. rewrite lookup_delete in Hown.
      case_decide as Et; [naive_solver|]. apply Et. apply (mo_unique m O k); [by left|exact Hown]. }
  clear -Ho R. induction R as [|x y z S _ IH]; [done|]. apply IH. by eapply orphaned_forever.
Qed.

(** ** Applications *)

Definition events_file : list Z := change_name 1.

Definition journal0 : ChangeJournal := mkChangeJournal [(events_file, [])] 0 events_file 1 0 0 1000 0 10 1000.

Lemma journal0_ok : journal_ok journal0 [].
Proof.
  constructor; try done.
  - apply NoDup_singleton.
  - exists [], []. split; [vm_compute; reflexivity|]. split; [constructor|done].
  - split; constructor.
Qed.

Lemma journal_survives_torn_write_witness :
  exists j', Append Written 7 0 1 1 1 [] journal0 = (j', Ok 1) /\
    journal_ok j' [mkChangeEvent 1 0 1 1 1 [] 7].
Proof.
  destruct (journal_survives_torn_write 7 0 1 1 1 [] journal0 [] [0; 0; 0] (mkJournalOptions 0 0 0 0) journal0_ok)
    as (j' & j'' & E & O & _); try (unfold uintw, is_i64; done).
  - constructor.
  - right. exists (mkChangeEvent 2 0 1 1 1 [] 7). split.
    + split; [|constructor]. constructor; unfold uintw, is_i64; done.
    + split; [|vm_compute; discriminate]. eexists. vm_compute. reflexivity.
  - exists j'. done.
Defined.

Definition event1 : ChangeEvent := mkChangeEvent 1 0 1 1 1 [] 7.
Definition journal1 : ChangeJournal := (Append Written 7 0 1 1 1 [] journal0).1.

Lemma journal1_ok : journal_ok journal1 [event1].
Proof.
  destruct (Append_ok 7 0 1 1 1 [] journal0 [] journal0_ok) as (j' & E & O); try (unfold uintw, is_i64; done).
  - constructor.
  - unfold journal1. rewrite E. exact O.
Qed.

(** A heartbeat whose answer is lost, and one that goes through. *)
Definition lost_reply : beat_faults := mkBeatFaults None (fun _ => None) None None (Some ErrStoreClosed) None.


Definition lock_trace : list (lock_call * result lock_err unit) :=
  [(AdvisoryLock 7 [97], Ok tt); (AdvisoryLockShared 7 [98], Err ErrLockBusy)].

Lemma lock_trace_runs :
  exists m, lock_run newAdvisoryLockManager lock_trace m.
Proof.
  eexists. eapply (lock_next _ false 5); [reflexivity|]. eapply (lock_next _ false 6); [reflexivity|]. constructor.
Qed.

Lemma advisory_locks_exclusive_witness :
  exists m, lock_run newAdvisoryLockManager lock_trace m /\ refcount m 7 [97] = 1.
Proof.
  destruct lock_trace_runs as [m R]. exists m. split; [done|].
  exact (proj2 (advisory_locks_exclusive lock_trace m 7 [97] R)).
Defined.

Definition two_readers : advisoryLockManager :=
  (acquire 2 7 [98] LockModeShared (acquire 1 7 [97] LockModeShared newAdvisoryLockManager).1).1.

Lemma two_readers_ok : locks_ok two_readers.
Proof.
  unfold two_readers. eapply acquire_ok; [|apply surjective_pairing].
  eapply acquire_ok; [|apply surjective_pairing]. apply locks_ok_new.
Qed.

Lemma reentry_grants_exclusive_witness :
  exists m' h2, acquire 3 7 [97] LockModeExclusive two_readers = (m', Ok tt) /\
    holder m' 7 [97] = Some h2 /\ lh_mode h2 = LockModeShared /\
    holder m' 7 [98] = Some (mkLockHolder [98] LockModeShared 2 1).
Proof.
  apply (reentry_grants_exclusive 3 7 [97] [98] two_readers (mkLockHolder [97] LockModeShared 1 1)
    (mkLockHolder [98] LockModeShared 2 1) two_readers_ok); try done; vm_compute; reflexivity.
Defined.

(** A breaker after one failure, its limit. *)
Definition tripped : Breaker := onFailure 10 (breaker_New 1 100).

Lemma tripped_reached : rtc breaker_step (breaker_New 1 100, 0%nat) (tripped, 0%nat).
Proof.
  eapply rtc_l; [by apply (breaker_enter 5)|]. eapply rtc_l; [apply (breaker_fail 10)|]. apply rtc_refl.
Qed.

Lemma breaker_tracks_failures_witness : breaker_admit 50 tripped = None.
Proof.
  apply (proj2 (breaker_tracks_failures 1 100 tripped 0%nat tripped_reached) 50). done.
Defined.

Lemma retry_returns_witness :
  exists n sleeps, retry_Do (mkRetryConfig 0 0 0 None) (fun i => if i <? 3 then Some (mkCallErr true false None) else None)
    (fun _ => 1) = Returned None n sleeps.
Proof.
  destruct (retry_returns (mkRetryConfig 0 0 0 None)
    (fun i => if i <? 3 then Some (mkCallErr true false None) else None) (fun _ => 1)) as (n & sl & E & D & _).
  - constructor; done.
  - exists n, sl. rewrite E. destruct (Z.ltb_spec n 3) as [Hn|]; [|done]. exfalso.
    destruct D as (_ & _ & D). assert (n < rc_MaxAttempts (withDefaults (mkRetryConfig 0 0 0 None))) as Hm by (change (n < 4); lia).
    specialize (D Hm (mkCallErr true false None)). cbv beta in D.
    rewrite (proj2 (Z.ltb_lt n 3) Hn) in D. discriminate (D eq_refl).
Defined.

(** Thread 1 locks, thread 2 queues, thread 1 unlocks. *)
Definition handed_over : mutex :=
  keyed_Unlock [1] (set_thread 1 None (keyed_Lock 2 [1] (keyed_Lock 1 [1] (mkMutex ∅ ∅)))).

Lemma handed_over_reached : rtc mutex_step (mkMutex ∅ ∅) handed_over.
Proof.
  eapply rtc_l; [by apply (mx_lock 1 [1])|]. eapply rtc_l; [by apply (mx_lock 2 [1])|].
  eapply rtc_l; [by apply (mx_unlock 1 [1])|]. apply rtc_refl.
Qed.

Lemma keyed_mutex_exclusive_witness : exists t, owns handed_over t [1] /\ t = 2%nat.
Proof.
  destruct (keyed_mutex_exclusive handed_over handed_over_reached) as [U K].
  destruct (K [1] (mkLockEntry true [])) as [[t Ht] _]; [reflexivity|].
  exists t. split; [exact Ht|]. apply (U [1]); [exact Ht|by left].
Defined.

Lemma late_timeout_orphans_key_witness : orphaned [1] (keyed_Lock 3 [1] (keyed_abandon 2 [1] handed_over)).
Proof.
  apply (late_timeout_orphans_key 2 [1] handed_over (keyed_abandon 2 [1] handed_over)).
  - exact (mutex_steps_ok _ _ handed_over_reached mutex_ok_empty).
  - reflexivity.
  - reflexivity.
  - eapply rtc_l; [by apply (mx_lock 3 [1])|apply rtc_refl].
Defined.

(** ** Limits *)

(** Half-open lets every call through, not a single probe. *)
Theorem half_open_admits_many n : rtc breaker_step (tripped, 0%nat) (transitionLocked StateHalfOpen tripped, S n).
Proof.
  induction n as [|n IH].
  - apply rtc_once. by apply (breaker_enter 200).
  - eapply rtc_r; [exact IH|]. by apply (breaker_enter 200).
Qed.

(** An event appended behind a torn entry is acknowledged and never shipped:
    reopening keeps the torn bytes and appends after them. *)
Theorem append_behind_torn_entry_is_lost :
  let opts := mkJournalOptions 0 0 0 0 in
  let torn := take 20 (encodeEvent event1) in
  match OpenChangeJournal None opts (append_file (cj_file journal1) torn (cj_dir journal1)) with
  | Ok j =>
      let (j, r) := Append Written 8 0 2 1 1 [] j in
      r = Ok 2 /\ (heartbeats (replicate 5 no_faults) (j, 0)).1 = [event1]
  | Err _ => False
  end.
Proof. vm_compute. done. Qed.

(** With the default delays and 36 attempts the backoff overflows and [Do]
    panics; so does a base delay of one nanosecond at the first retry. *)
Theorem retry_overflow_panics :
  let fn := fun _ => Some (mkCallErr true false None) in
  retry_Do (mkRetryConfig 40 0 0 None) fn (fun _ => 0) = Panicked 36 /\
  retry_Do (mkRetryConfig 4 1 0 None) fn (fun _ => 0) = Panicked 1.
Proof. vm_compute. done. Qed.
