(* ===== verification/Maintenance.v ===== *)
(** * Compaction

    Models [segment/scan.go] and [maintenance/compactor.go], [scheduler.go]
    and [compaction_worker.go]: the scan of a sealed segment, scoring and
    selection of candidates, and the transaction that copies live records to
    the active segment, relocates them and removes the source file. The
    operations of the store the worker drives (the [diskCompactStore]
    interface) are those of [Store.v]. *)

From stdpp Require Import base list sorting numbers strings gmap.
From Stdlib Require Import ZArith Lia.
From S2P Require Import Prelude Bytes Crc StorageTypes FileIO Record Journal.
From S2P Require Import SegmentFile Pebble Index Allocator Overlay Checkpoint Cache Recover.
From S2P Require Import Framing Store.

Local Open Scope Z_scope.
Local Open Scope go_scope.

(** ** Scan *)

(** [segment.ScannedRecord]; [ReadPayload] returns a copy of [StoredBytes]. *)
Record ScannedRecord := mkScannedRecord {
  sr_ExtentID : Z; sr_Generation : Z; sr_Offset : Z; sr_StoredLen : Z; sr_LogicalLen : Z;
  sr_Codec : Z; sr_StoredBytes : list Z
}.

(** The loop of [ScanSegmentRecords] from offset [off]. Every round advances
    by at least 42 bytes, so the length of the file is enough fuel. *)
Fixpoint scan_loop (fuel : nat) (data : list Z) (off : nat) : list ScannedRecord :=
  match fuel with
  | O => []
  | S fuel =>
      if (length data <? off + RecordHeaderSize)%nat then [] else
      let magic := get_be off 4 data in
      if magic =? BatchCommitMagic then scan_loop fuel data (off + BatchCommitSize) else
      if negb (magic =? RecordMagic) then [] else
      match RecordHeader_Decode (field off RecordHeaderSize data) with
      | Err _ => []
      | Ok h =>
          let indexBytes := (Z.to_nat (h_FrameCount h) * FrameIndexEntrySize)%nat in
          let totalStored := Z.to_nat (h_StoredLen h) in
          let framing := (RecordHeaderSize + indexBytes + totalStored + RecordTrailerSize)%nat in
          if (length data <? off + framing)%nat then [] else
          let stored := field (off + RecordHeaderSize + indexBytes) totalStored data in
          let rest := scan_loop fuel data (off + framing) in
          if 0 <? h_FrameCount h then
            mkScannedRecord (h_ExtentID h) (h_Generation h) (Z.of_nat off) (h_StoredLen h)
              (h_LogicalLen h) (h_Codec h) stored :: rest
          else rest
      end
  end.

(** [ScanSegmentRecords] of a file's contents *)
Definition ScanSegmentRecords (data : list Z) : list ScannedRecord :=
  scan_loop (length data) data SegmentHeaderSize.

(** ** Candidates *)

Record CompactionCandidate := mkCandidate {
  cc_SegmentID : Z; cc_RecordCount : Z; cc_DeadBytes : Z; cc_LiveBytes : Z;
  cc_DeadRecordRatio : float64; cc_Score : float64
}.

(** [CompactionCandidate.Eligible] *)
Definition Eligible (c : CompactionCandidate) : bool :=
  let total := i64 (cc_DeadBytes c + cc_LiveBytes c) in
  if total <=? 0 then false else
  let deadRatio := f64_div (f64 (cc_DeadBytes c)) (f64 total) in
  f64_leb (f64_lit 3 10) deadRatio || f64_leb (f64_lit 4 10) (cc_DeadRecordRatio c)
  || ((0 <? cc_DeadBytes c) && (cc_LiveBytes c =? 0)).

(** [CompactionCandidate.ScoreWith] *)
Definition ScoreWith (age pressure health : float64) (c : CompactionCandidate) : CompactionCandidate :=
  let total := f64 (i64 (cc_DeadBytes c + cc_LiveBytes c)) in
  mkCandidate (cc_SegmentID c) (cc_RecordCount c) (cc_DeadBytes c) (cc_LiveBytes c) (cc_DeadRecordRatio c)
    (if f64_leb total (f64 0) then f64 0
     else f64_mul (f64_mul (f64_mul (f64_div (f64 (cc_DeadBytes c)) total) age) pressure) health).

(** ** Scheduler *)

(** [sort.Slice] with the comparator of [Select], whose calls also set the
    scores, is an argument [order] of the operations below, since the order of
    equal scores is left open: on a list [l] it gives some arrangement in which
    no candidate precedes one of higher score. *)
Definition arranges (order : list CompactionCandidate -> list CompactionCandidate)
    (l : list CompactionCandidate) : Prop :=
  order l ≡ₚ l /\ StronglySorted (fun a b => f64_ltb (cc_Score a) (cc_Score b) = false) (order l).

(** The selection loop of [Select]. *)
Fixpoint select_loop (queued : list Z) (maxCandidates : Z) (out candidates : list CompactionCandidate) :
    list CompactionCandidate :=
  match candidates with
  | [] => out
  | c :: rest =>
      if maxCandidates <=? Z.of_nat (length out) then out else
      if negb (Eligible c) then select_loop queued maxCandidates out rest else
      if bool_decide (cc_SegmentID c ∈ queued) then select_loop queued maxCandidates out rest else
      select_loop queued maxCandidates (out ++ [c]) rest
  end.

(** [Scheduler.Select] *)
Definition Select (order : list CompactionCandidate -> list CompactionCandidate) (queued : list Z)
    (candidates : list CompactionCandidate) (maxCandidates : Z) (age pressure health : float64) :
    list CompactionCandidate :=
  select_loop queued maxCandidates [] (order (map (ScoreWith age pressure health) candidates)).

(** [Scheduler.Track] and [Scheduler.Release] on the list of queued segments *)
Definition Track (segID : Z) (queued : list Z) : list Z := queued ++ [segID].

Fixpoint Release (segID : Z) (queued : list Z) : list Z :=
  match queued with
  | [] => []
  | q :: rest => if q =? segID then rest else q :: Release segID rest
  end.

(** ** The worker *)

Section Worker.
Context {DB : Type} `{KV : PebbleKV DB} `{FL : FrameLib} (cfg : Config).

Abbreviation St := (Store DB).

(** [Store.SealedSegments]: the segments with an encoded footer, by id *)
Definition SealedSegments (s : St) : list Z :=
  List.filter (fun id => match s_dir s !! id with
                         | Some f => bool_decide (hasEncodedSegmentFooter f = Ok true)
                         | None => false
                         end)
    (merge_sort Z.le (map fst (map_to_list (s_dir s)))).

(** [latestGenerations]: an error gives an empty map *)
Definition latestGenerations (s : St) : gmap Z Z :=
  match (ListExtents s).2 with
  | Ok exts => le_Generation <$> exts
  | Err _ => ∅
  end.

(** [isLive] of the worker *)
Definition isLive (s : St) (srcID ext gen : Z) : bool :=
  match (Stat ext gen s).2 with
  | Err _ => false
  | Ok v =>
      if (v_State v =? ExtentTombstoned) || (v_State v =? ExtentCorrupt) then false
      else v_SegmentID v =? srcID
  end.

(** The liveness test of [score] and [compactSegment]: the generations are
    those of the start, the location that of the moment. *)
Definition live_record (latest : gmap Z Z) (srcID : Z) (s : St) (rec : ScannedRecord) : bool :=
  match latest !! sr_ExtentID rec with
  | Some lg => if lg =? sr_Generation rec then isLive s srcID (sr_ExtentID rec) (sr_Generation rec) else false
  | None => false
  end.

(** [score] *)
Definition score (s : St) (id : Z) : option CompactionCandidate :=
  match open_segment (s_dir s) id with
  | Err _ => None
  | Ok _ =>
      let records := ScanSegmentRecords (default [] (s_dir s !! id)) in
      let latest := latestGenerations s in
      let '(dead, live, deadRecs) :=
        fold_left (fun '(dead, live, n) rec =>
            if live_record latest id s rec then (dead, i64 (live + sr_StoredLen rec), n)
            else (i64 (dead + sr_StoredLen rec), live, n + 1))
          records (0, 0, 0) in
      let total := Z.of_nat (length records) in
      let ratio := if 0 <? total then f64_div (f64 deadRecs) (f64 total) else f64 0 in
      let c := mkCandidate id total dead live ratio (f64 0) in
      Some (if 0 <? total then ScoreWith (f64 1) (f64 1) (f64 1) c else c)
  end.

(** The copy loop of [Compactor.Compact]; [evs n] is the fate of the [n]-th
    append. *)
Fixpoint compact_copy (evs : nat -> env) (live : St -> ScannedRecord -> bool)
    (records : list ScannedRecord) (relocs : list Reloc) : M (DB := DB) (list Reloc) :=
  match records with
  | [] => ret relocs
  | rec :: records =>
      do! s := @get DB in
      if negb (live s rec) then compact_copy evs live records relocs else
      do! loc := AppendRecord cfg (evs (length relocs)) (sr_ExtentID rec) (sr_Generation rec)
                   (sr_StoredBytes rec) (sr_Codec rec) in
      compact_copy evs live records (relocs ++ [loc])
  end.

(** [Compactor.Compact], with no [finishSealed]: the number copied *)
Definition Compact (evs : nat -> env) (live : St -> ScannedRecord -> bool) (records : list ScannedRecord) :
    M (DB := DB) Z :=
  do! relocs := compact_copy evs live records [] in
  do! _ := match relocs with [] => ret tt | _ => Relocate relocs end in
  ret (Z.of_nat (length relocs)).

(** [compactSegment]: the outcome is whether the source file is gone;
    [remove] is the error of [os.Remove] *)
Definition compactSegment (evs : nat -> env) (remove : option err) (id : Z) (s : St) : St * bool :=
  match open_segment (s_dir s) id with
  | Err _ => (s, false)
  | Ok _ =>
      let records := ScanSegmentRecords (default [] (s_dir s !! id)) in
      let latest := latestGenerations s in
      let (s, r) := Compact evs (live_record latest id) records s in
      match r, remove with
      | Ok _, None => (set_dir (delete id (s_dir s)) s, true)
      | _, _ => (s, false)
      end
  end.

(** [compactOne] with at most one segment per pass: the scheduler's queue
    holds the segment while it is compacted. *)
Definition compactOne (order : list CompactionCandidate -> list CompactionCandidate)
    (evs : nat -> env) (remove : option err) (queued : list Z) (s : St) : list Z * St :=
  let candidates := omap (score s) (SealedSegments s) in
  fold_left (fun '(queued, s) c =>
      let queued := Track (cc_SegmentID c) queued in
      let s := (compactSegment evs remove (cc_SegmentID c) s).1 in
      (Release (cc_SegmentID c) queued, s))
    (Select order queued candidates 1 (f64 1) (f64 1) (f64 1)) (queued, s).
End Worker.
