(* ===== verification/CompactionProofs.v ===== *)
(** * Compaction keeps what it copies

    [AppendRecord] commits its payload as a PUT of the same extent would, and
    [Relocate] confirms the locations it returned, so [Compact] leaves the
    abstract contents of the store as they were and the copied extents
    outside the source segment. *)

From stdpp Require Import base list numbers strings gmap.
From Stdlib Require Import ZArith Lia.
From S2P Require Import Prelude Bytes Crc StorageTypes FileIO Record Journal SegmentFile Pebble Index Allocator Overlay Checkpoint Cache Recover SegmentLog LogParse Framing FramingProofs Store StoreProofs Durability Restart StoreSpec Maintenance.

(** * What a segment scan finds

    [ScanSegmentRecords] against the abstract log of [SegmentLog.v]: the
    data records of every batch up to the first INDEX_SAFE marker. *)

Local Open Scope Z_scope.
Local Open Scope go_scope.

(** ** The records of a log *)

Definition scanned_at (off : Z) (r : log_record) : ScannedRecord :=
  let h := lr_header r in
  mkScannedRecord (h_ExtentID h) (h_Generation h) off (h_StoredLen h) (h_LogicalLen h) (h_Codec h) (lr_stored r).

(** Records without frames, the delete records, are left out. *)
Fixpoint scanned_batch (off : Z) (recs : list log_record) : list ScannedRecord :=
  match recs with
  | [] => []
  | r :: recs =>
      let rest := scanned_batch (off + lr_framing r) recs in
      match lr_index r with [] => rest | _ => scanned_at off r :: rest end
  end.

Fixpoint scanned_log (off : Z) (es : list log_entry) : list ScannedRecord :=
  match es with
  | [] => []
  | LBatch recs seq :: es => scanned_batch off recs ++ scanned_log (off + entry_size (LBatch recs seq)) es
  | LSafe _ :: _ => []
  end.

(** Bytes behind the log that end a scan: too few, or no entry. *)
Definition scan_end (tail : list Z) : Prop :=
  (length tail < RecordHeaderSize)%nat \/
  (get_be 0 4 tail <> BatchCommitMagic /\ get_be 0 4 tail <> RecordMagic).

Lemma get_be_app_r pre n l : get_be (length pre) n (pre ++ l) = get_be 0 n l.
Proof. unfold get_be. by rewrite <- (Nat.add_0_r (length pre)), field_app_r at 1. Qed.

Lemma segment_scan_stops fuel pre tail : scan_end tail -> scan_loop fuel (pre ++ tail) (length pre) = [].
Proof.
  intros H. destruct fuel as [|fuel]; [done|]. cbn [scan_loop]. rewrite length_app, get_be_app_r.
  destruct (Nat.ltb_spec (length pre + length tail) (length pre + RecordHeaderSize)) as [|Hl]; [done|].
  destruct H as [H|[H1 H2]]; [lia|]. by rewrite (proj2 (Z.eqb_neq _ _) H1), (proj2 (Z.eqb_neq _ _) H2).
Qed.

Lemma scan_commit fuel pre b rest :
  BatchCommit_wf b ->
  scan_loop (S fuel) (pre ++ batch_commit_bytes b ++ rest) (length pre) =
    if (length (batch_commit_bytes b ++ rest) <? RecordHeaderSize)%nat then []
    else scan_loop fuel ((pre ++ batch_commit_bytes b) ++ rest) (length (pre ++ batch_commit_bytes b)).
Proof.
  intros W. cbn [scan_loop]. rewrite length_app, get_be_app_r, commit_magic by done.
  destruct (Nat.ltb_spec (length pre + length (batch_commit_bytes b ++ rest)) (length pre + RecordHeaderSize)),
    (Nat.ltb_spec (length (batch_commit_bytes b ++ rest)) RecordHeaderSize); try lia; [done|].
  rewrite Z.eqb_refl, length_app, length_batch_commit_bytes. by rewrite <- app_assoc.
Qed.

Lemma scan_record fuel pre r rest :
  lr_wf r ->
  scan_loop (S fuel) (pre ++ lr_bytes r ++ rest) (length pre) =
    let more := scan_loop fuel ((pre ++ lr_bytes r) ++ rest) (length (pre ++ lr_bytes r)) in
    match lr_index r with [] => more | _ => scanned_at (Z.of_nat (length pre)) r :: more end.
Proof.
  intros W. cbn [scan_loop]. rewrite length_app, get_be_app_r.
  pose proof (length_lr_bytes r) as Hlen. unfold lr_framing in Hlen.
  assert (length (lr_bytes r) = 67 + 13 * length (lr_index r) + length (lr_stored r))%nat as Hn by lia.
  rewrite length_app. destruct (Nat.ltb_spec (length pre + (length (lr_bytes r) + length rest))
    (length pre + RecordHeaderSize)) as [Hs|_]; [change RecordHeaderSize with 55%nat in Hs; lia|].
  assert (get_be 0 4 (lr_bytes r ++ rest) = RecordMagic) as ->.
  { unfold lr_bytes, record_bytes. rewrite <- app_assoc. apply header_magic; apply W. }
  change (RecordMagic =? BatchCommitMagic) with false. rewrite Z.eqb_refl. cbn [negb]. cbv iota.
  assert (field (length pre) RecordHeaderSize (pre ++ lr_bytes r ++ rest) = header_bytes (lr_header r)) as ->.
  { rewrite <- (Nat.add_0_r (length pre)), field_app_r. unfold lr_bytes, record_bytes.
    rewrite <- !app_assoc, field_app_l by (rewrite length_header_bytes; lia).
    by rewrite <- (length_header_bytes (lr_header r)), field_all. }
  rewrite lr_header_Decode by done. cbv zeta. rewrite (lrw_count r W), (lrw_stored r W), !Nat2Z.id.
  change FrameIndexEntrySize with 13%nat. change RecordTrailerSize with 12%nat.
  change RecordHeaderSize with 55%nat.
  replace (55 + length (lr_index r) * 13 + length (lr_stored r) + 12)%nat with (length (lr_bytes r)) by lia.
  rewrite (proj2 (Nat.ltb_ge _ _)) by lia.
  assert (field (length pre + 55 + length (lr_index r) * 13) (length (lr_stored r))
    (pre ++ lr_bytes r ++ rest) = lr_stored r) as ->.
  { rewrite <- Nat.add_assoc, field_app_r. unfold lr_bytes, record_bytes. rewrite <- !app_assoc.
    replace 55%nat with (length (header_bytes (lr_header r))) by apply length_header_bytes.
    rewrite field_app_r.
    replace (length (lr_index r) * 13)%nat with (length (frame_index_bytes (lr_index r)) + 0)%nat
      by (rewrite length_frame_index_bytes; change FrameIndexEntrySize with 13%nat; lia).
    rewrite field_app_r, field_app_l, field_all by lia. done. }
  rewrite <- app_assoc, length_app. unfold scanned_at. rewrite (lrw_stored r W).
  destruct (lr_index r) as [|e es] eqn:Ei; [done|]. cbn [length].
  by rewrite (proj2 (Z.ltb_lt 0 _)) by lia.
Qed.

Lemma segment_scan_batch fuel pre recs rest :
  Forall lr_wf recs -> (length (batch_bytes recs) <= fuel)%nat ->
  scan_loop fuel (pre ++ batch_bytes recs ++ rest) (length pre) =
  scanned_batch (Z.of_nat (length pre)) recs ++
    scan_loop (fuel - length recs) ((pre ++ batch_bytes recs) ++ rest) (length (pre ++ batch_bytes recs)).
Proof.
  intros W. revert fuel pre. induction W as [|r recs Wr W IH]; intros fuel pre Hf.
  { unfold batch_bytes. cbn [map concat app length scanned_batch]. by rewrite app_nil_r, Nat.sub_0_r. }
  unfold batch_bytes in Hf. cbn [map concat] in Hf. fold (batch_bytes recs) in Hf. rewrite length_app in Hf.
  pose proof (length_lr_bytes r) as Hlen. unfold lr_framing in Hlen.
  unfold batch_bytes. cbn [map concat]. fold (batch_bytes recs).
  destruct fuel as [|fuel]; [lia|]. rewrite <- app_assoc, scan_record by done. cbv zeta.
  rewrite IH by lia. cbn [scanned_batch length Nat.sub].
  rewrite <- (app_assoc pre (lr_bytes r)), (app_assoc pre (lr_bytes r)), <- !app_assoc.
  replace (Z.of_nat (length (pre ++ lr_bytes r))) with (Z.of_nat (length pre) + lr_framing r)
    by (rewrite length_app, Nat2Z.inj_add, length_lr_bytes; lia).
  by destruct (lr_index r).
Qed.

Lemma segment_scan_log stream segID es : forall fuel pre last tail,
  log_ok stream (Z.of_nat (length pre)) last es -> scan_end tail ->
  (length (log_bytes stream segID (Z.of_nat (length pre)) es) <= fuel)%nat ->
  scan_loop fuel (pre ++ log_bytes stream segID (Z.of_nat (length pre)) es ++ tail) (length pre) =
  scanned_log (Z.of_nat (length pre)) es.
Proof.
  induction es as [|e es IH]; intros fuel pre last tail Hok Ht Hf; cbn [log_ok log_bytes app] in *.
  { cbn [scanned_log]. by apply segment_scan_stops. }
  destruct Hok as [He Hok]. rewrite length_app in Hf.
  pose proof (length_entry_bytes stream segID (Z.of_nat (length pre)) e) as Hle.
  destruct e as [recs seq|seq]; cbn [scanned_log].
  - pose proof He as (_ & _ & _ & Hne & W & _ & _ & Hcnt). cbn [entry_bytes] in *.
    rewrite length_app in Hf. rewrite <- !app_assoc, segment_scan_batch by (done || lia). f_equal.
    set (b := batch_commit stream segID (Z.of_nat (length pre)) recs seq) in *.
    pose proof (length_batch_commit_bytes b) as Hcb. change BatchCommitSize with 42%nat in Hcb.
    set (pre2 := (pre ++ batch_bytes recs) ++ batch_commit_bytes b) in *.
    assert (Z.of_nat (length pre2) = Z.of_nat (length pre) + entry_size (LBatch recs seq)) as Hp2.
    { unfold pre2. rewrite !length_app, Hcb, !Nat2Z.inj_add, length_batch_bytes. cbn [entry_size]. lia. }
    assert (length recs <= length (batch_bytes recs))%nat as Hlr.
    { unfold batch_bytes. clear. induction recs as [|r recs IHr]; [done|]. cbn [map concat length].
      rewrite length_app. pose proof (length_lr_bytes r) as Hl. unfold lr_framing in Hl. lia. }
    destruct (fuel - length recs)%nat as [|fuel'] eqn:Ef; [lia|].
    rewrite scan_commit by (eapply commit_wf; exact He).
    rewrite <- Hp2 in *. fold pre2.
    specialize (IH fuel' pre2 _ tail Hok Ht).
    destruct (Nat.ltb_spec (length (batch_commit_bytes b ++ log_bytes stream segID (Z.of_nat (length pre2)) es ++ tail))
      RecordHeaderSize) as [Hs|_]; [|apply IH; lia].
    rewrite <- IH; [|lia]. rewrite !length_app in Hs. change RecordHeaderSize with 55%nat in Hs.
    destruct fuel'; [done|]. cbn [scan_loop].
    by rewrite (proj2 (Nat.ltb_lt (length (pre2 ++ _)) _))
      by (rewrite !length_app; change RecordHeaderSize with 55%nat; lia).
  - cbn [entry_bytes]. rewrite <- app_assoc. apply segment_scan_stops. right.
    assert (safe_seq_ok seq) as Hs by (destruct He as (_ & _ & ?); done).
    rewrite (marker_magic (index_safe_record seq)) by (by apply marker_wf).
    pose proof (marker_high seq Hs) as Hh.
    change (cr_Seq (index_safe_record seq)) with seq.
    unfold BatchCommitMagic, RecordMagic. lia.
Qed.

(** The scan of a whole file. *)
Lemma scan_exact stream segID hdr es tail :
  length hdr = SegmentHeaderSize -> log_ok stream 22 0 es -> scan_end tail ->
  ScanSegmentRecords (hdr ++ log_bytes stream segID 22 es ++ tail) = scanned_log 22 es.
Proof.
  intros Hh Hok Ht. unfold ScanSegmentRecords. rewrite <- Hh.
  assert (Z.of_nat (length hdr) = 22) as E by (by rewrite Hh). rewrite <- E in *.
  eapply segment_scan_log; [done|done|]. rewrite !length_app. lia.
Qed.

Section Append.
Context {DB : Type} `{KL : PebbleLaws DB} `{FLaws : FrameLaws} (cfg : Config).
Context (encKey : option (list Z)) (keyID : Z).
Let stream := c_StreamID cfg.

(** ** The apply queue *)

(** What [enqueueApply] may change: the queue, or the index. *)
Lemma enqueueApply_core ev muts (s : Store DB) :
  quiet ev -> let s' := (enqueueApply cfg ev muts s).1 in
  same_core s s' /\ s_closing s' = s_closing s /\ s_locCache s' = s_locCache s /\
  (s_index s' = s_index s \/ put_all (s_index s) muts = Ok (s_index s')).
Proof.
  intros (Qf & _). unfold enqueueApply. destruct (c_disableAsyncApply cfg).
  { cbn. split; [by repeat split|]. split; [done|]. split; [done|]. by left. }
  rewrite Qf, bindM_check, bindM_get. destruct (_ <? _)%nat.
  { cbn. split; [by repeat split|]. split; [done|]. split; [done|]. by left. }
  unfold applyNow. rewrite bindM_get. destruct (put_all_total muts (s_index s)) as [ix E].
  rewrite E, bindM_lift. cbn. split; [by repeat split|]. split; [done|]. split; [done|]. by right.
Qed.

(** ** One append *)

(** The location [AppendRecord] returns, as an index value. *)
Definition reloc_value (l : Reloc) : Value :=
  mkValue (rl_SegmentID l) (rl_Offset l) (rl_StoredLen l) (rl_LogicalLen l) ExtentDurable (rl_Checksum l).

(** An allocator after one record of [n] bytes, its commit included. *)
Record appended (n : Z) (a a' : Allocator) : Prop := mkAppended {
  ap_segment : a_segmentID a' = a_segmentID a;
  ap_offset : a_offset a' = a_offset a + n;
  ap_limit : a_maxSegmentBytes a' = a_maxSegmentBytes a;
  ap_count : a_recordCount a' = a_recordCount a + 1;
  ap_records : a_maxRecords a' = a_maxRecords a
}.

(** [AppendRecord] leaves what a commit of the pending write leaves, the apply
    queue apart. *)
Lemma AppendRecord_run ev e g data codec stored entries (s : Store DB) hdr es :
  let pw := put_pending keyID e g codec data stored entries in
  let r := mkLogRecord (put_header keyID e g codec data stored entries) entries stored in
  let loc := mkReloc e g (a_segmentID (s_alloc s)) (a_offset (s_alloc s))
               (u32 (Z.of_nat (length stored))) (u32 (Z.of_nat (length data))) (checksumOf data) in
  quiet ev -> store_ok cfg s hdr es -> lr_wf r -> s_closing s = false ->
  active_key cfg = Ok (encKey, keyID) ->
  BuildFramedRecord data DefaultFrameSize (codec =? CompressionZstd) encKey (ev_nonce ev)
    = Ok (stored, entries, if codec =? CompressionZstd then CompressionZstd else CompressionNone) ->
  FrameIndex_Encode entries (replicate (length entries * FrameIndexEntrySize) 0)
    = Ok (frame_index_bytes entries, CRC32C (frame_index_bytes entries)) ->
  batch_fits (s_alloc s) [pw] = true -> s_streamSeq s + 1 < 2 ^ 62 ->
  exists sc s', commitBatch cfg ev [pw] s = (sc, Ok (place_all (a_segmentID (s_alloc s)) (a_offset (s_alloc s))
                                                        (s_streamSeq s) [pw])) /\
    AppendRecord cfg ev e g data codec s = (s', Ok loc) /\
    same_core sc s' /\ s_closing s' = false /\ s_locCache s' = s_locCache s /\
    appended (lr_framing r + 42) (s_alloc s) (s_alloc s') /\
    (s_index s' = s_index sc \/
     put_all (s_index sc) [mkMutation e g (reloc_value loc)] = Ok (s_index s')).
Proof.
  intros pw r loc Hq O W Hcl Ka E1 E2 Hfit Hseq.
  assert (pw_ok pw r) as Hp1 by (by constructor).
  assert (Forall2 pw_ok [pw] [r]) as Hpw by (apply Forall2_cons_2; [done|apply Forall2_nil_2]).
  assert (0 <= s_streamSeq s) by (destruct O; lia).
  destruct (commitBatch_run cfg ev s hdr es [pw] [r] Hq O Hpw ltac:(done) Hfit) as
    (a & Ha & Wa & Ia & (offs & a1 & o & R1 & R2) & EC); [cbn [length]; lia|cbn [length]; lia|].
  eexists. destruct O as [Wal Hh _ Hf Ht Hlog Hsq Hp Hfl Hr].
  pose proof (pw_ok_framing pw r Hp1) as Hfr. unfold pw_framing in Hfr.
  set (id := a_segmentID (s_alloc s)) in *. set (off := a_offset (s_alloc s)) in *.
  assert (file_size (hdr ++ log_bytes stream id 22 es) = off) as Hsz.
  { rewrite (file_size_hdr_log stream id hdr es Hh). by rewrite Ht. }
  cbn [map reserve_all] in R1. unfold pw_request at 1 in R1.
  destruct (Reserve (s_alloc s) (pw_framing pw) (pw_extentID pw) (pw_storedLen pw)) as [[off1 ar]|] eqn:ER;
    [|done]. rewrite bind_Ok in R1. cbn in R1. injection R1 as <- <-.
  assert (off1 = off /\ a_offset ar = off + lr_framing r /\ a_segmentID ar = id) as (-> & Har & Hir).
  { unfold Reserve in ER. ok_inv. injection ER as <- <-. cbn. split; [done|]. split; [|done].
    unfold pw_framing. by rewrite Hfr. }
  assert (appended (lr_framing r + 42) (s_alloc s) a) as Hap.
  { unfold Reserve in ER. ok_inv. injection ER as <-. unfold ReserveCommit in R2. ok_inv.
    injection R2 as _ <-. change (Z.of_nat BatchCommitSize) with 42. constructor; cbn; try done.
    unfold pw_framing. rewrite Hfr. lia. }
  unfold AppendRecord. rewrite (bindM_ok enter _ s s tt) by (unfold enter; rewrite bindM_get, Hcl; done).
  rewrite Ka, bindM_lift, E1, bindM_lift. cbv zeta.
  change (u32 (Z.of_nat RecordHeaderSize + u32 (Z.of_nat (length entries) * Z.of_nat FrameIndexEntrySize)
    + u32 (Z.of_nat (length stored)) + Z.of_nat RecordTrailerSize))
    with (RecordFraming (u32 (Z.of_nat (length stored))) DefaultFrameSize (Z.of_nat (length entries))).
  assert (RecordFraming (u32 (Z.of_nat (length stored))) DefaultFrameSize (Z.of_nat (length entries))
    = pw_framing pw) as ->.
  { unfold pw_framing. pose proof (lrw_count r W) as Hc. cbn [r lr_header lr_index put_header h_FrameCount] in Hc.
    cbn [pw put_pending pw_storedLen pw_frameSize pw_header put_header h_FrameCount]. by rewrite Hc. }
  change (Reserve (s_alloc s) (pw_framing pw) e (u32 (Z.of_nat (length stored))) = Ok (off, ar)) in ER.
  rewrite (bindM_ok _ _ s (set_alloc ar s) off)
    by (unfold reserve_append; rewrite bindM_get, ER, bindM_modify; done).
  stepM. cbn [s_alloc set_alloc s_streamSeq]. rewrite R2. stepM. stepM. stepM.
  rewrite Ia, E2. stepM.
  change (mkRecordHeader RecordMagic FormatVersion RecordPut e g (u32 (Z.of_nat (length data)))
    (u32 (Z.of_nat (length stored))) codec keyID (u16 DefaultFrameSize) (u16 (Z.of_nat (length entries)))
    (checksumOf data) 0 (CRC32C (frame_index_bytes entries))) with (pw_header pw).
  change (record_buffer (pw_header pw) (frame_index_bytes entries) stored DefaultFrameSize)
    with (record_buffer (pw_header pw) (pw_idxBuf pw) (pw_stored pw) (pw_frameSize pw)).
  rewrite (pw_ok_buffer pw r Hp1). stepM.
  rewrite (wrap_small 64) by (unfold uintw; lia).
  set (f := hdr ++ log_bytes stream id 22 es) in *. set (seq := s_streamSeq s) in *.
  set (s1 := set_streamSeq (seq + 1) _).
  assert (s_dir s1 !! a_segmentID (s_alloc s1) = Some f) as Hf1 by (cbn; by rewrite Ia).
  rewrite (bindM_ok _ _ s1 _ _ (write_active_ok ev Hq 0 off (lr_bytes r) s1 f Hf1 (eq_sym Hsz))).
  change (descriptorCRC _) with (batchDescriptorsCRC (place_all id off seq [pw])).
  rewrite batchDescriptorsCRC_ok, (place_all_descriptors _ _ _ _ [r] Hpw). stepM.
  assert (off + pw_framing pw = file_size (f ++ lr_bytes r)) as ->.
  { rewrite file_size_app, Hsz. unfold file_size. rewrite length_lr_bytes. unfold pw_framing. by rewrite Hfr. }
  assert (mkBatchCommit BatchCommitMagic FormatVersion (c_StreamID cfg) (seq + 1) 1 off
    (file_size (f ++ lr_bytes r)) (CRC32C (descriptors_bytes (batch_descriptors id off [r]))) 0
    = batch_commit stream id off [r] (seq + 1)) as ->.
  { unfold batch_commit, batch_framing. cbn [map foldr length]. rewrite file_size_app, Hsz.
    unfold file_size. by rewrite length_lr_bytes, Z.add_0_r. }
  rewrite BatchCommit_Encode_bytes, drop_ge, app_nil_r by (rewrite length_replicate; done). stepM.
  set (s2 := set_dir _ s1).
  assert (s_dir s2 !! a_segmentID (s_alloc s2) = Some (f ++ lr_bytes r)) as Hf2
    by (cbn; apply lookup_insert_eq).
  rewrite (bindM_ok _ _ s2 _ _ (write_active_ok ev Hq 1 _ _ s2 _ Hf2 eq_refl)).
  pose proof Hq as (_ & _ & Qs & _). rewrite Qs. stepM. stepM. stepM.
  change (mkValue id off (u32 (Z.of_nat (length stored))) (u32 (Z.of_nat (length data))) ExtentDurable
    (checksumOf data)) with (reloc_value loc).
  set (s3 := set_pub _ _).
  pose proof (enqueueApply_core ev [mkMutation e g (reloc_value loc)] s3 Hq) as (Hc & Hcl3 & Hlc & Hix).
  cbv zeta in *. set (s4 := (enqueueApply cfg ev _ s3).1) in *.
  exists (set_alloc (RecordCommit (s_alloc s4) (seq + 1)) s4). split; [exact EC|].
  split; [reflexivity|]. clearbody s4.
  destruct Hc as (C1 & C2 & C3 & C4 & C5 & C6 & C7).
  cbn [s_closing s_locCache s_index set_alloc]. rewrite Hcl3, Hlc. split; [|split; [exact Hcl|split; [done|split; [|exact Hix]]]];
    [|rewrite C1; destruct Hap; by constructor].
  unfold same_core, committed. cbn [s_alloc s_dir s_ckpt s_overlay s_streamSeq s_nextSeg s_pub set_alloc].
  rewrite C1, C2, C3, C4, C5, C6, C7. cbn [length]. split; [done|]. split; [|split; [done|split; [done|]]].
  - cbn [s3 s_dir set_pub set_overlay set_dir s2 s1 set_streamSeq set_alloc s_alloc].
    rewrite Ia, !insert_insert_eq. fold id seq stream. unfold f.
    rewrite log_bytes_app. cbn [log_bytes entry_bytes].
    unfold batch_bytes. cbn [map concat]. by rewrite !app_nil_r, <- !app_assoc, <- Ht.
  - split; [done|]. split; [done|]. cbn [s3 s_pub set_pub set_overlay set_dir s2 s1 set_streamSeq set_alloc].
    pose proof (publish_in_order 0 (mkPublishBatch seq (seq + 1) 1 1) (s_pub s)) as P.
    cbn [pb_remaining pb_previousSeq pb_seq pb_mutations publish_members] in P.
    specialize (P eq_refl Hr Hp ltac:(lia)). fold seq. change (Z.of_nat 1) with 1. rewrite <- P.
    by destruct (publishRecoveryBatch _ _).
Qed.

(** Enough room for a record of [data], however it is framed. *)
Definition append_size (data : list Z) : Z :=
  109 + Z.of_nat (length data) + 41 * (Z.of_nat (length data) / 65536 + 1).

(** What one append does to the store, seen through its specification. *)
Record append_ok (s : Store DB) (A : contents) (e g : Z) (data : list Z) (s' : Store DB) (loc : Reloc) :
    Prop := mkAppendOk {
  ao_inv : inv cfg s';
  ao_represents : represents encKey keyID s' (<[(e, g) := Some data]> A);
  ao_extent : rl_ExtentID loc = e;
  ao_generation : rl_Generation loc = g;
  ao_segment : rl_SegmentID loc = a_segmentID (s_alloc s);
  ao_published : Overlay_Get (s_overlay s') (Key e g) = Some (reloc_value loc);
  ao_overlay : forall k, k <> Key e g -> Overlay_Get (s_overlay s') k = Overlay_Get (s_overlay s) k;
  ao_others : forall e' g', is_u64 e' -> is_u64 g' -> (e', g') <> (e, g) ->
    lookup_value s' e' g' = lookup_value s e' g';
  ao_open : s_closing s' = false;
  ao_alloc : exists n, 0 <= n <= append_size data /\ appended n (s_alloc s) (s_alloc s');
  ao_seq : s_streamSeq s' = s_streamSeq s + 1;
  ao_files : forall id, id <> a_segmentID (s_alloc s) -> s_dir s' !! id = s_dir s !! id
}.

Definition append_room (s : Store DB) (size count : Z) : Prop :=
  a_offset (s_alloc s) + size <= a_maxSegmentBytes (s_alloc s) < 2 ^ 62 /\
  a_recordCount (s_alloc s) + count <= a_maxRecords (s_alloc s) /\ s_streamSeq s + count < 2 ^ 62.

Lemma AppendRecord_sound ev e g data codec s A :
  key_config cfg encKey keyID -> quiet ev -> nonces_ok (ev_nonce ev) -> is_u64 e -> is_u64 g ->
  bytes_wf data -> Z.of_nat (length data) <= 2 ^ 31 -> is_u8 codec -> s_closing s = false ->
  inv cfg s -> represents encKey keyID s A -> append_room s (append_size data) 1 ->
  exists s' loc, AppendRecord cfg ev e g data codec s = (s', Ok loc) /\ append_ok s A e g data s' loc.
Proof.
  intros [Ka Ku Ki Kr] Hq Hn He Hg Hw Hl Hc Hcl Hi R (Hroom & Hcnt & Hseq).
  destruct (framed_put_ok encKey keyID (ev_nonce ev) (codec =? CompressionZstd) codec e g data Ku Ki Hn He Hg Hw Hl Hc)
    as (stored & entries & E1 & E2 & W & F & Hne & Hns).
  set (pw := put_pending keyID e g codec data stored entries).
  set (r := mkLogRecord (put_header keyID e g codec data stored entries) entries stored) in *.
  set (req := mkWriteRequest e g data).
  assert (carries encKey keyID req pw r) as Hcar by exact (put_pending_carries _ _ req codec stored entries _ W F).
  assert (member encKey keyID (OPut req) pw r) as Hm by (split; [apply Hcar|done]).
  assert (lr_framing r + 42 <= append_size data) as Hsize.
  { unfold lr_framing, append_size. cbn [r lr_index lr_stored]. lia. }
  pose proof (lr_framing_pos r) as Hpos.
  pose proof Hi as (hdr & es1 & es2 & seq0 & D). pose proof (du_ok _ _ _ _ _ _ D) as O.
  assert (batch_fits (s_alloc s) [pw] = true) as Hfit.
  { unfold batch_fits, CanReserveBatch, CanReserveRecords.
    rewrite (batch_required_sum [pw] [r]) by (apply Forall2_cons_2; [apply Hm|apply Forall2_nil_2]).
    unfold batch_framing. cbn [map foldr length]. rewrite Z.add_0_r.
    pose proof (so_alloc _ _ _ _ O) as [Ho Hrc _].
    destruct (Z.ltb_spec (lr_framing r + 42) 0); [lia|].
    destruct (Z.ltb_spec (a_maxSegmentBytes (s_alloc s)) (a_offset (s_alloc s))); [lia|].
    destruct (Z.ltb_spec (a_maxRecords (s_alloc s)) (a_recordCount (s_alloc s))); [lia|]. cbn [orb Z.ltb].
    apply andb_true_iff. split; [apply Z.leb_le; lia|]. cbn. apply Z.leb_le. lia. }
  destruct (AppendRecord_run ev e g data codec stored entries s hdr _ Hq O W Hcl Ka E1 E2 Hfit Hseq)
    as (sc & s' & EC & EA & Hcore & Hcl' & _ & Hap & Hix).
  fold pw in EC. eexists s', _. split; [exact EA|].
  set (loc := mkReloc e g _ _ _ _ _) in *.
  assert (members encKey keyID [OPut req] [pw] [r]) as Ms by (apply members_cons; [done|apply members_nil]).
  destruct (members_commit_sound cfg encKey keyID ev [OPut req] [pw] [r] s sc
    (place_all (a_segmentID (s_alloc s)) (a_offset (s_alloc s)) (s_streamSeq s) [pw]) A Hq ltac:(done) Ms Hfit)
    as [Isc Rsc]; [lia|cbn; lia|cbn; lia|exact EC|done|exact R|].
  assert (batch_framing [r] = lr_framing r) as Hbf by (unfold batch_framing; cbn; lia).
  destruct (commit_durable cfg ev s hdr es1 es2 seq0 [pw] [r] Hq D) as
    (s1 & EC1 & _ & Ho1 & Hi1 & _ & _ & _ & _ & Hd1);
    [apply Forall2_cons_2; [apply Hm|apply Forall2_nil_2]|done|done|lia|cbn; lia|cbn; lia|].
  rewrite EC in EC1. injection EC1 as <-.
  pose proof Hcore as (C1 & C2 & C3 & C4 & C5 & C6 & C7).
  assert (Overlay_Get (s_overlay s') (Key e g) = Some (reloc_value loc)) as Hov.
  { rewrite C4, Ho1. unfold publish_overlay. cbn [place_all fold_left]. rewrite Overlay_Get_Put.
    by rewrite bool_decide_eq_true_2. }
  assert (forall e' g', is_u64 e' -> is_u64 g' -> lookup_value s' e' g' = lookup_value sc e' g') as Hsame.
  { intros e' g' He' Hg'. change (look (s_overlay s') (s_index s') e' g' = look (s_overlay sc) (s_index sc) e' g').
    rewrite C4. destruct Hix as [->|Hix]; [done|].
    eapply (apply_look _ (s_index sc)); [|exact Hix|done|done|done].
    apply Forall_cons. split; [|constructor]. split.
    - split; [done|]. split; [done|].
      apply (pw_value_wf pw r (a_segmentID (s_alloc s)) (a_offset (s_alloc s)) (s_streamSeq s)); [apply Hm| |].
      + pose proof (du_id _ _ _ _ _ _ D). unfold uintw. lia.
      + pose proof (so_alloc _ _ _ _ O) as [Ho _ _]. unfold is_i64. lia.
    - unfold look. cbn [m_ExtentID m_Generation m_Value]. rewrite <- C4. by rewrite Hov. }
  assert (forall e' g', is_u64 e' -> is_u64 g' -> (e', g') <> (e, g) -> lookup_value s' e' g' = lookup_value s e' g')
    as Hoth.
  { intros e' g' He' Hg' Hne'. rewrite Hsame by done. unfold lookup_value. rewrite Ho1, Hi1.
    unfold publish_overlay. cbn [place_all fold_left]. rewrite Overlay_Get_Put, bool_decide_eq_false_2; [done|].
    intros E. apply Key_inj in E as [E3 E4]; [|done..]. cbn in E3, E4. congruence. }
  destruct Isc as (hdr' & es1' & es2' & seq0' & D').
  constructor; try done.
  - exists hdr', es1', es2', seq0'. by eapply same_core_durable.
  - eapply represents_step; [exact Rsc|rewrite C2; intros id f Hf; exists []; by rewrite app_nil_r|].
    intros e' g' He' Hg'. rewrite Hsame by done. destruct (lookup_value sc e' g'); [by left|done].
  - intros k Hk. rewrite C4, Ho1. unfold publish_overlay. cbn [place_all fold_left].
    rewrite Overlay_Get_Put, bool_decide_eq_false_2; [done|]. intros E. by apply Hk.
  - eexists. split; [|exact Hap]. change (0 <= lr_framing r + 42 <= append_size data). lia.
  - rewrite C5. destruct (commitBatch_run cfg ev s hdr (es1 ++ es2) [pw] [r] Hq O) as (a & _ & _ & _ & _ & E3);
      [apply Forall2_cons_2; [apply Hm|apply Forall2_nil_2]|done|done|cbn; lia|cbn; lia|].
    rewrite EC in E3. by injection E3 as ->.
  - intros id Hid. rewrite C2, Hd1. by rewrite lookup_insert_ne.
Qed.
End Append.

(** ** Copy and relocation *)

Section Compact.
Context {DB : Type} `{KL : PebbleLaws DB} `{FLaws : FrameLaws} (cfg : Config).
Context (encKey : option (list Z)) (keyID : Z).
Let stream := c_StreamID cfg.

Definition scanned_key (rec : ScannedRecord) : Z * Z := (sr_ExtentID rec, sr_Generation rec).
Definition reloc_key (l : Reloc) : Z * Z := (rl_ExtentID l, rl_Generation l).

Definition copy_size (records : list ScannedRecord) : Z :=
  foldr Z.add 0 (map (fun rec => append_size (sr_StoredBytes rec)) records).

Record record_fits (rec : ScannedRecord) : Prop := mkRecordFits {
  rf_extent : is_u64 (sr_ExtentID rec);
  rf_generation : is_u64 (sr_Generation rec);
  rf_codec : is_u8 (sr_Codec rec);
  rf_bytes : bytes_wf (sr_StoredBytes rec);
  rf_size : Z.of_nat (length (sr_StoredBytes rec)) <= 2 ^ 31
}.

(** A store in the middle of a copy that began in [s0]. *)
Record copying (s0 : Store DB) (A : contents) (s : Store DB) (relocs : list Reloc) : Prop := mkCopying {
  cp_inv : inv cfg s;
  cp_represents : represents encKey keyID s A;
  cp_open : s_closing s = false;
  cp_active : a_segmentID (s_alloc s) = a_segmentID (s_alloc s0);
  cp_relocs : Forall (fun l => Overlay_Get (s_overlay s) (Key (rl_ExtentID l) (rl_Generation l))
                                 = Some (reloc_value l) /\
                               rl_SegmentID l = a_segmentID (s_alloc s0) /\
                               is_u64 (rl_ExtentID l) /\ is_u64 (rl_Generation l)) relocs;
  cp_others : forall e g, is_u64 e -> is_u64 g -> (e, g) ∉ map reloc_key relocs ->
    lookup_value s e g = lookup_value s0 e g;
  cp_files : forall id, id <> a_segmentID (s_alloc s0) -> s_dir s !! id = s_dir s0 !! id
}.

Lemma copying_start s A :
  inv cfg s -> represents encKey keyID s A -> s_closing s = false -> copying s A s [].
Proof. intros. constructor; try done. Qed.

Lemma append_size_pos data : 0 < append_size data.
Proof.
  unfold append_size. pose proof (Z.div_pos (Z.of_nat (length data)) 65536 ltac:(lia) ltac:(lia)). lia.
Qed.

Lemma copy_size_pos records : 0 <= copy_size records.
Proof.
  unfold copy_size. induction records as [|r records IH]; [done|]. cbn [map foldr].
  pose proof (append_size_pos (sr_StoredBytes r)). lia.
Qed.

(** Copied extents are out of the source segment. *)
Lemma relocated_lookup s0 A s relocs k :
  copying s0 A s relocs -> k ∈ map reloc_key relocs ->
  exists v, lookup_value s k.1 k.2 = Ok v /\ v_SegmentID v = a_segmentID (s_alloc s0) /\
    v_State v = ExtentDurable.
Proof.
  intros C Hk. apply list_elem_of_fmap in Hk as (l & -> & Hl).
  destruct ((proj1 (Forall_forall _ _) (cp_relocs _ _ _ _ C)) l Hl) as (Ho & Hs & _).
  exists (reloc_value l). unfold lookup_value, reloc_key. cbn [fst snd]. by rewrite Ho.
Qed.

(** Until a record is copied, the liveness test answers as at the start; then
    it answers no. *)
Lemma live_copying s0 A s relocs latest src rec :
  copying s0 A s relocs -> src <> a_segmentID (s_alloc s0) -> record_fits rec -> s_closing s0 = false ->
  live_record latest src s rec =
    if bool_decide (scanned_key rec ∈ map reloc_key relocs) then false else live_record latest src s0 rec.
Proof.
  intros C Hsrc F H0. unfold live_record, isLive, Stat.
  rewrite (bindM_ok enter _ s s tt) by (unfold enter; rewrite bindM_get, (cp_open _ _ _ _ C); done).
  rewrite (bindM_ok enter _ s0 s0 tt) by (unfold enter; rewrite bindM_get, H0; done).
  rewrite !bindM_get. unfold lift. cbn [snd]. case_bool_decide as Hin.
  - destruct (relocated_lookup _ _ _ _ _ C Hin) as (v & Hv & Hs & Hd). cbn [scanned_key fst snd] in Hv.
    rewrite Hv, Hd. cbn. rewrite (proj2 (Z.eqb_neq _ _)) by congruence.
    destruct (latest !! _); [|done]. by destruct (_ =? _).
  - destruct F. by rewrite (cp_others _ _ _ _ C) by done.
Qed.

Lemma compact_copy_sound evs latest src s0 A : forall records s relocs,
  key_config cfg encKey keyID -> (forall n, quiet (evs n) /\ nonces_ok (ev_nonce (evs n))) ->
  src <> a_segmentID (s_alloc s0) -> s_closing s0 = false -> copying s0 A s relocs ->
  Forall record_fits records ->
  Forall (fun rec => live_record latest src s0 rec = true ->
            A !! scanned_key rec = Some (Some (sr_StoredBytes rec))) records ->
  append_room s (copy_size records) (Z.of_nat (length records)) ->
  exists s' relocs', compact_copy cfg evs (live_record latest src) records relocs s = (s', Ok relocs') /\
    copying s0 A s' relocs' /\
    (forall k, k ∈ map reloc_key relocs -> k ∈ map reloc_key relocs') /\
    Forall (fun rec => live_record latest src s0 rec = true -> scanned_key rec ∈ map reloc_key relocs') records.
Proof.
  induction records as [|rec records IH]; intros s relocs K Q Hsrc H0 C F Hd R.
  { exists s, relocs. split; [done|]. split; [done|]. split; [done|constructor]. }
  apply Forall_cons in F as [Fr F]. apply Forall_cons in Hd as [Hr Hd].
  pose proof (append_size_pos (sr_StoredBytes rec)) as Hpos. pose proof (copy_size_pos records) as Hpos2.
  destruct R as (R1 & R2 & R3). cbn [copy_size map foldr length] in R1, R2, R3.
  fold (copy_size records) in R1.
  cbn [compact_copy]. rewrite bindM_get.
  destruct (live_record latest src s rec) eqn:L; cbn [negb].
  - rewrite (live_copying _ _ _ _ _ _ _ C Hsrc Fr H0) in L. case_bool_decide as Hfresh; [done|]. specialize (Hr L).
    destruct (Q (length relocs)) as [Qq Qn]. pose proof Fr as [Fe Fg Fc Fb Fl].
    destruct (AppendRecord_sound cfg encKey keyID (evs (length relocs)) (sr_ExtentID rec) (sr_Generation rec)
      (sr_StoredBytes rec) (sr_Codec rec) s A K Qq Qn Fe Fg Fb Fl Fc (cp_open _ _ _ _ C) (cp_inv _ _ _ _ C)
      (cp_represents _ _ _ _ C)) as (s1 & loc & E & AO); [split; [lia|split; lia]|].
    rewrite (bindM_ok _ _ _ _ _ E). destruct AO as [I Rp Le Lg Ls Lp Lov Lo Lc (n & Hn & Ap) Lq Lf].
    assert (copying s0 A s1 (relocs ++ [loc])) as C1.
    { destruct C as [CI CR CO CA CL CT CF]. unfold scanned_key in Hr, Hfresh. constructor; try done.
      - by rewrite (insert_id A _ _ Hr) in Rp.
      - destruct Ap. congruence.
      - apply Forall_app. split.
        + eapply Forall_impl; [apply Forall_forall; intros l Hl; exact Hl|]. cbn. intros l Hl.
          pose proof ((proj1 (Forall_forall _ _) CL) l Hl) as (Ho & Hs & He & Hg). split; [|done].
          assert (reloc_key l <> (sr_ExtentID rec, sr_Generation rec)) as Hk.
          { intros Hk. apply Hfresh. rewrite <- Hk. by apply list_elem_of_fmap_2. }
          rewrite Lov; [done|]. intros E'. apply Key_inj in E' as [E3 E4]; [|done..].
          apply Hk. unfold reloc_key. congruence.
        + apply Forall_singleton. rewrite Le, Lg. split; [done|]. split; [congruence|done].
      - intros e g He Hg Hni. rewrite map_app in Hni. apply not_elem_of_app in Hni as [Hn1 Hn2].
        rewrite Lo; [by apply CT|done|done|]. intros Heq. apply Hn2. rewrite Heq. cbn.
        unfold reloc_key. rewrite Le, Lg. by left.
      - intros id Hid. rewrite Lf by congruence. by apply CF. }
    destruct (IH s1 (relocs ++ [loc]) K Q Hsrc H0 C1 F Hd) as (s2 & relocs' & E2 & C2 & Hk2 & Hall).
    { destruct Ap as [A1 A2 A3 A4 A5]. split; [lia|]. split; lia. }
    exists s2, relocs'. split; [exact E2|]. split; [done|]. split.
    + intros k Hk. apply Hk2. rewrite map_app. apply elem_of_app. by left.
    + constructor; [|done]. intros _. apply Hk2. rewrite map_app. apply elem_of_app. right. cbn.
      unfold reloc_key, scanned_key. rewrite Le, Lg. by left.
  - destruct (IH s relocs K Q Hsrc H0 C F Hd) as (s2 & relocs' & E2 & C2 & Hk2 & Hall);
      [split; [lia|split; lia]|].
    exists s2, relocs'. split; [exact E2|]. split; [done|]. split; [done|]. constructor; [|done].
    intros L0. destruct (decide (scanned_key rec ∈ map reloc_key relocs)) as [Hin|Hin]; [by apply Hk2|].
    exfalso. rewrite (live_copying _ _ _ _ _ _ _ C Hsrc Fr H0), bool_decide_eq_false_2 in L by done. congruence.
Qed.

(** Relocating what the appends published changes nothing but the caches. *)
Lemma relocate_all_same relocs : forall s : Store DB,
  o_draining (s_overlay s) = ∅ ->
  Forall (fun l => Overlay_Get (s_overlay s) (Key (rl_ExtentID l) (rl_Generation l)) = Some (reloc_value l)) relocs ->
  let s' := fold_left (fun s r => relocate_one r s) relocs s in
  same_core s s' /\ s_index s' = s_index s /\ s_closing s' = s_closing s.
Proof.
  induction relocs as [|l relocs IH]; intros s Hd F; cbn [fold_left]; [by repeat split|].
  apply Forall_cons in F as [Hl F].
  assert (Overlay_Put (s_overlay s) (Key (rl_ExtentID l) (rl_Generation l)) (reloc_value l) = s_overlay s) as Ho.
  { unfold Overlay_Get in Hl. rewrite Hd, lookup_empty in Hl. unfold Overlay_Put.
    destruct (s_overlay s) as [en dr]. cbn in *. destruct (en !! _) as [w|] eqn:E; [|done].
    injection Hl as ->. by rewrite insert_id. }
  assert (same_core s (relocate_one l s) /\ s_index (relocate_one l s) = s_index s /\
    s_closing (relocate_one l s) = s_closing s) as ((E1 & E2 & E3 & E4 & E5 & E6 & E7) & Ei & Ec).
  { unfold relocate_one. rewrite Hl. cbn [reloc_value v_State]. change (ExtentDurable =? ExtentTombstoned) with false.
    cbv iota. fold (reloc_value l). rewrite Ho. by repeat split. }
  destruct (IH (relocate_one l s)) as ((G1 & G2 & G3 & G4 & G5 & G6 & G7) & Gi & Gc).
  - by rewrite E4.
  - by rewrite E4.
  - unfold same_core. repeat split; congruence.
Qed.

(** [Compact] leaves the contents alone, and what was live in the source is
    found elsewhere. *)
Record compacted (s : Store DB) (A : contents) (live : ScannedRecord -> bool) (records : list ScannedRecord)
    (s' : Store DB) : Prop := mkCompacted {
  cd_inv : inv cfg s';
  cd_represents : represents encKey keyID s' A;
  cd_open : s_closing s' = false;
  cd_active : a_segmentID (s_alloc s') = a_segmentID (s_alloc s);
  cd_files : forall id, id <> a_segmentID (s_alloc s) -> s_dir s' !! id = s_dir s !! id;
  cd_moved : Forall (fun rec => live rec = true -> exists v,
    lookup_value s' (sr_ExtentID rec) (sr_Generation rec) = Ok v /\
    v_SegmentID v = a_segmentID (s_alloc s)) records;
  cd_lookups : forall e g, is_u64 e -> is_u64 g ->
    lookup_value s' e g = lookup_value s e g \/
    exists v, lookup_value s' e g = Ok v /\ v_SegmentID v = a_segmentID (s_alloc s)
}.

Lemma Compact_sound evs latest src records s A :
  key_config cfg encKey keyID -> (forall n, quiet (evs n) /\ nonces_ok (ev_nonce (evs n))) ->
  src <> a_segmentID (s_alloc s) -> s_closing s = false ->
  inv cfg s -> represents encKey keyID s A -> Forall record_fits records ->
  Forall (fun rec => live_record latest src s rec = true ->
            A !! scanned_key rec = Some (Some (sr_StoredBytes rec))) records ->
  append_room s (copy_size records) (Z.of_nat (length records)) ->
  exists s' n, Compact cfg evs (live_record latest src) records s = (s', Ok n) /\
    compacted s A (live_record latest src s) records s'.
Proof.
  intros K Q Hsrc Hcl I R F Hd Hroom.
  destruct (compact_copy_sound evs latest src s A records s [] K Q Hsrc Hcl (copying_start s A I R Hcl) F Hd Hroom)
    as (s1 & relocs & E & C & _ & Hall).
  unfold Compact. rewrite (bindM_ok _ _ _ _ _ E).
  pose proof (cp_inv _ _ _ _ C) as (hdr & es1 & es2 & seq0 & D).
  set (s2 := fold_left (fun s r => relocate_one r s) relocs s1).
  assert (same_core s1 s2 /\ s_index s2 = s_index s1 /\ s_closing s2 = s_closing s1) as (Hc & Hi & Hcl2).
  { apply relocate_all_same; [apply (du_drained _ _ _ _ _ _ D)|].
    eapply Forall_impl; [exact (cp_relocs _ _ _ _ C)|]. cbn. tauto. }
  exists s2, (Z.of_nat (length relocs)). split.
  { rewrite (bindM_ok _ _ s1 s2 tt); [done|]. destruct relocs as [|l relocs]; [done|].
    unfold Relocate. rewrite (bindM_ok enter _ s1 s1 tt); [done|].
    unfold enter. by rewrite bindM_get, (cp_open _ _ _ _ C). }
  pose proof Hc as (E1 & E2 & _ & E4 & _).
  assert (forall e g, lookup_value s2 e g = lookup_value s1 e g) as Hl.
  { intros e g. unfold lookup_value. by rewrite E4, Hi. }
  constructor.
  - exists hdr, es1, es2, seq0. by eapply same_core_durable.
  - intros e g He Hg. rewrite Hl, E2. by apply (cp_represents _ _ _ _ C).
  - rewrite Hcl2. apply (cp_open _ _ _ _ C).
  - rewrite E1. apply (cp_active _ _ _ _ C).
  - intros id Hid. rewrite E2. by apply (cp_files _ _ _ _ C).
  - eapply Forall_impl; [exact Hall|]. cbn. intros rec Hk L.
    destruct (relocated_lookup _ _ _ _ _ C (Hk L)) as (v & Hv & Hs & _). exists v. rewrite Hl. done.
  - intros e g He Hg. rewrite Hl. destruct (decide ((e, g) ∈ map reloc_key relocs)) as [Hin|Hin].
    + right. destruct (relocated_lookup _ _ _ _ _ C Hin) as (v & Hv & Hs & _). by exists v.
    + left. by apply (cp_others _ _ _ _ C).
Qed.
End Compact.

(** * Compacting a segment

    [compactSegment] on a segment whose file is a log in the sense of
    [SegmentLog.v]: what the scan reaches and the index still wants is moved,
    and only then the file is removed. *)

(** ** Records and their places *)

Fixpoint placed_batch (off : Z) (recs : list log_record) : list (Z * log_record) :=
  match recs with
  | [] => []
  | r :: recs => (off, r) :: placed_batch (off + lr_framing r) recs
  end.

Definition placed_entry (off : Z) (e : log_entry) : list (Z * log_record) :=
  match e with LBatch recs _ => placed_batch off recs | LSafe _ => [] end.

Fixpoint placed_log (off : Z) (es : list log_entry) : list (Z * log_record) :=
  match es with
  | [] => []
  | e :: es => placed_entry off e ++ placed_log (off + entry_size e) es
  end.

(** The entries a scan reaches. *)
Fixpoint before_marker (es : list log_entry) : list log_entry :=
  match es with
  | LBatch recs seq :: es => LBatch recs seq :: before_marker es
  | _ => []
  end.

Definition is_data (p : Z * log_record) : bool := match lr_index p.2 with [] => false | _ => true end.

Lemma scanned_batch_placed off recs :
  scanned_batch off recs = map (fun p => scanned_at p.1 p.2) (List.filter is_data (placed_batch off recs)).
Proof.
  revert off. induction recs as [|r recs IH]; intros off; [done|].
  cbn [scanned_batch placed_batch List.filter]. unfold is_data at 1. cbn [snd]. rewrite IH. by destruct (lr_index r).
Qed.

Lemma scanned_log_placed off es :
  scanned_log off es = map (fun p => scanned_at p.1 p.2) (List.filter is_data (placed_log off (before_marker es))).
Proof.
  revert off. induction es as [|[recs seq|seq] es IH]; intros off; [done| |done].
  cbn [scanned_log before_marker placed_log placed_entry].
  by rewrite List.filter_app, map_app, <- IH, scanned_batch_placed.
Qed.

Lemma placed_batch_split off recs o r :
  (o, r) ∈ placed_batch off recs ->
  exists a b, recs = a ++ r :: b /\ o = off + batch_framing a.
Proof.
  revert off. induction recs as [|x recs IH]; intros off H; [by apply elem_of_nil in H|].
  cbn [placed_batch] in H. apply elem_of_cons in H as [[= -> ->]|H].
  - exists [], recs. split; [done|]. unfold batch_framing. cbn. lia.
  - destruct (IH _ H) as (a & b & -> & ->). exists (x :: a), b. split; [done|].
    unfold batch_framing. cbn [map foldr]. lia.
Qed.

Lemma log_end_mono off es : off <= log_end off es.
Proof.
  unfold log_end. assert (0 <= foldr Z.add 0 (map entry_size es)); [|lia].
  induction es as [|e es IH]; [done|]. cbn [map foldr]. pose proof (length_entry_bytes 0 0 0 e). lia.
Qed.

Lemma placed_log_split stream segID last off es o r :
  log_ok stream off last es -> (o, r) ∈ placed_log off es ->
  lr_wf r /\ off <= o < log_end off es /\
  exists pre rest, log_bytes stream segID off es = pre ++ lr_bytes r ++ rest /\ o = off + Z.of_nat (length pre).
Proof.
  revert off last. induction es as [|e es IH]; intros off last Hok H; [by apply elem_of_nil in H|].
  cbn [log_ok placed_log] in *. destruct Hok as [He Hok].
  pose proof (length_entry_bytes stream segID off e) as Hle.
  assert (log_end off (e :: es) = log_end (off + entry_size e) es) as Hend
    by (unfold log_end; cbn [map foldr]; lia).
  pose proof (log_end_mono (off + entry_size e) es) as Hmono.
  apply elem_of_app in H as [H|H].
  - destruct e as [recs seq|seq]; [|by apply elem_of_nil in H]. cbn [placed_entry] in H.
    destruct He as (_ & _ & _ & _ & W & _). destruct (placed_batch_split _ _ _ _ H) as (a & b & -> & ->).
    apply Forall_app in W as [_ W]. apply Forall_cons in W as [W _]. split; [done|].
    pose proof (length_batch_bytes a) as La. rewrite Hend.
    cbn [entry_size] in *. split.
    + assert (batch_framing a + lr_framing r <= batch_framing (a ++ r :: b)) as Hb.
      { rewrite <- !length_batch_bytes. unfold batch_bytes. rewrite map_app, concat_app, length_app. cbn [map concat].
        rewrite length_app. pose proof (length_lr_bytes r). lia. }
      pose proof (lr_framing_pos r). lia.
    + exists (batch_bytes a). eexists. split; [|lia]. cbn [log_bytes entry_bytes].
      unfold batch_bytes at 1. rewrite map_app, concat_app. cbn [map concat]. rewrite <- !app_assoc. reflexivity.
  - destruct (IH _ _ Hok H) as (W & Hb & pre & rest & E & ->). split; [done|]. rewrite Hend.
    assert (0 <= entry_size e) by lia. split; [lia|].
    exists (entry_bytes stream segID off e ++ pre), rest. cbn [log_bytes]. rewrite E, <- app_assoc.
    split; [done|]. rewrite length_app. lia.
Qed.

(** A record below the first marker is one the scan reaches. *)
Lemma placed_before stream last off es o r :
  log_ok stream off last es -> (o, r) ∈ placed_log off es -> o < log_end off (before_marker es) ->
  (o, r) ∈ placed_log off (before_marker es).
Proof.
  revert off last. induction es as [|e es IH]; intros off last Hok H Hlt; [done|].
  cbn [log_ok placed_log] in Hok, H. destruct Hok as [He Hok].
  destruct e as [recs seq|seq]; cbn [before_marker] in *.
  - cbn [placed_log]. apply elem_of_app in H as [H|H]; apply elem_of_app; [by left|right].
    eapply IH; [done|done|]. revert Hlt. unfold log_end. cbn [map foldr]. lia.
  - exfalso. unfold log_end in Hlt. cbn in Hlt. cbn [placed_entry app] in H.
    destruct (placed_log_split stream 0 _ _ _ _ _ Hok H) as (_ & Hb & _).
    cbn [entry_size] in Hb. lia.
Qed.

(** The bytes of a record determine it. *)
Lemma lr_bytes_inj r r' x y : lr_wf r -> lr_wf r' -> lr_bytes r ++ x = lr_bytes r' ++ y -> r = r'.
Proof.
  intros W W' E. unfold lr_bytes, record_bytes in E. rewrite <- !app_assoc in E.
  apply app_inj_1 in E as [E1 E2]; [|by rewrite !length_header_bytes].
  pose proof (lr_header_Decode r W) as D. rewrite E1, (lr_header_Decode r' W') in D. apply Ok_inj in D.
  pose proof (lrw_count r W) as C. pose proof (lrw_count r' W') as C'. rewrite D in C'.
  pose proof (lrw_stored r W) as S. pose proof (lrw_stored r' W') as S'. rewrite D in S'.
  apply app_inj_1 in E2 as [E2 E3]; [|rewrite !length_frame_index_bytes; f_equal; lia].
  apply app_inj_1 in E3 as [E3 _]; [|lia].
  pose proof (FrameIndex_Decode_bytes (lr_index r) (lrw_index r W)) as I.
  rewrite E2, (FrameIndex_Decode_bytes (lr_index r') (lrw_index r' W')) in I. apply Ok_inj in I.
  destruct r, r'. cbn in *. congruence.
Qed.

(** ** Plain records *)

(** No frame of the record is compressed. *)
Definition plain (r : log_record) : Prop := Forall (fun fe => fe_Codec fe = CompressionNone) (lr_index r).

Lemma plain_stored `{FLaws : FrameLaws} compressed data r :
  framed compressed None data r -> plain r -> lr_stored r = data.
Proof.
  intros (_ & _ & ps & Hps & Hst & Hix) P. unfold plain in P. rewrite Hix in P. rewrite Hst.
  rewrite <- (concat_payload_frames data). clear Hst Hix. unfold stored_bytes. revert P. generalize 0.
  induction Hps as [|frame p frames ps Hp Hps IH]; intros off P; [done|]. destruct p as [sf c].
  cbn [entries_of] in P. apply Forall_cons in P as [Pc P]. cbn [fe_Codec] in Pc. cbn [map concat fst].
  rewrite (IH _ P). f_equal. destruct Hp as (nonce & _ & E). unfold store_frame in E.
  destruct compressed; [|injection E as <- _; done].
  destruct (CompressFrame frame) as [cf b]. destruct b; injection E as <- <-; done.
Qed.

Lemma framed_nonempty `{FLaws : FrameLaws} compressed encKey data r :
  framed compressed encKey data r -> lr_index r <> [].
Proof.
  intros (_ & _ & ps & Hps & _ & Hix) E. rewrite Hix in E. destruct ps as [|[sf c] ps]; [|done].
  apply Forall2_length in Hps. unfold payload_frames in Hps. rewrite length_map, length_seq in Hps. cbn in Hps.
  destruct (Nat.eqb_spec (frame_count data DefaultFrameSize) 0); lia.
Qed.

Definition record_key (p : Z * log_record) : Z * Z := (h_ExtentID (lr_header p.2), h_Generation (lr_header p.2)).

Lemma nodup_map_inj {X Y} (f : X -> Y) l x y : NoDup (map f l) -> x ∈ l -> y ∈ l -> f x = f y -> x = y.
Proof.
  intros N Hx Hy E. induction l as [|z l IH]; [by apply elem_of_nil in Hx|].
  cbn [map] in N. apply NoDup_cons in N as [Hz N].
  apply elem_of_cons in Hx as [->|Hx]; apply elem_of_cons in Hy as [->|Hy]; [done| | |by apply IH].
  - destruct Hz. rewrite E. by apply list_elem_of_fmap_2.
  - destruct Hz. rewrite <- E. by apply list_elem_of_fmap_2.
Qed.

(** ** Removing a file *)

Section Segment.
Context {DB : Type} `{KL : PebbleLaws DB} `{FLaws : FrameLaws} (cfg : Config).
Context (keyID : Z).
Let stream := c_StreamID cfg.

Lemma maxSegmentID_delete (dir : gmap Z (list Z)) id f src :
  0 <= src -> src <> id -> dir !! id = Some f -> maxSegmentID dir = id -> maxSegmentID (delete src dir) = id.
Proof.
  intros H0 Hne Hf Hm. destruct (dir !! src) as [g|] eqn:Hs; [|by rewrite delete_id].
  pose proof (maxSegmentID_bound (delete src dir) id f ltac:(by rewrite lookup_delete_ne)) as Hb.
  pose proof (maxSegmentID_insert dir src g H0) as Hi. rewrite (insert_id dir src g Hs) in Hi. lia.
Qed.

(** The invariant does not need a file other than the active one. *)
Lemma inv_remove (s : Store DB) src :
  0 <= src -> src <> a_segmentID (s_alloc s) -> inv cfg s -> inv cfg (set_dir (delete src (s_dir s)) s).
Proof.
  intros H0 Hne (hdr & es1 & es2 & seq0 & [O C S0 L2 La Ov St Pe Id Mx Nx Wf Dr]).
  exists hdr, es1, es2, seq0. pose proof (so_file _ _ _ _ O) as Hf. constructor; try done.
  - destruct O. constructor; try done. cbn [set_dir s_dir s_alloc]. by rewrite lookup_delete_ne.
  - cbn [set_dir s_dir s_alloc]. by eapply maxSegmentID_delete.
Qed.

(** ** The source segment *)

(** The file [src] holds a log; every location into it is that of a record of
    its extent, no two data records share extent and generation, and what is
    stored there is plain. *)
Record source_segment (s : Store DB) (src : Z) (hdr : list Z) (es : list log_entry) (tail : list Z) : Prop :=
  mkSourceSegment {
  ss_id : 0 <= src;
  ss_sealed : src <> a_segmentID (s_alloc s);
  ss_file : s_dir s !! src = Some (hdr ++ log_bytes stream src 22 es ++ tail);
  ss_opens : is_ok (open_segment (s_dir s) src) = true;
  ss_hdr : length hdr = SegmentHeaderSize;
  ss_log : log_ok stream 22 0 es;
  ss_end : scan_end tail;
  ss_plain : Forall (fun p => plain p.2 /\ bytes_wf (lr_stored p.2) /\
                              Z.of_nat (length (lr_stored p.2)) <= 2 ^ 31) (placed_log 22 es);
  ss_points : forall e g v, is_u64 e -> is_u64 g -> lookup_value s e g = Ok v -> v_State v = ExtentDurable ->
    v_SegmentID v = src -> exists r, (v_Offset v, r) ∈ placed_log 22 es /\
      h_ExtentID (lr_header r) = e /\ h_Generation (lr_header r) = g;
  ss_keys : NoDup (map record_key (List.filter is_data (placed_log 22 es)))
}.

Section Source.
Context (s : Store DB) (A : contents) (src : Z) (hdr : list Z) (es : list log_entry) (tail : list Z).
Context (SS : source_segment s src hdr es tail).

Lemma scanned_placed rec :
  rec ∈ scanned_log 22 es -> exists o r, rec = scanned_at o r /\ is_data (o, r) = true /\
    (o, r) ∈ placed_log 22 es /\ lr_wf r.
Proof.
  intros Hin. rewrite scanned_log_placed in Hin. apply list_elem_of_fmap in Hin as ([o r] & -> & Hin).
  apply list_elem_of_In, filter_In in Hin as [Hin Hdt]. apply list_elem_of_In in Hin.
  exists o, r. split; [done|]. split; [done|].
  assert ((o, r) ∈ placed_log 22 es) as Hp.
  { revert Hin. clear. generalize 22. induction es as [|[recs seq|seq] l IH]; intros off; cbn; [done| |].
    - rewrite !elem_of_app. intros [Hi|Hi]; [by left|right; by apply IH].
    - by intros Hi%elem_of_nil. }
  split; [done|]. destruct (placed_log_split stream src 0 22 es o r (ss_log _ _ _ _ _ SS) Hp) as [W _]. done.
Qed.

Lemma scanned_fits : Forall record_fits (scanned_log 22 es).
Proof.
  apply Forall_forall. intros rec Hin. destruct (scanned_placed rec Hin) as (o & r & -> & _ & Hp & W).
  pose proof ((proj1 (Forall_forall _ _) (ss_plain _ _ _ _ _ SS)) _ Hp) as (_ & Hb & Hs). cbn [snd] in Hb, Hs.
  destruct (lrw_header r W). by constructor.
Qed.

(** The record an extent of the source is stored in. *)
Lemma source_record e g v data :
  is_u64 e -> is_u64 g -> lookup_value s e g = Ok v -> v_State v = ExtentDurable -> v_SegmentID v = src ->
  stored_at None keyID (s_dir s) v data ->
  exists r, (v_Offset v, r) ∈ placed_log 22 es /\ h_ExtentID (lr_header r) = e /\
    h_Generation (lr_header r) = g /\ lr_stored r = data /\ lr_index r <> [].
Proof.
  intros He Hg Hv Hd Hs (pre & r' & rest & c & Hf & Ho & Hpre & W' & Fr & _).
  destruct (ss_points _ _ _ _ _ SS e g v He Hg Hv Hd Hs) as (r & Hp & Hre & Hrg).
  destruct (placed_log_split stream src 0 22 es _ r (ss_log _ _ _ _ _ SS) Hp) as (W & _ & pre2 & rest2 & El & Eo).
  rewrite Hs, (ss_file _ _ _ _ _ SS), El in Hf. apply (inj Some) in Hf.
  rewrite <- !app_assoc, (app_assoc hdr) in Hf.
  apply app_inj_1 in Hf as [_ Hf].
  2:{ rewrite length_app, (ss_hdr _ _ _ _ _ SS). change SegmentHeaderSize with 22%nat. lia. }
  apply lr_bytes_inj in Hf as ->; [|done|done].
  exists r'. split; [done|]. split; [done|]. split; [done|].
  pose proof ((proj1 (Forall_forall _ _) (ss_plain _ _ _ _ _ SS)) _ Hp) as (Hpl & _). cbn [snd] in Hpl.
  split; [by eapply plain_stored|by eapply framed_nonempty].
Qed.

Lemma live_lookup latest rec :
  s_closing s = false -> live_record latest src s rec = true ->
  latest !! sr_ExtentID rec = Some (sr_Generation rec) /\
  exists v, lookup_value s (sr_ExtentID rec) (sr_Generation rec) = Ok v /\ v_State v <> ExtentTombstoned /\
    v_SegmentID v = src.
Proof.
  intros Hc L. unfold live_record in L. destruct (latest !! sr_ExtentID rec) as [lg|]; [|done].
  destruct (Z.eqb_spec lg (sr_Generation rec)) as [E|]; [|done]. split; [by rewrite E|].
  unfold isLive, Stat in L. rewrite (bindM_ok enter _ s s tt) in L by (unfold enter; rewrite bindM_get, Hc; done).
  rewrite bindM_get in L. unfold lift in L. cbn [snd] in L.
  destruct (lookup_value s _ _) as [v|]; [|done]. exists v. split; [done|].
  destruct (Z.eqb_spec (v_State v) ExtentTombstoned); [done|]. split; [done|].
  destruct (_ =? ExtentCorrupt) in L; [done|]. by apply Z.eqb_eq.
Qed.

(** What the scan reads for a live record is what its extent contains. *)
Lemma live_contents latest :
  s_closing s = false -> represents None keyID s A ->
  Forall (fun rec => live_record latest src s rec = true ->
            A !! scanned_key rec = Some (Some (sr_StoredBytes rec))) (scanned_log 22 es).
Proof.
  intros Hc R. apply Forall_forall. intros rec Hrec L.
  destruct (live_lookup latest rec Hc L) as (_ & v & Hv & Hnt & Hs).
  pose proof ((proj1 (Forall_forall _ _) scanned_fits) rec Hrec) as [Fe Fg _ _ _].
  specialize (R _ _ Fe Fg). rewrite Hv in R. unfold scanned_key.
  destruct (A !! (sr_ExtentID rec, sr_Generation rec)) as [[data|]|]; cbn [means] in R; [| |done].
  2:{ destruct R as (w & [= <-] & ?). done. }
  destruct R as (w & [= <-] & Hd & Hst).
  destruct (source_record _ _ v data Fe Fg Hv Hd Hs Hst) as (r & Hp & Hre & Hrg & Hdata & Hne).
  destruct (scanned_placed rec Hrec) as (o & r0 & -> & Hd0 & Hp0 & W0). cbn [sr_StoredBytes scanned_at] in *.
  assert ((o, r0) = (v_Offset v, r)) as [= -> ->]; [|by rewrite Hdata].
  apply (nodup_map_inj record_key (List.filter is_data (placed_log 22 es))).
  - apply (ss_keys _ _ _ _ _ SS).
  - apply list_elem_of_In, filter_In. split; [by apply list_elem_of_In|done].
  - apply list_elem_of_In, filter_In. split; [by apply list_elem_of_In|]. unfold is_data. cbn [snd]. by destruct (lr_index r).
  - unfold record_key. cbn [snd]. rewrite Hre, Hrg. done.
Qed.

(** An extent the scan reaches and whose generation is the newest is live. *)
Lemma reached_live latest e g v data :
  s_closing s = false -> is_u64 e -> is_u64 g -> lookup_value s e g = Ok v -> v_State v = ExtentDurable ->
  v_SegmentID v = src -> stored_at None keyID (s_dir s) v data ->
  latest !! e = Some g -> v_Offset v < log_end 22 (before_marker es) ->
  exists rec, rec ∈ scanned_log 22 es /\ sr_ExtentID rec = e /\ sr_Generation rec = g /\
    live_record latest src s rec = true.
Proof.
  intros Hc He Hg Hv Hd Hs Hst Hl Hlt.
  destruct (source_record e g v data He Hg Hv Hd Hs Hst) as (r & Hp & Hre & Hrg & _ & Hne).
  exists (scanned_at (v_Offset v) r). split.
  { rewrite scanned_log_placed. apply list_elem_of_fmap. exists (v_Offset v, r). split; [done|].
    apply list_elem_of_In, filter_In. split; [|unfold is_data; cbn [snd]; by destruct (lr_index r)].
    apply list_elem_of_In. by eapply placed_before; [apply (ss_log _ _ _ _ _ SS)| |]. }
  cbn [scanned_at sr_ExtentID sr_Generation]. split; [done|]. split; [done|].
  unfold live_record. cbn [scanned_at sr_ExtentID sr_Generation]. rewrite Hre, Hrg, Hl, Z.eqb_refl.
  unfold isLive, Stat. rewrite (bindM_ok enter _ s s tt) by (unfold enter; rewrite bindM_get, Hc; done).
  rewrite bindM_get. unfold lift. cbn [snd]. rewrite Hv, Hd. cbn. rewrite Hs. apply Z.eqb_refl.
Qed.
End Source.

(** Everything that does not live in the source, and everything in it that is
    newest and reached by the scan, is there afterwards; the source is gone. *)
Lemma compactSegment_sound evs s A src hdr es tail :
  key_config cfg None keyID -> (forall n, quiet (evs n) /\ nonces_ok (ev_nonce (evs n))) ->
  s_closing s = false -> inv cfg s -> represents None keyID s A -> source_segment s src hdr es tail ->
  append_room s (copy_size (scanned_log 22 es)) (Z.of_nat (length (scanned_log 22 es))) ->
  exists s', compactSegment cfg evs None src s = (s', true) /\ s_dir s' !! src = None /\ inv cfg s' /\
    forall e g, is_u64 e -> is_u64 g ->
      (forall v, lookup_value s e g = Ok v -> v_State v = ExtentDurable -> v_SegmentID v = src ->
         latestGenerations s !! e = Some g /\ v_Offset v < log_end 22 (before_marker es)) ->
      means None keyID (s_dir s') (lookup_value s' e g) (A !! (e, g)).
Proof.
  intros K Q Hc I R SS Room. set (latest := latestGenerations s).
  destruct (Compact_sound cfg None keyID evs latest src (scanned_log 22 es) s A K Q (ss_sealed _ _ _ _ _ SS) Hc I R
    (scanned_fits s src hdr es tail SS) (live_contents s A src hdr es tail SS latest Hc R) Room) as (s1 & n & E & C).
  exists (set_dir (delete src (s_dir s1)) s1). split.
  { unfold compactSegment. pose proof (ss_opens _ _ _ _ _ SS) as Ho. destruct (open_segment (s_dir s) src); [|done].
    rewrite (ss_file _ _ _ _ _ SS). change (default [] (Some ?x)) with x.
    rewrite (scan_exact stream src hdr es tail (ss_hdr _ _ _ _ _ SS) (ss_log _ _ _ _ _ SS) (ss_end _ _ _ _ _ SS)).
    fold latest. by rewrite E. }
  split; [cbn; apply lookup_delete_eq|]. destruct C as [I1 R1 Hc1 Act Fl Mv Lk].
  assert (src <> a_segmentID (s_alloc s1)) as Hne by (rewrite Act; apply (ss_sealed _ _ _ _ _ SS)).
  split; [apply inv_remove; [apply (ss_id _ _ _ _ _ SS)|done|done]|].
  intros e g He Hg Hcase. change (lookup_value (set_dir (delete src (s_dir s1)) s1) e g) with (lookup_value s1 e g).
  specialize (R1 e g He Hg). specialize (Lk e g He Hg). specialize (R e g He Hg). cbn [set_dir s_dir].
  destruct (A !! (e, g)) as [[data|]|]; cbn [means] in *; [|done|done].
  destruct R1 as (v & Hv & Hd & Hst). exists v. split; [done|]. split; [done|].
  assert (v_SegmentID v <> src) as Hout.
  { intros Hs. destruct Lk as [Hlk|(w & Hw & Hsw)]; [|rewrite Hv in Hw; injection Hw as <-; rewrite Act in Hne; congruence].
    rewrite Hlk in Hv. destruct R as (w & Hw & _ & Hstw). rewrite Hv in Hw. injection Hw as <-.
    destruct (Hcase v Hv Hd Hs) as [Hl Hlt].
    destruct (reached_live s src hdr es tail SS latest e g v data Hc He Hg Hv Hd Hs Hstw Hl Hlt)
      as (rec & Hin & <- & <- & Live).
    destruct ((proj1 (Forall_forall _ _) Mv) rec Hin Live) as (w & Hw & Hsw).
    rewrite Hlk, Hv in Hw. injection Hw as <-. rewrite Act in Hne. congruence. }
  destruct Hst as (pre & r & rest & c & Hf & Hrest). exists pre, r, rest, c. split; [|done].
  by rewrite lookup_delete_ne.
Qed.
End Segment.
