(* ===== verification/MaintenanceTheorems.v ===== *)
(** * What compaction guarantees

    The claims about [Maintenance.v], with their applications to a concrete
    store, and what happens to a segment outside their hypotheses. *)

From stdpp Require Import base list sorting numbers strings gmap.
From Stdlib Require Import ZArith Lia SpecFloat.
From S2P Require Import Prelude Bytes Crc StorageTypes FileIO Record Journal.
From S2P Require Import SegmentFile Pebble Index Allocator Overlay Checkpoint Cache Recover.
From S2P Require Import SegmentLog LogParse Framing FramingProofs Store StoreProofs.
From S2P Require Import Durability Restart StoreSpec Scenario Behaviours.
From S2P Require Import Maintenance CompactionProofs.

Local Open Scope Z_scope.
Local Open Scope go_scope.

(** ** Scan *)

(** A segment scan is exact up to the first INDEX_SAFE marker: of a file
    that holds a log, [ScanSegmentRecords] returns every data record of the
    batches before that marker, in order, with its place, its header's fields
    and its stored bytes, and nothing else; delete records and commit markers
    are skipped and it ends at the footer. *)
Theorem segment_scan_exact stream id hdr es tail :
  length hdr = SegmentHeaderSize -> log_ok stream 22 0 es -> scan_end tail ->
  ScanSegmentRecords (hdr ++ log_bytes stream id 22 es ++ tail) =
  map (fun p => scanned_at p.1 p.2) (List.filter is_data (placed_log 22 (before_marker es))).
Proof. intros Hh Hok Ht. rewrite <- scanned_log_placed. by apply scan_exact. Qed.

(** ** Compaction *)

Section Claims.
Context {DB : Type} `{KL : PebbleLaws DB} `{FLaws : FrameLaws} (cfg : Config) (keyID : Z).

(** C36: compaction loses nothing it can reach. On a store that represents an
    abstract map of extents, compacting a sealed segment of uncompressed, unencrypted
    records succeeds when the active segment has room, removes the source
    file and keeps the store's invariant; afterwards every extent answers
    what the map says if it was not stored in the source, or if its
    generation is the newest and its record lies before the first INDEX_SAFE
    marker. *)
Theorem compaction_keeps_newest evs s A src hdr es tail :
  key_config cfg None keyID -> (forall n, quiet (evs n) /\ nonces_ok (ev_nonce (evs n))) ->
  s_closing s = false -> inv cfg s -> represents None keyID s A -> source_segment cfg s src hdr es tail ->
  append_room s (copy_size (scanned_log 22 es)) (Z.of_nat (length (scanned_log 22 es))) ->
  exists s', compactSegment cfg evs None src s = (s', true) /\ s_dir s' !! src = None /\ inv cfg s' /\
    forall e g, is_u64 e -> is_u64 g ->
      (forall v, lookup_value s e g = Ok v -> v_State v = ExtentDurable -> v_SegmentID v = src ->
         latestGenerations s !! e = Some g /\ v_Offset v < log_end 22 (before_marker es)) ->
      means None keyID (s_dir s') (lookup_value s' e g) (A !! (e, g)).
Proof. apply compactSegment_sound. Qed.
End Claims.

(** ** Selection *)

Definition selectable (queued : list Z) (c : CompactionCandidate) : bool :=
  Eligible c && negb (bool_decide (cc_SegmentID c ∈ queued)).

Lemma select_loop_spec queued maxC : forall l out,
  select_loop queued maxC out l =
  out ++ take (Z.to_nat (maxC - Z.of_nat (length out))) (List.filter (selectable queued) l).
Proof.
  induction l as [|c l IH]; intros out; cbn [select_loop List.filter]; [by rewrite take_nil, app_nil_r|].
  destruct (Z.leb_spec maxC (Z.of_nat (length out))) as [Hm|Hm].
  { replace (Z.to_nat (maxC - Z.of_nat (length out))) with 0%nat by lia. by rewrite app_nil_r. }
  unfold selectable at 1. destruct (Eligible c); cbn [negb andb]; [|apply IH].
  case_bool_decide; cbn [negb]; [apply IH|]. rewrite IH, length_app. cbn [length].
  replace (Z.to_nat (maxC - Z.of_nat (length out)))
    with (S (Z.to_nat (maxC - Z.of_nat (length out + 1)))) by lia.
  cbn [take]. by rewrite <- app_assoc.
Qed.

Lemma StronglySorted_filter {X} (R : X -> X -> Prop) f l : StronglySorted R l -> StronglySorted R (List.filter f l).
Proof.
  induction 1 as [|x l S IH F]; cbn [List.filter]; [constructor|]. destruct (f x); [|done].
  constructor; [done|]. apply Forall_forall. intros y Hy. apply list_elem_of_In, filter_In in Hy as [Hy _].
  rewrite Forall_forall in F. by apply F, list_elem_of_In.
Qed.

Lemma StronglySorted_split {X} (R : X -> X -> Prop) l k :
  StronglySorted R (l ++ k) -> StronglySorted R l /\ forall x y, x ∈ l -> y ∈ k -> R x y.
Proof.
  induction l as [|z l IH]; cbn [app]; intros S; [split; [constructor|by intros x y ?%elem_of_nil]|].
  inversion S as [|? ? S' F]; subst. destruct (IH S') as [S1 H1]. rewrite Forall_forall in F. split.
  - constructor; [done|]. apply Forall_forall. intros y Hy. apply F, elem_of_app. by left.
  - intros x y [->|Hx]%elem_of_cons Hy; [apply F, elem_of_app; by right|by apply H1].
Qed.

(** The scheduler picks the best candidates: whatever arrangement by
    score the sort returns, the selection has at most the allowed number of
    candidates, each eligible and not in flight, in order of score; it falls
    short of that number only when it took every such candidate, and no
    such candidate left out scores higher than one taken. *)
Theorem select_takes_best order queued cands maxC age pressure health :
  let scored := map (ScoreWith age pressure health) cands in
  arranges order scored -> 0 <= maxC ->
  let picked := Select order queued cands maxC age pressure health in
  Z.of_nat (length picked) <= maxC /\
  Forall (fun c => c ∈ scored /\ Eligible c = true /\ cc_SegmentID c ∉ queued) picked /\
  StronglySorted (fun a b => f64_ltb (cc_Score a) (cc_Score b) = false) picked /\
  forall c, c ∈ scored -> Eligible c = true -> cc_SegmentID c ∉ queued ->
    c ∈ picked \/
    (Z.of_nat (length picked) = maxC /\ forall p, p ∈ picked -> f64_ltb (cc_Score p) (cc_Score c) = false).
Proof.
  intros scored [Hp Hs] Hm picked. unfold picked, Select. fold scored.
  rewrite select_loop_spec. cbn [app length]. rewrite Z.sub_0_r.
  set (ok := List.filter (selectable queued) (order scored)).
  assert (forall c, c ∈ ok <-> c ∈ scored /\ Eligible c = true /\ cc_SegmentID c ∉ queued) as Hok.
  { intros c. unfold ok. rewrite list_elem_of_In, filter_In, <- list_elem_of_In, Hp. unfold selectable.
    rewrite andb_true_iff, negb_true_iff, bool_decide_eq_false. tauto. }
  pose proof (StronglySorted_filter _ (selectable queued) _ Hs) as Hso. fold ok in Hso.
  rewrite <- (take_drop (Z.to_nat maxC) ok) in Hso. apply StronglySorted_split in Hso as [S1 S2].
  split; [rewrite length_take; lia|]. split; [|split; [done|]].
  - apply Forall_forall. intros c Hc. apply Hok. rewrite <- (take_drop (Z.to_nat maxC) ok). apply elem_of_app. by left.
  - intros c H1 H2 H3. assert (c ∈ ok) as Hc by (by apply Hok).
    rewrite <- (take_drop (Z.to_nat maxC) ok) in Hc. apply elem_of_app in Hc as [Hc|Hc]; [by left|right].
    split; [|intros p Hpk; by apply S2]. rewrite length_take.
    assert (length (drop (Z.to_nat maxC) ok) <> 0%nat) as Hl by (destruct (drop _ ok); [by apply elem_of_nil in Hc|done]).
    rewrite length_drop in Hl. lia.
Qed.

(** ** A sealed segment *)

Definition evs0 : nat -> env := fun _ => ev0.
Definition flushed1 : Store mem := (flush cfg0 ev0 store1c).1.
Definition sealed1 : Store mem := (sealActiveLocked cfg0 ev0 flushed1).1.

Definition header0 : RecordHeader := Eval vm_compute in pw_header pw0.
Definition record0 : log_record :=
  mkLogRecord header0 [mkFrameIndexEntry 0 3 CompressionNone (CRC32C [1; 2; 3])] [1; 2; 3].
Definition log0 : list log_entry := [LBatch [record0] 1; LSafe 1].
Definition file0 : list Z := default [] (s_dir sealed1 !! 1).

Lemma file0_log :
  s_dir sealed1 !! 1 = Some (take 22 file0 ++ log_bytes 1 1 22 log0 ++ drop 220 file0).
Proof. vm_compute. reflexivity. Qed.

Definition contents0 : contents := {[(5, 1) := Some [1; 2; 3]]}.

Lemma sealed1_run : run cfg0 store0 [OPut req0] sealed1.
Proof.
  assert (run cfg0 store0 ([] ++ [OPut req0]) store1c) as R1.
  { eapply run_step; [apply run_nil|]. destruct store1c_ok as (hdr & r & placed & E & _).
    eapply step_commit; [exact quiet0|done|exact prepared0| | | | |exact E]; vm_compute; reflexivity. }
  assert (run cfg0 store0 (([] ++ [OPut req0]) ++ []) flushed1) as R2.
  { eapply run_step; [exact R1|]. eapply (step_flush cfg0 ev0 store1c flushed1); [exact quiet0| |apply surjective_pairing].
    split; [|split]; vm_compute; (discriminate || reflexivity). }
  apply (run_step cfg0 store0 [OPut req0] flushed1 [] sealed1 R2).
  assert ((sealActiveLocked cfg0 ev0 flushed1).2 = Ok tt) as E by (vm_compute; reflexivity).
  apply (step_rotate cfg0 ev0 flushed1 sealed1 quiet0); [vm_compute; reflexivity..|].
  rewrite <- E. apply surjective_pairing.
Qed.

Lemma sealed1_ok : inv cfg0 sealed1 /\ represents None 0 sealed1 contents0.
Proof.
  destruct store0_ok as (_ & _ & R & _).
  exact (run_sound cfg0 None 0 store0 [OPut req0] sealed1 ∅ key0 sealed1_run inv0 R).
Qed.

Lemma record0_wf : lr_wf record0.
Proof.
  constructor; cbn [record0 lr_header lr_index lr_stored header0 h_HeaderCRC h_FrameCount h_StoredLen
    h_FrameIndexCRC h_Op length]; try reflexivity.
  - constructor; cbn; unfold uintw; lia.
  - split; [reflexivity|]. split; reflexivity.
  - constructor; [|constructor]. split; [|split; [|split]]; cbn [fe_Offset fe_StoredLen fe_Codec fe_CRC]; unfold uintw, CompressionNone;
      [lia..|]. apply CRC32C_bound. repeat constructor; unfold uintw; lia.
  - discriminate.
Qed.

Lemma log0_ok : log_ok 1 22 0 log0.
Proof.
  split; [|split; [|done]].
  - split; [lia|]. split; [vm_compute; reflexivity|]. split; [unfold uintw; lia|]. split; [done|].
    split; [constructor; [apply record0_wf|constructor]|]. cbn. lia.
  - split; [vm_compute; discriminate|]. split; [vm_compute; reflexivity|]. lia.
Qed.

Lemma tail0_end : scan_end (drop 220 file0).
Proof. right. split; vm_compute; discriminate. Qed.

Lemma segment_scan_exact_witness :
  ScanSegmentRecords (take 22 file0 ++ log_bytes 1 1 22 log0 ++ drop 220 file0) = [scanned_at 22 record0].
Proof.
  rewrite (segment_scan_exact 1 1 (take 22 file0) log0 (drop 220 file0)); [|vm_compute; reflexivity|exact log0_ok|exact tail0_end].
  reflexivity.
Defined.

Definition value0 : Value := Eval vm_compute in
  match lookup_value sealed1 5 1 with Ok v => v | Err _ => mkValue 0 0 0 0 0 0 end.

Lemma value0_found : lookup_value sealed1 5 1 = Ok value0.
Proof. vm_compute. reflexivity. Qed.

(** The only extent of the store. *)
Lemma only_extent e g v : is_u64 e -> is_u64 g -> lookup_value sealed1 e g = Ok v -> e = 5 /\ g = 1 /\ v = value0.
Proof.
  intros He Hg Hv. pose proof (proj2 sealed1_ok e g He Hg) as R. unfold contents0 in R.
  destruct (decide ((5, 1) = (e, g))) as [[= <- <-]|Hne].
  - rewrite value0_found in Hv. injection Hv as <-. done.
  - rewrite lookup_singleton_ne in R by done. cbn [means] in R. congruence.
Qed.

Lemma source0 : source_segment cfg0 sealed1 1 (take 22 file0) log0 (drop 220 file0).
Proof.
  constructor.
  - lia.
  - vm_compute. discriminate.
  - exact file0_log.
  - vm_compute. reflexivity.
  - vm_compute. reflexivity.
  - exact log0_ok.
  - exact tail0_end.
  - change (placed_log 22 log0) with [(22, record0)]. apply Forall_singleton. cbn [snd].
    split; [apply Forall_singleton; reflexivity|]. split; [|vm_compute; discriminate].
    repeat (apply Forall_cons; split; [unfold uintw; lia|]). apply Forall_nil. done.
  - intros e g v He Hg Hv _ _. destruct (only_extent e g v He Hg Hv) as (-> & -> & ->).
    exists record0. split; [|split; reflexivity].
    change (placed_log 22 log0) with [(22, record0)]. apply elem_of_cons. by left.
  - change (placed_log 22 log0) with [(22, record0)]. apply NoDup_singleton.
Qed.

Lemma compaction_keeps_newest_witness :
  exists s', compactSegment cfg0 evs0 None 1 sealed1 = (s', true) /\ s_dir s' !! 1 = None /\
    means None 0 (s_dir s') (lookup_value s' 5 1) (Some (Some [1; 2; 3])).
Proof.
  destruct (compaction_keeps_newest cfg0 0 evs0 sealed1 contents0 1 (take 22 file0) log0 (drop 220 file0))
    as (s' & E & Hd & _ & H).
  - exact key0.
  - intros n. split; [exact quiet0|exact nonces0].
  - vm_compute. reflexivity.
  - exact (proj1 sealed1_ok).
  - exact (proj2 sealed1_ok).
  - exact source0.
  - split; [split|split]; vm_compute; (discriminate || reflexivity).
  - exists s'. split; [exact E|]. split; [exact Hd|].
    apply (H 5 1); [unfold uintw; lia|unfold uintw; lia|].
    intros v Hv _ _. rewrite value0_found in Hv. injection Hv as <-. split; vm_compute; reflexivity.
Defined.

(** Two candidates, the second with more dead bytes. *)
Definition cands0 : list CompactionCandidate :=
  [mkCandidate 1 2 40 60 (f64_lit 5 10) (f64 0); mkCandidate 2 2 90 10 (f64_lit 5 10) (f64 0)].

Lemma select_takes_best_witness :
  Forall (fun c => cc_SegmentID c ∉ [3]) (Select (@rev _) [3] cands0 1 (f64 1) (f64 1) (f64 1)) /\
  map cc_SegmentID (Select (@rev _) [3] cands0 1 (f64 1) (f64 1) (f64 1)) = [2].
Proof.
  split; [|vm_compute; reflexivity].
  destruct (select_takes_best (@rev _) [3] cands0 1 (f64 1) (f64 1) (f64 1)) as (_ & F & _).
  - split; [symmetry; apply Permutation_rev|]. vm_compute. repeat constructor.
  - lia.
  - eapply Forall_impl; [exact F|]. cbn. tauto.
Defined.

(** ** Limits *)

(** A segment with batches on both sides of a flush: an extent, then its next
    generation and another extent. *)
Definition mark1 : Store mem := (flush cfg0 ev0 store1).1.
Definition mark2 : Store mem := (Write cfg0 ev0 (mkWriteRequest 5 2 [4; 5]) mark1).1.
Definition mark3 : Store mem := (Write cfg0 ev0 (mkWriteRequest 6 1 [9]) mark2).1.
Definition mark4 : Store mem := (sealActiveLocked cfg0 ev0 (flush cfg0 ev0 mark3).1).1.
Definition mark5 : Store mem := (compactOne cfg0 (fun l => l) evs0 None [] mark4).2.

(** A scan ends at the first INDEX_SAFE marker, which every flush writes
    into the active segment, and the worker takes what it did not scan for
    nothing. Two extents written after a flush are acknowledged and readable;
    the pass finds one record in their segment, which is superseded, selects
    the segment as fully dead and removes the file: both are gone. *)
Theorem compaction_drops_behind_marker :
  acked (Write cfg0 ev0 (mkWriteRequest 5 2 [4; 5]) mark1).2 = true /\
  acked (Write cfg0 ev0 (mkWriteRequest 6 1 [9]) mark2).2 = true /\
  answer cfg0 mark4 5 2 = Ok [4; 5] /\ answer cfg0 mark4 6 1 = Ok [9] /\
  s_dir mark5 !! 1 = None /\
  is_ok (answer cfg0 mark5 5 2) = false /\ is_ok (answer cfg0 mark5 6 1) = false.
Proof. vm_compute. repeat split. Qed.

(** A compressible payload. *)
Definition zeros : list Z := replicate 5000 0.
Definition zip1 : Store mem := (Write cfg0 ev0 (mkWriteRequest 7 1 zeros) store0).1.
Definition zip2 : Store mem := (sealActiveLocked cfg0 ev0 (flush cfg0 ev0 zip1).1).1.
Definition zip3 : Store mem := (compactSegment cfg0 evs0 None 1 zip2).1.

(** Compaction treats the stored bytes of a record as its payload. A
    compressed extent is framed again as if its compressed frames were the
    data, with their length and checksum: after the segment was compacted a
    Read succeeds and returns the compressed bytes. *)
Theorem compaction_garbles_compressed :
  answer cfg0 zip2 7 1 = Ok zeros /\ (compactSegment cfg0 evs0 None 1 zip2).2 = true /\
  exists stored, answer cfg0 zip3 7 1 = Ok stored /\ length stored <> length zeros.
Proof.
  split; [vm_compute; reflexivity|]. split; [vm_compute; reflexivity|].
  eexists. split; [vm_compute; reflexivity|]. vm_compute. discriminate.
Qed.
