(* ===== verification/WorkQueue.v ===== *)
(** * Durable work queues

    Models [nufs-core/metadata/background_task.go] (background tasks with
    leases and retries), [write_attempt.go] (the log of object writes in
    progress) and [ec_conversion_scheduler.go] (which extents are queued for
    conversion to erasure coding). Both kinds of record have a row under their
    id and an index row whose key starts with what a worker looks for: the
    type and state of a task and the time it is due, the state of an attempt
    and the time it changed.

    A write reads the old record, then commits the new row, the new index row
    and the deletion of the old index row as one batch, in this order. The
    batch is computed by [put_task_batch] and [put_attempt_batch] from the
    database the call reads, so that what happens between the read and the
    commit can be stated. The store is the one of [Namespace.v]. *)

From stdpp Require Import base list sorting numbers strings gmap.
From Stdlib Require Import ZArith Lia.
From S2P Require Import Prelude Bytes Pebble MetaKeys MetaScan MetaTypes RaftLog MetaFSM Namespace Extents.

Local Open Scope Z_scope.
Local Open Scope go_scope.
Local Open Scope ns_scope.

(** ** What the keys use of Go *)

(** [strings.Cut] at a byte: the part before it and, if it occurs, after it. *)
Fixpoint cut (sep : Z) (s : list Z) : list Z * option (list Z) :=
  match s with
  | [] => ([], None)
  | c :: s => if c =? sep then ([], Some s) else let (a, r) := cut sep s in (c :: a, r)
  end.

(** [strings.SplitN] with [S n] parts at most *)
Fixpoint SplitN (sep : Z) (n : nat) (s : list Z) : list (list Z) :=
  match n with
  | O => [s]
  | S n => match cut sep s with
           | (a, None) => [a]
           | (a, Some r) => a :: SplitN sep n r
           end
  end.

Definition slash : Z := 47.

Definition signed (neg : bool) (digits : list Z) : option Z :=
  match ParseUint digits with
  | Some u => if neg then (if u <=? 2 ^ 63 then Some (- u) else None)
              else (if u <? 2 ^ 63 then Some u else None)
  | None => None
  end.

(** [strconv.ParseInt(s, 10, 64)]; the error is a [None]. *)
Definition ParseInt (s : list Z) : option Z :=
  match s with
  | [] => None
  | c :: r => if c =? 45 then signed true r else if c =? 43 then signed false r else signed false s
  end.

Definition pad0 (width : nat) (s : list Z) : list Z := replicate (width - length s) 48 ++ s.

(** [%020d] of an int64 *)
Definition Sprintf020d (n : Z) : list Z :=
  if n <? 0 then 45 :: pad0 19 (FormatUint (- n)) else pad0 20 (FormatUint n).

(** ** Records *)

Definition TaskWriteRecovery := str "write_recovery".
Definition TaskWriteGC := str "write_gc".
Definition TaskECConvert := str "ec_convert".

Definition TaskQueued := str "queued".
Definition TaskLeased := str "leased".
Definition TaskRunning := str "running".
Definition TaskSucceeded := str "succeeded".
Definition TaskRetrying := str "retrying".
Definition TaskDeadLetter := str "dead_letter".

Record BackgroundTask := mkBackgroundTask {
  bg_ID : list Z; bg_Type : list Z; bg_State : list Z; bg_Target : list Z; bg_IdempotencyKey : list Z;
  bg_LeaseOwner : list Z; bg_AttemptCount : Z; bg_NextRunAt : Z; bg_LastError : list Z;
  bg_CreatedAt : Z; bg_UpdatedAt : Z; bg_OwnerNodes : list Z
}.

#[export] Instance BackgroundTask_eq_dec : EqDecision BackgroundTask.
Proof. solve_decision. Defined.

Definition WriteAttemptPending := str "pending".
Definition WriteAttemptChunksAllocated := str "chunks_allocated".
Definition WriteAttemptChunksDurable := str "chunks_durable".
Definition WriteAttemptCommitted := str "committed".
Definition WriteAttemptFailed := str "failed".
Definition WriteAttemptRecoveryNeeded := str "recovery_needed".

Definition WriteAttemptRecoveryCommit := str "commit".
Definition WriteAttemptRecoveryCleanup := str "cleanup".

Record ObjectWriteAttempt := mkObjectWriteAttempt {
  wa_ID : list Z; wa_Bucket : list Z; wa_Key : list Z; wa_InodeID : Z; wa_InodeCTime : Z;
  wa_RecoveryIntent : list Z; wa_CleanupParent : Z; wa_CleanupNewObject : bool;
  wa_RollbackInode : option InodeMeta; wa_Chunks : list ChunkRef; wa_State : list Z; wa_LastError : list Z;
  wa_CreatedAt : Z; wa_UpdatedAt : Z
}.

#[export] Instance ObjectWriteAttempt_eq_dec : EqDecision ObjectWriteAttempt.
Proof. solve_decision. Defined.

(** ** Keys *)

Definition prefixWriteAttempt := str "/write-attempt/".
Definition prefixWriteAttemptState := str "/write-attempt-state/".
Definition prefixBackgroundTask := str "/background-task/".
Definition prefixBackgroundTaskQ := str "/background-task-queue/".

(** [backgroundTaskKey] *)
Definition backgroundTaskKey (id : list Z) : list Z := prefixBackgroundTask ++ id.

(** [backgroundTaskQueuePrefix] *)
Definition backgroundTaskQueuePrefix (taskType state : list Z) : list Z :=
  prefixBackgroundTaskQ ++ taskType ++ str "/" ++ state ++ str "/".

(** [backgroundTaskQueueKey] *)
Definition backgroundTaskQueueKey (taskType state : list Z) (nextRunAt : Z) (id : list Z) : list Z :=
  prefixBackgroundTaskQ ++ taskType ++ str "/" ++ state ++ str "/" ++ Sprintf020d nextRunAt ++ str "/" ++ id.

(** [backgroundTaskFromQueueKey]; the error is a [None]. *)
Definition backgroundTaskFromQueueKey (key : list Z) : option (Z * list Z) :=
  match SplitN slash 3 (TrimPrefix key prefixBackgroundTaskQ) with
  | [_; _; at_; id] => match ParseInt at_ with Some nextRunAt => Some (nextRunAt, id) | None => None end
  | _ => None
  end.

(** [writeAttemptKey] *)
Definition writeAttemptKey (id : list Z) : list Z := prefixWriteAttempt ++ id.

(** [writeAttemptStatePrefix] *)
Definition writeAttemptStatePrefix (state : list Z) : list Z := prefixWriteAttemptState ++ state ++ str "/".

(** [writeAttemptStateKey] *)
Definition writeAttemptStateKey (state : list Z) (updatedAt : Z) (id : list Z) : list Z :=
  prefixWriteAttemptState ++ state ++ str "/" ++ Sprintf020d updatedAt ++ str "/" ++ id.

(** [writeAttemptIDFromStateKey]; the error is a [None]. *)
Definition writeAttemptIDFromStateKey (key : list Z) : option (list Z) :=
  match SplitN slash 2 (TrimPrefix key prefixWriteAttemptState) with
  | [_; at_; id] => match ParseInt at_ with Some _ => Some id | None => None end
  | _ => None
  end.

(** The clock readings of a call and the fate of its commits, by number. *)
Record wq_env := mkWqEnv { we_clock : nat -> Z; we_fail : nat -> option merr }.

Section Queue.
Context {DB : Type} `{KV : PebbleKV DB}.
Context `{CI : Codec InodeMeta} `{CG : Codec BackgroundTask} `{CW : Codec ObjectWriteAttempt} `{CS : Codec (list Z)}.

(** [applyBatch], behind [applyBatchMsgpack]: the sets, then the deletes *)
Definition applyBatch (sets : list BatchOp) (deletes : list (list Z)) : list BatchOp :=
  sets ++ map del_op deletes.

(** ** Background tasks *)

(** [GetBackgroundTask] on a database *)
Definition read_task (db : DB) (id : list Z) : mgo BackgroundTask :=
  let! found := @getValue _ _ _ CG db (backgroundTaskKey id) in
  match found with None => Err ErrEntryNotFound | Some t => Ok t end.

(** [GetBackgroundTask] *)
Definition GetBackgroundTask (id : list Z) : N DB BackgroundTask :=
  do* _ := enter_ns in
  do* s := nget in
  nlift (read_task (ns_db s) id).

Definition queue_key (t : BackgroundTask) : list Z :=
  backgroundTaskQueueKey (bg_Type t) (bg_State t) (bg_NextRunAt t) (bg_ID t).

(** The times [PutBackgroundTask] fills in. *)
Definition stamp_task (now : Z) (t : BackgroundTask) : BackgroundTask :=
  mkBackgroundTask (bg_ID t) (bg_Type t) (bg_State t) (bg_Target t) (bg_IdempotencyKey t) (bg_LeaseOwner t)
    (bg_AttemptCount t) (bg_NextRunAt t) (bg_LastError t)
    (if bg_CreatedAt t =? 0 then now else bg_CreatedAt t) now (bg_OwnerNodes t).

(** The batch of [PutBackgroundTask]. *)
Definition put_task_batch (db : DB) (task : BackgroundTask) : mgo (list BatchOp) :=
  let! deletes :=
    match read_task db (bg_ID task) with
    | Ok existing => Ok [queue_key existing]
    | Err ErrEntryNotFound => Ok []
    | Err e => Err e
    end in
  Ok (applyBatch [set_op (backgroundTaskKey (bg_ID task)) task;
                  @set_op _ CS (queue_key task) (bg_ID task)] deletes).

(** [PutBackgroundTask] with clock reading and commit [n]; it fills in the
    times of the caller's record, which is the result. Nil is [None]. *)
Definition PutBackgroundTask (e : wq_env) (n : nat) (task : option BackgroundTask) : N DB BackgroundTask :=
  do* _ := enter_ns in
  match task with
  | None => nerr ErrInvalidArgument
  | Some task =>
      if (len (bg_ID task) =? 0) || (len (bg_Type task) =? 0) || (len (bg_State task) =? 0)
      then nerr ErrInvalidArgument else
      let task := stamp_task (we_clock e n) task in
      do* s := nget in
      do* ops := nlift (put_task_batch (ns_db s) task) in
      do* _ := applyBatchViaRaft (we_fail e n) ops in
      nret task
  end.

(** [containsUint64] *)
Fixpoint containsUint64 (xs : list Z) (v : Z) : bool :=
  match xs with [] => false | x :: xs => (x =? v) || containsUint64 xs v end.

(** Whether a worker on [nodeID] may lease the task; 0 is any node. *)
Definition may_lease (nodeID : Z) (t : BackgroundTask) : bool :=
  negb (negb (nodeID =? 0) && (0 <? len (bg_OwnerNodes t)) && negb (containsUint64 (bg_OwnerNodes t) nodeID)).

Definition leased_task (owner : list Z) (until : Z) (t : BackgroundTask) : BackgroundTask :=
  mkBackgroundTask (bg_ID t) (bg_Type t) TaskLeased (bg_Target t) (bg_IdempotencyKey t) owner
    (bg_AttemptCount t) until (bg_LastError t) (bg_CreatedAt t) (bg_UpdatedAt t) (bg_OwnerNodes t).

(** The task a scan of the index rows stops at. *)
Fixpoint first_due (db : DB) (now nodeID : Z) (rows : list row) : option BackgroundTask :=
  match rows with
  | [] => None
  | (key, _) :: rows =>
      match backgroundTaskFromQueueKey key with
      | None => first_due db now nodeID rows
      | Some (nextRunAt, id) =>
          if now <? nextRunAt then first_due db now nodeID rows else
          match read_task db id with
          | Err _ => first_due db now nodeID rows
          | Ok task => if may_lease nodeID task then Some task else first_due db now nodeID rows
          end
      end
  end.

Definition queue_rows (db : DB) (taskType state : list Z) : list row :=
  let prefix := backgroundTaskQueuePrefix taskType state in
  kv_range db prefix (prefixUpperBound prefix).

(** The two scans of [leaseBackgroundTask], queued tasks first. *)
Definition due_task (db : DB) (taskType : list Z) (now nodeID : Z) : option BackgroundTask :=
  match first_due db now nodeID (queue_rows db taskType TaskQueued) with
  | Some t => Some t
  | None => first_due db now nodeID (queue_rows db taskType TaskRetrying)
  end.

(** [leaseBackgroundTask]; after the first task that qualifies the scans do
    nothing, so one task at most is written. *)
Definition leaseBackgroundTask (e : wq_env) (taskType : list Z) (nodeID : Z) (owner : list Z) (lease : Z) :
    N DB BackgroundTask :=
  do* _ := enter_ns in
  if len owner =? 0 then nerr ErrInvalidArgument else
  let now := we_clock e 0 in
  do* s := nget in
  match due_task (ns_db s) taskType now nodeID with
  | None => nerr ErrEntryNotFound
  | Some task => PutBackgroundTask e 1 (Some (leased_task owner (i64 (now + lease)) task))
  end.

(** [LeaseBackgroundTask] *)
Definition LeaseBackgroundTask e taskType owner lease : N DB BackgroundTask :=
  leaseBackgroundTask e taskType 0 owner lease.

(** [LeaseBackgroundTaskForNode] *)
Definition LeaseBackgroundTaskForNode e taskType nodeID owner lease : N DB BackgroundTask :=
  leaseBackgroundTask e taskType nodeID owner lease.

Definition completed_task (t : BackgroundTask) : BackgroundTask :=
  mkBackgroundTask (bg_ID t) (bg_Type t) TaskSucceeded (bg_Target t) (bg_IdempotencyKey t) []
    (bg_AttemptCount t) (bg_NextRunAt t) (bg_LastError t) (bg_CreatedAt t) (bg_UpdatedAt t) (bg_OwnerNodes t).

(** [CompleteBackgroundTask] *)
Definition CompleteBackgroundTask (e : wq_env) (id : list Z) : N DB unit :=
  do* task := GetBackgroundTask id in
  do* _ := PutBackgroundTask e 0 (Some (completed_task task)) in
  nret tt.

Definition second : Z := 1000000000.

(** The record [FailBackgroundTask] writes. *)
Definition failed_task (now : Z) (lastErr : list Z) (maxAttempts : Z) (t : BackgroundTask) : BackgroundTask :=
  let count := i64 (bg_AttemptCount t + 1) in
  let maxAttempts := if maxAttempts <=? 0 then 3 else maxAttempts in
  let dead := maxAttempts <=? count in
  mkBackgroundTask (bg_ID t) (bg_Type t) (if dead then TaskDeadLetter else TaskRetrying) (bg_Target t)
    (bg_IdempotencyKey t) [] count
    (if dead then bg_NextRunAt t else i64 (now + i64 (second * count)))
    lastErr (bg_CreatedAt t) (bg_UpdatedAt t) (bg_OwnerNodes t).

(** [FailBackgroundTask] *)
Definition FailBackgroundTask (e : wq_env) (id lastErr : list Z) (maxAttempts : Z) : N DB unit :=
  do* task := GetBackgroundTask id in
  do* _ := PutBackgroundTask e 1 (Some (failed_task (we_clock e 0) lastErr maxAttempts task)) in
  nret tt.

(** ** Write attempts *)

Definition with_intent (intent : list Z) (a : ObjectWriteAttempt) : ObjectWriteAttempt :=
  mkObjectWriteAttempt (wa_ID a) (wa_Bucket a) (wa_Key a) (wa_InodeID a) (wa_InodeCTime a) intent
    (wa_CleanupParent a) (wa_CleanupNewObject a) (wa_RollbackInode a) (wa_Chunks a) (wa_State a)
    (wa_LastError a) (wa_CreatedAt a) (wa_UpdatedAt a).

(** The default of [RecoveryIntent], on reading and on writing. *)
Definition default_intent (a : ObjectWriteAttempt) : ObjectWriteAttempt :=
  if len (wa_RecoveryIntent a) =? 0 then with_intent WriteAttemptRecoveryCommit a else a.

Definition stamp_attempt (now : Z) (a : ObjectWriteAttempt) : ObjectWriteAttempt :=
  mkObjectWriteAttempt (wa_ID a) (wa_Bucket a) (wa_Key a) (wa_InodeID a) (wa_InodeCTime a) (wa_RecoveryIntent a)
    (wa_CleanupParent a) (wa_CleanupNewObject a) (wa_RollbackInode a) (wa_Chunks a) (wa_State a)
    (wa_LastError a) (if wa_CreatedAt a =? 0 then now else wa_CreatedAt a) now.

(** [GetWriteAttempt] on a database *)
Definition read_attempt (db : DB) (id : list Z) : mgo ObjectWriteAttempt :=
  let! found := @getValue _ _ _ CW db (writeAttemptKey id) in
  match found with None => Err ErrEntryNotFound | Some a => Ok (default_intent a) end.

(** [GetWriteAttempt] *)
Definition GetWriteAttempt (id : list Z) : N DB ObjectWriteAttempt :=
  do* _ := enter_ns in
  do* s := nget in
  nlift (read_attempt (ns_db s) id).

Definition state_key (a : ObjectWriteAttempt) : list Z :=
  writeAttemptStateKey (wa_State a) (wa_UpdatedAt a) (wa_ID a).

(** The batch of [PutWriteAttempt]. *)
Definition put_attempt_batch (db : DB) (attempt : ObjectWriteAttempt) : mgo (list BatchOp) :=
  let! deletes :=
    match read_attempt db (wa_ID attempt) with
    | Ok existing => Ok [state_key existing]
    | Err ErrEntryNotFound => Ok []
    | Err e => Err e
    end in
  Ok (applyBatch [set_op (writeAttemptKey (wa_ID attempt)) attempt;
                  @set_op _ CS (state_key attempt) (wa_ID attempt)] deletes).

(** [PutWriteAttempt] with clock reading and commit [n] *)
Definition PutWriteAttempt (e : wq_env) (n : nat) (attempt : option ObjectWriteAttempt) : N DB unit :=
  do* _ := enter_ns in
  match attempt with
  | None => nerr ErrInvalidArgument
  | Some attempt =>
      if len (wa_ID attempt) =? 0 then nerr ErrInvalidArgument else
      let attempt := stamp_attempt (we_clock e n) (default_intent attempt) in
      do* s := nget in
      do* ops := nlift (put_attempt_batch (ns_db s) attempt) in
      applyBatchViaRaft (we_fail e n) ops
  end.

Definition state_rows (db : DB) (state : list Z) : list row :=
  let prefix := writeAttemptStatePrefix state in
  kv_range db prefix (prefixUpperBound prefix).

Fixpoint collect_attempts (db : DB) (limit : Z) (rows : list row) (acc : list ObjectWriteAttempt) :
    list ObjectWriteAttempt :=
  match rows with
  | [] => acc
  | (key, _) :: rows =>
      if limit <=? len acc then collect_attempts db limit rows acc else
      match writeAttemptIDFromStateKey key with
      | None => collect_attempts db limit rows acc
      | Some id =>
          match read_attempt db id with
          | Err _ => collect_attempts db limit rows acc
          | Ok a => collect_attempts db limit rows (acc ++ [a])
          end
      end
  end.

(** [ListWriteAttemptsByState] *)
Definition ListWriteAttemptsByState (state : list Z) (limit : Z) : N DB (list ObjectWriteAttempt) :=
  do* _ := enter_ns in
  do* s := nget in
  nret (collect_attempts (ns_db s) (if limit <=? 0 then 100 else limit) (state_rows (ns_db s) state) []).

(** [CountWriteAttemptsByState] *)
Definition CountWriteAttemptsByState (state : list Z) : N DB Z :=
  do* _ := enter_ns in
  do* s := nget in
  nret (len (state_rows (ns_db s) state)).

(** [DeleteWriteAttempt] *)
Definition DeleteWriteAttempt (e : wq_env) (n : nat) (id : list Z) : N DB unit :=
  do* _ := enter_ns in
  do* attempt := GetWriteAttempt id in
  applyBatchViaRaft (we_fail e n)
    (applyBatch [] [writeAttemptKey id; writeAttemptStateKey (wa_State attempt) (wa_UpdatedAt attempt) id]).

(** ** Conversion to erasure coding *)

Context `{C2 : Codec InodeMetaV2} `{CK : Codec ChunkMeta}.

Definition ECConversionIdleAge : Z := 30 * 24 * 3600 * second.

Record ConversionEligibility := mkConversionEligibility {
  ce_Inode : Z; ce_Extent : Z; ce_ExtentCreated : Z; ce_Size : Z; ce_OwnerNodes : list Z
}.

(** The replica holders, each once, in order; node 0 is none. *)
Fixpoint owner_nodes (seen : list Z) (replicas : list ReplicaInfo) : list Z :=
  match replicas with
  | [] => []
  | r :: replicas =>
      let id := ri_NodeID r in
      if (id =? 0) || bool_decide (id ∈ seen) then owner_nodes seen replicas
      else id :: owner_nodes (id :: seen) replicas
  end.

(** [ECConversionEligible]; [time.Since] saturates far above the age. *)
Definition ECConversionEligible (now id : Z) (inode : InodeMetaV2) (ext : ExtentMetaV2) :
    N DB (option ConversionEligibility) :=
  let created := if ex_CreatedAt ext =? 0 then i2_MTime inode else ex_CreatedAt ext in
  if now - created <? ECConversionIdleAge then nret None else
  if (ex_StorageClass ext =? StorageClassColdEC) || negb (len (ex_ECStripeID ext) =? 0) then nret None else
  if negb (ex_Lifecycle ext =? LifecycleReady) then nret None else
  fun s =>
    match GetChunk (ex_ID ext) s with
    | (s, Err _) => (s, Ok None)
    | (s, Ok chunk) =>
        if bool_decide (is_Some (ck_ECGroup chunk)) || negb (len (ck_ECStripeID chunk) =? 0) then (s, Ok None)
        else (s, Ok (Some (mkConversionEligibility id (ex_ID ext) created (ex_LogicalLen ext)
                             (owner_nodes [] (ck_Replicas chunk)))))
    end.

Definition conversion_id (extent : Z) : list Z := str "ec-convert-" ++ FormatUint extent.

(** [SubmitConversion] *)
Definition SubmitConversion (e : wq_env) (elig : ConversionEligibility) : N DB unit :=
  let taskID := conversion_id (ce_Extent elig) in
  fun s =>
    match GetBackgroundTask taskID s with
    | (s, Ok _) => (s, Ok tt)
    | (s, Err ErrEntryNotFound) =>
        let now := we_clock e 0 in
        let task := mkBackgroundTask taskID TaskECConvert TaskQueued taskID [] [] 0 now [] now 0
                      (ce_OwnerNodes elig) in
        (do* _ := PutBackgroundTask e 1 (Some task) in nret tt) s
    | (s, Err x) => (s, Err x)
    end.

(** What [ECConversionScheduler.run] counts. *)
Record scan_counts := mkScanCounts { sc_scanned : Z; sc_eligible : Z; sc_submitted : Z; sc_skipped : Z }.

(** One inode row of [ScanV2Inlines] and the callback of [run], whose errors
    are logged; [e n] are the readings of the [n]-th row. *)
Definition schedule_row (e : wq_env) (now : Z) (value : list Z) (c : scan_counts) : N DB scan_counts :=
  match @unmarshalValue _ C2 value with
  | Err _ => nret c
  | Ok inode =>
      if negb (i2_Layout inode =? LayoutInlineExtent) then nret c else
      match i2_InlineExtent inode with
      | None => nret c
      | Some ext =>
          let scanned := sc_scanned c + 1 in
          do* elig := ECConversionEligible now (i2_ID inode) inode ext in
          match elig with
          | None => nret (mkScanCounts scanned (sc_eligible c) (sc_submitted c) (sc_skipped c + 1))
          | Some elig => fun s =>
              match SubmitConversion e elig s with
              | (s, Ok _) =>
                  (s, Ok (mkScanCounts scanned (sc_eligible c + 1) (sc_submitted c + 1) (sc_skipped c)))
              | (s, Err _) => (s, Ok (mkScanCounts scanned (sc_eligible c + 1) (sc_submitted c) (sc_skipped c)))
              end
          end
      end
  end.

Fixpoint schedule_rows (e : nat -> wq_env) (now : nat -> Z) (n : nat) (rows : list row) (c : scan_counts) :
    N DB scan_counts :=
  match rows with
  | [] => nret c
  | (_, value) :: rows =>
      do* c := schedule_row (e n) (now n) value c in
      schedule_rows e now (S n) rows c
  end.

(** One pass of [ECConversionScheduler.run] *)
Definition scheduler_run (e : nat -> wq_env) (now : nat -> Z) : N DB scan_counts :=
  do* _ := enter_ns in
  do* s := nget in
  schedule_rows e now 0 (kv_range (ns_db s) prefixInode (prefixUpperBound prefixInode)) (mkScanCounts 0 0 0 0).

(** The rows of [ConversionQueue] *)
Fixpoint conversion_tasks (db : DB) (rows : list row) : list BackgroundTask :=
  match rows with
  | [] => []
  | (key, _) :: rows =>
      match backgroundTaskFromQueueKey key with
      | None => conversion_tasks db rows
      | Some (_, id) => match read_task db id with
                        | Err _ => conversion_tasks db rows
                        | Ok t => t :: conversion_tasks db rows
                        end
      end
  end.

(** [ConversionQueue] *)
Definition ConversionQueue : N DB (list BackgroundTask) :=
  do* _ := enter_ns in
  do* s := nget in
  nret (conversion_tasks (ns_db s) (queue_rows (ns_db s) TaskECConvert TaskQueued)).
End Queue.
