(* ===== verification/WorkIndex.v ===== *)
(** * Records with an index row

    The two queues of [WorkQueue.v] keep each record twice: under its id, and
    as a key of an index that sorts by what workers scan for. The class
    [Indexed] is what a kind of record promises about its keys; the lemmas say
    when a database represents a finite map of records and what a prefix scan
    of the index then yields. Also the round trips of the numbers in keys. *)

From stdpp Require Import base list sorting numbers strings gmap.
From Stdlib Require Import ZArith Lia.
From S2P Require Import Prelude Bytes Pebble MetaKeys MetaScan MetaTypes RaftLog MetaFSM Namespace MetaFSMProofs.
From S2P Require Import Extents NamespaceSpec NamespaceProgress ExtentProofs WorkQueue.

Local Open Scope Z_scope.

(** ** Numbers in keys *)

Lemma parse_zeros k s : parse_digits 0 (replicate k 48 ++ s) = parse_digits 0 s.
Proof. induction k as [|k IH]; [done|]. cbn [replicate app parse_digits]. exact IH. Qed.

Lemma ParseUint_pad0 w n : is_u64 n -> ParseUint (pad0 w (FormatUint n)) = Some n.
Proof.
  intros Hn. pose proof (ParseUint_FormatUint n Hn) as E. unfold ParseUint, pad0 in *.
  pose proof (FormatUint_nonempty n) as Hne. destruct (FormatUint n) as [|c s] eqn:F; [done|].
  destruct (replicate _ 48 ++ c :: s) eqn:R; [by destruct (replicate _ _)|]. by rewrite <- R, parse_zeros.
Qed.

Lemma pad0_digits w n : Forall digit (pad0 w (FormatUint n)).
Proof.
  apply Forall_app. split; [|apply FormatUint_digits]. apply Forall_replicate. unfold digit. lia.
Qed.

Lemma pad0_nonempty w n : pad0 w (FormatUint n) <> [].
Proof. unfold pad0. intros [_ E]%app_eq_nil. by apply FormatUint_nonempty in E. Qed.

Lemma ParseInt_Sprintf020d n : is_i64 n -> ParseInt (Sprintf020d n) = Some n.
Proof.
  intros Hn. unfold is_i64 in Hn. unfold Sprintf020d. destruct (Z.ltb_spec n 0).
  - cbn [ParseInt]. change (45 =? 45) with true. cbv iota. unfold signed.
    rewrite ParseUint_pad0 by (unfold uintw; lia). destruct (Z.leb_spec (- n) (2 ^ 63)); [f_equal|]; lia.
  - pose proof (ParseUint_pad0 20 n ltac:(unfold uintw; lia)) as E. pose proof (pad0_digits 20 n) as D.
    destruct (pad0 20 (FormatUint n)) as [|c s]; [done|]. apply Forall_inv in D. unfold digit in D.
    cbn [ParseInt]. destruct (Z.eqb_spec c 45); [lia|]. destruct (Z.eqb_spec c 43); [lia|].
    unfold signed. rewrite E. destruct (Z.ltb_spec n (2 ^ 63)); [done|lia].
Qed.

(** The characters of [%020d]: a minus sign and digits, so no slash. *)
Lemma Sprintf020d_no_slash n : slash ∉ Sprintf020d n.
Proof.
  assert (forall w m, slash ∉ pad0 w (FormatUint m)) as H.
  { intros w m Hin. pose proof (pad0_digits w m) as D. rewrite Forall_forall in D. apply D in Hin.
    unfold digit, slash in Hin. lia. }
  unfold Sprintf020d. destruct (n <? 0); [|apply H]. rewrite elem_of_cons. intros [?|?]; [done|by eapply H].
Qed.

Lemma Sprintf020d_wf n : bytes_wf (Sprintf020d n).
Proof.
  assert (forall w m, bytes_wf (pad0 w (FormatUint m))) as H.
  { intros w m. eapply Forall_impl; [apply pad0_digits|]. intros c Hc. unfold digit in Hc.
    change (0 <= c < 256). lia. }
  unfold Sprintf020d. destruct (n <? 0); [|apply H]. constructor; [|apply H]. change (0 <= 45 < 256). lia.
Qed.

Lemma Sprintf020d_inj n m : is_i64 n -> is_i64 m -> Sprintf020d n = Sprintf020d m -> n = m.
Proof.
  intros Hn Hm E. apply (f_equal ParseInt) in E. rewrite !ParseInt_Sprintf020d in E by done. congruence.
Qed.

(** Padded decimal numbers sort as numbers. *)

Fixpoint dval (acc : Z) (s : list Z) : Z :=
  match s with [] => acc | c :: s => dval (acc * 10 + (c - 48)) s end.

Lemma parse_dval acc s n : parse_digits acc s = Some n -> dval acc s = n.
Proof.
  revert acc. induction s as [|c s IH]; intros acc; cbn [parse_digits dval]; [congruence|].
  destruct (_ || _); [done|]. destruct (_ <=? _); [done|]. apply IH.
Qed.

Lemma dval_acc acc s : dval acc s = acc * 10 ^ Z.of_nat (length s) + dval 0 s.
Proof.
  revert acc. induction s as [|c s IH]; intros acc; cbn [dval length]; [cbn; lia|].
  rewrite IH, (IH (0 * 10 + (c - 48))), Nat2Z.inj_succ, Z.pow_succ_r by lia. lia.
Qed.

Lemma dval_bound s : Forall digit s -> 0 <= dval 0 s < 10 ^ Z.of_nat (length s).
Proof.
  induction 1 as [|c s Hc _ IH]; [cbn; lia|]. cbn [dval length]. rewrite dval_acc. unfold digit in Hc.
  rewrite Nat2Z.inj_succ, Z.pow_succ_r by lia. set (m := 10 ^ Z.of_nat (length s)) in *. clearbody m.
  pose proof (Z.mul_nonneg_nonneg (c - 48) m). pose proof (Z.mul_nonneg_nonneg (57 - c) m). lia.
Qed.

Lemma bytes_ltb_dval a b :
  Forall digit a -> Forall digit b -> length a = length b -> bytes_ltb a b = (dval 0 a <? dval 0 b).
Proof.
  intros Ha. revert b. induction Ha as [|x a Hx Ha IH]; intros b Hb Hl.
  { destruct Hb; [done|discriminate]. }
  destruct Hb as [|y b Hy Hb]; [done|]. injection Hl as Hl. cbn [bytes_ltb dval].
  rewrite IH, (dval_acc (0 * 10 + (x - 48)) a), (dval_acc (0 * 10 + (y - 48)) b), Hl by done.
  pose proof (dval_bound a Ha) as B1. pose proof (dval_bound b Hb) as B2. rewrite Hl in B1.
  set (m := 10 ^ Z.of_nat (length b)) in *. clearbody m.
  destruct (Z.ltb_spec x y), (Z.eqb_spec x y); cbn [orb andb]; try lia.
  - symmetry. apply Z.ltb_lt. pose proof (Z.mul_nonneg_nonneg (y - x - 1) m). lia.
  - symmetry. apply Z.ltb_ge. pose proof (Z.mul_nonneg_nonneg (x - y - 1) m). lia.
Qed.

Lemma dval_pad0 w n : is_u64 n -> dval 0 (pad0 w (FormatUint n)) = n.
Proof.
  intros Hn. apply parse_dval. pose proof (ParseUint_pad0 w n Hn) as E. pose proof (pad0_nonempty w n) as Hne.
  unfold ParseUint in E. by destruct (pad0 w (FormatUint n)).
Qed.

Lemma pad0_length n : length (pad0 20 (FormatUint n)) = 20%nat.
Proof. unfold pad0. rewrite length_app, length_replicate. pose proof (FormatUint_length n). lia. Qed.

Lemma Sprintf020d_order n m s t :
  is_u64 n -> is_u64 m ->
  bytes_ltb (Sprintf020d n ++ s) (Sprintf020d m ++ t) = (n <? m) || ((n =? m) && bytes_ltb s t).
Proof.
  intros Hn Hm. unfold Sprintf020d. unfold uintw in *.
  destruct (Z.ltb_spec n 0); [lia|]. destruct (Z.ltb_spec m 0); [lia|].
  rewrite bytes_ltb_app by (by rewrite !pad0_length).
  rewrite bytes_ltb_dval by (apply pad0_digits || by rewrite !pad0_length).
  rewrite !dval_pad0 by done. f_equal. f_equal.
  destruct (Z.eqb_spec n m) as [->|Hne]; [by apply bool_decide_eq_true_2|].
  apply bool_decide_eq_false_2. intros E. apply (f_equal (dval 0)) in E. by rewrite !dval_pad0 in E.
Qed.

(** ** Splitting keys *)

Lemma cut_app sep (a r : list Z) : sep ∉ a -> cut sep (a ++ sep :: r) = (a, Some r).
Proof.
  induction a as [|c a IH]; intros Hn; cbn [app cut].
  - by rewrite Z.eqb_refl.
  - apply not_elem_of_cons in Hn as [Hc Hn]. destruct (Z.eqb_spec c sep); [congruence|]. by rewrite IH.
Qed.

Lemma SplitN_app sep n (a r : list Z) : sep ∉ a -> SplitN sep (S n) (a ++ sep :: r) = a :: SplitN sep n r.
Proof. intros Hn. cbn [SplitN]. by rewrite cut_app. Qed.

(** A part without the separator determines where it ends. *)
Lemma part_inj sep (a b r t : list Z) : sep ∉ a -> sep ∉ b -> a ++ sep :: r = b ++ sep :: t -> a = b /\ r = t.
Proof.
  intros Ha Hb E. apply (f_equal (cut sep)) in E. rewrite !cut_app in E by done. by injection E.
Qed.

Lemma part_prefix sep (a b r t : list Z) :
  sep ∉ a -> sep ∉ b -> HasPrefix (a ++ sep :: r) (b ++ sep :: t) = bool_decide (a = b) && HasPrefix r t.
Proof.
  intros Ha Hb. apply eq_true_iff_eq. rewrite andb_true_iff, bool_decide_eq_true, !HasPrefix_spec. split.
  - intros [u E]. rewrite <- app_assoc in E. cbn [app] in E. apply part_inj in E as [-> ->]; [|done..]. eauto.
  - intros [-> [u ->]]. exists u. by rewrite <- app_assoc.
Qed.

Lemma sorted_map_iff {A B} (f : A -> B) (R : B -> B -> Prop) l :
  StronglySorted R (map f l) <-> StronglySorted (fun x y => R (f x) (f y)) l.
Proof.
  induction l as [|x l IH]; cbn [map]; [split; constructor|].
  split; intros Hs; apply StronglySorted_inv in Hs as [Hs Hf]; (constructor; [by apply IH|]);
    rewrite Forall_map in *; exact Hf.
Qed.

(** ** Indexed records *)

Class Indexed (A : Type) := {
  ix_ID : A -> list Z;
  ix_row : list Z -> list Z;      (* the key of the record's row *)
  ix_key : A -> list Z;           (* the key of its index row *)
  ix_prefix : list Z;             (* what all index keys start with *)
  ix_live : A -> bool;            (* whether workers look for it *)
  ix_wf : A -> Prop
}.

Class IndexedLaws (A : Type) `{Indexed A} : Prop := {
  ix_row_inj i j : ix_row i = ix_row j -> i = j;
  ix_key_inj x y : ix_wf x -> ix_wf y -> ix_key x = ix_key y -> ix_ID x = ix_ID y;
  ix_key_prefix x : HasPrefix (ix_key x) ix_prefix = true;
  ix_row_prefix i : HasPrefix (ix_row i) ix_prefix = false;
  ix_row_bytes (x : A) : ix_wf x -> bytes_wf (ix_row (ix_ID x));
  ix_key_bytes x : ix_wf x -> bytes_wf (ix_key x);
  ix_row_plain i : plain_key (ix_row i);
  ix_key_plain x : plain_key (ix_key x)
}.

(** Both accesses to [CodecLaws] of a record type. *)
Section Index.
Context {DB : Type} `{KL : PebbleLaws DB}.
Context {A : Type} `{CA : CodecLaws A} `{IL : IndexedLaws A}.
Context `{CI : Codec InodeMeta} `{CS : Codec (list Z)}.

(** The database holds exactly the records [q], its index has no row of
    anything else, and none of a live record is missing. *)
Record indexed (db : DB) (q : gmap (list Z) A) : Prop := mkIndexed {
  id_rows id : kv_get db (ix_row id) = marshalValue <$> q !! id;
  id_wf id x : q !! id = Some x -> ix_ID x = id /\ ix_wf x;
  id_sound k v : HasPrefix k ix_prefix = true -> kv_get db k = Some v -> exists id x, q !! id = Some x /\ k = ix_key x;
  id_complete id x : q !! id = Some x -> ix_live x = true -> is_Some (kv_get db (ix_key x));
  id_bytes k v : kv_get db k = Some v -> bytes_wf k
}.

(** The batch of a write that found [old]. *)
Definition put_ops (old : option A) (x : A) : list BatchOp :=
  applyBatch [set_op (ix_row (ix_ID x)) x; @set_op _ CS (ix_key x) (ix_ID x)]
    match old with Some o => [ix_key o] | None => [] end.

Lemma row_not_key i (x : A) : ix_row i <> ix_key x.
Proof. intros E. pose proof (ix_row_prefix i) as Hp. by rewrite E, ix_key_prefix in Hp. Qed.

Lemma kv_get_put_ops (db : DB) old (x : A) k :
  kv_get (fold_left apply_op (put_ops old x) db) k =
    match old with
    | Some o => if bool_decide (ix_key o = k) then None
                else if bool_decide (ix_key x = k) then Some (marshalValue (ix_ID x))
                else if bool_decide (ix_row (ix_ID x) = k) then Some (marshalValue x) else kv_get db k
    | None => if bool_decide (ix_key x = k) then Some (marshalValue (ix_ID x))
              else if bool_decide (ix_row (ix_ID x) = k) then Some (marshalValue x) else kv_get db k
    end.
Proof.
  unfold put_ops, applyBatch. destruct old as [o|]; cbn [map app fold_left];
    rewrite !kv_get_apply_op; reflexivity.
Qed.

(** Rows of other components. *)
Definition foreign (k : list Z) : Prop := HasPrefix k (@ix_prefix A _) = false /\ forall id, ix_row id <> k.

Lemma foreign_key (x : A) k : foreign k -> ix_key x <> k.
Proof. intros [Hp _] <-. by rewrite ix_key_prefix in Hp. Qed.

Lemma put_ops_foreign (db : DB) old (x : A) k :
  foreign k -> kv_get (fold_left apply_op (put_ops old x) db) k = kv_get db k.
Proof.
  intros F. rewrite kv_get_put_ops. rewrite !(bool_decide_eq_false_2 (ix_key x = k)) by (by apply foreign_key).
  rewrite !bool_decide_eq_false_2 by apply F. destruct old as [o|]; [|done].
  by rewrite bool_decide_eq_false_2 by (by apply foreign_key).
Qed.

Lemma put_ops_plain (db : DB) old (x : A) overlay : prepare_ops db overlay (put_ops old x) = Ok tt.
Proof.
  unfold put_ops, applyBatch. destruct old; cbn [map app prepare_ops];
    repeat (rewrite prepare_plain by (apply ix_row_plain || apply ix_key_plain); rewrite bind_Ok); done.
Qed.

(** A write keeps the representation unless it deletes the index row it has
    just set: the new index key must differ from the old one. *)
Lemma indexed_put (db : DB) q x :
  indexed db q -> ix_wf x ->
  (forall o, q !! ix_ID x = Some o -> ix_live x = true -> ix_key o <> ix_key x) ->
  indexed (fold_left apply_op (put_ops (q !! ix_ID x) x) db) (<[ix_ID x := x]> q).
Proof.
  intros R W Hk. assert (forall o, q !! ix_ID x = Some o -> ix_ID o = ix_ID x /\ ix_wf o) as Ho
    by (intros; by eapply id_wf).
  constructor.
  - intros id. rewrite kv_get_put_ops. rewrite lookup_insert.
    destruct (q !! ix_ID x) as [o|] eqn:Eo.
    all: try rewrite (bool_decide_eq_false_2 (ix_key o = ix_row id)) by (intros E; by eapply row_not_key).
    all: rewrite (bool_decide_eq_false_2 (ix_key x = ix_row id)) by (intros E; by eapply row_not_key).
    all: case_decide as D; [subst; by rewrite bool_decide_eq_true_2|].
    all: rewrite bool_decide_eq_false_2 by (intros E%ix_row_inj; done); apply (id_rows _ _ R).
  - intros id y. rewrite lookup_insert. case_decide; [intros [= <-]; by subst|apply (id_wf _ _ R)].
  - intros k v Hp. rewrite kv_get_put_ops.
    assert (kv_get db k = Some v -> (forall o, q !! ix_ID x = Some o -> ix_key o <> k) ->
            exists id y, <[ix_ID x := x]> q !! id = Some y /\ k = ix_key y) as Hold.
    { intros Hg Hne. destruct (id_sound _ _ R k v Hp Hg) as (id & y & Hy & ->). exists id, y. split; [|done].
      rewrite lookup_insert_ne; [done|]. intros <-. by eapply Hne. }
    assert (ix_key x = k -> exists id y, <[ix_ID x := x]> q !! id = Some y /\ k = ix_key y) as Hnew.
    { intros <-. exists (ix_ID x), x. by rewrite lookup_insert_eq. }
    destruct (q !! ix_ID x) as [o|]; repeat case_bool_decide; try done; eauto.
    all: try (subst k; by rewrite ix_row_prefix in Hp).
    intros Hg. apply Hold; [done|]. by intros ? [= <-].
  - intros id y. rewrite kv_get_put_ops, lookup_insert. case_decide as D.
    + intros [= <-] Hl. subst id. destruct (q !! ix_ID x) as [o|] eqn:Eo.
      * rewrite (bool_decide_eq_false_2 (ix_key o = ix_key x)) by (by apply Hk). by rewrite bool_decide_eq_true_2.
      * by rewrite bool_decide_eq_true_2.
    + intros Hy Hl. destruct (id_wf _ _ R _ _ Hy) as [Hid Hw].
      rewrite !(bool_decide_eq_false_2 (ix_row _ = _)) by (intros E; by eapply row_not_key).
      destruct (id_complete _ _ R _ _ Hy Hl) as [v Hv].
      rewrite (bool_decide_eq_false_2 (ix_key x = ix_key y)) by (intros E%ix_key_inj; congruence).
      destruct (q !! ix_ID x) as [o|] eqn:Eo; [|by rewrite Hv].
      destruct (Ho _ eq_refl). rewrite bool_decide_eq_false_2 by (intros E%ix_key_inj; congruence). by rewrite Hv.
  - intros k v. rewrite kv_get_put_ops.
    destruct (q !! ix_ID x) as [o|]; repeat case_bool_decide; intros E; subst; try done;
      (by apply ix_key_bytes) || (by apply ix_row_bytes) || (by eapply id_bytes).
Qed.

Lemma kv_get_delete_ops (db : DB) (x : A) k :
  kv_get (fold_left apply_op (applyBatch [] [ix_row (ix_ID x); ix_key x]) db) k =
    if bool_decide (ix_key x = k) then None else if bool_decide (ix_row (ix_ID x) = k) then None else kv_get db k.
Proof. unfold applyBatch. cbn [map app fold_left]. by rewrite !kv_get_apply_op. Qed.

Lemma delete_ops_foreign (db : DB) (x : A) k :
  foreign k -> kv_get (fold_left apply_op (applyBatch [] [ix_row (ix_ID x); ix_key x]) db) k = kv_get db k.
Proof.
  intros F. rewrite kv_get_delete_ops. rewrite bool_decide_eq_false_2 by (by apply foreign_key).
  rewrite bool_decide_eq_false_2 by apply F. done.
Qed.

Lemma delete_ops_plain (db : DB) (x : A) overlay :
  prepare_ops db overlay (applyBatch [] [ix_row (ix_ID x); ix_key x]) = Ok tt.
Proof.
  unfold applyBatch. cbn [map app prepare_ops].
  repeat (rewrite prepare_plain by (apply ix_row_plain || apply ix_key_plain); rewrite bind_Ok); done.
Qed.

Lemma indexed_delete (db : DB) q x :
  indexed db q -> q !! ix_ID x = Some x ->
  indexed (fold_left apply_op (applyBatch [] [ix_row (ix_ID x); ix_key x]) db) (delete (ix_ID x) q).
Proof.
  intros R Hx. destruct (id_wf _ _ R _ _ Hx) as [_ W]. constructor.
  - intros id. rewrite kv_get_delete_ops, lookup_delete.
    rewrite (bool_decide_eq_false_2 (ix_key x = ix_row id)) by (intros E; by eapply row_not_key).
    case_decide as D; [subst; by rewrite bool_decide_eq_true_2|].
    rewrite bool_decide_eq_false_2 by (intros E%ix_row_inj; done). apply (id_rows _ _ R).
  - intros id y [_ Hy]%lookup_delete_Some. by apply (id_wf _ _ R).
  - intros k v Hp. rewrite kv_get_delete_ops. repeat case_bool_decide; try done. intros Hg.
    destruct (id_sound _ _ R k v Hp Hg) as (id & y & Hy & ->). exists id, y. split; [|done].
    rewrite lookup_delete_ne; [done|]. intros <-. congruence.
  - intros id y [Hne Hy]%lookup_delete_Some Hl. destruct (id_wf _ _ R _ _ Hy) as [Hid Hw]. rewrite kv_get_delete_ops.
    rewrite (bool_decide_eq_false_2 (ix_row _ = _)) by (intros E; by eapply row_not_key).
    rewrite bool_decide_eq_false_2 by (intros E%ix_key_inj; congruence). by apply (id_complete _ _ R id).
  - intros k v. rewrite kv_get_delete_ops. repeat case_bool_decide; try done. apply (id_bytes _ _ R).
Qed.

(** Changes outside the two key families do not matter. *)
Lemma indexed_frame (db db' : DB) q :
  indexed db q -> (forall id, kv_get db' (ix_row id) = kv_get db (ix_row id)) ->
  (forall k, HasPrefix k ix_prefix = true -> kv_get db' k = kv_get db k) ->
  (forall k v, kv_get db' k = Some v -> bytes_wf k) -> indexed db' q.
Proof.
  intros R Hr Hk Hb. constructor; [|apply (id_wf _ _ R)| | |done].
  - intros id. rewrite Hr. apply (id_rows _ _ R).
  - intros k v Hp Hg. rewrite Hk in Hg by done. by apply (id_sound _ _ R k v).
  - intros id x Hx Hl. rewrite Hk by apply ix_key_prefix. by apply (id_complete _ _ R id).
Qed.

(** The index rows under a prefix whose records are all live are exactly
    those of its records, in key order. *)
Lemma index_scan (db : DB) q P :
  indexed db q -> bytes_wf P -> HasPrefix P ix_prefix = true ->
  (forall id x, q !! id = Some x -> HasPrefix (ix_key x) P = true -> ix_live x = true) ->
  exists l, map fst (kv_range db P (prefixUpperBound P)) = map ix_key l /\
    StronglySorted (fun x y => bytes_lt (ix_key x) (ix_key y)) l /\
    (forall x, x ∈ l <-> q !! ix_ID x = Some x /\ HasPrefix (ix_key x) P = true).
Proof.
  intros R WP HP Hl. set (rows := kv_range db P (prefixUpperBound P)).
  assert (forall k, k ∈ map fst rows <-> exists x, q !! ix_ID x = Some x /\ k = ix_key x /\ HasPrefix k P = true) as Hin.
  { intros k. rewrite list_elem_of_fmap. split.
    - intros ([k' v] & -> & [Hg Hr]%elem_of_kv_range). cbn [fst]. pose proof (id_bytes _ _ R _ _ Hg) as Hb.
      rewrite in_range_prefix in Hr by done.
      destruct (id_sound _ _ R k' v) as (id & x & Hx & ->); [|done|].
      { apply HasPrefix_spec in HP as [r ->]. apply HasPrefix_spec in Hr as [t ->].
        rewrite <- app_assoc. apply HasPrefix_app. }
      exists x. destruct (id_wf _ _ R _ _ Hx) as [-> _]. done.
    - intros (x & Hx & -> & Hp). destruct (id_complete _ _ R _ _ Hx (Hl _ _ Hx Hp)) as [v Hv].
      exists (ix_key x, v). split; [done|]. apply elem_of_kv_range. split; [done|].
      rewrite in_range_prefix; [done..|]. by eapply id_bytes. }
  assert (forall ks, (forall k, k ∈ ks -> k ∈ map fst rows) ->
    exists l, ks = map ix_key l /\ Forall (fun x => q !! ix_ID x = Some x /\ HasPrefix (ix_key x) P = true) l) as Hc.
  { induction ks as [|k ks IH]; intros Hs; [by exists []|].
    destruct IH as (l & -> & Fl); [intros; apply Hs; by right|].
    destruct (proj1 (Hin k)) as (x & Hx & -> & Hp); [apply Hs; by left|].
    exists (x :: l). split; [done|]. by constructor. }
  destruct (Hc (map fst rows)) as (l & El & Fl); [done|]. exists l. split; [done|]. split.
  - apply (sorted_map_iff ix_key bytes_lt). rewrite <- El. apply sorted_map_iff, kv_range_sorted.
  - intros x. rewrite Forall_forall in Fl. split; [apply Fl|]. intros [Hx Hp].
    assert (ix_key x ∈ map fst rows) as Hk by (apply Hin; eauto).
    rewrite El in Hk. apply list_elem_of_fmap in Hk as (y & Ey & Hy). destruct (Fl y Hy) as [Hqy _].
    destruct (id_wf _ _ R _ _ Hx), (id_wf _ _ R _ _ Hqy). apply ix_key_inj in Ey; [|done..].
    by replace x with y by congruence.
Qed.
End Index.

Arguments foreign A {_} k.
