(* ===== verification/WorkQueueProofs.v ===== *)
(** * What the queue calls do to the queues

    The two kinds of records as instances of [Indexed], their keys, and the
    runs of the calls of [WorkQueue.v] on a store that represents a map of
    tasks or of attempts. *)

From stdpp Require Import base list sorting numbers strings gmap.
From Stdlib Require Import ZArith Lia.
From S2P Require Import Prelude Bytes Pebble MetaKeys MetaScan MetaTypes RaftLog MetaFSM Namespace MetaFSMProofs.
From S2P Require Import Extents NamespaceSpec NamespaceProgress ExtentProofs WorkQueue WorkIndex.

Local Open Scope Z_scope.
Local Open Scope go_scope.
Local Open Scope ns_scope.

(** ** Keys of tasks *)

Lemma queue_key_slash ty st n id :
  backgroundTaskQueueKey ty st n id =
    prefixBackgroundTaskQ ++ ty ++ slash :: st ++ slash :: Sprintf020d n ++ slash :: id.
Proof. reflexivity. Qed.

(** The key of the index gives back the time and the id it was made from. *)
Lemma queue_key_parse ty st n id :
  slash ∉ ty -> slash ∉ st -> is_i64 n ->
  backgroundTaskFromQueueKey (backgroundTaskQueueKey ty st n id) = Some (n, id).
Proof.
  intros Hty Hst Hn. unfold backgroundTaskFromQueueKey. rewrite queue_key_slash, TrimPrefix_app.
  rewrite !SplitN_app by (done || apply Sprintf020d_no_slash). cbn [SplitN]. by rewrite ParseInt_Sprintf020d.
Qed.

Lemma queue_key_inj ty st n id ty' st' n' id' :
  slash ∉ ty -> slash ∉ st -> slash ∉ ty' -> slash ∉ st' -> is_i64 n -> is_i64 n' ->
  backgroundTaskQueueKey ty st n id = backgroundTaskQueueKey ty' st' n' id' ->
  ty = ty' /\ st = st' /\ n = n' /\ id = id'.
Proof.
  intros. match goal with E : backgroundTaskQueueKey _ _ _ _ = _ |- _ => rename E into Ek end.
  rewrite !queue_key_slash in Ek. apply app_inv_head in Ek.
  apply part_inj in Ek as [-> Ek]; [|done..]. apply part_inj in Ek as [-> Ek]; [|done..].
  apply part_inj in Ek as [En ->]; [|apply Sprintf020d_no_slash..]. apply Sprintf020d_inj in En; [|done..]. done.
Qed.

Lemma queue_key_in ty st ty' st' n id :
  slash ∉ ty -> slash ∉ st -> slash ∉ ty' -> slash ∉ st' ->
  HasPrefix (backgroundTaskQueueKey ty st n id) (backgroundTaskQueuePrefix ty' st') =
    bool_decide (ty = ty') && bool_decide (st = st').
Proof.
  intros. unfold backgroundTaskQueuePrefix. rewrite queue_key_slash, HasPrefix_app_same.
  change (ty' ++ str "/" ++ st' ++ str "/") with (ty' ++ slash :: st' ++ slash :: []).
  rewrite !part_prefix by done. cbn [HasPrefix]. by rewrite andb_true_r.
Qed.

(** With times after 1970, index keys sort by time, then by id. *)
Lemma queue_key_order ty st n id n' id' :
  is_u64 n -> is_u64 n' ->
  bytes_ltb (backgroundTaskQueueKey ty st n id) (backgroundTaskQueueKey ty st n' id') =
    (n <? n') || ((n =? n') && bytes_ltb id id').
Proof.
  intros Hn Hn'. rewrite !queue_key_slash, !bytes_ltb_app_same. cbn [bytes_ltb].
  rewrite Z.ltb_irrefl, Z.eqb_refl. cbn [orb andb]. rewrite bytes_ltb_app_same. cbn [bytes_ltb].
  rewrite Z.ltb_irrefl, Z.eqb_refl. cbn [orb andb]. rewrite Sprintf020d_order by done. cbn [bytes_ltb].
  by rewrite Z.ltb_irrefl, Z.eqb_refl.
Qed.

(** A record the service accepts, with slash-free type and state. *)
Record task_wf (t : BackgroundTask) : Prop := mkTaskWf {
  tw_id : bytes_wf (bg_ID t) /\ bg_ID t <> [];
  tw_type : bytes_wf (bg_Type t) /\ slash ∉ bg_Type t /\ bg_Type t <> [];
  tw_state : bytes_wf (bg_State t) /\ slash ∉ bg_State t /\ bg_State t <> [];
  tw_due : is_i64 (bg_NextRunAt t)
}.

Definition live_task (t : BackgroundTask) : bool :=
  bool_decide (bg_State t = TaskQueued) || bool_decide (bg_State t = TaskRetrying).

#[export] Instance task_indexed : Indexed BackgroundTask := {
  ix_ID := bg_ID; ix_row := backgroundTaskKey; ix_key := queue_key; ix_prefix := prefixBackgroundTaskQ;
  ix_live := live_task; ix_wf := task_wf
}.

Lemma queue_key_wf ty st n id : bytes_wf ty -> bytes_wf st -> bytes_wf id -> bytes_wf (backgroundTaskQueueKey ty st n id).
Proof.
  intros. unfold backgroundTaskQueueKey.
  repeat (apply bytes_wf_app; split); done || apply str_wf || apply Sprintf020d_wf.
Qed.

#[export] Instance task_indexed_laws : IndexedLaws BackgroundTask.
Proof.
  constructor; cbn [ix_ID ix_row ix_key ix_prefix ix_live ix_wf task_indexed].
  - intros i j. apply app_inv_head.
  - intros x y [] [] E. destruct tw_type0 as (_ & ? & _), tw_state0 as (_ & ? & _),
      tw_type1 as (_ & ? & _), tw_state1 as (_ & ? & _). by apply queue_key_inj in E as (_ & _ & _ & ?).
  - intros x. apply HasPrefix_app.
  - reflexivity.
  - intros x [[? _] _ _ _]. apply bytes_wf_app. split; [apply str_wf|done].
  - intros x [[? _] [? _] [? _] _]. by apply queue_key_wf.
  - by split.
  - by split.
Qed.

(** ** Keys of attempts *)

Lemma state_key_slash st n id :
  writeAttemptStateKey st n id = prefixWriteAttemptState ++ st ++ slash :: Sprintf020d n ++ slash :: id.
Proof. reflexivity. Qed.

Lemma state_key_parse st n id :
  slash ∉ st -> is_i64 n -> writeAttemptIDFromStateKey (writeAttemptStateKey st n id) = Some id.
Proof.
  intros Hst Hn. unfold writeAttemptIDFromStateKey. rewrite state_key_slash, TrimPrefix_app.
  rewrite !SplitN_app by (done || apply Sprintf020d_no_slash). cbn [SplitN]. by rewrite ParseInt_Sprintf020d.
Qed.

Lemma state_key_inj st n id st' n' id' :
  slash ∉ st -> slash ∉ st' -> is_i64 n -> is_i64 n' ->
  writeAttemptStateKey st n id = writeAttemptStateKey st' n' id' -> st = st' /\ n = n' /\ id = id'.
Proof.
  intros. match goal with E : writeAttemptStateKey _ _ _ = _ |- _ => rename E into Ek end.
  rewrite !state_key_slash in Ek. apply app_inv_head in Ek. apply part_inj in Ek as [-> Ek]; [|done..].
  apply part_inj in Ek as [En ->]; [|apply Sprintf020d_no_slash..]. apply Sprintf020d_inj in En; [|done..]. done.
Qed.

Lemma state_key_in st st' n id :
  slash ∉ st -> slash ∉ st' ->
  HasPrefix (writeAttemptStateKey st n id) (writeAttemptStatePrefix st') = bool_decide (st = st').
Proof.
  intros. unfold writeAttemptStatePrefix. rewrite state_key_slash, HasPrefix_app_same.
  change (st' ++ str "/") with (st' ++ slash :: []). rewrite part_prefix by done. cbn [HasPrefix].
  by rewrite andb_true_r.
Qed.

Lemma state_key_order st n id n' id' :
  is_u64 n -> is_u64 n' ->
  bytes_ltb (writeAttemptStateKey st n id) (writeAttemptStateKey st n' id') =
    (n <? n') || ((n =? n') && bytes_ltb id id').
Proof.
  intros Hn Hn'. rewrite !state_key_slash, !bytes_ltb_app_same. cbn [bytes_ltb].
  rewrite Z.ltb_irrefl, Z.eqb_refl. cbn [orb andb]. rewrite Sprintf020d_order by done. cbn [bytes_ltb].
  by rewrite Z.ltb_irrefl, Z.eqb_refl.
Qed.

(** A stored attempt: its intent is filled in. *)
Record attempt_wf (a : ObjectWriteAttempt) : Prop := mkAttemptWf {
  aw_id : bytes_wf (wa_ID a) /\ wa_ID a <> [];
  aw_state : bytes_wf (wa_State a) /\ slash ∉ wa_State a;
  aw_intent : wa_RecoveryIntent a <> [];
  aw_updated : is_i64 (wa_UpdatedAt a)
}.

#[export] Instance attempt_indexed : Indexed ObjectWriteAttempt := {
  ix_ID := wa_ID; ix_row := writeAttemptKey; ix_key := state_key; ix_prefix := prefixWriteAttemptState;
  ix_live := fun _ => true; ix_wf := attempt_wf
}.

#[export] Instance attempt_indexed_laws : IndexedLaws ObjectWriteAttempt.
Proof.
  constructor; cbn [ix_ID ix_row ix_key ix_prefix ix_live ix_wf attempt_indexed].
  - intros i j. apply app_inv_head.
  - intros x y [? [? ?] ? ?] [? [? ?] ? ?] E. by apply state_key_inj in E as (_ & _ & ?).
  - intros x. apply HasPrefix_app.
  - reflexivity.
  - intros x [[? _] _ _ _]. apply bytes_wf_app. split; [apply str_wf|done].
  - intros x [[? _] [? _] _ _]. unfold state_key, writeAttemptStateKey.
    repeat (apply bytes_wf_app; split); done || apply str_wf || apply Sprintf020d_wf.
  - by split.
  - by split.
Qed.

(** ** Runs *)

Section Runs.
Context {DB : Type} `{KL : PebbleLaws DB} `{CI : Codec InodeMeta}.
Context `{LG : CodecLaws BackgroundTask} `{LW : CodecLaws ObjectWriteAttempt} `{CS : Codec (list Z)}.

Abbreviation tasks := (gmap (list Z) BackgroundTask).
Abbreviation attempts := (gmap (list Z) ObjectWriteAttempt).

(** A call commits [q'] and returns [a], changing no row of another
    component, or fails and leaves the store. *)
Definition outcome {A R : Type} `{Codec R} `{Indexed R} (s s' : NS DB) (fail : option merr) (q' : gmap (list Z) R)
    (a : A) (r : mgo A) : Prop :=
  (r = Ok a /\ s' = set_db (ns_db s') s /\ indexed (ns_db s') q' /\
     forall k, foreign R k -> kv_get (ns_db s') k = kv_get (ns_db s) k) \/
  (exists x, r = Err x /\ s' = s /\ (ns_readOnly s = true \/ is_Some fail)).

(** *** Tasks *)

Lemma read_task_indexed (db : DB) (q : tasks) id :
  indexed db q -> read_task db id = match q !! id with Some t => Ok t | None => Err ErrEntryNotFound end.
Proof.
  intros R. unfold read_task, getValue. pose proof (id_rows _ _ R id) as E. cbn [ix_row task_indexed] in E. rewrite E.
  destruct (q !! id); cbn [fmap option_fmap option_map]; [|done]. by rewrite unmarshalValue_marshalValue.
Qed.

Lemma put_task_batch_indexed (db : DB) (q : tasks) (t : BackgroundTask) :
  indexed db q -> put_task_batch db t = Ok (put_ops (q !! bg_ID t) t).
Proof. intros R. unfold put_task_batch. rewrite (read_task_indexed _ _ _ R). by destruct (q !! bg_ID t). Qed.

(** The index row the write sets is not the one it deletes. *)
Definition fresh_task (q : tasks) (t : BackgroundTask) : Prop :=
  forall o, q !! bg_ID t = Some o -> live_task t = true -> queue_key o <> queue_key t.

Lemma nonempty_len {A} (l : list A) : l <> [] -> (len l =? 0) = false.
Proof. intros Hn. destruct l; [done|]. apply Z.eqb_neq. cbn [length]. lia. Qed.

Lemma put_task_run (q : tasks) (t : BackgroundTask) e n (s s' : NS DB) r :
  indexed (ns_db s) q -> ns_closed s = false -> task_wf t -> fresh_task q t ->
  PutBackgroundTask e n (Some t) s = (s', r) ->
  outcome s s' (we_fail e n) (<[bg_ID t := stamp_task (we_clock e n) t]> q) (stamp_task (we_clock e n) t) r.
Proof.
  intros R Hc W F. unfold PutBackgroundTask, nbind, enter_ns, nget, nlift, nret. rewrite Hc.
  destruct W as [Hi Ht Hs Hd]. rewrite !nonempty_len by tauto. cbn [orb].
  set (t' := stamp_task (we_clock e n) t). rewrite (put_task_batch_indexed _ q) by done.
  assert (task_wf t') as W' by done. assert (bg_ID t' = bg_ID t) as Eid by done. rewrite Eid.
  pose proof (indexed_put (ns_db s) q t' R W' F) as P. cbn [ix_ID task_indexed] in P. rewrite Eid in P.
  destruct (applyBatchViaRaft _ _ s) as [s1 r1] eqn:E. apply batch_run in E as [[-> ->]|(x & -> & -> & Hx)].
  - intros E. injection E as Es <-. subst s'. left. split; [done|]. split; [done|]. split; [done|].
    intros k Hk. exact (put_ops_foreign (ns_db s) (q !! bg_ID t) t' k Hk).
  - intros [= <- <-]. right. eauto.
  - unfold put_ops, applyBatch. by destruct (q !! _).
  - apply put_ops_plain.
Qed.

Lemma find_sorted {A} (R : A -> A -> Prop) (f : A -> bool) l x :
  StronglySorted R l -> List.find f l = Some x -> x ∈ l /\ f x = true /\ forall y, y ∈ l -> f y = true -> y = x \/ R x y.
Proof.
  induction 1 as [|a l Hs IH Ha]; [done|]. cbn [List.find]. destruct (f a) eqn:Ef.
  - intros [= ->]. split; [by left|]. split; [done|]. intros y [->|Hy]%elem_of_cons _; [by left|right].
    rewrite Forall_forall in Ha. by apply Ha.
  - intros E. destruct (IH E) as (Hx & Hfx & Hmin). split; [by right|]. split; [done|].
    intros y [->|Hy]%elem_of_cons Hf; [congruence|by apply Hmin].
Qed.

Definition due_now (now nodeID : Z) (t : BackgroundTask) : bool := (bg_NextRunAt t <=? now) && may_lease nodeID t.

Lemma first_due_find (db : DB) (q : tasks) now nodeID rows l :
  indexed db q -> map fst rows = map queue_key l -> (forall t, t ∈ l -> q !! bg_ID t = Some t) ->
  first_due db now nodeID rows = List.find (due_now now nodeID) l.
Proof.
  intros R. revert rows. induction l as [|t l IH]; intros [|[k v] rows] E Hl; try discriminate; [done|].
  cbn [map fst] in E. injection E as -> E. cbn [first_due List.find].
  assert (q !! bg_ID t = Some t) as Ht by (apply Hl; by left).
  destruct (id_wf _ _ R _ _ Ht) as [_ [_ (_ & Hty & _) (_ & Hst & _) Hdue]].
  unfold queue_key at 1. rewrite queue_key_parse by done.
  change (due_now now nodeID t) with ((bg_NextRunAt t <=? now) && may_lease nodeID t).
  rewrite Z.leb_antisym, (read_task_indexed _ _ _ R), Ht.
  assert (first_due db now nodeID rows = List.find (due_now now nodeID) l) as -> by (apply IH; [done|]; intros; apply Hl; by right).
  destruct (now <? bg_NextRunAt t); cbn [negb andb]; [done|]. by destruct (may_lease nodeID t).
Qed.

(** The tasks of a type and state that a scan visits, in key order. *)
Lemma queue_rows_tasks (db : DB) (q : tasks) ty st :
  indexed db q -> bytes_wf ty -> slash ∉ ty -> st = TaskQueued \/ st = TaskRetrying ->
  exists l, map fst (queue_rows db ty st) = map queue_key l /\
    StronglySorted (fun x y => bytes_lt (queue_key x) (queue_key y)) l /\
    (forall t, t ∈ l <-> q !! bg_ID t = Some t /\ bg_Type t = ty /\ bg_State t = st).
Proof.
  intros R Wty Sty Hst.
  assert (bytes_wf st /\ slash ∉ st) as [Wst Sst].
  { split; [destruct Hst as [->| ->]; apply str_wf|]. destruct Hst as [->| ->]; apply (bool_decide_unpack _); exact I. }
  assert (forall t, q !! bg_ID t = Some t ->
    HasPrefix (queue_key t) (backgroundTaskQueuePrefix ty st) = true <-> bg_Type t = ty /\ bg_State t = st) as Hp.
  { intros t Ht. destruct (id_wf _ _ R _ _ Ht) as [_ [_ (_ & Hty & _) (_ & Hstate & _) _]].
    unfold queue_key. rewrite queue_key_in by done. by rewrite andb_true_iff, !bool_decide_eq_true. }
  destruct (index_scan db q (backgroundTaskQueuePrefix ty st)) as (l & El & Sl & Hl); [done| | | |].
  - unfold backgroundTaskQueuePrefix. repeat (apply bytes_wf_app; split); done || apply str_wf.
  - apply HasPrefix_app.
  - intros id t Ht Hpre. destruct (id_wf _ _ R _ _ Ht) as [Hid _]. cbn [ix_ID task_indexed] in Hid. subst id.
    apply Hp in Hpre as [_ E]; [|done]. cbn [ix_live task_indexed]. unfold live_task. rewrite E.
    destruct Hst as [->| ->]; reflexivity.
  - exists l. split; [done|]. split; [done|]. intros t. rewrite Hl. cbn [ix_ID ix_key task_indexed].
    split; intros [Ht Hpre]; (split; [done|]); by apply (Hp t Ht).
Qed.

(** The tasks a worker may lease now, and the order they are leased in. *)
Definition eligible (q : tasks) (ty st : list Z) (now nodeID : Z) (t : BackgroundTask) : Prop :=
  q !! bg_ID t = Some t /\ bg_Type t = ty /\ bg_State t = st /\ bg_NextRunAt t <= now /\ may_lease nodeID t = true.

Definition no_later (t t' : BackgroundTask) : Prop :=
  bg_NextRunAt t < bg_NextRunAt t' \/ (bg_NextRunAt t = bg_NextRunAt t' /\ bytes_le (bg_ID t) (bg_ID t')).

(** The task due first: a queued one, or a retrying one when no queued one is
    eligible. *)
Inductive next_up (q : tasks) (ty : list Z) (now nodeID : Z) : option BackgroundTask -> Prop :=
| up_queued t :
    eligible q ty TaskQueued now nodeID t ->
    (forall t', eligible q ty TaskQueued now nodeID t' -> no_later t t') -> next_up q ty now nodeID (Some t)
| up_retrying t :
    (forall t', ~ eligible q ty TaskQueued now nodeID t') -> eligible q ty TaskRetrying now nodeID t ->
    (forall t', eligible q ty TaskRetrying now nodeID t' -> no_later t t') -> next_up q ty now nodeID (Some t)
| up_none :
    (forall t', ~ eligible q ty TaskQueued now nodeID t') ->
    (forall t', ~ eligible q ty TaskRetrying now nodeID t') -> next_up q ty now nodeID None.

Definition after_1970 (q : tasks) : Prop := forall id t, q !! id = Some t -> 0 <= bg_NextRunAt t.

Lemma first_due_eligible (db : DB) (q : tasks) ty st now nodeID :
  indexed db q -> after_1970 q -> bytes_wf ty -> slash ∉ ty -> st = TaskQueued \/ st = TaskRetrying ->
  match first_due db now nodeID (queue_rows db ty st) with
  | Some t => eligible q ty st now nodeID t /\ forall t', eligible q ty st now nodeID t' -> no_later t t'
  | None => forall t', ~ eligible q ty st now nodeID t'
  end.
Proof.
  intros R Hpos Wty Sty Hst. destruct (queue_rows_tasks db q ty st R Wty Sty Hst) as (l & El & Sl & Hl).
  rewrite (first_due_find db q now nodeID _ l) by (done || intros t Ht; by apply Hl).
  assert (forall t, eligible q ty st now nodeID t <-> t ∈ l /\ due_now now nodeID t = true) as He.
  { intros t. unfold eligible, due_now. rewrite Hl, andb_true_iff, Z.leb_le. tauto. }
  destruct (List.find (due_now now nodeID) l) as [t|] eqn:Ef.
  - destruct (find_sorted _ _ _ _ Sl Ef) as (Hin & Hd & Hmin). split; [by apply He|].
    intros t' [Hin' Hd']%He. destruct (Hmin t' Hin' Hd') as [->|Hlt].
    { right. split; [done|]. apply bytes_ltb_irrefl. }
    apply Hl in Hin as (Hq & Ety & Est), Hin' as (Hq' & Ety' & Est').
    destruct (id_wf _ _ R _ _ Hq) as [_ [_ _ _ B]], (id_wf _ _ R _ _ Hq') as [_ [_ _ _ B']].
    pose proof (Hpos _ _ Hq). pose proof (Hpos _ _ Hq'). unfold is_i64 in B, B'.
    unfold bytes_lt, queue_key in Hlt. rewrite Ety, Ety', Est, Est', queue_key_order in Hlt by (unfold uintw; lia).
    unfold no_later, bytes_le. apply orb_true_iff in Hlt as [Hlt%Z.ltb_lt|[E%Z.eqb_eq Hlt]%andb_true_iff]; [by left|right].
    split; [done|]. destruct (bytes_ltb (bg_ID t') (bg_ID t)) eqn:E'; [|done].
    by rewrite <- (bytes_ltb_irrefl (bg_ID t)), (bytes_ltb_trans _ _ _ Hlt E').
  - intros t [Hin Hd]%He. pose proof (List.find_none _ _ Ef t (proj1 (list_elem_of_In _ _) Hin)). congruence.
Qed.

Lemma due_task_next_up (db : DB) (q : tasks) ty now nodeID :
  indexed db q -> after_1970 q -> bytes_wf ty -> slash ∉ ty -> next_up q ty now nodeID (due_task db ty now nodeID).
Proof.
  intros R Hpos Wty Sty. unfold due_task.
  pose proof (first_due_eligible db q ty TaskQueued now nodeID R Hpos Wty Sty (or_introl eq_refl)) as Hq.
  pose proof (first_due_eligible db q ty TaskRetrying now nodeID R Hpos Wty Sty (or_intror eq_refl)) as Hr.
  destruct (first_due _ _ _ (queue_rows db ty TaskQueued)) as [t|]; [destruct Hq; by apply up_queued|].
  destruct (first_due _ _ _ _) as [t|]; [destruct Hr; by apply up_retrying|by apply up_none].
Qed.

Lemma state_change_wf (t u : BackgroundTask) :
  task_wf t -> bg_ID u = bg_ID t -> bg_Type u = bg_Type t -> is_i64 (bg_NextRunAt u) ->
  bytes_wf (bg_State u) -> slash ∉ bg_State u -> bg_State u <> [] -> task_wf u.
Proof. intros [H2 H3 H4 H5] E1 E2. intros. constructor; rewrite ?E1, ?E2; done. Qed.

Lemma i64_is_i64 x : is_i64 (i64 x).
Proof.
  unfold i64, is_i64. pose proof (wrap_bound 64 x ltac:(lia)) as B. unfold uintw in B.
  destruct (Z.ltb_spec (wrap 64 x) (2 ^ 63)); lia.
Qed.

(** A task the scans find is stored and live. *)
Lemma due_task_in (db : DB) (q : tasks) ty now nodeID t :
  indexed db q -> bytes_wf ty -> slash ∉ ty -> due_task db ty now nodeID = Some t ->
  q !! bg_ID t = Some t /\ bg_Type t = ty /\ live_task t = true.
Proof.
  intros R Wty Sty. unfold due_task.
  assert (forall st, st = TaskQueued \/ st = TaskRetrying -> first_due db now nodeID (queue_rows db ty st) = Some t ->
            q !! bg_ID t = Some t /\ bg_Type t = ty /\ live_task t = true) as Hin.
  { intros st Hst E. destruct (queue_rows_tasks db q ty st R Wty Sty Hst) as (l & El & _ & Hl).
    rewrite (first_due_find db q now nodeID _ l) in E by (done || intros x Hx; by apply Hl).
    apply List.find_some in E as [Hx _]. apply list_elem_of_In, Hl in Hx as (Hq & Et & Es). split; [done|]. split; [done|].
    unfold live_task. rewrite Es. destruct Hst as [->| ->]; reflexivity. }
  destruct (first_due _ _ _ (queue_rows db ty TaskQueued)) as [u|] eqn:E; [intros [= ->]; by apply (Hin TaskQueued); auto|].
  intros E'. apply (Hin TaskRetrying); auto.
Qed.

(** [leaseBackgroundTask] *)
Lemma lease_run (q : tasks) e ty nodeID owner lease (s s' : NS DB) r :
  indexed (ns_db s) q -> ns_closed s = false -> bytes_wf ty -> slash ∉ ty -> owner <> [] ->
  leaseBackgroundTask e ty nodeID owner lease s = (s', r) ->
  match due_task (ns_db s) ty (we_clock e 0) nodeID with
  | Some t =>
      let t' := stamp_task (we_clock e 1) (leased_task owner (i64 (we_clock e 0 + lease)) t) in
      outcome s s' (we_fail e 1) (<[bg_ID t := t']> q) t' r
  | None => r = Err ErrEntryNotFound /\ s' = s
  end.
Proof.
  intros R Hc Wty Sty Ho. unfold leaseBackgroundTask, nbind, enter_ns, nget, nerr. rewrite Hc, nonempty_len by done.
  destruct (due_task _ _ _ _) as [t|] eqn:Ed; [|by intros [= <- <-]]. intros E.
  apply (due_task_in _ q) in Ed as [Hq _]; [|done..]. destruct (id_wf _ _ R _ _ Hq) as [_ W].
  apply (put_task_run q) in E; [exact E|done|done| |].
  - apply (state_change_wf t); try done; [apply i64_is_i64|apply str_wf|apply (bool_decide_unpack _); exact I].
  - by intros o _.
Qed.

Lemma get_task_run (q : tasks) id (s : NS DB) :
  indexed (ns_db s) q -> ns_closed s = false ->
  GetBackgroundTask id s = (s, match q !! id with Some t => Ok t | None => Err ErrEntryNotFound end).
Proof.
  intros R Hc. unfold GetBackgroundTask, nbind, enter_ns, nget, nlift. by rewrite Hc, (read_task_indexed _ q).
Qed.

(** A call that rewrites the task [t] of [id] as [f t]. *)
Lemma rewrite_task_run (q : tasks) (f : BackgroundTask -> BackgroundTask) e n id (s s' : NS DB) r :
  indexed (ns_db s) q -> ns_closed s = false ->
  (forall t, q !! id = Some t -> bg_ID (f t) = bg_ID t /\ task_wf (f t) /\ fresh_task q (f t)) ->
  (do* task := GetBackgroundTask id in do* _ := PutBackgroundTask e n (Some (f task)) in nret tt) s = (s', r) ->
  match q !! id with
  | Some t => outcome s s' (we_fail e n) (<[id := stamp_task (we_clock e n) (f t)]> q) tt r
  | None => r = Err ErrEntryNotFound /\ s' = s
  end.
Proof.
  intros R Hc Hf. unfold nbind at 1. rewrite (get_task_run q) by done.
  destruct (q !! id) as [t|] eqn:Et; [|by intros [= <- <-]]. destruct (Hf t eq_refl) as (Hid & W & Hfr).
  destruct (id_wf _ _ R _ _ Et) as [E _]. cbn [ix_ID task_indexed] in E.
  unfold nbind, nret. destruct (PutBackgroundTask e n (Some (f t)) s) as [s1 r1] eqn:Ep.
  apply (put_task_run q) in Ep; [|done..]. rewrite Hid, E in Ep.
  destruct Ep as [(-> & ?)|(x & -> & -> & Hx)]; intros [= <- <-]; [left; done|right; eauto].
Qed.

(** [CompleteBackgroundTask] *)
Lemma complete_run (q : tasks) e id (s s' : NS DB) r :
  indexed (ns_db s) q -> ns_closed s = false -> CompleteBackgroundTask e id s = (s', r) ->
  match q !! id with
  | Some t => outcome s s' (we_fail e 0) (<[id := stamp_task (we_clock e 0) (completed_task t)]> q) tt r
  | None => r = Err ErrEntryNotFound /\ s' = s
  end.
Proof.
  intros R Hc. apply (rewrite_task_run q completed_task); [done..|]. intros t Ht.
  destruct (id_wf _ _ R _ _ Ht) as [_ W]. split; [done|]. split; [|by intros o _].
  apply (state_change_wf t); try done; [apply W|apply str_wf|apply (bool_decide_unpack _); exact I].
Qed.

Lemma failed_task_wf now lastErr maxAttempts (t : BackgroundTask) :
  task_wf t -> task_wf (failed_task now lastErr maxAttempts t).
Proof.
  intros W. apply (state_change_wf t); try done; cbn [bg_State bg_NextRunAt failed_task];
    destruct (_ <=? i64 _); try done; try apply W; try apply i64_is_i64; try apply str_wf;
    apply (bool_decide_unpack _); exact I.
Qed.

Lemma failed_task_live now lastErr maxAttempts (t : BackgroundTask) :
  live_task (failed_task now lastErr maxAttempts t) = true ->
  bg_State (failed_task now lastErr maxAttempts t) = TaskRetrying.
Proof. unfold live_task. cbn [bg_State failed_task]. by destruct (_ <=? i64 _). Qed.

(** [FailBackgroundTask]; a retry of a retrying task must not be due at the
    very time it was due before. *)
Lemma fail_run (q : tasks) e id lastErr maxAttempts (s s' : NS DB) r :
  indexed (ns_db s) q -> ns_closed s = false ->
  (forall t, q !! id = Some t -> bg_State t = TaskRetrying ->
     bg_NextRunAt (failed_task (we_clock e 0) lastErr maxAttempts t) <> bg_NextRunAt t) ->
  FailBackgroundTask e id lastErr maxAttempts s = (s', r) ->
  match q !! id with
  | Some t => outcome s s' (we_fail e 1)
                (<[id := stamp_task (we_clock e 1) (failed_task (we_clock e 0) lastErr maxAttempts t)]> q) tt r
  | None => r = Err ErrEntryNotFound /\ s' = s
  end.
Proof.
  intros R Hc Hf. apply (rewrite_task_run q (failed_task _ _ _)); [done..|]. intros t Ht.
  destruct (id_wf _ _ R _ _ Ht) as [Eid W]. cbn [ix_ID task_indexed] in Eid. split; [done|].
  pose proof (failed_task_wf (we_clock e 0) lastErr maxAttempts t W) as W'. split; [done|].
  intros o. cbn [bg_ID failed_task]. rewrite Eid, Ht. intros [= <-] Hl%failed_task_live E. unfold queue_key in E.
  destruct W as [_ (_ & ? & _) (_ & ? & _) ?], W' as [_ (_ & ? & _) (_ & ? & _) ?].
  apply queue_key_inj in E as (_ & Es & En & _); [|done..]. apply (Hf t Ht); congruence.
Qed.

(** [SubmitConversion] *)
Definition conversion_task (now : Z) (elig : ConversionEligibility) : BackgroundTask :=
  let id := conversion_id (ce_Extent elig) in
  mkBackgroundTask id TaskECConvert TaskQueued id [] [] 0 now [] now 0 (ce_OwnerNodes elig).

Lemma submit_run (q : tasks) e elig (s s' : NS DB) r :
  indexed (ns_db s) q -> ns_closed s = false -> is_i64 (we_clock e 0) ->
  SubmitConversion e elig s = (s', r) ->
  let id := conversion_id (ce_Extent elig) in
  match q !! id with
  | Some t => r = Ok tt /\ s' = s
  | None => outcome s s' (we_fail e 1)
              (<[id := stamp_task (we_clock e 1) (conversion_task (we_clock e 0) elig)]> q) tt r
  end.
Proof.
  intros R Hc Hn. unfold SubmitConversion. rewrite (get_task_run q) by done.
  destruct (q !! conversion_id (ce_Extent elig)) as [t|] eqn:Et; [by intros [= <- <-]|].
  unfold nbind, nret. destruct (PutBackgroundTask e 1 _ s) as [s1 r1] eqn:Ep.
  apply (put_task_run q) in Ep; [|done|done| |].
  - destruct Ep as [(-> & ?)|(x & -> & -> & Hx)]; intros [= <- <-]; [left; done|right; eauto].
  - assert (bytes_wf (conversion_id (ce_Extent elig)) /\ conversion_id (ce_Extent elig) <> []).
    { split; [|done]. apply bytes_wf_app. split; [apply str_wf|apply FormatUint_wf]. }
    constructor; cbn [bg_ID bg_Type bg_State bg_NextRunAt]; try done;
      (split; [apply str_wf|split; [|done]]); apply (bool_decide_unpack _); exact I.
  - intros o. cbn [bg_ID]. by rewrite Et.
Qed.

(** *** Attempts *)

Lemma default_intent_stored (a : ObjectWriteAttempt) : attempt_wf a -> default_intent a = a.
Proof. intros [_ _ Hi _]. unfold default_intent. by rewrite nonempty_len. Qed.

Lemma read_attempt_indexed (db : DB) (q : attempts) id :
  indexed db q -> read_attempt db id = match q !! id with Some a => Ok a | None => Err ErrEntryNotFound end.
Proof.
  intros R. unfold read_attempt, getValue. pose proof (id_rows _ _ R id) as E. cbn [ix_row attempt_indexed] in E. rewrite E.
  destruct (q !! id) as [a|] eqn:Ea; cbn [fmap option_fmap option_map]; [|done]. rewrite unmarshalValue_marshalValue.
  rewrite bind_Ok. f_equal. apply default_intent_stored. by eapply (id_wf _ _ R).
Qed.

Lemma put_attempt_batch_indexed (db : DB) (q : attempts) (a : ObjectWriteAttempt) :
  indexed db q -> put_attempt_batch db a = Ok (put_ops (q !! wa_ID a) a).
Proof. intros R. unfold put_attempt_batch. rewrite (read_attempt_indexed _ _ _ R). by destruct (q !! wa_ID a). Qed.

(** What [PutWriteAttempt] stores. *)
Definition stored_attempt (now : Z) (a : ObjectWriteAttempt) : ObjectWriteAttempt := stamp_attempt now (default_intent a).

Lemma stored_attempt_fields now (a : ObjectWriteAttempt) :
  wa_ID (stored_attempt now a) = wa_ID a /\ wa_State (stored_attempt now a) = wa_State a /\
  wa_UpdatedAt (stored_attempt now a) = now /\ wa_Chunks (stored_attempt now a) = wa_Chunks a /\
  wa_InodeID (stored_attempt now a) = wa_InodeID a /\ wa_RecoveryIntent (stored_attempt now a) <> [].
Proof.
  unfold stored_attempt, stamp_attempt, default_intent.
  destruct (Z.eqb_spec (len (wa_RecoveryIntent a)) 0) as [E|E]; cbn; repeat split; try done.
  intros E'. by rewrite E' in E.
Qed.

Lemma stored_attempt_wf now (a : ObjectWriteAttempt) :
  bytes_wf (wa_ID a) -> wa_ID a <> [] -> bytes_wf (wa_State a) -> slash ∉ wa_State a -> is_i64 now ->
  attempt_wf (stored_attempt now a).
Proof.
  intros. destruct (stored_attempt_fields now a) as (Ei & Es & Eu & _ & _ & Hi).
  constructor; rewrite ?Ei, ?Es, ?Eu; done.
Qed.

(** [PutWriteAttempt]; the clock must have moved since the last write of an
    attempt that keeps its state. *)
Lemma put_attempt_run (q : attempts) (a : ObjectWriteAttempt) e n (s s' : NS DB) r :
  indexed (ns_db s) q -> ns_closed s = false -> attempt_wf (stored_attempt (we_clock e n) a) ->
  (forall o, q !! wa_ID a = Some o -> wa_State o = wa_State a -> wa_UpdatedAt o <> we_clock e n) ->
  PutWriteAttempt e n (Some a) s = (s', r) ->
  outcome s s' (we_fail e n) (<[wa_ID a := stored_attempt (we_clock e n) a]> q) tt r.
Proof.
  intros R Hc W F. unfold PutWriteAttempt, nbind, enter_ns, nget, nlift. rewrite Hc.
  destruct (stored_attempt_fields (we_clock e n) a) as (Eid & Es & Eu & _ & _ & _).
  rewrite nonempty_len by (destruct W as [[_ Hne] _ _ _]; by rewrite <- Eid).
  fold (stored_attempt (we_clock e n) a). set (a' := stored_attempt (we_clock e n) a) in *.
  rewrite (put_attempt_batch_indexed _ q) by done. rewrite Eid.
  pose proof (indexed_put (ns_db s) q a' R W) as P. cbn [ix_ID ix_key ix_live attempt_indexed] in P. rewrite Eid in P.
  intros E. apply batch_run in E as [[-> Es']|(x & -> & -> & Hx)].
  - subst s'. left. split; [done|]. split; [done|]. split; [apply P|].
    + intros o Ho _ E. destruct (id_wf _ _ R _ _ Ho) as [_ [_ [_ S1] _ U1]]. destruct W as [_ [_ S2] _ U2].
      apply state_key_inj in E as (E1 & E2 & _); [|done..]. apply (F o Ho); congruence.
    + intros k Hk. exact (put_ops_foreign (ns_db s) (q !! wa_ID a) a' k Hk).
  - right. eauto.
  - unfold put_ops, applyBatch. by destruct (q !! _).
  - apply put_ops_plain.
Qed.

(** [DeleteWriteAttempt] *)
Lemma delete_attempt_run (q : attempts) e n id (s s' : NS DB) r :
  indexed (ns_db s) q -> ns_closed s = false -> DeleteWriteAttempt e n id s = (s', r) ->
  match q !! id with
  | Some a => outcome s s' (we_fail e n) (delete id q) tt r
  | None => r = Err ErrEntryNotFound /\ s' = s
  end.
Proof.
  intros R Hc. unfold DeleteWriteAttempt, GetWriteAttempt, nbind, enter_ns, nget, nlift. rewrite Hc, Hc.
  rewrite (read_attempt_indexed _ q) by done. destruct (q !! id) as [a|] eqn:Ea; [|by intros [= <- <-]].
  destruct (id_wf _ _ R _ _ Ea) as [Eid W]. cbn [ix_ID attempt_indexed] in Eid. subst id.
  intros E. apply batch_run in E as [[-> ->]|(x & -> & -> & Hx)].
  - left. split; [done|]. split; [done|]. split; [exact (indexed_delete (ns_db s) q a R Ea)|].
    intros k Hk. exact (delete_ops_foreign (ns_db s) a k Hk).
  - right. eauto.
  - done.
  - exact (delete_ops_plain (ns_db s) a ∅).
Qed.

(** The attempts in a state, in the order of their index keys. *)
Lemma state_rows_attempts (db : DB) (q : attempts) st :
  indexed db q -> bytes_wf st -> slash ∉ st ->
  exists l, map fst (state_rows db st) = map state_key l /\
    StronglySorted (fun x y => bytes_lt (state_key x) (state_key y)) l /\
    (forall a, a ∈ l <-> q !! wa_ID a = Some a /\ wa_State a = st).
Proof.
  intros R Wst Sst. destruct (index_scan db q (writeAttemptStatePrefix st)) as (l & El & Sl & Hl); [done| | |done|].
  - unfold writeAttemptStatePrefix. repeat (apply bytes_wf_app; split); done || apply str_wf.
  - apply HasPrefix_app.
  - exists l. split; [done|]. split; [done|]. intros a. rewrite Hl. cbn [ix_ID ix_key attempt_indexed].
    split; intros [Ha Hp]; (split; [done|]); destruct (id_wf _ _ R _ _ Ha) as [_ [_ [_ S1] _ _]];
      unfold state_key in *; rewrite state_key_in in * by done; by rewrite bool_decide_eq_true in *.
Qed.

Lemma collect_attempts_take (db : DB) (q : attempts) limit rows l acc :
  indexed db q -> map fst rows = map state_key l -> (forall a, a ∈ l -> q !! wa_ID a = Some a) -> 0 <= limit ->
  collect_attempts db limit rows acc = acc ++ take (Z.to_nat (limit - len acc)) l.
Proof.
  intros R. revert rows acc. induction l as [|a l IH]; intros [|[k v] rows] acc E Hl H0l; try discriminate.
  { cbn [collect_attempts]. by rewrite take_nil, app_nil_r. }
  cbn [map fst] in E. injection E as -> E. cbn [collect_attempts].
  assert (forall acc, collect_attempts db limit rows acc = acc ++ take (Z.to_nat (limit - len acc)) l) as IH'.
  { intros acc'. apply IH; [done| |done]. intros; apply Hl; by right. }
  destruct (Z.leb_spec limit (len acc)) as [Hle|Hlt].
  - rewrite IH'. by replace (Z.to_nat (limit - len acc)) with 0%nat by lia.
  - assert (q !! wa_ID a = Some a) as Ha by (apply Hl; by left).
    destruct (id_wf _ _ R _ _ Ha) as [_ [_ [_ S1] _ U1]]. unfold state_key at 1. rewrite state_key_parse by done.
    rewrite (read_attempt_indexed _ q), Ha, IH' by done. rewrite <- app_assoc. cbn [app]. f_equal.
    replace (Z.to_nat (limit - len acc)) with (S (Z.to_nat (limit - len (acc ++ [a])))); [done|].
    rewrite length_app. cbn [length]. lia.
Qed.
End Runs.
