(* ===== verification/WriteGC.v ===== *)
(** * The gateway's garbage collection of abandoned writes

    Models [nufs-core/gateway/s3/write_gc.go] and the periodic task of
    [background_workers.go]: a tick makes sure the periodic task is queued,
    leases it, and sweeps failed and abandoned write attempts, deleting the
    chunks their inode does not list and then the attempt.

    The metadata service is the store of [Namespace.v] itself; a gateway on
    another machine reaches the same operations through the metadata server.
    No other client commits during one call. Ticks come from a timer that is
    not modelled: a run is a list of ticks. *)

From stdpp Require Import base list sorting numbers strings gmap.
From Stdlib Require Import ZArith Lia.
From S2P Require Import Prelude Bytes Pebble MetaKeys MetaScan MetaTypes RaftLog MetaFSM Namespace Extents.
From S2P Require Import ChunkRules ChunkGC WorkQueue.

Local Open Scope Z_scope.
Local Open Scope go_scope.
Local Open Scope ns_scope.

Record ObjectWriteGCSweepOptions := mkSweepOptions {
  so_Limit : Z; so_AbandonAge : Z; so_CurrentTime : option Z  (* None: the zero time *)
}.

Record ObjectWriteGCSweepResult := mkSweepResult {
  sr_Scanned : Z; sr_DeletedChunks : Z; sr_DeletedAttempts : Z; sr_SkippedReferenced : Z
}.

(** The clock of the sweep, the outcome of reading an inode, and by attempt
    and chunk the time and fate of a tombstone, by attempt those of its
    deletion. *)
Record sweep_env := mkSweepEnv {
  sv_now : Z; sv_ns : ns_env; sv_clock : list Z -> Z -> Z; sv_hook : list Z -> Z -> option merr;
  sv_fail : list Z -> Z -> option merr; sv_attempt : list Z -> wq_env
}.

Definition hour_ns : Z := 3600 * second.

(** The defaults of [SweepOnce]. *)
Definition sweep_defaults (now : Z) (o : ObjectWriteGCSweepOptions) : ObjectWriteGCSweepOptions :=
  mkSweepOptions (if so_Limit o <=? 0 then 100 else so_Limit o)
    (if so_AbandonAge o <=? 0 then hour_ns else so_AbandonAge o)
    (Some (match so_CurrentTime o with Some t => t | None => now end)).

(** [attemptIsAbandoned]; [Sub] saturates outside the range of an age. *)
Definition attemptIsAbandoned (a : ObjectWriteAttempt) (now age : Z) : bool :=
  negb (wa_UpdatedAt a =? 0) && (age <=? now - wa_UpdatedAt a).

Definition add_scanned (r : ObjectWriteGCSweepResult) : ObjectWriteGCSweepResult :=
  mkSweepResult (sr_Scanned r + 1) (sr_DeletedChunks r) (sr_DeletedAttempts r) (sr_SkippedReferenced r).
Definition add_chunks (deleted skipped : Z) (r : ObjectWriteGCSweepResult) : ObjectWriteGCSweepResult :=
  mkSweepResult (sr_Scanned r) (sr_DeletedChunks r + deleted) (sr_DeletedAttempts r) (sr_SkippedReferenced r + skipped).
Definition add_attempt (r : ObjectWriteGCSweepResult) : ObjectWriteGCSweepResult :=
  mkSweepResult (sr_Scanned r) (sr_DeletedChunks r) (sr_DeletedAttempts r + 1) (sr_SkippedReferenced r).

Definition sweep_states_order : list (list Z) :=
  [WriteAttemptFailed; WriteAttemptPending; WriteAttemptChunksAllocated].

Section GC.
Context {DB : Type} `{KV : PebbleKV DB}.
Context `{CI : Codec InodeMeta} `{C2 : Codec InodeMetaV2} `{CP : Codec ExtentPage}.
Context `{CK : Codec ChunkMeta} `{CT : Codec ChunkTombstone}.
Context `{CG : Codec BackgroundTask} `{CW : Codec ObjectWriteAttempt} `{CS : Codec (list Z)}.
Context (rules : version_rules).

(** [PebbleStore.DeleteChunk] *)
Definition DeleteChunk (hook fail : option merr) (now chunkID : Z) : N DB unit :=
  fun s =>
    let g := mkGcEnv (ns_closed s) (ns_readOnly s) hook fail in
    let read := fun _ : nat => ns_db s in
    match tombstoneChunk rules g read read now (ns_db s) chunkID (str "deleted by metadata API") with
    | (Ok _, db) => (set_db db s, Ok tt)
    | (Err e, db) => (set_db db s, Err e)
    end.

(** [chunkReferencedByAttemptInode] *)
Definition chunkReferencedByAttemptInode (en : ns_env) (inodeID chunkID : Z) : N DB bool :=
  if inodeID =? 0 then nret false else
  fun s =>
    match GetInode en inodeID s with
    | (s, Ok inode) => (s, Ok (existsb (fun ref => cr_ID ref =? chunkID) (im_ChunkMap inode)))
    | (s, Err _) => (s, Ok false)
    end.

(** The loop of [sweepAttempt]: chunks deleted and skipped. *)
Fixpoint sweep_refs (ev : sweep_env) (a : ObjectWriteAttempt) (refs : list ChunkRef) (deleted skipped : Z) :
    N DB (Z * Z) :=
  match refs with
  | [] => nret (deleted, skipped)
  | ref :: refs =>
      do* referenced := chunkReferencedByAttemptInode (sv_ns ev) (wa_InodeID a) (cr_ID ref) in
      if referenced : bool then sweep_refs ev a refs deleted (skipped + 1) else
      fun s =>
        let id := cr_ID ref in
        match DeleteChunk (sv_hook ev (wa_ID a) id) (sv_fail ev (wa_ID a) id) (sv_clock ev (wa_ID a) id) id s with
        | (s, Ok _) => sweep_refs ev a refs (deleted + 1) skipped s
        | (s, Err e) => if bool_decide (e = ErrChunkNotFound) then sweep_refs ev a refs deleted skipped s
                        else (s, Err e)
        end
  end.

(** [sweepAttempt] *)
Definition sweepAttempt (ev : sweep_env) (a : ObjectWriteAttempt) : N DB (Z * Z) :=
  sweep_refs ev a (wa_Chunks a) 0 0.

(** The attempts of one state; the result is returned with the error. *)
Fixpoint sweep_list (ev : sweep_env) (limit now age : Z) (failed : bool) (attempts : list ObjectWriteAttempt)
    (r : ObjectWriteGCSweepResult) (s : NS DB) : NS DB * (ObjectWriteGCSweepResult * option merr) :=
  match attempts with
  | [] => (s, (r, None))
  | a :: rest =>
      if negb failed && negb (attemptIsAbandoned a now age) then sweep_list ev limit now age failed rest r s else
      if limit <=? sr_Scanned r then (s, (r, None)) else
      let r := add_scanned r in
      match sweepAttempt ev a s with
      | (s, Err e) => (s, (r, Some e))
      | (s, Ok (deleted, skipped)) =>
          let r := add_chunks deleted skipped r in
          if skipped =? 0 then
            match DeleteWriteAttempt (sv_attempt ev (wa_ID a)) 0 (wa_ID a) s with
            | (s, Err e) => (s, (r, Some e))
            | (s, Ok _) => sweep_list ev limit now age failed rest (add_attempt r) s
            end
          else sweep_list ev limit now age failed rest r s
      end
  end.

Fixpoint sweep_states (ev : sweep_env) (limit now age : Z) (states : list (list Z))
    (r : ObjectWriteGCSweepResult) (s : NS DB) : NS DB * (ObjectWriteGCSweepResult * option merr) :=
  match states with
  | [] => (s, (r, None))
  | state :: states =>
      if limit <=? sr_Scanned r then (s, (r, None)) else
      match ListWriteAttemptsByState state (limit - sr_Scanned r) s with
      | (s, Err e) => (s, (r, Some e))
      | (s, Ok attempts) =>
          match sweep_list ev limit now age (bool_decide (state = WriteAttemptFailed)) attempts r s with
          | (s, (r, None)) => sweep_states ev limit now age states r s
          | (s, (r, Some e)) => (s, (r, Some e))
          end
      end
  end.

(** [SweepOnce] *)
Definition SweepOnce (ev : sweep_env) (opts : ObjectWriteGCSweepOptions) (s : NS DB) :
    NS DB * (ObjectWriteGCSweepResult * option merr) :=
  let o := sweep_defaults (sv_now ev) opts in
  sweep_states ev (so_Limit o) (match so_CurrentTime o with Some t => t | None => 0 end) (so_AbandonAge o)
    sweep_states_order (mkSweepResult 0 0 0 0) s.

(** ** The periodic task *)

(** The readings of the calls of a tick, and the text of an error. *)
Record tick_env := mkTickEnv {
  tk_now : Z; tk_ensure : wq_env; tk_lease : wq_env; tk_sweep : sweep_env; tk_done : wq_env;
  tk_text : merr -> list Z
}.

Definition ObjectWriteGCPeriodicTaskID := str "object-write-gc-periodic".

(** [NewBackgroundObjectWriteGCTask] *)
Definition NewBackgroundObjectWriteGCTask (id : list Z) (nextRunAt : Z) : BackgroundTask :=
  mkBackgroundTask id TaskWriteGC TaskQueued (str "object-write-gc") [] [] 0 nextRunAt [] 0 0 [].

(** [ensureObjectWriteBackgroundTask] *)
Definition ensureObjectWriteBackgroundTask (e : wq_env) (task : BackgroundTask) : N DB unit :=
  fun s =>
    let put s := (do* _ := PutBackgroundTask e 0 (Some task) in nret tt) s in
    match GetBackgroundTask (bg_ID task) s with
    | (s, Ok existing) =>
        if bool_decide (bg_State existing = TaskQueued) || bool_decide (bg_State existing = TaskLeased)
           || bool_decide (bg_State existing = TaskRunning)
        then (s, Ok tt) else put s
    | (s, Err x) => if bool_decide (x = ErrEntryNotFound) then put s else (s, Err x)
    end.

(** [ObjectWriteGCWorker.RunBackgroundTaskOnce] *)
Definition RunBackgroundTaskOnce (k : tick_env) (owner : list Z) (lease : Z) (opts : ObjectWriteGCSweepOptions) :
    N DB ObjectWriteGCSweepResult :=
  fun s =>
    match LeaseBackgroundTask (tk_lease k) TaskWriteGC owner lease s with
    | (s, Err x) => if bool_decide (x = ErrEntryNotFound) then (s, Ok (mkSweepResult 0 0 0 0)) else (s, Err x)
    | (s, Ok task) =>
        match SweepOnce (tk_sweep k) opts s with
        | (s, (r, Some x)) => ((FailBackgroundTask (tk_done k) (bg_ID task) (tk_text k x) 3 s).1, Err x)
        | (s, (r, None)) => (do* _ := CompleteBackgroundTask (tk_done k) (bg_ID task) in nret r) s
        end
    end.

(** One tick of [runObjectWriteGCLoop]; its errors are logged. *)
Definition gc_tick (owner : list Z) (lease : Z) (opts : ObjectWriteGCSweepOptions) (k : tick_env) (s : NS DB) : NS DB :=
  match ensureObjectWriteBackgroundTask (tk_ensure k)
          (NewBackgroundObjectWriteGCTask ObjectWriteGCPeriodicTaskID (tk_now k)) s with
  | (s, Err _) => s
  | (s, Ok _) => (RunBackgroundTaskOnce k owner lease opts s).1
  end.
End GC.
