(* ===== verification/WriteGCProofs.v ===== *)
(** * What a sweep of write attempts does *)

From stdpp Require Import base list sorting numbers strings gmap.
From Stdlib Require Import ZArith Lia.
From S2P Require Import Prelude Bytes Pebble MetaKeys MetaScan MetaTypes RaftLog MetaFSM Namespace Extents ChunkRules ChunkGC MetaFSMProofs NamespaceSpec NamespaceProgress ExtentProofs ChunkProofs WorkQueue WorkIndex WorkQueueProofs WriteGC.

Local Open Scope Z_scope.
Local Open Scope go_scope.
Local Open Scope ns_scope.

(** ** Keys *)

Definition tombstone_key (k : list Z) : Prop := exists id, k = chunkTombstoneKey id.

Lemma apart_prefix p q s : apart p q = true -> HasPrefix (p ++ s) q = false.
Proof.
  intros Ha. destruct (HasPrefix (p ++ s) q) eqn:E; [|done]. apply HasPrefix_spec in E as [r E].
  by apply apart_app in E.
Qed.

(** Keys under a prefix apart from both of a queue's are not the queue's. *)
Lemma foreign_task p s :
  apart p prefixBackgroundTask = true -> apart p prefixBackgroundTaskQ = true -> foreign BackgroundTask (p ++ s).
Proof. intros H1 H2. split; [by apply apart_prefix|]. intros id E. symmetry in E. by apply apart_app in E. Qed.

Lemma foreign_attempt p s :
  apart p prefixWriteAttempt = true -> apart p prefixWriteAttemptState = true -> foreign ObjectWriteAttempt (p ++ s).
Proof. intros H1 H2. split; [by apply apart_prefix|]. intros id E. symmetry in E. by apply apart_app in E. Qed.

(** A key is a queue's or foreign to it. *)
Lemma attempt_key_cases k :
  foreign ObjectWriteAttempt k \/ (exists r, k = prefixWriteAttempt ++ r) \/ (exists r, k = prefixWriteAttemptState ++ r).
Proof.
  destruct (HasPrefix k prefixWriteAttemptState) eqn:E1; [apply HasPrefix_spec in E1; auto|].
  destruct (HasPrefix k prefixWriteAttempt) eqn:E2; [apply HasPrefix_spec in E2; auto|].
  left. split; [done|]. intros id <-. pose proof (HasPrefix_app prefixWriteAttempt id) as E.
  cbn [ix_row attempt_indexed] in E2. unfold writeAttemptKey in E2. congruence.
Qed.

Lemma task_key_cases k :
  foreign BackgroundTask k \/ (exists r, k = prefixBackgroundTask ++ r) \/ (exists r, k = prefixBackgroundTaskQ ++ r).
Proof.
  destruct (HasPrefix k prefixBackgroundTaskQ) eqn:E1; [apply HasPrefix_spec in E1; auto|].
  destruct (HasPrefix k prefixBackgroundTask) eqn:E2; [apply HasPrefix_spec in E2; auto|].
  left. split; [done|]. intros id <-. pose proof (HasPrefix_app prefixBackgroundTask id) as E.
  cbn [ix_row task_indexed] in E2. unfold backgroundTaskKey in E2. congruence.
Qed.

Lemma attempt_row_inode r : in_range prefixInode (prefixUpperBound prefixInode) (prefixWriteAttempt ++ r) = false /\
  in_range prefixInode (prefixUpperBound prefixInode) (prefixWriteAttemptState ++ r) = false.
Proof. split; reflexivity. Qed.

Lemma tombstone_foreign id :
  foreign ObjectWriteAttempt (chunkTombstoneKey id) /\ foreign BackgroundTask (chunkTombstoneKey id).
Proof. split; [by apply foreign_attempt|by apply foreign_task]. Qed.

Lemma elem_of_take_in {A} (x : A) n l : x ∈ take n l -> x ∈ l.
Proof. intros H1. rewrite <- (take_drop n l). apply elem_of_app. by left. Qed.

Section Proofs.
Context {DB : Type} `{KL : PebbleLaws DB}.
Context `{CI : Codec InodeMeta} `{C2 : Codec InodeMetaV2} `{CP : Codec ExtentPage}.
Context `{CK : Codec ChunkMeta} `{CT : Codec ChunkTombstone}.
Context `{LG : CodecLaws BackgroundTask} `{LW : CodecLaws ObjectWriteAttempt} `{CS : Codec (list Z)}.
Context (rules : version_rules).
Context (chunk_width : forall raw c, @unmarshalValue _ CK raw = Ok c -> is_u64 (ck_ID c)).

Abbreviation attempts := (gmap (list Z) ObjectWriteAttempt).

(** The database differs in tombstones of the chunks [named], none of them
    in [refs], and in rows of attempts only. *)
Record spares (refs : list Z) (named : Z -> Prop) (db db' : DB) : Prop := mkSpares {
  sp_rows k : foreign ObjectWriteAttempt k -> ~ tombstone_key k -> kv_get db' k = kv_get db k;
  sp_tombs id : is_u64 id -> kv_get db' (chunkTombstoneKey id) <> kv_get db (chunkTombstoneKey id) ->
    id ∉ refs /\ named id
}.

Lemma spares_refl refs named db : spares refs named db db.
Proof. by split. Qed.

Lemma spares_trans refs named db1 db2 db3 :
  spares refs named db1 db2 -> spares refs named db2 db3 -> spares refs named db1 db3.
Proof.
  intros [R1 T1] [R2 T2]. split; [intros k Hf Ht; by rewrite R2, R1|]. intros id W Hne.
  destruct (decide (kv_get db2 (chunkTombstoneKey id) = kv_get db1 (chunkTombstoneKey id))) as [E|E]; [|by apply T1].
  apply T2; [done|congruence].
Qed.

Lemma tombstone_key_bytes k : tombstone_key k -> bytes_wf k.
Proof. intros [id ->]. apply chunk_row_wf. exists id. by right. Qed.

(** Inode rows and extent pages are spared, so the references stay. *)
Lemma spares_references refs named db db' : spares refs named db db' -> scan_references db' = scan_references db.
Proof.
  intros [R _]. apply scan_references_agree.
  - intros k Hk. apply R.
    + destruct (attempt_key_cases k) as [|[[r ->]|[r ->]]]; [done|..]; destruct (attempt_row_inode r); congruence.
    + intros Ht. pose proof (tombstone_key_bytes k Ht) as W. apply inode_range_not_chunk in Hk. apply Hk.
      destruct Ht as [id ->]. exists id. by right.
  - intros i r p. apply R; [by apply foreign_attempt|]. intros [id E].
    apply (page_not_chunk i r p). exists id. by right.
Qed.

(** ** Tombstones *)

Lemma delete_chunk_run hook fail now id (s s' : NS DB) r refs (named : Z -> Prop) :
  scan_references (ns_db s) = Ok refs -> named id -> DeleteChunk rules hook fail now id s = (s', r) ->
  s' = set_db (ns_db s') s /\ spares refs named (ns_db s) (ns_db s') /\
  (forall k, ~ tombstone_key k -> kv_get (ns_db s') k = kv_get (ns_db s) k) /\
  (forall k v, kv_get (ns_db s') k = Some v -> kv_get (ns_db s) k = Some v \/ tombstone_key k).
Proof.
  intros Hs Hn. unfold DeleteChunk.
  destruct (tombstoneChunk rules _ _ _ _ _ _ _) as [r1 db1] eqn:E. unfold tombstoneChunk in E.
  intros Er. assert (s' = set_db db1 s) as -> by (by destruct r1; injection Er as <- <-). clear Er. cbn [ns_db set_db].
  split; [done|]. assert (db1 = ns_db s -> spares refs named (ns_db s) db1 /\
    (forall k, ~ tombstone_key k -> kv_get db1 k = kv_get (ns_db s) k) /\
    (forall k v, kv_get db1 k = Some v -> kv_get (ns_db s) k = Some v \/ tombstone_key k)) as Hsame.
  { intros ->. split; [apply spares_refl|]. auto. }
  destruct (stableInodeReferenceSnapshot _ _) as [sn|e] eqn:Es; [|apply Hsame; by injection E].
  apply snapshot_const in Es. rewrite Hs in Es. injection Es as ->.
  apply tombstone_run in E as [[Ed _]|(_ & Hc & T)]; [by apply Hsame|].
  apply bool_decide_eq_false in Hc. destruct (td_chunk _ _ _ _ T) as (raw & chunk & _ & Hu & Hi & _).
  apply chunk_width in Hu. rewrite Hi in Hu.
  assert (forall k, ~ tombstone_key k -> kv_get db1 k = kv_get (ns_db s) k) as Ho.
  { intros k Hk. apply (td_other _ _ _ _ T). intros ->. apply Hk. by exists id. }
  split; [|split; [done|]].
  - split; [intros k _; apply Ho|]. intros id' W Hne. destruct (decide (id' = id)) as [->|D]; [done|].
    destruct Hne. apply (td_other _ _ _ _ T). by intros E%chunkTombstoneKey_inj.
  - intros k v Hk. destruct (decide (k = chunkTombstoneKey id)) as [->|D]; [right; by exists id|left].
    by rewrite <- (td_other _ _ _ _ T).
Qed.

(** ** Sweeps *)

(** Attempts a sweep may collect at [now]. *)
Definition collectable (now age : Z) (a : ObjectWriteAttempt) : Prop :=
  wa_State a = WriteAttemptFailed \/
  ((wa_State a = WriteAttemptPending \/ wa_State a = WriteAttemptChunksAllocated) /\
   attemptIsAbandoned a now age = true).

(** The chunks such attempts name. *)
Definition named_by (q : attempts) (now age : Z) (id : Z) : Prop :=
  exists a, q !! wa_ID a = Some a /\ collectable now age a /\ id ∈ map cr_ID (wa_Chunks a).

(** From [s] with attempts [q] to [s'] with [q']. *)
Record swept (refs : list Z) (named : Z -> Prop) (may : ObjectWriteAttempt -> Prop) (s s' : NS DB) (q q' : attempts) :
    Prop := mkSwept {
  ss_flags : ns_closed s' = ns_closed s /\ ns_readOnly s' = ns_readOnly s;
  ss_index : indexed (ns_db s') q';
  ss_sub id a : q' !! id = Some a -> q !! id = Some a;
  ss_gone id a : q !! id = Some a -> q' !! id = None -> may a;
  ss_spares : spares refs named (ns_db s) (ns_db s')
}.

Lemma swept_refl (refs : list Z) (named : Z -> Prop) (may : ObjectWriteAttempt -> Prop) (s : NS DB) (q : attempts) : indexed (ns_db s) q -> swept refs named may s s q q.
Proof. intros R. constructor; [done|done|done|congruence|apply spares_refl]. Qed.

Lemma swept_trans (refs : list Z) (named : Z -> Prop) (may : ObjectWriteAttempt -> Prop) (s1 s2 s3 : NS DB) (q1 q2 q3 : attempts) :
  swept refs named may s1 s2 q1 q2 -> swept refs named may s2 s3 q2 q3 -> swept refs named may s1 s3 q1 q3.
Proof.
  intros [[C1 F1] I1 S1 G1 P1] [[C2' F2] I2 S2 G2 P2]. constructor.
  - by rewrite C2', F2.
  - done.
  - auto.
  - intros id a Ha Hn. destruct (q2 !! id) as [b|] eqn:Eb; [|by eapply G1].
    pose proof (S1 _ _ Eb). replace a with b by congruence. by eapply G2.
  - by apply (spares_trans _ _ _ (ns_db s2)).
Qed.

Lemma get_inode_same en id (s s' : NS DB) r :
  GetInode en id s = (s', r) -> ns_db s' = ns_db s /\ ns_closed s' = ns_closed s /\ ns_readOnly s' = ns_readOnly s.
Proof.
  unfold GetInode, nbind, enter_ns, nget, nret, nlift, nerr, nmodify. destruct (ns_closed s) eqn:Ec; [by intros [= <- _]|].
  destruct (ns_inCache s !! id); [by intros [= <- _]|]. destruct (getValue _ _) as [[m|]|]; by intros [= <- _].
Qed.

Lemma referenced_same en inode chunk (s s' : NS DB) r :
  chunkReferencedByAttemptInode en inode chunk s = (s', r) ->
  (exists b, r = Ok b) /\ ns_db s' = ns_db s /\ ns_closed s' = ns_closed s /\ ns_readOnly s' = ns_readOnly s.
Proof.
  unfold chunkReferencedByAttemptInode, nret. destruct (inode =? 0); [intros [= <- <-]; by repeat split; eauto|].
  destruct (GetInode en inode s) as [s1 [m|e]] eqn:E; intros [= <- <-]; apply get_inode_same in E;
    (split; [by eexists|done]).
Qed.

(** Nothing but the cache changed. *)
Lemma swept_same (refs : list Z) (named : Z -> Prop) (may : ObjectWriteAttempt -> Prop) (s s' : NS DB) (q : attempts) :
  indexed (ns_db s) q -> ns_db s' = ns_db s /\ ns_closed s' = ns_closed s /\ ns_readOnly s' = ns_readOnly s ->
  swept refs named may s s' q q.
Proof.
  intros R (Ed & Ec & Ef). constructor; [done|by rewrite Ed|done|congruence|rewrite Ed; apply spares_refl].
Qed.

Lemma swept_delete_chunk (refs : list Z) (named : Z -> Prop) (may : ObjectWriteAttempt -> Prop) (q : attempts) hook fail now id (s s' : NS DB) r :
  indexed (ns_db s) q -> scan_references (ns_db s) = Ok refs -> named id ->
  DeleteChunk rules hook fail now id s = (s', r) -> swept refs named may s s' q q.
Proof.
  intros R Hs Hn E. destruct (delete_chunk_run _ _ _ _ _ _ _ _ named Hs Hn E) as (Es & Sp & Ho & Hb).
  constructor; [by rewrite Es| |done|congruence|done].
  apply (indexed_frame (ns_db s)); [done|..].
  - intros i. apply Ho. intros [j Ej]. by apply (proj2 (proj1 (tombstone_foreign j)) i).
  - intros k Hk. apply Ho. intros [j ->]. by rewrite (proj1 (proj1 (tombstone_foreign j))) in Hk.
  - intros k v Hk. destruct (Hb k v Hk) as [Hg|Ht]; [by eapply id_bytes|by apply tombstone_key_bytes].
Qed.

Lemma sweep_refs_run (refs : list Z) (named : Z -> Prop) (may : ObjectWriteAttempt -> Prop) (q : attempts) ev a crefs : forall d k (s s' : NS DB) r,
  indexed (ns_db s) q -> scan_references (ns_db s) = Ok refs -> (forall ref, ref ∈ crefs -> named (cr_ID ref)) ->
  sweep_refs rules ev a crefs d k s = (s', r) -> swept refs named may s s' q q.
Proof.
  induction crefs as [|ref crefs IH]; intros d k s s' r R Hs Hn E; cbn [sweep_refs] in E.
  { unfold nret in E. injection E as <- _. by apply swept_refl. }
  assert (forall x, x ∈ crefs -> named (cr_ID x)) as Hn' by (intros; apply Hn; by right).
  assert (forall s1 d k, swept refs named may s s1 q q -> sweep_refs rules ev a crefs d k s1 = (s', r) ->
            swept refs named may s s' q q) as Next.
  { intros s1 d1 k1 Hsw E1. apply (swept_trans _ _ _ _ s1 _ _ q); [done|]. apply IH in E1; [done|..|done].
    - apply (ss_index _ _ _ _ _ _ _ Hsw).
    - by rewrite (spares_references _ _ _ _ (ss_spares _ _ _ _ _ _ _ Hsw)). }
  unfold nbind in E. destruct (chunkReferencedByAttemptInode _ _ _ s) as [s1 r1] eqn:E1.
  apply referenced_same in E1 as [[b ->] Hsame]. pose proof (swept_same refs named may _ _ _ R Hsame) as H1s.
  destruct b; [by eapply Next|]. destruct (DeleteChunk _ _ _ _ _ s1) as [s2 r2] eqn:E2.
  apply (swept_delete_chunk refs named may q) in E2;
    [|apply (ss_index _ _ _ _ _ _ _ H1s)|by rewrite (proj1 Hsame)|apply Hn; by left].
  pose proof (swept_trans _ _ _ _ _ _ _ _ _ H1s E2) as H2s.
  destruct r2 as [[]|e]; [by eapply Next|]. destruct (bool_decide _); [by eapply Next|]. by injection E as <- _.
Qed.

Lemma swept_delete_attempt (refs : list Z) (named : Z -> Prop) (may : ObjectWriteAttempt -> Prop) (q : attempts) e n id (s s' : NS DB) r :
  indexed (ns_db s) q -> ns_closed s = false -> (forall a, q !! id = Some a -> may a) ->
  DeleteWriteAttempt e n id s = (s', r) -> exists q', swept refs named may s s' q q' /\ (r = Ok tt -> q' = delete id q).
Proof.
  intros R Hc Hm E. apply (delete_attempt_run q) in E; [|done..]. destruct (q !! id) as [a|] eqn:Ea.
  - destruct E as [(-> & Es & R' & F)|(x & -> & -> & _)]; [|exists q; split; [by apply swept_refl|done]].
    exists (delete id q). split; [|done]. constructor; [by rewrite Es|done| | |].
    + by intros i b [_ Hb]%lookup_delete_Some.
    + intros i b Hb Hn. apply lookup_delete_None in Hn as [->|Hn]; [apply Hm|]; congruence.
    + split; [intros k Hk _; by apply F|]. intros i _ []. apply F, tombstone_foreign.
  - destruct E as [-> ->]. exists q. split; [by apply swept_refl|done].
Qed.

Lemma list_run (q : attempts) st limit (s : NS DB) :
  indexed (ns_db s) q -> ns_closed s = false -> bytes_wf st -> slash ∉ st ->
  exists l, ListWriteAttemptsByState st limit s = (s, Ok (take (Z.to_nat (if limit <=? 0 then 100 else limit)) l)) /\
    len (state_rows (ns_db s) st) = len l /\
    StronglySorted (fun x y => bytes_lt (state_key x) (state_key y)) l /\
    (forall a, a ∈ l <-> q !! wa_ID a = Some a /\ wa_State a = st).
Proof.
  intros R Hc Wst Sst. destruct (state_rows_attempts (ns_db s) q st R Wst Sst) as (l & El & Sl & Hl).
  exists l. split; [|split; [|done]].
  - unfold ListWriteAttemptsByState, nbind, enter_ns, nget, nret. rewrite Hc.
    rewrite (collect_attempts_take _ q _ _ l []); [by rewrite Z.sub_0_r|done|done|intros a Ha; by apply Hl|].
    destruct (Z.leb_spec limit 0); lia.
  - apply (f_equal length) in El. rewrite !length_map in El. exact (f_equal Z.of_nat El).
Qed.

Lemma sweep_list_run (refs : list Z) (now age : Z) (q0 q : attempts) ev limit failed st l : forall r res (s s' : NS DB),
  indexed (ns_db s) q -> ns_closed s = false -> scan_references (ns_db s) = Ok refs ->
  (forall id a, q !! id = Some a -> q0 !! id = Some a) ->
  (forall a, a ∈ l -> q0 !! wa_ID a = Some a /\ wa_State a = st) ->
  failed = bool_decide (st = WriteAttemptFailed) -> st ∈ sweep_states_order ->
  sweep_list rules ev limit now age failed l r s = (s', res) ->
  exists q', swept refs (named_by q0 now age) (collectable now age) s s' q q'.
Proof.
  revert q. induction l as [|a l IH]; intros q r res s s' R Hc Hs Hsub Hl Hf Hst E; cbn [sweep_list] in E.
  { injection E as <- _. exists q. by apply swept_refl. }
  assert (forall x, x ∈ l -> q0 !! wa_ID x = Some x /\ wa_State x = st) as Hl' by (intros; apply Hl; by right).
  destruct (Hl a) as [Ha Hsa]; [by left|].
  destruct (negb failed && negb (attemptIsAbandoned a now age)) eqn:Eskip; [by eapply IH|].
  destruct (limit <=? sr_Scanned r); [injection E as <- _; exists q; by apply swept_refl|].
  assert (collectable now age a) as Hcol.
  { unfold collectable. rewrite Hsa. apply andb_false_iff in Eskip as [Hn|Hn].
    - apply negb_false_iff in Hn. rewrite Hf in Hn. left. by apply bool_decide_eq_true in Hn.
    - apply negb_false_iff in Hn. unfold sweep_states_order in Hst.
      apply elem_of_cons in Hst as [->|Hst]; [by left|]. apply elem_of_cons in Hst as [->|Hst]; [right; by auto|].
      apply list_elem_of_singleton in Hst as ->. right; by auto. }
  destruct (sweepAttempt rules ev a s) as [s1 r1] eqn:E1. unfold sweepAttempt in E1.
  apply (sweep_refs_run refs (named_by q0 now age) (collectable now age) q) in E1; [|done|done|].
  2:{ intros ref Hr. exists a. split; [done|]. split; [done|]. by apply list_elem_of_fmap_2. }
  assert (forall s2 q2 r2, swept refs (named_by q0 now age) (collectable now age) s s2 q q2 ->
    sweep_list rules ev limit now age failed l r2 s2 = (s', res) ->
    exists q', swept refs (named_by q0 now age) (collectable now age) s s' q q') as Next.
  { intros s2 q2 r2 Hsw E2. destruct (IH q2 r2 res s2 s') as [q' Hq']; [by apply Hsw| | | | | | |done|].
    - rewrite (proj1 (ss_flags _ _ _ _ _ _ _ Hsw)). done.
    - by rewrite (spares_references _ _ _ _ (ss_spares _ _ _ _ _ _ _ Hsw)).
    - intros id b Hb. by apply Hsub, (ss_sub _ _ _ _ _ _ _ Hsw).
    - done.
    - done.
    - done.
    - exists q'. by apply (swept_trans _ _ _ _ s2 _ _ q2). }
  destruct r1 as [[d k]|x]; [|injection E as <- _; by exists q]. destruct (k =? 0); [|by eapply Next].
  destruct (DeleteWriteAttempt _ _ _ s1) as [s2 r2] eqn:E2.
  assert (forall b, q !! wa_ID a = Some b -> collectable now age b) as Hmay.
  { intros b Hb. apply Hsub in Hb. by replace b with a by congruence. }
  destruct (swept_delete_attempt refs (named_by q0 now age) (collectable now age) q _ _ _ _ _ _
              (ss_index _ _ _ _ _ _ _ E1) (eq_trans (proj1 (ss_flags _ _ _ _ _ _ _ E1)) Hc) Hmay E2) as (q2 & Hsw & _).
  pose proof (swept_trans _ _ _ _ _ _ _ _ _ E1 Hsw) as H2s.
  destruct r2 as [[]|x]; [by eapply Next|]. injection E as <- _. by exists q2.
Qed.

Lemma sweep_states_run (refs : list Z) (now age : Z) (q0 q : attempts) ev limit states : forall r res (s s' : NS DB),
  indexed (ns_db s) q -> ns_closed s = false -> scan_references (ns_db s) = Ok refs ->
  (forall id a, q !! id = Some a -> q0 !! id = Some a) -> (forall st, st ∈ states -> st ∈ sweep_states_order) ->
  sweep_states rules ev limit now age states r s = (s', res) ->
  exists q', swept refs (named_by q0 now age) (collectable now age) s s' q q'.
Proof.
  revert q. induction states as [|st states IH]; intros q r res s s' R Hc Hs Hsub Hst E; cbn [sweep_states] in E.
  { injection E as <- _. exists q. by apply swept_refl. }
  destruct (limit <=? sr_Scanned r); [injection E as <- _; exists q; by apply swept_refl|].
  assert (st ∈ sweep_states_order) as Hin by (apply Hst; by left).
  assert (bytes_wf st /\ slash ∉ st) as [Wst Sst].
  { revert Hin. unfold sweep_states_order. rewrite !elem_of_cons.
    intros [->|[->|[->|?%not_elem_of_nil]]]; try done;
      (split; [apply str_wf|apply (bool_decide_unpack _); exact I]). }
  destruct (list_run q st (limit - sr_Scanned r) s R Hc Wst Sst) as (l & El & _ & _ & Hl). rewrite El in E.
  destruct (sweep_list _ _ _ _ _ _ _ _ s) as [s1 [r1 e1]] eqn:E1.
  apply (sweep_list_run refs now age q0 q ev limit _ st) in E1 as (q1 & Hsw); [|done|done|done|done| |done|done].
  2:{ intros a Ha. assert (a ∈ l) as [Hq Hsa]%Hl by (eapply elem_of_take_in; exact Ha). split; [by apply Hsub|done]. }
  destruct e1 as [x|]; [injection E as <- _; by exists q1|].
  apply (IH q1) in E as [q' Hq'].
  - exists q'. by apply (swept_trans _ _ _ _ s1 _ _ q1).
  - apply Hsw.
  - rewrite (proj1 (ss_flags _ _ _ _ _ _ _ Hsw)). done.
  - by rewrite (spares_references _ _ _ _ (ss_spares _ _ _ _ _ _ _ Hsw)).
  - intros id b Hb. by apply Hsub, (ss_sub _ _ _ _ _ _ _ Hsw).
  - intros; apply Hst; by right.
Qed.
End Proofs.

(** * One pass of the erasure-coding scheduler *)

Section Scheduler.
Context {DB : Type} `{KL : PebbleLaws DB} `{CI : Codec InodeMeta}.
Context `{LG : CodecLaws BackgroundTask} `{CS : Codec (list Z)} `{C2 : Codec InodeMetaV2} `{CK : Codec ChunkMeta}.

Abbreviation tasks := (gmap (list Z) BackgroundTask).

(** The extent of an inode row meets the prerequisites of conversion at
    [now]: an inline extent, idle for thirty days, replicated, ready, whose
    chunk exists and is not erasure coded. *)
Inductive converts (db : DB) (now : Z) (value : list Z) (elig : ConversionEligibility) : Prop :=
| mkConverts (inode : InodeMetaV2) (ext : ExtentMetaV2) (raw : list Z) (chunk : ChunkMeta) :
    @unmarshalValue _ C2 value = Ok inode ->
    i2_Layout inode = LayoutInlineExtent /\ i2_InlineExtent inode = Some ext ->
    ECConversionIdleAge <= now - ce_ExtentCreated elig ->
    ex_StorageClass ext <> StorageClassColdEC /\ ex_ECStripeID ext = [] ->
    ex_Lifecycle ext = LifecycleReady ->
    kv_get db (chunkMetadataKey (ex_ID ext)) = Some raw /\ @unmarshalValue _ CK raw = Ok chunk ->
    ck_ECGroup chunk = None /\ ck_ECStripeID chunk = [] ->
    elig = mkConversionEligibility (i2_ID inode) (ex_ID ext)
             (if ex_CreatedAt ext =? 0 then i2_MTime inode else ex_CreatedAt ext)
             (ex_LogicalLen ext) (owner_nodes [] (ck_Replicas chunk)) ->
    converts db now value elig.

Lemma empty_len {A} (l : list A) : negb (len l =? 0) = false -> l = [].
Proof. destruct l; [done|]. intros E%negb_false_iff%Z.eqb_eq. cbn [length] in E. lia. Qed.

Lemma is_Some_None {A} (o : option A) : bool_decide (is_Some o) = false -> o = None.
Proof. intros E%bool_decide_eq_false. by apply eq_None_not_Some. Qed.

Lemma eligible_run (db : DB) now value inode ext (s : NS DB) :
  ns_db s = db -> ns_closed s = false -> @unmarshalValue _ C2 value = Ok inode ->
  i2_Layout inode = LayoutInlineExtent -> i2_InlineExtent inode = Some ext ->
  exists o, ECConversionEligible now (i2_ID inode) inode ext s = (s, Ok o) /\
    (forall elig, converts db now value elig <-> o = Some elig).
Proof.
  intros <- Hc Hu Hlay Hin. unfold ECConversionEligible.
  set (created := if ex_CreatedAt ext =? 0 then i2_MTime inode else ex_CreatedAt ext).
  assert (forall elig, converts (ns_db s) now value elig ->
    ECConversionIdleAge <= now - created /\ (ex_StorageClass ext <> StorageClassColdEC /\ ex_ECStripeID ext = []) /\
    ex_Lifecycle ext = LifecycleReady /\ exists raw chunk,
      kv_get (ns_db s) (chunkMetadataKey (ex_ID ext)) = Some raw /\ @unmarshalValue _ CK raw = Ok chunk /\
      ck_ECGroup chunk = None /\ ck_ECStripeID chunk = [] /\
      elig = mkConversionEligibility (i2_ID inode) (ex_ID ext) created (ex_LogicalLen ext) (owner_nodes [] (ck_Replicas chunk)))
    as Hinv.
  { intros elig [i x raw ch Hrow [_ Hx] Hidle Hcls Hrdy [Hk Hd] [Hg Hs] He].
    assert (i = inode) as -> by congruence. assert (x = ext) as -> by congruence.
    rewrite He in Hidle. cbn [ce_ExtentCreated] in Hidle. split; [done|]. split; [done|]. split; [done|].
    by exists raw, ch. }
  assert (forall P : Prop, (forall elig, converts (ns_db s) now value elig -> P) -> ~ P ->
    exists o, nret None s = (s, Ok o) /\ (forall elig, converts (ns_db s) now value elig <-> o = Some elig)) as No.
  { intros P HP HnP. exists None. split; [done|]. intros elig. split; [intros C; by destruct (HnP (HP elig C))|done]. }
  destruct (Z.ltb_spec (now - created) ECConversionIdleAge).
  { apply (No (ECConversionIdleAge <= now - created)); [by intros elig (? & _)%Hinv|lia]. }
  destruct ((ex_StorageClass ext =? StorageClassColdEC) || negb (len (ex_ECStripeID ext) =? 0)) eqn:Ecl.
  { apply (No (ex_StorageClass ext <> StorageClassColdEC /\ ex_ECStripeID ext = [])); [by intros elig (_ & ? & _)%Hinv|].
    intros [Hn He]. rewrite He in Ecl. by apply orb_true_iff in Ecl as [?%Z.eqb_eq|?]. }
  apply orb_false_iff in Ecl as [Hcl%Z.eqb_neq Hst%empty_len].
  destruct (Z.eqb_spec (ex_Lifecycle ext) LifecycleReady) as [Hlc|Hlc]; cbn [negb].
  2:{ apply (No (ex_Lifecycle ext = LifecycleReady)); [by intros elig (_ & _ & ? & _)%Hinv|done]. }
  unfold GetChunk, nbind, enter_ns, nget, nlift, nret, nerr, getValue. rewrite Hc.
  destruct (kv_get (ns_db s) (chunkMetadataKey (ex_ID ext))) as [raw|] eqn:Ek.
  2:{ exists None. split; [done|]. intros elig. split; [|done]. intros (_ & _ & _ & raw & ch & Hk & _)%Hinv. congruence. }
  destruct (@unmarshalValue _ CK raw) as [chunk|x] eqn:Euc.
  2:{ exists None. split; [done|]. intros elig. split; [|done]. intros (_ & _ & _ & raw' & ch & Hk & Hd & _)%Hinv. congruence. }
  destruct (bool_decide (is_Some (ck_ECGroup chunk)) || negb (len (ck_ECStripeID chunk) =? 0)) eqn:Eec.
  { exists None. split; [done|]. intros elig. split; [|done].
    intros (_ & _ & _ & raw' & ch & Hk & Hd & Hg & Hs & _)%Hinv. assert (ch = chunk) as -> by congruence.
    rewrite Hg, Hs in Eec. done. }
  apply orb_false_iff in Eec as [Hg%is_Some_None Hs%empty_len].
  eexists. split; [reflexivity|]. intros elig. split.
  - intros (_ & _ & _ & raw' & ch & Hk & Hd & _ & _ & ->)%Hinv. by assert (ch = chunk) as -> by congruence.
  - intros [= <-]. by eapply (mkConverts _ _ _ _ inode ext raw chunk).
Qed.

Lemma chunk_foreign_task id : foreign BackgroundTask (chunkMetadataKey id).
Proof. by apply foreign_task. Qed.

Lemma converts_frame (db db' : DB) now value elig :
  (forall k, foreign BackgroundTask k -> kv_get db' k = kv_get db k) ->
  converts db now value elig <-> converts db' now value elig.
Proof.
  intros F. split; intros [i x raw ch Hrow Hl Hidle Hcls Hrdy Hk Hec He];
    apply (mkConverts _ _ _ _ i x raw ch); try done.
  - by rewrite F by apply chunk_foreign_task.
  - by rewrite <- F by apply chunk_foreign_task.
Qed.

(** Only the task queue changed, by at most one new conversion task. *)
Record scheduled (e : wq_env) (db : DB) (now : Z) (value : list Z) (s s' : NS DB) (q q' : tasks) : Prop := mkScheduled {
  sd_store : s' = set_db (ns_db s') s;
  sd_index : indexed (ns_db s') q';
  sd_rows k : foreign BackgroundTask k -> kv_get (ns_db s') k = kv_get (ns_db s) k;
  sd_tasks : q' = q \/ exists elig, converts db now value elig /\
    let id := conversion_id (ce_Extent elig) in
    q !! id = None /\ q' = <[id := stamp_task (we_clock e 1) (conversion_task (we_clock e 0) elig)]> q;
  sd_done elig : converts db now value elig -> ns_readOnly s = false -> we_fail e 1 = None ->
    is_Some (q' !! conversion_id (ce_Extent elig))
}.

Lemma schedule_row_run (q : tasks) (e : wq_env) (now : Z) (value : list Z) c (db : DB) (s s' : NS DB) r :
  indexed (ns_db s) q -> ns_closed s = false -> is_i64 (we_clock e 0) ->
  (forall k, foreign BackgroundTask k -> kv_get (ns_db s) k = kv_get db k) ->
  schedule_row e now value c s = (s', r) ->
  (exists c', r = Ok c') /\ exists q', scheduled e db now value s s' q q'.
Proof.
  intros R Hc Hn F. unfold schedule_row.
  assert ((forall elig, ~ converts db now value elig) -> scheduled e db now value s s q q) as Same.
  { intros No. constructor; [by destruct s|done|done|by left|]. intros elig C. by destruct (No elig). }
  destruct (@unmarshalValue _ C2 value) as [inode|x] eqn:Eu.
  2:{ intros [= <- <-]. split; [by eexists|]. exists q. apply Same. intros elig [i ? ? ? Hi]. congruence. }
  destruct (Z.eqb_spec (i2_Layout inode) LayoutInlineExtent) as [El|El]; cbn [negb].
  2:{ intros [= <- <-]. split; [by eexists|]. exists q. apply Same. intros elig [i ? ? ? Hi [Hl _]]. congruence. }
  destruct (i2_InlineExtent inode) as [ext|] eqn:Ex.
  2:{ intros [= <- <-]. split; [by eexists|]. exists q. apply Same. intros elig [i ? ? ? Hi [_ Hl]]. congruence. }
  destruct (eligible_run (ns_db s) now value inode ext s) as (o & Eo & Ho); [done..|].
  assert (forall elig, converts db now value elig <-> o = Some elig) as Ho'.
  { intros elig. rewrite <- Ho. by apply converts_frame. }
  unfold nbind. rewrite Eo. destruct o as [elig|].
  2:{ intros [= <- <-]. split; [by eexists|]. exists q. apply Same. by intros elig C%Ho'. }
  destruct (SubmitConversion e elig s) as [s1 r1] eqn:E.
  intros Er. assert (s' = s1 /\ exists c', r = Ok c') as [-> Hr].
  { destruct r1; injection Er as <- <-; eauto. }
  split; [done|]. clear Er. apply (submit_run q) in E; [|done..]. cbv zeta in E.
  destruct (q !! conversion_id (ce_Extent elig)) as [t|] eqn:Et.
  - destruct E as [-> ->]. exists q. constructor; [by destruct s|done|done|by left|].
    intros elig' [= <-]%Ho' _ _. by rewrite Et.
  - destruct E as [(-> & Es & R' & F')|(x & -> & -> & Hx)].
    + eexists. constructor; [exact Es|exact R'|exact F'| |].
      * right. exists elig. split; [by apply Ho'|]. done.
      * intros elig' [= <-]%Ho' _ _. by rewrite lookup_insert_eq.
    + exists q. constructor; [by destruct s|done|done|by left|].
      intros elig' _ Hro Hf. destruct Hx as [Hx|[y Hy]]; congruence.
Qed.

(** What a pass over [rows] makes of the tasks. *)
Record pass (e : nat -> wq_env) (now : nat -> Z) (n : nat) (rows : list row) (db : DB) (s s' : NS DB) (q q' : tasks) : Prop :=
  mkPass {
  ps_store : s' = set_db (ns_db s') s;
  ps_index : indexed (ns_db s') q';
  ps_rows k : foreign BackgroundTask k -> kv_get (ns_db s') k = kv_get (ns_db s) k;
  ps_keep id t : q !! id = Some t -> q' !! id = Some t;
  ps_new id t : q !! id = None -> q' !! id = Some t -> exists i kv elig, rows !! i = Some kv /\
    converts db (now (n + i)%nat) kv.2 elig /\ id = conversion_id (ce_Extent elig) /\
    t = stamp_task (we_clock (e (n + i)%nat) 1) (conversion_task (we_clock (e (n + i)%nat) 0) elig);
  ps_done i kv elig : rows !! i = Some kv -> converts db (now (n + i)%nat) kv.2 elig ->
    ns_readOnly s = false -> (forall m, we_fail (e m) 1 = None) -> is_Some (q' !! conversion_id (ce_Extent elig))
}.

Lemma schedule_rows_run (e : nat -> wq_env) (now : nat -> Z) (db : DB) rows : forall (q : tasks) n c (s s' : NS DB) r,
  indexed (ns_db s) q -> ns_closed s = false -> (forall m, is_i64 (we_clock (e m) 0)) ->
  (forall k, foreign BackgroundTask k -> kv_get (ns_db s) k = kv_get db k) ->
  schedule_rows e now n rows c s = (s', r) ->
  (exists c', r = Ok c') /\ exists q', pass e now n rows db s s' q q'.
Proof.
  induction rows as [|[k v] rows IH]; intros q n c s s' r R Hc Hn F E; cbn [schedule_rows] in E.
  { unfold nret in E. injection E as <- <-. split; [by eexists|]. exists q.
    constructor; [by destruct s|done|done|done|intros; congruence|done]. }
  unfold nbind in E. destruct (schedule_row (e n) (now n) v c s) as [s1 r1] eqn:E1.
  apply (schedule_row_run q _ _ _ _ db) in E1 as ([c1 ->] & q1 & S1); [|done..].
  pose proof (sd_store _ _ _ _ _ _ _ _ S1) as Es1.
  apply (IH q1) in E as (Hr & q' & P); [|apply S1| |done|].
  2:{ rewrite Es1. done. }
  2:{ intros k' Hk'. by rewrite (sd_rows _ _ _ _ _ _ _ _ S1), F. }
  split; [done|]. exists q'. destruct P as [Es I Rw K Nw D]. constructor.
  - rewrite Es, Es1. done.
  - done.
  - intros k' Hk'. by rewrite Rw, (sd_rows _ _ _ _ _ _ _ _ S1).
  - intros id t Ht. apply K. destruct (sd_tasks _ _ _ _ _ _ _ _ S1) as [->|(elig & _ & Hno & ->)]; [done|].
    rewrite lookup_insert_ne; [done|]. intros <-. congruence.
  - intros id t Ho Ht. destruct (q1 !! id) as [t1|] eqn:E1.
    + assert (t1 = t) as -> by (apply K in E1; congruence).
      destruct (sd_tasks _ _ _ _ _ _ _ _ S1) as [->|(elig & Hcv & Hno & ->)]; [congruence|].
      apply lookup_insert_Some in E1 as [[<- <-]|[_ ?]]; [|congruence]. exists 0%nat, (k, v), elig.
      rewrite Nat.add_0_r. done.
    + destruct (Nw id t E1 Ht) as (i & kv & elig & Hi & Hcv & -> & ->). exists (S i), kv, elig.
      rewrite <- Nat.add_succ_comm. done.
  - intros [|i] kv elig Hi Hcv Hro Hf.
    + injection Hi as <-. rewrite Nat.add_0_r in Hcv. destruct (sd_done _ _ _ _ _ _ _ _ S1 elig Hcv Hro (Hf n)) as [t Ht].
      exists t. by apply K.
    + rewrite <- Nat.add_succ_comm in Hcv. apply (D i kv elig Hi Hcv); [|done]. rewrite Es1. done.
Qed.
End Scheduler.
