(* ===== verification/WorkTheorems.v ===== *)
(** * Theorems about the work queues and their workers *)

From stdpp Require Import base list sorting numbers strings gmap countable.
From Stdlib Require Import ZArith Lia.
From S2P Require Import Prelude Bytes Pebble MetaKeys MetaScan MetaTypes RaftLog MetaFSM Namespace MetaFSMProofs.
From S2P Require Import Extents ChunkRules ChunkGC NamespaceSpec NamespaceProgress ExtentProofs ChunkProofs.
From S2P Require Import WorkQueue WorkIndex WorkQueueProofs WriteGC WriteGCProofs.

Local Open Scope Z_scope.
Local Open Scope go_scope.
Local Open Scope ns_scope.

Section Theorems.
Context {DB : Type} `{KL : PebbleLaws DB}.
Context `{CI : Codec InodeMeta} `{C2 : Codec InodeMetaV2} `{CP : Codec ExtentPage}.
Context `{CK : Codec ChunkMeta} `{CT : Codec ChunkTombstone}.
Context `{LG : CodecLaws BackgroundTask} `{LW : CodecLaws ObjectWriteAttempt} `{CS : Codec (list Z)}.

Abbreviation tasks := (gmap (list Z) BackgroundTask).
Abbreviation attempts := (gmap (list Z) ObjectWriteAttempt).

(** ** Background tasks *)

Inductive task_call : Type :=
| CallPut (t : BackgroundTask)
| CallLease (ty : list Z) (nodeID : Z) (owner : list Z) (lease : Z)
| CallComplete (id : list Z)
| CallFail (id lastErr : list Z) (maxAttempts : Z)
| CallSubmit (elig : ConversionEligibility).

Definition no_task (r : mgo unit) : mgo (option BackgroundTask) := let! _ := r in Ok None.

Definition run_task_call (e : wq_env) (c : task_call) (s : NS DB) : NS DB * mgo (option BackgroundTask) :=
  match c with
  | CallPut t => let (s, r) := PutBackgroundTask e 0 (Some t) s in (s, let! _ := r in Ok None)
  | CallLease ty nodeID owner lease =>
      let (s, r) := leaseBackgroundTask e ty nodeID owner lease s in (s, let! t := r in Ok (Some t))
  | CallComplete id => let (s, r) := CompleteBackgroundTask e id s in (s, no_task r)
  | CallFail id lastErr n => let (s, r) := FailBackgroundTask e id lastErr n s in (s, no_task r)
  | CallSubmit elig => let (s, r) := SubmitConversion e elig s in (s, no_task r)
  end.

(** The specification: a map of tasks, and what a successful call does to it. *)
Definition next_tasks (q : tasks) (e : wq_env) (c : task_call) (r : mgo (option BackgroundTask)) : tasks :=
  match r with
  | Err _ => q
  | Ok leased =>
      match c with
      | CallPut t => <[bg_ID t := stamp_task (we_clock e 0) t]> q
      | CallLease _ _ _ _ => match leased with Some t => <[bg_ID t := t]> q | None => q end
      | CallComplete id =>
          match q !! id with Some t => <[id := stamp_task (we_clock e 0) (completed_task t)]> q | None => q end
      | CallFail id lastErr n =>
          match q !! id with
          | Some t => <[id := stamp_task (we_clock e 1) (failed_task (we_clock e 0) lastErr n t)]> q
          | None => q
          end
      | CallSubmit elig =>
          let id := conversion_id (ce_Extent elig) in
          match q !! id with
          | Some _ => q
          | None => <[id := stamp_task (we_clock e 1) (conversion_task (we_clock e 0) elig)]> q
          end
      end
  end.

(** What a caller owes: records of the right form, and no write of a task
    that workers look for under the index key it already has. *)
Definition call_ok (q : tasks) (e : wq_env) (c : task_call) : Prop :=
  match c with
  | CallPut t => task_wf t /\ fresh_task q t
  | CallLease ty _ owner _ => bytes_wf ty /\ slash ∉ ty /\ owner <> []
  | CallComplete _ => True
  | CallFail id lastErr n => forall t, q !! id = Some t -> bg_State t = TaskRetrying ->
      bg_NextRunAt (failed_task (we_clock e 0) lastErr n t) <> bg_NextRunAt t
  | CallSubmit _ => is_i64 (we_clock e 0)
  end.

(** Stores and maps reached from an empty queue by calls, whatever the
    outcome of their commits. *)
Inductive reached : NS DB -> tasks -> Prop :=
| reached_empty (s : NS DB) : ns_closed s = false -> indexed (ns_db s) (∅ : tasks) -> reached s ∅
| reached_call (s : NS DB) (q : tasks) e c s' r :
    reached s q -> call_ok q e c -> run_task_call e c s = (s', r) -> reached s' (next_tasks q e c r).

Lemma outcome_step {A : Type} (q q' : tasks) (s s' : NS DB) fail (a : A) r :
  indexed (ns_db s) q -> ns_closed s = false -> outcome s s' fail q' a r ->
  ns_closed s' = false /\ indexed (ns_db s') (match r with Ok _ => q' | Err _ => q end).
Proof.
  intros R Hc [(-> & -> & R' & _)|(x & -> & -> & _)]; done.
Qed.

Lemma call_step (q : tasks) e c (s s' : NS DB) r :
  ns_closed s = false -> indexed (ns_db s) q -> call_ok q e c -> run_task_call e c s = (s', r) ->
  ns_closed s' = false /\ indexed (ns_db s') (next_tasks q e c r).
Proof.
  intros Hc R Ok. destruct c as [t|ty nodeID owner lease|id|id lastErr n|elig]; cbn [run_task_call call_ok] in *.
  - destruct Ok as [W F]. destruct (PutBackgroundTask e 0 (Some t) s) as [s1 r1] eqn:E. intros [= <- <-].
    apply (put_task_run q) in E; [|done..]. apply (outcome_step q) in E; [|done..]. by destruct r1.
  - destruct Ok as (W & S & Ho). destruct (leaseBackgroundTask e ty nodeID owner lease s) as [s1 r1] eqn:E.
    intros [= <- <-]. apply (lease_run q) in E; [|done..]. destruct (due_task _ _ _ _) as [t|].
    + pose proof E as E'. apply (outcome_step q) in E; [|done..].
      destruct E' as [(-> & _)|(x & -> & _)]; exact E.
    + destruct E as [-> ->]. done.
  - destruct (CompleteBackgroundTask e id s) as [s1 r1] eqn:E. intros [= <- <-].
    apply (complete_run q) in E; [|done..]. unfold next_tasks. destruct (q !! id) as [t|].
    + apply (outcome_step q) in E; [|done..]. by destruct r1.
    + destruct E as [-> ->]. done.
  - destruct (FailBackgroundTask e id lastErr n s) as [s1 r1] eqn:E. intros [= <- <-].
    apply (fail_run q) in E; [|done..]. unfold next_tasks. destruct (q !! id) as [t|].
    + apply (outcome_step q) in E; [|done..]. by destruct r1.
    + destruct E as [-> ->]. done.
  - destruct (SubmitConversion e elig s) as [s1 r1] eqn:E. intros [= <- <-].
    apply (submit_run q) in E; [|done..]. unfold next_tasks. cbv zeta in *.
    destruct (q !! conversion_id (ce_Extent elig)) as [t|].
    + destruct E as [-> ->]. done.
    + apply (outcome_step q) in E; [|done..]. by destruct r1.
Qed.

Lemma reached_indexed (s : NS DB) (q : tasks) : reached s q -> ns_closed s = false /\ indexed (ns_db s) q.
Proof. induction 1 as [|s q e c s' r Hr [IHc IHr] Hok Er]; [done|]. by eapply call_step. Qed.

(** C37: The task queue refines a map of tasks. After any sequence, with
    well-formed records and arguments (types without a slash, named owners), of
    puts, leases, completions, failures and conversion requests in which no
    queued or retrying task is written under the index key it already has
    (put again with its type, state and due time, or failed again at the same
    retry time), with any commits failing or the store read-only, the rows under task ids are
    exactly the records of the map the specification computes, each index row
    belongs to one of them, and every queued or retrying task has its index
    row, so that a worker can find it. The code does not refuse the excluded
    writes: [reput_loses_task] is what they do. *)
Theorem queue_refines_map (s : NS DB) (q : tasks) :
  reached s q ->
  ns_closed s = false /\
  (forall id, read_task (ns_db s) id = match q !! id with Some t => Ok t | None => Err ErrEntryNotFound end) /\
  (forall k v, HasPrefix k prefixBackgroundTaskQ = true -> kv_get (ns_db s) k = Some v ->
     exists id t, q !! id = Some t /\ k = queue_key t) /\
  (forall id t, q !! id = Some t -> live_task t = true -> is_Some (kv_get (ns_db s) (queue_key t))).
Proof.
  intros [Hc R]%reached_indexed. split; [done|]. split; [intros id; by apply read_task_indexed|].
  split; [exact (id_sound _ _ R)|exact (id_complete _ _ R)].
Qed.

(** C38: A lease hands out the right task. On a store whose rows and index
    represent the tasks [q] as in the previous theorem, open, writable and with no commit failing, a lease returns and
    marks leased the task due first by its time and then its id, among the
    queued tasks of the type that are due and that the node may run, or among
    the retrying ones when there is no such queued task; it reports
    ErrEntryNotFound, and changes nothing, exactly when there is no such task
    at all. Times are after 1970, the owner is named and the type has no slash. *)
Theorem lease_exact (q : tasks) e ty nodeID owner lease (s s' : NS DB) r :
  indexed (ns_db s) q -> ns_closed s = false -> ns_readOnly s = false -> we_fail e 1 = None ->
  after_1970 q -> bytes_wf ty -> slash ∉ ty -> owner <> [] ->
  leaseBackgroundTask e ty nodeID owner lease s = (s', r) ->
  (exists t, next_up q ty (we_clock e 0) nodeID (Some t) /\
     let t' := stamp_task (we_clock e 1) (leased_task owner (i64 (we_clock e 0 + lease)) t) in
     r = Ok t' /\ indexed (ns_db s') (<[bg_ID t := t']> q)) \/
  (next_up q ty (we_clock e 0) nodeID None /\ r = Err ErrEntryNotFound /\ s' = s).
Proof.
  intros R Hc Hro Hf Hpos W S Ho E. apply (lease_run q) in E; [|done..].
  pose proof (due_task_next_up (ns_db s) q ty (we_clock e 0) nodeID R Hpos W S) as Hn.
  destruct (due_task _ _ _ _) as [t|]; [left|right; by destruct E].
  exists t. split; [done|]. destruct E as [(-> & _ & R' & _)|(x & _ & _ & [Hx|[y Hy]])]; [done|congruence..].
Qed.

(** ** Writing a task twice *)

(** The index without its promise to hold live tasks. *)
Definition quiet_index : Indexed BackgroundTask :=
  {| ix_ID := bg_ID; ix_row := backgroundTaskKey; ix_key := queue_key; ix_prefix := prefixBackgroundTaskQ;
     ix_live := fun _ => false; ix_wf := task_wf |}.

Lemma quiet_laws : @IndexedLaws BackgroundTask quiet_index.
Proof. pose proof task_indexed_laws as []. by constructor. Qed.

Lemma quiet_indexed (db : DB) (q : tasks) : indexed db q -> @indexed _ _ _ _ quiet_index db q.
Proof. intros []. by constructor. Qed.

Lemma first_due_row (db : DB) now nodeID rows u :
  first_due db now nodeID rows = Some u ->
  exists k v n id, (k, v) ∈ rows /\ backgroundTaskFromQueueKey k = Some (n, id) /\ read_task db id = Ok u.
Proof.
  induction rows as [|[k v] rows IH]; cbn [first_due]; [done|].
  assert (first_due db now nodeID rows = Some u -> exists k' v' n id, (k', v') ∈ (k, v) :: rows /\
    backgroundTaskFromQueueKey k' = Some (n, id) /\ read_task db id = Ok u) as Next.
  { intros E. destruct (IH E) as (k' & v' & n & id & Hin & Hp & Hr). exists k', v', n, id. split; [by right|done]. }
  destruct (backgroundTaskFromQueueKey k) as [[n id]|] eqn:Ek; [|done]. destruct (now <? n); [done|].
  destruct (read_task db id) as [t|x] eqn:Er; [|done]. destruct (may_lease nodeID t); [|done].
  intros [= ->]. exists k, v, n, id. split; [by left|done].
Qed.

Lemma quiet_read (db : DB) (q : tasks) id :
  @indexed _ _ _ _ quiet_index db q ->
  read_task db id = match q !! id with Some t => Ok t | None => Err ErrEntryNotFound end.
Proof.
  intros Q. unfold read_task, getValue. pose proof (id_rows _ _ Q id) as Er. cbn [ix_row quiet_index] in Er. rewrite Er.
  destruct (q !! id); cbn [fmap option_fmap option_map]; [|done]. by rewrite unmarshalValue_marshalValue.
Qed.

Lemma queue_rows_under (db : DB) (q : tasks) ty st k v :
  @indexed _ _ _ _ quiet_index db q -> bytes_wf ty -> bytes_wf st -> (k, v) ∈ queue_rows db ty st ->
  kv_get db k = Some v /\ HasPrefix k prefixBackgroundTaskQ = true.
Proof.
  intros Q Wty Wst Hk. apply elem_of_kv_range in Hk as [Hg Hk]. split; [done|].
  assert (bytes_wf (backgroundTaskQueuePrefix ty st)).
  { unfold backgroundTaskQueuePrefix. repeat (apply bytes_wf_app; split); done || apply str_wf. }
  rewrite in_range_prefix in Hk; [|done|by eapply (id_bytes _ _ Q)]. apply HasPrefix_spec in Hk as [r ->].
  unfold backgroundTaskQueuePrefix. rewrite <- !app_assoc. apply HasPrefix_app.
Qed.

(** Scans find stored tasks that have their index row, and no others. *)
Lemma due_task_row (db : DB) (q : tasks) ty now nodeID u :
  @indexed _ _ _ _ quiet_index db q -> bytes_wf ty -> due_task db ty now nodeID = Some u ->
  q !! bg_ID u = Some u /\ is_Some (kv_get db (queue_key u)).
Proof.
  intros Q Wty Hdue.
  assert (exists st, bytes_wf st /\ first_due db now nodeID (queue_rows db ty st) = Some u) as (st & Wst & E).
  { unfold due_task in Hdue. destruct (first_due _ _ _ (queue_rows db ty TaskQueued)) as [w|] eqn:E1;
      [exists TaskQueued|exists TaskRetrying]; (split; [apply str_wf|congruence]). }
  apply first_due_row in E as (k & v & m & id & Hin & Hp & Hr).
  destruct (queue_rows_under db q ty st k v Q Wty Wst Hin) as [Hg Hpre].
  destruct (id_sound _ _ Q k v Hpre Hg) as (i & x & Hx & Ek). cbn [ix_key quiet_index] in Ek.
  destruct (id_wf _ _ Q _ _ Hx) as [Ei [_ (_ & X1 & _) (_ & X2 & _) X3]]. cbn [ix_ID quiet_index] in Ei.
  rewrite Ek in Hp. unfold queue_key in Hp. rewrite queue_key_parse in Hp by done. injection Hp as _ <-.
  rewrite (quiet_read _ q), Ei, Hx in Hr by done. injection Hr as <-. rewrite Ei. subst k. eauto.
Qed.

(** Writing a task again under the index key it has makes it
    unreachable: when a stored task is put with its type, state and due time
    unchanged, the call succeeds and the record is stored, but the batch
    deletes the index row it has just set, and no lease of any type, by any
    node, at any time, finds the task from then on. *)
Theorem reput_loses_task (q : tasks) (o t : BackgroundTask) e n (s s' : NS DB) :
  indexed (ns_db s) q -> ns_closed s = false -> task_wf t ->
  q !! bg_ID t = Some o -> queue_key o = queue_key t ->
  PutBackgroundTask e n (Some t) s = (s', Ok (stamp_task (we_clock e n) t)) ->
  read_task (ns_db s') (bg_ID t) = Ok (stamp_task (we_clock e n) t) /\
  forall ty now nodeID u, bytes_wf ty -> due_task (ns_db s') ty now nodeID = Some u -> bg_ID u <> bg_ID t.
Proof.
  intros R Hc W Ho Ek. unfold PutBackgroundTask, nbind, enter_ns, nget, nlift, nret. rewrite Hc.
  pose proof W as [Hi Ht Hs Hd]. rewrite !nonempty_len by tauto. cbn [orb].
  set (t' := stamp_task (we_clock e n) t). rewrite (put_task_batch_indexed _ q) by done.
  change (bg_ID t') with (bg_ID t). rewrite Ho. destruct (applyBatchViaRaft _ _ s) as [s1 r1] eqn:E.
  apply batch_run in E as [[-> Es]|(x & -> & -> & _)]; [|done|done|apply put_ops_plain].
  intros E. injection E as Es'. subst s1. rewrite <- Es'.
  assert (task_wf t') as W' by done.
  pose proof (indexed_put (IL := quiet_laws) (ns_db s) q t' (quiet_indexed _ _ R) W' ltac:(done)) as Q.
  cbn [ix_ID quiet_index] in Q. change (bg_ID t') with (bg_ID t) in Q. rewrite Ho in Q.
  split; [by rewrite (quiet_read _ _ _ Q), lookup_insert_eq|]. intros ty now nodeID u Wty Hdue Hid.
  apply (due_task_row _ _ _ _ _ _ Q Wty) in Hdue as [Hu [v Hv]]. rewrite Hid, lookup_insert_eq in Hu. injection Hu as <-.
  pose proof (kv_get_put_ops (ns_db s) (Some o) t' (queue_key t')) as G. cbn [ix_key task_indexed] in G.
  change (queue_key t') with (queue_key t) in G. rewrite bool_decide_eq_true_2 in G by done.
  change (kv_get (fold_left apply_op (put_ops (Some o) t') (ns_db s)) (queue_key t) = Some v) in Hv. congruence.
Qed.

(** ** Leases of the dead *)

Lemma tick_idle (q : tasks) rules owner lease opts k (s : NS DB) t :
  indexed (ns_db s) q -> ns_closed s = false -> owner <> [] ->
  q !! ObjectWriteGCPeriodicTaskID = Some t -> bg_State t = TaskLeased ->
  (forall id u, q !! id = Some u -> bg_Type u = TaskWriteGC -> live_task u = false) ->
  gc_tick rules owner lease opts k s = s.
Proof.
  intros R Hc Ho Ht Hs Hno. unfold gc_tick, ensureObjectWriteBackgroundTask.
  cbn [bg_ID NewBackgroundObjectWriteGCTask]. rewrite (get_task_run q), Ht, Hs by done.
  rewrite (bool_decide_eq_true_2 (TaskLeased = TaskLeased)) by done. rewrite orb_true_r. cbn [orb].
  unfold RunBackgroundTaskOnce, LeaseBackgroundTask.
  destruct (leaseBackgroundTask (tk_lease k) TaskWriteGC 0 owner lease s) as [s1 r1] eqn:E.
  assert (bytes_wf TaskWriteGC /\ slash ∉ TaskWriteGC) as [W S]
    by (split; [apply str_wf|apply (bool_decide_unpack _); exact I]).
  apply (lease_run q) in E; [|done..]. destruct (due_task _ _ _ _) as [u|] eqn:Ed.
  - apply (due_task_in _ q) in Ed as (Hu & Hty & Hl); [|done..]. by rewrite (Hno _ _ Hu Hty) in Hl.
  - destruct E as [-> ->]. done.
Qed.

(** An expired lease is never taken back: when the gateway that leased
    the periodic collection task stops before it completes the task, and no
    other collection task is queued, no later tick of any gateway, at any
    time, changes anything: abandoned writes are never collected again. *)
Theorem dead_lease_stops_gc (q : tasks) rules owner lease opts t (s : NS DB) ticks :
  indexed (ns_db s) q -> ns_closed s = false -> owner <> [] ->
  q !! ObjectWriteGCPeriodicTaskID = Some t -> bg_State t = TaskLeased ->
  (forall id u, q !! id = Some u -> bg_Type u = TaskWriteGC -> live_task u = false) ->
  fold_left (fun s k => gc_tick rules owner lease opts k s) ticks s = s.
Proof.
  intros R Hc Ho Ht Hs Hno. induction ticks as [|k ticks IH]; cbn [fold_left]; [done|].
  by rewrite (tick_idle q _ _ _ _ _ s t).
Qed.

(** ** Write attempts *)

Inductive attempt_call : Type :=
| CallPutAttempt (a : ObjectWriteAttempt)
| CallDeleteAttempt (id : list Z).

Definition run_attempt_call (e : wq_env) (c : attempt_call) (s : NS DB) : NS DB * mgo unit :=
  match c with
  | CallPutAttempt a => PutWriteAttempt e 0 (Some a) s
  | CallDeleteAttempt id => DeleteWriteAttempt e 0 id s
  end.

Definition next_attempts (q : attempts) (e : wq_env) (c : attempt_call) (r : mgo unit) : attempts :=
  match r, c with
  | Err _, _ => q
  | Ok _, CallPutAttempt a => <[wa_ID a := stored_attempt (we_clock e 0) a]> q
  | Ok _, CallDeleteAttempt id => delete id q
  end.

(** The clock is after 1970 and has moved since the last write of the
    attempt, when that left it in the same state. *)
Definition attempt_ok (q : attempts) (e : wq_env) (c : attempt_call) : Prop :=
  match c with
  | CallPutAttempt a =>
      bytes_wf (wa_ID a) /\ wa_ID a <> [] /\ bytes_wf (wa_State a) /\ slash ∉ wa_State a /\
      0 <= we_clock e 0 < 2 ^ 63 /\
      (forall o, q !! wa_ID a = Some o -> wa_State o = wa_State a -> wa_UpdatedAt o <> we_clock e 0)
  | CallDeleteAttempt _ => True
  end.

Inductive logged : NS DB -> attempts -> Prop :=
| logged_empty (s : NS DB) : ns_closed s = false -> indexed (ns_db s) (∅ : attempts) -> logged s ∅
| logged_call (s : NS DB) (q : attempts) e c s' r :
    logged s q -> attempt_ok q e c -> run_attempt_call e c s = (s', r) -> logged s' (next_attempts q e c r).

Lemma attempt_step (q : attempts) e c (s s' : NS DB) r :
  ns_closed s = false -> indexed (ns_db s) q -> attempt_ok q e c -> run_attempt_call e c s = (s', r) ->
  ns_closed s' = false /\ indexed (ns_db s') (next_attempts q e c r).
Proof.
  intros Hc R Hok. destruct c as [a|id]; cbn [run_attempt_call attempt_ok] in *; intros E.
  - destruct Hok as (W1 & W2 & W3 & W4 & Hn & Hf). apply (put_attempt_run q) in E; [|done|done| |done].
    + destruct E as [(-> & -> & R' & _)|(x & -> & -> & _)]; done.
    + apply stored_attempt_wf; try done. unfold is_i64. lia.
  - apply (delete_attempt_run q) in E; [|done..]. destruct (q !! id) as [a|].
    + destruct E as [(-> & -> & R' & _)|(x & -> & -> & _)]; done.
    + destruct E as [-> ->]. done.
Qed.

Lemma logged_indexed (s : NS DB) (q : attempts) :
  logged s q -> ns_closed s = false /\ indexed (ns_db s) q /\ forall id a, q !! id = Some a -> 0 <= wa_UpdatedAt a.
Proof.
  induction 1 as [s Hc R|s q e c s' r Hr (IHc & IHr & IHp) Hok Er]; [done|].
  destruct (attempt_step q e c s s' r) as [Hc R]; [done..|]. split; [done|]. split; [done|].
  intros id a. destruct r as [[]|]; [|by apply IHp]. destruct c as [b|i]; cbn [next_attempts].
  - rewrite lookup_insert. case_decide; [|exact (IHp id a)]. intros [= <-].
    destruct (stored_attempt_fields (we_clock e 0) b) as (_ & _ & -> & _). apply Hok.
  - intros [_ Ha]%lookup_delete_Some. by eapply IHp.
Qed.

(** The log of write attempts answers exactly. After any sequence of
    writes and deletions of attempts, whatever commits failed, listing a state
    returns the attempts last stored in that state, each once, oldest first by
    the time of their last write and then by id, cut at the limit (100 when
    none is given), and the count is their number. *)
Theorem attempts_listed_exactly (s : NS DB) (q : attempts) st limit :
  logged s q -> bytes_wf st -> slash ∉ st ->
  exists l,
    ListWriteAttemptsByState st limit s = (s, Ok (take (Z.to_nat (if limit <=? 0 then 100 else limit)) l)) /\
    CountWriteAttemptsByState st s = (s, Ok (len l)) /\
    (forall a, a ∈ l <-> q !! wa_ID a = Some a /\ wa_State a = st) /\
    StronglySorted (fun a b => wa_UpdatedAt a < wa_UpdatedAt b \/
                               (wa_UpdatedAt a = wa_UpdatedAt b /\ bytes_lt (wa_ID a) (wa_ID b))) l.
Proof.
  intros Hl W S. destruct (logged_indexed s q Hl) as (Hc & R & Hpos).
  destruct (list_run q st limit s R Hc W S) as (l & El & Ec & Sl & Hin). exists l. split; [done|]. split.
  { unfold CountWriteAttemptsByState, nbind, enter_ns, nget, nret. by rewrite Hc, Ec. }
  split; [done|]. assert (forall a, a ∈ l -> is_u64 (wa_UpdatedAt a) /\ wa_State a = st) as Hu.
  { intros a [Ha Hst]%Hin. destruct (id_wf _ _ R _ _ Ha) as [_ [_ _ _ U]]. pose proof (Hpos _ _ Ha).
    unfold is_i64 in U. unfold uintw. split; [lia|done]. }
  clear El Ec Hin. induction Sl as [|a l Sl IH Ha]; [constructor|]. constructor.
  - apply IH. intros; apply Hu; by right.
  - rewrite Forall_forall in Ha. apply Forall_forall. intros b Hb. specialize (Ha b Hb). destruct (Hu a) as [Ua Ea]; [by left|].
    destruct (Hu b) as [Ub Eb]; [right; by apply list_elem_of_In|]. unfold bytes_lt, state_key in Ha. rewrite Ea, Eb, state_key_order in Ha by done.
    apply orb_true_iff in Ha as [Ha%Z.ltb_lt|[Hn%Z.eqb_eq Ha]%andb_true_iff]; auto.
Qed.

(** ** Sweeps *)

(** C39: Collecting abandoned writes is safe. One sweep, with any deletions
    failing, from a store that represents the attempts [q] and whose inodes
    refer to the chunks [refs]: only tombstones and rows of attempts change,
    a new tombstone is of a chunk no inode refers to, whatever the layout of
    the inode, and that an attempt lists which had failed or was abandoned,
    only such attempts disappear, none is added or altered, and the references
    are the same afterwards. *)
Theorem write_gc_safe (q : attempts) rules ev opts (s s' : NS DB) res refs :
  (forall raw c, @unmarshalValue _ CK raw = Ok c -> is_u64 (ck_ID c)) ->
  indexed (ns_db s) q -> ns_closed s = false -> scan_references (ns_db s) = Ok refs ->
  SweepOnce rules ev opts s = (s', res) ->
  let o := sweep_defaults (sv_now ev) opts in
  let now := match so_CurrentTime o with Some t => t | None => 0 end in
  exists q', indexed (ns_db s') q' /\
    (forall id a, q' !! id = Some a -> q !! id = Some a) /\
    (forall id a, q !! id = Some a -> q' !! id = None -> collectable now (so_AbandonAge o) a) /\
    (forall k, foreign ObjectWriteAttempt k -> ~ tombstone_key k -> kv_get (ns_db s') k = kv_get (ns_db s) k) /\
    (forall id, is_u64 id -> kv_get (ns_db s') (chunkTombstoneKey id) <> kv_get (ns_db s) (chunkTombstoneKey id) ->
       id ∉ refs /\ named_by q now (so_AbandonAge o) id) /\
    scan_references (ns_db s') = Ok refs.
Proof.
  intros Hw R Hc Hs E o now. unfold SweepOnce in E. fold o now in E.
  apply (sweep_states_run rules Hw refs now (so_AbandonAge o) q q) in E as (q' & Hsw); [|done..].
  exists q'. destruct Hsw as [_ I S G P]. split; [done|]. split; [done|]. split; [done|].
  split; [apply P|]. split; [apply P|]. by rewrite (spares_references _ _ _ _ P).
Qed.

(** ** The scheduler *)

(** A pass of the conversion scheduler queues what qualifies. Whatever
    commits fail, a pass returns, changes nothing but the task queue, keeps
    every task there was, and each task it adds is a queued conversion task
    for an inode row that met the prerequisites, restricted to the nodes that
    hold a replica. When the store is writable and no commit fails, every
    inode row that qualifies has a task afterwards. *)
Theorem scheduler_queues_eligible (q : tasks) (e : nat -> wq_env) (now : nat -> Z) (s s' : NS DB) r :
  indexed (ns_db s) q -> ns_closed s = false -> (forall m, is_i64 (we_clock (e m) 0)) ->
  scheduler_run e now s = (s', r) ->
  let rows := kv_range (ns_db s) prefixInode (prefixUpperBound prefixInode) in
  (exists c, r = Ok c) /\
  (forall k, foreign BackgroundTask k -> kv_get (ns_db s') k = kv_get (ns_db s) k) /\
  exists q', indexed (ns_db s') q' /\
    (forall id t, q !! id = Some t -> q' !! id = Some t) /\
    (forall id t, q !! id = None -> q' !! id = Some t -> exists i kv elig, rows !! i = Some kv /\
       converts (ns_db s) (now i) kv.2 elig /\ id = conversion_id (ce_Extent elig) /\
       t = stamp_task (we_clock (e i) 1) (conversion_task (we_clock (e i) 0) elig)) /\
    (ns_readOnly s = false -> (forall m, we_fail (e m) 1 = None) ->
       forall i kv elig, rows !! i = Some kv -> converts (ns_db s) (now i) kv.2 elig ->
         is_Some (q' !! conversion_id (ce_Extent elig))).
Proof.
  intros R Hc Hn E rows. unfold scheduler_run, nbind, enter_ns, nget in E. rewrite Hc in E. fold rows in E.
  apply (schedule_rows_run e now (ns_db s) rows q) in E as (Hr & q' & [Es I Rw K Nw D]); [|done..].
  split; [done|]. split; [done|]. exists q'. split; [done|]. split; [done|]. split; [exact Nw|].
  intros Hro Hf i kv elig Hi Hcv. by apply (D i kv elig).
Qed.
End Theorems.
