(* ===== verification/WorkScenario.v ===== *)
(** * The work queues on a concrete store

    Codecs for tasks and attempts, a store with a file of each inode model,
    the theorems of [WorkTheorems.v] applied to it, and runs that show what
    happens when two workers lease at once and when sweeps meet attempts they
    must skip. *)

From stdpp Require Import base list sorting numbers strings gmap countable.
From Stdlib Require Import ZArith Lia.
From S2P Require Import Prelude Bytes Pebble MetaKeys MetaScan MetaTypes RaftLog MetaFSM Namespace MetaFSMProofs.
From S2P Require Import Extents ChunkRules ChunkGC NamespaceSpec NamespaceProgress ExtentProofs ChunkProofs.
From S2P Require Import WorkQueue WorkIndex WorkQueueProofs WriteGC WriteGCProofs WorkTheorems.
From S2P Require Import MetaScenario ExtentTheorems ChunkTheorems BackupTheorems.

Local Open Scope Z_scope.
Local Open Scope go_scope.
Local Open Scope ns_scope.

#[export] Instance bgtask_codec : Codec BackgroundTask :=
  doc_codec
    (fun t => [[bg_AttemptCount t; bg_NextRunAt t; bg_CreatedAt t; bg_UpdatedAt t]; bg_ID t; bg_Type t; bg_State t;
               bg_Target t; bg_IdempotencyKey t; bg_LeaseOwner t; bg_LastError t; bg_OwnerNodes t])
    (fun l => match l with
              | [[a; b; c; d]; id; ty; st; target; key; owner; err; nodes] =>
                  Some (mkBackgroundTask id ty st target key owner a b err c d nodes)
              | _ => None
              end).

#[export] Instance bgtask_laws : CodecLaws BackgroundTask.
Proof. apply doc_codec_laws. by intros []. Qed.

#[export] Instance attempt_codec : Codec ObjectWriteAttempt :=
  doc_codec
    (fun a => [wa_InodeID a; wa_InodeCTime a; wa_CleanupParent a; Z.b2z (wa_CleanupNewObject a); wa_CreatedAt a; wa_UpdatedAt a]
              :: wa_ID a :: wa_Bucket a :: wa_Key a :: wa_RecoveryIntent a :: wa_State a :: wa_LastError a
              :: chunk_fields (wa_Chunks a)
              :: match wa_RollbackInode a with
                 | Some m => wire_fields (v2_of_v1 m) (im_Rdev m) (im_ChunkMap m) | None => [] end)
    (fun l => match l with
              | [i; ct; p; new; created; updated] :: id :: bucket :: key :: intent :: state :: err :: chunks :: l =>
                  Some (mkObjectWriteAttempt id bucket key i ct intent p (negb (new =? 0)) (v1_of_wire <$> wire_of l)
                          (chunks_of chunks) state err created updated)
              | _ => None
              end).

#[export] Instance attempt_laws : CodecLaws ObjectWriteAttempt.
Proof.
  apply doc_codec_laws. intros [id bucket key i ct intent p new m chunks st err created updated].
  cbn [wa_ID wa_Bucket wa_Key wa_InodeID wa_InodeCTime wa_RecoveryIntent wa_CleanupParent wa_CleanupNewObject
       wa_RollbackInode wa_Chunks wa_State wa_LastError wa_CreatedAt wa_UpdatedAt].
  rewrite chunks_of_fields. destruct m as [m|].
  - rewrite wire_of_fields. by destruct new, m.
  - by destruct new.
Qed.

(** ** The store *)

(** Beside the file and the orphan of [orphan_store], a file of the second
    model whose inline extent, chunk 7, has not changed for a month. *)
Definition cold_file : InodeMetaV2 :=
  mkInodeMetaV2 3 FileRegular 100 1 0 0 0 420 7 7 7 LayoutInlineExtent
    (Some (mkExtentMetaV2 7 1 100 0 0 0 LifecycleReady StorageClassHotReplica [] 1)) 0 0 0 [] ∅.

Definition work_db : Mem :=
  <[inodeKey 3 := marshalValue cold_file]> (<[chunkMetadataKey 7 := marshalValue (sample_chunk 7)]> orphan_store).

Definition start : NS Mem := mkNS work_db 3 true [] ∅ false false.

Definition at_time (now : Z) : wq_env := mkWqEnv (fun _ => now) (fun _ => None).

Lemma work_db_keys k v :
  work_db !! k = Some v -> k ∈ [inodeKey 3; chunkMetadataKey 7; inodeKey 2; chunkMetadataKey 5; chunkMetadataKey 6].
Proof.
  unfold work_db. rewrite !lookup_insert_Some. intros [[<- _]|[_ [[<- _]|[_ Hk]]]]; [by left|right; by left|].
  apply orphan_store_keys in Hk. do 2 right. exact Hk.
Qed.

Lemma work_db_foreign k v :
  work_db !! k = Some v -> foreign BackgroundTask k /\ foreign ObjectWriteAttempt k /\ bytes_wf k.
Proof.
  intros Hk%work_db_keys.
  assert (forall id, foreign BackgroundTask (inodeKey id) /\ foreign ObjectWriteAttempt (inodeKey id) /\ bytes_wf (inodeKey id)) as Hi
    by (intros id; split; [by apply foreign_task|split; [by apply foreign_attempt|apply inodeKey_wf]]).
  assert (forall id, foreign BackgroundTask (chunkMetadataKey id) /\ foreign ObjectWriteAttempt (chunkMetadataKey id) /\
                     bytes_wf (chunkMetadataKey id)) as Hc.
  { intros id. split; [by apply foreign_task|split; [by apply foreign_attempt|]]. apply chunk_row_wf. exists id. by left. }
  revert Hk. rewrite !elem_of_cons. intros [->|[->|[->|[->|[->|?%not_elem_of_nil]]]]]; try done; apply Hi || apply Hc.
Qed.

Lemma empty_index {A} `{CodecLaws A} `{IndexedLaws A} (db : Mem) :
  (forall k v, db !! k = Some v -> foreign A k /\ bytes_wf k) -> indexed db (∅ : gmap (list Z) A).
Proof.
  intros F. constructor.
  - intros id. rewrite lookup_empty. change (db !! ix_row id = None). destruct (db !! ix_row id) as [v|] eqn:E; [|done].
    destruct (F _ _ E) as [[_ Hn] _]. by destruct (Hn id).
  - intros id x. by rewrite lookup_empty.
  - intros k v Hp Hk. destruct (F _ _ Hk) as [[Hn _] _]. congruence.
  - intros id x. by rewrite lookup_empty.
  - intros k v Hk. by destruct (F _ _ Hk).
Qed.

Lemma start_tasks : indexed (ns_db start) (∅ : gmap (list Z) BackgroundTask).
Proof. apply empty_index. intros k v Hk. destruct (work_db_foreign k v Hk) as (? & _ & ?). done. Qed.

Lemma start_attempts : indexed (ns_db start) (∅ : gmap (list Z) ObjectWriteAttempt).
Proof. apply empty_index. intros k v Hk. by destruct (work_db_foreign k v Hk) as (_ & ? & ?). Qed.

(** ** Tasks *)

Definition gc_task : BackgroundTask := NewBackgroundObjectWriteGCTask ObjectWriteGCPeriodicTaskID 50.
Definition run1 : NS Mem * mgo (option BackgroundTask) := run_task_call (at_time 40) (CallPut gc_task) start.
Definition lease_call : task_call := CallLease TaskWriteGC 0 (str "gw-1") 30.
Definition run2 : NS Mem * mgo (option BackgroundTask) := run_task_call (at_time 60) lease_call run1.1.
Definition queued1 : gmap (list Z) BackgroundTask := <[ObjectWriteGCPeriodicTaskID := stamp_task 40 gc_task]> ∅.
Definition leased1 : BackgroundTask := stamp_task 60 (leased_task (str "gw-1") 90 (stamp_task 40 gc_task)).
Definition queued2 : gmap (list Z) BackgroundTask := <[ObjectWriteGCPeriodicTaskID := leased1]> queued1.

Lemma gc_task_wf : task_wf gc_task.
Proof.
  constructor; cbn [bg_ID bg_Type bg_State bg_NextRunAt gc_task NewBackgroundObjectWriteGCTask].
  - split; [apply str_wf|done].
  - split; [apply str_wf|]. split; [apply (bool_decide_unpack _); exact I|done].
  - split; [apply str_wf|]. split; [apply (bool_decide_unpack _); exact I|done].
  - unfold is_i64. lia.
Qed.

Lemma run1_ok : run1.2 = Ok None.
Proof. vm_compute. reflexivity. Qed.

Lemma run2_ok : run2.2 = Ok (Some leased1).
Proof. vm_compute. reflexivity. Qed.

Lemma lease_call_ok q : call_ok q (at_time 60) lease_call.
Proof. split; [apply str_wf|]. split; [apply (bool_decide_unpack _); exact I|done]. Qed.

Lemma reached1 : reached run1.1 queued1.
Proof.
  pose proof (reached_call start ∅ (at_time 40) (CallPut gc_task) run1.1 run1.2 (reached_empty start eq_refl start_tasks)) as P.
  rewrite run1_ok in P. apply P.
  - split; [exact gc_task_wf|]. intros o Ho. by rewrite lookup_empty in Ho.
  - rewrite <- run1_ok. apply surjective_pairing.
Qed.

Lemma reached2 : reached run2.1 queued2.
Proof.
  pose proof (reached_call run1.1 queued1 (at_time 60) lease_call run2.1 run2.2 reached1 (lease_call_ok _)) as P.
  rewrite run2_ok in P. apply P. rewrite <- run2_ok. apply surjective_pairing.
Qed.

Lemma queue_refines_map_witness :
  reached run1.1 queued1 /\ is_Some (kv_get (ns_db run1.1) (queue_key gc_task)) /\
  read_task (ns_db run2.1) ObjectWriteGCPeriodicTaskID = Ok leased1.
Proof.
  split; [exact reached1|]. split.
  - destruct (queue_refines_map run1.1 queued1 reached1) as (_ & _ & _ & Hl).
    exact (Hl ObjectWriteGCPeriodicTaskID (stamp_task 40 gc_task) (lookup_insert_eq _ _ _) eq_refl).
  - destruct (queue_refines_map run2.1 queued2 reached2) as (_ & Hr & _).
    specialize (Hr ObjectWriteGCPeriodicTaskID). unfold queued2 in Hr. by rewrite lookup_insert_eq in Hr.
Defined.

Definition lease1 : NS Mem * mgo BackgroundTask := leaseBackgroundTask (at_time 60) TaskWriteGC 0 (str "gw-1") 30 run1.1.

Lemma lease1_ok : lease1.2 = Ok leased1.
Proof. vm_compute. reflexivity. Qed.

Lemma queued1_after_1970 : after_1970 queued1.
Proof. intros id t Ht. unfold queued1 in Ht. apply lookup_insert_Some in Ht as [[_ <-]|[_ Ht]]; [cbn; lia|]. by rewrite lookup_empty in Ht. Qed.

Lemma gc_type : bytes_wf TaskWriteGC /\ slash ∉ TaskWriteGC.
Proof. split; [apply str_wf|apply (bool_decide_unpack _); exact I]. Qed.

Lemma lease_exact_witness :
  exists t, next_up queued1 TaskWriteGC 60 0 (Some t) /\ lease1.2 = Ok (stamp_task 60 (leased_task (str "gw-1") 90 t)).
Proof.
  destruct (lease_exact queued1 (at_time 60) TaskWriteGC 0 (str "gw-1") 30 run1.1 lease1.1 lease1.2
              (proj2 (reached_indexed _ _ reached1)) eq_refl eq_refl eq_refl queued1_after_1970
              (proj1 gc_type) (proj2 gc_type) ltac:(discriminate) (surjective_pairing lease1))
    as [(t & Hn & Hr & _)|(_ & Hr & _)].
  - exists t. exact (conj Hn Hr).
  - rewrite lease1_ok in Hr. discriminate Hr.
Defined.

(** The task put once more, as it is. *)
Definition put_again : NS Mem * mgo BackgroundTask := PutBackgroundTask (at_time 45) 0 (Some gc_task) run1.1.

Lemma put_again_ok : put_again.2 = Ok (stamp_task 45 gc_task).
Proof. vm_compute. reflexivity. Qed.

Lemma reput_loses_task_witness :
  read_task (ns_db put_again.1) ObjectWriteGCPeriodicTaskID = Ok (stamp_task 45 gc_task) /\
  (leaseBackgroundTask (at_time 60) TaskWriteGC 0 (str "gw-1") 30 put_again.1).2 = Err ErrEntryNotFound.
Proof.
  split; [|vm_compute; reflexivity].
  destruct (reput_loses_task queued1 (stamp_task 40 gc_task) gc_task (at_time 45) 0 run1.1 put_again.1
              (proj2 (reached_indexed _ _ reached1)) eq_refl gc_task_wf (lookup_insert_eq _ _ _) eq_refl
              (eq_trans (surjective_pairing put_again) (f_equal (pair put_again.1) put_again_ok))) as [Hr _].
  exact Hr.
Defined.

Definition quiet_chunks : list Z -> Z -> option merr := fun _ _ => None.
Definition sweep_at (now : Z) : sweep_env :=
  mkSweepEnv now calm (fun _ _ => now) quiet_chunks quiet_chunks (fun _ => at_time now).
Definition tick_at (now : Z) : tick_env :=
  mkTickEnv now (at_time now) (at_time now) (sweep_at now) (at_time now) (fun _ => []).
Definition usual : ObjectWriteGCSweepOptions := mkSweepOptions 0 0 None.

Lemma queued2_idle id u : queued2 !! id = Some u -> bg_Type u = TaskWriteGC -> live_task u = false.
Proof.
  unfold queued2, queued1. rewrite insert_insert. case_decide; [|done].
  intros [[_ <-]|[_ Hu]]%lookup_insert_Some _; [reflexivity|]. by rewrite lookup_empty in Hu.
Qed.

(** The gateway gw-1 leased the task until 90 and died; a thousand hourly ticks. *)
Lemma dead_lease_stops_gc_witness :
  fold_left (fun s k => gc_tick plain_rules (str "gw-2") 30 usual k s)
    (map (fun n => tick_at (Z.of_nat n * hour)) (seq 1 1000)) run2.1 = run2.1.
Proof.
  exact (dead_lease_stops_gc queued2 plain_rules (str "gw-2") 30 usual leased1 run2.1 _
           (proj2 (reached_indexed _ _ reached2)) eq_refl ltac:(discriminate) (lookup_insert_eq _ _ _) eq_refl queued2_idle).
Defined.

(** Two workers read the queue before either commits: both leases succeed
    and both workers have the task. *)
Definition lease_batch (owner : list Z) (db : Mem) : mgo (list BatchOp) :=
  match due_task db TaskWriteGC 60 0 with
  | Some t => put_task_batch db (stamp_task 60 (leased_task owner 90 t))
  | None => Err ErrEntryNotFound
  end.

Definition commit_of (r : mgo (list BatchOp)) (db : Mem) : mgo Mem :=
  let! ops := r in applyReferenceAwareBatch None db ops.

Definition both_leased : mgo Mem :=
  let! db := commit_of (lease_batch (str "gw-1") (ns_db run1.1)) (ns_db run1.1) in
  commit_of (lease_batch (str "gw-2") (ns_db run1.1)) db.

(** ** Attempts *)

Definition attempt_of (id : list Z) (inode : Z) (chunks : list Z) : ObjectWriteAttempt :=
  mkObjectWriteAttempt id (str "b") (str "k") inode 7 [] 0 false None (map (fun i => mkChunkRef i 0 100 1) chunks)
    WriteAttemptFailed [] 0 0.

(** A failed attempt that lists the referenced chunk 5 and the orphan 6. *)
Definition lost : ObjectWriteAttempt := attempt_of (str "w1") 0 [5; 6].
Definition log1 : NS Mem * mgo unit := run_attempt_call (at_time 70) (CallPutAttempt lost) start.
Definition stored1 : gmap (list Z) ObjectWriteAttempt := <[str "w1" := stored_attempt 70 lost]> ∅.

Lemma log1_ok : log1.2 = Ok tt.
Proof. vm_compute. reflexivity. Qed.

Lemma logged1 : logged log1.1 stored1.
Proof.
  pose proof (logged_call start ∅ (at_time 70) (CallPutAttempt lost) log1.1 log1.2 (logged_empty start eq_refl start_attempts)) as P.
  rewrite log1_ok in P. apply P.
  - split; [apply str_wf|]. split; [done|]. split; [apply str_wf|]. split; [apply (bool_decide_unpack _); exact I|].
    split; [cbn; lia|]. intros o Ho. by rewrite lookup_empty in Ho.
  - rewrite <- log1_ok. apply surjective_pairing.
Qed.

Lemma attempts_listed_exactly_witness :
  exists l, ListWriteAttemptsByState WriteAttemptFailed 1 log1.1 = (log1.1, Ok (take 1 l)) /\ stored_attempt 70 lost ∈ l.
Proof.
  destruct (attempts_listed_exactly log1.1 stored1 WriteAttemptFailed 1 logged1 (str_wf _)
              ltac:(apply (bool_decide_unpack _); exact I)) as (l & El & _ & Hl & _).
  exists l. split; [exact El|]. apply Hl. split; [apply lookup_insert_eq|reflexivity].
Defined.

Definition sweep1 : NS Mem * (ObjectWriteGCSweepResult * option merr) := SweepOnce plain_rules (sweep_at 80) usual log1.1.

Lemma log1_refs : scan_references (ns_db log1.1) = Ok [5; 7].
Proof. vm_compute. reflexivity. Qed.

Lemma sweep1_tombstone : is_Some (kv_get (ns_db sweep1.1) (chunkTombstoneKey 6)).
Proof. vm_compute. by eexists. Qed.

Lemma write_gc_safe_witness :
  scan_references (ns_db sweep1.1) = Ok [5; 7] /\ 6 ∉ [5; 7] /\
  kv_get (ns_db sweep1.1) (chunkMetadataKey 5) = kv_get (ns_db log1.1) (chunkMetadataKey 5).
Proof.
  destruct (write_gc_safe stored1 plain_rules (sweep_at 80) usual log1.1 sweep1.1 sweep1.2 [5; 7] chunk_codec_width
              (proj1 (proj2 (logged_indexed _ _ logged1))) eq_refl log1_refs (surjective_pairing sweep1))
    as (q' & _ & _ & _ & Hrows & Htombs & Hrefs).
  split; [exact Hrefs|]. split.
  - apply (Htombs 6); [split; [discriminate|reflexivity]|]. destruct sweep1_tombstone as [v E]. rewrite E.
    assert (kv_get (ns_db log1.1) (chunkTombstoneKey 6) = None) as -> by by_running. discriminate.
  - apply Hrows; [apply foreign_attempt; reflexivity|]. intros [i E]. by apply chunk_tombstone_apart in E.
Defined.

(** ** The scheduler *)

Definition month_later : Z := 31 * 24 * hour.
Definition pass1 : NS Mem * mgo scan_counts := scheduler_run (fun _ => at_time month_later) (fun _ => month_later) start.
Definition inode_rows : list row := kv_range work_db prefixInode (prefixUpperBound prefixInode).
Definition cold_extent : ConversionEligibility := mkConversionEligibility 3 7 1 100 [1].

Lemma cold_file_row : exists v, inode_rows !! 1%nat = Some (inodeKey 3, v) /\ @unmarshalValue _ inode2_codec v = Ok cold_file.
Proof. vm_compute. eexists. split; reflexivity. Qed.

Lemma cold_file_converts v :
  @unmarshalValue _ inode2_codec v = Ok cold_file -> converts work_db month_later v cold_extent.
Proof.
  intros Hv. eapply (mkConverts _ _ _ _ cold_file _ (marshalValue (sample_chunk 7)) (sample_chunk 7)); done.
Qed.

Lemma scheduler_queues_eligible_witness :
  exists q' : gmap (list Z) BackgroundTask, indexed (ns_db pass1.1) q' /\ is_Some (q' !! str "ec-convert-7").
Proof.
  destruct (scheduler_queues_eligible ∅ (fun _ => at_time month_later) (fun _ => month_later) start pass1.1 pass1.2
              start_tasks eq_refl ltac:(intros; split; vm_compute; congruence) (surjective_pairing pass1))
    as (_ & _ & q' & I & _ & _ & D).
  exists q'. split; [exact I|]. destruct cold_file_row as (v & Hr & Hv).
  exact (D eq_refl (fun _ => eq_refl) 1%nat (inodeKey 3, v) cold_extent Hr (cold_file_converts v Hv)).
Defined.

(** ** What the queues allow *)

Definition leased_by (r : mgo Mem) : mgo (list Z) :=
  let! db := r in
  let! t := read_task db ObjectWriteGCPeriodicTaskID in
  Ok (bg_LeaseOwner t).

(** Leases are not exclusive: two workers that both read the queue before
    either commits both lease the same task successfully; the record names the
    second one. *)
Theorem two_workers_lease_one_task :
  leased_by (commit_of (lease_batch (str "gw-1") (ns_db run1.1)) (ns_db run1.1)) = Ok (str "gw-1") /\
  leased_by both_leased = Ok (str "gw-2").
Proof. split; vm_compute; reflexivity. Qed.

(** A failed attempt whose chunk its inode lists, and a younger one with
    nothing to keep. *)
Definition stuck : ObjectWriteAttempt := attempt_of (str "w1") 2 [5].
Definition log2 : NS Mem :=
  (run_attempt_call (at_time 71) (CallPutAttempt (attempt_of (str "w2") 0 [6]))
     (run_attempt_call (at_time 70) (CallPutAttempt stuck) start).1).1.
Definition one_each : ObjectWriteGCSweepOptions := mkSweepOptions 1 0 None.
Definition sweep (s : NS Mem) : NS Mem := (SweepOnce plain_rules (sweep_at 80) one_each s).1.

Definition same_state (s t : NS Mem) : bool :=
  bool_decide (ns_db s = ns_db t) && bool_decide (ns_inCache s = ns_inCache t) && bool_decide (ns_freeList s = ns_freeList t)
  && (ns_inodeSeq s =? ns_inodeSeq t) && eqb (ns_idMaxInit s) (ns_idMaxInit t) && eqb (ns_closed s) (ns_closed t)
  && eqb (ns_readOnly s) (ns_readOnly t).

Lemma same_state_eq s t : same_state s t = true -> s = t.
Proof.
  unfold same_state. rewrite !andb_true_iff, !bool_decide_eq_true, Z.eqb_eq, !eqb_true_iff.
  destruct s, t. cbn. intros ((((((-> & ->) & ->) & ->) & ->) & ->) & ->). done.
Qed.

(** Attempts that must be kept starve the others: a failed attempt whose
    chunk is still listed by its inode is skipped, stays failed, and counts
    against the limit of the next sweep again; with as many of them as the
    limit, no sweep ever collects a younger attempt. *)
Theorem skipped_attempts_starve_sweeps :
  (SweepOnce plain_rules (sweep_at 80) usual log2).2 = (mkSweepResult 2 1 1 1, None) /\
  forall n, ns_db (Nat.iter n sweep log2) = ns_db log2.
Proof.
  split; [vm_compute; reflexivity|].
  assert (sweep (sweep log2) = sweep log2) as E by (apply same_state_eq; vm_compute; reflexivity).
  assert (ns_db (sweep log2) = ns_db log2) as Ed by (apply (bool_decide_eq_true_1 _); vm_compute; reflexivity).
  assert (forall n, Nat.iter (S n) sweep log2 = sweep log2) as Hn.
  { intros n. induction n as [|n IH]; [done|]. change (sweep (Nat.iter (S n) sweep log2) = sweep log2). by rewrite IH. }
  intros [|n]; [done|]. by rewrite Hn.
Qed.
