(* ===== verification/StoreInterface.v ===== *)
(** * The store interface of a data node

    Models [nufs-core/datanode/storage/interface.go]: the operations a data
    node calls on one local store, with the enumeration its start-up scan
    uses. [StorageStore] is the Go interface, [StorageLaws] what it promises:
    a store is a map from (extent, generation) to a live payload or a
    tombstone; each call answers from that map or fails without changing it.

    The segment store of [Store] is an instance of the operations;
    [SegmentRefinement] shows that its calls keep the promises when nothing
    fails and there is room. The data node's theorems take the laws, which
    allow any call to fail, as hypotheses on its stores. [cell_store] is the
    map itself with calls that may fail, on which the laws hold outright. *)

From stdpp Require Import base list numbers strings gmap.
From Stdlib Require Import ZArith Lia.
From S2P Require Import Prelude Bytes Crc StorageTypes Pebble Index Framing Store StoreSpec.

Local Open Scope Z_scope.
Local Open Scope go_scope.

Abbreviation bytelen d := (Z.of_nat (length d)).

(** [storage.Store], with [ListExtents] of the segment store. *)
Class StorageStore (B : Type) := {
  ss_Write : WriteRequest -> B -> B * go DurableReceipt;
  ss_Read : ReadRequest -> B -> B * go ReadResult;
  ss_Delete : Z -> Z -> B -> B * go unit;
  ss_Stat : Z -> Z -> B -> B * go Value;
  ss_ListExtents : B -> B * go (list LiveExtent)
}.

(** ** Cells *)

(** A tombstone keeps the length and the checksum of what it hides. *)
Inductive cell :=
| Live (data : list Z)
| Dead (len sum : Z).

#[export] Instance cell_eq_dec : EqDecision cell.
Proof. solve_decision. Defined.

Abbreviation cells := (gmap (Z * Z) cell).

Definition cell_len (c : cell) : Z := match c with Live d => bytelen d | Dead n _ => n end.
Definition cell_sum (c : cell) : Z := match c with Live d => checksumOf d | Dead _ s => s end.
Definition cell_state (c : cell) : Z :=
  match c with Live _ => ExtentDurable | Dead _ _ => ExtentTombstoned end.
Definition bury (c : cell) : cell := Dead (cell_len c) (cell_sum c).

(** What [Stat] reports of a cell. *)
Definition reports (v : Value) (c : cell) : Prop :=
  v_LogicalLen v = cell_len c /\ v_Checksum v = cell_sum c /\ v_State v = cell_state c.

(** The newest generation of [e] is [g]. *)
Definition newest (A : cells) (e g : Z) : Prop :=
  is_Some (A !! (e, g)) /\ forall g', is_Some (A !! (e, g')) -> g' <= g.

(** ** The laws

    What a call may answer and do to the map, from [A] to [A']. *)

Definition write_spec (req : WriteRequest) (A A' : cells) (r : go DurableReceipt) : Prop :=
  let k := (wr_ExtentID req, wr_Generation req) in
  match r with
  | Ok _ =>
      (A !! k = None /\ A' = <[k := Live (wr_Data req)]> A) \/
      (exists c, A !! k = Some c /\ cell_sum c = checksumOf (wr_Data req) /\ A' = A)
  | Err _ => A' = A
  end.

Definition read_spec (req : ReadRequest) (A A' : cells) (r : go ReadResult) : Prop :=
  let c := A !! (rr_ExtentID req, rr_Generation req) in
  A' = A /\
  match r with
  | Ok res => exists d, c = Some (Live d) /\ res = mkReadResult (window req d) (checksumOf d)
  | Err ErrExtentNotFound => forall d, c <> Some (Live d)
  | Err _ => True
  end.

(** A deletion that fails may have taken effect. *)
Definition delete_spec (e g : Z) (A A' : cells) (r : go unit) : Prop :=
  match A !! (e, g) with
  | None => A' = A
  | Some c => match r with
              | Ok _ => A' = <[(e, g) := bury c]> A
              | Err _ => A' = A \/ A' = <[(e, g) := bury c]> A
              end
  end.

Definition stat_spec (e g : Z) (A A' : cells) (r : go Value) : Prop :=
  A' = A /\
  match r with
  | Ok v => exists c, A !! (e, g) = Some c /\ reports v c
  | Err ErrExtentNotFound => A !! (e, g) = None
  | Err _ => True
  end.

(** Each extent once, at its newest generation, when that is live. *)
Definition list_spec (A A' : cells) (r : go (list LiveExtent)) : Prop :=
  A' = A /\
  match r with
  | Ok l => NoDup (le_ExtentID <$> l) /\
      (forall x, x ∈ l -> exists d, newest A (le_ExtentID x) (le_Generation x) /\
         A !! (le_ExtentID x, le_Generation x) = Some (Live d) /\ reports (le_Value x) (Live d)) /\
      (forall e g d, newest A e g -> A !! (e, g) = Some (Live d) ->
         exists x, x ∈ l /\ le_ExtentID x = e /\ le_Generation x = g)
  | Err _ => True
  end.

Class StorageLaws (B : Type) `{SS : StorageStore B} (view : B -> cells) := {
  write_law req b b' r : ss_Write req b = (b', r) -> write_spec req (view b) (view b') r;
  read_law req b b' r : ss_Read req b = (b', r) -> read_spec req (view b) (view b') r;
  delete_law e g b b' r : ss_Delete e g b = (b', r) -> delete_spec e g (view b) (view b') r;
  stat_law e g b b' r : ss_Stat e g b = (b', r) -> stat_spec e g (view b) (view b') r;
  list_law b b' r : ss_ListExtents b = (b', r) -> list_spec (view b) (view b') r
}.

(** ** The segment store as an instance

    A call takes the next environment of a schedule, so that every call can
    fail in its own way. *)
Section Segment.
Context {DB : Type} `{KV : PebbleKV DB} `{FL : FrameLib} (cfg : Config).

Record segment_backend := mkSegmentBackend {
  sb_store : Store DB; sb_env : nat -> env; sb_calls : nat
}.

Definition sb_run {A} (f : env -> M (DB := DB) A) (b : segment_backend) : segment_backend * go A :=
  let (s, r) := f (sb_env b (sb_calls b)) (sb_store b) in
  (mkSegmentBackend s (sb_env b) (S (sb_calls b)), r).

Definition segment_list (b : segment_backend) : segment_backend * go (list LiveExtent) :=
  let (b, r) := sb_run (fun _ => ListExtents) b in
  (b, let! m := r in Ok (snd <$> map_to_list m)).

#[export] Instance segment_store : StorageStore segment_backend := {|
  ss_Write req := sb_run (fun ev => Write cfg ev req);
  ss_Read req := sb_run (fun _ => Read cfg req);
  ss_Delete e g := sb_run (fun ev => Delete cfg ev e g);
  ss_Stat e g := sb_run (fun _ => Stat e g);
  ss_ListExtents := segment_list
|}.
End Segment.

(** ** The map itself as an instance *)

(** [ct_faults]: what the coming calls do, in order; an exhausted list means
    that nothing fails. *)
Record cell_store := mkCellStore { ct_cells : cells; ct_faults : list (option string) }.

Definition ct_call {A} (f : cells -> cells * go A) (b : cell_store) : cell_store * go A :=
  match ct_faults b with
  | Some msg :: fs => (mkCellStore (ct_cells b) fs, Err (ErrIO msg))
  | fs => let (m, r) := f (ct_cells b) in (mkCellStore m (tail fs), r)
  end.

Definition cell_value (c : cell) : Value := mkValue 0 0 0 (cell_len c) (cell_state c) (cell_sum c).

Definition ct_Write (req : WriteRequest) (m : cells) : cells * go DurableReceipt :=
  let k := (wr_ExtentID req, wr_Generation req) in
  let receipt := mkReceipt (wr_ExtentID req) (wr_Generation req) 0 0 0 (bytelen (wr_Data req)) 0 in
  match m !! k with
  | Some c => (m, if cell_sum c =? checksumOf (wr_Data req) then Ok receipt else Err ErrStaleGeneration)
  | None => (<[k := Live (wr_Data req)]> m, Ok receipt)
  end.

Definition ct_Read (req : ReadRequest) (m : cells) : cells * go ReadResult :=
  (m, match m !! (rr_ExtentID req, rr_Generation req) with
      | Some (Live d) =>
          if (0 <? rr_Length req) && ((rr_LogicalOffset req <? 0) || (bytelen d <=? rr_LogicalOffset req))
          then Err ErrInvalidRange else Ok (mkReadResult (window req d) (checksumOf d))
      | _ => Err ErrExtentNotFound
      end).

Definition ct_Delete (e g : Z) (m : cells) : cells * go unit :=
  (match m !! (e, g) with Some c => <[(e, g) := bury c]> m | None => m end, Ok tt).

Definition ct_Stat (e g : Z) (m : cells) : cells * go Value :=
  (m, match m !! (e, g) with Some c => Ok (cell_value c) | None => Err ErrExtentNotFound end).

Definition extent_of (kc : Z * Z * cell) : LiveExtent :=
  mkLiveExtent kc.1.1 kc.1.2 (cell_value kc.2).

(** The newest generation of each extent. *)
Definition ct_newest (m : cells) : gmap Z LiveExtent :=
  fold_left merge_extent
    (extent_of <$> map_to_list m) ∅.

Definition ct_List (m : cells) : cells * go (list LiveExtent) :=
  (m, Ok (snd <$> map_to_list (filter (fun kx => v_State (le_Value kx.2) <> ExtentTombstoned) (ct_newest m)))).

#[export] Instance cell_store_ops : StorageStore cell_store := {|
  ss_Write req := ct_call (ct_Write req);
  ss_Read req := ct_call (ct_Read req);
  ss_Delete e g := ct_call (ct_Delete e g);
  ss_Stat e g := ct_call (ct_Stat e g);
  ss_ListExtents := ct_call ct_List
|}.

(** *** Its laws *)

Lemma merge_extent_lookup m x e :
  merge_extent m x !! e =
    if bool_decide (le_ExtentID x = e) then
      match m !! e with
      | Some cur => Some (if le_Generation cur <? le_Generation x then x else cur)
      | None => Some x
      end
    else m !! e.
Proof.
  unfold merge_extent. case_bool_decide as H.
  - subst. destruct (m !! le_ExtentID x) as [cur|] eqn:E.
    + destruct (_ <? _); [by rewrite lookup_insert_eq|done].
    + by rewrite lookup_insert_eq.
  - destruct (m !! le_ExtentID x) as [cur|]; [destruct (_ <? _)|];
      by rewrite ?lookup_insert_ne.
Qed.

(** Merging keeps, for each extent, an entry that no other exceeds. *)
Lemma merge_all_spec l : forall m,
  (forall e x, m !! e = Some x -> le_ExtentID x = e) ->
  (forall e x, fold_left merge_extent l m !! e = Some x ->
     le_ExtentID x = e /\ (x ∈ l \/ m !! e = Some x) /\
     (forall y, y ∈ l \/ m !! e = Some y -> le_ExtentID y = e -> le_Generation y <= le_Generation x)) /\
  (forall e, fold_left merge_extent l m !! e = None ->
     m !! e = None /\ forall y, y ∈ l -> le_ExtentID y <> e).
Proof.
  induction l as [|z l IH]; intros m Hm; cbn [fold_left].
  - split.
    + intros e x Hx. split; [by apply Hm|]. split; [by right|].
      intros y [Hy|Hy]; [by apply not_elem_of_nil in Hy|]. rewrite Hx in Hy. simplify_eq. lia.
    + intros e He. split; [done|]. intros y Hy. by apply not_elem_of_nil in Hy.
  - destruct (IH (merge_extent m z)) as [I1 I2].
    { intros e x. rewrite merge_extent_lookup. case_bool_decide as Hz; [|by apply Hm].
      destruct (m !! e) as [cur|] eqn:Hc; [|by intros [= <-]].
      destruct (_ <? _); intros [= <-]; [done|by apply Hm]. }
    split.
    + intros e x Hx. destruct (I1 e x Hx) as (Hid & Hin & Hmax). split; [done|]. split.
      * destruct Hin as [?|Hin]; [left; by constructor|]. rewrite merge_extent_lookup in Hin.
        case_bool_decide; [|by right]. destruct (m !! e) as [cur|] eqn:Hc.
        -- destruct (_ <? _); simplify_eq; [left; constructor|by right].
        -- simplify_eq. left; constructor.
      * assert (forall y, merge_extent m z !! e = Some y -> le_Generation y <= le_Generation x) as Hm'.
        { intros y Hy. apply Hmax; [by right|]. rewrite merge_extent_lookup in Hy.
          case_bool_decide; [|by apply Hm]. destruct (m !! e) as [cur|] eqn:Hc; [|by simplify_eq].
          destruct (_ <? _); simplify_eq; [done|by apply Hm]. }
        intros y Hy Hye.
        assert (y ∈ l \/ y = z \/ m !! e = Some y) as [?|Hc]
          by (destruct Hy as [Hy|Hy]; [apply elem_of_cons in Hy as [->|?]|]; auto); [apply Hmax; auto|].
        rewrite merge_extent_lookup in Hm'. destruct Hc as [->|Hc].
        -- rewrite bool_decide_true in Hm' by done. destruct (m !! e) as [cur|]; [|by apply Hm'].
           specialize (Hm' _ eq_refl). destruct (Z.ltb_spec (le_Generation cur) (le_Generation z)); lia.
        -- rewrite Hc in Hm'. case_bool_decide; [|by apply Hm'].
           specialize (Hm' _ eq_refl). destruct (Z.ltb_spec (le_Generation y) (le_Generation z)); lia.
    + intros e He. destruct (I2 e He) as [Hn Hl]. rewrite merge_extent_lookup in Hn.
      case_bool_decide as Hz; [by destruct (m !! e)|]. split; [done|].
      intros y [->|Hy]%elem_of_cons; [done|by apply Hl].
Qed.

Lemma ct_newest_spec m e x :
  ct_newest m !! e = Some x <->
  exists g c, x = mkLiveExtent e g (cell_value c) /\ m !! (e, g) = Some c /\ newest m e g.
Proof.
  unfold ct_newest.
  destruct (merge_all_spec (extent_of <$> map_to_list m) ∅) as [H1 H2].
  { intros ? ? H. by rewrite lookup_empty in H. }
  assert (forall y, y ∈ extent_of <$> map_to_list m <->
            exists g c, y = mkLiveExtent (le_ExtentID y) g (cell_value c) /\
                        m !! (le_ExtentID y, g) = Some c) as Hin.
  { intros y. rewrite list_elem_of_fmap. split.
    - intros ([[e' g'] c] & -> & Hy). apply elem_of_map_to_list in Hy. by exists g', c.
    - intros (g & c & Hy & Hc). exists ((le_ExtentID y, g), c). split; [done|].
      by apply elem_of_map_to_list. }
  split.
  - intros Hx. destruct (H1 e x Hx) as (He & [Hx'|Hx'] & Hmax); [|by rewrite lookup_empty in Hx'].
    apply Hin in Hx' as (g & c & Hxe & Hc). rewrite He in Hxe, Hc. exists g, c.
    split; [done|]. split; [done|]. split; [by exists c|]. intros g' [c' Hc'].
    specialize (Hmax (mkLiveExtent e g' (cell_value c'))). rewrite Hxe in Hmax. cbn in Hmax.
    apply Hmax; [|done]. left. apply Hin. by exists g', c'.
  - intros (g & c & -> & Hc & [_ Hn]).
    destruct (fold_left _ _ _ !! e) as [y|] eqn:Hy.
    + destruct (H1 e y Hy) as (He & [Hy'|Hy'] & Hmax); [|by rewrite lookup_empty in Hy'].
      apply Hin in Hy' as (g' & c' & Hye & Hc'). rewrite He in Hye, Hc'.
      assert (g' <= g) by (apply Hn; by exists c').
      specialize (Hmax (mkLiveExtent e g (cell_value c))). rewrite Hye in Hmax. cbn in Hmax.
      assert (g <= g') by (apply Hmax; [left; apply Hin; by exists g, c|done]).
      assert (g' = g) as -> by lia. rewrite Hye. rewrite Hc in Hc'. by simplify_eq.
    + destruct (H2 e Hy) as [_ Hl]. exfalso. apply (Hl (mkLiveExtent e g (cell_value c))); [|done].
      apply Hin. by exists g, c.
Qed.

Lemma ct_call_inv {A} (f : cells -> cells * go A) b b' r :
  ct_call f b = (b', r) ->
  (exists msg, r = Err (ErrIO msg) /\ ct_cells b' = ct_cells b) \/
  f (ct_cells b) = (ct_cells b', r).
Proof.
  unfold ct_call. destruct (ct_faults b) as [|[msg|] fs].
  2: { intros [= <- <-]. left. by exists msg. }
  all: destruct (f (ct_cells b)) as [m r'] eqn:E; intros [= <- <-]; by right.
Qed.

Lemma ct_list_spec (m : cells) l :
  (ct_List m).2 = Ok l ->
  NoDup (le_ExtentID <$> l) /\
  (forall x, x ∈ l <-> exists e g d, x = mkLiveExtent e g (cell_value (Live d)) /\
     m !! (e, g) = Some (Live d) /\ newest m e g).
Proof.
  unfold ct_List. cbn [snd]. intros [= <-].
  set (fm := filter _ (ct_newest m)).
  assert (forall e x, fm !! e = Some x <->
    exists g d, x = mkLiveExtent e g (cell_value (Live d)) /\ m !! (e, g) = Some (Live d) /\ newest m e g) as Hf.
  { intros e x. unfold fm. rewrite map_lookup_filter_Some, ct_newest_spec. cbn. split.
    - intros ((g & c & -> & Hc & Hn) & Hs). destruct c; cbn in Hs; [by exists g, data|done].
    - intros (g & d & -> & Hc & Hn). split; [by exists g, (Live d)|done]. }
  split.
  - assert (le_ExtentID <$> (snd <$> map_to_list fm) = fst <$> map_to_list fm) as ->.
    { rewrite <- list_fmap_compose. apply list_fmap_ext. intros i [e x] Hx. cbn.
      apply list_elem_of_lookup_2, elem_of_map_to_list, Hf in Hx. by destruct Hx as (? & ? & -> & _). }
    apply NoDup_fst_map_to_list.
  - intros x. rewrite list_elem_of_fmap. split.
    + intros ([e y] & -> & Hy). apply elem_of_map_to_list, Hf in Hy as (g & d & ? & ? & ?). by exists e, g, d.
    + intros (e & g & d & Hx). exists (e, x). split; [done|]. apply elem_of_map_to_list, Hf. by exists g, d.
Qed.

Lemma cell_value_reports c : reports (cell_value c) c.
Proof. by repeat split. Qed.

#[export] Instance cell_store_laws : StorageLaws cell_store ct_cells.
Proof.
  constructor.
  - intros req b b' r H. apply ct_call_inv in H as [(msg & -> & E)|H]; [exact E|].
    unfold ct_Write in H. destruct (_ !! _) as [c|] eqn:Hc.
    + destruct (Z.eqb_spec (cell_sum c) (checksumOf (wr_Data req))) as [He|He]; injection H as <- <-; [|done].
      right. by exists c.
    + injection H as <- <-. by left.
  - intros req b b' r H. apply ct_call_inv in H as [(msg & -> & E)|H]; [by split|].
    unfold ct_Read in H. injection H as <- <-. split; [done|].
    destruct (_ !! _) as [[d|]|]; [|done|done]. destruct (_ && _); [done|]. by exists d.
  - intros e g b b' r H. apply ct_call_inv in H as [(msg & -> & E)|H].
    + unfold delete_spec. destruct (_ !! _); [by left|done].
    + unfold ct_Delete in H. injection H as <- <-. unfold delete_spec. by destruct (ct_cells b !! (e, g)).
  - intros e g b b' r H. apply ct_call_inv in H as [(msg & -> & E)|H]; [by split|].
    unfold ct_Stat in H. injection H as <- <-. split; [done|].
    destruct (_ !! _) as [c|]; [|done]. exists c. split; [done|apply cell_value_reports].
  - intros b b' r H. apply ct_call_inv in H as [(msg & -> & E)|H]; [by split|].
    destruct r as [l|]; [|unfold ct_List in H; discriminate].
    destruct (ct_list_spec (ct_cells b) l) as [Hn Hl]; [by rewrite H|].
    unfold ct_List in H. injection H as <- _. split; [done|]. split; [done|]. split.
    + intros x Hx. apply Hl in Hx as (e & g & d & -> & Hc & Hne). exists d. cbn.
      split; [done|]. split; [done|]. apply cell_value_reports.
    + intros e g d Hne Hc. exists (mkLiveExtent e g (cell_value (Live d))).
      split; [|done]. apply Hl. by exists e, g, d.
Qed.
