(* ===== verification/SegmentRefinement.v ===== *)
(** * The segment store keeps the promises of a data node's store

    [StoreInterface] states what a data node relies on. Here the segment
    store of [Store] ([segment/store.go]) is related to a map of cells and
    every call is shown to answer and to move the map as that interface
    says, on a store in service: open, its log durable, its index and
    location cache well-formed, nothing failing during the call, and room in
    the active segment for what the call appends. *)

From stdpp Require Import base list numbers strings gmap.
From Stdlib Require Import ZArith Lia Sorted.
From S2P Require Import Prelude Bytes Crc StorageTypes FileIO Record Pebble Index Overlay Cache.
From S2P Require Import SegmentLog Framing FramingProofs Store StoreProofs Durability Restart.
From S2P Require Import StoreSpec StoreInterface Scenario.

Local Open Scope Z_scope.
Local Open Scope go_scope.

(** ** Newest generations of an index *)

Lemma latest_in_exists es t :
  t ∈ es -> exists t', latest_in es t' /\ e_id t' = e_id t /\ e_gen t <= e_gen t'.
Proof.
  induction es as [|c es IH] in t |- *; intros Ht; [by apply not_elem_of_nil in Ht|].
  destruct (decide (Exists (fun x => e_id x = e_id t) es)) as [He|He].
  - apply Exists_exists in He as (x & Hx & Hid). destruct (IH x Hx) as (y & [Hy Hmax] & Hid' & _).
    destruct (decide (e_id c = e_id t /\ e_gen y < e_gen c)) as [[Hc Hlt]|Hc].
    + exists c. assert (forall z, z ∈ c :: es -> e_id z = e_id c -> e_gen z <= e_gen c) as H.
      { intros z [->|Hz]%elem_of_cons Hzc; [lia|]. specialize (Hmax z Hz ltac:(lia)). lia. }
      split; [split; [constructor|done]|]. split; [done|]. by apply H.
    + exists y. assert (forall z, z ∈ c :: es -> e_id z = e_id y -> e_gen z <= e_gen y) as H.
      { intros z [->|Hz]%elem_of_cons Hzc; [lia|]. by apply Hmax. }
      split; [split; [by constructor|done]|]. split; [lia|]. apply H; [done|lia].
  - rewrite <- Forall_Exists_neg, Forall_forall in He.
    apply elem_of_cons in Ht as [->|Ht]; [|by destruct (He t Ht)].
    exists c. split; [|split; lia]. split; [constructor|].
    intros z [->|Hz]%elem_of_cons Hzc; [lia|]. by destruct (He z Hz).
Qed.

(** An entry gives way to later ones of a higher generation only. *)
Lemma merge_all_keeps l : forall m e x y,
  m !! e = Some y -> fold_left merge_extent l m !! e = Some x ->
  x = y \/ le_Generation y < le_Generation x.
Proof.
  induction l as [|z l IH]; intros m e x y Hy Hx; cbn [fold_left] in Hx; [left; congruence|].
  assert (exists y', merge_extent m z !! e = Some y' /\ (y' = y \/ le_Generation y < le_Generation y'))
    as (y' & Hy' & Hc).
  { rewrite merge_extent_lookup, Hy. case_bool_decide; [|by eauto].
    destruct (Z.ltb_spec (le_Generation y) (le_Generation z)); eauto. }
  destruct (IH _ _ _ _ Hy' Hx) as [->|]; [by destruct Hc; auto|]. destruct Hc as [->|]; [by right|right; lia].
Qed.

(** ** Merging two layers

    [l1] lists what [top] holds, [l2] the newest entries of [low]; the upper
    layer hides the lower one. *)
Section Layers.
Context (ok : Z -> Z -> Prop) (top low : Z -> Z -> option Value) (l1 l2 : list LiveExtent).
Let at_ (f : Z -> Z -> option Value) (x : LiveExtent) : Prop :=
  f (le_ExtentID x) (le_Generation x) = Some (le_Value x).
Let okx (x : LiveExtent) : Prop := ok (le_ExtentID x) (le_Generation x).
Hypothesis top_listed : forall x, x ∈ l1 <-> okx x /\ at_ top x.
Hypothesis low_listed : forall x, x ∈ l2 -> okx x /\ at_ low x.
Hypothesis low_covered : forall x, okx x -> at_ low x ->
  exists y, y ∈ l2 /\ le_ExtentID y = le_ExtentID x /\ le_Generation x <= le_Generation y.

Let m1 := fold_left merge_extent l1 ∅.
Let m := fold_left merge_extent l2 m1.

Lemma upper_merged e :
  (forall x, m1 !! e = Some x -> le_ExtentID x = e /\ x ∈ l1) /\
  (forall y, y ∈ l1 -> le_ExtentID y = e ->
     exists z, m1 !! e = Some z /\ le_Generation y <= le_Generation z).
Proof.
  destruct (merge_all_spec l1 ∅) as [P Q]; [by intros ? ?; rewrite lookup_empty|]. fold m1 in P, Q. split.
  - intros x Hx. destruct (P e x Hx) as (He & [?|Hn] & _); [done|]. by rewrite lookup_empty in Hn.
  - intros y Hy He. destruct (m1 !! e) as [z|] eqn:Hz; [|by destruct (proj2 (Q e Hz) y Hy)].
    exists z. split; [done|]. apply (proj2 (proj2 (P e z Hz)) y); auto.
Qed.

Lemma layers_merged e x :
  m !! e = Some x ->
  le_ExtentID x = e /\ okx x /\
  (at_ top x \/ top e (le_Generation x) = None /\ at_ low x) /\
  (forall y, okx y -> le_ExtentID y = e -> at_ top y \/ at_ low y -> le_Generation y <= le_Generation x).
Proof.
  intros Hx. destruct (upper_merged e) as [U1 U2].
  destruct (merge_all_spec l2 m1) as [P _]; [intros e' x' Hx'; by apply (proj1 (upper_merged e'))|].
  destruct (P e x Hx) as (He & Hin & Hmax). split; [done|].
  assert (okx x /\ (at_ top x \/ top e (le_Generation x) = None /\ at_ low x)) as [? ?].
  { destruct Hin as [Hin|Hin].
    2:{ apply U1 in Hin as [_ Hin]. apply top_listed in Hin as [??]. auto. }
    apply low_listed in Hin as [Ho Hl]. split; [done|].
    destruct (top e (le_Generation x)) as [w|] eqn:Ht; [left|by right].
    assert (mkLiveExtent e (le_Generation x) w ∈ l1) as Hw
      by (apply top_listed; unfold okx in Ho; rewrite He in Ho; split; [exact Ho|exact Ht]).
    destruct (U2 _ Hw eq_refl) as (z & Hz & Hle). cbn in Hle.
    destruct (merge_all_keeps l2 m1 e x z Hz Hx) as [->|]; [|lia].
    apply U1 in Hz as [_ Hz]. by apply top_listed in Hz as [_ Hz]. }
  split; [done|]. split; [done|]. intros y Ho Hye [Hy|Hy].
  - destruct (U2 y) as (z & Hz & Hle); [by apply top_listed|done|].
    assert (le_Generation z <= le_Generation x) by (apply Hmax; [by right|by apply U1]). lia.
  - destruct (low_covered y Ho Hy) as (z & Hz & Hid & Hle).
    assert (le_Generation z <= le_Generation x) by (apply Hmax; [by left|congruence]). lia.
Qed.

Lemma layers_cover y : okx y -> at_ top y \/ at_ low y -> is_Some (m !! le_ExtentID y).
Proof.
  intros Ho Hy. destruct (m !! le_ExtentID y) as [x|] eqn:Hx; [by exists x|]. exfalso.
  destruct (merge_all_spec l2 m1) as [_ Q]; [intros e' x' Hx'; by apply (proj1 (upper_merged e'))|].
  destruct (Q _ Hx) as [Hn Hl]. destruct Hy as [Hy|Hy].
  - destruct (proj2 (upper_merged (le_ExtentID y)) y) as (z & Hz & _); [by apply top_listed|done|]. congruence.
  - destruct (low_covered y Ho Hy) as (z & Hz & Hid & _). by apply (Hl z).
Qed.
End Layers.

Section Merge.
Context {DB : Type} `{KL : PebbleLaws DB}.

Definition entry_extent (t : entry) : LiveExtent := mkLiveExtent (e_id t) (e_gen t) t.2.

Lemma go_fold_merge (l : list entry) : forall m,
  go_fold (fun m id gen v => Ok (merge_extent m (mkLiveExtent id gen v))) m l
  = Ok (fold_left merge_extent (entry_extent <$> l) m).
Proof. induction l as [|t l IH]; intros m; [done|]. cbn [go_fold]. rewrite bind_Ok. apply IH. Qed.

Lemma Index_Get_wf (ix : DB) e g v : Index_wf ix -> Index_Get ix e g = Ok v -> Value_wf v.
Proof.
  intros W. unfold Index_Get. destruct (kv_get ix _) as [raw|] eqn:E; [|done].
  destruct (W _ _ E) as (t & (_ & _ & Wt) & Et). apply (f_equal snd) in Et.
  unfold entry_kv in Et. cbn [snd] in Et. subst raw.
  rewrite Value_Decode_bytes by done. by intros [= <-].
Qed.

(** What [ListExtents] merges out of the index. *)
Lemma Iterate_merge (ix : DB) m :
  Index_wf ix ->
  exists ls, Iterate (fun m id gen v => Ok (merge_extent m (mkLiveExtent id gen v))) ix m
      = Ok (fold_left merge_extent (entry_extent <$> ls) m) /\
    (forall t, t ∈ ls -> entry_wf t /\ Index_Get ix (e_id t) (e_gen t) = Ok t.2) /\
    (forall e g v, is_u64 e -> is_u64 g -> Index_Get ix e g = Ok v ->
       exists t, t ∈ ls /\ e_id t = e /\ g <= e_gen t).
Proof.
  intros Hw. destruct (Index_entries ix Hw) as (es & Hk & Hf & Hs & Hes).
  destruct (coalesce_None_spec es Hs) as [Hmem _]. exists (coalesce None es). split; [|split].
  - unfold Iterate. rewrite Hk, iterate_loop_coalesce by done. apply go_fold_merge.
  - intros t [Ht _]%Hmem. rewrite Forall_forall in Hf. split; [by apply Hf|]. apply Hes; [by apply Hf|done].
  - intros e g v He Hg' Hg. assert (entry_wf (e, g, v)) as We by (do 2 (split; [done|]); by eapply Index_Get_wf).
    apply (Hes (e, g, v) We) in Hg.
    destruct (latest_in_exists es _ Hg) as (t & Ht & Hid & Hgen). exists t. by rewrite Hmem.
Qed.

Definition overlay_extent (kv : list Z * Value) : LiveExtent :=
  mkLiveExtent (ExtentFromKey kv.1) (GenerationFromKey kv.1) kv.2.

Lemma Overlay_extents (o : Overlay) x :
  Overlay_wf o ->
  x ∈ overlay_extent <$> map_to_list (Overlay_Snapshot o) <->
  (is_u64 (le_ExtentID x) /\ is_u64 (le_Generation x)) /\
  Overlay_Get o (Key (le_ExtentID x) (le_Generation x)) = Some (le_Value x).
Proof.
  intros [W1 W2]. rewrite list_elem_of_fmap. split.
  - intros ((k & v) & -> & Hin%elem_of_map_to_list).
    assert (exists e g, is_u64 e /\ is_u64 g /\ Value_wf v /\ k = Key e g) as (e & g & He & Hg & Hv & ->).
    { pose proof Hin as Hin'. unfold Overlay_Snapshot in Hin'.
      apply lookup_union_Some_raw in Hin' as [Hi|[_ Hi]]; [by apply W1 in Hi|by apply W2 in Hi]. }
    unfold overlay_extent. cbn [fst snd le_ExtentID le_Generation le_Value].
    rewrite ExtentFromKey_Key, GenerationFromKey_Key by done. split; [done|].
    by rewrite Overlay_Get_Snapshot.
  - intros ((He & Hg) & Ho). destruct x as [e g v]. cbn [le_ExtentID le_Generation le_Value] in *.
    exists (Key e g, v). unfold overlay_extent. cbn [fst snd].
    rewrite ExtentFromKey_Key, GenerationFromKey_Key by done. split; [done|].
    apply elem_of_map_to_list. by rewrite <- Overlay_Get_Snapshot.
Qed.

Lemma overlay_fold (o : Overlay) m :
  Overlay_wf o ->
  fold_left (fun merged kv => if (length kv.1 <? KeyLen)%nat then merged else
      merge_extent merged (mkLiveExtent (ExtentFromKey kv.1) (GenerationFromKey kv.1) kv.2))
    (map_to_list (Overlay_Snapshot o)) m
  = fold_left merge_extent (overlay_extent <$> map_to_list (Overlay_Snapshot o)) m.
Proof.
  intros W. assert (Forall (fun kv : list Z * Value => length kv.1 = KeyLen) (map_to_list (Overlay_Snapshot o))) as Hf.
  { apply Forall_forall. intros [k v] Hin%elem_of_map_to_list. unfold Overlay_Snapshot in Hin.
    destruct W as [W1 W2].
    apply lookup_union_Some_raw in Hin as [Hi|[_ Hi]]; [apply W1 in Hi|apply W2 in Hi];
      destruct Hi as (e & g & _ & _ & _ & ->); apply length_Key. }
  revert m. induction Hf as [|kv l Hl _ IH]; intros m; [done|]. cbn [fold_left fmap list_fmap].
  rewrite Hl, Nat.ltb_irrefl. apply IH.
Qed.
End Merge.

(** ** Calls of the interface *)

Inductive store_call :=
| CallWrite (req : WriteRequest) | CallRead (req : ReadRequest) | CallDelete (e g : Z)
| CallStat (e g : Z) | CallList.

Definition answer (c : store_call) : Type :=
  match c with
  | CallWrite _ => DurableReceipt | CallRead _ => ReadResult | CallDelete _ _ => unit
  | CallStat _ _ => Value | CallList => list LiveExtent
  end.

Definition perform {B} `{StorageStore B} (c : store_call) : B -> B * go (answer c) :=
  match c with
  | CallWrite req => ss_Write req | CallRead req => ss_Read req | CallDelete e g => ss_Delete e g
  | CallStat e g => ss_Stat e g | CallList => ss_ListExtents
  end.

Definition call_spec (c : store_call) : cells -> cells -> go (answer c) -> Prop :=
  match c with
  | CallWrite req => write_spec req | CallRead req => read_spec req
  | CallDelete e g => delete_spec e g | CallStat e g => stat_spec e g | CallList => list_spec
  end.

(** ** A store in service *)

Section Service.
Context {DB : Type} `{KL : PebbleLaws DB} `{FLaws : FrameLaws} (cfg : Config).
Context (encKey : option (list Z)) (keyID : Z).

(** A lookup result shows a cell; a live one can be read where it points. *)
Definition shows (dir : gmap Z (list Z)) (r : go Value) (c : option cell) : Prop :=
  match c with
  | None => r = Err ErrExtentNotFound
  | Some c => exists v, r = Ok v /\ reports v c /\
      forall d, c = Live d -> stored_at encKey keyID dir v d
  end.

Record in_service (s : Store DB) (A : cells) : Prop := mkInService {
  is_inv : inv cfg s;
  is_index : Index_wf (s_index s);
  is_cache : lc_wf (s_locCache s);
  is_coherent : cache_coherent s;
  is_open : s_closing s = false;
  is_shows : forall e g, is_u64 e -> is_u64 g -> shows (s_dir s) (lookup_value s e g) (A !! (e, g));
  is_keys : forall e g, is_Some (A !! (e, g)) -> is_u64 e /\ is_u64 g
}.

(** The map of [StoreSpec]: payloads and bare tombstones. *)
Definition payloads (A : cells) : contents :=
  (fun c => match c with Live d => Some d | Dead _ _ => None end) <$> A.

Lemma in_service_represents s A : in_service s A -> represents encKey keyID s (payloads A).
Proof.
  intros I e g He Hg. pose proof (is_shows _ _ I e g He Hg) as Hs. unfold payloads. rewrite lookup_fmap.
  destruct (A !! (e, g)) as [c|]; cbn [fmap option_fmap option_map means]; [|exact Hs].
  destruct Hs as (v & Hv & (_ & _ & Hst) & Ha). destruct c as [d|n h]; exists v; [|done].
  split; [done|]. split; [done|]. by apply Ha.
Qed.

Lemma in_service_overlay s A : in_service s A -> Overlay_wf (s_overlay s).
Proof. intros I. destruct (is_inv _ _ I) as (? & ? & ? & ? & D). apply (du_wf _ _ _ _ _ _ D). Qed.

Lemma lookup_wf s A e g v : in_service s A -> lookup_value s e g = Ok v -> Value_wf v.
Proof.
  intros I. unfold lookup_value. destruct (Overlay_Get _ _) as [w|] eqn:E.
  - intros [= <-]. rewrite Overlay_Get_Snapshot in E. unfold Overlay_Snapshot in E.
    destruct (in_service_overlay _ _ I) as [W1 W2].
    apply lookup_union_Some_raw in E as [E|[_ E]]; [apply W1 in E|apply W2 in E];
      by destruct E as (? & ? & _ & _ & ? & _).
  - apply Index_Get_wf, I.
Qed.

(** Caches, the apply queue and events do not matter. *)
Lemma in_service_volatile s s' A :
  in_service s A -> same_core s s' -> s_index s' = s_index s -> lc_wf (s_locCache s') ->
  cache_coherent s' -> s_closing s' = false -> in_service s' A.
Proof.
  intros [(h & e1 & e2 & q & D) Wx Wc Hc Ho Hs Hk] Hcore Hi Wc' Hc' Ho'. constructor; try done.
  - exists h, e1, e2, q. by eapply same_core_durable.
  - by rewrite Hi.
  - destruct Hcore as (_ & Hd & _ & Hov & _). intros e g He Hg. unfold lookup_value.
    rewrite Hd, Hov, Hi. by apply Hs.
Qed.

(** A key whose lookup did not move. *)
Lemma shows_other s A r dir e g :
  in_service s A -> is_u64 e -> is_u64 g -> r = lookup_value s e g ->
  means encKey keyID dir r (payloads A !! (e, g)) -> shows dir r (A !! (e, g)).
Proof.
  intros I He Hg -> Hm. pose proof (is_shows _ _ I e g He Hg) as Hs.
  unfold payloads in Hm. rewrite lookup_fmap in Hm.
  destruct (A !! (e, g)) as [c|]; [|exact Hs]. destruct Hs as (v & Hv & Hr & _).
  exists v. split; [done|]. split; [done|]. intros d ->. cbn in Hm.
  destruct Hm as (w & Hw & _ & Ha). rewrite Hv in Hw. by apply Ok_inj in Hw as <-.
Qed.

(** *** Calls

    With nothing failing, a call errs for a reason only. *)

Inductive refusal : store_call -> cells -> err -> Prop :=
| refuse_conflict req A c :
    A !! (wr_ExtentID req, wr_Generation req) = Some c -> cell_sum c <> checksumOf (wr_Data req) ->
    refusal (CallWrite req) A ErrStaleGeneration
| refuse_gone req A : (forall d, A !! (rr_ExtentID req, rr_Generation req) <> Some (Live d)) ->
    refusal (CallRead req) A ErrExtentNotFound
| refuse_range req A d :
    A !! (rr_ExtentID req, rr_Generation req) = Some (Live d) -> 0 < rr_Length req ->
    ~ 0 <= rr_LogicalOffset req < bytelen d -> refusal (CallRead req) A ErrInvalidRange
| refuse_unopened req A : refusal (CallRead req) A ErrSegmentUnavailable
| refuse_unknown e g A : A !! (e, g) = None -> refusal (CallStat e g) A ErrExtentNotFound.

Definition serves (c : store_call) (A : cells) (s' : Store DB) (r : go (answer c)) : Prop :=
  exists A', in_service s' A' /\ call_spec c A A' r /\ forall x, r = Err x -> refusal c A x.

Lemma Stat_serves s A e g s' r :
  in_service s A -> is_u64 e -> is_u64 g -> Stat e g s = (s', r) ->
  serves (CallStat e g) A s' r.
Proof.
  intros I He Hg. unfold Stat, enter. rewrite (bindM_ok _ _ s s tt) by (stepM; by rewrite (is_open _ _ I)).
  stepM. unfold lift. intros [= <- <-]. exists A. split; [done|]. cbn [call_spec]. unfold stat_spec.
  pose proof (is_shows _ _ I e g He Hg) as Hs. destruct (A !! (e, g)) as [c|] eqn:HA; cbn [shows] in Hs.
  - destruct Hs as (v & -> & Hv & _). split; [|done]. split; [done|]. by exists c.
  - rewrite Hs. split; [done|]. intros x [= <-]. by constructor.
Qed.

Lemma Write_serves ev req s A s' r :
  key_config cfg encKey keyID -> quiet ev -> nonces_ok (ev_nonce ev) -> put_request req ->
  in_service s A -> (forall pw, build_put cfg ev req = Ok pw -> room_for s pw) ->
  Write cfg ev req s = (s', r) -> serves (CallWrite req) A s' r.
Proof.
  intros Hk Hq Hn Hw I Hroom HW. set (k := (wr_ExtentID req, wr_Generation req)).
  destruct (A !! k) as [c|] eqn:HA.
  - (* the generation is taken: a retry or a conflict *)
    exists A. pose proof (is_shows _ _ I _ _ (pr_extent _ Hw) (pr_generation _ Hw)) as Hs.
    fold k in Hs. rewrite HA in Hs. destruct Hs as (v & Hv & (_ & Hsum & _) & _).
    unfold Write, Write_prepare, enter, bindM, get, ret, raise in HW.
    rewrite (is_open _ _ I), Hv in HW. destruct (Z.eqb_spec (v_Checksum v) (checksumOf (wr_Data req))) as [Hc|Hc];
      injection HW as <- <-; (split; [done|]); (split; [|intros x [= <-]]); [|done|].
    + right. exists c. by rewrite <- Hsum.
    + econstructor; [exact HA|]. by rewrite <- Hsum.
  - assert (payloads A !! k = None) as HP by (unfold payloads; by rewrite lookup_fmap, HA).
    destruct (Write_sound cfg encKey keyID ev req s (payloads A) Hk Hq Hn Hw (is_open _ _ I) (is_inv _ _ I)
      (in_service_represents _ _ I) HP Hroom) as (s1 & rc & E & I1 & R1 & Hlk & Hoth & Wx & Hlc & Hcl).
    rewrite HW in E. injection E as <- ->. exists (<[k := Live (wr_Data req)]> A).
    split; [|by split; [left|]]. constructor; [done|by apply Wx, I|rewrite Hlc; apply I| |done| |].
    + intros e g v He Hg Hf. rewrite Hlc in Hf. apply (is_coherent _ _ I) in Hf; [|done..].
      rewrite Hoth; [done..|]. intros E. fold k in E. pose proof (is_shows _ _ I e g He Hg) as Hs.
      rewrite E, HA in Hs. cbn in Hs. congruence.
    + intros e g He Hg. pose proof (R1 e g He Hg) as Hm. cbn [spec_op] in Hm. fold k in Hm.
      destruct (decide (k = (e, g))) as [Heq|Hne].
      * rewrite Heq in Hm |- *. rewrite lookup_insert_eq in Hm. rewrite lookup_insert_eq. destruct Hm as (v & Hv & Hs & Ha).
        exists v. split; [done|]. split; [|by intros d [= <-]]. 
        pose proof Ha as (? & lr & ? & ? & _ & _ & _ & _ & (_ & Hl & _) & _ & _ & Hll & Hsum).
        split; [cbn; congruence|]. done.
      * rewrite lookup_insert_ne in Hm by done. rewrite lookup_insert_ne by done.
        eapply shows_other; [exact I|done..|apply Hoth; [done..|by intros Heq; apply Hne]|exact Hm].
    + intros e g. rewrite lookup_insert. case_decide as Hd; [|apply I].
      injection Hd as <- <-. intros _. split; apply Hw.
Qed.

Lemma Delete_serves ev e g s A s' r :
  key_config cfg encKey keyID -> quiet ev -> nonces_ok (ev_nonce ev) -> is_u64 e -> is_u64 g ->
  in_service s A -> (forall v, lookup_value s e g = Ok v -> room_for s (delete_pending e g v)) ->
  Delete cfg ev e g s = (s', r) -> serves (CallDelete e g) A s' r.
Proof.
  intros Hk Hq Hn He Hg I Hroom HD. unfold serves. cbn [call_spec]. unfold delete_spec.
  pose proof (is_shows _ _ I e g He Hg) as Hs. destruct (A !! (e, g)) as [c|] eqn:HA.
  - assert (payloads A !! (e, g) = Some (match c with Live d => Some d | Dead _ _ => None end)) as HP
      by (unfold payloads; by rewrite lookup_fmap, HA).
    destruct Hs as (v & Hv & Hr & _).
    destruct (Delete_sound cfg encKey keyID ev e g s (payloads A) _ Hk Hq Hn He Hg (is_open _ _ I)
      (is_inv _ _ I) (in_service_represents _ _ I) HP) as (s1 & E & I1 & R1 & Hlk & Hoth & Wx & Wc & Hc & Hcl);
      [intros w Hw; split; [by eapply lookup_wf|by apply Hroom]|apply I|apply I|].
    rewrite HD in E. injection E as <- ->. exists (<[(e, g) := bury c]> A). split; [|by split].
    constructor; [done|by apply Wx, I|done|done|done| |].
    + intros e' g' He' Hg'. destruct (decide ((e', g') = (e, g))) as [[= -> ->]|Hne].
      * rewrite lookup_insert_eq. exists (tombstone_of v). split; [by apply Hlk|]. split; [|done].
        destruct Hr as (H1 & H2 & _). by repeat split.
      * rewrite lookup_insert_ne by done. pose proof (R1 e' g' He' Hg') as Hm.
        rewrite lookup_insert_ne in Hm by done.
        eapply shows_other; [exact I|done..|by apply Hoth|exact Hm].
    + intros e' g'. rewrite lookup_insert. case_decide as Hd; [|apply I]. by injection Hd as <- <-.
  - (* nothing to delete *)
    unfold Delete, Delete_prepare, enter, bindM, get, ret, raise in HD.
    rewrite (is_open _ _ I), Hs in HD. rewrite bool_decide_true in HD by done. injection HD as <- <-.
    by exists A.
Qed.

Lemma Read_serves req s A s' r :
  key_config cfg encKey keyID -> is_u64 (rr_ExtentID req) -> is_u64 (rr_Generation req) ->
  in_service s A -> Read cfg req s = (s', r) -> serves (CallRead req) A s' r.
Proof.
  intros Hk He Hg I HR. exists A.
  destruct (cachedLookup_ok s _ _ He Hg (is_cache _ _ I) (is_coherent _ _ I)) as (ca & E & Wc & Hc).
  assert (forall sc ev, in_service (set_segCache sc (set_locCache ca s)) A /\
            in_service (add_event ev (set_segCache sc (set_locCache ca s))) A) as Hkeep.
  { intros sc ev. split; (eapply in_service_volatile; [exact I|by repeat split|done..|apply I]). }
  assert (in_service (set_locCache ca s) A) as Hkeep0
    by (eapply in_service_volatile; [exact I|by repeat split|done..|apply I]).
  unfold Read, enter in HR. rewrite (bindM_ok _ _ s s tt) in HR by (stepM; by rewrite (is_open _ _ I)).
  pose proof (is_shows _ _ I _ _ He Hg) as Hs. cbn [call_spec]. unfold read_spec.
  destruct (A !! _) as [c|] eqn:HA; cbn [shows] in Hs.
  2:{ rewrite Hs in E. unfold bindM at 1 in HR. rewrite E in HR. injection HR as <- <-.
      split; [done|]. split; [done|]. intros x [= <-]. constructor. by rewrite HA. }
  destruct Hs as (v & Hv & (Hlen & Hsum & Hst) & Ha). rewrite Hv in E.
  rewrite (bindM_ok _ _ _ _ _ E) in HR. rewrite Hst in HR.
  destruct c as [d|n h]; cbn [cell_state] in HR; [|injection HR as <- <-; split; [done|]; split; [done|]; intros x [= <-]; constructor; by rewrite HA].
  change (ExtentDurable =? ExtentTombstoned) with false in HR.
  change (ExtentDurable =? ExtentCorrupt) with false in HR.
  cbv iota in HR. rewrite bindM_get in HR. cbn [set_locCache s_dir s_segCache] in HR.
  destruct (SegCache_Get _ _ _) as [[n|x] sc]; rewrite bindM_modify in HR; cbn [cell_len cell_sum] in *.
  2:{ injection HR as <- <-. split; [apply Hkeep, (EventCorrupt 0 0 0)|]. split; [done|].
      intros y [= <-]. constructor. }
  change (if 0 <? rr_Length req then _ else _) with (read_frames_at cfg (s_dir s) n v req) in HR.
  destruct (decide (rr_Length req <= 0 \/ 0 <= rr_LogicalOffset req < bytelen d)) as [Hr|Hr].
  - rewrite (stored_frames cfg encKey keyID (s_dir s) n v d req Hk (Ha d eq_refl) Hr) in HR.
    injection HR as <- <-. split; [apply Hkeep, (EventCorrupt 0 0 0)|]. split; [|done]. split; [done|].
    exists d. by rewrite Hsum.
  - assert (read_frames_at cfg (s_dir s) n v req = Err ErrInvalidRange) as Hx.
    { unfold read_frames_at. rewrite (proj2 (Z.ltb_lt _ _)) by lia. unfold ReadRangeFrames.
      rewrite Hlen. destruct (_ || _) eqn:Hb; [done|]. lia. }
    rewrite Hx in HR. cbn in HR. injection HR as <- <-.
    split; [apply Hkeep, (EventCorrupt 0 0 0)|]. split; [done|]. intros x [= <-].
    econstructor; [exact HA|lia|tauto].
Qed.

(** *** Enumeration *)

Lemma shown s A e g v :
  in_service s A -> is_u64 e -> is_u64 g -> lookup_value s e g = Ok v ->
  exists c, A !! (e, g) = Some c /\ reports v c.
Proof.
  intros I He Hg Hv. pose proof (is_shows _ _ I e g He Hg) as Hs.
  destruct (A !! (e, g)) as [c|]; cbn [shows] in Hs; [|congruence].
  destruct Hs as (w & Hw & Hr & _). rewrite Hv in Hw. apply Ok_inj in Hw as <-. by exists c.
Qed.

(** The merged map holds the newest generation of each extent, with the
    value a lookup of it gives. *)
Lemma merged_newest s A :
  in_service s A ->
  exists m, ListExtents s = (s, Ok (filter (fun kv => v_State (le_Value kv.2) <> ExtentTombstoned) m)) /\
    (forall e x, m !! e = Some x -> le_ExtentID x = e /\ is_u64 e /\ is_u64 (le_Generation x) /\
       newest A e (le_Generation x) /\ lookup_value s e (le_Generation x) = Ok (le_Value x)) /\
    (forall e g, is_Some (A !! (e, g)) -> is_Some (m !! e)).
Proof.
  intros I. pose proof (in_service_overlay _ _ I) as Wo.
  set (top e g := Overlay_Get (s_overlay s) (Key e g)).
  set (low e g := match Index_Get (s_index s) e g with Ok v => Some v | Err _ => None end).
  set (l1 := overlay_extent <$> map_to_list (Overlay_Snapshot (s_overlay s))).
  destruct (Iterate_merge (s_index s) (fold_left merge_extent l1 ∅) (is_index _ _ I)) as (ls & Hit & Hls & Hcov).
  pose proof (fun x => Overlay_extents (s_overlay s) x Wo) as Htop. fold l1 in Htop.
  assert (forall x, x ∈ entry_extent <$> ls -> (is_u64 (le_ExtentID x) /\ is_u64 (le_Generation x)) /\
    low (le_ExtentID x) (le_Generation x) = Some (le_Value x)) as Hlow.
  { intros x (t & -> & Ht)%list_elem_of_fmap. destruct (Hls t Ht) as ((He & Hg & _) & Hix). split; [done|].
    unfold low. cbn [entry_extent le_ExtentID le_Generation le_Value]. by rewrite Hix. }
  assert (forall x, is_u64 (le_ExtentID x) /\ is_u64 (le_Generation x) ->
    low (le_ExtentID x) (le_Generation x) = Some (le_Value x) ->
    exists y, y ∈ entry_extent <$> ls /\ le_ExtentID y = le_ExtentID x /\ le_Generation x <= le_Generation y) as Hcv.
  { intros x [He Hg] Hx. unfold low in Hx. destruct (Index_Get _ _ _) as [v|] eqn:Hix; [|done].
    destruct (Hcov _ _ _ He Hg Hix) as (t & Ht & Hid & Hle). exists (entry_extent t).
    split; [by apply list_elem_of_fmap_2|done]. }
  eexists. split; [|split].
  - unfold ListExtents, enter. rewrite (bindM_ok _ _ s s tt) by (stepM; by rewrite (is_open _ _ I)).
    stepM. rewrite overlay_fold by done. fold l1. rewrite Hit. by stepM.
  - intros e x Hx.
    destruct (layers_merged (fun e g => is_u64 e /\ is_u64 g) top low l1 _ Htop Hlow Hcv e x Hx)
      as (He & [Ue Ug] & Hv & Hmax). rewrite He in Ue, Hv.
    assert (lookup_value s e (le_Generation x) = Ok (le_Value x)) as Hlk.
    { unfold lookup_value. fold (top e (le_Generation x)). destruct Hv as [Hv|[Hn Hv]]; [by rewrite Hv|].
      rewrite Hn. unfold low in Hv. destruct (Index_Get _ _ _); by simplify_eq. }
    do 3 (split; [done|]). split; [|done]. destruct (shown _ _ _ _ _ I Ue Ug Hlk) as (c & Hc & _).
    split; [by exists c|]. intros g' [c' Hc']. destruct (is_keys _ _ I e g') as [_ Ug']; [by exists c'|].
    pose proof (is_shows _ _ I e g' Ue Ug') as Hs. rewrite Hc' in Hs. destruct Hs as (v' & Hv' & _).
    apply (Hmax (mkLiveExtent e g' v')); [done|done|]. cbn [le_ExtentID le_Generation le_Value].
    unfold lookup_value in Hv'. fold (top e g') in Hv'. destruct (top e g') as [w|]; [left; congruence|right].
    unfold low. by rewrite Hv'.
  - intros e g [c Hc]. destruct (is_keys _ _ I e g) as [Ue Ug]; [by exists c|].
    pose proof (is_shows _ _ I e g Ue Ug) as Hs. rewrite Hc in Hs. destruct Hs as (v & Hv & _).
    apply (layers_cover (fun e g => is_u64 e /\ is_u64 g) top low l1 _ Htop Hcv (mkLiveExtent e g v)); [done|].
    cbn [le_ExtentID le_Generation le_Value].
    unfold lookup_value in Hv. fold (top e g) in Hv. destruct (top e g) as [w|]; [left; congruence|right].
    unfold low. by rewrite Hv.
Qed.
Lemma List_serves s A s' r :
  in_service s A -> ListExtents s = (s', r) ->
  serves CallList A s' (let! m := r in Ok (snd <$> map_to_list m)).
Proof.
  intros I HL. destruct (merged_newest s A I) as (m & E & Hm & Hcov). rewrite HL in E. injection E as -> ->.
  rewrite bind_Ok. set (fm := filter _ m). exists A. split; [done|]. split; [|done]. split; [done|].
  assert (forall e x, fm !! e = Some x -> m !! e = Some x /\ v_State (le_Value x) <> ExtentTombstoned) as Hf
    by (intros e x Hx; by apply map_lookup_filter_Some in Hx).
  assert (forall e x c, m !! e = Some x -> A !! (e, le_Generation x) = Some c -> reports (le_Value x) c) as Hr.
  { intros e x c Hx Hc. destruct (Hm e x Hx) as (_ & Ue & Ug & _ & Hlk).
    destruct (shown _ _ _ _ _ I Ue Ug Hlk) as (c' & Hc' & Hrep). congruence. }
  split; [|split].
  - assert (le_ExtentID <$> (snd <$> map_to_list fm) = fst <$> map_to_list fm) as ->.
    { rewrite <- list_fmap_compose. apply list_fmap_ext. intros i [e x] Hx. cbn.
      apply list_elem_of_lookup_2, elem_of_map_to_list, Hf in Hx as [Hx _]. by apply Hm in Hx as [-> _]. }
    apply NoDup_fst_map_to_list.
  - intros x ([e y] & -> & Hy%elem_of_map_to_list)%list_elem_of_fmap. apply Hf in Hy as [Hy Hst]. cbn [snd].
    destruct (Hm e y Hy) as (-> & _ & _ & Hn & _). pose proof Hn as [[c Hc] _].
    pose proof (Hr e y c Hy Hc) as Hrep. destruct c as [d|n h]; [by exists d|].
    by destruct Hrep as (_ & _ & Hd).
  - intros e g d Hn Hc. destruct (Hcov e g) as [x Hx]; [by exists (Live d)|].
    destruct (Hm e x Hx) as (He & _ & _ & Hn' & _).
    assert (le_Generation x = g) as Hg by (destruct Hn as [H1 H2], Hn' as [H3 H4]; specialize (H2 _ H3);
      specialize (H4 _ H1); lia).
    exists x. split; [|done]. apply list_elem_of_fmap. exists (e, x). split; [done|].
    apply elem_of_map_to_list, map_lookup_filter_Some. split; [done|]. cbn.
    rewrite <- Hg in Hc. destruct (Hr e x _ Hx Hc) as (_ & _ & ->). done.
Qed.

(** What a call needs of its arguments and of the active segment. *)
Definition admissible (ev : env) (s : Store DB) (c : store_call) : Prop :=
  match c with
  | CallWrite req => put_request req /\ forall pw, build_put cfg ev req = Ok pw -> room_for s pw
  | CallRead req => is_u64 (rr_ExtentID req) /\ is_u64 (rr_Generation req)
  | CallDelete e g => (is_u64 e /\ is_u64 g) /\
      forall v, lookup_value s e g = Ok v -> room_for s (delete_pending e g v)
  | CallStat e g => is_u64 e /\ is_u64 g
  | CallList => True
  end.

(** C3: the segment store is a store as a data node expects it. Let it be in
    service for a map of cells and make any call of the interface during
    which nothing fails and for which the active segment has room: the call
    answers from the map and changes the map as the interface promises (a new
    generation is stored, a taken one is a retry or refused, a deletion
    leaves a tombstone, an enumeration gives each extent's newest generation
    once when it is live), it errs for one of the listed reasons only, and the
    store is in service afterwards for the changed map. *)
Theorem segment_store_keeps_promises (b : segment_backend) A c b' r :
  key_config cfg encKey keyID -> quiet (sb_env b (sb_calls b)) ->
  nonces_ok (ev_nonce (sb_env b (sb_calls b))) -> in_service (sb_store b) A ->
  admissible (sb_env b (sb_calls b)) (sb_store b) c ->
  perform (H := segment_store cfg) c b = (b', r) -> serves c A (sb_store b') r.
Proof.
  intros Hk Hq Hn I Ha. destruct c as [req|req|e g|e g|]; cbn; unfold segment_list, sb_run;
    match goal with |- context [let (_, _) := ?f in _] => destruct f as [s' r'] eqn:E end;
    intros [= <- <-]; cbn [sb_store].
  - by eapply Write_serves; try apply Ha.
  - by eapply Read_serves; try apply Ha.
  - by eapply Delete_serves; try apply Ha.
  - by eapply Stat_serves; try apply Ha.
  - destruct (ListExtents (sb_store b)) as [s1 r1] eqn:E1. injection E as <- <-. by eapply List_serves.
Qed.
End Service.

(** ** A store in service: the one opened on an empty disk *)

Lemma store0_in_service : in_service cfg0 None 0 store0 ∅.
Proof.
  destruct store0_ok as (_ & _ & R & Hc & Hl). constructor.
  - exact inv0.
  - assert (s_index store0 = (∅ : mem)) as -> by (vm_compute; reflexivity).
    intros k raw Hk. change (kv_get (∅ : mem) k) with ((∅ : mem) !! k) in Hk. by rewrite lookup_empty in Hk.
  - rewrite Hl. apply NewLocationCache_wf.
  - intros e g v _ _. by rewrite Hl.
  - exact Hc.
  - intros e g He Hg. pose proof (R e g He Hg) as Hm. rewrite lookup_empty. exact Hm.
  - intros e g [c Hx]. by rewrite lookup_empty in Hx.
Qed.

Definition backend0 : segment_backend := mkSegmentBackend store0 (fun _ => ev0) 0.

(** The write of [Scenario], as a call of the interface. *)
Lemma segment_store_keeps_promises_witness :
  serves cfg0 None 0 (CallWrite req0) ∅ (sb_store (ss_Write (StorageStore := segment_store cfg0) req0 backend0).1)
    (ss_Write (StorageStore := segment_store cfg0) req0 backend0).2.
Proof.
  apply (segment_store_keeps_promises cfg0 None 0 backend0 ∅ (CallWrite req0) _ _ key0 quiet0 nonces0
    store0_in_service (conj put0 room0)).
  apply surjective_pairing.
Defined.
