(* ===== verification/DataNode.v ===== *)
(** * The chunk store of a data node

    Models [nufs-core/datanode/server_v2.go], [server_v2_capacity.go] and
    [storage/maintenance/capacity.go]: the [V2Store], which maps chunks to
    extents of one or more local stores. It keeps, per chunk, the disk, the
    generation and whether the extent is in the small-file stream; chooses
    disks by used bytes, health and free space; moves chunks between disks;
    and rebuilds its location map when it starts.

    The stores are an instance of [StorageStore] (which enumerates, as every
    segment store does), so a call on a disk may
    fail in any way the interface allows. Byte and extent counters are
    integers without a bound: a node does not hold [2^63] bytes. The write
    barrier ([drainMu]) and the location lock ([mu]) make each call one
    step; the calls of [rebalanceOne] on either side of its unlocked copy
    are separate definitions. *)

From stdpp Require Import base list numbers strings gmap.
From Stdlib Require Import ZArith Lia.
From S2P Require Import Prelude StorageTypes Index Store StoreInterface.

Local Open Scope Z_scope.
Local Open Scope go_scope.

(** ** Capacity guard *)

(** A hook is [None] when it is not set, else what it returns during the
    call at hand. *)
Record CapacityGuard := mkCapacityGuard {
  g_CompactionReservePct : float64; g_MetadataReservePct : float64;
  g_RejectWritesFreePct : float64; g_ForceReadOnlyFreePct : float64; g_WarnFreePct : float64;
  g_FreeBytes : option Z; g_TotalBytes : option Z;
  g_WriteRate : option float64; g_ReclaimRate : option float64
}.

Definition NewCapacityGuard : CapacityGuard :=
  mkCapacityGuard (f64 10) (f64 5) (f64 10) (f64 5) (f64 15) None None None None.

Definition FreePct (g : CapacityGuard) : float64 :=
  match g_FreeBytes g, g_TotalBytes g with
  | Some free, Some total =>
      if total <=? 0 then f64 100 else f64_mul (f64_div (f64 free) (f64 total)) (f64 100)
  | _, _ => f64 100
  end.

(** [int64(x)] of a float64: towards zero. *)
Definition f64_to_int (x : float64) : Z :=
  match x with
  | SpecFloat.S754_finite s m e =>
      let a := if e <? 0 then Z.pos m / 2 ^ (- e) else Z.pos m * 2 ^ e in if s then - a else a
  | _ => 0
  end.

Definition ReclaimableBytes (g : CapacityGuard) : Z :=
  match g_FreeBytes g, g_TotalBytes g with
  | Some free, Some total =>
      let reserve := f64_to_int (f64_div (f64_mul (f64 total) (g_CompactionReservePct g)) (f64 100)) in
      if reserve <? free then free - reserve else 0
  | _, _ => 0
  end.

Definition AdmitWrite (g : CapacityGuard) (sizeBytes : Z) : go unit :=
  let freePct := FreePct g in
  refuse f64_ltb freePct (g_ForceReadOnlyFreePct g) with ErrCapacity in
  refuse f64_ltb freePct (g_RejectWritesFreePct g) with ErrCapacity in
  match g_WriteRate g, g_ReclaimRate g with
  | Some wr, Some rr =>
      if f64_ltb freePct (g_WarnFreePct g) && f64_ltb (f64 0) wr && f64_leb (f64 0) rr then
        let timeToFull := f64_div (f64 (default 0 (g_FreeBytes g))) wr in
        let timeToReclaim :=
          if f64_ltb (f64 0) rr then f64_div (f64 (ReclaimableBytes g)) rr else f64 0 in
        refuse f64_ltb timeToFull timeToReclaim with ErrCapacity in
        Ok tt
      else Ok tt
  | _, _ => Ok tt
  end.

(** [capacityForDisk]; [fs] is what Statfs says of the directory now,
    capacity and available bytes. *)
Definition capacityForDisk (dir : string) (fs : Z * Z) : option CapacityGuard :=
  if bool_decide (dir = ""%string) then None
  else Some (mkCapacityGuard (f64 10) (f64 5) (f64 10) (f64 5) (f64 15) (Some fs.2) (Some fs.1) None None).

(** ** State *)

Record diskBackend (B : Type) := mkBackend {
  db_store : B; db_index : Z; db_dir : string;
  db_usedByts : Z; db_extCount : Z; db_readByts : Z; db_writeByts : Z;
  db_writeOps : Z; db_writeErr : Z; db_failCount : Z
}.
Arguments mkBackend {B}.
Arguments db_store {B}.
Arguments db_index {B}.
Arguments db_dir {B}.
Arguments db_usedByts {B}.
Arguments db_extCount {B}.
Arguments db_readByts {B}.
Arguments db_writeByts {B}.
Arguments db_writeOps {B}.
Arguments db_writeErr {B}.
Arguments db_failCount {B}.

Record chunkLoc := mkLoc { cl_disk : Z; cl_gen : Z; cl_small : bool }.

(** The three streams of a disk. *)
Inductive stream_kind := KData | KShard | KSmall.

#[export] Instance stream_kind_eq_dec : EqDecision stream_kind.
Proof. solve_decision. Defined.

Record V2Store (B : Type) := mkV2 {
  v_disks : list (diskBackend B); v_shards : list (diskBackend B); v_small : list (diskBackend B);
  v_caps : list (option CapacityGuard);
  v_locOf : gmap Z chunkLoc; v_shardDiskOf : gmap Z (gmap Z Z);
  v_stateVersion : Z
}.
Arguments mkV2 {B}.
Arguments v_disks {B}.
Arguments v_shards {B}.
Arguments v_small {B}.
Arguments v_caps {B}.
Arguments v_locOf {B}.
Arguments v_shardDiskOf {B}.
Arguments v_stateVersion {B}.

Section Node.
Context {B : Type} `{SS : StorageStore B}.

Abbreviation V := (V2Store B).
Abbreviation backend := (diskBackend B).

Definition set_store (b : B) (d : backend) : backend :=
  mkBackend b (db_index d) (db_dir d) (db_usedByts d) (db_extCount d) (db_readByts d)
    (db_writeByts d) (db_writeOps d) (db_writeErr d) (db_failCount d).
Definition add_used (n : Z) (d : backend) : backend :=
  mkBackend (db_store d) (db_index d) (db_dir d) (db_usedByts d + n) (db_extCount d) (db_readByts d)
    (db_writeByts d) (db_writeOps d) (db_writeErr d) (db_failCount d).
Definition add_extents (n : Z) (d : backend) : backend :=
  mkBackend (db_store d) (db_index d) (db_dir d) (db_usedByts d) (db_extCount d + n) (db_readByts d)
    (db_writeByts d) (db_writeOps d) (db_writeErr d) (db_failCount d).
Definition add_read (n : Z) (d : backend) : backend :=
  mkBackend (db_store d) (db_index d) (db_dir d) (db_usedByts d) (db_extCount d) (db_readByts d + n)
    (db_writeByts d) (db_writeOps d) (db_writeErr d) (db_failCount d).
Definition add_written (n : Z) (d : backend) : backend :=
  mkBackend (db_store d) (db_index d) (db_dir d) (db_usedByts d) (db_extCount d) (db_readByts d)
    (db_writeByts d + n) (db_writeOps d) (db_writeErr d) (db_failCount d).
Definition count_op (d : backend) : backend :=
  mkBackend (db_store d) (db_index d) (db_dir d) (db_usedByts d) (db_extCount d) (db_readByts d)
    (db_writeByts d) (db_writeOps d + 1) (db_writeErr d) (db_failCount d).
Definition count_failure (d : backend) : backend :=
  mkBackend (db_store d) (db_index d) (db_dir d) (db_usedByts d) (db_extCount d) (db_readByts d)
    (db_writeByts d) (db_writeOps d) (db_writeErr d + 1) (db_failCount d + 1).
Definition set_fail (n : Z) (d : backend) : backend :=
  mkBackend (db_store d) (db_index d) (db_dir d) (db_usedByts d) (db_extCount d) (db_readByts d)
    (db_writeByts d) (db_writeOps d) (db_writeErr d) n.

Definition stream (k : stream_kind) (v : V) : list backend :=
  match k with KData => v_disks v | KShard => v_shards v | KSmall => v_small v end.

Definition set_stream (k : stream_kind) (l : list backend) (v : V) : V :=
  match k with
  | KData => mkV2 l (v_shards v) (v_small v) (v_caps v) (v_locOf v) (v_shardDiskOf v) (v_stateVersion v)
  | KShard => mkV2 (v_disks v) l (v_small v) (v_caps v) (v_locOf v) (v_shardDiskOf v) (v_stateVersion v)
  | KSmall => mkV2 (v_disks v) (v_shards v) l (v_caps v) (v_locOf v) (v_shardDiskOf v) (v_stateVersion v)
  end.

Definition set_locOf (m : gmap Z chunkLoc) (v : V) : V :=
  mkV2 (v_disks v) (v_shards v) (v_small v) (v_caps v) m (v_shardDiskOf v) (v_stateVersion v).
Definition set_shardDiskOf (m : gmap Z (gmap Z Z)) (v : V) : V :=
  mkV2 (v_disks v) (v_shards v) (v_small v) (v_caps v) (v_locOf v) m (v_stateVersion v).
Definition bump_version (v : V) : V :=
  mkV2 (v_disks v) (v_shards v) (v_small v) (v_caps v) (v_locOf v) (v_shardDiskOf v)
    (u64 (v_stateVersion v + 1)).

(** *** The effect monad *)

Definition N (A : Type) : Type := V -> V * go A.
Definition retN {A} (a : A) : N A := fun v => (v, Ok a).
Definition raiseN {A} (e : err) : N A := fun v => (v, Err e).
Definition bindN {A C} (c : N A) (k : A -> N C) : N C :=
  fun v => match c v with
           | (v, Ok a) => k a v
           | (v, Err e) => (v, Err e)
           end.
Definition getN : N V := fun v => (v, Ok v).
Definition modifyN (f : V -> V) : N unit := fun v => (f v, Ok tt).
Definition liftN {A} (r : go A) : N A := fun v => (v, r).
(** The outcome of [c] as a value, its error handled by the caller. *)
Definition tryN {A} (c : N A) : N (go A) := fun v => let (v, r) := c v in (v, Ok r).

(** Indexing a slice; Go panics outside it. *)
Definition at_index {A} (l : list A) (i : Z) : option A :=
  if i <? 0 then None else l !! Z.to_nat i.
Definition index_go {A} (l : list A) (i : Z) : go A :=
  match at_index l i with Some x => Ok x | None => Err (GoPanic "index out of range") end.

(** A call of store [i] of stream [k], and an update of its counters. *)
Definition call_store {A} (k : stream_kind) (i : Z) (f : B -> B * go A) : N A :=
  fun v => match at_index (stream k v) i with
           | None => (v, Err (GoPanic "index out of range"))
           | Some d => let (b, r) := f (db_store d) in
                       (set_stream k (<[Z.to_nat i := set_store b d]> (stream k v)) v, r)
           end.
Definition on_backend (k : stream_kind) (i : Z) (f : backend -> backend) : N unit :=
  fun v => match at_index (stream k v) i with
           | None => (v, Err (GoPanic "index out of range"))
           | Some d => (set_stream k (<[Z.to_nat i := f d]> (stream k v)) v, Ok tt)
           end.
End Node.

Notation "'node!' x ':=' c 'in' k" := (bindN c (fun x => k))
  (at level 10, x pattern, c at level 100, k at level 200,
   format "'[v' 'node!'  x  ':='  c  'in' '/' k ']'") : go_scope.

Section Ops.
Context {B : Type} `{SS : StorageStore B}.

Abbreviation V := (V2Store B).

(** ** Disk health *)

Inductive DiskState := DiskOnline | DiskDegraded | DiskFailed.

Definition diskHealthFailedThreshold : Z := 5.

Definition backend_state (b : diskBackend B) : DiskState :=
  if 5 <=? db_failCount b then DiskFailed else if 1 <=? db_failCount b then DiskDegraded else DiskOnline.

Definition diskState (v : V) (i : Z) : go DiskState :=
  let! b := index_go (v_disks v) i in Ok (backend_state b).

Definition diskFailed (v : V) (i : Z) : go bool :=
  let! st := diskState v i in
  Ok match st with DiskFailed => true | _ => false end.

Definition max_int64 : Z := 2 ^ 63 - 1.

(** One scan for the smallest used bytes: [i] counts the entries passed,
    [skip] rejects an index, [best] starts at -1. *)
Fixpoint least_used (skip : Z -> go bool) (i : Z) (l : list (diskBackend B)) (best bestUsed : Z) : go Z :=
  match l with
  | [] => Ok best
  | b :: l =>
      let! sk := skip i in
      if negb sk && (db_usedByts b <? bestUsed)
      then least_used skip (i + 1) l i (db_usedByts b)
      else least_used skip (i + 1) l best bestUsed
  end.

Definition leastUsedSmall (v : V) : go Z :=
  let! best := least_used (diskFailed v) 0 (v_small v) (-1) max_int64 in
  Ok (if best <? 0 then 0 else best).

Definition leastUsedDisk (v : V) (exclude : Z) : go Z :=
  least_used (fun i => if i =? exclude then Ok true else diskFailed v i) 0 (v_disks v) (-1) max_int64.

(** ** Locations *)

Definition currentLoc (v : V) (chunkID : Z) : option chunkLoc := v_locOf v !! chunkID.

Definition nextLoc (v : V) (chunkID : Z) : go (Z * Z) :=
  match v_locOf v !! chunkID with
  | Some loc => Ok (cl_disk loc, u64 (cl_gen loc + 1))
  | None =>
      let! best := least_used (diskFailed v) 0 (v_disks v) (-1) max_int64 in
      Ok (if best <? 0 then 0 else best, 1)
  end.

Definition loc (v : V) (chunkID : Z) : chunkLoc :=
  let l := default (mkLoc 0 1 false) (v_locOf v !! chunkID) in
  if (cl_disk l <? 0) || (bytelen (v_disks v) <=? cl_disk l) then mkLoc 0 (cl_gen l) (cl_small l) else l.

(** [backendAt]: the stream and index of the backend. *)
Definition backendAt (v : V) (l : chunkLoc) : stream_kind * Z :=
  if cl_small l && (0 <? bytelen (v_small v)) && (0 <=? cl_disk l) && (cl_disk l <? bytelen (v_small v))
  then (KSmall, cl_disk l)
  else (KData, if (cl_disk l <? 0) || (bytelen (v_disks v) <=? cl_disk l) then 0 else cl_disk l).

Definition admitDiskWrite (v : V) (disk sizeBytes : Z) : go unit :=
  if (disk <? 0) || (bytelen (v_caps v) <=? disk) then Ok tt else
  match at_index (v_caps v) disk with
  | Some (Some g) => AdmitWrite g sizeBytes
  | _ => Ok tt
  end.

(** ** Writes *)

(** The counters of [writeTo] and [writeSmallTo] after the store has
    accepted the extent. *)
Definition account_write (k : stream_kind) (i chunkID gen : Z) (data : list Z) : N (B := B) unit :=
  node! _ := on_backend k i (fun d => add_written (bytelen data) (set_fail 0 d)) in
  if gen =? 1 then
    on_backend k i (fun d => add_extents 1 (add_used (bytelen data) d))
  else
    node! _ := (if 1 <? gen then
                  node! old := tryN (call_store k i (ss_Stat chunkID (gen - 1))) in
                  match old with
                  | Ok o => on_backend k i (add_used (- v_LogicalLen o))
                  | Err _ => retN tt
                  end
                else retN tt) in
    on_backend k i (add_used (bytelen data)).

(** The store call of a write, with the failure counters. *)
Definition store_write (k : stream_kind) (i chunkID gen : Z) (data : list Z) : N (B := B) unit :=
  node! _ := on_backend k i count_op in
  node! r := tryN (call_store k i (ss_Write (mkWriteRequest chunkID gen data))) in
  match r with
  | Ok _ => retN tt
  | Err e => node! _ := on_backend k i count_failure in raiseN e
  end.

Definition writeTo (chunkID disk gen : Z) (data : list Z) : N (B := B) unit :=
  node! v := getN in
  let disk := if (disk <? 0) || (bytelen (v_disks v) <=? disk) then 0 else disk in
  node! failed := liftN (diskFailed v disk) in
  if (failed : bool) then raiseN (Errorf "datanode: disk is FAILED, refusing write") else
  node! _ := liftN (admitDiskWrite v disk (bytelen data)) in
  node! _ := store_write KData disk chunkID gen data in
  node! _ := account_write KData disk chunkID gen data in
  node! _ := modifyN (fun v => set_locOf (<[chunkID := mkLoc disk gen false]> (v_locOf v)) v) in
  modifyN bump_version.

Definition writeSmallTo (chunkID i gen : Z) (data : list Z) : N (B := B) unit :=
  node! v := getN in
  if bytelen (v_small v) =? 0 then
    node! (disk, g) := liftN (nextLoc v chunkID) in writeTo chunkID disk g data
  else
  let i := if (i <? 0) || (bytelen (v_small v) <=? i) then 0 else i in
  node! failed := liftN (diskFailed v i) in
  if (failed : bool) then raiseN (Errorf "datanode: disk is FAILED, refusing small write") else
  node! _ := liftN (admitDiskWrite v i (bytelen data)) in
  node! _ := store_write KSmall i chunkID gen data in
  node! _ := account_write KSmall i chunkID gen data in
  node! _ := modifyN (fun v => set_locOf (<[chunkID := mkLoc i gen true]> (v_locOf v)) v) in
  modifyN bump_version.

(** The best-effort removal of the small extent. *)
Definition drop_small (chunkID i gen : Z) : N (B := B) unit :=
  node! old := tryN (call_store KSmall i (ss_Stat chunkID gen)) in
  node! _ := match old with
             | Ok o => on_backend KSmall i (add_used (- v_LogicalLen o))
             | Err _ => retN tt
             end in
  node! r := tryN (call_store KSmall i (ss_Delete chunkID gen)) in
  match r with
  | Ok _ => on_backend KSmall i (add_extents (-1))
  | Err _ => retN tt
  end.

Definition migrateSmallToData (chunkID : Z) (l : chunkLoc) (gen : Z) (data : list Z) : N (B := B) unit :=
  node! v := getN in
  node! (best, _) := liftN (nextLoc v chunkID) in
  node! _ := writeTo chunkID best gen data in
  node! v := getN in
  if (0 <=? cl_disk l) && (cl_disk l <? bytelen (v_small v))
  then drop_small chunkID (cl_disk l) (cl_gen l) else retN tt.

(** [Write] *)
Definition V2_Write (chunkID : Z) (data : list Z) : N (B := B) unit :=
  node! v := getN in
  match currentLoc v chunkID with
  | Some (mkLoc disk g true as l) =>
      let gen := u64 (g + 1) in
      if bytelen data <=? SmallFileThreshold then writeSmallTo chunkID disk gen data
      else migrateSmallToData chunkID l gen data
  | o =>
      if bool_decide (o = None) && (0 <? bytelen (v_small v)) && (bytelen data <=? SmallFileThreshold)
      then node! i := liftN (leastUsedSmall v) in writeSmallTo chunkID i 1 data
      else node! (disk, gen) := liftN (nextLoc v chunkID) in writeTo chunkID disk gen data
  end.

(** [V2_WriteGen] *)
Definition V2_WriteGen (chunkID generation : Z) (data : list Z) : N (B := B) unit :=
  node! v := getN in
  match currentLoc v chunkID with
  | Some (mkLoc disk _ true as l) =>
      if bytelen data <=? SmallFileThreshold then writeSmallTo chunkID disk generation data
      else migrateSmallToData chunkID l generation data
  | Some l => writeTo chunkID (cl_disk l) generation data
  | None =>
      if (0 <? bytelen (v_small v)) && (bytelen data <=? SmallFileThreshold)
      then node! i := liftN (leastUsedSmall v) in writeSmallTo chunkID i generation data
      else node! (best, _) := liftN (nextLoc v chunkID) in writeTo chunkID best generation data
  end.

(** ** Reads and deletes *)

(** [Read] *)
Definition V2_Read (chunkID offset length : Z) : N (B := B) (list Z * Z) :=
  node! v := getN in
  let l := loc v chunkID in
  let (k, i) := backendAt v l in
  node! res := call_store k i (ss_Read (mkReadRequest chunkID (cl_gen l) offset length)) in
  node! _ := on_backend k i (add_read (bytelen (rres_Data res))) in
  retN (rres_Data res, rres_Checksum res).

(** [Delete] *)
Definition V2_Delete (chunkID : Z) : N (B := B) unit :=
  node! v := getN in
  let l := loc v chunkID in
  let (k, i) := backendAt v l in
  node! ext := tryN (call_store k i (ss_Stat chunkID (cl_gen l))) in
  node! _ := match ext with
             | Ok x => on_backend k i (add_used (- v_LogicalLen x))
             | Err _ => retN tt
             end in
  node! _ := call_store k i (ss_Delete chunkID (cl_gen l)) in
  node! _ := on_backend k i (add_extents (-1)) in
  node! _ := modifyN (fun v => set_shardDiskOf (delete chunkID (v_shardDiskOf v))
                                 (set_locOf (delete chunkID (v_locOf v)) v)) in
  modifyN bump_version.

Inductive LocalChunkState := LocalSealed | LocalCorrupt.

(** [LocalChunkInfo] without the times, which are now. *)
Record LocalChunkInfo := mkLocalChunkInfo {
  ci_ChunkID : Z; ci_Size : Z; ci_Checksum : Z; ci_State : LocalChunkState; ci_DiskIndex : Z
}.

Definition info_of (chunkID : Z) (x : Value) (disk : Z) : LocalChunkInfo :=
  mkLocalChunkInfo chunkID (v_LogicalLen x) (v_Checksum x)
    (if v_State x =? ExtentCorrupt then LocalCorrupt else LocalSealed) disk.

(** [Info] *)
Definition V2_Info (chunkID : Z) : N (B := B) (option LocalChunkInfo) :=
  node! v := getN in
  let l := loc v chunkID in
  let (k, i) := backendAt v l in
  node! res := tryN (call_store k i (ss_Stat chunkID (cl_gen l))) in
  match res with
  | Err _ => retN None
  | Ok x => retN (Some (info_of chunkID x (cl_disk l)))
  end.

(** [int32(n)] *)
Definition to_int32 (n : Z) : Z := let y := u32 n in if y <? 2 ^ 31 then y else y - 2 ^ 32.

(** [VerifyChunkData] *)
Definition VerifyChunkData (chunkID : Z) : N (B := B) (bool * Z) :=
  node! info := V2_Info chunkID in
  match info with
  | None => raiseN (Errorf "chunk not found locally")
  | Some info =>
      node! (data, _) := V2_Read chunkID 0 (to_int32 (ci_Size info)) in
      let got := checksumOf data in
      retN (got =? ci_Checksum info, got)
  end.
End Ops.

(** ** Moves between disks *)

Section Moves.
Context {B : Type} `{SS : StorageStore B}.

Abbreviation V := (V2Store B).

(** [rebalanceOne] up to the write on the target: what it checked and
    copied. It holds no lock while it copies. *)
Definition rebalance_copy (chunkID fromDisk toDisk : Z) : N (B := B) (Z * list Z) :=
  if fromDisk =? toDisk then raiseN (Errorf "rebalance: fromDisk == toDisk") else
  node! v := getN in
  if (toDisk <? 0) || (bytelen (v_disks v) <=? toDisk) || (fromDisk <? 0) || (bytelen (v_disks v) <=? fromDisk)
  then raiseN (Errorf "rebalance: disk index out of range") else
  node! dst := liftN (index_go (v_disks v) toDisk) in
  if 5 <=? db_failCount dst then raiseN (Errorf "rebalance: target disk is failed") else
  match v_locOf v !! chunkID with
  | None => raiseN (Wrapf "chunk" ErrExtentNotFound)
  | Some l =>
      if negb (cl_disk l =? fromDisk) then raiseN (Errorf "rebalance: chunk lives on another disk") else
      node! res := call_store KData fromDisk (ss_Read (mkReadRequest chunkID (cl_gen l) 0 0)) in
      node! _ := store_write KData toDisk chunkID (cl_gen l) (rres_Data res) in
      node! _ := on_backend KData toDisk (fun d => add_written (bytelen (rres_Data res)) (set_fail 0 d)) in
      retN (cl_gen l, rres_Data res)
  end.

(** [rebalanceOne] from the compare-and-swap on. *)
Definition rebalance_commit (chunkID fromDisk toDisk gen : Z) (data : list Z) (removeSource : bool) :
  N (B := B) unit :=
  node! v := getN in
  match v_locOf v !! chunkID with
  | Some cur =>
      if negb (cl_disk cur =? fromDisk) || negb (cl_gen cur =? gen)
      then raiseN (Errorf "rebalance: chunk moved concurrently during rebalance") else
      node! _ := modifyN (set_locOf (<[chunkID := mkLoc toDisk gen false]> (v_locOf v))) in
      node! _ := (if removeSource
                  then node! _ := tryN (call_store KData fromDisk (ss_Delete chunkID gen)) in retN tt
                  else retN tt) in
      node! _ := on_backend KData fromDisk (fun d => add_extents (-1) (add_used (- bytelen data) d)) in
      node! _ := on_backend KData toDisk (fun d => add_extents 1 (add_used (bytelen data) d)) in
      modifyN bump_version
  | None => raiseN (Errorf "rebalance: chunk moved concurrently during rebalance")
  end.

Definition rebalanceOne (chunkID fromDisk toDisk : Z) (removeSource : bool) : N (B := B) unit :=
  node! (gen, data) := rebalance_copy chunkID fromDisk toDisk in
  rebalance_commit chunkID fromDisk toDisk gen data removeSource.

Definition RebalanceOne (chunkID fromDisk toDisk : Z) : N (B := B) unit :=
  rebalanceOne chunkID fromDisk toDisk false.

(** The fullest healthy disk whose distance to the target exceeds the
    threshold. *)
Fixpoint fullest (dst dstUsed i : Z) (l : list (diskBackend B)) (bestSrc bestGap : Z) : Z :=
  match l with
  | [] => bestSrc
  | b :: l =>
      let gap := db_usedByts b - dstUsed in
      if negb ((i =? dst) || (5 <=? db_failCount b)) && (bestGap <? gap)
      then fullest dst dstUsed (i + 1) l i gap else fullest dst dstUsed (i + 1) l bestSrc bestGap
  end.

(** The largest extent below the gap. *)
Fixpoint largest_fitting (excluded : gset Z) (gap : Z) (l : list LiveExtent) (best : option Z) (bestLen : Z) :
  option Z :=
  match l with
  | [] => best
  | e :: l =>
      let n := v_LogicalLen (le_Value e) in
      if negb ((le_Generation e =? 0) || bool_decide (le_ExtentID e ∈ excluded))
         && (n <? gap) && (bestLen <? n)
      then largest_fitting excluded gap l (Some (le_ExtentID e)) n
      else largest_fitting excluded gap l best bestLen
  end.

Definition pickRebalanceChunk (thresholdBytes : Z) (excluded : gset Z) : N (B := B) (option (Z * Z)) :=
  node! v := getN in
  node! dst := liftN (leastUsedDisk v (-1)) in
  if dst <? 0 then retN None else
  node! d := liftN (index_go (v_disks v) dst) in
  let dstUsed := db_usedByts d in
  let bestSrc := fullest dst dstUsed 0 (v_disks v) (-1) thresholdBytes in
  if bestSrc <? 0 then retN None else
  node! s := liftN (index_go (v_disks v) bestSrc) in
  let srcUsed := db_usedByts s in
  node! r := tryN (call_store KData bestSrc ss_ListExtents) in
  let best := match r with
              | Ok extents => largest_fitting excluded (srcUsed - dstUsed) extents None (-1)
              | Err _ => None
              end in
  retN (c ← best; Some (bestSrc, c)).

(** The number of extents on all disks; a disk that cannot be listed counts
    none. *)
Fixpoint count_extents (n : nat) (i : Z) : N (B := B) nat :=
  match n with
  | O => retN O
  | S n =>
      node! r := tryN (call_store KData i ss_ListExtents) in
      node! rest := count_extents n (i + 1) in
      retN (match r with Ok l => length l | Err _ => O end + rest)%nat
  end.

Fixpoint rebalance_loop (fuel : nat) (thresholdBytes : Z) (excluded : gset Z) (moved : Z) : N (B := B) Z :=
  match fuel with
  | O => retN moved
  | S fuel =>
      node! p := pickRebalanceChunk thresholdBytes excluded in
      match p with
      | None => retN moved
      | Some (src, chunkID) =>
          node! v := getN in
          node! dst := liftN (leastUsedDisk v (-1)) in
          node! r := tryN (RebalanceOne chunkID src dst) in
          match r with
          | Ok _ => rebalance_loop fuel thresholdBytes excluded (moved + 1)
          | Err _ => rebalance_loop fuel thresholdBytes ({[chunkID]} ∪ excluded) moved
          end
      end
  end.

Definition RebalanceBalanced (thresholdBytes : Z) : N (B := B) Z :=
  node! v := getN in
  node! cap := count_extents (length (v_disks v)) 0 in
  rebalance_loop (match cap with O => 64%nat | _ => cap end) thresholdBytes ∅ 0.

Fixpoint migrate_all (srcIdx : Z) (ids : list Z) (migrated : Z) : N (B := B) Z :=
  match ids with
  | [] => retN migrated
  | id :: ids =>
      node! v := getN in
      node! dst := liftN (leastUsedDisk v srcIdx) in
      if dst <? 0 then retN migrated else
      node! r := tryN (rebalanceOne id srcIdx dst true) in
      migrate_all srcIdx ids (match r with Ok _ => migrated + 1 | Err _ => migrated end)
  end.

Definition MigrateDisk (srcIdx : Z) : N (B := B) Z :=
  node! v := getN in
  if (srcIdx <? 0) || (bytelen (v_disks v) <=? srcIdx)
  then raiseN (Errorf "migrate disk: index out of range") else
  if bytelen (v_disks v) <=? 1 then raiseN (Errorf "migrate disk: cannot migrate the only disk") else
  node! extents := call_store KData srcIdx ss_ListExtents in
  migrate_all srcIdx (le_ExtentID <$> filter (fun e => le_Generation e <> 0) extents) 0.

Definition RemoveDisk (idx : Z) : N (B := B) unit :=
  node! v := getN in
  if (idx <? 0) || (bytelen (v_disks v) <=? idx) then raiseN (Errorf "remove disk: index out of range") else
  if bytelen (v_disks v) <=? 1 then raiseN (Errorf "remove disk: cannot remove the only disk") else
  node! _ := on_backend KData idx (set_fail diskHealthFailedThreshold) in
  node! _ := (if idx <? bytelen (v_shards v)
              then on_backend KShard idx (set_fail diskHealthFailedThreshold) else retN tt) in
  modifyN bump_version.

(** [probeDisk] *)
Definition probeDisk (i : Z) : N (B := B) unit :=
  node! r := tryN (call_store KData i (ss_Stat 0x7fffffffffffffff 1)) in
  match r with
  | Ok _ => retN tt
  | Err e => if errors_Is e ErrExtentNotFound then retN tt
             else on_backend KData i (fun d => set_fail (db_failCount d + 1) d)
  end.

(** ** Start *)

(** [NewMultiV2Store] for one store: its backend and the locations of its
    extents, which replace earlier ones of the same chunks. *)
Definition adopt (i : Z) (small : bool) (s : B) (dir : string) (locs : gmap Z chunkLoc) :
  diskBackend B * gmap Z chunkLoc :=
  let (s, r) := ss_ListExtents s in
  let extents := match r with Ok l => l | Err _ => [] end in
  (mkBackend s i dir (foldr (fun e n => v_LogicalLen (le_Value e) + n) 0 extents) (bytelen extents)
     0 0 0 0 0,
   fold_left (fun m e => <[le_ExtentID e := mkLoc i (le_Generation e) small]> m) extents locs).

Fixpoint adopt_all (i : Z) (small : bool) (stores : list (B * string)) (locs : gmap Z chunkLoc) :
  list (diskBackend B) * gmap Z chunkLoc :=
  match stores with
  | [] => ([], locs)
  | (s, dir) :: stores =>
      let (b, locs) := adopt i small s dir locs in
      let (bs, locs) := adopt_all (i + 1) small stores locs in (b :: bs, locs)
  end.

(** [NewMultiV2Store]; [fs] is what Statfs says of each directory. *)
Definition NewMultiV2Store (stores : list (B * string)) (fs : string -> Z * Z) : V :=
  let (disks, locs) := adopt_all 0 false stores ∅ in
  mkV2 disks [] [] ((fun sd => capacityForDisk sd.2 (fs sd.2)) <$> stores) locs ∅ 0.

(** [AttachSmallStores] *)
Definition AttachSmallStores (stores : list B) (v : V) : V * go unit :=
  if (0 <? bytelen stores) && negb (bytelen stores =? bytelen (v_disks v))
  then (v, Err (Errorf "attach small stores: wrong number of stores")) else
  let (small, locs) := adopt_all 0 true ((fun s => (s, ""%string)) <$> stores) (v_locOf v) in
  (set_locOf locs (set_stream KSmall (v_small v ++ small) v), Ok tt).

(** ** Reports *)

Definition backends (v : V) : list (diskBackend B) := v_disks v ++ v_small v.

(** [Stats] *)
Definition V2_Stats (v : V) : Z * Z :=
  (foldr (fun b n => db_usedByts b + n) 0 (backends v),
   foldr (fun b n => db_extCount b + n) 0 (backends v)).

(** [ReadWriteBytes] *)
Definition ReadWriteBytes (v : V) : Z * Z :=
  (foldr (fun b n => db_readByts b + n) 0 (backends v),
   foldr (fun b n => db_writeByts b + n) 0 (backends v)).

(** [ListChunks]: the listings of all backends in order; a listing that
    fails is skipped. *)
Definition list_of (b : diskBackend B) : list LocalChunkInfo :=
  match (ss_ListExtents (db_store b)).2 with
  | Ok l => (fun e => info_of (le_ExtentID e) (le_Value e) (db_index b)) <$> l
  | Err _ => []
  end.
Definition ListChunks (v : V) : list LocalChunkInfo := backends v ≫= list_of.

(** [ChunkStateSnapshot] *)
Inductive ReplicaReport := ReportReady | ReportFailed.
Definition ChunkStateSnapshot (v : V) : gmap Z ReplicaReport :=
  fold_left (fun m i => <[ci_ChunkID i := match ci_State i with
                                          | LocalSealed => ReportReady | LocalCorrupt => ReportFailed
                                          end]> m) (ListChunks v) ∅.
End Moves.
