(* ===== verification/DataNodeProofs.v ===== *)
(** * Lemmas on the chunk store of a data node

    What each call of [DataNode] does to the cells of the stores and to the
    location map, from the laws of the store interface alone. *)

From stdpp Require Import base list numbers strings gmap.
From Stdlib Require Import ZArith Lia.
From S2P Require Import Prelude StorageTypes Index Store StoreSpec StoreInterface DataNode.

Local Open Scope Z_scope.
Local Open Scope go_scope.

Lemma at_index_Some {A} (l : list A) i x :
  at_index l i = Some x <-> 0 <= i < bytelen l /\ l !! Z.to_nat i = Some x.
Proof.
  unfold at_index. destruct (Z.ltb_spec i 0); [split; [done|lia]|].
  split; [|by intros [_ ?]]. intros H1. split; [|done]. apply lookup_lt_Some in H1. lia.
Qed.

Lemma at_index_None {A} (l : list A) i : at_index l i = None <-> ~ 0 <= i < bytelen l.
Proof.
  unfold at_index. destruct (Z.ltb_spec i 0); [split; [lia|done]|].
  rewrite lookup_ge_None. lia.
Qed.

Lemma at_index_insert {A} (l : list A) i j x :
  0 <= i < bytelen l ->
  at_index (<[Z.to_nat i := x]> l) j = if bool_decide (j = i) then Some x else at_index l j.
Proof.
  intros H. unfold at_index. destruct (Z.ltb_spec j 0).
  - rewrite bool_decide_false by lia. done.
  - case_bool_decide as Hj.
    + subst. rewrite list_lookup_insert_eq; [done|lia].
    + rewrite list_lookup_insert_ne; [done|lia].
Qed.

Section Proofs.
Context {B : Type} {view : B -> cells} `{SL : StorageLaws B view}.

Abbreviation V := (V2Store B).

Definition cell_at (v : V) (k : stream_kind) (i c g : Z) : option cell :=
  b ← at_index (stream k v) i; view (db_store b) !! (c, g).

(** Two states with the same cells and shape. *)
Record same_cells (v v' : V) : Prop := mkSame {
  sc_cells k i c g : cell_at v' k i c g = cell_at v k i c g;
  sc_locs : v_locOf v' = v_locOf v;
  sc_shape k : length (stream k v') = length (stream k v)
}.

(** One cell has been set. *)
Record set_cell (v v' : V) (k : stream_kind) (i c g : Z) (x : cell) : Prop := mkSetCell {
  st_cells k' i' c' g' : cell_at v' k' i' c' g' =
    if bool_decide (k' = k /\ i' = i /\ c' = c /\ g' = g) then Some x else cell_at v k' i' c' g';
  st_locs : v_locOf v' = v_locOf v;
  st_shape k' : length (stream k' v') = length (stream k' v)
}.

#[export] Instance same_cells_preorder : PreOrder same_cells.
Proof.
  split.
  - intros v. by constructor.
  - intros u v w [A1 A2 A3] [B1 B2 B3]. constructor; intros; [by rewrite B1|by rewrite B2|by rewrite B3].
Qed.

Lemma set_cell_same u v w k i c g x : set_cell u v k i c g x -> same_cells v w -> set_cell u w k i c g x.
Proof.
  intros [A1 A2 A3] [B1 B2 B3]. constructor; intros; [by rewrite B1, A1|by rewrite B2|by rewrite B3].
Qed.

Lemma same_set_cell u v w k i c g x : same_cells u v -> set_cell v w k i c g x -> set_cell u w k i c g x.
Proof.
  intros [A1 A2 A3] [B1 B2 B3]. constructor; intros.
  - rewrite B1. case_bool_decide; [done|apply A1].
  - by rewrite B2.
  - by rewrite B3.
Qed.

(** ** Calls on one backend *)

Lemma stream_set_stream k k' l (v : V) :
  stream k' (set_stream k l v) = if bool_decide (k' = k) then l else stream k' v.
Proof. by destruct k, k'. Qed.

Lemma set_stream_locs k l (v : V) : v_locOf (set_stream k l v) = v_locOf v.
Proof. by destruct k. Qed.

Lemma update_backend k i d d' (v : V) :
  at_index (stream k v) i = Some d ->
  let v' := set_stream k (<[Z.to_nat i := d']> (stream k v)) v in
  (forall k' i' c g, cell_at v' k' i' c g =
     if bool_decide (k' = k /\ i' = i) then view (db_store d') !! (c, g) else cell_at v k' i' c g) /\
  v_locOf v' = v_locOf v /\ (forall k', length (stream k' v') = length (stream k' v)).
Proof.
  intros Hd v'. pose proof (proj1 (at_index_Some _ _ _) Hd) as [Hr _]. split; [|split].
  - intros k' i' c g. unfold cell_at, v'. rewrite stream_set_stream. case_bool_decide as Hk.
    + subst k'. rewrite at_index_insert by done. case_bool_decide as Hi.
      * subst. by rewrite bool_decide_true.
      * rewrite bool_decide_false; [done|]. by intros [].
    + rewrite bool_decide_false; [done|]. by intros [].
  - apply set_stream_locs.
  - intros k'. unfold v'. rewrite stream_set_stream. case_bool_decide; subst; [by rewrite length_insert|done].
Qed.

Lemma on_backend_same k i f (v v' : V) r :
  (forall d, db_store (f d) = db_store d) ->
  on_backend k i f v = (v', r) ->
  same_cells v v' /\ (0 <= i < bytelen (stream k v) -> r = Ok tt).
Proof.
  intros Hf. unfold on_backend. destruct (at_index _ _) as [d|] eqn:Hd.
  - intros [= <- <-]. split; [|done]. destruct (update_backend k i d (f d) v Hd) as (H1 & H2 & H3).
    constructor; [|done|done]. intros k' i' c g. rewrite H1. case_bool_decide as Hk; [|done].
    destruct Hk as [-> ->]. unfold cell_at. by rewrite Hd, Hf.
  - intros [= <- <-]. split; [done|]. apply at_index_None in Hd. done.
Qed.

Lemma call_store_inv {A} k i (f : B -> B * go A) (v v' : V) r :
  call_store k i f v = (v', r) ->
  (~ 0 <= i < bytelen (stream k v) /\ v' = v /\ exists e, r = Err e /\ e <> ErrExtentNotFound) \/
  exists d b, at_index (stream k v) i = Some d /\ f (db_store d) = (b, r) /\
    (forall k' i' c g, cell_at v' k' i' c g =
       if bool_decide (k' = k /\ i' = i) then view b !! (c, g) else cell_at v k' i' c g) /\
    v_locOf v' = v_locOf v /\ (forall k', length (stream k' v') = length (stream k' v)).
Proof.
  unfold call_store. destruct (at_index _ _) as [d|] eqn:Hd.
  - destruct (f (db_store d)) as [b r'] eqn:E. intros [= <- <-]. right. exists d, b.
    split; [done|]. split; [done|]. apply (update_backend k i d (set_store b d) v Hd).
  - intros [= <- <-]. left. apply at_index_None in Hd. split; [done|]. split; [done|]. by eexists.
Qed.

Lemma unchanged_view {A} k i (f : B -> B * go A) (v v' : V) r :
  (forall b b' r, f b = (b', r) -> view b' = view b) ->
  call_store k i f v = (v', r) -> same_cells v v'.
Proof.
  intros Hf H. apply call_store_inv in H as [(_ & -> & _)|(d & b & Hd & E & H1 & H2 & H3)]; [reflexivity|].
  constructor; [|done|done]. intros k' i' c g. rewrite H1. case_bool_decide as Hk; [|done].
  destruct Hk as [-> ->]. unfold cell_at. by rewrite Hd, (Hf _ _ _ E).
Qed.

Lemma call_stat k i c g (v v' : V) r :
  call_store k i (ss_Stat c g) v = (v', r) ->
  same_cells v v' /\
  match r with
  | Ok x => exists y, cell_at v k i c g = Some y /\ reports x y
  | Err ErrExtentNotFound => cell_at v k i c g = None
  | Err _ => True
  end.
Proof.
  intros H. split.
  { eapply unchanged_view; [|exact H]. intros b b' r' E. by apply stat_law in E as [? _]. }
  apply call_store_inv in H as [(_ & -> & e & -> & He)|(d & b & Hd & E & _)]; [by destruct e|].
  apply stat_law in E as [_ E]. unfold cell_at. rewrite Hd. destruct r as [x|e]; [|by destruct e].
  exact E.
Qed.

Lemma call_read k i c g off n (v v' : V) r :
  call_store k i (ss_Read (mkReadRequest c g off n)) v = (v', r) ->
  same_cells v v' /\
  match r with
  | Ok res => exists d, cell_at v k i c g = Some (Live d) /\
                res = mkReadResult (window (mkReadRequest c g off n) d) (checksumOf d)
  | Err ErrExtentNotFound => forall d, cell_at v k i c g <> Some (Live d)
  | Err _ => True
  end.
Proof.
  intros H. split.
  { eapply unchanged_view; [|exact H]. intros b b' r' E. by apply read_law in E as [? _]. }
  apply call_store_inv in H as [(_ & -> & e & -> & He)|(d & b & Hd & E & _)]; [by destruct e|].
  apply read_law in E as [_ E]. unfold cell_at. rewrite Hd. destruct r as [x|e]; [|by destruct e].
  exact E.
Qed.

Lemma call_list k i (v v' : V) r :
  call_store k i ss_ListExtents v = (v', r) -> same_cells v v'.
Proof. intros H. eapply unchanged_view; [|exact H]. intros b b' r' E. by apply list_law in E as [? _]. Qed.

(** A store call that sets one cell. *)
Lemma set_view {A} k i (f : B -> B * go A) (v v' : V) r d b c g x :
  call_store k i f v = (v', r) -> at_index (stream k v) i = Some d -> f (db_store d) = (b, r) ->
  view b = <[(c, g) := x]> (view (db_store d)) -> set_cell v v' k i c g x.
Proof.
  intros H Hd E Hb. apply call_store_inv in H as [(Hr & _)|(d' & b' & Hd' & E' & H1 & H2 & H3)].
  { exfalso. apply Hr. by apply at_index_Some in Hd as [? _]. }
  rewrite Hd in Hd'. injection Hd' as <-. rewrite E in E'. injection E' as <-.
  constructor; [|done|done]. intros k' i' c' g'. rewrite H1. case_bool_decide as Hk.
  - destruct Hk as [-> ->]. rewrite Hb, lookup_insert. unfold cell_at. rewrite Hd. cbn [mbind option_bind].
    repeat case_decide || case_bool_decide; naive_solver.
  - rewrite bool_decide_false; [done|]. naive_solver.
Qed.

Lemma call_delete k i c g (v v' : V) r :
  call_store k i (ss_Delete c g) v = (v', r) ->
  same_cells v v' \/ exists x, cell_at v k i c g = Some x /\ set_cell v v' k i c g (bury x).
Proof.
  intros H. pose proof H as H0.
  apply call_store_inv in H as [(_ & -> & _)|(d & b & Hd & E & H1 & H2 & H3)]; [by left|].
  pose proof (delete_law _ _ _ _ _ E) as L. unfold delete_spec in L.
  assert (view b = view (db_store d) -> same_cells v v') as Hsame.
  { intros Hb. constructor; [|done|done]. intros k' i' c' g'. rewrite H1. case_bool_decide as Hk; [|done].
    destruct Hk as [-> ->]. unfold cell_at. by rewrite Hd, Hb. }
  destruct (view (db_store d) !! (c, g)) as [x|] eqn:Hx; [|left; by apply Hsame].
  assert (view b = view (db_store d) \/ view b = <[(c, g) := bury x]> (view (db_store d))) as [?|Hb]
    by (destruct r; auto); [left; by apply Hsame|].
  right. exists x. unfold cell_at. rewrite Hd. split; [done|]. by eapply set_view.
Qed.

(** ** The monad *)

Lemma bindN_inv {A C} (c : N (B := B) A) (k : A -> N C) v v' r :
  bindN c k v = (v', r) ->
  (exists a v1, c v = (v1, Ok a) /\ k a v1 = (v', r)) \/ (exists e, c v = (v', Err e) /\ r = Err e).
Proof.
  unfold bindN. destruct (c v) as [v1 [a|e]] eqn:E; intros H.
  - left. by exists a, v1.
  - right. injection H as <- <-. by exists e.
Qed.

Lemma tryN_inv {A} (c : N (B := B) A) v v' r :
  tryN c v = (v', r) -> exists r', r = Ok r' /\ c v = (v', r').
Proof. unfold tryN. destruct (c v) as [v1 r1]. intros [= <- <-]. by exists r1. Qed.

(** ** Writes *)

(** What a store's acceptance of an extent did. *)
Definition stored (v v' : V) (k : stream_kind) (i c g : Z) (data : list Z) : Prop :=
  0 <= i < bytelen (stream k v) /\
  ((cell_at v k i c g = None /\ set_cell v v' k i c g (Live data)) \/
   (exists x, cell_at v k i c g = Some x /\ cell_sum x = checksumOf data /\ same_cells v v')).

Lemma stored_same u v w k i c g data : stored u v k i c g data -> same_cells v w -> stored u w k i c g data.
Proof.
  intros [Hr [[Hn Hs]|(x & Hx & Hc & Hs)]] Hw; split; try done.
  - left. split; [done|]. by eapply set_cell_same.
  - right. exists x. split; [done|]. split; [done|]. by etrans.
Qed.

Lemma same_stored u v w k i c g data : same_cells u v -> stored v w k i c g data -> stored u w k i c g data.
Proof.
  intros Hu [Hr Hs]. pose proof (sc_cells _ _ Hu k i c g) as Hc. pose proof (sc_shape _ _ Hu k) as Hl.
  split; [by rewrite <- Hl|]. rewrite <- Hc. destruct Hs as [[Hn Hs]|(x & Hx & Hcs & Hs)].
  - left. split; [done|]. by eapply same_set_cell.
  - right. exists x. split; [done|]. split; [done|]. by etrans.
Qed.

Lemma call_write k i c g data (v v' : V) r :
  call_store k i (ss_Write (mkWriteRequest c g data)) v = (v', r) ->
  match r with Ok _ => stored v v' k i c g data | Err _ => same_cells v v' end.
Proof.
  intros H. pose proof H as H0.
  apply call_store_inv in H as [(_ & -> & e & -> & _)|(d & b & Hd & E & H1 & H2 & H3)]; [reflexivity|].
  pose proof (write_law _ _ _ _ E) as L. unfold write_spec in L. cbn in L.
  assert (view b = view (db_store d) -> same_cells v v') as Hsame.
  { intros Hb. constructor; [|done|done]. intros k' i' c' g'. rewrite H1. case_bool_decide as Hk; [|done].
    destruct Hk as [-> ->]. unfold cell_at. by rewrite Hd, Hb. }
  destruct r as [rc|e]; [|by apply Hsame]. split; [by apply at_index_Some in Hd as [? _]|].
  unfold cell_at. rewrite Hd. cbn [mbind option_bind]. destruct L as [[Hn Hb]|(x & Hx & Hc & Hb)].
  - left. split; [done|]. by eapply set_view.
  - right. exists x. split; [done|]. split; [done|]. by apply Hsame.
Qed.

(** Counters leave the stores alone. *)
Ltac counters := intros []; reflexivity.

Lemma store_write_spec k i c g data (v v' : V) r :
  store_write k i c g data v = (v', r) ->
  match r with Ok _ => stored v v' k i c g data | Err _ => same_cells v v' end.
Proof.
  unfold store_write. intros H.
  apply bindN_inv in H as [([] & v1 & H1 & H)|(e & H1 & ->)].
  2: { by apply on_backend_same in H1 as [? _]; [|counters]. }
  apply on_backend_same in H1 as [S1 _]; [|counters].
  apply bindN_inv in H as [(w & v2 & H2 & H)|(e & H2 & ->)].
  2: { by apply tryN_inv in H2 as (? & ? & _). }
  apply tryN_inv in H2 as (r2 & [= ->] & H2). apply call_write in H2.
  destruct r2 as [rc|e].
  - injection H as <- <-. by eapply same_stored.
  - apply bindN_inv in H as [([] & v3 & H3 & H)|(e3 & H3 & ->)];
      apply on_backend_same in H3 as [S3 _]; try counters.
    + injection H as <- <-. by do 2 (etrans; [eassumption|]).
    + by do 2 (etrans; [eassumption|]).
Qed.

Lemma account_write_spec k i c g data (v v' : V) r :
  account_write k i c g data v = (v', r) ->
  same_cells v v' /\ (0 <= i < bytelen (stream k v) -> r = Ok tt).
Proof.
  unfold account_write. intros H.
  apply bindN_inv in H as [([] & v1 & H1 & H)|(e & H1 & ->)]; apply on_backend_same in H1 as [S1 R1];
    try counters.
  2: { split; [done|]. intros Hr. by specialize (R1 Hr). }
  assert (forall (w w' : V) q, same_cells v w -> on_backend k i q w = (w', r) ->
            (forall d, db_store (q d) = db_store d) ->
            same_cells v w' /\ (0 <= i < bytelen (stream k v) -> r = Ok tt)) as Hfin.
  { intros w w' q Hw Hq Hd. apply on_backend_same in Hq as [S R]; [|done]. split; [by etrans|].
    intros Hr. apply R. by rewrite (sc_shape _ _ Hw k). }
  destruct (g =? 1); [by eapply Hfin; [|exact H|counters]|].
  apply bindN_inv in H as [([] & v2 & H2 & H)|(e & H2 & ->)].
  - assert (same_cells v v2) as S2; [|by eapply Hfin; [|exact H|counters]].
    destruct (1 <? g); [|injection H2 as <-; done].
    apply bindN_inv in H2 as [(w & v3 & H3 & H2)|(e & H3 & [=])].
    apply tryN_inv in H3 as (r3 & [= ->] & H3). apply call_stat in H3 as [S3 _].
    destruct r3 as [o|e].
    + apply on_backend_same in H2 as [S2 _]; [|counters]. by do 2 (etrans; [eassumption|]).
    + injection H2 as <-. by etrans.
  - destruct (1 <? g); [|done].
    apply bindN_inv in H2 as [(w & v3 & H3 & H2)|(e' & H3 & [= ->])].
    2: { by apply tryN_inv in H3 as (? & ? & _). }
    apply tryN_inv in H3 as (r3 & [= ->] & H3). apply call_stat in H3 as [S3 _].
    destruct r3 as [o|e']; [|done].
    apply on_backend_same in H2 as [S2 R2]; [|counters]. split; [by do 2 (etrans; [eassumption|])|].
    intros Hr. exfalso. rewrite <- (sc_shape _ _ S1 k), <- (sc_shape _ _ S3 k) in Hr. by specialize (R2 Hr).
Qed.

(** A write that succeeded: where the chunk is now. *)
Record wrote (v v' : V) (k : stream_kind) (i c g : Z) (data : list Z) : Prop := mkWrote {
  wo_range : 0 <= i < bytelen (stream k v);
  wo_locs : v_locOf v' = <[c := mkLoc i g (bool_decide (k = KSmall))]> (v_locOf v);
  wo_shape k' : length (stream k' v') = length (stream k' v);
  wo_cells : (cell_at v k i c g = None /\
      forall k' i' c' g', cell_at v' k' i' c' g' =
        if bool_decide (k' = k /\ i' = i /\ c' = c /\ g' = g) then Some (Live data)
        else cell_at v k' i' c' g') \/
    (exists x, cell_at v k i c g = Some x /\ cell_sum x = checksumOf data /\
      forall k' i' c' g', cell_at v' k' i' c' g' = cell_at v k' i' c' g')
}.

(** The common tail of [writeTo] and [writeSmallTo]. *)
Lemma write_tail k i c g data (v v' : V) r :
  (node! _ := store_write k i c g data in
   node! _ := account_write k i c g data in
   node! _ := modifyN (fun v => set_locOf (<[c := mkLoc i g (bool_decide (k = KSmall))]> (v_locOf v)) v) in
   modifyN bump_version) v = (v', r) ->
  match r with Ok _ => wrote v v' k i c g data | Err _ => same_cells v v' end.
Proof.
  intros H. apply bindN_inv in H as [([] & v1 & H1 & H)|(e & H1 & ->)]; apply store_write_spec in H1; [|done].
  destruct H1 as [Hr Hs].
  assert (same_cells v v1 -> 0 <= i < bytelen (stream k v1)) as Hr1 by (intros S1; by rewrite (sc_shape _ _ S1 k)).
  assert (0 <= i < bytelen (stream k v1)) as Hr1'.
  { destruct Hs as [[_ S1]|(_ & _ & _ & S1)]; [by rewrite (st_shape _ _ _ _ _ _ _ S1 k)|by apply Hr1]. }
  apply bindN_inv in H as [([] & v2 & H2 & H)|(e & H2 & ->)]; apply account_write_spec in H2 as [S2 R2].
  2: { by specialize (R2 Hr1'). }
  injection H as <- <-. pose proof (stored_same v v1 v2 k i c g data (conj Hr Hs) S2) as [_ Hs2].
  assert (forall k' i' c' g' m n, cell_at (bump_version (set_locOf m v2)) k' i' c' g' = n <->
            cell_at v2 k' i' c' g' = n) as Hcell by (by intros []).
  destruct Hs2 as [[Hn S]|(x & Hx & Hc & S)].
  - constructor; [done| | |].
    + cbn. by rewrite (st_locs _ _ _ _ _ _ _ S).
    + intros []; cbn; [apply (st_shape _ _ _ _ _ _ _ S KData)|apply (st_shape _ _ _ _ _ _ _ S KShard)
        |apply (st_shape _ _ _ _ _ _ _ S KSmall)].
    + left. split; [done|]. intros. apply Hcell. by rewrite (st_cells _ _ _ _ _ _ _ S).
  - constructor; [done| | |].
    + cbn. by rewrite (sc_locs _ _ S).
    + intros []; cbn; [apply (sc_shape _ _ S KData)|apply (sc_shape _ _ S KShard)|apply (sc_shape _ _ S KSmall)].
    + right. exists x. split; [done|]. split; [done|]. intros. apply Hcell. by rewrite (sc_cells _ _ S).
Qed.

Definition clamp (n i : Z) : Z := if (i <? 0) || (n <=? i) then 0 else i.

Lemma clamp_in n i : 0 <= i < n -> clamp n i = i.
Proof. intros H. unfold clamp. destruct (Z.ltb_spec i 0), (Z.leb_spec n i); cbn; lia. Qed.

Lemma liftN_inv {A C} (x : go A) (k : A -> N (B := B) C) v v' r :
  bindN (liftN x) k v = (v', r) ->
  (exists a, x = Ok a /\ k a v = (v', r)) \/ (exists e, x = Err e /\ v' = v /\ r = Err e).
Proof.
  intros H. apply bindN_inv in H as [(a & v1 & H1 & H)|(e & H1 & ->)]; injection H1 as <- ->; [left|right]; eauto.
Qed.

Lemma writeTo_spec c disk g data (v v' : V) r :
  writeTo c disk g data v = (v', r) ->
  match r with
  | Ok _ => wrote v v' KData (clamp (bytelen (v_disks v)) disk) c g data
  | Err _ => same_cells v v'
  end.
Proof.
  unfold writeTo. cbn [bindN getN]. fold (clamp (bytelen (v_disks v)) disk). intros H.
  apply liftN_inv in H as [(failed & _ & H)|(e & _ & -> & ->)]; [|reflexivity].
  destruct failed; [by injection H as <- <-|].
  apply liftN_inv in H as [([] & _ & H)|(e & _ & -> & ->)]; [|reflexivity].
  by apply (write_tail KData).
Qed.

Lemma writeSmallTo_spec c i g data (v v' : V) r :
  0 < bytelen (v_small v) ->
  writeSmallTo c i g data v = (v', r) ->
  match r with
  | Ok _ => wrote v v' KSmall (clamp (bytelen (v_small v)) i) c g data
  | Err _ => same_cells v v'
  end.
Proof.
  intros Hs. unfold writeSmallTo. cbn [bindN getN]. fold (clamp (bytelen (v_small v)) i).
  destruct (Z.eqb_spec (bytelen (v_small v)) 0); [lia|]. intros H.
  apply liftN_inv in H as [(failed & _ & H)|(e & _ & -> & ->)]; [|reflexivity].
  destruct failed; [by injection H as <- <-|].
  apply liftN_inv in H as [([] & _ & H)|(e & _ & -> & ->)]; [|reflexivity].
  by apply (write_tail KSmall).
Qed.

Lemma drop_small_spec c i g (v v' : V) r :
  drop_small c i g v = (v', r) ->
  (same_cells v v' \/ exists x, cell_at v KSmall i c g = Some x /\ set_cell v v' KSmall i c g (bury x)) /\
  (0 <= i < bytelen (v_small v) -> r = Ok tt).
Proof.
  unfold drop_small. intros H.
  apply bindN_inv in H as [(old & v1 & H1 & H)|(e & H1 & ->)].
  2: { by apply tryN_inv in H1 as (? & ? & _). }
  apply tryN_inv in H1 as (r1 & [= ->] & H1). apply call_stat in H1 as [S1 _].
  assert (forall w, same_cells v w -> 0 <= i < bytelen (v_small v) -> 0 <= i < bytelen (stream KSmall w)) as Hlen
    by (intros w Sw; by rewrite (sc_shape _ _ Sw KSmall)).
  apply bindN_inv in H as [([] & v2 & H2 & H)|(e & H2 & ->)].
  2: { destruct r1; [|done]. apply on_backend_same in H2 as [S2 R2]; [|counters].
       split; [left; by etrans|]. intros Hr. by specialize (R2 (Hlen _ S1 Hr)). }
  assert (same_cells v v2) as S2.
  { destruct r1; [|by injection H2 as <-]. apply on_backend_same in H2 as [S2 _]; [|counters]. by etrans. }
  apply bindN_inv in H as [(rd & v3 & H3 & H)|(e & H3 & ->)].
  2: { by apply tryN_inv in H3 as (? & ? & _). }
  apply tryN_inv in H3 as (r3 & [= ->] & H3). apply call_delete in H3.
  assert (exists v4, same_cells v3 v4 /\ v' = v4 /\ (0 <= i < bytelen (v_small v3) -> r = Ok tt)) as (v4 & S4 & -> & R4).
  { destruct r3; [|injection H as <- <-; by exists v3].
    apply on_backend_same in H as [S4 R4]; [|counters]. by exists v'. }
  assert (same_cells v v4 \/ exists x, cell_at v KSmall i c g = Some x /\ set_cell v v4 KSmall i c g (bury x)) as Hd.
  { destruct H3 as [S3|(x & Hx & S3)].
    - left. by do 2 (etrans; [eassumption|]).
    - right. exists x. rewrite <- (sc_cells _ _ S2). split; [done|].
      eapply set_cell_same; [|done]. by eapply same_set_cell. }
  split; [done|]. intros Hr. apply R4. fold (stream KSmall v3). rewrite <- (sc_shape _ _ S4 KSmall).
  destruct Hd as [S|(x & _ & S)]; [rewrite (sc_shape _ _ S KSmall)|rewrite (st_shape _ _ _ _ _ _ _ S KSmall)]; done.
Qed.

(** ** Chunks *)

(** The node has disks, and small streams on all of them or on none. *)
Definition shaped (v : V) : Prop :=
  v_disks v <> [] /\ (v_small v = [] \/ length (v_small v) = length (v_disks v)).

Definition loc_stream (l : chunkLoc) : stream_kind := if cl_small l then KSmall else KData.

(** A chunk's cells: data and small streams; shards are not chunks. *)
Definition chunk_cell (v : V) (c g : Z) (x : cell) : Prop :=
  exists k i, k <> KShard /\ cell_at v k i c g = Some x.

Definition payload (x : cell) : option (list Z) := match x with Live d => Some d | Dead _ _ => None end.

(** The node holds the chunks [M]; [gone] are those deleted from it. A
    location may point at a tombstone, when a delete failed half-way. *)
Record holds (v : V) (M : gmap Z (list Z)) (gone : gset Z) : Prop := mkHolds {
  ho_shape : shaped v;
  ho_loc c l : v_locOf v !! c = Some l ->
    0 <= cl_disk l < bytelen (stream (loc_stream l) v) /\ 1 <= cl_gen l < 2 ^ 64 /\
    exists x, cell_at v (loc_stream l) (cl_disk l) c (cl_gen l) = Some x /\ M !! c = payload x;
  ho_none c : v_locOf v !! c = None -> M !! c = None;
  ho_gone c : c ∈ gone -> v_locOf v !! c = None;
  ho_newest c l g x : v_locOf v !! c = Some l -> chunk_cell v c g x -> g <= cl_gen l;
  ho_copies c l x d : v_locOf v !! c = Some l -> chunk_cell v c (cl_gen l) (Live x) ->
    M !! c = Some d -> x = d;
  ho_fresh c g x : v_locOf v !! c = None -> c ∉ gone -> ~ chunk_cell v c g x;
  ho_small c l i : v_locOf v !! c = Some l -> cl_small l = true -> cell_at v KData i c (cl_gen l) = None
}.

Lemma same_shaped v v' : same_cells v v' -> shaped v -> shaped v'.
Proof.
  intros S [Hd Hs]. pose proof (sc_shape _ _ S KData) as L1. pose proof (sc_shape _ _ S KSmall) as L2.
  cbn in L1, L2. split.
  - intros E. rewrite E in L1. by destruct (v_disks v).
  - destruct Hs as [Hs|Hs]; [left|right; congruence]. rewrite Hs in L2. by destruct (v_small v').
Qed.

Lemma same_chunk_cell v v' c g x : same_cells v v' -> chunk_cell v' c g x -> chunk_cell v c g x.
Proof. intros S (k & i & Hk & Hx). exists k, i. split; [done|]. by rewrite <- (sc_cells _ _ S). Qed.

Lemma same_holds v v' M gone : same_cells v v' -> holds v M gone -> holds v' M gone.
Proof.
  intros S [H1 H2 H3 H4 H5 H6 H7 H8].
  constructor; intros *; rewrite ?(sc_locs _ _ S); eauto using same_shaped, same_chunk_cell.
  - intros Hl. destruct (H2 _ _ Hl) as (R & G & d & Hd & Hc). rewrite (sc_shape _ _ S). split; [done|].
    split; [done|]. exists d. split; [|done]. by rewrite (sc_cells _ _ S).
  - intros Hl Hg Hc. by eapply H7, same_chunk_cell.
  - intros Hl Hs. rewrite (sc_cells _ _ S). by apply H8.
Qed.

Lemma shape_shaped (v v' : V) :
  (forall k, length (stream k v') = length (stream k v)) -> shaped v -> shaped v'.
Proof.
  intros L [Hd Hs]. pose proof (L KData) as L1. pose proof (L KSmall) as L2. cbn in L1, L2. split.
  - intros E. rewrite E in L1. by destruct (v_disks v).
  - destruct Hs as [Hs|Hs]; [left|right; congruence]. rewrite Hs in L2. by destruct (v_small v').
Qed.

(** A new generation of a chunk becomes its contents. *)
Lemma wrote_holds v v' M gone k i c g data :
  holds v M gone -> c ∉ gone -> k <> KShard -> 1 <= g < 2 ^ 64 ->
  (forall l, v_locOf v !! c = Some l -> cl_gen l < g) ->
  wrote v v' k i c g data -> holds v' (<[c := data]> M) gone.
Proof.
  intros [H1 H2 H3 H4 H5 H6 H7 H8] Hc Hk Hg Hnew [R L S C].
  assert (forall g' x, g <= g' -> ~ chunk_cell v c g' x) as Hfresh.
  { intros g' x Hle Hx. destruct (v_locOf v !! c) as [l|] eqn:El.
    - specialize (Hnew _ eq_refl). specialize (H5 _ _ _ _ El Hx). lia.
    - by eapply H7. }
  destruct C as [[_ C]|(x & Hx & _)]; [|exfalso; eapply (Hfresh g x); [lia|by exists k, i]].
  assert (forall c' g' x, chunk_cell v' c' g' x ->
            (c' = c /\ g' = g /\ x = Live data) \/ chunk_cell v c' g' x) as Hinv.
  { intros c' g' x (k' & i' & Hk' & Hx). rewrite C in Hx. case_bool_decide as Hd.
    - left. destruct Hd as (-> & -> & -> & ->). by simplify_eq.
    - right. by exists k', i'. }
  constructor.
  - by eapply shape_shaped.
  - intros c' l. rewrite L, lookup_insert. destruct (decide (c = c')) as [Hcc|Hcc].
    + subst c'. intros [= <-]. cbn [cl_disk cl_gen loc_stream cl_small].
      replace (loc_stream (mkLoc i g (bool_decide (k = KSmall)))) with k by (by destruct k).
      split; [by rewrite S|]. split; [done|]. exists (Live data).
      split; [by rewrite C, bool_decide_true|by rewrite lookup_insert_eq].
    + intros Hl. destruct (H2 _ _ Hl) as (R' & G' & x & Hx & HM). split; [by rewrite S|]. split; [done|].
      exists x. rewrite C, bool_decide_false by (intros (_ & _ & ? & _); congruence).
      split; [done|]. by rewrite lookup_insert_ne.
  - intros c'. rewrite L, !lookup_insert. destruct (decide (c = c')); [done|apply H3].
  - intros c' Hc'. rewrite L, lookup_insert_ne by congruence. by apply H4.
  - intros c' l g' x. rewrite L, lookup_insert. destruct (decide (c = c')) as [Hcc|Hcc].
    + subst c'. intros [= <-] Hx. cbn. destruct (Hinv _ _ _ Hx) as [(_ & -> & _)|Hx']; [lia|].
      destruct (Z.le_gt_cases g' g); [done|]. exfalso. eapply (Hfresh g' x); [lia|done].
    + intros Hl Hx. destruct (Hinv _ _ _ Hx) as [(? & _)|Hx']; [congruence|]. by eapply H5.
  - intros c' l x d. rewrite L, !lookup_insert. destruct (decide (c = c')) as [Hcc|Hcc].
    + subst c'. intros [= <-] Hx [= <-]. cbn in Hx.
      destruct (Hinv _ _ _ Hx) as [(_ & _ & [= ->])|Hx']; [done|]. exfalso. by eapply (Hfresh g).
    + intros Hl Hx Hd. destruct (Hinv _ _ _ Hx) as [(? & _)|Hx']; [congruence|]. by eapply H6.
  - intros c' g' x. rewrite L, lookup_insert. destruct (decide (c = c')) as [Hcc|Hcc]; [done|]. intros Hl Hgone Hx.
    destruct (Hinv _ _ _ Hx) as [(? & _)|Hx']; [congruence|]. by eapply H7.
  - intros c' l i'. rewrite L, lookup_insert, C. destruct (decide (c = c')) as [Hcc|Hcc].
    + subst c'. intros [= <-] Hsm. cbn in Hsm |- *. apply bool_decide_eq_true in Hsm.
      rewrite bool_decide_false by (intros (? & _); congruence).
      destruct (cell_at v KData i' c g) as [x|] eqn:Hx; [|done]. exfalso. eapply (Hfresh g x); [lia|by exists KData, i'].
    + intros Hl Hsm. rewrite bool_decide_false by (intros (_ & _ & ? & _); congruence). by apply H8.
Qed.

(** Burying a cell that is not a chunk's current one changes no chunk. *)
Lemma bury_holds v v' M gone k i c g x :
  holds v M gone -> cell_at v k i c g = Some x -> set_cell v v' k i c g (bury x) ->
  (forall l, v_locOf v !! c = Some l -> ~ (loc_stream l = k /\ cl_disk l = i /\ cl_gen l = g)) ->
  holds v' M gone.
Proof.
  intros [H1 H2 H3 H4 H5 H6 H7 H8] Hx [C L S] Hcur.
  assert (forall c' g' y, chunk_cell v' c' g' y -> exists y', chunk_cell v c' g' y' /\
            (forall d, y = Live d -> y' = y)) as Hinv.
  { intros c' g' y (k' & i' & Hk' & Hy). rewrite C in Hy. case_bool_decide as Hd.
    - destruct Hd as (-> & -> & -> & ->). exists x. split; [by exists k, i|]. intros d ->. by simplify_eq.
    - exists y. split; [by exists k', i'|done]. }
  constructor.
  - by eapply shape_shaped.
  - intros c' l. rewrite L. intros Hl. destruct (H2 _ _ Hl) as (R' & G' & y & Hy & HM).
    split; [by rewrite S|]. split; [done|]. exists y. split; [|done]. rewrite C.
    rewrite bool_decide_false; [done|]. intros (E1 & E2 & -> & E4). by eapply Hcur.
  - intros c'. rewrite L. apply H3.
  - intros c' Hc'. rewrite L. by apply H4.
  - intros c' l g' y. rewrite L. intros Hl Hy. destruct (Hinv _ _ _ Hy) as (y' & Hy' & _). by eapply H5.
  - intros c' l y d. rewrite L. intros Hl Hy Hd. destruct (Hinv _ _ _ Hy) as (y' & Hy' & E).
    rewrite (E _ eq_refl) in Hy'. by eapply H6.
  - intros c' g' y. rewrite L. intros Hl Hg Hy. destruct (Hinv _ _ _ Hy) as (y' & Hy' & _). by eapply H7.
  - intros c' l i'. rewrite L, C. intros Hl Hs. case_bool_decide as Hd; [|by apply H8].
    destruct Hd as (<- & <- & -> & <-). rewrite (H8 _ _ _ Hl Hs) in Hx. done.
Qed.

(** ** Operations on chunks *)

(** The outcome of a write: the new contents, or what there was. *)
Definition write_outcome (v' : V) (M : gmap Z (list Z)) gone c data (r : go unit) : Prop :=
  match r with
  | Ok _ => holds v' (<[c := data]> M) gone
  | Err _ => holds v' M gone
  end.

Section Writes.
Context (M : gmap Z (list Z)) (gone : gset Z) (v : V) (c g : Z) (data : list Z).
Context (H : holds v M gone) (Hc : c ∉ gone) (Hg : 1 <= g < 2 ^ 64).
Context (Hnew : forall l, v_locOf v !! c = Some l -> cl_gen l < g).

Lemma writeTo_holds disk v' r : writeTo c disk g data v = (v', r) -> write_outcome v' M gone c data r.
Proof.
  intros E. apply writeTo_spec in E. destruct r; cbn; [|by eapply same_holds].
  by eapply (wrote_holds v v' M gone KData).
Qed.

Lemma writeSmallTo_holds i v' r :
  0 < bytelen (v_small v) -> writeSmallTo c i g data v = (v', r) -> write_outcome v' M gone c data r.
Proof.
  intros Hs E. apply writeSmallTo_spec in E; [|done]. destruct r; cbn; [|by eapply same_holds].
  by eapply (wrote_holds v v' M gone KSmall).
Qed.

Lemma migrate_holds l v' r :
  v_locOf v !! c = Some l -> cl_small l = true ->
  migrateSmallToData c l g data v = (v', r) -> write_outcome v' M gone c data r.
Proof.
  intros Hl Hsm. unfold migrateSmallToData. cbn [bindN getN]. intros E.
  apply liftN_inv in E as [([best g'] & _ & E)|(e & _ & -> & ->)]; [|done].
  apply bindN_inv in E as [([] & v1 & E1 & E)|(e & E1 & ->)].
  2: { apply writeTo_holds in E1. done. }
  pose proof (writeTo_spec _ _ _ _ _ _ _ E1) as W. apply writeTo_holds in E1. cbn in E1. cbn [bindN getN] in E.
  destruct (_ && _) eqn:Hr; [|by injection E as <- <-].
  apply drop_small_spec in E as [D R].
  assert (r = Ok tt) as -> by (apply R; lia). cbn.
  destruct D as [S|(x & Hx & S)]; [by eapply same_holds|].
  eapply bury_holds; [exact E1|exact Hx|exact S|].
  intros l'. rewrite (wo_locs _ _ _ _ _ _ _ W), lookup_insert_eq. intros [= <-] (Hk & _). done.
Qed.
End Writes.

Lemma small_attached v M gone c l :
  holds v M gone -> v_locOf v !! c = Some l -> cl_small l = true -> 0 < bytelen (v_small v).
Proof.
  intros H Hl Hs. destruct (ho_loc _ _ _ H _ _ Hl) as (R & _). unfold loc_stream in R. rewrite Hs in R. cbn in R. lia.
Qed.

Lemma V2_Write_holds v M gone c data v' r :
  holds v M gone -> c ∉ gone -> (forall l, v_locOf v !! c = Some l -> cl_gen l + 1 < 2 ^ 64) ->
  V2_Write c data v = (v', r) -> write_outcome v' M gone c data r.
Proof.
  intros H Hc Hb. unfold V2_Write, currentLoc. cbn [bindN getN].
  destruct (v_locOf v !! c) as [l|] eqn:Hl.
  - destruct (ho_loc _ _ _ H _ _ Hl) as (R & G & _). specialize (Hb _ eq_refl).
    assert (u64 (cl_gen l + 1) = cl_gen l + 1) as Hu by (apply wrap_small; unfold uintw; lia).
    assert (1 <= cl_gen l + 1 < 2 ^ 64) as Hg by lia.
    assert (forall l', v_locOf v !! c = Some l' -> cl_gen l' < cl_gen l + 1) as Hnew
      by (intros l'; rewrite Hl; intros [= <-]; lia).
    destruct l as [disk g small]; cbn [cl_gen] in *. destruct small.
    + rewrite Hu. destruct (_ <=? _); intros E.
      * by eapply writeSmallTo_holds; eauto using small_attached.
      * by eapply migrate_holds.
    + rewrite bool_decide_false by done. cbn [andb]. unfold nextLoc. rewrite Hl. cbn [cl_gen cl_disk].
      rewrite Hu. unfold bindN at 1, liftN. intros E. by eapply writeTo_holds.
  - assert (1 <= 1 < 2 ^ 64) as Hg by lia.
    assert (forall l', v_locOf v !! c = Some l' -> cl_gen l' < 1) as Hnew by (intros l'; by rewrite Hl).
    rewrite bool_decide_true by done. cbn [andb].
    destruct (Z.ltb_spec 0 (bytelen (v_small v))) as [Hs|Hs]; cbn [andb];
      [destruct (_ <=? _)|]; unfold nextLoc; rewrite ?Hl; intros E.
    + apply liftN_inv in E as [(i & _ & E)|(e & _ & -> & ->)]; [|done]. by eapply writeSmallTo_holds.
    + apply liftN_inv in E as [([d' g'] & Hn & E)|(e & _ & -> & ->)]; [|done].
      apply bind_Ok_inv in Hn as (best & _ & [= <- <-]). by eapply writeTo_holds.
    + apply liftN_inv in E as [([d' g'] & Hn & E)|(e & _ & -> & ->)]; [|done].
      apply bind_Ok_inv in Hn as (best & _ & [= <- <-]). by eapply writeTo_holds.
Qed.

Lemma V2_WriteGen_holds v M gone c g data v' r :
  holds v M gone -> c ∉ gone -> 1 <= g < 2 ^ 64 -> (forall l, v_locOf v !! c = Some l -> cl_gen l < g) ->
  V2_WriteGen c g data v = (v', r) -> write_outcome v' M gone c data r.
Proof.
  intros H Hc Hg Hnew. unfold V2_WriteGen, currentLoc. cbn [bindN getN].
  destruct (v_locOf v !! c) as [l|] eqn:Hl.
  - rewrite <- Hl in Hnew. destruct l as [disk g0 small]. destruct small.
    + destruct (_ <=? _); intros E; [by eapply writeSmallTo_holds; eauto using small_attached|by eapply migrate_holds].
    + intros E. by eapply writeTo_holds.
  - rewrite <- Hl in Hnew. destruct (Z.ltb_spec 0 (bytelen (v_small v))) as [Hs|Hs]; cbn [andb];
      [destruct (_ <=? _)|]; intros E.
    + apply liftN_inv in E as [(i & _ & E)|(e & _ & -> & ->)]; [|done]. by eapply writeSmallTo_holds.
    + apply liftN_inv in E as [([d' g'] & _ & E)|(e & _ & -> & ->)]; [|done]. by eapply writeTo_holds.
    + apply liftN_inv in E as [([d' g'] & _ & E)|(e & _ & -> & ->)]; [|done]. by eapply writeTo_holds.
Qed.
End Proofs.
