(* ===== verification/DataNodeMoves.v ===== *)
(** * Reads, deletes, moves and restarts of a data node

    The remaining calls of [DataNode] against the chunks a node holds, and
    what its start-up scan finds. *)

From stdpp Require Import base list numbers strings gmap.
From Stdlib Require Import ZArith Lia.
From S2P Require Import Prelude StorageTypes Index Store StoreSpec StoreInterface DataNode DataNodeProofs.

Local Open Scope Z_scope.
Local Open Scope go_scope.

Section Moves.
Context {B : Type} {view : B -> cells} `{SL : StorageLaws B view}.

Abbreviation V := (V2Store B).
Abbreviation holds := (holds (view := view)).
Abbreviation cell_at := (cell_at (view := view)).
Abbreviation same_cells := (same_cells (view := view)).

Ltac counters := intros []; reflexivity.

(** ** Where a chunk is *)

Lemma backend_of (v : V) M gone c l :
  holds v M gone -> v_locOf v !! c = Some l -> loc v c = l /\ backendAt v l = (loc_stream l, cl_disk l).
Proof.
  intros H Hl. destruct (ho_loc _ _ _ H _ _ Hl) as ([R1 R2] & _). destruct (ho_shape _ _ _ H) as [_ Hs].
  assert (cl_disk l < bytelen (v_disks v)) as R3.
  { unfold loc_stream in R2. destruct (cl_small l); [|done]. cbn in R2.
    destruct Hs as [Hs|Hs]; [rewrite Hs in R2; cbn in R2; lia|lia]. }
  split.
  - unfold loc. rewrite Hl. cbn [from_option id].
    destruct (Z.ltb_spec (cl_disk l) 0), (Z.leb_spec (bytelen (v_disks v)) (cl_disk l)); cbn; lia || done.
  - unfold backendAt, loc_stream in *. destruct (cl_small l).
    + cbn in R2. rewrite !(proj2 (Z.ltb_lt _ _)), (proj2 (Z.leb_le _ _)) by lia. done.
    + cbn [andb]. destruct (Z.ltb_spec (cl_disk l) 0), (Z.leb_spec (bytelen (v_disks v)) (cl_disk l)); cbn; lia || done.
Qed.

(** A chunk without location is looked for in data store 0. *)
Lemma backend_default (v : V) c :
  v_locOf v !! c = None -> (loc v c = mkLoc 0 1 false) /\ backendAt v (mkLoc 0 1 false) = (KData, 0).
Proof.
  intros Hl. split.
  - unfold loc. rewrite Hl. cbn [from_option id cl_disk cl_gen cl_small]. by destruct (_ || _).
  - unfold backendAt. cbn [cl_small cl_disk andb]. by destruct (_ || _).
Qed.

(** ** Reads *)

Lemma V2_Read_spec (v : V) M gone c off n v' r :
  holds v M gone -> c ∉ gone -> V2_Read c off n v = (v', r) ->
  holds v' M gone /\
  match r with
  | Ok (x, sum) => exists d, M !! c = Some d /\ sum = checksumOf d /\ x = window (mkReadRequest c 0 off n) d
  | Err ErrExtentNotFound => M !! c = None
  | Err _ => True
  end.
Proof.
  intros H Hc. unfold V2_Read. cbn [bindN getN].
  set (l := loc v c). destruct (backendAt v l) as [k i] eqn:Hb. intros E.
  apply bindN_inv in E as [(res & v1 & E1 & E)|(e & E1 & ->)]; apply (call_read (view := view)) in E1 as [S1 R1].
  - destruct R1 as (d & Hd & Hres).
    apply bindN_inv in E as [([] & v2 & E2 & E)|(e & E2 & ->)]; apply (on_backend_same (view := view)) in E2 as [S2 R2]; try counters.
    + injection E as <- <-. split; [eapply same_holds; [|exact H]; by etrans|].
      exists d. rewrite Hres. cbn. split; [|done].
      destruct (v_locOf v !! c) as [l'|] eqn:Hl.
      * destruct (backend_of v M gone c l' H Hl) as [El Eb]. unfold l in Hb, Hd. rewrite El, Eb in *.
        injection Hb as <- <-. destruct (ho_loc _ _ _ H _ _ Hl) as (_ & _ & x & Hx & HM). rewrite Hd in Hx.
        by injection Hx as <-.
      * exfalso. destruct (backend_default v c Hl) as [El Eb]. unfold l in Hb, Hd. rewrite El, Eb in *.
        injection Hb as <- <-. eapply (ho_fresh _ _ _ H c _ (Live d) Hl Hc). by exists KData, 0.
    + split; [eapply same_holds; [|exact H]; by etrans|]. exfalso.
      assert (0 <= i < bytelen (stream k v1)) as Hr; [|by specialize (R2 Hr)].
      rewrite (sc_shape _ _ S1 k). unfold DataNodeProofs.cell_at in Hd. destruct (at_index (stream k v) i) eqn:Ha; [|done].
      by apply at_index_Some in Ha as [? _].
  - split; [by eapply same_holds|]. destruct e; try done.
    destruct (v_locOf v !! c) as [l'|] eqn:Hl; [|by apply (ho_none _ _ _ H)].
    destruct (backend_of v M gone c l' H Hl) as [El Eb]. unfold l in Hb, R1. rewrite El, Eb in *.
    injection Hb as <- <-. destruct (ho_loc _ _ _ H _ _ Hl) as (_ & _ & x & Hx & HM). rewrite HM.
    destruct x as [d|]; [|done]. by destruct (R1 d).
Qed.

(** ** Deletes *)

(** Burying a chunk's current cell empties the chunk. *)
Lemma bury_current (v v' : V) M gone c l x :
  holds v M gone -> v_locOf v !! c = Some l -> cell_at v (loc_stream l) (cl_disk l) c (cl_gen l) = Some x ->
  set_cell (view := view) v v' (loc_stream l) (cl_disk l) c (cl_gen l) (bury x) ->
  holds v' (delete c M) gone.
Proof.
  intros [H1 H2 H3 H4 H5 H6 H7 H8] Hl Hx [C L S].
  assert (forall c' g' y, chunk_cell (view := view) v' c' g' y -> exists y', chunk_cell (view := view) v c' g' y' /\
            (forall d, y = Live d -> y' = y)) as Hinv.
  { intros c' g' y (k' & i' & Hk' & Hy). rewrite C in Hy. case_bool_decide as Hd.
    - destruct Hd as (-> & -> & -> & ->). exists x. split; [by exists (loc_stream l), (cl_disk l)|].
      intros d ->. by simplify_eq.
    - exists y. split; [by exists k', i'|done]. }
  constructor.
  - by eapply shape_shaped.
  - intros c' l'. rewrite L. intros Hl'. destruct (H2 _ _ Hl') as (R' & G' & y & Hy & HM).
    split; [by rewrite S|]. split; [done|]. rewrite C. case_bool_decide as Hd.
    + destruct Hd as (_ & _ & -> & _). exists (bury x). split; [done|]. by rewrite lookup_delete_eq.
    + exists y. split; [done|]. rewrite lookup_delete_ne; [done|]. intros <-. rewrite Hl in Hl'. simplify_eq.
      by apply Hd.
  - intros c'. rewrite L. intros Hn. rewrite lookup_delete. case_decide; [done|]. by apply H3.
  - intros c' Hc'. rewrite L. by apply H4.
  - intros c' l' g' y. rewrite L. intros Hl' Hy. destruct (Hinv _ _ _ Hy) as (y' & Hy' & _). by eapply H5.
  - intros c' l' y d. rewrite L. intros Hl' Hy Hd. destruct (Hinv _ _ _ Hy) as (y' & Hy' & E).
    rewrite (E _ eq_refl) in Hy'. apply lookup_delete_Some in Hd as [_ Hd]. by eapply H6.
  - intros c' g' y. rewrite L. intros Hl' Hg Hy. destruct (Hinv _ _ _ Hy) as (y' & Hy' & _). by eapply H7.
  - intros c' l' i'. rewrite L, C. intros Hl' Hs. case_bool_decide as Hd; [|by apply H8].
    destruct Hd as (Ek & Ei & -> & Eg). rewrite <- Ek, <- Ei, <- Eg, (H8 _ _ _ Hl' Hs) in Hx. done.
Qed.

(** Forgetting a chunk's location. *)
Lemma forget_holds (v : V) M gone c v' :
  holds v M gone -> v_locOf v' = delete c (v_locOf v) ->
  (forall k, stream k v' = stream k v) -> holds v' (delete c M) ({[c]} ∪ gone).
Proof.
  intros [H1 H2 H3 H4 H5 H6 H7 H8] L S.
  assert (forall k i c' g', cell_at v' k i c' g' = cell_at v k i c' g') as C
    by (intros; unfold DataNodeProofs.cell_at; by rewrite S).
  assert (forall c' g' y, chunk_cell (view := view) v' c' g' y -> chunk_cell (view := view) v c' g' y) as Hinv
    by (intros c' g' y (k & i & Hk & Hy); exists k, i; split; [done|]; by rewrite <- C).
  constructor.
  - eapply shape_shaped; [|exact H1]. intros k. by rewrite S.
  - intros c' l. rewrite L. intros [Hne Hl]%lookup_delete_Some. destruct (H2 _ _ Hl) as (R & G & x & Hx & HM).
    rewrite S, lookup_delete_ne by done. split; [done|]. split; [done|]. exists x. by rewrite C.
  - intros c'. rewrite L. intros [->|Hn]%lookup_delete_None; apply lookup_delete_None; [by left|right; by apply H3].
  - intros c' [->%elem_of_singleton|Hc']%elem_of_union; rewrite L; apply lookup_delete_None; [by left|right; by apply H4].
  - intros c' l g y. rewrite L. intros [Hne Hl]%lookup_delete_Some Hy. by eapply H5; [|apply Hinv].
  - intros c' l y d. rewrite L. intros [Hne Hl]%lookup_delete_Some Hy [_ Hd]%lookup_delete_Some.
    by eapply H6; [| apply Hinv|].
  - intros c' g y. rewrite L. intros Hn Hg Hy%Hinv. apply not_elem_of_union in Hg as [Hg1 Hg2].
    apply lookup_delete_None in Hn as [->|Hn]; [set_solver|]. by eapply H7.
  - intros c' l i. rewrite L, C. intros [Hne Hl]%lookup_delete_Some. by apply H8.
Qed.

Lemma delete_call_holds (v v' : V) M gone c k i r :
  holds v M gone -> backendAt v (loc v c) = (k, i) ->
  call_store k i (ss_Delete c (cl_gen (loc v c))) v = (v', r) ->
  holds v' M gone \/ holds v' (delete c M) gone.
Proof.
  intros H Hb E. apply (call_delete (view := view)) in E as [S|(x & Hx & S)]; [left; by eapply same_holds|].
  destruct (v_locOf v !! c) as [l|] eqn:Hl.
  - destruct (backend_of v M gone c l H Hl) as [El Eb]. rewrite El in *. rewrite Eb in Hb. injection Hb as <- <-.
    right. by eapply bury_current.
  - left. eapply bury_holds; [exact H|exact Hx|exact S|]. intros l'. by rewrite Hl.
Qed.

Lemma V2_Delete_spec (v : V) M gone c v' r :
  holds v M gone -> V2_Delete c v = (v', r) ->
  match r with
  | Ok _ => holds v' (delete c M) ({[c]} ∪ gone)
  | Err _ => holds v' M gone \/ holds v' (delete c M) gone
  end.
Proof.
  intros H. unfold V2_Delete. cbn [bindN getN]. destruct (backendAt v (loc v c)) as [k i] eqn:Hb. intros E.
  apply bindN_inv in E as [(ext & v1 & E1 & E)|(e & E1 & ->)].
  2: { by apply tryN_inv in E1 as (? & ? & _). }
  apply tryN_inv in E1 as (r1 & [= ->] & E1). apply (call_stat (view := view)) in E1 as [S1 _].
  apply bindN_inv in E as [([] & v2 & E2 & E)|(e & E2 & ->)].
  2: { left. eapply same_holds; [|exact H]. destruct r1; [|done].
       apply (on_backend_same (view := view)) in E2 as [S2 _]; [|counters]. by etrans. }
  assert (same_cells v v2) as S2.
  { destruct r1; [|by injection E2 as <-].
    apply (on_backend_same (view := view)) in E2 as [S2 _]; [|counters]. by etrans. }
  assert (holds v2 M gone) as H2 by (by eapply same_holds).
  assert (loc v2 c = loc v c /\ backendAt v2 (loc v c) = backendAt v (loc v c)) as [L2 B2].
  { pose proof (sc_shape _ _ S2 KData) as D1. pose proof (sc_shape _ _ S2 KSmall) as D2. cbn in D1, D2.
    unfold loc, backendAt. by rewrite (sc_locs _ _ S2), D1, D2. }
  apply bindN_inv in E as [([] & v3 & E3 & E)|(e & E3 & ->)].
  - assert (holds v3 M gone \/ holds v3 (delete c M) gone) as H3
      by (eapply delete_call_holds; [exact H2| |rewrite L2; exact E3]; by rewrite L2, B2).
    apply bindN_inv in E as [([] & v4 & E4 & E)|(e & E4 & ->)];
      apply (on_backend_same (view := view)) in E4 as [S4 _]; try counters.
    + injection E as <- <-. destruct H3 as [H3|H3]; apply (same_holds _ _ _ _ S4) in H3.
      * eapply (forget_holds v4); [exact H3|done|by intros []].
      * rewrite <- (delete_delete_eq M c). eapply (forget_holds v4); [exact H3|done|by intros []].
    + destruct H3 as [H3|H3]; [left|right]; by eapply same_holds.
  - eapply delete_call_holds; [exact H2| |rewrite L2; exact E3]. by rewrite L2, B2.
Qed.

(** ** Moves *)

(** The target of a move has no tombstone of the chunk. *)
Definition no_tombstone (v : V) (c to : Z) : Prop :=
  forall g n s, cell_at v KData to c g <> Some (Dead n s).

Lemma copy_holds (v v' : V) M gone c l to data :
  holds v M gone -> v_locOf v !! c = Some l -> cl_small l = false -> M !! c = Some data ->
  stored (view := view) v v' KData to c (cl_gen l) data -> holds v' M gone.
Proof.
  intros [H1 H2 H3 H4 H5 H6 H7 H8] Hl Hsm HM [R [[Hn [C L S]]|(x & _ & _ & S)]]; [|by eapply same_holds].
  assert (forall c' g' y, chunk_cell (view := view) v' c' g' y ->
            (c' = c /\ g' = cl_gen l /\ y = Live data) \/ chunk_cell (view := view) v c' g' y) as Hinv.
  { intros c' g' y (k' & i' & Hk' & Hy). rewrite C in Hy. case_bool_decide as Hd.
    - left. destruct Hd as (-> & -> & -> & ->). by simplify_eq.
    - right. by exists k', i'. }
  constructor.
  - by eapply shape_shaped.
  - intros c' l'. rewrite L. intros Hl'. destruct (H2 _ _ Hl') as (R' & G' & y & Hy & HM').
    split; [by rewrite S|]. split; [done|]. exists y. split; [|done]. rewrite C. case_bool_decide as Hd; [|done].
    destruct Hd as (E1 & E2 & -> & E4). rewrite E1, E2, E4 in Hy. congruence.
  - intros c'. rewrite L. apply H3.
  - intros c' Hc'. rewrite L. by apply H4.
  - intros c' l' g' y. rewrite L. intros Hl' Hy. destruct (Hinv _ _ _ Hy) as [(-> & -> & _)|Hy']; [|by eapply H5].
    rewrite Hl in Hl'. injection Hl' as <-. lia.
  - intros c' l' y d. rewrite L. intros Hl' Hy Hd. destruct (Hinv _ _ _ Hy) as [(-> & _ & [= ->])|Hy']; [congruence|].
    by eapply H6.
  - intros c' g' y. rewrite L. intros Hl' Hg Hy. destruct (Hinv _ _ _ Hy) as [(-> & _)|Hy']; [congruence|by eapply H7].
  - intros c' l' i'. rewrite L, C. intros Hl' Hs. case_bool_decide as Hd; [|by apply H8].
    destruct Hd as (_ & _ & -> & _). congruence.
Qed.

(** Re-pointing a chunk at a live copy of its current generation. *)
Lemma repoint_holds (v v' : V) M gone c l to d :
  holds v M gone -> v_locOf v !! c = Some l -> M !! c = Some d ->
  cell_at v KData to c (cl_gen l) = Some (Live d) ->
  v_locOf v' = <[c := mkLoc to (cl_gen l) false]> (v_locOf v) -> (forall k, stream k v' = stream k v) ->
  holds v' M gone.
Proof.
  intros [H1 H2 H3 H4 H5 H6 H7 H8] Hl HM Hd L S.
  assert (forall k i c' g', cell_at v' k i c' g' = cell_at v k i c' g') as C
    by (intros; unfold DataNodeProofs.cell_at; by rewrite S).
  assert (forall c' g' y, chunk_cell (view := view) v' c' g' y -> chunk_cell (view := view) v c' g' y) as Hinv
    by (intros c' g' y (k & i & Hk & Hy); exists k, i; split; [done|]; by rewrite <- C).
  constructor.
  - eapply shape_shaped; [|exact H1]. intros k. by rewrite S.
  - intros c' l'. rewrite L, lookup_insert. destruct (decide (c = c')) as [<-|Hne].
    + intros [= <-]. cbn [loc_stream cl_small cl_disk cl_gen]. rewrite S.
      split; [|split; [by apply (H2 _ _ Hl)|]].
      * unfold DataNodeProofs.cell_at in Hd. destruct (at_index _ _) eqn:Ha in Hd; [|done].
        by apply at_index_Some in Ha as [? _].
      * exists (Live d). by rewrite C.
    + intros Hl'. destruct (H2 _ _ Hl') as (R & G & x & Hx & HM'). rewrite S. split; [done|]. split; [done|].
      exists x. by rewrite C.
  - intros c'. rewrite L, lookup_insert. destruct (decide (c = c')); [done|apply H3].
  - intros c' Hc'. rewrite L, lookup_insert_ne; [by apply H4|]. intros ->. rewrite (H4 _ Hc') in Hl. done.
  - intros c' l' g y. rewrite L, lookup_insert. destruct (decide (c = c')) as [<-|Hne].
    + intros [= <-] Hy%Hinv. cbn. by eapply H5.
    + intros Hl' Hy%Hinv. by eapply H5.
  - intros c' l' y d'. rewrite L, lookup_insert. destruct (decide (c = c')) as [<-|Hne].
    + intros [= <-] Hy%Hinv. cbn in Hy. by eapply H6.
    + intros Hl' Hy%Hinv. by eapply H6.
  - intros c' g y. rewrite L, lookup_insert. destruct (decide (c = c')); [done|]. intros Hn Hg Hy%Hinv.
    by eapply H7.
  - intros c' l' i. rewrite L, C, lookup_insert. destruct (decide (c = c')); [by intros [= <-]|apply H8].
Qed.

Lemma bump_same (v : V) : same_cells v (bump_version v).
Proof. constructor; [by intros []|done|by intros []]. Qed.

Lemma whole_window c g (d : list Z) : window (mkReadRequest c g 0 0) d = d.
Proof. done. Qed.

(** What [rebalance_copy] leaves: the chunks, and on success a cell of the
    chunk's current generation on the target, live unless it was a
    tombstone before. *)
Lemma rebalance_copy_spec (v v' : V) M gone c from to r :
  holds v M gone -> rebalance_copy c from to v = (v', r) ->
  holds v' M gone /\ v_locOf v' = v_locOf v /\
  match r with
  | Ok (g, data) => from <> to /\ exists l, v_locOf v !! c = Some l /\ cl_disk l = from /\ cl_gen l = g /\
      cl_small l = false /\ M !! c = Some data /\
      (no_tombstone v c to -> cell_at v' KData to c g = Some (Live data))
  | Err _ => True
  end.
Proof.
  intros H. unfold rebalance_copy. destruct (Z.eqb_spec from to) as [|Hft]; [by intros [= <- <-]|].
  cbn [bindN getN]. destruct (_ || _ || _ || _); [by intros [= <- <-]|]. intros E.
  apply liftN_inv in E as [(dst & _ & E)|(e & _ & -> & ->)]; [|done].
  destruct (5 <=? db_failCount dst); [by injection E as <- <-|].
  destruct (v_locOf v !! c) as [l|] eqn:Hl; [|by injection E as <- <-].
  destruct (Z.eqb_spec (cl_disk l) from) as [Hf|]; cbn [negb] in E; [|by injection E as <- <-].
  apply bindN_inv in E as [(res & v1 & E1 & E)|(e & E1 & ->)]; apply (call_read (view := view)) in E1 as [S1 R1].
  2: { split; [by eapply same_holds|]. by rewrite (sc_locs _ _ S1). }
  destruct R1 as (d & Hd & ->). rewrite whole_window in E. cbn [rres_Data] in E.
  assert (cl_small l = false) as Hsm.
  { destruct (cl_small l) eqn:Es; [|done]. by rewrite (ho_small _ _ _ H _ _ from Hl Es) in Hd. }
  assert (M !! c = Some d) as HM.
  { destruct (ho_loc _ _ _ H _ _ Hl) as (_ & _ & x & Hx & HM). unfold loc_stream in Hx. rewrite Hsm, Hf, Hd in Hx.
    by injection Hx as <-. }
  assert (holds v1 M gone) as H1 by (by eapply same_holds). rewrite <- (sc_locs _ _ S1) in Hl.
  apply bindN_inv in E as [([] & v2 & E2 & E)|(e & E2 & ->)]; apply (store_write_spec (view := view)) in E2.
  2: { split; [by eapply same_holds|]. by rewrite (sc_locs _ _ E2), (sc_locs _ _ S1). }
  assert (holds v2 M gone) as H2 by (by eapply copy_holds).
  assert (v_locOf v2 = v_locOf v) as L2.
  { rewrite <- (sc_locs _ _ S1). destruct E2 as [_ [[_ S2]|(x & _ & _ & S2)]];
      [apply (st_locs _ _ _ _ _ _ _ S2)|apply (sc_locs _ _ S2)]. }
  assert (no_tombstone v c to -> cell_at v2 KData to c (cl_gen l) = Some (Live d)) as Hcell.
  { intros Ht. destruct E2 as [_ [[_ S2]|(x & Hx & _ & S2)]].
    - by rewrite (st_cells _ _ _ _ _ _ _ S2), bool_decide_true.
    - rewrite (sc_cells _ _ S2), Hx. f_equal. rewrite (sc_cells _ _ S1) in Hx.
      destruct x as [x|n s]; [|by destruct (Ht _ _ _ Hx)]. f_equal. rewrite (sc_locs _ _ S1) in Hl.
      eapply (ho_copies _ _ _ H); [exact Hl| |exact HM]. by exists KData, to. }
  apply bindN_inv in E as [([] & v3 & E3 & E)|(e & E3 & ->)];
    apply (on_backend_same (view := view)) in E3 as [S3 _]; try counters.
  - injection E as <- <-. split; [by eapply same_holds|]. split; [by rewrite (sc_locs _ _ S3)|].
    rewrite (sc_locs _ _ S1) in Hl. split; [done|]. exists l. split; [done|]. split; [done|]. split; [done|].
    split; [done|]. split; [done|]. intros Ht. rewrite (sc_cells _ _ S3). by apply Hcell.
  - split; [by eapply same_holds|]. by rewrite (sc_locs _ _ S3).
Qed.

(** The second half moves the chunk to a live copy; whatever happened in
    between, the chunk reads the same. *)
Lemma rebalance_commit_holds (v v' : V) M gone c from to g data rm r :
  holds v M gone -> from <> to -> cell_at v KData to c g = Some (Live data) -> is_Some (M !! c) ->
  rebalance_commit c from to g data rm v = (v', r) -> holds v' M gone.
Proof.
  intros H Hft Hcell [d HM]. unfold rebalance_commit. cbn [bindN getN].
  destruct (v_locOf v !! c) as [l|] eqn:Hl; [|by intros [= <- <-]].
  destruct (Z.eqb_spec (cl_disk l) from), (Z.eqb_spec (cl_gen l) g) as [Hg|]; cbn [negb orb];
    try (by intros [= <- <-]).
  unfold bindN at 1, modifyN at 1. set (v1 := set_locOf _ v). intros E.
  assert (data = d) as -> by (eapply (ho_copies _ _ _ H); [exact Hl|rewrite Hg; by exists KData, to|done]).
  assert (holds v1 M gone) as H1.
  { eapply repoint_holds; [exact H|exact Hl|exact HM|by rewrite Hg|by rewrite Hg|by intros []]. }
  apply bindN_inv in E as [([] & v2 & E2 & E)|(e' & E2 & ->)].
  2: { destruct rm; [|done]. apply bindN_inv in E2 as [(? & ? & _ & [=])|(? & E2 & _)].
       by apply tryN_inv in E2 as (? & ? & _). }
  assert (holds v2 M gone) as H2.
  { destruct rm; [|by injection E2 as <-].
    apply bindN_inv in E2 as [(rd & v3 & E3 & [= <-])|(? & E3 & [=])].
    apply tryN_inv in E3 as (r3 & [= ->] & E3). apply (call_delete (view := view)) in E3 as [S|(x & Hx & S)];
      [by eapply same_holds|].
    eapply bury_holds; [exact H1|exact Hx|exact S|]. intros l'. unfold v1. cbn. rewrite lookup_insert_eq.
    intros [= <-] (_ & Hd & _). cbn in Hd. congruence. }
  apply bindN_inv in E as [([] & v3 & E3 & E)|(e' & E3 & ->)];
    apply (on_backend_same (view := view)) in E3 as [S3 _]; try counters; apply (same_holds _ _ _ _ S3) in H2; [|done].
  apply bindN_inv in E as [([] & v4 & E4 & E)|(e' & E4 & ->)];
    apply (on_backend_same (view := view)) in E4 as [S4 _]; try counters; apply (same_holds _ _ _ _ S4) in H2; [|done].
  injection E as <- <-. eapply same_holds; [apply bump_same|exact H2].
Qed.

(** ** Whole moves *)

Lemma rebalanceOne_holds (v v' : V) M gone c from to rm r :
  holds v M gone -> no_tombstone v c to -> rebalanceOne c from to rm v = (v', r) -> holds v' M gone.
Proof.
  intros H Ht. unfold rebalanceOne. intros E.
  apply bindN_inv in E as [([g data] & v1 & E1 & E)|(e & E1 & ->)];
    apply (rebalance_copy_spec _ _ _ _ _ _ _ _ H) in E1 as (H1 & L1 & R1); [|done].
  destruct R1 as (Hft & l & Hl & Hd & Hg & _ & HM & Hc).
  eapply rebalance_commit_holds; [exact H1|exact Hft|by apply Hc|by eexists|exact E].
Qed.

Lemma probe_holds (v v' : V) M gone i r : holds v M gone -> probeDisk i v = (v', r) -> holds v' M gone.
Proof.
  intros H. unfold probeDisk. intros E.
  apply bindN_inv in E as [(r1 & v1 & E1 & E)|(e & E1 & ->)]; [|by apply tryN_inv in E1 as (? & ? & _)].
  apply tryN_inv in E1 as (r2 & [= ->] & E1). apply (call_stat (view := view)) in E1 as [S1 _].
  apply (same_holds _ _ _ _ S1) in H. destruct r2 as [x|e]; [by injection E as <- <-|].
  destruct (errors_Is e _); [by injection E as <- <-|].
  apply (on_backend_same (view := view)) in E as [S _]; [by eapply same_holds|counters].
Qed.

Lemma RemoveDisk_holds (v v' : V) M gone i r : holds v M gone -> RemoveDisk i v = (v', r) -> holds v' M gone.
Proof.
  intros H. unfold RemoveDisk. cbn [bindN getN]. destruct (_ || _); [by intros [= <- <-]|].
  destruct (_ <=? 1); [by intros [= <- <-]|]. intros E.
  apply bindN_inv in E as [([] & v1 & E1 & E)|(e & E1 & ->)];
    apply (on_backend_same (view := view)) in E1 as [S1 _]; try counters; apply (same_holds _ _ _ _ S1) in H; [|done].
  apply bindN_inv in E as [([] & v2 & E2 & E)|(e & E2 & ->)].
  - assert (holds v2 M gone) as H2.
    { destruct (_ <? _); [|by injection E2 as <-].
      apply (on_backend_same (view := view)) in E2 as [S2 _]; [by eapply same_holds|counters]. }
    injection E as <- <-. eapply same_holds; [apply bump_same|exact H2].
  - destruct (_ <? _); [|done].
    apply (on_backend_same (view := view)) in E2 as [S2 _]; [by eapply same_holds|counters].
Qed.

(** ** Drains *)

(** No tombstone appears. *)
Definition no_new_dead (v v' : V) : Prop :=
  forall k i c g n s, cell_at v' k i c g = Some (Dead n s) -> cell_at v k i c g = Some (Dead n s).

#[export] Instance no_new_dead_preorder : PreOrder no_new_dead.
Proof. split; [by intros v k i c g n s|]. intros u v w H1 H2 k i c g n s Hd. by apply H1, H2. Qed.

Lemma same_no_new_dead v v' : same_cells v v' -> no_new_dead v v'.
Proof. intros S k i c g n s. by rewrite (sc_cells _ _ S). Qed.

Lemma stored_no_new_dead v v' k i c g data : stored (view := view) v v' k i c g data -> no_new_dead v v'.
Proof.
  intros [_ [[_ [C _ _]]|(x & _ & _ & S)]]; [|by apply same_no_new_dead].
  intros k' i' c' g' n s. rewrite C. by case_bool_decide.
Qed.

Lemma rebalance_copy_dead (v v' : V) c from to r : rebalance_copy c from to v = (v', r) -> no_new_dead v v'.
Proof.
  unfold rebalance_copy. destruct (from =? to); [by intros [= <- <-]|].
  cbn [bindN getN]. destruct (_ || _ || _ || _); [by intros [= <- <-]|]. intros E.
  apply liftN_inv in E as [(dst & _ & E)|(e & _ & -> & ->)]; [|done].
  destruct (5 <=? db_failCount dst); [by injection E as <- <-|].
  destruct (v_locOf v !! c) as [l|]; [|by injection E as <- <-].
  destruct (negb _); [by injection E as <- <-|].
  apply bindN_inv in E as [(res & v1 & E1 & E)|(e & E1 & ->)]; apply (call_read (view := view)) in E1 as [S1 _];
    apply same_no_new_dead in S1; [|done].
  etrans; [exact S1|].
  apply bindN_inv in E as [([] & v2 & E2 & E)|(e & E2 & ->)]; apply (store_write_spec (view := view)) in E2;
    [|by apply same_no_new_dead].
  etrans; [by eapply stored_no_new_dead|].
  apply bindN_inv in E as [([] & v3 & E3 & [= <- <-])|(e & E3 & ->)];
    apply (on_backend_same (view := view)) in E3 as [S3 _]; try counters; by apply same_no_new_dead.
Qed.

(** The commit buries at most the source's copy. *)
Lemma rebalance_commit_dead (v v' : V) c from to g data rm r :
  rebalance_commit c from to g data rm v = (v', r) ->
  forall k i c' g' n s, cell_at v' k i c' g' = Some (Dead n s) ->
    cell_at v k i c' g' = Some (Dead n s) \/ (rm = true /\ k = KData /\ i = from).
Proof.
  unfold rebalance_commit. cbn [bindN getN]. destruct (v_locOf v !! c) as [l|]; [|intros [= <- <-]; by left].
  destruct (_ || _); [intros [= <- <-]; by left|].
  unfold bindN at 1, modifyN at 1. set (v1 := set_locOf _ v). intros E k i c' g' n s Hd.
  assert (forall k i c g, cell_at v1 k i c g = cell_at v k i c g) as C1 by (by intros []). rewrite <- C1.
  apply bindN_inv in E as [([] & v2 & E2 & E)|(e' & E2 & ->)].
  2: { destruct rm; [|done]. apply bindN_inv in E2 as [(? & ? & _ & [=])|(? & E2 & _)].
       by apply tryN_inv in E2 as (? & ? & _). }
  assert (no_new_dead v2 v') as D2.
  { apply bindN_inv in E as [([] & v3 & E3 & E)|(e' & E3 & ->)];
      apply (on_backend_same (view := view)) in E3 as [S3 _]; try counters; apply same_no_new_dead in S3; [|done].
    etrans; [exact S3|]. apply bindN_inv in E as [([] & v4 & E4 & [= <- <-])|(e' & E4 & ->)];
      apply (on_backend_same (view := view)) in E4 as [S4 _]; try counters; apply same_no_new_dead in S4; [|done].
    etrans; [exact S4|]. apply same_no_new_dead, bump_same. }
  apply D2 in Hd. destruct rm; [|injection E2 as <-; by left].
  apply bindN_inv in E2 as [(rd & v3 & E3 & [= <-])|(? & E3 & [=])].
  apply tryN_inv in E3 as (r3 & [= ->] & E3). apply (call_delete (view := view)) in E3 as [S|(x & _ & [C _ _])].
  - left. by rewrite <- (sc_cells _ _ S).
  - rewrite C in Hd. case_bool_decide as Hk; [|by left]. right. by destruct Hk as (-> & -> & _).
Qed.

(** Tombstones of chunks occur on data disk [src] only. *)
Definition clean_but (src : Z) (v : V) : Prop := forall i c, i <> src -> no_tombstone v c i.

Lemma rebalanceOne_clean (v v' : V) M gone c from to rm src r :
  holds v M gone -> clean_but src v -> to <> src -> (rm = true -> from = src) ->
  rebalanceOne c from to rm v = (v', r) -> holds v' M gone /\ clean_but src v'.
Proof.
  intros H Hcl Hto Hrm E. split; [eapply rebalanceOne_holds; [exact H|by apply Hcl|exact E]|].
  unfold rebalanceOne in E. apply bindN_inv in E as [([g data] & v1 & E1 & E)|(e & E1 & ->)];
    apply rebalance_copy_dead in E1; intros i c' Hi g' n s Hd.
  - apply (rebalance_commit_dead _ _ _ _ _ _ _ _ _ E) in Hd as [Hd|(Hm & _ & Hf)]; [|rewrite Hf in Hi; by destruct (Hi (Hrm Hm))].
    apply E1 in Hd. by eapply Hcl.
  - apply E1 in Hd. by eapply Hcl.
Qed.

Lemma least_used_in skip : forall l i best u b,
  least_used (B := B) skip i l best u = Ok b -> b = best \/ (i <= b /\ skip b = Ok false).
Proof.
  induction l as [|d l IH]; intros i best u b; cbn [least_used]; [intros [= ->]; by left|].
  intros E. apply bind_Ok_inv in E as (sk & Hsk & E). destruct (negb sk && _) eqn:Hc.
  - apply andb_prop in Hc as [Hn _]. apply negb_true_iff in Hn. subst sk.
    destruct (IH _ _ _ _ E) as [->|[? ?]]; [by right|right; split; [lia|done]].
  - destruct (IH _ _ _ _ E) as [->|[? ?]]; [by left|right; split; [lia|done]].
Qed.

Lemma leastUsedDisk_excludes (v : V) src dst :
  leastUsedDisk v src = Ok dst -> ~ (dst < 0) -> dst <> src /\ 0 <= dst.
Proof.
  unfold leastUsedDisk. intros E Hd. apply least_used_in in E as [->|[H0 Hs]]; [lia|]. split; [|lia].
  intros ->. by rewrite Z.eqb_refl in Hs.
Qed.

Lemma migrate_all_holds src : forall ids (v v' : V) M gone n r,
  holds v M gone -> clean_but src v -> migrate_all src ids n v = (v', r) ->
  holds v' M gone /\ clean_but src v'.
Proof.
  induction ids as [|id ids IH]; intros v v' M gone n r H Hc; cbn [migrate_all]; [by intros [= <- <-]|].
  cbn [bindN getN]. intros E. apply liftN_inv in E as [(dst & Hd & E)|(e & _ & -> & ->)]; [|done].
  destruct (Z.ltb_spec dst 0) as [|Hd0]; [by injection E as <- <-|].
  destruct (leastUsedDisk_excludes v src dst Hd) as [Hne _]; [lia|].
  apply bindN_inv in E as [(rm & v1 & E1 & E)|(e & E1 & ->)]; [|by apply tryN_inv in E1 as (? & ? & _)].
  apply tryN_inv in E1 as (r1 & [= ->] & E1).
  destruct (rebalanceOne_clean v v1 M gone id src dst true src r1 H Hc Hne (fun _ => eq_refl) E1) as [H1 C1].
  by eapply IH.
Qed.

Lemma MigrateDisk_holds (v v' : V) M gone src r :
  holds v M gone -> clean_but src v -> MigrateDisk src v = (v', r) -> holds v' M gone.
Proof.
  intros H Hc. unfold MigrateDisk. cbn [bindN getN]. destruct (_ || _); [by intros [= <- <-]|].
  destruct (_ <=? 1); [by intros [= <- <-]|]. intros E.
  apply bindN_inv in E as [(l & v1 & E1 & E)|(e & E1 & ->)]; apply (call_list (view := view)) in E1;
    [|by eapply same_holds].
  eapply (migrate_all_holds src) in E; [by destruct E|by eapply same_holds|].
  intros i c Hi g n s. rewrite (sc_cells _ _ E1). by apply Hc.
Qed.

(** [RebalanceBalanced] never buries: on a node without tombstones it keeps
    every chunk, whatever fails. *)
Lemma pick_same (v v' : V) t ex r : pickRebalanceChunk t ex v = (v', r) -> same_cells v v'.
Proof.
  unfold pickRebalanceChunk. cbn [bindN getN]. intros E.
  apply liftN_inv in E as [(dst & _ & E)|(e & _ & -> & ->)]; [|done].
  destruct (dst <? 0); [by injection E as <- <-|].
  apply liftN_inv in E as [(d & _ & E)|(e & _ & -> & ->)]; [|done]. cbv zeta in E.
  destruct (_ <? 0); [by injection E as <- <-|].
  apply liftN_inv in E as [(s & _ & E)|(e & _ & -> & ->)]; [|done].
  apply bindN_inv in E as [(rl & v1 & E1 & [= <- <-])|(e & E1 & ->)]; [|by apply tryN_inv in E1 as (? & ? & _)].
  apply tryN_inv in E1 as (r1 & _ & E1). by apply (call_list (view := view)) in E1.
Qed.

Lemma rebalance_loop_holds t : forall fuel ex n (v v' : V) M gone r,
  holds v M gone -> clean_but (-1) v -> rebalance_loop fuel t ex n v = (v', r) -> holds v' M gone.
Proof.
  induction fuel as [|fuel IH]; intros ex n v v' M gone r H Hc; cbn [rebalance_loop]; [by intros [= <- <-]|].
  intros E. apply bindN_inv in E as [(p & v1 & E1 & E)|(e & E1 & ->)]; apply pick_same in E1;
    [|by eapply same_holds].
  assert (holds v1 M gone) as H1 by (by eapply same_holds).
  assert (clean_but (-1) v1) as C1 by (intros i c Hi g m s; rewrite (sc_cells _ _ E1); by apply Hc).
  destruct p as [[src c]|]; [|by injection E as <- <-]. cbn [bindN getN] in E.
  apply liftN_inv in E as [(dst & Hd & E)|(e & _ & -> & ->)]; [|done].
  apply bindN_inv in E as [(rm & v2 & E2 & E)|(e & E2 & ->)]; [|by apply tryN_inv in E2 as (? & ? & _)].
  apply tryN_inv in E2 as (r1 & [= ->] & E2).
  assert (holds v2 M gone /\ clean_but (-1) v2) as [H2 C2].
  { destruct (Z.ltb_spec dst 0) as [Hn|Hn].
    - unfold RebalanceOne, rebalanceOne in E2.
      apply bindN_inv in E2 as [([g data] & v3 & E3 & _)|(e & E3 & ->)].
      + exfalso. revert E3. unfold rebalance_copy. destruct (src =? dst); [done|]. cbn [bindN getN].
        rewrite (proj2 (Z.ltb_lt dst 0) Hn). done.
      + revert E3. unfold rebalance_copy. destruct (src =? dst); [by intros [= <- _]|]. cbn [bindN getN].
        rewrite (proj2 (Z.ltb_lt dst 0) Hn). by intros [= <- _].
    - eapply (rebalanceOne_clean v1 v2 M gone c src dst false (-1)); [done|done|lia|done|exact E2]. }
  destruct r1; by eapply IH.
Qed.

Lemma count_extents_same : forall n i (v v' : V) r, count_extents n i v = (v', r) -> same_cells v v'.
Proof.
  induction n as [|n IH]; intros i v v' r; cbn [count_extents]; [by intros [= <- <-]|]. intros E.
  apply bindN_inv in E as [(l & v1 & E1 & E)|(e & E1 & ->)]; [|by apply tryN_inv in E1 as (? & ? & _)].
  apply tryN_inv in E1 as (r1 & _ & E1). apply (call_list (view := view)) in E1. etrans; [exact E1|].
  apply bindN_inv in E as [(m & v2 & E2 & [= <- <-])|(e & E2 & ->)]; by eapply IH.
Qed.

Lemma RebalanceBalanced_holds (v v' : V) M gone t r :
  holds v M gone -> clean_but (-1) v -> RebalanceBalanced t v = (v', r) -> holds v' M gone.
Proof.
  intros H Hc. unfold RebalanceBalanced. cbn [bindN getN]. intros E.
  apply bindN_inv in E as [(n & v1 & E1 & E)|(e & E1 & ->)]; apply count_extents_same in E1;
    [|by eapply same_holds].
  eapply rebalance_loop_holds; [by eapply same_holds| |exact E].
  intros i c Hi g m s. rewrite (sc_cells _ _ E1). by apply Hc.
Qed.
End Moves.

(** * The start of a data node

    What [NewMultiV2Store] and [AttachSmallStores] rebuild from the stores:
    when every chunk's extents are in one store, the chunks the node held. *)

Section Start.
Context {B : Type} {view : B -> cells} `{SL : StorageLaws B view}.

Abbreviation V := (V2Store B).
Abbreviation holds := (holds (view := view)).
Abbreviation cell_at := (cell_at (view := view)).

(** The store can be enumerated. *)
Definition listable (s : B) : Prop := exists l, (ss_ListExtents s).2 = Ok l.

(** The newest generation of [c] in a store, when it is live. *)
Definition current (s : B) (c g : Z) : Prop :=
  newest (view s) c g /\ exists d, view s !! (c, g) = Some (Live d).

Lemma current_unique s c g g' : current s c g -> current s c g' -> g = g'.
Proof.
  intros [[H1 H2] _] [[H3 H4] _]. assert (g <= g') by (by apply H4). assert (g' <= g) by (by apply H2). lia.
Qed.

Lemma fold_locs (f : LiveExtent -> chunkLoc) l : forall (m : gmap Z chunkLoc) c,
  NoDup (le_ExtentID <$> l) ->
  (forall x, x ∈ l -> le_ExtentID x = c ->
     fold_left (fun m e => <[le_ExtentID e := f e]> m) l m !! c = Some (f x)) /\
  ((forall x, x ∈ l -> le_ExtentID x <> c) ->
     fold_left (fun m e => <[le_ExtentID e := f e]> m) l m !! c = m !! c).
Proof.
  induction l as [|e l IH]; intros m c Hn; cbn [fold_left].
  - split; [intros x Hx; by apply not_elem_of_nil in Hx|done].
  - apply NoDup_cons in Hn as [He Hn]. destruct (IH (<[le_ExtentID e := f e]> m) c Hn) as [I1 I2]. split.
    + intros x [->|Hx]%elem_of_cons Hc; [|by apply I1]. rewrite I2; [by rewrite Hc, lookup_insert_eq|].
      intros y Hy Hyc. apply He. rewrite Hc, <- Hyc. by apply list_elem_of_fmap_2.
    + intros Hx. rewrite I2 by (intros y Hy; apply Hx; by constructor).
      rewrite lookup_insert_ne; [done|]. apply Hx. constructor.
Qed.

(** One store is adopted with its current extents. *)
Lemma adopt_spec i small s dir locs b locs' :
  listable s -> adopt i small s dir locs = (b, locs') ->
  view (db_store b) = view s /\
  (forall c g, current s c g -> locs' !! c = Some (mkLoc i g small)) /\
  (forall c, (forall g, ~ current s c g) -> locs' !! c = locs !! c).
Proof.
  intros [l Hl]. unfold adopt. destruct (ss_ListExtents s) as [s' r] eqn:E. cbn in Hl. subst r. cbv zeta.
  intros [= <- <-]. cbn [db_store]. pose proof (list_law _ _ _ E) as (Hv & Hn & H1 & H2). split; [done|].
  split.
  - intros c g [Hne [d Hd]]. destruct (H2 _ _ _ Hne Hd) as (x & Hx & Hc & Hg).
    rewrite (proj1 (fold_locs (fun e => mkLoc i (le_Generation e) small) l locs c Hn) x Hx Hc). by rewrite Hg.
  - intros c Hc. apply (fold_locs (fun e => mkLoc i (le_Generation e) small) l locs c Hn).
    intros x Hx Hxc. destruct (H1 _ Hx) as (d & Hne & Hd & _). apply (Hc (le_Generation x)). rewrite <- Hxc.
    split; [done|by exists d].
Qed.

(** All stores are adopted; a chunk that is in one of them only is found
    there. *)
Lemma adopt_all_spec small : forall stores i locs bs locs',
  Forall (fun sd => listable sd.1) stores -> adopt_all i small stores locs = (bs, locs') ->
  length bs = length stores /\
  (forall j sd b, stores !! j = Some sd -> bs !! j = Some b -> view (db_store b) = view sd.1) /\
  (forall j sd c g, stores !! j = Some sd -> current sd.1 c g ->
     (forall j' sd' g', stores !! j' = Some sd' -> current sd'.1 c g' -> j' = j) ->
     locs' !! c = Some (mkLoc (i + Z.of_nat j) g small)) /\
  (forall c, (forall j sd g, stores !! j = Some sd -> ~ current sd.1 c g) -> locs' !! c = locs !! c).
Proof.
  induction stores as [|[s dir] stores IH]; intros i locs bs locs' Hf; cbn [adopt_all].
  { intros [= <- <-]. split; [done|]. split; [done|]. split; [intros j sd c g Hj; by rewrite lookup_nil in Hj|done]. }
  apply Forall_cons in Hf as [Hs Hf]. destruct (adopt i small s dir locs) as [b locs1] eqn:E1.
  destruct (adopt_all (i + 1) small stores locs1) as [bs1 locs2] eqn:E2. intros [= <- <-].
  destruct (adopt_spec _ _ _ _ _ _ _ Hs E1) as (V1 & A1 & N1).
  destruct (IH _ _ _ _ Hf E2) as (L2 & V2 & A2 & N2). split; [cbn; by rewrite L2|]. split; [|split].
  - intros [|j] sd b' Hj Hb; cbn in Hj, Hb; [by simplify_eq|by eapply V2].
  - intros [|j] sd c g Hj Hc Hu; cbn in Hj.
    + injection Hj as <-. rewrite N2.
      * replace (i + Z.of_nat 0) with i by lia. by apply A1.
      * intros j' sd' g' Hj' Hc'. by specialize (Hu (S j') sd' g' Hj' Hc').
    + replace (i + Z.of_nat (S j)) with (i + 1 + Z.of_nat j) by lia. eapply (A2 j sd c g); [done|done|].
      intros j' sd' g' Hj' Hc'. specialize (Hu (S j') sd' g' Hj' Hc'). lia.
  - intros c Hc. rewrite N2, N1; [done| |].
    + intros g. apply (Hc O (s, dir) g eq_refl).
    + intros j sd g Hj. by apply (Hc (S j) sd g).
Qed.

(** A node restarts on the stores it had. *)
Definition restarted (fs : string -> Z * Z) (v : V) : V * go unit :=
  AttachSmallStores (db_store <$> v_small v)
    (NewMultiV2Store ((fun d => (db_store d, db_dir d)) <$> v_disks v) fs).

(** Every chunk is in one store, what the node does not hold is deleted
    there, no delete is half done and every store can be enumerated. *)
Record settled (v : V) : Prop := mkSettled {
  se_one c g k i x g' k' i' x' : k <> KShard -> k' <> KShard ->
    cell_at v k i c g = Some x -> cell_at v k' i' c g' = Some x' -> k = k' /\ i = i';
  se_buried c g k i d : v_locOf v !! c = None -> k <> KShard -> cell_at v k i c g = Some (Live d) ->
    exists g' n s, g < g' /\ cell_at v k i c g' = Some (Dead n s);
  se_live c l : v_locOf v !! c = Some l ->
    exists d, cell_at v (loc_stream l) (cl_disk l) c (cl_gen l) = Some (Live d);
  se_listable k b : k <> KShard -> b ∈ stream k v -> listable (db_store b)
}.

Lemma cell_at_nat (v : V) k j b c g :
  stream k v !! j = Some b -> cell_at v k (Z.of_nat j) c g = view (db_store b) !! (c, g).
Proof.
  intros Hb. unfold DataNodeProofs.cell_at. replace (at_index (stream k v) (Z.of_nat j)) with (Some b); [done|].
  symmetry. apply at_index_Some. rewrite Nat2Z.id. split; [apply lookup_lt_Some in Hb; lia|done].
Qed.

Lemma cell_at_inv (v : V) k i c g x :
  cell_at v k i c g = Some x ->
  exists b, 0 <= i /\ stream k v !! Z.to_nat i = Some b /\ view (db_store b) !! (c, g) = Some x.
Proof.
  unfold DataNodeProofs.cell_at. destruct (at_index _ _) as [b|] eqn:Ha; [|done]. intros Hx.
  apply at_index_Some in Ha as [R Hb]. exists b. by split; [lia|].
Qed.

(** In a settled node the current extents are the located ones. *)
Lemma current_located (v : V) M gone k j b c g :
  holds v M gone -> settled v -> k <> KShard -> stream k v !! j = Some b -> current (db_store b) c g ->
  exists l, v_locOf v !! c = Some l /\ loc_stream l = k /\ cl_disk l = Z.of_nat j /\ cl_gen l = g.
Proof.
  intros H S Hk Hb [[Hs Hn] [d Hd]]. rewrite <- (cell_at_nat v k j b c g Hb) in Hd.
  destruct (v_locOf v !! c) as [l|] eqn:Hl.
  - exists l. split; [done|]. destruct (ho_loc _ _ _ H _ _ Hl) as (_ & _ & x & Hx & _).
    assert (loc_stream l <> KShard) as Hls by (unfold loc_stream; by destruct (cl_small l)).
    destruct (se_one _ S _ _ _ _ _ _ _ _ _ Hls Hk Hx Hd) as [E1 E2]. split; [done|]. split; [done|].
    rewrite E1, E2, (cell_at_nat v k j b _ _ Hb) in Hx.
    assert (cl_gen l <= g) by (apply Hn; by eexists).
    assert (g <= cl_gen l) by (eapply (ho_newest _ _ _ H); [exact Hl|by exists k, (Z.of_nat j)]). lia.
  - destruct (se_buried _ S _ _ _ _ _ Hl Hk Hd) as (g' & n & s & Hlt & Hx).
    rewrite (cell_at_nat v k j b _ _ Hb) in Hx. assert (g' <= g) by (apply Hn; by eexists). lia.
Qed.

(** A located live chunk is current in its store. *)
Lemma located_current (v : V) M gone c l d :
  holds v M gone -> v_locOf v !! c = Some l -> M !! c = Some d ->
  exists b, stream (loc_stream l) v !! Z.to_nat (cl_disk l) = Some b /\ 0 <= cl_disk l /\
    current (db_store b) c (cl_gen l) /\ view (db_store b) !! (c, cl_gen l) = Some (Live d).
Proof.
  intros H Hl HM. destruct (ho_loc _ _ _ H _ _ Hl) as (_ & _ & x & Hx & Hp). rewrite HM in Hp.
  destruct x as [d'|]; [|done]. injection Hp as <-. apply cell_at_inv in Hx as (b & H0 & Hb & Hv).
  exists b. split; [done|]. split; [done|]. split; [|done]. split; [|by exists d]. split; [by eexists|].
  intros g' [y Hy]. eapply (ho_newest _ _ _ H); [exact Hl|]. exists (loc_stream l), (cl_disk l).
  split; [unfold loc_stream; by destruct (cl_small l)|].
  rewrite <- (Z2Nat.id (cl_disk l)), (cell_at_nat v _ _ b) by done. exact Hy.
Qed.

Lemma restart_shape fs (v v' : V) M gone r :
  holds v M gone -> settled v -> restarted fs v = (v', r) ->
  r = Ok tt /\
  (forall k, k <> KShard -> length (stream k v') = length (stream k v)) /\
  (forall k j b b', k <> KShard -> stream k v !! j = Some b -> stream k v' !! j = Some b' ->
     view (db_store b') = view (db_store b)) /\
  (forall c, v_locOf v' !! c = if bool_decide (is_Some (M !! c)) then v_locOf v !! c else None).
Proof.
  intros H S. unfold restarted, AttachSmallStores, NewMultiV2Store.
  set (ds := _ <$> v_disks v). destruct (adopt_all 0 false ds ∅) as [disks locs] eqn:E1. cbn [v_disks v_locOf v_small].
  set (ss := db_store <$> v_small v).
  destruct (adopt_all_spec false ds 0 ∅ disks locs) as (L1 & V1 & A1 & N1); [|exact E1|].
  { apply Forall_forall. intros sd Hsd. apply list_elem_of_fmap in Hsd as (b & -> & Hb).
    by apply (se_listable _ S KData). }
  unfold ds in L1. rewrite length_fmap in L1.
  assert (length ss = length (v_small v)) as Lss by (unfold ss; by rewrite length_fmap).
  replace ((0 <? bytelen ss) && negb (bytelen ss =? bytelen disks)) with false; last first.
  { destruct (ho_shape _ _ _ H) as [_ [Hs|Hs]]; rewrite L1, Lss.
    - by rewrite Hs.
    - rewrite Hs, Z.eqb_refl. by rewrite andb_false_r. }
  set (ss' := (fun s => (s, ""%string)) <$> ss).
  destruct (adopt_all 0 true ss' locs) as [sm locs'] eqn:E2. intros [= <- <-].
  destruct (adopt_all_spec true ss' 0 locs sm locs') as (L2 & V2 & A2 & N2); [|exact E2|].
  { apply Forall_forall. intros sd Hsd. apply list_elem_of_fmap in Hsd as (s & -> & Hs).
    apply list_elem_of_fmap in Hs as (b & -> & Hb). by apply (se_listable _ S KSmall). }
  unfold ss', ss in L2. rewrite !length_fmap in L2.
  assert (forall j sd, ds !! j = Some sd <-> exists b, v_disks v !! j = Some b /\ sd = (db_store b, db_dir b)) as Hds.
  { intros j sd. unfold ds. rewrite list_lookup_fmap_Some. naive_solver. }
  assert (forall j sd, ss' !! j = Some sd <-> exists b, v_small v !! j = Some b /\ sd = (db_store b, ""%string)) as Hss.
  { intros j sd. unfold ss', ss. rewrite list_lookup_fmap_Some. setoid_rewrite list_lookup_fmap_Some. naive_solver. }
  split; [done|]. split; [by intros []|]. split.
  { intros [] j b b' Hk Hb Hb'; [|done|]; cbn in Hb, Hb'.
    - by apply (V1 j (db_store b, db_dir b) b'); [apply Hds; by exists b|].
    - by apply (V2 j (db_store b, ""%string) b'); [apply Hss; by exists b|]. }
  intros c. cbn [v_locOf set_locOf set_stream].
  assert (forall j sd g, ss' !! j = Some sd -> current sd.1 c g ->
            exists l, v_locOf v !! c = Some l /\ loc_stream l = KSmall /\ cl_disk l = Z.of_nat j /\ cl_gen l = g) as Hcs.
  { intros j sd g Hj Hc. apply Hss in Hj as (b & Hb & ->). by eapply (current_located v M gone KSmall j b). }
  assert (forall j sd g, ds !! j = Some sd -> current sd.1 c g ->
            exists l, v_locOf v !! c = Some l /\ loc_stream l = KData /\ cl_disk l = Z.of_nat j /\ cl_gen l = g) as Hcd.
  { intros j sd g Hj Hc. apply Hds in Hj as (b & Hb & ->). by eapply (current_located v M gone KData j b). }
  case_bool_decide as HM.
  - destruct HM as [d HM]. destruct (v_locOf v !! c) as [l|] eqn:Hl; [|by rewrite (ho_none _ _ _ H c Hl) in HM].
    destruct (located_current v M gone c l d H Hl HM) as (b & Hb & H0 & Hc & _).
    destruct (cl_small l) eqn:Hsm; unfold loc_stream in Hb; rewrite Hsm in Hb; cbn in Hb.
    + rewrite (A2 (Z.to_nat (cl_disk l)) (db_store b, ""%string) c (cl_gen l)).
      * f_equal. rewrite Z.add_0_l, Z2Nat.id by done. destruct l; cbn in *. by subst.
      * apply Hss. by exists b.
      * exact Hc.
      * intros j' sd' g' Hj' Hc'. destruct (Hcs _ _ _ Hj' Hc') as (l' & [= <-] & _ & Hd & _). lia.
    + rewrite N2, (A1 (Z.to_nat (cl_disk l)) (db_store b, db_dir b) c (cl_gen l)).
      * f_equal. rewrite Z.add_0_l, Z2Nat.id by done. destruct l; cbn in *. by subst.
      * apply Hds. by exists b.
      * exact Hc.
      * intros j' sd' g' Hj' Hc'. destruct (Hcd _ _ _ Hj' Hc') as (l' & [= <-] & _ & Hd & _). lia.
      * intros j sd g Hj Hcj. destruct (Hcs _ _ _ Hj Hcj) as (l' & [= <-] & Hst & _). unfold loc_stream in Hst.
        by rewrite Hsm in Hst.
  - rewrite N2, N1; [by rewrite lookup_empty| |].
    + intros j sd g Hj Hc. apply Hds in Hj as (b & Hb & ->). apply HM.
      destruct (current_located v M gone KData j b c g H S ltac:(done) Hb Hc) as (l & Hl & Hst & Hd & Hg).
      destruct (ho_loc _ _ _ H _ _ Hl) as (_ & _ & x & Hx & Hp). rewrite Hp. destruct Hc as [_ [d Hv]]. cbn [fst] in Hv.
      rewrite Hst, Hd, (cell_at_nat v KData j b c _ Hb), Hg in Hx. rewrite Hv in Hx. injection Hx as <-. by eexists.
    + intros j sd g Hj Hc. apply Hss in Hj as (b & Hb & ->). apply HM.
      destruct (current_located v M gone KSmall j b c g H S ltac:(done) Hb Hc) as (l & Hl & Hst & Hd & Hg).
      destruct (ho_loc _ _ _ H _ _ Hl) as (_ & _ & x & Hx & Hp). rewrite Hp. destruct Hc as [_ [d Hv]]. cbn [fst] in Hv.
      rewrite Hst, Hd, (cell_at_nat v KSmall j b c _ Hb), Hg in Hx. rewrite Hv in Hx. injection Hx as <-. by eexists.
Qed.

Lemma restart_holds fs (v v' : V) M gone r :
  holds v M gone -> settled v -> restarted fs v = (v', r) ->
  r = Ok tt /\ holds v' M gone.
Proof.
  intros H S E. destruct (restart_shape fs v v' M gone r H S E) as (-> & L & Vw & Lo). split; [done|].
  assert (forall k i c g, k <> KShard -> cell_at v' k i c g = cell_at v k i c g) as C.
  { intros k i c g Hk. unfold DataNodeProofs.cell_at. pose proof (L k Hk) as Lk.
    destruct (at_index (stream k v) i) as [b|] eqn:Ha.
    - apply at_index_Some in Ha as [R Hb]. destruct (at_index (stream k v') i) as [b'|] eqn:Ha'.
      + apply at_index_Some in Ha' as [_ Hb']. cbn [mbind option_bind]. by rewrite (Vw k _ b b' Hk Hb Hb').
      + apply at_index_None in Ha'. lia.
    - apply at_index_None in Ha. rewrite (proj2 (at_index_None _ _)); [done|]. lia. }
  assert (forall c g x, chunk_cell (view := view) v' c g x -> chunk_cell (view := view) v c g x) as Cc.
  { intros c g x (k & i & Hk & Hx). exists k, i. split; [done|]. by rewrite <- C. }
  assert (forall c l, v_locOf v' !! c = Some l -> v_locOf v !! c = Some l) as Lo1
    by (intros c l; rewrite Lo; by case_bool_decide).
  constructor.
  - pose proof (L KData ltac:(done)) as L1. pose proof (L KSmall ltac:(done)) as L2. cbn in L1, L2.
    destruct (ho_shape _ _ _ H) as [Hd Hs]. split.
    + intros E1. rewrite E1 in L1. by destruct (v_disks v).
    + destruct Hs as [Hs|Hs]; [left|right; congruence]. rewrite Hs in L2. by destruct (v_small v').
  - intros c l Hl. apply Lo1 in Hl. destruct (ho_loc _ _ _ H _ _ Hl) as (R & G & x & Hx & Hp).
    assert (loc_stream l <> KShard) as Hk by (unfold loc_stream; by destruct (cl_small l)).
    rewrite (L _ Hk). split; [done|]. split; [done|]. exists x. by rewrite C.
  - intros c. rewrite Lo. case_bool_decide as HM; [apply (ho_none _ _ _ H)|].
    intros _. destruct (M !! c); [|done]. by destruct HM.
  - intros c Hc. rewrite Lo. case_bool_decide as HM; [|done].
    by apply (ho_gone _ _ _ H).
  - intros c l g x Hl%Lo1 Hx%Cc. by eapply (ho_newest _ _ _ H).
  - intros c l x d Hl%Lo1 Hx%Cc. by eapply (ho_copies _ _ _ H).
  - intros c g x Hn Hg Hx%Cc.
    assert (v_locOf v !! c = None) as Hl; [|by eapply (ho_fresh _ _ _ H)].
    rewrite Lo in Hn. case_bool_decide as HM; [done|]. destruct (v_locOf v !! c) as [l|] eqn:Hl; [|done].
    exfalso. apply HM. destruct (ho_loc _ _ _ H _ _ Hl) as (_ & _ & x' & Hx' & ->).
    destruct (se_live _ S _ _ Hl) as [d Hd]. rewrite Hd in Hx'. injection Hx' as <-. by eexists.
  - intros c l i Hl%Lo1 Hs. rewrite C by done. by eapply (ho_small _ _ _ H).
Qed.
End Start.
