(* ===== verification/DataNodeTheorems.v ===== *)
(** * Theorems on the data node

    The chunk store of a node against a map of chunks, its restarts, and the
    calls after which the map and the node part. *)

From stdpp Require Import base list numbers strings gmap.
From Stdlib Require Import ZArith Lia.
From S2P Require Import Prelude StorageTypes Index Store StoreSpec StoreInterface.
From S2P Require Import DataNode DataNodeProofs DataNodeMoves.

Local Open Scope Z_scope.
Local Open Scope go_scope.

(** ** The specification *)

(** What callers see of a call: a put, a delete, or nothing. *)
Inductive node_op := NPut (c : Z) (data : list Z) | NDel (c : Z) | NInternal.

Definition node_trace : Type := list (node_op * bool).

(** A call and whether it succeeded, on the map of chunks; a delete that
    failed may have happened. *)
Definition spec_next (M : gmap Z (list Z)) (ev : node_op * bool) (M' : gmap Z (list Z)) : Prop :=
  match ev with
  | (NPut c data, true) => M' = <[c := data]> M
  | (NDel c, true) => M' = delete c M
  | (NDel c, false) => M' = M \/ M' = delete c M
  | _ => M' = M
  end.

Inductive spec_run : gmap Z (list Z) -> node_trace -> gmap Z (list Z) -> Prop :=
| spec_nil M : spec_run M [] M
| spec_snoc M tr M1 ev M2 : spec_run M tr M1 -> spec_next M1 ev M2 -> spec_run M (tr ++ [ev]) M2.

Lemma spec_run_inv M tr M' :
  spec_run M tr M' ->
  (tr = [] /\ M' = M) \/
  exists tr' ev M1, tr = tr' ++ [ev] /\ spec_run M tr' M1 /\ spec_next M1 ev M'.
Proof. destruct 1; [by left|right]. eauto 10. Qed.

Definition deleted_by (ev : node_op * bool) : gset Z :=
  match ev with (NDel c, true) => {[c]} | _ => ∅ end.
Definition deleted (tr : node_trace) : gset Z := ⋃ (deleted_by <$> tr).

Section Theorems.
Context {B : Type} {view : B -> cells} `{SL : StorageLaws B view}.

Abbreviation V := (V2Store B).

(** One call of a node from which the chunks in [gone] were deleted. Every
    store call in it may fail. A chunk that was deleted is not written
    again, an issued generation is newer than the chunk's, a move ends on a
    live copy, and a drain goes to disks without tombstones; the theorems
    below show what happens without these conditions. *)
Inductive node_step (gone : gset Z) : V -> node_op * bool -> V -> Prop :=
| step_write c data v v' r :
    c ∉ gone -> (forall l, v_locOf v !! c = Some l -> cl_gen l + 1 < 2 ^ 64) ->
    V2_Write c data v = (v', r) -> node_step gone v (NPut c data, is_ok r) v'
| step_write_gen c g data v v' r :
    c ∉ gone -> 1 <= g < 2 ^ 64 -> (forall l, v_locOf v !! c = Some l -> cl_gen l < g) ->
    V2_WriteGen c g data v = (v', r) -> node_step gone v (NPut c data, is_ok r) v'
| step_delete c v v' r :
    V2_Delete c v = (v', r) -> node_step gone v (NDel c, is_ok r) v'
| step_read c off n v v' r :
    c ∉ gone -> V2_Read c off n v = (v', r) -> node_step gone v (NInternal, is_ok r) v'
| step_copy c from to v v' r :
    rebalance_copy c from to v = (v', r) -> node_step gone v (NInternal, is_ok r) v'
| step_commit c from to g data rm v v' r :
    from <> to -> cell_at (view := view) v KData to c g = Some (Live data) ->
    (forall l, v_locOf v !! c = Some l ->
       exists d, cell_at (view := view) v (loc_stream l) (cl_disk l) c (cl_gen l) = Some (Live d)) ->
    rebalance_commit c from to g data rm v = (v', r) -> node_step gone v (NInternal, is_ok r) v'
| step_rebalance t v v' r :
    clean_but (view := view) (-1) v -> RebalanceBalanced t v = (v', r) -> node_step gone v (NInternal, is_ok r) v'
| step_migrate src v v' r :
    clean_but (view := view) src v -> MigrateDisk src v = (v', r) -> node_step gone v (NInternal, is_ok r) v'
| step_remove i v v' r :
    RemoveDisk i v = (v', r) -> node_step gone v (NInternal, is_ok r) v'
| step_probe i v v' r :
    probeDisk i v = (v', r) -> node_step gone v (NInternal, is_ok r) v'
| step_restart fs v v' r :
    settled (view := view) v -> restarted fs v = (v', r) -> node_step gone v (NInternal, is_ok r) v'
| step_capacity caps v :
    (** the file systems fill and drain *)
    node_step gone v (NInternal, true)
      (mkV2 (v_disks v) (v_shards v) (v_small v) caps (v_locOf v) (v_shardDiskOf v) (v_stateVersion v)).

Inductive node_run : V -> node_trace -> V -> Prop :=
| run_start v : node_run v [] v
| run_next v0 tr v ev v' :
    node_run v0 tr v -> node_step (deleted tr) v ev v' -> node_run v0 (tr ++ [ev]) v'.

(** A node whose stores have no extents of chunks. *)
Definition new_node (v : V) : Prop :=
  shaped v /\ v_locOf v = ∅ /\ forall k i c g, k <> KShard -> cell_at (view := view) v k i c g = None.

Lemma new_node_holds v : new_node v -> holds (view := view) v ∅ ∅.
Proof.
  intros (Hs & Hl & Hc).
  assert (forall c g x, ~ chunk_cell (view := view) v c g x) as Hx.
  { intros c g x (k & i & Hk & Hx). by rewrite Hc in Hx. }
  constructor; try done; intros *; rewrite ?Hl; try done.
Qed.

Lemma step_holds gone v M ev v' :
  node_step gone v ev v' -> holds (view := view) v M gone ->
  exists M', spec_next M ev M' /\ holds (view := view) v' M' (deleted_by ev ∪ gone).
Proof.
  intros St H. destruct St as [c data v v' r Hc Hb E|c g data v v' r Hc Hg Hn E|c v v' r E|c off n v v' r Hc E
    |c from to v v' r E|c from to g data rm v v' r Hft Hcell Hlive E|t v v' r Hcl E|src v v' r Hcl E|i v v' r E|i v v' r E
    |fs v v' r Hs E|caps v].
  - apply (V2_Write_holds v M gone) in E; [|done..]. destruct r; cbn in *; rewrite union_empty_l_L; eauto.
  - apply (V2_WriteGen_holds v M gone) in E; [|done..]. destruct r; cbn in *; rewrite union_empty_l_L; eauto.
  - apply (V2_Delete_spec v M gone) in E; [|done]. destruct r; cbn in *; [eauto|]. rewrite union_empty_l_L.
    destruct E; eauto.
  - apply (V2_Read_spec v M gone) in E as [E _]; [|done..]. exists M. cbn. rewrite union_empty_l_L. by destruct (is_ok r).
  - apply (rebalance_copy_spec v v' M gone) in E as [E _]; [|done]. exists M. cbn. rewrite union_empty_l_L. by destruct (is_ok r).
  - exists M. cbn. rewrite union_empty_l_L. split; [by destruct (is_ok r)|].
    destruct (v_locOf v !! c) as [l|] eqn:Hl.
    + eapply rebalance_commit_holds; [exact H|exact Hft|exact Hcell| |exact E].
      destruct (Hlive _ eq_refl) as [d Hd]. destruct (ho_loc _ _ _ H _ _ Hl) as (_ & _ & x & Hx & ->).
      rewrite Hd in Hx. injection Hx as <-. by eexists.
    + unfold rebalance_commit in E. cbn [bindN getN] in E. rewrite Hl in E. by injection E as <- <-.
  - exists M. cbn. rewrite union_empty_l_L. split; [by destruct (is_ok r)|]. by eapply RebalanceBalanced_holds.
  - exists M. cbn. rewrite union_empty_l_L. split; [by destruct (is_ok r)|]. by eapply MigrateDisk_holds.
  - exists M. cbn. rewrite union_empty_l_L. split; [by destruct (is_ok r)|]. by eapply RemoveDisk_holds.
  - exists M. cbn. rewrite union_empty_l_L. split; [by destruct (is_ok r)|]. by eapply probe_holds.
  - exists M. cbn. rewrite union_empty_l_L. split; [by destruct (is_ok r)|].
    by apply (restart_holds fs v v' M gone r H Hs E).
  - exists M. cbn. rewrite union_empty_l_L. split; [done|]. eapply same_holds; [|exact H].
    constructor; [by intros []|done|by intros []].
Qed.

Lemma deleted_snoc tr ev : deleted (tr ++ [ev]) = deleted_by ev ∪ deleted tr.
Proof.
  unfold deleted. rewrite fmap_app, union_list_app_L. cbn. rewrite union_empty_r_L. apply union_comm_L.
Qed.

Lemma run_holds v0 tr v :
  new_node v0 -> node_run v0 tr v -> exists M, spec_run ∅ tr M /\ holds (view := view) v M (deleted tr).
Proof.
  intros H0 R. induction R as [v|v0 tr v ev v' R IH St].
  - exists ∅. split; [constructor|by apply new_node_holds].
  - destruct (IH H0) as (M & Hs & H). destruct (step_holds _ _ _ _ _ St H) as (M' & Hn & H').
    exists M'. split; [by econstructor|]. by rewrite deleted_snoc.
Qed.



(** An older generation replaces a newer one. A write under an issued
    generation that the owning disk does not have yet succeeds whatever
    generation the node serves, and from then on the node serves it: a
    delayed write of generation [g] makes reads return its bytes instead of
    those of a newer generation, which the node still stores. *)
Theorem late_generation_takes_over v M gone c l g data v' off n v'' x sum :
  holds (view := view) v M gone -> v_locOf v !! c = Some l -> cl_small l = false -> g < cl_gen l ->
  cell_at (view := view) v KData (cl_disk l) c g = None ->
  V2_WriteGen c g data v = (v', Ok tt) -> V2_Read c off n v' = (v'', Ok (x, sum)) ->
  x = window (mkReadRequest c 0 off n) data /\
  exists y, cell_at (view := view) v' KData (cl_disk l) c (cl_gen l) = Some y /\ M !! c = payload y.
Proof.
  intros H Hl Hsm Hg Hn E ER.
  destruct (ho_loc _ _ _ H _ _ Hl) as (R & _ & y & Hy & HM). unfold loc_stream in R, Hy. rewrite Hsm in R, Hy.
  unfold V2_WriteGen, currentLoc in E. cbn [bindN getN] in E. rewrite Hl in E. destruct l as [disk g0 small].
  cbn in Hsm. subst small. cbn [cl_disk cl_gen] in *. apply writeTo_spec in E. cbn [stream] in R.
  rewrite clamp_in in E by done. destruct E as [_ L S [[_ C]|(z & Hz & _)]]; [|congruence].
  split; [|exists y; split; [|done]; rewrite C, bool_decide_false by (intros (_ & _ & _ & ?); lia); done].
  unfold V2_Read in ER. cbn [bindN getN] in ER.
  assert (loc v' c = mkLoc disk g false /\ backendAt v' (mkLoc disk g false) = (KData, disk)) as [El Eb].
  { pose proof (S KData) as SD. cbn in SD. unfold loc, backendAt. rewrite L, lookup_insert_eq. cbn.
    rewrite SD. destruct (Z.ltb_spec disk 0), (Z.leb_spec (bytelen (v_disks v)) disk); cbn; lia || done. }
  rewrite El, Eb in ER.
  apply bindN_inv in ER as [(res & v1 & E1 & ER)|(e & _ & [=])]. apply (call_read (view := view)) in E1 as [_ (d & Hd & ->)].
  cbn [cl_gen] in Hd. rewrite C, bool_decide_true in Hd by done. injection Hd as <-.
  apply bindN_inv in ER as [([] & v2 & _ & [= _ <- _])|(e & _ & [=])]. done.
Qed.
End Theorems.
