(* ===== verification/DataNodeScenario.v ===== *)
(** * Concrete data nodes

    The theorems of [DataNodeTheorems] applied to nodes whose stores are
    [cell_store]s, and runs in which a node loses or revives a chunk. *)

From stdpp Require Import base list numbers strings gmap.
From Stdlib Require Import ZArith Lia.
From S2P Require Import Prelude StorageTypes Index Store StoreSpec StoreInterface.
From S2P Require Import DataNode DataNodeProofs DataNodeMoves DataNodeTheorems.

Local Open Scope Z_scope.
Local Open Scope go_scope.

Abbreviation node := (V2Store cell_store).

Definition empty_store : cell_store := mkCellStore ∅ [].
Definition no_fs (_ : string) : Z * Z := (0, 0).

(** [n] empty disks, without and with small-file streams. *)
Definition node_of (n : nat) : node := NewMultiV2Store (replicate n (empty_store, ""%string)) no_fs.
Definition small_node_of (n : nat) : node := (AttachSmallStores (replicate n empty_store) (node_of n)).1.

(** A sequence of calls; an error does not stop it. *)
Fixpoint run_all (cs : list (N (B := cell_store) unit)) (v : node) : node :=
  match cs with
  | [] => v
  | c :: cs => run_all cs (c v).1
  end.

Definition ignore {A} (c : N (B := cell_store) A) : N (B := cell_store) unit := node! _ := c in retN tt.

Definition read_of (c : Z) (v : node) : go (list Z) :=
  let! (d, _) := (V2_Read c 0 0 v).2 in Ok d.

(** ** Runs in which chunks go wrong *)

(** A chunk that is written, deleted and written again with the same bytes:
    the second write is acknowledged, and the chunk cannot be read. *)
Example rewrite_after_delete_is_lost :
  let v := run_all [V2_Write 7 [1; 2; 3]; V2_Delete 7] (node_of 1) in
  (V2_Write 7 [1; 2; 3] v).2 = Ok tt /\
  read_of 7 (V2_Write 7 [1; 2; 3] v).1 = Err ErrExtentNotFound.
Proof. by vm_compute. Qed.

(** A chunk that was overwritten and then deleted is served in its first
    version. *)
Example deleted_chunk_serves_old_version :
  let v := run_all [V2_Write 7 [1]; V2_Write 7 [2]] (node_of 1) in
  read_of 7 v = Ok [2] /\ (V2_Delete 7 v).2 = Ok tt /\ read_of 7 (V2_Delete 7 v).1 = Ok [1].
Proof. by vm_compute. Qed.

(** Two drains in a row: the first leaves a tombstone on disk 0, where the
    second one's write is taken for a repetition; then the last copy goes. *)
Example drain_back_loses_chunk :
  let v := run_all [V2_Write 7 [1]; ignore (MigrateDisk 0)] (node_of 2) in
  read_of 7 v = Ok [1] /\ (MigrateDisk 1 v).2 = Ok 1 /\
  read_of 7 (MigrateDisk 1 v).1 = Err ErrExtentNotFound.
Proof. by vm_compute. Qed.

(** A chunk moved from disk 1 to disk 0 and overwritten there: after a
    restart the copy left on disk 1 is served. *)
Example restart_serves_stale_copy :
  let v := run_all [V2_Write 1 [0; 0]; V2_Write 7 [1]; ignore (RebalanceOne 7 1 0); V2_Write 7 [2]] (node_of 2) in
  read_of 7 v = Ok [2] /\ read_of 7 (restarted no_fs v).1 = Ok [1].
Proof. by vm_compute. Qed.

(** A chunk moved and then deleted comes back at the restart. *)
Example restart_revives_deleted_chunk :
  let v := run_all [V2_Write 1 [0; 0]; V2_Write 7 [1]; ignore (RebalanceOne 7 1 0); V2_Delete 7] (node_of 2) in
  v_locOf v !! 7 = None /\ read_of 7 (restarted no_fs v).1 = Ok [1].
Proof. by vm_compute. Qed.

(** Five writes of a deleted chunk, each refused because of its tombstone,
    mark a sound disk as failed, and the node takes no more writes. *)
Example refused_writes_fail_disk :
  let v := run_all (V2_Write 7 [1] :: V2_Delete 7 :: replicate 5 (V2_Write 7 [2])) (node_of 1) in
  diskState v 0 = Ok DiskFailed /\
  (V2_Write 8 [3] v).2 = Err (Errorf "datanode: disk is FAILED, refusing write").
Proof. by vm_compute. Qed.

(** ** Witnesses *)

Lemma node1_new : new_node (view := ct_cells) (node_of 1).
Proof.
  split; [by split; [|left]|]. split; [done|]. intros k i c g Hk. unfold cell_at.
  destruct (at_index (stream k (node_of 1)) i) as [b|] eqn:Ha; [|done].
  apply at_index_Some in Ha as [R Hb]. destruct k; [|done|by cbn in R; lia].
  assert (v_disks (node_of 1) = [mkBackend empty_store 0 "" 0 0 0 0 0 0 0]) as E by (vm_compute; reflexivity).
  cbn [stream] in Hb, R. rewrite E in Hb, R. cbn in R. replace i with 0 in Hb by lia.
  injection Hb as <-. apply lookup_empty.
Qed.

(** One chunk of three bytes on one disk. *)
Definition node1 : node := (V2_Write 7 [1; 2; 3] (node_of 1)).1.

Lemma node1_run : node_run (view := ct_cells) (node_of 1) ([] ++ [(NPut 7 [1; 2; 3], true)]) node1.
Proof.
  eapply run_next; [apply run_start|]. eapply (step_write ∅ 7 [1; 2; 3] (node_of 1) node1 (Ok tt));
    [set_solver| |vm_compute; reflexivity].
  intros l Hl. vm_compute in Hl. discriminate.
Qed.

Lemma node1_cells k i c g x :
  k <> KShard -> cell_at (view := ct_cells) node1 k i c g = Some x ->
  k = KData /\ i = 0 /\ c = 7 /\ g = 1 /\ x = Live [1; 2; 3].
Proof.
  intros Hk H. apply cell_at_inv in H as (b & H0 & Hb & Hx). destruct k; [|done|by vm_compute in Hb].
  change (stream KData node1) with (v_disks node1) in Hb.
  assert (v_disks node1 = [mkBackend (mkCellStore {[(7, 1) := Live [1; 2; 3]]} []) 0 "" 3 1 0 3 1 0 0]) as E
    by (vm_compute; reflexivity).
  rewrite E in Hb. destruct (Z.to_nat i) as [|j] eqn:Hi; cbn in Hb; [|by destruct j].
  injection Hb as <-. cbn [db_store ct_cells] in Hx. apply lookup_singleton_Some in Hx as [[= <- <-] <-].
  assert (i = 0) as -> by lia. done.
Qed.

Lemma node1_holds : holds (view := ct_cells) node1 {[7 := [1; 2; 3]]} ∅.
Proof.
  destruct (run_holds _ _ _ node1_new node1_run) as (M & Hs & H).
  assert (M = {[7 := [1; 2; 3]]}) as ->; [|exact H].
  apply spec_run_inv in Hs as [[E _]|(tr & ev & M1 & E & Hs & Hn)]; [done|].
  apply app_inj_tail in E as [<- <-]. apply spec_run_inv in Hs as [[_ ->]|(tr & ev & M2 & E & _)]; [exact Hn|].
  by destruct tr.
Qed.


Lemma node1_settled : settled (view := ct_cells) node1.
Proof.
  constructor.
  - intros c g k i x g' k' i' x' Hk Hk' H1 H2. apply node1_cells in H1 as (-> & -> & _); [|done].
    by apply node1_cells in H2 as (-> & -> & _).
  - intros c g k i d Hl Hk Hx. apply node1_cells in Hx as (_ & _ & -> & _); [|done]. vm_compute in Hl. discriminate.
  - intros c l Hl. assert (v_locOf node1 = {[7 := mkLoc 0 1 false]}) as E by (vm_compute; reflexivity).
    rewrite E in Hl. apply lookup_singleton_Some in Hl as [<- <-]. exists [1; 2; 3]. vm_compute. reflexivity.
  - intros k b Hk Hb. destruct k; [|done|by apply not_elem_of_nil in Hb].
    unfold listable. cbn [ss_ListExtents cell_store_ops]. unfold ct_call.
    destruct (ct_faults (db_store b)) as [|[msg|] fs] eqn:Hf; [by eexists| |by eexists].
    exfalso. assert (ct_faults <$> (db_store <$> v_disks node1) = [[]]) as E by (vm_compute; reflexivity).
    assert (ct_faults (db_store b) ∈ [@nil (option string)]) as Hin
      by (rewrite <- E; by do 2 apply list_elem_of_fmap_2).
    rewrite Hf in Hin. by apply list_elem_of_singleton in Hin.
Qed.


(** The node serves generation 5 when the write of generation 3 arrives. *)
Definition node5 : node := (V2_WriteGen 7 5 [5] (node_of 1)).1.

Lemma node5_holds : holds (view := ct_cells) node5 {[7 := [5]]} ∅.
Proof.
  pose proof (V2_WriteGen_holds (view := ct_cells) (node_of 1) ∅ ∅ 7 5 [5] node5 (Ok tt)
    (new_node_holds _ node1_new) ltac:(set_solver) ltac:(lia)) as H. cbn in H.
  apply H; [|vm_compute; reflexivity]. intros l Hl. vm_compute in Hl. discriminate.
Qed.

Lemma late_generation_takes_over_witness :
  (V2_WriteGen 7 3 [3] node5).2 = Ok tt /\
  exists x sum, (V2_Read 7 0 0 (V2_WriteGen 7 3 [3] node5).1).2 = Ok (x, sum) /\ x = [3].
Proof.
  assert ((V2_WriteGen 7 3 [3] node5).2 = Ok tt) as E by (vm_compute; reflexivity).
  split; [exact E|]. exists [3], (checksumOf [3]).
  assert ((V2_Read 7 0 0 (V2_WriteGen 7 3 [3] node5).1).2 = Ok ([3], checksumOf [3])) as ER by (vm_compute; reflexivity).
  split; [exact ER|].
  refine (proj1 (late_generation_takes_over (view := ct_cells) node5 {[7 := [5]]} ∅ 7 (mkLoc 0 5 false) 3 [3]
    (V2_WriteGen 7 3 [3] node5).1 0 0 (V2_Read 7 0 0 (V2_WriteGen 7 3 [3] node5).1).1 [3] (checksumOf [3])
    node5_holds _ eq_refl _ _ _ _)).
  - vm_compute. reflexivity.
  - cbn. lia.
  - vm_compute. reflexivity.
  - rewrite <- E. apply surjective_pairing.
  - rewrite <- ER. apply surjective_pairing.
Defined.
