(* ===== verification/ErasureCode.v ===== *)
(** * The erasure coders

    Models [nufs-core/chunkstore/ec_encoder.go], [ec_reconstruct.go] and
    [nufs-core/datanode/ec63.go]: the gateway's coder for any [K+M] and the
    data node's own for 6+3. Data is padded with zeros to [K] equal shards;
    parity comes from the Reed-Solomon library, which is the class [RSLib]
    with the laws [RSLaws]. Shard counts are naturals with [K > 0]:
    [NewECEncoder] panics otherwise. *)

From stdpp Require Import base list numbers strings.
From Stdlib Require Import ZArith Lia.
From S2P Require Import Prelude Bytes StorageTypes.

(** * The erasure-coding library

    [github.com/klauspost/reedsolomon] is not part of the repository: [RSLib]
    is what the code calls of it, [RSLaws] what its documentation promises of
    [k] data and [m] parity shards. Coding works column by column (the bytes
    at one position of all shards); any [k] shards of a stripe determine it;
    a missing shard is an empty slice; empty stripes are refused.

    Below, the slices of a stripe at one window of positions are a stripe
    again, which is what reads of a part of a chunk rely on. *)

Local Open Scope Z_scope.
Local Open Scope go_scope.

Class RSLib := {
  rs_Encode : nat -> nat -> list (list Z) -> go (list (list Z));
  rs_Reconstruct : nat -> nat -> list (list Z) -> go (list (list Z));
  rs_Verify : nat -> nat -> list (list Z) -> go bool
}.

(** The bytes at position [p]. *)
Definition column (p : nat) (shards : list (list Z)) : list Z := (fun s => default 0 (s !! p)) <$> shards.

(** Shards of [n] bytes. *)
Definition all_of_length (n : nat) (shards : list (list Z)) : Prop :=
  Forall (fun s => length s = n /\ bytes_wf s) shards.

(** A stripe of size [n]: [parity] gives the parity bytes of a column. *)
Definition stripe (parity : list Z -> list Z) (k m n : nat) (shards : list (list Z)) : Prop :=
  length shards = (k + m)%nat /\ all_of_length n shards /\
  forall p, (p < n)%nat -> column p (drop k shards) = parity (column p (take k shards)).

(** Some shards of a stripe, the others missing. *)
Definition some_of (whole part : list (list Z)) : Prop :=
  Forall2 (fun w s => s = [] \/ s = w) whole part.

Definition present (s : list Z) : bool := negb (bool_decide (s = [])).
Definition count_present (shards : list (list Z)) : nat := length (filter (fun s => s <> []) shards).

Class RSLaws `{RSLib} (k m : nat) := {
  rs_parity : list Z -> list Z;
  rs_positive : (0 < k)%nat;
  rs_encode_law n shards : length shards = (k + m)%nat -> all_of_length n shards -> (0 < n)%nat ->
    exists out, rs_Encode k m shards = Ok out /\ take k out = take k shards /\ stripe rs_parity k m n out;
  rs_encode_empty shards : all_of_length 0 shards -> exists e, rs_Encode k m shards = Err e;
  rs_reconstruct_law n whole part : stripe rs_parity k m n whole -> (0 < n)%nat -> some_of whole part ->
    (k <= count_present part)%nat -> rs_Reconstruct k m part = Ok whole;
  rs_verify_law n whole : stripe rs_parity k m n whole -> (0 < n)%nat -> rs_Verify k m whole = Ok true
}.

(** ** Slices *)

Lemma column_slice p o n shards :
  (p < n)%nat -> column p (field o n <$> shards) = column (o + p) shards.
Proof.
  intros Hp. unfold column. rewrite <- list_fmap_compose. apply list_fmap_ext. intros i s _. cbn.
  unfold field. by rewrite lookup_take_lt, lookup_drop by done.
Qed.

Lemma stripe_slice parity k m n shards o l :
  stripe parity k m n shards -> (o + l <= n)%nat -> stripe parity k m l (field o l <$> shards).
Proof.
  intros (H1 & H2 & H3) Hle. split; [by rewrite length_fmap|]. split.
  - apply Forall_fmap. eapply Forall_impl; [exact H2|]. intros s [Hs Hw]. split; [|by apply field_wf].
    unfold field. rewrite length_take, length_drop. lia.
  - intros p Hp. rewrite <- fmap_take, <- fmap_drop, !column_slice by done. apply H3. lia.
Qed.

Lemma some_of_length whole part : some_of whole part -> length part = length whole.
Proof. intros H. symmetry. by eapply Forall2_length. Qed.

(** Reconstruction of a slice from slices. *)
Lemma reconstruct_slice `{RSLaws k m} n shards o l part :
  stripe rs_parity k m n shards -> (o + l <= n)%nat -> (0 < l)%nat ->
  some_of (field o l <$> shards) part -> (k <= count_present part)%nat ->
  rs_Reconstruct k m part = Ok (field o l <$> shards).
Proof. intros Hs Hle Hl. apply rs_reconstruct_law with (n := l); [by eapply stripe_slice|done]. Qed.

Section Coders.
Context `{RSLib}.

(** [ECResult] *)
Record ECResult := mkECResult {
  er_DataShards : list (list Z); er_ParityShards : list (list Z); er_TotalShards : nat
}.

Definition shard_size (k len : nat) : nat := ((len + k - 1) / k)%nat.

(** The data with its zeros. *)
Definition padded (k : nat) (data : list Z) : list Z :=
  data ++ replicate (shard_size k (length data) * k - length data) 0.

(** [padded[i*shardSize : (i+1)*shardSize]] for each [i]. *)
Definition split_shards (k size : nat) (p : list Z) : list (list Z) :=
  (fun i => field (i * size) size p) <$> seq 0 k.

(** [ECEncoder.Encode] *)
Definition Encode (k m : nat) (data : list Z) : go ECResult :=
  let shardSize := shard_size k (length data) in
  let shards := split_shards k shardSize (padded k data) ++ replicate m (replicate shardSize 0) in
  match rs_Encode k m shards with
  | Err e => Err (Wrapf "ec: encode" e)
  | Ok shards => Ok (mkECResult (take k shards) (drop k shards) (k + m))
  end.

Definition count_true (l : list bool) : nat := length (filter (fun b => b = true) l).

(** The tail of [Decode], [decodeEC63] and [reconstructEC63]: reconstruct,
    verify, join the data shards. *)
Definition rebuild (k m : nat) (rsShards : list (list Z)) (originalLen : Z) : go (list (list Z) * list Z) :=
  match rs_Reconstruct k m rsShards with
  | Err e => Err (Wrapf "reconstruct" e)
  | Ok rsShards =>
      match rs_Verify k m rsShards with
      | Err e => Err (Wrapf "verify" e)
      | Ok ok =>
          refuse negb ok with Errorf "verification failed" in
          refuse originalLen <? 0 with GoPanic "makeslice: cap out of range" in
          let result := concat (take k rsShards) in
          refuse Z.of_nat (length result) <? originalLen with Errorf "reconstructed data too short" in
          Ok (rsShards, take (Z.to_nat originalLen) result)
      end
  end.

(** [ECEncoder.Decode] *)
Definition Decode (k m : nat) (shards : list (list Z)) (shardPresent : list bool) (originalLen : Z) :
  go (list Z) :=
  refuse negb (length shards =? k + m)%nat || negb (length shardPresent =? k + m)%nat
    with Errorf "ec: shard count mismatch" in
  refuse (count_true shardPresent <? k)%nat with Errorf "ec: insufficient shards" in
  let rsShards := zip_with (fun (p : bool) s => if p then s else []) shardPresent shards in
  let! (_, data) := rebuild k m rsShards originalLen in
  Ok data.

(** [shardPresence] *)
Definition shardPresence (shards : list (list Z)) : list bool := present <$> shards.

(** [ReconstructEC63] *)
Definition ReconstructEC63 (shards : list (list Z)) (originalLen : Z) : go (list Z) :=
  match Decode 6 3 shards (shardPresence shards) originalLen with
  | Err e => Err (Wrapf "ec63 reconstruct" e)
  | Ok d => Ok d
  end.

(** *** The data node's coder *)

Definition ec63Data : nat := 6.
Definition ec63Parity : nat := 3.
Definition ec63Shards : nat := 9.

(** [encodeEC63] *)
Definition encodeEC63 (data : list Z) : go (list (list Z)) :=
  let shardSize := ((length data + ec63Data - 1) / ec63Data)%nat in
  let paddedLen := (shardSize * ec63Data)%nat in
  let p := data ++ replicate (paddedLen - length data) 0 in
  let shards := ((fun i => field (i * shardSize) shardSize p) <$> seq 0 ec63Data)
                ++ replicate ec63Parity (replicate shardSize 0) in
  match rs_Encode ec63Data ec63Parity shards with
  | Err e => Err (Wrapf "ec63: encode" e)
  | Ok shards => Ok shards
  end.

(** The checks [decodeEC63] and [reconstructEC63] begin with. *)
Definition ec63_check (shards : list (list Z)) : go unit :=
  refuse negb (length shards =? ec63Shards)%nat with Errorf "ec63: shard count" in
  refuse (count_present shards <? ec63Data)%nat with Errorf "ec63: insufficient shards" in
  Ok tt.

(** [decodeEC63]; an empty shard is passed on as missing, which it is. *)
Definition decodeEC63 (shards : list (list Z)) (originalLen : Z) : go (list Z) :=
  let! _ := ec63_check shards in
  let! (_, data) := rebuild ec63Data ec63Parity shards originalLen in
  Ok data.

(** [reconstructEC63] *)
Definition reconstructEC63 (shards : list (list Z)) (originalLen : Z) : go (list (list Z) * list Z) :=
  let! _ := ec63_check shards in
  rebuild ec63Data ec63Parity shards originalLen.

(** [ec63PaddedLen] *)
Definition ec63PaddedLen (shards : list (list Z)) : Z :=
  Z.of_nat (foldr Nat.max O (length <$> shards)) * Z.of_nat ec63Data.
End Coders.
