(* ===== verification/StripeIO.v ===== *)
(** * Reads and writes of erasure-coded chunks

    Models [nufs-core/chunkstore/ec.go]: [readECChunk] with its window path
    and [writeECShardDirect]. The calls on data nodes go through [net], the
    outcome of each request of one operation (connecting, the reply's status
    and the reply). Requests run in parallel in the source and are collected
    whole; here they are taken in the order of the replicas, which matters
    only if two replicas claim one shard. Contexts are not cancelled. *)

From stdpp Require Import base list numbers strings gmap.
From Stdlib Require Import ZArith Lia.
From S2P Require Import Prelude Bytes StorageTypes Extents ErasureCode.

Local Open Scope Z_scope.
Local Open Scope go_scope.

(** When a request is made: for the window itself, to rebuild the [wi]-th
    window, or for the full read. *)
Inductive phase := Direct | Rebuild (wi : nat) | Full.

(** The outcome of [ReadECShard] for a replica, shard index, offset and
    length. *)
Abbreviation network := (phase -> ReplicaInfo -> Z -> Z -> Z -> go (list Z)).

Section IO.
Context `{RSLib}.

Abbreviation blen d := (Z.of_nat (length d)).

Definition MaxChunkSize : Z := 64 * 1024 * 1024.

(** [readECShardRange]; the full read makes the same call with 0 and 0. *)
Definition readECShardRange (net : network) (ph : phase) (rep : ReplicaInfo) (shardIndex start end_ : Z) :
  go (list Z) :=
  refuse bool_decide (ri_Addr rep = []) with Errorf "empty addr for node" in
  net ph rep shardIndex start (end_ - start).

(** [window] *)
Record shard_window := mkWindow { w_shard : nat; w_start : Z; w_end : Z }.

(** The part of [[offset, end)] in shard [i]. *)
Definition window_in (shardSize offset end_ : Z) (i : nat) : option shard_window :=
  let shardStart := shardSize * Z.of_nat i in
  let shardEnd := shardStart + shardSize in
  if (shardEnd <=? offset) || (end_ <=? shardStart) then None else
  let ws := Z.max 0 (offset - shardStart) in
  let we := Z.min shardSize (end_ - shardStart) in
  Some (mkWindow i (i32 ws) (i32 we)).

Definition windows (k : nat) (shardSize offset end_ : Z) : list shard_window :=
  omap (window_in shardSize offset end_) (seq 0 k).

(** [byIndex]: the last replica of an index counts. *)
Definition by_index (reps : list ReplicaInfo) : gmap Z ReplicaInfo :=
  fold_left (fun m r => <[ri_ShardIndex r := r]> m) reps ∅.

(** One request of exactly the window's length. *)
Definition fetch_window (net : network) (reps : gmap Z ReplicaInfo) (ph : phase) (shard : nat) (w : shard_window) :
  option (list Z) :=
  rep ← reps !! Z.of_nat shard;
  match readECShardRange net ph rep (Z.of_nat shard) (w_start w) (w_end w) with
  | Ok d => if blen d =? w_end w - w_start w then Some d else None
  | Err _ => None
  end.

(** Phase 2 for one window: its bytes from the other shards'. *)
Definition rebuild_window (net : network) (reps : gmap Z ReplicaInfo) (k m wi : nat) (w : shard_window) :
  go (list Z) :=
  let winLen := w_end w - w_start w in
  if winLen <=? 0 then Ok [] else
  let slices := (fun i => if (i =? w_shard w)%nat then []
                          else default [] (fetch_window net reps (Rebuild wi) i w)) <$> seq 0 (k + m) in
  refuse (count_present slices <? k)%nat with Errorf "chunkstore: ec window read: shard unavailable" in
  match rs_Reconstruct k m slices with
  | Err e => Err (Wrapf "chunkstore: ec window reconstruct" e)
  | Ok slices =>
      let s := default [] (slices !! w_shard w) in
      refuse negb (blen s =? winLen) with Errorf "chunkstore: ec window reconstruct: bad length" in
      Ok s
  end.

(** The windows in order, those that phase 1 did not get rebuilt. *)
Fixpoint gather (net : network) (reps : gmap Z ReplicaInfo) (k m wi : nat) (ws : list shard_window) : go (list Z) :=
  match ws with
  | [] => Ok []
  | w :: ws =>
      let! d := (match fetch_window net reps Direct (w_shard w) w with
                 | Some d => Ok d
                 | None => rebuild_window net reps k m wi w
                 end) in
      let! rest := gather net reps k m (S wi) ws in
      Ok (d ++ rest)
  end.

(** [readECWindow] *)
Definition readECWindow (net : network) (chunk : ChunkMeta) (k m : nat) (offset length literalSize : Z) :
  go (list Z) :=
  let shardSize := (literalSize + Z.of_nat k - 1) / Z.of_nat k in
  let end_ := Z.min (offset + length) literalSize in
  if end_ <=? offset then Ok [] else
  gather net (by_index (ck_Replicas chunk)) k m 0 (windows k shardSize offset end_).

(** The replies of the full read, by shard index. *)
Definition collect_shard (net : network) (total : nat) (shards : list (option (list Z))) (rep : ReplicaInfo) :
  list (option (list Z)) :=
  match readECShardRange net Full rep (ri_ShardIndex rep) 0 0 with
  | Ok d => if (0 <=? ri_ShardIndex rep) && (ri_ShardIndex rep <? Z.of_nat total)
            then <[Z.to_nat (ri_ShardIndex rep) := Some d]> shards else shards
  | Err _ => shards
  end.

Definition collect_shards (net : network) (total : nat) (reps : list ReplicaInfo) : list (option (list Z)) :=
  fold_left (collect_shard net total) reps (replicate total None).

(** The full read: decode the stripe, then cut. *)
Definition full_read (net : network) (chunk : ChunkMeta) (k m : nat) (offset length : Z) : go (list Z) :=
  let got := collect_shards net (k + m) (ck_Replicas chunk) in
  let shards := default [] <$> got in
  let present := (fun o => bool_decide (is_Some o)) <$> got in
  let paddedLen := Z.of_nat (foldr Nat.max O (List.length <$> shards)) * Z.of_nat k in
  let decodeLen := if (0 <? ck_Size chunk) && (ck_Size chunk <? paddedLen) then ck_Size chunk else paddedLen in
  let! fullData := (match Decode k m shards present decodeLen with
                    | Err e => Err (Wrapf "chunkstore: ec decode chunk" e)
                    | Ok d => Ok d
                    end) in
  let offset := Z.max 0 offset in
  if decodeLen <=? offset then Ok [] else
  let end_ := Z.min decodeLen (if 0 <? length then offset + length else decodeLen) in
  Ok (field (Z.to_nat offset) (Z.to_nat (end_ - offset)) fullData).

(** [readECChunk] *)
Definition readECChunk (net : network) (chunk : ChunkMeta) (k m : nat) (offset length : Z) : go (list Z) :=
  let shardSize := if (0 <? k)%nat then (MaxChunkSize + Z.of_nat k - 1) / Z.of_nat k else 0 in
  let dataLen := shardSize * Z.of_nat k in
  let literalSize := ck_Size chunk in
  if negb (bool_decide (ck_ECStripeID chunk = [])) && (0 <? length) && (0 <=? offset) && (offset <? dataLen)
     && (0 <? literalSize) && (literalSize <=? dataLen)
  then match readECWindow net chunk k m offset length literalSize with
       | Ok out => Ok out
       | Err _ => full_read net chunk k m offset length
       end
  else full_read net chunk k m offset length.

(** ** Writes *)

(** [ECShard] of a plan, as the write uses it. *)
Record ECShard := mkECShard { es_Index : Z; es_NodeID : Z; es_DiskID : Z }.

(** [ECWriteAuthority] *)
Record ECWriteAuthority := mkECWriteAuthority {
  ea_Plan : Z -> nat -> nat -> go (list ECShard);
  ea_Record : Z -> nat -> nat -> list ECShard -> Z -> go unit
}.

(** A shard sent to a replica's node, for a disk of it. *)
Record push := mkPush { pu_rep : ReplicaInfo; pu_index : nat; pu_disk : Z; pu_data : list Z }.

(** The requests of the write, in replica order; [plan[i]] and
    [allShards[idx]] panic when there are more replicas than shards. *)
Fixpoint pushes (plan : list ECShard) (shards : list (list Z)) (i : nat) (reps : list ReplicaInfo) : go (list push) :=
  match reps with
  | [] => Ok []
  | r :: reps =>
      match plan !! i, shards !! i with
      | Some p, Some s =>
          let! rest := pushes plan shards (S i) reps in
          Ok (mkPush r i (es_DiskID p mod 1000) s :: rest)
      | _, _ => Err (GoPanic "index out of range")
      end
  end.

(** One push; [send] is the outcome of connecting and [ReplicateECShard]. *)
Definition push_outcome (send : push -> go unit) (p : push) : go unit :=
  refuse bool_decide (ri_Addr (pu_rep p) = []) with Errorf "empty addr for node" in send p.

(** [writeECShardDirect]: the pushes it made, and its result; [sum] is the
    IEEE CRC-32 of the data. *)
Definition writeECShardDirect (auth : option ECWriteAuthority) (send : push -> go unit) (sum : list Z -> Z)
  (chunk : ChunkMeta) (k m : nat) (data : list Z) : list push * go unit :=
  match auth with
  | None => ([], Err (Errorf "ErrECUnavailable: authority cleared mid-write"))
  | Some a =>
      match Encode k m data with
      | Err e => ([], Err (Wrapf "chunkstore: ec encode chunk" e))
      | Ok r =>
          let allShards := er_DataShards r ++ er_ParityShards r in
          match ea_Plan a (ck_ID chunk) k m with
          | Err e => ([], Err (Errorf "ErrECUnavailable: plan"))
          | Ok plan =>
              if negb (length plan =? k + m)%nat
              then ([], Err (Errorf "ErrECUnavailable: wrong shard count")) else
              match pushes plan allShards 0 (ck_Replicas chunk) with
              | Err e => ([], Err e)
              | Ok ps =>
                  let successes := length (filter (fun p => push_outcome send p = Ok tt) ps) in
                  if (successes <? k)%nat
                  then (ps, Err (Errorf "chunkstore: ec direct write: too few shards")) else
                  match ea_Record a (ck_ID chunk) k m plan (sum data) with
                  | Err e => (ps, Err (Wrapf "chunkstore: ec record-direct chunk" e))
                  | Ok _ => (ps, Ok tt)
                  end
              end
          end
      end
  end.
End IO.
