(* ===== verification/StripeProofs.v ===== *)
(** * Lemmas on erasure-coded chunks

    Padding and splitting, the reconstruction of stripes and of windows of
    them, and the soundness of each step of a read, against any network
    whose replies are honest. *)

From stdpp Require Import base list numbers strings gmap.
From Stdlib Require Import ZArith Lia.
From S2P Require Import Prelude Bytes StorageTypes Extents ErasureCode StripeIO.

Local Open Scope Z_scope.
Local Open Scope go_scope.

(** ** Cuts of a list *)

(** The elements from [lo] up to [hi], the bounds clamped. *)
Definition cut {A} (lo hi : Z) (l : list A) : list A := drop (Z.to_nat lo) (take (Z.to_nat hi) l).

Lemma cut_of_app {A} lo hi (a b : list A) :
  cut lo hi (a ++ b) = cut lo hi a ++ cut (lo - Z.of_nat (length a)) (hi - Z.of_nat (length a)) b.
Proof.
  unfold cut. rewrite take_app, drop_app, length_take.
  replace (Z.to_nat (hi - Z.of_nat (length a))) with (Z.to_nat hi - length a)%nat by lia. f_equal.
  destruct (Nat.le_gt_cases (length a) (Z.to_nat hi)) as [Hle|Hgt].
  - rewrite Nat.min_r by done. f_equal. lia.
  - replace (Z.to_nat hi - length a)%nat with 0%nat by lia. by rewrite take_0, !drop_nil.
Qed.

Lemma cut_field {A} lo hi (l : list A) :
  cut lo hi l = take (Z.to_nat hi - Z.to_nat lo) (drop (Z.to_nat lo) l).
Proof. unfold cut. by rewrite skipn_firstn_comm. Qed.

Lemma cut_empty {A} lo hi (l : list A) : hi <= lo \/ hi <= 0 \/ Z.of_nat (length l) <= lo -> cut lo hi l = [].
Proof. intros Hc. apply length_zero_iff_nil. unfold cut. rewrite length_drop, length_take. lia. Qed.

(** A list cut into parts of [s], each part cut, is the list cut. *)
Lemma cut_parts {A} (s : nat) : forall k lo hi (l : list A),
  length l = (k * s)%nat ->
  concat ((fun i => cut (lo - Z.of_nat (i * s)) (hi - Z.of_nat (i * s)) (take s (drop (i * s) l))) <$> seq 0 k) =
  cut lo hi l.
Proof.
  induction k as [|k IH]; intros lo hi l Hl.
  - destruct l; [|done]. cbn. unfold cut. by rewrite take_nil, drop_nil.
  - transitivity (cut lo hi (take s l ++ drop s l)); [|by rewrite take_drop]. rewrite cut_of_app. cbn [seq fmap list_fmap concat].
    cbn [Nat.mul]. rewrite drop_0. replace (lo - Z.of_nat 0) with lo by lia. replace (hi - Z.of_nat 0) with hi by lia.
    f_equal. rewrite length_take, Nat.min_l by lia. rewrite <- (IH _ _ (drop s l)) by (rewrite length_drop; lia).
    rewrite <- fmap_S_seq, <- list_fmap_compose. f_equal. apply list_fmap_ext. intros j i _.
    unfold compose. rewrite drop_drop. replace (Z.of_nat (S i * s)) with (Z.of_nat s + Z.of_nat (i * s)) by lia.
    by rewrite !Z.sub_add_distr.
Qed.

(** ** Padding *)

Lemma shard_size_bounds k n : (0 < k)%nat -> (n <= shard_size k n * k /\ shard_size k n * k < n + k)%nat.
Proof.
  intros Hk. unfold shard_size. pose proof (Nat.div_mod_eq (n + k - 1) k) as Hd.
  pose proof (Nat.mod_upper_bound (n + k - 1) k). nia.
Qed.

Lemma shard_size_pos k n : (0 < k)%nat -> (0 < n)%nat -> (0 < shard_size k n)%nat.
Proof. intros Hk Hn. destruct (shard_size_bounds k n Hk). destruct (shard_size k n); lia. Qed.

Lemma padded_length k data : (0 < k)%nat -> length (padded k data) = (k * shard_size k (length data))%nat.
Proof.
  intros Hk. unfold padded. rewrite length_app, length_replicate.
  destruct (shard_size_bounds k (length data) Hk). lia.
Qed.

Lemma padded_prefix k data : take (length data) (padded k data) = data.
Proof. unfold padded. by rewrite take_app_length. Qed.

Lemma split_lookup k s p i : (i < k)%nat -> split_shards k s p !! i = Some (take s (drop (i * s) p)).
Proof. intros Hi. unfold split_shards. rewrite list_lookup_fmap, lookup_seq_lt by done. done. Qed.

Lemma split_concat k s p : length p = (k * s)%nat -> concat (split_shards k s p) = p.
Proof.
  intros Hp. pose proof (cut_parts s k 0 (Z.of_nat (length p)) p Hp) as E.
  unfold cut at 2 in E. rewrite Nat2Z.id, firstn_all, drop_0 in E. rewrite <- E at 2. f_equal.
  unfold split_shards. apply list_fmap_ext. intros j i Hj. apply lookup_seq in Hj as [-> Hj].
  unfold cut, field. replace (Z.to_nat (0 - _)) with 0%nat by lia. rewrite drop_0, take_take.
  f_equal. cbn. nia.
Qed.

Lemma padded_wf k data : bytes_wf data -> bytes_wf (padded k data).
Proof. intros Hd. apply bytes_wf_app. split; [done|]. by apply Forall_replicate. Qed.

Lemma split_lengths k s p : bytes_wf p -> length p = (k * s)%nat -> all_of_length s (split_shards k s p).
Proof.
  intros Hw Hp. apply Forall_lookup. intros i x Hx. unfold split_shards in Hx.
  apply list_lookup_fmap_Some in Hx as (j & -> & Hj). apply lookup_seq in Hj as [-> Hj].
  split; [|by apply field_wf]. unfold field. rewrite length_take, length_drop. cbn. nia.
Qed.

(** ** Encoding *)

Section Coding.
Context `{RL : RSLaws k m}.

(** [cw] is the stripe of [data]. *)
Definition coded (data : list Z) (cw : list (list Z)) : Prop :=
  stripe rs_parity k m (shard_size k (length data)) cw /\ (0 < shard_size k (length data))%nat /\
  take k cw = split_shards k (shard_size k (length data)) (padded k data).

Lemma Encode_coded data :
  bytes_wf data -> data <> [] -> exists r, Encode k m data = Ok r /\ coded data (er_DataShards r ++ er_ParityShards r).
Proof.
  intros Hw Hd. set (s := shard_size k (length data)).
  assert (0 < length data)%nat as Hl by (destruct data; cbn; [done|lia]).
  assert (0 < s)%nat as Hs by (apply shard_size_pos; [apply rs_positive|done]).
  assert (length (split_shards k s (padded k data)) = k) as Hk
    by (unfold split_shards; by rewrite length_fmap, length_seq).
  assert (length (padded k data) = (k * s)%nat) as Hp by (apply padded_length, rs_positive).
  destruct (rs_encode_law (k := k) (m := m) s (split_shards k s (padded k data) ++ replicate m (replicate s 0)))
    as (out & E & Ht & St); [by rewrite length_app, Hk, length_replicate| |done|].
  { apply Forall_app. split; [by apply split_lengths; [apply padded_wf|]|].
    apply Forall_replicate. split; [apply length_replicate|by apply Forall_replicate]. }
  exists (mkECResult (take k out) (drop k out) (k + m)). split.
  - unfold Encode. fold s. by rewrite E.
  - cbn. rewrite take_drop. split; [done|]. split; [done|]. by rewrite Ht, take_app_length'.
Qed.

Lemma Encode_empty : exists e, Encode k m [] = Err e.
Proof.
  unfold Encode. assert (shard_size k 0 = 0%nat) as Es.
  { destruct (shard_size_bounds k 0 rs_positive) as [_ Hb]. destruct (shard_size k 0); [done|]. nia. }
  cbn [length]. rewrite Es.
  destruct (rs_encode_empty (k := k) (m := m) (split_shards k 0 (padded k []) ++ replicate m (replicate 0 0))) as [e E].
  - apply Forall_app. split; [|apply Forall_replicate; by split; [|constructor]]. apply split_lengths; [apply padded_wf; constructor|]. unfold padded. cbn [length]. rewrite Es.
    cbn. lia.
  - rewrite E. eauto.
Qed.

Lemma coded_length data cw : coded data cw -> length cw = (k + m)%nat.
Proof. by intros [(Hl & _) _]. Qed.

Lemma coded_size data cw i s : coded data cw -> cw !! i = Some s -> length s = shard_size k (length data).
Proof. intros [(_ & Ha & _) _] Hi. by eapply Forall_lookup_1 in Ha as [? _]. Qed.

Lemma coded_shard data cw i :
  coded data cw -> (i < k)%nat ->
  cw !! i = Some (take (shard_size k (length data)) (drop (i * shard_size k (length data)) (padded k data))).
Proof.
  intros (_ & _ & Ht) Hi. rewrite <- (lookup_take_lt cw k i) by done. rewrite Ht. by apply split_lookup.
Qed.

Lemma coded_concat data cw : coded data cw -> concat (take k cw) = padded k data.
Proof. intros (_ & _ & ->). apply split_concat, padded_length, rs_positive. Qed.

(** ** Decoding *)

Lemma rebuild_coded data cw part n :
  coded data cw -> some_of cw part -> (k <= count_present part)%nat ->
  0 <= n <= Z.of_nat (length (padded k data)) ->
  rebuild k m part n = Ok (cw, take (Z.to_nat n) (padded k data)).
Proof.
  intros C Hs Hk Hn. pose proof C as (St & Hp & _). unfold rebuild.
  rewrite (rs_reconstruct_law _ cw part St Hp Hs Hk), (rs_verify_law _ cw St Hp). cbn [negb].
  rewrite (coded_concat _ _ C). rewrite (proj2 (Z.ltb_ge n 0)) by lia.
  destruct (Z.ltb_spec (Z.of_nat (length (padded k data))) n); [lia|done].
Qed.

Lemma Decode_coded data cw (got : list (option (list Z))) n :
  coded data cw -> Forall2 (fun w o => o = None \/ o = Some w) cw got ->
  (k <= length (filter is_Some got))%nat -> 0 <= n <= Z.of_nat (length (padded k data)) ->
  Decode k m (default [] <$> got) ((fun o => bool_decide (is_Some o)) <$> got) n = Ok (take (Z.to_nat n) (padded k data)).
Proof.
  intros C Hg Hk Hn. pose proof (Forall2_length _ _ _ Hg) as Hlen. rewrite (coded_length _ _ C) in Hlen.
  unfold Decode. rewrite !length_fmap, <- Hlen, Nat.eqb_refl. cbn [negb orb].
  replace (count_true _) with (length (filter is_Some got)); last first.
  { unfold count_true. clear. induction got as [|o got IH]; [done|].
    rewrite fmap_cons, !filter_cons. destruct o as [d|].
    - rewrite !decide_True; [cbn; by f_equal| |by eexists]. by apply bool_decide_eq_true.
    - rewrite !decide_False; [done| |by intros [? ?]]. intros Hb. by apply bool_decide_eq_true in Hb as [? ?]. }
  destruct (Nat.ltb_spec (length (filter is_Some got)) k); [lia|].
  replace (zip_with _ _ _) with (default [] <$> got : list (list Z)); last first.
  { clear. induction got as [|o got IH]; [done|]. cbn. rewrite <- IH. by destruct o. }
  rewrite (rebuild_coded data cw _ n C); [done| | |done].
  - unfold some_of. apply Forall2_fmap_r. eapply Forall2_impl; [exact Hg|]. intros w o [->| ->]; [by left|by right].
  - etrans; [exact Hk|]. unfold count_present. pose proof C as ((_ & Ha & _) & Hp & _). revert Hg Ha Hp. clear.
    intros Hg. induction Hg as [|w o cw got Ho Hg IH]; intros Ha Hp; [done|].
    apply Forall_cons in Ha as [[Hw _] Ha]. rewrite fmap_cons, !filter_cons. specialize (IH Ha Hp).
    destruct Ho as [->| ->].
    + rewrite decide_False by (by intros [? ?]). cbn. done.
    + rewrite decide_True by (by eexists). cbn [default]. rewrite decide_True; [cbn; lia|].
      cbn. intros E. rewrite E in Hw. cbn in Hw. lia.
Qed.

(** ** Replies *)

(** What a node that has shard [s] replies to a request. *)
Definition served (off n : Z) (s : list Z) : list Z :=
  if n <=? 0 then s else field (Z.to_nat off) (Nat.min (Z.to_nat n) (length s - Z.to_nat off)) s.

(** Every reply is a reply of a node that has the shard asked for. *)
Definition honest (net : network) (cw : list (list Z)) : Prop :=
  forall ph r i off n d, net ph r (Z.of_nat i) off n = Ok d -> exists s, cw !! i = Some s /\ d = served off n s.

Definition window_wf (w : shard_window) : Prop := 0 <= w_start w < w_end w.

Lemma range_inv (net : network) ph r i a b d :
  readECShardRange net ph r i a b = Ok d -> net ph r i a (b - a) = Ok d.
Proof. unfold readECShardRange. by case_bool_decide. Qed.

Lemma fetch_window_sound net cw reps ph i w d :
  honest net cw -> window_wf w -> fetch_window net reps ph i w = Some d ->
  exists s, cw !! i = Some s /\ w_end w <= Z.of_nat (length s) /\ d = cut (w_start w) (w_end w) s.
Proof.
  intros Hh [H0 H1] Hf. unfold fetch_window in Hf. destruct (reps !! Z.of_nat i) as [r|]; [|done]. cbn in Hf.
  destruct (readECShardRange _ _ _ _ _ _) as [d'|] eqn:E; [|done].
  destruct (Z.eqb_spec (Z.of_nat (length d')) (w_end w - w_start w)) as [Hlen|]; [|done]. injection Hf as ->.
  apply range_inv, Hh in E as (s & Hs & ->). exists s. split; [done|]. unfold served in *.
  destruct (Z.leb_spec (w_end w - w_start w) 0); [lia|]. unfold field in *.
  rewrite length_take, length_drop in Hlen. split; [lia|]. rewrite cut_field. f_equal. lia.
Qed.

Lemma count_present_one l : (0 < count_present l)%nat -> exists i s, l !! i = Some s /\ s <> [].
Proof.
  unfold count_present. induction l as [|s l IH]; [cbn; lia|]. rewrite filter_cons.
  destruct (decide (s <> [])) as [Hs|Hs]; [intros _; by exists 0%nat, s|].
  intros Hl. destruct (IH Hl) as (i & s' & Hi & Hs'). by exists (S i), s'.
Qed.

Lemma rebuild_window_sound net data cw reps wi w d :
  coded data cw -> honest net cw -> window_wf w -> (w_shard w < k)%nat ->
  rebuild_window net reps k m wi w = Ok d ->
  d = cut (w_start w) (w_end w) (default [] (cw !! w_shard w)).
Proof.
  intros C Hh W Hi. pose proof W as [W0 W1]. unfold rebuild_window.
  destruct (Z.leb_spec (w_end w - w_start w) 0); [lia|]. set (slices := _ <$> seq 0 (k + m)).
  destruct (Nat.ltb_spec (count_present slices) k) as [|Hk]; [done|].
  assert (forall i s, slices !! i = Some s -> s = [] \/
            exists c, cw !! i = Some c /\ w_end w <= Z.of_nat (length c) /\ s = cut (w_start w) (w_end w) c) as Hsl.
  { intros i s Hs. unfold slices in Hs. apply list_lookup_fmap_Some in Hs as (j & -> & Hj).
    apply lookup_seq in Hj as [-> Hj]. cbn [Nat.add]. destruct (_ =? _)%nat; [by left|].
    destruct (fetch_window net reps (Rebuild wi) i w) as [x|] eqn:E; [|by left]. right.
    by apply (fetch_window_sound net cw) in E. }
  pose proof C as (St & Hp & _).
  assert (w_end w <= Z.of_nat (shard_size k (length data))) as Hend.
  { pose proof (@rs_positive _ k m RL) as Hpos.
    destruct (count_present_one slices) as (i & s & Hs & Hne); [lia|].
    destruct (Hsl _ _ Hs) as [|(c & Hc & Hle & _)]; [done|]. by rewrite (coded_size _ _ _ _ C Hc) in Hle. }
  set (o := Z.to_nat (w_start w)). set (l := (Z.to_nat (w_end w) - o)%nat).
  assert (forall c, field o l c = cut (w_start w) (w_end w) c) as Hcut by (intros c; by rewrite cut_field).
  rewrite (reconstruct_slice (shard_size k (length data)) cw o l slices St); [|unfold o, l; lia|unfold o, l; lia| |done].
  - rewrite list_lookup_fmap. destruct (cw !! w_shard w) as [c|] eqn:Hc; cbn.
    + destruct (negb _); [done|]. intros [= <-]. by rewrite Hcut.
    + exfalso. apply lookup_ge_None in Hc. rewrite (coded_length _ _ C) in Hc. lia.
  - unfold some_of. apply Forall2_same_length_lookup_2.
    + rewrite length_fmap, (coded_length _ _ C). unfold slices. by rewrite length_fmap, length_seq.
    + intros i x s Hx Hs. apply list_lookup_fmap_Some in Hx as (c & -> & Hc).
      destruct (Hsl _ _ Hs) as [|(c' & Hc' & _ & ->)]; [by left|]. right. rewrite Hcut. congruence.
Qed.

Lemma gather_sound net data cw reps : coded data cw -> honest net cw -> forall ws wi out,
  Forall (fun w => window_wf w /\ (w_shard w < k)%nat) ws -> gather net reps k m wi ws = Ok out ->
  out = concat ((fun w => cut (w_start w) (w_end w) (default [] (cw !! w_shard w))) <$> ws).
Proof.
  intros C Hh. induction ws as [|w ws IH]; intros wi out Hw; cbn [gather]; [by intros [= <-]|].
  apply Forall_cons in Hw as [[W Hi] Hw]. intros E. apply bind_Ok_inv in E as (d & Hd & E).
  apply bind_Ok_inv in E as (rest & Hr & [= <-]). cbn [fmap list_fmap concat].
  apply IH in Hr as <-; [|done]. f_equal. destruct (fetch_window _ _ _ _ _) as [d'|] eqn:Ef.
  - injection Hd as <-. apply (fetch_window_sound net cw) in Ef as (s & -> & _ & ->); [done|done|done].
  - by eapply rebuild_window_sound.
Qed.

(** ** Windows *)

Lemma int32_small x : 0 <= x < 2 ^ 31 -> i32 x = x.
Proof.
  intros Hx. unfold i32. rewrite wrap_small by (unfold uintw; lia). destruct (Z.ltb_spec x (2 ^ 31)); lia.
Qed.

Lemma windows_wf S off hi :
  0 < S < 2 ^ 31 -> off < hi -> Forall (fun w => window_wf w /\ (w_shard w < k)%nat) (windows k S off hi).
Proof.
  intros HS Ho. apply Forall_forall. intros w Hw. unfold windows in Hw. apply list_elem_of_omap in Hw as (i & Hi & E).
  apply elem_of_seq in Hi. unfold window_in in E.
  destruct (Z.leb_spec (S * Z.of_nat i + S) off), (Z.leb_spec hi (S * Z.of_nat i)); cbn [orb] in E; try done.
  injection E as <-. unfold window_wf. cbn. rewrite !int32_small by lia. lia.
Qed.

Lemma windows_cut (S : nat) off hi (f : nat -> list Z) : forall l,
  0 < Z.of_nat S < 2 ^ 31 -> 0 <= off -> (forall i, i ∈ l -> length (f i) = S) ->
  concat ((fun w => cut (w_start w) (w_end w) (f (w_shard w))) <$> omap (window_in (Z.of_nat S) off hi) l) =
  concat ((fun i => cut (off - Z.of_nat (i * S)) (hi - Z.of_nat (i * S)) (f i)) <$> l).
Proof.
  induction l as [|i l IH]; intros HS Ho Hf; [done|]. cbn [omap list_omap fmap list_fmap concat].
  specialize (IH HS Ho (fun j Hj => Hf j (list_elem_of_further _ _ _ Hj))).
  pose proof (Hf i (list_elem_of_here _ _)) as Hi.
  unfold window_in at 1. replace (Z.of_nat S * Z.of_nat i) with (Z.of_nat (i * S)) by lia.
  destruct (Z.leb_spec (Z.of_nat (i * S) + Z.of_nat S) off) as [H1|H1]; cbn [orb].
  { rewrite (cut_empty (off - _)) by lia. exact IH. }
  destruct (Z.leb_spec hi (Z.of_nat (i * S))) as [H2|H2].
  { rewrite (cut_empty (off - _)) by lia. exact IH. }
  cbn [fmap list_fmap concat w_start w_end w_shard]. f_equal; [|exact IH].
  rewrite !int32_small by lia. unfold cut. replace (Z.to_nat (Z.max 0 _)) with (Z.to_nat (off - Z.of_nat (i * S))) by lia.
  f_equal. destruct (Z.min_spec (Z.of_nat S) (hi - Z.of_nat (i * S))) as [[Hlt ->]|[Hle ->]]; [|done].
  rewrite !take_ge by lia. done.
Qed.
End Coding.

(** * Whole reads of erasure-coded chunks *)

Section Reads.
Context `{RL : RSLaws k m}.

(** ** The window path *)

Lemma ceil_shard_size n : (0 < k)%nat -> (Z.of_nat n + Z.of_nat k - 1) / Z.of_nat k = Z.of_nat (shard_size k n).
Proof.
  intros Hk. unfold shard_size. rewrite Nat2Z.inj_div. f_equal. lia.
Qed.

(** A window read that returns has read the window, when the shard size it
    assumes is the true one. *)
Lemma gather_windows net data cw reps off hi out :
  coded (k := k) (m := m) data cw -> honest net cw -> 0 <= off < hi ->
  Z.of_nat (shard_size k (length data)) < 2 ^ 31 ->
  gather net reps k m 0 (windows k (Z.of_nat (shard_size k (length data))) off hi) = Ok out ->
  out = cut off hi (padded k data).
Proof.
  intros C Hh Ho Hs E. set (S := shard_size k (length data)) in *.
  pose proof C as (_ & Hp & _). fold S in Hp.
  apply (gather_sound net data cw) in E; [|done|done|apply windows_wf; lia]. subst out.
  unfold windows. rewrite (windows_cut S off hi (fun i => default [] (cw !! i))); [|lia|lia|].
  - rewrite <- (cut_parts S k off hi (padded k data)) by (apply padded_length, rs_positive).
    f_equal. apply list_fmap_ext. intros j i Hj. apply lookup_seq in Hj as [-> Hj].
    by rewrite (coded_shard data cw) by (done || lia).
  - intros i Hi. apply elem_of_seq in Hi. rewrite (coded_shard data cw) by (done || lia). cbn.
    rewrite length_take, length_drop, padded_length by apply rs_positive. fold S. nia.
Qed.

Lemma cut_prefix {A} lo hi n (l : list A) : hi <= Z.of_nat n -> cut lo hi (take n l) = cut lo hi l.
Proof. intros Hh. unfold cut. rewrite take_take, Nat.min_l by lia. done. Qed.

Lemma readECWindow_sound net data cw chunk off n out :
  coded (k := k) (m := m) data cw -> honest net cw -> 0 <= off -> 0 < n ->
  Z.of_nat (shard_size k (length data)) < 2 ^ 31 ->
  readECWindow net chunk k m off n (Z.of_nat (length data)) = Ok out ->
  out = cut off (off + n) data.
Proof.
  intros C Hh Ho Hn Hs. unfold readECWindow. rewrite ceil_shard_size by apply rs_positive.
  destruct (Z.leb_spec (Z.min (off + n) (Z.of_nat (length data))) off) as [He|He].
  - intros [= <-]. symmetry. apply cut_empty. lia.
  - intros E. apply (gather_windows net data cw) in E; [|done|done|lia|done]. subst out.
    rewrite <- (cut_prefix _ _ (length data)) by lia. rewrite padded_prefix.
    unfold cut. f_equal. destruct (Z.min_spec (off + n) (Z.of_nat (length data))) as [[_ ->]|[Hle ->]]; [done|].
    rewrite !take_ge by lia. done.
Qed.

(** ** The full read *)

(** Some replica of shard [i] answers the full read. *)
Definition reaches (net : network) (reps : list ReplicaInfo) (i : nat) : Prop :=
  (i < k + m)%nat /\ exists r d, r ∈ reps /\ ri_ShardIndex r = Z.of_nat i /\
    readECShardRange net Full r (Z.of_nat i) 0 0 = Ok d.

Lemma collect_step net cw got r :
  honest net cw -> length cw = (k + m)%nat -> Forall2 (fun w o => o = None \/ o = Some w) cw got ->
  Forall2 (fun w o => o = None \/ o = Some w) cw (collect_shard net (k + m) got r) /\
  (forall i, is_Some (got !! i ≫= id) -> is_Some (collect_shard net (k + m) got r !! i ≫= id)).
Proof.
  intros Hh Hl Hg. unfold collect_shard.
  destruct (readECShardRange _ _ _ _ _ _) as [d|] eqn:E; [|done].
  destruct (Z.leb_spec 0 (ri_ShardIndex r)), (Z.ltb_spec (ri_ShardIndex r) (Z.of_nat (k + m))); cbn [andb]; try done.
  apply range_inv in E. rewrite <- (Z2Nat.id (ri_ShardIndex r)) in E by done. apply Hh in E as (s & Hs & ->).
  pose proof (Forall2_length _ _ _ Hg) as Hlen. split.
  - apply Forall2_same_length_lookup_2; [by rewrite length_insert|]. intros i w o Hw.
    rewrite list_lookup_insert. case_decide as Hd.
    + destruct Hd as [<- _]. intros [= <-]. right. change (served 0 (0 - 0) s) with s. congruence.
    + intros Ho. by eapply (Forall2_lookup_lr _ _ _ _ _ _ Hg).
  - intros i Hi. rewrite list_lookup_insert. case_decide; [by eexists|done].
Qed.

Lemma collect_all net cw : honest net cw -> length cw = (k + m)%nat -> forall reps got,
  Forall2 (fun w o => o = None \/ o = Some w) cw got ->
  Forall2 (fun w o => o = None \/ o = Some w) cw (fold_left (collect_shard net (k + m)) reps got) /\
  (forall i, is_Some (got !! i ≫= id) \/ reaches net reps i ->
     is_Some (fold_left (collect_shard net (k + m)) reps got !! i ≫= id)).
Proof.
  intros Hh Hl. induction reps as [|r reps IH]; intros got Hg; cbn [fold_left].
  - split; [done|]. intros i [Hi|(_ & r & d & Hr & _)]; [done|by apply not_elem_of_nil in Hr].
  - destruct (collect_step net cw got r Hh Hl Hg) as [Hg' Hmono].
    destruct (IH _ Hg') as [I1 I2]. split; [done|]. intros i [Hi|(Hik & r' & d & Hr & Hri & Hd)].
    + apply I2. left. by apply Hmono.
    + apply elem_of_cons in Hr as [->|Hr]; [|apply I2; right; split; [done|]; by exists r', d].
      apply I2. left. unfold collect_shard. rewrite Hri, Hd.
      destruct (Z.leb_spec 0 (Z.of_nat i)), (Z.ltb_spec (Z.of_nat i) (Z.of_nat (k + m))); cbn [andb]; try lia.
      rewrite Nat2Z.id, list_lookup_insert_eq; [by eexists|].
      pose proof (Forall2_length _ _ _ Hg). lia.
Qed.

(** Distinct present positions bound the number of present shards. *)
Lemma present_at_least (got : list (option (list Z))) : forall (I : list nat),
  NoDup I -> Forall (fun i => is_Some (got !! i ≫= id)) I -> (length I <= length (filter is_Some got))%nat.
Proof.
  induction got as [|o got IH]; intros I Hn Hf.
  - destruct I as [|i I]; [done|]. apply Forall_cons in Hf as [[? Hi] _]. by rewrite lookup_nil in Hi.
  - set (I' := (fun i => Nat.pred i) <$> filter (fun i => i <> 0%nat) I).
    assert (NoDup I') as Hn'.
    { apply NoDup_fmap_2_strong; [|by apply NoDup_filter]. intros x y Hx Hy E.
      apply list_elem_of_filter in Hx as [Hx _]. apply list_elem_of_filter in Hy as [Hy _]. lia. }
    assert (Forall (fun i => is_Some (got !! i ≫= id)) I') as Hf'.
    { apply Forall_forall. intros i Hi. apply list_elem_of_fmap in Hi as (j & -> & Hj).
      apply list_elem_of_filter in Hj as [Hj Hi]. rewrite Forall_forall in Hf. specialize (Hf _ Hi).
      destruct j; [done|exact Hf]. }
    specialize (IH _ Hn' Hf'). unfold I' in IH. rewrite length_fmap in IH. rewrite filter_cons.
    assert (length I <= length (filter (fun i => i <> 0%nat) I) + (if bool_decide (0%nat ∈ I) then 1 else 0))%nat as HI.
    { clear -Hn. induction Hn as [|i I Hi Hn IH]; [done|]. rewrite filter_cons. cbn [length].
      destruct (decide (i <> 0%nat)) as [Hz|Hz].
      - cbn [length]. rewrite (bool_decide_ext (0%nat ∈ i :: I) (0%nat ∈ I)) by (rewrite elem_of_cons; naive_solver).
        lia.
      - assert (i = 0%nat) as -> by lia. rewrite (bool_decide_false (0%nat ∈ I)) in IH by done.
        rewrite bool_decide_true by constructor. lia. }
    case_bool_decide as H0.
    + rewrite Forall_forall in Hf. specialize (Hf _ H0). cbn in Hf. rewrite decide_True by done. cbn. lia.
    + destruct (decide (is_Some o)); cbn; lia.
Qed.

(** The size a full read decodes to. *)
Definition decoded (chunk : ChunkMeta) (data : list Z) : list Z :=
  if (0 <? ck_Size chunk) && (ck_Size chunk <? Z.of_nat (length (padded k data)))
  then take (Z.to_nat (ck_Size chunk)) (padded k data) else padded k data.

(** The requested part of a chunk: without a positive length, the rest. *)
Definition part (off n : Z) (d : list Z) : list Z :=
  if 0 <? n then cut off (off + n) d else drop (Z.to_nat off) d.

Lemma max_length (got : list (option (list Z))) s :
  Forall (fun o => o = None \/ exists w, o = Some w /\ length w = s) got -> (0 < length (filter is_Some got))%nat ->
  foldr Nat.max O (length <$> (default [] <$> got)) = s.
Proof.
  intros Hf Hn. apply Nat.le_antisymm.
  - clear Hn. induction Hf as [|o got Ho Hf IH]; cbn; [lia|]. destruct Ho as [->|(w & -> & <-)]; cbn; lia.
  - induction Hf as [|o got Ho Hf IH]; [cbn in Hn; lia|]. rewrite filter_cons in Hn. cbn [fmap list_fmap foldr].
    destruct Ho as [->|(w & -> & <-)]; [|cbn; lia].
    rewrite decide_False in Hn by (by intros [? ?]). specialize (IH Hn). cbn. lia.
Qed.

Lemma full_read_exact net data cw chunk off n (I : list nat) :
  coded (k := k) (m := m) data cw -> honest net cw ->
  NoDup I -> length I = k -> Forall (reaches net (ck_Replicas chunk)) I ->
  full_read net chunk k m off n = Ok (part (Z.max 0 off) n (decoded chunk data)).
Proof.
  intros C Hh HnI HlI HI. pose proof (coded_length _ _ C) as Hl. unfold full_read, collect_shards.
  destruct (collect_all net cw Hh Hl (ck_Replicas chunk) (replicate (k + m) None)) as [Hg Hr].
  { apply Forall2_same_length_lookup_2; [by rewrite length_replicate|]. intros i w o _ Ho.
    apply lookup_replicate in Ho as [-> _]. by left. }
  set (got := fold_left _ _ _) in *.
  assert (k <= length (filter is_Some got))%nat as Hk.
  { rewrite <- HlI at 1. apply present_at_least; [done|]. eapply Forall_impl; [exact HI|]. intros i Hi. apply Hr. by right. }
  pose proof (@rs_positive _ k m RL) as Hpos.
  rewrite (max_length got (shard_size k (length data))); [| |lia].
  2: { apply Forall_lookup. intros i o Ho. destruct (Forall2_lookup_r _ _ _ _ _ Hg Ho) as (w & Hw & [->| ->]);
         [by left|right]. exists w. split; [done|]. by eapply coded_size. }
  pose proof (padded_length k data Hpos) as Hp.
  replace (Z.of_nat (shard_size k (length data)) * Z.of_nat k) with (Z.of_nat (length (padded k data))) by lia.
  set (P := padded k data) in *.
  set (dl := if (0 <? ck_Size chunk) && (ck_Size chunk <? Z.of_nat (length P)) then ck_Size chunk else Z.of_nat (length P)).
  assert (0 <= dl <= Z.of_nat (length P)) as Hdl.
  { unfold dl. destruct (Z.ltb_spec 0 (ck_Size chunk)), (Z.ltb_spec (ck_Size chunk) (Z.of_nat (length P))); cbn [andb]; lia. }
  rewrite (Decode_coded data cw got dl C Hg Hk Hdl), bind_Ok.
  assert (decoded chunk data = take (Z.to_nat dl) P) as ->.
  { unfold decoded, dl. fold P. destruct (_ && _); [done|]. by rewrite Nat2Z.id, firstn_all. }
  set (o := Z.max 0 off). assert (length (take (Z.to_nat dl) P) = Z.to_nat dl) as Ht by (rewrite length_take; lia).
  fold P. destruct (Z.leb_spec dl o) as [Hd|Hd].
  - f_equal. unfold part. destruct (0 <? n); symmetry; [apply cut_empty; lia|]. apply drop_ge. lia.
  - f_equal. unfold part, field. destruct (Z.ltb_spec 0 n) as [Hn|Hn].
    + rewrite cut_field. destruct (Z.min_spec dl (o + n)) as [[Hlt ->]|[Hle ->]]; [|f_equal; lia].
      transitivity (drop (Z.to_nat o) (take (Z.to_nat dl) P)); [|symmetry]; apply take_ge; rewrite length_drop; lia.
    + rewrite Z.min_id, take_ge by (rewrite length_drop; lia). done.
Qed.
End Reads.
