(* ===== verification/StripeTheorems.v ===== *)
(** * Theorems on erasure-coded chunks *)

From stdpp Require Import base list numbers strings gmap.
From Stdlib Require Import ZArith Lia.
From S2P Require Import Prelude Bytes StorageTypes Extents ErasureCode StripeIO StripeProofs.

Local Open Scope Z_scope.
Local Open Scope go_scope.

Section Theorems.
Context `{RL : RSLaws k m}.

(** The largest shard size the window path assumes. *)
Lemma shard_fits n :
  Z.of_nat n <= (MaxChunkSize + Z.of_nat k - 1) / Z.of_nat k * Z.of_nat k ->
  Z.of_nat (shard_size k n) < 2 ^ 31.
Proof.
  intros Hn. pose proof (@rs_positive _ k m RL) as Hk. destruct (shard_size_bounds k n Hk) as [_ Hb].
  set (S := (MaxChunkSize + Z.of_nat k - 1) / Z.of_nat k) in *.
  assert (S <= MaxChunkSize) as HS.
  { unfold S. apply Z.div_le_upper_bound; [lia|]. unfold MaxChunkSize. nia. }
  assert (Z.of_nat (shard_size k n) <= S); [|unfold MaxChunkSize in HS; lia]. nia.
Qed.

(** C10: a read of an erasure-coded chunk is exact and survives any losses a
    stripe can survive. Take the stripe of any data and a chunk row with its
    length; let nodes be unreachable, lose shards or answer late in any
    pattern and differently from request to request, as long as what they do
    answer is their shard and the full read reaches [K] shards of the
    [K+M]: for every offset and length the read returns exactly that part of
    the data, through the window of the owning shards, a window rebuilt
    from others, or the whole stripe. *)
Theorem ec_read_exact net data cw chunk off n (I : list nat) :
  coded (k := k) (m := m) data cw -> honest net cw -> ck_Size chunk = Z.of_nat (length data) ->
  NoDup I -> length I = k -> Forall (reaches (k := k) (m := m) net (ck_Replicas chunk)) I ->
  readECChunk net chunk k m off n = Ok (part (Z.max 0 off) n data).
Proof.
  intros C Hh Hsz HnI HlI HI. pose proof (@rs_positive _ k m RL) as Hk.
  pose proof (full_read_exact net data cw chunk off n I C Hh HnI HlI HI) as Hfull.
  assert (decoded (k := k) chunk data = data) as Hdec.
  { unfold decoded. rewrite Hsz. pose proof (padded_length k data Hk) as Hp.
    destruct (shard_size_bounds k (length data) Hk) as [Hb _]. pose proof C as (_ & Hpos & _).
    destruct (Z.ltb_spec (Z.of_nat (length data)) (Z.of_nat (length (padded k data)))) as [Hlt|Hge].
    - rewrite andb_true_r, Nat2Z.id. destruct (Z.ltb_spec 0 (Z.of_nat (length data))); [apply padded_prefix|].
      exfalso. assert (length data = 0%nat) as E0 by lia. rewrite E0 in Hpos.
      destruct (shard_size_bounds k 0 Hk). nia.
    - rewrite andb_false_r. rewrite <- (firstn_all (padded k data)).
      replace (length (padded k data)) with (length data) by lia. apply padded_prefix. }
  rewrite Hdec in Hfull. unfold readECChunk. rewrite (proj2 (Nat.ltb_lt 0 k) Hk).
  destruct (_ && _) eqn:Hg; [|exact Hfull].
  repeat (apply andb_prop in Hg as [Hg ?]).
  destruct (readECWindow net chunk k m off n (ck_Size chunk)) as [out|] eqn:E; [|exact Hfull].
  rewrite Hsz in *. apply (readECWindow_sound net data cw) in E; [|done|done|lia|lia|apply shard_fits; lia].
  subst out. f_equal. unfold part. rewrite (proj2 (Z.ltb_lt 0 n)) by lia. by rewrite Z.max_r by lia.
Qed.

(** ** Writes *)

Lemma pushes_spec plan shards : forall reps i ps,
  pushes plan shards i reps = Ok ps ->
  length ps = length reps /\
  forall j p, ps !! j = Some p -> pu_index p = (i + j)%nat /\ reps !! j = Some (pu_rep p) /\
    shards !! (i + j)%nat = Some (pu_data p).
Proof.
  induction reps as [|r reps IH]; intros i ps; cbn [pushes].
  - intros [= <-]. split; [done|]. intros j p Hj. by rewrite lookup_nil in Hj.
  - destruct (plan !! i) as [q|]; [|done]. destruct (shards !! i) as [s|] eqn:Hs; [|done]. intros E.
    apply bind_Ok_inv in E as (rest & Hr & [= <-]). destruct (IH _ _ Hr) as [Hl Hp]. split; [cbn; by rewrite Hl|].
    intros [|j] p Hj; cbn in Hj.
    + injection Hj as <-. cbn. rewrite Nat.add_0_r. done.
    + destruct (Hp _ _ Hj) as (H1 & H2 & H3). rewrite <- Nat.add_succ_comm. done.
Qed.

Lemma landed_indices (ps : list push) (P : push -> Prop) `{forall p, Decision (P p)} :
  (forall j p, ps !! j = Some p -> pu_index p = j) -> NoDup (pu_index <$> filter P ps).
Proof.
  intros Hp. apply NoDup_fmap_2_strong.
  - intros p q Hp' Hq' E. apply list_elem_of_filter in Hp' as [_ Hp']. apply list_elem_of_filter in Hq' as [_ Hq'].
    apply list_elem_of_lookup in Hp' as [a Ha]. apply list_elem_of_lookup in Hq' as [b Hb].
    pose proof (Hp _ _ Ha). pose proof (Hp _ _ Hb). assert (a = b) as -> by congruence. congruence.
  - apply NoDup_filter, NoDup_alt. intros a b p Ha Hb. pose proof (Hp _ _ Ha). pose proof (Hp _ _ Hb). congruence.
Qed.

(** C13: an acknowledged write can be read back. When a direct write of
    erasure-coded data succeeds, whichever pushes failed, a later read of
    the chunk succeeds with the data first (and zeros behind it) provided
    the nodes that acknowledged a shard answer for it, the others answering
    or not, and the row holds no shorter size: [K] acknowledgements are
    enough to read, and a write of no bytes is never acknowledged. *)
Theorem ec_write_then_read auth send sum chunk data ps net chunk' :
  bytes_wf data -> writeECShardDirect auth send sum chunk k m data = (ps, Ok tt) ->
  (forall i r, ck_Replicas chunk !! i = Some r -> ri_ShardIndex r = Z.of_nat i) ->
  ck_Replicas chunk' = ck_Replicas chunk -> (ck_Size chunk' <= 0 \/ Z.of_nat (length data) <= ck_Size chunk') ->
  (forall ph r i off n d, net ph r (Z.of_nat i) off n = Ok d ->
     exists p, p ∈ ps /\ pu_index p = i /\ d = served off n (pu_data p)) ->
  (forall p, p ∈ ps -> push_outcome send p = Ok tt -> is_ok (net Full (pu_rep p) (Z.of_nat (pu_index p)) 0 0) = true) ->
  exists out, readECChunk net chunk' k m 0 0 = Ok out /\ take (length data) out = data /\ data <> [].
Proof.
  intros Hw E Hidx Hreps Hsz Hnet Hack. unfold writeECShardDirect in E. destruct auth as [a|]; [|done].
  assert (data <> []) as Hne.
  { intros ->. destruct (Encode_empty (k := k) (m := m)) as [e He]. by rewrite He in E. }
  destruct (Encode_coded (k := k) (m := m) data Hw Hne) as (r & Er & C). rewrite Er in E. cbv zeta in E.
  set (cw := er_DataShards r ++ er_ParityShards r) in *.
  destruct (ea_Plan a _ _ _) as [plan|]; [|done]. destruct (negb _); [done|].
  destruct (pushes plan cw 0 (ck_Replicas chunk)) as [ps'|] eqn:Hp; [|done].
  destruct (Nat.ltb_spec (length (filter (fun p => push_outcome send p = Ok tt) ps')) k) as [|Hk]; [done|].
  destruct (ea_Record a _ _ _ _ _) as [[]|]; [|done]. injection E as <-.
  destruct (pushes_spec _ _ _ _ _ Hp) as [Hpl Hps]. cbn [Nat.add] in Hps.
  assert (honest net cw) as Hh.
  { intros ph q i off n d Hd. destruct (Hnet _ _ _ _ _ _ Hd) as (p & Hin & <- & ->).
    apply list_elem_of_lookup in Hin as [j Hj]. destruct (Hps _ _ Hj) as (-> & _ & Hs). eauto. }
  set (landed := filter (fun p => push_outcome send p = Ok tt) ps') in *.
  assert (NoDup (pu_index <$> landed)) as Hnd by (apply landed_indices; intros j p Hj; by apply Hps in Hj as [? _]).
  set (I := take k (pu_index <$> landed)).
  assert (Forall (reaches (k := k) (m := m) net (ck_Replicas chunk')) I) as HI.
  { apply Forall_take, Forall_fmap, Forall_forall. intros p Hl. apply list_elem_of_filter in Hl as [Hok Hin].
    pose proof (Hack p Hin Hok) as Hn. apply list_elem_of_lookup in Hin as [j Hj].
    destruct (Hps _ _ Hj) as (Hi & Hr & Hs). cbn. split.
    - rewrite Hi. apply lookup_lt_Some in Hs. by rewrite (coded_length _ _ C) in Hs.
    - destruct (net Full (pu_rep p) (Z.of_nat (pu_index p)) 0 0) as [d|] eqn:Hd; [|done].
      exists (pu_rep p), d. split; [rewrite Hreps; by eapply list_elem_of_lookup_2|]. split; [rewrite Hi; by apply Hidx|].
      unfold push_outcome in Hok. unfold readECShardRange. case_bool_decide; [done|]. exact Hd. }
  exists (decoded (k := k) chunk' data). split; [|split; [|done]].
  - unfold readECChunk. rewrite andb_false_r. cbn [andb].
    rewrite (full_read_exact net data cw chunk' 0 0 I C Hh); [done| | |exact HI].
    + unfold I. rewrite <- (take_drop k (pu_index <$> landed)) in Hnd. by apply NoDup_app in Hnd as [? _].
    + unfold I. rewrite length_take, length_fmap. fold landed in Hk. lia.
  - unfold decoded. destruct (_ && _) eqn:Hc; [|apply padded_prefix]. apply andb_prop in Hc as [Hc1 Hc2].
    rewrite take_take, Nat.min_l by lia. apply padded_prefix.
Qed.
(** ** Reads with a size that is not the length *)

(** A range inside one shard is one window. *)
Lemma one_window S i w n :
  0 < S < 2 ^ 31 -> (i < k)%nat -> 0 <= w -> 0 < n -> w + n <= S ->
  windows k S (S * Z.of_nat i + w) (S * Z.of_nat i + w + n) = [mkWindow i w (w + n)].
Proof.
  intros HS Hi Hw Hn Hle. unfold windows.
  assert (forall l, (forall j, j ∈ l -> j <> i) ->
    omap (window_in S (S * Z.of_nat i + w) (S * Z.of_nat i + w + n)) l = []) as Hout.
  { induction l as [|j l IH]; intros Hj; [done|]. cbn. rewrite IH by (intros; apply Hj; by right).
    assert (j <> i) as Hne by (apply Hj; by left). unfold window_in.
    destruct (Z.leb_spec (S * Z.of_nat j + S) (S * Z.of_nat i + w)); [done|].
    destruct (Z.leb_spec (S * Z.of_nat i + w + n) (S * Z.of_nat j)); [done|].
    destruct (Nat.lt_total i j) as [?|[?|?]]; nia. }
  replace k with (i + (1 + (k - i - 1)))%nat by lia. rewrite !seq_app, !omap_app, (Hout (seq 0 i)), (Hout (seq (0 + i + 1) _)).
  - cbn [app omap list_omap seq Nat.add]. unfold window_in. destruct (Z.leb_spec (S * Z.of_nat i + S) (S * Z.of_nat i + w)); [lia|].
    destruct (Z.leb_spec (S * Z.of_nat i + w + n) (S * Z.of_nat i)); [lia|]. cbn [orb app].
    rewrite !int32_small by lia. do 2 f_equal; lia.
  - intros j Hj. apply elem_of_seq in Hj. lia.
  - intros j Hj. apply elem_of_seq in Hj. lia.
Qed.

Lemma fetch_window_serves net cw (reps : gmap Z ReplicaInfo) ph i w r s :
  honest net cw -> window_wf w -> reps !! Z.of_nat i = Some r -> ri_Addr r <> [] ->
  is_ok (net ph r (Z.of_nat i) (w_start w) (w_end w - w_start w)) = true ->
  cw !! i = Some s -> w_end w <= Z.of_nat (length s) ->
  fetch_window net reps ph i w = Some (cut (w_start w) (w_end w) s).
Proof.
  intros Hh [W0 W1] Hr Ha Hok Hs Hle. unfold fetch_window. rewrite Hr. cbn. unfold readECShardRange.
  rewrite bool_decide_false by done.
  destruct (net ph r _ _ _) as [d|] eqn:E; [|done]. apply Hh in E as (s' & Hs' & ->).
  assert (s' = s) as -> by congruence. unfold served. rewrite (proj2 (Z.leb_gt _ _)) by lia.
  unfold field. rewrite Nat.min_l by lia. rewrite length_take, length_drop.
  rewrite (proj2 (Z.eqb_eq _ _)) by lia. f_equal. rewrite cut_field. f_equal. lia.
Qed.

(** C40: a size that is not the length makes reads wrong. When the row's
    size is larger than the data (the allocation cap, which direct writes
    leave in place), the window path assumes shards of [S] bytes where they
    have fewer. A range in the [i]-th assumed shard that fits the true one
    passes the check on lengths, so the read answers, with all nodes healthy, the bytes [i * (S - s)] positions too early. *)
Theorem ec_cap_sized_read_shifted net data cw chunk i w n r :
  let S := (ck_Size chunk + Z.of_nat k - 1) / Z.of_nat k in
  let s := Z.of_nat (shard_size k (length data)) in
  coded (k := k) (m := m) data cw -> honest net cw ->
  ck_ECStripeID chunk <> [] -> 0 < ck_Size chunk <= MaxChunkSize -> s <= S ->
  (i < k)%nat -> 0 <= w -> 0 < n -> w + n <= s -> S * Z.of_nat i + w + n <= ck_Size chunk ->
  by_index (ck_Replicas chunk) !! Z.of_nat i = Some r -> ri_Addr r <> [] ->
  is_ok (net Direct r (Z.of_nat i) w n) = true ->
  readECChunk net chunk k m (S * Z.of_nat i + w) n =
  Ok (cut (s * Z.of_nat i + w) (s * Z.of_nat i + w + n) (padded k data)).
Proof.
  intros S s C Hh Hid Hsz HsS Hi Hw Hn Hle Hend Hr Ha Hok. pose proof (@rs_positive _ k m RL) as Hk.
  pose proof C as (_ & Hp & _).
  assert (0 < S <= MaxChunkSize) as HS.
  { split; [lia|]. unfold S. apply Z.div_le_upper_bound; [lia|]. unfold MaxChunkSize in *. nia. }
  assert (MaxChunkSize <= (MaxChunkSize + Z.of_nat k - 1) / Z.of_nat k * Z.of_nat k) as Hcap.
  { pose proof (Z_div_mod_eq_full (MaxChunkSize + Z.of_nat k - 1) (Z.of_nat k)) as Hd.
    pose proof (Z.mod_pos_bound (MaxChunkSize + Z.of_nat k - 1) (Z.of_nat k)). lia. }
  unfold readECChunk. rewrite (proj2 (Nat.ltb_lt 0 k) Hk), bool_decide_false by done. cbn [negb andb].
  rewrite (proj2 (Z.ltb_lt 0 n) Hn), (proj2 (Z.leb_le 0 _)), (proj2 (Z.ltb_lt _ (_ * Z.of_nat k))),
    (proj2 (Z.ltb_lt 0 (ck_Size chunk))), (proj2 (Z.leb_le (ck_Size chunk) _)) by nia. cbn [andb].
  unfold readECWindow. fold S. rewrite Z.min_l by lia. rewrite (proj2 (Z.leb_gt _ _)) by lia.
  rewrite one_window by (unfold MaxChunkSize in *; lia). cbn [gather w_shard].
  pose proof (coded_shard data cw i C Hi) as Hsh.
  remember (take _ (drop _ (padded k data))) as sh eqn:Esh in Hsh.
  rewrite (fetch_window_serves net cw _ Direct i (mkWindow i w (w + n)) r sh Hh); [|split; cbn; lia|done|done| |exact Hsh|].
  - rewrite bind_Ok, bind_Ok, app_nil_r. f_equal. cbn [w_start w_end]. subst sh. rewrite !cut_field.
    rewrite <- skipn_firstn_comm. unfold s in *. set (s' := shard_size k (length data)) in *.
    replace (Z.to_nat (Z.of_nat s' * Z.of_nat i + w + n) - Z.to_nat (Z.of_nat s' * Z.of_nat i + w))%nat
      with (Z.to_nat (w + n) - Z.to_nat w)%nat by lia.
    rewrite !skipn_firstn_comm, take_take, drop_drop, Nat.min_l by lia. do 2 f_equal. lia.
  - cbn [w_start w_end]. replace (w + n - w) with n by lia. exact Hok.
  - cbn [w_end]. subst sh. rewrite length_take, length_drop, padded_length by done. fold s. nia.
Qed.
End Theorems.

(** ** The data node's coder and the gateway's *)

Section Interop.
Context `{RSLib, RL : !RSLaws 6 3}.

Lemma count_true_present shards : count_true (present <$> shards) = count_present shards.
Proof.
  unfold count_true, count_present. induction shards as [|s shards IH]; [done|].
  destruct s as [|x s]; [exact IH|exact (f_equal S IH)].
Qed.

Lemma part_max_length whole part n :
  all_of_length n whole -> some_of whole part -> (0 < count_present part)%nat ->
  foldr Nat.max O (length <$> part) = n.
Proof.
  intros Ha Hs. unfold count_present. induction Hs as [|w s whole part Hws Hs IH]; [cbn; lia|].
  apply Forall_cons in Ha as [[Hw _] Ha]. rewrite filter_cons. cbn [fmap list_fmap foldr].
  assert (forall p, Forall2 (fun w s => s = [] \/ s = w) whole p -> (foldr Nat.max O (length <$> p) <= n)%nat) as Hle.
  { clear -Ha. intros p Hp. induction Hp as [|w s whole p Hws Hp IH]; [cbn; lia|].
    apply Forall_cons in Ha as [[Hw _] Ha]. specialize (IH Ha). destruct Hws as [->| ->]; cbn; lia. }
  destruct (decide (s <> [])) as [Hne|Hne].
  - intros _. destruct Hws as [->| ->]; [done|]. specialize (Hle _ Hs). lia.
  - intros Hc. rewrite (IH Ha Hc). destruct (decide (s = [])) as [->|]; [done|tauto].
Qed.

Lemma encodeEC63_shards data :
  match encodeEC63 data with
  | Ok shards => Encode 6 3 data = Ok (mkECResult (take 6 shards) (drop 6 shards) 9)
  | Err _ => exists e, Encode 6 3 data = Err e
  end.
Proof.
  unfold encodeEC63, Encode, split_shards, padded, shard_size, ec63Data, ec63Parity. cbv zeta.
  destruct (rs_Encode 6 3 _) as [out|e]; eauto.
Qed.

Lemma Decode_present shards n :
  length shards = 9%nat -> (6 <= count_present shards)%nat ->
  Decode 6 3 shards (shardPresence shards) n = (let! (_, d) := rebuild 6 3 shards n in Ok d).
Proof.
  intros Hl Hc. unfold Decode, shardPresence. rewrite length_fmap, Hl. cbn [Nat.eqb Nat.add negb orb].
  rewrite count_true_present.
  rewrite (proj2 (Nat.ltb_ge _ _)) by done. do 2 f_equal. clear.
  induction shards as [|s shards IH]; [done|]. cbn [fmap list_fmap zip_with]. rewrite IH. f_equal.
  unfold present. case_bool_decide as E; [by rewrite E|done].
Qed.

(** C14: the two coders are interchangeable and round trip. What the data
    node encodes is what the gateway would encode; from any six or more of
    its nine shards the data node's two decoders and the gateway's give the
    data back, the first with all nine shards as they were; from fewer than
    six, all three refuse. *)
Theorem ec63_roundtrip data shards part :
  bytes_wf data -> encodeEC63 data = Ok shards -> some_of shards part ->
  let n := Z.of_nat (length data) in
  Encode 6 3 data = Ok (mkECResult (take 6 shards) (drop 6 shards) 9) /\
  ((6 <= count_present part)%nat ->
     reconstructEC63 part n = Ok (shards, data) /\ decodeEC63 part n = Ok data /\ ReconstructEC63 part n = Ok data /\
     ec63PaddedLen part = Z.of_nat (length (padded 6 data))) /\
  ((count_present part < 6)%nat ->
     is_ok (reconstructEC63 part n) = false /\ is_ok (decodeEC63 part n) = false /\ is_ok (ReconstructEC63 part n) = false).
Proof.
  intros Hw E Hs n. pose proof (encodeEC63_shards data) as He. rewrite E in He. split; [exact He|].
  assert (data <> []) as Hne.
  { intros ->. destruct (Encode_empty (k := 6) (m := 3)) as [e Hx]. by rewrite Hx in He. }
  destruct (Encode_coded (k := 6) (m := 3) data Hw Hne) as (r & Er & C). rewrite He in Er. injection Er as <-.
  cbn [er_DataShards er_ParityShards] in C. rewrite take_drop in C.
  pose proof (some_of_length _ _ Hs) as Hl. rewrite (coded_length _ _ C) in Hl. cbn [Nat.add] in Hl.
  pose proof (padded_length 6 data (Nat.lt_0_succ 5)) as Hp.
  destruct (shard_size_bounds 6 (length data) (Nat.lt_0_succ 5)) as [Hb _].
  split; intros Hc.
  - assert (rebuild 6 3 part n = Ok (shards, data)) as Hr.
    { rewrite (rebuild_coded data shards part n C Hs Hc) by lia. unfold n. by rewrite Nat2Z.id, padded_prefix. }
    unfold reconstructEC63, decodeEC63, ReconstructEC63, ec63_check, ec63Shards, ec63Data, ec63Parity.
    rewrite Hl, (proj2 (Nat.ltb_ge _ _)) by done. cbn [Nat.eqb negb]. rewrite !bind_Ok, Decode_present, Hr by done.
    repeat split; [done..|]. unfold ec63PaddedLen, ec63Data.
    rewrite (part_max_length shards part (shard_size 6 (length data))); [lia| |done|lia].
    by destruct C as ((_ & Ha & _) & _).
  - unfold reconstructEC63, decodeEC63, ReconstructEC63, ec63_check, ec63Shards, ec63Data, Decode, shardPresence.
    rewrite length_fmap, Hl, count_true_present. cbn [Nat.eqb negb Nat.add orb].
    by rewrite (proj2 (Nat.ltb_lt _ _)) by done.
Qed.
End Interop.
