(* ===== verification/GaloisCode.v ===== *)
(** * A code that meets the library's laws

    A systematic code over the field of 256 elements (the polynomial
    [x^8+x^4+x^3+x^2+1] of the library, a Cauchy matrix for the parity) with
    6 data and 3 parity shards, the parameters of the data node's stripes.
    It is an instance of [RSLaws]: the results on stripes speak of something.

    Coding is linear over exclusive or, so that decoding undoes encoding is
    checked on the 48 unit vectors for each pattern of lost shards, by
    evaluation; the rest is linearity. *)

From stdpp Require Import base list numbers strings.
From Stdlib Require Import ZArith Lia.
From S2P Require Import Prelude Bytes StorageTypes ErasureCode.

Local Open Scope Z_scope.
Local Open Scope go_scope.

(** ** The field *)

Definition xtime (a : Z) : Z := if 128 <=? a then Z.lxor (2 * a) 285 else 2 * a.

Fixpoint gmul_bits (n : nat) (a x : Z) : Z :=
  match n with
  | O => 0
  | S n => if x =? 0 then 0
           else Z.lxor (if Z.testbit x 0 then a else 0) (gmul_bits n (xtime a) (Z.shiftr x 1))
  end.

Definition gmul (a x : Z) : Z := gmul_bits 8 a x.

Definition ginv (a : Z) : Z :=
  default 0 (snd <$> list_find (fun x => gmul a x = 1) (Z.of_nat <$> seq 1 255)).

Lemma lxor_swap a b c d : Z.lxor (Z.lxor a b) (Z.lxor c d) = Z.lxor (Z.lxor a c) (Z.lxor b d).
Proof. rewrite !Z.lxor_assoc. f_equal. rewrite <- !Z.lxor_assoc. f_equal. apply Z.lxor_comm. Qed.

Lemma gmul_bits_0 n a : gmul_bits n a 0 = 0.
Proof. by destruct n. Qed.

Lemma gmul_bits_S n a x :
  gmul_bits (S n) a x = Z.lxor (if Z.testbit x 0 then a else 0) (gmul_bits n (xtime a) (Z.shiftr x 1)).
Proof.
  cbn [gmul_bits]. destruct (Z.eqb_spec x 0) as [->|]; [|done]. by rewrite Z.shiftr_0_l, gmul_bits_0.
Qed.

Lemma gmul_bits_lxor n : forall a x y,
  gmul_bits n a (Z.lxor x y) = Z.lxor (gmul_bits n a x) (gmul_bits n a y).
Proof.
  induction n as [|n IH]; intros a x y; [done|]. rewrite !gmul_bits_S.
  rewrite Z.shiftr_lxor, IH, lxor_swap, Z.lxor_spec. f_equal.
  destruct (Z.testbit x 0), (Z.testbit y 0); cbn [xorb]; rewrite ?Z.lxor_nilpotent, ?Z.lxor_0_l, ?Z.lxor_0_r; done.
Qed.

Lemma u8_lxor x y : is_u8 x -> is_u8 y -> is_u8 (Z.lxor x y).
Proof.
  unfold uintw. intros Hx Hy.
  rewrite <- (Z.mod_small x (2 ^ 8)), <- (Z.mod_small y (2 ^ 8)) by lia.
  rewrite <- !Z.land_ones by lia.
  assert (Z.lxor (Z.land x (Z.ones 8)) (Z.land y (Z.ones 8)) = Z.land (Z.lxor x y) (Z.ones 8)) as ->.
  { apply Z.bits_inj'. intros n Hn. rewrite Z.lxor_spec, !Z.land_spec, Z.lxor_spec.
    by destruct (Z.testbit x n), (Z.testbit y n), (Z.testbit (Z.ones 8) n). }
  rewrite Z.land_ones by lia. apply Z.mod_pos_bound. lia.
Qed.

Lemma xtime_u8 a : is_u8 a -> is_u8 (xtime a).
Proof.
  unfold xtime. intros Ha. unfold uintw in Ha. destruct (Z.leb_spec 128 a) as [Hge|Hlt]; [|unfold uintw; lia].
  replace (Z.lxor (2 * a) 285) with (Z.lxor (2 * a - 256) 29).
  - apply u8_lxor; unfold uintw; lia.
  - replace (2 * a) with (Z.lxor 256 (2 * a - 256)) at 2.
    + rewrite (Z.lxor_comm 256), Z.lxor_assoc. done.
    + rewrite <- Z.add_nocarry_lxor; [lia|]. apply Z.bits_inj'. intros n Hn. rewrite Z.land_spec, Z.bits_0.
      change 256 with (2 ^ 8). rewrite Z.pow2_bits_eqb by lia. destruct (Z.eqb_spec 8 n) as [<-|]; [|done].
      cbn [andb]. apply Z.bits_above_log2; [lia|]. destruct (decide (2 * a - 2 ^ 8 = 0)) as [->|]; [done|].
      apply Z.log2_lt_pow2; lia.
Qed.

Lemma gmul_bits_u8 n : forall a x, is_u8 a -> is_u8 (gmul_bits n a x).
Proof.
  induction n as [|n IH]; intros a x Ha; [done|]. rewrite gmul_bits_S. apply u8_lxor; [by destruct (Z.testbit x 0)|].
  by apply IH, xtime_u8.
Qed.

(** ** Vectors and matrices *)

Definition xorl : list Z -> list Z -> list Z := zip_with Z.lxor.
Definition zeros (n : nat) : list Z := replicate n 0.
Definition dot (row col : list Z) : Z := foldr Z.lxor 0 (zip_with gmul row col).
Definition mat_mul (M : list (list Z)) (col : list Z) : list Z := (fun row => dot row col) <$> M.

Definition parity_matrix : list (list Z) :=
  Eval vm_compute in (fun i => (fun j => ginv (Z.lxor (Z.of_nat i) (Z.of_nat j))) <$> seq 0 6) <$> seq 6 3.

Definition code_column (data : list Z) : list Z := data ++ mat_mul parity_matrix data.

(** The entries of a column that are present. *)
Fixpoint select {A} (mask : list bool) (l : list A) : list A :=
  match mask, l with
  | b :: mask, x :: l => if b then x :: select mask l else select mask l
  | _, _ => []
  end.

(** Gauss-Jordan elimination of the rows [todo], column by column. *)
Definition clear_column (c : nat) (pivot row : list Z) : list Z :=
  xorl row (gmul (default 0 (row !! c)) <$> pivot).

Fixpoint eliminate (n c : nat) (done todo : list (list Z)) : list (list Z) :=
  match n with
  | O => done
  | S n =>
      match list_find (fun row => default 0 (row !! c) <> 0) todo with
      | None => done
      | Some (i, row) =>
          let pivot := gmul (ginv (default 0 (row !! c))) <$> row in
          eliminate n (S c) ((clear_column c pivot <$> done) ++ [pivot])
            (clear_column c pivot <$> delete i todo)
      end
  end.

Definition unit_row (n i : nat) : list Z := <[i := 1]> (zeros n).
Definition generator : list (list Z) := (unit_row 6 <$> seq 0 6) ++ parity_matrix.

(** Patterns of present shards. *)
Fixpoint masks (n : nat) : list (list bool) :=
  match n with
  | O => [[]]
  | S n => (cons true <$> masks n) ++ (cons false <$> masks n)
  end.

Definition enough (bs : list bool) : bool := (6 <=? length (select bs bs))%nat.

(** The first [n] shards of a pattern. *)
Fixpoint first_of (n : nat) (bs : list bool) : list bool :=
  match bs with
  | [] => []
  | true :: bs => match n with O => false :: first_of O bs | S n => true :: first_of n bs end
  | false :: bs => false :: first_of n bs
  end.

(** The inverses of all choices of six rows. *)
Definition decode_table : list (list bool * list (list Z)) :=
  Eval vm_compute in
  (fun bs => (bs, drop 6 <$> eliminate 6 0 [] (zip_with app (select bs generator) (unit_row 6 <$> seq 0 6))))
  <$> filter (fun bs => length (select bs bs) = 6%nat) (masks 9).

Definition decode_column (D : list (list Z)) (bs : list bool) (col : list Z) : list Z :=
  mat_mul D (select bs col).

(** The data bytes of a column from its present bytes. *)
Definition decode_present (bs : list bool) (col : list Z) : list Z :=
  let bs := first_of 6 bs in
  default [] ((fun e => decode_column (snd (snd e)) bs col) <$> list_find (fun e => fst e = bs) decode_table).

(** ** Linearity *)

Lemma xorl_length a b : length a = length b -> length (xorl a b) = length b.
Proof. intros E. unfold xorl. rewrite length_zip_with. lia. Qed.

Lemma dot_xorl : forall row a b, length a = length b -> dot row (xorl a b) = Z.lxor (dot row a) (dot row b).
Proof.
  unfold dot, xorl. induction row as [|r row IH]; intros a b E; [done|].
  destruct a as [|x a], b as [|y b]; try done. cbn [zip_with foldr]. injection E as E.
  rewrite IH by done. unfold gmul. by rewrite gmul_bits_lxor, lxor_swap.
Qed.

Lemma mat_mul_xorl M a b : length a = length b -> mat_mul M (xorl a b) = xorl (mat_mul M a) (mat_mul M b).
Proof.
  intros E. unfold mat_mul. induction M as [|r M IH]; [done|]. cbn. by rewrite IH, dot_xorl.
Qed.

Lemma xorl_app a b c d : length a = length b -> xorl (a ++ c) (b ++ d) = xorl a b ++ xorl c d.
Proof. unfold xorl. apply zip_with_app. Qed.

Lemma code_column_xorl a b : length a = length b -> code_column (xorl a b) = xorl (code_column a) (code_column b).
Proof. intros E. unfold code_column. by rewrite mat_mul_xorl, xorl_app. Qed.

Lemma select_xorl (bs : list bool) : forall a b : list Z,
  length a = length b -> select bs (xorl a b) = xorl (select bs a) (select bs b).
Proof.
  unfold xorl. induction bs as [|[] bs IH]; intros [|x a] [|y b] E; try done; injection E as E; cbn; by rewrite IH.
Qed.

Lemma select_length (bs : list bool) : forall a b : list Z,
  length a = length b -> length (select bs a) = length (select bs b).
Proof.
  induction bs as [|[] bs IH]; intros [|x a] [|y b] E; try done; injection E as E; cbn; auto.
Qed.

Lemma decode_column_xorl D bs a b :
  length a = length b -> decode_column D bs (xorl a b) = xorl (decode_column D bs a) (decode_column D bs b).
Proof.
  intros E. unfold decode_column. rewrite select_xorl, mat_mul_xorl; [done| |done].
  by apply select_length.
Qed.

(** ** Unit vectors span *)

Fixpoint units (n : nat) : list (list Z) :=
  match n with
  | O => []
  | S n => ((fun b => 2 ^ Z.of_nat b :: zeros n) <$> seq 0 8) ++ (cons 0 <$> units n)
  end.

Lemma xorl_zeros_l l : xorl (zeros (length l)) l = l.
Proof. unfold xorl, zeros. induction l as [|x l IH]; [done|]. cbn. by rewrite IH. Qed.

Lemma byte_span (Q : Z -> Prop) n :
  Q 0 -> (forall x y, Q x -> Q y -> Q (Z.lxor x y)) -> (forall b, (b < n)%nat -> Q (2 ^ Z.of_nat b)) ->
  forall x, 0 <= x < 2 ^ Z.of_nat n -> Q x.
Proof.
  intros H0 Hx. induction n as [|n IH]; intros Hb x Hr; [by replace x with 0 by lia|].
  rewrite Nat2Z.inj_succ, Z.pow_succ_r in Hr by lia.
  destruct (Z.lt_ge_cases x (2 ^ Z.of_nat n)) as [Hlt|Hge]; [apply IH; auto with lia|].
  replace x with (Z.lxor (2 ^ Z.of_nat n) (x - 2 ^ Z.of_nat n)).
  - apply Hx; [apply Hb; lia|]. apply IH; [auto with lia|lia].
  - rewrite <- Z.add_nocarry_lxor; [lia|]. apply Z.bits_inj'. intros i Hi. rewrite Z.land_spec, Z.bits_0.
    rewrite Z.pow2_bits_eqb by lia. destruct (Z.eqb_spec (Z.of_nat n) i) as [<-|]; [|done]. cbn [andb].
    destruct (decide (x - 2 ^ Z.of_nat n = 0)) as [->|]; [apply Z.bits_0|].
    apply Z.bits_above_log2; [lia|]. apply Z.log2_lt_pow2; lia.
Qed.

Lemma vector_span n : forall (Q : list Z -> Prop),
  Q (zeros n) -> (forall a b, length a = n -> length b = n -> Q a -> Q b -> Q (xorl a b)) -> Forall Q (units n) ->
  forall l, length l = n -> bytes_wf l -> Q l.
Proof.
  induction n as [|n IH]; intros Q H0 Hx Hu l Hl Hw; [by destruct l|].
  destruct l as [|x l]; [done|]. injection Hl as Hl. apply Forall_cons in Hw as [Hxb Hw].
  cbn [units] in Hu. apply Forall_app in Hu as [Hu1 Hu2].
  assert (length (zeros n) = n) as Hz by apply length_replicate.
  assert (xorl (zeros n) (zeros n) = zeros n) as Hzz by (rewrite <- Hz at 1; apply xorl_zeros_l).
  replace (x :: l) with (xorl (x :: zeros n) (0 :: l)).
  - apply Hx; [cbn; lia|cbn; lia| |].
    + apply (byte_span (fun y => Q (y :: zeros n)) 8); [exact H0| | |exact Hxb].
      * intros a b Ha Hb. rewrite <- Hzz. apply (Hx (a :: zeros n) (b :: zeros n)); [cbn; lia|cbn; lia|done|done].
      * intros b Hb. rewrite Forall_forall in Hu1. apply Hu1, list_elem_of_fmap. exists b. split; [done|].
        apply elem_of_seq. lia.
    + apply (IH (fun y => Q (0 :: y))); [done| |exact (proj1 (Forall_fmap _ _ _) Hu2)|done|done].
      intros a b Ha Hb Qa Qb. apply (Hx (0 :: a) (0 :: b)); [cbn; lia|cbn; lia|done|done].
  - unfold xorl. cbn. rewrite Z.lxor_0_r. f_equal. rewrite <- Hl. apply xorl_zeros_l.
Qed.

(** ** Decoding undoes encoding *)

Lemma masks_all n : forall bs, length bs = n -> bs ∈ masks n.
Proof.
  induction n as [|n IH]; intros [|b bs] E; try done; [by left|]. injection E as E. cbn.
  apply elem_of_app. destruct b; [left|right]; apply list_elem_of_fmap; eauto.
Qed.

Lemma table_complete :
  forallb (fun bs => implb (enough bs) (bool_decide (first_of 6 bs ∈ decode_table.*1))) (masks 9) = true.
Proof. vm_compute. reflexivity. Qed.

Definition unit_columns : list (list Z * list Z) :=
  Eval vm_compute in (fun e => (e, code_column e)) <$> zeros 6 :: units 6.

Lemma unit_columns_eq : unit_columns = (fun e => (e, code_column e)) <$> zeros 6 :: units 6.
Proof. vm_compute. reflexivity. Qed.

Lemma table_inverse :
  forallb (fun e => forallb (fun c => bool_decide (decode_column (snd e) (fst e) (snd c) = fst c)) unit_columns)
    decode_table = true.
Proof. vm_compute. reflexivity. Qed.

Lemma table_decodes bs D x :
  (bs, D) ∈ decode_table -> length x = 6%nat -> bytes_wf x -> decode_column D bs (code_column x) = x.
Proof.
  intros Hin Hx Hw. pose proof table_inverse as Ht. rewrite unit_columns_eq, forallb_forall in Ht.
  specialize (Ht _ (proj1 (list_elem_of_In _ _) Hin)). cbn [fst snd] in Ht. rewrite forallb_forall in Ht.
  assert (forall e, e ∈ zeros 6 :: units 6 -> decode_column D bs (code_column e) = e) as Hu.
  { intros e He. assert (In (e, code_column e) ((fun e => (e, code_column e)) <$> zeros 6 :: units 6)) as Hi
      by (apply list_elem_of_In, list_elem_of_fmap; eauto).
    specialize (Ht _ Hi). cbn [fst snd] in Ht. by apply bool_decide_eq_true in Ht. }
  clear Ht Hin. apply (vector_span 6 (fun x => decode_column D bs (code_column x) = x)); [| | |done|done].
  - apply Hu. by left.
  - intros a b Ha Hb Ea Eb. rewrite code_column_xorl, decode_column_xorl, Ea, Eb; [done| |congruence].
    unfold code_column, mat_mul. rewrite !length_app, !length_fmap. lia.
  - apply Forall_forall. intros e He. apply Hu. by right.
Qed.

Lemma decode_code bs x :
  length bs = 9%nat -> enough bs = true -> length x = 6%nat -> bytes_wf x ->
  decode_present bs (code_column x) = x.
Proof.
  intros Hl He Hx Hw. pose proof table_complete as Hc. rewrite forallb_forall in Hc.
  specialize (Hc bs (proj1 (list_elem_of_In _ _) (masks_all 9 bs Hl))). rewrite He in Hc. cbn [implb] in Hc.
  apply bool_decide_eq_true in Hc. unfold decode_present. cbv zeta. set (f := first_of 6 bs) in *.
  destruct (list_find (fun e => fst e = f) decode_table) as [[i [f' D]]|] eqn:E.
  - apply list_find_Some in E as (Hi & Ef & _). cbn in Ef. subst f'. cbn [fmap option_fmap option_map default fst snd].
    apply table_decodes; [by eapply list_elem_of_lookup_2|done|done].
  - apply list_find_None in E. apply list_elem_of_fmap in Hc as (e & Ee & Hin). rewrite Forall_forall in E.
    by destruct (E _ Hin).
Qed.

(** ** The library's functions *)

(** Shards from their columns. *)
Definition from_columns (r n : nat) (f : nat -> list Z) : list (list Z) :=
  (fun i => (fun p => default 0 (f p !! i)) <$> seq 0 n) <$> seq 0 r.

(** The size of the present shards. *)
Definition size_of (shards : list (list Z)) : nat := default O (length <$> head (filter (fun s => s <> []) shards)).

Definition same_size (n : nat) (shards : list (list Z)) : bool :=
  forallb (fun s => negb (present s) || (length s =? n)%nat) shards.

Definition six_three (k m : nat) (shards : list (list Z)) : bool :=
  (k =? 6)%nat && (m =? 3)%nat && (length shards =? 9)%nat && same_size (size_of shards) shards.

Definition gf_Encode (k m : nat) (shards : list (list Z)) : go (list (list Z)) :=
  refuse negb (six_three k m shards && (count_present shards =? 9)%nat) with Errorf "shards" in
  Ok (take 6 shards ++ from_columns 3 (size_of shards) (fun p => mat_mul parity_matrix (column p (take 6 shards)))).

Definition gf_Reconstruct (k m : nat) (shards : list (list Z)) : go (list (list Z)) :=
  let bs := present <$> shards in
  refuse negb (six_three k m shards && enough bs) with Errorf "too few shards" in
  Ok (from_columns 9 (size_of shards) (fun p => code_column (decode_present bs (column p shards)))).

Definition gf_Verify (k m : nat) (shards : list (list Z)) : go bool :=
  refuse negb (six_three k m shards) with Errorf "shards" in
  Ok (forallb (fun p => bool_decide (column p (drop 6 shards) = mat_mul parity_matrix (column p (take 6 shards))))
        (seq 0 (size_of shards))).

#[export] Instance gf_lib : RSLib := {| rs_Encode := gf_Encode; rs_Reconstruct := gf_Reconstruct; rs_Verify := gf_Verify |}.

(** ** The laws *)

Lemma column_lookup p shards i : column p shards !! i = (fun s => default 0 (s !! p)) <$> shards !! i.
Proof. apply list_lookup_fmap. Qed.

Lemma column_from r n f p : (p < n)%nat -> length (f p) = r -> column p (from_columns r n f) = f p.
Proof.
  intros Hp Hl. apply list_eq_same_length with r; [|unfold column, from_columns; by rewrite !length_fmap, length_seq|].
  { done. }
  intros i x y Hi. rewrite column_lookup. unfold from_columns. rewrite list_lookup_fmap, lookup_seq_lt by done. cbn.
  rewrite list_lookup_fmap, lookup_seq_lt by done. cbn. intros [= <-] Hy. by rewrite Hy.
Qed.

Lemma from_columns_size r n f : (forall p, bytes_wf (f p)) -> all_of_length n (from_columns r n f).
Proof.
  intros Hf. apply Forall_fmap, Forall_forall. intros i _. cbn. rewrite length_fmap, length_seq. split; [done|].
  apply Forall_fmap, Forall_forall. intros p _. cbn. destruct (f p !! i) as [x|] eqn:E; [|done]. cbn.
  specialize (Hf p). by eapply Forall_lookup_1 in Hf.
Qed.

Lemma from_columns_shards n f shards :
  all_of_length n shards -> (forall p, (p < n)%nat -> f p = column p shards) ->
  from_columns (length shards) n f = shards.
Proof.
  intros Ha Hf. apply list_eq_same_length with (length shards); [done|unfold from_columns; by rewrite length_fmap, length_seq|].
  intros i x y Hi Hx Hy. unfold from_columns in Hx.
  rewrite list_lookup_fmap, lookup_seq_lt in Hx by done. cbn in Hx. injection Hx as <-.
  destruct (Forall_lookup_1 _ _ _ _ Ha Hy) as [Hl _].
  apply list_eq_same_length with n; [done|by rewrite length_fmap, length_seq|].
  intros p a b Hp Ha' Hb. rewrite list_lookup_fmap, lookup_seq_lt in Ha' by done. cbn in Ha'. injection Ha' as <-.
  rewrite (Hf p Hp), column_lookup, Hy. cbn. by rewrite Hb.
Qed.

Lemma mat_mul_wf M col : Forall bytes_wf M -> bytes_wf (mat_mul M col).
Proof.
  intros HM. apply Forall_fmap. eapply Forall_impl; [exact HM|]. intros row Hr. cbn. unfold dot.
  clear HM. revert col. induction Hr as [|r row Hr Hrow IH]; intros [|x col]; try done. cbn [zip_with foldr].
  apply u8_lxor; [by apply gmul_bits_u8|apply IH].
Qed.

Lemma parity_matrix_wf : Forall bytes_wf parity_matrix.
Proof. repeat constructor; unfold uintw; lia. Qed.

Lemma present_select part : length (select (present <$> part) (present <$> part)) = count_present part.
Proof.
  unfold count_present. induction part as [|s part IH]; [done|]. rewrite filter_cons. cbn [fmap list_fmap select].
  unfold present at 1. destruct (decide (s = [])) as [->|Hs].
  - rewrite bool_decide_true, decide_False by (done || tauto). exact IH.
  - rewrite bool_decide_false, decide_True by done. cbn. by rewrite <- IH.
Qed.

Lemma select_present p whole part : some_of whole part -> forall n,
  select (first_of n (present <$> part)) (column p part) = select (first_of n (present <$> part)) (column p whole).
Proof.
  intros Hs. induction Hs as [|w s whole part Hws Hs IH]; intros n; [done|]. unfold column in *.
  cbn [fmap list_fmap]. destruct Hws as [->| ->].
  - cbn [present bool_decide decide negb first_of select]. apply IH.
  - cbn [first_of]. destruct (present w); [destruct n|]; cbn [select]; [apply IH|by rewrite IH|apply IH].
Qed.

Lemma size_of_part n whole part :
  all_of_length n whole -> some_of whole part -> (0 < count_present part)%nat ->
  size_of part = n /\ same_size n part = true.
Proof.
  intros Ha Hs Hc.
  assert (forall s, s ∈ part -> s <> [] -> length s = n) as Hp.
  { intros s Hin Hne. apply list_elem_of_lookup in Hin as [i Hi]. destruct (Forall2_lookup_r _ _ _ _ _ Hs Hi) as (w & Hw & [->| ->]); [done|].
    by destruct (Forall_lookup_1 _ _ _ _ Ha Hw). }
  split.
  - unfold size_of, count_present in *. destruct (filter (fun s => s <> []) part) as [|s l] eqn:E; [cbn in Hc; lia|].
    cbn. assert (s ∈ filter (fun s => s <> []) part) as Hin by (rewrite E; by left).
    apply list_elem_of_filter in Hin as [? ?]. by apply Hp.
  - unfold same_size. apply forallb_forall. intros s Hin. apply list_elem_of_In in Hin. unfold present.
    case_bool_decide; [done|]. cbn. apply Nat.eqb_eq. by apply Hp.
Qed.

Lemma some_of_refl whole : some_of whole whole.
Proof. induction whole; constructor; auto. Qed.

Lemma whole_present n whole : all_of_length n whole -> (0 < n)%nat -> count_present whole = length whole.
Proof.
  intros Ha Hn. unfold count_present. induction Ha as [|s whole [Hs _] Ha IH]; [done|].
  rewrite filter_cons, decide_True; [cbn; by f_equal|]. intros ->. cbn in Hs. lia.
Qed.

(** The laws hold for 6 data and 3 parity shards. *)
#[export] Instance gf_laws : RSLaws 6 3.
Proof.
  refine {| rs_parity := mat_mul parity_matrix; rs_positive := Nat.lt_0_succ 5 |}.
  - intros n shards Hl Ha Hn.
    destruct (size_of_part n shards shards Ha (some_of_refl _)) as [Hz Hss]; [rewrite (whole_present n) by done; lia|].
    unfold rs_Encode, gf_lib, gf_Encode, six_three. rewrite Hz, Hss, (whole_present n), Hl by done. cbn [Nat.eqb Nat.add andb negb].
    eexists. split; [done|]. assert (length (take 6 shards) = 6%nat) as Ht by (rewrite length_take; lia).
    split; [by rewrite take_app_length'|]. split; [|split].
    + rewrite length_app, Ht. unfold from_columns. by rewrite length_fmap, length_seq.
    + apply Forall_app. split; [by apply Forall_take|]. apply from_columns_size. intros p. apply mat_mul_wf, parity_matrix_wf.
    + intros p Hp. rewrite take_app_length', drop_app_length' by done. by apply column_from.
  - intros shards Ha. unfold rs_Encode, gf_lib, gf_Encode.
    assert (count_present shards = 0%nat) as ->; [|rewrite andb_false_r; by eexists].
    unfold count_present. induction Ha as [|s shards [Hs _] Ha IH]; [done|]. rewrite filter_cons, decide_False; [done|].
    destruct s; [tauto|done].
  - intros n whole part (Hl & Ha & Hc) Hn Hs Hk. unfold rs_Reconstruct, gf_lib, gf_Reconstruct, six_three.
    destruct (size_of_part n whole part Ha Hs) as [Hz Hss]; [lia|].
    assert (enough (present <$> part) = true) as He by (unfold enough; rewrite present_select; by apply Nat.leb_le).
    rewrite Hz, Hss, He, (some_of_length _ _ Hs), Hl. cbn [Nat.eqb Nat.add andb negb]. f_equal.
    replace 9%nat with (length whole) by exact Hl. apply from_columns_shards; [done|]. intros p Hp.
    specialize (Hc p Hp). set (x := column p (take 6 whole)) in *.
    assert (column p whole = code_column x) as Ew.
    { unfold code_column. rewrite <- Hc. unfold x, column. by rewrite <- fmap_app, take_drop. }
    rewrite Ew. f_equal. transitivity (decode_present (present <$> part) (column p whole)).
    + unfold decode_present, decode_column. cbv zeta. by rewrite (select_present p whole part Hs 6).
    + rewrite Ew. apply decode_code; [by rewrite length_fmap, (some_of_length _ _ Hs)|done| |].
      * unfold x, column. rewrite length_fmap, length_take. lia.
      * apply Forall_fmap, Forall_take. eapply Forall_impl; [exact Ha|]. intros s [_ Hw]. cbn.
        destruct (s !! p) as [b|] eqn:E; [|done]. by eapply Forall_lookup_1 in Hw.
  - intros n whole (Hl & Ha & Hc) Hn. unfold rs_Verify, gf_lib, gf_Verify, six_three.
    destruct (size_of_part n whole whole Ha (some_of_refl _)) as [Hz Hss]; [rewrite (whole_present n) by done; lia|].
    rewrite Hz, Hss, Hl. cbn [Nat.eqb Nat.add andb negb]. f_equal. apply forallb_forall. intros p Hp.
    apply bool_decide_eq_true, Hc. apply in_seq in Hp. lia.
Defined.
