(* ===== verification/DataNodeShards.v ===== *)
(** * Shards and stripes on one data node

    Models the shard part of [nufs-core/datanode/server_v2.go]: each shard of
    a chunk is an extent of a shard store whose generation is the shard index
    plus one; [shardDiskOf] routes to its disk, probing the stores when it
    has no entry. On top, the 6+3 stripes of one node: write, strict and
    degraded read, repair, reheat, and the start-up scan. *)

From stdpp Require Import base list numbers strings gmap.
From Stdlib Require Import ZArith Lia.
From S2P Require Import Prelude Bytes StorageTypes Index Store StoreInterface DataNode.
From S2P Require Import Extents ErasureCode StripeIO.

Local Open Scope Z_scope.
Local Open Scope go_scope.

Definition shardGen (shardIndex : Z) : Z := u64 (shardIndex + 1).

Section Shards.
Context {B : Type} `{SS : StorageStore B}.

Abbreviation V := (V2Store B).

(** ** Routing *)

(** [v.shardDiskOf[chunkID][idx]] *)
Definition recorded (v : V) (chunkID idx : Z) : option Z := m ← v_shardDiskOf v !! chunkID; m !! idx.

Definition record_shard (chunkID idx d : Z) (v : V) : V :=
  set_shardDiskOf (<[chunkID := <[idx := d]> (default ∅ (v_shardDiskOf v !! chunkID))]> (v_shardDiskOf v)) v.

(** The probe of the shard stores, from the [d]-th on. *)
Fixpoint probe_shard (chunkID idx : Z) (n : nat) (d : Z) : N (B := B) Z :=
  match n with
  | O => retN (-1)
  | S n =>
      node! r := tryN (call_store KShard d (ss_Stat chunkID (shardGen idx))) in
      match r with
      | Ok _ => node! _ := modifyN (record_shard chunkID idx d) in retN d
      | Err _ => probe_shard chunkID idx n (d + 1)
      end
  end.

Definition shardDisk (chunkID idx : Z) : N (B := B) Z :=
  node! v := getN in
  match recorded v chunkID idx with
  | Some d => retN d
  | None => probe_shard chunkID idx (length (v_shards v)) 0
  end.

Definition leastUsedShardDisk (v : V) : go Z :=
  match v_shards v with
  | [] => Ok (-1)
  | b :: l => least_used (fun _ => Ok false) 1 l 0 (db_usedByts b)
  end.

(** [shardAccepting]: the error itself, not an error that wraps it. *)
Definition shardAccepting (d chunkID gen : Z) : N (B := B) bool :=
  node! r := tryN (call_store KShard d (ss_Stat chunkID gen)) in
  retN match r with Err ErrExtentNotFound => true | _ => false end.

(** The least used accepting disk from the [d]-th on. *)
Fixpoint least_accepting (chunkID gen : Z) (n : nat) (d best bestUsed : Z) : N (B := B) Z :=
  match n with
  | O => retN best
  | S n =>
      node! acc := shardAccepting d chunkID gen in
      node! v := getN in
      node! b := liftN (index_go (v_shards v) d) in
      if acc && (db_usedByts b <? bestUsed)
      then least_accepting chunkID gen n (d + 1) d (db_usedByts b)
      else least_accepting chunkID gen n (d + 1) best bestUsed
  end.

Definition cleanShardDiskPref (chunkID idx prefer : Z) : N (B := B) Z :=
  let gen := shardGen idx in
  node! v := getN in
  node! ok := (if (0 <=? prefer) && (prefer <? bytelen (v_shards v))
               then shardAccepting prefer chunkID gen else retN false) in
  if (ok : bool) then retN prefer
  else least_accepting chunkID gen (length (v_shards v)) 0 (-1) max_int64.

Definition cleanShardDisk (chunkID idx : Z) : N (B := B) Z := cleanShardDiskPref chunkID idx (-1).

(** ** Shards *)

Definition writeShardAt (chunkID shardIndex disk : Z) (data : list Z) : N (B := B) unit :=
  node! v := getN in
  if (disk <? 0) || (bytelen (v_shards v) <=? disk)
  then raiseN (Errorf "write shard: no shard store attached") else
  node! _ := liftN (admitDiskWrite v disk (bytelen data)) in
  node! _ := call_store KShard disk (ss_Write (mkWriteRequest chunkID (shardGen shardIndex) data)) in
  node! _ := on_backend KShard disk (fun d => add_extents 1 (add_used (bytelen data) d)) in
  modifyN (record_shard chunkID shardIndex disk).

Definition WriteShard (chunkID shardIndex : Z) (data : list Z) : N (B := B) unit :=
  node! disk := shardDisk chunkID shardIndex in
  if 0 <=? disk then writeShardAt chunkID shardIndex disk data else
  node! v := getN in
  node! disk := liftN (leastUsedShardDisk v) in
  writeShardAt chunkID shardIndex disk data.

Definition WriteShardAtDisk (chunkID shardIndex disk : Z) (data : list Z) : N (B := B) unit :=
  node! v := getN in
  if (disk <? 0) || (bytelen (v_shards v) <=? disk)
  then raiseN (Errorf "write shard at disk: no shard store") else
  writeShardAt chunkID shardIndex disk data.

Definition WriteShardAtDiskPref (chunkID shardIndex prefer : Z) (data : list Z) : N (B := B) unit :=
  let gen := shardGen shardIndex in
  node! v := getN in
  node! ok := (if (0 <=? prefer) && (prefer <? bytelen (v_shards v))
               then shardAccepting prefer chunkID gen else retN false) in
  if (ok : bool) then writeShardAt chunkID shardIndex prefer data else
  node! disk := cleanShardDiskPref chunkID shardIndex (-1) in
  writeShardAt chunkID shardIndex disk data.

(** The read of [ReadShard] and [ReadShardRange]. *)
Definition read_shard (chunkID shardIndex offset length : Z) : N (B := B) (list Z * Z) :=
  node! disk := shardDisk chunkID shardIndex in
  node! v := getN in
  if (disk <? 0) || (bytelen (v_shards v) <=? disk) then raiseN ErrExtentNotFound else
  node! res := call_store KShard disk (ss_Read (mkReadRequest chunkID (shardGen shardIndex) offset length)) in
  retN (rres_Data res, rres_Checksum res).

Definition ReadShard (chunkID shardIndex : Z) : N (B := B) (list Z * Z) := read_shard chunkID shardIndex 0 0.

Definition ReadShardRange (chunkID shardIndex offset length : Z) : N (B := B) (list Z * Z) :=
  if (offset =? 0) && (length =? 0) then ReadShard chunkID shardIndex
  else read_shard chunkID shardIndex offset length.

Definition forget_shard (chunkID idx : Z) (v : V) : V :=
  match v_shardDiskOf v !! chunkID with
  | None => v
  | Some m =>
      let m := delete idx m in
      set_shardDiskOf (if bool_decide (m = ∅) then delete chunkID (v_shardDiskOf v)
                       else <[chunkID := m]> (v_shardDiskOf v)) v
  end.

Definition DeleteShard (chunkID shardIndex : Z) : N (B := B) unit :=
  node! disk := shardDisk chunkID shardIndex in
  node! v := getN in
  if (disk <? 0) || (bytelen (v_shards v) <=? disk) then raiseN ErrExtentNotFound else
  node! _ := call_store KShard disk (ss_Delete chunkID (shardGen shardIndex)) in
  modifyN (forget_shard chunkID shardIndex).

(** ** Start *)

(** One shard store of [AttachShardStores]: its backend and the shards it
    lists, one for each chunk. *)
Definition adopt_shards (i : Z) (s : B) (m : gmap Z (gmap Z Z)) : diskBackend B * gmap Z (gmap Z Z) :=
  let (s, r) := ss_ListExtents s in
  let extents := match r with Ok l => l | Err _ => [] end in
  (mkBackend s i "" (foldr (fun e n => v_LogicalLen (le_Value e) + n) 0 extents) (bytelen extents) 0 0 0 0 0,
   fold_left (fun m e => <[le_ExtentID e := <[le_Generation e - 1 := i]> (default ∅ (m !! le_ExtentID e))]> m)
     extents m).

Fixpoint adopt_all_shards (i : Z) (stores : list B) (m : gmap Z (gmap Z Z)) :
  list (diskBackend B) * gmap Z (gmap Z Z) :=
  match stores with
  | [] => ([], m)
  | s :: stores =>
      let (b, m) := adopt_shards i s m in
      let (bs, m) := adopt_all_shards (i + 1) stores m in (b :: bs, m)
  end.

Definition AttachShardStores (stores : list B) : N (B := B) unit :=
  fun v =>
  if negb (bytelen stores =? bytelen (v_disks v))
  then (v, Err (Errorf "attach shard stores: wrong number of stores")) else
  let (bs, m) := adopt_all_shards 0 stores (v_shardDiskOf v) in
  (set_shardDiskOf m (set_stream KShard (v_shards v ++ bs) v), Ok tt).
End Shards.

(** ** Stripes *)

Section Stripes.
Context {B : Type} `{SS : StorageStore B} `{RSLib}.

(** An error of one of the steps of a stripe, with the step's name. *)
Definition wrapN {A} (msg : string) (c : N (B := B) A) : N (B := B) A :=
  node! r := tryN c in
  match r with Ok a => retN a | Err e => raiseN (Wrapf msg e) end.

(** Shards [idx], [idx+1], ... on the disks of the placement. *)
Fixpoint write_shards (chunkID : Z) (placement : list Z) (idx : nat) (shards : list (list Z)) : N (B := B) unit :=
  match shards with
  | [] => retN tt
  | shard :: shards =>
      node! disk := liftN (index_go placement (Z.of_nat idx)) in
      node! _ := wrapN "write chunk ec: shard" (WriteShardAtDisk chunkID (Z.of_nat idx) disk shard) in
      write_shards chunkID placement (S idx) shards
  end.

Definition WriteChunkEC (chunkID : Z) (data : list Z) (placement : list Z) : N (B := B) unit :=
  if negb (length placement =? ec63Shards)%nat
  then raiseN (Errorf "write chunk ec: wrong number of shard placements") else
  node! all := wrapN "write chunk ec: encode" (liftN (encodeEC63 data)) in
  write_shards chunkID placement 0 all.

(** The shards at [idxs], a missing one empty, and the missing indices. *)
Fixpoint read_shards (chunkID : Z) (idxs : list nat) : N (B := B) (list (list Z) * list nat) :=
  match idxs with
  | [] => retN ([], [])
  | idx :: idxs =>
      node! r := tryN (ReadShard chunkID (Z.of_nat idx)) in
      match r with
      | Ok (data, _) =>
          node! (shards, missing) := read_shards chunkID idxs in retN (data :: shards, missing)
      | Err e =>
          if errors_Is e ErrExtentNotFound
          then node! (shards, missing) := read_shards chunkID idxs in retN ([] :: shards, idx :: missing)
          else raiseN (Wrapf "shard" e)
      end
  end.

Definition readChunkECShards (chunkID : Z) : N (B := B) (list (list Z) * list nat) :=
  read_shards chunkID (seq 0 ec63Shards).

Definition ReadChunkEC (chunkID originalLen : Z) : N (B := B) (list Z * Z) :=
  node! (shards, missing) := wrapN "read chunk ec" (readChunkECShards chunkID) in
  if negb (bool_decide (missing = [])) then raiseN (Errorf "read chunk ec: missing shards") else
  node! data := wrapN "read chunk ec" (liftN (decodeEC63 shards originalLen)) in
  retN (data, checksumOf data).

Definition ReadChunkECDegraded (chunkID originalLen : Z) : N (B := B) (list Z * Z * list nat) :=
  node! (shards, missing) := wrapN "read chunk ec degraded" (readChunkECShards chunkID) in
  let available := (ec63Shards - length missing)%nat in
  if (available <? ec63Data)%nat then raiseN (Errorf "read chunk ec degraded: too few shards") else
  node! data := wrapN "read chunk ec degraded" (liftN (decodeEC63 shards originalLen)) in
  retN (data, checksumOf data, missing).

(** The rebuilt shards onto accepting disks. *)
Fixpoint restore_shards (chunkID : Z) (landing : list ECShard) (rebuilt : list (list Z)) (missing : list nat) :
  N (B := B) unit :=
  match missing with
  | [] => retN tt
  | idx :: missing =>
      let prefer := match landing !! idx with Some s => es_DiskID s mod 1000 | None => -1 end in
      node! disk := cleanShardDiskPref chunkID (Z.of_nat idx) prefer in
      if disk <? 0 then raiseN (Errorf "repair chunk ec: no healthy shard disk") else
      node! shard := liftN (index_go rebuilt (Z.of_nat idx)) in
      node! _ := wrapN "repair chunk ec: restore shard" (WriteShardAtDisk chunkID (Z.of_nat idx) disk shard) in
      restore_shards chunkID landing rebuilt missing
  end.

Definition RepairChunkECWithLanding (chunkID originalLen : Z) (landing : list ECShard) : N (B := B) Z :=
  node! (shards, missing) := wrapN "repair chunk ec" (readChunkECShards chunkID) in
  if bool_decide (missing = []) then retN 0 else
  let originalLen := if (originalLen <=? 0) || (ec63PaddedLen shards <? originalLen)
                     then ec63PaddedLen shards else originalLen in
  node! (rebuilt, _) := wrapN "repair chunk ec" (liftN (reconstructEC63 shards originalLen)) in
  node! _ := restore_shards chunkID landing rebuilt missing in
  retN (Z.of_nat (length missing)).

Definition RepairChunkEC (chunkID originalLen : Z) : N (B := B) Z :=
  RepairChunkECWithLanding chunkID originalLen [].

Fixpoint reheat_shards (chunkID newDisk : Z) (idx : nat) (shards : list (list Z)) : N (B := B) Z :=
  match shards with
  | [] => retN 0
  | shard :: shards =>
      node! _ := wrapN "reheat chunk ec: write shard" (WriteShardAtDisk chunkID (Z.of_nat idx) newDisk shard) in
      node! n := reheat_shards chunkID newDisk (S idx) shards in
      retN (n + 1)
  end.

Definition ReheatChunkEC (chunkID originalLen newDisk : Z) : N (B := B) Z :=
  node! v := getN in
  if (newDisk <? 0) || (bytelen (v_shards v) <=? newDisk) then raiseN (Errorf "reheat chunk ec: no shard store") else
  node! (shards, _) := wrapN "reheat chunk ec" (readChunkECShards chunkID) in
  node! (rebuilt, _) := wrapN "reheat chunk ec" (liftN (reconstructEC63 shards originalLen)) in
  reheat_shards chunkID newDisk 0 rebuilt.
End Stripes.
