(* ===== verification/DataNodeStripes.v ===== *)
(** * Stripes on one data node: reads and repair

    What the shard operations of [DataNodeShards] do to the cells of the
    shard stores and to the routing map, from the laws of the store interface
    and of the erasure-coding library. *)

From stdpp Require Import base list numbers strings gmap.
From Stdlib Require Import ZArith Lia.
From S2P Require Import Prelude Bytes StorageTypes Index Store StoreSpec Extents StoreInterface DataNode DataNodeProofs ErasureCode StripeIO StripeProofs StripeTheorems DataNodeShards.

Local Open Scope Z_scope.
Local Open Scope go_scope.

Section Shards.
Context {B : Type} {view : B -> cells} `{SL : StorageLaws B view}.

Abbreviation V := (V2Store B).
Abbreviation shard_cell v d c idx := (cell_at (view := view) v KShard d c (shardGen (Z.of_nat idx))).

(** Cells and routes stay; routes may be added. *)
Record routed (v v' : V) : Prop := mkRouted {
  rt_cells : same_cells (view := view) v v';
  rt_routes c i d : recorded v c i = Some d -> recorded v' c i = Some d
}.

#[export] Instance routed_preorder : PreOrder routed.
Proof.
  split.
  - intros v. split; [reflexivity|done].
  - intros u v w [A1 A2] [B1 B2]. split; [by etrans|]. auto.
Qed.

(** ** Routes *)

Lemma set_stream_routes k l (v : V) c i : recorded (set_stream k l v) c i = recorded v c i.
Proof. by destruct k. Qed.

Lemma call_store_routes {A} k i (f : B -> B * go A) (v v' : V) r c j :
  call_store k i f v = (v', r) -> recorded v' c j = recorded v c j.
Proof.
  unfold call_store. destruct (at_index _ _) as [d|]; [|by intros [= <- _]].
  destruct (f (db_store d)) as [b r']. intros [= <- _]. apply set_stream_routes.
Qed.

Lemma on_backend_routes k i f (v v' : V) r c j :
  on_backend k i f v = (v', r) -> recorded v' c j = recorded v c j.
Proof.
  unfold on_backend. destruct (at_index _ _) as [d|]; [|by intros [= <- _]]. intros [= <- _]. apply set_stream_routes.
Qed.

Lemma recorded_record c i d (v : V) c' i' :
  recorded (record_shard c i d v) c' i' = if bool_decide (c' = c /\ i' = i) then Some d else recorded v c' i'.
Proof.
  unfold recorded, record_shard. cbn [set_shardDiskOf v_shardDiskOf].
  destruct (decide (c' = c)) as [->|Hc].
  - rewrite lookup_insert_eq. cbn. destruct (decide (i' = i)) as [->|Hi].
    + by rewrite lookup_insert_eq, bool_decide_true.
    + rewrite lookup_insert_ne, bool_decide_false by naive_solver. by destruct (v_shardDiskOf v !! c).
  - by rewrite lookup_insert_ne, bool_decide_false by naive_solver.
Qed.

Lemma record_shard_same c i d (v : V) : same_cells (view := view) v (record_shard c i d v).
Proof. constructor; [|done|]; intros []; done. Qed.

Lemma stat_routed i c g (v v' : V) r :
  call_store KShard i (ss_Stat c g) v = (v', r) -> routed v v'.
Proof.
  intros H. split; [by apply (call_stat (view := view)) in H as [? _]|].
  intros c' j d Hd. by rewrite (call_store_routes _ _ _ _ _ _ _ _ H).
Qed.

Lemma probe_shard_routed c idx : forall n d (v v' : V) r,
  recorded v c idx = None -> probe_shard c idx n d v = (v', r) ->
  routed v v' /\ exists x, r = Ok x /\ (x = -1 \/ recorded v' c idx = Some x).
Proof.
  induction n as [|n IH]; intros d v v' r Hn; cbn [probe_shard].
  - intros [= <- <-]. split; [reflexivity|]. eauto.
  - unfold bindN, tryN, modifyN, retN.
    destruct (call_store KShard d (ss_Stat c (shardGen idx)) v) as [v1 r1] eqn:E.
    pose proof (stat_routed _ _ _ _ _ _ E) as Hr.
    pose proof (call_store_routes _ _ _ _ _ _ c idx E) as Hrec. rewrite Hn in Hrec.
    destruct r1 as [x|e].
    + intros [= <- <-]. split.
      * etrans; [exact Hr|]. split; [apply record_shard_same|]. intros c' j d' Hd. rewrite recorded_record.
        case_bool_decide as Hcj; [|done]. destruct Hcj as [-> ->]. congruence.
      * exists d. split; [done|]. right. rewrite recorded_record. by rewrite bool_decide_true.
    + intros H. apply IH in H as [H1 H2]; [|done]. split; [by etrans|done].
Qed.

Lemma shardDisk_routed c idx (v v' : V) r :
  shardDisk c idx v = (v', r) ->
  routed v v' /\ exists x, r = Ok x /\ (x = -1 \/ recorded v' c idx = Some x).
Proof.
  unfold shardDisk, bindN, getN. destruct (recorded v c idx) as [d|] eqn:E.
  - intros [= <- <-]. split; [reflexivity|]. eauto.
  - by apply probe_shard_routed.
Qed.

(** ** Reads *)

(** Shard [idx] of [c] is [s], where the routing map says. *)
Definition ready (v : V) (c : Z) (idx : nat) (s : list Z) : Prop :=
  exists d, recorded v c (Z.of_nat idx) = Some d /\ shard_cell v d c idx = Some (Live s).

Lemma ready_routed v v' c idx s : routed v v' -> ready v c idx s -> ready v' c idx s.
Proof.
  intros [Hs Hr] (d & Hd & Hc). exists d. split; [by apply Hr|]. by rewrite (sc_cells _ _ Hs).
Qed.

Lemma ReadShard_spec c idx (v v' : V) r :
  ReadShard c (Z.of_nat idx) v = (v', r) ->
  routed v v' /\ match r with Ok (s, sum) => ready v' c idx s /\ sum = checksumOf s | Err _ => True end.
Proof.
  unfold ReadShard, read_shard. unfold bindN at 1.
  destruct (shardDisk c (Z.of_nat idx) v) as [v1 r1] eqn:E1.
  apply shardDisk_routed in E1 as [H1 (d & -> & Hd)]. unfold bindN at 1, getN.
  destruct ((d <? 0) || _) eqn:Hg; [by intros [= <- <-]|]. apply orb_false_elim in Hg as [Hg _].
  unfold bindN. destruct (call_store _ _ _ v1) as [v2 r2] eqn:E2.
  pose proof (call_read (view := view) _ _ _ _ _ _ _ _ _ E2) as [Hs Hx].
  assert (routed v1 v2) as H2.
  { split; [done|]. intros c' j d' Hd'. by rewrite (call_store_routes _ _ _ _ _ _ _ _ E2). }
  destruct r2 as [res|e]; intros [= <- <-]; (split; [by etrans|]); [|done].
  destruct Hx as (s & Hc & ->). cbn [rres_Data rres_Checksum].
  assert (window (mkReadRequest c (shardGen (Z.of_nat idx)) 0 0) s = s) as -> by done. split; [|done].
  exists d. destruct Hd as [->|Hd]; [done|]. split; [by rewrite (call_store_routes _ _ _ _ _ _ _ _ E2)|].
  by rewrite (sc_cells _ _ Hs).
Qed.

Lemma read_shards_spec c : forall idxs (v v' : V) r,
  read_shards c idxs v = (v', r) ->
  routed v v' /\
  match r with
  | Ok (shards, missing) =>
      Forall2 (fun idx s => (s = [] /\ idx ∈ missing) \/ ready v' c idx s) idxs shards /\
      missing `sublist_of` idxs
  | Err _ => True
  end.
Proof.
  induction idxs as [|idx idxs IH]; intros v v' r; cbn [read_shards].
  { intros [= <- <-]. split; [reflexivity|]. split; constructor. }
  unfold bindN at 1, tryN. destruct (ReadShard c (Z.of_nat idx) v) as [v1 r1] eqn:E1.
  apply ReadShard_spec in E1 as [H1 Hx].
  destruct r1 as [[s sum]|e].
  - unfold bindN. destruct (read_shards c idxs v1) as [v2 r2] eqn:E2. apply IH in E2 as [H2 HS].
    destruct r2 as [[ss ms]|e]; intros [= <- <-]; (split; [by etrans|]); [|done]. destruct HS as [HF Hsub].
    split; [|by constructor]. constructor; [|done]. right. destruct Hx as [Hx _]. by eapply ready_routed.
  - destruct (errors_Is e ErrExtentNotFound); [|by intros [= <- <-]].
    unfold bindN. destruct (read_shards c idxs v1) as [v2 r2] eqn:E2. apply IH in E2 as [H2 HS].
    destruct r2 as [[ss ms]|e2]; intros [= <- <-]; (split; [by etrans|]); [|done]. destruct HS as [HF Hsub].
    split; [|by constructor]. constructor; [left; split; [done|by left]|].
    eapply Forall2_impl; [exact HF|]. intros i s [[-> Hi]|Hi]; [left; split; [done|by right]|by right].
Qed.

(** ** Writes *)

Lemma writeShardAt_spec c idx disk s (v v' : V) r :
  writeShardAt c (Z.of_nat idx) disk s v = (v', r) ->
  shard_cell v disk c idx = None ->
  match r with
  | Ok _ => set_cell (view := view) v v' KShard disk c (shardGen (Z.of_nat idx)) (Live s) /\
            forall c' i, recorded v' c' i =
              if bool_decide (c' = c /\ i = Z.of_nat idx) then Some disk else recorded v c' i
  | Err _ => routed v v'
  end.
Proof.
  intros E Hn. unfold writeShardAt in E. unfold bindN at 1, getN in E.
  destruct ((disk <? 0) || (bytelen (v_shards v) <=? disk)) eqn:Hg; [by injection E as <- <-|].
  apply orb_false_elim in Hg as [Hg1 Hg2]. unfold bindN at 1, liftN in E.
  destruct (admitDiskWrite v disk (bytelen s)) as [[]|e]; [|by injection E as <- <-].
  unfold bindN at 1 in E. destruct (call_store _ _ _ v) as [v1 r1] eqn:E1.
  pose proof (call_write (view := view) _ _ _ _ _ _ _ _ E1) as Hw. destruct r1 as [rc|e].
  - destruct Hw as [Hr [[_ Hs]|(x & Hx & _)]]; [|congruence].
    unfold bindN, modifyN in E. destruct (on_backend KShard disk _ v1) as [v2 r2] eqn:E2.
    pose proof (on_backend_same (view := view) KShard disk
      (fun d => add_extents 1 (add_used (bytelen s) d)) v1 v2 r2 (ltac:(by intros [])) E2) as [Hs2 Hok].
    rewrite Hok in E by (cbn [stream] in Hr |- *; pose proof (st_shape _ _ _ _ _ _ _ Hs KShard); cbn [stream] in *; lia).
    injection E as <- <-. split.
    + eapply set_cell_same; [exact Hs|]. etrans; [exact Hs2|apply record_shard_same].
    + intros c' i. rewrite recorded_record. case_bool_decide; [done|].
      by rewrite (on_backend_routes _ _ _ _ _ _ _ _ E2), (call_store_routes _ _ _ _ _ _ _ _ E1).
  - injection E as <- <-. split; [done|]. intros c' j d Hd. by rewrite (call_store_routes _ _ _ _ _ _ _ _ E1).
Qed.

Lemma shardAccepting_spec d c g (v v' : V) r :
  shardAccepting d c g v = (v', r) ->
  routed v v' /\ exists b, r = Ok b /\ (b = true -> cell_at (view := view) v KShard d c g = None).
Proof.
  unfold shardAccepting, bindN, tryN, retN. destruct (call_store _ _ _ v) as [v1 r1] eqn:E1.
  pose proof (stat_routed _ _ _ _ _ _ E1) as Hr. apply (call_stat (view := view)) in E1 as [_ Hx].
  intros [= <- <-]. split; [done|]. eexists. split; [done|]. destruct r1 as [x|[]]; done.
Qed.

Lemma least_accepting_spec c g : forall n d best used (v v' : V) r,
  (0 <= best -> cell_at (view := view) v KShard best c g = None) ->
  least_accepting c g n d best used v = (v', r) ->
  routed v v' /\ match r with Ok x => 0 <= x -> cell_at (view := view) v KShard x c g = None | Err _ => True end.
Proof.
  induction n as [|n IH]; intros d best used v v' r Hb; cbn [least_accepting].
  { intros [= <- <-]. split; [reflexivity|done]. }
  unfold bindN at 1. destruct (shardAccepting d c g v) as [v1 r1] eqn:E1.
  apply shardAccepting_spec in E1 as [H1 (acc & -> & Hacc)]. unfold bindN at 1, getN. unfold bindN at 1, liftN.
  destruct (index_go _ _) as [b|e]; [|by intros [= <- <-]].
  assert (forall x, cell_at (view := view) v1 KShard x c g = cell_at v KShard x c g) as Hc
    by (intros x; apply (sc_cells _ _ (rt_cells _ _ H1))).
  intros E. assert (routed v1 v' /\ match r with Ok x => 0 <= x -> cell_at (view := view) v1 KShard x c g = None | Err _ => True end) as [H2 Hx].
  { destruct (acc && _) eqn:Ha; (apply IH in E; [exact E|]); intros; rewrite Hc; [|by apply Hb].
    apply andb_prop in Ha as [-> _]. by apply Hacc. }
  split; [by etrans|]. destruct r as [x|]; [|done]. intros Hx0. rewrite <- Hc. by apply Hx.
Qed.

Lemma cleanShardDiskPref_spec c idx prefer (v v' : V) r :
  cleanShardDiskPref c (Z.of_nat idx) prefer v = (v', r) ->
  routed v v' /\ match r with Ok x => 0 <= x -> shard_cell v x c idx = None | Err _ => True end.
Proof.
  unfold cleanShardDiskPref. unfold bindN at 1, getN. unfold bindN at 1.
  destruct (_ && _).
  - destruct (shardAccepting _ _ _ v) as [v1 r1] eqn:E1. apply shardAccepting_spec in E1 as [H1 (b & -> & Hb)].
    destruct b; [intros [= <- <-]; split; [done|]; intros _; by apply Hb|].
    intros E. apply least_accepting_spec in E as [H2 Hx]; [|lia]. split; [by etrans|].
    destruct r as [x|]; [|done]. intros H0. rewrite <- (sc_cells _ _ (rt_cells _ _ H1)). by apply Hx.
  - unfold retN. intros E. apply least_accepting_spec in E; [exact E|lia].
Qed.
End Shards.

(** ** Repair *)

Lemma shardGen_small idx : (idx < 9)%nat -> shardGen (Z.of_nat idx) = Z.of_nat idx + 1.
Proof. intros Hi. unfold shardGen. apply wrap_small. unfold uintw. lia. Qed.

Lemma shardGen_inj i j : (i < 9)%nat -> (j < 9)%nat -> shardGen (Z.of_nat i) = shardGen (Z.of_nat j) -> i = j.
Proof. intros Hi Hj. rewrite !shardGen_small by done. lia. Qed.

Section Repair.
Context {B : Type} {view : B -> cells} `{SL : StorageLaws B view}.
Context `{RSLib, RL : !RSLaws 6 3}.
Context (c : Z) (data : list Z) (cw : list (list Z)) (C : coded (k := 6) (m := 3) data cw).

Abbreviation V := (V2Store B).
Abbreviation shard_cell v d idx := (cell_at (view := view) v KShard d c (shardGen (Z.of_nat idx))).

(** Every live shard of the chunk, wherever it is, is the stripe's. *)
Definition true_shards (v : V) : Prop :=
  forall d idx x, (idx < 9)%nat -> shard_cell v d idx = Some (Live x) -> cw !! idx = Some x.

(** What a step of a repair keeps. *)
Record progress (v v' : V) : Prop := mkProgress {
  pr_true : true_shards v';
  pr_ready idx s : (idx < 9)%nat -> ready (view := view) v c idx s -> ready (view := view) v' c idx s;
  pr_frame k i c' g : k <> KShard \/ c' <> c -> cell_at (view := view) v' k i c' g = cell_at (view := view) v k i c' g
}.

Lemma progress_trans u v w : progress u v -> progress v w -> progress u w.
Proof.
  intros [A1 A2 A3] [B1 B2 B3]. split; [done| |]; intros; [by apply B2; [|apply A2]|]. rewrite B3 by done. by apply A3.
Qed.

Lemma routed_progress v v' : true_shards v -> routed (view := view) v v' -> progress v v'.
Proof.
  intros Ht Hr. split.
  - intros d idx x Hi. rewrite (sc_cells _ _ (rt_cells _ _ Hr)). by apply Ht.
  - intros idx s _. by apply ready_routed.
  - intros k i c' g _. apply (sc_cells _ _ (rt_cells _ _ Hr)).
Qed.

Lemma wrapN_inv {A} msg (a : N (B := B) A) (v v' : V) r :
  wrapN msg a v = (v', r) -> exists r', a v = (v', r') /\ match r with Ok x => r' = Ok x | Err _ => is_ok r' = false end.
Proof.
  unfold wrapN, bindN, tryN. destruct (a v) as [v1 r1]. destruct r1 as [x|e]; intros [= <- <-]; eauto.
Qed.

Lemma write_progress idx disk s (v v' : V) r :
  true_shards v -> (idx < 9)%nat -> cw !! idx = Some s -> shard_cell v disk idx = None ->
  WriteShardAtDisk c (Z.of_nat idx) disk s v = (v', r) ->
  progress v v' /\ (is_ok r = true -> ready (view := view) v' c idx s).
Proof.
  intros Ht Hi Hs Hn. unfold WriteShardAtDisk, bindN, getN.
  destruct (_ || _); [intros [= <- <-]; split; [by apply routed_progress|done]|].
  intros E. pose proof (writeShardAt_spec (view := view) _ _ _ _ _ _ _ E Hn) as Hw.
  destruct r as [u|e]; [|split; [by apply routed_progress|done]]. destruct Hw as [Hc Hr].
  assert (ready (view := view) v' c idx s) as Hready.
  { exists disk. rewrite Hr, bool_decide_true by done. split; [done|]. by rewrite (st_cells _ _ _ _ _ _ _ Hc), bool_decide_true. }
  split; [|done]. split.
  - intros d j x Hj. rewrite (st_cells _ _ _ _ _ _ _ Hc). case_bool_decide as Hd; [|by apply Ht].
    destruct Hd as (_ & _ & _ & Hg). intros [= <-]. apply shardGen_inj in Hg as ->; done.
  - intros j x Hj (d & Hd & Hcell). destruct (decide (j = idx)) as [->|Hne].
    + assert (x = s) as -> by (pose proof (Ht d idx x Hi Hcell); congruence). done.
    + exists d. rewrite Hr, bool_decide_false by naive_solver lia. split; [done|].
      rewrite (st_cells _ _ _ _ _ _ _ Hc), bool_decide_false; [done|].
      intros (_ & _ & _ & Hg). by apply shardGen_inj in Hg.
  - intros k i c' g Hk. rewrite (st_cells _ _ _ _ _ _ _ Hc), bool_decide_false; [done|]. naive_solver.
Qed.

Lemma restore_progress landing : forall missing (v v' : V) r,
  true_shards v -> Forall (fun idx => idx < 9)%nat missing -> restore_shards c landing cw missing v = (v', r) ->
  progress v v' /\
  (is_ok r = true -> forall idx, idx ∈ missing -> exists s, cw !! idx = Some s /\ ready (view := view) v' c idx s).
Proof.
  induction missing as [|idx missing IH]; intros v v' r Ht Hm; cbn [restore_shards].
  { intros [= <- <-]. split; [by apply routed_progress|]. intros _ idx Hin. by apply not_elem_of_nil in Hin. }
  apply Forall_cons in Hm as [Hi Hm]. intros E. apply bindN_inv in E as [(d & v1 & E1 & E)|(e & E1 & ->)].
  2: { apply (cleanShardDiskPref_spec (view := view)) in E1 as [E1 _]. split; [by apply routed_progress|done]. }
  apply (cleanShardDiskPref_spec (view := view)) in E1 as [H1 Hd].
  pose proof (routed_progress _ _ Ht H1) as P1.
  destruct (Z.ltb_spec d 0) as [Hneg|Hpos]; [by injection E as <- <-|].
  assert (exists s, cw !! idx = Some s) as [s Hs].
  { apply lookup_lt_is_Some_2. rewrite (coded_length _ _ C). lia. }
  apply bindN_inv in E as [(s' & v1' & E1' & E)|(e & E1' & ->)]; unfold liftN, index_go, at_index in E1';
    rewrite (proj2 (Z.ltb_ge _ _)), Nat2Z.id, Hs in E1' by lia; [|done].
  injection E1' as <- <-.
  apply bindN_inv in E as [([] & v2 & E2 & E)|(e & E2 & ->)]; apply wrapN_inv in E2 as (r2 & E2 & Hr2).
  - apply write_progress in E2 as [P2 Hready]; [|apply P1|done|done|].
    2: { rewrite (sc_cells _ _ (rt_cells _ _ H1)). by apply Hd. }
    subst r2. specialize (Hready eq_refl).
    apply IH in E as [P3 Hrest]; [|apply P2|done]. split; [by eapply progress_trans; [|eapply progress_trans]|].
    intros Hok j Hj. apply elem_of_cons in Hj as [->|Hj]; [|by apply Hrest].
    exists s. split; [done|]. by apply P3.
  - apply write_progress in E2 as [P2 _]; [|apply P1|done|done|].
    2: { rewrite (sc_cells _ _ (rt_cells _ _ H1)). by apply Hd. }
    split; [by eapply progress_trans|done].
Qed.

(** What the nine reads of a stripe give. *)
Lemma stripe_read (v v' : V) shards missing :
  true_shards v -> readChunkECShards c v = (v', Ok (shards, missing)) ->
  routed (view := view) v v' /\ some_of cw shards /\ Forall (fun idx => idx < 9)%nat missing /\
  (9 - length missing <= count_present shards)%nat /\
  (forall idx, (idx < 9)%nat -> idx ∉ missing -> exists s, cw !! idx = Some s /\ ready (view := view) v' c idx s).
Proof.
  intros Ht E. apply (read_shards_spec (view := view)) in E as [Hr [HF Hsub]]. split; [done|].
  change ec63Shards with 9%nat in *.
  assert (true_shards v') as Ht' by (apply (routed_progress v v'); done).
  assert (forall idx s, (idx < 9)%nat -> ready (view := view) v' c idx s -> cw !! idx = Some s) as Hrt.
  { intros idx s Hi (d & _ & Hc). by eapply Ht'. }
  pose proof (Forall2_length _ _ _ HF) as Hlen. rewrite length_seq in Hlen.
  split; [|split; [|split]].
  - apply Forall2_same_length_lookup_2; [by rewrite (coded_length _ _ C)|]. intros i w s Hw Hs.
    destruct (Forall2_lookup_r _ _ _ _ _ HF Hs) as (j & Hj & HR). apply lookup_seq in Hj as [-> Hj].
    destruct HR as [[-> _]|HR]; [by left|]. right. apply Hrt in HR; [|done]. cbn in HR. congruence.
  - apply Forall_forall. intros idx Hi. eapply elem_of_sublist in Hi; [|exact Hsub]. apply elem_of_seq in Hi. lia.
  - clear Hlen Ht Hr Hsub Ht'. change 9%nat with (length (seq 0 9)).
    assert (Forall (fun i => i < 9)%nat (seq 0 9)) as Hlt by (apply Forall_forall; intros i Hi; apply elem_of_seq in Hi; lia).
    assert (NoDup (seq 0 9)) as Hnd by apply NoDup_seq.
    assert (forall (l : list nat) ss, NoDup l -> Forall (fun i => i < 9)%nat l ->
      Forall2 (fun idx s => (s = [] /\ idx ∈ missing) \/ ready (view := view) v' c idx s) l ss ->
      (length l <= length (filter (fun i => i ∈ missing) l) + count_present ss)%nat) as Hcount.
    { intros l ss. revert ss. induction l as [|i l IH]; intros ss Hn Hl HF'; [cbn; lia|].
      apply Forall2_cons_inv_l in HF' as (s & ss' & HR & HF' & ->). apply NoDup_cons in Hn as [_ Hn].
      apply Forall_cons in Hl as [Hi Hl]. specialize (IH ss' Hn Hl HF').
      unfold count_present in *. rewrite !filter_cons. cbn [length]. destruct HR as [[-> Hin]|HR].
      - rewrite decide_True by done. cbn [length]. destruct (decide ([] <> [])); cbn [length]; lia.
      - apply Hrt in HR; [|done]. assert (s <> []) as Hs.
        { intros ->. pose proof (coded_size _ _ _ _ C HR) as Hz. pose proof C as (_ & Hp & _). cbn [length] in Hz. lia. }
        rewrite (decide_True (P := s <> [])) by done. cbn [length]. destruct (decide (i ∈ missing)); cbn [length]; lia. }
    specialize (Hcount _ _ Hnd Hlt HF).
    assert (length (filter (fun i => i ∈ missing) (seq 0 9)) <= length missing)%nat; [|lia].
    apply submseteq_length, NoDup_submseteq; [by apply NoDup_filter|].
    intros i Hi. by apply list_elem_of_filter in Hi as [? _].
  - intros idx Hi Hn. assert (seq 0 9 !! idx = Some idx) as Hx by (by apply lookup_seq).
    destruct (Forall2_lookup_l _ _ _ _ _ HF Hx) as (s & Hs & [[_ HR]|HR]); [done|]. exists s. split; [|done].
    by apply Hrt.
Qed.
End Repair.

(** * Stripes on a node whose stores answer

    [ReliableStore] says what a store in working order adds to its laws: it
    answers instead of failing. Then reads and repairs of a stripe succeed. *)

Class ReliableStore (B : Type) `{SS : StorageStore B} (view : B -> cells) (up : B -> Prop) := {
  up_stat e g b b' r : up b -> ss_Stat e g b = (b', r) ->
    up b' /\ (view b !! (e, g) = None -> r = Err ErrExtentNotFound);
  up_read e g b b' r : up b -> ss_Read (mkReadRequest e g 0 0) b = (b', r) ->
    up b' /\ match view b !! (e, g) with
             | Some (Live _) => is_ok r = true
             | _ => r = Err ErrExtentNotFound
             end;
  up_write req b b' r : up b -> ss_Write req b = (b', r) ->
    up b' /\ (view b !! (wr_ExtentID req, wr_Generation req) = None -> is_ok r = true)
}.

(** A map whose faults are used up. *)
#[export] Instance cell_store_reliable : ReliableStore cell_store ct_cells (fun b => ct_faults b = []).
Proof.
  split.
  - intros e g b b' r Hb. cbn. unfold ct_call. rewrite Hb. intros [= <- <-]. split; [done|]. by intros ->.
  - intros e g b b' r Hb. cbn. unfold ct_call. rewrite Hb. cbn. intros [= <- <-]. split; [done|].
    by destruct (ct_cells b !! (e, g)) as [[]|].
  - intros req b b' r Hb. cbn. unfold ct_call, ct_Write. rewrite Hb.
    destruct (ct_cells b !! (wr_ExtentID req, wr_Generation req)) as [x|]; intros [= <- <-]; done.
Qed.

Section Reliable.
Context {B : Type} {view : B -> cells} `{SL : StorageLaws B view} {up : B -> Prop} `{RS : !ReliableStore B view up}.

Abbreviation V := (V2Store B).
Abbreviation shard_cell v d c idx := (cell_at (view := view) v KShard d c (shardGen (Z.of_nat idx))).

Definition all_up (v : V) : Prop := Forall (fun d => up (db_store d)) (v_shards v).

(** What calls on the shard stores leave alone. *)
Record same_disks (v v' : V) : Prop := mkSameDisks {
  sd_used : (db_usedByts <$> v_shards v') = (db_usedByts <$> v_shards v);
  sd_caps : v_caps v' = v_caps v
}.

#[export] Instance same_disks_preorder : PreOrder same_disks.
Proof. split; [by intros v; split|]. intros u v w [A1 A2] [B1 B2]. split; by etrans. Qed.

Lemma call_up {A} i (f : B -> B * go A) (v v' : V) r :
  (forall b b' r, up b -> f b = (b', r) -> up b') -> all_up v -> call_store KShard i f v = (v', r) ->
  all_up v' /\ same_disks v v'.
Proof.
  intros Hf Hu. unfold call_store. destruct (at_index _ _) as [d|] eqn:Hd; [|by intros [= <- _]].
  apply at_index_Some in Hd as [_ Hd]. cbn [stream] in *.
  destruct (f (db_store d)) as [b r'] eqn:E. intros [= <- _]. split.
  - apply Forall_insert; [done|]. cbn. eapply Hf; [|exact E]. by eapply Forall_lookup_1 in Hu.
  - split; [|done]. cbn. rewrite list_fmap_insert. apply list_insert_id. by rewrite list_lookup_fmap, Hd.
Qed.

Lemma stat_up i c g (v v' : V) r :
  all_up v -> call_store KShard i (ss_Stat c g) v = (v', r) ->
  all_up v' /\ same_disks v v' /\
  (0 <= i < bytelen (v_shards v) -> cell_at (view := view) v KShard i c g = None -> r = Err ErrExtentNotFound).
Proof.
  intros Hu E. destruct (call_up i (ss_Stat c g) v v' r) as [H1 H2]; [|done|done|].
  { intros b b' r' Hb Hs. by apply up_stat in Hs as [? _]. }
  split; [done|]. split; [done|]. intros Hi. unfold call_store in E. unfold cell_at.
  destruct (at_index _ _) as [d|] eqn:Hd; [|by apply at_index_None in Hd].
  destruct (ss_Stat c g (db_store d)) as [b r'] eqn:Es. injection E as _ <-.
  apply at_index_Some in Hd as [_ Hd]. eapply Forall_lookup_1 in Hu; [|exact Hd]. cbn.
  by apply up_stat in Es as [_ ?].
Qed.

(** ** Reads *)

Lemma probe_up c idx : forall n d (v v' : V) r,
  all_up v -> probe_shard c idx n d v = (v', r) -> all_up v' /\ same_disks v v'.
Proof.
  induction n as [|n IH]; intros d v v' r Hu; cbn [probe_shard]; [by intros [= <- _]|].
  unfold bindN, tryN, modifyN, retN. destruct (call_store _ _ _ v) as [v1 r1] eqn:E.
  apply stat_up in E as (U1 & S1 & _); [|done]. destruct r1 as [x|e].
  - intros [= <- _]. split; [done|]. etrans; [exact S1|]. by split.
  - intros H. apply IH in H as [U2 S2]; [|done]. split; [done|]. by etrans.
Qed.

Lemma shardDisk_up c idx (v v' : V) r : all_up v -> shardDisk c idx v = (v', r) -> all_up v' /\ same_disks v v'.
Proof.
  intros Hu. unfold shardDisk, bindN, getN. destruct (recorded _ _ _); [by intros [= <- _]|by apply probe_up].
Qed.

Lemma ReadShard_up c idx (v v' : V) r :
  all_up v -> ReadShard c (Z.of_nat idx) v = (v', r) ->
  all_up v' /\ same_disks v v' /\ (is_ok r = true \/ r = Err ErrExtentNotFound) /\
  (forall s, ready (view := view) v c idx s -> is_ok r = true).
Proof.
  intros Hu. unfold ReadShard, read_shard. unfold bindN at 1.
  destruct (shardDisk c (Z.of_nat idx) v) as [v1 r1] eqn:E1.
  pose proof (shardDisk_up _ _ _ _ _ Hu E1) as [U1 S1].
  pose proof (shardDisk_routed (view := view) _ _ _ _ _ E1) as [H1 (d & -> & Hd)].
  assert (forall s, ready (view := view) v c idx s ->
    shard_cell v1 d c idx = Some (Live s)) as Hready.
  { intros s Hs. unfold shardDisk, bindN, getN in E1. destruct Hs as (d' & Hd' & Hc). rewrite Hd' in E1.
    by injection E1 as -> ->. }
  unfold bindN at 1, getN. destruct ((d <? 0) || (bytelen (v_shards v1) <=? d)) eqn:Hg.
  { intros [= <- <-]. split; [done|]. split; [done|]. split; [by right|]. intros s Hs. apply Hready in Hs.
    unfold cell_at in Hs. destruct (at_index _ _) as [b|] eqn:Hb; [|done]. apply at_index_Some in Hb as [Hb _].
    cbn [stream] in Hb. lia. }
  unfold bindN. destruct (call_store _ _ _ v1) as [v2 r2] eqn:E2. pose proof E2 as E2'.
  apply call_up in E2 as [U2 S2]; [| |done].
  2: { intros b b' r' Hb Hs. by apply up_read in Hs as [? _]. }
  assert (same_disks v v2) as S by (by etrans).
  unfold call_store in E2'. unfold cell_at in Hready. cbn [stream] in *.
  destruct (at_index (v_shards v1) d) as [b|] eqn:Hb; [|apply at_index_None in Hb; lia].
  destruct (ss_Read _ (db_store b)) as [b' r2'] eqn:Er. injection E2' as _ ->.
  apply at_index_Some in Hb as [_ Hb]. eapply Forall_lookup_1 in U1; [|exact Hb]. apply up_read in Er as [_ Er]; [|done].
  cbn in Hready. destruct (view (db_store b) !! (c, shardGen (Z.of_nat idx))) as [[s|]|].
  - destruct r2 as [res|]; [|done]. intros [= <- <-]. repeat split; try done; try apply S. by left.
  - subst r2. intros [= <- <-]. repeat split; try done; try apply S; [by right|]. intros s Hs. by apply Hready in Hs.
  - subst r2. intros [= <- <-]. repeat split; try done; try apply S; [by right|]. intros s Hs. by apply Hready in Hs.
Qed.

Lemma read_shards_up c : forall idxs (v v' : V) r,
  all_up v -> read_shards c idxs v = (v', r) ->
  all_up v' /\ same_disks v v' /\
  exists shards missing, r = Ok (shards, missing) /\ length shards = length idxs /\
    missing `sublist_of` idxs /\ forall idx s, idx ∈ missing -> ~ ready (view := view) v c idx s.
Proof.
  induction idxs as [|idx idxs IH]; intros v v' r Hu; cbn [read_shards].
  { intros [= <- <-]. split; [done|]. split; [done|]. exists [], []. repeat split; try done.
    intros idx s Hi. by apply not_elem_of_nil in Hi. }
  unfold bindN at 1, tryN. destruct (ReadShard c (Z.of_nat idx) v) as [v1 r1] eqn:E1.
  pose proof (ReadShard_spec (view := view) _ _ _ _ _ E1) as [H1 _].
  apply ReadShard_up in E1 as (U1 & S1 & Hr & Hread); [|done].
  destruct r1 as [[x sum]|e].
  - unfold bindN. destruct (read_shards c idxs v1) as [v2 r2] eqn:E2.
    apply IH in E2 as (U2 & S2 & ss & ms & -> & Hl & Hsub & Hm); [|done].
    intros [= <- <-]. split; [done|]. split; [by etrans|]. exists (x :: ss), ms. split; [done|].
    split; [cbn; by rewrite Hl|]. split; [by constructor|]. intros i s Hi Hs. eapply Hm; [exact Hi|]. by eapply ready_routed.
  - destruct Hr as [Hr|Hr]; [done|]. injection Hr as ->. change (errors_Is ErrExtentNotFound ErrExtentNotFound) with true.
    unfold bindN. destruct (read_shards c idxs v1) as [v2 r2] eqn:E2.
    apply IH in E2 as (U2 & S2 & ss & ms & -> & Hl & Hsub & Hm); [|done].
    intros [= <- <-]. split; [done|]. split; [by etrans|]. exists ([] :: ss), (idx :: ms). split; [done|].
    split; [cbn; by rewrite Hl|]. split; [by constructor|]. intros i s Hi Hs. apply elem_of_cons in Hi as [->|Hi].
    + by apply Hread in Hs.
    + eapply Hm; [exact Hi|]. by eapply ready_routed.
Qed.
(** ** Placement and writes *)

Abbreviation used v := (db_usedByts <$> v_shards v).

Lemma same_disks_length (v v' : V) : same_disks v v' -> bytelen (v_shards v') = bytelen (v_shards v).
Proof. intros [Hu _]. rewrite <- !(length_fmap db_usedByts). by rewrite Hu. Qed.

Lemma accepting_up d c g (v v' : V) r :
  all_up v -> 0 <= d < bytelen (v_shards v) -> shardAccepting d c g v = (v', r) ->
  all_up v' /\ same_disks v v' /\ exists b, r = Ok b /\ (cell_at (view := view) v KShard d c g = None -> b = true).
Proof.
  intros Hu Hd. unfold shardAccepting, bindN, tryN, retN. destruct (call_store _ _ _ v) as [v1 r1] eqn:E.
  apply stat_up in E as (U & S & Hn); [|done]. intros [= <- <-]. split; [done|]. split; [done|].
  eexists. split; [done|]. intros Hc. by rewrite (Hn Hd Hc).
Qed.

(** Some disk from the [lo]-th on accepts and is less used than [u]. *)
Definition acceptor (v : V) (c g lo u : Z) : Prop :=
  exists d ud, lo <= d < bytelen (v_shards v) /\ cell_at (view := view) v KShard d c g = None /\
    used v !! Z.to_nat d = Some ud /\ ud < u.

Lemma acceptor_routed (v v' : V) c g lo u :
  routed (view := view) v v' -> same_disks v v' -> acceptor v c g lo u -> acceptor v' c g lo u.
Proof.
  intros Hr S (d & ud & Hd & Hc & Hu & Hlt). exists d, ud. rewrite (same_disks_length _ _ S), (sd_used _ _ S).
  by rewrite (sc_cells _ _ (rt_cells _ _ Hr)).
Qed.

Lemma least_accepting_up c g : forall n d best u (v v' : V) r,
  all_up v -> 0 <= d -> d + Z.of_nat n = bytelen (v_shards v) -> best < bytelen (v_shards v) ->
  least_accepting c g n d best u v = (v', r) ->
  all_up v' /\ same_disks v v' /\
  exists x, r = Ok x /\ x < bytelen (v_shards v) /\ (0 <= best \/ acceptor v c g d u -> 0 <= x).
Proof.
  induction n as [|n IH]; intros d best u v v' r Hu Hd Hn Hb; cbn [least_accepting].
  { intros [= <- <-]. split; [done|]. split; [done|]. exists best. split; [done|]. split; [done|].
    intros [?|(d' & ud & Hd' & _)]; [done|lia]. }
  unfold bindN at 1. destruct (shardAccepting d c g v) as [v1 r1] eqn:E1.
  pose proof (shardAccepting_spec (view := view) _ _ _ _ _ _ E1) as [H1 _].
  apply accepting_up in E1 as (U1 & S1 & acc & -> & Hacc); [|done|lia].
  pose proof (same_disks_length _ _ S1) as Hlen. unfold bindN at 1, getN. unfold bindN at 1, liftN, index_go.
  destruct (at_index (v_shards v1) d) as [b|] eqn:Hat; [|apply at_index_None in Hat; lia].
  apply at_index_Some in Hat as [_ Hat].
  assert (used v !! Z.to_nat d = Some (db_usedByts b)) as Hub
    by (rewrite <- (sd_used _ _ S1), list_lookup_fmap, Hat; done).
  assert (forall best' u', best' < bytelen (v_shards v) ->
    least_accepting c g n (d + 1) best' u' v1 = (v', r) -> all_up v' /\ same_disks v v' /\
    exists x, r = Ok x /\ x < bytelen (v_shards v) /\ (0 <= best' \/ acceptor v c g (d + 1) u' -> 0 <= x)) as Hrec.
  { intros best' u' Hb' E. apply IH in E as (U2 & S2 & x & -> & Hx1 & Hx2); [|done|lia|lia|lia].
    split; [done|]. split; [by etrans|]. exists x. split; [done|]. split; [lia|].
    intros [?|Ha]; apply Hx2; [by left|right]. by eapply acceptor_routed. }
  destruct (acc && (db_usedByts b <? u)) eqn:Ha; intros E.
  - destruct (Hrec d (db_usedByts b)) as (U2 & S2 & x & -> & Hx1 & Hx2); [lia|done|].
    split; [done|]. split; [done|]. exists x. split; [done|]. split; [done|]. intros _. apply Hx2. by left.
  - destruct (Hrec best u) as (U2 & S2 & x & -> & Hx1 & Hx2); [lia|done|].
    split; [done|]. split; [done|]. exists x. split; [done|]. split; [done|]. intros [?|(d' & ud & Hd' & Hc & Hud & Hlt)].
    { apply Hx2. by left. }
    apply Hx2. right. destruct (decide (d' = d)) as [->|Hne].
    + exfalso. rewrite (Hacc Hc) in Ha. cbn [andb] in Ha. rewrite Hub in Hud. injection Hud as <-. lia.
    + exists d', ud. split; [lia|done].
Qed.

Lemma clean_disk_up c idx prefer (v v' : V) r :
  all_up v -> acceptor v c (shardGen idx) 0 max_int64 -> cleanShardDiskPref c idx prefer v = (v', r) ->
  all_up v' /\ same_disks v v' /\ exists x, r = Ok x /\ 0 <= x < bytelen (v_shards v).
Proof.
  intros Hu Ha. unfold cleanShardDiskPref. unfold bindN at 1, getN. unfold bindN at 1.
  assert (forall v1, routed (view := view) v v1 -> same_disks v v1 -> all_up v1 ->
    least_accepting c (shardGen idx) (length (v_shards v)) 0 (-1) max_int64 v1 = (v', r) ->
    all_up v' /\ same_disks v v' /\ exists x, r = Ok x /\ 0 <= x < bytelen (v_shards v)) as Hleast.
  { intros v1 H1 S1 U1 E. pose proof (same_disks_length _ _ S1) as Hlen.
    apply least_accepting_up in E as (U2 & S2 & x & -> & Hx1 & Hx2); [|done|lia|lia|lia].
    split; [done|]. split; [by etrans|]. exists x. split; [done|]. split; [|lia]. apply Hx2. right. by eapply acceptor_routed. }
  destruct ((0 <=? prefer) && (prefer <? bytelen (v_shards v))) eqn:Hp.
  - destruct (shardAccepting _ _ _ v) as [v1 r1] eqn:E1.
    pose proof (shardAccepting_spec (view := view) _ _ _ _ _ _ E1) as [H1 _].
    apply accepting_up in E1 as (U1 & S1 & b & -> & _); [|done|lia].
    destruct b; [|by apply Hleast]. intros [= <- <-]. split; [done|]. split; [done|]. exists prefer. split; [done|lia].
  - unfold retN. apply Hleast; [reflexivity|reflexivity|done].
Qed.

Lemma write_up c idx disk s (v v' : V) r :
  all_up v -> 0 <= disk < bytelen (v_shards v) -> shard_cell v disk c idx = None ->
  (forall d n, admitDiskWrite v d n = Ok tt) -> WriteShardAtDisk c (Z.of_nat idx) disk s v = (v', r) ->
  r = Ok tt /\ all_up v' /\ v_caps v' = v_caps v /\ bytelen (v_shards v') = bytelen (v_shards v) /\
  (forall i x, used v' !! i = Some x -> exists y, used v !! i = Some y /\ x <= y + bytelen s).
Proof.
  intros Hu Hd Hc Hadm. unfold WriteShardAtDisk, bindN, getN.
  destruct ((disk <? 0) || (bytelen (v_shards v) <=? disk)) eqn:Hg; [lia|]. unfold writeShardAt. unfold bindN at 1, getN.
  rewrite Hg. unfold bindN at 1, liftN. rewrite Hadm. unfold bindN at 1.
  destruct (call_store _ _ _ v) as [v1 r1] eqn:E1. pose proof E1 as E1'.
  apply call_up in E1 as [U1 S1]; [| |done].
  2: { intros b b' r' Hb Hs. by apply up_write in Hs as [? _]. }
  assert (is_ok r1 = true) as Hok.
  { unfold call_store in E1'. unfold cell_at in Hc. cbn [stream] in *.
    destruct (at_index (v_shards v) disk) as [b|] eqn:Hb; [|apply at_index_None in Hb; lia].
    destruct (ss_Write _ (db_store b)) as [b' r1'] eqn:Ew. injection E1' as _ ->.
    apply at_index_Some in Hb as [_ Hb]. eapply Forall_lookup_1 in Hu; [|exact Hb].
    apply up_write in Ew as [_ Ew]; [|done]. by apply Ew. }
  destruct r1 as [rc|]; [|done]. unfold bindN, modifyN, on_backend. cbn [stream].
  pose proof (same_disks_length _ _ S1) as Hlen.
  destruct (at_index (v_shards v1) disk) as [b|] eqn:Hb; [|apply at_index_None in Hb; lia].
  apply at_index_Some in Hb as [_ Hb]. intros [= <- <-]. split; [done|]. split; [|split; [|split]].
  - unfold all_up. cbn. apply Forall_insert; [done|]. cbn. by eapply Forall_lookup_1 in U1.
  - apply S1.
  - cbn. by rewrite length_insert.
  - intros i x. cbn. rewrite list_fmap_insert, list_lookup_insert. rewrite <- (sd_used _ _ S1).
    case_decide as Hi; [|intros Hx; exists x; split; [done|lia]].
    destruct Hi as [<- _]. intros [= <-]. exists (db_usedByts b). rewrite list_lookup_fmap, Hb. split; [done|]. cbn. lia.
Qed.
End Reliable.
