(* ===== verification/DataNodeStripeTheorems.v ===== *)
(** * Theorems on stripes of one data node *)

From stdpp Require Import base list numbers strings gmap.
From Stdlib Require Import ZArith Lia.
From S2P Require Import Prelude Bytes StorageTypes Index Store StoreSpec StoreInterface DataNode DataNodeProofs.
From S2P Require Import Extents ErasureCode StripeIO StripeProofs StripeTheorems.
From S2P Require Import DataNodeShards DataNodeStripes.

Local Open Scope Z_scope.
Local Open Scope go_scope.

Section Theorems.
Context {B : Type} {view : B -> cells} `{SL : StorageLaws B view} {up : B -> Prop} `{RS : !ReliableStore B view up}.
Context `{RSLib, RL : !RSLaws 6 3}.

Abbreviation V := (V2Store B).
Abbreviation shard_cell v d c idx := (cell_at (view := view) v KShard d c (shardGen (Z.of_nat idx))).
Abbreviation all_up := (all_up (up := up)).
Abbreviation ready := (ready (view := view)).
Abbreviation true_shards := (true_shards (view := view)).
Abbreviation progress := (progress (view := view)).

(** The node has every shard of the stripe, where its map says. *)
Definition complete (v : V) (c : Z) (cw : list (list Z)) : Prop :=
  forall idx, (idx < 9)%nat -> exists s, cw !! idx = Some s /\ ready v c idx s.

(** It has six of them. *)
Definition recoverable (v : V) (c : Z) : Prop :=
  exists I, NoDup I /\ length I = 6%nat /\ Forall (fun idx => (idx < 9)%nat /\ exists s, ready v c idx s) I.

(** Each lost shard has a disk that never held it, the disks have room for
    the stripe and nothing refuses writes. *)
Record can_repair (v : V) (c : Z) (size : nat) : Prop := mkCanRepair {
  cr_disk idx : (idx < 9)%nat -> (exists s, ready v c idx s) \/
    exists d, 0 <= d < bytelen (v_shards v) /\ shard_cell v d c idx = None;
  cr_room i x : (db_usedByts <$> v_shards v) !! i = Some x -> x + 9 * Z.of_nat size < max_int64;
  cr_admit d n : admitDiskWrite v d n = Ok tt
}.

Lemma encodeEC63_coded data shards :
  bytes_wf data -> encodeEC63 data = Ok shards -> coded (k := 6) (m := 3) data shards.
Proof.
  intros Hw E. pose proof (encodeEC63_shards data) as He. rewrite E in He.
  assert (data <> []) as Hne.
  { intros ->. destruct (Encode_empty (k := 6) (m := 3)) as [e Hx]. by rewrite Hx in He. }
  destruct (Encode_coded (k := 6) (m := 3) data Hw Hne) as (r & Er & C). rewrite He in Er. injection Er as <-.
  cbn [er_DataShards er_ParityShards] in C. by rewrite take_drop in C.
Qed.

(** ** Reads *)

Section Stripe.
Context (c : Z) (data : list Z) (cw : list (list Z)) (C : coded (k := 6) (m := 3) data cw).

Lemma few_missing (v : V) missing :
  recoverable v c -> missing `sublist_of` seq 0 9 -> (forall idx s, idx ∈ missing -> ~ ready v c idx s) ->
  (6 <= 9 - length missing)%nat.
Proof.
  intros (I & HnI & HlI & HI) Hsub Hm.
  assert (length (I ++ missing) <= length (seq 0 9))%nat as Hle.
  { apply submseteq_length, NoDup_submseteq.
    - apply NoDup_app. split; [done|]. split.
      + intros i Hi Hin. rewrite Forall_forall in HI. destruct (HI _ Hi) as [_ [s Hs]]. by eapply Hm.
      + eapply sublist_NoDup; [apply NoDup_seq|exact Hsub].
    - intros i Hi. apply elem_of_app in Hi as [Hi|Hi].
      + rewrite Forall_forall in HI. destruct (HI _ Hi) as [? _]. apply elem_of_seq. lia.
      + by eapply elem_of_sublist in Hi; [|exact Hsub]. }
  rewrite length_app, length_seq in Hle. lia.
Qed.

(** Decoding the shards a stripe read gave. *)
Lemma decode_read shards n :
  some_of cw shards -> (6 <= count_present shards)%nat -> 0 <= n <= Z.of_nat (length (padded 6 data)) ->
  reconstructEC63 shards n = Ok (cw, take (Z.to_nat n) (padded 6 data)).
Proof.
  intros Hs Hc Hn. unfold reconstructEC63, ec63_check. rewrite (some_of_length _ _ Hs), (coded_length _ _ C).
  unfold ec63Shards, ec63Data. rewrite (proj2 (Nat.ltb_ge _ _)) by done. cbn [Nat.eqb Nat.add negb].
  rewrite bind_Ok. by apply (rebuild_coded data cw).
Qed.

Lemma degraded_exact (v v' : V) r :
  true_shards c cw v -> ReadChunkECDegraded c (Z.of_nat (length data)) v = (v', r) ->
  progress c cw v v' /\
  (forall d sum missing, r = Ok (d, sum, missing) -> d = data /\ sum = checksumOf data) /\
  (all_up v -> recoverable v c -> is_ok r = true).
Proof.
  intros Ht E. unfold ReadChunkECDegraded in E.
  assert (forall w rr, readChunkECShards c v = (w, rr) -> routed (view := view) v w) as Hro
    by (intros w rr E'; by apply (read_shards_spec (view := view)) in E' as [? _]).
  assert (forall w rr, readChunkECShards c v = (w, rr) -> all_up v -> recoverable v c ->
    exists ss ms, rr = Ok (ss, ms) /\ (6 <= 9 - length ms)%nat) as Hup.
  { intros w rr E' Hu Hrec. apply (read_shards_up (view := view) (up := up)) in E' as (_ & _ & ss & ms & -> & _ & Hsub & Hm); [|done].
    exists ss, ms. split; [done|]. by apply (few_missing v). }
  apply bindN_inv in E as [([ss ms] & v1 & E1 & E)|(e & E1 & ->)]; apply wrapN_inv in E1 as (r1 & E1 & Hr1).
  2: { split; [apply routed_progress; [done|by eapply Hro]|]. split; [done|]. intros Hu Hrec.
       destruct (Hup _ _ E1 Hu Hrec) as (ss & ms & -> & _). done. }
  subst r1. pose proof (Hro _ _ E1) as Hr. pose proof (routed_progress c cw v v1 Ht Hr) as P.
  destruct (stripe_read c data cw C v v1 ss ms Ht E1) as (_ & Hs & _ & Hc & _).
  cbv zeta in E. change ec63Shards with 9%nat in E. change ec63Data with 6%nat in E.
  destruct (Nat.ltb_spec (9 - length ms) 6) as [Hlt|Hge].
  { injection E as <- <-. split; [done|]. split; [done|]. intros Hu Hrec.
    destruct (Hup _ _ E1 Hu Hrec) as (ss' & ms' & [= <- <-] & Hm). lia. }
  assert (decodeEC63 ss (Z.of_nat (length data)) = Ok data) as Hd.
  { pose proof (padded_length 6 data (Nat.lt_0_succ 5)) as Hp.
    destruct (shard_size_bounds 6 (length data) (Nat.lt_0_succ 5)) as [Hb _].
    assert (reconstructEC63 ss (Z.of_nat (length data)) = Ok (cw, data)) as Hrc.
    { rewrite (decode_read ss) by (done || lia). by rewrite Nat2Z.id, padded_prefix. }
    unfold reconstructEC63 in Hrc. apply bind_Ok_inv in Hrc as ([] & Hck & Hrb).
    unfold decodeEC63. by rewrite Hck, bind_Ok, Hrb. }
  unfold wrapN, liftN, tryN, bindN, retN in E. rewrite Hd in E. injection E as <- <-.
  split; [done|]. split; [|done]. by intros d sum m [= <- <- _].
Qed.

(** ** Repair *)

Lemma restore_up landing : forall missing (v v' : V) r,
  all_up v -> NoDup missing -> Forall (fun idx => idx < 9)%nat missing ->
  (forall idx, idx ∈ missing -> exists d, 0 <= d < bytelen (v_shards v) /\ shard_cell v d c idx = None) ->
  (forall i x, (db_usedByts <$> v_shards v) !! i = Some x ->
     x + Z.of_nat (length missing) * Z.of_nat (shard_size 6 (length data)) < max_int64) ->
  (forall d n, admitDiskWrite v d n = Ok tt) ->
  restore_shards c landing cw missing v = (v', r) -> is_ok r = true.
Proof.
  induction missing as [|idx missing IH]; intros v v' r Hu Hnd Hlt Hacc Hroom Hadm; cbn [restore_shards]; [by intros [= _ <-]|].
  apply NoDup_cons in Hnd as [Hni Hnd]. apply Forall_cons in Hlt as [Hi Hlt].
  assert (exists s, cw !! idx = Some s) as [s Hs].
  { apply lookup_lt_is_Some_2. rewrite (coded_length _ _ C). lia. }
  pose proof (coded_size _ _ _ _ C Hs) as Hsz. set (size := shard_size 6 (length data)) in *.
  unfold bindN at 1. destruct (cleanShardDiskPref _ _ _ v) as [v1 r1] eqn:E1.
  pose proof (cleanShardDiskPref_spec (view := view) _ _ _ _ _ _ E1) as [H1 Hd].
  apply (clean_disk_up (view := view) (up := up)) in E1 as (U1 & S1 & x & -> & Hx); [|done|].
  2: { destruct (Hacc idx (list_elem_of_here _ _)) as (d & Hd0 & Hn).
       destruct (lookup_lt_is_Some_2 (db_usedByts <$> v_shards v) (Z.to_nat d)) as [u Hud]; [rewrite length_fmap; lia|].
       exists d, u. split; [lia|]. split; [done|]. split; [done|]. specialize (Hroom _ _ Hud). cbn [length] in Hroom. lia. }
  rewrite (proj2 (Z.ltb_ge x 0)) by lia. unfold bindN at 1, liftN, index_go, at_index.
  rewrite (proj2 (Z.ltb_ge _ _)), Nat2Z.id, Hs by lia.
  pose proof (same_disks_length _ _ S1) as Hlen.
  assert (forall d j, shard_cell v1 d c j = shard_cell v d c j) as Hcells by (intros; apply (sc_cells _ _ (rt_cells _ _ H1))).
  assert (shard_cell v1 x c idx = None) as Hx1 by (rewrite Hcells; apply Hd; lia).
  unfold bindN at 1. destruct (wrapN _ _ v1) as [v2 r2] eqn:E2. apply wrapN_inv in E2 as (r2' & E2 & Hr2). pose proof E2 as E2'.
  apply (write_up (view := view) (up := up)) in E2 as (-> & U2 & Hcaps & Hlen2 & Huse); [|done|lia|done|].
  2: { intros d n. unfold admitDiskWrite. rewrite (sd_caps _ _ S1). apply Hadm. }
  destruct r2 as [[]|]; [|done]. apply IH; [done|done|done| | |].
  - intros j Hj. destruct (Hacc j (list_elem_of_further _ _ _ Hj)) as (d & Hdr & Hn). exists d. split; [lia|].
    unfold WriteShardAtDisk, bindN, getN in E2'. destruct (_ || _); [done|].
    pose proof (writeShardAt_spec (view := view) _ _ _ _ _ _ _ E2' Hx1) as [Hset _].
    rewrite (st_cells _ _ _ _ _ _ _ Hset), bool_decide_false, Hcells; [done|]. intros (_ & _ & _ & Hg).
    apply shardGen_inj in Hg as ->; [done| |done]. by eapply Forall_forall in Hlt.
  - intros i y Hy. apply Huse in Hy as (z & Hz & Hle). rewrite (sd_used _ _ S1) in Hz. specialize (Hroom _ _ Hz).
    cbn [length] in Hroom. lia.
  - intros d n. unfold admitDiskWrite. rewrite Hcaps, (sd_caps _ _ S1). apply Hadm.
Qed.
End Stripe.
(** C9: a repair restores a stripe and never makes it worse. Start from any
    state in which the live shards of the chunk are the stripe's. Whatever
    the stores do, no wrong shard is ever written, a shard that could be read
    still can, and nothing of other chunks or streams changes; when the
    repair reports success all nine shards can be read. It does succeed when
    the stores answer, six shards are left, and each lost one has a disk with
    room that never held it. *)
Theorem repair_restores_stripe c data cw n landing (v v' : V) r :
  coded (k := 6) (m := 3) data cw -> true_shards c cw v -> RepairChunkECWithLanding c n landing v = (v', r) ->
  progress c cw v v' /\
  (is_ok r = true -> complete v' c cw) /\
  (all_up v -> recoverable v c -> can_repair v c (shard_size 6 (length data)) -> is_ok r = true).
Proof.
  intros C Ht E. unfold RepairChunkECWithLanding in E.
  apply bindN_inv in E as [([ss ms] & v1 & E1 & E)|(e & E1 & ->)]; apply wrapN_inv in E1 as (r1 & E1 & Hr1).
  2: { split; [apply routed_progress; [done|by apply (read_shards_spec (view := view)) in E1 as [? _]]|].
       split; [done|]. intros Hu Hrec. exfalso.
       apply (read_shards_up (view := view) (up := up)) in E1 as (_ & _ & ss & ms & -> & _); done. }
  subst r1. destruct (stripe_read c data cw C v v1 ss ms Ht E1) as (Hr & Hs & Hlt & Hc & Hrest).
  pose proof (routed_progress c cw v v1 Ht Hr) as P1.
  assert (all_up v -> recoverable v c -> all_up v1 /\ same_disks v v1 /\ NoDup ms /\ (6 <= count_present ss)%nat /\
    forall idx s, idx ∈ ms -> ~ ready v c idx s) as Hup.
  { intros Hu Hrec. apply (read_shards_up (view := view) (up := up)) in E1 as (U1 & S1 & ss' & ms' & [= <- <-] & _ & Hsub & Hm); [|done].
    pose proof (few_missing c v ms Hrec Hsub Hm). split; [done|]. split; [done|]. split; [|split; [lia|done]].
    eapply sublist_NoDup; [apply NoDup_seq|exact Hsub]. }
  case_bool_decide as Hms.
  { injection E as <- <-. split; [done|]. split; [|done]. intros _ idx Hi. apply Hrest; [done|]. rewrite Hms. apply not_elem_of_nil. }
  set (n' := if (n <=? 0) || (ec63PaddedLen ss <? n) then ec63PaddedLen ss else n) in E. cbv zeta in E.
  assert ((6 <= count_present ss)%nat -> ec63PaddedLen ss = Z.of_nat (length (padded 6 data))) as Hpad.
  { intros H6. unfold ec63PaddedLen. pose proof C as ((_ & Ha & _) & _).
    rewrite (part_max_length cw ss (shard_size 6 (length data)) Ha Hs) by lia.
    rewrite padded_length by lia. change (Z.of_nat ec63Data) with 6. lia. }
  assert ((6 <= count_present ss)%nat -> reconstructEC63 ss n' = Ok (cw, take (Z.to_nat n') (padded 6 data))) as Hrc.
  { intros H6. apply (decode_read data cw C); [done|done|]. unfold n'. rewrite (Hpad H6).
    destruct (Z.leb_spec n 0), (Z.ltb_spec (Z.of_nat (length (padded 6 data))) n); cbn [orb]; lia. }
  apply bindN_inv in E as [([rb dd] & v2 & E2 & E)|(e & E2 & ->)]; apply wrapN_inv in E2 as (r2 & E2 & Hr2);
    unfold liftN in E2; injection E2 as <- <-.
  2: { split; [done|]. split; [done|]. intros Hu Hrec _. destruct (Hup Hu Hrec) as (_ & _ & _ & H6 & _).
       by rewrite (Hrc H6) in Hr2. }
  assert (6 <= count_present ss)%nat as H6.
  { unfold reconstructEC63, ec63_check in Hr2. destruct (negb _); [done|].
    destruct (Nat.ltb_spec (count_present ss) ec63Data); [done|]. unfold ec63Data in *. lia. }
  rewrite (Hrc H6) in Hr2. injection Hr2 as <- <-.
  assert (forall w rr, restore_shards c landing cw ms v1 = (w, rr) -> progress c cw v w /\ (is_ok rr = true -> complete w c cw)) as Hres.
  { intros w rr E3. apply (restore_progress c data cw C) in E3 as [P3 H3]; [|apply P1|done].
    split; [by eapply progress_trans|]. intros Hok idx Hi. destruct (decide (idx ∈ ms)) as [Hin|Hin]; [by apply H3|].
    destruct (Hrest idx Hi Hin) as (s & Hcs & Hrd). exists s. split; [done|]. by apply P3. }
  assert (forall w rr, restore_shards c landing cw ms v1 = (w, rr) ->
    all_up v -> recoverable v c -> can_repair v c (shard_size 6 (length data)) -> is_ok rr = true) as Htot.
  { intros w rr E3 Hu Hrec [K1 K2 K3]. destruct (Hup Hu Hrec) as (U1 & S1 & Hnd & _ & Hno).
    eapply (restore_up c data cw C landing ms v1 w rr U1 Hnd Hlt); [| | |exact E3].
    - intros idx Hin. pose proof (proj1 (Forall_forall _ _) Hlt _ Hin) as Hi.
      destruct (K1 idx Hi) as [[s Hs']|(d & Hd & Hn)]; [by destruct (Hno _ s Hin)|].
      exists d. rewrite (same_disks_length _ _ S1). split; [done|]. by rewrite (sc_cells _ _ (rt_cells _ _ Hr)).
    - intros i x Hx. rewrite (sd_used _ _ S1) in Hx. specialize (K2 _ _ Hx).
      assert (length ms <= 9)%nat; [|nia]. apply (read_shards_spec (view := view)) in E1 as [_ [_ Hsub]].
      by apply sublist_length in Hsub.
    - intros d k. unfold admitDiskWrite. rewrite (sd_caps _ _ S1). apply K3. }
  apply bindN_inv in E as [([] & v3 & E3 & E)|(e & E3 & ->)].
  - injection E as <- <-. destruct (Hres _ _ E3) as [P3 Hc3]. split; [done|]. split; [intros _; by apply Hc3|done].
  - destruct (Hres _ _ E3) as [P3 _]. split; [done|]. split; [done|]. by apply (Htot _ _ E3).
Qed.

(** ** Writes *)

Lemma write_shards_spec c cw placement : length cw = 9%nat -> forall shards idx (v v' : V),
  drop idx cw = shards -> true_shards c cw v -> (forall d j, (idx <= j < 9)%nat -> shard_cell v d c j = None) ->
  (forall j, (j < idx)%nat -> exists s, cw !! j = Some s /\ ready v c j s) ->
  write_shards c placement idx shards v = (v', Ok tt) -> true_shards c cw v' /\ complete v' c cw.
Proof.
  intros Hl. induction shards as [|s shards IH]; intros idx v v' Hd Ht Hf Hr; cbn [write_shards].
  { intros [= <-]. split; [done|]. intros j Hj. apply Hr. apply (f_equal length) in Hd. rewrite length_drop in Hd. cbn in Hd. lia. }
  assert (cw !! idx = Some s) as Hs by (rewrite <- (Nat.add_0_r idx), <- lookup_drop, Hd; done).
  assert (idx < 9)%nat as Hi by (apply lookup_lt_Some in Hs; lia).
  intros E. apply bindN_inv in E as [(disk & v1 & E1 & E)|(e & _ & [=])]. injection E1 as <- _.
  apply bindN_inv in E as [([] & v2 & E2 & E)|(e & _ & [=])]. apply wrapN_inv in E2 as (r2 & E2 & ->). pose proof E2 as E2'.
  assert (shard_cell v disk c idx = None) as Hn by (apply Hf; lia).
  destruct (write_progress c cw idx disk s v v2 (Ok tt) Ht Hi Hs Hn E2) as [P Hready].
  apply (IH (S idx)) in E; [done| |apply P| |].
  - replace (S idx) with (idx + 1)%nat by lia. by rewrite <- drop_drop, Hd.
  - intros d j Hj. unfold WriteShardAtDisk, bindN, getN in E2'. destruct (_ || _); [done|].
    pose proof (writeShardAt_spec (view := view) _ _ _ _ _ _ _ E2' Hn) as [Hset _].
    rewrite (st_cells _ _ _ _ _ _ _ Hset), bool_decide_false; [apply Hf; lia|]. intros (_ & _ & _ & Hg).
    apply shardGen_inj in Hg; lia.
  - intros j Hj. destruct (decide (j = idx)) as [->|Hne]; [exists s; split; [done|by apply Hready]|].
    destruct (Hr j ltac:(lia)) as (s' & Hs' & Hrd). exists s'. split; [done|]. apply P; [lia|done].
Qed.

(** Losing a shard leaves the others true. *)
Lemma delete_true c cw i (u w : V) r : true_shards c cw u -> DeleteShard c i u = (w, r) -> true_shards c cw w.
Proof.
  intros Ht E. unfold DeleteShard in E.
  apply bindN_inv in E as [(d & v1 & E1 & E)|(e & E1 & ->)]; apply (shardDisk_routed (view := view)) in E1 as [H1 _].
  2: { intros d' idx x Hi. rewrite (sc_cells _ _ (rt_cells _ _ H1)). by apply Ht. }
  assert (true_shards c cw v1) as T1.
  { intros d' idx x Hi. rewrite (sc_cells _ _ (rt_cells _ _ H1)). by apply Ht. }
  unfold bindN at 1, getN in E. destruct (_ || _); [by injection E as <- _|].
  assert (forall v2 r2, call_store KShard d (ss_Delete c (shardGen i)) v1 = (v2, r2) -> true_shards c cw v2) as T2.
  { intros v2 r2 E2. apply (call_delete (view := view)) in E2 as [Hs|(x & _ & Hs)]; intros d' idx y Hi.
    - rewrite (sc_cells _ _ Hs). by apply T1.
    - rewrite (st_cells _ _ _ _ _ _ _ Hs). case_bool_decide; [done|by apply T1]. }
  apply bindN_inv in E as [([] & v2 & E2 & E)|(e & E2 & ->)]; apply T2 in E2; [|done].
  injection E as <- _. unfold forget_shard. by destruct (v_shardDiskOf v2 !! c).
Qed.

(** C15: what a node stores as a stripe it reads back. A successful write of
    a chunk the shard stores know nothing of leaves all nine shards where
    the routing map says. From then on, in any state whose live shards of
    the chunk are the stripe's, which losing shards preserves, a degraded
    read returns exactly the data and its checksum, if it returns, and it
    does return while the stores answer and six shards are left. *)
Theorem stripe_written_then_read c data placement (v v1 : V) :
  bytes_wf data -> (forall d j, (j < 9)%nat -> shard_cell v d c j = None) ->
  WriteChunkEC c data placement v = (v1, Ok tt) ->
  exists cw, encodeEC63 data = Ok cw /\ coded (k := 6) (m := 3) data cw /\ true_shards c cw v1 /\ complete v1 c cw /\
    (forall i u w r, true_shards c cw u -> DeleteShard c i u = (w, r) -> true_shards c cw w) /\
    (forall u u' r, true_shards c cw u -> ReadChunkECDegraded c (Z.of_nat (length data)) u = (u', r) ->
     progress c cw u u' /\
     (forall d sum missing, r = Ok (d, sum, missing) -> d = data /\ sum = checksumOf data) /\
     (all_up u -> recoverable u c -> is_ok r = true)).
Proof.
  intros Hw Hf E. unfold WriteChunkEC in E. destruct (negb _); [done|].
  apply bindN_inv in E as [(cw & v0 & E0 & E)|(e & _ & [=])]. apply wrapN_inv in E0 as (r0 & E0 & ->).
  injection E0 as <- Henc. pose proof (encodeEC63_coded data cw Hw Henc) as C.
  assert (true_shards c cw v) as Ht by (intros d idx x Hi Hx; by rewrite Hf in Hx).
  destruct (write_shards_spec c cw placement (coded_length _ _ C) cw 0 v v1) as [T1 K1];
    [by rewrite drop_0|done|intros; apply Hf; lia|lia|exact E|].
  exists cw. do 4 (split; [done|]). split; [intros; by eapply delete_true|]. intros. by apply (degraded_exact c data cw C).
Qed.
End Theorems.
