(* ===== verification/StripeScenario.v ===== *)
(** * Concrete stripes

    The theorems of [StripeTheorems] with the code of [GaloisCode], on a
    chunk of ten bytes in nine shards of two. *)

From stdpp Require Import base list numbers strings gmap.
From Stdlib Require Import ZArith Lia.
From S2P Require Import Prelude Bytes StorageTypes Index Store StoreSpec Extents StoreInterface DataNode DataNodeProofs DataNodeScenario ErasureCode StripeIO StripeProofs StripeTheorems GaloisCode DataNodeShards DataNodeStripes DataNodeStripeTheorems.

Local Open Scope Z_scope.
Local Open Scope go_scope.

Definition sample_data : list Z := [10; 20; 30; 40; 50; 60; 70; 80; 90; 100].

Definition sample_stripe : list (list Z) :=
  Eval vm_compute in match encodeEC63 sample_data with Ok s => s | Err _ => [] end.

(** Nine nodes, one for each shard. *)
Definition node_addr (i : nat) : list Z := [110; Z.of_nat i].
Definition stripe_replicas : list ReplicaInfo :=
  (fun i => mkReplicaInfo (Z.of_nat i) (node_addr i) 0 [] (Z.of_nat i)) <$> seq 0 9.

Definition stripe_chunk (size : Z) : ChunkMeta :=
  mkChunkMeta 5 size 0 stripe_replicas (Some (mkECGroupInfo [] [] 6 3 0)) 0 0 0 0 0 0 [115].

(** Nodes that serve their shards; [down] is who does not answer. *)
Definition stripe_net (cw : list (list Z)) (down : list nat) : network :=
  fun _ _ i off n =>
    if bool_decide (Z.to_nat i ∈ down) then Err (Errorf "connect") else
    match cw !! Z.to_nat i with
    | Some s => Ok (served off n s)
    | None => Err (Errorf "no shard")
    end.

Lemma stripe_net_honest cw down : honest (stripe_net cw down) cw.
Proof.
  intros ph r i off n d. unfold stripe_net. rewrite Nat2Z.id. case_bool_decide; [done|].
  destruct (cw !! i) as [s|]; [|done]. intros [= <-]. eauto.
Qed.

Lemma sample_wf : bytes_wf sample_data.
Proof. repeat constructor; unfold uintw; lia. Qed.

Lemma sample_coded : coded (k := 6) (m := 3) sample_data sample_stripe.
Proof.
  destruct (Encode_coded (k := 6) (m := 3) sample_data sample_wf) as (r & Er & C); [done|].
  assert (er_DataShards r ++ er_ParityShards r = sample_stripe) as <-; [|exact C].
  assert (Encode 6 3 sample_data = Ok (mkECResult (take 6 sample_stripe) (drop 6 sample_stripe) 9)) as Ec
    by (vm_compute; reflexivity).
  rewrite Er in Ec. injection Ec as ->. reflexivity.
Qed.

Lemma stripe_reaches cw down size i :
  length cw = 9%nat -> (i < 9)%nat -> i ∉ down ->
  reaches (k := 6) (m := 3) (stripe_net cw down) (ck_Replicas (stripe_chunk size)) i.
Proof.
  intros Hl Hi Hd. split; [done|]. destruct (lookup_lt_is_Some_2 cw i) as [s Hs]; [lia|].
  exists (mkReplicaInfo (Z.of_nat i) (node_addr i) 0 [] (Z.of_nat i)), s. split; [|split; [done|]].
  - apply list_elem_of_fmap. exists i. split; [done|]. apply elem_of_seq. lia.
  - unfold readECShardRange, stripe_net. cbn [ri_Addr node_addr]. rewrite bool_decide_false by done.
    rewrite Nat2Z.id, bool_decide_false, Hs by done. done.
Qed.

(** With nodes 1, 4 and 8 down, five bytes from position 3. *)
Lemma ec_read_exact_witness :
  readECChunk (stripe_net sample_stripe [1; 4; 8]%nat) (stripe_chunk 10) 6 3 3 5 = Ok [40; 50; 60; 70; 80].
Proof.
  etransitivity.
  - apply (ec_read_exact (k := 6) (m := 3) (stripe_net sample_stripe [1; 4; 8]%nat) sample_data sample_stripe
      (stripe_chunk 10) 3 5 [0; 2; 3; 5; 6; 7]%nat sample_coded).
    + apply stripe_net_honest.
    + reflexivity.
    + apply (bool_decide_unpack _). reflexivity.
    + reflexivity.
    + apply Forall_forall. intros i Hi. apply stripe_reaches; [reflexivity|..].
      * repeat (apply elem_of_cons in Hi as [->|Hi]; [lia|]). by apply not_elem_of_nil in Hi.
      * repeat (apply elem_of_cons in Hi as [->|Hi]; [by apply (bool_decide_unpack _)|]).
        by apply not_elem_of_nil in Hi.
  - reflexivity.
Defined.

(** *** A write whose pushes to nodes 0 and 7 fail *)

Definition plan_of : list ECShard := (fun i => mkECShard (Z.of_nat i) (Z.of_nat i) 0) <$> seq 0 9.
Definition sample_auth : ECWriteAuthority := mkECWriteAuthority (fun _ _ _ => Ok plan_of) (fun _ _ _ _ _ => Ok tt).
Definition failing_send (p : push) : go unit :=
  if bool_decide (pu_index p ∈ [0; 7]%nat) then Err (Errorf "connect") else Ok tt.

Definition sample_pushes : list push :=
  (fun i => mkPush (mkReplicaInfo (Z.of_nat i) (node_addr i) 0 [] (Z.of_nat i)) i 0 (default [] (sample_stripe !! i)))
  <$> seq 0 9.

Lemma sample_write :
  writeECShardDirect (Some sample_auth) failing_send (fun _ => 0) (stripe_chunk MaxChunkSize) 6 3 sample_data =
  (sample_pushes, Ok tt).
Proof. vm_compute. reflexivity. Qed.

Lemma ec_write_then_read_witness :
  exists out, readECChunk (stripe_net sample_stripe [0; 7]%nat) (stripe_chunk MaxChunkSize) 6 3 0 0 = Ok out /\
    take 10 out = sample_data /\ sample_data <> [].
Proof.
  apply (ec_write_then_read (k := 6) (m := 3) (Some sample_auth) failing_send (fun _ => 0) (stripe_chunk MaxChunkSize)
    sample_data sample_pushes (stripe_net sample_stripe [0; 7]%nat) (stripe_chunk MaxChunkSize) sample_wf sample_write).
  - intros i r Hi. apply list_lookup_fmap_Some in Hi as (j & -> & Hj). apply lookup_seq in Hj as [-> _]. done.
  - reflexivity.
  - right. vm_compute. discriminate.
  - intros ph r i off n d Hd. unfold stripe_net in Hd. rewrite Nat2Z.id in Hd. case_bool_decide; [done|].
    destruct (sample_stripe !! i) as [s|] eqn:Es; [|done]. injection Hd as <-.
    exists (mkPush (mkReplicaInfo (Z.of_nat i) (node_addr i) 0 [] (Z.of_nat i)) i 0 s). split; [|done].
    apply list_elem_of_fmap. exists i. rewrite Es. split; [done|]. apply elem_of_seq.
    apply lookup_lt_Some in Es. change (length sample_stripe) with 9%nat in Es. lia.
  - intros p Hp. apply list_elem_of_fmap in Hp as (i & -> & Hi). apply elem_of_seq in Hi. unfold push_outcome.
    cbn [pu_rep pu_index ri_Addr node_addr]. rewrite bool_decide_false by done. unfold failing_send. cbn [pu_index].
    case_bool_decide as Hd; [done|]. intros _. unfold stripe_net. rewrite Nat2Z.id, bool_decide_false by done.
    destruct (lookup_lt_is_Some_2 sample_stripe i) as [s ->]; [|done]. change (length sample_stripe) with 9%nat. lia.
Defined.

(** *** A healthy chunk whose row still has the allocation cap *)

(** The window path of ten bytes under a size of 48 assumes shards of
    eight: position 8 is answered with the byte of position 2. *)
Lemma ec_cap_sized_read_shifted_witness :
  readECChunk (stripe_net sample_stripe []) (stripe_chunk 48) 6 3 8 2 = Ok [30; 40] /\
  readECChunk (stripe_net sample_stripe []) (stripe_chunk 10) 6 3 8 2 = Ok [90; 100].
Proof.
  split; [|vm_compute; reflexivity]. etransitivity.
  - apply (ec_cap_sized_read_shifted (k := 6) (m := 3) (stripe_net sample_stripe []) sample_data sample_stripe
      (stripe_chunk 48) 1 0 2 (mkReplicaInfo 1 (node_addr 1) 0 [] 1) sample_coded (stripe_net_honest _ _));
      first [done | vm_compute; intuition discriminate | vm_compute; lia | vm_compute; reflexivity].
  - vm_compute. reflexivity.
Defined.

(** *** The two coders *)

Lemma ec63_roundtrip_witness :
  let part := [[]; [30; 40]; []; [70; 80]; [90; 100]; []] ++ drop 6 sample_stripe in
  reconstructEC63 part 10 = Ok (sample_stripe, sample_data) /\ ReconstructEC63 part 10 = Ok sample_data.
Proof.
  intros part.
  destruct (ec63_roundtrip sample_data sample_stripe part sample_wf) as (_ & Hd & _).
  - vm_compute. reflexivity.
  - unfold part, sample_stripe. cbn [app drop]. repeat (constructor; [by (left + right)|]). constructor.
  - destruct Hd as (Hr & _ & Hg & _); [vm_compute; lia|]. split; [exact Hr|exact Hg].
Defined.

(** * Concrete stripes on a data node

    The theorems of [DataNodeStripeTheorems] on nodes whose stores are
    [cell_store]s, with the code of [GaloisCode], and a run in which a
    restart hides repaired shards. *)

(** [n] disks with empty shard stores. *)
Definition shard_node (n : nat) : node := (AttachShardStores (replicate n empty_store) (node_of n)).1.

(** Three shards on each of three disks. *)
Definition three_disks : list Z := [0; 0; 0; 1; 1; 1; 2; 2; 2].
Definition stripe_node : node := (WriteChunkEC 5 sample_data three_disks (shard_node 5)).1.

Definition lose (i : Z) : N (B := cell_store) unit := ignore (DeleteShard 5 i).
Definition repair : N (B := cell_store) unit := ignore (RepairChunkEC 5 10).

(** The node started again on its shard stores. *)
Definition reboot (v : node) : node :=
  (AttachShardStores (db_store <$> v_shards v) (node_of (length (v_shards v)))).1.

Definition degraded_of (v : node) : go (list Z) :=
  let! (d, _, _) := (ReadChunkECDegraded 5 10 v).2 in Ok d.
Definition strict_of (v : node) : go (list Z) :=
  let! (d, _) := (ReadChunkEC 5 10 v).2 in Ok d.

(** Two disks lost and repaired one after the other: all nine shards are
    live and the chunk reads. After a restart the routes of repaired shards
    are gone, and the probe takes the tombstones on the old disks for them:
    too few shards are found to read or to repair the chunk. *)
Example restart_hides_repaired_shards :
  let v := run_all [lose 0; lose 1; lose 2; repair; lose 3; lose 4; lose 5; repair] stripe_node in
  strict_of v = Ok sample_data /\
  degraded_of (reboot v) = Err (Errorf "read chunk ec degraded: too few shards") /\
  is_ok (RepairChunkEC 5 10 (reboot v)).2 = false.
Proof. by vm_compute. Qed.

(** *** The theorems at work *)

Lemma fresh_node d j : cell_at (view := ct_cells) (shard_node 5) KShard d 5 (shardGen (Z.of_nat j)) = None.
Proof.
  unfold cell_at. destruct (at_index (stream KShard (shard_node 5)) d) as [b|] eqn:Hb; [|done]. cbn.
  apply at_index_Some in Hb as [_ Hb].
  assert (Forall (fun b => ct_cells (db_store b) = ∅) (stream KShard (shard_node 5))) as Hall
    by (repeat constructor).
  eapply Forall_lookup_1 in Hall; [|exact Hb]. cbn in Hall. by rewrite Hall, lookup_empty.
Qed.

Lemma stripe_written_then_read_witness :
  exists cw, encodeEC63 sample_data = Ok cw /\ true_shards (view := ct_cells) 5 cw stripe_node /\
    complete (view := ct_cells) stripe_node 5 cw.
Proof.
  destruct (stripe_written_then_read (view := ct_cells) (up := fun b => ct_faults b = []) 5 sample_data three_disks
    (shard_node 5) stripe_node sample_wf) as (cw & H1 & _ & H2 & H3 & _).
  - intros d j _. apply fresh_node.
  - unfold stripe_node. etransitivity; [apply surjective_pairing|]. f_equal.
  - by exists cw.
Defined.

Lemma sample_true : true_shards (view := ct_cells) 5 sample_stripe stripe_node.
Proof.
  apply (write_shards_spec (view := ct_cells) 5 sample_stripe three_disks eq_refl sample_stripe 0 (shard_node 5) stripe_node).
  - reflexivity.
  - intros d idx x _. by rewrite fresh_node.
  - intros d j _. apply fresh_node.
  - lia.
  - vm_compute. reflexivity.
Qed.

(** The stripe without its first and its fifth shard. *)
Definition degraded_node : node := (DeleteShard 5 4 (DeleteShard 5 0 stripe_node).1).1.

Lemma degraded_true : true_shards (view := ct_cells) 5 sample_stripe degraded_node.
Proof.
  eapply (delete_true (view := ct_cells)); [|apply surjective_pairing].
  eapply (delete_true (view := ct_cells)); [apply sample_true|apply surjective_pairing].
Qed.

Lemma degraded_ready idx :
  (idx < 9)%nat -> idx <> 0%nat -> idx <> 4%nat -> exists s, ready (view := ct_cells) degraded_node 5 idx s.
Proof.
  intros H1 H2 H3. exists (default [] (sample_stripe !! idx)), (default 0 (three_disks !! idx)).
  do 9 (destruct idx as [|idx]; [first [done | split; vm_compute; reflexivity]|]). lia.
Qed.

Lemma degraded_up : all_up (up := fun b => ct_faults b = []) degraded_node.
Proof. vm_compute. repeat constructor. Qed.

Lemma degraded_recoverable : recoverable (view := ct_cells) degraded_node 5.
Proof.
  exists [1; 2; 3; 5; 6; 7]%nat. split; [apply (bool_decide_unpack _); vm_compute; done|]. split; [done|].
  repeat (constructor; [split; [lia|apply degraded_ready; lia]|]). constructor.
Qed.

Lemma degraded_space : forallb (fun x => x + 18 <? max_int64) (db_usedByts <$> v_shards degraded_node) = true.
Proof. vm_compute. reflexivity. Qed.

Lemma degraded_caps : v_caps degraded_node = [None; None; None; None; None].
Proof. vm_compute. reflexivity. Qed.

Lemma degraded_free : forallb (fun idx => (0 <=? 3) && (3 <? bytelen (v_shards degraded_node)) &&
  bool_decide (cell_at (view := ct_cells) degraded_node KShard 3 5 (shardGen (Z.of_nat idx)) = None)) [0; 4]%nat = true.
Proof. vm_compute. reflexivity. Qed.

Lemma degraded_can_repair : can_repair (view := ct_cells) degraded_node 5 2.
Proof.
  constructor.
  - intros idx Hi. pose proof degraded_free as Hf. rewrite forallb_forall in Hf.
    destruct (decide (idx ∈ [0; 4]%nat)) as [Hin|Hin].
    + right. exists 3. apply list_elem_of_In, Hf in Hin. apply andb_prop in Hin as [H1 H2].
      apply bool_decide_eq_true in H2. split; [lia|done].
    + left. apply degraded_ready; [done|intros ->; apply Hin; by left|intros ->; apply Hin; right; by left].
  - intros i x Hx. pose proof degraded_space as Hs. rewrite forallb_forall in Hs.
    apply list_elem_of_lookup_2, list_elem_of_In, Hs in Hx. lia.
  - intros d n. unfold admitDiskWrite. rewrite degraded_caps. destruct (_ || _); [done|].
    destruct (at_index _ d) as [g|] eqn:Hg; [|done]. apply at_index_Some in Hg as [_ Hg].
    assert (Forall (fun g : option CapacityGuard => g = None) [None; None; None; None; None]) as Hall by repeat constructor.
    eapply Forall_lookup_1 in Hall; [|exact Hg]. by subst.
Qed.

Lemma repair_restores_stripe_witness :
  (RepairChunkECWithLanding 5 10 [] degraded_node).2 = Ok 2 /\
  complete (view := ct_cells) (RepairChunkECWithLanding 5 10 [] degraded_node).1 5 sample_stripe.
Proof.
  destruct (repair_restores_stripe (view := ct_cells) (up := fun b => ct_faults b = []) 5 sample_data sample_stripe 10 []
    degraded_node _ _ sample_coded degraded_true (surjective_pairing _)) as (_ & Hc & Ht).
  split; [vm_compute; reflexivity|].
  exact (Hc (Ht degraded_up degraded_recoverable degraded_can_repair)).
Defined.
